(* ===== verification/_CoqProject ===== *)
-Q . S2P
Prelude.v
Text.v
Utf8.v
ShellParser.v
PathGlob.v
Segments.v
MemoryPath.v
Capability.v
Vfs.v
ShellExec.v
ShellBuiltins.v
MemoryFs.v
ReadOnlyPathGuard.v
ShellOverFs.v
PrefixMountFs.v
OverlayFs.v
MemoryStoreFs.v
NotifyingFs.v
HitIds.v
WorkflowStore.v
Hooks.v
Context.v
Budget.v
Journal.v
Supervisor.v
LlmReplay.v
Json.v
Tools.v
ToolRegistry.v
HookedFs.v
MemoryTools.v
Chunkers.v
Retention.v
Workflow.v
Provider.v
ProviderStream.v
AnthropicApi.v
Anthropic.v
OpenAiConfig.v
OpenAi.v
AgentLoop.v
AgentTurns.v
AgentReplay.v
Children.v
Supervision.v
SpawnTool.v
HttpClient.v
Integration.v
SystemFs.v
MailboxFs.v
AgentVfs.v
Guards.v
HttpFetch.v
Mutations.v
Sandbox.v
Patch.v
FsProxy.v
CellShell.v
Mcp.v
Sse.v
WasmFetch.v
McpCatalog.v
McpManager.v
Tenancy.v
Tasks.v
TaskEvents.v
Workspace.v
Engine.v
Server.v
WorkflowApi.v
Webhook.v
Scheduler.v
