(* ===== verification/Prelude.v ===== *)
(** * Simulacra: a verification library

    Simulacra runs language-model agents: an agent loop calls a provider, runs the tools the provider
    asks for inside a sandbox, and journals what happened so that a run can be replayed.  What an
    agent may do is a capability token; what it may spend, a budget; where it works, a virtual
    filesystem composed from layers.  This library models the parts that decide those questions, in
    Rust under [src/crates/], as executable definitions, and proves what they promise.

    ** The parts and where they are

    - [Prelude] (this file): Rust strings, [Result], the string and vector methods the code uses, the
      state-and-error monad [SE] for methods with [&mut self], and shared tactics and lemmas.
      [Text]: [str::find], [str::lines], [str::trim].  [Utf8]: [String::from_utf8_lossy].
    - Capabilities, [simulacra-types].  [PathGlob] is [path_glob.rs]: matching, coverage and
      intersection of path patterns.  [MemoryPath] is [memory.rs]: tenant ids, memory paths, memory
      scopes.  [Capability] is [capability.rs]: the check methods, attenuation ([is_subset_of]) and
      [intersect].
    - Filesystems, [simulacra-types] and [simulacra-vfs].  [Segments] is [path.rs]; [Vfs] is the
      trait, its data, and [atomic_paths.rs], with the class [VirtualFsLaws] of what a filesystem
      promises to what is layered on it.  [MemoryFs] is [memory.rs] and discharges the laws;
      [ReadOnlyPathGuard] ([readonly_path_guard.rs]), [PrefixMountFs] ([prefix_mount.rs]) and
      [OverlayFs] ([overlay.rs]) are decorators over any filesystem; the mount discharges the laws
      again from those of its two sides.  [NotifyingFs] ([notifying.rs]) tells watchers what changed,
      [SystemFs] ([servicefs.rs], [procfs/]) answers below [/svc] and [/proc], [MailboxFs] keeps
      artifacts in a store, [HookedFs] ([vfs_hook.rs] of [simulacra-runtime]) asks the hooks before a
      write, and [AgentVfs] is the stack of them that the server gives an agent.
    - Memory, [simulacra-memory].  [MemoryStoreFs] is the interface of a store, the buffer of recent
      writes and the layer of files over them ([memory_store_fs.rs] of [simulacra-vfs]); [HitIds] the
      cache behind the tokens of a search, [MemoryTools] the two tools that search and read,
      [Chunkers] how a document is cut, [Retention] the sweep of what has expired.
    - Tools.  [Tools] is the trait and its data ([simulacra-types/src/tool.rs]), [ToolRegistry] the
      registry and the calls behind hooks, [Patch] the patch tool ([apply_patch.rs], both of
      [simulacra-tool]).
    - Journal and budget.  [Budget] is [budget.rs] of [simulacra-types].  [Journal] is the entries
      and the storage interface, the in-memory store and its counting wrapper
      ([simulacra-runtime/src/journal.rs]), the replay iterator ([replay.rs]) and what a turn takes
      from it ([agent_loop/journal.rs]).
    - Sandbox, [simulacra-sandbox].  [Guards] is [guards.rs], [file_io.rs] and the filesystem methods
      of [AgentCell]; [Mutations] is the batch pipeline ([vfs_mutation.rs], [vfs_batch.rs],
      [vfs_state.rs], [vfs_mutation_journal.rs]); [Sandbox] puts the calls together and states what
      the cell guarantees.  They call [Capability], [Budget], a [JournalStorage] and a [VirtualFs].
      [FsProxy] is the filesystem that scripts and the shell see ([fs_proxy*.rs]), [CellShell] running
      a script or a command over it ([shell.rs], [js.rs]).
    - Shell, [simulacra-shell].  [ShellParser] is [parser.rs] and [heredoc.rs]; [ShellExec] is the
      executor and expansion, over any filesystem and any table of commands; [ShellBuiltins] the
      commands that touch files and text; [ShellOverFs] the shell over the filesystems above.
    - Supervision, [simulacra-runtime/src/supervisor/].  [Supervisor] is the state, the checks of a
      spawn, reservations and restarts; [Children] the queries, waits and the dispatcher;
      [Supervision] the steps of messages, tasks and timers and what holds after any run of them.
      They assume laws of the task factory ([FactoryLaws]), which [SpawnTool] discharges for the
      production factory, with the spawn tool's checks and names ([spawn_tool/]).
    - The agent loop, [simulacra-runtime/src/agent_loop/].  [LlmReplay] is model responses and their
      recorded form; [AgentLoop] the turn, the tool calls and the run, over an environment [Env] of
      provider, tools and humans that may change the shared [World] at every await; [AgentTurns] what
      holds of every run; [AgentReplay] that a recorded run comes back.
    - Hooks, [simulacra-hooks].  [Hooks] is [pipeline.rs] and its data.
    - Context, [simulacra-context].  [Context] is [budget.rs], [sliding_window.rs] and
      [observation_masking.rs], over the messages of [simulacra-types].
    - MCP, [simulacra-mcp].  [Mcp] is the tool grants and the errors; [Sse] the event stream of a
      tool call ([transport/sse.rs]).  [McpCatalog] is the catalog of a session ([catalog.rs]) over any
      manager of connections that keeps [McpManagerLaws]; [McpManager] is the manager of the program
      ([manager/], [transport/]) over any network and wasm engine ([McpWorld]), and discharges them.
      [WasmFetch] is what a module may send ([wasm/fetch/]).
    - The network.  [HttpClient] is [simulacra-http] and the hooks around a request
      ([hooked_client.rs]); [Integration] is [simulacra-integration]: credentials of upstream
      services, their refresh and their injection; [HttpFetch] is the fetch of an agent
      ([simulacra-sandbox/src/http.rs]) over a client, with the ways into it from scripts, modules
      and the shell.
    - Providers, [simulacra-provider].  [Json] is the operations on [serde_json] values the code uses
      ([JsonOps], with laws for those a proof needs) and a tree that has them.  [Provider] is
      requests, errors and tool pairs; [ProviderStream] the byte stream of a reply, for any
      accumulator; [AnthropicApi] and [Anthropic] the wire format and the client of one vendor;
      [OpenAiConfig] and [OpenAi] configuration, wire format and client of the other.
    - Workflows, [simulacra-workflow].  [WorkflowStore] is the data, the paths and the files of a run,
      over any filesystem; [Workflow] the runtime, whose runs are a transition system.
    - The server, [simulacra-server].  [Tenancy] is identities and tenants ([auth.rs], [tenant.rs]);
      [Tasks] the tasks and their manager ([task.rs]); [TaskEvents] what clients see of a task;
      [Workspace] the files a task starts with; [Engine] the pool and how a task is spawned ([pool.rs],
      [engine.rs]); [Server] the calls of the API ([server.rs]), [WorkflowApi] those about workflows;
      [Webhook] and [Scheduler] the other two ways a task begins ([webhook.rs], [scheduler.rs]).

    State is passed explicitly: a [&self] method over a lock or a [&mut self] method is a function
    from the state to the new state and a [result].  A [u64] or [u32] is an [N]; saturating and
    wrapping operations are written out where the code has them.  A trait is a class of operations
    over a state type, so that a decorator or a client is proved against every implementation.

    ** What the theorems show

    - Authority only shrinks.  Coverage of patterns decides inclusion of what they grant, intersection
      grants exactly what both do ([PathGlob]), a token that passes attenuation is allowed nothing its
      parent is not, and the intersection of two tokens allows exactly what both allow
      ([Capability]); the same for tool grants ([Mcp]).  Two exceptions are theorems too: a parent
      with [net:*], and a parent without skill patterns.
    - The sandbox enforces it.  Whatever filesystem and journal are below, a call that changed the
      filesystem named only writable paths; the bytes charged stay within the limit; a batch is all
      or nothing, in the filesystem and in the budget, on a filesystem with atomic batches, save that
      one whose outcome is unknown may have landed ([Sandbox]).
    - Filesystems keep their promises.  The in-memory one is a tree after any calls, batches are
      atomic, revisions name contents, conditional writes lose no update, renames move subtrees,
      snapshots restore ([MemoryFs]); the decorators protect, route and hide what they say, with two
      theorems about what they let through ([ReadOnlyPathGuard], [PrefixMountFs], [OverlayFs]); watchers
      are told of every call that succeeds and of nothing else ([NotifyingFs]), no write passes the hooks by ([HookedFs]), an artifact
      is kept whatever its agent does, and those of others stay as they were ([MailboxFs]), and an agent
      changes nothing of the process, the services or another's memory ([SystemFs], [AgentVfs]).
    - Memory.  Files, tools and tokens of memory stay within the tenant and the scopes granted, and a
      chunk that is read is not stale, while a search may lag behind ([MemoryStoreFs], [MemoryTools]); recent writes are found until they are evicted; a token resolves
      to what it was minted for while it lives, as in a map with expiry ([HitIds]); chunks lose none of
      the document ([Chunkers]); a sweep deletes what has expired and nothing else ([Retention]).
    - Tools run behind the hooks, whatever these return ([ToolRegistry]); a patch is checked against
      fresh files and carried out whole or not at all, where batches are atomic ([Patch]); scripts and shell commands stay
      within capability and budget, and an append loses no bytes of others ([FsProxy], [CellShell]).
    - MCP servers.  A session activates only servers its capability allows, calls only published
      tools of them, and a search finds through its index the best of what a scan finds
      ([McpCatalog]); a tool runs only under a grant and a journal entry, at most four times for a
      call; a module whose call fails once for want of a connection is never tried again until it is
      connected anew, which is a defect ([McpManager]); a module
      sends only to its allowlist, what a redirect does aside, and leaves a journal entry ([WasmFetch]).
    - The journal is an append-only log per agent, and replay gives a tool call its own result
      ([Journal]).
    - Delegation keeps the bounds.  After any run of the supervisor no child is allowed a script, path,
      placement or tool that the root is not, reservations balance, refused spawns cost nothing, joins are answered, only a parent
      controls its children, restarts end ([Supervisor], [Children], [Supervision]); what the spawn
      tool prepares narrows the caller's token ([SpawnTool]).
    - The agent loop.  Whatever the provider, tools, hooks and humans do: effects are journaled before
      they happen, every tool call is answered in the transcript unless the run was killed by policy, a
      run makes a bounded number of model calls, a turn that acts had room in every limit
      ([AgentTurns]); and a recorded run of a loop without hooks, steering and shared budget, with
      serial tools, is reproduced by its replay with no call to the outside ([AgentReplay]).
    - The shell.  A line is run to its end, quoted words stay verbatim, the working directory stays
      normalized ([ShellExec]); over a guarded filesystem no line changes what is locked
      ([ShellOverFs]).
    - Compaction keeps a transcript well paired and bounded ([Context]); hooks stop an operation in
      order and fail open after it ([Hooks]).
    - The network keeps the bounds.  A fetch sends at most six requests, each to a host the token
      permits, in a chain of redirects without credentials ([HttpFetch]); every request is journaled;
      what hooks and scripts see holds no credential ([HttpClient], [HttpFetch]); a credential goes
      only to its own service and to tenants granted it, and an integration is refreshed with a
      bounded back-off ([Integration]).
    - Providers.  A request says what its transcript says, every tool result right after the call it
      answers, a reply read back is the one
      received, a streamed reply is the one read whole, however the connection cuts it, an error in a
      stream fails the call, and what an upstream says of itself is shown without secrets
      ([Provider] to [OpenAi]).
    - Workflows keep their concurrency limit and their events straight in any interleaving, stop when
      cancelled, and repeat no work whose result was kept when resumed ([Workflow]); scripts stay in their directories,
      while a run id that is not checked does not ([WorkflowStore]).
    - The server.  No call of one tenant reads or changes a task of another ([Server]); every accepted
      task is served to an end, in order ([Engine], [Tasks]), and every client that
      keeps up with the channel sees the same events up to the last ([TaskEvents]); attachments stay in the workspace ([Workspace]); a webhook acts
      only on a signed body ([Webhook]); no occurrence of a schedule is skipped while the loop runs,
      and missed ones follow their policy ([Scheduler]).
    - Parsers: memory paths, shell lines and stream events round-trip ([MemoryPath], [ShellParser],
      [Sse]); the shell's tokenizer is shown to return exactly on the inputs that never bring it to
      a lone [<], and to loop for ever on an input redirection; an event without data stalls a
      stream.

    ** Fuel

    Where a loop is not structural it takes fuel.  Path loops take the length of the path, which
    every turn shortens; trimming takes the length of the text; the tokenizer takes the length of
    the input, enough for every input on which it ends at all ([ShellParser.parse_terminates_iff]),
    and answers [None] when it runs out.  Expansion and unescaping take the length of the text; a
    run of the agent loop is recursive in its turn limit, a restarted task in its retries.  Copying a
    directory takes a step for a level of the tree; the windows of a chunker, the batches of a sweep,
    the captures of a template, the words of an index, the events of a body and the occurrences of a
    text take the length of what they consume.

    ** What is a parameter

    Third-party packages: [serde_json] values and codecs (what [serde] derives included), the BPE
    encoder, [rust_decimal], the lossy decoding of bytes of a stream, [Debug] printing,
    [char::is_alphanumeric] beyond ASCII, [to_lowercase], [url], the HTTP clients [ureq] and
    [reqwest], the script and wasm engines and the Python interpreter, JSON web tokens, base64, HMAC
    and SHA-256, YAML, [cron], tokio's channels and timers, the environment variables, the order a
    [HashMap] iterates in, the clock, fresh ids and random tokens.  So are the stores behind traits
    of the program whose implementations are databases or services: memory stores, vector indices,
    embedders and the 32-bit floats of their scores, the artifact store, the lookups of the
    catalog.  A hook is
    an arbitrary function of its own world.  The overlay and the mount take arbitrary filesystems as
    layers, the sandbox an arbitrary journal, the supervisor a task factory, the shell the commands
    of files not modelled, the agent loop its environment.

    ** What is not modelled

    Log events, spans and meters; lock poisoning and threads (the calls of one object run one at a
    time, except where a file says what others may do in between).

    Left out because they are calls into other packages: the mounts of host directories, the SQLite
    stores of journal, catalog, memory and vectors, the background embedder, the bindings of QuickJS,
    Python and wasmtime with the fetch classes of scripts, the GraphQL schema, the terminal and web
    front ends, routing and encoding of the HTTP server, the fetching of keys.  Left out because they
    are data that [serde] reads and hands on: the configuration beyond what a client of it checks.
    Left out because nothing depends on more than their interface, which is a parameter: the text
    commands of the shell (awk, jq, search), the tools that forward control messages to the
    supervisor, the endpoints of artifacts, agent files and ingestion. *)

From Stdlib Require Export Ascii.
From Stdlib Require String.
From Stdlib Require Export NArith ZArith Lia.
From stdpp Require Export base list strings gmap sorting pretty.
From Stdlib Require Export Bool.

(** ** Rust strings

    A Rust [String]/[&str] is its list of UTF-8 bytes.  Every operation the modelled code uses
    ([strip_prefix], [split], [contains], [len], ...) is applied with ASCII patterns, for which the
    byte-level reading and the [char]-level reading agree. *)

Abbreviation str := (list ascii).
(** A [Vec<u8>]. *)
Abbreviation bytes := (list ascii) (only parsing).

Definition lit (s : string) : str := String.list_ascii_of_string s.
Coercion lit : string >-> list.

Declare Scope sim_scope.
Delimit Scope sim_scope with sim.

(** ** Rust's [Result] *)

Inductive result (A E : Type) : Type :=
| Ok (a : A)
| Err (e : E).
Arguments Ok {A E} a.
Arguments Err {A E} e.

(** [let? x := e in k] is Rust's [let x = e?; k]. *)
Notation "'let?' x ':=' e 'in' k" :=
  (match e with Ok x => k | Err err => Err err end)
  (at level 10, x pattern, e at level 200, k at level 200) : sim_scope.
Open Scope sim_scope.
Open Scope string_scope.
Open Scope list_scope.

Definition is_ok {A E} (r : result A E) : bool :=
  match r with Ok _ => true | Err _ => false end.

Definition map_err {A E F} (f : E -> F) (r : result A E) : result A F :=
  match r with Ok a => Ok a | Err e => Err (f e) end.

Definition ok_or {A E} (o : option A) (e : E) : result A E :=
  match o with Some a => Ok a | None => Err e end.

Definition option_or {A} (a b : option A) : option A :=
  match a with Some x => Some x | None => b end.

Definition unwrap_or {A} (o : option A) (d : A) : A :=
  match o with Some a => a | None => d end.

(** ** String operations of the Rust standard library *)

Definition str_eqb (a b : str) : bool := bool_decide (a = b).

Fixpoint strip_prefix (p s : str) : option str :=
  match p, s with
  | [], _ => Some s
  | a :: p', b :: s' => if Ascii.eqb a b then strip_prefix p' s' else None
  | _ :: _, [] => None
  end.

Definition strip_suffix (p s : str) : option str :=
  match strip_prefix (rev p) (rev s) with
  | Some r => Some (rev r)
  | None => None
  end.

Definition starts_with (p s : str) : bool :=
  match strip_prefix p s with Some _ => true | None => false end.

Definition ends_with (p s : str) : bool :=
  match strip_suffix p s with Some _ => true | None => false end.

Definition contains_char (c : ascii) (s : str) : bool := existsb (Ascii.eqb c) s.

(** [s.split(c)]: always at least one piece. *)
Fixpoint split_on (c : ascii) (s : str) : list str :=
  match s with
  | [] => [[]]
  | a :: s' =>
      if Ascii.eqb a c then [] :: split_on c s'
      else match split_on c s' with
           | [] => [[a]]
           | w :: ws => (a :: w) :: ws
           end
  end.

(** [parts.join(sep)]. *)
Fixpoint join (sep : str) (parts : list str) : str :=
  match parts with
  | [] => []
  | [w] => w
  | w :: ws => w ++ sep ++ join sep ws
  end.

Fixpoint drop_while {A} (p : A -> bool) (l : list A) : list A :=
  match l with
  | [] => []
  | a :: l' => if p a then drop_while p l' else l
  end.

Fixpoint take_while {A} (p : A -> bool) (l : list A) : list A :=
  match l with
  | [] => []
  | a :: l' => if p a then a :: take_while p l' else []
  end.

Definition trim_start_matches (c : ascii) (s : str) : str := drop_while (Ascii.eqb c) s.
Definition trim_end_matches (c : ascii) (s : str) : str :=
  rev (drop_while (Ascii.eqb c) (rev s)).

(** [v.contains(x)] and [if !out.contains(x) { out.push(x) }]. *)
Definition mem `{EqDecision A} (x : A) (l : list A) : bool := bool_decide (x ∈ l).
Definition push_unique `{EqDecision A} (out : list A) (x : A) : list A :=
  if mem x out then out else out ++ [x].

(** [iter().rposition(p)]: the last index where [p] holds. *)
Fixpoint rposition {A} (p : A -> bool) (l : list A) : option nat :=
  match l with
  | [] => None
  | x :: l' =>
      match rposition p l' with
      | Some i => Some (S i)
      | None => if p x then Some 0%nat else None
      end
  end.

(** [iter().position(p)]: the first. *)
Fixpoint position {A} (p : A -> bool) (l : list A) : option nat :=
  match l with
  | [] => None
  | x :: l' => if p x then Some 0%nat else option_map S (position p l')
  end.

(** Decimal printing of an unsigned integer ([to_string]). *)
Definition dec (n : N) : str := lit (pretty n).

(** ** The order of strings, by bytes *)

Fixpoint str_leb (a b : str) : bool :=
  match a, b with
  | [], _ => true
  | _ :: _, [] => false
  | x :: a', y :: b' =>
      if (N_of_ascii x <? N_of_ascii y)%N then true
      else if Ascii.eqb x y then str_leb a' b' else false
  end.

Definition str_le (a b : str) : Prop := str_leb a b = true.

#[export] Instance str_le_dec a b : Decision (str_le a b).
Proof. unfold str_le. apply _. Defined.

(** ** State and errors

    A computation over a mutable state that may stop with an error: the state reached when it
    stopped is kept, as in Rust when a [&mut self] method returns early. *)
Definition SE (St E A : Type) : Type := St -> St * result A E.

Definition se_ret {St E A} (a : A) : SE St E A := fun s => (s, Ok a).
Definition se_err {St E A} (e : E) : SE St E A := fun s => (s, Err e).
Definition se_lift {St E A} (r : result A E) : SE St E A := fun s => (s, r).
Definition se_get {St E} : SE St E St := fun s => (s, Ok s).
Definition se_modify {St E} (f : St -> St) : SE St E unit := fun s => (f s, Ok tt).
Definition se_bind {St E A B} (m : SE St E A) (k : A -> SE St E B) : SE St E B :=
  fun s => match m s with
           | (s', Ok a) => k a s'
           | (s', Err e) => (s', Err e)
           end.

(** [m.map_err(f)], and [match m { Ok(a) => .., Err(e) => .. }] with the outcome as a value. *)
Definition se_map_err {St E F A} (f : E -> F) (m : SE St E A) : SE St F A :=
  fun s => let '(s, r) := m s in (s, map_err f r).
Definition se_try {St E F A} (m : SE St E A) : SE St F (result A E) :=
  fun s => let '(s, r) := m s in (s, Ok r).

(** [for x in l { m(x)?; }]. *)
Fixpoint se_for {St E A} (l : list A) (m : A -> SE St E unit) : SE St E unit :=
  match l with
  | [] => se_ret tt
  | x :: l => se_bind (m x) (fun _ => se_for l m)
  end.

(** [let! x := m in k]: run [m], then [k] on its value. *)
Notation "'let!' x ':=' m 'in' k" := (se_bind m (fun x => k))
  (at level 10, x pattern, m at level 200, k at level 200) : sim_scope.

(** [k ↦ v]: a field of a JSON object, its key a literal. *)
Notation "k ↦ v" := (lit k, v) (at level 60, only parsing) : sim_scope.

(** ** Tactics *)

(** Case analysis on the innermost scrutinee of the goal or of a hypothesis. *)
Ltac break_match :=
  match goal with
  | |- context [match ?x with _ => _ end] =>
      lazymatch x with
      | context [match _ with _ => _ end] => fail
      | _ => destruct x eqn:?
      end
  end.

Ltac break_match_in H :=
  match type of H with
  | context [match ?x with _ => _ end] =>
      lazymatch x with
      | context [match _ with _ => _ end] => fail
      | _ => destruct x eqn:?
      end
  end.

(** Turn the boolean hypotheses the code's guards leave into propositions. *)
Ltac bools :=
  repeat match goal with
  | H : _ && _ = true |- _ => apply andb_true_iff in H as [? ?]
  | H : _ || _ = false |- _ => apply orb_false_iff in H as [? ?]
  | H : _ || _ = true |- _ => apply orb_true_iff in H
  | H : _ && _ = false |- _ => apply andb_false_iff in H
  | H : negb _ = true |- _ => apply negb_true_iff in H
  | H : negb _ = false |- _ => apply negb_false_iff in H
  | H : bool_decide _ = true |- _ => apply bool_decide_eq_true in H
  | H : bool_decide _ = false |- _ => apply bool_decide_eq_false in H
  | H : str_eqb _ _ = true |- _ => apply bool_decide_eq_true in H
  | H : str_eqb _ _ = false |- _ => apply bool_decide_eq_false in H
  | H : mem _ _ = true |- _ => apply bool_decide_eq_true in H
  | H : mem _ _ = false |- _ => apply bool_decide_eq_false in H
  | H : Ascii.eqb _ _ = true |- _ => apply Ascii.eqb_eq in H
  | H : Ascii.eqb _ _ = false |- _ => apply Ascii.eqb_neq in H
  end.

(** ** Lemmas on strings *)

Lemma str_eqb_refl s : str_eqb s s = true.
Proof. by apply bool_decide_eq_true. Qed.

Lemma str_eqb_true a b : str_eqb a b = true <-> a = b.
Proof. apply bool_decide_eq_true. Qed.

Lemma strip_prefix_Some p s r : strip_prefix p s = Some r <-> s = p ++ r.
Proof.
  revert s; induction p as [|a p IH]; intros s; simpl.
  - split; congruence.
  - destruct s as [|b s]; [split; discriminate|].
    destruct (Ascii.eqb_spec a b) as [->|Hne]; [rewrite IH; split; congruence|].
    split; congruence.
Qed.

Lemma strip_prefix_app p r : strip_prefix p (p ++ r) = Some r.
Proof. by apply strip_prefix_Some. Qed.

Lemma strip_suffix_Some p s r : strip_suffix p s = Some r <-> s = r ++ p.
Proof.
  unfold strip_suffix.
  destruct (strip_prefix (rev p) (rev s)) as [q|] eqn:E; split; intros H; try discriminate.
  - injection H as <-. apply strip_prefix_Some in E.
    by rewrite <- (rev_involutive s), E, rev_app_distr, rev_involutive.
  - f_equal. subst s. rewrite rev_app_distr, strip_prefix_app in E.
    injection E as <-. apply rev_involutive.
  - subst s. rewrite rev_app_distr, strip_prefix_app in E. discriminate.
Qed.

Lemma strip_suffix_app p r : strip_suffix p (r ++ p) = Some r.
Proof. by apply strip_suffix_Some. Qed.

Lemma strip_suffix_None p s : strip_suffix p s = None <-> forall r, s <> r ++ p.
Proof.
  split.
  - intros E r Hs. apply strip_suffix_Some in Hs. congruence.
  - intros H. destruct (strip_suffix p s) as [r|] eqn:E; [|done].
    apply strip_suffix_Some in E. by destruct (H r).
Qed.

Lemma starts_with_true p s : starts_with p s = true <-> exists r, s = p ++ r.
Proof.
  unfold starts_with. destruct (strip_prefix p s) as [r|] eqn:E.
  - apply strip_prefix_Some in E. split; eauto.
  - split; [discriminate|]. intros [r Hr]. apply strip_prefix_Some in Hr. congruence.
Qed.

Lemma starts_with_app p r : starts_with p (p ++ r) = true.
Proof. apply starts_with_true. eauto. Qed.

Lemma starts_with_trans p q s :
  starts_with p q = true -> starts_with q s = true -> starts_with p s = true.
Proof.
  rewrite !starts_with_true. intros [r ->] [t ->]. exists (r ++ t). by rewrite app_assoc.
Qed.

Lemma ends_with_true p s : ends_with p s = true <-> exists r, s = r ++ p.
Proof.
  unfold ends_with. destruct (strip_suffix p s) as [r|] eqn:E.
  - apply strip_suffix_Some in E. split; eauto.
  - split; [discriminate|]. intros [r Hr]. apply strip_suffix_Some in Hr. congruence.
Qed.

Lemma contains_char_true c s : contains_char c s = true <-> c ∈ s.
Proof.
  unfold contains_char. rewrite existsb_exists. setoid_rewrite Ascii.eqb_eq.
  rewrite list_elem_of_In. split; [intros (x & ? & ->); done|eauto].
Qed.

Lemma contains_char_false c s : contains_char c s = false <-> c ∉ s.
Proof. rewrite <- not_true_iff_false, contains_char_true. done. Qed.

Lemma split_on_nonempty c s : split_on c s <> [].
Proof. destruct s as [|a s]; simpl; [done|]. repeat case_match; done. Qed.

Lemma split_on_no_sep c s w : w ∈ split_on c s -> c ∉ w.
Proof.
  revert w; induction s as [|a s IH]; simpl; intros w Hw.
  - apply list_elem_of_singleton in Hw as ->. apply not_elem_of_nil.
  - destruct (Ascii.eqb_spec a c) as [->|Hne].
    + apply elem_of_cons in Hw as [->|Hw]; [apply not_elem_of_nil|auto].
    + destruct (split_on c s) as [|v vs].
      { apply list_elem_of_singleton in Hw as ->. by rewrite list_elem_of_singleton. }
      apply elem_of_cons in Hw as [->|Hw]; [|apply IH; by right].
      intros [->|Hc]%elem_of_cons; [done|]. eapply IH; [left|exact Hc].
Qed.

Lemma join_cons_nonempty sep w ws :
  ws <> [] -> join sep (w :: ws) = w ++ sep ++ join sep ws.
Proof. by destruct ws. Qed.

Lemma join_split_on c s : join [c] (split_on c s) = s.
Proof.
  induction s as [|a s IH]; [done|]; simpl.
  destruct (Ascii.eqb_spec a c) as [->|Hne].
  - destruct (split_on c s) eqn:E; [by apply split_on_nonempty in E|].
    rewrite <- IH. done.
  - destruct (split_on c s) as [|w ws] eqn:E; [by apply split_on_nonempty in E|].
    rewrite <- IH. by destruct ws.
Qed.

Lemma split_on_app c w s : c ∉ w -> split_on c (w ++ c :: s) = w :: split_on c s.
Proof.
  induction w as [|a w IH]; intros Hc; simpl.
  - by rewrite Ascii.eqb_refl.
  - apply not_elem_of_cons in Hc as [Ha Hc].
    destruct (Ascii.eqb_spec a c) as [->|_]; [done|]. by rewrite IH.
Qed.

Lemma split_on_no_occ c w : c ∉ w -> split_on c w = [w].
Proof.
  induction w as [|a w IH]; intros Hc; simpl; [done|].
  apply not_elem_of_cons in Hc as [Ha Hc].
  destruct (Ascii.eqb_spec a c) as [->|_]; [done|]. by rewrite IH.
Qed.

Lemma split_on_join c ws :
  ws <> [] -> Forall (fun w => c ∉ w) ws -> split_on c (join [c] ws) = ws.
Proof.
  intros Hne Hws; induction Hws as [|w ws Hw Hws IH]; [done|].
  destruct ws as [|v vs]; [by apply split_on_no_occ|].
  rewrite join_cons_nonempty by done.
  etransitivity; [exact (split_on_app c w (join [c] (v :: vs)) Hw)|]. by rewrite IH.
Qed.

Lemma first_segment_unique (c : ascii) (a b x y : str) :
  c ∉ a -> c ∉ b -> a ++ c :: x = b ++ c :: y -> a = b /\ x = y.
Proof.
  revert b; induction a as [|u a IH]; intros [|v b] Ha Hb E; simplify_eq/=; [done|..].
  - by destruct Hb; left.
  - by destruct Ha; left.
  - apply not_elem_of_cons in Ha as [_ Ha], Hb as [_ Hb].
    match goal with H : _ ++ _ = _ ++ _ |- _ => destruct (IH b Ha Hb H) as [-> ->] end. done.
Qed.

(** A path splits uniquely into a directory and a last segment without [c]. *)
Lemma last_segment_unique (c : ascii) (d1 d2 n1 n2 : str) :
  c ∉ n1 -> c ∉ n2 -> d1 ++ c :: n1 = d2 ++ c :: n2 -> d1 = d2 /\ n1 = n2.
Proof.
  intros H1 H2 E.
  apply (f_equal (@rev _)) in E. rewrite !rev_app_distr in E. simpl in E.
  rewrite <- !app_assoc in E. simpl in E.
  apply first_segment_unique in E as [En Ed]; [|by rewrite list_elem_of_In, <- in_rev, <- list_elem_of_In..].
  split; [apply (f_equal (@rev _)) in Ed; by rewrite !rev_involutive in Ed|].
  apply (f_equal (@rev _)) in En. by rewrite !rev_involutive in En.
Qed.

Lemma mem_true `{EqDecision A} (x : A) l : mem x l = true <-> x ∈ l.
Proof. apply bool_decide_eq_true. Qed.

Lemma elem_of_push_unique `{EqDecision A} (out : list A) x y :
  y ∈ push_unique out x <-> y ∈ out \/ y = x.
Proof.
  unfold push_unique. destruct (mem x out) eqn:E; bools; [|set_solver].
  split; [by left|]. by intros [?| ->].
Qed.

Lemma NoDup_push_unique `{EqDecision A} (out : list A) x :
  NoDup out -> NoDup (push_unique out x).
Proof.
  unfold push_unique. destruct (mem x out) eqn:E; bools; [done|].
  intros. apply NoDup_app. split_and!; [done|set_solver|apply NoDup_singleton].
Qed.

Lemma existsb_elem {A} (f : A -> bool) l :
  existsb f l = true <-> exists x, x ∈ l /\ f x = true.
Proof. rewrite existsb_exists. by setoid_rewrite list_elem_of_In. Qed.

Lemma Forall_sublist {A} (P : A -> Prop) l l' : l' `sublist_of` l -> Forall P l -> Forall P l'.
Proof. induction 1; rewrite ?Forall_cons; [done|tauto|]. intros [_ ?]; auto. Qed.

Lemma forallb_elem {A} (f : A -> bool) l :
  forallb f l = true <-> forall x, x ∈ l -> f x = true.
Proof. rewrite forallb_forall. by setoid_rewrite list_elem_of_In. Qed.

Create HintDb sim.
#[export] Hint Resolve str_eqb_refl starts_with_app strip_prefix_app strip_suffix_app : sim.
Create Rewrite HintDb sim.
#[export] Hint Rewrite str_eqb_true strip_prefix_Some strip_suffix_Some starts_with_true
  ends_with_true contains_char_true @mem_true : sim.

(** ** More on [split], [join] and [trim] *)

Lemma split_on_app_sep c a b : split_on c (a ++ c :: b) = split_on c a ++ split_on c b.
Proof.
  induction a as [|x a IH]; simpl; [by rewrite Ascii.eqb_refl|].
  destruct (Ascii.eqb x c); rewrite IH; [done|].
  destruct (split_on c a) eqn:E; [by apply split_on_nonempty in E|done].
Qed.

Lemma elem_of_join c ws x : x ∈ join [c] ws -> x = c \/ exists w, w ∈ ws /\ x ∈ w.
Proof.
  induction ws as [|w ws IH]; [by intros ?%elem_of_nil|].
  destruct ws as [|v vs].
  - intros Hx. right. exists w. split; [left|done].
  - rewrite join_cons_nonempty, !elem_of_app, list_elem_of_singleton by done.
    intros [Hx|[->|Hx]]; [right; exists w; split; [left|done]|by left|].
    destruct (IH Hx) as [->|(u & ? & ?)]; [by left|right; exists u; split; [by right|done]].
Qed.

Lemma elem_of_join_2 c ws w x : w ∈ ws -> x ∈ w -> x ∈ join [c] ws.
Proof.
  intros Hw Hx. induction ws as [|v ws IH]; [by apply elem_of_nil in Hw|].
  destruct ws as [|u us]; [by apply list_elem_of_singleton in Hw as ->|].
  rewrite join_cons_nonempty, !elem_of_app by done.
  apply elem_of_cons in Hw as [->|Hw]; [by left|right; right; auto].
Qed.

Lemma length_join c ws : ws <> [] -> S (length (join [c] ws)) = sum_list_with (fun w => S (length w)) ws.
Proof.
  induction ws as [|w ws IH]; [done|intros _].
  destruct ws as [|v vs]; [simpl; lia|].
  rewrite join_cons_nonempty, !length_app by done.
  change (sum_list_with ?f (w :: ?l)) with (S (length w) + sum_list_with f l).
  rewrite <- IH by done. cbn [length]. lia.
Qed.

Lemma join_last c ws w x :
  exists a, join [c] (ws ++ [w ++ [x]]) = a ++ [x].
Proof.
  induction ws as [|v ws [a IH]]; [by exists w|].
  exists (v ++ [c] ++ a). rewrite <- app_comm_cons, join_cons_nonempty by by destruct ws.
  by rewrite IH, <- !app_assoc.
Qed.

Lemma drop_while_app {A} (p : A -> bool) x h y :
  p h = false -> drop_while p (x ++ h :: y) = drop_while p x ++ h :: y.
Proof.
  intros Hh. induction x as [|a x IH]; simpl; [by rewrite Hh|]. by destruct (p a).
Qed.

Lemma drop_while_suffix {A} (p : A -> bool) x :
  exists k, x = k ++ drop_while p x /\ forallb p k = true.
Proof.
  induction x as [|a x (k & E & Hk)]; [by exists []|]. simpl.
  destruct (p a) eqn:Ha; [|by exists []].
  exists (a :: k). simpl. by rewrite Ha, Hk, <- E.
Qed.

Lemma trim_end_prefix c s : exists k, s = trim_end_matches c s ++ k.
Proof.
  unfold trim_end_matches. destruct (drop_while_suffix (Ascii.eqb c) (rev s)) as (k & E & _).
  exists (rev k). by rewrite <- rev_app_distr, <- E, rev_involutive.
Qed.

Lemma trim_end_app c a x t :
  x <> c -> trim_end_matches c ((a ++ [x]) ++ t) = (a ++ [x]) ++ trim_end_matches c t.
Proof.
  intros Hx. unfold trim_end_matches. rewrite !rev_app_distr. simpl.
  rewrite drop_while_app by (by apply Ascii.eqb_neq).
  by rewrite rev_app_distr; simpl; rewrite rev_involutive, <- !app_assoc.
Qed.

Lemma trim_end_id c a x : x <> c -> trim_end_matches c (a ++ [x]) = a ++ [x].
Proof. intros Hx. rewrite <- (app_nil_r (a ++ [x])) at 1. by rewrite trim_end_app, app_nil_r. Qed.

(** ** Loops that collect into a duplicate-free vector *)

Lemma elem_of_collect `{EqDecision A} (f : A -> bool) l out x :
  x ∈ fold_left (fun out a => if f a then push_unique out a else out) l out
  <-> x ∈ out \/ (x ∈ l /\ f x = true).
Proof.
  revert out; induction l as [|a l IH]; intros out; simpl.
  - rewrite elem_of_nil. tauto.
  - rewrite IH, elem_of_cons. destruct (f a) eqn:E; [rewrite elem_of_push_unique|];
      (split; [intros [?|[? ?]]|intros [?|[[->|?] ?]]]); destruct_or?; subst; auto; congruence.
Qed.

Lemma elem_of_collect_opt {A} `{EqDecision B} (g : A -> option B) l out x :
  x ∈ fold_left (fun out a => match g a with Some s => push_unique out s | None => out end) l out
  <-> x ∈ out \/ exists a, a ∈ l /\ g a = Some x.
Proof.
  revert out; induction l as [|a l IH]; intros out; simpl.
  - split; [by left|]. intros [?|(a & ?%elem_of_nil & _)]; done.
  - rewrite IH. setoid_rewrite elem_of_cons.
    destruct (g a) eqn:E; [rewrite elem_of_push_unique|];
      (split; [intros [?|(z & ? & ?)]|intros [?|(z & [->|?] & ?)]]); destruct_or?; subst;
      eauto; try congruence.
    left. right. congruence.
Qed.

Lemma elem_of_collect_opt2 {A C} `{EqDecision B} (g : A -> C -> option B) l k out x :
  x ∈ fold_left (fun out a =>
        fold_left (fun out c => match g a c with Some s => push_unique out s | None => out end) k out)
        l out
  <-> x ∈ out \/ exists a c, a ∈ l /\ c ∈ k /\ g a c = Some x.
Proof.
  revert out; induction l as [|a l IH]; intros out; simpl.
  - split; [by left|]. intros [?|(a & c & ?%elem_of_nil & _)]; done.
  - rewrite IH, elem_of_collect_opt. setoid_rewrite elem_of_cons. split.
    + intros [[?|(c & ? & ?)]|(b & c & ? & ? & ?)]; eauto 8.
    + intros [?|(b & c & [->|?] & ? & ?)]; eauto 8.
Qed.

(** ** First and last positions *)

Lemma position_Some {A} (p : A -> bool) l r :
  position p l = Some r ->
  exists x b, l = firstn r l ++ x :: b /\ skipn r l = x :: b /\ p x = true /\
              Forall (fun y => p y = false) (firstn r l).
Proof.
  revert r; induction l as [|y l IH]; intros r; [done|]. cbn [position].
  destruct (p y) eqn:E; [intros [= <-]; by exists y, l|].
  destruct (position p l) as [r'|]; [|done]. intros [= <-].
  destruct (IH r' eq_refl) as (x & b & E1 & E2 & Hx & Hf). exists x, b. cbn [firstn skipn app].
  split_and!; [by rewrite <- E1|done|done|by constructor].
Qed.

Lemma position_None {A} (p : A -> bool) l : position p l = None -> Forall (fun y => p y = false) l.
Proof.
  induction l as [|y l IH]; [constructor|]. cbn. destruct (p y) eqn:E; [done|].
  destruct (position p l); [done|]. intros _. constructor; auto.
Qed.

Lemma rposition_Some {A} (p : A -> bool) l x :
  rposition p l = Some x ->
  exists a y b, l = a ++ y :: b /\ length a = x /\ p y = true /\ Forall (fun z => p z = false) b.
Proof.
  revert x; induction l as [|z l IH]; intros x; [done|]. cbn [rposition].
  destruct (rposition p l) as [i|] eqn:E.
  - intros [= <-]. destruct (IH i eq_refl) as (a & y & b & -> & <- & Hy & Hb). by exists (z :: a), y, b.
  - destruct (p z) eqn:Ez; [|done]. intros [= <-]. exists [], z, l. split_and!; [done|done|done|].
    clear IH Ez. induction l as [|w l IH]; [constructor|]. cbn in E.
    destruct (rposition p l); [done|]. destruct (p w) eqn:Ew; [done|]. constructor; auto.
Qed.

Lemma rposition_None {A} (p : A -> bool) l : rposition p l = None -> Forall (fun z => p z = false) l.
Proof.
  induction l as [|w l IH]; [constructor|]. cbn. destruct (rposition p l); [done|].
  destruct (p w) eqn:Ew; [done|]. constructor; auto.
Qed.

(** The order of strings is total. *)
#[export] Instance str_le_total : Total str_le.
Proof.
  intros a; induction a as [|x a IH]; intros [|y b]; unfold str_le in *; cbn; [by left..|by right|].
  rewrite (Ascii.eqb_sym y x).
  destruct (N.ltb_spec (N_of_ascii x) (N_of_ascii y)), (N.ltb_spec (N_of_ascii y) (N_of_ascii x));
    [by left|by left|by right|].
  assert (x = y) as -> by (rewrite <- (ascii_N_embedding x), <- (ascii_N_embedding y); f_equal; lia).
  rewrite Ascii.eqb_refl. apply IH.
Qed.

#[export] Instance str_le_trans : Transitive str_le.
Proof.
  intros a; induction a as [|x a IH]; intros [|y b] [|z c]; unfold str_le in *; cbn; try done.
  destruct (N.ltb_spec (N_of_ascii x) (N_of_ascii y)), (N.ltb_spec (N_of_ascii y) (N_of_ascii z)),
    (N.ltb_spec (N_of_ascii x) (N_of_ascii z)); try lia; try done;
    destruct (Ascii.eqb_spec x y), (Ascii.eqb_spec y z); subst; try done; try lia.
  rewrite Ascii.eqb_refl. apply IH.
Qed.

Lemma str_leb_app p a b : str_leb (p ++ a) (p ++ b) = str_leb a b.
Proof. induction p as [|x p IH]; cbn; [done|]. by rewrite N.ltb_irrefl, Ascii.eqb_refl. Qed.

(** ** Steps of [SE] *)

Section Binds.
Context {St Er A B : Type} (m : SE St Er A) (k : A -> SE St Er B).

Lemma bind_Ok s s' b : se_bind m k s = (s', Ok b) -> exists a s1, m s = (s1, Ok a) /\ k a s1 = (s', Ok b).
Proof. unfold se_bind. destruct (m s) as [s1 [a|e]]; [eauto|discriminate]. Qed.

Lemma bind_step s s1 a : m s = (s1, Ok a) -> se_bind m k s = k a s1.
Proof. unfold se_bind. by intros ->. Qed.

Lemma bind_cases s :
  (exists s1 e, m s = (s1, Err e) /\ se_bind m k s = (s1, Err e)) \/
  (exists s1 a, m s = (s1, Ok a) /\ se_bind m k s = k a s1).
Proof. unfold se_bind. destruct (m s) as [s1 [a|e]]; [right|left]; eauto. Qed.
End Binds.

(** ** Reasoning about the state and error monad *)

Section Monad.
Context {St : Type}.

(** [m] keeps [P], whether it succeeds or fails. *)
Definition preserves {E A} (P : St -> Prop) (m : SE St E A) : Prop := forall s, P s -> P (fst (m s)).

Lemma preserves_ret {E A} P (a : A) : preserves P (se_ret (E := E) a).
Proof. by intros s. Qed.

Lemma preserves_err {E A} P (e : E) : preserves P (se_err (A := A) e).
Proof. by intros s. Qed.

Lemma preserves_bind {E A B} P (m : SE St E A) (k : A -> SE St E B) :
  preserves P m -> (forall a, preserves P (k a)) -> preserves P (se_bind m k).
Proof.
  intros Hm Hk s Hs. unfold se_bind. specialize (Hm s Hs). destruct (m s) as [s' [a|e]]; [by apply Hk|done].
Qed.

Lemma preserves_try {E F A} P (m : SE St E A) : preserves P m -> preserves P (se_try (F := F) m).
Proof. intros Hm s Hs. unfold se_try. specialize (Hm s Hs). by destruct (m s). Qed.

Lemma preserves_map_err {E F A} P (f : E -> F) (m : SE St E A) : preserves P m -> preserves P (se_map_err f m).
Proof. intros Hm s Hs. unfold se_map_err. specialize (Hm s Hs). by destruct (m s). Qed.

Lemma preserves_for {E A} P (l : list A) (m : A -> SE St E unit) :
  (forall x, preserves P (m x)) -> preserves P (se_for l m).
Proof.
  intros Hm. induction l as [|x l IH]; cbn [se_for]; [apply preserves_ret|by apply preserves_bind].
Qed.

Lemma preserves_pure {E A} P (f : St -> result A E) : preserves P (fun s => (s, f s)).
Proof. by intros s. Qed.

(** [m] keeps [P], and what it returns satisfies [Q]. *)
Definition ensures {A E} (P : St -> Prop) (m : SE St E A) (Q : A -> Prop) : Prop :=
  forall c, P c -> P (fst (m c)) /\ forall a, snd (m c) = Ok a -> Q a.

Lemma ensures_bind {A B E} P (m : SE St E A) (k : A -> SE St E B) Q R :
  ensures P m Q -> (forall a, Q a -> ensures P (k a) R) -> ensures P (let! a := m in k a) R.
Proof.
  intros Hm Hk c Hc. unfold se_bind. destruct (Hm c Hc) as [Hp Hq]. destruct (m c) as [c' [a|e]]; cbn in *; [|done].
  exact (Hk a (Hq a eq_refl) c' Hp).
Qed.
Lemma ensures_ret {A E} P (a : A) (Q : A -> Prop) : Q a -> ensures (E := E) P (se_ret a) Q.
Proof. intros Hq c Hc. split; [done|]. by intros a' [= <-]. Qed.
Lemma ensures_lift {A E} P (r : result A E) (Q : A -> Prop) : (forall a, r = Ok a -> Q a) -> ensures P (se_lift r) Q.
Proof. intros Hq c Hc. by split. Qed.
Lemma ensures_err {A E} P (e : E) (Q : A -> Prop) : ensures P (se_err e) Q.
Proof. intros c Hc. split; [done|]. by intros a. Qed.
Lemma ensures_map_err {A E F} P (f : E -> F) (m : SE St E A) Q : ensures P m Q -> ensures P (se_map_err f m) Q.
Proof. intros Hm c Hc. unfold se_map_err. specialize (Hm c Hc). destruct (m c) as [c' [a|e]]; (split; [apply Hm|]); [|by intros a]. intros a' [= <-]. by apply Hm. Qed.
Lemma ensures_keeps {A E} P (m : SE St E A) : preserves P m -> ensures P m (fun _ => True).
Proof. intros Hm c Hc. split; [|done]. specialize (Hm c Hc). by destruct (m c). Qed.
Lemma ensures_weaken {A E} P (m : SE St E A) (Q R : A -> Prop) : ensures P m Q -> (forall a, Q a -> R a) -> ensures P m R.
Proof. intros Hm Hq c Hc. destruct (Hm c Hc) as [Hp H]. split; [done|]. intros a Ha. by apply Hq, H. Qed.

(** How a sequence ends. *)
Lemma bind_inv {E A B} (m : SE St E A) (k : A -> SE St E B) s s' r :
  se_bind m k s = (s', r) ->
  (exists a s1, m s = (s1, Ok a) /\ k a s1 = (s', r)) \/ (exists e, m s = (s', Err e) /\ r = Err e).
Proof.
  unfold se_bind. destruct (m s) as [s1 [a|e]]; intros E1; [left; by exists a, s1|].
  right. exists e. by inversion E1.
Qed.
End Monad.

Create HintDb keep.
#[export] Hint Resolve preserves_ret preserves_err preserves_bind preserves_try preserves_map_err
  preserves_for preserves_pure : keep.

(** ** Two computations in step

    From related states to related states, with results that are related or the same error. *)

Definition same_result {A Er} (R : A -> A -> Prop) (x1 x2 : result A Er) : Prop :=
  match x1, x2 with Ok a1, Ok a2 => R a1 a2 | Err e1, Err e2 => e1 = e2 | _, _ => False end.

Section InStep.
Context {St Er : Type} (RS : St -> St -> Prop).

Definition in_step {A} (RA : A -> A -> Prop) (m1 m2 : SE St Er A) : Prop := forall s1 s2, RS s1 s2 ->
  RS (fst (m1 s1)) (fst (m2 s2)) /\ same_result RA (snd (m1 s1)) (snd (m2 s2)).

Lemma step_bind {A B} (RA : A -> A -> Prop) (RB : B -> B -> Prop) m1 m2 k1 k2 :
  in_step RA m1 m2 -> (forall a1 a2, RA a1 a2 -> in_step RB (k1 a1) (k2 a2)) ->
  in_step RB (se_bind m1 k1) (se_bind m2 k2).
Proof.
  intros Hm Hk s1 s2 Hs. unfold se_bind. destruct (Hm s1 s2 Hs) as [Hs' Hr].
  destruct (m1 s1) as [s1' [a1|e1]], (m2 s2) as [s2' [a2|e2]]; cbn in *; try done. by apply Hk.
Qed.

Lemma step_ret {A} (RA : A -> A -> Prop) a1 a2 : RA a1 a2 -> in_step RA (se_ret a1) (se_ret a2).
Proof. by intros Ha s1 s2 Hs. Qed.
Lemma step_err {A} (RA : A -> A -> Prop) e : in_step RA (se_err e) (se_err e).
Proof. by intros s1 s2 Hs. Qed.
Lemma step_lift {A} (RA : A -> A -> Prop) x1 x2 : same_result RA x1 x2 -> in_step RA (se_lift x1) (se_lift x2).
Proof. by intros Hx s1 s2 Hs. Qed.
End InStep.

Lemma step_map_err {St E F A} (RS : St -> St -> Prop) (RA : A -> A -> Prop) (f : E -> F) (m1 m2 : SE St E A) :
  in_step RS RA m1 m2 -> in_step RS RA (se_map_err f m1) (se_map_err f m2).
Proof.
  intros Hm s1 s2 Hs. unfold se_map_err. destruct (Hm s1 s2 Hs) as [Hs' Hr].
  destruct (m1 s1) as [s1' [a1|e1]], (m2 s2) as [s2' [a2|e2]]; cbn in *; try done. by subst e2.
Qed.
