(* ===== verification/Text.v ===== *)
(** * Text operations of the Rust standard library

    ASCII classes and case, [str::find] with a string pattern and the splits it gives, [str::lines]
    and [str::trim], which the components share.  All of them work on UTF-8 bytes: the white space [trim] removes
    is given as the encodings of the characters with the Unicode property. *)

From S2P Require Import Prelude.

Definition cr : ascii := ascii_of_nat 13.
Definition lf : ascii := ascii_of_nat 10.

(** ** ASCII *)

Definition in_range (lo hi : N) (c : ascii) : bool :=
  (lo <=? N_of_ascii c)%N && (N_of_ascii c <=? hi)%N.
Definition is_ascii_lowercase : ascii -> bool := in_range 97 122.
Definition is_ascii_uppercase : ascii -> bool := in_range 65 90.
Definition is_ascii_digit : ascii -> bool := in_range 48 57.
Definition is_ascii_alphanumeric (c : ascii) : bool :=
  is_ascii_lowercase c || is_ascii_uppercase c || is_ascii_digit c.

Definition to_ascii_lowercase (c : ascii) : ascii :=
  if is_ascii_uppercase c then ascii_of_N (N_of_ascii c + 32) else c.
Definition to_ascii_uppercase (c : ascii) : ascii :=
  if is_ascii_lowercase c then ascii_of_N (N_of_ascii c - 32) else c.
Definition eq_ignore_ascii_case (a b : str) : bool :=
  str_eqb (map to_ascii_lowercase a) (map to_ascii_lowercase b).

(** ** Searching and splitting *)

(** [s.find(p)]: the first index where [p] occurs. *)
Fixpoint find_sub (p s : str) : option nat :=
  if starts_with p s then Some 0%nat
  else match s with
  | [] => None
  | _ :: s' => option_map S (find_sub p s')
  end.

(** [str::split_once] with a string, [str::rsplit_once] with a character. *)
Definition split_once_str (p s : str) : option (str * str) :=
  option_map (fun i => (firstn i s, skipn (i + length p) s)) (find_sub p s).
Definition rsplit_once (c : ascii) (s : str) : option (str * str) :=
  option_map (fun i => (firstn i s, skipn (S i) s)) (rposition (Ascii.eqb c) s).

(** [str::replace] of a pattern that is not empty: every turn consumes a byte at least. *)
Fixpoint replace_loop (fuel : nat) (p by_ s : str) : str :=
  match fuel with
  | O => s
  | S fuel =>
      match find_sub p s with
      | None => s
      | Some i => firstn i s ++ by_ ++ replace_loop fuel p by_ (skipn (i + length p) s)
      end
  end.
Definition str_replace (p by_ s : str) : str := replace_loop (length s) p by_ s.

(** [s.matches(p).count()]: the occurrences that do not overlap, from the left; each turn
    consumes a byte at least when [p] is not empty. *)
Fixpoint count_loop (fuel : nat) (p s : str) : nat :=
  match fuel with
  | O => 0
  | S fuel => match find_sub p s with None => 0 | Some i => S (count_loop fuel p (skipn (i + length p) s)) end
  end.
Definition count_matches (p s : str) : nat := count_loop (length s) p s.

(** [str::lines]: the pieces between line feeds, without one carriage return at the end of a
    terminated line, and without an empty unterminated last line. *)
Fixpoint lines_of (pieces : list str) : list str :=
  match pieces with
  | [] => []
  | [l] => if str_eqb l [] then [] else [l]
  | l :: rest => unwrap_or (strip_suffix [cr] l) l :: lines_of rest
  end.

Definition lines (text : str) : list str := lines_of (split_on lf text).

(** The UTF-8 encodings of the characters with the [White_Space] property. *)
Definition bytes_of (l : list nat) : str := map ascii_of_nat l.
Definition white_space : list str :=
  map bytes_of
    ([[9]; [10]; [11]; [12]; [13]; [32]; [194; 133]; [194; 160]; [225; 154; 128];
      [226; 128; 168]; [226; 128; 169]; [226; 128; 175]; [226; 129; 159]; [227; 128; 128]]
     ++ map (fun k => [226; 128; 128 + k]) (seq 0 11))%nat.

Definition strip_one (s : str) : option str :=
  fold_right (fun w acc => option_or (strip_prefix w s) acc) None white_space.
Definition strip_one_end (s : str) : option str :=
  fold_right (fun w acc => option_or (strip_suffix w s) acc) None white_space.

Fixpoint strip_all (step : str -> option str) (fuel : nat) (s : str) : str :=
  match fuel with
  | O => s
  | S fuel => match step s with Some s' => strip_all step fuel s' | None => s end
  end.

(** [str::trim]: every turn removes a byte at least, so the length is fuel enough. *)
Definition trim (s : str) : str :=
  let s := strip_all strip_one (length s) s in strip_all strip_one_end (length s) s.

(** ** Lemmas *)

Lemma find_sub_spec p s :
  match find_sub p s with
  | Some i => exists x y, s = x ++ p ++ y /\ length x = i /\
                forall x' y', s = x' ++ p ++ y' -> (i <= length x')%nat
  | None => forall x y, s <> x ++ p ++ y
  end.
Proof.
  induction s as [|c s IH]; cbn [find_sub].
  - destruct (starts_with p []) eqn:E.
    + apply starts_with_true in E as [r Er]. exists [], r. split_and!; [done|done|]. intros; lia.
    + intros x y Exy. symmetry in Exy. apply app_eq_nil in Exy as [-> Exy].
      apply app_eq_nil in Exy as [-> ->]. done.
  - destruct (starts_with p (c :: s)) eqn:E.
    + apply starts_with_true in E as [r Er]. exists [], r. split_and!; [done|done|]. intros; lia.
    + assert (Hx : forall x y, c :: s = x ++ p ++ y -> exists x', x = c :: x' /\ s = x' ++ p ++ y).
      { intros [|c' x] y Exy.
        - exfalso. apply not_true_iff_false in E. apply E, starts_with_true. by exists y.
        - injection Exy as <- ->. by exists x. }
      destruct (find_sub p s) as [i|]; cbn [option_map].
      * destruct IH as (x & y & -> & <- & Hmin). exists (c :: x), y. split_and!; [done|done|].
        intros x' y' (x2 & -> & E2)%Hx. cbn. specialize (Hmin x2 y' E2). lia.
      * intros x y (x2 & -> & E2)%Hx. by apply IH in E2.
Qed.

Lemma trim_space d : trim (" "%char :: d) = trim d.
Proof.
  unfold trim. cbn [length strip_all].
  assert (strip_one (" "%char :: d) = Some d) as ->; [|done].
  unfold strip_one, white_space, bytes_of. reflexivity.
Qed.

Lemma strip_one_Some s r : strip_one s = Some r -> exists w, s = w ++ r.
Proof.
  unfold strip_one. induction white_space as [|w ws IH]; cbn [fold_right]; [done|].
  destruct (strip_prefix w s) as [x|] eqn:E; cbn [option_or]; [|done].
  intros [= <-]. exists w. by apply strip_prefix_Some.
Qed.

Lemma strip_one_end_Some s r : strip_one_end s = Some r -> exists w, s = r ++ w.
Proof.
  unfold strip_one_end. induction white_space as [|w ws IH]; cbn [fold_right]; [done|].
  destruct (strip_suffix w s) as [x|] eqn:E; cbn [option_or]; [|done].
  intros [= <-]. exists w. by apply strip_suffix_Some.
Qed.

(** Trimming only removes from the two ends. *)
Lemma trim_infix s : exists a b, s = a ++ trim s ++ b.
Proof.
  assert (Hl : forall n s, exists a, s = a ++ strip_all strip_one n s).
  { intros n; induction n as [|n IH]; intros x; cbn [strip_all]; [by exists []|].
    destruct (strip_one x) as [y|] eqn:E; [|by exists []]. apply strip_one_Some in E as [w ->].
    destruct (IH y) as [a Ea]. exists (w ++ a). by rewrite <- app_assoc, <- Ea. }
  assert (Hr : forall n s, exists b, s = strip_all strip_one_end n s ++ b).
  { intros n; induction n as [|n IH]; intros x; cbn [strip_all]; [exists []; by rewrite app_nil_r|].
    destruct (strip_one_end x) as [y|] eqn:E; [|exists []; by rewrite app_nil_r].
    apply strip_one_end_Some in E as [w ->]. destruct (IH y) as [b Eb]. exists (b ++ w).
    by rewrite app_assoc, <- Eb. }
  unfold trim. destruct (Hl (length s) s) as [a Ea]. set (m := strip_all strip_one _ s) in *.
  destruct (Hr (length m) m) as [b Eb]. exists a, b. by rewrite <- Eb.
Qed.

Lemma length_trim s : (length (trim s) <= length s)%nat.
Proof.
  destruct (trim_infix s) as (a & b & E). apply (f_equal length) in E. rewrite !length_app in E. lia.
Qed.

(** Text between quotes has nothing to trim. *)
Lemma trim_quoted x : trim ("'"%char :: x ++ ["'"%char]) = "'"%char :: x ++ ["'"%char].
Proof.
  assert (Hn : forall f n s, f s = None -> strip_all f n s = s) by (by intros f [|n] s; cbn [strip_all]; [|intros ->]).
  unfold trim. rewrite (Hn strip_one); [apply (Hn strip_one_end)|reflexivity].
  unfold strip_one_end, strip_suffix. change ("'"%char :: x ++ ["'"%char]) with (("'"%char :: x) ++ ["'"%char]).
  cbn [fold_right]. by rewrite !rev_app_distr.
Qed.

(** What has room for a prefix shows it whatever follows. *)
Lemma starts_with_app_short p s t : (length p <= length s)%nat -> starts_with p (s ++ t) = starts_with p s.
Proof.
  intros Hl. destruct (starts_with p s) eqn:E.
  - apply starts_with_true in E as [r ->]. apply starts_with_true. exists (r ++ t). by rewrite app_assoc.
  - apply not_true_iff_false. intros [r Er]%starts_with_true. apply not_true_iff_false in E. apply E, starts_with_true.
    exists (skipn (length p) s). apply (f_equal (firstn (length p))) in Er.
    rewrite firstn_app, (firstn_app _ p), firstn_all, Nat.sub_diag in Er.
    replace (length p - length s)%nat with 0%nat in Er by lia. cbn in Er. rewrite !app_nil_r in Er.
    rewrite <- Er at 1. by rewrite firstn_skipn.
Qed.

Lemma find_sub_app p s t i : find_sub p s = Some i -> find_sub p (s ++ t) = Some i.
Proof.
  intros E. assert (length p <= length s)%nat as Hl.
  { pose proof (find_sub_spec p s) as Hs. rewrite E in Hs. destruct Hs as (x & y & -> & _ & _). rewrite !length_app. lia. }
  revert i E Hl. induction s as [|c s IH]; intros i E Hl.
  - destruct p; [|cbn in Hl; lia]. cbn in E. injection E as <-. by destruct t.
  - cbn [find_sub app] in *. rewrite app_comm_cons, starts_with_app_short by done. destruct (starts_with p (c :: s)); [done|].
    destruct (find_sub p s) as [j|] eqn:Ej; [|done]. injection E as <-.
    pose proof (find_sub_spec p s) as Hs. rewrite Ej in Hs. destruct Hs as (x & y & -> & _ & _).
    rewrite (IH j); [done|done|]. rewrite !length_app. lia.
Qed.

Lemma take_while_stop {A} (f : A -> bool) l t :
  forallb f l = false \/ t = [] \/ (exists c t', t = c :: t' /\ f c = false) -> take_while f (l ++ t) = take_while f l.
Proof.
  induction l as [|a l IH]; cbn [app take_while forallb]; intros H.
  - destruct H as [?|[->|(c & t' & -> & E)]]; [done..|]. cbn [take_while]. by rewrite E.
  - destruct (f a); [|done]. f_equal. by apply IH.
Qed.

(** *** Trailing carriage returns *)

Lemma strip_all_fuel step n m s : (forall x y, step x = Some y -> (length y < length x)%nat) ->
  (length s <= n)%nat -> (length s <= m)%nat -> strip_all step n s = strip_all step m s.
Proof.
  intros Hs. revert m s. induction n as [|n IH]; intros [|m] s Hn Hm; cbn [strip_all]; try done.
  - destruct s; [|cbn in Hn; lia]. destruct (step []) as [y|] eqn:E; [|done]. apply Hs in E. cbn in E. lia.
  - destruct s; [|cbn in Hm; lia]. destruct (step []) as [y|] eqn:E; [|done]. apply Hs in E. cbn in E. lia.
  - destruct (step s) as [y|] eqn:E; [|done]. apply Hs in E. apply IH; lia.
Qed.

(** What the first match strips, over any list of strings to look for. *)
Lemma first_match_Some {A} (f : A -> option str) ws r :
  fold_right (fun w acc => option_or (f w) acc) None ws = Some r -> exists w, w ∈ ws /\ f w = Some r.
Proof.
  induction ws as [|w ws IH]; cbn [fold_right]; [done|]. destruct (f w) as [x|] eqn:E; cbn [option_or].
  - intros [= <-]. exists w. split; [by left|done].
  - intros (w' & Hw & Ew)%IH. exists w'. split; [by right|done].
Qed.

Lemma first_match_ext {A} (f g : A -> option str) ws :
  (forall w, w ∈ ws -> f w = g w) -> fold_right (fun w acc => option_or (f w) acc) None ws =
    fold_right (fun w acc => option_or (g w) acc) None ws.
Proof.
  induction ws as [|w ws IH]; intros Hf; cbn [fold_right]; [done|]. rewrite Hf by by left. f_equal. apply IH.
  intros w' Hw. apply Hf. by right.
Qed.

Lemma first_match_map {A} (f : A -> option str) (h : str -> str) ws :
  fold_right (fun w acc => option_or (option_map h (f w)) acc) None ws =
  option_map h (fold_right (fun w acc => option_or (f w) acc) None ws).
Proof. induction ws as [|w ws IH]; cbn [fold_right]; [done|]. rewrite IH. by destruct (f w). Qed.

Lemma white_space_nonempty w : w ∈ white_space -> w <> [].
Proof. assert (Forall (fun w => w <> []) white_space) as H by (repeat constructor; done). rewrite Forall_forall in H. apply H. Qed.

(** Only the carriage return itself ends in one. *)
Lemma white_space_cr w u : w ∈ white_space -> w = u ++ [cr] -> u = [].
Proof.
  assert (Forall (fun w => last w = Some cr -> w = [cr]) white_space) as H by (repeat constructor; intros E; vm_compute in E; first [discriminate E|reflexivity]).
  rewrite Forall_forall in H. intros Hw ->. apply H in Hw; [|by rewrite last_snoc]. by destruct u as [|? [|]].
Qed.

Lemma strip_one_shortens x y : strip_one x = Some y -> (length y < length x)%nat.
Proof.
  intros (w & Hw & E%strip_prefix_Some)%first_match_Some. apply white_space_nonempty in Hw. subst x. rewrite length_app.
  destruct w; [done|cbn; lia].
Qed.

Lemma strip_one_end_shortens x y : strip_one_end x = Some y -> (length y < length x)%nat.
Proof.
  intros (w & Hw & E%strip_suffix_Some)%first_match_Some. apply white_space_nonempty in Hw. subst x. rewrite length_app.
  destruct w; [done|cbn; lia].
Qed.

Lemma strip_one_cr x : x <> [] -> strip_one (x ++ [cr]) = option_map (fun r => r ++ [cr]) (strip_one x).
Proof.
  intros Hx. unfold strip_one. rewrite <- first_match_map. apply first_match_ext. intros w Hw.
  destruct (strip_prefix w x) as [r|] eqn:E; cbn [option_map].
  - apply strip_prefix_Some in E as ->. by rewrite <- app_assoc, strip_prefix_app.
  - destruct (strip_prefix w (x ++ [cr])) as [r|] eqn:E2; [|done]. exfalso. apply strip_prefix_Some in E2.
    destruct (decide (r = [])) as [->|Hr].
    + rewrite app_nil_r in E2. by apply Hx, (white_space_cr w).
    + destruct (exists_last Hr) as (r' & c & ->). rewrite app_assoc in E2. apply app_inj_tail in E2 as [-> _].
      by rewrite strip_prefix_app in E.
Qed.

Lemma strip_one_end_cr x : strip_one_end (x ++ [cr]) = Some x.
Proof.
  unfold strip_one_end. assert (forall ws, Forall (fun w => last w = Some cr -> w = [cr]) ws -> [cr] ∈ ws -> Forall (fun w => w <> []) ws ->
    fold_right (fun w acc => option_or (strip_suffix w (x ++ [cr])) acc) None ws = Some x) as H.
  { induction ws as [|w ws IH]; intros Hl Hin Hn; [by apply not_elem_of_nil in Hin|]. cbn [fold_right].
    apply Forall_cons in Hl as [Hl1 Hl]. apply Forall_cons in Hn as [Hn1 Hn].
    destruct (strip_suffix w (x ++ [cr])) as [r|] eqn:E; cbn [option_or].
    - apply strip_suffix_Some in E. destruct (exists_last Hn1) as (w' & c & ->). rewrite app_assoc in E.
      apply app_inj_tail in E as [-> <-]. rewrite last_snoc in Hl1. specialize (Hl1 eq_refl). destruct w' as [|? [|]]; [|done..]. by rewrite app_nil_r.
    - apply IH; [done| |done]. apply elem_of_cons in Hin as [<-|Hin]; [|done].
      exfalso. by rewrite strip_suffix_app in E. }
  apply H.
  - repeat constructor; intros E; vm_compute in E; first [discriminate E|reflexivity].
  - apply (bool_decide_unpack _). vm_compute. exact I.
  - rewrite Forall_forall. apply white_space_nonempty.
Qed.

Lemma trim_cr x : trim (x ++ [cr]) = trim x.
Proof.
  unfold trim. assert (forall n x, (length x <= n)%nat -> let f := strip_all strip_one n x in
    strip_all strip_one (S n) (x ++ [cr]) = if bool_decide (f = []) then [] else f ++ [cr]) as Hf.
  { induction n as [|n IH]; intros y Hy f.
    - destruct y; [|cbn in Hy; lia]. reflexivity.
    - subst f. destruct (decide (y = [])) as [->|Hn].
      + cbn [app]. change (strip_all strip_one (S (S n)) [cr]) with (strip_all strip_one (S n) []).
        by rewrite (strip_all_fuel _ (S n) 0) by (try (cbn; lia); apply strip_one_shortens).
      + change (strip_all strip_one (S (S n)) (y ++ [cr])) with
          (match strip_one (y ++ [cr]) with Some s' => strip_all strip_one (S n) s' | None => y ++ [cr] end).
        rewrite strip_one_cr by done. cbn [strip_all]. destruct (strip_one y) as [r|] eqn:E; cbn [option_map].
        * pose proof (strip_one_shortens _ _ E) as Hr. apply IH. lia.
        * by rewrite bool_decide_false. }
  rewrite length_app, Nat.add_1_r. pose proof (Hf (length x) x (le_n _)) as E. cbv zeta in E. rewrite E.
  set (f := strip_all strip_one (length x) x). destruct (bool_decide (f = [])) eqn:Eb; bools; [by rewrite Eb|].
  rewrite length_app, Nat.add_1_r. cbn [strip_all]. by rewrite strip_one_end_cr.
Qed.

(** [rsplit_once] splits at the last occurrence. *)
Lemma rsplit_once_split c s a b : rsplit_once c s = Some (a, b) <-> s = a ++ c :: b /\ c ∉ b.
Proof.
  assert (forall a b, rsplit_once c s = Some (a, b) -> s = a ++ c :: b /\ c ∉ b) as Hl.
  { clear a b. intros a b. unfold rsplit_once. destruct (rposition _ s) as [i|] eqn:E; [|done]. intros [= <- <-].
    destruct (rposition_Some _ s i E) as (h & y & t & -> & <- & Hy & Hf). apply Ascii.eqb_eq in Hy as <-.
    rewrite take_app_length. assert (skipn (S (length h)) (h ++ c :: t) = t) as -> by (rewrite <- Nat.add_1_r, <- drop_drop, drop_app_length; done).
    split; [done|]. intros Hin. rewrite Forall_forall in Hf. specialize (Hf _ Hin). by rewrite Ascii.eqb_refl in Hf. }
  split; [apply Hl|]. intros [-> Hb]. destruct (rsplit_once c (a ++ c :: b)) as [[a' b']|] eqn:E.
  - destruct (Hl _ _ eq_refl) as [E' Hb']. assert (a = a' /\ b = b') as [-> ->]; [|done]. clear Hl E. revert a' E'.
    induction a as [|x a IH]; intros [|y a'] E'; cbn in E'.
    + by injection E' as ->.
    + injection E' as _ ->. destruct Hb. apply elem_of_app. right. left.
    + injection E' as _ <-. destruct Hb'. apply elem_of_app. right. left.
    + injection E' as -> Er. by destruct (IH a' Er) as [-> ->].
  - unfold rsplit_once in E. destruct (rposition _ _) eqn:Er; [done|]. apply rposition_None, Forall_app in Er as [_ Er].
    apply Forall_cons in Er as [Er _]. by rewrite Ascii.eqb_refl in Er.
Qed.
