(* ===== verification/Utf8.v ===== *)
(** * UTF-8 in the Rust standard library

    [String::from_utf8] and [String::from_utf8_lossy], which the shell applies to file contents: the
    validation of [core::str], byte by byte with the ranges of the Unicode standard, its error
    ([valid_up_to] and [error_len]) and the replacement of what is not valid. *)

From S2P Require Import Prelude.
From S2P Require Import Text.

Definition continuation (c : ascii) : bool := in_range 128 191 c.

(** The second byte a lead byte of three or four allows. *)
Definition second_byte (lead c : ascii) : bool :=
  let b := N_of_ascii lead in
  if (b =? 224)%N then in_range 160 191 c
  else if (b =? 237)%N then in_range 128 159 c
  else if (b =? 240)%N then in_range 144 191 c
  else if (b =? 244)%N then in_range 128 143 c
  else continuation c.

(** What stands at the front of the bytes: a character of this width, or an error with the length of
    what cannot start one, [None] when the bytes end too early. *)
Variant Utf8Step := Char (width : nat) | Invalid (error_len : option nat).

Definition next_byte (ok : ascii -> bool) (error_len : nat) (s : str) (k : str -> Utf8Step) : Utf8Step :=
  match s with
  | [] => Invalid None
  | c :: r => if ok c then k r else Invalid (Some error_len)
  end.

Definition utf8_step (c : ascii) (r : str) : Utf8Step :=
  if in_range 0 127 c then Char 1
  else if in_range 194 223 c then next_byte continuation 1 r (fun _ => Char 2)
  else if in_range 224 239 c then
    next_byte (second_byte c) 1 r (fun r => next_byte continuation 2 r (fun _ => Char 3))
  else if in_range 240 244 c then
    next_byte (second_byte c) 1 r (fun r =>
      next_byte continuation 2 r (fun r => next_byte continuation 3 r (fun _ => Char 4)))
  else Invalid (Some 1%nat).

Record Utf8Error := { valid_up_to : nat; error_len : option nat }.

(** [more] bytes of the character being read are left. *)
Fixpoint validate (more index : nat) (s : str) : result unit Utf8Error :=
  match s with
  | [] => Ok tt
  | c :: r =>
      match more with
      | S more => validate more (S index) r
      | O =>
          match utf8_step c r with
          | Char width => validate (Nat.pred width) (S index) r
          | Invalid e => Err {| valid_up_to := index; error_len := e |}
          end
      end
  end.

Definition utf8_error_to_string (e : Utf8Error) : str :=
  let from := " from index " ++ dec (N.of_nat (valid_up_to e)) in
  match error_len e with
  | Some n => "invalid utf-8 sequence of " ++ dec (N.of_nat n) ++ " bytes" ++ from
  | None => "incomplete utf-8 byte sequence" ++ from
  end.

Definition from_utf8 (data : str) : result str Utf8Error := let? _ := validate 0 0 data in Ok data.

(** U+FFFD. *)
Definition replacement : str := map ascii_of_nat [239; 191; 189]%nat.

(** [copy] bytes of a character, or [drop] bytes of an error, are left. *)
Fixpoint lossy (copy drop : nat) (s : str) : str :=
  match s with
  | [] => []
  | c :: r =>
      match copy, drop with
      | S copy, _ => c :: lossy copy 0 r
      | O, S drop => lossy 0 drop r
      | O, O =>
          match utf8_step c r with
          | Char width => c :: lossy (Nat.pred width) 0 r
          | Invalid (Some n) => replacement ++ lossy 0 (Nat.pred n) r
          | Invalid None => replacement
          end
      end
  end.

Definition from_utf8_lossy (data : str) : str := lossy 0 0 data.

Definition valid_utf8 (s : str) : Prop := validate 0 0 s = Ok tt.

(** ** Characters

    [s.chars().count()] and [s.chars().take(n)], on valid UTF-8: a character starts at a byte that does
    not continue one. *)

Definition char_count (s : str) : nat := length (List.filter (fun b => negb (continuation b)) s).

Fixpoint take_chars (n : nat) (s : str) : str :=
  match s with
  | [] => []
  | c :: r =>
      if continuation c then c :: take_chars n r
      else match n with O => [] | S n => c :: take_chars n r end
  end.

(** ** Lemmas *)

Lemma take_chars_prefix n s : exists r, s = take_chars n s ++ r.
Proof.
  revert n. induction s as [|c s IH]; intros n; cbn [take_chars]; [by exists []|].
  destruct (continuation c); [|destruct n as [|n]; [by exists (c :: s)|]];
    match goal with |- context [take_chars ?k s] => destruct (IH k) as [r Hr] end; exists r; cbn; by rewrite <- Hr.
Qed.

Lemma take_chars_count n s : (char_count (take_chars n s) <= n)%nat.
Proof.
  unfold char_count. revert n. induction s as [|c s IH]; intros n; cbn [take_chars List.filter]; [cbn; lia|].
  destruct (continuation c) eqn:E; [|destruct n as [|n]; [cbn; lia|]]; cbn [List.filter]; rewrite E; cbn [negb length]; [apply IH|].
  specialize (IH n). lia.
Qed.

Lemma from_utf8_ok s : valid_utf8 s -> from_utf8 s = Ok s.
Proof. unfold from_utf8. by intros ->. Qed.

Lemma from_utf8_inv s t : from_utf8 s = Ok t -> t = s /\ valid_utf8 s.
Proof. unfold from_utf8, valid_utf8. destruct (validate 0 0 s) as [[]|e]; [by intros [= <-]|done]. Qed.

Lemma validate_index more i j s : validate more i s = Ok tt -> validate more j s = Ok tt.
Proof.
  revert more i j; induction s as [|c r IH]; intros more i j; cbn [validate]; [done|].
  destruct more as [|more]; [|apply IH]. destruct (utf8_step c r); [apply IH|done].
Qed.

(** Valid text is left alone. *)
Lemma lossy_valid more i s : validate more i s = Ok tt -> lossy more 0 s = s.
Proof.
  revert more i; induction s as [|c r IH]; intros more i; cbn [validate lossy]; [done|].
  destruct more as [|more]; [|intros H; f_equal; by eapply IH].
  destruct (utf8_step c r); [|done]. intros H; f_equal; by eapply IH.
Qed.

Lemma from_utf8_lossy_valid s : valid_utf8 s -> from_utf8_lossy s = s.
Proof. apply lossy_valid. Qed.

(** ASCII text is valid. *)
Lemma ascii_valid s : Forall (fun c => in_range 0 127 c = true) s -> valid_utf8 s.
Proof.
  unfold valid_utf8. generalize 0%nat at 2. intros i H; revert i; induction H as [|c s Hc _ IH]; intros i; [done|].
  cbn [validate]. unfold utf8_step. rewrite Hc. apply IH.
Qed.

Lemma next_byte_width ok e s k w :
  next_byte ok e s k = Char w -> exists c r, s = c :: r /\ k r = Char w.
Proof. destruct s as [|c r]; cbn; [done|]. destruct (ok c); [eauto|done]. Qed.

(** A character's bytes are all there, and what follows it does not matter. *)
Lemma utf8_step_app c r w t : utf8_step c r = Char w -> utf8_step c (r ++ t) = Char w /\ (Nat.pred w <= length r)%nat.
Proof.
  unfold utf8_step, next_byte. destruct (in_range 0 127 c); [intros [= <-]; split; [done|cbn; lia]|].
  repeat (destruct (in_range _ _ c));
    repeat (match goal with |- context [match ?s with [] => _ | _ :: _ => _ end] => is_var s; destruct s end);
    cbn [app]; repeat (match goal with |- context [if ?b then _ else _] => destruct b end);
    try discriminate; intros [= <-]; (split; [reflexivity|cbn; lia]).
Qed.

Lemma validate_app more i s t :
  (more <= length s)%nat -> validate more i s = Ok tt -> valid_utf8 t -> validate more i (s ++ t) = Ok tt.
Proof.
  revert more i; induction s as [|c r IH]; intros more i Hm; cbn [validate app].
  - intros _ Ht. cbn in Hm. assert (more = 0%nat) as -> by lia. by eapply validate_index.
  - destruct more as [|more]; [|apply IH; cbn in Hm; lia].
    destruct (utf8_step c r) as [w|e] eqn:E; [|done]. apply (utf8_step_app _ _ _ t) in E as [-> Hw].
    apply IH. done.
Qed.

Lemma valid_utf8_app s t : valid_utf8 s -> valid_utf8 t -> valid_utf8 (s ++ t).
Proof. apply validate_app; cbn; lia. Qed.

(** *** Cutting valid text at an ASCII character *)

Definition is_ascii (c : ascii) : bool := in_range 0 127 c.

Lemma ascii_out_of_range d lo hi : is_ascii d = true -> (127 <? lo)%N = true -> in_range lo hi d = false.
Proof.
  unfold is_ascii, in_range. intros (_ & H%N.leb_le)%andb_true_iff Hlo%N.ltb_lt. apply andb_false_iff. left.
  apply N.leb_gt. lia.
Qed.

Lemma utf8_step_cut c a d b w : is_ascii d = true -> utf8_step c (a ++ d :: b) = Char w ->
  (Nat.pred w <= length a)%nat /\ utf8_step c a = Char w.
Proof.
  unfold utf8_step, next_byte, second_byte, continuation. intros Hd.
  destruct (in_range 0 127 c); [intros [= <-]; split; [cbn; lia|done]|].
  destruct a as [|a1 [|a2 [|a3 a]]]; cbn [app length];
    rewrite ?(ascii_out_of_range d 128), ?(ascii_out_of_range d 144), ?(ascii_out_of_range d 160) by done;
    repeat (match goal with |- context [if ?b then _ else _] =>
      match b with context [if _ then _ else _] => fail 1 | _ => destruct b end end); try discriminate;
    intros [= <-]; (split; [cbn; lia|done]).
Qed.

Lemma validate_cut more i a d b : is_ascii d = true -> (more <= length a)%nat ->
  validate more i (a ++ d :: b) = Ok tt -> validate more i a = Ok tt /\ valid_utf8 (d :: b).
Proof.
  intros Hd. revert more i. induction a as [|c a IH]; intros more i Hm; cbn [app].
  - cbn in Hm. assert (more = 0%nat) as -> by lia. intros Hv. split; [done|]. by eapply validate_index.
  - cbn [validate]. destruct more as [|more]; [|apply IH; cbn in Hm; lia].
    destruct (utf8_step c (a ++ d :: b)) as [w|e] eqn:E; [|done]. apply utf8_step_cut in E as [Hw ->]; [|done]. by apply IH.
Qed.

Lemma valid_utf8_cut a d b : is_ascii d = true -> valid_utf8 (a ++ d :: b) -> valid_utf8 a /\ valid_utf8 b.
Proof.
  intros Hd Hv. destruct (validate_cut 0 0 a d b Hd (Nat.le_0_l _) Hv) as [Ha Hb]. split; [done|]. unfold valid_utf8 in Hb. cbn [validate] in Hb.
  unfold utf8_step in Hb. unfold is_ascii in Hd. rewrite Hd in Hb. by eapply validate_index.
Qed.
