(* ===== verification/ShellParser.v ===== *)
(** * The shell parser

    Models [crates/simulacra-shell/src/parser.rs] and [heredoc.rs]: the tokenizer, whose main loop is
    one [turn] per iteration over what is left of the input, and the grouping of tokens into lines,
    pipelines and commands.  The code walks an index over the [char]s; every character it tests for
    is ASCII, so walking the bytes that are left is the same.  The tokenizer's loop need not end, so
    it takes fuel and answers [None] when the fuel runs out. *)

From S2P Require Import Prelude.
From S2P Require Import Text.

(** ** Data *)

Variant Connector := And | Or | Semicolon.
Variant RedirectStream := Stdout | Stderr | StdoutAndStderr.
Variant RedirectTarget :=
| ToFile (path : str) (literal : bool)
| ToStdout
| ToStderr.
Variant RedirectKind := Truncate | Append.

Record Redirect := { stream : RedirectStream; redirect_kind : RedirectKind; target : RedirectTarget }.

Record Command := {
  program : str;
  args : list str;
  redirects : list Redirect;
  heredoc : option str;
  program_literal : bool;
  literal_args : list bool;
}.

Definition Pipeline := list Command.
Record ShellItem := { pipeline : Pipeline; connector : option Connector }.
Definition ShellLine := list ShellItem.

Variant Token :=
| Word (w : str)
| SingleQuoted (w : str)
| TPipe
| TAnd
| TOr
| TSemicolon
| RedirectTruncate (s : RedirectStream)
| RedirectAppend (s : RedirectStream)
| RedirectToStream (s : RedirectStream) (t : RedirectTarget)
| HereDoc (content : str).

#[export] Instance Token_eq_dec : EqDecision Token.
Proof. unfold EqDecision, Decision. repeat decide equality. Defined.

Record HereDocSpec := { delimiter : str; token_index : nat }.

(** The state of the loop: the characters left, the tokens so far, the here-documents whose bodies
    start after the next line break. *)
Record Tokenizer := { rest : str; tokens : list Token; pending_heredocs : list HereDocSpec }.

(** ** Characters *)

(** The double quote. *)
Definition dquote : ascii := ascii_of_nat 34.

Definition is_ascii_whitespace (c : ascii) : bool :=
  mem c [" "%char; ascii_of_nat 9; lf; ascii_of_nat 12; cr].
Definition operator (c : ascii) : bool := mem c (lit "|><&;").
Definition word_end (c : ascii) : bool := is_ascii_whitespace c || operator c.

Definition next_is (c : ascii) (r : str) : bool :=
  match r with d :: _ => Ascii.eqb d c | [] => false end.

(** ** Here-documents *)

Definition read_delimiter (chars : str) : str * str :=
  match chars with
  | [] => ([], [])
  | quote :: r =>
      if Ascii.eqb quote "'" || Ascii.eqb quote dquote then
        (take_while (fun c => negb (Ascii.eqb c quote)) r,
         tail (drop_while (fun c => negb (Ascii.eqb c quote)) r))
      else
        (take_while (fun c => negb (word_end c)) chars, drop_while (fun c => negb (word_end c)) chars)
  end.

(** The lines up to the delimiter; [line] is what has been read of the current one. *)
Fixpoint consume_lines (chars delimiter line content : str) : str * str :=
  match chars with
  | [] => (if str_eqb line delimiter then content else content ++ line, [])
  | c :: r =>
      if Ascii.eqb c lf then
        if str_eqb line delimiter then (content, r)
        else consume_lines r delimiter [] (content ++ line ++ [lf])
      else consume_lines r delimiter (line ++ [c]) content
  end.

Definition consume_body (chars delimiter : str) : str * str := consume_lines chars delimiter [] [].

Fixpoint fill_heredocs (specs : list HereDocSpec) (chars : str) (tokens : list Token)
    : str * list Token :=
  match specs with
  | [] => (chars, tokens)
  | spec :: specs =>
      let '(content, next) := consume_body chars (delimiter spec) in
      fill_heredocs specs next (<[token_index spec := HereDoc content]> tokens)
  end.

(** ** Words *)

Definition escapable (c : ascii) : bool := mem c (dquote :: lit "\$`").

(** The loop inside quotes, with the escapes of double quotes. *)
Fixpoint quoted (quote : ascii) (chars word : str) : str * str :=
  match chars with
  | [] => (word, [])
  | c :: r =>
      if Ascii.eqb c quote then (word, r)
      else
        match r with
        | next :: r' =>
            if Ascii.eqb quote dquote && Ascii.eqb c "\" && escapable next
            then quoted quote r' (word ++ [next])
            else quoted quote r (word ++ [c])
        | [] => quoted quote r (word ++ [c])
        end
  end.

(** The loop over a word, and, at a positive [depth], the loop over a command substitution in it. *)
Fixpoint word_loop (depth : nat) (chars word : str) : str * str :=
  match chars with
  | [] => (word, [])
  | c :: r =>
      match depth with
      | O =>
          if word_end c then (word, chars)
          else
            match r with
            | next :: r' =>
                if Ascii.eqb c "\" && Ascii.eqb next lf then (word, r')
                else if Ascii.eqb c "$" && Ascii.eqb next "("
                then word_loop 1 r' (word ++ lit "$(")
                else word_loop 0 r (word ++ [c])
            | [] => word_loop 0 r (word ++ [c])
            end
      | S d =>
          let depth := if Ascii.eqb c "(" then S depth else if Ascii.eqb c ")" then d else depth in
          word_loop depth r (word ++ [c])
      end
  end.

(** ** The tokenizer *)

Definition push (t : Tokenizer) (tok : Token) (rest : str) : Tokenizer :=
  {| rest := rest; tokens := tokens t ++ [tok]; pending_heredocs := pending_heredocs t |}.

Definition skip_to (t : Tokenizer) (rest : str) : Tokenizer :=
  {| rest := rest; tokens := tokens t; pending_heredocs := pending_heredocs t |}.

(** [2>], [2>>] and [2>&1] after their digit and [>]. *)
Definition fd_redirect (t : Tokenizer) (s : RedirectStream) (r : str) : Tokenizer :=
  match r with
  | amp :: fd :: r' =>
      if Ascii.eqb amp "&" && (Ascii.eqb fd "1" || Ascii.eqb fd "2")
      then push t (RedirectToStream s (if Ascii.eqb fd "1" then ToStdout else ToStderr)) r'
      else if Ascii.eqb amp ">" then push t (RedirectAppend s) (fd :: r')
      else push t (RedirectTruncate s) r
  | [gt] => if Ascii.eqb gt ">" then push t (RedirectAppend s) [] else push t (RedirectTruncate s) r
  | [] => push t (RedirectTruncate s) r
  end.

(** What follows [<<]. *)
Definition heredoc_start (t : Tokenizer) (r : str) : Tokenizer :=
  let r := if next_is "-" r then tail r else r in
  let r := drop_while (fun c => mem c [" "%char; ascii_of_nat 9]) r in
  let '(delimiter, next) := read_delimiter r in
  if str_eqb delimiter [] then skip_to t next
  else {| rest := next; tokens := tokens t ++ [HereDoc []];
          pending_heredocs := pending_heredocs t
            ++ [{| delimiter := delimiter; token_index := length (tokens t) |}] |}.

Definition newline (t : Tokenizer) (r : str) : Tokenizer :=
  match pending_heredocs t with
  | [] => push t TSemicolon r
  | specs =>
      let '(next, tokens) := fill_heredocs specs r (tokens t) in
      {| rest := next; tokens := tokens ++ [TSemicolon]; pending_heredocs := [] |}
  end.

Definition not_connective (c : ascii) : bool :=
  negb (is_ascii_whitespace c) && negb (mem c (lit "|&;")).

(** One iteration of the loop, at the character [c] followed by [r]. *)
Definition turn (t : Tokenizer) (c : ascii) (r : str) : Tokenizer :=
  if Ascii.eqb c "\" && next_is lf r then skip_to t (tail r)
  else if Ascii.eqb c lf then newline t r
  else if is_ascii_whitespace c then skip_to t r
  else if (Ascii.eqb c "1" || Ascii.eqb c "2") && next_is ">" r then
    fd_redirect t (if Ascii.eqb c "1" then Stdout else Stderr) (tail r)
  else if is_ascii_digit c && next_is ">" r then
    push t (Word (take_while not_connective (c :: r))) (drop_while not_connective (c :: r))
  else if Ascii.eqb c "<" && next_is "<" r then heredoc_start t (tail r)
  else if Ascii.eqb c "&" && starts_with ">>" r then push t (RedirectAppend StdoutAndStderr) (skipn 2 r)
  else if Ascii.eqb c "&" && next_is ">" r then push t (RedirectTruncate StdoutAndStderr) (tail r)
  else if Ascii.eqb c "&" && next_is "&" r then push t TAnd (tail r)
  else if Ascii.eqb c "|" && next_is "|" r then push t TOr (tail r)
  else if Ascii.eqb c ">" && next_is ">" r then push t (RedirectAppend Stdout) (tail r)
  else if Ascii.eqb c "|" then push t TPipe r
  else if Ascii.eqb c ">" then push t (RedirectTruncate Stdout) r
  else if Ascii.eqb c "&" then push t TAnd r
  else if Ascii.eqb c ";" then push t TSemicolon r
  else if Ascii.eqb c "'" || Ascii.eqb c dquote then
    let '(word, next) := quoted c r [] in
    push t (if Ascii.eqb c "'" then SingleQuoted word else Word word) next
  else
    let '(word, next) := word_loop 0 (c :: r) [] in
    if str_eqb word [] then skip_to t next else push t (Word word) next.

Fixpoint tokenize_loop (fuel : nat) (t : Tokenizer) : option (list Token) :=
  match rest t with
  | [] => Some (tokens t)
  | c :: r =>
      match fuel with
      | O => None
      | S fuel => tokenize_loop fuel (turn t c r)
      end
  end.

Definition start (input : str) : Tokenizer :=
  {| rest := input; tokens := []; pending_heredocs := [] |}.

Definition tokenize (fuel : nat) (input : str) : option (list Token) := tokenize_loop fuel (start input).

(** ** Commands, pipelines and lines *)

(** What [parse_command] has collected. *)
Record Collected := { command : Command; expect_redirect : option (RedirectStream * RedirectKind) }.

Definition add_redirect (c : Command) (r : Redirect) : Command :=
  {| program := program c; args := args c; redirects := redirects c ++ [r]; heredoc := heredoc c;
     program_literal := program_literal c; literal_args := literal_args c |}.

Definition command_word (acc : Collected) (w : str) (is_literal : bool) : Collected :=
  let c := command acc in
  match expect_redirect acc with
  | Some (s, k) =>
      {| command := add_redirect c {| stream := s; redirect_kind := k; target := ToFile w is_literal |};
         expect_redirect := None |}
  | None =>
      if str_eqb (program c) [] then
        {| command := {| program := w; args := args c; redirects := redirects c; heredoc := heredoc c;
                         program_literal := is_literal; literal_args := literal_args c |};
           expect_redirect := None |}
      else
        {| command := {| program := program c; args := args c ++ [w]; redirects := redirects c;
                         heredoc := heredoc c; program_literal := program_literal c;
                         literal_args := literal_args c ++ [is_literal] |};
           expect_redirect := None |}
  end.

Definition command_token (acc : Collected) (tok : Token) : Collected :=
  let c := command acc in
  match tok with
  | RedirectTruncate s => {| command := c; expect_redirect := Some (s, Truncate) |}
  | RedirectAppend s => {| command := c; expect_redirect := Some (s, Append) |}
  | RedirectToStream s t =>
      {| command := add_redirect c {| stream := s; redirect_kind := Truncate; target := t |};
         expect_redirect := expect_redirect acc |}
  | Word w => command_word acc w false
  | SingleQuoted w => command_word acc w true
  | HereDoc content =>
      {| command := {| program := program c; args := args c; redirects := redirects c;
                       heredoc := Some content; program_literal := program_literal c;
                       literal_args := literal_args c |};
         expect_redirect := expect_redirect acc |}
  | TPipe | TAnd | TOr | TSemicolon => acc
  end.

Definition no_command : Command :=
  {| program := []; args := []; redirects := []; heredoc := None; program_literal := false;
     literal_args := [] |}.

Definition parse_command (tokens : list Token) : Command :=
  command (foldl command_token {| command := no_command; expect_redirect := None |} tokens).

(** The loops of [parse_pipeline] and [parse_tokens], with the tokens of the command or pipeline being
    read. *)
Fixpoint pipeline_loop (tokens current : list Token) (commands : list Command) : Pipeline :=
  match tokens with
  | [] => if bool_decide (current = []) then commands else commands ++ [parse_command current]
  | TPipe :: more => pipeline_loop more [] (commands ++ [parse_command current])
  | tok :: more => pipeline_loop more (current ++ [tok]) commands
  end.

Definition parse_pipeline (tokens : list Token) : Pipeline := pipeline_loop tokens [] [].

Definition token_connector (tok : Token) : option Connector :=
  match tok with
  | TAnd => Some And
  | TOr => Some Or
  | TSemicolon => Some Semicolon
  | _ => None
  end.

Fixpoint line_loop (tokens current : list Token) (items : list ShellItem) : ShellLine :=
  match tokens with
  | [] =>
      if bool_decide (current = []) then items
      else items ++ [{| pipeline := parse_pipeline current; connector := None |}]
  | tok :: more =>
      match token_connector tok with
      | Some c =>
          if bool_decide (current = []) then line_loop more current items
          else line_loop more [] (items ++ [{| pipeline := parse_pipeline current; connector := Some c |}])
      | None => line_loop more (current ++ [tok]) items
      end
  end.

Definition parse_tokens (tokens : list Token) : ShellLine := line_loop tokens [] [].

Definition parse (fuel : nat) (input : str) : option ShellLine :=
  let input := trim input in
  if str_eqb input [] then Some []
  else option_map parse_tokens (tokenize fuel input).

(** Enough fuel when the loop ends at all. *)
Definition parse_fuel (input : str) : nat := S (length input).

(** ** Every turn makes progress, but for a lone [<] *)

(** The characters at which the loop turns in place: a [<] with no second one. *)
Definition lone_lt (chars : str) : Prop := exists r, chars = "<"%char :: r /\ next_is "<" r = false.

Lemma length_drop_while {A} (p : A -> bool) l : (length (drop_while p l) <= length l)%nat.
Proof. induction l as [|x l IH]; cbn; [done|]. destruct (p x); cbn; lia. Qed.

Lemma length_tail {A} (l : list A) : (length (tail l) <= length l)%nat.
Proof. destruct l; cbn; lia. Qed.

Lemma length_read_delimiter chars : (length (snd (read_delimiter chars)) <= length chars)%nat.
Proof.
  destruct chars as [|q r]; [done|]. cbn [read_delimiter]. destruct (_ || _); cbn [snd].
  - etrans; [apply length_tail|]. etrans; [apply length_drop_while|]. cbn; lia.
  - apply length_drop_while.
Qed.

Lemma length_consume_lines chars d line content :
  (length (snd (consume_lines chars d line content)) <= length chars)%nat.
Proof.
  revert line content; induction chars as [|c r IH]; intros line content; cbn [consume_lines]; [done|].
  destruct (Ascii.eqb c lf); [destruct (str_eqb _ _); [cbn; lia|]|]; (etrans; [apply IH|]); cbn; lia.
Qed.

Lemma length_fill_heredocs specs chars toks :
  (length (fst (fill_heredocs specs chars toks)) <= length chars)%nat.
Proof.
  revert chars toks; induction specs as [|sp specs IH]; intros chars toks; cbn [fill_heredocs]; [done|].
  pose proof (length_consume_lines chars (delimiter sp) [] []) as Hc. unfold consume_body.
  destruct (consume_lines _ _ _ _) as [content next]. cbn in Hc |- *. specialize (IH next). etrans; [apply IH|done].
Qed.

Lemma length_quoted q chars w : (length (snd (quoted q chars w)) <= length chars)%nat.
Proof.
  remember (length chars) as n eqn:En. revert chars w En.
  induction n as [n IH] using lt_wf_ind; intros [|c r] w ->; cbn [quoted]; [cbn; lia|].
  destruct (Ascii.eqb c q); [cbn; lia|]. destruct r as [|d r]; [cbn; lia|].
  destruct (_ && _); (etrans; [eapply IH; [|reflexivity]; cbn; lia|]); cbn; lia.
Qed.

Lemma length_word_loop d chars w : (length (snd (word_loop d chars w)) <= length chars)%nat.
Proof.
  remember (length chars) as n eqn:En. revert d chars w En.
  induction n as [n IH] using lt_wf_ind; intros d [|c r] w ->; cbn [word_loop]; [cbn; lia|].
  assert (Hr : forall d w, (length (snd (word_loop d r w)) <= length (c :: r))%nat).
  { intros d' w'. etrans; [eapply IH; [|reflexivity]; cbn; lia|]. cbn; lia. }
  destruct d as [|d]; [|apply Hr]. destruct (word_end c); [done|]. destruct r as [|e r]; [apply Hr|].
  destruct (_ && _); [cbn; lia|]. destruct (_ && _); [|apply Hr].
  etrans; [eapply IH; [|reflexivity]; cbn; lia|]. cbn; lia.
Qed.

Lemma length_word_start c r w :
  word_end c = false -> (length (snd (word_loop 0 (c :: r) w)) <= length r)%nat.
Proof.
  intros Hc. cbn [word_loop]. rewrite Hc. destruct r as [|e r]; [cbn; lia|].
  destruct (_ && _); [cbn; lia|]. destruct (_ && _); [|apply length_word_loop].
  etrans; [apply length_word_loop|]. cbn; lia.
Qed.

Lemma length_newline t r : (length (rest (newline t r)) <= length r)%nat.
Proof.
  unfold newline. destruct (pending_heredocs t) as [|sp specs]; [done|].
  pose proof (length_fill_heredocs (sp :: specs) r (tokens t)) as H.
  by destruct (fill_heredocs _ _ _).
Qed.

Lemma length_fd_redirect t s r : (length (rest (fd_redirect t s r)) <= length r)%nat.
Proof. unfold fd_redirect. repeat break_match; cbn; lia. Qed.

Lemma length_heredoc_start t r : (length (rest (heredoc_start t r)) <= length r)%nat.
Proof.
  unfold heredoc_start. set (r1 := if next_is "-" r then tail r else r). set (r2 := drop_while _ r1).
  assert (length r2 <= length r)%nat.
  { etrans; [apply length_drop_while|]. unfold r1. destruct (next_is _ _); [apply length_tail|done]. }
  pose proof (length_read_delimiter r2). destruct (read_delimiter r2) as [d next]. cbn in *.
  destruct (str_eqb _ _); cbn; lia.
Qed.

Ltac next_branch := lazymatch goal with |- context [if ?b then _ else _] => destruct b end.

(** A turn that is not at a lone [<] shortens what is left. *)
Lemma turn_progress t c r :
  lone_lt (c :: r) \/ (length (rest (turn t c r)) <= length r)%nat.
Proof.
  destruct (Ascii.eqb c "<" && negb (next_is "<" r)) eqn:El.
  { left. bools. subst. by exists r. }
  assert (Hlt : c = "<"%char -> next_is "<" r = true).
  { intros ->. by destruct (next_is "<" r). }
  clear El. right. unfold turn.
  destruct (_ && _); [apply length_tail|].
  destruct (Ascii.eqb c lf); [apply length_newline|].
  destruct (is_ascii_whitespace c) eqn:Ews; [done|].
  destruct (_ && _); [etrans; [apply length_fd_redirect|apply length_tail]|].
  destruct (is_ascii_digit c && next_is ">" r) eqn:Ed.
  { cbn [rest push drop_while].
    assert (not_connective c = true) as ->.
    { apply andb_true_iff in Ed as [Ed _]. unfold not_connective. rewrite Ews. cbn [negb andb].
      destruct (mem c _) eqn:Em; [|done]. bools. apply list_elem_of_In in Em. cbn in Em.
      repeat destruct Em as [<-|Em]; done. }
    apply length_drop_while. }
  destruct (Ascii.eqb c "<" && next_is "<" r) eqn:Eh; [etrans; [apply length_heredoc_start|apply length_tail]|].
  destruct (Ascii.eqb c "&" && starts_with ">>" r); [cbn [rest push]; rewrite length_skipn; lia|].
  do 4 (next_branch; [apply length_tail|]).
  destruct (Ascii.eqb c "|") eqn:E1; [done|]. destruct (Ascii.eqb c ">") eqn:E2; [done|].
  destruct (Ascii.eqb c "&") eqn:E3; [done|]. destruct (Ascii.eqb c ";") eqn:E4; [done|].
  destruct (Ascii.eqb c "'" || _).
  { pose proof (length_quoted c r []). by destruct (quoted c r []). }
  assert (word_end c = false) as Hw.
  { unfold word_end. rewrite Ews. cbn [orb]. destruct (operator c) eqn:Eo; [|done].
    unfold operator in Eo. bools. apply list_elem_of_In in Eo. cbn in Eo.
    repeat destruct Eo as [<-|Eo]; try discriminate; try done. rewrite (Hlt eq_refl) in Eh. by destruct Eh. }
  pose proof (length_word_start c r [] Hw). destruct (word_loop 0 (c :: r) []). by destruct (str_eqb _ _).
Qed.

(** At a lone [<] the turn changes nothing. *)
Lemma turn_stuck t c r : rest t = c :: r -> lone_lt (c :: r) -> turn t c r = t.
Proof.
  intros Er (r' & [= -> <-] & Hn). unfold turn.
  replace (Ascii.eqb "<" "\") with false by done. cbn [andb].
  change (Ascii.eqb "<" lf) with false. change (is_ascii_whitespace "<") with false.
  change (is_ascii_digit "<") with false. rewrite Hn.
  cbn. destruct t; cbn in *; by subst.
Qed.

(** One iteration of the loop, as a relation. *)
Inductive advances : Tokenizer -> Tokenizer -> Prop :=
| advances_turn t c r : rest t = c :: r -> advances t (turn t c r).

Lemma loop_stuck t t' fuel :
  rtc advances t t' -> lone_lt (rest t') -> tokenize_loop fuel t = None.
Proof.
  intros Ht Hl. revert fuel. induction Ht as [t|t u v Htu _ IH]; intros fuel.
  - destruct (rest t) as [|c r] eqn:Er; [by destruct Hl as (? & ? & _)|].
    induction fuel as [|fuel IH]; cbn [tokenize_loop]; rewrite Er; [done|]. by rewrite turn_stuck.
  - inversion Htu as [? c r Er]; subst. destruct fuel as [|fuel]; cbn [tokenize_loop]; rewrite Er; [done|].
    by apply IH.
Qed.

Lemma loop_returns fuel t :
  (length (rest t) <= fuel)%nat -> (forall u, rtc advances t u -> ~ lone_lt (rest u)) ->
  exists toks, forall fuel', (fuel <= fuel')%nat -> tokenize_loop fuel' t = Some toks.
Proof.
  revert t; induction fuel as [|fuel IH]; intros t Hf Hn.
  - destruct (rest t) eqn:Er; [|cbn in Hf; lia]. exists (tokens t). intros fuel' _.
    destruct fuel'; cbn [tokenize_loop]; by rewrite Er.
  - destruct (rest t) as [|c r] eqn:Er.
    { exists (tokens t). intros fuel' _. destruct fuel'; cbn [tokenize_loop]; by rewrite Er. }
    assert (Hstep : advances t (turn t c r)) by by constructor.
    destruct (turn_progress t c r) as [Hl|Hlen].
    { destruct (Hn t); [done|]. by rewrite Er. }
    destruct (IH (turn t c r)) as [toks Ht].
    + cbn in Hf. lia.
    + intros u Hu. apply Hn. by eapply rtc_l.
    + exists toks. intros [|fuel'] Hle; [lia|]. cbn [tokenize_loop]. rewrite Er. apply Ht. lia.
Qed.

(** When the parser returns: the tokenizer's loop ends exactly when it never comes to a [<] that
    no second one follows outside quotes, words and here-documents, and then as many turns as the
    input is long are enough; otherwise no number of turns is. *)
Theorem parse_terminates_iff input :
  let hangs := exists t, rtc advances (start (trim input)) t /\ lone_lt (rest t) in
  (hangs -> forall fuel, parse fuel input = None) /\
  (~ hangs -> exists line, forall fuel, (length input <= fuel)%nat -> parse fuel input = Some line).
Proof.
  intros hangs. unfold parse, tokenize. destruct (str_eqb (trim input) []) eqn:Ee; bools.
  - split; [|intros _; by exists []]. subst hangs. rewrite Ee. intros (t & Ht & r & Hr & _).
    inversion Ht as [|? u ? Hu]; subst; by inversion Hu || done.
  - split.
    + intros (t & Ht & Hl) fuel. by rewrite (loop_stuck _ t).
    + intros Hn. destruct (loop_returns (length (trim input)) (start (trim input))) as [toks Ht]; [done| |].
      * intros u Hu Hl. apply Hn. by exists u.
      * exists (parse_tokens toks). intros fuel Hf. rewrite Ht; [done|]. pose proof (length_trim input). lia.
Qed.

(** ** What a command line is read as *)

(** The characters that stand for themselves in a word. *)
Definition plain (c : ascii) : bool := negb (word_end c) && negb (mem c (dquote :: lit "'\$")).
Definition plain_word (w : str) : Prop := w <> [] /\ forallb plain w = true.

(** A token ends before white space or at the end. *)
Definition sep (r : str) : Prop := r = [] \/ exists r', r = " "%char :: r'.

Lemma plain_not c x : plain c = true -> plain x = false -> Ascii.eqb c x = false.
Proof. intros Hc Hx. destruct (Ascii.eqb_spec c x); [by subst; rewrite Hc in Hx|done]. Qed.

Ltac not_special c Hc :=
  repeat match goal with |- context [Ascii.eqb c ?x] => rewrite (plain_not c x Hc eq_refl) end.

Lemma next_plain x w r :
  forallb plain w = true -> sep r -> plain x = false -> Ascii.eqb " " x = false -> next_is x (w ++ r) = false.
Proof.
  destruct w as [|c w]; cbn [app forallb].
  - intros _ [-> | [r' ->]] _ Hx; [done|exact Hx].
  - intros [Hc _]%andb_true_iff _ Hx _. by apply plain_not.
Qed.

Lemma word_loop_plain w r acc :
  forallb plain w = true -> sep r -> word_loop 0 (w ++ r) acc = (acc ++ w, r).
Proof.
  intros Hw Hr. revert acc Hw; induction w as [|c w IH]; intros acc Hw; cbn [app].
  - rewrite app_nil_r. by destruct Hr as [-> | [r' ->]].
  - cbn [forallb] in Hw. apply andb_true_iff in Hw as [Hc Hw]. cbn [word_loop].
    assert (word_end c = false) as -> by (unfold plain in Hc; by bools).
    assert (E : word_loop 0 (w ++ r) (acc ++ [c]) = (acc ++ c :: w, r)).
    { rewrite IH by done. by rewrite <- app_assoc. }
    destruct (w ++ r) as [|d k]; [exact E|].
    by not_special c Hc.
Qed.

Lemma turn_word t c w r :
  forallb plain (c :: w) = true -> sep r -> turn t c (w ++ r) = push t (Word (c :: w)) r.
Proof.
  intros Hcw Hr. pose proof Hcw as [Hc Hw]%andb_true_iff. unfold turn. not_special c Hc.
  assert (is_ascii_whitespace c = false) as -> by (unfold plain, word_end in Hc; by bools).
  rewrite (next_plain ">") by done. rewrite !andb_false_r. cbn [orb andb].
  change (c :: w ++ r) with ((c :: w) ++ r). by rewrite word_loop_plain.
Qed.

Lemma quoted_single w r acc : "'"%char ∉ w -> quoted "'" (w ++ "'"%char :: r) acc = (acc ++ w, r).
Proof.
  revert acc; induction w as [|c w IH]; intros acc Hw; cbn [app].
  - rewrite app_nil_r. reflexivity.
  - apply not_elem_of_cons in Hw as [Hc Hw]. cbn [quoted].
    destruct (Ascii.eqb_spec c "'"); [by subst|].
    assert (E : quoted "'" (w ++ "'"%char :: r) (acc ++ [c]) = (acc ++ c :: w, r)).
    { rewrite IH by done. by rewrite <- app_assoc. }
    destruct (w ++ "'"%char :: r); exact E.
Qed.

(** *** Printing *)

Definition word_token (w : str) (is_literal : bool) : Token :=
  if is_literal then SingleQuoted w else Word w.

Definition render_stream (s : RedirectStream) : str :=
  match s with Stdout => lit "" | Stderr => lit "2" | StdoutAndStderr => lit "&" end.

Definition render_token (tok : Token) : str :=
  match tok with
  | Word w => w
  | SingleQuoted w => "'"%char :: w ++ ["'"%char]
  | TPipe => "|"
  | TAnd => "&&"
  | TOr => "||"
  | TSemicolon => ";"
  | RedirectTruncate s => render_stream s ++ ">"
  | RedirectAppend s => render_stream s ++ ">>"
  | RedirectToStream s t =>
      (match s with Stdout => lit "1" | _ => lit "2" end) ++ ">&"
        ++ (match t with ToStdout => lit "1" | _ => lit "2" end)
  | HereDoc _ => []
  end.

Definition render (tokens : list Token) : str := join [" "%char] (map render_token tokens).

Definition word_ok (w : str) (is_literal : bool) : Prop :=
  if is_literal then "'"%char ∉ w else plain_word w.

Definition token_ok (tok : Token) : Prop :=
  match tok with
  | Word w => plain_word w
  | SingleQuoted w => "'"%char ∉ w
  | RedirectToStream s t => s <> StdoutAndStderr /\ (t = ToStdout \/ t = ToStderr)
  | HereDoc _ => False
  | _ => True
  end.

(** One turn reads a printed token. *)
Lemma turn_token tok :
  token_ok tok ->
  exists c w, render_token tok = c :: w /\ forall t r, sep r -> turn t c (w ++ r) = push t tok r.
Proof.
  assert (Hop : forall c w (k : Token),
    (forall t (_ : unit), turn t c w = push t k []) ->
    (forall t r', turn t c (w ++ " "%char :: r') = push t k (" "%char :: r')) ->
    forall t r, sep r -> turn t c (w ++ r) = push t k r).
  { intros c w k H1 H2 t r [-> | [r' ->]]; [rewrite app_nil_r; by apply H1|done]. }
  destruct tok as [w|w| | | | |[]|[]|s tg|]; cbn [token_ok render_token];
    try (intros _; eexists _, _; split; [reflexivity|]; apply Hop; intros ? []; reflexivity).
  - intros [Hne Hw]. destruct w as [|c w]; [done|]. exists c, w. split; [done|]. intros. by apply turn_word.
  - intros Hw. eexists _, _. split; [reflexivity|]. intros t r _. rewrite <- app_assoc. cbn [app].
    unfold turn. cbn -[quoted]. by rewrite quoted_single.
  - intros [Hs [-> | ->]]; destruct s; try done;
      (eexists _, _; split; [reflexivity|]; apply Hop; intros ? []; reflexivity).
  - done.
Qed.

(** Printed tokens are read back. *)
Lemma loop_render ts acc fuel :
  Forall token_ok ts -> (length (render ts) <= fuel)%nat ->
  tokenize_loop fuel {| rest := render ts; tokens := acc; pending_heredocs := [] |} = Some (acc ++ ts).
Proof.
  intros H; revert acc fuel; induction H as [|tok ts Hok Hts IH]; intros acc fuel Hf.
  { rewrite app_nil_r. by destruct fuel. }
  destruct (turn_token tok Hok) as (c & w & Er & Ht). destruct ts as [|tok2 ts].
  - unfold render in *. cbn [map join] in *. rewrite Er in *. destruct fuel as [|fuel]; [cbn in Hf; lia|].
    cbn [tokenize_loop rest]. rewrite <- (app_nil_r w), Ht by by left. by destruct fuel.
  - assert (E : render (tok :: tok2 :: ts) = c :: w ++ " "%char :: render (tok2 :: ts)).
    { unfold render. cbn [map]. rewrite join_cons_nonempty by done. by rewrite Er. }
    rewrite E in *. cbn [length] in Hf. rewrite length_app in Hf. cbn [length] in Hf.
    destruct fuel as [|[|fuel]]; [lia..|]. cbn [tokenize_loop rest].
    rewrite Ht by (right; by eexists).
    change (tokenize_loop fuel
      {| rest := render (tok2 :: ts); tokens := acc ++ [tok]; pending_heredocs := [] |}
      = Some (acc ++ tok :: tok2 :: ts)).
    rewrite IH by lia. by rewrite <- app_assoc.
Qed.

(** *** The tokens of a line *)

Definition redirect_tokens (r : Redirect) : list Token :=
  match target r with
  | ToFile p is_literal =>
      [match redirect_kind r with
       | Truncate => RedirectTruncate (stream r)
       | Append => RedirectAppend (stream r)
       end; word_token p is_literal]
  | t => [RedirectToStream (stream r) t]
  end.

Definition command_tokens (c : Command) : list Token :=
  word_token (program c) (program_literal c)
    :: zip_with word_token (args c) (literal_args c) ++ flat_map redirect_tokens (redirects c).

Fixpoint pipeline_tokens (p : Pipeline) : list Token :=
  match p with
  | [] => []
  | [c] => command_tokens c
  | c :: p => command_tokens c ++ TPipe :: pipeline_tokens p
  end.

Definition connector_token (c : Connector) : Token :=
  match c with And => TAnd | Or => TOr | Semicolon => TSemicolon end.

Definition item_tokens (it : ShellItem) : list Token :=
  pipeline_tokens (pipeline it) ++ match connector it with Some c => [connector_token c] | None => [] end.

Definition line_tokens (line : ShellLine) : list Token := flat_map item_tokens line.

Definition redirect_ok (r : Redirect) : Prop :=
  match target r with
  | ToFile p is_literal => word_ok p is_literal
  | _ => redirect_kind r = Truncate /\ stream r <> StdoutAndStderr
  end.

Definition command_ok (c : Command) : Prop :=
  program c <> [] /\ word_ok (program c) (program_literal c) /\
  Forall2 word_ok (args c) (literal_args c) /\ Forall redirect_ok (redirects c) /\ heredoc c = None.

Definition item_ok (it : ShellItem) : Prop := pipeline it <> [] /\ Forall command_ok (pipeline it).

(** Every item but the last is connected to the next. *)
Fixpoint connected (line : ShellLine) : Prop :=
  match line with
  | [] | [_] => True
  | it :: line => connector it <> None /\ connected line
  end.

Definition line_ok (line : ShellLine) : Prop := Forall item_ok line /\ connected line.

(** The tokens that belong to a command. *)
Definition of_command (tok : Token) : bool :=
  match tok with TPipe | TAnd | TOr | TSemicolon => false | _ => true end.

Lemma word_token_ok w l : word_ok w l -> token_ok (word_token w l) /\ of_command (word_token w l) = true.
Proof. by destruct l. Qed.

Lemma command_tokens_ok c :
  command_ok c ->
  Forall (fun tok => token_ok tok /\ of_command tok = true) (command_tokens c).
Proof.
  intros (_ & Hp & Ha & Hr & _). unfold command_tokens. constructor; [by apply word_token_ok|].
  apply Forall_app. split.
  - clear Hp Hr. induction Ha; cbn; constructor; [by apply word_token_ok|done].
  - clear Ha. induction Hr as [|r rs Hr _ IH]; [constructor|]. cbn [flat_map]. apply Forall_app. split; [|done].
    unfold redirect_ok, redirect_tokens in *. destruct (target r).
    + constructor; [by destruct (redirect_kind r)|]. constructor; [by apply word_token_ok|constructor].
    + destruct Hr. constructor; [|constructor]. cbn. naive_solver.
    + destruct Hr. constructor; [|constructor]. cbn. naive_solver.
Qed.

Lemma foldl_redirects rs c :
  Forall redirect_ok rs ->
  foldl command_token {| command := c; expect_redirect := None |} (flat_map redirect_tokens rs)
  = {| command := {| program := program c; args := args c; redirects := redirects c ++ rs;
                     heredoc := heredoc c; program_literal := program_literal c;
                     literal_args := literal_args c |};
       expect_redirect := None |}.
Proof.
  intros H; revert c; induction H as [|r rs Hr _ IH]; intros c; cbn [flat_map].
  - rewrite app_nil_r. by destruct c.
  - rewrite foldl_app. unfold redirect_ok, redirect_tokens in *.
    assert (E : foldl command_token {| command := c; expect_redirect := None |} (redirect_tokens r)
      = {| command := add_redirect c r; expect_redirect := None |}).
    { unfold redirect_tokens. destruct r as [s k []]; cbn in *.
      - by destruct k, literal.
      - destruct Hr as [-> _]. done.
      - destruct Hr as [-> _]. done. }
    unfold redirect_tokens in E. rewrite E, IH. cbn. by rewrite <- app_assoc.
Qed.

Lemma foldl_args ws ls c :
  program c <> [] -> length ws = length ls ->
  foldl command_token {| command := c; expect_redirect := None |} (zip_with word_token ws ls)
  = {| command := {| program := program c; args := args c ++ ws; redirects := redirects c;
                     heredoc := heredoc c; program_literal := program_literal c;
                     literal_args := literal_args c ++ ls |};
       expect_redirect := None |}.
Proof.
  revert ls c; induction ws as [|w ws IH]; intros [|l ls] c Hp Hl; try done; cbn [zip_with foldl].
  - rewrite !app_nil_r. by destruct c.
  - assert (command_token {| command := c; expect_redirect := None |} (word_token w l)
      = {| command := {| program := program c; args := args c ++ [w]; redirects := redirects c;
                         heredoc := heredoc c; program_literal := program_literal c;
                         literal_args := literal_args c ++ [l] |};
           expect_redirect := None |}) as ->.
    { destruct l; cbn; unfold command_word; cbn; (destruct (str_eqb _ _) eqn:E; [by bools|done]). }
    rewrite IH by (done || (cbn in Hl; lia)). cbn. by rewrite <- !app_assoc.
Qed.

Lemma parse_command_tokens c : command_ok c -> parse_command (command_tokens c) = c.
Proof.
  intros (Hp & _ & Ha & Hr & Hh). unfold parse_command, command_tokens. cbn [foldl].
  assert (command_token {| command := no_command; expect_redirect := None |}
            (word_token (program c) (program_literal c))
    = {| command := {| program := program c; args := []; redirects := []; heredoc := None;
                       program_literal := program_literal c; literal_args := [] |};
         expect_redirect := None |}) as -> by by destruct (program_literal c).
  apply Forall2_length in Ha. rewrite foldl_app, foldl_args by done. rewrite foldl_redirects by done.
  destruct c; cbn in *. by subst.
Qed.

Lemma pipeline_loop_command toks more current commands :
  forallb of_command toks = true ->
  pipeline_loop (toks ++ more) current commands = pipeline_loop more (current ++ toks) commands.
Proof.
  revert current; induction toks as [|tok toks IH]; intros current Ht; cbn [app]; [by rewrite app_nil_r|].
  cbn [forallb] in Ht. apply andb_true_iff in Ht as [Hc Ht].
  destruct tok; try done; cbn [pipeline_loop]; rewrite IH by done; by rewrite <- app_assoc.
Qed.

Lemma of_command_tokens c : command_ok c -> forallb of_command (command_tokens c) = true.
Proof.
  intros H%command_tokens_ok. apply forallb_elem. intros tok Ht. rewrite Forall_forall in H. by apply H.
Qed.

Lemma pipeline_loop_tokens p commands :
  Forall command_ok p -> pipeline_loop (pipeline_tokens p) [] commands = commands ++ p.
Proof.
  intros H; revert commands; induction H as [|c p Hc Hp IH]; intros commands; cbn [pipeline_tokens].
  - by rewrite app_nil_r.
  - destruct p as [|c2 p].
    + rewrite <- (app_nil_r (command_tokens c)), pipeline_loop_command by by apply of_command_tokens.
      cbn [pipeline_loop app]. by rewrite bool_decide_eq_false_2, parse_command_tokens.
    + rewrite pipeline_loop_command by by apply of_command_tokens. cbn [pipeline_loop app].
      rewrite IH, parse_command_tokens by done. by rewrite <- app_assoc.
Qed.

Lemma pipeline_tokens_ok p :
  Forall command_ok p -> Forall (fun tok => token_ok tok /\ (of_command tok = true \/ tok = TPipe)) (pipeline_tokens p).
Proof.
  assert (Hc : forall c, command_ok c ->
    Forall (fun tok => token_ok tok /\ (of_command tok = true \/ tok = TPipe)) (command_tokens c)).
  { intros c H%command_tokens_ok. eapply Forall_impl; [exact H|]. cbn. tauto. }
  induction 1 as [|c p H Hp IH]; [constructor|]. destruct p as [|c2 p]; cbn [pipeline_tokens]; [by apply Hc|].
  apply Forall_app. split; [by apply Hc|]. constructor; [|done]. split; [done|by right].
Qed.

Lemma line_loop_pipeline toks more current items :
  Forall (fun tok => of_command tok = true \/ tok = TPipe) toks ->
  line_loop (toks ++ more) current items = line_loop more (current ++ toks) items.
Proof.
  intros H; revert current; induction H as [|tok toks Ht _ IH]; intros current; cbn [app]; [by rewrite app_nil_r|].
  destruct tok; cbn [line_loop]; cbn [token_connector];
    try (rewrite IH; by rewrite <- app_assoc); by destruct Ht.
Qed.

Lemma line_loop_tokens line items :
  line_ok line -> line_loop (line_tokens line) [] items = items ++ line.
Proof.
  intros [H Hc]; revert items Hc; induction H as [|it line [Hne Hp] Hl IH]; intros items Hc.
  { by rewrite app_nil_r. }
  unfold line_tokens. cbn [flat_map]. fold (line_tokens line). unfold item_tokens. rewrite <- app_assoc.
  rewrite line_loop_pipeline.
  2:{ eapply Forall_impl; [by apply pipeline_tokens_ok|]. cbn. tauto. }
  assert (Hnt : pipeline_tokens (pipeline it) <> []).
  { destruct (pipeline it) as [|c [|c2 p]]; [done|done|]. cbn. done. }
  assert (Hpp : parse_pipeline (pipeline_tokens (pipeline it)) = pipeline it).
  { unfold parse_pipeline. by rewrite pipeline_loop_tokens. }
  assert (Hk : forall k, token_connector (connector_token k) = Some k) by (by intros []).
  destruct it as [p [k|]]; cbn [connector pipeline app line_loop] in *.
  - rewrite Hk, bool_decide_eq_false_2, IH, Hpp by (done || by destruct line as [|? ?]; [|destruct Hc]).
    by rewrite <- app_assoc.
  - destruct line as [|it2 line]; [|by destruct Hc]. cbn. by rewrite bool_decide_eq_false_2, Hpp.
Qed.

Lemma line_tokens_ok line : line_ok line -> Forall token_ok (line_tokens line).
Proof.
  intros [H _]. induction H as [|it line [_ Hp] _ IH]; [constructor|]. cbn [line_tokens flat_map].
  apply Forall_app. split; [|done]. unfold item_tokens. apply Forall_app. split.
  - eapply Forall_impl; [by apply pipeline_tokens_ok|]. cbn. tauto.
  - destruct (connector it) as [[| |]|]; by repeat constructor.
Qed.

Lemma render_nonempty ts : Forall token_ok ts -> ts <> [] -> render ts <> [].
Proof.
  intros [|tok ts' Hok _] Hne; [done|]. destruct (turn_token tok Hok) as (c & w & E & _).
  unfold render. cbn [map]. rewrite E. by destruct ts'.
Qed.

(** The text of tokens is parsed as they are. *)
Lemma parse_render ts :
  Forall token_ok ts -> render ts <> [] -> trim (render ts) = render ts ->
  parse (parse_fuel (render ts)) (render ts) = Some (parse_tokens ts).
Proof.
  intros Hok Hne Ht. unfold parse. rewrite Ht. destruct (str_eqb _ []) eqn:E; [by bools|].
  unfold tokenize, start, parse_fuel. rewrite loop_render; [done|done|lia].
Qed.

(** C39. A command line is parsed as it was meant: the text of any line of pipelines, joined by [&&],
    [||] and [;], of commands with plain or single-quoted words and redirections, is parsed back to
    that line. *)
Theorem parse_render_roundtrip line :
  let input := render (line_tokens line) in
  line_ok line -> trim input = input -> parse (parse_fuel input) input = Some line.
Proof.
  intros input Hl Ht. destruct line as [|it line]; [done|]. unfold input in *.
  pose proof (line_tokens_ok _ Hl) as Hok. rewrite parse_render; [|done| |done].
  - f_equal. by apply line_loop_tokens.
  - apply render_nonempty; [done|]. destruct Hl as [[[Hne _] _]%Forall_cons _].
    unfold line_tokens, item_tokens. cbn [flat_map].
    destruct (pipeline it) as [|c p]; [done|]. by destruct p.
Qed.

(** Reading a command's input from a file hangs the parser: [w <...], a plain word and then a
    redirection from anything but a here-document, turns in place for ever. *)
Theorem input_redirection_hangs input w r fuel :
  trim input = w ++ " <" ++ r -> plain_word w -> next_is "<" r = false -> parse fuel input = None.
Proof.
  intros Ei [Hne Hw] Hr. destruct (parse_terminates_iff input) as [Hh _]. apply Hh. clear Hh.
  destruct w as [|c w]; [done|].
  exists (skip_to (push (start (trim input)) (Word (c :: w)) (" <" ++ r)) ("<"%char :: r)). split; [|by exists r].
  eapply rtc_l; [by constructor|].
  rewrite turn_word by (done || (right; by eexists)).
  eapply rtc_l; [by constructor|]. reflexivity.
Qed.

(** *** What the tokenizer's words are made of *)

(** A piece of a text: no longer, and of its characters. *)
Definition piece_of (text w : str) : Prop := (length w <= length text)%nat /\ forall c, c ∈ w -> c ∈ text.

Lemma piece_of_nil text : piece_of text [].
Proof. split; [cbn; lia|]. intros c []%elem_of_nil. Qed.

Lemma piece_of_trans a b c : piece_of a b -> piece_of b c -> piece_of a c.
Proof. intros [H1 H2] [H3 H4]. split; [lia|auto]. Qed.

Lemma piece_of_cons x text w : piece_of text w -> piece_of (x :: text) w.
Proof. intros [H1 H2]. split; [cbn; lia|]. intros c Hc. apply elem_of_cons. auto. Qed.

Lemma piece_of_suffix a b : suffix a b -> piece_of b a.
Proof.
  intros [k ->]. split; [rewrite length_app; lia|]. intros c Hc. apply elem_of_app. by right.
Qed.

(** A scanner that takes [w] off the front of [chars] onto [acc]: the new word is of both. *)
Definition scans (chars acc : str) (x : str * str) : Prop :=
  suffix (snd x) chars /\ exists w, fst x = acc ++ w /\ piece_of chars w /\
    (length w + length (snd x) <= length chars)%nat.

Lemma scans_stop chars acc : scans chars acc (acc, chars).
Proof. split; [done|]. exists []. rewrite app_nil_r. split; [done|]. split; [apply piece_of_nil|cbn; lia]. Qed.

Lemma scans_skip c chars acc x : scans chars acc x -> scans (c :: chars) acc x.
Proof.
  intros [Hs (w & E & Hp & Hl)]. split; [by apply suffix_cons_r|]. exists w.
  split; [done|]. split; [by apply piece_of_cons|cbn; lia].
Qed.

Lemma scans_take c chars acc x : scans chars (acc ++ [c]) x -> scans (c :: chars) acc x.
Proof.
  intros [Hs (w & E & [H1 H2] & Hl)]. split; [by apply suffix_cons_r|]. exists (c :: w).
  split; [rewrite E; by rewrite <- app_assoc|]. split; [|cbn; lia].
  split; [cbn; lia|]. intros d. rewrite !elem_of_cons. intros [->|Hd]; [by left|right; auto].
Qed.

Lemma quoted_scans q chars acc : scans chars acc (quoted q chars acc).
Proof.
  remember (length chars) as n eqn:En. revert chars acc En.
  induction n as [n IH] using lt_wf_ind; intros [|c r] acc ->; cbn [quoted]; [apply scans_stop|].
  destruct (Ascii.eqb c q); [apply scans_skip, scans_stop|].
  assert (Hr : scans (c :: r) acc (quoted q r (acc ++ [c]))).
  { apply scans_take. eapply IH; [|reflexivity]. cbn; lia. }
  destruct r as [|d r]; [exact Hr|]. destruct (_ && _); [|exact Hr].
  apply scans_skip, scans_take. eapply IH; [|reflexivity]. cbn; lia.
Qed.

Lemma word_loop_scans d chars acc : scans chars acc (word_loop d chars acc).
Proof.
  remember (length chars) as n eqn:En. revert d chars acc En.
  induction n as [n IH] using lt_wf_ind; intros d [|c r] acc ->; cbn [word_loop]; [apply scans_stop|].
  assert (Hr : forall d, scans (c :: r) acc (word_loop d r (acc ++ [c]))).
  { intros d'. apply scans_take. eapply IH; [|reflexivity]. cbn; lia. }
  destruct d as [|d]; [|apply Hr]. destruct (word_end c); [apply scans_stop|].
  destruct r as [|e r]; [apply Hr|]. destruct (_ && _); [apply scans_skip, scans_skip, scans_stop|].
  destruct (Ascii.eqb c "$" && Ascii.eqb e "(") eqn:E; [|apply Hr]. bools. subst.
  apply scans_take, scans_take. rewrite <- app_assoc. eapply IH; [|reflexivity]. cbn; lia.
Qed.

Lemma while_scans p chars : scans chars [] (take_while p chars, drop_while p chars).
Proof.
  assert (H : forall acc, scans chars acc (acc ++ take_while p chars, drop_while p chars)).
  { induction chars as [|c r IH]; intros acc; cbn [take_while drop_while].
    - rewrite app_nil_r. apply scans_stop.
    - destruct (p c); [|rewrite app_nil_r; apply scans_stop]. apply scans_take.
      specialize (IH (acc ++ [c])). by rewrite <- app_assoc in IH. }
  apply (H []).
Qed.

Definition token_words (tok : Token) : list str :=
  match tok with Word w | SingleQuoted w | RedirectToStream _ (ToFile w _) => [w] | _ => [] end.

(** What a turn does on text without [<]: it leaves an end of the text, starts no here-document, and
    the words it adds are pieces of the text. *)
Definition reads (t : Tokenizer) (text : str) (t' : Tokenizer) : Prop :=
  suffix (rest t') text /\ pending_heredocs t' = [] /\
  exists toks, tokens t' = tokens t ++ toks /\ Forall (fun k => Forall (piece_of text) (token_words k)) toks.

Lemma reads_skip t text r : pending_heredocs t = [] -> suffix r text -> reads t text (skip_to t r).
Proof. intros Hp Hs. split; [done|]. split; [done|]. exists []. by rewrite app_nil_r. Qed.

Lemma reads_push t text tok r :
  pending_heredocs t = [] -> suffix r text -> Forall (piece_of text) (token_words tok) ->
  reads t text (push t tok r).
Proof. intros Hp Hs Hw. split; [done|]. split; [done|]. exists [tok]. auto. Qed.

Lemma reads_word t text tok x :
  pending_heredocs t = [] -> scans text [] x -> token_words tok = [fst x] -> reads t text (push t tok (snd x)).
Proof.
  intros Hp [Hs (w & E & Hw & _)] Et. apply reads_push; [done|done|]. rewrite Et, E. auto.
Qed.

Lemma suffix_tail {A} (l : list A) : suffix (tail l) l.
Proof. destruct l; [done|]. by apply suffix_cons_r. Qed.

Lemma fd_redirect_reads t s r text :
  pending_heredocs t = [] -> suffix r text -> reads t text (fd_redirect t s r).
Proof.
  intros Hp Hs. unfold fd_redirect. destruct r as [|a [|b r]].
  - by apply reads_push.
  - destruct (Ascii.eqb a ">"); apply reads_push; try done. apply suffix_nil.
  - pose proof (suffix_cons_l _ _ _ Hs) as Hs1. pose proof (suffix_cons_l _ _ _ Hs1) as Hs2.
    destruct (_ && _); [apply reads_push; [done..|by destruct (Ascii.eqb b "1")]|].
    destruct (Ascii.eqb a ">"); by apply reads_push.
Qed.

Lemma turn_reads t c r :
  "<"%char ∉ c :: r -> pending_heredocs t = [] -> reads t (c :: r) (turn t c r).
Proof.
  intros Hlt Hp. assert (Hr : suffix r (c :: r)) by by apply suffix_cons_r.
  assert (Htl : suffix (tail r) (c :: r)) by (etrans; [apply suffix_tail|done]).
  assert (Hc : Ascii.eqb c "<" = false).
  { apply Ascii.eqb_neq. intros ->. apply Hlt. by left. }
  unfold turn. rewrite Hc. cbn [andb].
  destruct (_ && _); [by apply reads_skip|].
  destruct (Ascii.eqb c lf); [unfold newline; rewrite Hp; by apply reads_push|].
  destruct (is_ascii_whitespace c); [by apply reads_skip|].
  destruct (_ && _); [by apply fd_redirect_reads|].
  destruct (_ && _); [by apply (reads_word t _ _ _ Hp (while_scans not_connective (c :: r)))|].
  destruct (_ && _); [apply reads_push; [done| |done]; exists (firstn 3 (c :: r)); symmetry; exact (firstn_skipn 3 (c :: r))|].
  do 4 (next_branch; [by apply reads_push|]).
  do 4 (next_branch; [by apply reads_push|]).
  next_branch.
  - pose proof (scans_skip c r [] _ (quoted_scans c r [])) as Hq. destruct (quoted c r []) as [w next].
    by apply (reads_word t (c :: r) _ (w, next)); [| |destruct (Ascii.eqb c "'")].
  - pose proof (word_loop_scans 0 (c :: r) []) as Hw. destruct (word_loop 0 (c :: r) []) as [w next].
    destruct (str_eqb w []); [apply reads_skip; [done|apply Hw]|].
    by apply (reads_word t (c :: r) _ (w, next)).
Qed.

(** Text without [<] is tokenized, and the words are pieces of it. *)
Lemma loop_reads fuel t text :
  (length (rest t) <= fuel)%nat -> "<"%char ∉ text -> suffix (rest t) text -> pending_heredocs t = [] ->
  Forall (fun k => Forall (piece_of text) (token_words k)) (tokens t) ->
  exists toks, tokenize_loop fuel t = Some toks /\ Forall (fun k => Forall (piece_of text) (token_words k)) toks.
Proof.
  revert t; induction fuel as [|fuel IH]; intros t Hf Hlt Hs Hp Hw; destruct (rest t) as [|c r] eqn:Er;
    cbn [tokenize_loop]; rewrite Er; try (by eauto).
  { cbn in Hf. lia. }
  assert (Hlt' : "<"%char ∉ c :: r).
  { intros Hin. apply Hlt. by apply (piece_of_suffix _ _ Hs). }
  destruct (turn_reads t c r Hlt' Hp) as (Hs' & Hp' & toks & Et & Hk).
  apply IH; [|done|by etrans|done|].
  - destruct (turn_progress t c r) as [(x & [= -> _] & _)|Hl]; [|cbn in Hf; lia].
    exfalso. apply Hlt'. by left.
  - rewrite Et. apply Forall_app. split; [done|]. eapply Forall_impl; [exact Hk|]. cbn. intros k Hkw.
    eapply Forall_impl; [exact Hkw|]. intros w Hpw. eapply piece_of_trans; [by apply piece_of_suffix|exact Hpw].
Qed.

(** *** The words of a line *)

Section Words.
Context (P : str -> Prop) (P_nil : P []).

Definition target_words (r : Redirect) : Prop := match target r with ToFile p _ => P p | _ => True end.
Definition command_words (c : Command) : Prop :=
  P (program c) /\ Forall P (args c) /\ Forall target_words (redirects c).
Definition line_words (line : ShellLine) : Prop := Forall (fun it => Forall command_words (pipeline it)) line.

Abbreviation ok_tokens := (Forall (fun k => Forall P (token_words k))).

Lemma parse_command_words toks : ok_tokens toks -> command_words (parse_command toks).
Proof.
  intros H. unfold parse_command.
  assert (Hw : forall acc w l, command_words (command acc) -> P w -> command_words (command (command_word acc w l))).
  { intros [c e] w l (H1 & H2 & H3) Hw. unfold command_word. cbn. destruct e as [[s k]|].
    - split_and!; cbn; [done|done|]. apply Forall_app. auto.
    - destruct (str_eqb _ _); split_and!; try done. cbn. apply Forall_app. auto. }
  assert (Hacc : command_words (command {| command := no_command; expect_redirect := None |})) by done.
  revert Hacc. generalize {| command := no_command; expect_redirect := None |}.
  induction H as [|k toks Hk _ IH]; intros acc Hacc; cbn [foldl]; [done|]. apply IH.
  destruct k; cbn [command_token token_words] in *; try done.
  - apply Hw; [done|]. by inversion Hk.
  - apply Hw; [done|]. by inversion Hk.
  - destruct Hacc as (H1 & H2 & H3). split; [done|]. split; [done|]. apply Forall_app. split; [done|].
    constructor; [|done]. unfold target_words. cbn. destruct t; [by inversion Hk|done..].
Qed.

Lemma pipeline_loop_words toks cur cmds :
  ok_tokens cur -> Forall command_words cmds -> ok_tokens toks ->
  Forall command_words (pipeline_loop toks cur cmds).
Proof.
  intros Hc Hm H; revert cur cmds Hc Hm; induction H as [|k toks Hk _ IH]; intros cur cmds Hc Hm.
  - cbn. destruct (bool_decide _); [done|]. apply Forall_app. auto using parse_command_words.
  - assert (Forall command_words (pipeline_loop toks (cur ++ [k]) cmds)) by (apply IH; [apply Forall_app|]; auto).
    destruct k; try done. cbn [pipeline_loop]. apply IH; [done|]. apply Forall_app. auto using parse_command_words.
Qed.

Lemma parse_tokens_words toks : ok_tokens toks -> line_words (parse_tokens toks).
Proof.
  intros H. unfold parse_tokens.
  enough (Hl : forall cur items, ok_tokens cur -> line_words items -> line_words (line_loop toks cur items))
    by (apply Hl; constructor).
  assert (Hi : forall cur items k, ok_tokens cur -> line_words items ->
    line_words (items ++ [{| pipeline := parse_pipeline cur; connector := k |}])).
  { intros cur items k Hc Hit. apply Forall_app. split; [done|]. constructor; [|done]. by apply pipeline_loop_words. }
  induction H as [|k toks Hk _ IH]; intros cur items Hc Hit; cbn [line_loop].
  - destruct (bool_decide _); auto.
  - destruct (token_connector k); [destruct (bool_decide _); auto|]. apply IH; [apply Forall_app|]; auto.
Qed.
End Words.

(** Text without [<] is parsed, into words that are pieces of it. *)
Lemma parse_pieces input :
  "<"%char ∉ input -> exists line, parse (parse_fuel input) input = Some line /\ line_words (piece_of input) line.
Proof.
  intros Hlt. unfold parse. destruct (str_eqb (trim input) []) eqn:Ee; [exists []; split; [done|constructor]|].
  assert (Hp : piece_of input (trim input)).
  { destruct (trim_infix input) as (a & b & E). split; [apply length_trim|].
    intros c Hc. rewrite E, !elem_of_app. auto. }
  destruct (loop_reads (parse_fuel input) (start (trim input)) (trim input)) as (toks & Et & Hw); try done.
  - cbn. unfold parse_fuel. pose proof (length_trim input). lia.
  - intros Hin. by apply Hlt, Hp.
  - unfold tokenize. rewrite Et. eexists; split; [reflexivity|]. apply parse_tokens_words; [apply piece_of_nil|].
    eapply Forall_impl; [exact Hw|]. cbn. intros k Hk. eapply Forall_impl; [exact Hk|].
    intros w. by apply piece_of_trans.
Qed.

(** ** The properties at concrete lines *)

Definition ex_command (p : str) (ws : list (str * bool)) (rs : list Redirect) : Command :=
  {| program := p; args := map fst ws; redirects := rs; heredoc := None; program_literal := false;
     literal_args := map snd ws |}.

(** [cat notes | grep 'a b' > out 2>&1 && ls]. *)
Definition ex_line : ShellLine :=
  [{| pipeline := [ex_command "cat" [(lit "notes", false)] [];
                   ex_command "grep" [(lit "a b", true)]
                     [{| stream := Stdout; redirect_kind := Truncate; target := ToFile "out" false |};
                      {| stream := Stderr; redirect_kind := Truncate; target := ToStdout |}]];
      connector := Some And |};
   {| pipeline := [ex_command "ls" [] []]; connector := None |}].

Lemma ex_line_ok : line_ok ex_line.
Proof.
  assert (Hq : forall s : str, mem "'"%char s = false -> "'"%char ∉ s) by (intros s H; by bools).
  split; [|done]. unfold ex_line.
  repeat (constructor || (split; [done|])); cbn; try done; repeat constructor; try done; by apply Hq.
Qed.

Lemma parse_render_roundtrip_witness :
  render (line_tokens ex_line) = "cat notes | grep 'a b' > out 2>&1 && ls" /\
  parse (parse_fuel (render (line_tokens ex_line))) (render (line_tokens ex_line)) = Some ex_line.
Proof.
  split; [vm_compute; reflexivity|].
  apply (parse_render_roundtrip ex_line); [exact ex_line_ok|vm_compute; reflexivity].
Defined.

Lemma input_redirection_hangs_witness :
  trim "sort < names" = lit "sort" ++ " <" ++ lit " names" /\ plain_word "sort" /\
  parse 1000 "sort < names" = None.
Proof.
  assert (trim "sort < names" = lit "sort" ++ " <" ++ lit " names") as Et by (vm_compute; reflexivity).
  split; [exact Et|]. split; [split; [discriminate|vm_compute; reflexivity]|].
  apply (input_redirection_hangs "sort < names" "sort" " names" 1000 Et); [split; [discriminate|vm_compute; reflexivity]|reflexivity].
Defined.
