(* ===== verification/PathGlob.v ===== *)
(** * Path patterns of a capability

    Models [crates/simulacra-types/src/path_glob.rs]: the four supported pattern forms, what a
    pattern grants ([matches]), when one pattern is narrower than another ([covers]) and the
    pattern of the paths two patterns share ([intersect]).

    [covers] is shown to decide inclusion of the granted sets, and [intersect] to compute their
    exact intersection, for patterns [is_supported] accepts. *)

From S2P Require Import Prelude.

(** [path] is [prefix] or below it, on a segment boundary. *)
Definition within (prefix path : str) : bool :=
  starts_with prefix path
  && (Nat.eqb (length path) (length prefix)
      || match nth_error path (length prefix) with
         | Some b => Ascii.eqb b "/"%char
         | None => false
         end).

(** [path] is one segment below [dir]. *)
Definition directly_inside (dir path : str) : bool :=
  match strip_prefix dir path with
  | None => false
  | Some rest =>
      match strip_prefix "/" rest with
      | None => false
      | Some name => negb (str_eqb name []) && negb (contains_char "/" name)
      end
  end.

Definition is_supported (pattern : str) : bool :=
  let body :=
    unwrap_or (option_or (strip_suffix "/**" pattern) (strip_suffix "/*" pattern)) pattern in
  starts_with "/" pattern && negb (contains_char "*" body).

Definition matches (pattern path : str) : bool :=
  if str_eqb pattern "/**" then true
  else match strip_suffix "/**" pattern with
  | Some prefix => within prefix path
  | None =>
      match strip_suffix "/*" pattern with
      | Some dir => directly_inside dir path
      | None => str_eqb pattern path
      end
  end.

Definition covers (parent child : str) : bool :=
  if str_eqb parent child || str_eqb parent "/**" then true
  else match strip_suffix "/**" parent with
  | Some prefix =>
      let base :=
        unwrap_or (option_or (strip_suffix "/**" child) (strip_suffix "/*" child)) child in
      within prefix base
  | None =>
      match strip_suffix "/*" parent with
      | Some dir => negb (contains_char "*" child) && directly_inside dir child
      | None => false
      end
  end.

(** The closure [shared_entry] of [intersect]. *)
Definition shared_entry (star subtree : str) : option str :=
  match strip_suffix "/*" star with
  | None => None
  | Some dir =>
      match strip_suffix "/**" subtree with
      | None => None
      | Some base => if directly_inside dir base then Some base else None
      end
  end.

Definition intersect (a b : str) : option str :=
  if covers b a then Some a
  else if covers a b then Some b
  else option_or (shared_entry a b) (shared_entry b a).

(** ** What the tests mean *)

Lemma within_spec d p :
  within d p = true <-> p = d \/ exists r, p = d ++ "/"%char :: r.
Proof.
  unfold within. rewrite andb_true_iff, orb_true_iff, starts_with_true, Nat.eqb_eq. split.
  - intros [[r ->] H]. rewrite length_app in H. rewrite nth_error_app2, Nat.sub_diag in H by lia.
    destruct r as [|c r]; [left; apply app_nil_r|right].
    destruct H as [H|H]; [simpl in H; lia|]. simpl in H.
    apply Ascii.eqb_eq in H as ->. by exists r.
  - intros [->|[r ->]]; split; [exists []; by rewrite app_nil_r|by left|by eexists|right].
    by rewrite nth_error_app2, Nat.sub_diag by lia.
Qed.

Lemma directly_inside_spec d p :
  directly_inside d p = true <->
  exists n, p = d ++ "/"%char :: n /\ n <> [] /\ "/"%char ∉ n.
Proof.
  unfold directly_inside. split.
  - intros H. repeat break_match_in H; try discriminate. bools.
    repeat match goal with E : strip_prefix _ _ = Some _ |- _ => apply strip_prefix_Some in E end.
    subst. eexists; split_and!; [done|done|by apply contains_char_false].
  - intros (n & -> & Hn & Hs). rewrite strip_prefix_app. simpl.
    apply andb_true_iff; split; apply negb_true_iff; [by apply bool_decide_eq_false|].
    by apply contains_char_false.
Qed.

Lemma within_refl d : within d d = true.
Proof. apply within_spec. by left. Qed.

Lemma within_trans a b c : within a b = true -> within b c = true -> within a c = true.
Proof.
  rewrite !within_spec. intros [->|[r ->]] [->|[t ->]]; eauto.
  right. exists (r ++ "/"%char :: t). by rewrite <- app_assoc.
Qed.

Lemma directly_inside_within d p : directly_inside d p = true -> within d p = true.
Proof. rewrite directly_inside_spec, within_spec. intros (n & -> & _). eauto. Qed.

Lemma directly_inside_unique d1 d2 p :
  directly_inside d1 p = true -> directly_inside d2 p = true -> d1 = d2.
Proof.
  rewrite !directly_inside_spec. intros (n1 & -> & _ & H1) (n2 & E & _ & H2).
  by apply last_segment_unique in E as [-> _].
Qed.

(** An entry directly inside [d] that is below [b] has [b] above [d], or is [b] itself. *)
Lemma directly_inside_below d b p :
  directly_inside d p = true -> within b p = true -> within b d = true \/ p = b.
Proof.
  rewrite directly_inside_spec, within_spec. intros (n & -> & Hn & Hs) [E|[r E]]; [by right|left].
  apply within_spec.
  destruct (decide ("/"%char ∈ r)) as [Hr|Hr].
  - destruct (list_elem_of_split_r r "/"%char Hr) as (q & t & -> & Ht).
    right. exists q.
    apply (last_segment_unique "/"%char d (b ++ "/"%char :: q) n t); [done|done|].
    rewrite E. by rewrite <- app_assoc.
  - left. by apply (last_segment_unique "/"%char d b n r).
Qed.

(** The form a pattern has, in the order [matches] tests for them. *)
Variant form :=
| Everything
| Subtree (prefix : str)
| Entries (dir : str)
| Exactly (path : str).

Definition classify (pattern : str) : form :=
  if str_eqb pattern "/**" then Everything
  else match strip_suffix "/**" pattern with
  | Some prefix => Subtree prefix
  | None => match strip_suffix "/*" pattern with
            | Some dir => Entries dir
            | None => Exactly pattern
            end
  end.

Definition grants (f : form) (path : str) : bool :=
  match f with
  | Everything => true
  | Subtree prefix => within prefix path
  | Entries dir => directly_inside dir path
  | Exactly q => str_eqb q path
  end.

Definition form_str (f : form) : str :=
  match f with
  | Everything => "/**"
  | Subtree prefix => prefix ++ "/**"
  | Entries dir => dir ++ "/*"
  | Exactly path => path
  end.

Lemma matches_classify pattern path : matches pattern path = grants (classify pattern) path.
Proof. unfold matches, classify. by repeat break_match. Qed.

Lemma form_str_classify pattern : form_str (classify pattern) = pattern.
Proof.
  unfold classify. repeat break_match; simpl; bools; subst; [done|..|done];
    by match goal with H : strip_suffix _ _ = Some _ |- _ => apply strip_suffix_Some in H end.
Qed.

(** The two suffixes exclude each other. *)
Lemma star2_not_star1 s t : s ++ "/**" <> t ++ "/*".
Proof.
  intros E. apply (f_equal (@rev _)) in E. rewrite !rev_app_distr in E. discriminate.
Qed.

Lemma strip_star1_of_star2 s : strip_suffix "/*" (s ++ "/**") = None.
Proof. apply strip_suffix_None. apply star2_not_star1. Qed.

Lemma strip_star2_of_star1 s : strip_suffix "/**" (s ++ "/*") = None.
Proof. apply strip_suffix_None. intros r E. by apply (star2_not_star1 r s). Qed.

(** What is left of a pattern without its wildcard suffix. *)
Definition base (f : form) : str :=
  match f with
  | Everything => []
  | Subtree q | Entries q | Exactly q => q
  end.

Lemma base_classify pattern :
  unwrap_or (option_or (strip_suffix "/**" pattern) (strip_suffix "/*" pattern)) pattern
  = base (classify pattern).
Proof.
  unfold classify. destruct (str_eqb pattern "/**") eqn:E; [by bools; subst|].
  repeat break_match; done.
Qed.

Lemma classify_subtree pattern q :
  classify pattern = Subtree q -> pattern = q ++ "/**" /\ q <> [].
Proof.
  intros H. pose proof (form_str_classify pattern) as F. rewrite H in F.
  split; [done|]. intros ->. unfold classify in H. subst pattern. done.
Qed.

Lemma classify_entries pattern d : classify pattern = Entries d -> pattern = d ++ "/*".
Proof. intros H. by rewrite <- (form_str_classify pattern), H. Qed.

Lemma classify_exactly pattern q : classify pattern = Exactly q -> pattern = q.
Proof. intros H. by rewrite <- (form_str_classify pattern), H. Qed.

Lemma classify_everything pattern : classify pattern = Everything -> pattern = "/**".
Proof. intros H. by rewrite <- (form_str_classify pattern), H. Qed.

Lemma classify_no_star pattern : "*"%char ∉ pattern -> classify pattern = Exactly pattern.
Proof.
  intros H. destruct (classify pattern) eqn:E.
  - apply classify_everything in E as ->. destruct H. by apply contains_char_true.
  - apply classify_subtree in E as [-> _]. destruct H. apply elem_of_app. right. set_solver.
  - apply classify_entries in E as ->. destruct H. apply elem_of_app. right. set_solver.
  - f_equal. symmetry. by apply classify_exactly.
Qed.

Lemma is_supported_base pattern :
  is_supported pattern = true -> "*"%char ∉ base (classify pattern).
Proof.
  unfold is_supported. rewrite base_classify. intros H. bools.
  by apply contains_char_false.
Qed.

Lemma covers_classify parent child :
  covers parent child = true <->
  parent = child \/
  match classify parent with
  | Everything => True
  | Subtree p => within p (base (classify child)) = true
  | Entries d => "*"%char ∉ child /\ directly_inside d child = true
  | Exactly _ => False
  end.
Proof.
  unfold covers. rewrite base_classify. unfold classify at 2.
  destruct (str_eqb parent child) eqn:E1; bools; [tauto|]. cbn [orb].
  destruct (str_eqb parent "/**") eqn:E2; bools; [tauto|].
  repeat break_match; rewrite ?andb_true_iff, ?negb_true_iff, ?contains_char_false; naive_solver.
Qed.

Lemma within_comparable a b p :
  within a p = true -> within b p = true -> within a b = true \/ within b a = true.
Proof.
  rewrite !within_spec. intros [->|[r ->]] [E|[t E]]; subst; [by left; left|by right; eauto|by left; eauto|].
  destruct (app_eq_inv _ _ _ _ E) as [(k & Ek & H)|(k & Ek & H)];
    (destruct k as [|c k]; [rewrite app_nil_r in Ek; subst; by left; left|]); simplify_eq/=; eauto.
Qed.

(** ** Coverage decides inclusion *)

Lemma covers_sound parent child path :
  covers parent child = true -> matches child path = true -> matches parent path = true.
Proof.
  rewrite covers_classify, !matches_classify. intros [->|H]; [done|].
  destruct (classify parent) as [|p|d|q] eqn:Ep; simpl; [done|..|done].
  - apply classify_subtree in Ep as [_ Hp].
    destruct (classify child) as [|q|d|q] eqn:Ec; simpl in *.
    + apply within_spec in H as [H|[r H]]; [done|by destruct p].
    + intros ?. by eapply within_trans.
    + intros ?%directly_inside_within. by eapply within_trans.
    + intros ->%str_eqb_true. done.
  - destruct H as [Hs Hd]. rewrite (classify_no_star _ Hs). simpl.
    intros ->%str_eqb_true. done.
Qed.

Lemma entry_inside d n : n <> [] -> "/"%char ∉ n -> directly_inside d (d ++ "/"%char :: n) = true.
Proof. intros. apply directly_inside_spec. by exists n. Qed.

Lemma entry_a d : directly_inside d (d ++ "/a") = true.
Proof. apply (entry_inside d "a"); [done|]. by apply contains_char_false. Qed.

Lemma entry_b d : directly_inside d (d ++ "/b") = true.
Proof. apply (entry_inside d "b"); [done|]. by apply contains_char_false. Qed.

Lemma below_a d : within d (d ++ "/a") = true.
Proof. apply directly_inside_within, entry_a. Qed.

Lemma not_inside_self d : directly_inside d d = false.
Proof.
  apply not_true_is_false. rewrite directly_inside_spec. intros (n & E & _).
  apply (f_equal length) in E. rewrite length_app in E. simpl in E. lia.
Qed.

Lemma covers_complete parent child :
  "*"%char ∉ base (classify child) ->
  (forall path, matches child path = true -> matches parent path = true) ->
  covers parent child = true.
Proof.
  intros Hs H. setoid_rewrite matches_classify in H. rewrite covers_classify.
  destruct (classify parent) as [|p|d|r] eqn:Ep; simpl in H; [by right|..].
  - right. destruct (classify child) as [|q|e|q]; simpl in *;
      [by apply H|by apply H, within_refl| |by apply H, str_eqb_refl].
    destruct (directly_inside_below e p (e ++ "/a")) as [|E1]; [apply entry_a|apply H, entry_a|done|].
    destruct (directly_inside_below e p (e ++ "/b")) as [|E2]; [apply entry_b|apply H, entry_b|done|].
    rewrite <- E1 in E2. by apply app_inv_head in E2.
  - destruct (classify child) as [|q|e|q] eqn:Ec; simpl in *.
    + specialize (H [] eq_refl). apply directly_inside_spec in H as (n & E & _). by destruct d.
    + assert (d = q) as -> by (eapply directly_inside_unique; [apply H, below_a|apply entry_a]).
      specialize (H q (within_refl q)). by rewrite not_inside_self in H.
    + left. rewrite (classify_entries _ _ Ep), (classify_entries _ _ Ec). f_equal.
      eapply directly_inside_unique; [apply H, entry_a|apply entry_a].
    + right. apply classify_exactly in Ec as ->. split; [done|by apply H, str_eqb_refl].
  - left. setoid_rewrite str_eqb_true in H. apply classify_exactly in Ep as ->.
    destruct (classify child) as [|q|e|q] eqn:Ec; simpl in *.
    + pose proof (H [] eq_refl) as E. by specialize (H (lit "a") eq_refl) as ->.
    + pose proof (H q (within_refl q)) as E. specialize (H _ (below_a q)). rewrite H in E.
      apply (f_equal length) in E. rewrite length_app in E. simpl in E. lia.
    + pose proof (H _ (entry_a e)) as E. rewrite (H _ (entry_b e)) in E.
      by apply app_inv_head in E.
    + rewrite (classify_exactly _ _ Ec). apply H, str_eqb_refl.
Qed.

(** ** Intersection *)

Lemma shared_entry_Some a b s :
  shared_entry a b = Some s <->
  exists d, a = d ++ "/*" /\ b = s ++ "/**" /\ directly_inside d s = true.
Proof.
  unfold shared_entry. split.
  - intros H. repeat break_match_in H; try discriminate. simplify_eq.
    repeat match goal with E : strip_suffix _ _ = Some _ |- _ => apply strip_suffix_Some in E end.
    subst. eauto.
  - intros (d & -> & -> & H). by rewrite !strip_suffix_app, H.
Qed.

Lemma classify_of_entries d : classify (d ++ "/*") = Entries d.
Proof.
  unfold classify. rewrite strip_star2_of_star1, strip_suffix_app.
  destruct (str_eqb _ _) eqn:E; [bools|done]. by destruct (star2_not_star1 [] d).
Qed.

Lemma classify_of_subtree s : s <> [] -> classify (s ++ "/**") = Subtree s.
Proof.
  intros Hs. unfold classify. rewrite strip_suffix_app.
  destruct (str_eqb _ _) eqn:E; [bools|done]. by apply (app_inv_tail (lit "/**") s []) in E.
Qed.

(** The overlap [intersect] names when neither pattern is the narrower one. *)
Lemma shared_entry_exact a b s path :
  "*"%char ∉ s -> shared_entry a b = Some s ->
  matches s path = matches a path && matches b path.
Proof.
  intros Hs H. apply shared_entry_Some in H as (d & -> & -> & Hd).
  pose proof Hd as (n & En & _)%directly_inside_spec.
  rewrite !matches_classify, (classify_no_star s Hs), classify_of_entries, classify_of_subtree;
    [simpl|intros ->; by destruct d].
  apply Bool.eq_iff_eq_true. rewrite str_eqb_true, andb_true_iff. split.
  - intros <-. split; [done|apply within_refl].
  - intros [H1 H2]. destruct (directly_inside_below d s path H1 H2) as [H|]; [exfalso|done].
    apply within_spec in H as [E|[r E]]; apply (f_equal length) in E; subst s;
      rewrite !length_app in E; simpl in E; lia.
Qed.

(** Two patterns neither of which is narrower share no path, apart from [shared_entry]. *)
Lemma overlap_is_shared a b path :
  is_supported a = true -> is_supported b = true ->
  covers b a = false -> covers a b = false ->
  matches a path = true -> matches b path = true ->
  exists s, option_or (shared_entry a b) (shared_entry b a) = Some s.
Proof.
  intros Sa%is_supported_base Sb%is_supported_base Ca Cb Ma Mb.
  rewrite <- not_true_iff_false, covers_classify in Ca, Cb. rewrite matches_classify in Ma, Mb.
  destruct (classify a) as [|p|d|q] eqn:Ea; [tauto|..];
    destruct (classify b) as [|p'|d'|q'] eqn:Eb; simpl in *; try tauto;
    repeat match goal with H : str_eqb _ _ = true |- _ => apply str_eqb_true in H end; subst.
  - destruct (within_comparable p p' path); tauto.
  - apply classify_subtree in Ea as [-> _]. apply classify_entries in Eb as ->.
    destruct (directly_inside_below d' p path); [done..|tauto|subst].
    exists p. rewrite (proj2 (shared_entry_Some (d' ++ "/*") (p ++ "/**") p)) by eauto.
    unfold shared_entry. by rewrite strip_star1_of_star2.
  - by apply classify_exactly in Eb as ->; tauto.
  - apply classify_subtree in Eb as [-> _]. apply classify_entries in Ea as ->.
    destruct (directly_inside_below d p' path); [done..|tauto|subst].
    exists p'. by rewrite (proj2 (shared_entry_Some (d ++ "/*") (p' ++ "/**") p')) by eauto.
  - apply classify_entries in Ea as ->, Eb as ->.
    rewrite (directly_inside_unique d d' path) in Ca by done. tauto.
  - apply classify_exactly in Eb. subst. tauto.
  - apply classify_exactly in Ea. subst. tauto.
  - apply classify_exactly in Ea. subst. tauto.
  - apply classify_exactly in Ea, Eb. subst. tauto.
Qed.

Lemma shared_entry_no_star a b s :
  is_supported b = true -> shared_entry a b = Some s -> "*"%char ∉ s.
Proof.
  intros Hb%is_supported_base H. apply shared_entry_Some in H as (d & -> & -> & Hd).
  rewrite classify_of_subtree in Hb; [done|]. intros ->.
  apply directly_inside_spec in Hd as (n & E & _). by destruct d.
Qed.

Lemma supported_no_star s : starts_with "/" s = true -> "*"%char ∉ s -> is_supported s = true.
Proof.
  intros Hp Hs. unfold is_supported. rewrite base_classify, (classify_no_star s Hs), Hp. simpl.
  by apply negb_true_iff, contains_char_false.
Qed.

(** The patterns [intersect] returns are supported ones. *)
Lemma intersect_supported a b s :
  is_supported a = true -> is_supported b = true -> intersect a b = Some s -> is_supported s = true.
Proof.
  assert (G : forall x y, is_supported y = true -> shared_entry x y = Some s -> is_supported s = true).
  { intros x y Hy H. apply supported_no_star; [|by apply (shared_entry_no_star x y)].
    apply shared_entry_Some in H as (d & -> & -> & Hd).
    unfold is_supported in Hy. apply andb_true_iff in Hy as [Hy _].
    apply directly_inside_spec in Hd as (n & -> & _). destruct d as [|c d]; [done|].
    apply starts_with_true in Hy as [r Hy]. injection Hy as -> _. done. }
  intros Sa Sb. unfold intersect. destruct (covers b a); [by intros [= <-]|].
  destruct (covers a b); [by intros [= <-]|].
  destruct (shared_entry a b) eqn:E; simpl; [intros [= ->]; by apply (G a b)|apply G; done].
Qed.

(** [covers] decides inclusion: for a supported child pattern, [covers parent child] holds
    exactly when every path the child pattern grants is also granted by the parent pattern. *)
Theorem covers_decides_inclusion (parent child : str) :
  is_supported child = true ->
  (covers parent child = true <->
   forall path, matches child path = true -> matches parent path = true).
Proof.
  intros Hc%is_supported_base. split.
  - intros H path. by apply covers_sound.
  - by apply covers_complete.
Qed.

Lemma covers_decides_inclusion_witness :
  is_supported "/artifacts/*" = true /\
  (covers "/artifacts/**" "/artifacts/*" = true <->
   forall path, matches "/artifacts/*" path = true -> matches "/artifacts/**" path = true).
Proof. split; [reflexivity|]. apply (covers_decides_inclusion "/artifacts/**"). reflexivity. Defined.

(** [intersect] computes the exact intersection of two supported patterns: the pattern it
    returns grants a path exactly when both patterns grant it, and it returns nothing only when no
    path is granted by both. *)
Theorem intersect_exact (a b path : str) :
  is_supported a = true -> is_supported b = true ->
  match intersect a b with Some s => matches s path | None => false end
  = matches a path && matches b path.
Proof.
  intros Sa Sb. unfold intersect.
  destruct (covers b a) eqn:Cab.
  { destruct (matches a path) eqn:E; [|done]. by rewrite (covers_sound b a path). }
  destruct (covers a b) eqn:Cba.
  { destruct (matches b path) eqn:E; [|by rewrite andb_false_r].
    by rewrite (covers_sound a b path). }
  destruct (option_or _ _) as [s|] eqn:E.
  - destruct (shared_entry a b) as [s'|] eqn:E1; simpl in E.
    + injection E as ->. apply shared_entry_exact; [|done]. by apply (shared_entry_no_star a b).
    + rewrite andb_comm. apply shared_entry_exact; [|done]. by apply (shared_entry_no_star b a).
  - symmetry. apply not_true_iff_false. rewrite andb_true_iff. intros [Ma Mb].
    destruct (overlap_is_shared a b path) as [s Hs]; [done..|]. congruence.
Qed.

Lemma intersect_exact_witness :
  intersect "/artifacts/*" "/artifacts/report/**" = Some (lit "/artifacts/report") /\
  match intersect "/artifacts/*" "/artifacts/report/**" with
  | Some s => matches s "/artifacts/report" | None => false end
  = matches "/artifacts/*" "/artifacts/report" && matches "/artifacts/report/**" "/artifacts/report".
Proof. split; [reflexivity|]. apply intersect_exact; reflexivity. Defined.
