(* ===== verification/Segments.v ===== *)
(** * Path segments

    The component stack that both path normalisers of the code keep
    ([normalize_path] in [crates/simulacra-types/src/capability.rs] and [normalize] in
    [crates/simulacra-vfs/src/path.rs]), the latter function itself, and the correspondence between
    normalised paths and lists of segments that the filesystem proofs use. *)

From S2P Require Import Prelude.

(** The loop body of the normalisers over the component stack. *)
Definition normalize_segment (components : list str) (segment : str) : list str :=
  if str_eqb segment [] || str_eqb segment "." then components
  else if str_eqb segment ".." then removelast components
  else components ++ [segment].

(** [normalize] of [path.rs]. *)
Definition normalize (path : str) : str :=
  let parts := fold_left normalize_segment (split_on "/" path) [] in
  if (length parts =? 0)%nat then "/" else "/" ++ join "/" parts.

(** A component a normaliser leaves. *)
Definition plain_segment (w : str) : Prop :=
  w <> [] /\ w <> lit "." /\ w <> lit ".." /\ "/"%char ∉ w.

Lemma Forall_removelast {A} (P : A -> Prop) l : Forall P l -> Forall P (removelast l).
Proof.
  induction 1 as [|x l Hx Hl IH]; [constructor|]. cbn. destruct l; by constructor.
Qed.

Lemma normalize_fold_plain segs acc :
  Forall (fun w => "/"%char ∉ w) segs -> Forall plain_segment acc ->
  Forall plain_segment (fold_left normalize_segment segs acc).
Proof.
  revert acc; induction segs as [|w segs IH]; intros acc Hs Ha; [done|].
  inversion Hs as [|? ? Hw Hs']; subst. cbn [fold_left]. apply IH; [done|].
  unfold normalize_segment. destruct (_ || _) eqn:E1; [done|]. bools.
  destruct (str_eqb w "..") eqn:E2; bools; [by apply Forall_removelast|].
  apply Forall_app. split; [done|]. by constructor.
Qed.

Lemma normalize_fold_id segs acc :
  Forall plain_segment segs -> fold_left normalize_segment segs acc = acc ++ segs.
Proof.
  intros H; revert acc; induction H as [|w segs (H1 & H2 & H3 & _) _ IH]; intros acc;
    [by rewrite app_nil_r|]. cbn [fold_left]. rewrite IH. unfold normalize_segment.
  destruct (_ || _) eqn:E1.
  { rewrite orb_true_iff, !str_eqb_true in E1. by destruct E1. }
  destruct (str_eqb w "..") eqn:E2; bools; [done|]. by rewrite <- app_assoc.
Qed.

Lemma split_join_plain comps :
  Forall plain_segment comps ->
  fold_left normalize_segment (split_on "/" (join "/" comps)) [] = comps.
Proof.
  intros H. destruct comps as [|w ws]; [done|].
  etransitivity; [|exact (normalize_fold_id (w :: ws) [] H)]. f_equal.
  apply (split_on_join "/"%char); [done|]. eapply Forall_impl; [exact H|].
  by intros v (_ & _ & _ & ?).
Qed.

(** ** Normalised paths are lists of segments *)

Definition segs_of (path : str) : list str := fold_left normalize_segment (split_on "/" path) [].

Definition path_of (segs : list str) : str := flat_map (cons "/"%char) segs.

Definition path_str (segs : list str) : str := match segs with [] => "/" | _ => path_of segs end.

Lemma path_of_app a b : path_of (a ++ b) = path_of a ++ path_of b.
Proof. apply flat_map_app. Qed.

Lemma path_of_join segs : segs <> [] -> "/" ++ join "/" segs = path_of segs.
Proof.
  induction segs as [|w segs IH]; [done|intros _].
  destruct segs as [|v vs]; [cbn; by rewrite app_nil_r|].
  rewrite join_cons_nonempty, IH by done. done.
Qed.

Lemma segs_of_plain p : Forall plain_segment (segs_of p).
Proof.
  apply normalize_fold_plain; [|constructor].
  apply Forall_forall. intros w. apply split_on_no_sep.
Qed.

Lemma normalize_str p : normalize p = path_str (segs_of p).
Proof.
  unfold normalize. fold (segs_of p). destruct (segs_of p) as [|w ws] eqn:E; [done|].
  cbn [length Nat.eqb]. by rewrite path_of_join.
Qed.

Lemma segs_of_path_str segs : Forall plain_segment segs -> segs_of (path_str segs) = segs.
Proof.
  intros H. destruct segs as [|w ws]; [done|]. unfold path_str. rewrite <- path_of_join by done.
  unfold segs_of. change ("/" ++ join "/" (w :: ws)) with ([] ++ "/"%char :: join "/" (w :: ws)).
  rewrite split_on_app_sep. cbn [split_on fold_left app].
  change (normalize_segment [] []) with (@nil str). by rewrite split_join_plain.
Qed.

Lemma path_str_inj a b :
  Forall plain_segment a -> Forall plain_segment b -> path_str a = path_str b -> a = b.
Proof. intros Ha Hb E. by rewrite <- (segs_of_path_str a Ha), <- (segs_of_path_str b Hb), E. Qed.

Lemma normalize_path_str segs : Forall plain_segment segs -> normalize (path_str segs) = path_str segs.
Proof. intros H. by rewrite normalize_str, segs_of_path_str. Qed.

Lemma path_str_root segs : Forall plain_segment segs -> path_str segs = "/" <-> segs = [].
Proof. intros H. split; [by apply (path_str_inj segs [])|by intros ->]. Qed.

Lemma path_of_inj a b :
  Forall plain_segment a -> Forall plain_segment b -> path_of a = path_of b -> a = b.
Proof.
  destruct a as [|x a], b as [|y b]; try done. intros Ha Hb E. by apply path_str_inj.
Qed.

Lemma split_path_of segs :
  segs <> [] -> Forall plain_segment segs -> split_on "/" (path_of segs) = [] :: segs.
Proof.
  intros Hl Hp. rewrite <- path_of_join by done.
  change ("/" ++ join "/" segs) with ([] ++ "/"%char :: join "/" segs).
  rewrite split_on_app_sep. cbn [split_on app]. f_equal.
  apply split_on_join; [done|]. eapply Forall_impl; [exact Hp|]. by intros ? (_ & _ & _ & ?).
Qed.

(** Being below a directory, on strings and on segments. *)
Lemma path_below a b :
  Forall plain_segment a -> Forall plain_segment b -> a <> [] ->
  starts_with (path_str a ++ "/") (path_str b) = true <-> exists w k, b = a ++ w :: k.
Proof.
  intros Ha Hb Hne. rewrite starts_with_true. split.
  - intros [r E]. destruct b as [|v vs].
    { destruct a as [|w ws]; [done|]. inversion Ha as [|? ? (Hw & _) _]; subst.
      apply (f_equal length) in E. cbn in E. rewrite !length_app in E. destruct w; [done|].
      cbn in E. lia. }
    assert (path_str a = path_of a) as Ea by by destruct a. rewrite Ea, <- app_assoc in E. clear Ea.
    change (path_str (v :: vs)) with (path_of (v :: vs)) in E.
    pose proof (split_on_app_sep "/"%char (path_of a) r) as S1.
    change (path_of a ++ "/"%char :: r) with (path_of a ++ "/" ++ r) in S1. rewrite <- E in S1.
    rewrite !split_path_of in S1 by done. injection S1 as S1.
    destruct (split_on "/" r) as [|w k] eqn:Er; [by apply split_on_nonempty in Er|]. by exists w, k.
  - intros (w & k & ->). exists (w ++ path_of k).
    destruct a as [|x a]; [done|]. cbn [path_str app].
    change (path_of (x :: a ++ w :: k)) with (path_of ((x :: a) ++ w :: k)).
    by rewrite path_of_app, <- app_assoc.
Qed.

Lemma path_within a b :
  Forall plain_segment a -> Forall plain_segment b -> a <> [] ->
  path_str b = path_str a \/ starts_with (path_str a ++ "/") (path_str b) = true <-> a `prefix_of` b.
Proof.
  intros Ha Hb Hne. rewrite path_below by done. split.
  - intros [E|(w & k & ->)]; [apply path_str_inj in E as ->; done|by eexists].
  - intros [[|w k] ->]; [left; by rewrite app_nil_r|right; eauto].
Qed.

Lemma segs_of_normalize p : segs_of (normalize p) = segs_of p.
Proof. rewrite normalize_str. apply segs_of_path_str, segs_of_plain. Qed.

Lemma normalize_idem p : normalize (normalize p) = normalize p.
Proof. by rewrite (normalize_str (normalize p)), segs_of_normalize, <- normalize_str. Qed.

Lemma normalize_is_root p : str_eqb (normalize p) "/" = true <-> segs_of p = [].
Proof. rewrite str_eqb_true, normalize_str. apply path_str_root, segs_of_plain. Qed.

Lemma path_str_last segs :
  Forall plain_segment segs -> segs <> [] -> exists d c, path_str segs = d ++ [c] /\ c <> "/"%char.
Proof.
  intros H Hne. destruct (exists_last Hne) as (l & w & ->).
  apply Forall_app in H as [_ Hw]. inversion Hw as [|? ? (Hw1 & _ & _ & Hw2) _]; subst.
  destruct (exists_last Hw1) as (v & c & ->). exists (path_of l ++ "/" ++ v), c. split.
  - destruct l as [|x l]; cbn [app path_str]; [cbn; by rewrite app_nil_r|].
    change (path_of (x :: l ++ [v ++ [c]])) with (path_of ((x :: l) ++ [v ++ [c]])).
    rewrite path_of_app, <- app_assoc. f_equal. cbn. by rewrite app_nil_r.
  - intros ->. apply Hw2, elem_of_app. right. left.
Qed.

(** A trailing slash does not change what a path means. *)
Lemma segs_of_slash p : segs_of (p ++ "/") = segs_of p.
Proof.
  unfold segs_of. change (p ++ "/") with (p ++ "/"%char :: []). rewrite split_on_app_sep, fold_left_app.
  done.
Qed.
