(* ===== verification/MemoryPath.v ===== *)
(** * Tenant ids, memory paths and the memory capability

    Models [crates/simulacra-types/src/memory.rs]: [TenantId::parse], [MemoryPath::parse] with its
    canonicalisation loop, the segment-aware prefix test and [MemoryCapability].  A parsed path is
    shown to be a fixed point of [parse], and the prefix test to be the prefix order on segments. *)

From S2P Require Import Prelude.
From S2P Require Import Text.
From S2P Require Import PathGlob.

(** The code point at the head of a UTF-8 string ([chars().next()]). *)
Definition utf8_head (s : str) : N :=
  match map N_of_ascii (firstn 4 s) with
  | b0 :: rest =>
      let cont k := (nth k rest 128 - 128)%N in
      if (b0 <? 128)%N then b0
      else if (b0 <? 224)%N then ((b0 - 192) * 64 + cont 0%nat)%N
      else if (b0 <? 240)%N then ((b0 - 224) * 4096 + cont 0%nat * 64 + cont 1%nat)%N
      else ((b0 - 240) * 262144 + cont 0%nat * 4096 + cont 1%nat * 64 + cont 2%nat)%N
  | [] => 0%N
  end.

(** ** TenantId *)

Record TenantId := MkTenantId { tenant_str : str }.

Variant TenantIdError :=
| TenantEmpty
| TooLong (len : nat)
| InvalidStart
| InvalidChar (c : N).

Definition tenant_char (c : ascii) : bool :=
  is_ascii_lowercase c || is_ascii_digit c || Ascii.eqb c "_" || Ascii.eqb c "-".

(** The loop over the characters after the first. *)
Fixpoint tenant_chars (s : str) : result unit TenantIdError :=
  match s with
  | [] => Ok tt
  | c :: s' => if negb (tenant_char c) then Err (InvalidChar (utf8_head s)) else tenant_chars s'
  end.

Definition tenant_parse (s : str) : result TenantId TenantIdError :=
  match s with
  | [] => Err TenantEmpty
  | first :: chars =>
      if Nat.ltb 64 (length s) then Err (TooLong (length s))
      else if negb (is_ascii_lowercase first || is_ascii_digit first) then Err InvalidStart
      else let? _ := tenant_chars chars in Ok (MkTenantId s)
  end.

(** ** MemoryPath *)

Record MemoryPath := MkMemoryPath { mp_str : str }.

#[export] Instance MemoryPath_eq_dec : EqDecision MemoryPath.
Proof. solve_decision. Defined.

Variant MemoryPathError :=
| MPEmpty
| InvalidPrefix
| ParentSegment
| NullByte
| ControlChar (c : N)
| SegmentTooLong (len : nat)
| PathTooLong (len : nat)
| EmptySegment.

Definition hex_digit (n : N) : ascii :=
  ascii_of_N (if (n <? 10)%N then 48 + n else 55 + n)%N.

(** [{0:04X}] of a code point below 2^16. *)
Definition hex4 (n : N) : str :=
  [hex_digit (n / 4096); hex_digit (n / 256 mod 16); hex_digit (n / 16 mod 16); hex_digit (n mod 16)]%N.

(** The [Display] text of an error ([thiserror] format strings). *)
Definition memory_path_error_str (e : MemoryPathError) : str :=
  match e with
  | MPEmpty => "memory path is empty"
  | InvalidPrefix => "memory path must start with /var/memory/ or /mnt/"
  | ParentSegment => "memory path contains '..' segment (parent traversal not allowed)"
  | NullByte => "memory path contains null byte"
  | ControlChar c => "memory path contains control character: U+" ++ hex4 c
  | SegmentTooLong n => "path segment too long: max 255 bytes, got " ++ dec (N.of_nat n)
  | PathTooLong n => "memory path too long: max 1024 bytes, got " ++ dec (N.of_nat n)
  | EmptySegment => "memory path contains empty segment (consecutive slashes)"
  end.

Definition is_memory_path_str (path : str) : bool :=
  starts_with "/var/memory/" path || str_eqb path "/var/memory"
  || starts_with "/mnt/" path || str_eqb path "/mnt".

Definition is_control (c : ascii) : bool := (N_of_ascii c <? 32)%N || (N_of_ascii c =? 127)%N.

Definition nul : ascii := ascii_of_N 0.

(** The loop over [trimmed.split('/').skip(1)], with the builder [canonical] and [first]. *)
Fixpoint walk (canonical : str) (first : bool) (segments : list str)
    : result str MemoryPathError :=
  match segments with
  | [] => Ok canonical
  | segment :: rest =>
      if str_eqb segment [] then Err EmptySegment
      else if str_eqb segment ".." then Err ParentSegment
      else if str_eqb segment "." then walk canonical first rest
      else if Nat.ltb 255 (length segment) then Err (SegmentTooLong (length segment))
      else walk ((if first then canonical else canonical ++ "/") ++ segment) false rest
  end.

Definition memory_parse (s : str) : result MemoryPath MemoryPathError :=
  if str_eqb s [] then Err MPEmpty
  else if Nat.ltb 1024 (length s) then Err (PathTooLong (length s))
  else if contains_char nul s then Err NullByte
  else match find is_control s with
  | Some c => Err (ControlChar (N_of_ascii c))
  | None =>
      if negb (is_memory_path_str s) then Err InvalidPrefix
      else
        let trimmed := trim_end_matches "/" s in
        let trimmed := if str_eqb trimmed [] then s else trimmed in
        let? canonical := walk "/" true (tl (split_on "/" trimmed)) in
        Ok (MkMemoryPath canonical)
  end.

Definition starts_with_prefix (self prefix : MemoryPath) : bool :=
  if str_eqb (mp_str self) (mp_str prefix) then true
  else
    let p := if ends_with "/" (mp_str prefix) then mp_str prefix else mp_str prefix ++ "/" in
    starts_with p (mp_str self).

Definition is_dedup (p : MemoryPath) : bool :=
  starts_with "/var/memory/dedup/" (mp_str p) || str_eqb (mp_str p) "/var/memory/dedup".

Definition is_mnt (p : MemoryPath) : bool :=
  starts_with "/mnt/" (mp_str p) || str_eqb (mp_str p) "/mnt".

(** ** MemoryCapability *)

Record MemoryCapability := {
  enabled : bool;
  search_scopes : list MemoryPath;
  write_scopes : list MemoryPath;
}.

Definition can_read (m : MemoryCapability) (path : MemoryPath) : bool :=
  enabled m && existsb (fun scope => starts_with_prefix path scope) (search_scopes m).

Definition can_write (m : MemoryCapability) (path : MemoryPath) : bool :=
  enabled m && existsb (fun scope => starts_with_prefix path scope) (write_scopes m).

(** ** Canonical paths *)

Abbreviation slash := ("/"%char).

Lemma is_memory_path_within s :
  is_memory_path_str s = within "/var/memory" s || within "/mnt" s.
Proof.
  apply Bool.eq_iff_eq_true. unfold is_memory_path_str.
  rewrite !orb_true_iff, !starts_with_true, !str_eqb_true, !within_spec.
  split.
  - intros [[[[r ->]| ->]|[r ->]]| ->]; [left; right|left; left|right; right|right; left];
      try done; by exists r.
  - intros [[->|[r ->]]|[->|[r ->]]]; [left; left; right|left; left; left|right|left; right];
      try done; by exists r.
Qed.

(** A segment [parse] keeps. *)
Definition good_segment (w : str) : Prop :=
  w <> [] /\ w <> lit "." /\ w <> lit ".." /\ length w <= 255 /\ slash ∉ w.

Definition canon (segs : list str) : str := "/" ++ join "/" segs.

Definition memory_root (segs : list str) : Prop :=
  exists rest, segs = lit "var" :: lit "memory" :: rest \/ segs = lit "mnt" :: rest.

(** The strings that are canonical memory paths. *)
Definition canonical (p : str) (segs : list str) : Prop :=
  p = canon segs /\ Forall good_segment segs /\ memory_root segs /\
  length p <= 1024 /\ Forall (fun c => is_control c = false) p.

Definition is_dot (w : str) : bool := str_eqb w ".".
Definition kept (segs : list str) : list str := List.filter (fun w => negb (is_dot w)) segs.

Definition walk_tail (first : bool) (ws : list str) : str :=
  if first then join "/" ws else match ws with [] => [] | _ => "/" ++ join "/" ws end.

Lemma walk_tail_cons (first : bool) (w : str) (ws : list str) :
  (if first then ([] : str) else lit "/") ++ w ++ walk_tail false ws = walk_tail first (w :: ws).
Proof.
  destruct ws as [|v vs]; simpl; [rewrite app_nil_r; by destruct first|].
  by destruct first.
Qed.

Lemma walk_Ok (c : str) (first : bool) (segs : list str) (r : str) :
  walk c first segs = Ok r <->
  r = c ++ walk_tail first (kept segs) /\
  Forall (fun w => w <> [] /\ w <> lit ".." /\ (w = lit "." \/ length w <= 255)) segs.
Proof.
  revert c first; induction segs as [|w segs IH]; intros c first.
  - simpl. assert (walk_tail first [] = []) as -> by by destruct first.
    rewrite app_nil_r. split; [intros [= ->]|intros [-> _]]; done.
  - cbn [walk kept List.filter]. unfold is_dot.
    destruct (str_eqb w []) eqn:E1; bools; [split; [done|intros [_ H]; inversion H; tauto]|].
    destruct (str_eqb w "..") eqn:E2; bools; [split; [done|intros [_ H]; inversion H; tauto]|].
    destruct (str_eqb w ".") eqn:E3; bools; cbn [negb].
    { rewrite IH, Forall_cons. tauto. }
    destruct (Nat.ltb_spec 255 (length w)).
    { split; [done|intros [_ Hf]; inversion Hf as [|? ? (_&_&[|]) _]; [done|lia]]. }
    rewrite IH, Forall_cons.
    assert ((if first then c else c ++ "/") ++ w = c ++ (if first then ([] : str) else lit "/") ++ w) as ->
      by (destruct first; [done|by rewrite <- app_assoc]).
    rewrite <- !app_assoc, walk_tail_cons. naive_solver.
Qed.

Lemma kept_good segs :
  Forall (fun w => w <> [] /\ w <> lit ".." /\ (w = lit "." \/ length w <= 255)) segs ->
  Forall (fun w => slash ∉ w) segs -> Forall good_segment (kept segs).
Proof.
  rewrite !Forall_forall. intros H1 H2 w Hw.
  apply list_elem_of_In, filter_In in Hw as [Hw Hd]. apply list_elem_of_In in Hw.
  unfold is_dot in Hd. bools. destruct (H1 w Hw) as (? & ? & [?|?]); [done|].
  unfold good_segment. split_and!; auto.
Qed.

Lemma kept_good_id segs : Forall good_segment segs -> kept segs = segs.
Proof.
  induction 1 as [|w segs (_ & Hd & _) _ IH]; [done|]. cbn. unfold is_dot.
  destruct (str_eqb w ".") eqn:E; bools; [done|]. simpl. by f_equal.
Qed.

Lemma good_segment_last w : good_segment w -> exists a x, w = a ++ [x] /\ x <> slash.
Proof.
  intros (Hne & _ & _ & _ & Hs).
  destruct (exists_last Hne) as (a & x & ->). exists a, x. split; [done|].
  intros ->. destruct Hs. apply elem_of_app. right. left.
Qed.

Lemma canon_last segs :
  segs <> [] -> Forall good_segment segs -> exists a x, canon segs = a ++ [x] /\ x <> slash.
Proof.
  intros Hne H. destruct (exists_last Hne) as (ws & w & ->).
  apply Forall_app in H as [_ H]. inversion H as [|? ? Hw _]; subst.
  destruct (good_segment_last w Hw) as (a & x & -> & Hx).
  destruct (join_last slash ws a x) as [b Hb]. exists (slash :: b), x.
  split; [|done]. unfold canon. cbn [lit String.list_ascii_of_string]. by rewrite Hb.
Qed.

Lemma split_canon segs : segs <> [] -> Forall good_segment segs -> split_on "/" (canon segs) = [] :: segs.
Proof.
  intros Hne H. unfold canon.
  etransitivity; [apply (split_on_app slash [] (join "/" segs)), not_elem_of_nil|].
  f_equal. apply split_on_join; [done|].
  eapply Forall_impl; [exact H|]. by intros w (_ & _ & _ & _ & ?).
Qed.

Lemma find_None_Forall (f : ascii -> bool) s : find f s = None <-> Forall (fun c => f c = false) s.
Proof.
  induction s as [|c s IH]; simpl; [done|]. destruct (f c) eqn:E.
  - split; [done|]. inversion 1; congruence.
  - rewrite IH, Forall_cons. tauto.
Qed.

Lemma no_control_no_nul s : Forall (fun c => is_control c = false) s -> contains_char nul s = false.
Proof.
  intros H. apply contains_char_false. intros Hn. rewrite Forall_forall in H.
  by specialize (H _ Hn).
Qed.

Lemma canon_memory_root segs : memory_root segs -> is_memory_path_str (canon segs) = true.
Proof.
  intros [rest Hr]. rewrite is_memory_path_within. apply orb_true_iff. rewrite !within_spec.
  destruct Hr as [-> | ->]; destruct rest as [|w ws]; [left; left|left; right|right; left|right; right];
    try done; by exists (join "/" (w :: ws)).
Qed.

Lemma memory_root_ne segs : memory_root segs -> segs <> [].
Proof. intros [rest [-> | ->]]; done. Qed.

(** A canonical path parses to itself. *)
Lemma memory_parse_canonical p segs : canonical p segs -> memory_parse p = Ok (MkMemoryPath p).
Proof.
  intros (-> & Hg & Hr & Hl & Hc). pose proof (memory_root_ne _ Hr) as Hne.
  unfold memory_parse.
  destruct (str_eqb (canon segs) []) eqn:E; bools; [done|]. clear E.
  destruct (Nat.ltb_spec 1024 (length (canon segs))); [lia|].
  rewrite (no_control_no_nul _ Hc), (proj2 (find_None_Forall _ _) Hc), canon_memory_root by done.
  cbn [negb]. destruct (canon_last segs Hne Hg) as (a & x & Ea & Hx).
  assert (trim_end_matches "/" (canon segs) = canon segs) as -> by (by rewrite Ea, trim_end_id).
  destruct (str_eqb (canon segs) []) eqn:E; bools; [done|].
  rewrite split_canon by done. cbn [tl].
  rewrite (proj2 (walk_Ok "/" true segs (canon segs))); [done|].
  rewrite kept_good_id by done. split; [done|].
  eapply Forall_impl; [exact Hg|]. intros w (? & ? & ? & ? & ?). auto.
Qed.

(** ** What [parse] accepts *)

Lemma trim_under_root (root : str) a x t :
  root = a ++ [x] -> x <> slash -> t = [] \/ (exists r, t = slash :: r) ->
  exists t', trim_end_matches "/" (root ++ t) = root ++ t' /\ (t' = [] \/ exists r, t' = slash :: r).
Proof.
  intros -> Hx Ht. rewrite trim_end_app by done. eexists; split; [done|].
  destruct (trim_end_prefix slash t) as [k Hk].
  destruct (trim_end_matches slash t) as [|c t']; [by left|right].
  destruct Ht as [->|[r ->]]; [done|]. exists t'. simplify_eq/=. done.
Qed.

Lemma split_under_root (root : str) t' (front : list str) :
  split_on "/" root = [] :: front -> front <> [] -> t' = [] \/ (exists r, t' = slash :: r) ->
  exists rest, split_on "/" (root ++ t') = [] :: front ++ rest.
Proof.
  intros Hs Hf [->|[r ->]].
  - exists []. by rewrite !app_nil_r.
  - exists (split_on "/" r). by rewrite split_on_app_sep, Hs.
Qed.

(** The segments of an accepted string, before [.] segments are dropped. *)
Lemma memory_segments s :
  is_memory_path_str s = true ->
  exists segs, tl (split_on "/" (trim_end_matches "/" s)) = segs /\
    trim_end_matches "/" s = canon segs /\ memory_root (kept segs) /\ segs <> [].
Proof.
  rewrite is_memory_path_within, orb_true_iff, !within_spec. intros H.
  assert (exists root a x front t, s = root ++ t /\ root = a ++ [x] /\ x <> slash /\
    split_on "/" root = [] :: front /\ front <> [] /\ (t = [] \/ exists r, t = slash :: r) /\
    forall rest, memory_root (kept (front ++ rest))) as
    (root & a & x & front & t & -> & Hroot & Hx & Hs & Hf & Ht & Hm).
  { destruct H as [H|H].
    - exists "/var/memory", "/var/memor", "y"%char, [lit "var"; lit "memory"].
      destruct H as [->|[r ->]]; [exists []|exists (slash :: r)]; split_and!; eauto;
        intros rest; exists (kept rest); by left.
    - exists "/mnt", "/mn", "t"%char, [lit "mnt"].
      destruct H as [->|[r ->]]; [exists []|exists (slash :: r)]; split_and!; eauto;
        intros rest; exists (kept rest); by right. }
  destruct (trim_under_root root a x t Hroot Hx Ht) as (t' & Et & Ht').
  destruct (split_under_root root t' front Hs Hf Ht') as [rest Hr].
  exists (front ++ rest). rewrite Et, Hr. split_and!; [done| |apply Hm|by destruct front].
  rewrite <- (join_split_on slash (root ++ t')). change [slash] with (lit "/").
  rewrite Hr. by destruct front.
Qed.

Lemma sum_kept (f : str -> nat) segs : sum_list_with f (kept segs) <= sum_list_with f segs.
Proof.
  induction segs as [|w segs IH]; [done|]. cbn [kept List.filter]. fold (kept segs).
  destruct (negb (is_dot w)); cbn [sum_list_with]; lia.
Qed.

Lemma length_canon_kept segs :
  kept segs <> [] -> segs <> [] -> length (canon (kept segs)) <= length (canon segs).
Proof.
  intros H1 H2. unfold canon. rewrite !length_app.
  pose proof (length_join slash (kept segs) H1). pose proof (length_join slash segs H2).
  pose proof (sum_kept (fun w => S (length w)) segs).
  change [slash] with (lit "/") in *. lia.
Qed.

Lemma elem_of_canon_kept segs x : x ∈ canon (kept segs) -> x = slash \/ x ∈ canon segs.
Proof.
  unfold canon. rewrite elem_of_app. intros [Hx|Hx].
  - apply list_elem_of_singleton in Hx as ->. by left.
  - apply (elem_of_join slash) in Hx as [->|(w & Hw & Hx)]; [by left|right].
    apply elem_of_app. right. apply (elem_of_join_2 slash segs w); [|done].
    apply list_elem_of_In, filter_In in Hw as [Hw _]. by apply list_elem_of_In.
Qed.

Lemma memory_parse_sound s p :
  memory_parse s = Ok p -> exists segs, canonical (mp_str p) segs.
Proof.
  unfold memory_parse.
  destruct (str_eqb s []) eqn:E0; [done|].
  destruct (Nat.ltb_spec 1024 (length s)) as [|Hlen]; [done|].
  destruct (contains_char nul s); [done|].
  destruct (find is_control s) eqn:Ec; [done|].
  destruct (is_memory_path_str s) eqn:Em; [cbn [negb]|done].
  destruct (memory_segments s Em) as (segs & Es & Et & Hm & Hne).
  destruct (str_eqb (trim_end_matches "/" s) []) eqn:E1; bools; [by rewrite Et in E1|].
  rewrite Es. destruct (walk "/" true segs) as [c|e] eqn:Ew; [|done]. intros [= <-].
  apply walk_Ok in Ew as [-> Hok]. exists (kept segs). cbn [mp_str].
  assert (Hin : forall x, x ∈ canon segs -> x ∈ s).
  { intros x Hx. rewrite <- Et in Hx. destruct (trim_end_prefix slash s) as [k ->].
    apply elem_of_app. by left. }
  apply find_None_Forall in Ec. rewrite Forall_forall in Ec.
  split_and!; [done| |done| |].
  - apply kept_good; [done|]. apply Forall_forall. intros w Hw.
    rewrite <- Es in Hw. apply (split_on_no_sep slash (trim_end_matches "/" s)).
    destruct (split_on _ _); [done|by right].
  - pose proof (length_canon_kept segs (memory_root_ne _ Hm) Hne) as Hl.
    etransitivity; [exact Hl|]. rewrite <- Et.
    destruct (trim_end_prefix slash s) as [k Hk]. rewrite Hk, length_app in Hlen. lia.
  - apply Forall_forall. intros x Hx. apply elem_of_canon_kept in Hx as [->|Hx]; [done|].
    auto.
Qed.

Lemma canonical_root p segs : canonical p segs -> is_memory_path_str p = true.
Proof. intros (-> & _ & Hr & _). by apply canon_memory_root. Qed.

(** ** The prefix order *)

Lemma within_canon qs ps :
  qs <> [] -> Forall good_segment qs -> ps <> [] -> Forall good_segment ps ->
  within (canon qs) (canon ps) = true <-> qs `prefix_of` ps.
Proof.
  intros Hq Gq Hp Gp. rewrite within_spec. split.
  - intros H. pose proof (split_canon ps Hp Gp) as Sp. pose proof (split_canon qs Hq Gq) as Sq.
    destruct H as [E|[r E]].
    + rewrite E, Sq in Sp. by injection Sp as ->.
    + rewrite E, split_on_app_sep, Sq in Sp. injection Sp as <-. by eexists.
  - intros [k ->]. destruct k as [|w ws]; [left; by rewrite app_nil_r|right].
    exists (join "/" (w :: ws)). unfold canon. clear -Hq. induction qs as [|q qs IH]; [done|].
    destruct qs as [|q' qs]; [done|].
    specialize (IH ltac:(done)). simpl in IH. injection IH as IH.
    rewrite <- app_comm_cons, !join_cons_nonempty by done. simpl. f_equal.
    rewrite <- app_assoc. f_equal. simpl. f_equal. exact IH.
Qed.

Lemma starts_with_prefix_within self prefix segs :
  canonical (mp_str prefix) segs ->
  starts_with_prefix self prefix = within (mp_str prefix) (mp_str self).
Proof.
  intros (Ep & Hg & Hr & _). unfold starts_with_prefix.
  destruct (canon_last segs (memory_root_ne _ Hr) Hg) as (a & x & Ea & Hx).
  rewrite <- Ep in Ea.
  assert (ends_with "/" (mp_str prefix) = false) as ->.
  { apply not_true_is_false. rewrite ends_with_true, Ea. intros [r E].
    by apply app_inj_tail in E as [_ ?]. }
  apply Bool.eq_iff_eq_true. rewrite within_spec.
  destruct (str_eqb (mp_str self) (mp_str prefix)) eqn:E; bools; [by split; [left|]|].
  rewrite starts_with_true. setoid_rewrite <- app_assoc. naive_solver.
Qed.

(** The segments of a path, as [split('/').skip(1)] lists them. *)
Definition segments (p : MemoryPath) : list str := tl (split_on "/" (mp_str p)).

Lemma segments_canonical p segs : canonical (mp_str p) segs -> segments p = segs.
Proof.
  intros (E & Hg & Hr & _). unfold segments. rewrite E, split_canon; [done| |done].
  by apply memory_root_ne.
Qed.

Lemma starts_with_prefix_order p q ps qs :
  canonical (mp_str p) ps -> canonical (mp_str q) qs ->
  starts_with_prefix p q = true <-> qs `prefix_of` ps.
Proof.
  intros Hp Hq. rewrite (starts_with_prefix_within p q qs Hq).
  destruct Hp as (-> & Hgp & Hrp & _), Hq as (-> & Hgq & Hrq & _).
  apply within_canon; auto using memory_root_ne.
Qed.

(** Round trip of [MemoryPath::parse]: an accepted path is stored in canonical form
    (absolute, non-empty [/]-free segments of at most 255 bytes, no [.] or [..], under one of the
    two memory roots, at most 1024 bytes), and parsing the stored form again returns it
    unchanged. *)
Theorem memory_parse_roundtrip (s : str) (p : MemoryPath) :
  memory_parse s = Ok p ->
  memory_parse (mp_str p) = Ok p /\
  mp_str p = "/" ++ join "/" (segments p) /\
  Forall good_segment (segments p) /\
  is_memory_path_str (mp_str p) = true /\ length (mp_str p) <= 1024.
Proof.
  intros H. destruct (memory_parse_sound s p H) as [segs Hc].
  rewrite (segments_canonical p segs Hc). pose proof Hc as (E & Hg & Hr & Hl & _).
  split_and!; [|done|done|by apply (canonical_root _ segs)|done].
  rewrite (memory_parse_canonical _ segs Hc). by destruct p.
Qed.

Lemma memory_parse_roundtrip_witness :
  memory_parse "/mnt/./docs/" = Ok (MkMemoryPath "/mnt/docs") /\
  memory_parse "/mnt/docs" = Ok (MkMemoryPath "/mnt/docs").
Proof.
  split; [reflexivity|].
  apply (memory_parse_roundtrip "/mnt/./docs/" (MkMemoryPath "/mnt/docs")). reflexivity.
Defined.

(** [MemoryPath::starts_with_prefix] on parsed paths is the prefix order on path segments, so
    [/var/memory/selfish] is not under [/var/memory/self]. *)
Theorem starts_with_prefix_is_segment_prefix (s1 s2 : str) (p q : MemoryPath) :
  memory_parse s1 = Ok p -> memory_parse s2 = Ok q ->
  (starts_with_prefix p q = true <-> segments q `prefix_of` segments p).
Proof.
  intros [ps Hp]%memory_parse_sound [qs Hq]%memory_parse_sound.
  rewrite (segments_canonical p ps Hp), (segments_canonical q qs Hq).
  by apply starts_with_prefix_order.
Qed.

Lemma starts_with_prefix_is_segment_prefix_witness :
  starts_with_prefix (MkMemoryPath "/var/memory/self/notes") (MkMemoryPath "/var/memory/self") = true /\
  (starts_with_prefix (MkMemoryPath "/var/memory/self/notes") (MkMemoryPath "/var/memory/self") = true <->
   segments (MkMemoryPath "/var/memory/self") `prefix_of` segments (MkMemoryPath "/var/memory/self/notes")).
Proof.
  split; [reflexivity|].
  by apply (starts_with_prefix_is_segment_prefix "/var/memory/self/notes" "/var/memory/self/").
Defined.

(** ** Tenant ids *)

Lemma tenant_chars_Ok s : tenant_chars s = Ok tt <-> forallb tenant_char s = true.
Proof.
  induction s as [|c s IH]; [done|]. cbn [tenant_chars forallb].
  destruct (tenant_char c); [exact IH|done].
Qed.

(** [TenantId::parse] accepts exactly the strings of the documented pattern
    [a-z0-9] followed by at most 63 characters of [a-z0-9_-], and stores them unchanged, so a
    tenant id is a single safe path segment: it has no [/] and is neither [.] nor [..]. *)
Lemma tenant_parse_spec (s : str) (t : TenantId) :
  tenant_parse s = Ok t <->
  t = MkTenantId s /\ length s <= 64 /\
  (exists c rest, s = c :: rest /\ (is_ascii_lowercase c || is_ascii_digit c) = true /\
     forallb tenant_char rest = true) /\
  slash ∉ s /\ s <> lit "." /\ s <> lit "..".
Proof.
  assert (Hc : forall c, tenant_char c = true -> c <> slash) by (by intros c ? ->).
  assert (Hf : forall c, (is_ascii_lowercase c || is_ascii_digit c) = true ->
    c <> slash /\ c <> "."%char) by (by intros c ?; split; intros ->).
  split.
  - destruct s as [|c s]; [done|]. unfold tenant_parse.
    destruct (Nat.ltb_spec 64 (length (c :: s))); [done|].
    destruct (is_ascii_lowercase c || is_ascii_digit c) eqn:E; [cbn [negb]|done].
    destruct (tenant_chars s) as [[]|] eqn:Es; [|done]. intros [= <-].
    apply tenant_chars_Ok in Es. destruct (Hf c E).
    split_and!; [done|lia|by exists c, s| |intros ?; by simplify_eq/=|intros ?; by simplify_eq/=].
    rewrite not_elem_of_cons. split; [done|]. rewrite forallb_elem in Es.
    intros Hs. by apply (Hc slash); auto.
  - intros (-> & Hl & (c & rest & -> & E & Hr) & _). unfold tenant_parse.
    destruct (Nat.ltb_spec 64 (length (c :: rest))); [lia|].
    rewrite E. cbn [negb]. by rewrite (proj2 (tenant_chars_Ok rest) Hr).
Qed.
