(* ===== verification/Capability.v ===== *)
(** * Capability tokens and their attenuation

    Models [crates/simulacra-types/src/capability.rs]: the token, every [check_*] method of the
    proxy layer, [is_subset_of] (the attenuation test on sub-agent spawn) and [intersect].

    The theorems say that attenuation is sound: whatever a token that passes [is_subset_of], or that
    [intersect] computes, is allowed to do, the tokens it was derived from are allowed to do. *)

From S2P Require Import Prelude.
From S2P Require Import PathGlob.
From S2P Require Import Segments.
From S2P Require Import MemoryPath.

(** [NetworkPermission] and [PathPattern] are newtypes of [String]. *)
Abbreviation NetworkPermission := str.
Abbreviation PathPattern := str.

Record CapabilityToken := {
  network : list NetworkPermission;
  mcp_tools : list str;
  shell : bool;
  javascript : bool;
  python : bool;
  paths_write : list PathPattern;
  paths_read : list PathPattern;
  spawn_placements : list str;
  skill_patterns : list str;
  memory : MemoryCapability;
}.

Record CapabilityDenied := { operation : str; reason : str }.

Definition capability_denied_to_string (denied : CapabilityDenied) : str :=
  "capability denied: " ++ operation denied ++ " — " ++ reason denied.

(** ** Helpers *)

Definition DENY_ALL_SKILLS_PATTERN : str := [nul].

Definition path_pattern_covered_by (child : str) (parents : list PathPattern) : bool :=
  existsb (fun p => covers p child) parents.

Definition intersect_path_patterns (a b : list PathPattern) : list PathPattern :=
  fold_left (fun out ap =>
    fold_left (fun out bp =>
      match PathGlob.intersect ap bp with
      | Some shared => push_unique out shared
      | None => out
      end) b out) a [].

Definition skill_pattern_covers (parent child : str) : bool :=
  if str_eqb child DENY_ALL_SKILLS_PATTERN then true
  else if str_eqb parent DENY_ALL_SKILLS_PATTERN then false
  else if str_eqb parent "*" || str_eqb parent "skill:*" || str_eqb parent child then true
  else match strip_suffix "*" parent with
  | Some prefix => starts_with prefix child
  | None => false
  end.

Definition intersect_skill_patterns (a b : list str) : list str :=
  if (length a =? 0)%nat then b
  else if (length b =? 0)%nat then a
  else if existsb (fun p => str_eqb p DENY_ALL_SKILLS_PATTERN) a
       || existsb (fun p => str_eqb p DENY_ALL_SKILLS_PATTERN) b
  then [DENY_ALL_SKILLS_PATTERN]
  else
    let out :=
      fold_left (fun out left =>
        fold_left (fun out right =>
          let narrower :=
            if skill_pattern_covers left right then Some right
            else if skill_pattern_covers right left then Some left
            else None in
          match narrower with
          | Some pattern => push_unique out pattern
          | None => out
          end) b out) a [] in
    if (length out =? 0)%nat then [DENY_ALL_SKILLS_PATTERN] else out.

(** [perm.strip_prefix("net:").unwrap_or(perm)]. *)
Definition strip_net (perm : str) : str := unwrap_or (strip_prefix "net:" perm) perm.

Definition network_perm_covered_by (child parent : str) : bool :=
  let child_pat := strip_net child in
  let parent_pat := strip_net parent in
  if str_eqb parent_pat "*" then true
  else if str_eqb parent_pat child_pat then true
  else if starts_with "*." parent_pat then
    let dot_suffix := tl parent_pat in
    match strip_suffix dot_suffix child_pat with
    | Some prefix => negb (contains_char "." prefix) && negb (starts_with "*" prefix)
    | None => false
    end
  else false.

Definition intersect_network_perms (a b : list NetworkPermission) : list NetworkPermission :=
  let out :=
    fold_left (fun out ap =>
      if existsb (fun bp => network_perm_covered_by ap bp) b then push_unique out ap else out) a [] in
  fold_left (fun out bp =>
    if existsb (fun ap => network_perm_covered_by bp ap) a then push_unique out bp else out) b out.

Definition normalize_path (path : str) : str :=
  let components := fold_left normalize_segment (split_on "/" path) [] in
  if starts_with "/" path then "/" ++ join "/" components else join "/" components.

Definition path_matches (patterns : list PathPattern) (path : str) : bool :=
  existsb (fun p => matches p path) patterns.

Definition intersect_memory_scopes (a b : list MemoryPath) : list MemoryPath :=
  let out :=
    fold_left (fun out ap =>
      if existsb (fun bp => starts_with_prefix ap bp) b then push_unique out ap else out) a [] in
  fold_left (fun out bp =>
    if existsb (fun ap => starts_with_prefix bp ap) a then push_unique out bp else out) b out.

Definition check_memory_path_read (memory : MemoryCapability) (path : str)
    : result unit CapabilityDenied :=
  let? parsed := map_err (fun e => {|
      operation := "read_file";
      reason := "invalid memory path '" ++ path ++ "': " ++ memory_path_error_str e |})
    (memory_parse path) in
  if can_read memory parsed then Ok tt
  else Err {| operation := "read_file";
              reason := "memory read denied for " ++ path
                ++ ": not in any MemoryCapability.search_scopes" |}.

Definition check_memory_path_write (memory : MemoryCapability) (path : str)
    : result unit CapabilityDenied :=
  let? parsed := map_err (fun e => {|
      operation := "write_file";
      reason := "invalid memory path '" ++ path ++ "': " ++ memory_path_error_str e |})
    (memory_parse path) in
  if is_mnt parsed then
    Err {| operation := "write_file";
           reason := "memory write denied for " ++ path ++ ": /mnt is admin-ingested only" |}
  else if can_write memory parsed then Ok tt
  else Err {| operation := "write_file";
              reason := "memory write denied for " ++ path
                ++ ": not in any MemoryCapability.write_scopes" |}.

(** ** CapabilityToken methods *)

Definition is_subset_of (self parent : CapabilityToken) : bool :=
  negb (shell self && negb (shell parent))
  && negb (javascript self && negb (javascript parent))
  && negb (python self && negb (python parent))
  && forallb (fun child_net =>
       existsb (fun parent_net => network_perm_covered_by child_net parent_net) (network parent))
       (network self)
  && forallb (fun child_spawn => mem child_spawn (spawn_placements parent)) (spawn_placements self)
  && forallb (fun child_tool => mem child_tool (mcp_tools parent)) (mcp_tools self)
  && forallb (fun child_path => path_pattern_covered_by child_path (paths_write parent))
       (paths_write self)
  && forallb (fun child_path => path_pattern_covered_by child_path (paths_read parent))
       (paths_read self)
  && negb ((length (skill_patterns self) =? 0)%nat && negb (length (skill_patterns parent) =? 0)%nat)
  && forallb (fun child_skill =>
       str_eqb child_skill DENY_ALL_SKILLS_PATTERN
       || existsb (fun parent_pat => skill_pattern_covers parent_pat child_skill)
            (skill_patterns parent))
       (skill_patterns self)
  && negb (enabled (memory self) && negb (enabled (memory parent)))
  && forallb (fun child_scope =>
       existsb (fun parent_scope => starts_with_prefix child_scope parent_scope)
         (search_scopes (memory parent)))
       (search_scopes (memory self))
  && forallb (fun child_scope =>
       existsb (fun parent_scope => starts_with_prefix child_scope parent_scope)
         (write_scopes (memory parent)))
       (write_scopes (memory self)).

Definition intersect (self other : CapabilityToken) : CapabilityToken := {|
  network := intersect_network_perms (network self) (network other);
  mcp_tools := List.filter (fun t => mem t (mcp_tools other)) (mcp_tools self);
  shell := shell self && shell other;
  javascript := javascript self && javascript other;
  python := python self && python other;
  paths_write := intersect_path_patterns (paths_write self) (paths_write other);
  paths_read := intersect_path_patterns (paths_read self) (paths_read other);
  spawn_placements := List.filter (fun s => mem s (spawn_placements other)) (spawn_placements self);
  skill_patterns := intersect_skill_patterns (skill_patterns self) (skill_patterns other);
  memory := {|
    enabled := enabled (memory self) && enabled (memory other);
    search_scopes :=
      intersect_memory_scopes (search_scopes (memory self)) (search_scopes (memory other));
    write_scopes :=
      intersect_memory_scopes (write_scopes (memory self)) (write_scopes (memory other)) |} |}.

Definition check_shell (self : CapabilityToken) : result unit CapabilityDenied :=
  if shell self then Ok tt
  else Err {| operation := "shell"; reason := "shell capability not granted" |}.

Definition check_javascript (self : CapabilityToken) : result unit CapabilityDenied :=
  if javascript self then Ok tt
  else Err {| operation := "javascript"; reason := "javascript capability not granted" |}.

Definition check_python (self : CapabilityToken) : result unit CapabilityDenied :=
  if python self then Ok tt
  else Err {| operation := "python"; reason := "python capability not granted" |}.

Definition check_path_read (self : CapabilityToken) (path : str) : result unit CapabilityDenied :=
  let path := normalize_path path in
  if is_memory_path_str path then check_memory_path_read (memory self) path
  else if path_matches (paths_read self) path then Ok tt
  else Err {| operation := "read_file"; reason := "read access denied for " ++ path |}.

Definition check_path_write (self : CapabilityToken) (path : str) : result unit CapabilityDenied :=
  let path := normalize_path path in
  if is_memory_path_str path then check_memory_path_write (memory self) path
  else if path_matches (paths_write self) path then Ok tt
  else Err {| operation := "write_file"; reason := "write access denied for " ++ path |}.

(** [{:?}] of a string: the escapes of [str::escape_debug] for ASCII; other bytes are printable
    characters and stay as they are. *)
Definition lower_hex (n : N) : str :=
  let digit k := ascii_of_N (if (k <? 10)%N then 48 + k else 87 + k)%N in
  if (n <? 16)%N then [digit n] else [digit (n / 16)%N; digit (n mod 16)%N].

Definition debug_char (c : ascii) : str :=
  let n := N_of_ascii c in
  let bs : ascii := ascii_of_N 92 in
  if (n =? 0)%N then [bs; "0"%char]
  else if (n =? 9)%N then [bs; "t"%char]
  else if (n =? 10)%N then [bs; "n"%char]
  else if (n =? 13)%N then [bs; "r"%char]
  else if (n =? 34)%N || (n =? 92)%N then [bs; c]
  else if (n <? 32)%N || (n =? 127)%N then [bs; "u"%char; "{"%char] ++ lower_hex n ++ "}"
  else [c].

Definition debug_str (s : str) : str :=
  ascii_of_N 34 :: flat_map debug_char s ++ [ascii_of_N 34].

(** One iteration of the pattern loop of [check_skill]. *)
Definition skill_pattern_allows (target pattern : str) : bool :=
  str_eqb pattern "*" || str_eqb pattern "skill:*" || str_eqb pattern target
  || match strip_suffix "*" pattern with
     | Some prefix => starts_with prefix target
     | None => false
     end.

Definition check_skill (self : CapabilityToken) (skill_name : str) : result unit CapabilityDenied :=
  if (length (skill_patterns self) =? 0)%nat then Ok tt
  else
    let target := "skill:" ++ skill_name in
    if existsb (skill_pattern_allows target) (skill_patterns self) then Ok tt
    else Err {| operation := "skill:" ++ skill_name;
                reason := "skill " ++ debug_str skill_name ++ " not allowed by capability token" |}.

(** One iteration of the permission loop of [check_network]. *)
Definition network_perm_allows (host perm : str) : bool :=
  str_eqb perm "*"
  || (let pat := strip_net perm in
      str_eqb pat host
      || match strip_prefix "*." pat with
         | Some dot_suffix =>
             match strip_suffix ("." ++ dot_suffix) host with
             | Some prefix => negb (contains_char "." prefix)
             | None => false
             end
         | None => false
         end).

Definition check_network (self : CapabilityToken) (host : str) : result unit CapabilityDenied :=
  if existsb (network_perm_allows host) (network self) then Ok tt
  else Err {| operation := "network:" ++ host; reason := "no network permission for " ++ host |}.

(** ** Requests and what a token allows *)

Variant request :=
| ShellReq
| JavascriptReq
| PythonReq
| ReadReq (path : str)
| WriteReq (path : str)
| SkillReq (name : str)
| NetworkReq (host : str)
| SpawnReq (placement : str)
| McpReq (granted : str).

Definition allowed (t : CapabilityToken) (r : request) : bool :=
  match r with
  | ShellReq => is_ok (check_shell t)
  | JavascriptReq => is_ok (check_javascript t)
  | PythonReq => is_ok (check_python t)
  | ReadReq p => is_ok (check_path_read t p)
  | WriteReq p => is_ok (check_path_write t p)
  | SkillReq n => is_ok (check_skill t n)
  | NetworkReq h => is_ok (check_network t h)
  | SpawnReq p => mem p (spawn_placements t)
  | McpReq g => mem g (mcp_tools t)
  end.

(** A skill pattern uses [*] only as its last character. *)
Definition glob_at_end (p : str) : Prop := "*"%char ∉ removelast p.

(** The lists a token is built with: see the header of the section on attenuation. *)
Record well_formed (t : CapabilityToken) : Prop := {
  wf_network : lit "net:*" ∉ network t;
  wf_skills : Forall glob_at_end (skill_patterns t);
  wf_deny : DENY_ALL_SKILLS_PATTERN ∈ skill_patterns t ->
            skill_patterns t = [DENY_ALL_SKILLS_PATTERN];
  wf_read : Forall (fun p => is_supported p = true) (paths_read t);
  wf_write : Forall (fun p => is_supported p = true) (paths_write t);
  wf_search_scopes : Forall (fun s => exists segs, canonical (mp_str s) segs) (search_scopes (memory t));
  wf_write_scopes : Forall (fun s => exists segs, canonical (mp_str s) segs) (write_scopes (memory t));
}.

(** ** Network permissions *)

Lemma star_not_in_fixed (c : ascii) (s : str) : contains_char c s = false -> c ∉ s.
Proof. apply contains_char_false. Qed.

(** What a permission grants: every host, one host, or one label below a domain. *)
Lemma network_perm_allows_spec host perm :
  network_perm_allows host perm = true <->
  perm = lit "*" \/ strip_net perm = host \/
  exists suffix prefix, strip_net perm = "*." ++ suffix /\ host = prefix ++ "." ++ suffix /\
    "."%char ∉ prefix.
Proof.
  unfold network_perm_allows. rewrite !orb_true_iff, !str_eqb_true. split.
  - intros [?|[?|H]]; [by left|by right; left|right; right].
    repeat break_match_in H; try discriminate. bools.
    repeat match goal with
    | E : strip_prefix _ _ = Some _ |- _ => apply strip_prefix_Some in E
    | E : strip_suffix _ _ = Some _ |- _ => apply strip_suffix_Some in E
    end.
    eexists _, _. split_and!; [done|done|by apply contains_char_false].
  - intros [?|[?|(suf & pre & E & -> & Hd)]]; [by left|by right; left|right; right].
    rewrite E, strip_prefix_app, strip_suffix_app. apply negb_true_iff, contains_char_false, Hd.
Qed.

Lemma network_perm_covered_by_spec child parent :
  network_perm_covered_by child parent = true <->
  strip_net parent = lit "*" \/ strip_net parent = strip_net child \/
  exists suffix prefix, strip_net parent = "*." ++ suffix /\ strip_net child = prefix ++ "." ++ suffix /\
    "."%char ∉ prefix /\ starts_with "*" prefix = false.
Proof.
  unfold network_perm_covered_by.
  destruct (str_eqb (strip_net parent) "*") eqn:E1; bools; [by split; [left|]|].
  destruct (str_eqb (strip_net parent) (strip_net child)) eqn:E2; bools; [by split; [right; left|]|].
  destruct (starts_with "*." (strip_net parent)) eqn:E3.
  - apply starts_with_true in E3 as [suf Es]. rewrite Es.
    change (tl ("*." ++ suf)) with ("." ++ suf). split.
    + destruct (strip_suffix _ _) as [pre|] eqn:Ep; [|done]. intros H. bools.
      apply strip_suffix_Some in Ep. right; right. exists suf, pre.
      split_and!; [done|done|by apply contains_char_false|done].
    + intros [H|[H|(suf' & pre & Es' & Ec & Hd & Hs)]]; [congruence|congruence|].
      apply app_inv_head in Es' as <-. rewrite Ec, strip_suffix_app, Hs.
      by rewrite (proj2 (contains_char_false _ _) Hd).
  - split; [done|]. intros [?|[?|(suf & pre & Es & _)]]; [done..|].
    by rewrite Es, starts_with_app in E3.
Qed.

Lemma strip_net_star_dot perm s : strip_net perm = s -> s <> lit "*" -> perm <> lit "*".
Proof. intros <- H ->. by apply H. Qed.

(** Coverage is sound unless the parent is the permission [net:*]: [network_perm_covered_by] reads
    it as "every host" while [check_network] reads it as the literal host [*]. *)
Lemma network_cover_sound child parent host :
  parent <> lit "net:*" -> network_perm_covered_by child parent = true ->
  network_perm_allows host child = true -> network_perm_allows host parent = true.
Proof.
  intros Hnet. rewrite network_perm_covered_by_spec, !network_perm_allows_spec.
  assert (Hstar : strip_net parent = lit "*" -> parent = lit "*").
  { unfold strip_net. destruct (strip_prefix "net:" parent) eqn:E; simpl; [|done].
    apply strip_prefix_Some in E. intros ->. done. }
  intros [H|[H|(suf & pre & Ep & Ec & Hd & Hs)]]; [by auto| |].
  - intros [->|[Hc|(suf & pre & Ec & Eh & Hd)]]; [left; by apply Hstar|right; left; congruence|].
    right; right. exists suf, pre. split_and!; [congruence|done|done].
  - assert (pre <> [] -> hd "."%char pre <> "*"%char).
    { intros Hne Hh. destruct pre as [|c pre]; [done|]. simpl in Hh. subst c. done. }
    intros [->|[Hc|(suf' & pre' & Ec' & Eh & Hd')]].
    + exfalso. change (strip_net "*") with (lit "*") in Ec.
      apply (f_equal length) in Ec as El. rewrite !length_app in El. simpl in El.
      destruct pre; simpl in *; [|lia]. discriminate.
    + right; right. exists suf, pre. split_and!; [done|congruence|done].
    + exfalso. rewrite Ec' in Ec. destruct pre as [|c pre]; [discriminate|].
      injection Ec as <- _. done.
Qed.

(** Two permissions that allow the same host are comparable. *)
Lemma network_cover_comparable p q host :
  "*"%char ∉ host -> network_perm_allows host p = true -> network_perm_allows host q = true ->
  network_perm_covered_by p q = true \/ network_perm_covered_by q p = true.
Proof.
  intros Hh. rewrite !network_perm_allows_spec, !network_perm_covered_by_spec.
  assert (Hs : forall pre suf, host = pre ++ "." ++ suf -> starts_with "*" pre = false).
  { intros pre suf E. apply not_true_is_false. rewrite starts_with_true. intros [r ->].
    apply Hh. rewrite E. left. }
  intros [->|[Hp|(s1 & p1 & E1 & Eh1 & Hd1)]]; [by right; left|..];
    (intros [->|[Hq|(s2 & p2 & E2 & Eh2 & Hd2)]]; [by left; left|..]).
  - left; right; left. congruence.
  - left; right; right. exists s2, p2. split_and!; [done|congruence|done|by eapply Hs].
  - right; right; right. exists s1, p1. split_and!; [done|congruence|done|by eapply Hs].
  - left; right; left. rewrite Eh1 in Eh2. apply first_segment_unique in Eh2 as [-> ->]; congruence.
Qed.

(** ** Skill patterns *)

Lemma skill_pattern_allows_spec target pattern :
  skill_pattern_allows target pattern = true <->
  pattern = lit "*" \/ pattern = lit "skill:*" \/ pattern = target \/
  exists pre, pattern = pre ++ "*" /\ starts_with pre target = true.
Proof.
  unfold skill_pattern_allows. rewrite !orb_true_iff, !str_eqb_true.
  destruct (strip_suffix "*" pattern) as [pre|] eqn:E.
  - apply strip_suffix_Some in E as ->. split; [naive_solver|].
    intros [?|[?|[?|(q & Eq & ?)]]]; [tauto..|right]. by apply app_inv_tail in Eq as ->.
  - pose proof (proj1 (strip_suffix_None _ _) E). split; naive_solver.
Qed.

Lemma glob_at_end_prefix pre : glob_at_end (pre ++ "*") -> "*"%char ∉ pre.
Proof. unfold glob_at_end. change (lit "*") with ["*"%char]. by rewrite removelast_last. Qed.

(** A star-free prefix of a pattern is a prefix of everything that pattern can allow. *)
Lemma star_free_prefix (pre s r : str) :
  "*"%char ∉ pre -> starts_with pre (s ++ "*" ++ r) = true -> starts_with pre s = true.
Proof.
  intros Hp. rewrite !starts_with_true. intros [t E].
  destruct (app_eq_inv _ _ _ _ E) as [(k & -> & _)|(k & -> & Ek)]; [by exists k|].
  destruct k as [|c k]; [exists []; by rewrite !app_nil_r|].
  injection Ek as <- _. destruct Hp. apply elem_of_app. right. left.
Qed.

Lemma skill_target_not_deny n : lit "skill:" ++ n <> DENY_ALL_SKILLS_PATTERN.
Proof. done. Qed.

Lemma deny_allows_nothing n : skill_pattern_allows ("skill:" ++ n) DENY_ALL_SKILLS_PATTERN = false.
Proof. reflexivity. Qed.

Lemma skill_cover_sound parent child n :
  glob_at_end parent -> skill_pattern_covers parent child = true ->
  skill_pattern_allows ("skill:" ++ n) child = true ->
  skill_pattern_allows ("skill:" ++ n) parent = true.
Proof.
  intros Hg Hc Ha. unfold skill_pattern_covers in Hc.
  destruct (str_eqb child DENY_ALL_SKILLS_PATTERN) eqn:E1; bools.
  { subst. by rewrite deny_allows_nothing in Ha. }
  destruct (str_eqb parent DENY_ALL_SKILLS_PATTERN); [done|].
  rewrite skill_pattern_allows_spec.
  destruct (_ || _) eqn:E2 in Hc; bools.
  { rewrite !orb_true_iff, !str_eqb_true in E2. destruct E2 as [[?| ?]| ->]; [tauto..|].
    by apply skill_pattern_allows_spec. }
  destruct (strip_suffix "*" parent) as [pre|] eqn:E3; [|done].
  apply strip_suffix_Some in E3 as ->. apply glob_at_end_prefix in Hg.
  right; right; right. exists pre. split; [done|].
  apply skill_pattern_allows_spec in Ha as [->|[->|[->|(q & -> & Hq)]]]; [| |done|].
  - apply (star_free_prefix pre [] []) in Hc; [|done]. apply starts_with_true in Hc as [r Er].
    destruct pre; [done|discriminate].
  - apply (star_free_prefix pre "skill:" []) in Hc; [|done].
    eapply starts_with_trans; [exact Hc|apply starts_with_app].
  - apply (star_free_prefix pre q []) in Hc; [|done]. by eapply starts_with_trans.
Qed.

Lemma starts_with_comparable p q s :
  starts_with p s = true -> starts_with q s = true ->
  starts_with p q = true \/ starts_with q p = true.
Proof.
  rewrite !starts_with_true. intros [r ->] [t E].
  destruct (app_eq_inv _ _ _ _ E) as [(k & -> & _)|(k & -> & _)]; eauto.
Qed.

Lemma covers_intro parent child :
  parent <> DENY_ALL_SKILLS_PATTERN ->
  parent = lit "*" \/ parent = lit "skill:*" \/ parent = child \/
    (exists pre, parent = pre ++ "*" /\ starts_with pre child = true) ->
  skill_pattern_covers parent child = true.
Proof.
  intros Hd H. unfold skill_pattern_covers.
  destruct (str_eqb child _); [done|]. destruct (str_eqb parent _) eqn:E; bools; [done|].
  destruct (_ || _) eqn:E2; [done|]. bools.
  destruct H as [?|[?|[?|(pre & -> & Hp)]]]; [done..|]. by rewrite strip_suffix_app.
Qed.

Lemma skill_cover_comparable p q n :
  skill_pattern_allows ("skill:" ++ n) p = true -> skill_pattern_allows ("skill:" ++ n) q = true ->
  skill_pattern_covers p q = true \/ skill_pattern_covers q p = true.
Proof.
  intros Hp Hq.
  assert (p <> DENY_ALL_SKILLS_PATTERN) by (intros ->; by rewrite deny_allows_nothing in Hp).
  assert (q <> DENY_ALL_SKILLS_PATTERN) by (intros ->; by rewrite deny_allows_nothing in Hq).
  apply skill_pattern_allows_spec in Hp as [?|[?|[Ep|(a & Ea & Ha)]]];
    [left; apply covers_intro; tauto..| |];
    (apply skill_pattern_allows_spec in Hq as [?|[?|[Eq|(b & Eb & Hb)]]];
     [right; apply covers_intro; tauto..| |]).
  - left. apply covers_intro; [done|]. right; right; left. congruence.
  - right. apply covers_intro; [done|]. right; right; right. exists b. by subst p.
  - left. apply covers_intro; [done|]. right; right; right. exists a. by subst q.
  - destruct (starts_with_comparable a b _ Ha Hb) as [H1|H1]; [left|right];
      (apply covers_intro; [done|]; right; right; right; eexists; split; [eassumption|]);
      eapply starts_with_trans; [exact H1|subst; apply starts_with_app|exact H1|subst; apply starts_with_app].
Qed.

(** ** Paths and memory scopes *)

Lemma is_ok_check_path_read t p :
  is_ok (check_path_read t p) =
  (if is_memory_path_str (normalize_path p) then
     match memory_parse (normalize_path p) with Ok q => can_read (memory t) q | Err _ => false end
   else path_matches (paths_read t) (normalize_path p)).
Proof.
  unfold check_path_read, check_memory_path_read, map_err. repeat break_match; simplify_eq; done.
Qed.

Lemma is_ok_check_path_write t p :
  is_ok (check_path_write t p) =
  (if is_memory_path_str (normalize_path p) then
     match memory_parse (normalize_path p) with
     | Ok q => negb (is_mnt q) && can_write (memory t) q
     | Err _ => false
     end
   else path_matches (paths_write t) (normalize_path p)).
Proof.
  unfold check_path_write, check_memory_path_write, map_err.
  repeat (break_match; simplify_eq/=); congruence.
Qed.

Lemma path_matches_cover_sound child parent path :
  forallb (fun c => path_pattern_covered_by c parent) child = true ->
  path_matches child path = true -> path_matches parent path = true.
Proof.
  unfold path_matches, path_pattern_covered_by. rewrite forallb_elem, !existsb_elem.
  setoid_rewrite existsb_elem. intros H (c & Hc & Hm).
  destruct (H c Hc) as (p & Hp & Hcov). exists p. split; [done|]. by eapply covers_sound.
Qed.

Lemma path_matches_intersect a b path :
  Forall (fun p => is_supported p = true) a -> Forall (fun p => is_supported p = true) b ->
  path_matches (intersect_path_patterns a b) path = path_matches a path && path_matches b path.
Proof.
  rewrite !Forall_forall. intros Sa Sb. apply Bool.eq_iff_eq_true.
  unfold path_matches, intersect_path_patterns. rewrite andb_true_iff, !existsb_elem. split.
  - intros (s & Hs & Hm). apply elem_of_collect_opt2 in Hs as [?%elem_of_nil|(p & q & Hp & Hq & E)]; [done|].
    pose proof (intersect_exact p q path (Sa p Hp) (Sb q Hq)) as X. rewrite E, Hm in X.
    symmetry in X. apply andb_true_iff in X as [? ?]. split; eauto.
  - intros [(p & Hp & Hmp) (q & Hq & Hmq)].
    pose proof (intersect_exact p q path (Sa p Hp) (Sb q Hq)) as X. rewrite Hmp, Hmq in X.
    destruct (PathGlob.intersect p q) as [s|] eqn:E; [|done]. exists s. split; [|done].
    apply elem_of_collect_opt2. right. eauto.
Qed.

Lemma starts_with_prefix_refl p : starts_with_prefix p p = true.
Proof. unfold starts_with_prefix. by rewrite str_eqb_refl. Qed.

Lemma starts_with_prefix_trans p q s :
  starts_with_prefix p q = true -> starts_with_prefix q s = true -> starts_with_prefix p s = true.
Proof.
  unfold starts_with_prefix.
  destruct (str_eqb (mp_str p) (mp_str q)) eqn:E1; bools; [by rewrite E1|].
  destruct (str_eqb (mp_str q) (mp_str s)) eqn:E2; bools.
  { rewrite E2. by destruct (str_eqb _ _). }
  intros H1 H2. destruct (str_eqb (mp_str p) (mp_str s)); [done|].
  eapply starts_with_trans; [exact H2|].
  apply starts_with_true in H1 as [r ->]. destruct (ends_with "/" (mp_str q)); [apply starts_with_app|].
  rewrite <- app_assoc. apply starts_with_app.
Qed.

Definition scoped (path : MemoryPath) (scopes : list MemoryPath) : bool :=
  existsb (fun scope => starts_with_prefix path scope) scopes.

Lemma can_read_scoped m path : can_read m path = enabled m && scoped path (search_scopes m).
Proof. reflexivity. Qed.

Lemma can_write_scoped m path : can_write m path = enabled m && scoped path (write_scopes m).
Proof. reflexivity. Qed.

Lemma scoped_cover_sound path child parent :
  forallb (fun c => existsb (fun p => starts_with_prefix c p) parent) child = true ->
  scoped path child = true -> scoped path parent = true.
Proof.
  unfold scoped. rewrite forallb_elem, !existsb_elem. setoid_rewrite existsb_elem.
  intros H (c & Hc & Hp). destruct (H c Hc) as (q & Hq & Hcq). exists q. split; [done|].
  by eapply starts_with_prefix_trans.
Qed.

Lemma scopes_comparable path p q ps qs segs :
  canonical (mp_str path) segs -> canonical (mp_str p) ps -> canonical (mp_str q) qs ->
  starts_with_prefix path p = true -> starts_with_prefix path q = true ->
  starts_with_prefix p q = true \/ starts_with_prefix q p = true.
Proof.
  intros Hc Hp Hq. rewrite (starts_with_prefix_order path p segs ps), (starts_with_prefix_order path q segs qs),
    (starts_with_prefix_order p q ps qs), (starts_with_prefix_order q p qs ps) by done.
  intros H1 H2. destruct (prefix_weak_total ps qs segs H1 H2); tauto.
Qed.

Lemma elem_of_intersect_scopes a b s :
  s ∈ intersect_memory_scopes a b <->
  (s ∈ a /\ scoped s b = true) \/ (s ∈ b /\ scoped s a = true).
Proof.
  unfold intersect_memory_scopes, scoped. rewrite !elem_of_collect, elem_of_nil. tauto.
Qed.

Abbreviation all_canonical scopes := (Forall (fun s => exists segs, canonical (mp_str s) segs) scopes).

Lemma scoped_intersect path segs a b :
  canonical (mp_str path) segs -> all_canonical a -> all_canonical b ->
  scoped path (intersect_memory_scopes a b) = scoped path a && scoped path b.
Proof.
  rewrite !Forall_forall. intros Hc Ca Cb. apply Bool.eq_iff_eq_true. rewrite andb_true_iff.
  unfold scoped at 1. rewrite existsb_elem. setoid_rewrite elem_of_intersect_scopes.
  unfold scoped. setoid_rewrite existsb_elem. split.
  - intros (s & [[Hs (t & Ht & Hst)]|[Hs (t & Ht & Hst)]] & Hp); split;
      eauto using starts_with_prefix_trans.
  - intros [(s & Hs & Hps) (t & Ht & Hpt)].
    destruct (Ca s Hs) as [ss ?], (Cb t Ht) as [ts ?].
    destruct (scopes_comparable path s t ss ts segs) as [|]; [done..| |]; eauto 10.
Qed.

(** ** Skills and networks, list level *)

Lemma is_ok_check_skill t n :
  is_ok (check_skill t n) =
  ((length (skill_patterns t) =? 0)%nat || existsb (skill_pattern_allows ("skill:" ++ n)) (skill_patterns t)).
Proof. unfold check_skill. repeat break_match; done. Qed.

Lemma is_ok_check_network t h : is_ok (check_network t h) = existsb (network_perm_allows h) (network t).
Proof. unfold check_network. by break_match. Qed.

Lemma length_zero {A} (l : list A) : (length l =? 0)%nat = true <-> l = [].
Proof. rewrite Nat.eqb_eq. split; [apply nil_length_inv|by intros ->]. Qed.

Lemma elem_of_intersect_network a b perm :
  perm ∈ intersect_network_perms a b <->
  (perm ∈ a /\ existsb (fun q => network_perm_covered_by perm q) b = true) \/
  (perm ∈ b /\ existsb (fun q => network_perm_covered_by perm q) a = true).
Proof. unfold intersect_network_perms. rewrite !elem_of_collect, elem_of_nil. tauto. Qed.

Lemma network_intersect h a b :
  lit "net:*" ∉ a -> lit "net:*" ∉ b -> "*"%char ∉ h ->
  existsb (network_perm_allows h) (intersect_network_perms a b)
  = existsb (network_perm_allows h) a && existsb (network_perm_allows h) b.
Proof.
  intros Na Nb Hh. apply Bool.eq_iff_eq_true. rewrite andb_true_iff, !existsb_elem.
  setoid_rewrite elem_of_intersect_network. setoid_rewrite existsb_elem. split.
  - intros (s & [[Hs (t & Ht & Hc)]|[Hs (t & Ht & Hc)]] & Hp);
      (assert (network_perm_allows h t = true);
       [eapply network_cover_sound; [|exact Hc|exact Hp]; by intros ->|split; eauto]).
  - intros [(s & Hs & Hp) (t & Ht & Hq)].
    destruct (network_cover_comparable s t h Hh Hp Hq); eauto 10.
Qed.

Lemma existsb_deny l :
  existsb (fun p => str_eqb p DENY_ALL_SKILLS_PATTERN) l = true <-> DENY_ALL_SKILLS_PATTERN ∈ l.
Proof.
  rewrite existsb_elem. setoid_rewrite str_eqb_true. split; [by intros (? & ? & ->)|eauto].
Qed.

Definition narrower_skill (left right : str) : option str :=
  if skill_pattern_covers left right then Some right
  else if skill_pattern_covers right left then Some left else None.

Lemma narrower_skill_allows l r s n :
  glob_at_end l -> glob_at_end r -> narrower_skill l r = Some s ->
  skill_pattern_allows ("skill:" ++ n) s = true ->
  skill_pattern_allows ("skill:" ++ n) l = true /\ skill_pattern_allows ("skill:" ++ n) r = true.
Proof.
  unfold narrower_skill. intros Gl Gr E Hs.
  destruct (skill_pattern_covers l r) eqn:E1; [|destruct (skill_pattern_covers r l) eqn:E2; [|done]];
    injection E as ->; split; eauto using skill_cover_sound.
Qed.

(** The patterns computed by [intersect_skill_patterns] when neither list is empty and none
    denies everything. *)
Lemma elem_of_skill_pairs a b s :
  s ∈ fold_left (fun out left =>
        fold_left (fun out right =>
          match narrower_skill left right with Some p => push_unique out p | None => out end) b out) a []
  <-> exists l r, l ∈ a /\ r ∈ b /\ narrower_skill l r = Some s.
Proof. rewrite elem_of_collect_opt2, elem_of_nil. tauto. Qed.

Definition skills_allow (pats : list str) (n : str) : bool :=
  (length pats =? 0)%nat || existsb (skill_pattern_allows ("skill:" ++ n)) pats.

Lemma skills_intersect n a b :
  Forall glob_at_end a -> Forall glob_at_end b ->
  (DENY_ALL_SKILLS_PATTERN ∈ a -> a = [DENY_ALL_SKILLS_PATTERN]) ->
  (DENY_ALL_SKILLS_PATTERN ∈ b -> b = [DENY_ALL_SKILLS_PATTERN]) ->
  skills_allow (intersect_skill_patterns a b) n = skills_allow a n && skills_allow b n.
Proof.
  rewrite !Forall_forall. intros Ga Gb Da Db. unfold intersect_skill_patterns.
  destruct (length a =? 0)%nat eqn:Ea; [apply length_zero in Ea as ->; done|].
  destruct (length b =? 0)%nat eqn:Eb; [apply length_zero in Eb as ->; by rewrite andb_true_r|].
  destruct (_ || _) eqn:Ed.
  { apply orb_true_iff in Ed as [Ed%existsb_deny|Ed%existsb_deny];
      [rewrite (Da Ed)|rewrite (Db Ed), andb_comm]; done. }
  fold narrower_skill. set (out := fold_left _ a []).
  assert (Hout : forall s, s ∈ out <-> exists l r, l ∈ a /\ r ∈ b /\ narrower_skill l r = Some s)
    by apply elem_of_skill_pairs.
  unfold skills_allow at 2 3. rewrite Ea, Eb. cbn [orb]. clearbody out.
  assert (skills_allow (if (length out =? 0)%nat then [DENY_ALL_SKILLS_PATTERN] else out) n
    = existsb (skill_pattern_allows ("skill:" ++ n)) out) as ->.
  { unfold skills_allow. destruct (length out =? 0)%nat eqn:Eo; [apply length_zero in Eo as ->; done|].
    by rewrite Eo. }
  apply Bool.eq_iff_eq_true. rewrite andb_true_iff, !existsb_elem. setoid_rewrite Hout. split.
  - intros (s & (l & r & Hl & Hr & E) & Hs).
    destruct (narrower_skill_allows l r s n (Ga l Hl) (Gb r Hr) E Hs). split; eauto.
  - intros [(l & Hl & Al) (r & Hr & Ar)].
    assert (exists s, narrower_skill l r = Some s /\ skill_pattern_allows ("skill:" ++ n) s = true)
      as (s & Es & As).
    { unfold narrower_skill. destruct (skill_pattern_covers l r) eqn:E1; [eauto|].
      destruct (skill_cover_comparable l r n Al Ar) as [|E2]; [congruence|]. rewrite E2. eauto. }
    exists s. split; [|done]. eauto.
Qed.

Lemma skills_cover_sound n child parent :
  Forall glob_at_end parent ->
  negb ((length child =? 0)%nat && negb (length parent =? 0)%nat) = true ->
  forallb (fun c => str_eqb c DENY_ALL_SKILLS_PATTERN
    || existsb (fun p => skill_pattern_covers p c) parent) child = true ->
  skills_allow child n = true -> skills_allow parent n = true.
Proof.
  rewrite Forall_forall. intros Gp He Hc. unfold skills_allow. rewrite !orb_true_iff.
  intros [H|H].
  - rewrite H in He. destruct (length parent =? 0)%nat; [by left|done].
  - right. rewrite existsb_elem in *. destruct H as (c & Hin & Ha).
    rewrite forallb_elem in Hc. specialize (Hc c Hin). apply orb_true_iff in Hc as [Hd|Hx].
    + apply str_eqb_true in Hd as ->. by rewrite deny_allows_nothing in Ha.
    + apply existsb_elem in Hx as (p & Hp & Hcov). exists p. split; [done|].
      eapply skill_cover_sound; eauto.
Qed.

(** ** Attenuation *)

Lemma existsb_cover_network h child parent :
  lit "net:*" ∉ parent ->
  forallb (fun c => existsb (fun p => network_perm_covered_by c p) parent) child = true ->
  existsb (network_perm_allows h) child = true -> existsb (network_perm_allows h) parent = true.
Proof.
  rewrite forallb_elem, !existsb_elem. setoid_rewrite existsb_elem. intros Hn H (c & Hc & Ha).
  destruct (H c Hc) as (p & Hp & Hcov). exists p. split; [done|].
  eapply network_cover_sound; [|exact Hcov|exact Ha]. by intros ->.
Qed.

Lemma allowed_memory_cover (child parent : MemoryCapability) (path : MemoryPath) f :
  negb (enabled child && negb (enabled parent)) = true ->
  forallb (fun c => existsb (fun p => starts_with_prefix c p) (f parent)) (f child) = true ->
  enabled child && scoped path (f child) = true -> enabled parent && scoped path (f parent) = true.
Proof.
  rewrite !andb_true_iff. intros He Hs [Hen Hsc]. rewrite Hen in He. split.
  - by destruct (enabled parent).
  - by eapply scoped_cover_sound.
Qed.

(** The requests attenuation answers for any pair of tokens: all but hosts and skills. *)
Definition local_request (r : request) : bool :=
  match r with NetworkReq _ | SkillReq _ => false | _ => true end.

Lemma subset_allows_local (child parent : CapabilityToken) (r : request) :
  is_subset_of child parent = true -> local_request r = true ->
  allowed child r = true -> allowed parent r = true.
Proof.
  intros Hsub Hr. unfold is_subset_of in Hsub.
  repeat match type of Hsub with _ && _ = true => apply andb_true_iff in Hsub as [Hsub ?] end.
  destruct r as [| | |p|p|n|h|p|g]; cbn [allowed]; try discriminate.
  - unfold check_shell. destruct (shell child), (shell parent); done.
  - unfold check_javascript. destruct (javascript child), (javascript parent); done.
  - unfold check_python. destruct (python child), (python parent); done.
  - rewrite !is_ok_check_path_read. destruct (is_memory_path_str _).
    + destruct (memory_parse _) as [q|]; [|done]. by apply (allowed_memory_cover _ _ q search_scopes).
    + by apply path_matches_cover_sound.
  - rewrite !is_ok_check_path_write. destruct (is_memory_path_str _).
    + destruct (memory_parse _) as [q|]; [|done]. destruct (is_mnt q); [done|].
      by apply (allowed_memory_cover _ _ q write_scopes).
    + by apply path_matches_cover_sound.
  - rewrite !mem_true. match goal with H : forallb (fun s => mem s (spawn_placements parent)) _ = true |- _ =>
      rewrite forallb_elem in H; setoid_rewrite mem_true in H; apply H end.
  - rewrite !mem_true. match goal with H : forallb (fun s => mem s (mcp_tools parent)) _ = true |- _ =>
      rewrite forallb_elem in H; setoid_rewrite mem_true in H; apply H end.
Qed.

Lemma subset_allows (child parent : CapabilityToken) (r : request) :
  lit "net:*" ∉ network parent -> Forall glob_at_end (skill_patterns parent) ->
  is_subset_of child parent = true -> allowed child r = true -> allowed parent r = true.
Proof.
  intros Hnet Hglob Hsub. destruct (local_request r) eqn:Hr; [by apply subset_allows_local|].
  unfold is_subset_of in Hsub.
  repeat match type of Hsub with _ && _ = true => apply andb_true_iff in Hsub as [Hsub ?] end.
  destruct r as [| | |p|p|n|h|p|g]; try discriminate; cbn [allowed].
  - rewrite !is_ok_check_skill. by apply skills_cover_sound.
  - rewrite !is_ok_check_network. by apply existsb_cover_network.
Qed.

(** C2. Attenuation is sound.  If [child.is_subset_of(parent)] and the parent's network list does
    not contain the permission [net:*] and its skill patterns use [*] only at the end, then every
    request the child token is allowed (shell, JavaScript, Python, reading or writing a path,
    memory included, loading a skill, reaching a host, spawning a placement, holding an MCP grant)
    is also allowed by the parent token. *)
Theorem attenuation_sound (child parent : CapabilityToken) (r : request) :
  lit "net:*" ∉ network parent -> Forall glob_at_end (skill_patterns parent) ->
  is_subset_of child parent = true -> allowed child r = true -> allowed parent r = true.
Proof. apply subset_allows. Qed.

Definition empty_memory : MemoryCapability :=
  {| enabled := false; search_scopes := []; write_scopes := [] |}.

Definition sample_parent : CapabilityToken := {|
  network := [lit "net:*.github.com"]; mcp_tools := [lit "mcp:github:*"];
  shell := true; javascript := true; python := false;
  paths_write := [lit "/workspace/**"]; paths_read := [lit "/**"];
  spawn_placements := [lit "native"]; skill_patterns := [lit "skill:code-*"];
  memory := {| enabled := true; search_scopes := [MkMemoryPath "/var/memory/self"];
               write_scopes := [MkMemoryPath "/var/memory/self"] |} |}.

Definition sample_child : CapabilityToken := {|
  network := [lit "api.github.com"]; mcp_tools := [];
  shell := false; javascript := true; python := false;
  paths_write := [lit "/workspace/out/*"]; paths_read := [lit "/workspace/**"];
  spawn_placements := []; skill_patterns := [lit "skill:code-review"];
  memory := {| enabled := true; search_scopes := [MkMemoryPath "/var/memory/self/notes"];
               write_scopes := [] |} |}.

Lemma attenuation_sound_witness :
  is_subset_of sample_child sample_parent = true /\
  allowed sample_child (WriteReq "/workspace/./x/../out/a") = true /\
  allowed sample_parent (WriteReq "/workspace/./x/../out/a") = true.
Proof.
  split; [reflexivity|]. split; [reflexivity|].
  apply (attenuation_sound sample_child sample_parent); [| |reflexivity|reflexivity].
  - by vm_compute; inversion 1 as [|? ? ? H]; inversion H.
  - constructor; [|constructor]. apply contains_char_false. reflexivity.
Defined.

(** The side condition on the host: host names have no [*]. *)
Definition plain_request (r : request) : bool :=
  match r with NetworkReq h => negb (contains_char "*" h) | _ => true end.

Lemma mem_filter {A} `{EqDecision A} (x : A) l k :
  mem x (List.filter (fun y => mem y k) l) = mem x l && mem x k.
Proof.
  apply Bool.eq_iff_eq_true. rewrite andb_true_iff, !mem_true, !list_elem_of_In, filter_In.
  by rewrite mem_true, list_elem_of_In.
Qed.

Lemma intersect_allows (a b : CapabilityToken) (r : request) :
  well_formed a -> well_formed b -> plain_request r = true ->
  allowed (intersect a b) r = allowed a r && allowed b r.
Proof.
  intros Wa Wb Hr. destruct Wa, Wb. destruct r as [| | |p|p|n|h|p|g]; cbn [allowed].
  - unfold check_shell. cbn. by destruct (shell a), (shell b).
  - unfold check_javascript. cbn. by destruct (javascript a), (javascript b).
  - unfold check_python. cbn. by destruct (python a), (python b).
  - rewrite !is_ok_check_path_read. destruct (is_memory_path_str _).
    + destruct (memory_parse _) as [q|] eqn:E; [|done]. apply memory_parse_sound in E as [segs Hq].
      rewrite !can_read_scoped. cbn [intersect memory enabled search_scopes]. rewrite (scoped_intersect q segs) by done.
      by destruct (enabled (memory a)), (enabled (memory b)), (scoped q _), (scoped q _).
    + by apply path_matches_intersect.
  - rewrite !is_ok_check_path_write. destruct (is_memory_path_str _).
    + destruct (memory_parse _) as [q|] eqn:E; [|done]. apply memory_parse_sound in E as [segs Hq].
      rewrite !can_write_scoped. cbn [intersect memory enabled write_scopes]. rewrite (scoped_intersect q segs) by done.
      by destruct (is_mnt q), (enabled (memory a)), (enabled (memory b)), (scoped q _), (scoped q _).
    + by apply path_matches_intersect.
  - rewrite !is_ok_check_skill. by apply skills_intersect.
  - rewrite !is_ok_check_network. apply network_intersect; [done..|].
    apply contains_char_false. by apply negb_true_iff.
  - apply mem_filter.
  - apply mem_filter.
Qed.

(** [CapabilityToken::intersect] is exact on well-formed tokens: the intersection of two tokens
    allows a request exactly when both tokens allow it. *)
Theorem intersect_authority (a b : CapabilityToken) (r : request) :
  well_formed a -> well_formed b -> plain_request r = true ->
  allowed (intersect a b) r = allowed a r && allowed b r.
Proof. apply intersect_allows. Qed.

Definition sample_request : request := ReadReq "/workspace/src/../a".

Lemma sample_well_formed : well_formed sample_child /\ well_formed sample_parent.
Proof.
  assert (G : forall w, contains_char "*" (removelast w) = false -> glob_at_end w)
    by (intros w; apply contains_char_false).
  assert (C : forall w, is_ok (memory_parse (mp_str w)) = true -> memory_parse (mp_str w) = Ok w ->
    exists segs, canonical (mp_str w) segs).
  { intros w _ E. by apply memory_parse_sound in E. }
  split; constructor; cbn;
    repeat match goal with
    | |- Forall _ _ => constructor
    | |- glob_at_end _ => by apply G
    | |- exists segs, canonical _ segs => by apply C
    end; try done; by rewrite ?list_elem_of_singleton.
Qed.

Lemma intersect_authority_witness :
  allowed (intersect sample_child sample_parent) sample_request = true /\
  allowed (intersect sample_child sample_parent) sample_request
  = allowed sample_child sample_request && allowed sample_parent sample_request.
Proof.
  split; [reflexivity|].
  apply intersect_authority; [apply sample_well_formed|apply sample_well_formed|reflexivity].
Defined.

Lemma elem_of_intersect_paths a b s :
  s ∈ intersect_path_patterns a b <-> exists p q, p ∈ a /\ q ∈ b /\ PathGlob.intersect p q = Some s.
Proof. unfold intersect_path_patterns. rewrite elem_of_collect_opt2, elem_of_nil. tauto. Qed.

Lemma supported_intersect_paths a b :
  Forall (fun p => is_supported p = true) a -> Forall (fun p => is_supported p = true) b ->
  Forall (fun p => is_supported p = true) (intersect_path_patterns a b).
Proof.
  rewrite !Forall_forall. intros Sa Sb s (p & q & Hp & Hq & E)%elem_of_intersect_paths.
  eapply (intersect_supported p q); [by apply Sa|by apply Sb|done].
Qed.

Lemma glob_at_end_deny : glob_at_end DENY_ALL_SKILLS_PATTERN.
Proof. apply contains_char_false. reflexivity. Qed.

Lemma elem_of_intersect_skills a b s :
  s ∈ intersect_skill_patterns a b ->
  s = DENY_ALL_SKILLS_PATTERN \/ s ∈ a \/ s ∈ b.
Proof.
  unfold intersect_skill_patterns.
  destruct (length a =? 0)%nat; [tauto|]. destruct (length b =? 0)%nat; [tauto|].
  destruct (_ || _); [intros ->%list_elem_of_singleton; by left|].
  fold narrower_skill. destruct (length _ =? 0)%nat; [intros ->%list_elem_of_singleton; by left|].
  intros (l & r & Hl & Hr & E)%elem_of_skill_pairs. unfold narrower_skill in E.
  repeat case_match; simplify_eq; tauto.
Qed.

Lemma intersect_skills_deny a b :
  (DENY_ALL_SKILLS_PATTERN ∈ a -> a = [DENY_ALL_SKILLS_PATTERN]) ->
  (DENY_ALL_SKILLS_PATTERN ∈ b -> b = [DENY_ALL_SKILLS_PATTERN]) ->
  DENY_ALL_SKILLS_PATTERN ∈ intersect_skill_patterns a b ->
  intersect_skill_patterns a b = [DENY_ALL_SKILLS_PATTERN].
Proof.
  intros Da Db. unfold intersect_skill_patterns.
  destruct (length a =? 0)%nat; [done|]. destruct (length b =? 0)%nat; [done|].
  destruct (_ || _) eqn:Ed; [done|].
  fold narrower_skill. destruct (length _ =? 0)%nat; [done|].
  intros (l & r & Hl & Hr & E)%elem_of_skill_pairs. exfalso.
  apply orb_false_iff in Ed as [E1 E2]. rewrite <- not_true_iff_false, existsb_deny in E1, E2.
  unfold narrower_skill in E. repeat case_match; simplify_eq; tauto.
Qed.

(** The well-formedness of tokens is an invariant of [intersect]: intersecting two well-formed
    tokens gives a well-formed token, so exactness carries through chains of intersections. *)
Lemma intersect_well_formed (a b : CapabilityToken) :
  well_formed a -> well_formed b -> well_formed (intersect a b).
Proof.
  intros Wa Wb. destruct Wa, Wb. rewrite ?Forall_forall in *. constructor; cbn; rewrite ?Forall_forall.
  - rewrite elem_of_intersect_network. tauto.
  - intros s [->|[|]]%elem_of_intersect_skills; auto using glob_at_end_deny.
  - by apply intersect_skills_deny.
  - apply Forall_forall, supported_intersect_paths; by apply Forall_forall.
  - apply Forall_forall, supported_intersect_paths; by apply Forall_forall.
  - intros s [[? _]|[? _]]%elem_of_intersect_scopes; auto.
  - intros s [[? _]|[? _]]%elem_of_intersect_scopes; auto.
Qed.

(** The condition on [net:*] in the soundness of attenuation is needed: [is_subset_of] reads the
    parent permission [net:*] as "every host" and accepts the child permission [*], but
    [check_network] reads [net:*] as one literal host, so the accepted child reaches hosts its
    parent is refused. *)
Theorem attenuation_net_star_widens :
  exists child parent host,
    is_subset_of child parent = true /\
    check_network child host = Ok tt /\
    check_network parent host = Err {| operation := "network:evil.example.com";
      reason := "no network permission for evil.example.com" |}.
Proof.
  exists {| network := [lit "*"]; mcp_tools := []; shell := false; javascript := false; python := false;
            paths_write := []; paths_read := []; spawn_placements := []; skill_patterns := [];
            memory := empty_memory |},
         {| network := [lit "net:*"]; mcp_tools := []; shell := false; javascript := false;
            python := false; paths_write := []; paths_read := []; spawn_placements := [];
            skill_patterns := []; memory := empty_memory |}, "evil.example.com".
  split_and!; reflexivity.
Qed.

(** Restricting the skills of an unrestricted parent is refused: when the parent allows every
    skill (an empty pattern list), [is_subset_of] rejects each child that names a skill pattern other
    than the deny-all one, although every such child is allowed no more than the parent. *)
Theorem subset_rejects_restricted_skills (child parent : CapabilityToken) (p : str) :
  skill_patterns parent = [] -> p ∈ skill_patterns child -> p <> DENY_ALL_SKILLS_PATTERN ->
  is_subset_of child parent = false /\ (forall n, check_skill parent n = Ok tt).
Proof.
  intros Hp Hin Hne. split; [|intros n; unfold check_skill; by rewrite Hp].
  apply not_true_is_false. unfold is_subset_of. rewrite Hp. intros H.
  repeat match type of H with _ && _ = true => apply andb_true_iff in H as [H ?] end.
  match goal with H : forallb (fun c => _ || _) _ = true |- _ =>
    rewrite forallb_elem in H; specialize (H p Hin); rewrite orb_false_r in H;
    by apply str_eqb_true in H end.
Qed.

Lemma subset_rejects_restricted_skills_witness :
  let unrestricted := {| network := []; mcp_tools := []; shell := false; javascript := true;
     python := false; paths_write := []; paths_read := []; spawn_placements := [];
     skill_patterns := []; memory := empty_memory |} in
  let narrowed := {| network := []; mcp_tools := []; shell := false; javascript := true;
     python := false; paths_write := []; paths_read := []; spawn_placements := [];
     skill_patterns := [lit "skill:review"]; memory := empty_memory |} in
  is_subset_of narrowed unrestricted = false /\ (forall n, check_skill unrestricted n = Ok tt).
Proof.
  intros unrestricted narrowed.
  apply (subset_rejects_restricted_skills narrowed unrestricted (lit "skill:review"));
    [reflexivity|left|discriminate].
Defined.

(** ** Path normalisation *)

Lemma normalize_path_plain comps :
  Forall plain_segment comps ->
  normalize_path ("/" ++ join "/" comps) = "/" ++ join "/" comps /\
  normalize_path (join "/" comps) = join "/" comps.
Proof.
  intros H. unfold normalize_path. split.
  - rewrite starts_with_app.
    change ("/" ++ join "/" comps) with ([] ++ "/"%char :: join "/" comps) at 1.
    rewrite split_on_app_sep. cbn [split_on fold_left app].
    change (normalize_segment [] []) with (@nil str). by rewrite split_join_plain.
  - rewrite split_join_plain by done.
    destruct (starts_with "/" (join "/" comps)) eqn:E; [exfalso|done].
    apply starts_with_true in E as [r E]. destruct comps as [|w ws]; [done|].
    inversion H as [|? ? (H1 & _ & _ & H4) _]; subst. destruct w as [|c w]; [done|].
    assert (c = "/"%char) as -> by (destruct ws; by injection E).
    destruct H4. left.
Qed.

(** [normalize_path] removes every traversal: its result is the input's leading [/], if any,
    followed by components that are neither empty nor [.] nor [..], and normalising again changes
    nothing.  The pattern and memory checks therefore see a path without traversal. *)
Lemma normalize_path_no_traversal (path : str) :
  exists comps, Forall plain_segment comps /\
    normalize_path path = (if starts_with "/" path then lit "/" else lit "") ++ join "/" comps /\
    normalize_path (normalize_path path) = normalize_path path.
Proof.
  assert (H : Forall plain_segment (fold_left normalize_segment (split_on "/" path) [])).
  { apply normalize_fold_plain; [|done]. apply Forall_forall. intros w. apply split_on_no_sep. }
  exists (fold_left normalize_segment (split_on "/" path) []). split; [done|].
  destruct (normalize_path_plain _ H) as [H1 H2].
  unfold normalize_path at 1 3 4. by destruct (starts_with "/" path).
Qed.

(** Memory paths are gated by the memory capability alone.  When the normalised path is under
    [/var/memory] or [/mnt], reading it is allowed exactly when it parses and [can_read] covers it,
    and writing it exactly when it parses, is not under [/mnt] and [can_write] covers it; the
    [paths_read] and [paths_write] globs play no part. *)
Theorem memory_paths_gated (t : CapabilityToken) (path : str) :
  is_memory_path_str (normalize_path path) = true ->
  (check_path_read t path = Ok tt <->
   exists q, memory_parse (normalize_path path) = Ok q /\ can_read (memory t) q = true) /\
  (check_path_write t path = Ok tt <->
   exists q, memory_parse (normalize_path path) = Ok q /\ is_mnt q = false /\
     can_write (memory t) q = true).
Proof.
  intros Hm. unfold check_path_read, check_path_write, check_memory_path_read,
    check_memory_path_write, map_err. rewrite Hm.
  destruct (memory_parse (normalize_path path)) as [q|e];
    [|split; (split; [done|intros (? & ? & _); done])].
  destruct (can_read (memory t) q) eqn:Er, (can_write (memory t) q) eqn:Ew, (is_mnt q) eqn:E;
    split; (split; [first [done|by exists q]|intros (q' & [= <-] & ?); destruct_and?; congruence]).
Qed.

Lemma memory_paths_gated_witness :
  is_memory_path_str (normalize_path "/workspace/../mnt/a") = true /\
  (check_path_read sample_parent "/workspace/../mnt/a" = Ok tt <->
   exists q, memory_parse (normalize_path "/workspace/../mnt/a") = Ok q /\
     can_read (memory sample_parent) q = true) /\
  (check_path_write sample_parent "/workspace/../mnt/a" = Ok tt <->
   exists q, memory_parse (normalize_path "/workspace/../mnt/a") = Ok q /\ is_mnt q = false /\
     can_write (memory sample_parent) q = true).
Proof. split; [reflexivity|]. apply memory_paths_gated. reflexivity. Defined.
