(* ===== verification/Vfs.v ===== *)
(** * The virtual filesystem interface

    Models [crates/simulacra-types/src/vfs.rs] and [vfs_ops.rs] (errors, metadata, preconditions,
    mutations, the [VirtualFs] trait) and [crates/simulacra-vfs/src/atomic_paths.rs] (the paths a
    call touches, which every gating decorator reads).

    [VirtualFs] is a class of operations over a state; [VirtualFsLaws] states what a filesystem
    promises to the decorators layered on it: reads agree with an observed tree, a call that fails
    changes nothing (save that one of unknown outcome may have taken effect), and a call that takes
    effect makes what it asks for and changes only what its touched paths account for.
    Watchers ([subscribe]) are a tokio broadcast channel and are not modelled. *)

From S2P Require Import Prelude.
From S2P Require Import Segments.

(** ** Data *)

Variant VfsError :=
| NotFound (path : str)
| AlreadyExists (path : str)
| NotADirectory (path : str)
| NotAFile (path : str)
| Io (msg : str)
| PermissionDenied (msg : str)
| HookDenied (reason : str)
| HookKilled (reason : str)
| HookContractViolation
| Unsupported (msg : str)
| Conflict (msg : str)
| QuotaExceeded (msg : str)
| DeadlineExceeded (msg : str)
| OutcomeUnknown (msg : str)
| FilesystemRestored (msg : str).

(** [VfsError]'s messages. *)
Definition vfs_error_to_string (e : VfsError) : str :=
  match e with
  | NotFound p => "not found: " ++ p
  | AlreadyExists p => "already exists: " ++ p
  | NotADirectory p => "not a directory: " ++ p
  | NotAFile p => "not a file: " ++ p
  | Io m => "io error: " ++ m
  | PermissionDenied m => "permission denied: " ++ m
  | HookDenied r => "hook denied: " ++ r
  | HookKilled r => "hook killed: " ++ r
  | HookContractViolation => "hook contract violation"
  | Unsupported m => "unsupported: " ++ m
  | Conflict m => "conflict: " ++ m
  | QuotaExceeded m => "quota exceeded: " ++ m
  | DeadlineExceeded m => "deadline exceeded: " ++ m
  | OutcomeUnknown m => "outcome unknown: " ++ m
  | FilesystemRestored m => "filesystem restored: " ++ m
  end.

Record FsMetadata := {
  is_file : bool;
  is_dir : bool;
  size : N;
  revision : option N;
  media_type : option str;
}.

Definition FsMetadata_file (size : N) : FsMetadata :=
  {| is_file := true; is_dir := false; size := size; revision := None; media_type := None |}.
Definition FsMetadata_dir : FsMetadata :=
  {| is_file := false; is_dir := true; size := 0; revision := None; media_type := None |}.
Definition with_revision (m : FsMetadata) (r : N) : FsMetadata :=
  {| is_file := is_file m; is_dir := is_dir m; size := size m; revision := Some r;
     media_type := media_type m |}.

Record DirListing := { entries : list str; truncated : bool }.
Definition DirListing_complete (names : list str) : DirListing :=
  {| entries := names; truncated := false |}.

Variant Precondition := Unconditional | MustBeAbsent | MustMatch (revision : N).

Variant FsMutation :=
| Write (path : str) (data : bytes) (precondition : Precondition)
| Mkdir (path : str)
| Remove (path : str) (precondition : Precondition)
| Rename (from to : str) (precondition : Precondition).

(** [FsMutation::paths]. *)
Definition mutation_paths (m : FsMutation) : list str :=
  match m with
  | Write path _ _ | Mkdir path | Remove path _ => [path]
  | Rename from to _ => [from; to]
  end.

(** ** The trait *)

Class VirtualFs (St : Type) := {
  vfs_read : St -> str -> result bytes VfsError;
  vfs_write : St -> str -> bytes -> St * result unit VfsError;
  vfs_exists : St -> str -> bool;
  vfs_list_dir : St -> str -> result (list str) VfsError;
  vfs_mkdir : St -> str -> St * result unit VfsError;
  vfs_remove : St -> str -> St * result unit VfsError;
  vfs_metadata : St -> str -> result FsMetadata VfsError;
  vfs_snapshot : St -> result bytes VfsError;
  vfs_restore : St -> bytes -> St * result unit VfsError;
  vfs_write_if : St -> str -> bytes -> Precondition -> St * result unit VfsError;
  vfs_rename : St -> str -> str -> St * result unit VfsError;
  vfs_apply_batch : St -> list FsMutation -> St * result unit VfsError;
  vfs_list_dir_bounded : St -> str -> result DirListing VfsError;
}.

(** The default methods of the trait. *)
Definition default_write_if {St : Type} (s : St) (path : str) (data : bytes) (p : Precondition)
    : St * result unit VfsError := (s, Err (Unsupported ("write_if " ++ path))).
Definition default_rename {St : Type} (s : St) (from to : str) : St * result unit VfsError :=
  (s, Err (Unsupported ("rename " ++ from ++ " -> " ++ to))).
Definition default_apply_batch {St : Type} (s : St) (ms : list FsMutation) : St * result unit VfsError :=
  (s, Err (Unsupported "apply_batch")).
Definition default_list_dir_bounded (listing : result (list str) VfsError)
    : result DirListing VfsError :=
  let? names := listing in Ok (DirListing_complete names).

(** The filter of a watcher's events. *)
Definition path_matches_prefix (path prefix : str) : bool :=
  if str_eqb prefix [] || str_eqb prefix "/" then true
  else
    let prefix := unwrap_or (strip_suffix "/" prefix) prefix in
    if str_eqb prefix [] then true
    else if str_eqb path prefix then true
    else match strip_prefix prefix path with
    | Some rest => starts_with "/" rest
    | None => false
    end.

(** ** Touched paths ([atomic_paths.rs]) *)

Record Touch := { touch_path : str; takes_subtree : bool }.

Definition touch (path : str) (takes : bool) : Touch :=
  {| touch_path := normalize path; takes_subtree := takes |}.

Definition written (path : str) : list Touch := [touch path false].
Definition removed (path : str) : list Touch := [touch path true].
Definition renamed (from to : str) : list Touch := [touch from true; touch to false].

Definition mutation_touches (m : FsMutation) : list Touch :=
  imap (fun index path =>
    touch path (match m with
                | Remove _ _ => true
                | Rename _ _ _ => (index =? 0)%nat
                | Write _ _ _ | Mkdir _ => false
                end)) (mutation_paths m).

Definition batched (ms : list FsMutation) : list Touch := flat_map mutation_touches ms.

Definition is_ancestor (path prefix : str) : bool :=
  let path := normalize path in
  let prefix := normalize prefix in
  str_eqb path "/" || (negb (str_eqb prefix path) && starts_with (path ++ "/") prefix).

Definition is_root (path : str) : bool := str_eqb (normalize path) "/".

Definition normalize_mutation (m : FsMutation) : FsMutation :=
  match m with
  | Write path data p => Write (normalize path) data p
  | Mkdir path => Mkdir (normalize path)
  | Remove path p => Remove (normalize path) p
  | Rename from to p => Rename (normalize from) (normalize to) p
  end.

Definition normalize_mutations (ms : list FsMutation) : list FsMutation := map normalize_mutation ms.

(** ** Calls that change a filesystem *)

Variant call :=
| CWrite (path : str) (data : bytes)
| CMkdir (path : str)
| CRemove (path : str)
| CWriteIf (path : str) (data : bytes) (p : Precondition)
| CRename (from to : str)
| CBatch (ms : list FsMutation).

Definition run `{VirtualFs St} (s : St) (c : call) : St * result unit VfsError :=
  match c with
  | CWrite p d => vfs_write s p d
  | CMkdir p => vfs_mkdir s p
  | CRemove p => vfs_remove s p
  | CWriteIf p d pre => vfs_write_if s p d pre
  | CRename a b => vfs_rename s a b
  | CBatch ms => vfs_apply_batch s ms
  end.

Definition touches (c : call) : list Touch :=
  match c with
  | CWrite p _ | CMkdir p | CWriteIf p _ _ => written p
  | CRemove p => removed p
  | CRename a b => renamed a b
  | CBatch ms => batched ms
  end.

(** What is stored at a path. *)
Variant node := FileNode (data : bytes) | DirNode.

(** The entries a successful call on touch [t] may change, in a filesystem where [at_] lists the
    entries before the call: the path itself, what is below it when the call takes the subtree or
    moves one there, and the missing ancestors it creates. *)
Definition disturbs (at_ : list str -> option node) (t : Touch) (q : list str) : Prop :=
  let p := segs_of (touch_path t) in
  q = p \/
  (p `prefix_of` q /\ (takes_subtree t = true \/ at_ p = None)) \/
  (q `prefix_of` p /\ at_ q = None).

(** What a call that took effect makes of the tree, a batch of one included: the bytes are at the
    path, the directory is there, nothing is left at or below what was removed, a moved subtree is at
    its new place alone.  The conditions on the tree before are those the trait documents: a write
    that must create finds nothing there, a rename finds something to move and its target free. *)
Definition made (c : call) (before after : list str -> option node) : Prop :=
  match c with
  | CWrite p d => after (segs_of p) = Some (FileNode d)
  | CWriteIf p d pre | CBatch [Write p d pre] =>
      after (segs_of p) = Some (FileNode d) /\ (pre = MustBeAbsent -> before (segs_of p) = None)
  | CMkdir p | CBatch [Mkdir p] => after (segs_of p) = Some DirNode
  | CRemove p | CBatch [Remove p _] =>
      forall q, Forall plain_segment q -> after (segs_of p ++ q) = None
  | CRename a b | CBatch [Rename a b _] =>
      before (segs_of a) <> None /\ before (segs_of b) = None /\
      forall q, Forall plain_segment q ->
        after (segs_of b ++ q) = before (segs_of a ++ q) /\ after (segs_of a ++ q) = None
  | CBatch _ => True
  end.

(** What a filesystem promises.  [lands s c s']: the call took effect.  A call that answers [Ok] took
    effect; one that fails left everything as it was, except that after [OutcomeUnknown] it may have
    taken effect all the same (a commit that lands after its caller has been answered is, to this
    state, a later call).  What took effect keeps the invariant, made what the call asks for, and
    left alone what its touches do not account for; a batch took effect item by item. *)
Class VirtualFsLaws (St : Type) `{VirtualFs St} := {
  fs_inv : St -> Prop;
  fs_at : St -> list str -> option node;
  lands : St -> call -> St -> Prop;
  law_ok : forall s c s', fs_inv s -> run s c = (s', Ok tt) -> lands s c s';
  law_error : forall s c s' e, fs_inv s -> run s c = (s', Err e) ->
    s' = s \/ ((exists m, e = OutcomeUnknown m) /\ lands s c s');
  law_inv : forall s c s', fs_inv s -> lands s c s' -> fs_inv s';
  law_root : forall s, fs_inv s -> fs_at s [] = Some DirNode;
  law_read : forall s p, fs_inv s ->
    vfs_read s p = match fs_at s (segs_of p) with
                   | Some (FileNode d) => Ok d
                   | Some DirNode => Err (NotAFile (normalize p))
                   | None => Err (NotFound (normalize p))
                   end;
  law_closed : forall s p q, fs_inv s -> Forall plain_segment q -> p `prefix_of` q -> fs_at s q <> None -> fs_at s p <> None;
  law_made : forall s c s', fs_inv s -> lands s c s' -> made c (fs_at s) (fs_at s');
  law_frame : forall s c s' q, fs_inv s -> Forall plain_segment q -> lands s c s' ->
    (forall ms, c = CBatch ms -> exists m, ms = [m]) ->
    (forall t, t ∈ touches c -> ~ disturbs (fs_at s) t q) -> fs_at s' q = fs_at s q;
  law_batch : forall s ms s', fs_inv s -> lands s (CBatch ms) s' ->
    match ms with
    | [] => s' = s
    | [_] => True
    | m :: rest => exists s1, lands s (CBatch [m]) s1 /\ lands s1 (CBatch rest) s'
    end;
}.

(** ** What a call leaves alone, for any filesystem with the laws *)

Lemma segs_of_touch p b : segs_of (touch_path (touch p b)) = segs_of p.
Proof. apply segs_of_normalize. Qed.

Lemma mutation_touches_eq m :
  mutation_touches m =
  match m with
  | Write p _ _ | Mkdir p => [touch p false]
  | Remove p _ => [touch p true]
  | Rename from to _ => [touch from true; touch to false]
  end.
Proof. by destruct m. Qed.

Lemma touch_normalize p b : touch (normalize p) b = touch p b.
Proof. unfold touch. by rewrite normalize_idem. Qed.

Lemma mutation_touches_normalize m : mutation_touches (normalize_mutation m) = mutation_touches m.
Proof. rewrite !mutation_touches_eq. destruct m; cbn [normalize_mutation]; by rewrite ?touch_normalize. Qed.

Lemma batched_normalize ms : batched (normalize_mutations ms) = batched ms.
Proof.
  induction ms as [|m ms IH]; [done|].
  change (batched (m :: ms)) with (mutation_touches m ++ batched ms).
  change (batched (normalize_mutations (m :: ms))) with
    (mutation_touches (normalize_mutation m) ++ batched (normalize_mutations ms)).
  by rewrite IH, mutation_touches_normalize.
Qed.

(** A call with its paths normalised. *)
Definition normalized (c : call) : call :=
  match c with
  | CWrite p d => CWrite (normalize p) d
  | CMkdir p => CMkdir (normalize p)
  | CRemove p => CRemove (normalize p)
  | CWriteIf p d pre => CWriteIf (normalize p) d pre
  | CRename a b => CRename (normalize a) (normalize b)
  | CBatch ms => CBatch (normalize_mutations ms)
  end.

Lemma touches_normalized c : touches (normalized c) = touches c.
Proof.
  destruct c; cbn [normalized touches]; unfold written, removed, renamed; rewrite ?touch_normalize; try done.
  apply batched_normalize.
Qed.

Lemma normalized_idem c : normalized (normalized c) = normalized c.
Proof.
  destruct c; cbn [normalized]; rewrite ?normalize_idem; try done. f_equal. unfold normalize_mutations. rewrite map_map.
  apply map_ext. by intros []; cbn [normalize_mutation]; rewrite ?normalize_idem.
Qed.

Lemma made_normalized c at_ at_' : made (normalized c) at_ at_' <-> made c at_ at_'.
Proof.
  destruct c as [p d|p|p|p d pre|a b|[|m [|m' ms]]]; try destruct m; cbn [normalized normalize_mutations List.map normalize_mutation made];
    by rewrite ?segs_of_normalize.
Qed.

(** Two states in which everything reads the same. *)
Definition reads_same `{VirtualFs St} (s s' : St) : Prop := forall path,
  vfs_read s path = vfs_read s' path /\ vfs_exists s path = vfs_exists s' path /\
  vfs_list_dir s path = vfs_list_dir s' path /\ vfs_metadata s path = vfs_metadata s' path.
#[export] Instance reads_same_equivalence `{VirtualFs St} : Equivalence (reads_same (St := St)).
Proof.
  split.
  - by intros s path.
  - intros s t E path. by destruct (E path) as (-> & -> & -> & ->).
  - intros s t u E F path. destruct (E path) as (-> & -> & -> & ->). apply F.
Qed.

(** [is_ancestor]: the root is one of everything, itself included; otherwise properly above. *)
Lemma is_ancestor_spec p q :
  is_ancestor p q = true <->
  segs_of p `prefix_of` segs_of q /\ (segs_of p = [] \/ segs_of p <> segs_of q).
Proof.
  unfold is_ancestor. rewrite orb_true_iff, normalize_is_root, andb_true_iff, negb_true_iff.
  pose proof (segs_of_plain p) as Hp. pose proof (segs_of_plain q) as Hq. rewrite !normalize_str.
  destruct (decide (segs_of p = [])) as [->|Hne].
  { split; [|by left]. intros _. split; [apply prefix_nil|by left]. }
  rewrite <- (path_within (segs_of p) (segs_of q)) by done.
  rewrite <- not_true_iff_false, str_eqb_true. split.
  - intros [|[Hn H]]; [done|]. split; [by right|right]. intros E. apply Hn. by rewrite E.
  - intros [[E|H] [|Hn]]; try done.
    + apply path_str_inj in E; [|done..]. by destruct Hn.
    + right. split; [|done]. intros E. apply path_str_inj in E; [|done..]. by destruct Hn.
Qed.

(** The filter is the segment order: a normalised path passes the filter of a normalised prefix
    exactly when the prefix's segments are a prefix of its own. *)
Lemma path_matches_prefix_spec p q :
  Forall plain_segment p -> Forall plain_segment q ->
  path_matches_prefix (path_str p) (path_str q) = true <-> q `prefix_of` p.
Proof.
  intros Hp Hq. unfold path_matches_prefix. destruct (decide (q = [])) as [->|Hne].
  { split; [intros _; apply prefix_nil|done]. }
  destruct (path_str_last q Hq Hne) as (d & c & Eq & Hc).
  assert (strip_suffix "/" (path_str q) = None) as ->.
  { apply strip_suffix_None. intros r Er. rewrite Eq in Er. by apply app_inj_tail in Er as [_ ->]. }
  cbn [unwrap_or]. rewrite <- (path_within q p) by done.
  destruct (_ || _) eqn:E1.
  { apply orb_true_iff in E1 as [E1|E1]; apply str_eqb_true in E1; [by destruct q|].
    by apply path_str_root in E1. }
  destruct (str_eqb (path_str q) []) eqn:E2; [apply str_eqb_true in E2; by destruct q|].
  destruct (str_eqb (path_str p) (path_str q)) eqn:E3; bools; [by split; [left|]|].
  unfold starts_with at 2. destruct (strip_prefix (path_str q) (path_str p)) as [r|] eqn:E4.
  - apply strip_prefix_Some in E4. rewrite starts_with_true. split.
    + intros [r' ->]. right. rewrite E4, app_assoc. by rewrite strip_prefix_app.
    + intros [E|Hs]; [done|]. destruct (strip_prefix _ _) as [r'|] eqn:E5; [|done].
      apply strip_prefix_Some in E5. exists r'. rewrite E5, <- app_assoc in E4. by apply app_inv_head in E4.
  - split; [done|]. intros [E|Hs]; [done|].
    destruct (strip_prefix (path_str q ++ "/") _) as [r'|] eqn:E5; [|done].
    apply strip_prefix_Some in E5. rewrite <- app_assoc in E5. apply strip_prefix_Some in E5. congruence.
Qed.

(** A prefix of two slashes matches nothing a normalised path can be. *)
Lemma double_slash_matches_nothing p :
  Forall plain_segment p -> p <> [] -> path_matches_prefix (path_str p) "//" = false.
Proof.
  intros Hp Hne. destruct p as [|[|c w] ws]; [done|inversion Hp as [|? ? (Hn & _)]; done|].
  inversion Hp as [|? ? (_ & _ & _ & Hs)]; subst. apply not_elem_of_cons in Hs as [Hc _].
  unfold path_matches_prefix. change (path_str ((c :: w) :: ws)) with ("/"%char :: c :: w ++ path_of ws).
  change (str_eqb "//" [] || str_eqb "//" "/") with false.
  change (unwrap_or (strip_suffix "/" "//") "//") with (lit "/").
  change (str_eqb "/" []) with false. cbv iota.
  destruct (str_eqb _ "/") eqn:E; [apply str_eqb_true in E; discriminate E|].
  change (strip_prefix "/" ("/"%char :: ?x)) with (Some x). cbv iota.
  unfold starts_with. change (lit "/") with ["/"%char]. cbn [strip_prefix].
  by destruct (Ascii.eqb_spec "/" c).
Qed.

Lemma touches_are c t : t ∈ touches c -> exists p b, t = touch p b.
Proof.
  assert (Hm : forall m, t ∈ mutation_touches m -> exists p b, t = touch p b).
  { intros m. rewrite mutation_touches_eq.
    destruct m; rewrite !elem_of_cons, ?elem_of_nil; intros H; destruct_or?; subst; eauto; done. }
  destruct c as [p d|p|p|p d pre|a b|ms]; cbn [touches]; unfold written, removed, renamed;
    rewrite ?list_elem_of_singleton; try (intros ->; eauto; fail).
  - rewrite !elem_of_cons, elem_of_nil. intros H; destruct_or?; subst; eauto; done.
  - unfold batched. intros (m & Hin & Ht)%list_elem_of_In%in_flat_map. by apply (Hm m), list_elem_of_In.
Qed.

Section Frame.
Context `{VirtualFsLaws St}.

(** A call keeps a set of paths [Q] closed under "below" when none of its touches reaches it: no
    touch is in [Q], and a touch above [Q] neither takes its subtree nor is missing. *)
Definition spares (s : St) (Q : list str -> Prop) (t : Touch) : Prop :=
  forall q, Q q -> ~ disturbs (fs_at s) t q.

(** Any answer: nothing happened, or the call took effect. *)
Lemma run_lands s c s' r : fs_inv s -> run s c = (s', r) -> s' = s \/ lands s c s'.
Proof.
  intros Hi E. destruct r as [[]|e]; [right; by apply law_ok|].
  apply law_error in E as [->|[_ Hl]]; [by left|by right|done].
Qed.

Lemma run_keeps_inv s c s' r : fs_inv s -> run s c = (s', r) -> fs_inv s'.
Proof. intros Hi [->|Hl]%run_lands; [done|by apply law_inv in Hl|done]. Qed.

Lemma lands_spares s c s' (Q : list str -> Prop) :
  fs_inv s -> lands s c s' -> (forall q, Q q -> Forall plain_segment q) ->
  (forall s1, fs_inv s1 -> (forall q, Q q -> fs_at s1 q = fs_at s q) ->
     forall t, t ∈ touches c -> spares s1 Q t) ->
  forall q, Q q -> fs_at s' q = fs_at s q.
Proof.
  intros Hi E Hpl Hsp q Hq.
  assert (Hsimple : (forall ms, c = CBatch ms -> exists m, ms = [m]) -> fs_at s' q = fs_at s q).
  { intros Hc. apply (law_frame s c); [done|by apply Hpl|done|done|].
    intros t Ht. by apply (Hsp s Hi (fun _ _ => eq_refl) t Ht). }
  destruct c as [| | | | |ms]; try (by apply Hsimple; intros). clear Hsimple.
  assert (Hgen : forall s0, fs_inv s0 -> (forall q, Q q -> fs_at s0 q = fs_at s q) ->
    lands s0 (CBatch ms) s' -> fs_at s' q = fs_at s q); [|by apply (Hgen s)].
  clear E Hi. cbn [touches] in Hsp.
  induction ms as [|m ms IH]; intros s0 Hi Hs0 E; pose proof (law_batch _ _ _ Hi E) as Hb.
  { cbn in Hb. subst s'. by apply Hs0. }
  assert (Hm : forall s1, lands s0 (CBatch [m]) s1 -> forall q, Q q -> fs_at s1 q = fs_at s q).
  { intros s1 E1 q' Hq'. rewrite <- Hs0 by done.
    apply (law_frame s0 (CBatch [m])); [done|by apply Hpl|done|intros ? [= <-]; eauto|].
    intros t Ht. apply (Hsp s0 Hi Hs0); [|done]. cbn [touches batched flat_map] in *.
    rewrite app_nil_r in Ht. apply elem_of_app. by left. }
  destruct ms as [|m' ms]; [by apply Hm|].
  destruct Hb as (s1 & E1 & E2). apply (IH) with s1; [|by apply (law_inv s0 (CBatch [m]) s1)|by apply Hm|done].
  intros s2 Hi2 Hs2 t Ht. apply Hsp; [done|done|]. cbn [batched flat_map]. apply elem_of_app. by right.
Qed.

Lemma run_spares s c s' r (Q : list str -> Prop) :
  fs_inv s -> run s c = (s', r) -> (forall q, Q q -> Forall plain_segment q) ->
  (forall s1, fs_inv s1 -> (forall q, Q q -> fs_at s1 q = fs_at s q) ->
     forall t, t ∈ touches c -> spares s1 Q t) ->
  forall q, Q q -> fs_at s' q = fs_at s q.
Proof. intros Hi [->|Hl]%run_lands Hpl Hsp q Hq; [done|by eapply lands_spares|done]. Qed.
End Frame.
