(* ===== verification/ShellExec.v ===== *)
(** * The shell's executor

    Models [crates/simulacra-shell/src/executor.rs], [expansion.rs] and [redirects.rs]: the state of a
    shell, the expansion of variables and command substitutions, redirections, and the execution of
    commands, pipelines and lines.

    A method that may not return is a computation [Sh]: [None] when the parser hangs on a line or on a
    command substitution, or when the fuel for nested substitutions runs out.  The commands that need
    no shell state are an interface, [Commands], which [ShellBuiltins] implements. *)

From S2P Require Import Prelude.
From S2P Require Import Text.
From S2P Require Import Utf8.
From S2P Require Import Segments.
From S2P Require Import Vfs.
From S2P Require Import ShellParser.

(** ** Data *)

Record CommandResult := { stdout : str; stderr : str; exit_code : Z }.

Definition success (out : str) : CommandResult := {| stdout := out; stderr := []; exit_code := 0 |}.
Definition error (code : Z) (err : str) : CommandResult :=
  {| stdout := []; stderr := err; exit_code := code |}.

Definition DEV_NULL : str := "/dev/null".

Variant RedirectDestination :=
| DestStdout
| DestStderr
| DestNull
| DestFile (target : str) (kind : RedirectKind).

Record FileRedirectWrite := { file : str; kind : RedirectKind; content : str }.

#[export] Instance RedirectKind_eq_dec : EqDecision RedirectKind.
Proof. solve_decision. Defined.

(** What the executor asks of the commands it does not implement itself: [builtins::try_builtin] and
    the optional [ShellExternalCommand].  They work on the filesystem, given the standard input and
    the working directory, and answer [None] for a name they do not know. *)
Class Commands (V : Type) := {
  try_builtin : str -> list str -> str -> str -> V -> V * option CommandResult;
  external : option (str -> list str -> str -> str -> V -> V * option CommandResult);
}.

(** ** Paths *)

Definition normalize_path (path base : str) : str :=
  let combined :=
    if starts_with "/" path then path
    else if str_eqb base "/" then "/" ++ path
    else base ++ "/" ++ path in
  let parts := fold_left normalize_segment (split_on "/" combined) [] in
  if (length parts =? 0)%nat then "/" else "/" ++ join "/" parts.

Definition resolve_against_cwd (arg cwd : str) : str := normalize_path arg cwd.

Definition known_commands : list str :=
  map lit ["echo"; "cat"; "ls"; "mkdir"; "grep"; "rg"; "true"; "false"; "cp"; "mv"; "rm"; "head"; "tail";
           "sed"; "wc"; "find"; "sort"; "uniq"; "cut"; "tr"; "tee"; "awk"; "jq"; "curl"; "wget"; "touch";
           "test"; "["; "printf"; "basename"; "dirname"; "node"; "nodejs"; "python"; "python3"; "cd";
           "pwd"; "env"; "which"; "export"]%string.
Definition is_known_command (name : str) : bool := mem name known_commands.

(** [str::split_once] with a character. *)
Definition split_once (c : ascii) (s : str) : option (str * str) :=
  if contains_char c s then
    Some (take_while (fun x => negb (Ascii.eqb x c)) s, tail (drop_while (fun x => negb (Ascii.eqb x c)) s))
  else None.

(** ** Scanning an expansion *)

(** The command of a substitution, after its first parenthesis, and what follows it. *)
Fixpoint substitution (depth : nat) (chars cmd : str) : str * str :=
  match chars with
  | [] => (cmd, [])
  | c :: r =>
      if Ascii.eqb c "(" then substitution (S depth) r (cmd ++ [c])
      else if Ascii.eqb c ")" then
        match depth with
        | S (S d) => substitution (S d) r (cmd ++ [c])
        | _ => (cmd, r)
        end
      else substitution depth r (cmd ++ [c])
  end.

(** The bytes of the character a byte starts. *)
Definition utf8_width (c : ascii) : nat :=
  let n := N_of_ascii c in
  if (n <? 128)%N then 1 else if (n <? 224)%N then 2 else if (n <? 240)%N then 3 else 4.

Section Exec.
Context {V : Type} `{VirtualFs V} `{Commands V}.

(** [char::is_alphanumeric] on the encodings of the characters that are not ASCII. *)
Context (alphanumeric : str -> bool).

Definition is_alphanumeric (ch : str) : bool :=
  match ch with
  | [c] => in_range 48 57 c || in_range 65 90 c || in_range 97 122 c
  | _ => alphanumeric ch
  end.

(** The name of a variable after its [$]; [more] bytes of the character being read are left. *)
Fixpoint var_name (more : nat) (chars name : str) : str * str :=
  match chars with
  | [] => (name, [])
  | c :: r =>
      match more with
      | S more => var_name more r (name ++ [c])
      | O =>
          if is_alphanumeric (firstn (utf8_width c) chars) || Ascii.eqb c "_"
          then var_name (Nat.pred (utf8_width c)) r (name ++ [c])
          else (name, chars)
      end
  end.

(** ** The shell *)

Record Shell := { shell_vfs : V; env : gmap str str; last_status : Z; cwd : str }.

Definition Sh (A : Type) : Type := Shell -> option (Shell * A).
Definition sh_ret {A} (a : A) : Sh A := fun s => Some (s, a).
Definition sh_bind {A B} (m : Sh A) (k : A -> Sh B) : Sh B :=
  fun s => match m s with Some (s', a) => k a s' | None => None end.

Definition set_vfs (v : V) (s : Shell) : Shell :=
  {| shell_vfs := v; env := env s; last_status := last_status s; cwd := cwd s |}.
Definition set_env (e : gmap str str) (s : Shell) : Shell :=
  {| shell_vfs := shell_vfs s; env := e; last_status := last_status s; cwd := cwd s |}.
Definition set_status (z : Z) (s : Shell) : Shell :=
  {| shell_vfs := shell_vfs s; env := env s; last_status := z; cwd := cwd s |}.
Definition set_cwd (p : str) (s : Shell) : Shell :=
  {| shell_vfs := shell_vfs s; env := env s; last_status := last_status s; cwd := p |}.

Local Notation "'sh!' x ':=' m 'in' k" := (sh_bind m (fun x => k))
  (at level 10, x pattern, m at level 200, k at level 200).

(** A call on the filesystem. *)
Definition sh_vfs {A} (f : V -> V * A) : Sh A :=
  fun s => let '(v, a) := f (shell_vfs s) in Some (set_vfs v s, a).
(** A change of the shell's own state. *)
Definition sh_modify (f : Shell -> Shell) : Sh unit := fun s => Some (f s, tt).
Definition sh_get : Sh Shell := fun s => Some (s, s).

(** *** Construction *)

Definition dir_exists (v : V) (path : str) : bool :=
  match vfs_metadata v path with Ok m => is_dir m | Err _ => false end.

Definition shell_new (v : V) (e : gmap str str) : Shell :=
  {| shell_vfs := v; env := e; last_status := 0; cwd := "/" |}.

Definition with_cwd (s : Shell) (p : str) : Shell :=
  let candidate := normalize_path p "/" in
  set_cwd (if dir_exists (shell_vfs s) candidate then candidate else "/") s.

Definition try_with_cwd (s : Shell) (p : str) : result Shell VfsError :=
  let candidate := normalize_path p "/" in
  let? metadata := vfs_metadata (shell_vfs s) candidate in
  if negb (is_dir metadata) then Err (NotADirectory candidate) else Ok (set_cwd candidate s).

(** ** Expansion *)

(** [i32::to_string]. *)
Definition dec_i32 (z : Z) : str := lit (pretty z).

(** The loop of [expansion::expand_vars] over the characters left; [status] is [current_status].  Every
    turn consumes a character. *)
Fixpoint expand_loop (run_command : str -> Sh CommandResult) (env : gmap str str) (fuel : nat)
    (status : Z) (chars out : str) : Sh str :=
  match fuel, chars with
  | _, [] => sh_ret out
  | O, _ => fun _ => None
  | S fuel, c :: r =>
      match r with
      | d :: r' =>
          if Ascii.eqb c "$" then
            if Ascii.eqb d "(" then
              let '(cmd, next) := substitution 1 r' [] in
              sh! sub_result := run_command cmd in
              expand_loop run_command env fuel (exit_code sub_result) next
                (out ++ trim_end_matches lf (stdout sub_result))
            else if Ascii.eqb d "?" then
              expand_loop run_command env fuel status r' (out ++ dec_i32 status)
            else if Ascii.eqb d "{" then
              let var_name := take_while (fun c => negb (Ascii.eqb c "}")) r' in
              let next := tail (drop_while (fun c => negb (Ascii.eqb c "}")) r') in
              let val := if str_eqb var_name "?" then dec_i32 status else unwrap_or (env !! var_name) [] in
              expand_loop run_command env fuel status next (out ++ val)
            else
              let '(name, next) := var_name 0 r [] in
              expand_loop run_command env fuel status next (out ++ unwrap_or (env !! name) [])
          else expand_loop run_command env fuel status r (out ++ [c])
      | [] => expand_loop run_command env fuel status r (out ++ [c])
      end
  end.

(** [self.expand_vars]: the environment and the status are those before any substitution runs. *)
Definition expand_vars (run_command : str -> Sh CommandResult) (input : str) : Sh str :=
  sh! s := sh_get in expand_loop run_command (env s) (length input) (last_status s) input [].

(** ** Redirections *)

(** [emit_redirected_output]. *)
Definition emit_redirected_output (result : CommandResult) (file_writes : list FileRedirectWrite)
    (destination : RedirectDestination) (text : str) : CommandResult * list FileRedirectWrite :=
  match destination with
  | DestStdout =>
      ({| stdout := stdout result ++ text; stderr := stderr result; exit_code := exit_code result |}, file_writes)
  | DestStderr =>
      ({| stdout := stdout result; stderr := stderr result ++ text; exit_code := exit_code result |}, file_writes)
  | DestNull => (result, file_writes)
  | DestFile target k => (result, file_writes ++ [{| file := target; kind := k; content := text |}])
  end.

(** The merging loop of [write_redirect_files]: a write joins the first one to the same file in the
    same mode. *)
Fixpoint merge_write (merged : list FileRedirectWrite) (write : FileRedirectWrite) : list FileRedirectWrite :=
  match merged with
  | [] => [write]
  | existing :: merged =>
      if str_eqb (file existing) (file write) && bool_decide (kind existing = kind write)
      then {| file := file existing; kind := kind existing; content := content existing ++ content write |} :: merged
      else existing :: merge_write merged write
  end.

Definition redirect_message (target : str) (e : VfsError) : str :=
  "redirect: " ++ target ++ ": " ++ vfs_error_to_string e ++ [lf].

Definition write_redirect_file (w : FileRedirectWrite) : SE V str unit := fun v =>
  let put data := let '(v, r) := vfs_write v (file w) data in (v, map_err (redirect_message (file w)) r) in
  match kind w with
  | Truncate => put (content w)
  | Append =>
      match vfs_read v (file w) with
      | Ok d => put (from_utf8_lossy d ++ content w)
      | Err (NotFound _) => put (content w)
      | Err e => (v, Err (redirect_message (file w) e))
      end
  end.

Definition write_redirect_files (file_writes : list FileRedirectWrite) : SE V str unit :=
  se_for (fold_left merge_write file_writes []) write_redirect_file.

(** The first loop of [apply_redirects]: where the two streams go. *)
Fixpoint redirect_destinations (expand : str -> Sh str) (cwd : str) (redirects : list Redirect)
    (stdout_dest stderr_dest : RedirectDestination) : Sh (RedirectDestination * RedirectDestination) :=
  match redirects with
  | [] => sh_ret (stdout_dest, stderr_dest)
  | redirect :: redirects =>
      sh! dest :=
        match target redirect with
        | ToStdout => sh_ret stdout_dest
        | ToStderr => sh_ret stderr_dest
        | ToFile path literal =>
            sh! path := (if literal then sh_ret path else expand path) in
            let path := resolve_against_cwd path cwd in
            sh_ret (if str_eqb path DEV_NULL then DestNull else DestFile path (redirect_kind redirect))
        end in
      match stream redirect with
      | Stdout => redirect_destinations expand cwd redirects dest stderr_dest
      | Stderr => redirect_destinations expand cwd redirects stdout_dest dest
      | StdoutAndStderr => redirect_destinations expand cwd redirects dest dest
      end
  end.

(** What is left of the result, and the writes to files, once the streams have their destinations. *)
Definition redirected (result : CommandResult) (dests : RedirectDestination * RedirectDestination)
    : CommandResult * list FileRedirectWrite :=
  let taken := {| stdout := []; stderr := []; exit_code := exit_code result |} in
  let '(r, writes) := emit_redirected_output taken [] (fst dests) (stdout result) in
  emit_redirected_output r writes (snd dests) (stderr result).

Definition apply_redirects (expand : str -> Sh str) (result : CommandResult) (redirects : list Redirect)
    (cwd : str) : Sh (CommandResult * Prelude.result unit str) :=
  match redirects with
  | [] => sh_ret (result, Ok tt)
  | _ =>
      sh! dests := redirect_destinations expand cwd redirects DestStdout DestStderr in
      let '(r, writes) := redirected result dests in
      sh! written := sh_vfs (write_redirect_files writes) in
      match written with
      | Ok _ => sh_ret (r, Ok tt)
      | Err message =>
          sh_ret ({| stdout := stdout result; stderr := stderr result; exit_code := exit_code r |}, Err message)
      end
  end.

(** ** Commands *)

Definition builtin_cd (args : list str) : Sh CommandResult := fun s =>
  let target := match args with [] => lit "/" | arg :: _ => resolve_against_cwd arg (cwd s) end in
  match vfs_metadata (shell_vfs s) target with
  | Ok m =>
      if is_dir m then Some (set_cwd target s, success [])
      else Some (s, error 1 ("cd: not a directory: " ++ target ++ [lf]))
  | Err _ => Some (s, error 1 ("cd: no such file or directory: " ++ target ++ [lf]))
  end.

Definition builtin_which (args : list str) : CommandResult :=
  match args with
  | [] => error 1 ("which: missing operand" ++ [lf])
  | _ =>
      let out := flat_map (fun name => if is_known_command name then name ++ ": shell builtin" ++ [lf] else []) args in
      if forallb is_known_command args then success out
      else {| stdout := out; stderr := []; exit_code := 1 |}
  end.

(** The loop of [export]. *)
Definition export_arg (e : gmap str str) (arg : str) : gmap str str :=
  match split_once "=" arg with Some (key, value) => <[key := value]> e | None => e end.

(** The listing of [env], sorted by key. *)
Definition builtin_env (e : gmap str str) : CommandResult :=
  success (flat_map (fun key => key ++ "=" ++ unwrap_or (e !! key) [] ++ [lf])
             (merge_sort str_le (elements (dom e)))).

Definition run_builtin (program : str) (args : list str) (stdin : str) : Sh CommandResult :=
  sh! s := sh_get in
  sh! builtin := sh_vfs (try_builtin program args stdin (cwd s)) in
  match builtin with
  | Some result => sh_ret result
  | None =>
      sh! ext := (match external with
                  | Some f => sh_vfs (f program args stdin (cwd s))
                  | None => sh_ret None
                  end) in
      match ext with
      | Some result => sh_ret result
      | None => sh_ret (error 127 ("command not found: " ++ program ++ [lf]))
      end
  end.

(** [execute_command] once the words are expanded. *)
Definition execute_words (program : str) (args : list str) (stdin : str) : Sh CommandResult :=
  if str_eqb program [] then sh_ret (success [])
  else if str_eqb program "export" then
    sh! _ := sh_modify (fun s => set_env (fold_left export_arg args (env s)) s) in sh_ret (success [])
  else if str_eqb program "cd" then builtin_cd args
  else if str_eqb program "pwd" then sh! s := sh_get in sh_ret (success (cwd s ++ [lf]))
  else if str_eqb program "env" then sh! s := sh_get in sh_ret (builtin_env (env s))
  else if str_eqb program "which" then sh_ret (builtin_which args)
  else run_builtin program args stdin.

Fixpoint expand_args (expand : str -> Sh str) (args : list str) (literal_args : list bool) : Sh (list str) :=
  match args with
  | [] => sh_ret []
  | a :: args =>
      sh! w := (if unwrap_or (head literal_args) false then sh_ret a else expand a) in
      sh! ws := expand_args expand args (tail literal_args) in
      sh_ret (w :: ws)
  end.

Definition execute_command (expand : str -> Sh str) (cmd : Command) (stdin : str) : Sh CommandResult :=
  sh! prog := (if program_literal cmd then sh_ret (program cmd) else expand (program cmd)) in
  sh! ws := expand_args expand (args cmd) (literal_args cmd) in
  execute_words prog ws stdin.

(** ** Pipelines and lines *)

(** The body of [execute_pipeline]'s loop: one command with its redirections. *)
Definition execute_stage (expand : str -> Sh str) (cmd : Command) (stdin : str) : Sh CommandResult :=
  sh! result := execute_command expand cmd (unwrap_or (heredoc cmd) stdin) in
  sh! s := sh_get in
  sh! x := apply_redirects expand result (redirects cmd) (cwd s) in
  let '(result, applied) := x in
  sh_ret (match applied with
          | Ok _ => result
          | Err message =>
              {| stdout := stdout result; stderr := stderr result ++ message; exit_code := 1 |}
          end).

(** The loop: the standard input of the next command is what the last one wrote. *)
Fixpoint pipeline_stages (expand : str -> Sh str) (commands : list Command) (stdin : str)
    (last_result : CommandResult) (accumulated_stderr : str) : Sh CommandResult :=
  match commands with
  | [] =>
      sh_ret {| stdout := stdout last_result; stderr := accumulated_stderr; exit_code := exit_code last_result |}
  | cmd :: commands =>
      sh! result := execute_stage expand cmd stdin in
      pipeline_stages expand commands (stdout result) result (accumulated_stderr ++ stderr result)
  end.

Definition execute_pipeline (expand : str -> Sh str) (p : Pipeline) : Sh CommandResult :=
  match p with
  | [] => sh_ret (success [])
  | _ => pipeline_stages expand p [] (success []) []
  end.

Definition should_execute (previous_connector : option Connector) (last_exit_code : Z) : bool :=
  match previous_connector with
  | None | Some Semicolon => true
  | Some And => (last_exit_code =? 0)%Z
  | Some Or => negb (last_exit_code =? 0)%Z
  end.

(** The loop of [execute_line], with the result accumulated so far. *)
Fixpoint line_items (expand : str -> Sh str) (items : list ShellItem) (previous_connector : option Connector)
    (acc : CommandResult) : Sh CommandResult :=
  match items with
  | [] => sh_ret acc
  | item :: items =>
      if should_execute previous_connector (exit_code acc) then
        sh! result := execute_pipeline expand (pipeline item) in
        sh! _ := sh_modify (set_status (exit_code result)) in
        line_items expand items (connector item)
          {| stdout := stdout acc ++ stdout result; stderr := stderr acc ++ stderr result;
             exit_code := exit_code result |}
      else line_items expand items (connector item) acc
  end.

Definition execute_line (expand : str -> Sh str) (line : ShellLine) : Sh CommandResult :=
  match line with
  | [] => sh_ret (success [])
  | _ => line_items expand line None (success [])
  end.

(** [ShellExecutor::run], with fuel for the nesting of command substitutions. *)
Fixpoint run_line (fuel : nat) (input : str) : Sh CommandResult :=
  match fuel with
  | O => fun _ => None
  | S fuel =>
      match parse (parse_fuel input) input with
      | Some line => execute_line (expand_vars (run_line fuel)) line
      | None => fun _ => None
      end
  end.

(** Every substitution is shorter than the text it is in. *)
Definition run_fuel (input : str) : nat := S (length input).
Definition shell_run (input : str) : Sh CommandResult := run_line (run_fuel input) input.

(** ** Computations that return *)

Definition returns {A} (m : Sh A) : Prop := forall s, is_Some (m s).

Lemma returns_ret {A} (a : A) : returns (sh_ret a).
Proof. by intros s; eexists. Qed.
Lemma returns_get : returns sh_get.
Proof. by intros s; eexists. Qed.
Lemma returns_modify f : returns (sh_modify f).
Proof. by intros s; eexists. Qed.
Lemma returns_vfs {A} (f : V -> V * A) : returns (sh_vfs f).
Proof. intros s. unfold sh_vfs. destruct (f _). by eexists. Qed.
Lemma returns_bind {A B} (m : Sh A) (k : A -> Sh B) : returns m -> (forall a, returns (k a)) -> returns (sh_bind m k).
Proof. intros Hm Hk s. unfold sh_bind. destruct (Hm s) as [[s' a] ->]. apply Hk. Qed.

Hint Resolve returns_ret returns_get returns_modify returns_vfs : returns.
Ltac returns := repeat (lazymatch goal with |- returns (sh_bind _ _) => apply returns_bind; [|intros] end); auto with returns.

(** A command inside a text: shorter, and of its characters. *)
Definition inside (text cmd : str) : Prop := (length cmd < length text)%nat /\ forall c, c ∈ cmd -> c ∈ text.

Lemma substitution_scans depth chars cmd : scans chars cmd (substitution depth chars cmd).
Proof.
  revert depth cmd; induction chars as [|c r IH]; intros depth cmd; cbn [substitution]; [apply scans_stop|].
  destruct (Ascii.eqb c "("); [by apply scans_take|]. destruct (Ascii.eqb c ")"); [|by apply scans_take].
  destruct depth as [|[|d]]; [apply scans_skip, scans_stop..|by apply scans_take].
Qed.

Lemma var_name_scans more chars name : scans chars name (var_name more chars name).
Proof.
  revert more name; induction chars as [|c r IH]; intros more name; cbn [var_name]; [apply scans_stop|].
  destruct more; [|by apply scans_take]. destruct (_ || _); [by apply scans_take|apply scans_stop].
Qed.

Lemma length_suffix {A} (a b : list A) : suffix a b -> (length a <= length b)%nat.
Proof. intros [k ->]. rewrite length_app. lia. Qed.

Lemma expand_loop_returns rc e text fuel status chars out :
  (forall cmd, inside text cmd -> returns (rc cmd)) -> suffix chars text -> (length chars <= fuel)%nat ->
  returns (expand_loop rc e fuel status chars out).
Proof.
  intros Hrc. revert status chars out; induction fuel as [|fuel IH]; intros status chars out Hs Hf;
    destruct chars as [|c r]; cbn [expand_loop]; auto with returns; [cbn in Hf; lia|]. cbn [length] in Hf.
  assert (Hr : forall k, suffix k r -> forall status out, returns (expand_loop rc e fuel status k out)).
  { intros k Hk st o. apply IH; [etrans; [exact Hk|]; by eapply suffix_cons_l|]. apply length_suffix in Hk. lia. }
  destruct r as [|d r]; [by apply Hr|]. destruct (Ascii.eqb c "$"); [|by apply Hr].
  assert (Hd : forall k, suffix k r -> suffix k (d :: r)) by (intros k Hk; by apply suffix_cons_r).
  destruct (Ascii.eqb d "(").
  { destruct (substitution_scans 1 r []) as [Hn (w & Ew & Hw & _)].
    destruct (substitution 1 r []) as [cmd next]. cbn in Ew, Hn. subst cmd. apply returns_bind; [|intros; auto].
    apply Hrc. destruct Hw as [Hl Hc], (piece_of_suffix _ _ Hs) as [Hl' Hc']. cbn in Hl'. split; [lia|].
    intros x Hx. apply Hc'. do 2 right. auto. }
  destruct (Ascii.eqb d "?"); [auto|]. destruct (Ascii.eqb d "{").
  { apply Hr, Hd. etrans; [apply suffix_tail|]. apply (while_scans _ r). }
  destruct (var_name_scans 0 (d :: r) []) as [Hn _]. destruct (var_name 0 (d :: r) []). auto.
Qed.

Lemma expand_vars_returns rc text :
  (forall cmd, inside text cmd -> returns (rc cmd)) -> returns (expand_vars rc text).
Proof. intros Hrc. unfold expand_vars. returns. by apply expand_loop_returns with text. Qed.

Section Expand.
Context (expand : str -> Sh str) (P : str -> Prop) (Hexpand : forall w, P w -> returns (expand w)).

Lemma returns_word (b : bool) w : P w -> returns (if b then sh_ret w else expand w).
Proof. destruct b; auto with returns. Qed.

Lemma expand_args_returns ws ls : Forall P ws -> returns (expand_args expand ws ls).
Proof.
  intros Hw; revert ls; induction Hw as [|w ws Hw _ IH]; intros ls; cbn [expand_args]; auto with returns.
  apply returns_bind; [by apply returns_word|intros; returns].
Qed.

Lemma execute_words_returns p ws stdin : returns (execute_words p ws stdin).
Proof.
  unfold execute_words, run_builtin. repeat (destruct (str_eqb p _); [by returns|]).
  destruct (str_eqb p "cd").
  { intros s. unfold builtin_cd. destruct (vfs_metadata _ _) as [m|]; [destruct (is_dir m)|]; by eexists. }
  repeat (destruct (str_eqb p _); [by returns|]). returns. destruct a0; returns; [destruct external; auto with returns|].
  destruct a0; auto with returns.
Qed.

Lemma redirects_returns c rs d e : Forall (target_words P) rs -> returns (redirect_destinations expand c rs d e).
Proof.
  intros Hr; revert d e; induction Hr as [|r rs Hr _ IH]; intros d e; cbn [redirect_destinations]; auto with returns.
  apply returns_bind; [|intros; destruct (stream r); auto].
  unfold target_words in Hr. destruct (target r); auto with returns. apply returns_bind; [by apply returns_word|auto with returns].
Qed.

Lemma execute_stage_returns cmd stdin : command_words P cmd -> returns (execute_stage expand cmd stdin).
Proof.
  intros (Hp & Ha & Hr). unfold execute_stage, execute_command. returns.
  - by apply returns_word.
  - by apply expand_args_returns.
  - apply execute_words_returns.
  - unfold apply_redirects. destruct (redirects cmd); auto with returns. apply returns_bind; [by apply redirects_returns|].
    intros ds. destruct (redirected _ _). returns. destruct a1; auto with returns.
  - destruct a1; auto with returns.
Qed.

Lemma execute_line_returns line : line_words P line -> returns (execute_line expand line).
Proof.
  intros Hl. assert (Hp : forall p, Forall (command_words P) p -> returns (execute_pipeline expand p)).
  { intros p Hp. unfold execute_pipeline. destruct p as [|c p]; auto with returns.
    enough (H1 : forall p, Forall (command_words P) p -> forall i r e, returns (pipeline_stages expand p i r e)) by auto.
    induction 1 as [|c' p' Hc _ IH]; intros i r e; cbn [pipeline_stages]; auto with returns.
    apply returns_bind; [by apply execute_stage_returns|auto]. }
  unfold execute_line. destruct line as [|it line]; auto with returns.
  enough (H1 : forall l, line_words P l -> forall k acc, returns (line_items expand l k acc)) by auto.
  induction 1 as [|it' l Hi _ IH]; intros k acc; cbn [line_items]; auto with returns.
  destruct (should_execute _ _); [|auto]. returns.
Qed.
End Expand.

Lemma run_line_returns fuel input : (length input < fuel)%nat -> "<"%char ∉ input -> returns (run_line fuel input).
Proof.
  revert input; induction fuel as [|fuel IH]; intros input Hf Hlt; [lia|]. cbn [run_line].
  destruct (parse_pieces input Hlt) as (line & -> & Hw).
  apply (execute_line_returns _ (piece_of input)); [|done]. intros w [Hl Hc]. apply expand_vars_returns.
  intros cmd [Hl' Hc']. apply IH; [lia|]. intros Hin. by apply Hlt, Hc, Hc'.
Qed.

(** ** Invariants of a shell

    [I] is kept by everything a line can do to the shell: exporting, recording a status, entering a
    directory that exists, and what the redirections and the commands do to the filesystem. *)
Record shell_invariant (I : Shell -> Prop) : Prop := {
  inv_env : forall s e, I s -> I (set_env e s);
  inv_status : forall s z, I s -> I (set_status z s);
  inv_cd : forall s p, I s -> dir_exists (shell_vfs s) p = true -> normalize p = p -> I (set_cwd p s);
  inv_write : forall s p d, I s -> I (set_vfs (fst (vfs_write (shell_vfs s) p d)) s);
  inv_builtin : forall s program args stdin c, I s ->
    I (set_vfs (fst (try_builtin program args stdin c (shell_vfs s))) s);
  inv_external : forall s f program args stdin c, I s -> external = Some f ->
    I (set_vfs (fst (f program args stdin c (shell_vfs s))) s);
}.

Lemma segs_of_shell_path p base :
  normalize_path p base = normalize (if starts_with "/" p then p else if str_eqb base "/" then "/" ++ p else base ++ "/" ++ p).
Proof. done. Qed.

(** A path resolved against a directory: its components, from the root or from the directory. *)
Lemma resolve_segs arg c :
  resolve_against_cwd arg c =
  path_str (fold_left normalize_segment (split_on "/" arg) (if starts_with "/" arg then [] else segs_of c)).
Proof.
  unfold resolve_against_cwd. rewrite segs_of_shell_path, normalize_str. f_equal.
  destruct (starts_with "/" arg); [done|]. destruct (str_eqb c "/") eqn:E.
  - bools. subst. unfold segs_of at 1. change ("/" ++ arg) with ([] ++ "/"%char :: arg).
    by rewrite split_on_app_sep, fold_left_app.
  - unfold segs_of at 1. change (c ++ "/" ++ arg) with (c ++ "/"%char :: arg).
    by rewrite split_on_app_sep, fold_left_app.
Qed.

Lemma resolve_normal arg c : normalize (resolve_against_cwd arg c) = resolve_against_cwd arg c.
Proof. unfold resolve_against_cwd. by rewrite segs_of_shell_path, normalize_idem. Qed.

Section Invariant.
Context (I : Shell -> Prop) (HI : shell_invariant I).

Definition keeps {A} (m : Sh A) : Prop := forall s s' a, I s -> m s = Some (s', a) -> I s'.

Lemma keeps_ret {A} (a : A) : keeps (sh_ret a).
Proof. by intros s s' a' Hs [= <- _]. Qed.
Lemma keeps_get : keeps sh_get.
Proof. by intros s s' a' Hs [= <- _]. Qed.
Lemma keeps_none {A} : keeps (fun _ => @None (Shell * A)).
Proof. by intros s s' a. Qed.
Lemma keeps_bind {A B} (m : Sh A) (k : A -> Sh B) : keeps m -> (forall a, keeps (k a)) -> keeps (sh_bind m k).
Proof.
  intros Hm Hk s s' b Hs. unfold sh_bind. destruct (m s) as [[s1 a]|] eqn:E; [|done].
  intros Hb. eapply Hk; [|exact Hb]. by eapply Hm.
Qed.
Lemma keeps_modify f : (forall s, I s -> I (f s)) -> keeps (sh_modify f).
Proof. intros Hf s s' a Hs [= <- _]. auto. Qed.
Lemma keeps_vfs {A} (f : V -> V * A) : (forall s, I s -> I (set_vfs (fst (f (shell_vfs s))) s)) -> keeps (sh_vfs f).
Proof. intros Hf s s' a Hs. unfold sh_vfs. specialize (Hf s Hs). destruct (f _). by intros [= <- _]. Qed.

Hint Resolve keeps_ret keeps_get keeps_none : keeps.
Ltac keeps := repeat (lazymatch goal with |- keeps (sh_bind _ _) => apply keeps_bind; [|intros] end); auto with keeps.

Lemma set_vfs_twice v w (s : Shell) : set_vfs v (set_vfs w s) = set_vfs v s.
Proof. done. Qed.

Lemma write_files_keeps writes : keeps (sh_vfs (write_redirect_files writes)).
Proof.
  apply keeps_vfs. unfold write_redirect_files.
  assert (Hw : forall w s, I s -> I (set_vfs (fst (write_redirect_file w (shell_vfs s))) s)).
  { intros w s Hs. unfold write_redirect_file.
    assert (Hput : forall d, I (set_vfs (fst (let '(v, r) := vfs_write (shell_vfs s) (file w) d in
        (v, map_err (redirect_message (file w)) r))) s)).
    { intros d. pose proof (inv_write I HI s (file w) d Hs) as H1. by destruct (vfs_write _ _ _). }
    destruct (kind w); [apply Hput|]. destruct (vfs_read _ _) as [d|[]]; try apply Hput; cbn; by destruct s. }
  induction (fold_left merge_write writes []) as [|w ws IH]; intros s Hs; cbn [se_for]; [cbn; by destruct s|].
  unfold se_bind. specialize (Hw w s Hs). destruct (write_redirect_file w (shell_vfs s)) as [v [[]|e]]; cbn in Hw; [|done].
  apply (IH _ Hw).
Qed.

Lemma execute_words_keeps p ws stdin : keeps (execute_words p ws stdin).
Proof.
  unfold execute_words, run_builtin.
  destruct (str_eqb p []); auto with keeps.
  destruct (str_eqb p "export"); [keeps; apply keeps_modify; intros; by apply inv_env|].
  destruct (str_eqb p "cd").
  { intros s s' r Hs. unfold builtin_cd. set (target := match ws with [] => _ | _ => _ end).
    destruct (vfs_metadata _ _) as [m|] eqn:Em; [|by intros [= <- _]].
    destruct (is_dir m) eqn:Ed; [|by intros [= <- _]]. intros [= <- _]. apply inv_cd; [done|done| |].
    - unfold dir_exists. by rewrite Em.
    - unfold target. destruct ws; [done|apply resolve_normal]. }
  repeat (destruct (str_eqb p _); [by keeps|]). keeps.
  - apply keeps_vfs. intros s Hs. by apply inv_builtin.
  - destruct a0; [auto with keeps|]. keeps.
    + destruct external eqn:Ee; [|auto with keeps]. apply keeps_vfs. intros s Hs. by apply inv_external.
    + destruct a0; auto with keeps.
Qed.

Section Expand.
Context (expand : str -> Sh str) (Hexpand : forall w, keeps (expand w)).

Lemma keeps_word (b : bool) w : keeps (if b then sh_ret w else expand w).
Proof. destruct b; auto with keeps. Qed.

Lemma expand_args_keep ws ls : keeps (expand_args expand ws ls).
Proof.
  revert ls; induction ws as [|w ws IH]; intros ls; cbn [expand_args]; auto with keeps. keeps. apply keeps_word.
Qed.

Lemma redirects_keep c rs d e : keeps (redirect_destinations expand c rs d e).
Proof.
  revert d e; induction rs as [|r rs IH]; intros d e; cbn [redirect_destinations]; auto with keeps.
  keeps; [|destruct (stream r); auto]. destruct (target r); auto with keeps. keeps. apply keeps_word.
Qed.

Lemma execute_stage_keeps cmd stdin : keeps (execute_stage expand cmd stdin).
Proof.
  unfold execute_stage, execute_command. keeps.
  - apply keeps_word.
  - apply expand_args_keep.
  - apply execute_words_keeps.
  - unfold apply_redirects. destruct (redirects cmd) as [|r rs]; auto with keeps. keeps.
    + apply redirects_keep.
    + destruct (redirected _ _). keeps; [apply write_files_keeps|]. destruct a2; auto with keeps.
  - destruct a1; auto with keeps.
Qed.

Lemma execute_line_keeps line : keeps (execute_line expand line).
Proof.
  assert (Hp : forall p, keeps (execute_pipeline expand p)).
  { intros p. unfold execute_pipeline. destruct p as [|c p]; auto with keeps.
    enough (forall l i r e, keeps (pipeline_stages expand l i r e)) by auto.
    intros l; induction l as [|c' l IH]; intros i r e; cbn [pipeline_stages]; auto with keeps. keeps. apply execute_stage_keeps. }
  unfold execute_line. destruct line as [|it line]; auto with keeps.
  enough (forall l k acc, keeps (line_items expand l k acc)) by auto.
  intros l; induction l as [|it' l IH]; intros k acc; cbn [line_items]; auto with keeps.
  destruct (should_execute _ _); [|apply IH]. keeps. apply keeps_modify. intros. by apply inv_status.
Qed.
End Expand.

Lemma expand_loop_keeps rc e fuel status chars out :
  (forall cmd, keeps (rc cmd)) -> keeps (expand_loop rc e fuel status chars out).
Proof.
  intros Hrc. revert status chars out; induction fuel as [|fuel IH]; intros status chars out;
    destruct chars as [|c r]; cbn [expand_loop]; auto with keeps.
  destruct r as [|d r]; [auto|]. destruct (Ascii.eqb c "$"); [|auto].
  destruct (Ascii.eqb d "("); [destruct (substitution _ _ _); keeps|].
  destruct (Ascii.eqb d "?"); [auto|]. destruct (Ascii.eqb d "{"); [auto|]. destruct (var_name _ _ _); auto.
Qed.

Lemma run_line_keeps fuel input : keeps (run_line fuel input).
Proof.
  revert input; induction fuel as [|fuel IH]; intros input; cbn [run_line]; [auto with keeps|].
  destruct (parse _ _); [|auto with keeps]. apply execute_line_keeps. intros w. unfold expand_vars. keeps.
  by apply expand_loop_keeps.
Qed.
End Invariant.
End Exec.

(** ** What a line does *)

(** The text of a command of single-quoted words. *)
Definition quoted_command (words : list str) : str := render (map SingleQuoted words).

Lemma quoted_command_ends w ws : exists x, quoted_command (w :: ws) = "'"%char :: x ++ ["'"%char].
Proof.
  revert w; induction ws as [|v ws IH]; intros w.
  - by exists w.
  - destruct (IH v) as [x E]. exists (w ++ "' "%string ++ "'"%char :: x).
    unfold quoted_command, render in *. cbn [map] in *. rewrite join_cons_nonempty by done. rewrite E.
    cbn [render_token app]. by rewrite <- !app_assoc.
Qed.

Section Lines.
Context {V : Type} `{VirtualFs V} `{Commands V} (alphanumeric : str -> bool).

Lemma expand_args_literal expand ws (s : @Shell V) : expand_args expand ws (map (fun _ => true) ws) s = Some (s, ws).
Proof.
  induction ws as [|w ws IH]; [done|]. cbn [map expand_args]. unfold sh_bind at 1. cbn. unfold sh_bind. by rewrite IH.
Qed.

(** A line of one command of literal words, without redirections. *)
Definition literal_command (p : str) (ws : list str) : Command :=
  {| program := p; args := ws; redirects := []; heredoc := None;
     program_literal := true; literal_args := map (fun _ => true) ws |}.

Lemma execute_literal expand p ws (s : @Shell V) :
  execute_line expand [{| pipeline := [literal_command p ws]; connector := None |}] s =
  match execute_words p ws [] s with
  | Some (s', r) => Some (set_status (exit_code r) s', r)
  | None => None
  end.
Proof.
  cbn. unfold execute_stage, execute_command, sh_bind, apply_redirects. cbn. rewrite expand_args_literal.
  destruct (execute_words p ws [] s) as [[s' [o e c]]|]; [|done]. done.
Qed.

(** C40. The shell returns: on every line without a [<], whatever the commands are and however deep the
    substitutions nest, [run] ends with a result, and as much fuel as the line is long is enough. *)
Theorem shell_run_returns input (s : @Shell V) :
  "<"%char ∉ input -> exists s' r, shell_run alphanumeric input s = Some (s', r).
Proof.
  intros Hlt. destruct (run_line_returns alphanumeric (run_fuel input) input) with s as [[s' r] E]; [by constructor|done|].
  by exists s', r.
Qed.

Lemma parse_quoted p ws :
  p <> [] -> Forall (fun w => "'"%char ∉ w) (p :: ws) ->
  parse (parse_fuel (quoted_command (p :: ws))) (quoted_command (p :: ws)) =
  Some [{| pipeline := [literal_command p ws]; connector := None |}].
Proof.
  intros Hp Hq. set (line := [{| pipeline := [literal_command p ws]; connector := None |}]).
  assert (Ht : line_tokens line = map SingleQuoted (p :: ws)).
  { unfold line_tokens, item_tokens, command_tokens. cbn. rewrite !app_nil_r. f_equal.
    clear. induction ws as [|w ws IH]; cbn; [done|]. by rewrite IH. }
  assert (Hok : line_ok line).
  { inversion Hq as [|? ? Hq1 Hq2]; subst. split; [|done]. constructor; [|done]. split; [done|]. constructor; [|done].
    split_and!; try done. cbn. clear - Hq2. induction Hq2; by constructor. }
  destruct (quoted_command_ends p ws) as [x Ex]. unfold quoted_command in *. rewrite <- Ht in *.
  rewrite parse_render; [|by apply line_tokens_ok|by rewrite Ex|by rewrite Ex, trim_quoted].
  unfold parse_tokens. by rewrite line_loop_tokens.
Qed.

(** Single quotes protect: a command of single-quoted words runs exactly that program on exactly
    those arguments, whatever operators, expansions or blanks the words contain. *)
Theorem quoted_words_verbatim p ws (s : @Shell V) :
  p <> [] -> Forall (fun w => "'"%char ∉ w) (p :: ws) ->
  shell_run alphanumeric (quoted_command (p :: ws)) s =
  match execute_words p ws [] s with
  | Some (s', r) => Some (set_status (exit_code r) s', r)
  | None => None
  end.
Proof.
  intros Hp Hq. unfold shell_run, run_fuel. cbn [run_line]. rewrite parse_quoted by done. apply execute_literal.
Qed.

(** The working directory stays a normalised path, whatever a line does. *)
Theorem shell_cwd_normalized input (s s' : @Shell V) r :
  normalize (cwd s) = cwd s -> shell_run alphanumeric input s = Some (s', r) -> normalize (cwd s') = cwd s'.
Proof.
  apply (run_line_keeps alphanumeric (fun s => normalize (cwd s) = cwd s)). by split.
Qed.
End Lines.
