(* ===== verification/ShellBuiltins.v ===== *)
(** * The shell's builtins

    Models [crates/simulacra-shell/src/builtins.rs], [sleep.rs] and the line-oriented half of
    [text.rs]: the commands that read and write the virtual filesystem, and [sort], [uniq],
    [basename] and [dirname].  The searching, formatting and network commands of the other files
    ([grep], [rg], [sed], [find], [cut], [tr], [awk], [jq], [printf], [curl], [wget]) are a parameter
    of the dispatcher.  With it, the builtins implement the executor's [Commands]. *)

From S2P Require Import Prelude.
From S2P Require Import Text.
From S2P Require Import Utf8.
From S2P Require Import Segments.
From S2P Require Import Vfs.
From S2P Require Import ShellExec.

(** ** Numbers and words *)

Definition is_digit (c : ascii) : bool := in_range 48 57 c.
Definition digits_value (s : str) : N :=
  fold_left (fun v c => 10 * v + (N_of_ascii c - 48))%N s 0%N.

(** [str::parse::<usize>] and [::<u64>] on a 64-bit target. *)
Definition parse_u64 (s : str) : option N :=
  let digits := unwrap_or (strip_prefix "+" s) s in
  if negb (str_eqb digits []) && forallb is_digit digits && (digits_value digits <? 2 ^ 64)%N
  then Some (digits_value digits) else None.

(** [str::parse::<i64>]. *)
Definition parse_i64 (s : str) : option Z :=
  match strip_prefix "-" s with
  | Some digits =>
      if negb (str_eqb digits []) && forallb is_digit digits && (digits_value digits <=? 2 ^ 63)%N
      then Some (- Z.of_N (digits_value digits))%Z else None
  | None =>
      match parse_u64 s with
      | Some n => if (n <? 2 ^ 63)%N then Some (Z.of_N n) else None
      | None => None
      end
  end.

Definition trim_start (s : str) : str := strip_all strip_one (length s) s.

(** [split_whitespace().count()]; [space] is the bytes left of a white space character. *)
Fixpoint count_words (space : nat) (in_word : bool) (s : str) : N :=
  match s with
  | [] => 0
  | c :: r =>
      match space with
      | S space => count_words space in_word r
      | O =>
          match strip_one s with
          | Some after => count_words (length r - length after) false r
          | None => (if in_word then 0 else 1) + count_words 0 true r
          end
      end
  end%N.

Definition dash (arg : str) : bool := starts_with "-" arg.
Definition has_flag (flags : list str) (args : list str) : bool := existsb (fun a => mem a flags) args.
Definition operands (args : list str) : list str := List.filter (fun a => negb (dash a)) args.

(** [lines.join], with the line break [format!] adds, and nothing for no lines. *)
Definition print_lines (ls : list str) : CommandResult :=
  match ls with [] => success [] | _ => success (join [lf] ls ++ [lf]) end.

(** ** Commands over text *)

Definition builtin_echo (args : list str) : CommandResult := success (join " " args ++ [lf]).

(** [flag_contains]. *)
Definition flag_contains (flag : ascii) (long : str) (arg : str) : bool :=
  match strip_prefix "-" arg with
  | Some short_flags =>
      if negb (starts_with "-" short_flags) then contains_char flag short_flags else str_eqb arg long
  | None => str_eqb arg long
  end.

(** The end of the number: [first] at the first character. *)
Fixpoint number_prefix (first : bool) (s : str) : str :=
  match s with
  | [] => []
  | c :: r =>
      if first && (Ascii.eqb c "+" || Ascii.eqb c "-") then c :: number_prefix false r
      else if is_digit c then c :: number_prefix false r
      else []
  end.

Definition leading_number (line : str) : Z := unwrap_or (parse_i64 (number_prefix true (trim_start line))) 0%Z.

(** The comparison of a numeric sort, as "not greater". *)
Definition numeric_le (reverse : bool) (a b : str) : Prop :=
  let ka := leading_number a in
  let kb := leading_number b in
  ((if reverse then kb < ka else ka < kb) \/ ka = kb /\ str_le (trim_start a) (trim_start b))%Z.

#[export] Instance numeric_le_dec reverse a b : Decision (numeric_le reverse a b).
Proof. unfold numeric_le. destruct reverse; apply _. Defined.

Definition sort_order (numeric reverse : bool) : str -> str -> Prop :=
  if numeric then numeric_le reverse else if reverse then flip str_le else str_le.

#[export] Instance sort_order_dec numeric reverse a b : Decision (sort_order numeric reverse a b).
Proof. unfold sort_order, flip. destruct numeric; [apply _|]. destruct reverse; apply _. Defined.

Definition builtin_sort (args : list str) (stdin : str) : CommandResult :=
  let numeric := existsb (flag_contains "n" "--numeric-sort") args in
  let reverse := existsb (flag_contains "r" "--reverse") args in
  print_lines (merge_sort (sort_order numeric reverse) (lines stdin)).

Definition pad7 (s : str) : str := repeat " "%char (7 - length s) ++ s.

Definition uniq_line (line : str) (count : N) (show_count : bool) : str :=
  (if show_count then pad7 (dec count) ++ " " else []) ++ line ++ [lf].

Fixpoint uniq_loop (show_count : bool) (prev : option str) (run_count : N) (ls : list str) : str :=
  match ls with
  | [] => match prev with Some value => uniq_line value run_count show_count | None => [] end
  | line :: ls =>
      match prev with
      | Some value =>
          if str_eqb value line then uniq_loop show_count prev (run_count + 1) ls
          else uniq_line value run_count show_count ++ uniq_loop show_count (Some line) 1 ls
      | None => uniq_loop show_count (Some line) 1 ls
      end
  end.

Definition builtin_uniq (args : list str) (stdin : str) : CommandResult :=
  success (uniq_loop (existsb (flag_contains "c" "--count") args) None 0 (lines stdin)).

Definition builtin_basename (args : list str) : CommandResult :=
  match args with
  | [] => error 1 ("basename: missing operand" ++ [lf])
  | path :: _ => success (List.last (split_on "/" (trim_end_matches "/" path)) [] ++ [lf])
  end.

(** [rsplit_once('/')]: the pieces before the last one, joined again. *)
Definition builtin_dirname (args : list str) : CommandResult :=
  match args with
  | [] => error 1 ("dirname: missing operand" ++ [lf])
  | path :: _ =>
      let pieces := split_on "/" (trim_end_matches "/" path) in
      let dir :=
        if (length pieces =? 1)%nat then lit "."
        else let dir := join "/" (removelast pieces) in if str_eqb dir [] then lit "/" else dir in
      success (dir ++ [lf])
  end.

(** *** [sleep.rs], in milliseconds *)

Definition MAX_SLEEP : N := 30000.
Definition u64_max : N := (2 ^ 64 - 1)%N.
Definition checked_mul (a b : N) : option N := if (a * b <=? u64_max)%N then Some (a * b)%N else None.
Definition checked_add (a b : N) : option N := if (a + b <=? u64_max)%N then Some (a + b)%N else None.

Definition too_large : str := "duration is too large".

(** The loop over the first three digits of the fraction. *)
Fixpoint scale_fraction (digits : str) (value scale : N) : option (N * N) :=
  match digits with
  | [] => Some (value, scale)
  | c :: r =>
      v ← checked_mul value 10;
      v ← checked_add v (N_of_ascii c - 48);
      s ← checked_mul scale 10;
      scale_fraction r v s
  end%N.

Definition scaled_fraction_to_millis (fraction : str) (millis_per_unit : N) : result N str :=
  ok_or ('(value, scale) ← scale_fraction (firstn 3 fraction) 0 1;
         scaled ← checked_mul value millis_per_unit; Some (scaled / scale)%N) too_large.

Definition parse_decimal_duration (raw : str) (millis_per_unit : N) : result N str :=
  let expected : str := "expected a non-negative number" in
  if str_eqb raw [] then Err expected
  else
    let '(whole, fraction) := unwrap_or (split_once "." raw) (raw, []) in
    if str_eqb whole [] && str_eqb fraction [] then Err expected
    else if negb (forallb is_digit whole) || negb (forallb is_digit fraction) then Err expected
    else
      let? whole := (if str_eqb whole [] then Ok 0%N else ok_or (parse_u64 whole) too_large) in
      let? whole_millis := ok_or (checked_mul whole millis_per_unit) too_large in
      let? fraction_millis :=
        (if str_eqb fraction [] then Ok 0%N else scaled_fraction_to_millis fraction millis_per_unit) in
      ok_or (checked_add whole_millis fraction_millis) too_large.

Definition parse_duration (raw : str) : result N str :=
  if str_eqb raw [] || starts_with "-" raw then Err ("expected a non-negative number of seconds" : str)
  else match strip_suffix "ms" raw with
  | Some millis => parse_decimal_duration millis 1
  | None => parse_decimal_duration (unwrap_or (strip_suffix "s" raw) raw) 1000
  end.

Definition builtin_sleep (args : list str) : CommandResult :=
  match args with
  | [] => error 1 ("sleep: missing duration" ++ [lf])
  | [raw] =>
      match parse_duration raw with
      | Err reason => error 1 ("sleep: invalid duration '" ++ raw ++ "': " ++ reason ++ [lf])
      | Ok duration =>
          if (MAX_SLEEP <? duration)%N then
            error 1 ("sleep: duration '" ++ raw ++ "' exceeds maximum supported duration of 30s" ++ [lf])
          else success []
      end
  | _ => error 1 ("sleep: too many operands" ++ [lf])
  end.

Section Builtins.
Context {V : Type} `{VirtualFs V}.

(** ** Files, and the null device *)

Definition shell_read_file (v : V) (path : str) : result bytes VfsError :=
  if str_eqb path DEV_NULL then Ok [] else vfs_read v path.
Definition shell_write_file (path : str) (data : bytes) (v : V) : V * result unit VfsError :=
  if str_eqb path DEV_NULL then (v, Ok tt) else vfs_write v path data.
Definition shell_exists (v : V) (path : str) : bool := str_eqb path DEV_NULL || vfs_exists v path.
Definition shell_metadata (v : V) (path : str) : result FsMetadata VfsError :=
  if str_eqb path DEV_NULL then Ok (FsMetadata_file 0) else vfs_metadata v path.

(** A failure of command [cmd] on [what]. *)
Definition failed (cmd what message : str) : CommandResult :=
  error 1 (cmd ++ ": " ++ what ++ ": " ++ message ++ [lf]).
Definition failed_vfs (cmd what : str) (e : VfsError) : CommandResult := failed cmd what (vfs_error_to_string e).

(** A file as text. *)
Definition read_text (cmd path cwd : str) (v : V) : result str CommandResult :=
  match shell_read_file v (resolve_against_cwd path cwd) with
  | Ok data => map_err (fun e => failed cmd path (utf8_error_to_string e)) (from_utf8 data)
  | Err e => Err (failed_vfs cmd path e)
  end.

(** The files' texts one after another. *)
Fixpoint read_texts (cmd cwd : str) (paths : list str) (v : V) : result str CommandResult :=
  match paths with
  | [] => Ok []
  | path :: paths =>
      let? text := read_text cmd path cwd v in
      let? rest := read_texts cmd cwd paths v in
      Ok (text ++ rest)
  end.

Definition collapse (r : result CommandResult CommandResult) : CommandResult :=
  match r with Ok x => x | Err x => x end.

Definition builtin_cat (args : list str) (stdin cwd : str) (v : V) : CommandResult :=
  match args with
  | [] => success stdin
  | _ => collapse (let? out := read_texts "cat" cwd args v in Ok (success out))
  end.

Definition builtin_ls (args : list str) (cwd : str) (v : V) : CommandResult :=
  let path := match operands args with p :: _ => resolve_against_cwd p cwd | [] => cwd end in
  match vfs_list_dir v path with
  | Ok names => print_lines (merge_sort str_le names)
  | Err e => error 1 ("ls: " ++ vfs_error_to_string e ++ [lf])
  end.

(** [-n N] and the last operand. *)
Fixpoint parse_n_and_file (default_n : N) (args : list str) (n : N) (f : option str) : N * option str :=
  match args with
  | [] => (n, f)
  | a :: more =>
      if str_eqb a "-n" then
        match more with
        | count :: more => parse_n_and_file default_n more (unwrap_or (parse_u64 count) default_n) f
        | [] => (n, f)
        end
      else parse_n_and_file default_n more n (if dash a then f else Some a)
  end.

Definition get_input (f : option str) (stdin cwd cmd : str) (v : V) : result str CommandResult :=
  match f with Some path => read_text cmd path cwd v | None => Ok stdin end.

Definition builtin_head (args : list str) (stdin cwd : str) (v : V) : CommandResult :=
  let '(n, f) := parse_n_and_file 10 args 10 None in
  collapse (let? input := get_input f stdin cwd "head" v in
            Ok (print_lines (firstn (N.to_nat n) (lines input)))).

Definition builtin_tail (args : list str) (stdin cwd : str) (v : V) : CommandResult :=
  let '(n, f) := parse_n_and_file 10 args 10 None in
  collapse (let? input := get_input f stdin cwd "tail" v in
            let all_lines := lines input in
            Ok (print_lines (skipn (N.to_nat (N.of_nat (length all_lines) - n)) all_lines))).

Definition builtin_wc (args : list str) (stdin cwd : str) (v : V) : CommandResult :=
  let files := operands args in
  collapse (
    let? input := (match files with [] => Ok stdin | _ => read_texts "wc" cwd files v end) in
    let ls := dec (N.of_nat (length (lines input))) in
    let words := dec (count_words 0 false input) in
    let chars := dec (N.of_nat (length input)) in
    let flag f := has_flag [lit f] args in
    Ok (success (
      if negb (flag "-l"%string || flag "-w"%string || flag "-c"%string)
      then ls ++ " " ++ words ++ " " ++ chars ++ [lf]
      else join " " ((if flag "-l"%string then [ls] else []) ++ (if flag "-w"%string then [words] else [])
                      ++ (if flag "-c"%string then [chars] else [])) ++ [lf]))).

(** *** Commands that write *)

(** Run [step] on every operand until one fails. *)
Fixpoint each_operand (paths : list str) (step : str -> V -> V * result unit CommandResult) (v : V)
    : V * result unit CommandResult :=
  match paths with
  | [] => (v, Ok tt)
  | path :: paths =>
      let '(v, r) := step path v in
      match r with Ok _ => each_operand paths step v | Err e => (v, Err e) end
  end.

Definition finish (out : str) (x : V * result unit CommandResult) : V * CommandResult :=
  (fst x, match snd x with Ok _ => success out | Err e => e end).

(** The loop of [mkdir_recursive] over the components of the path. *)
Fixpoint mkdir_parts (parts : list str) (current : str) (v : V) : V * result unit str :=
  match parts with
  | [] => (v, Ok tt)
  | part :: parts =>
      let current := current ++ "/" ++ part in
      if shell_exists v current then
        match shell_metadata v current with
        | Ok m => if is_dir m then mkdir_parts parts current v else (v, Err ("not a directory: " ++ current))
        | Err e => (v, Err (vfs_error_to_string e))
        end
      else
        let '(v, r) := vfs_mkdir v current in
        match r with
        | Ok _ => mkdir_parts parts current v
        | Err e => (v, Err (vfs_error_to_string e))
        end
  end.

Definition mkdir_recursive (path : str) (v : V) : V * result unit str :=
  mkdir_parts (List.filter (fun s => negb (str_eqb s [])) (split_on "/" path)) [] v.

Definition builtin_mkdir (args : list str) (cwd : str) (v : V) : V * CommandResult :=
  let recursive := has_flag ["-p" : str] args in
  let paths := List.filter (fun a => negb (str_eqb a "-p")) args in
  match paths with
  | [] => (v, error 1 ("mkdir: missing operand" ++ [lf]))
  | _ =>
      finish [] (each_operand paths (fun path v =>
        let path := resolve_against_cwd path cwd in
        let fail (m : str) := error 1 ("mkdir: " ++ m ++ [lf]) in
        if recursive then let '(v, r) := mkdir_recursive path v in (v, map_err fail r)
        else let '(v, r) := vfs_mkdir v path in (v, map_err (fun e => fail (vfs_error_to_string e)) r)) v)
  end.

Definition builtin_cp (args : list str) (cwd : str) (v : V) : V * CommandResult :=
  match args with
  | a :: b :: _ =>
      let src := resolve_against_cwd a cwd in
      let dst := resolve_against_cwd b cwd in
      match shell_read_file v src with
      | Ok data =>
          let '(v, r) := shell_write_file dst data v in
          (v, match r with Ok _ => success [] | Err e => failed_vfs "cp" dst e end)
      | Err e => (v, failed_vfs "cp" src e)
      end
  | _ => (v, error 1 ("cp: missing operand" ++ [lf]))
  end.

Definition builtin_mv (args : list str) (cwd : str) (v : V) : V * CommandResult :=
  match args with
  | a :: b :: _ =>
      let src := resolve_against_cwd a cwd in
      let dst := resolve_against_cwd b cwd in
      match shell_read_file v src with
      | Ok data =>
          let '(v, r) := shell_write_file dst data v in
          match r with
          | Err e => (v, failed_vfs "mv" dst e)
          | Ok _ =>
              let '(v, r) := vfs_remove v src in
              (v, match r with Ok _ => success [] | Err e => failed_vfs "mv" src e end)
          end
      | Err e => (v, failed_vfs "mv" src e)
      end
  | _ => (v, error 1 ("mv: missing operand" ++ [lf]))
  end.

Definition builtin_rm (args : list str) (cwd : str) (v : V) : V * CommandResult :=
  let recursive := has_flag ["-r" : str; "-rf" : str; "-fr" : str] args in
  match operands args with
  | [] => (v, error 1 ("rm: missing operand" ++ [lf]))
  | paths =>
      finish [] (each_operand paths (fun path v =>
        let path := resolve_against_cwd path cwd in
        let directory := match shell_metadata v path with Ok m => is_dir m | Err _ => false end in
        if negb recursive && directory then (v, Err (failed "rm" path "is a directory"))
        else let '(v, r) := vfs_remove v path in (v, map_err (failed_vfs "rm" path) r)) v)
  end.

Definition builtin_tee (args : list str) (stdin cwd : str) (v : V) : V * CommandResult :=
  match args with
  | [] => (v, success stdin)
  | _ =>
      finish stdin (each_operand args (fun path v =>
        let '(v, r) := shell_write_file (resolve_against_cwd path cwd) stdin v in
        (v, map_err (failed_vfs "tee" path) r)) v)
  end.

Definition builtin_touch (args : list str) (cwd : str) (v : V) : V * CommandResult :=
  match operands args with
  | [] => (v, error 1 ("touch: missing file operand" ++ [lf]))
  | paths =>
      finish [] (each_operand paths (fun path v =>
        let resolved := resolve_against_cwd path cwd in
        if is_ok (shell_metadata v resolved) then (v, Ok tt)
        else let '(v, r) := shell_write_file resolved [] v in (v, map_err (failed_vfs "touch" path) r)) v)
  end.

(** *** [test] *)

Definition builtin_test (args : list str) (cwd : str) (v : V) : CommandResult :=
  let negated := match args with a :: _ => str_eqb a "!" | [] => false end in
  let args := if negated then tail args else args in
  let ok :=
    match args with
    | [value] => negb (str_eqb value [])
    | [flag; path] =>
        match shell_metadata v (resolve_against_cwd path cwd) with
        | Ok meta =>
            str_eqb flag "-e" || (str_eqb flag "-f" && negb (is_dir meta)) || (str_eqb flag "-d" && is_dir meta)
        | Err _ => false
        end
    | [lhs; op; rhs] =>
        if str_eqb op "=" || str_eqb op "==" then str_eqb lhs rhs
        else str_eqb op "!=" && negb (str_eqb lhs rhs)
    | _ => false
    end in
  if (if negated then negb ok else ok) then success [] else error 1 [].

Definition builtin_bracket_test (args : list str) (cwd : str) (v : V) : CommandResult :=
  if bool_decide (last args = Some (lit "]")) then builtin_test (removelast args) cwd v
  else error 2 ("[: missing closing ']'" ++ [lf]).

(** ** The dispatcher *)

(** The commands of the other files. *)
Context (text_builtin : str -> list str -> str -> str -> V -> V * option CommandResult).

Definition builtin_named (program : str) (args : list str) (stdin cwd : str) (v : V)
    : option (V * CommandResult) :=
  let named (name : String.string) := str_eqb program name in
  if named "echo" then Some (v, builtin_echo args)
  else if named "cat" then Some (v, builtin_cat args stdin cwd v)
  else if named "ls" then Some (v, builtin_ls args cwd v)
  else if named "mkdir" then Some (builtin_mkdir args cwd v)
  else if named "true" then Some (v, success [])
  else if named "false" then Some (v, error 1 [])
  else if named "cp" then Some (builtin_cp args cwd v)
  else if named "mv" then Some (builtin_mv args cwd v)
  else if named "rm" then Some (builtin_rm args cwd v)
  else if named "head" then Some (v, builtin_head args stdin cwd v)
  else if named "tail" then Some (v, builtin_tail args stdin cwd v)
  else if named "wc" then Some (v, builtin_wc args stdin cwd v)
  else if named "sort" then Some (v, builtin_sort args stdin)
  else if named "uniq" then Some (v, builtin_uniq args stdin)
  else if named "tee" then Some (builtin_tee args stdin cwd v)
  else if named "sleep" then Some (v, builtin_sleep args)
  else if named "touch" then Some (builtin_touch args cwd v)
  else if named "test" then Some (v, builtin_test args cwd v)
  else if named "[" then Some (v, builtin_bracket_test args cwd v)
  else if named "basename" then Some (v, builtin_basename args)
  else if named "dirname" then Some (v, builtin_dirname args)
  else None.

Definition shell_try_builtin (program : str) (args : list str) (stdin cwd : str) (v : V)
    : V * option CommandResult :=
  match builtin_named program args stdin cwd v with
  | Some (v, r) => (v, Some r)
  | None => text_builtin program args stdin cwd v
  end.

(** A runner of external commands, which is optional. *)
Context (runner : option (str -> list str -> str -> str -> V -> V * option CommandResult)).

Definition shell_commands : Commands V :=
  {| try_builtin := shell_try_builtin; external := runner |}.

(** ** What the builtins keep of the filesystem *)

(** [J] is kept by every call of the trait that changes a filesystem. *)
Section Keep.
Context (J : V -> Prop) (HJ : forall v c, J v -> J (fst (run v c))).

Lemma keep_write p d v : J v -> J (fst (vfs_write v p d)).
Proof. apply (HJ v (CWrite p d)). Qed.
Lemma keep_mkdir p v : J v -> J (fst (vfs_mkdir v p)).
Proof. apply (HJ v (CMkdir p)). Qed.
Lemma keep_remove p v : J v -> J (fst (vfs_remove v p)).
Proof. apply (HJ v (CRemove p)). Qed.
Lemma keep_shell_write p d v : J v -> J (fst (shell_write_file p d v)).
Proof. unfold shell_write_file. destruct (str_eqb _ _); [done|apply keep_write]. Qed.

Lemma keep_pair {A B} (x : V * A) (f : A -> B) : J (fst x) -> J (fst (let '(v, r) := x in (v, f r))).
Proof. by destruct x. Qed.

Lemma keep_each paths step v : (forall p v, J v -> J (fst (step p v))) -> J v -> J (fst (each_operand paths step v)).
Proof.
  intros Hs; revert v; induction paths as [|p paths IH]; intros v Hv; cbn [each_operand]; [done|].
  specialize (Hs p v Hv). destruct (step p v) as [v' []]; cbn in Hs; auto.
Qed.

Lemma keep_mkdir_parts parts cur v : J v -> J (fst (mkdir_parts parts cur v)).
Proof.
  revert cur v; induction parts as [|p parts IH]; intros cur v Hv; cbn [mkdir_parts]; [done|].
  destruct (shell_exists _ _).
  - destruct (shell_metadata _ _) as [m|]; [destruct (is_dir m)|]; auto.
  - pose proof (keep_mkdir (cur ++ "/" ++ p) v Hv) as Hm. destruct (vfs_mkdir _ _) as [v' []]; cbn in Hm; auto.
Qed.

Lemma keep_mv args cwd v : J v -> J (fst (builtin_mv args cwd v)).
Proof.
  intros Hv. unfold builtin_mv. destruct args as [|a [|b args]]; try done. destruct (shell_read_file _ _); [|done].
  pose proof (keep_shell_write (resolve_against_cwd b cwd) a0 v Hv) as Hw.
  destruct (shell_write_file _ _ _) as [v' []]; [|done]. cbn in Hw.
  pose proof (keep_remove (resolve_against_cwd a cwd) v' Hw) as Hr. by destruct (vfs_remove _ _).
Qed.

Lemma keep_builtin_named program args stdin cwd v x :
  J v -> builtin_named program args stdin cwd v = Some x -> J (fst x).
Proof.
  intros Hv. unfold builtin_named.
  repeat (destruct (str_eqb program _); [intros [= <-]|]); try done.
  - unfold builtin_mkdir. destruct (List.filter _ _); [done|]. apply keep_each; [|done].
    intros p w Hw. destruct (has_flag _ _); apply keep_pair; [by apply keep_mkdir_parts|by apply keep_mkdir].
  - unfold builtin_cp. destruct args as [|a [|b args]]; try done. destruct (shell_read_file _ _); [|done].
    by apply keep_pair, keep_shell_write.
  - by apply keep_mv.
  - unfold builtin_rm. destruct (operands args); [done|]. apply keep_each; [|done].
    intros p w Hw. destruct (_ && _); [done|]. by apply keep_pair, keep_remove.
  - unfold builtin_tee. destruct args; [done|]. apply keep_each; [|done].
    intros p w Hw. by apply keep_pair, keep_shell_write.
  - unfold builtin_touch. destruct (operands args); [done|]. apply keep_each; [|done].
    intros p w Hw. destruct (is_ok _); [done|]. by apply keep_pair, keep_shell_write.
Qed.

(** A predicate on filesystems that the trait's calls keep, and the commands of the other files with
    them, is an invariant of the shell. *)
Lemma builtins_invariant :
  (forall program args stdin cwd v, J v -> J (fst (text_builtin program args stdin cwd v))) ->
  (forall f program args stdin cwd v, runner = Some f -> J v -> J (fst (f program args stdin cwd v))) ->
  @shell_invariant V _ shell_commands (fun s => J (shell_vfs s)).
Proof.
  intros Ht Hr. split; cbn; try done.
  - intros s p d. apply keep_write.
  - intros s program args stdin c Hs. unfold shell_try_builtin.
    destruct (builtin_named _ _ _ _ _) as [[v r]|] eqn:E; [|by apply Ht].
    by apply (keep_builtin_named _ _ _ _ _ _ Hs E).
  - intros s f program args stdin c Hs Hf. by apply Hr.
Qed.
End Keep.
End Builtins.

(** ** Sorting *)

#[export] Instance numeric_le_total reverse : Total (numeric_le reverse).
Proof.
  intros a b. unfold numeric_le. pose proof (Z.lt_trichotomy (leading_number a) (leading_number b)) as Hz.
  destruct (total str_le (trim_start a) (trim_start b)), reverse; intuition auto.
Qed.

#[export] Instance numeric_le_trans reverse : Transitive (numeric_le reverse).
Proof.
  intros a b c. unfold numeric_le. intros [H1|[H1 S1]] [H2|[H2 S2]].
  4: right; split; [congruence|by etrans].
  all: left; destruct reverse; lia.
Qed.

#[export] Instance sort_order_total numeric reverse : Total (sort_order numeric reverse).
Proof.
  unfold sort_order. destruct numeric; [apply _|]. destruct reverse; [|apply _].
  intros a b. destruct (total str_le a b); [by right|by left].
Qed.

#[export] Instance sort_order_trans numeric reverse : Transitive (sort_order numeric reverse).
Proof.
  unfold sort_order. destruct numeric; [apply _|]. destruct reverse; [|apply _].
  intros a b c H1 H2. unfold flip in *. by etrans.
Qed.

(** [sort] sorts: it prints the lines of its input, each as often as it occurs, in the order its
    flags ask for, by bytes or by the leading number, upwards or downwards. *)
Theorem sort_prints_sorted_lines args stdin :
  let order := sort_order (existsb (flag_contains "n" "--numeric-sort") args)
                          (existsb (flag_contains "r" "--reverse") args) in
  exists ls, builtin_sort args stdin = print_lines ls /\ ls ≡ₚ lines stdin /\ StronglySorted order ls.
Proof.
  intros order. eexists. split; [reflexivity|]. split; [apply merge_sort_Permutation|].
  apply StronglySorted_merge_sort; apply _.
Qed.
