(* ===== verification/MemoryFs.v ===== *)
(** * The in-memory filesystem

    Models [crates/simulacra-vfs/src/memory.rs] and [memory_atomic.rs]: a sorted map from normalised
    paths to entries behind one lock, with a revision counter, and the atomic operations that run
    against it.  Each operation is one critical section of the [RwLock], so it is a function of the
    state.  The [BTreeMap] is a [gmap] whose keys are listed in byte order.  The [u64] revision
    counter is unbounded here: it would take 2^64 writes to wrap.  The JSON codec of snapshots is
    [serde_json], a parameter.  Tracing spans are left out. *)

From S2P Require Import Prelude.
From S2P Require Import Segments.
From S2P Require Import Vfs.

Variant Entry :=
| File (data : bytes) (revision : N)
| Dir.

Record State := { map : gmap str Entry; next_revision : N }.

Definition set_map (s : State) (m : gmap str Entry) : State :=
  {| map := m; next_revision := next_revision s |}.

(** ** The keys of a [BTreeMap], in order *)

Definition keys (m : gmap str Entry) : list str := merge_sort str_le (elements (dom m)).

(** ** Helpers *)

Definition take_revision : SE State VfsError N := fun s =>
  let r := (next_revision s + 1)%N in
  ({| map := map s; next_revision := r |}, Ok r).

Definition or_insert (m : gmap str Entry) (k : str) (e : Entry) : gmap str Entry :=
  match m !! k with Some _ => m | None => <[k := e]> m end.

(** [path.split('/').filter(|s| !s.is_empty())]. *)
Definition path_segments (path : str) : list str :=
  List.filter (fun w => negb (str_eqb w [])) (split_on "/" path).

Fixpoint ensure_parents_loop (m : gmap str Entry) (path cur : str) (segs : list str)
    : gmap str Entry :=
  match segs with
  | [] => m
  | seg :: rest =>
      let cur := cur ++ "/" ++ seg in
      if str_eqb cur path then m
      else ensure_parents_loop (or_insert m cur Dir) path cur rest
  end.

Definition ensure_parents (m : gmap str Entry) (path : str) : gmap str Entry :=
  ensure_parents_loop m path [] (path_segments path).

Fixpoint reject_file_ancestor_loop (m : gmap str Entry) (path cur : str) (segs : list str)
    : result unit VfsError :=
  match segs with
  | [] => Ok tt
  | seg :: rest =>
      let cur := cur ++ "/" ++ seg in
      if str_eqb cur path then Ok tt
      else match m !! cur with
      | Some (File _ _) => Err (NotADirectory cur)
      | _ => reject_file_ancestor_loop m path cur rest
      end
  end.

Definition reject_file_ancestor (m : gmap str Entry) (path : str) : result unit VfsError :=
  reject_file_ancestor_loop m path [] (path_segments path).

Definition check (m : gmap str Entry) (path : str) (precondition : Precondition)
    : result unit VfsError :=
  match precondition, m !! path with
  | Unconditional, _ => Ok tt
  | MustBeAbsent, None => Ok tt
  | MustBeAbsent, Some _ => Err (Conflict (path ++ " exists"))
  | MustMatch want, Some (File _ revision) =>
      if (revision =? want)%N then Ok tt
      else Err (Conflict (path ++ " is not at revision " ++ dec want))
  | MustMatch want, _ => Err (Conflict (path ++ " is not at revision " ++ dec want))
  end.

Definition subtree (m : gmap str Entry) (path : str) : list str :=
  let prefix := path ++ "/" in
  List.filter (fun k => str_eqb k path || starts_with prefix k) (keys m).

Definition remove_keys (s : State) (ks : list str) : State :=
  set_map s (fold_left (fun m k => delete k m) ks (map s)).

(** ** Atomic operations *)

Definition write_if (path : str) (data : bytes) (precondition : Precondition)
    : SE State VfsError unit :=
  let path := normalize path in
  if str_eqb path "/" then se_err (NotAFile path)
  else
    let! s := se_get in
    let! _ := se_lift (check (map s) path precondition) in
    match map s !! path with
    | Some Dir => se_err (NotAFile path)
    | _ =>
        let! _ := se_lift (reject_file_ancestor (map s) path) in
        let! _ := se_modify (fun s => set_map s (ensure_parents (map s) path)) in
        let! revision := take_revision in
        se_modify (fun s => set_map s (<[path := File data revision]> (map s)))
    end.

(** The body of the rename loop for one key of the moved subtree. *)
Definition move_key (from to : str) (s : State) (key : str) : State :=
  match map s !! key with
  | None => s
  | Some entry =>
      let s := set_map s (delete key (map s)) in
      let moved := to ++ skipn (length from) key in
      match entry with
      | File data _ =>
          let r := (next_revision s + 1)%N in
          {| map := <[moved := File data r]> (map s); next_revision := r |}
      | Dir => set_map s (<[moved := Dir]> (map s))
      end
  end.

Definition apply_one (mutation : FsMutation) : SE State VfsError unit :=
  match mutation with
  | Write path data precondition => write_if path data precondition
  | Mkdir path =>
      let path := normalize path in
      let! s := se_get in
      match map s !! path with
      | Some Dir => se_ret tt
      | Some (File _ _) => se_err (NotAFile path)
      | None =>
          let! _ := se_lift (reject_file_ancestor (map s) path) in
          let! _ := se_modify (fun s => set_map s (ensure_parents (map s) path)) in
          se_modify (fun s => set_map s (<[path := Dir]> (map s)))
      end
  | Remove path precondition =>
      let path := normalize path in
      if str_eqb path "/" then se_err (Io "cannot remove root")
      else
        let! s := se_get in
        match map s !! path with
        | None => se_err (NotFound path)
        | Some _ =>
            let! _ := se_lift (check (map s) path precondition) in
            se_modify (fun s => remove_keys s (subtree (map s) path))
        end
  | Rename from to precondition =>
      let from := normalize from in
      let to := normalize to in
      let! s := se_get in
      match map s !! from with
      | None => se_err (NotFound from)
      | Some _ =>
          let! _ := se_lift (check (map s) from precondition) in
          match map s !! to with
          | Some _ => se_err (Conflict (to ++ " exists"))
          | None =>
              if str_eqb from "/" || starts_with (from ++ "/") to
              then se_err (Io ("cannot move " ++ from ++ " into itself"))
              else
                let! _ := se_lift (reject_file_ancestor (map s) to) in
                let! _ := se_modify (fun s => set_map s (ensure_parents (map s) to)) in
                se_modify (fun s => fold_left (move_key from to) (subtree (map s) from) s)
          end
      end
  end.

Fixpoint apply_all (mutations : list FsMutation) : SE State VfsError unit :=
  match mutations with
  | [] => se_ret tt
  | m :: rest => let! _ := apply_one m in apply_all rest
  end.

(** A batch of two or more runs on a scratch copy that replaces the state only if every item
    succeeded. *)
Definition apply (mutations : list FsMutation) : SE State VfsError unit :=
  match mutations with
  | [] => se_ret tt
  | [one] => apply_one one
  | _ => fun s =>
      let scratch := {| map := map s; next_revision := next_revision s |} in
      match apply_all mutations scratch with
      | (scratch, Ok _) => (scratch, Ok tt)
      | (_, Err e) => (s, Err e)
      end
  end.

(** ** The [VirtualFs] methods *)

Definition new : State := {| map := {[ lit "/" := Dir ]}; next_revision := 0 |}.

Definition read (s : State) (path : str) : result bytes VfsError :=
  let path := normalize path in
  match map s !! path with
  | Some (File data _) => Ok data
  | Some Dir => Err (NotAFile path)
  | None => Err (NotFound path)
  end.

Definition write (path : str) (data : bytes) : SE State VfsError unit :=
  let path := normalize path in
  if str_eqb path "/" then se_err (NotAFile path)
  else
    let! _ := se_modify (fun s => set_map s (ensure_parents (map s) path)) in
    let! revision := take_revision in
    se_modify (fun s => set_map s (<[path := File data revision]> (map s))).

Definition exists_ (s : State) (path : str) : bool :=
  match map s !! normalize path with Some _ => true | None => false end.

Definition list_dir (s : State) (path : str) : result (list str) VfsError :=
  let path := normalize path in
  match map s !! path with
  | Some Dir =>
      let prefix := if str_eqb path "/" then lit "/" else path ++ "/" in
      Ok (omap (fun key =>
            if str_eqb key path then None
            else match strip_prefix prefix key with
            | Some rest =>
                if negb (contains_char "/" rest) && negb (str_eqb rest []) then Some rest else None
            | None => None
            end) (keys (map s)))
  | Some (File _ _) => Err (NotADirectory path)
  | None => Err (NotFound path)
  end.

Definition mkdir (path : str) : SE State VfsError unit :=
  let path := normalize path in
  let! s := se_get in
  match map s !! path with
  | Some Dir => se_ret tt
  | Some (File _ _) => se_err (NotAFile path)
  | None =>
      let! _ := se_modify (fun s => set_map s (ensure_parents (map s) path)) in
      se_modify (fun s => set_map s (<[path := Dir]> (map s)))
  end.

Definition remove (path : str) : SE State VfsError unit :=
  let path := normalize path in
  if str_eqb path "/" then se_err (Io "cannot remove root")
  else
    let! s := se_get in
    match map s !! path with
    | None => se_err (NotFound path)
    | Some _ => se_modify (fun s => remove_keys s (subtree (map s) path))
    end.

Definition metadata (s : State) (path : str) : result FsMetadata VfsError :=
  let path := normalize path in
  match map s !! path with
  | Some (File data revision) =>
      Ok (with_revision (FsMetadata_file (N.of_nat (length data))) revision)
  | Some Dir => Ok FsMetadata_dir
  | None => Err (NotFound path)
  end.

Definition rename (from to : str) : SE State VfsError unit :=
  apply [Rename from to Unconditional].

(** The items a snapshot lists: path, whether it is a file, and the data. *)
Definition snapshot_items (s : State) : list (str * bool * bytes) :=
  List.map (fun k => match map s !! k with
                | Some (File data _) => (k, true, data)
                | _ => (k, false, [])
                end) (keys (map s)).

Definition restore_item (s : State) (item : str * bool * bytes) : State :=
  let '(p, is_file, data) := item in
  if is_file then
    let r := (next_revision s + 1)%N in
    {| map := <[p := File data r]> (map s); next_revision := r |}
  else set_map s (<[p := Dir]> (map s)).

(** [restore] after its snapshot was decoded. *)
Definition restore_items (s : State) (items : list (str * bool * bytes)) : State :=
  fold_left restore_item items (set_map s ∅).

(** ** Lookups after the primitive updates *)

Lemma path_segments_str segs : Forall plain_segment segs -> path_segments (path_str segs) = segs.
Proof.
  intros H. unfold path_segments. destruct segs as [|w ws]; [done|].
  change (path_str (w :: ws)) with (path_of (w :: ws)). rewrite split_path_of by done.
  change (List.filter ?f ([] :: ?l)) with (List.filter f l).
  induction H as [|v vs (Hv & _) _ IH]; [done|]. cbn [List.filter].
  destruct (str_eqb v []) eqn:E; bools; [done|]. cbn [negb]. by rewrite IH.
Qed.

(** [q] is a proper, non-root ancestor of [p]. *)
Definition strictly_above (q p : list str) : Prop := q <> [] /\ exists w k, p = q ++ w :: k.

Lemma path_of_nonempty w ws : path_of (w :: ws) <> [].
Proof. done. Qed.

Lemma or_insert_lookup m k e k' :
  or_insert m k e !! k' =
  match m !! k' with Some x => Some x | None => if decide (k = k') then Some e else None end.
Proof.
  unfold or_insert. destruct (m !! k) eqn:E.
  - case_decide; subst; [by rewrite E|by destruct (m !! k')].
  - rewrite lookup_insert. case_decide; subst; [by rewrite E|by destruct (m !! k')].
Qed.

Lemma ensure_loop_keep m path cur segs k e :
  m !! k = Some e -> ensure_parents_loop m path cur segs !! k = Some e.
Proof.
  revert m cur; induction segs as [|w segs IH]; intros m cur Hk; [done|]. cbn [ensure_parents_loop].
  destruct (str_eqb _ _); [done|]. apply IH. by rewrite or_insert_lookup, Hk.
Qed.

Lemma ensure_loop_new m cur segs k e :
  m !! k = None -> ensure_parents_loop m (cur ++ path_of segs) cur segs !! k = Some e ->
  e = Dir /\ exists ys w zs, segs = ys ++ w :: zs /\ ys <> [] /\ k = cur ++ path_of ys.
Proof.
  revert m cur; induction segs as [|w segs IH]; intros m cur Hk; [simpl; congruence|].
  cbn [ensure_parents_loop].
  destruct (str_eqb (cur ++ "/" ++ w) _) eqn:E; [congruence|bools].
  assert (segs <> []) as Hne by (intros ->; apply E; cbn; by rewrite app_nil_r).
  replace (cur ++ path_of (w :: segs)) with ((cur ++ "/" ++ w) ++ path_of segs)
    by (cbn; by rewrite <- app_assoc).
  destruct (decide (cur ++ "/" ++ w = k)) as [<-|Hd].
  - rewrite (ensure_loop_keep _ _ _ _ (cur ++ "/" ++ w) Dir);
      [|rewrite or_insert_lookup, Hk; by rewrite decide_True].
    intros [= <-]. split; [done|]. destruct segs as [|v vs]; [done|].
    exists [w], v, vs. split_and!; [done|done|]. cbn. by rewrite app_nil_r.
  - intros H. apply IH in H as (-> & ys & v & zs & -> & Hys & ->);
      [|rewrite or_insert_lookup, Hk; by rewrite decide_False].
    split; [done|]. exists (w :: ys), v, zs. split_and!; [done|done|]. cbn. by rewrite <- app_assoc.
Qed.

Lemma ensure_loop_made m cur ys w zs :
  ys <> [] ->
  is_Some (ensure_parents_loop m (cur ++ path_of (ys ++ w :: zs)) cur (ys ++ w :: zs)
             !! (cur ++ path_of ys)).
Proof.
  revert m cur; induction ys as [|y ys IH]; intros m cur Hne; [done|].
  cbn [app ensure_parents_loop].
  destruct (str_eqb (cur ++ "/" ++ y) _) eqn:E; bools.
  { exfalso. apply app_inv_head in E. change (path_of (y :: ys ++ w :: zs)) with
      ("/" ++ y ++ path_of (ys ++ w :: zs)) in E. apply app_inv_head in E.
    rewrite path_of_app in E. apply (f_equal length) in E. rewrite !length_app in E. cbn in E. lia. }
  replace (cur ++ path_of (y :: ys ++ w :: zs)) with ((cur ++ "/" ++ y) ++ path_of (ys ++ w :: zs))
    by (cbn; by rewrite <- app_assoc).
  destruct ys as [|y' ys].
  - exists (match m !! (cur ++ path_of [y]) with Some e => e | None => Dir end).
    apply ensure_loop_keep. rewrite or_insert_lookup.
    assert (cur ++ "/" ++ y = cur ++ path_of [y]) as -> by (cbn; by rewrite app_nil_r).
    destruct (m !! _); [done|]. by rewrite decide_True.
  - replace (cur ++ path_of (y :: y' :: ys)) with ((cur ++ "/" ++ y) ++ path_of (y' :: ys))
      by (cbn; by rewrite <- app_assoc).
    by apply IH.
Qed.

Lemma ensure_parents_at m p q :
  Forall plain_segment p -> Forall plain_segment q ->
  (forall e, m !! path_str q = Some e -> ensure_parents m (path_str p) !! path_str q = Some e) /\
  (m !! path_str q = None -> ~ strictly_above q p -> ensure_parents m (path_str p) !! path_str q = None) /\
  (m !! path_str q = None -> strictly_above q p ->
     ensure_parents m (path_str p) !! path_str q = Some Dir).
Proof.
  intros Hp Hq. unfold ensure_parents. rewrite path_segments_str by done. split_and!.
  - intros e. apply ensure_loop_keep.
  - intros Hn Ha. destruct p as [|w p]; [done|].
    destruct (ensure_parents_loop m (path_str (w :: p)) [] (w :: p) !! path_str q) eqn:E; [exfalso|done].
    change (path_str (w :: p)) with ([] ++ path_of (w :: p)) in E.
    apply ensure_loop_new in E as (_ & ys & v & zs & Ep & Hys & Ek); [|done].
    apply Ha. cbn [app] in Ek. rewrite Ep in Hp. apply Forall_app in Hp as [Hp _].
    assert (q = ys) as -> by (apply path_str_inj; [done|done|]; by destruct ys).
    split; [done|]. eauto.
  - intros Hn (Hne & v & k & ->). destruct q as [|u q]; [done|].
    change (path_str ((u :: q) ++ v :: k)) with ([] ++ path_of ((u :: q) ++ v :: k)).
    change (path_str (u :: q)) with ([] ++ path_of (u :: q)) in *.
    destruct (ensure_loop_made m [] (u :: q) v k Hne) as [e He]. rewrite He.
    by apply (ensure_loop_new m [] _ _ _ Hn) in He as [-> _].
Qed.

Lemma ensure_parents_key m p k e :
  Forall plain_segment p -> m !! k = None -> ensure_parents m (path_str p) !! k = Some e ->
  e = Dir /\ exists q, strictly_above q p /\ k = path_str q.
Proof.
  intros Hp Hk. unfold ensure_parents. rewrite path_segments_str by done.
  destruct p as [|w p]; [cbn; congruence|].
  change (path_str (w :: p)) with ([] ++ path_of (w :: p)).
  intros (-> & ys & v & zs & E & Hys & ->)%ensure_loop_new; [|done].
  split; [done|]. exists ys. split; [split; eauto|]. by destruct ys.
Qed.

(** ** Revisions *)

(** Every file has a revision the counter already reached, and no two files share one. *)
Definition rev_ok (s : State) : Prop :=
  (forall k d r, map s !! k = Some (File d r) -> (r <= next_revision s)%N) /\
  (forall k k' d d' r, map s !! k = Some (File d r) -> map s !! k' = Some (File d' r) -> k = k').

(** From [s] to [s'] the counter never goes back, and a file of [s'] is either a file of [s],
    unchanged, or carries a revision taken since. *)
Definition evolves (s s' : State) : Prop :=
  (next_revision s <= next_revision s')%N /\
  forall k d r, map s' !! k = Some (File d r) ->
    (next_revision s < r)%N \/ map s !! k = Some (File d r).

#[export] Instance evolves_preorder : PreOrder evolves.
Proof.
  split.
  - intros s. split; [lia|]. by right.
  - intros s1 s2 s3 [H1 K1] [H2 K2]. split; [lia|]. intros k d r Hk.
    destruct (K2 k d r Hk) as [|Hk2]; [left; lia|auto].
Qed.

Lemma rev_ok_sub s m :
  (forall k d r, m !! k = Some (File d r) -> map s !! k = Some (File d r)) ->
  evolves s (set_map s m) /\ (rev_ok s -> rev_ok (set_map s m)).
Proof.
  intros H. split; [split; [reflexivity|]; cbn; auto|].
  intros [Hb Hi]. split; cbn; intros; eauto.
Qed.

Lemma rev_ok_fresh s m key data :
  (forall k d r, m !! k = Some (File d r) -> map s !! k = Some (File d r)) ->
  let r := (next_revision s + 1)%N in
  let s' := {| map := <[key := File data r]> m; next_revision := r |} in
  evolves s s' /\ (rev_ok s -> rev_ok s').
Proof.
  intros H r s'. split.
  - split; [cbn; lia|]. cbn. intros k d r' Hk.
    destruct (decide (key = k)) as [->|]; simplify_map_eq; [left; lia|right; auto].
  - intros [Hb Hi]. split; cbn.
    + intros k d r' Hk. destruct (decide (key = k)) as [->|]; simplify_map_eq; [lia|].
      apply H, Hb in Hk. lia.
    + intros k k' d d' r' Hk Hk'.
      destruct (decide (key = k)), (decide (key = k')); simplify_map_eq; [done|..].
      * apply H, Hb in Hk'. lia.
      * apply H, Hb in Hk. lia.
      * eauto.
Qed.

Lemma ensure_parents_files m path k d r :
  ensure_parents m path !! k = Some (File d r) -> m !! k = Some (File d r).
Proof.
  unfold ensure_parents. generalize (path_segments path) as segs, (@nil ascii) as cur. intros segs.
  revert m; induction segs as [|w segs IH]; intros m cur; [done|]. cbn [ensure_parents_loop].
  destruct (str_eqb _ _); [done|]. intros Hk. apply IH in Hk. rewrite or_insert_lookup in Hk.
  destruct (m !! k); [done|]. by case_decide.
Qed.

Lemma fold_delete_lookup {A} (m : gmap str A) ks k :
  fold_left (fun m k => delete k m) ks m !! k = if decide (k ∈ ks) then None else m !! k.
Proof.
  revert m; induction ks as [|x ks IH]; intros m; cbn [fold_left]; [done|].
  rewrite IH, lookup_delete.
  destruct (decide (x = k)) as [->|Hx].
  - rewrite (decide_True (P := k ∈ k :: ks)) by by left. by destruct (decide (k ∈ ks)).
  - assert (k ∈ ks <-> k ∈ x :: ks) as Hiff by (rewrite elem_of_cons; naive_solver).
    by apply decide_ext.
Qed.

Lemma remove_keys_evolves s ks :
  evolves s (remove_keys s ks) /\ (rev_ok s -> rev_ok (remove_keys s ks)).
Proof.
  apply rev_ok_sub. intros k d r. rewrite fold_delete_lookup. by case_decide.
Qed.

Lemma move_key_evolves from to s k :
  evolves s (move_key from to s k) /\ (rev_ok s -> rev_ok (move_key from to s k)).
Proof.
  unfold move_key. destruct (map s !! k) as [[d r|]|] eqn:E; [| |split; [reflexivity|done]].
  - apply (rev_ok_fresh s (delete k (map s))). intros x d' r' Hx. by apply lookup_delete_Some in Hx as [_ Hx].
  - cbn. apply (rev_ok_sub s). intros x d' r' Hx.
    rewrite lookup_insert in Hx. case_decide; [done|].
    by apply lookup_delete_Some in Hx as [_ Hx].
Qed.

Lemma move_keys_evolves from to ks s :
  evolves s (fold_left (move_key from to) ks s) /\
  (rev_ok s -> rev_ok (fold_left (move_key from to) ks s)).
Proof.
  revert s; induction ks as [|k ks IH]; intros s; [split; [reflexivity|done]|]. cbn [fold_left].
  destruct (move_key_evolves from to s k) as [E1 R1], (IH (move_key from to s k)) as [E2 R2].
  split; [by etransitivity|auto].
Qed.

(** ** The shape of the tree *)

Record shape (m : gmap str Entry) : Prop := {
  shape_keys : forall k, is_Some (m !! k) -> exists q, Forall plain_segment q /\ k = path_str q;
  shape_root : m !! lit "/" = Some Dir;
  shape_closed : forall p q, Forall plain_segment q -> p `prefix_of` q ->
    is_Some (m !! path_str q) -> is_Some (m !! path_str p);
}.

Lemma Forall_prefix {A} (P : A -> Prop) p q : p `prefix_of` q -> Forall P q -> Forall P p.
Proof. intros [k ->] H. by apply Forall_app in H as [H _]. Qed.

Lemma strictly_above_prefix q p : strictly_above q p -> q `prefix_of` p.
Proof. intros (_ & w & k & ->). by eexists. Qed.

(** The three cases of a prefix. *)
Lemma prefix_cases q p : q `prefix_of` p -> q = p \/ q = [] \/ strictly_above q p.
Proof.
  intros [[|w k] ->]; [left; by rewrite app_nil_r|]. destruct q; [by right; left|].
  right; right. split; [done|]. eauto.
Qed.

Definition strictly_above_b (q p : list str) : bool :=
  negb (length q =? 0)%nat && bool_decide (q `prefix_of` p) && negb (bool_decide (q = p)).

Lemma strictly_above_b_true q p : strictly_above_b q p <-> strictly_above q p.
Proof.
  unfold strictly_above_b. rewrite !Is_true_true, !andb_true_iff, !negb_true_iff, bool_decide_eq_true,
    bool_decide_eq_false. split.
  - intros [[H0 H1] H2]. destruct (prefix_cases q p H1) as [|[->|]]; done.
  - intros (H0 & w & k & ->). split_and!; [by destruct q|by eexists|].
    intros E. rewrite <- (app_nil_r q) in E at 1. by apply app_inv_head in E.
Qed.

Definition put_map (m : gmap str Entry) (p : list str) (e : Entry) : gmap str Entry :=
  <[path_str p := e]> (ensure_parents m (path_str p)).

Lemma put_map_at m p q e :
  Forall plain_segment p -> Forall plain_segment q ->
  put_map m p e !! path_str q =
  if decide (q = p) then Some e else ensure_parents m (path_str p) !! path_str q.
Proof.
  intros Hp Hq. unfold put_map. rewrite lookup_insert. apply decide_ext.
  split; [|by intros ->]. intros E. symmetry. by apply path_str_inj.
Qed.

Lemma put_map_dom m p q e :
  Forall plain_segment p -> Forall plain_segment q ->
  is_Some (put_map m p e !! path_str q) <-> q = p \/ is_Some (m !! path_str q) \/ strictly_above q p.
Proof.
  intros Hp Hq. rewrite put_map_at by done. case_decide; [split; [by left|by eexists]|].
  destruct (ensure_parents_at m p q Hp Hq) as (K1 & K2 & K3).
  destruct (m !! path_str q) as [e'|] eqn:E.
  - rewrite (K1 e' eq_refl). split; [right; left|]; by eexists.
  - split.
    + intros HS. destruct (decide (strictly_above_b q p)) as [Hb|Hb].
      * right; right. by apply strictly_above_b_true.
      * rewrite K2 in HS; [by destruct HS|done|]. by rewrite <- strictly_above_b_true.
    + intros [?|[[? ?]|?]]; [done|done|]. rewrite K3 by done. by eexists.
Qed.

Lemma shape_put m p e :
  shape m -> Forall plain_segment p -> p <> [] -> shape (put_map m p e).
Proof.
  intros [Hk Hr Hc] Hp Hne. split.
  - intros k [e' Hin]. unfold put_map in Hin. rewrite lookup_insert in Hin.
    case_decide; [eauto|]. destruct (m !! k) eqn:E; [apply Hk; by eexists|].
    apply ensure_parents_key in Hin as (_ & q & Hq & ->); [|done..].
    exists q. split; [|done]. eapply Forall_prefix; [by apply strictly_above_prefix|done].
  - change (lit "/") with (path_str []). rewrite put_map_at by done. rewrite decide_False by done.
    destruct (ensure_parents_at m p [] Hp) as (K & _); [done|]. by apply K.
  - intros q r Hq Hqr. assert (Forall plain_segment q) by by eapply Forall_prefix.
    rewrite !put_map_dom by done.
    assert (Hup : q `prefix_of` p -> q = p \/ is_Some (m !! path_str q) \/ strictly_above q p).
    { intros [->|[->|]]%prefix_cases; [by left|right; left; exists Dir; exact Hr|by right; right]. }
    intros [->|[Hin|Ha]]; [by apply Hup|right; left; by apply (Hc q r)|].
    apply Hup. etransitivity; [exact Hqr|by apply strictly_above_prefix].
Qed.

Lemma elem_of_keys m k : k ∈ keys m <-> is_Some (m !! k).
Proof.
  unfold keys. rewrite (merge_sort_Permutation str_le), elem_of_elements, elem_of_dom. done.
Qed.

Lemma NoDup_keys m : NoDup (keys m).
Proof. unfold keys. rewrite (merge_sort_Permutation str_le). apply NoDup_elements. Qed.

Lemma elem_of_subtree m p k :
  shape m -> Forall plain_segment p -> p <> [] ->
  k ∈ subtree m (path_str p) <->
  is_Some (m !! k) /\ exists t, Forall plain_segment t /\ k = path_str (p ++ t).
Proof.
  intros Hs Hp Hne. unfold subtree. rewrite list_elem_of_In, filter_In, <- list_elem_of_In, elem_of_keys.
  rewrite orb_true_iff, str_eqb_true. split.
  - intros [Hk Hor]. split; [done|]. destruct (shape_keys m Hs k Hk) as (q & Hq & ->).
    apply path_within in Hor as [t ->]; [|done..]. exists t. split; [|done].
    by apply Forall_app in Hq as [_ Hq].
  - intros [Hk (t & Ht & ->)]. split; [done|].
    apply (path_within p (p ++ t)); [done| |done|by eexists]. by apply Forall_app.
Qed.

Lemma removed_at m p q :
  shape m -> Forall plain_segment p -> p <> [] -> Forall plain_segment q ->
  fold_left (fun m k => delete k m) (subtree m (path_str p)) m !! path_str q
  = if decide (p `prefix_of` q) then None else m !! path_str q.
Proof.
  intros Hs Hp Hne Hq. rewrite fold_delete_lookup.
  destruct (decide (p `prefix_of` q)) as [[t ->]|Hn].
  - case_decide as Hin; [done|]. destruct (m !! path_str (p ++ t)) eqn:E; [exfalso|done].
    apply Hin, elem_of_subtree; [done..|]. apply Forall_app in Hq as [_ Ht]. split; eauto.
  - case_decide as Hin; [exfalso|done]. apply elem_of_subtree in Hin as (_ & t & Ht & E); [|done..].
    apply path_str_inj in E as ->; [by apply Hn; eexists|done|]. by apply Forall_app.
Qed.

Lemma shape_remove m p :
  shape m -> Forall plain_segment p -> p <> [] ->
  shape (fold_left (fun m k => delete k m) (subtree m (path_str p)) m).
Proof.
  intros Hs Hp Hne. pose proof Hs as [Hk Hr Hc]. split.
  - intros k [e Hin]. rewrite fold_delete_lookup in Hin. case_decide; [done|]. apply Hk. by eexists.
  - change (lit "/") with (path_str []). rewrite removed_at by done.
    rewrite decide_False; [done|]. intros [t E]. by destruct p.
  - intros q r Hpr Hqr. assert (Forall plain_segment q) by by eapply Forall_prefix.
    rewrite !removed_at by done.
    destruct (decide (p `prefix_of` r)) as [|Hn]; [by intros [? ?]|].
    destruct (decide (p `prefix_of` q)) as [Hpq|]; [|by apply Hc].
    destruct Hn. by etransitivity.
Qed.

(** ** Moving a subtree *)

Definition node_of (e : Entry) : node :=
  match e with File d _ => FileNode d | Dir => DirNode end.

(** The tree a map stores. *)
Definition at_map (m : gmap str Entry) (q : list str) : option node := node_of <$> m !! path_str q.

Lemma at_map_None m q : at_map m q = None <-> m !! path_str q = None.
Proof. unfold at_map. destruct (m !! path_str q); done. Qed.

Lemma at_map_Some m q : at_map m q <> None <-> is_Some (m !! path_str q).
Proof. unfold at_map. destruct (m !! path_str q); split; try done; by eexists. Qed.

Lemma moved_suffix from t :
  from <> [] -> skipn (length (path_str from)) (path_str (from ++ t)) = path_of t.
Proof.
  intros Hne. destruct from as [|x xs]; [done|]. cbn [app path_str].
  change (path_of (x :: xs ++ t)) with (path_of ((x :: xs) ++ t)).
  by rewrite path_of_app, drop_app_length.
Qed.

Lemma path_str_app to t : to <> [] -> path_str to ++ path_of t = path_str (to ++ t).
Proof.
  intros Hne. destruct to as [|x xs]; [done|]. cbn [app path_str].
  change (path_of (x :: xs ++ t)) with (path_of ((x :: xs) ++ t)). by rewrite path_of_app.
Qed.

Lemma move_key_map from to t s e :
  from <> [] -> to <> [] -> map s !! path_str (from ++ t) = Some e ->
  exists e', node_of e' = node_of e /\
    map (move_key (path_str from) (path_str to) s (path_str (from ++ t)))
    = <[path_str (to ++ t) := e']> (delete (path_str (from ++ t)) (map s)).
Proof.
  intros Hf Ht E. unfold move_key. rewrite E, moved_suffix, path_str_app by done.
  destruct e as [d r|]; [exists (File d (next_revision s + 1)%N)|exists Dir]; done.
Qed.

Definition apart (from to : list str) : Prop := ~ from `prefix_of` to /\ ~ to `prefix_of` from.

Lemma apart_app from to t t' : apart from to -> from ++ t <> to ++ t'.
Proof.
  intros [H1 H2] E.
  destruct (prefix_weak_total from to (from ++ t)); [by eexists|rewrite E; by eexists|done|done].
Qed.

Section Move.
Context (from to : list str).
Hypothesis Hf : Forall plain_segment from.
Hypothesis Ht : Forall plain_segment to.
Hypothesis Hfne : from <> [].
Hypothesis Htne : to <> [].
Hypothesis Hapart : apart from to.

Definition source (t : list str) : str := path_str (from ++ t).
Definition target (t : list str) : str := path_str (to ++ t).

Lemma source_inj t t' :
  Forall plain_segment t -> Forall plain_segment t' -> source t = source t' -> t = t'.
Proof.
  intros H H' E. apply path_str_inj in E; [|by apply Forall_app..]. by apply app_inv_head in E.
Qed.

Lemma target_inj t t' :
  Forall plain_segment t -> Forall plain_segment t' -> target t = target t' -> t = t'.
Proof.
  intros H H' E. apply path_str_inj in E; [|by apply Forall_app..]. by apply app_inv_head in E.
Qed.

Lemma source_target t t' :
  Forall plain_segment t -> Forall plain_segment t' -> source t <> target t'.
Proof.
  intros H H' E. apply path_str_inj in E; [|by apply Forall_app..]. by apply apart_app in E.
Qed.

Lemma move_fold s tails :
  Forall (Forall plain_segment) tails -> NoDup tails ->
  (forall t, t ∈ tails -> is_Some (map s !! source t)) ->
  let s' := fold_left (move_key (path_str from) (path_str to)) (List.map source tails) s in
  (forall t, t ∈ tails ->
     node_of <$> map s' !! target t = node_of <$> map s !! source t /\ map s' !! source t = None) /\
  (forall k, (forall t, t ∈ tails -> k <> source t /\ k <> target t) -> map s' !! k = map s !! k).
Proof.
  intros Hpl Hnd. revert s; induction tails as [|t ts IH]; intros s Hin.
  { split; [by intros t ?%elem_of_nil|done]. }
  inversion Hpl as [|? ? Hpt Hpts]; subst. inversion Hnd as [|? ? Hnin Hnds]; subst.
  cbn [List.map fold_left]. destruct (Hin t) as [e He]; [by left|].
  destruct (move_key_map from to t s e Hfne Htne He) as (e' & Hnode & Hm).
  fold (source t) in Hm. fold (target t) in Hm.
  set (s1 := move_key _ _ s (source t)) in *.
  assert (Hs1 : forall k, k <> source t -> k <> target t -> map s1 !! k = map s !! k).
  { intros k H1 H2. rewrite Hm, lookup_insert_ne, lookup_delete_ne; done. }
  rewrite Forall_forall in Hpts.
  assert (Hts : forall t', t' ∈ ts -> source t' <> source t /\ source t' <> target t /\
    target t' <> target t /\ target t' <> source t).
  { intros t' Ht'. pose proof (Hpts _ Ht'). split_and!.
    - intros E. apply source_inj in E as ->; done.
    - by apply source_target.
    - intros E. apply target_inj in E as ->; done.
    - intros E. symmetry in E. by apply source_target in E. }
  destruct (IH ltac:(by apply Forall_forall) Hnds s1) as [K1 K2].
  { intros t' Ht'. destruct (Hts t' Ht') as (? & ? & _). rewrite Hs1 by done. apply Hin. by right. }
  split.
  - intros t' [->|Ht']%elem_of_cons.
    + rewrite !K2.
      * rewrite Hm, lookup_insert_eq, lookup_insert_ne, lookup_delete_eq, He;
          [|intros E; symmetry in E; by apply source_target in E].
        simpl. by rewrite Hnode.
      * intros u Hu. destruct (Hts u Hu) as (? & ? & ? & ?). split; congruence.
      * intros u Hu. destruct (Hts u Hu) as (? & ? & ? & ?). split; congruence.
    + destruct (K1 t' Ht') as [-> ->]. destruct (Hts t' Ht') as (? & ? & _).
      by rewrite Hs1.
  - intros k Hk. rewrite K2; [|intros u Hu; apply Hk; by right].
    destruct (Hk t) as [? ?]; [by left|]. by apply Hs1.
Qed.
End Move.

Lemma NoDup_subtree m p : NoDup (subtree m p).
Proof.
  unfold subtree. apply NoDup_ListNoDup, List.NoDup_filter, NoDup_ListNoDup, NoDup_keys.
Qed.

Lemma subtree_tails m from :
  shape m -> Forall plain_segment from -> from <> [] ->
  exists tails, subtree m (path_str from) = List.map (source from) tails /\
    Forall (Forall plain_segment) tails /\ NoDup tails /\
    (forall t, Forall plain_segment t -> t ∈ tails <-> is_Some (m !! source from t)).
Proof.
  intros Hs Hf Hne.
  assert (Hex : exists tails, subtree m (path_str from) = List.map (source from) tails /\
    Forall (Forall plain_segment) tails).
  { assert (H : forall k, k ∈ subtree m (path_str from) ->
      exists t, Forall plain_segment t /\ k = source from t)
      by (intros k Hk; by apply elem_of_subtree in Hk as (_ & ?)).
    revert H. generalize (subtree m (path_str from)) as l. induction l as [|k l IH]; intros H.
    - by exists [].
    - destruct (H k) as (t & Ht & ->); [by left|].
      destruct IH as (ts & -> & Hts); [intros k Hk; apply H; by right|].
      exists (t :: ts). split; [done|by constructor]. }
  destruct Hex as (tails & E & Hp). exists tails. split_and!; [done|done| |].
  - pose proof (NoDup_subtree m (path_str from)) as Hn. rewrite E in Hn.
    by apply (NoDup_fmap_1 (source from)).
  - intros t Ht. split.
    + intros Hin. apply (elem_of_subtree m from); [done..|]. rewrite E.
      by apply list_elem_of_In, in_map, list_elem_of_In.
    + intros Hin. assert (source from t ∈ subtree m (path_str from)) as Hk
        by (apply elem_of_subtree; [done..|]; split; [done|by exists t]).
      rewrite E, list_elem_of_In, in_map_iff in Hk. destruct Hk as (t' & Et & Hk).
      rewrite <- list_elem_of_In in Hk. rewrite Forall_forall in Hp.
      apply source_inj in Et as ->; auto.
Qed.

Lemma ensure_dom m p q :
  Forall plain_segment p -> Forall plain_segment q ->
  is_Some (ensure_parents m (path_str p) !! path_str q) <-> is_Some (m !! path_str q) \/ strictly_above q p.
Proof.
  intros Hp Hq. destruct (ensure_parents_at m p q Hp Hq) as (K1 & K2 & K3).
  destruct (m !! path_str q) as [e|].
  - rewrite (K1 e eq_refl). split; [by left|]. by eexists.
  - destruct (decide (strictly_above_b q p)) as [Hb|Hb]; rewrite strictly_above_b_true in Hb.
    + rewrite K3 by done. split; [by right|by eexists].
    + rewrite K2 by done. split; [by left|]. intros [|]; done.
Qed.

Lemma shape_ensure m p : shape m -> Forall plain_segment p -> shape (ensure_parents m (path_str p)).
Proof.
  intros [Hk Hr Hc] Hp. split.
  - intros k [e Hin]. destruct (m !! k) eqn:E; [apply Hk; by eexists|].
    apply ensure_parents_key in Hin as (_ & q & Hq & ->); [|done..].
    exists q. split; [|done]. eapply Forall_prefix; [by apply strictly_above_prefix|done].
  - destruct (ensure_parents_at m p [] Hp) as (K & _); [done|]. by apply K.
  - intros q r Hpr Hqr. assert (Forall plain_segment q) by by eapply Forall_prefix.
    rewrite !ensure_dom by done. intros [Hin|Ha]; [left; by apply (Hc q r)|].
    apply strictly_above_prefix in Ha as Hrp.
    assert (q `prefix_of` p) as [->|[->|?]]%prefix_cases by by etransitivity.
    + destruct Ha as (_ & w & k & E). exfalso. destruct Hqr as [j ->].
      apply (f_equal length) in E. rewrite !length_app in E. cbn in E. lia.
    + left. exists Dir. exact Hr.
    + by right.
Qed.

(** The sources and targets of a move, once the target's parents exist. *)
Lemma ensure_source m from to t :
  Forall plain_segment to -> Forall plain_segment (from ++ t) -> ~ from `prefix_of` to ->
  ensure_parents m (path_str to) !! path_str (from ++ t) = m !! path_str (from ++ t).
Proof.
  intros Ht Hft Hnp. destruct (ensure_parents_at m to (from ++ t) Ht Hft) as (K1 & K2 & _).
  destruct (m !! path_str (from ++ t)) as [e|] eqn:E; [by apply K1|apply K2; [done|]].
  intros Ha%strictly_above_prefix. apply Hnp. etransitivity; [|exact Ha]. by eexists.
Qed.

Lemma ensure_target m to t :
  shape m -> Forall plain_segment (to ++ t) -> m !! path_str to = None ->
  ensure_parents m (path_str to) !! path_str (to ++ t) = None.
Proof.
  intros Hs Htt Hto. pose proof Htt as [Ht _]%Forall_app.
  destruct (ensure_parents_at m to (to ++ t) Ht Htt) as (_ & K2 & _). apply K2.
  - destruct (m !! path_str (to ++ t)) eqn:E; [exfalso|done].
    destruct (shape_closed m Hs to (to ++ t)) as [e' He']; [done|by eexists|by eexists|congruence].
  - intros (_ & w & k & E). apply (f_equal length) in E. rewrite !length_app in E. cbn in E. lia.
Qed.

Section Rename.
Context (m : gmap str Entry) (s1 : State) (from to : list str).
Hypothesis Hs : shape m.
Hypothesis Es1 : map s1 = ensure_parents m (path_str to).
Hypothesis Hf : Forall plain_segment from.
Hypothesis Ht : Forall plain_segment to.
Hypothesis Hfne : from <> [].
Hypothesis Hfrom : is_Some (m !! path_str from).
Hypothesis Hto : m !! path_str to = None.
Hypothesis Hnp : ~ from `prefix_of` to.

Definition renamed_state : State :=
  fold_left (move_key (path_str from) (path_str to)) (subtree (map s1) (path_str from)) s1.

Lemma rename_to_not_root : to <> [].
Proof.
  intros E. rewrite E in Hto. change (path_str []) with (lit "/") in Hto.
  by rewrite (shape_root m Hs) in Hto.
Qed.

Lemma rename_apart : apart from to.
Proof.
  split; [done|]. intros Hpre. destruct (shape_closed m Hs to from Hf Hpre Hfrom) as [e He].
  congruence.
Qed.

(** The loop, in terms of the relative paths it moves. *)
Lemma renamed_facts :
  exists tails : list (list str),
    (forall t, t ∈ tails <-> Forall plain_segment t /\ is_Some (m !! source from t)) /\
    (forall t, t ∈ tails ->
       node_of <$> map renamed_state !! target to t = node_of <$> m !! source from t /\
       map renamed_state !! source from t = None) /\
    (forall k, (forall t, t ∈ tails -> k <> source from t /\ k <> target to t) ->
       map renamed_state !! k = ensure_parents m (path_str to) !! k).
Proof.
  pose proof (shape_ensure m to Hs Ht) as Hs1.
  destruct (subtree_tails _ from Hs1 Hf Hfne) as (tails & Et & Hpl & Hnd & Hin).
  assert (Hsrc : forall t, Forall plain_segment t ->
    ensure_parents m (path_str to) !! source from t = m !! source from t)
    by (intros t Hpt; apply ensure_source; [done| |done]; by apply Forall_app).
  destruct (move_fold from to Hf Ht Hfne rename_to_not_root rename_apart s1 tails Hpl Hnd)
    as [K1 K2].
  { intros t Hint. rewrite Es1. rewrite Forall_forall in Hpl. by apply Hin; auto. }
  exists tails. unfold renamed_state. rewrite Es1, Et. rewrite Forall_forall in Hpl. split_and!.
  - intros t. split.
    + intros Hint. split; [by auto|]. rewrite <- Hsrc by auto. by apply Hin; auto.
    + intros [Hpt Hm]. apply Hin; [done|]. by rewrite Hsrc.
  - intros t Hint. destruct (K1 t Hint) as [E1 E2]. rewrite E1, Es1, Hsrc by auto. done.
  - intros k Hk. by rewrite K2, Es1.
Qed.

Lemma renamed_target t : Forall plain_segment t ->
  at_map (map renamed_state) (to ++ t) = at_map m (from ++ t).
Proof.
  intros Hpt. destruct renamed_facts as (tails & Hin & K1 & K2). unfold at_map.
  destruct (decide (t ∈ tails)) as [Hint|Hnin]; [by apply K1|].
  pose proof (K2 (path_str (to ++ t))) as E. rewrite E; [|intros u Hu; apply Hin in Hu as [Hpu Hu]; split].
  - rewrite ensure_target; [|done|by apply Forall_app|done].
    destruct (m !! path_str (from ++ t)) eqn:Em; [|done].
    destruct Hnin. apply Hin. split; [done|]. by eexists.
  - intros E'. symmetry in E'. by apply (source_target from to Hf Ht rename_apart) in E'.
  - intros E'. apply (target_inj to Ht) in E' as ->; [|done..]. apply Hnin, Hin. done.
Qed.

Lemma renamed_source t : Forall plain_segment t -> at_map (map renamed_state) (from ++ t) = None.
Proof.
  intros Hpt. destruct renamed_facts as (tails & Hin & K1 & K2). apply at_map_None.
  destruct (decide (t ∈ tails)) as [Hint|Hnin]; [by apply K1|].
  pose proof (K2 (path_str (from ++ t))) as E. rewrite E; [|intros u Hu; apply Hin in Hu as [Hpu Hu]; split].
  - rewrite ensure_source; [|done|by apply Forall_app|done].
    destruct (m !! path_str (from ++ t)) eqn:Em; [|done].
    destruct Hnin. apply Hin. split; [done|]. by eexists.
  - intros E'. apply (source_inj from Hf) in E' as ->; [|done..]. apply Hnin, Hin. done.
  - apply (source_target from to Hf Ht rename_apart); done.
Qed.

Lemma renamed_other q : Forall plain_segment q -> ~ from `prefix_of` q -> ~ to `prefix_of` q ->
  map renamed_state !! path_str q = ensure_parents m (path_str to) !! path_str q.
Proof.
  intros Hq H1 H2. destruct renamed_facts as (tails & Hin & K1 & K2). apply K2.
  intros t [Hpt _]%Hin. unfold source, target.
  split; intros E; apply path_str_inj in E as ->; try (by apply Forall_app); try done;
    [apply H1|apply H2]; by eexists.
Qed.

Lemma renamed_keys k : is_Some (map renamed_state !! k) ->
  exists q, Forall plain_segment q /\ k = path_str q.
Proof.
  intros Hk. destruct renamed_facts as (tails & Hin & K1 & K2).
  destruct (decide (Exists (fun t => k = source from t \/ k = target to t) tails)) as [Hex|Hnex].
  { apply Exists_exists in Hex as (t & [Hpt _]%Hin & [->| ->]);
      eexists; (split; [|done]); by apply Forall_app. }
  rewrite K2 in Hk; [by apply (shape_keys _ (shape_ensure m to Hs Ht))|].
  intros t Hint. split; intros ->; apply Hnex, Exists_exists; eauto.
Qed.

Lemma renamed_shape : shape (map renamed_state).
Proof.
  assert (Hsome : forall q, is_Some (map renamed_state !! path_str q) <-> at_map (map renamed_state) q <> None)
    by (intros q; by rewrite at_map_Some).
  pose proof rename_to_not_root as Htne.
  pose proof (shape_ensure m to Hs Ht) as Hs1. split; [apply renamed_keys| |].
  - change (lit "/") with (path_str []). rewrite renamed_other; [by apply shape_root|done| |];
      intros [k E]; [by destruct from|by destruct to].
  - intros q r Hr Hqr. assert (Forall plain_segment q) as Hq by by eapply Forall_prefix.
    rewrite !Hsome. destruct (decide (to `prefix_of` r)) as [[t ->]|Hnr].
    + apply Forall_app in Hr as [_ Hpt]. rewrite renamed_target, at_map_Some by done. intros Hin.
      destruct (prefix_weak_total q to (to ++ t)) as [Hqt|[u ->]]; [done|by eexists| |].
      * destruct (decide (q = to)) as [->|Hne].
        { rewrite <- (app_nil_r to), renamed_target, app_nil_r, at_map_Some by done. done. }
        rewrite <- Hsome, renamed_other; [|done| |].
        -- apply ensure_dom; [done..|]. apply prefix_cases in Hqt as [|[->|]]; [done| |by right].
           left. exists Dir. by apply shape_root.
        -- intros Hfq. apply Hnp. by etransitivity.
        -- intros Htq. apply Hne. apply (anti_symm prefix); done.
      * rewrite renamed_target by (by apply Forall_app in Hq as [_ ?]). rewrite at_map_Some.
        apply prefix_app_inv in Hqr. eapply (shape_closed m Hs _ (from ++ t)); [|by apply prefix_app|done].
        by apply Forall_app.
    + destruct (decide (from `prefix_of` r)) as [[t ->]|Hnf].
      { rewrite renamed_source; [done|]. by apply Forall_app in Hr as [_ ?]. }
      assert (~ to `prefix_of` q) by (intros ?; apply Hnr; by etransitivity).
      assert (~ from `prefix_of` q) by (intros ?; apply Hnf; by etransitivity).
      rewrite <- !Hsome, !renamed_other by done. by apply (shape_closed _ Hs1).
Qed.
End Rename.

(** ** Effects of the operations *)

Definition mem_inv (s : State) : Prop := shape (map s) /\ rev_ok s.
Definition mem_at (s : State) (q : list str) : option node := at_map (map s) q.

(** What a successful operation did, with the paths it is accounted to (and whether the path's
    subtree goes with it). *)
Inductive effect (s : State) : list (list str * bool) -> State -> Prop :=
| eff_none ts : effect s ts s
| eff_put_dir p :
    Forall plain_segment p -> p <> [] ->
    effect s [(p, false)] (set_map s (put_map (map s) p Dir))
| eff_put_file p d :
    Forall plain_segment p -> p <> [] ->
    let r := (next_revision s + 1)%N in
    effect s [(p, false)] {| map := put_map (map s) p (File d r); next_revision := r |}
| eff_remove p :
    Forall plain_segment p -> p <> [] ->
    effect s [(p, true)] (remove_keys s (subtree (map s) (path_str p)))
| eff_rename from to :
    Forall plain_segment from -> Forall plain_segment to -> from <> [] ->
    is_Some (map s !! path_str from) -> map s !! path_str to = None -> ~ from `prefix_of` to ->
    effect s [(from, true); (to, false)]
      (renamed_state (set_map s (ensure_parents (map s) (path_str to))) from to).

Lemma put_map_files m p e k d r :
  put_map m p e !! k = Some (File d r) ->
  (k = path_str p /\ e = File d r) \/ m !! k = Some (File d r).
Proof.
  unfold put_map. rewrite lookup_insert. case_decide as Hk.
  - intros [= ->]. by left.
  - intros H%ensure_parents_files. by right.
Qed.

Lemma effect_evolves s ts s' : effect s ts s' -> evolves s s' /\ (rev_ok s -> rev_ok s').
Proof.
  intros [?|p Hp Hne|p d Hp Hne r|p Hp Hne|from to Hf Ht Hfne Hs Hto Hnp].
  - split; [reflexivity|done].
  - apply rev_ok_sub. intros k d r [[_ ?]|?]%put_map_files; done.
  - apply (rev_ok_fresh s). intros k d' r'. apply ensure_parents_files.
  - apply remove_keys_evolves.
  - destruct (rev_ok_sub s (ensure_parents (map s) (path_str to))) as [E1 R1];
      [intros k d r; apply ensure_parents_files|].
    unfold renamed_state. destruct (move_keys_evolves (path_str from) (path_str to)
      (subtree (map (set_map s (ensure_parents (map s) (path_str to)))) (path_str from))
      (set_map s (ensure_parents (map s) (path_str to)))) as [E2 R2].
    split; [by etransitivity|auto].
Qed.

Lemma effect_shape s ts s' : shape (map s) -> effect s ts s' -> shape (map s').
Proof.
  intros Hs [?|p Hp Hne|p d Hp Hne r|p Hp Hne|from to Hf Ht Hfne Hfrom Hto Hnp]; cbn.
  - done.
  - by apply shape_put.
  - by apply shape_put.
  - by apply shape_remove.
  - by apply (renamed_shape (map s)).
Qed.

Lemma effect_inv s ts s' : mem_inv s -> effect s ts s' -> mem_inv s'.
Proof.
  intros [Hs Hr] He. split; [by eapply effect_shape|]. by eapply effect_evolves.
Qed.

Definition disturbs_segs (at_ : list str -> option node) (t : list str * bool) (q : list str) : Prop :=
  q = t.1 \/ (t.1 `prefix_of` q /\ (t.2 = true \/ at_ t.1 = None)) \/ (q `prefix_of` t.1 /\ at_ q = None).

Lemma at_ensure m p q :
  Forall plain_segment p -> Forall plain_segment q -> ~ (q `prefix_of` p /\ at_map m q = None) ->
  at_map (ensure_parents m (path_str p)) q = at_map m q.
Proof.
  intros Hp Hq Hn. unfold at_map. destruct (ensure_parents_at m p q Hp Hq) as (K1 & K2 & _).
  destruct (m !! path_str q) eqn:E; [by rewrite (K1 _ eq_refl)|]. rewrite K2; [done|done|].
  intros Ha%strictly_above_prefix. apply Hn. split; [done|]. by apply at_map_None.
Qed.

Lemma at_put m p q e :
  Forall plain_segment p -> Forall plain_segment q ->
  q <> p -> ~ (q `prefix_of` p /\ at_map m q = None) ->
  at_map (put_map m p e) q = at_map m q.
Proof.
  intros Hp Hq Hne Hn. rewrite <- (at_ensure m p q) by done. unfold at_map.
  by rewrite put_map_at, decide_False by done.
Qed.

Lemma effect_frame s ts s' q :
  shape (map s) -> effect s ts s' -> Forall plain_segment q ->
  (forall t, t ∈ ts -> ~ disturbs_segs (mem_at s) t q) -> mem_at s' q = mem_at s q.
Proof.
  intros Hs He Hq Hd. unfold mem_at, disturbs_segs in *.
  destruct He as [?|p Hp Hne|p d Hp Hne r|p Hp Hne|from to Hf Ht Hfne Hfrom Hto Hnp];
    cbn [map set_map remove_keys]; [done|..].
  - specialize (Hd (p, false)); cbn in Hd. apply at_put; [done|done|..]; intros ?; apply Hd; [left|tauto|left|tauto].
  - specialize (Hd (p, false)); cbn in Hd. apply at_put; [done|done|..]; intros ?; apply Hd; [left|tauto|left|tauto].
  - specialize (Hd (p, true)); cbn in Hd. unfold at_map. rewrite removed_at by done.
    rewrite decide_False; [done|]. intros ?. apply Hd; [left|tauto].
  - pose proof (Hd (from, true)) as H1. pose proof (Hd (to, false)) as H2. cbn in H1, H2.
    assert (~ from `prefix_of` q) by (intros ?; apply H1; [left|tauto]).
    assert (~ to `prefix_of` q).
    { intros ?. apply H2; [right; left|]. right; left. split; [done|right]. by apply at_map_None. }
    rewrite <- (at_ensure (map s) to q); [|done|done|].
    + unfold at_map. by erewrite (renamed_other (map s)).
    + intros ?. apply H2; [right; left|tauto].
Qed.

(** ** Each operation has the effect its touched paths announce, or fails unchanged *)

Definition outcome (s : State) (ts : list (list str * bool)) (res : State * result unit VfsError) : Prop :=
  match res with
  | (s', Ok _) => effect s ts s'
  | (s', Err _) => s' = s
  end.

Definition touch_segs (t : Touch) : list str * bool := (segs_of (touch_path t), takes_subtree t).

Ltac se_run :=
  cbv beta delta [se_bind se_get se_lift se_ret se_err se_modify take_revision]; cbv beta iota.

Ltac root_case path :=
  let E := fresh "Eroot" in
  destruct (str_eqb (normalize path) "/") eqn:E;
  [apply normalize_is_root in E
  |apply not_true_iff_false in E; rewrite normalize_is_root in E;
   rewrite ?(normalize_str path);
   let H := fresh "Hplain" in pose proof (segs_of_plain path) as H].

Lemma set_map_set_map s m m' : set_map (set_map s m) m' = set_map s m'.
Proof. done. Qed.

Lemma write_outcome path data s : outcome s [(segs_of path, false)] (write path data s).
Proof.
  unfold write. root_case path; [done|]. se_run. cbn. by apply eff_put_file.
Qed.

Lemma mkdir_outcome path s : shape (map s) -> outcome s [(segs_of path, false)] (mkdir path s).
Proof.
  intros Hs. unfold mkdir. rewrite normalize_str. se_run.
  destruct (map s !! path_str (segs_of path)) as [[d r|]|] eqn:E; cbn; [done|constructor|].
  apply eff_put_dir; [apply segs_of_plain|]. intros E'. rewrite E' in E.
  change (path_str []) with (lit "/") in E. by rewrite (shape_root _ Hs) in E.
Qed.

Lemma remove_outcome path s : outcome s [(segs_of path, true)] (remove path s).
Proof.
  unfold remove. root_case path; [done|]. se_run.
  destruct (map s !! path_str (segs_of path)); cbn; [|done]. by apply eff_remove.
Qed.

Lemma write_if_outcome path data pre s : outcome s [(segs_of path, false)] (write_if path data pre s).
Proof.
  unfold write_if. root_case path; [done|]. se_run.
  destruct (check _ _ _) as [[]|]; [|done].
  destruct (map s !! path_str (segs_of path)) as [[d r|]|]; [|done|];
    (destruct (reject_file_ancestor _ _) as [[]|]; [|done]; cbn; by apply eff_put_file).
Qed.

Lemma touch_segs_touch p b : touch_segs (touch p b) = (segs_of p, b).
Proof. unfold touch_segs, touch. cbn [touch_path takes_subtree]. by rewrite segs_of_normalize. Qed.

Lemma mutation_touch_segs m :
  List.map touch_segs (mutation_touches m) =
  match m with
  | Write p _ _ | Mkdir p => [(segs_of p, false)]
  | Remove p _ => [(segs_of p, true)]
  | Rename from to _ => [(segs_of from, true); (segs_of to, false)]
  end.
Proof.
  destruct m; unfold mutation_touches; cbn [mutation_paths imap compose List.map];
    rewrite ?touch_segs_touch; done.
Qed.

Lemma rename_ok s s' from to pre :
  apply_one (Rename from to pre) s = (s', Ok tt) ->
  segs_of from <> [] /\ is_Some (map s !! path_str (segs_of from)) /\
  map s !! path_str (segs_of to) = None /\ ~ segs_of from `prefix_of` segs_of to /\
  s' = renamed_state (set_map s (ensure_parents (map s) (path_str (segs_of to))))
         (segs_of from) (segs_of to).
Proof.
  cbn [apply_one]. rewrite !normalize_str. se_run.
  destruct (map s !! path_str (segs_of from)) eqn:Ef; [|done].
  destruct (check _ _ _) as [[]|]; [|done].
  destruct (map s !! path_str (segs_of to)) eqn:Et; [done|].
  destruct (_ || _) eqn:Eg; [done|]. apply orb_false_iff in Eg as [E1 E2].
  destruct (reject_file_ancestor _ _) as [[]|]; [|done]. intros [= <-].
  assert (segs_of from <> []) as Hne.
  { intros E. apply not_true_iff_false in E1. apply E1. apply str_eqb_true. by rewrite E. }
  split_and!; [done|done|done| |done]. intros Hp.
  apply (path_within _ _ (segs_of_plain from) (segs_of_plain to) Hne) in Hp as [Hp|Hp]; congruence.
Qed.

(** [mkdir] needs the root to be there: it would otherwise make it. *)
Lemma apply_one_outcome_gen m s :
  ((exists p, m = Mkdir p) -> shape (map s)) -> outcome s (List.map touch_segs (mutation_touches m)) (apply_one m s).
Proof.
  intros Hs. destruct m as [path data pre|path|path pre|from to pre]; cbn [apply_one];
    rewrite mutation_touch_segs.
  - apply write_if_outcome.
  - rewrite normalize_str. se_run.
    destruct (map s !! path_str (segs_of path)) as [[d r|]|] eqn:E; cbn; [done|constructor|].
    destruct (reject_file_ancestor _ _) as [[]|]; [|done]. cbn.
    apply eff_put_dir; [apply segs_of_plain|]. intros E'. rewrite E' in E.
    change (path_str []) with (lit "/") in E. by rewrite (shape_root _ (Hs (ex_intro _ _ eq_refl))) in E.
  - root_case path; [done|]. se_run.
    destruct (map s !! path_str (segs_of path)); [|done].
    destruct (check _ _ _) as [[]|]; [|done]. by apply eff_remove.
  - change (outcome s [(segs_of from, true); (segs_of to, false)] (apply_one (Rename from to pre) s)).
    destruct (apply_one (Rename from to pre) s) as [s' [[]|e]] eqn:E; cbn [outcome].
    + apply rename_ok in E as (? & ? & ? & ? & ->).
      apply eff_rename; [apply segs_of_plain..|done|done|done|done].
    + cbn [apply_one] in E. revert E. se_run. repeat break_match; by intros [= <- _].
Qed.

Lemma apply_one_outcome m s :
  shape (map s) -> outcome s (List.map touch_segs (mutation_touches m)) (apply_one m s).
Proof. intros Hs. by apply apply_one_outcome_gen. Qed.

(** *** Revisions, whatever the tree looks like *)

Definition tidy (s s' : State) : Prop := evolves s s' /\ (rev_ok s -> rev_ok s').

#[export] Instance tidy_preorder : PreOrder tidy.
Proof.
  split; [by split; [reflexivity|]|].
  intros s1 s2 s3 [E1 R1] [E2 R2]. split; [by etransitivity|auto].
Qed.

Lemma outcome_tidy s ts res : outcome s ts res -> tidy s (fst res).
Proof.
  destruct res as [s' [[]|e]]; cbn; [apply effect_evolves|by intros ->].
Qed.

Lemma put_dir_tidy s p : tidy s (set_map s (put_map (map s) p Dir)).
Proof. apply rev_ok_sub. intros k d r [[_ ?]|?]%put_map_files; done. Qed.

Lemma mkdir_tidy path s : tidy s (fst (mkdir path s)).
Proof.
  unfold mkdir. rewrite normalize_str. se_run.
  destruct (map s !! path_str (segs_of path)) as [[d r|]|] eqn:E; cbn; [done..|].
  exact (put_dir_tidy s (segs_of path)).
Qed.

Lemma apply_one_tidy m s : tidy s (fst (apply_one m s)).
Proof.
  destruct m as [path data pre|path|path pre|from to pre];
    [eapply outcome_tidy, apply_one_outcome_gen; by intros [? ?]| |
     eapply outcome_tidy, apply_one_outcome_gen; by intros [? ?]..].
  cbn [apply_one]. rewrite normalize_str. se_run.
  destruct (map s !! path_str (segs_of path)) as [[d r|]|] eqn:E; cbn; [done..|].
  destruct (reject_file_ancestor _ _) as [[]|]; cbn; [exact (put_dir_tidy s (segs_of path))|done].
Qed.

Lemma apply_all_tidy ms s : tidy s (fst (apply_all ms s)).
Proof.
  revert s; induction ms as [|m ms IH]; intros s; cbn; [done|]. unfold se_bind.
  pose proof (apply_one_tidy m s) as H. destruct (apply_one m s) as [s1 [[]|e]]; cbn in *; [|done].
  by etransitivity.
Qed.

Lemma scratch_copy s : {| map := map s; next_revision := next_revision s |} = s.
Proof. by destruct s. Qed.

Lemma apply_tidy ms s : tidy s (fst (apply ms s)).
Proof.
  destruct ms as [|m [|m' ms]]; [done|apply apply_one_tidy|].
  cbn [apply]. rewrite scratch_copy. pose proof (apply_all_tidy (m :: m' :: ms) s) as H.
  by destruct (apply_all (m :: m' :: ms) s) as [s1 [[]|e]].
Qed.

Lemma apply_one_error m s s' e : shape (map s) -> apply_one m s = (s', Err e) -> s' = s.
Proof. intros Hs E. pose proof (apply_one_outcome m s Hs) as H. by rewrite E in H. Qed.

(** ** Batches *)

(** A batch is all its items in order, or no change. *)
Lemma apply_spec ms s :
  shape (map s) ->
  apply ms s = match apply_all ms s with
               | (s', Ok _) => (s', Ok tt)
               | (_, Err e) => (s, Err e)
               end.
Proof.
  intros Hs. destruct ms as [|m [|m' ms]]; [done| |].
  - cbn. unfold se_bind, se_ret. destruct (apply_one m s) as [s1 [[]|e]] eqn:E; [done|].
    f_equal. by eapply apply_one_error.
  - cbn [apply]. by rewrite scratch_copy.
Qed.

Lemma apply_one_inv m s s' : mem_inv s -> apply_one m s = (s', Ok tt) -> mem_inv s'.
Proof.
  intros Hi E. pose proof (apply_one_outcome m s (proj1 Hi)) as H. rewrite E in H.
  by eapply effect_inv.
Qed.

Lemma apply_all_inv ms s s' : mem_inv s -> apply_all ms s = (s', Ok tt) -> mem_inv s'.
Proof.
  revert s; induction ms as [|m ms IH]; intros s Hi; cbn; [by intros [= <-]|].
  unfold se_bind. destruct (apply_one m s) as [s1 [[]|e]] eqn:E; [|done].
  apply IH. by eapply apply_one_inv.
Qed.

Lemma apply_cons m ms s s' :
  mem_inv s -> apply (m :: ms) s = (s', Ok tt) ->
  exists s1, apply [m] s = (s1, Ok tt) /\ apply ms s1 = (s', Ok tt).
Proof.
  intros Hi. rewrite apply_spec by apply Hi. cbn [apply_all]. unfold se_bind.
  destruct (apply_one m s) as [s1 [[]|e]] eqn:E; [|done]. intros H. exists s1. split; [done|].
  rewrite apply_spec by (by eapply apply_one_inv in E as [? _]).
  destruct (apply_all ms s1) as [s2 [[]|e]]; congruence.
Qed.

(** ** Snapshots, and the interface *)

Definition items := (list (str * bool * bytes)).

Lemma restore_item_tidy s i : tidy s (restore_item s i).
Proof.
  destruct i as [[p [|]] d]; cbn [restore_item]; [by apply (rev_ok_fresh s)|].
  apply rev_ok_sub. intros k d' r'. rewrite lookup_insert. by case_decide.
Qed.

Lemma restore_loop_tidy l s : tidy s (fold_left restore_item l s).
Proof.
  revert s; induction l as [|i l IH]; intros s; cbn [fold_left]; [done|].
  etransitivity; [apply restore_item_tidy|apply IH].
Qed.

Lemma restore_items_tidy s l : tidy s (restore_items s l).
Proof. etransitivity; [by apply (rev_ok_sub s ∅); intros k d r|apply restore_loop_tidy]. Qed.

Section Codec.
(** [serde_json::to_vec] and [from_slice] on the snapshot's items. *)
Context (to_vec : items -> result bytes str) (from_slice : bytes -> result items str).

Definition snapshot (s : State) : result bytes VfsError := map_err Io (to_vec (snapshot_items s)).

Definition restore (data : bytes) : SE State VfsError unit :=
  let! l := se_lift (map_err Io (from_slice data)) in
  se_modify (fun s => restore_items s l).

#[local] Instance memory_fs : VirtualFs State := {|
  vfs_read := read;
  vfs_write := fun s p d => write p d s;
  vfs_exists := exists_;
  vfs_list_dir := list_dir;
  vfs_mkdir := fun s p => mkdir p s;
  vfs_remove := fun s p => remove p s;
  vfs_metadata := metadata;
  vfs_snapshot := snapshot;
  vfs_restore := fun s d => restore d s;
  vfs_write_if := fun s p d pre => write_if p d pre s;
  vfs_rename := fun s a b => rename a b s;
  vfs_apply_batch := fun s ms => apply ms s;
  vfs_list_dir_bounded := fun s p => default_list_dir_bounded (list_dir s p);
|}.

Lemma apply_one_single m s : shape (map s) -> apply [m] s = apply_one m s.
Proof.
  intros Hs. rewrite apply_spec by done. cbn. unfold se_bind, se_ret.
  destruct (apply_one m s) as [s1 [[]|e]] eqn:E; [done|]. by apply apply_one_error in E as ->.
Qed.

(** Every call but a batch of two or more has the effect its touches announce. *)
Lemma run_outcome s c :
  shape (map s) -> (forall ms, c = CBatch ms -> exists m, ms = [m]) ->
  outcome s (List.map touch_segs (touches c)) (run s c).
Proof.
  intros Hs Hc. destruct c as [p d|p|p|p d pre|a b|ms]; cbn [run touches];
    cbv beta iota delta [memory_fs vfs_write vfs_mkdir vfs_remove vfs_write_if vfs_rename vfs_apply_batch];
    unfold written, removed, renamed; cbn [List.map]; rewrite ?touch_segs_touch.
  - apply write_outcome.
  - by apply mkdir_outcome.
  - apply remove_outcome.
  - apply write_if_outcome.
  - unfold rename. rewrite apply_one_single by done.
    pose proof (apply_one_outcome (Rename a b Unconditional) s Hs) as H.
    by rewrite mutation_touch_segs in H.
  - destruct (Hc ms eq_refl) as [m ->]. rewrite apply_one_single by done.
    unfold batched. cbn [flat_map]. rewrite app_nil_r. by apply apply_one_outcome.
Qed.

Lemma run_cases s c s' r :
  mem_inv s -> run s c = (s', r) ->
  match r with Ok _ => mem_inv s' | Err _ => s' = s end.
Proof.
  intros Hi E. assert (Hsingle : (forall ms, c = CBatch ms -> exists m, ms = [m]) ->
    match r with Ok _ => mem_inv s' | Err _ => s' = s end).
  { intros Hc. pose proof (run_outcome s c (proj1 Hi) Hc) as H. rewrite E in H.
    destruct r; [|done]. by eapply effect_inv. }
  destruct c as [| | | | |ms]; try (by apply Hsingle; intros).
  cbn [run] in E. cbv beta iota delta [memory_fs vfs_apply_batch] in E.
  rewrite apply_spec in E by apply Hi. destruct (apply_all ms s) as [s1 [[]|e]] eqn:E1;
    injection E as <- <-; [|done]. by eapply apply_all_inv.
Qed.

(** What each operation made of the tree. *)
Lemma put_made s p e r s' :
  s' = {| map := put_map (map s) p e; next_revision := r |} -> mem_at s' p = Some (node_of e).
Proof. intros ->. unfold mem_at, at_map. cbn. unfold put_map. by rewrite lookup_insert, decide_True. Qed.

Lemma remove_made s p q :
  shape (map s) -> Forall plain_segment p -> p <> [] -> Forall plain_segment q ->
  mem_at (remove_keys s (subtree (map s) (path_str p))) (p ++ q) = None.
Proof.
  intros Hs Hp Hne Hq. unfold mem_at, at_map, remove_keys. cbn [map set_map].
  rewrite removed_at; [|done|done|done|by apply Forall_app]. by rewrite decide_True by (by eexists).
Qed.

Lemma write_if_made s path data pre s' :
  write_if path data pre s = (s', Ok tt) -> made (CWriteIf path data pre) (mem_at s) (mem_at s').
Proof.
  unfold write_if. root_case path; [done|]. se_run. cbn [made].
  destruct (check _ _ _) as [[]|] eqn:Ec; [|done]. intros E.
  assert (mem_at s' (segs_of path) = Some (FileNode data)).
  { revert E. destruct (map s !! path_str (segs_of path)) as [[d r|]|]; [|done|];
      (destruct (reject_file_ancestor _ _) as [[]|]; [|done]; intros [= <-]; exact (put_made s _ (File data _) _ _ eq_refl)). }
  split; [done|]. intros ->. revert Ec. cbn [check]. unfold mem_at, at_map.
  by destruct (map s !! path_str (segs_of path)).
Qed.

Lemma mkdir_made s path s' : mkdir path s = (s', Ok tt) -> mem_at s' (segs_of path) = Some DirNode.
Proof.
  unfold mkdir. rewrite normalize_str. se_run.
  destruct (map s !! path_str (segs_of path)) as [[d r|]|] eqn:E; [done|..]; intros [= <-].
  - unfold mem_at, at_map. by rewrite E.
  - by apply (put_made s (segs_of path) Dir (next_revision s)).
Qed.

Lemma apply_one_made m s s' :
  shape (map s) -> apply_one m s = (s', Ok tt) -> made (CBatch [m]) (mem_at s) (mem_at s').
Proof.
  intros Hs. destruct m as [path data pre|path|path pre|from to pre].
  - apply write_if_made.
  - intros E. apply (mkdir_made s path). revert E. cbn [apply_one]. unfold mkdir. rewrite normalize_str. se_run.
    destruct (map s !! path_str (segs_of path)) as [[d r|]|] eqn:E; [done..|].
    by destruct (reject_file_ancestor _ _) as [[]|].
  - cbn [apply_one made]. root_case path; [done|]. se_run.
    destruct (map s !! path_str (segs_of path)); [|done].
    destruct (check _ _ _) as [[]|]; [|done]. intros [= <-] q Hq. by apply remove_made.
  - intros (Hne & Hfrom & Hto & Hnp & ->)%rename_ok.
    pose proof (segs_of_plain from) as Hf. pose proof (segs_of_plain to) as Ht. cbn [made]. unfold mem_at.
    rewrite at_map_Some, at_map_None. split_and!; [done|done|]. intros q Hq.
    split; [by apply renamed_target|by apply (renamed_source (map s))].
Qed.

Lemma run_made s c s' :
  mem_inv s -> run s c = (s', Ok tt) -> made c (mem_at s) (mem_at s').
Proof.
  intros [Hs _]. destruct c as [p d|p|p|p d pre|a b|[|m [|m' ms]]]; cbn [run];
    cbv beta iota delta [memory_fs vfs_write vfs_mkdir vfs_remove vfs_write_if vfs_rename vfs_apply_batch].
  - unfold write. root_case p; [done|]. se_run. intros [= <-]. exact (put_made s _ (File d _) _ _ eq_refl).
  - apply mkdir_made.
  - unfold remove. root_case p; [done|]. se_run.
    destruct (map s !! path_str (segs_of p)); [|done]. intros [= <-] q Hq. by apply remove_made.
  - apply write_if_made.
  - unfold rename. rewrite apply_one_single by done. by apply (apply_one_made (Rename a b Unconditional)).
  - done.
  - rewrite apply_one_single by done. by apply apply_one_made.
  - by destruct m.
Qed.

#[local] Program Instance memory_laws : VirtualFsLaws State := {|
  fs_inv := mem_inv;
  fs_at := mem_at;
  lands s c s' := run s c = (s', Ok tt);
|}.
Next Obligation. done. Qed.
Next Obligation. intros s c s' e Hi E. left. by pose proof (run_cases s c s' _ Hi E). Qed.
Next Obligation. intros s c s' Hi E. by pose proof (run_cases s c s' _ Hi E). Qed.
Next Obligation.
  intros s [Hs _]. unfold mem_at, at_map. change (path_str []) with (lit "/").
  by rewrite (shape_root _ Hs).
Qed.
Next Obligation.
  intros s p _. cbn. unfold read, mem_at, at_map. rewrite normalize_str.
  by destruct (map s !! _) as [[]|].
Qed.
Next Obligation.
  intros s p q [Hs _] Hq Hpq. unfold mem_at. rewrite !at_map_Some. by apply (shape_closed _ Hs).
Qed.
Next Obligation. intros s c s'. apply run_made. Qed.
Next Obligation.
  intros s c s' q [Hs _] Hq E Hc Hd. pose proof (run_outcome s c Hs Hc) as H. rewrite E in H.
  apply (effect_frame s _ s' q Hs H Hq). intros t (u & -> & Hu)%list_elem_of_fmap. apply (Hd u Hu).
Qed.
Next Obligation.
  intros s [|m [|m' ms]] s' Hi E; [by injection E|done|].
  cbn [run vfs_apply_batch memory_fs] in *. by apply apply_cons.
Qed.

(** ** Histories of calls *)

Variant step := SCall (c : call) | SRestore (data : bytes).

Definition do_step (s : State) (st : step) : State :=
  match st with
  | SCall c => fst (run s c)
  | SRestore d => fst (vfs_restore s d)
  end.

Definition history (s : State) (h : list step) : State := fold_left do_step h s.

Lemma do_step_tidy s st : tidy s (do_step s st).
Proof.
  destruct st as [[p d|p|p|p d pre|a b|ms]|d]; cbn [do_step run];
    cbv beta iota delta [memory_fs vfs_write vfs_mkdir vfs_remove vfs_write_if vfs_rename
      vfs_apply_batch vfs_restore].
  - eapply outcome_tidy, write_outcome.
  - apply mkdir_tidy.
  - eapply outcome_tidy, remove_outcome.
  - eapply outcome_tidy, write_if_outcome.
  - apply apply_tidy.
  - apply apply_tidy.
  - unfold restore. se_run. destruct (map_err Io (from_slice d)) as [l|e]; cbn [fst];
      [apply restore_items_tidy|done].
Qed.

Lemma history_tidy h s : tidy s (history s h).
Proof.
  revert s; induction h as [|st h IH]; intros s; cbn; [done|].
  etransitivity; [apply do_step_tidy|apply IH].
Qed.

Lemma calls_inv cs s : mem_inv s -> mem_inv (fold_left (fun s c => fst (run s c)) cs s).
Proof.
  revert s; induction cs as [|c cs IH]; intros s Hi; cbn; [done|]. apply IH.
  destruct (run s c) as [s' r] eqn:E. apply run_cases in E; [|done]. cbn. destruct r; by subst.
Qed.
End Codec.

(** ** More on lookups *)

(** A write that succeeds is read back; a file can be written again; what exists can be removed. *)
Lemma write_read p d s s' : write p d s = (s', Ok tt) -> read s' p = Ok d.
Proof.
  unfold write, read. root_case p; [done|]. se_run. intros [= <-]. cbn.
  by rewrite lookup_insert, decide_True.
Qed.

Lemma read_write p d d' s : mem_inv s -> read s p = Ok d -> exists s', write p d' s = (s', Ok tt).
Proof.
  intros [Hs _]. unfold read, write. root_case p; [|by se_run; eexists].
  rewrite normalize_str, Eroot. change (path_str []) with (lit "/"). by rewrite (shape_root _ Hs).
Qed.

Lemma remove_gone p d s :
  mem_inv s -> read s p = Ok d -> exists s', remove p s = (s', Ok tt) /\ exists_ s' p = false.
Proof.
  intros [Hs _]. unfold read, remove, exists_. root_case p.
  { rewrite normalize_str, Eroot. change (path_str []) with (lit "/"). by rewrite (shape_root _ Hs). }
  se_run. destruct (map s !! path_str (segs_of p)) as [e|]; [|done]. intros _. eexists. split; [done|].
  cbn. by rewrite removed_at, decide_True.
Qed.

Lemma mem_at_File s p d :
  mem_at s (segs_of p) = Some (FileNode d) <-> exists r, map s !! normalize p = Some (File d r).
Proof.
  unfold mem_at, at_map. rewrite <- normalize_str.
  destruct (map s !! normalize p) as [[d' r'|]|]; cbn; split; try (intros [= ->]; eauto; fail);
    try (by intros [r [=]]). by intros [r [= -> ->]].
Qed.

Lemma reject_step (m : gmap str Entry) cur w segs :
  segs <> [] -> (forall d r, m !! (cur ++ path_of [w]) <> Some (File d r)) ->
  (forall ys v zs d r, segs = ys ++ v :: zs -> ys <> [] ->
     m !! ((cur ++ "/" ++ w) ++ path_of ys) <> Some (File d r)) <->
  (forall ys v zs d r, w :: segs = ys ++ v :: zs -> ys <> [] -> m !! (cur ++ path_of ys) <> Some (File d r)).
Proof.
  intros Hne Hw. assert (Ep : forall ys, cur ++ path_of (w :: ys) = (cur ++ "/" ++ w) ++ path_of ys)
    by (intros; cbn; by rewrite <- app_assoc).
  split.
  - intros H [|y ys] v zs d r E Hys; [done|]. injection E as <- E.
    destruct ys as [|y' ys]; [apply Hw|]. rewrite Ep. by eapply H.
  - intros H ys v zs d r -> Hys. rewrite <- Ep. by apply (H (w :: ys) v zs).
Qed.

Lemma reject_loop_spec m cur segs :
  reject_file_ancestor_loop m (cur ++ path_of segs) cur segs = Ok tt <->
  forall ys w zs d r, segs = ys ++ w :: zs -> ys <> [] -> m !! (cur ++ path_of ys) <> Some (File d r).
Proof.
  revert cur; induction segs as [|w segs IH]; intros cur; cbn [reject_file_ancestor_loop].
  { split; [|done]. intros _ ys w zs d r E. by destruct ys. }
  destruct (str_eqb (cur ++ "/" ++ w) _) eqn:E; bools.
  - apply app_inv_head in E. assert (segs = []) as ->.
    { destruct segs as [|v vs]; [done|]. apply (f_equal length) in E. cbn in E.
      rewrite !length_app in E. cbn in E. lia. }
    split; [|done]. intros _ [|y [|y' ys]] v zs d r E'; by try injection E' as ? E'; try done; destruct zs.
  - assert (cur ++ path_of (w :: segs) = (cur ++ "/" ++ w) ++ path_of segs) as Ep
      by (cbn; by rewrite <- app_assoc).
    assert (cur ++ path_of [w] = cur ++ "/" ++ w) as Ew by (cbn; by rewrite app_nil_r).
    assert (segs <> []) as Hne by (intros ->; apply E; by rewrite Ew). rewrite Ep.
    destruct (m !! (cur ++ "/" ++ w)) as [[d r|]|] eqn:Em.
    + split; [done|]. intros H. destruct segs as [|v vs]; [done|].
      exfalso. apply (H [w] v vs d r); [done|done|by rewrite Ew].
    + rewrite IH. apply reject_step; [done|by rewrite Ew, Em].
    + rewrite IH. apply reject_step; [done|by rewrite Ew, Em].
Qed.

(** No proper ancestor of [p] is a file. *)
Definition no_file_above (s : State) (p : list str) : Prop :=
  forall q d, strictly_above q p -> mem_at s q <> Some (FileNode d).

Lemma reject_file_ancestor_spec s p :
  Forall plain_segment p ->
  reject_file_ancestor (map s) (path_str p) = Ok tt <-> no_file_above s p.
Proof.
  intros Hp. unfold reject_file_ancestor. rewrite path_segments_str by done.
  destruct p as [|w ws]; [split; [|done]; intros _ q d (Hq & v & k & E); by destruct q|].
  pose proof (reject_loop_spec (map s) [] (w :: ws)) as H. cbn [app] in H.
  change (path_str (w :: ws)) with (path_of (w :: ws)). rewrite H. clear H.
  assert (Hat : forall q, q <> [] -> forall d, mem_at s q = Some (FileNode d) <->
                exists r, map s !! path_of q = Some (File d r)).
  { intros q Hq d. unfold mem_at, at_map. assert (path_str q = path_of q) as -> by by destruct q.
    destruct (map s !! path_of q) as [[d' r'|]|]; cbn; split; try (intros [= ->]; eauto; fail);
      try (by intros [r [=]]). by intros [r [= -> ->]]. }
  split.
  - intros H q d (Hq & v & k & E) [r Hr]%Hat; [|done]. by eapply H.
  - intros H ys v zs d r E Hys Hr. apply (H ys d); [split; eauto|]. apply Hat; eauto.
Qed.

(** When the precondition of a mutation admits the entry at a path. *)
Definition admits (s : State) (p : list str) (pre : Precondition) : Prop :=
  match pre with
  | Unconditional => True
  | MustBeAbsent => mem_at s p = None
  | MustMatch r => exists d, map s !! path_str p = Some (File d r)
  end.

Lemma check_spec s p pre : check (map s) (path_str p) pre = Ok tt <-> admits s p pre.
Proof.
  unfold check, admits, mem_at.
  destruct pre as [| |r]; [done|rewrite at_map_None; by destruct (map s !! path_str p)|].
  destruct (map s !! path_str p) as [[d r'|]|]; [|by split; [|intros [? ?]]..].
  destruct (N.eqb_spec r' r) as [->|Hne]; split; eauto; [done|]. intros [d' [= _ ->]]. done.
Qed.

Lemma write_if_result p d pre s :
  write_if p d pre s =
  if decide (segs_of p = []) then (s, Err (NotAFile (normalize p))) else
  match check (map s) (normalize p) pre with
  | Err e => (s, Err e)
  | Ok _ =>
      match map s !! normalize p, reject_file_ancestor (map s) (normalize p) with
      | Some Dir, _ => (s, Err (NotAFile (normalize p)))
      | _, Err e => (s, Err e)
      | _, Ok _ => ({| map := put_map (map s) (segs_of p) (File d (next_revision s + 1));
                       next_revision := next_revision s + 1 |}, Ok tt)
      end
  end.
Proof.
  unfold write_if, put_map. rewrite <- normalize_str. destruct (decide _) as [E|E].
  - apply normalize_is_root in E. cbv zeta. by rewrite E.
  - destruct (str_eqb (normalize p) "/") eqn:E1; [by apply normalize_is_root in E1|].
    se_run. destruct (check _ _ _) as [[]|]; [|done].
    destruct (map s !! normalize p) as [[]|]; [|done|];
      by destruct (reject_file_ancestor _ _) as [[]|].
Qed.

Lemma put_map_self m p e : put_map m p e !! path_str p = Some e.
Proof. unfold put_map. by rewrite lookup_insert, decide_True. Qed.

(** *** Listings are sorted *)

Lemma omap_suffix_sorted (f : str -> option str) prefix l :
  (forall k r, f k = Some r -> k = prefix ++ r) ->
  StronglySorted str_le l -> NoDup l -> StronglySorted str_le (omap f l) /\ NoDup (omap f l).
Proof.
  intros Hf Hs Hn. induction Hs as [|k l Hs IH Hk]; [split; constructor|].
  apply NoDup_cons in Hn as [Hnin Hn]. destruct (IH Hn) as [IH1 IH2].
  change (omap f (k :: l)) with (match f k with Some r => r :: omap f l | None => omap f l end).
  destruct (f k) as [r|] eqn:E; [|done]. pose proof E as ->%Hf.
  assert (Hin : forall r', r' ∈ omap f l -> prefix ++ r' ∈ l).
  { intros r' (k' & ? & E')%list_elem_of_omap. by rewrite <- (Hf k' r' E'). }
  split; constructor; [done| |by intros ?%Hin|done].
  apply Forall_forall. intros r' Hr'%Hin. rewrite Forall_forall in Hk.
  specialize (Hk _ Hr'). unfold str_le in *. by rewrite str_leb_app in Hk.
Qed.

Lemma keys_sorted m : StronglySorted str_le (keys m).
Proof. apply Sorted_StronglySorted; [apply _|]. apply (Sorted_merge_sort str_le). Qed.

Lemma new_inv : mem_inv new.
Proof.
  assert (N : forall k e, map new !! k = Some e -> k = lit "/" /\ e = Dir)
    by (intros k e; cbn [map new]; rewrite lookup_singleton_Some; intros [<- <-]; done).
  split; [split|split].
  - intros k [e [-> _]%N]. by exists [].
  - done.
  - intros q r Hr Hqr [e [He _]%N]. apply path_str_root in He as ->; [|done].
    apply prefix_nil_inv in Hqr as ->. by exists Dir.
  - intros k d r [_ ?]%N. done.
  - intros k k' d d' r [_ ?]%N. done.
Qed.

(** *** Batches, renames and reads, as the properties state them *)

(** Each mutation succeeds on the state its predecessors left. *)
Inductive applied (s : State) : list FsMutation -> State -> Prop :=
| applied_nil : applied s [] s
| applied_cons m ms s1 s' :
    apply_one m s = (s1, Ok tt) -> applied s1 ms s' -> applied s (m :: ms) s'.

Lemma apply_all_cases ms s :
  (exists s', applied s ms s' /\ apply_all ms s = (s', Ok tt)) \/
  (exists pre m post s1 s2 e, ms = pre ++ m :: post /\ applied s pre s1 /\
     apply_one m s1 = (s2, Err e) /\ apply_all ms s = (s2, Err e)).
Proof.
  revert s; induction ms as [|m ms IH]; intros s; [left; exists s; split; [constructor|done]|].
  cbn [apply_all]. unfold se_bind at 1 2. destruct (apply_one m s) as [s1 [[]|e]] eqn:E.
  - destruct (IH s1) as [(s' & H & Es)|(pre & m' & post & s2 & s3 & e & -> & H & E' & Es)].
    + left. exists s'. split; [by econstructor|done].
    + right. exists (m :: pre), m', post, s2, s3, e. split_and!; [done|by econstructor|done|done].
  - right. exists [], m, ms, s, s1, e. split_and!; [done|constructor|done|done].
Qed.

Lemma file_lookup s p d r :
  metadata s p = Ok (with_revision (FsMetadata_file (N.of_nat (length d))) r) ->
  read s p = Ok d -> map s !! normalize p = Some (File d r).
Proof.
  unfold metadata, read. destruct (map s !! normalize p) as [[d' r'|]|]; [|done..].
  intros [= _ Er] [= ->]. by subst.
Qed.

Lemma rename_effect s s' from to :
  mem_inv s -> rename from to s = (s', Ok tt) ->
  (forall t, Forall plain_segment t -> mem_at s' (segs_of to ++ t) = mem_at s (segs_of from ++ t)) /\
  (forall t, Forall plain_segment t -> mem_at s' (segs_of from ++ t) = None) /\
  (forall q, Forall plain_segment q -> ~ segs_of from `prefix_of` q -> ~ segs_of to `prefix_of` q ->
     mem_at s' q = match mem_at s q with
                   | Some n => Some n
                   | None => if decide (q `prefix_of` segs_of to) then Some DirNode else None
                   end).
Proof.
  intros [Hs _]. unfold rename. rewrite apply_one_single by done.
  intros (Hne & Hfrom & Hto & Hnp & ->)%rename_ok.
  pose proof (segs_of_plain from) as Hf. pose proof (segs_of_plain to) as Ht.
  unfold mem_at. split_and!.
  - intros t Hpt. by apply renamed_target.
  - intros t Hpt. by apply (renamed_source (map s)).
  - intros q Hq H1 H2. unfold at_map at 1. erewrite (renamed_other (map s)) by done.
    destruct (ensure_parents_at (map s) (segs_of to) q Ht Hq) as (K1 & K2 & K3). unfold at_map.
    destruct (map s !! path_str q) eqn:E; cbn [fmap option_fmap option_map]; [by rewrite (K1 _ eq_refl)|].
    case_decide as Hpre.
    + destruct (prefix_cases _ _ Hpre) as [->|[->|Ha]]; [by destruct H2| |by rewrite K3].
      pose proof (shape_root _ Hs) as Er. change (lit "/") with (path_str []) in Er. congruence.
    + rewrite K2; [done|done|]. intros Ha. by apply Hpre, strictly_above_prefix.
Qed.

(** *** Listings and snapshots *)

Definition dir_prefix (p : list str) : str := match p with [] => "/" | _ => path_of p ++ "/" end.

Lemma dir_prefix_eq p :
  Forall plain_segment p ->
  (if str_eqb (path_str p) "/" then lit "/" else path_str p ++ "/") = dir_prefix p.
Proof.
  intros Hp. destruct (str_eqb (path_str p) "/") eqn:E.
  - apply str_eqb_true, path_str_root in E as ->; done.
  - destruct p as [|x p]; [discriminate E|done].
Qed.

Lemma path_str_below p w k : path_str (p ++ w :: k) = dir_prefix p ++ w ++ path_of k.
Proof.
  destruct p as [|x p]; [done|].
  change (path_str ((x :: p) ++ w :: k)) with (path_of ((x :: p) ++ w :: k)).
  rewrite path_of_app. unfold dir_prefix. by rewrite <- app_assoc.
Qed.

Lemma below_dir_prefix p r w :
  Forall plain_segment p -> Forall plain_segment r -> w <> [] ->
  path_str r = dir_prefix p ++ w -> exists v k, r = p ++ v :: k.
Proof.
  intros Hp Hr Hw E. destruct p as [|x p].
  - destruct r as [|v k]; [|by exists v, k]. injection E as <-. done.
  - assert (starts_with (path_str (x :: p) ++ "/") (path_str r) = true) as H%path_below
      by (apply starts_with_true; by exists w); done.
Qed.

(** The name [list_dir] takes from a key. *)
Definition child_name (path prefix key : str) : option str :=
  if str_eqb key path then None
  else match strip_prefix prefix key with
  | Some rest => if negb (contains_char "/" rest) && negb (str_eqb rest []) then Some rest else None
  | None => None
  end.

Lemma child_name_suffix path prefix k w : child_name path prefix k = Some w -> k = prefix ++ w.
Proof.
  unfold child_name. destruct (str_eqb k path); [done|].
  destruct (strip_prefix prefix k) as [r|] eqn:E; [|done]. apply strip_prefix_Some in E.
  destruct (_ && _); [|done]. by intros [= <-].
Qed.

Lemma child_name_spec p w r :
  Forall plain_segment p -> Forall plain_segment r ->
  child_name (path_str p) (dir_prefix p) (path_str r) = Some w <-> r = p ++ [w].
Proof.
  intros Hp Hr. split.
  - intros H. pose proof (child_name_suffix _ _ _ _ H) as E.
    unfold child_name in H. destruct (str_eqb _ _); [done|].
    destruct (strip_prefix _ _) as [r'|]; [|done].
    destruct (_ && _) eqn:G; [|done]. injection H as ->. bools.
    destruct (below_dir_prefix p r w) as (v & k & ->); [done..|].
    rewrite path_str_below in E. apply app_inv_head in E. destruct k as [|u k].
    + cbn in E. by rewrite <- E, app_nil_r.
    + exfalso. match goal with H : contains_char _ _ = false |- _ => apply contains_char_false in H; apply H end.
      rewrite <- E. apply elem_of_app. right. left.
  - intros ->. apply Forall_app in Hr as [_ Hw]. inversion Hw as [|? ? (H1 & H2 & H3 & H4) _]; subst.
    unfold child_name. destruct (str_eqb (path_str (p ++ [w])) (path_str p)) eqn:E.
    { apply str_eqb_true, path_str_inj in E; [|by apply Forall_app|done].
      apply (f_equal length) in E. rewrite length_app in E. cbn in E. lia. }
    rewrite path_str_below, strip_prefix_app. cbn [path_of flat_map]. rewrite app_nil_r.
    assert (contains_char "/" w = false) as -> by by apply contains_char_false.
    destruct (str_eqb w []) eqn:E2; bools; done.
Qed.

Lemma list_dir_names s p :
  mem_inv s -> mem_at s (segs_of p) = Some DirNode ->
  list_dir s p = Ok (omap (child_name (normalize p) (dir_prefix (segs_of p))) (keys (map s))).
Proof.
  intros _ H. unfold list_dir, mem_at, at_map in *. rewrite <- normalize_str in H.
  destruct (map s !! normalize p) as [[]|]; [done| |done].
  rewrite normalize_str, dir_prefix_eq by apply segs_of_plain. done.
Qed.

(** Two states store the same files and directories, whatever their revisions. *)
Definition same_tree (s s' : State) : Prop :=
  forall k, node_of <$> map s !! k = node_of <$> map s' !! k.

Lemma same_tree_some s s' k : same_tree s s' -> is_Some (map s !! k) <-> is_Some (map s' !! k).
Proof.
  intros H. specialize (H k). rewrite <- (fmap_is_Some node_of), <- (fmap_is_Some node_of (map s' !! k)).
  by rewrite H.
Qed.

Lemma same_tree_keys s s' : same_tree s s' -> keys (map s) = keys (map s').
Proof.
  intros H. unfold keys. do 2 f_equal. apply set_eq. intros k. rewrite !elem_of_dom.
  by apply same_tree_some.
Qed.

Lemma same_tree_snapshot s s' : same_tree s s' -> snapshot_items s = snapshot_items s'.
Proof.
  intros H. unfold snapshot_items. rewrite (same_tree_keys s s' H).
  apply map_ext. intros k. specialize (H k).
  destruct (map s !! k) as [[]|], (map s' !! k) as [[]|]; cbn in H; congruence.
Qed.

Lemma same_tree_shape s s' : same_tree s s' -> shape (map s) -> shape (map s').
Proof.
  intros H [H1 H2 H3]. split.
  - intros k. rewrite <- (same_tree_some s s') by done. apply H1.
  - specialize (H "/"). rewrite H2 in H. by destruct (map s' !! _) as [[]|].
  - intros p q. rewrite <- !(same_tree_some s s') by done. apply H3.
Qed.

Definition item_of (s : State) (k : str) : str * bool * bytes :=
  match map s !! k with
  | Some (File data _) => (k, true, data)
  | _ => (k, false, [])
  end.

Lemma restore_item_of s s0 k :
  is_Some (map s !! k) ->
  (node_of <$> map (restore_item s0 (item_of s k)) !! k = node_of <$> map s !! k) /\
  (forall k', k' <> k -> map (restore_item s0 (item_of s k)) !! k' = map s0 !! k').
Proof.
  intros [[d r|] E]; unfold item_of; rewrite E; cbn [restore_item map set_map]; split;
    try (by rewrite lookup_insert, decide_True);
    intros k' Hk; rewrite lookup_insert, decide_False by done; done.
Qed.

Lemma restore_items_of s ks s0 :
  NoDup ks -> (forall k, k ∈ ks -> is_Some (map s !! k)) ->
  (forall k, k ∈ ks -> node_of <$> map (fold_left restore_item (List.map (item_of s) ks) s0) !! k =
                       node_of <$> map s !! k) /\
  (forall k, k ∉ ks -> map (fold_left restore_item (List.map (item_of s) ks) s0) !! k = map s0 !! k).
Proof.
  intros Hn; revert s0; induction Hn as [|k ks Hnin Hn IH]; intros s0 Hk; cbn [List.map fold_left].
  { split; [by intros k ?%elem_of_nil|done]. }
  destruct (restore_item_of s s0 k) as [R1 R2]; [apply Hk; left|].
  destruct (IH (restore_item s0 (item_of s k))) as [I1 I2]; [intros; apply Hk; by right|].
  split; intros k'.
  - intros [->|Hin]%elem_of_cons; [by rewrite I2|by apply I1].
  - intros [Hne Hnin']%not_elem_of_cons. by rewrite I2, R2.
Qed.

Lemma restore_same_tree s s0 : same_tree s (restore_items s0 (snapshot_items s)).
Proof.
  intros k. unfold restore_items. change (snapshot_items s) with (List.map (item_of s) (keys (map s))).
  destruct (restore_items_of s (keys (map s)) (set_map s0 ∅) (NoDup_keys _)) as [H1 H2];
    [intros k'; by rewrite elem_of_keys|].
  destruct (map s !! k) eqn:E; [rewrite H1, E; [done|rewrite elem_of_keys; eauto]|].
  by rewrite H2 by (rewrite elem_of_keys, E; by intros [? ?]).
Qed.

(** ** The properties *)

Section Properties.
Context (to_vec : items -> result bytes str) (from_slice : bytes -> result items str).
#[local] Existing Instance memory_fs.

(** C38. The tree is preserved by every sequence of calls: starting from a new filesystem, every
    stored key is a normalised path, the root is a directory, every ancestor of a stored path is
    stored, and no two files carry the same revision. *)
Theorem memfs_tree_invariant cs :
  let s := fold_left (fun s c => fst (run (H := memory_fs to_vec from_slice) s c)) cs new in
  (forall k, is_Some (map s !! k) -> exists q, Forall plain_segment q /\ k = path_str q) /\
  map s !! lit "/" = Some Dir /\
  (forall q r, Forall plain_segment r -> q `prefix_of` r ->
     is_Some (map s !! path_str r) -> is_Some (map s !! path_str q)) /\
  (forall k k' d d' r, map s !! k = Some (File d r) -> map s !! k' = Some (File d' r) -> k = k').
Proof.
  intros s. destruct (calls_inv to_vec from_slice cs new new_inv) as [[H1 H2 H3] [_ H4]].
  split_and!; [apply H1|apply H2|apply H3|apply H4].
Qed.

(** A batch is all its mutations in order, or none of them: it succeeds exactly when every
    mutation succeeds on the state its predecessors left, and otherwise reports the error of the
    first that fails and leaves the filesystem, revision counter included, as it was. *)
Theorem memfs_batch_atomic ms s :
  mem_inv s ->
  (exists s', applied s ms s' /\ apply ms s = (s', Ok tt)) \/
  (exists pre m post s1 e, ms = pre ++ m :: post /\ applied s pre s1 /\
     snd (apply_one m s1) = Err e /\ apply ms s = (s, Err e)).
Proof.
  intros [Hs _]. rewrite apply_spec by done. destruct (apply_all_cases ms s) as [(s' & H & ->)|H].
  - left. eauto.
  - right. destruct H as (pre & m & post & s1 & s2 & e & -> & Hp & E & ->).
    exists pre, m, post, s1, e. by rewrite E.
Qed.

(** A revision names one path and one contents for ever: if a file has revision [r] at some
    moment, then in every later state, after any calls and any restores, the only file that can
    carry [r] is the same path with the same bytes. *)
Theorem memfs_revision_names_contents h s p q d d' r :
  mem_inv s ->
  let s' := history to_vec from_slice s h in
  read s p = Ok d -> metadata s p = Ok (with_revision (FsMetadata_file (N.of_nat (length d))) r) ->
  read s' q = Ok d' -> metadata s' q = Ok (with_revision (FsMetadata_file (N.of_nat (length d'))) r) ->
  normalize q = normalize p /\ d' = d.
Proof.
  intros [_ [Hle Huniq]] s'. destruct (history_tidy to_vec from_slice h s) as [[_ Hev] _].
  fold s' in Hev. intros R1 M1 R2 M2.
  apply (file_lookup s p d r) in R1; [|done]. apply (file_lookup s' q d' r) in R2; [|done].
  destruct (Hev _ _ _ R2) as [Hlt|R3]; [apply Hle in R1; lia|].
  pose proof (Huniq _ _ _ _ _ R3 R1) as E. split; [done|]. rewrite E in R3. congruence.
Qed.

(** No lost update: when a conditional write over revision [r] succeeds, every later
    conditional write over [r] to that path, whatever happened in between, fails and leaves the
    file as it is. *)
Theorem memfs_no_lost_update h s s1 p d d' r :
  mem_inv s -> write_if p d (MustMatch r) s = (s1, Ok tt) ->
  let s2 := history to_vec from_slice s1 h in
  write_if p d' (MustMatch r) s2 =
    (s2, Err (Conflict (normalize p ++ " is not at revision " ++ dec r))).
Proof.
  intros [_ [Hle _]] W s2. rewrite write_if_result in W |- *.
  destruct (decide (segs_of p = [])); [done|]. destruct (check _ _ _) as [[]|] eqn:Ec; [|done].
  rewrite normalize_str in *. apply check_spec in Ec as [d0 Hr]. cbn in Hr.
  assert (s1 = {| map := put_map (map s) (segs_of p) (File d (next_revision s + 1));
                  next_revision := next_revision s + 1 |}) as E1.
  { rewrite Hr in W. destruct (reject_file_ancestor _ _) as [[]|]; by simplify_eq. }
  destruct (history_tidy to_vec from_slice h s1) as [[_ Hev] _]. fold s2 in Hev.
  destruct (check (map s2) (path_str (segs_of p)) (MustMatch r)) as [[]|e] eqn:Ec2.
  - exfalso. apply check_spec in Ec2 as [d2 Hr2]. cbn in Hr2. apply Hle in Hr.
    destruct (Hev _ _ _ Hr2) as [Hlt|Hr3]; subst s1; cbn in *; [lia|].
    rewrite put_map_self in Hr3. injection Hr3 as _ Er. lia.
  - do 2 f_equal. unfold check in Ec2.
    destruct (map s2 !! _) as [[? ?|]|]; [destruct (_ =? _)%N|..]; by simplify_eq.
Qed.

(** What rename does: the whole subtree is at the destination with the same contents, nothing
    is left at the source, and everywhere else the tree is unchanged but for the missing parents
    of the destination, which become directories. *)
Theorem memfs_rename_moves s s' from to :
  mem_inv s -> rename from to s = (s', Ok tt) ->
  (forall t, Forall plain_segment t -> mem_at s' (segs_of to ++ t) = mem_at s (segs_of from ++ t)) /\
  (forall t, Forall plain_segment t -> mem_at s' (segs_of from ++ t) = None) /\
  (forall q, Forall plain_segment q -> ~ segs_of from `prefix_of` q -> ~ segs_of to `prefix_of` q ->
     mem_at s' q = match mem_at s q with
                   | Some n => Some n
                   | None => if decide (q `prefix_of` segs_of to) then Some DirNode else None
                   end).
Proof. intros Hi E. by apply (rename_effect s s' from to Hi E). Qed.

(** Listing a directory gives exactly the names of its direct children, in byte order and
    without duplicates. *)
Theorem memfs_list_dir_children s p names :
  mem_inv s -> list_dir s p = Ok names ->
  StronglySorted str_le names /\ NoDup names /\
  (forall w, w ∈ names <-> plain_segment w /\ mem_at s (segs_of p ++ [w]) <> None).
Proof.
  intros Hi E. assert (Hd : mem_at s (segs_of p) = Some DirNode).
  { unfold list_dir in E. unfold mem_at, at_map. rewrite <- normalize_str.
    by destruct (map s !! normalize p) as [[]|]. }
  rewrite list_dir_names in E by done. injection E as <-.
  pose proof (segs_of_plain p) as Hp. destruct Hi as [Hs _].
  apply and_assoc. split.
  - eapply omap_suffix_sorted; [|apply keys_sorted|apply NoDup_keys].
    intros k r. apply child_name_suffix.
  - intros w. rewrite list_elem_of_omap, normalize_str. unfold mem_at. split.
    + intros (k & Hk & Hc). apply elem_of_keys in Hk.
      destruct (shape_keys _ Hs k Hk) as (r & Hr & ->). apply child_name_spec in Hc as ->; [|done..].
      rewrite at_map_Some. split; [|done]. apply Forall_app in Hr as [_ Hw]. by inversion Hw.
    + intros [Hw Ha]. exists (path_str (segs_of p ++ [w])).
      rewrite elem_of_keys, child_name_spec; [|done|by apply Forall_app; split; [|constructor]].
      by apply at_map_Some in Ha.
Qed.

(** A snapshot restores: whatever the filesystem holds when it is restored, it then has the
    files and directories of the snapshotted one and no other, its invariant holds, and its own
    snapshot is the one restored.  The codec only has to decode what it encodes. *)
Theorem memfs_snapshot_restore s s0 data :
  (forall l b, to_vec l = Ok b -> from_slice b = Ok l) ->
  mem_inv s -> rev_ok s0 -> snapshot to_vec s = Ok data ->
  exists s1, restore from_slice data s0 = (s1, Ok tt) /\ mem_inv s1 /\
    (forall p, read s1 p = read s p /\ list_dir s1 p = list_dir s p /\ exists_ s1 p = exists_ s p) /\
    snapshot to_vec s1 = Ok data.
Proof.
  intros Hcodec [Hs _] Hr Hsnap. exists (restore_items s0 (snapshot_items s)).
  assert (to_vec (snapshot_items s) = Ok data) as Hv
    by (unfold snapshot in Hsnap; by destruct (to_vec _); simplify_eq/=).
  pose proof (restore_same_tree s s0) as Ht. split_and!.
  - unfold restore. se_run. by rewrite (Hcodec _ _ Hv).
  - split; [by eapply same_tree_shape|by apply restore_items_tidy].
  - intros p. unfold read, list_dir, exists_. rewrite (same_tree_keys _ _ Ht).
    specialize (Ht (normalize p)).
    destruct (map s !! _) as [[]|], (map (restore_items _ _) !! _) as [[]|]; cbn in Ht;
      by simplify_eq.
  - unfold snapshot. by rewrite <- (same_tree_snapshot _ _ Ht), Hv.
Qed.
End Properties.

(** ** The properties at concrete filesystems *)

Section Examples.
Fixpoint pos_bits (p : positive) : bytes :=
  match p with xH => [] | xO p => "0"%char :: pos_bits p | xI p => "1"%char :: pos_bits p end.
Definition bits_pos (b : bytes) : positive :=
  fold_right (fun c p => if Ascii.eqb c "1" then xI p else xO p) xH b.

Definition ex_to_vec (l : items) : result bytes str := Ok (pos_bits (encode l)).
Definition ex_from_slice (b : bytes) : result items str := ok_or (decode (bits_pos b)) (lit "bad snapshot").

Lemma bits_pos_bits p : bits_pos (pos_bits p) = p.
Proof. induction p as [p IH|p IH|]; cbn; [f_equal; exact IH|f_equal; exact IH|done]. Qed.

Lemma ex_codec l b : ex_to_vec l = Ok b -> ex_from_slice b = Ok l.
Proof. intros [= <-]. unfold ex_from_slice. by rewrite bits_pos_bits, decode_encode. Qed.
End Examples.

Definition ex_fs : State := fst (write "/a/b" "hi" new).

Lemma ex_fs_inv : mem_inv ex_fs.
Proof. apply (calls_inv ex_to_vec ex_from_slice [CWrite "/a/b" "hi"]), new_inv. Qed.

Lemma memfs_batch_atomic_witness :
  mem_inv ex_fs /\
  apply [Mkdir "/c"; Remove "/missing" Unconditional] ex_fs = (ex_fs, Err (NotFound "/missing")).
Proof.
  split; [apply ex_fs_inv|].
  destruct (memfs_batch_atomic [Mkdir "/c"; Remove "/missing" Unconditional] ex_fs ex_fs_inv)
    as [(s' & _ & E)|_]; [vm_compute in E; discriminate|vm_compute; reflexivity].
Defined.

Lemma memfs_revision_names_contents_witness :
  mem_inv ex_fs /\ normalize "/a/./b" = normalize "/a/b" /\ lit "hi" = lit "hi".
Proof.
  split; [apply ex_fs_inv|].
  apply (memfs_revision_names_contents ex_to_vec ex_from_slice [SCall (CMkdir "/c")] ex_fs "/a/b" "/a/./b"
    "hi" "hi" 1 ex_fs_inv); vm_compute; reflexivity.
Defined.

Lemma memfs_no_lost_update_witness :
  mem_inv ex_fs /\ exists s1, write_if "/a/b" "x" (MustMatch 1) ex_fs = (s1, Ok tt) /\
    write_if "/a/b" "y" (MustMatch 1) (history ex_to_vec ex_from_slice s1 [SCall (CRemove "/a/b")]) =
      (history ex_to_vec ex_from_slice s1 [SCall (CRemove "/a/b")],
       Err (Conflict (normalize "/a/b" ++ " is not at revision " ++ dec 1))).
Proof.
  split; [apply ex_fs_inv|]. exists (fst (write_if "/a/b" "x" (MustMatch 1) ex_fs)).
  split; [vm_compute; reflexivity|].
  apply (memfs_no_lost_update ex_to_vec ex_from_slice [SCall (CRemove "/a/b")] ex_fs _ _ "x" _ _ ex_fs_inv).
  vm_compute. reflexivity.
Defined.

Lemma memfs_rename_moves_witness :
  mem_inv ex_fs /\ exists s', rename "/a" "/x/y" ex_fs = (s', Ok tt) /\
    mem_at s' [lit "x"; lit "y"; lit "b"] = Some (FileNode "hi").
Proof.
  split; [apply ex_fs_inv|]. exists (fst (rename "/a" "/x/y" ex_fs)).
  split; [vm_compute; reflexivity|].
  destruct (memfs_rename_moves ex_fs (fst (rename "/a" "/x/y" ex_fs)) "/a" "/x/y" ex_fs_inv) as (H & _).
  { vm_compute. reflexivity. }
  exact (H [lit "b"] ltac:(constructor; [|constructor]; unfold plain_segment; split_and!; try done;
    intros ?%list_elem_of_singleton; done)).
Defined.

Lemma memfs_list_dir_children_witness :
  mem_inv ex_fs /\ list_dir ex_fs "/a" = Ok [lit "b"] /\ StronglySorted str_le [lit "b"].
Proof.
  split; [apply ex_fs_inv|]. assert (list_dir ex_fs "/a" = Ok [lit "b"]) as E by (vm_compute; reflexivity).
  split; [exact E|]. apply (memfs_list_dir_children ex_fs "/a" _ ex_fs_inv E).
Defined.

Lemma memfs_snapshot_restore_witness :
  mem_inv ex_fs /\ rev_ok new /\
  exists data s1, snapshot ex_to_vec ex_fs = Ok data /\ restore ex_from_slice data new = (s1, Ok tt) /\
    read s1 "/a/b" = read ex_fs "/a/b".
Proof.
  split; [apply ex_fs_inv|]. split; [apply new_inv|].
  destruct (memfs_snapshot_restore ex_to_vec ex_from_slice ex_fs new _ ex_codec ex_fs_inv
    (proj2 new_inv) eq_refl) as (s1 & E & _ & H & _).
  eexists _, s1. split; [reflexivity|]. split; [exact E|]. apply H.
Defined.
