(* ===== verification/ReadOnlyPathGuard.v ===== *)
(** * The read-only path guard

    Models [crates/simulacra-vfs/src/readonly_path_guard.rs]: a filesystem that forwards to an
    inner one but refuses every call that touches a locked prefix.  The inner filesystem is any
    implementation of [VirtualFs]; what the guard guarantees is proved from [VirtualFsLaws]. *)

From S2P Require Import Prelude.
From S2P Require Import Segments.
From S2P Require Import Vfs.
From S2P Require Import MemoryFs.

Record ReadOnlyPathGuard (St : Type) := { guarded : St; locked_prefix : str }.
Arguments guarded {St} _.
Arguments locked_prefix {St} _.

Section Guard.
Context {St : Type} `{VirtualFs St}.

Definition guard_new (inner : St) (p : str) : ReadOnlyPathGuard St :=
  {| guarded := inner; locked_prefix := if ends_with "/" p then p else p ++ "/" |}.

Definition set_guarded (g : ReadOnlyPathGuard St) (s : St) : ReadOnlyPathGuard St :=
  {| guarded := s; locked_prefix := locked_prefix g |}.

Definition is_locked (g : ReadOnlyPathGuard St) (path : str) : bool :=
  let path := normalize path in
  let trimmed := trim_end_matches "/" (locked_prefix g) in
  str_eqb path trimmed || starts_with (locked_prefix g) path.

Definition is_ancestor_of_locked (g : ReadOnlyPathGuard St) (path : str) : bool :=
  is_ancestor path (locked_prefix g).

Definition rofs (g : ReadOnlyPathGuard St) (path : str) : VfsError :=
  PermissionDenied ("path is read-only (" ++ trim_end_matches "/" (locked_prefix g) ++ "): " ++ path).

Definition gate (g : ReadOnlyPathGuard St) (ts : list Touch) : result unit VfsError :=
  match List.find (fun t => is_locked g (touch_path t) ||
                            (takes_subtree t && is_ancestor_of_locked g (touch_path t))) ts with
  | Some t => Err (rofs g (touch_path t))
  | None => Ok tt
  end.

(** Forward a call to the inner filesystem. *)
Definition forward (g : ReadOnlyPathGuard St) (res : St * result unit VfsError)
    : ReadOnlyPathGuard St * result unit VfsError := (set_guarded g (fst res), snd res).

Definition guard_write (g : ReadOnlyPathGuard St) (path : str) (data : bytes) :=
  if is_locked g path then (g, Err (rofs g path)) else forward g (vfs_write (guarded g) path data).

Definition guard_mkdir (g : ReadOnlyPathGuard St) (path : str) :=
  if is_locked g path then (g, Err (rofs g path)) else forward g (vfs_mkdir (guarded g) path).

Definition guard_remove (g : ReadOnlyPathGuard St) (path : str) :=
  match gate g (removed path) with
  | Err e => (g, Err e)
  | Ok _ => forward g (vfs_remove (guarded g) path)
  end.

Definition guard_write_if (g : ReadOnlyPathGuard St) (path : str) (data : bytes) (p : Precondition) :=
  match gate g (written path) with
  | Err e => (g, Err e)
  | Ok _ => forward g (vfs_write_if (guarded g) (normalize path) data p)
  end.

Definition guard_rename (g : ReadOnlyPathGuard St) (from to : str) :=
  match gate g (renamed from to) with
  | Err e => (g, Err e)
  | Ok _ => forward g (vfs_rename (guarded g) (normalize from) (normalize to))
  end.

Definition guard_apply_batch (g : ReadOnlyPathGuard St) (ms : list FsMutation) :=
  match gate g (batched ms) with
  | Err e => (g, Err e)
  | Ok _ => forward g (vfs_apply_batch (guarded g) (normalize_mutations ms))
  end.

#[export] Instance guard_fs : VirtualFs (ReadOnlyPathGuard St) := {|
  vfs_read g := vfs_read (guarded g);
  vfs_write := guard_write;
  vfs_exists g := vfs_exists (guarded g);
  vfs_list_dir g := vfs_list_dir (guarded g);
  vfs_mkdir := guard_mkdir;
  vfs_remove := guard_remove;
  vfs_metadata g := vfs_metadata (guarded g);
  vfs_snapshot g := vfs_snapshot (guarded g);
  vfs_restore g d := forward g (vfs_restore (guarded g) d);
  vfs_write_if := guard_write_if;
  vfs_rename := guard_rename;
  vfs_apply_batch := guard_apply_batch;
  vfs_list_dir_bounded g := vfs_list_dir_bounded (guarded g);
|}.

(** The call the guard forwards. *)
Definition forwarded (c : call) : call :=
  match c with
  | CWrite _ _ | CMkdir _ | CRemove _ => c
  | CWriteIf p d pre => CWriteIf (normalize p) d pre
  | CRename a b => CRename (normalize a) (normalize b)
  | CBatch ms => CBatch (normalize_mutations ms)
  end.

Lemma touches_forwarded c : touches (forwarded c) = touches c.
Proof.
  destruct c; cbn [forwarded touches]; unfold written, renamed; rewrite ?touch_normalize; try done.
  apply batched_normalize.
Qed.

Definition blocked (g : ReadOnlyPathGuard St) (t : Touch) : bool :=
  is_locked g (touch_path t) || (takes_subtree t && is_ancestor_of_locked g (touch_path t)).

Lemma gate_spec g ts :
  (gate g ts = Ok tt /\ forall t, t ∈ ts -> blocked g t = false) \/
  (exists t, t ∈ ts /\ blocked g t = true /\ gate g ts = Err (rofs g (touch_path t))).
Proof.
  unfold gate. fold (blocked g). destruct (List.find (blocked g) ts) as [t|] eqn:E.
  - right. apply List.find_some in E as [Hin Hb]. exists t. by rewrite list_elem_of_In.
  - left. split; [done|]. intros t Ht%list_elem_of_In. by apply (List.find_none _ _ E).
Qed.

Lemma is_locked_normalize g p : is_locked g (normalize p) = is_locked g p.
Proof. unfold is_locked. by rewrite normalize_idem. Qed.

(** Every call is refused without reaching the inner filesystem, or forwarded with no touch
    blocked. *)
Lemma guard_run_cases g c :
  (exists t, t ∈ touches c /\ blocked g t = true /\ fst (run g c) = g /\
     exists p, snd (run g c) = Err (rofs g p)) \/
  ((forall t, t ∈ touches c -> blocked g t = false) /\
   run g c = forward g (run (guarded g) (forwarded c))).
Proof.
  assert (Hplain : forall p, is_locked g p = blocked g (touch p false)).
  { intros p. unfold blocked. cbn [touch_path takes_subtree touch andb]. by rewrite orb_false_r, is_locked_normalize. }
  destruct c as [p d|p|p|p d pre|a b|ms]; cbn [run touches forwarded];
    cbv beta iota delta [guard_fs vfs_write vfs_mkdir vfs_remove vfs_write_if vfs_rename vfs_apply_batch];
    unfold guard_write, guard_mkdir, guard_remove, guard_write_if, guard_rename, guard_apply_batch.
  1-2: rewrite Hplain; unfold written; destruct (blocked g (touch p false)) eqn:E;
    [left; exists (touch p false); split_and!; [left|done|done|eauto]
    |right; split; [by intros t ->%list_elem_of_singleton|done]].
  all: match goal with |- context [gate ?h ?ts] => destruct (gate_spec h ts) as [[-> Hb]|(t & Ht & Hb & ->)] end;
    [right; split; [done|done]|left; exists t; split_and!; [done|done|done|eauto]].
Qed.

(** ** The locked prefix as segments *)

Context (s : St) (P : list str) (Hplain : Forall plain_segment P) (Hne : P <> []).

Definition locked_at : ReadOnlyPathGuard St := guard_new s (path_str P).

Lemma locked_prefix_at : locked_prefix locked_at = path_str P ++ "/".
Proof.
  unfold locked_at, guard_new. cbn [locked_prefix].
  destruct (path_str_last P Hplain Hne) as (d & c & E & Hc).
  destruct (ends_with "/" (path_str P)) eqn:En; [|done].
  apply ends_with_true in En as [r Er]. rewrite E in Er. by apply app_inj_tail in Er as [_ ->].
Qed.

Lemma trimmed_at : trim_end_matches "/" (locked_prefix locked_at) = path_str P.
Proof.
  rewrite locked_prefix_at. destruct (path_str_last P Hplain Hne) as (d & c & -> & Hc).
  rewrite trim_end_app by done. cbn. by rewrite app_nil_r.
Qed.

Lemma is_locked_at p : is_locked locked_at p = true <-> P `prefix_of` segs_of p.
Proof.
  unfold is_locked. rewrite trimmed_at, locked_prefix_at, normalize_str, orb_true_iff, str_eqb_true.
  apply path_within; [done|apply segs_of_plain|done].
Qed.

Lemma is_ancestor_of_locked_at p :
  is_ancestor_of_locked locked_at p = true <->
  segs_of p `prefix_of` P /\ (segs_of p = [] \/ segs_of p <> P).
Proof.
  unfold is_ancestor_of_locked. rewrite is_ancestor_spec, locked_prefix_at, segs_of_slash.
  by rewrite (segs_of_path_str P Hplain).
Qed.

(** A touch the gate lets through reaches nothing at or below the locked prefix, as long as the
    prefix exists. *)
Lemma unblocked_spares `{!VirtualFsLaws St} s1 t p b :
  t = touch p b -> fs_inv s1 -> fs_at s1 P <> None -> blocked locked_at t = false ->
  spares s1 (fun q => Forall plain_segment q /\ P `prefix_of` q) t.
Proof.
  intros -> Hi Hex Hb q [Hq HP]. unfold blocked in Hb. apply orb_false_iff in Hb as [Hl Ha].
  unfold disturbs. rewrite segs_of_touch. cbn [touch_path takes_subtree touch] in *.
  rewrite <- not_true_iff_false, is_locked_normalize, is_locked_at in Hl.
  intros [->|[[Hpq Ht]|[Hqp Hn]]]; [done| |].
  - destruct (prefix_weak_total P (segs_of p) q HP Hpq) as [|HpP]; [done|].
    destruct Ht as [->|Hn].
    + cbn [andb] in Ha. rewrite <- not_true_iff_false, is_ancestor_of_locked_at in Ha. apply Ha.
      rewrite segs_of_normalize. split; [done|]. right. intros E. apply Hl. by rewrite E.
    + by apply (law_closed s1 (segs_of p) P).
  - apply Hl. by etransitivity.
Qed.

(** A call through the guard on a locked prefix that exists leaves a guard with that prefix, over a
    filesystem whose entries at and below the prefix are the same. *)
Lemma locked_run `{!VirtualFsLaws St} c :
  fs_inv s -> fs_at s P <> None ->
  exists s', fst (run locked_at c) = guard_new s' (path_str P) /\ fs_inv s' /\
    forall q, Forall plain_segment q -> P `prefix_of` q -> fs_at s' q = fs_at s q.
Proof.
  intros Hi Hex. destruct (guard_run_cases locked_at c) as [(t & _ & _ & -> & _)|[Hb Hf]]; [by exists s|].
  rewrite Hf. change (guarded locked_at) with s.
  destruct (run s (forwarded c)) as [s' r'] eqn:E. exists s'. split; [done|].
  split; [by apply (run_keeps_inv s (forwarded c) s' r')|]. intros q Hq HP.
  apply (run_spares s (forwarded c) s' r' (fun q => Forall plain_segment q /\ P `prefix_of` q) Hi E);
    [by intros ? [? ?]| |done].
  intros s1 Hi1 Hs1 t Ht. rewrite touches_forwarded in Ht.
  destruct (touches_are c t Ht) as (p & b & Et). apply (unblocked_spares s1 t p b Et Hi1); [|by apply Hb].
  by rewrite Hs1.
Qed.
End Guard.

(** The guard protects its prefix: while the locked prefix exists, no call through the guard,
    of any kind and with any paths, batches included, changes an entry at or below it; in any
    filesystem that keeps the interface's laws. *)
Theorem guard_protects_locked_subtree {St : Type} `{VirtualFsLaws St} (s : St) (P : list str) c g' r :
  Forall plain_segment P -> P <> [] -> fs_inv s -> fs_at s P <> None ->
  run (guard_new s (path_str P)) c = (g', r) ->
  forall q, Forall plain_segment q -> P `prefix_of` q -> fs_at (guarded g') q = fs_at s q.
Proof.
  intros Hpl Hne Hi Hex E q Hq HP. destruct (locked_run s P Hpl Hne c Hi Hex) as (s' & Eg & _ & Hs').
  unfold locked_at in Eg. rewrite E in Eg. cbn in Eg. subst. by apply Hs'.
Qed.

Definition memory_guard : VirtualFs (ReadOnlyPathGuard State) :=
  @guard_fs State (memory_fs ex_to_vec ex_from_slice).

(** The gap of that guarantee: when the locked prefix does not exist yet, a rename onto a missing
    parent of it is let through, because a rename's destination is judged as a single path although
    the whole moved subtree arrives there; contents then appear at the locked path. *)
Theorem guard_lets_rename_plant :
  exists s, mem_inv s /\ exists_ s "/a/b" = false /\
    snd (@run _ memory_guard (guard_new s "/a/b") (CWrite "/a/b" "planted")) <> Ok tt /\
    let '(g', r) := @run _ memory_guard (guard_new s "/a/b") (CRename "/x" "/a") in
    r = Ok tt /\ vfs_read (VirtualFs := memory_guard) g' "/a/b" = Ok (lit "planted").
Proof.
  exists (fst (write "/x/b" "planted" new)).
  split; [apply (calls_inv ex_to_vec ex_from_slice [CWrite "/x/b" "planted"]), new_inv|].
  split; [vm_compute; reflexivity|]. split; [vm_compute; discriminate|].
  vm_compute. split; reflexivity.
Qed.

Lemma plain_ab : Forall plain_segment [lit "a"; lit "b"].
Proof. apply (segs_of_plain "/a/b"). Qed.

Lemma guard_protects_locked_subtree_witness :
  Forall plain_segment [lit "a"; lit "b"] /\ mem_inv ex_fs /\ mem_at ex_fs [lit "a"; lit "b"] <> None /\
  mem_at (guarded (fst (@run _ memory_guard (guard_new ex_fs "/a/b")
            (CBatch [Mkdir "/c"; Rename "/c" "/d" Unconditional])))) [lit "a"; lit "b"] =
  mem_at ex_fs [lit "a"; lit "b"].
Proof.
  assert (mem_at ex_fs [lit "a"; lit "b"] <> None) as Hex by (vm_compute; discriminate).
  split; [exact plain_ab|]. split; [exact ex_fs_inv|]. split; [exact Hex|].
  refine (@guard_protects_locked_subtree State (memory_fs ex_to_vec ex_from_slice)
    (memory_laws ex_to_vec ex_from_slice) ex_fs [lit "a"; lit "b"]
    (CBatch [Mkdir "/c"; Rename "/c" "/d" Unconditional]) _ _ plain_ab _ ex_fs_inv Hex
    (surjective_pairing _) [lit "a"; lit "b"] plain_ab _); [discriminate|reflexivity].
Defined.
