(* ===== verification/ShellOverFs.v ===== *)
(** * The shell over the filesystems

    What the executor and the builtins do together with a filesystem: over a read-only guard no line
    changes what is locked, over the in-memory filesystem a redirected [echo] is read back by [cat],
    and moving a file onto itself deletes it. *)

From S2P Require Import Prelude.
From S2P Require Import Text.
From S2P Require Import Utf8.
From S2P Require Import Segments.
From S2P Require Import Vfs.
From S2P Require Import MemoryFs.
From S2P Require Import ReadOnlyPathGuard.
From S2P Require Import ShellParser.
From S2P Require Import ShellExec.
From S2P Require Import ShellBuiltins.

(** ** Over a read-only guard *)

(** A command outside this model that works through the filesystem interface: what it leaves is
    reached by calls. *)
Definition through_calls {V A} `{VirtualFs V} (f : V -> V * A) : Prop :=
  forall v, exists cs, fst (f v) = fold_left (fun v c => fst (run v c)) cs v.

Lemma calls_keep {V} `{VirtualFs V} (J : V -> Prop) cs v :
  (forall v c, J v -> J (fst (run v c))) -> J v -> J (fold_left (fun v c => fst (run v c)) cs v).
Proof. intros HJ. revert v; induction cs as [|c cs IH]; intros v Hv; cbn; auto. Qed.

(** A shell cannot get round the read-only guard: over a guard whose locked prefix exists, no
    command line, with any substitutions, redirections and builtins, and with any other commands that
    go through the filesystem interface, changes an entry at or below the prefix. *)
Theorem shell_respects_guard {St : Type} `{VirtualFsLaws St} alphanumeric text_builtin runner
    (s : St) (P : list str) input sh sh' r :
  let commands := @shell_commands (ReadOnlyPathGuard St) guard_fs text_builtin runner in
  (forall program args stdin cwd, through_calls (text_builtin program args stdin cwd)) ->
  (forall f program args stdin cwd, runner = Some f -> through_calls (f program args stdin cwd)) ->
  Forall plain_segment P -> P <> [] -> fs_inv s -> fs_at s P <> None ->
  shell_vfs sh = guard_new s (path_str P) ->
  shell_run (H0 := commands) alphanumeric input sh = Some (sh', r) ->
  forall q, Forall plain_segment q -> P `prefix_of` q -> fs_at (guarded (shell_vfs sh')) q = fs_at s q.
Proof.
  intros commands Ht Hr Hpl Hne Hi Hex Esh E q Hq HP.
  set (J := fun g : ReadOnlyPathGuard St => exists s', g = guard_new s' (path_str P) /\ fs_inv s' /\
    forall q, Forall plain_segment q -> P `prefix_of` q -> fs_at s' q = fs_at s q).
  assert (HJ : forall g c, J g -> J (fst (run g c))).
  { intros g c (s1 & -> & Hi1 & Hs1).
    destruct (locked_run s1 P Hpl Hne c Hi1) as (s2 & Eg & Hi2 & Hs2); [by rewrite Hs1|].
    exists s2. split; [exact Eg|]. split; [done|]. intros q' Hq' HP'. by rewrite Hs2, Hs1. }
  assert (Hc : forall f : ReadOnlyPathGuard St -> ReadOnlyPathGuard St * option CommandResult,
    through_calls f -> forall v, J v -> J (fst (f v))).
  { intros f Hf v Hv. destruct (Hf v) as [cs ->]. by apply calls_keep. }
  destruct (run_line_keeps alphanumeric _
    (builtins_invariant text_builtin runner J HJ (fun p a i c v => Hc _ (Ht p a i c) v)
       (fun f p a i c v Ef => Hc _ (Hr f p a i c Ef) v)) _ _ _ _ _ ltac:(exists s; split; [exact Esh|done]) E)
    as (s' & -> & _ & Hs'). by apply Hs'.
Qed.

(** ** Over the in-memory filesystem *)

Section InMemory.
Context {items_to_vec : items -> result bytes str} {items_from_slice : bytes -> result items str}.

Definition memory_shell := @Shell State.
Local Abbreviation fs := (memory_fs items_to_vec items_from_slice).

Context (alphanumeric : str -> bool)
  (text_builtin : str -> list str -> str -> str -> State -> State * option CommandResult)
  (runner : option (str -> list str -> str -> str -> State -> State * option CommandResult)).

Definition memory_run (input : str) : memory_shell -> option (memory_shell * CommandResult) :=
  @shell_run State fs (@shell_commands State fs text_builtin runner) alphanumeric input.

(** [echo 'text' > 'file']. *)
Definition echo_into (text f : str) : str :=
  render [SingleQuoted "echo"; SingleQuoted text; RedirectTruncate Stdout; SingleQuoted f].

Definition echo_into_command (text f : str) : Command :=
  {| program := "echo"; args := [text];
     redirects := [{| stream := Stdout; redirect_kind := Truncate; target := ToFile f true |}];
     heredoc := None; program_literal := true; literal_args := [true] |}.

Lemma echo_into_ends text f : exists x, echo_into text f = "'"%char :: x ++ ["'"%char].
Proof.
  exists ("echo' '"%string ++ text ++ "' > '"%string ++ f). unfold echo_into, render.
  cbn [List.map join render_token]. cbn. by rewrite <- !app_assoc.
Qed.

Lemma no_quote (w : str) : mem "'"%char w = false -> "'"%char ∉ w.
Proof. intros H. by bools. Qed.

Lemma parse_echo_into text f :
  "'"%char ∉ text -> "'"%char ∉ f ->
  parse (parse_fuel (echo_into text f)) (echo_into text f) =
  Some [{| pipeline := [echo_into_command text f]; connector := None |}].
Proof.
  intros Ht Hf. destruct (echo_into_ends text f) as [x Ex]. unfold echo_into in *. set (ts := [_; _; _; _]) in *.
  assert (Hok : Forall token_ok ts).
  { pose proof (no_quote "echo" eq_refl). by repeat constructor. }
  rewrite parse_render; [reflexivity|done|by apply render_nonempty|by rewrite Ex, trim_quoted].
Qed.

Lemma words_named program words stdin (sh : memory_shell) v (r : CommandResult) :
  program ∉ List.map lit ["export"; "cd"; "pwd"; "env"; "which"]%string -> program <> [] ->
  @builtin_named State fs program words stdin (cwd sh) (shell_vfs sh) = Some (v, r) ->
  @execute_words State fs (@shell_commands State fs text_builtin runner) program words stdin sh
  = Some (set_vfs v sh, r).
Proof.
  intros Hn Hne E. unfold execute_words. cbn [List.map] in Hn. rewrite !not_elem_of_cons in Hn.
  destruct Hn as (H1 & H2 & H3 & H4 & H5 & _). unfold str_eqb. rewrite !bool_decide_eq_false_2 by done.
  unfold run_builtin, sh_bind, sh_get, sh_vfs, try_builtin, shell_commands, shell_try_builtin. by rewrite E.
Qed.

(** What [echo 'text' > 'file'] does, branch by branch: the file is written, or the output is kept and
    the failure reported; the null device takes the text. *)
Lemma echo_into_spec text f sh :
  "'"%char ∉ text -> "'"%char ∉ f ->
  let path := resolve_against_cwd f (cwd sh) in
  memory_run (echo_into text f) sh =
  if str_eqb path DEV_NULL then Some (set_status 0 sh, success [])
  else let '(v, r) := write path (text ++ [lf]) (shell_vfs sh) in
  match r with
  | Ok _ => Some (set_status 0 (set_vfs v sh), success [])
  | Err e => Some (set_status 1 (set_vfs v sh),
               {| stdout := text ++ [lf]; stderr := redirect_message path e; exit_code := 1 |})
  end.
Proof.
  intros Ht Hf path. unfold memory_run, shell_run, run_fuel. cbn [run_line]. rewrite parse_echo_into by done.
  cbn -[execute_words lit]. unfold execute_stage, execute_command, sh_bind. cbn -[execute_words lit]. unfold sh_bind.
  rewrite (words_named "echo" [text] [] sh (shell_vfs sh) (builtin_echo [text])); [|set_solver by done|done|done].
  unfold apply_redirects. cbn -[lit]. unfold sh_bind. cbn -[lit]. fold path.
  destruct (str_eqb path DEV_NULL); cbn -[lit]; [by destruct sh|].
  unfold sh_vfs, write_redirect_files. cbn -[lit write]. unfold se_bind, write_redirect_file. cbn -[lit write].
  destruct (write path (text ++ [lf]) (shell_vfs sh)) as [v [[]|e]]; by destruct sh.
Qed.

(** What a shell writes it reads: when [echo 'text' > 'file'] ends with status 0 on a file other
    than the null device, [cat 'file'] in the shell it leaves prints the text and a line break, with
    status 0; for any text without a quote that is valid UTF-8, and any name. *)
Theorem echo_then_cat text f sh sh1 r1 :
  "'"%char ∉ text -> "'"%char ∉ f -> valid_utf8 text ->
  resolve_against_cwd f (cwd sh) <> DEV_NULL ->
  memory_run (echo_into text f) sh = Some (sh1, r1) -> exit_code r1 = 0%Z ->
  memory_run (quoted_command ["cat" : str; f]) sh1 = Some (sh1, success (text ++ [lf])).
Proof.
  intros Ht Hf Hu Hp. rewrite echo_into_spec by done. unfold str_eqb. rewrite bool_decide_eq_false_2 by done.
  destruct (write _ _ _) as [v [[]|e]] eqn:Ew; [|by intros [= <- <-]].
  intros [= <- <-] _. unfold memory_run, shell_run, run_fuel. cbn [run_line].
  rewrite parse_quoted by (try done; repeat constructor; try done; by apply no_quote).
  rewrite execute_literal, (words_named "cat" [f] [] _ v (success (text ++ [lf]))); [by destruct sh|set_solver by done|done|].
  change (builtin_named _ _ _ _ _) with (Some (v, builtin_cat (H := fs) [f] [] (cwd sh) v)). do 2 f_equal.
  unfold builtin_cat. cbn [read_texts]. unfold read_text, shell_read_file, str_eqb.
  rewrite bool_decide_eq_false_2 by done. change (@vfs_read State fs v ?p) with (read v p). rewrite (write_read _ _ _ _ Ew).
  rewrite from_utf8_ok by (apply valid_utf8_app; [done|by apply ascii_valid; repeat constructor]).
  cbn. by rewrite app_nil_r.
Qed.

(** [mv] of a file onto itself, under any two names of it, deletes the file and reports success:
    it copies the contents over themselves and then removes the source. *)
Theorem mv_onto_itself_deletes a b c s d :
  let path := resolve_against_cwd a c in
  mem_inv s -> resolve_against_cwd b c = path -> path <> DEV_NULL -> read s path = Ok d ->
  exists s', @builtin_mv State fs [a; b] c s = (s', success []) /\ exists_ s' path = false.
Proof.
  intros path Hi Eb Hp Hr. unfold builtin_mv. rewrite Eb. fold path.
  unfold shell_read_file, shell_write_file, str_eqb. rewrite !bool_decide_eq_false_2 by done.
  change (@vfs_read State fs s path) with (read s path). rewrite Hr.
  destruct (read_write path d d s Hi Hr) as [s1 Ew]. change (@vfs_write State fs s path d) with (write path d s).
  rewrite Ew.
  assert (Hi1 : mem_inv s1) by (eapply (effect_inv s); [done|]; pose proof (write_outcome path d s) as Ho; by rewrite Ew in Ho).
  destruct (remove_gone path d s1 Hi1 (write_read _ _ _ _ Ew)) as (s2 & Er & Hg). exists s2.
  change (@vfs_remove State fs s1 path) with (remove path s1). by rewrite Er.
Qed.
End InMemory.

(** ** The properties at concrete lines *)

Definition no_command_named {V} (program : str) (args : list str) (stdin cwd : str) (v : V)
    : V * option CommandResult := (v, None).

Definition ex_guarded : ReadOnlyPathGuard State := guard_new ex_fs "/a/b".
Definition ex_guard_fs : VirtualFs (ReadOnlyPathGuard State) := @guard_fs State (memory_fs ex_to_vec ex_from_slice).

(** A line that tries to write, move and remove what is locked, in several ways. *)
Definition ex_attack : str :=
  "cd /a; echo x > b; echo $(rm -r /a/b) && mv b c || tee b b/../b; cp /dev/null b; rm -rf /a; mkdir -p b/c".

Definition ex_attacked := @shell_run _ ex_guard_fs
  (@shell_commands _ ex_guard_fs no_command_named None) (fun _ => false) ex_attack (shell_new ex_guarded ∅).

Lemma shell_respects_guard_witness :
  exists sh r, ex_attacked = Some (sh, r) /\
    fs_at (VirtualFsLaws := memory_laws ex_to_vec ex_from_slice) (guarded (shell_vfs sh)) [lit "a"; lit "b"]
    = fs_at (VirtualFsLaws := memory_laws ex_to_vec ex_from_slice) ex_fs [lit "a"; lit "b"].
Proof.
  destruct ex_attacked as [[sh r]|] eqn:E; [|vm_compute in E; discriminate E].
  exists sh, r. split; [reflexivity|]. unfold ex_attacked, ex_guard_fs in E.
  refine (@shell_respects_guard State (memory_fs ex_to_vec ex_from_slice) (memory_laws ex_to_vec ex_from_slice)
    (fun _ => false) no_command_named None ex_fs [lit "a"; lit "b"] ex_attack (shell_new ex_guarded ∅) sh r
    _ _ plain_ab _ ex_fs_inv _ _ E [lit "a"; lit "b"] plain_ab _).
  - intros ? ? ? ? v. exists []. reflexivity.
  - intros ? ? ? ? ? [=].
  - discriminate.
  - vm_compute. discriminate.
  - vm_compute. reflexivity.
  - reflexivity.
Defined.

Definition ex_memory_run : str -> @Shell State -> option (@Shell State * CommandResult) :=
  @memory_run ex_to_vec ex_from_slice (fun _ => false) no_command_named None.

Lemma echo_then_cat_witness :
  let sh := shell_new new ∅ in
  let text := lit "$HOME; rm -rf / | x" in
  exists sh1 r1, ex_memory_run (echo_into text "notes") sh = Some (sh1, r1) /\ exit_code r1 = 0%Z /\
    ex_memory_run (quoted_command ["cat" : str; "notes" : str]) sh1 = Some (sh1, success (text ++ [lf])).
Proof.
  intros sh text. destruct (ex_memory_run (echo_into text "notes") sh) as [[sh1 r1]|] eqn:E;
    [|vm_compute in E; discriminate E].
  assert (Ec : exit_code r1 = 0%Z) by (vm_compute in E; injection E as _ <-; reflexivity).
  exists sh1, r1. split; [reflexivity|]. split; [exact Ec|].
  refine (echo_then_cat (fun _ => false) no_command_named None text "notes" sh sh1 r1
    (no_quote text eq_refl) (no_quote "notes" eq_refl) _ _ E Ec); [vm_compute; reflexivity|vm_compute; discriminate].
Defined.

Lemma mv_onto_itself_deletes_witness :
  let s := fst (write "/f" "kept" new) in
  exists s', @builtin_mv State (memory_fs ex_to_vec ex_from_slice) ["f" : str; "./f" : str] "/" s = (s', success [])
    /\ exists_ s' "/f" = false.
Proof.
  intros s. refine (mv_onto_itself_deletes "f" "./f" "/" s "kept" _ _ _ _).
  - apply (calls_inv ex_to_vec ex_from_slice [CWrite "/f" "kept"]), new_inv.
  - vm_compute; reflexivity.
  - vm_compute; discriminate.
  - vm_compute; reflexivity.
Defined.

Definition ex_commands : Commands State :=
  @shell_commands State (memory_fs ex_to_vec ex_from_slice) no_command_named None.

Lemma shell_run_returns_witness :
  let input := lit "echo $(echo $(pwd)) | cat > f && false || cd nowhere; echo $?" in
  "<"%char ∉ input /\
  exists sh r, @shell_run State (memory_fs ex_to_vec ex_from_slice) ex_commands (fun _ => false) input
                 (shell_new new ∅) = Some (sh, r).
Proof.
  intros input. assert (Hlt : "<"%char ∉ input) by (intros Hin; apply contains_char_true in Hin; vm_compute in Hin; discriminate Hin).
  split; [exact Hlt|].
  exact (@shell_run_returns State (memory_fs ex_to_vec ex_from_slice) ex_commands (fun _ => false) input (shell_new new ∅) Hlt).
Defined.

Lemma quoted_words_verbatim_witness :
  let words := [lit "$(rm -rf /)"; lit "a;b"; lit "x > y"] in
  @shell_run State (memory_fs ex_to_vec ex_from_slice) ex_commands (fun _ => false)
    (quoted_command (lit "echo" :: words)) (shell_new new ∅)
  = Some (shell_new new ∅, success "$(rm -rf /) a;b x > y
").
Proof.
  intros words. etransitivity.
  - refine (@quoted_words_verbatim State (memory_fs ex_to_vec ex_from_slice) ex_commands (fun _ => false)
      "echo" words (shell_new new ∅) _ _); [discriminate|].
    repeat constructor; apply no_quote; vm_compute; reflexivity.
  - vm_compute. reflexivity.
Defined.

Lemma shell_cwd_normalized_witness :
  exists sh r, @shell_run State (memory_fs ex_to_vec ex_from_slice) ex_commands (fun _ => false)
      "mkdir -p /x/y; cd x//./y/../y" (shell_new new ∅) = Some (sh, r) /\
    cwd sh = "/x/y" /\ normalize (cwd sh) = cwd sh.
Proof.
  destruct (@shell_run State (memory_fs ex_to_vec ex_from_slice) ex_commands (fun _ => false)
    "mkdir -p /x/y; cd x//./y/../y" (shell_new new ∅)) as [[sh r]|] eqn:E; [|vm_compute in E; discriminate E].
  exists sh, r. split; [reflexivity|]. split; [vm_compute in E; injection E as <- _; reflexivity|].
  refine (@shell_cwd_normalized State (memory_fs ex_to_vec ex_from_slice) ex_commands (fun _ => false)
    _ _ _ _ _ E). vm_compute. reflexivity.
Defined.
