(* ===== verification/PrefixMountFs.v ===== *)
(** * The prefix mount

    Models [crates/simulacra-vfs/src/prefix_mount.rs]: one filesystem answers for a top-level
    prefix, another for everything else.  Both sides are any implementations of [VirtualFs]; the
    composition is proved to keep the laws of the interface when both sides do.  [subscribe] is not
    modelled. *)

From S2P Require Import Prelude.
From S2P Require Import Segments.
From S2P Require Import Vfs.
From S2P Require Import MemoryFs.

Record PrefixMountFs (B M : Type) := {
  base : B;
  mounted : M;
  prefix : str;
  name : str;
  listing_limit : option nat;
}.
Arguments base {B M} _.
Arguments mounted {B M} _.
Arguments prefix {B M} _.
Arguments name {B M} _.
Arguments listing_limit {B M} _.

Section Mount.
Context {B M : Type} `{VirtualFs B} `{VirtualFs M}.
Abbreviation Mount := (PrefixMountFs B M).

(** [new] panics ([None]) unless the prefix is one segment below the root. *)
Definition mount_new (b : B) (p : str) (m : M) : option Mount :=
  let p := normalize p in
  let n := trim_start_matches "/" p in
  if negb (str_eqb n []) && negb (contains_char "/" n)
  then Some {| base := b; mounted := m; prefix := p; name := n; listing_limit := None |}
  else None.

(** [with_listing_limit] panics on zero. *)
Definition with_listing_limit (pm : Mount) (limit : nat) : option Mount :=
  if (1 <=? limit)%nat
  then Some {| base := base pm; mounted := mounted pm; prefix := prefix pm; name := name pm;
               listing_limit := Some limit |}
  else None.

Definition set_base (pm : Mount) (b : B) : Mount :=
  {| base := b; mounted := mounted pm; prefix := prefix pm; name := name pm;
     listing_limit := listing_limit pm |}.
Definition set_mounted (pm : Mount) (m : M) : Mount :=
  {| base := base pm; mounted := m; prefix := prefix pm; name := name pm;
     listing_limit := listing_limit pm |}.

Definition in_mount (pm : Mount) (normalized : str) : bool :=
  str_eqb normalized (prefix pm) || starts_with (prefix pm ++ "/") normalized.

(** A call on the side [side] says ([true] is the mounted one). *)
Definition on_side {A} (side : bool) (pm : Mount)
    (fb : B -> B * result A VfsError) (fm : M -> M * result A VfsError)
    : Mount * result A VfsError :=
  if side then let '(m, r) := fm (mounted pm) in (set_mounted pm m, r)
  else let '(b, r) := fb (base pm) in (set_base pm b, r).

Definition denied (pm : Mount) (what : str) : VfsError :=
  PermissionDenied (what ++ " crosses the " ++ prefix pm ++ " mount").

(** The side every touched path falls on. *)
Definition one_side (pm : Mount) (what : str) (ts : list Touch) : result bool VfsError :=
  if existsb (fun t => takes_subtree t && is_ancestor (touch_path t) (prefix pm)) ts
  then Err (denied pm what)
  else
    let sides := List.map (fun t => in_mount pm (touch_path t)) ts in
    let first := match sides with [] => false | side :: _ => side end in
    if forallb (Bool.eqb first) (tl sides) then Ok first else Err (denied pm what).

Definition empty_if_absent {A} (listing : result A VfsError) (empty : A) : result A VfsError :=
  match listing with
  | Err (NotFound _) => Ok empty
  | other => other
  end.

Definition with_mount_entry (pm : Mount) (names : list str) : list str * bool :=
  let names := List.filter (fun n => negb (str_eqb n (name pm))) names in
  let '(names, displaced) :=
    match listing_limit pm with
    | Some limit =>
        let room := (limit - 1)%nat in
        if (room <? length names)%nat then (firstn room names, true) else (names, false)
    | None => (names, false)
    end in
  (names ++ [name pm], displaced).

Definition pm_read (pm : Mount) (path : str) : result bytes VfsError :=
  let path := normalize path in
  if in_mount pm path then vfs_read (mounted pm) path else vfs_read (base pm) path.

Definition pm_write (pm : Mount) (path : str) (data : bytes) :=
  let path := normalize path in
  on_side (in_mount pm path) pm (fun b => vfs_write b path data) (fun m => vfs_write m path data).

Definition pm_exists (pm : Mount) (path : str) : bool :=
  let path := normalize path in
  str_eqb path (prefix pm) ||
  (if in_mount pm path then vfs_exists (mounted pm) path else vfs_exists (base pm) path).

Definition pm_list_dir (pm : Mount) (path : str) : result (list str) VfsError :=
  let path := normalize path in
  if is_root path then
    let? names := vfs_list_dir (base pm) path in Ok (fst (with_mount_entry pm names))
  else
    let listing :=
      if in_mount pm path then vfs_list_dir (mounted pm) path else vfs_list_dir (base pm) path in
    if str_eqb path (prefix pm) then empty_if_absent listing [] else listing.

Definition pm_list_dir_bounded (pm : Mount) (path : str) : result DirListing VfsError :=
  let path := normalize path in
  if is_root path then
    let? listing := vfs_list_dir_bounded (base pm) path in
    let '(names, displaced) := with_mount_entry pm (entries listing) in
    Ok {| entries := names; truncated := truncated listing || displaced |}
  else
    let listing :=
      if in_mount pm path then vfs_list_dir_bounded (mounted pm) path
      else vfs_list_dir_bounded (base pm) path in
    if str_eqb path (prefix pm)
    then empty_if_absent listing {| entries := []; truncated := false |}
    else listing.

Definition pm_mkdir (pm : Mount) (path : str) :=
  let path := normalize path in
  on_side (in_mount pm path) pm (fun b => vfs_mkdir b path) (fun m => vfs_mkdir m path).

Definition pm_remove (pm : Mount) (path : str) : Mount * result unit VfsError :=
  let path := normalize path in
  match one_side pm "remove" (removed path) with
  | Err e => (pm, Err e)
  | Ok side => on_side side pm (fun b => vfs_remove b path) (fun m => vfs_remove m path)
  end.

Definition pm_metadata (pm : Mount) (path : str) : result FsMetadata VfsError :=
  let path := normalize path in
  if str_eqb path (prefix pm) then
    match vfs_metadata (mounted pm) path with
    | Err (NotFound _) => Ok FsMetadata_dir
    | other => other
    end
  else if in_mount pm path then vfs_metadata (mounted pm) path else vfs_metadata (base pm) path.

Definition pm_write_if (pm : Mount) (path : str) (data : bytes) (p : Precondition) :=
  let path := normalize path in
  on_side (in_mount pm path) pm (fun b => vfs_write_if b path data p)
    (fun m => vfs_write_if m path data p).

Definition pm_rename (pm : Mount) (from to : str) : Mount * result unit VfsError :=
  let from := normalize from in
  let to := normalize to in
  match one_side pm "rename" (renamed from to) with
  | Err e => (pm, Err e)
  | Ok side => on_side side pm (fun b => vfs_rename b from to) (fun m => vfs_rename m from to)
  end.

Definition pm_apply_batch (pm : Mount) (ms : list FsMutation) : Mount * result unit VfsError :=
  let ms := normalize_mutations ms in
  match one_side pm "batch" (batched ms) with
  | Err e => (pm, Err e)
  | Ok side => on_side side pm (fun b => vfs_apply_batch b ms) (fun m => vfs_apply_batch m ms)
  end.

#[export] Instance mount_fs : VirtualFs Mount := {|
  vfs_read := pm_read;
  vfs_write := pm_write;
  vfs_exists := pm_exists;
  vfs_list_dir := pm_list_dir;
  vfs_mkdir := pm_mkdir;
  vfs_remove := pm_remove;
  vfs_metadata := pm_metadata;
  vfs_snapshot pm := vfs_snapshot (base pm);
  vfs_restore pm d := on_side false pm (fun b => vfs_restore b d) (fun m => vfs_restore m d);
  vfs_write_if := pm_write_if;
  vfs_rename := pm_rename;
  vfs_apply_batch := pm_apply_batch;
  vfs_list_dir_bounded := pm_list_dir_bounded;
|}.

(** ** What [new] accepts *)

(** The mount is at one plain segment below the root. *)
Definition mounted_at (pm : Mount) (w : str) : Prop :=
  plain_segment w /\ prefix pm = path_str [w] /\ name pm = w.

Lemma mount_new_at b p m pm :
  mount_new b p m = Some pm -> exists w, segs_of p = [w] /\ mounted_at pm w /\
    base pm = b /\ mounted pm = m /\ listing_limit pm = None.
Proof.
  unfold mount_new. rewrite normalize_str. pose proof (segs_of_plain p) as Hp.
  destruct (segs_of p) as [|w ws]; [done|]. inversion Hp as [|? ? Hw Hws]; subst.
  assert (Et : trim_start_matches "/" (path_str (w :: ws)) = w ++ path_of ws).
  { destruct Hw as (Hne & _ & _ & Hs). destruct w as [|c w]; [done|].
    change (path_str ((c :: w) :: ws)) with ("/"%char :: c :: w ++ path_of ws).
    unfold trim_start_matches. cbn [drop_while]. rewrite Ascii.eqb_refl.
    destruct (Ascii.eqb_spec "/" c) as [<-|]; [|done]. destruct Hs. left. }
  rewrite Et. destruct (_ && _) eqn:G; [|done]. intros [= <-]. bools.
  destruct ws as [|v ws].
  - exists w. split_and!; try done. split_and!; try done. cbn. apply app_nil_r.
  - exfalso. match goal with H : contains_char _ _ = false |- _ => apply contains_char_false in H; apply H end.
    apply elem_of_app. right. left.
Qed.

Section At.
Context (pm : Mount) (w : str) (Hat : mounted_at pm w).

Lemma in_mount_at p : in_mount pm (normalize p) = true <-> [w] `prefix_of` segs_of p.
Proof.
  destruct Hat as (Hw & Ep & _). unfold in_mount. rewrite Ep, normalize_str, orb_true_iff, str_eqb_true.
  apply path_within; [by constructor|apply segs_of_plain|done].
Qed.

(** The calls the mount itself answers for: the root alone is above it. *)
Lemma above_mount_at p : is_ancestor p (prefix pm) = true <-> segs_of p = [].
Proof.
  destruct Hat as (Hw & Ep & _). rewrite Ep, is_ancestor_spec.
  rewrite segs_of_path_str by by constructor. split.
  - intros [[k E] Hor]. destruct (segs_of p) as [|x l]; [done|].
    injection E as -> E. destruct l; [|done]. by destruct Hor.
  - intros ->. split; [apply prefix_nil|by left].
Qed.
End At.

(** ** Routing *)

(** The side a touch is on, and whether it carries the mount along. *)
Definition side_of (pm : Mount) (t : Touch) : bool := in_mount pm (touch_path t).
Definition carries (pm : Mount) (t : Touch) : bool :=
  takes_subtree t && is_ancestor (touch_path t) (prefix pm).

Lemma one_side_spec pm what ts :
  (exists side, one_side pm what ts = Ok side /\
     (forall t, t ∈ ts -> carries pm t = false /\ side_of pm t = side) /\ (ts = [] -> side = false)) \/
  (one_side pm what ts = Err (denied pm what) /\
     ((exists t, t ∈ ts /\ carries pm t = true) \/
      (exists t t', t ∈ ts /\ t' ∈ ts /\ side_of pm t <> side_of pm t'))).
Proof.
  unfold one_side. fold (carries pm) (side_of pm).
  destruct (existsb (carries pm) ts) eqn:Ec.
  { right. split; [done|]. left. by apply existsb_elem in Ec. }
  assert (Hc : forall t, t ∈ ts -> carries pm t = false).
  { intros t Ht. apply not_true_iff_false. intros Hct. apply not_true_iff_false in Ec. apply Ec.
    apply existsb_elem. eauto. }
  destruct ts as [|t ts]; [left; exists false; split_and!; [done|by intros t ?%elem_of_nil|done]|].
  cbn [List.map tl]. destruct (forallb _ _) eqn:Ef.
  - left. exists (side_of pm t). split_and!; [done| |done]. intros t' Ht'. split; [by apply Hc|].
    apply elem_of_cons in Ht' as [->|Ht']; [done|]. rewrite forallb_elem in Ef.
    specialize (Ef (side_of pm t')). symmetry. apply eqb_prop, Ef. apply list_elem_of_fmap. eauto.
  - right. split; [done|]. right. apply not_true_iff_false in Ef.
    destruct (decide (Forall (fun t' => side_of pm t' = side_of pm t) ts)) as [Hall|Hex].
    + exfalso. apply Ef, forallb_elem. intros x (t' & -> & Ht')%list_elem_of_fmap.
      rewrite Forall_forall in Hall. rewrite (Hall t' Ht'). apply eqb_reflx.
    + apply not_Forall_Exists in Hex; [|apply _]. apply Exists_exists in Hex as (t' & Ht' & Hne).
      exists t, t'. split_and!; [left|by right|]. cbn in Hne. congruence.
Qed.

(** The two sides of a call, and its result on one of them. *)
Definition run_on (side : bool) (pm : Mount) (c : call) : Mount * result unit VfsError :=
  on_side side pm (fun b => run b (normalized c)) (fun m => run m (normalized c)).

Lemma run_denied_or_on pm w c :
  mounted_at pm w ->
  (exists side, run pm c = run_on side pm c /\
     (forall t, t ∈ touches c -> carries pm t = false /\ side_of pm t = side) /\
     (touches c = [] -> side = false)) \/
  (exists what, run pm c = (pm, Err (denied pm what)) /\
     ((exists t, t ∈ touches c /\ carries pm t = true) \/
      (exists t t', t ∈ touches c /\ t' ∈ touches c /\ side_of pm t <> side_of pm t'))).
Proof.
  intros Hat.
  assert (Hone : forall p, in_mount pm (normalize p) = side_of pm (touch p false)) by done.
  destruct c as [p d|p|p|p d pre|a b|ms]; cbn [run touches];
    cbv beta iota delta [mount_fs vfs_write vfs_mkdir vfs_remove vfs_write_if vfs_rename vfs_apply_batch];
    unfold pm_write, pm_mkdir, pm_remove, pm_write_if, pm_rename, pm_apply_batch; cbv zeta.
  1-2, 4: left; exists (in_mount pm (normalize p)); split_and!;
    [done|intros t ->%list_elem_of_singleton; by rewrite Hone|done].
  all: match goal with |- context [one_side ?h ?what ?ts] =>
    destruct (one_side_spec h what ts) as [(side & -> & H1 & H2)|[-> H1]] end;
    unfold removed, renamed in *; rewrite ?touch_normalize, ?batched_normalize in *;
    [left; exists side; split_and!; done|right; eexists; split; [done|done]].
Qed.
End Mount.

(** ** The composition keeps the laws *)

Section Laws.
Context {B M : Type} `{VirtualFsLaws B} `{VirtualFsLaws M}.
Abbreviation Mount := (PrefixMountFs B M).

Definition mount_inv (pm : Mount) : Prop :=
  (exists w, mounted_at pm w) /\ fs_inv (base pm) /\ fs_inv (mounted pm).

(** The composed tree: the mounted side at and below the prefix, the base elsewhere. *)
Definition mount_at (pm : Mount) (q : list str) : option node :=
  if decide ([name pm] `prefix_of` q) then fs_at (mounted pm) q else fs_at (base pm) q.

Lemma side_of_at (pm : Mount) w p b :
  mounted_at pm w -> side_of pm (touch p b) = true <-> [name pm] `prefix_of` segs_of p.
Proof. intros Hat. unfold side_of. cbn [touch_path touch]. rewrite (in_mount_at pm w Hat). by destruct Hat as (_ & _ & ->). Qed.

Lemma carries_at (pm : Mount) w p b :
  mounted_at pm w -> carries pm (touch p b) = true <-> b = true /\ segs_of p = [].
Proof.
  intros Hat. unfold carries. cbn [touch_path takes_subtree touch].
  rewrite andb_true_iff, (above_mount_at pm w Hat), segs_of_normalize. done.
Qed.

(** The observed node at a path and at what is near it agree with the side the path is on. *)
Lemma mount_at_side (pm : Mount) w p b q :
  mounted_at pm w -> q = segs_of p ->
  mount_at pm q = if side_of pm (touch p b) then fs_at (mounted pm) q else fs_at (base pm) q.
Proof.
  intros Hat ->. unfold mount_at. pose proof (side_of_at pm w p b Hat) as Hs.
  destruct (decide _) as [Hd|Hd]; [by rewrite (proj2 Hs Hd)|].
  destruct (side_of pm (touch p b)); [|done]. by destruct Hd; apply Hs.
Qed.

(** A call took effect: on one side alone, with the paths normalised. *)
Definition lands_on (side : bool) (pm : Mount) (c : call) (pm' : Mount) : Prop :=
  if side then exists m, lands (mounted pm) (normalized c) m /\ pm' = set_mounted pm m
  else exists b, lands (base pm) (normalized c) b /\ pm' = set_base pm b.

(** The side every touch of a call is on, none of them carrying the mount along. *)
Definition routed (side : bool) (pm : Mount) (c : call) : Prop :=
  (forall t, t ∈ touches c -> carries pm t = false /\ side_of pm t = side) /\ (touches c = [] -> side = false).

Definition mount_lands (pm : Mount) (c : call) (pm' : Mount) : Prop :=
  exists side, routed side pm c /\ lands_on side pm c pm'.

Lemma run_on_ok side pm c pm' :
  mount_inv pm -> run_on side pm c = (pm', Ok tt) -> lands_on side pm c pm'.
Proof.
  intros [_ [Hb Hm]]. unfold run_on, on_side. destruct side.
  - destruct (run (mounted pm) (normalized c)) as [m r'] eqn:E. intros [= <- ->]. exists m. split; [by apply law_ok|done].
  - destruct (run (base pm) (normalized c)) as [b r'] eqn:E. intros [= <- ->]. exists b. split; [by apply law_ok|done].
Qed.

Lemma run_on_error side pm c pm' e :
  mount_inv pm -> run_on side pm c = (pm', Err e) ->
  pm' = pm \/ ((exists m, e = OutcomeUnknown m) /\ lands_on side pm c pm').
Proof.
  intros [_ [Hb Hm]]. unfold run_on, on_side. destruct side.
  - destruct (run (mounted pm) (normalized c)) as [m r'] eqn:E. intros [= <- ->].
    apply law_error in E as [->|[He Hl]]; [left; by destruct pm|right; split; [done|by exists m]|done].
  - destruct (run (base pm) (normalized c)) as [b r'] eqn:E. intros [= <- ->].
    apply law_error in E as [->|[He Hl]]; [left; by destruct pm|right; split; [done|by exists b]|done].
Qed.

Lemma lands_on_inv side pm c pm' : mount_inv pm -> lands_on side pm c pm' -> mount_inv pm'.
Proof.
  intros [[w Hat] [Hb Hm]]. destruct side; intros (x & Hl & ->); apply law_inv in Hl; try done;
    (split; [by exists w|done]).
Qed.

(** A touch that disturbs a path in one side disturbs it in the composed tree. *)
Lemma disturbs_mount side (pm : Mount) w t p b q :
  mounted_at pm w -> t = touch p b -> side_of pm t = side -> carries pm t = false ->
  disturbs (if side then fs_at (mounted pm) else fs_at (base pm)) t q ->
  (if side then [name pm] `prefix_of` q else ~ [name pm] `prefix_of` q) ->
  disturbs (mount_at pm) t q.
Proof.
  intros Hat -> Hs Hc Hd Hq. unfold disturbs in *. rewrite segs_of_touch in *.
  assert (Hp : mount_at pm (segs_of p) =
               (if side then fs_at (mounted pm) else fs_at (base pm)) (segs_of p))
    by (rewrite (mount_at_side pm w p b) by done; rewrite Hs; by destruct side).
  assert (Hq' : mount_at pm q = (if side then fs_at (mounted pm) else fs_at (base pm)) q).
  { unfold mount_at. destruct (decide _); destruct side; done. }
  by rewrite Hp, Hq'.
Qed.

Lemma normalized_singleton c :
  (forall ms, c = CBatch ms -> exists m, ms = [m]) ->
  forall ms, normalized c = CBatch ms -> exists m, ms = [m].
Proof.
  intros Hc ms. destruct c as [| | | | |ms']; try done. destruct (Hc ms' eq_refl) as [m ->].
  intros [= <-]. by eexists.
Qed.

Lemma lands_on_frame side (pm : Mount) c pm' q :
  mount_inv pm -> Forall plain_segment q -> lands_on side pm c pm' ->
  (forall t, t ∈ touches c -> carries pm t = false /\ side_of pm t = side) ->
  (forall ms, c = CBatch ms -> exists m, ms = [m]) ->
  (forall t, t ∈ touches c -> ~ disturbs (mount_at pm) t q) -> mount_at pm' q = mount_at pm q.
Proof.
  intros [[w Hat] [Hb Hm]] Hq Hl Ht Hc Hd.
  destruct side; destruct Hl as (x & Hl & ->); unfold mount_at; cbn [name base mounted set_mounted set_base].
  - destruct (decide _) as [Hin|]; [|done].
    eapply law_frame; [exact Hm|done|exact Hl|by apply normalized_singleton|].
    rewrite touches_normalized. intros t Hint Hdt. apply (Hd t Hint).
    destruct (Ht t Hint) as [Hc1 Hc2]. destruct (touches_are c t Hint) as (p & b & Et).
    by eapply (disturbs_mount true).
  - destruct (decide _) as [|Hout]; [done|].
    eapply law_frame; [exact Hb|done|exact Hl|by apply normalized_singleton|].
    rewrite touches_normalized. intros t Hint Hdt. apply (Hd t Hint).
    destruct (Ht t Hint) as [Hc1 Hc2]. destruct (touches_are c t Hint) as (p & b' & Et).
    by eapply (disturbs_mount false).
Qed.

Lemma pm_read_at (pm : Mount) w p :
  mounted_at pm w -> fs_inv (base pm) -> fs_inv (mounted pm) ->
  pm_read pm p = match mount_at pm (segs_of p) with
                 | Some (FileNode d) => Ok d
                 | Some DirNode => Err (NotAFile (normalize p))
                 | None => Err (NotFound (normalize p))
                 end.
Proof.
  intros Hat Hb Hm. unfold pm_read, mount_at. cbv zeta.
  pose proof (in_mount_at pm w Hat p) as Hi. destruct Hat as (_ & _ & ->).
  destruct (decide _) as [Hd|Hd].
  - rewrite (proj2 Hi Hd), law_read by done. by rewrite segs_of_normalize, normalize_idem.
  - destruct (in_mount pm (normalize p)); [by destruct Hd; apply Hi|].
    rewrite law_read by done. by rewrite segs_of_normalize, normalize_idem.
Qed.

Lemma lands_on_batch_cons side (pm : Mount) m m' ms pm' :
  mount_inv pm -> lands_on side pm (CBatch (m :: m' :: ms)) pm' ->
  exists pm1, lands_on side pm (CBatch [m]) pm1 /\ lands_on side pm1 (CBatch (m' :: ms)) pm' /\
    prefix pm1 = prefix pm.
Proof.
  intros [_ [Hb Hm]]. destruct side; intros (x & Hl & ->); apply law_batch in Hl as (s1 & E1 & E2); try done.
  - exists (set_mounted pm s1). split_and!; [by exists s1|by exists x|done].
  - exists (set_base pm s1). split_and!; [by exists s1|by exists x|done].
Qed.

Lemma batched_cons m ms t : t ∈ batched (m :: ms) <-> t ∈ batched [m] \/ t ∈ batched ms.
Proof. unfold batched. cbn [flat_map]. rewrite app_nil_r. apply elem_of_app. Qed.

Lemma mount_batch (pm : Mount) ms pm' :
  mount_inv pm -> mount_lands pm (CBatch ms) pm' ->
  match ms with
  | [] => pm' = pm
  | [_] => True
  | m :: rest => exists s1, mount_lands pm (CBatch [m]) s1 /\ mount_lands s1 (CBatch rest) pm'
  end.
Proof.
  intros Hi (side & [Ht Hnil] & Hl). cbn [touches] in *. destruct ms as [|m [|m' ms]]; [|done|].
  - rewrite Hnil in Hl by done. destruct Hl as (b & Hl & ->). apply law_batch in Hl; [|apply Hi].
    cbn in Hl. subst. by destruct pm.
  - apply lands_on_batch_cons in Hl as (pm1 & E1 & E2 & Ep); [|done].
    exists pm1. split; exists side; (split; [|done]); split; cbn [touches].
    + intros t Hin. apply Ht, batched_cons. by left.
    + intros E. unfold batched in E. cbn [flat_map] in E. rewrite mutation_touches_eq in E. by destruct m.
    + intros t Hin. unfold carries, side_of, in_mount. rewrite Ep. apply Ht, batched_cons. by right.
    + intros E. change (batched (m' :: ms)) with (mutation_touches m' ++ batched ms) in E.
      rewrite mutation_touches_eq in E. by destruct m'.
Qed.

(** The tree of one side. *)
Definition side_at (side : bool) (pm : Mount) : list str -> option node :=
  if side then fs_at (mounted pm) else fs_at (base pm).

Lemma lands_on_side side (pm : Mount) c pm' :
  mount_inv pm -> lands_on side pm c pm' ->
  name pm' = name pm /\ made (normalized c) (side_at side pm) (side_at side pm').
Proof.
  intros [_ [Hb Hm]]. destruct side; intros (x & Hl & ->); (split; [done|]);
    by apply law_made in Hl.
Qed.

Lemma mount_at_under side (pm : Mount) q :
  ([name pm] `prefix_of` q <-> side = true) -> mount_at pm q = side_at side pm q.
Proof. unfold mount_at. intros Hq. by destruct (decide _), side; try tauto; discriminate (proj1 Hq). Qed.

(** A touch keeps what is at its path, and what is below it if it is not the root, on its side. *)
Lemma touch_side side (pm : Mount) w p b :
  mounted_at pm w -> side_of pm (touch p b) = side -> [name pm] `prefix_of` segs_of p <-> side = true.
Proof. intros Hat <-. symmetry. by apply (side_of_at pm w). Qed.

Lemma below_side side (pm : Mount) w p b q :
  mounted_at pm w -> side_of pm (touch p b) = side -> segs_of p <> [] ->
  [name pm] `prefix_of` segs_of p ++ q <-> side = true.
Proof.
  intros Hat Hs Hne. rewrite <- (touch_side side pm w p b Hat Hs). split.
  - intros [k E]. destruct (segs_of p) as [|x l]; [done|]. injection E as -> E. by exists l.
  - intros [k ->]. exists (k ++ q). by rewrite <- app_assoc.
Qed.

Lemma not_root_carried (pm : Mount) w p : mounted_at pm w -> carries pm (touch p true) = false -> segs_of p <> [].
Proof. intros Hat Hc E. apply not_true_iff_false in Hc. apply Hc. by apply (carries_at pm w). Qed.

Lemma made_up side (pm pm' : Mount) w c :
  mounted_at pm w -> fs_inv (base pm) -> name pm' = name pm ->
  (forall t, t ∈ touches c -> carries pm t = false /\ side_of pm t = side) ->
  made (normalized c) (side_at side pm) (side_at side pm') -> made c (mount_at pm) (mount_at pm').
Proof.
  intros Hat Hb En Ht Hm.
  assert (At : forall p b, touch p b ∈ touches c -> forall x : Mount, name x = name pm ->
    mount_at x (segs_of p) = side_at side x (segs_of p)).
  { intros p b Hin x Ex. apply mount_at_under. rewrite Ex. exact (touch_side side pm w p b Hat (proj2 (Ht _ Hin))). }
  assert (Below : forall p b q, touch p b ∈ touches c -> segs_of p <> [] -> forall x : Mount, name x = name pm ->
    mount_at x (segs_of p ++ q) = side_at side x (segs_of p ++ q)).
  { intros p b q Hin Hne x Ex. apply mount_at_under. rewrite Ex. exact (below_side side pm w p b q Hat (proj2 (Ht _ Hin)) Hne). }
  assert (Gone : forall p, touch p true ∈ touches c ->
    (forall q, Forall plain_segment q -> side_at side pm' (segs_of (normalize p) ++ q) = None) ->
    forall q, Forall plain_segment q -> mount_at pm' (segs_of p ++ q) = None).
  { intros p Hin Hg q Hq. rewrite segs_of_normalize in Hg.
    rewrite (Below p true); [by apply Hg|done|exact (not_root_carried pm w p Hat (proj1 (Ht _ Hin)))|done]. }
  assert (Moved : forall a b, touch a true ∈ touches c -> touch b false ∈ touches c ->
    made (CRename (normalize a) (normalize b)) (side_at side pm) (side_at side pm') ->
    made (CRename a b) (mount_at pm) (mount_at pm')).
  { intros a b Ha Hb'. cbn [made]. rewrite !segs_of_normalize. intros (K1 & K2 & K3).
    assert (segs_of a <> []) as Hna by exact (not_root_carried pm w a Hat (proj1 (Ht _ Ha))).
    rewrite (At a true), (At b false) by done. split_and!; [done|done|]. intros q Hq.
    destruct (decide (segs_of b = [])) as [E|Hnb].
    { exfalso. destruct (Ht _ Hb') as [_ Hs]. apply (touch_side side pm w b false Hat) in Hs.
      rewrite E in Hs, K2. destruct side; [by destruct (proj2 Hs eq_refl)|]. cbn [side_at] in K2.
      by rewrite law_root in K2. }
    rewrite (Below b false), (Below a true q), (Below a true q) by done. by apply K3. }
  destruct c as [p d|p|p|p d pre|a b|[|m [|m' ms]]];
    [| | | | |done|destruct m as [p d pre|p|p pre|a b pre]|by destruct m];
    cbn [normalized normalize_mutations List.map normalize_mutation] in Hm;
    [..|by apply Moved; [left|right; left|]]; cbn [made] in *.
  all: try by (apply Gone; [left|]).
  all: try by (apply Moved; [left|right; left|]).
  all: rewrite segs_of_normalize in Hm; rewrite (At p false) by (done || left); try done.
  all: destruct Hm as [Hm1 Hm2]; split; [done|]; intros E; rewrite (At p false) by (done || left); by apply Hm2.
Qed.

#[export] Program Instance mount_laws : VirtualFsLaws Mount := {|
  fs_inv := mount_inv;
  fs_at := mount_at;
  lands := mount_lands;
|}.
Next Obligation.
  intros pm c pm' Hi E. pose proof Hi as [[w Hat] _].
  destruct (run_denied_or_on pm w c Hat) as [(side & Er & Hr)|(what & Er & _)]; rewrite Er in E; [|done].
  exists side. split; [done|]. by apply run_on_ok.
Qed.
Next Obligation.
  intros pm c pm' e Hi E. pose proof Hi as [[w Hat] _].
  destruct (run_denied_or_on pm w c Hat) as [(side & Er & Hr)|(what & Er & _)]; rewrite Er in E.
  - apply run_on_error in E as [->|[He Hl]]; [by left|right; split; [done|by exists side]|done].
  - injection E as <- _. by left.
Qed.
Next Obligation. intros pm c pm' Hi (side & _ & Hl). by apply lands_on_inv in Hl. Qed.
Next Obligation.
  intros pm [[w (_ & _ & En)] [Hb _]]. unfold mount_at. rewrite decide_False; [by apply law_root|].
  by intros [k E].
Qed.
Next Obligation. intros pm p [[w Hat] [Hb Hm]]. by eapply pm_read_at. Qed.
Next Obligation.
  intros pm p q [_ [Hb Hm]] Hq Hpq. unfold mount_at.
  destruct (decide ([name pm] `prefix_of` p)) as [Hp|Hp], (decide ([name pm] `prefix_of` q)) as [Hq'|Hq'].
  - by apply law_closed.
  - destruct Hq'. by etransitivity.
  - intros _. destruct p as [|x p]; [by rewrite law_root|]. destruct Hp.
    destruct Hq' as [k ->]. destruct Hpq as [k' E]. injection E as -> E. by exists p.
  - by apply law_closed.
Qed.
Next Obligation.
  intros pm c pm' Hi (side & [Ht _] & Hl). pose proof Hi as [[w Hat] [Hb _]].
  apply lands_on_side in Hl as [En Hm]; [|done]. by apply (made_up side pm pm' w).
Qed.
Next Obligation. intros pm c pm' q Hi Hq (side & [Ht _] & Hl) Hc Hd. by eapply lands_on_frame. Qed.
Next Obligation. exact mount_batch. Qed.
End Laws.

(** What [with_mount_entry] keeps of the base's entries. *)
Lemma with_mount_entry_spec {B M : Type} (pm : PrefixMountFs B M) names :
  NoDup names ->
  exists l displaced, with_mount_entry pm names = (l ++ [name pm], displaced) /\
    NoDup l /\ (forall n, n ∈ l -> n ∈ names /\ n <> name pm) /\
    (forall limit, listing_limit pm = Some limit -> (length l <= limit - 1)%nat) /\
    (displaced = false -> forall n, n ∈ names -> n <> name pm -> n ∈ l).
Proof.
  intros Hn. unfold with_mount_entry.
  set (f := fun n => negb (str_eqb n (name pm))). set (kept := List.filter f names).
  assert (Hin : forall n, n ∈ kept <-> n ∈ names /\ n <> name pm).
  { intros n. unfold kept, f. rewrite !list_elem_of_In, filter_In, negb_true_iff.
    split; intros [? E]; (split; [done|]); [by bools|]. apply not_true_iff_false. by rewrite str_eqb_true. }
  assert (Hnd : NoDup kept) by (apply NoDup_ListNoDup, List.NoDup_filter, NoDup_ListNoDup, Hn).
  destruct (listing_limit pm) as [limit|].
  - destruct (Nat.ltb_spec (limit - 1) (length kept)); eexists _, _; (split; [done|]).
    + rewrite <- (firstn_skipn (limit - 1) kept) in Hnd. apply NoDup_app in Hnd as [Hnd _].
      split_and!; [done| |intros ? [= <-]; rewrite length_firstn; lia|done].
      intros n Hnl. apply Hin. rewrite <- (firstn_skipn (limit - 1) kept). apply elem_of_app. by left.
    + split_and!; [done|by intros n ?%Hin|by intros ? [= <-]|]. intros _ n ? ?. by apply Hin.
  - eexists _, _; split; [done|]. split_and!; [done|by intros n ?%Hin|done|]. intros _ n ? ?. by apply Hin.
Qed.

(** ** The properties *)

(** Routing: a call all of whose touches are under the prefix runs on the mounted side alone, one
    with no touch under it that does not take the whole tree runs on the base alone, and any other
    is refused as permission denied with nothing changed on either side. *)
Theorem prefix_mount_routes {B M : Type} `{VirtualFs B} `{VirtualFs M} (pm : PrefixMountFs B M) w c :
  mounted_at pm w ->
  let inside t := [w] `prefix_of` segs_of (touch_path t) in
  let whole t := takes_subtree t = true /\ segs_of (touch_path t) = [] in
  (touches c <> [] /\ (forall t, t ∈ touches c -> inside t) /\
     run pm c = run_on true pm c) \/
  ((forall t, t ∈ touches c -> ~ inside t /\ ~ whole t) /\ run pm c = run_on false pm c) \/
  (((exists t, t ∈ touches c /\ whole t) \/
    (exists t t', t ∈ touches c /\ t' ∈ touches c /\ inside t /\ ~ inside t')) /\
   exists what, run pm c = (pm, Err (PermissionDenied (what ++ " crosses the /" ++ w ++ " mount")))).
Proof.
  intros Hat inside whole. pose proof Hat as (Hw & Ep & En).
  assert (Hin : forall t, t ∈ touches c -> side_of pm t = true <-> inside t).
  { intros t (p & b & ->)%touches_are. rewrite (side_of_at pm w p b Hat), En.
    unfold inside. by rewrite segs_of_touch. }
  assert (Hcar : forall t, t ∈ touches c -> carries pm t = true <-> whole t).
  { intros t (p & b & ->)%touches_are. rewrite (carries_at pm w p b Hat).
    unfold whole. rewrite segs_of_touch. done. }
  destruct (run_denied_or_on pm w c Hat) as [(side & Er & Ht & Hnil)|(what & Er & Hbad)].
  - destruct side; [left|right; left]; split_and?.
    + intros E. by discriminate (Hnil E).
    + intros t Hint. apply Hin; [done|]. by apply Ht.
    + done.
    + intros t Hint. destruct (Ht t Hint) as [Hc Hs]. split.
      * intros Hi. apply Hin in Hi; [congruence|done].
      * intros Hwh. apply Hcar in Hwh; [congruence|done].
    + done.
  - right; right. split; [|exists what; rewrite Er; unfold denied; rewrite Ep;
                           do 2 f_equal; cbn [path_str path_of flat_map]; by rewrite app_nil_r].
    destruct Hbad as [(t & Hint & Hc)|(t & t' & Hint & Hint' & Hne)]; [left|right].
    + exists t. split; [done|]. by apply Hcar.
    + destruct (side_of pm t) eqn:E1, (side_of pm t') eqn:E2; try done.
      * exists t, t'. split_and!; [done|done|by apply Hin|]. intros Hi. apply Hin in Hi; congruence.
      * exists t', t. split_and!; [done|done|by apply Hin|]. intros Hi. apply Hin in Hi; congruence.
Qed.

(** C37. The mount is itself a lawful filesystem: over two filesystems that keep the interface's laws
    it keeps them too, for the tree that is the mounted one at and below the prefix and the base
    everywhere else.  The laws say of that one tree that reads agree with it, that a call answered
    [Ok] made what it asks for in it ([made]: the bytes written, the directory, the removed subtree
    gone, the moved subtree at its new place alone) and changed nothing its touches do not account
    for, that a failed call left both sides as they were, an [OutcomeUnknown] one perhaps excepted,
    and that a batch took effect item by item. *)
Theorem prefix_mount_lawful {B M : Type} `{VirtualFsLaws B} `{VirtualFsLaws M} :
  exists L : VirtualFsLaws (PrefixMountFs B M),
    (forall pm, fs_inv (VirtualFsLaws := L) pm <->
       (exists w, mounted_at pm w) /\ fs_inv (base pm) /\ fs_inv (mounted pm)) /\
    (forall pm q, fs_at (VirtualFsLaws := L) pm q =
       if decide ([name pm] `prefix_of` q) then fs_at (mounted pm) q else fs_at (base pm) q).
Proof. by exists mount_laws. Qed.

(** A root listing always shows the mount exactly once, last, keeps to the listing limit, adds
    nothing else to the base's entries, and reports as complete only a listing that leaves none of
    them out. *)
Theorem prefix_mount_root_listing {B M : Type} `{VirtualFs B} `{VirtualFs M}
    (pm : PrefixMountFs B M) p names cut :
  segs_of p = [] -> NoDup names ->
  vfs_list_dir_bounded (base pm) "/" = Ok {| entries := names; truncated := cut |} ->
  exists l, pm_list_dir_bounded pm p = Ok l /\
    NoDup (entries l) /\ last (entries l) = Some (name pm) /\
    (forall limit, listing_limit pm = Some limit -> (1 <= limit)%nat -> (length (entries l) <= limit)%nat) /\
    (forall n, n ∈ entries l -> n = name pm \/ n ∈ names) /\
    (truncated l = false -> cut = false /\ forall n, n ∈ names -> n ∈ entries l).
Proof.
  intros Ep Hn Hl. unfold pm_list_dir_bounded. cbv zeta. rewrite normalize_str, Ep.
  change (is_root (path_str [])) with true. cbv iota. change (path_str []) with (lit "/"). rewrite Hl.
  cbn [entries truncated].
  destruct (with_mount_entry_spec pm names Hn) as (l & displaced & -> & Hnd & Hsub & Hlen & Hall).
  eexists. split; [done|]. cbn [entries truncated]. split_and!.
  - apply NoDup_app. split_and!; [done|intros n [_ Hne]%Hsub ->%list_elem_of_singleton; done|apply NoDup_singleton].
  - by rewrite last_snoc.
  - intros limit Hlim Hge. specialize (Hlen limit Hlim). rewrite length_app. cbn. lia.
  - intros n [Hnl|Hnl]%elem_of_app; [right; by apply Hsub|left; by apply list_elem_of_singleton in Hnl].
  - intros [-> Hd]%orb_false_iff. split; [done|]. intros n Hnn. rewrite elem_of_app, list_elem_of_singleton.
    destruct (decide (n = name pm)) as [|Hne]; [by right|left]. by apply Hall.
Qed.

(** ** The properties at a concrete mount *)

Definition ex_mount : PrefixMountFs State State :=
  {| base := fst (write "/w/x" "b" new); mounted := fst (write "/skills/s" "m" new);
     prefix := "/skills"; name := "skills"; listing_limit := Some 1%nat |}.

Lemma ex_mount_at : mounted_at ex_mount "skills".
Proof.
  split; [|done]. pose proof (segs_of_plain "/skills") as H.
  change (segs_of "/skills") with [lit "skills"] in H. by inversion H.
Qed.

Definition ex_mount_fs : VirtualFs (PrefixMountFs State State) :=
  @mount_fs State State (memory_fs ex_to_vec ex_from_slice) (memory_fs ex_to_vec ex_from_slice).

(** Which disjunct holds at a rename across the mount. *)
Lemma prefix_mount_routes_witness :
  mounted_at ex_mount "skills" /\
  snd (@run _ ex_mount_fs ex_mount (CRename "/w/x" "/skills/x")) =
    Err (PermissionDenied (lit "rename" ++ " crosses the /" ++ lit "skills" ++ " mount")).
Proof.
  split; [exact ex_mount_at|].
  destruct (@prefix_mount_routes State State (memory_fs ex_to_vec ex_from_slice)
    (memory_fs ex_to_vec ex_from_slice) ex_mount "skills" (CRename "/w/x" "/skills/x") ex_mount_at)
    as [(_ & H & _)|[(H & _)|_]].
  - exfalso. destruct (H (touch "/w/x" true)) as [k Hk]; [left|]. vm_compute in Hk. discriminate.
  - exfalso. destruct (H (touch "/skills/x" false)) as [Hk _]; [right; left|].
    apply Hk. exists [lit "x"]. reflexivity.
  - vm_compute. reflexivity.
Defined.

Lemma prefix_mount_root_listing_witness :
  NoDup [lit "w"] /\
  exists l, @pm_list_dir_bounded _ _ (memory_fs ex_to_vec ex_from_slice)
      (memory_fs ex_to_vec ex_from_slice) ex_mount "/" = Ok l /\ last (entries l) = Some (lit "skills").
Proof.
  assert (NoDup [lit "w"]) as Hn by apply NoDup_singleton.
  split; [exact Hn|].
  destruct (@prefix_mount_root_listing State State (memory_fs ex_to_vec ex_from_slice)
    (memory_fs ex_to_vec ex_from_slice) ex_mount "/" [lit "w"] false) as (l & E & _ & Hl & _);
    [reflexivity|exact Hn|vm_compute; reflexivity|].
  exists l. split; [exact E|exact Hl].
Defined.
