(* ===== verification/OverlayFs.v ===== *)
(** * The copy-on-write overlay

    Models [crates/simulacra-vfs/src/overlay.rs]: a read-only lower filesystem, an upper one that
    takes every change, and a set of whiteouts that hide the lower one.  Both layers are any
    implementations of [VirtualFs].  The whiteout set is a [gset]; the snapshot's JSON codec is a
    parameter. *)

From S2P Require Import Prelude.
From S2P Require Import Segments.
From S2P Require Import Vfs.
From S2P Require Import MemoryFs.

Record OverlayFs (L U : Type) := { lower : L; upper : U; whiteouts : gset str }.
Arguments lower {L U} _.
Arguments upper {L U} _.
Arguments whiteouts {L U} _.

(** [path.rfind('/')]. *)
Definition rfind_slash (path : str) : option nat := rposition (Ascii.eqb "/") path.

(** The loops over the ancestors of a path; every turn shortens [current], so its length is fuel
    enough. *)
Fixpoint ancestor_whited_out (fuel : nat) (wo : gset str) (current : str) : bool :=
  match fuel with
  | O => false
  | S fuel =>
      match rfind_slash current with
      | None => false
      | Some pos =>
          if (pos =? 0)%nat then bool_decide (lit "/" ∈ wo)
          else
            let current := firstn pos current in
            if bool_decide (current ∈ wo) then true else ancestor_whited_out fuel wo current
      end
  end.

Definition is_whited_out_set (wo : gset str) (path : str) : bool :=
  if bool_decide (path ∈ wo) then true else ancestor_whited_out (length path) wo path.

Fixpoint clear_ancestors (fuel : nat) (wo : gset str) (current : str) : gset str :=
  match fuel with
  | O => wo
  | S fuel =>
      match rfind_slash current with
      | None => wo
      | Some pos =>
          if (pos =? 0)%nat then wo ∖ {[ lit "/" ]}
          else
            let current := firstn pos current in
            clear_ancestors fuel (wo ∖ {[ current ]}) current
      end
  end.

Definition clear_whiteouts (wo : gset str) (path : str) : gset str :=
  clear_ancestors (length path) (wo ∖ {[ path ]}) path.

Section Overlay.
Context {L U : Type} `{VirtualFs L} `{VirtualFs U}.
Abbreviation Overlay := (OverlayFs L U).

Definition overlay_new (l : L) (u : U) : Overlay := {| lower := l; upper := u; whiteouts := ∅ |}.

Definition set_upper (o : Overlay) (u : U) : Overlay :=
  {| lower := lower o; upper := u; whiteouts := whiteouts o |}.

Definition is_whited_out (o : Overlay) (path : str) : bool := is_whited_out_set (whiteouts o) path.

Definition clear_whiteouts_recursive (o : Overlay) (path : str) : Overlay :=
  {| lower := lower o; upper := upper o; whiteouts := clear_whiteouts (whiteouts o) path |}.

Definition on_upper {A} (o : Overlay) (res : U * result A VfsError) : Overlay * result A VfsError :=
  (set_upper o (fst res), snd res).

Definition ov_read (o : Overlay) (path : str) : result bytes VfsError :=
  let path := normalize path in
  if is_whited_out o path then Err (NotFound path)
  else match vfs_read (upper o) path with
  | Ok data => Ok data
  | Err (NotFound _) => vfs_read (lower o) path
  | Err e => Err e
  end.

Definition ov_write (o : Overlay) (path : str) (data : bytes) : Overlay * result unit VfsError :=
  let path := normalize path in
  let o := clear_whiteouts_recursive o path in
  on_upper o (vfs_write (upper o) path data).

Definition ov_exists (o : Overlay) (path : str) : bool :=
  let path := normalize path in
  if is_whited_out o path then false
  else vfs_exists (upper o) path || vfs_exists (lower o) path.

Definition ov_list_dir (o : Overlay) (path : str) : result (list str) VfsError :=
  let path := normalize path in
  if is_whited_out o path then Err (NotFound path)
  else
    let upper_exists := vfs_exists (upper o) path in
    let lower_exists := vfs_exists (lower o) path in
    if negb upper_exists && negb lower_exists then Err (NotFound path)
    else
      let prefix := if str_eqb path "/" then lit "/" else path ++ "/" in
      let lower_names :=
        if lower_exists then
          match vfs_list_dir (lower o) path with
          | Ok entries => List.filter (fun e => negb (is_whited_out o (prefix ++ e))) entries
          | Err _ => []
          end
        else [] in
      let upper_names :=
        if upper_exists then
          match vfs_list_dir (upper o) path with
          | Ok entries => entries
          | Err _ => []
          end
        else [] in
      let names : gset str := list_to_set lower_names ∪ list_to_set upper_names in
      Ok (merge_sort str_le (elements names)).

Definition ov_mkdir (o : Overlay) (path : str) : Overlay * result unit VfsError :=
  let path := normalize path in
  let o := clear_whiteouts_recursive o path in
  on_upper o (vfs_mkdir (upper o) path).

Definition ov_remove (o : Overlay) (path : str) : Overlay * result unit VfsError :=
  let path := normalize path in
  if negb (ov_exists o path) then (o, Err (NotFound path))
  else
    let u := fst (vfs_remove (upper o) path) in
    ({| lower := lower o; upper := u; whiteouts := {[ path ]} ∪ whiteouts o |}, Ok tt).

Definition ov_write_if (o : Overlay) (path : str) (data : bytes) (p : Precondition)
    : Overlay * result unit VfsError := (o, Err (Unsupported ("OverlayFs write_if " ++ path))).

Definition ov_rename (o : Overlay) (from to : str) : Overlay * result unit VfsError :=
  (o, Err (Unsupported ("OverlayFs rename " ++ from ++ " -> " ++ to))).

Definition ov_apply_batch (o : Overlay) (ms : list FsMutation) : Overlay * result unit VfsError :=
  (o, Err (Unsupported "OverlayFs apply_batch")).

Definition ov_metadata (o : Overlay) (path : str) : result FsMetadata VfsError :=
  let path := normalize path in
  if is_whited_out o path then Err (NotFound path)
  else
    let? m := match vfs_metadata (upper o) path with
              | Ok m => Ok m
              | Err (NotFound _) => vfs_metadata (lower o) path
              | Err e => Err e
              end in
    Ok {| is_file := is_file m; is_dir := is_dir m; size := size m; revision := None;
          media_type := media_type m |}.

(** [serde_json] on [OverlaySnapshot]: the upper layer's snapshot and the whiteouts. *)
Context (to_vec : bytes * list str -> result bytes str) (from_slice : bytes -> result (bytes * list str) str).

Definition ov_snapshot (o : Overlay) : result bytes VfsError :=
  let? upper_snap := vfs_snapshot (upper o) in
  map_err Io (to_vec (upper_snap, elements (whiteouts o))).

Definition ov_restore (o : Overlay) (data : bytes) : Overlay * result unit VfsError :=
  match map_err Io (from_slice data) with
  | Err e => (o, Err e)
  | Ok (upper_snap, wo) =>
      let '(u, r) := vfs_restore (upper o) upper_snap in
      match r with
      | Err e => (set_upper o u, Err e)
      | Ok _ => ({| lower := lower o; upper := u; whiteouts := list_to_set wo |}, Ok tt)
      end
  end.

Definition overlay_fs : VirtualFs Overlay := {|
  vfs_read := ov_read;
  vfs_write := ov_write;
  vfs_exists := ov_exists;
  vfs_list_dir := ov_list_dir;
  vfs_mkdir := ov_mkdir;
  vfs_remove := ov_remove;
  vfs_metadata := ov_metadata;
  vfs_snapshot := ov_snapshot;
  vfs_restore := ov_restore;
  vfs_write_if := ov_write_if;
  vfs_rename := ov_rename;
  vfs_apply_batch := ov_apply_batch;
  vfs_list_dir_bounded := fun o p => default_list_dir_bounded (ov_list_dir o p);
|}.
End Overlay.

(** ** Whiteouts hide subtrees *)

Lemma rfind_slash_path_str q w :
  Forall plain_segment (q ++ [w]) ->
  rfind_slash (path_str (q ++ [w])) = Some (length (path_of q)).
Proof.
  intros Hp. apply Forall_app in Hp as [_ Hw]. inversion Hw as [|? ? (_ & _ & _ & Hs) _]; subst.
  assert (path_str (q ++ [w]) = path_of q ++ "/"%char :: w) as ->.
  { destruct q as [|x q]; [cbn; by rewrite app_nil_r|].
    change (path_str ((x :: q) ++ [w])) with (path_of ((x :: q) ++ [w])). rewrite path_of_app.
    cbn [path_of flat_map app]. by rewrite app_nil_r. }
  unfold rfind_slash. generalize (path_of q). intros d.
  assert (Hw0 : rposition (Ascii.eqb "/") w = None).
  { destruct (rposition _ w) as [i|] eqn:E; [|done]. apply rposition_Some in E as (a & y & b & -> & _ & Hy & _).
    destruct Hs. apply elem_of_app. right. apply Ascii.eqb_eq in Hy as <-. left. }
  induction d as [|c d IH]; cbn [app rposition length]; [by rewrite Hw0|by rewrite IH].
Qed.

Lemma parent_prefix q w : Forall plain_segment (q ++ [w]) ->
  firstn (length (path_of q)) (path_str (q ++ [w])) = path_of q.
Proof.
  intros _. destruct q as [|x q]; [done|].
  change (path_str ((x :: q) ++ [w])) with (path_of ((x :: q) ++ [w])). rewrite path_of_app.
  apply take_app_length.
Qed.

Lemma length_path_of_snoc q w : (length (path_of q) < length (path_str (q ++ [w])))%nat.
Proof.
  destruct q as [|x q]; [cbn; lia|].
  change (path_str ((x :: q) ++ [w])) with (path_of ((x :: q) ++ [w])). rewrite path_of_app, length_app. cbn. lia.
Qed.

(** The loop finds exactly the whited-out proper ancestors. *)
Lemma ancestor_whited_out_spec wo q fuel :
  Forall plain_segment q -> (length (path_str q) <= fuel)%nat -> q <> [] ->
  ancestor_whited_out fuel wo (path_str q) = true <->
  exists p, p `prefix_of` q /\ p <> q /\ path_str p ∈ wo.
Proof.
  revert fuel; induction q as [|w q IH] using rev_ind; intros fuel Hq Hf Hne; [done|].
  destruct fuel as [|fuel]; [pose proof (length_path_of_snoc q w); lia|]. cbn [ancestor_whited_out].
  rewrite rfind_slash_path_str by done.
  assert (Hup : forall p, p `prefix_of` q ++ [w] /\ p <> q ++ [w] <-> p `prefix_of` q).
  { intros p. split.
    - intros [[k E] Hpne]. destruct k as [|x k] using rev_ind; [by rewrite app_nil_r in E|].
      rewrite app_assoc in E. apply app_inj_tail in E as [-> _]. by eexists.
    - intros [k ->]. rewrite <- app_assoc. split; [by eexists|]. intros E.
      apply (f_equal length) in E. rewrite !length_app in E. cbn in E. lia. }
  assert (Hq' : Forall plain_segment q) by (by apply Forall_app in Hq as [? _]).
  destruct q as [|x q'].
  { cbn [path_of flat_map length Nat.eqb]. rewrite bool_decide_eq_true. split.
    - intros Hin. exists []. split_and!; [apply prefix_nil|done|done].
    - intros (p & Hp & Hpn & Hin). assert (p `prefix_of` []) as Hp0 by (by apply Hup).
      by apply prefix_nil_inv in Hp0 as ->. }
  rewrite parent_prefix by done.
  assert (path_of (x :: q') = path_str (x :: q')) as Epq by done. rewrite Epq.
  destruct (Nat.eqb_spec (length (path_str (x :: q'))) 0) as [E|_]; [done|].
  destruct (bool_decide _) eqn:Eb; bools.
  - split; [|done]. intros _. exists (x :: q').
    split_and!; [by eexists| |done]. intros E. apply (f_equal length) in E. rewrite length_app in E. cbn in E. lia.
  - rewrite IH; [|done| |done].
    + split.
      * intros (p & Hp & Hpne & Hin). exists p. apply Hup in Hp as [? ?]. done.
      * intros (p & Hp & Hpn & Hin). exists p. assert (p `prefix_of` x :: q') as Hp' by (by apply Hup).
        split_and!; [done| |done]. intros ->. done.
    + pose proof (length_path_of_snoc (x :: q') w). rewrite <- Epq. lia.
Qed.

Lemma is_whited_out_spec wo q :
  Forall plain_segment q ->
  is_whited_out_set wo (path_str q) = true <-> exists p, p `prefix_of` q /\ path_str p ∈ wo.
Proof.
  intros Hq. unfold is_whited_out_set. destruct (bool_decide _) eqn:Eb; bools.
  - split; [|done]. intros _. by exists q.
  - destruct (decide (q = [])) as [->|Hne].
    + change (length (path_str [])) with 1%nat. cbn [ancestor_whited_out].
      change (rfind_slash (path_str [])) with (Some 0%nat). cbn [Nat.eqb]. rewrite bool_decide_eq_true.
      split; [done|]. intros (p & Hp%prefix_nil_inv & Hin). by subst.
    + rewrite ancestor_whited_out_spec by done. split.
      * intros (p & ? & _ & ?). by exists p.
      * intros (p & Hp & Hin). exists p. split_and!; [done| |done]. by intros ->.
Qed.

(** A removal through the overlay hides the path and everything below it: whatever the two layers
    answer, every read, metadata, existence and listing query at or below a removed path then
    reports that nothing is there. *)
Theorem overlay_remove_hides_subtree {L U : Type} `{VirtualFs L} `{VirtualFs U}
    (o o' : OverlayFs L U) p path :
  ov_remove o p = (o', Ok tt) -> segs_of p `prefix_of` segs_of path ->
  ov_read o' path = Err (NotFound (normalize path)) /\
  ov_metadata o' path = Err (NotFound (normalize path)) /\
  ov_exists o' path = false /\
  ov_list_dir o' path = Err (NotFound (normalize path)).
Proof.
  unfold ov_remove. cbv zeta. destruct (negb _); [done|]. intros [= <-] Hp.
  assert (Hw : forall wo : gset str, is_whited_out_set ({[normalize p]} ∪ wo) (normalize path) = true).
  { intros wo. rewrite (normalize_str path). apply is_whited_out_spec; [apply segs_of_plain|].
    exists (segs_of p). split; [done|]. rewrite <- normalize_str. set_solver. }
  unfold ov_read, ov_metadata, ov_exists, ov_list_dir, is_whited_out. cbv zeta. cbn [whiteouts].
  by rewrite !Hw.
Qed.

Section Examples.
#[local] Instance ex_memory : VirtualFs State := memory_fs ex_to_vec ex_from_slice.

Definition ex_overlay : OverlayFs State State := overlay_new (fst (write "/d/old" "old" new)) new.

(** That hiding does not last: writing any file below a removed directory clears the whiteout of
    the directory itself, so the lower layer's files in it, which the removal deleted, are visible
    again. *)
Theorem overlay_write_resurrects_removed :
  let o1 := fst (ov_remove ex_overlay "/d") in
  let o2 := fst (ov_write o1 "/d/new" "new") in
  snd (ov_remove ex_overlay "/d") = Ok tt /\
  ov_read o1 "/d/old" = Err (NotFound "/d/old") /\
  snd (ov_write o1 "/d/new" "new") = Ok tt /\
  ov_read o2 "/d/old" = Ok (lit "old").
Proof. vm_compute. split_and!; reflexivity. Qed.

Lemma overlay_remove_hides_subtree_witness :
  exists o', ov_remove ex_overlay "/d" = (o', Ok tt) /\ ov_exists o' "/d/old" = false.
Proof.
  exists (fst (ov_remove ex_overlay "/d")). split; [vm_compute; reflexivity|].
  apply (overlay_remove_hides_subtree ex_overlay (fst (ov_remove ex_overlay "/d")) "/d" "/d/old");
    [vm_compute; reflexivity|exists [lit "old"]; reflexivity].
Defined.
End Examples.
