(* ===== verification/MemoryStoreFs.v ===== *)
(** * Durable memory and its filesystem layer

    Models, of [crates/simulacra-memory/src/], the interface of a store ([store.rs], [error.rs]) and the buffer of
    recent writes ([rrwb.rs], without its search), and [crates/simulacra-vfs/src/memory_store_fs.rs]: the layer
    that routes [/var/memory] and [/mnt] to the store of a tenant, within the memory capability.

    The store is any implementation of [MemoryStore]; the inner filesystem any of [VirtualFs].  Events of the
    store, watchers and the task that forwards them are left out.  Errors of SQLite and of the system, and
    numbers with a fraction, are kept as they print. *)

From S2P Require Import Prelude.
From S2P Require Import Utf8.
From S2P Require Import Segments.
From S2P Require Import MemoryPath.
From S2P Require Import Vfs.
From S2P Require Import MemoryFs.

(** ** The store ([store.rs], [error.rs]) *)

Variant MemoryError :=
| MemoryNotFound (path : str)
| InvalidPath (e : MemoryPathError)
| EmbedderMismatch (stored configured : str) (requires_wipe : bool)
| EmbedderDimensionMismatch (stored configured : N)
| EmbeddingFailed (m : str)
| NotUnitVector (norm : str)
| VectorDimMismatch (expected got : N)
| DedupQuotaExceeded (message : str)
| MemoryIo (e : str)
| Sqlite (e : str)
| MemoryInternal (m : str)
| ShutdownTimeout
| WorkerPanic (tenant : TenantId).
Definition memory_error_to_string (e : MemoryError) : str :=
  match e with
  | MemoryNotFound p => "not found: " ++ p
  | InvalidPath e => "invalid path: " ++ memory_path_error_str e
  | EmbedderMismatch stored configured wipe =>
      "embedder mismatch — stored: " ++ stored ++ ", configured: " ++ configured ++ ", requires_wipe: " ++ (if wipe then "true" else "false")
  | EmbedderDimensionMismatch stored configured =>
      "embedder dimension mismatch — stored: " ++ dec stored ++ ", configured: " ++ dec configured ++ "; only wipe_and_rebuild can change dimension"
  | EmbeddingFailed m => "embedding failed: " ++ m
  | NotUnitVector n => "vector is not unit-normalized: norm = " ++ n
  | VectorDimMismatch expected got => "vector dimension mismatch: expected " ++ dec expected ++ ", got " ++ dec got
  | DedupQuotaExceeded m => "dedup quota exceeded: " ++ m
  | MemoryIo e => "io error: " ++ e
  | Sqlite e => "sqlite error: " ++ e
  | MemoryInternal m => "internal error: " ++ m
  | ShutdownTimeout => "background embedder shutdown timed out waiting for workers to drain"
  | WorkerPanic t => "background embedder worker panicked for tenant: " ++ tenant_str t
  end.

Record MemoryEntry := { entry_path : MemoryPath; entry_size : N; entry_version : N; mtime : N; content_hash : bytes }.

Class MemoryStore (St : Type) := {
  store_put : St -> TenantId -> MemoryPath -> bytes -> St * result N MemoryError;
  store_get : St -> TenantId -> MemoryPath -> result (bytes * N) MemoryError;
  store_exists : St -> TenantId -> MemoryPath -> result bool MemoryError;
  store_list_prefix : St -> TenantId -> MemoryPath -> result (list MemoryEntry) MemoryError;
  store_current_version : St -> TenantId -> MemoryPath -> result (option N) MemoryError;
  store_delete : St -> TenantId -> MemoryPath -> St * result N MemoryError;
  store_delete_prefix : St -> TenantId -> MemoryPath -> St * result N MemoryError;
}.

(** A read after a write returns what was written. *)
Class MemoryStoreLaws (St : Type) `{MemoryStore St} := {
  put_get : forall st t p data st' v, store_put st t p data = (st', Ok v) -> store_get st' t p = Ok (data, v);
}.

(** ** The buffer of recent writes ([rrwb.rs]) *)

Definition RRWB_MAX_ENTRIES : N := 64.
Definition RRWB_MAX_BYTES_PER_ENTRY : N := 64 * 1024.
Definition RRWB_MAX_TOTAL_BYTES : N := 1024 * 1024.

Abbreviation len s := (N.of_nat (length s)).

Record BufferedWrite := { write_path : MemoryPath; write_version : N; write_text : str }.
Record RecentWritesBuffer := { buffered : list BufferedWrite; total_bytes : N }.
Definition buffer_new : RecentWritesBuffer := {| buffered := []; total_bytes := 0 |}.

Definition same_path (p : MemoryPath) (w : BufferedWrite) : bool := str_eqb (mp_str (write_path w)) (mp_str p).
(** Removing the first entry that has the path. *)
Fixpoint drop_first (p : MemoryPath) (entries : list BufferedWrite) : list BufferedWrite * N :=
  match entries with
  | [] => ([], 0%N)
  | w :: entries => if same_path p w then (entries, len (write_text w)) else let '(rest, n) := drop_first p entries in (w :: rest, n)
  end.
(** The loop that evicts from the front. *)
Fixpoint evict (entry_bytes : N) (entries : list BufferedWrite) (total : N) : list BufferedWrite * N :=
  if (RRWB_MAX_ENTRIES <=? len entries)%N || (RRWB_MAX_TOTAL_BYTES <? total + entry_bytes)%N then
    match entries with
    | [] => ([], total)
    | evicted :: entries => evict entry_bytes entries (total - len (write_text evicted))%N
    end
  else (entries, total).

Definition record_write (path : MemoryPath) (version : N) (data : bytes) (b : RecentWritesBuffer) : RecentWritesBuffer :=
  if (RRWB_MAX_BYTES_PER_ENTRY <? len data)%N then b
  else
    match from_utf8 data with
    | Err _ => b
    | Ok text =>
        let entry_bytes := len text in
        if (RRWB_MAX_TOTAL_BYTES <? entry_bytes)%N then b
        else
          let '(entries, freed) := drop_first path (buffered b) in
          let '(entries, total) := evict entry_bytes entries (total_bytes b - freed)%N in
          {| buffered := entries ++ [{| write_path := path; write_version := version; write_text := text |}];
             total_bytes := total + entry_bytes |}
    end.

(** ** The layer ([memory_store_fs.rs]) *)

Section Layer.
Context {V St : Type} `{VirtualFs V} `{MemoryStore St}.

Record MemoryStoreFs := {
  inner : V;
  tenant : TenantId;
  store : St;
  capability : MemoryCapability;
  rrwb : option RecentWritesBuffer;
}.
Definition memory_store_fs_new (v : V) (t : TenantId) (st : St) (c : MemoryCapability) : MemoryStoreFs :=
  {| inner := v; tenant := t; store := st; capability := c; rrwb := None |}.
Definition with_rrwb (b : RecentWritesBuffer) (f : MemoryStoreFs) : MemoryStoreFs :=
  {| inner := inner f; tenant := tenant f; store := store f; capability := capability f; rrwb := Some b |}.
Definition set_inner (v : V) (f : MemoryStoreFs) : MemoryStoreFs :=
  {| inner := v; tenant := tenant f; store := store f; capability := capability f; rrwb := rrwb f |}.
Definition set_store (st : St) (b : option RecentWritesBuffer) (f : MemoryStoreFs) : MemoryStoreFs :=
  {| inner := inner f; tenant := tenant f; store := st; capability := capability f; rrwb := b |}.
(** A call of the inner filesystem. *)
Definition inside (res : V * result unit VfsError) (f : MemoryStoreFs) : MemoryStoreFs * result unit VfsError :=
  (set_inner (fst res) f, snd res).

Definition takes_memory (t : Touch) : bool :=
  takes_subtree t && existsb (fun p => is_ancestor (touch_path t) p) [lit "/var/memory"; lit "/mnt"].
Definition gate (ts : list Touch) : result unit VfsError :=
  match List.find (fun t => is_memory_path_str (touch_path t) || takes_memory t) ts with
  | Some t => Err (Unsupported ("atomic operation on memory path " ++ touch_path t))
  | None => Ok tt
  end.

Definition route (path : str) : str := if is_memory_path_str path then path else normalize path.
Definition parse_memory_path (raw : str) : result MemoryPath VfsError :=
  map_err (fun e => PermissionDenied ("invalid memory path '" ++ raw ++ "': " ++ memory_path_error_str e)) (memory_parse raw).

(** The checks before the store is read, and before it is changed. *)
Definition readable (what : str) (path : str) (f : MemoryStoreFs) : result MemoryPath VfsError :=
  let? q := parse_memory_path path in
  if can_read (capability f) q then Ok q else Err (PermissionDenied (what ++ " outside memory search_scopes: " ++ path)).
Definition writable (what : str) (path : str) (f : MemoryStoreFs) : result MemoryPath VfsError :=
  let? q := parse_memory_path path in
  if is_mnt q then Err (PermissionDenied ("/mnt is admin-ingested only: " ++ path))
  else if can_write (capability f) q then Ok q else Err (PermissionDenied (what ++ " outside memory write_scopes: " ++ path)).
Definition from_store (e : MemoryError) : VfsError :=
  match e with MemoryNotFound p => NotFound p | other => Io (memory_error_to_string other) end.

Definition ms_read (f : MemoryStoreFs) (path : str) : result bytes VfsError :=
  let path := route path in
  if is_memory_path_str path then
    let? q := readable "read" path f in
    let? r := map_err from_store (store_get (store f) (tenant f) q) in
    Ok (fst r)
  else vfs_read (inner f) path.

Definition ms_write (f : MemoryStoreFs) (path : str) (data : bytes) : MemoryStoreFs * result unit VfsError :=
  let path := route path in
  if is_memory_path_str path then
    match writable "write" path f with
    | Err e => (f, Err e)
    | Ok q =>
        let '(st, r) := store_put (store f) (tenant f) q data in
        match r with
        | Ok version => (set_store st (option_map (record_write q version data) (rrwb f)) f, Ok tt)
        | Err e => (set_store st (rrwb f) f, Err (Io (memory_error_to_string e)))
        end
    end
  else inside (vfs_write (inner f) path data) f.

Definition ms_exists (f : MemoryStoreFs) (path : str) : bool :=
  let path := route path in
  if is_memory_path_str path then
    match readable "exists" path f with
    | Ok q => match store_exists (store f) (tenant f) q with Ok b => b | Err _ => false end
    | Err _ => false
    end
  else vfs_exists (inner f) path.

(** The first segments below a prefix, sorted and without duplicates. *)
Definition children_of (prefix : str) (l : list MemoryEntry) : list str :=
  let prefix_with_slash := if ends_with "/" prefix then prefix else prefix ++ "/" in
  merge_sort str_le (elements (list_to_set (C := gset str) (omap (fun e =>
    rest ← strip_prefix prefix_with_slash (mp_str (entry_path e));
    let first := hd [] (split_on "/" rest) in
    if str_eqb first [] then None else Some first) l))).
Definition ms_list_dir (f : MemoryStoreFs) (path : str) : result (list str) VfsError :=
  let path := route path in
  if is_memory_path_str path then
    let? q := readable "list" path f in
    let? l := map_err (fun e => Io (memory_error_to_string e)) (store_list_prefix (store f) (tenant f) q) in
    Ok (children_of (mp_str q) l)
  else vfs_list_dir (inner f) path.

Definition ms_mkdir (f : MemoryStoreFs) (path : str) : MemoryStoreFs * result unit VfsError :=
  let path := route path in
  if is_memory_path_str path then (f, let? _ := writable "mkdir" path f in Ok tt)
  else inside (vfs_mkdir (inner f) path) f.

Definition ms_remove (f : MemoryStoreFs) (path : str) : MemoryStoreFs * result unit VfsError :=
  let path := route path in
  if is_memory_path_str path then
    match writable "remove" path f with
    | Err e => (f, Err e)
    | Ok q =>
        let '(st, r) := store_delete (store f) (tenant f) q in
        (set_store st (rrwb f) f, let? _ := map_err from_store r in Ok tt)
    end
  else inside (vfs_remove (inner f) path) f.

Definition ms_metadata (f : MemoryStoreFs) (path : str) : result FsMetadata VfsError :=
  let path := route path in
  if is_memory_path_str path then
    let? q := readable "metadata" path f in
    match store_get (store f) (tenant f) q with
    | Ok (data, _) => Ok (FsMetadata_file (len data))
    | Err (MemoryNotFound _) =>
        let? l := map_err (fun e => Io (memory_error_to_string e)) (store_list_prefix (store f) (tenant f) q) in
        match l with [] => Err (NotFound path) | _ => Ok FsMetadata_dir end
    | Err e => Err (Io (memory_error_to_string e))
    end
  else vfs_metadata (inner f) path.

Definition gated (ts : list Touch) (f : MemoryStoreFs) (call : V -> V * result unit VfsError) : MemoryStoreFs * result unit VfsError :=
  match gate ts with
  | Err e => (f, Err e)
  | Ok _ => inside (call (inner f)) f
  end.
Definition ms_list_dir_bounded (f : MemoryStoreFs) (path : str) : result DirListing VfsError :=
  let path := route path in
  if is_memory_path_str path then let? names := ms_list_dir f path in Ok (DirListing_complete names)
  else vfs_list_dir_bounded (inner f) path.

#[export] Instance memory_store_fs : VirtualFs MemoryStoreFs := {|
  vfs_read := ms_read;
  vfs_write := ms_write;
  vfs_exists := ms_exists;
  vfs_list_dir := ms_list_dir;
  vfs_mkdir := ms_mkdir;
  vfs_remove := ms_remove;
  vfs_metadata := ms_metadata;
  vfs_snapshot f := vfs_snapshot (inner f);
  vfs_restore f d := inside (vfs_restore (inner f) d) f;
  vfs_write_if f path data p := gated (written path) f (fun v => vfs_write_if v (normalize path) data p);
  vfs_rename f from to := gated (renamed from to) f (fun v => vfs_rename v (normalize from) (normalize to));
  vfs_apply_batch f ms := gated (batched ms) f (fun v => vfs_apply_batch v (normalize_mutations ms));
  vfs_list_dir_bounded := ms_list_dir_bounded;
|}.
End Layer.
Arguments MemoryStoreFs : clear implicits.

(** ** The buffer is bounded and up to date *)

Fixpoint text_bytes (l : list BufferedWrite) : N :=
  match l with [] => 0%N | w :: l => (len (write_text w) + text_bytes l)%N end.
Abbreviation paths_of l := (List.map (fun w => mp_str (write_path w)) l).

Record buffer_ok (b : RecentWritesBuffer) : Prop := {
  ok_total : total_bytes b = text_bytes (buffered b);
  ok_count : (len (buffered b) <= RRWB_MAX_ENTRIES)%N;
  ok_bytes : (total_bytes b <= RRWB_MAX_TOTAL_BYTES)%N;
  ok_texts : Forall (fun w => (len (write_text w) <= RRWB_MAX_BYTES_PER_ENTRY)%N) (buffered b);
  ok_paths : NoDup (paths_of (buffered b));
}.

Lemma paths_sublist l k : sublist l k -> sublist (paths_of l) (paths_of k).
Proof. induction 1; cbn; by constructor. Qed.

Lemma text_bytes_app l k : text_bytes (l ++ k) = (text_bytes l + text_bytes k)%N.
Proof. induction l as [|w l IH]; [done|]. cbn. rewrite IH. lia. Qed.

Lemma drop_first_spec p l :
  sublist (fst (drop_first p l)) l /\ text_bytes l = (text_bytes (fst (drop_first p l)) + snd (drop_first p l))%N /\
  (NoDup (paths_of l) -> mp_str p ∉ paths_of (fst (drop_first p l))).
Proof.
  induction l as [|w l (Hs & Ht & Hp)]; cbn [drop_first]; [split_and!; [done|done|intros _; apply not_elem_of_nil]|].
  unfold same_path. destruct (str_eqb (mp_str (write_path w)) (mp_str p)) eqn:E.
  - apply str_eqb_true in E. cbn. split_and!; [by apply sublist_cons|lia|]. rewrite <- E. by intros [? _]%NoDup_cons.
  - assert (mp_str (write_path w) <> mp_str p) as Hne by (intros E'; rewrite E' in E; by rewrite str_eqb_refl in E).
    destruct (drop_first p l) as [rest n]. cbn in *. split_and!; [by apply sublist_skip|lia|].
    intros [_ Hn]%NoDup_cons. apply not_elem_of_cons. split; [congruence|by apply Hp].
Qed.

Lemma evict_spec n l t : (n <= RRWB_MAX_TOTAL_BYTES)%N -> t = text_bytes l ->
  let '(l', t') := evict n l t in
  l' `suffix_of` l /\ t' = text_bytes l' /\ (len l' < RRWB_MAX_ENTRIES)%N /\ (t' + n <= RRWB_MAX_TOTAL_BYTES)%N.
Proof.
  intros Hn. revert t. induction l as [|w l IH]; intros t ->; cbn [evict].
  - change (text_bytes []) with 0%N. replace (RRWB_MAX_TOTAL_BYTES <? 0 + n)%N with false by (symmetry; apply N.ltb_ge; lia).
    cbn [orb]. change (RRWB_MAX_ENTRIES <=? len [])%N with false. cbv iota. split_and!; [done|done|done|lia].
  - destruct (_ || _) eqn:E.
    + specialize (IH (text_bytes (w :: l) - len (write_text w))%N). cbn [text_bytes] in IH |- *.
      destruct (evict n l _) as [l' t']. destruct IH as (Hs & Ht & H1 & H2); [lia|]. split_and!; [by apply suffix_cons_r|done|done|done].
    + apply orb_false_iff in E as [E1 E2]. apply N.leb_gt in E1. apply N.ltb_ge in E2. split_and!; [done|done|done|done].
Qed.

(** A write that the buffer takes. *)
Definition fits (data : bytes) : bool := (len data <=? RRWB_MAX_BYTES_PER_ENTRY)%N && is_ok (from_utf8 data).

Lemma record_write_spec p v data b : buffer_ok b ->
  if fits data then
    exists l, l `suffix_of` fst (drop_first p (buffered b)) /\ buffer_ok (record_write p v data b) /\
      buffered (record_write p v data b) = l ++ [{| write_path := p; write_version := v; write_text := data |}]
  else record_write p v data b = b.
Proof.
  intros [Ht Hc Hb Hx Hp]. unfold fits, record_write.
  destruct (N.leb_spec (len data) RRWB_MAX_BYTES_PER_ENTRY) as [Hle|Hgt]; cbn [andb].
  2:{ by replace (RRWB_MAX_BYTES_PER_ENTRY <? len data)%N with true by (symmetry; by apply N.ltb_lt). }
  replace (RRWB_MAX_BYTES_PER_ENTRY <? len data)%N with false by (symmetry; by apply N.ltb_ge).
  destruct (from_utf8 data) as [text|] eqn:Eu; cbn [is_ok]; [|done]. apply from_utf8_inv in Eu as [-> _].
  assert (len data <= RRWB_MAX_TOTAL_BYTES)%N as Hfit.
  { etrans; [exact Hle|]. apply N.leb_le. reflexivity. }
  replace (RRWB_MAX_TOTAL_BYTES <? len data)%N with false by (symmetry; by apply N.ltb_ge).
  destruct (drop_first_spec p (buffered b)) as (Hs & Hsum & Hnp). destruct (drop_first p (buffered b)) as [l1 n1]. cbn [fst snd] in *.
  pose proof (evict_spec (len data) l1 (total_bytes b - n1)%N Hfit ltac:(lia)) as He. destruct (evict _ l1 _) as [l2 t2].
  destruct He as (Hsuf & -> & Hlen & Htot). destruct Hsuf as [k ->].
  assert (sublist l2 (k ++ l2)) as Hs2 by (by apply sublist_inserts_l).
  assert (sublist (paths_of l2) (paths_of (buffered b))) as Hpaths.
  { apply paths_sublist. by etrans. }
  assert (mp_str p ∉ paths_of l2) as Hout.
  { intros Hin. apply (Hnp Hp). rewrite List.map_app. apply elem_of_app. by right. }
  exists l2. split_and!; [by exists k| |done]. constructor; cbn.
  - rewrite text_bytes_app. cbn. lia.
  - rewrite length_app. cbn. lia.
  - lia.
  - apply Forall_app. split; [|by repeat constructor]. rewrite !Forall_forall in Hx |- *. intros w Hw. apply Hx. eapply elem_of_sublist; [exact Hw|by etrans].
  - rewrite List.map_app. apply NoDup_app. split_and!; [by eapply sublist_NoDup|intros x Hx' ->%list_elem_of_singleton; done|apply NoDup_singleton].
Qed.

Definition RecordedWrite : Type := MemoryPath * N * bytes.
Definition record_one (b : RecentWritesBuffer) (w : RecordedWrite) : RecentWritesBuffer :=
  let '(p, v, data) := w in record_write p v data b.
(** The buffer of a run after its writes. *)
Definition buffer_after (ws : list RecordedWrite) : RecentWritesBuffer := fold_left record_one ws buffer_new.

(** The last write of each path that the buffer takes, in the order of the writes. *)
Fixpoint latest (ws : list RecordedWrite) : list BufferedWrite :=
  match ws with
  | [] => []
  | (p, v, data) :: ws =>
      if fits data && negb (existsb (same_path p) (latest ws))
      then {| write_path := p; write_version := v; write_text := data |} :: latest ws else latest ws
  end.

Lemma same_path_iff p w : same_path p w = true <-> mp_str (write_path w) = mp_str p.
Proof. unfold same_path. apply str_eqb_true. Qed.

Lemma taken_path p l : existsb (same_path p) l = true <-> mp_str p ∈ paths_of l.
Proof.
  rewrite existsb_exists, list_elem_of_In, in_map_iff. setoid_rewrite same_path_iff. naive_solver.
Qed.

Lemma latest_nodup ws : NoDup (paths_of (latest ws)).
Proof.
  induction ws as [|[[p v] data] ws IH]; cbn [latest]; [constructor|]. destruct (_ && _) eqn:E; [|done].
  apply andb_true_iff in E as [_ E%negb_true_iff]. cbn. constructor; [|done].
  intros Hin%taken_path. congruence.
Qed.

Lemma drop_absent p l : mp_str p ∉ paths_of l -> fst (drop_first p l) = l.
Proof.
  induction l as [|w l IH]; [done|]. cbn. intros [Hne Hn]%not_elem_of_cons.
  destruct (same_path p w) eqn:E; [by apply same_path_iff in E; congruence|].
  specialize (IH Hn). destruct (drop_first p l). cbn in *. by subst.
Qed.

Lemma drop_suffix p l k : NoDup (paths_of k) -> l `suffix_of` k -> fst (drop_first p l) `suffix_of` fst (drop_first p k).
Proof.
  intros Hk [h ->]. induction h as [|w h IH]; [done|]. cbn in *. apply NoDup_cons in Hk as [Hw Hk].
  destruct (same_path p w) eqn:E; cbn.
  - apply same_path_iff in E. rewrite E in Hw. rewrite List.map_app, elem_of_app in Hw.
    rewrite drop_absent by tauto. by exists h.
  - specialize (IH Hk). destruct (drop_first p (h ++ l)). cbn in *. by apply suffix_cons_r.
Qed.

Lemma latest_snoc ws p v data :
  latest (ws ++ [(p, v, data)]) =
  if fits data then fst (drop_first p (latest ws)) ++ [{| write_path := p; write_version := v; write_text := data |}] else latest ws.
Proof.
  pose proof (latest_nodup ws) as Hn. induction ws as [|[[q u] d] ws IH]; cbn [latest app].
  - cbn. by destruct (fits data).
  - cbn [latest] in Hn. pose proof (latest_nodup ws) as Hw. rewrite (IH Hw). clear IH.
    destruct (fits data) eqn:Ef; [|done]. destruct (fits d) eqn:Ed; cbn [andb]; [|done].
    rewrite existsb_app. cbn [existsb]. unfold same_path at 2. cbn [write_path]. rewrite orb_false_r.
    destruct (str_eqb (mp_str p) (mp_str q)) eqn:E.
    + rewrite orb_true_r. cbn [negb]. apply str_eqb_true in E.
      destruct (existsb (same_path q) (latest ws)) eqn:Ex; cbn [negb]; [done|].
      cbn [drop_first]. replace (same_path p _) with true by (symmetry; by apply same_path_iff). cbn.
      rewrite drop_absent; [done|]. rewrite E. intros Hin%taken_path. congruence.
    + rewrite orb_false_r. assert (mp_str q <> mp_str p) as Hne by (intros E'; rewrite E', str_eqb_refl in E; done).
      assert (existsb (same_path q) (fst (drop_first p (latest ws))) = existsb (same_path q) (latest ws)) as ->.
      { clear -Hne. induction (latest ws) as [|w l IH]; [done|]. cbn. destruct (same_path p w) eqn:Ew; cbn.
        - replace (same_path q w) with false; [done|]. symmetry. apply not_true_is_false. rewrite same_path_iff.
          apply same_path_iff in Ew. congruence.
        - destruct (drop_first p l). cbn in *. by rewrite IH. }
      destruct (existsb (same_path q) (latest ws)) eqn:Ex; cbn [negb]; [done|].
      cbn [drop_first]. replace (same_path p _) with false; [by destruct (drop_first p _)|].
      symmetry. apply not_true_is_false. by rewrite same_path_iff.
Qed.

Lemma buffer_after_spec ws : buffer_ok (buffer_after ws) /\ buffered (buffer_after ws) `suffix_of` latest ws.
Proof.
  induction ws as [|[[p v] data] ws [Hok Hs]] using rev_ind.
  - split; [|done]. constructor; cbn; try done. constructor.
  - unfold buffer_after in *. rewrite fold_left_app, latest_snoc. cbn [fold_left record_one].
    pose proof (record_write_spec p v data _ Hok) as Hr. destruct (fits data); [|by rewrite Hr].
    destruct Hr as (l & Hl & Hok' & ->). split; [done|]. destruct Hl as [k El].
    destruct (drop_suffix p _ _ (latest_nodup ws) Hs) as [h ->]. rewrite El. exists (h ++ k). by rewrite !app_assoc.
Qed.

(** The buffer of recent writes of a run keeps within its limits and holds what was written last.
    After any sequence of writes it has at most 64 entries, each of at most 64 KiB, its count of bytes is the
    size of its entries and at most 1 MiB, and no path is there twice; its entries are the newest of the last
    writes of the paths, in the order they were written (only the oldest are given up, and only writes that are
    too large or not text are passed over); and a write that is neither is always there, as the last entry. *)
Theorem recent_writes_are_kept (ws : list RecordedWrite) :
  let b := buffer_after ws in
  (len (buffered b) <= RRWB_MAX_ENTRIES)%N /\ (total_bytes b <= RRWB_MAX_TOTAL_BYTES)%N /\
  total_bytes b = text_bytes (buffered b) /\
  Forall (fun w => (len (write_text w) <= RRWB_MAX_BYTES_PER_ENTRY)%N) (buffered b) /\
  NoDup (paths_of (buffered b)) /\ buffered b `suffix_of` latest ws /\
  forall p v data, fits data = true ->
    last (buffered (buffer_after (ws ++ [(p, v, data)]))) = Some {| write_path := p; write_version := v; write_text := data |}.
Proof.
  destruct (buffer_after_spec ws) as [Hok Hs]. cbv zeta. split_and!; try apply Hok; [done|].
  intros p v data Hf. unfold buffer_after. rewrite fold_left_app. cbn [fold_left record_one].
  pose proof (record_write_spec p v data _ Hok) as Hr. rewrite Hf in Hr. destruct Hr as (l & _ & _ & Hr).
  unfold buffer_after in Hr. rewrite Hr. apply last_snoc.
Qed.

(** ** The layer keeps to its scopes *)

Section Scope.
Context {V St : Type} `{VirtualFs V} `{MemoryStore St}.
#[local] Abbreviation Layered := (MemoryStoreFs V St).

(** Two stores that agree on what a layer may read. *)
Record alike (c : MemoryCapability) (t : TenantId) (s s' : St) : Prop := {
  alike_get : forall q, can_read c q = true -> store_get s t q = store_get s' t q;
  alike_exists : forall q, can_read c q = true -> store_exists s t q = store_exists s' t q;
  alike_version : forall q, can_read c q = true -> store_current_version s t q = store_current_version s' t q;
  alike_list : forall q, can_read c q = true -> store_list_prefix s t q = store_list_prefix s' t q;
}.

(** What a call may do to the memory, and to the filesystem below. *)
Variant allowed (f f' : Layered) : call -> Prop :=
| NothingDone c : f' = f -> allowed f f' c
| DonePut path data q : parse_memory_path (route path) = Ok q -> can_write (capability f) q = true -> is_mnt q = false ->
    store f' = fst (store_put (store f) (tenant f) q data) -> inner f' = inner f -> allowed f f' (CWrite path data)
| DoneDelete path q : parse_memory_path (route path) = Ok q -> can_write (capability f) q = true -> is_mnt q = false ->
    store f' = fst (store_delete (store f) (tenant f) q) -> inner f' = inner f -> allowed f f' (CRemove path)
| DoneBelow c : (forall t, t ∈ touches c -> is_memory_path_str (touch_path t) = false) ->
    store f' = store f -> rrwb f' = rrwb f -> inner f' = fst (run (inner f) (normalized c)) -> allowed f f' c.

Lemma readable_ok w path (f : Layered) q : readable w path f = Ok q -> can_read (capability f) q = true.
Proof. unfold readable. destruct (parse_memory_path path) as [p|]; cbn; [|done]. destruct (can_read _ p) eqn:E; by intros [= <-]. Qed.

Lemma writable_ok w path (f : Layered) q : writable w path f = Ok q ->
  parse_memory_path path = Ok q /\ can_write (capability f) q = true /\ is_mnt q = false.
Proof.
  unfold writable. destruct (parse_memory_path path) as [p|]; cbn; [|done].
  destruct (is_mnt p) eqn:Em; [done|]. destruct (can_write _ p) eqn:E; by intros [= <-].
Qed.

(** A path that is not routed to the store is passed on normalised. *)
Lemma routed_below path : is_memory_path_str (route path) = false ->
  route path = normalize path /\ forall b, touch (route path) b = touch path b /\ is_memory_path_str (touch_path (touch path b)) = false.
Proof.
  unfold route. destruct (is_memory_path_str path) eqn:E; [congruence|]. intros Hn. split; [done|].
  intros b. split; [apply touch_normalize|done].
Qed.

Lemma memory_gate_spec ts : gate ts = Ok tt -> forall t, t ∈ ts -> is_memory_path_str (touch_path t) = false.
Proof.
  unfold gate. destruct (List.find _ ts) eqn:E; [done|]. intros _ t Ht%list_elem_of_In.
  by apply (List.find_none _ _ E), orb_false_iff in Ht as [? _].
Qed.

Lemma gated_allowed (f : Layered) c call' : (forall v, call' v = run v (normalized c)) ->
  allowed f (fst (gated (touches c) f call')) c.
Proof.
  intros Hc. unfold gated. destruct (gate (touches c)) as [[]|] eqn:E; [|by constructor].
  apply DoneBelow; [by apply memory_gate_spec|done|done|cbn; by rewrite Hc].
Qed.

Lemma below_allowed (f : Layered) c path b : is_memory_path_str (route path) = false ->
  touches c = [touch path b] -> allowed f (fst (inside (run (inner f) (normalized c)) f)) c.
Proof.
  intros E Hc. destruct (proj2 (routed_below path E) b) as [_ Hm].
  apply DoneBelow; [|done..]. rewrite Hc. by intros t ->%list_elem_of_singleton.
Qed.

Lemma run_allowed (f : Layered) c : allowed f (fst (run f c)) c.
Proof.
  destruct c as [path data|path|path|path data p|from to|ms]; cbn [run memory_store_fs vfs_write vfs_mkdir vfs_remove vfs_write_if vfs_rename vfs_apply_batch].
  - unfold ms_write. destruct (is_memory_path_str (route path)) eqn:E.
    + destruct (writable _ _ f) as [q|] eqn:Ew; [|by constructor]. apply writable_ok in Ew as (Hp & Hw & Hm).
      destruct (store_put _ _ q data) as [st []] eqn:Es; eapply DonePut; eauto; by rewrite Es.
    + rewrite (proj1 (routed_below path E)). by eapply (below_allowed f (CWrite path data)).
  - unfold ms_mkdir. destruct (is_memory_path_str (route path)) eqn:E; [by constructor|].
    rewrite (proj1 (routed_below path E)). by eapply (below_allowed f (CMkdir path)).
  - unfold ms_remove. destruct (is_memory_path_str (route path)) eqn:E.
    + destruct (writable _ _ f) as [q|] eqn:Ew; [|by constructor]. apply writable_ok in Ew as (Hp & Hw & Hm).
      destruct (store_delete _ _ q) as [st r] eqn:Es. eapply DoneDelete; eauto; by rewrite Es.
    + rewrite (proj1 (routed_below path E)). by eapply (below_allowed f (CRemove path)).
  - by apply (gated_allowed f (CWriteIf path data p)).
  - by apply (gated_allowed f (CRename from to)).
  - by apply (gated_allowed f (CBatch ms)).
Qed.

Lemma run_settings (f : Layered) c : tenant (fst (run f c)) = tenant f /\ capability (fst (run f c)) = capability f.
Proof.
  destruct c as [path data|path|path|path data p|from to|ms]; cbn [run memory_store_fs vfs_write vfs_mkdir vfs_remove vfs_write_if vfs_rename vfs_apply_batch];
    unfold ms_write, ms_mkdir, ms_remove, gated; repeat case_match; done.
Qed.

Lemma readable_alike w path (f g : Layered) : capability g = capability f -> readable w path g = readable w path f.
Proof. unfold readable. by intros ->. Qed.

Lemma reads_alike (f g : Layered) :
  reads_same (inner g) (inner f) -> tenant g = tenant f -> capability g = capability f -> alike (capability f) (tenant f) (store f) (store g) ->
  reads_same g f.
Proof.
  intros Hi Ht Hc [Hg He _ Hl] path. cbn [vfs_read vfs_exists vfs_list_dir vfs_metadata memory_store_fs].
  unfold ms_read, ms_exists, ms_list_dir, ms_metadata. rewrite Ht.
  destruct (is_memory_path_str (route path)); [|apply Hi]. rewrite !(readable_alike _ _ f g) by done.
  split_and!; destruct (readable _ _ f) as [q|] eqn:Er; try done; apply readable_ok in Er; cbn.
  - by rewrite Hg.
  - by rewrite He.
  - by rewrite Hl.
  - by rewrite Hg, Hl.
Qed.

(** Durable memory is reached only within the scopes of the memory capability.  What an agent reads through
    the layer (contents, existence, listings, metadata) is the same for any two stores that agree on the paths its
    search scopes cover, for the tenant of the layer.  A call that changes something leaves the tenant and the
    capability as they are and either does nothing, or is a plain write or remove that puts or deletes, in the
    store and for the layer's tenant, one path that its write scopes cover and that is not under [/mnt], leaving
    the filesystem below alone; or it is made on the filesystem below, with its paths normalised, none of
    which is a memory path, and leaves the store and the buffer alone. *)
Theorem memory_stays_in_scope (f g : Layered) :
  (reads_same (inner g) (inner f) -> tenant g = tenant f -> capability g = capability f ->
   alike (capability f) (tenant f) (store f) (store g) -> reads_same g f) /\
  forall c, tenant (fst (run f c)) = tenant f /\ capability (fst (run f c)) = capability f /\ allowed f (fst (run f c)) c.
Proof.
  split; [intros; by apply reads_alike|]. intros c. destruct (run_settings f c). split_and!; [done|done|apply run_allowed].
Qed.

(** What was written is read back. *)
Lemma written_is_read_back `{!MemoryStoreLaws St} (f f' : Layered) path data q :
  is_memory_path_str (route path) = true -> parse_memory_path (route path) = Ok q -> can_read (capability f) q = true ->
  ms_write f path data = (f', Ok tt) -> ms_read f' path = Ok data.
Proof.
  unfold ms_write, ms_read, readable, writable. intros -> -> Hr. cbn. destruct (is_mnt q); [done|]. destruct (can_write _ q); [|done].
  destruct (store_put _ _ q data) as [st []] eqn:Es; [|done]. intros [= <-]. cbn. rewrite Hr. cbn. by erewrite put_get.
Qed.
End Scope.

(** ** A store in memory *)

Record ExStore := { cells : gmap (str * str) (bytes * N); clock : N }.
Definition ex_entries (s : ExStore) (t : TenantId) (q : MemoryPath) : list MemoryEntry :=
  omap (fun '((u, p), (data, v)) =>
    if str_eqb u (tenant_str t) && starts_with_prefix (MkMemoryPath p) q
    then Some {| entry_path := MkMemoryPath p; entry_size := len data; entry_version := v; mtime := 0; content_hash := [] |} else None)
    (map_to_list (cells s)).

#[export] Instance ex_store : MemoryStore ExStore := {|
  store_put s t q data :=
    ({| cells := <[(tenant_str t, mp_str q) := (data, clock s)]> (cells s); clock := clock s + 1 |}, Ok (clock s));
  store_get s t q := ok_or (cells s !! (tenant_str t, mp_str q)) (MemoryNotFound (mp_str q));
  store_exists s t q := Ok (bool_decide (is_Some (cells s !! (tenant_str t, mp_str q))));
  store_list_prefix s t q := Ok (ex_entries s t q);
  store_current_version s t q := Ok (snd <$> cells s !! (tenant_str t, mp_str q));
  store_delete_prefix s t q :=
    let gone := filter (fun kv => str_eqb (fst (fst kv)) (tenant_str t) && starts_with_prefix (MkMemoryPath (snd (fst kv))) q) (cells s) in
    ({| cells := cells s ∖ gone; clock := clock s + 1 |}, Ok (N.of_nat (base.size gone)));
  store_delete s t q :=
    match cells s !! (tenant_str t, mp_str q) with
    | Some _ => ({| cells := delete (tenant_str t, mp_str q) (cells s); clock := clock s + 1 |}, Ok (clock s))
    | None => (s, Err (MemoryNotFound (mp_str q)))
    end;
|}.
#[export] Instance ex_store_laws : MemoryStoreLaws ExStore.
Proof. constructor. intros st t p data st' v [= <- <-]. cbn. by rewrite lookup_insert_eq. Qed.

#[local] Instance ex_below : VirtualFs State := memory_fs ex_to_vec ex_from_slice.
Definition ex_tenant : TenantId := MkTenantId "acme".
Definition ex_self : MemoryPath := MkMemoryPath "/var/memory/self".
Definition ex_secret : MemoryPath := MkMemoryPath "/var/memory/secret".
Definition ex_scope : MemoryCapability := {| enabled := true; search_scopes := [ex_self]; write_scopes := [ex_self] |}.
Definition ex_layer (s : ExStore) : MemoryStoreFs State ExStore :=
  with_rrwb buffer_new (memory_store_fs_new MemoryFs.new ex_tenant s ex_scope).
Definition ex_empty : ExStore := {| cells := ∅; clock := 0 |}.
Definition ex_with_secret : ExStore := fst (store_put ex_empty ex_tenant ex_secret "s").

Lemma starts_with_prefix_text p q : starts_with_prefix p q = true -> exists r, mp_str p = mp_str q ++ r.
Proof.
  unfold starts_with_prefix. destruct (str_eqb _ _) eqn:E; [apply str_eqb_true in E; exists []; by rewrite app_nil_r|].
  intros [r Hr]%starts_with_true. destruct (ends_with "/" (mp_str q)); [by exists r|]. rewrite <- app_assoc in Hr. by eexists.
Qed.

Lemma ex_alike : alike ex_scope ex_tenant ex_empty ex_with_secret.
Proof.
  assert (forall q, can_read ex_scope q = true -> starts_with_prefix ex_secret q = false) as Hne.
  { intros q Hq. apply not_true_is_false. intros [r Hr]%starts_with_prefix_text. cbn in Hq. rewrite orb_false_r in Hq.
    apply starts_with_prefix_text in Hq as [r' Hq]. rewrite Hq in Hr. cbn in Hr. discriminate Hr. }
  assert (forall q, can_read ex_scope q = true -> cells ex_with_secret !! (tenant_str ex_tenant, mp_str q) = None) as Hnone.
  { intros q Hq. cbn. rewrite lookup_insert_ne; [done|]. intros [= E]. specialize (Hne q Hq).
    unfold starts_with_prefix in Hne. cbn in Hne. by rewrite E, str_eqb_refl in Hne. }
  constructor; intros q Hq; cbv beta iota delta [store_get store_exists store_current_version store_list_prefix ex_store].
  - by rewrite (Hnone q Hq).
  - by rewrite (Hnone q Hq).
  - by rewrite (Hnone q Hq).
  - unfold ex_entries. change (cells ex_with_secret) with (<[(tenant_str ex_tenant, mp_str ex_secret) := (lit "s", 0%N)]> (∅ : gmap (str * str) (bytes * N))).
    change (cells ex_empty) with (∅ : gmap (str * str) (bytes * N)). rewrite insert_empty, map_to_list_empty, map_to_list_singleton.
    cbn [omap list_omap]. change (MkMemoryPath (mp_str ex_secret)) with ex_secret. rewrite (Hne q Hq), andb_false_r. done.
Qed.

(** A layer over a store with a file outside its scopes reads as if it were not there. *)
Lemma memory_stays_in_scope_witness :
  vfs_exists (ex_layer ex_with_secret) "/x/../var/memory/secret" = false /\
  vfs_list_dir (ex_layer ex_with_secret) "/var/memory/self" = vfs_list_dir (ex_layer ex_empty) "/var/memory/self".
Proof.
  split; [reflexivity|].
  apply (proj1 (memory_stays_in_scope (ex_layer ex_empty) (ex_layer ex_with_secret)) (reflexivity _) eq_refl eq_refl ex_alike "/var/memory/self").
Defined.

Definition ex_note : str := "/var/memory/self/note.md".
Definition ex_written : MemoryStoreFs State ExStore := fst (vfs_write (ex_layer ex_empty) ex_note "old").
Definition buffered_texts (f : MemoryStoreFs State ExStore) : option (list str) :=
  (fun b => write_text <$> buffered b) <$> rrwb f.

Example write_is_stored_and_buffered :
  vfs_read ex_written ex_note = Ok (lit "old") /\ buffered_texts ex_written = Some [lit "old"] /\
  snd (vfs_write ex_written "/var/memory/secret" "x") = Err (PermissionDenied "write outside memory write_scopes: /var/memory/secret") /\
  snd (vfs_write ex_written "/mnt/a" "x") = Err (PermissionDenied "/mnt is admin-ingested only: /mnt/a") /\
  snd (vfs_rename ex_written "/var" "/tmp") = Err (Unsupported "atomic operation on memory path /var").
Proof. repeat split; reflexivity. Qed.

(** What a remove deletes stays in the buffer, and so does what a write that the buffer refuses replaces. *)
Definition ex_removed : MemoryStoreFs State ExStore := fst (vfs_remove ex_written ex_note).
Example removed_stays_buffered : vfs_exists ex_removed ex_note = false /\ buffered_texts ex_removed = Some [lit "old"].
Proof. split; reflexivity. Qed.

Example refused_write_leaves_stale_text :
  let f := fst (vfs_write ex_written ex_note [ascii_of_N 255]) in
  vfs_read f ex_note = Ok [ascii_of_N 255] /\ buffered_texts f = Some [lit "old"].
Proof. split; reflexivity. Qed.
