(* ===== verification/NotifyingFs.v ===== *)
(** * Events of a filesystem

    Models [crates/simulacra-vfs/src/notifying.rs] and, of [crates/simulacra-types/src/vfs.rs], the events and what a watcher
    takes from a channel: the layer that tells what was written and removed.

    The channel is the list of what was sent; what a receiver gets of it is an argument, since dropping the oldest events
    belongs to the channel's package.  Counters are left out. *)

From S2P Require Import Prelude.
From S2P Require Import Segments.
From S2P Require Import MemoryPath.
From S2P Require Import Vfs.
From S2P Require Import MemoryFs.

Variant VfsEvent :=
| Written (t : TenantId) (path : str) (size : N)
| Removed (t : TenantId) (path : str)
| Skipped (count : N).

(** ** Watchers ([vfs.rs]) *)

(** What the channel gives a receiver: an event, or the number of those it missed. *)
Variant Delivery := Received (e : VfsEvent) | Lagged (n : N).

(** [recv]; [None] once the channel is closed, which is the end of the list. *)
Fixpoint watcher_recv (prefix : str) (ds : list Delivery) : option VfsEvent * list Delivery :=
  match ds with
  | [] => (None, [])
  | Lagged n :: ds => (Some (Skipped n), ds)
  | Received e :: ds =>
      match e with
      | Skipped _ => (Some e, ds)
      | Written _ path _ | Removed _ path => if path_matches_prefix path prefix then (Some e, ds) else watcher_recv prefix ds
      end
  end.

(** ** The layer ([notifying.rs]) *)

Section Notifying.
Context {V : Type} `{VirtualFs V}.

Record NotifyingFsLayer := { notified_inner : V; notified_tenant : TenantId; sent : list VfsEvent }.
Definition for_tenant (t : TenantId) (v : V) : NotifyingFsLayer := {| notified_inner := v; notified_tenant := t; sent := [] |}.
Definition set_notified (v : V) (f : NotifyingFsLayer) : NotifyingFsLayer :=
  {| notified_inner := v; notified_tenant := notified_tenant f; sent := sent f |}.
Definition publish (e : VfsEvent) (f : NotifyingFsLayer) : NotifyingFsLayer :=
  {| notified_inner := notified_inner f; notified_tenant := notified_tenant f; sent := sent f ++ [e] |}.

Definition publish_written (path : str) (n : N) (f : NotifyingFsLayer) : NotifyingFsLayer :=
  publish (Written (notified_tenant f) (normalize path) n) f.
Definition publish_removed (path : str) (f : NotifyingFsLayer) : NotifyingFsLayer :=
  publish (Removed (notified_tenant f) (normalize path)) f.
Definition publish_renamed (from to : str) (f : NotifyingFsLayer) : NotifyingFsLayer :=
  let f := publish_removed from f in
  let n := match vfs_metadata (notified_inner f) (normalize to) with Ok m => size m | Err _ => 0%N end in
  publish_written to n f.
Definition publish_mutation (f : NotifyingFsLayer) (m : FsMutation) : NotifyingFsLayer :=
  match m with
  | Write path data _ => publish_written path (N.of_nat (length data)) f
  | Remove path _ => publish_removed path f
  | Rename from to _ => publish_renamed from to f
  | Mkdir _ => f
  end.

(** A call, and what is told when it succeeds. *)
Definition then_tell (f : NotifyingFsLayer) (r : V * result unit VfsError) (tell : NotifyingFsLayer -> NotifyingFsLayer)
    : NotifyingFsLayer * result unit VfsError :=
  let f := set_notified (fst r) f in
  match snd r with Ok _ => (tell f, Ok tt) | Err e => (f, Err e) end.

#[export] Instance notifying_fs : VirtualFs NotifyingFsLayer := {|
  vfs_read f := vfs_read (notified_inner f);
  vfs_write f path data := then_tell f (vfs_write (notified_inner f) path data) (publish_written path (N.of_nat (length data)));
  vfs_exists f := vfs_exists (notified_inner f);
  vfs_list_dir f := vfs_list_dir (notified_inner f);
  vfs_mkdir f path := then_tell f (vfs_mkdir (notified_inner f) path) id;
  vfs_remove f path := then_tell f (vfs_remove (notified_inner f) path) (publish_removed path);
  vfs_metadata f := vfs_metadata (notified_inner f);
  vfs_snapshot f := vfs_snapshot (notified_inner f);
  vfs_restore f d := then_tell f (vfs_restore (notified_inner f) d) id;
  vfs_write_if f path data p :=
    let path := normalize path in
    then_tell f (vfs_write_if (notified_inner f) path data p) (publish_written path (N.of_nat (length data)));
  vfs_rename f from to :=
    let from := normalize from in let to := normalize to in
    then_tell f (vfs_rename (notified_inner f) from to) (publish_renamed from to);
  vfs_apply_batch f ms :=
    let ms := normalize_mutations ms in
    then_tell f (vfs_apply_batch (notified_inner f) ms) (fun f => fold_left publish_mutation ms f);
  vfs_list_dir_bounded f := vfs_list_dir_bounded (notified_inner f);
|}.
End Notifying.
Arguments NotifyingFsLayer : clear implicits.

(** ** What is told *)

(** What is to be told of a mutation, or a call, that succeeds, in order: the size told of a file written is the
    size of the data; of a rename's target it is read back afterwards.  Directories are made without a word. *)
Variant note := NoteWritten (path : str) (len : option N) | NoteRemoved (path : str).

Definition mutation_notes (m : FsMutation) : list note :=
  match m with
  | Write q d _ => [NoteWritten (normalize q) (Some (N.of_nat (length d)))]
  | Remove q _ => [NoteRemoved (normalize q)]
  | Rename a b _ => [NoteRemoved (normalize a); NoteWritten (normalize b) None]
  | Mkdir _ => []
  end.
Definition call_notes (c : call) : list note :=
  match c with
  | CWrite q d | CWriteIf q d _ => [NoteWritten (normalize q) (Some (N.of_nat (length d)))]
  | CRemove q => [NoteRemoved (normalize q)]
  | CRename a b => [NoteRemoved (normalize a); NoteWritten (normalize b) None]
  | CMkdir _ => []
  | CBatch ms => flat_map mutation_notes ms
  end.

(** An event tells of a note, to the watchers of a tenant. *)
Definition announces (t : TenantId) (n : note) (e : VfsEvent) : Prop :=
  match n, e with
  | NoteWritten p len, Written t' p' k => t' = t /\ p' = p /\ (forall l, len = Some l -> k = l)
  | NoteRemoved p, Removed t' p' => t' = t /\ p' = p
  | _, _ => False
  end.
Definition note_path (n : note) : str := match n with NoteWritten p _ | NoteRemoved p => p end.

(** A note is true of a tree: something is at a path written, nothing at a path removed. *)
Definition holds_of (at_ : list str -> option node) (n : note) : Prop :=
  match n with
  | NoteWritten p _ => at_ (segs_of p) <> None
  | NoteRemoved p => at_ (segs_of p) = None
  end.

(** The directories a call makes. *)
Definition makes (c : call) (p : str) : Prop :=
  match c with
  | CMkdir q => p = normalize q
  | CBatch ms => exists q, Mkdir q ∈ ms /\ p = normalize q
  | _ => False
  end.

Definition noted (ns : list note) (p : str) : Prop := exists n, n ∈ ns /\ note_path n = p.

Lemma mutation_touched m t : t ∈ mutation_touches m -> noted (mutation_notes m) (touch_path t) \/ exists q, m = Mkdir q /\ touch_path t = normalize q.
Proof.
  rewrite mutation_touches_eq. unfold noted. destruct m as [p d pre|p|p pre|a b pre]; cbn; rewrite !elem_of_cons, ?elem_of_nil;
    intros Ht; destruct_or?; subst; first [right; by eexists | left].
  - exists (NoteWritten (normalize p) (Some (N.of_nat (length d)))). by split; [left|].
  - exists (NoteRemoved (normalize p)). by split; [left|].
  - exists (NoteRemoved (normalize a)). by split; [left|].
  - exists (NoteWritten (normalize b) None). by split; [right; left|].
Qed.

Lemma touched_is_noted c t : t ∈ touches c -> noted (call_notes c) (touch_path t) \/ makes c (touch_path t).
Proof.
  assert (Hone : forall m, t ∈ mutation_touches m -> (forall q, m <> Mkdir q) -> noted (mutation_notes m) (touch_path t)).
  { intros m [?|(q & -> & _)]%mutation_touched Hm; [done|]. by destruct (Hm q). }
  destruct c as [p d|p|p|p d pre|a b|ms]; cbn [touches makes].
  - left. by apply (Hone (Write p d Unconditional)).
  - right. by apply list_elem_of_singleton in H as ->.
  - left. by apply (Hone (Remove p Unconditional)).
  - left. by apply (Hone (Write p d pre)).
  - left. by apply (Hone (Rename a b Unconditional)).
  - unfold batched. intros (m & Hm & Ht)%list_elem_of_In%in_flat_map. apply list_elem_of_In in Hm, Ht.
    destruct (mutation_touched m t Ht) as [(n & Hn & Hp)|(q & -> & ?)]; [left|right; by exists q].
    exists n. split; [|done]. apply list_elem_of_In, in_flat_map. exists m. by rewrite <- !list_elem_of_In.
Qed.

(** What a call that took effect made of the tree bears out what is told of it. *)
Lemma made_holds c at_ at_' : (forall ms, c = CBatch ms -> exists m, ms = [m]) ->
  made c at_ at_' -> Forall (holds_of at_') (call_notes c).
Proof.
  intros Hc. assert (Hre : forall a b, made (CRename a b) at_ at_' -> holds_of at_' (NoteRemoved (normalize a)) /\ holds_of at_' (NoteWritten (normalize b) None)).
  { intros a b (Ha & _ & Hq). cbn. rewrite !segs_of_normalize. destruct (Hq []) as [E1 E2]; [constructor|].
    rewrite app_nil_r in E1, E2. split; [done|]. rewrite app_nil_r in E1. congruence. }
  assert (Hrm : forall p, made (CRemove p) at_ at_' -> holds_of at_' (NoteRemoved (normalize p))).
  { intros p Hq. cbn. rewrite segs_of_normalize. rewrite <- (app_nil_r (segs_of p)). apply Hq. constructor. }
  destruct c as [p d|p|p|p d pre|a b|ms]; [| | | | |destruct (Hc ms eq_refl) as [[p d pre|p|p pre|a b pre] ->]];
    cbn [made call_notes flat_map mutation_notes app]; intros Hm; try destruct (Hre _ _ Hm); repeat constructor; try done;
    try (by apply Hrm); cbn [holds_of]; rewrite segs_of_normalize; destruct_and?; congruence.
Qed.

(** Two paths on one line: one is at or below the other. *)
Definition related (p q : list str) : Prop := p `prefix_of` q \/ q `prefix_of` p.

#[export] Instance related_dec p q : Decision (related p q).
Proof. unfold related. apply _. Defined.

Lemma disturbs_related at_ t q : disturbs at_ t q -> related (segs_of (touch_path t)) q.
Proof. intros [->|[[? _]|[? _]]]; [by left|by left|by right]. Qed.

Lemma mutation_notes_normalized m : mutation_notes (normalize_mutation m) = mutation_notes m.
Proof. destruct m; cbn; by rewrite ?normalize_idem. Qed.

Section Told.
Context {V : Type} `{VirtualFs V}.
Implicit Types f : NotifyingFsLayer V.

(** Publishing only adds events, those that announce the notes. *)
Definition told f f' (ns : list note) : Prop :=
  notified_inner f' = notified_inner f /\ notified_tenant f' = notified_tenant f /\
  exists es, sent f' = sent f ++ es /\ Forall2 (announces (notified_tenant f)) ns es.

Lemma told_trans f1 f2 f3 ns ns' : told f1 f2 ns -> told f2 f3 ns' -> told f1 f3 (ns ++ ns').
Proof.
  intros (Hi & Ht & es & Es & Hs) (Hi' & Ht' & es' & Es' & Hs'). split_and!; [congruence..|]. exists (es ++ es').
  split; [by rewrite Es', Es, app_assoc|]. apply Forall2_app; [done|by rewrite <- Ht].
Qed.
Lemma told_nothing f : told f f [].
Proof. split_and!; [done..|]. exists []. by rewrite app_nil_r. Qed.
Lemma told_one f e n : announces (notified_tenant f) n e -> told f (publish e f) [n].
Proof. intros He. split_and!; [done..|]. exists [e]. split; [done|by repeat constructor]. Qed.
Lemma told_written f p k : told f (publish_written p k f) [NoteWritten (normalize p) (Some k)].
Proof. apply told_one. cbn. split_and!; [done..|by intros ? [= ->]]. Qed.

Lemma told_renamed f a b : told f (publish_renamed a b f) [NoteRemoved (normalize a); NoteWritten (normalize b) None].
Proof. unfold publish_renamed. eapply (told_trans _ (publish_removed a f) _ [NoteRemoved _] [NoteWritten _ None]); apply told_one; [done|by split_and!]. Qed.

Lemma told_mutation f m : told f (publish_mutation f m) (mutation_notes m).
Proof.
  destruct m as [p d pre|p|p pre|a b pre]; cbn [publish_mutation mutation_notes];
    [apply told_written|apply told_nothing|by apply told_one|apply told_renamed].
Qed.

Lemma told_mutations f ms : told f (fold_left publish_mutation ms f) (flat_map mutation_notes ms).
Proof.
  revert f. induction ms as [|m ms IH]; intros f; cbn [fold_left flat_map]; [apply told_nothing|].
  eapply told_trans; [apply told_mutation|apply IH].
Qed.

(** What a call answered tells. *)
Definition answered f f' (r : result unit VfsError) (ns : list note) : Prop :=
  notified_tenant f' = notified_tenant f /\
  match r with
  | Err _ => sent f' = sent f
  | Ok _ => exists es, sent f' = sent f ++ es /\ Forall2 (announces (notified_tenant f)) ns es
  end.

Lemma then_tell_spec f v' r tell ns : (forall f, told f (tell f) ns) ->
  let '(f', r') := then_tell f (v', r) tell in notified_inner f' = v' /\ r' = r /\ answered f f' r ns.
Proof.
  intros Ht. unfold then_tell. cbn. destruct r as [[]|e]; cbn; [|done].
  destruct (Ht (set_notified v' f)) as (Hi & Ht' & es & Es & Hs). split_and!; [done|done|]. split; [done|by exists es].
Qed.

(** A call is made as it is or with its paths normalised; when it succeeds, what it does is told in order, and nothing else. *)
Lemma run_told f c : exists d, (d = c \/ d = normalized c) /\
  let '(f', r) := run f c in run (notified_inner f) d = (notified_inner f', r) /\ answered f f' r (call_notes c).
Proof.
  assert (forall d tell ns, (d = c \/ d = normalized c) -> ns = call_notes c -> run f c = then_tell f (run (notified_inner f) d) tell ->
    (forall f, told f (tell f) ns) ->
    exists d, (d = c \/ d = normalized c) /\ let '(f', r) := run f c in
    run (notified_inner f) d = (notified_inner f', r) /\ answered f f' r (call_notes c)) as Hgen.
  { intros d tell ns Hd -> Hr Ht. exists d. split; [done|]. rewrite Hr. destruct (run (notified_inner f) d) as [v' r].
    pose proof (then_tell_spec f v' r tell _ Ht) as Hs. destruct (then_tell _ _ _) as [f' r']. by destruct Hs as (<- & -> & ?). }
  destruct c as [path data|path|path|path data p|from to|ms].
  - eapply (Hgen (CWrite path data)); [by left|done|done|]. intros f0. apply told_written.
  - eapply (Hgen (CMkdir path)); [by left|done|done|]. intros f0. apply told_nothing.
  - eapply (Hgen (CRemove path)); [by left|done|done|]. intros f0. by apply told_one.
  - eapply (Hgen (normalized (CWriteIf path data p))); [by right| |done|intros f0; apply told_written]. cbn. by rewrite normalize_idem.
  - eapply (Hgen (normalized (CRename from to))); [by right| |done|intros f0; apply told_renamed]. cbn. by rewrite !normalize_idem.
  - eapply (Hgen (normalized (CBatch ms))); [by right| |done|intros f0; apply told_mutations]. cbn [call_notes].
    unfold normalize_mutations. clear Hgen. induction ms as [|m ms IH]; [done|]. cbn [List.map flat_map]. by rewrite mutation_notes_normalized, IH.
Qed.
End Told.

Lemma forwarded_touches c d : d = c \/ d = normalized c -> touches d = touches c.
Proof. intros [->| ->]; [done|apply touches_normalized]. Qed.

(** A place a call that took effect changed is on one line with a path it touched. *)
Lemma changed_is_related `{VirtualFsLaws V} (v v' : V) d q : fs_inv v -> Forall plain_segment q -> lands v d v' ->
  fs_at v' q <> fs_at v q -> exists t, t ∈ touches d /\ related (segs_of (touch_path t)) q.
Proof.
  intros Hi Hq Hl Hne.
  destruct (decide (Exists (fun t => related (segs_of (touch_path t)) q) (touches d))) as [He%Exists_exists|Hno]; [done|].
  destruct Hne. apply (lands_spares v d v' (eq q)); [done|done|by intros _ <-| |done].
  intros s1 _ _ t Ht x <- Hdis%disturbs_related. apply Hno, Exists_exists. by exists t.
Qed.

(** C33. What changes is told.  Over a filesystem with the interface's laws, a call that succeeds sends, in order, one
    event of the layer's tenant for each path it writes or removes ([Written] for a write, with the size of the data,
    [Removed] for a removal, the two in that order for a rename) and no other; the events of a call that is not a batch of
    several are true of the tree it leaves (something is at a path written, nothing at one removed); and any place where the
    filesystem is then different lies on one line with (at, above or below) a path that was told of, or a directory the
    call made.  A call that fails tells nothing, and changes nothing either, unless its outcome is unknown: then it may have
    taken effect unannounced, and what changed lies on one line with a path it was to touch. *)
Theorem changes_are_told `{VirtualFsLaws V} (f : NotifyingFsLayer V) c : fs_inv (notified_inner f) ->
  let '(f', r) := run f c in
  let changed q := fs_at (notified_inner f') q <> fs_at (notified_inner f) q in
  match r with
  | Err e => sent f' = sent f /\
      (notified_inner f' = notified_inner f \/
       ((exists m, e = OutcomeUnknown m) /\
        forall q, Forall plain_segment q -> changed q -> exists t, t ∈ touches c /\ related (segs_of (touch_path t)) q))
  | Ok _ =>
      exists es, sent f' = sent f ++ es /\ Forall2 (announces (notified_tenant f)) (call_notes c) es /\
        ((forall ms, c = CBatch ms -> exists m, ms = [m]) -> Forall (holds_of (fs_at (notified_inner f'))) (call_notes c)) /\
        forall q, Forall plain_segment q -> changed q ->
          exists p, (noted (call_notes c) p \/ makes c p) /\ related (segs_of p) q
  end.
Proof.
  intros Hi. destruct (run_told f c) as (d & Hd & Hr). destruct (run f c) as [f' [[]|e]]; cbv zeta.
  - destruct Hr as (Hr & _ & es & Es & Hs). apply law_ok in Hr; [|done]. exists es. split_and!; [done|done| |].
    + intros Hc. apply (made_holds _ (fs_at (notified_inner f))); [done|]. apply law_made in Hr; [|done].
      destruct Hd as [->| ->]; [done|by apply made_normalized].
    + intros q Hq Hne. destruct (changed_is_related _ _ d q Hi Hq Hr Hne) as (t & Ht & Hrel). rewrite (forwarded_touches c d Hd) in Ht.
      exists (touch_path t). split; [|done]. by apply touched_is_noted.
  - destruct Hr as (Hr & _ & Hs). split; [done|]. apply (law_error _ _ _ _ Hi) in Hr as [?|[? Hl]]; [by left|right].
    split; [done|]. intros q Hq Hne. rewrite <- (forwarded_touches c d Hd). by eapply changed_is_related.
Qed.

(** ** Concrete layers *)

#[local] Instance ex_quiet_fs : VirtualFs State := memory_fs ex_to_vec ex_from_slice.
Definition ex_told : NotifyingFsLayer State := for_tenant (MkTenantId "acme") ex_fs.
Definition ex_batch : call := CBatch [Mkdir "/c"; Rename "/c" "/d/../e" Unconditional; Write "/a/b" "xyz" Unconditional].

(** The batch sends its three events, of the kinds and in the order of its items. *)
Lemma changes_are_told_witness :
  let '(f', r) := run ex_told ex_batch in
  fs_inv (VirtualFsLaws := memory_laws ex_to_vec ex_from_slice) (notified_inner ex_told) /\
  r = Ok tt /\
  sent f' = [Removed (MkTenantId "acme") "/c"; Written (MkTenantId "acme") "/e" 0; Written (MkTenantId "acme") "/a/b" 3] /\
  exists es, sent f' = sent ex_told ++ es /\ Forall2 (announces (MkTenantId "acme")) (call_notes ex_batch) es.
Proof.
  pose proof (@changes_are_told State ex_quiet_fs (memory_laws ex_to_vec ex_from_slice) ex_told ex_batch ex_fs_inv) as H.
  destruct (run ex_told ex_batch) as [f' r] eqn:E. split; [exact ex_fs_inv|].
  assert (r = Ok tt) as Er by (apply (f_equal snd) in E; cbn [snd] in E; rewrite <- E; vm_compute; reflexivity).
  split; [exact Er|]. split; [apply (f_equal fst) in E; cbn [fst] in E; rewrite <- E; vm_compute; reflexivity|].
  rewrite Er in H. destruct H as (es & Es & Hs & _). exists es. split; assumption.
Defined.

(** A directory is made without a word, and a watcher does not hear of the removal of a directory above what it watches. *)
Example mkdir_is_silent : sent (fst (vfs_mkdir ex_told "/new")) = [] /\ snd (vfs_mkdir ex_told "/new") = Ok tt.
Proof. split; vm_compute; reflexivity. Qed.

Example removal_above_is_not_heard :
  let f := fst (vfs_remove ex_told "/a") in
  vfs_exists ex_told "/a/b" = true /\ vfs_exists f "/a/b" = false /\ sent f = [Removed (MkTenantId "acme") "/a"] /\
  fst (watcher_recv "/a/b" (Received <$> sent f)) = None /\ fst (watcher_recv "/" (Received <$> sent f)) = Some (Removed (MkTenantId "acme") "/a").
Proof. vm_compute. repeat split; reflexivity. Qed.

(** A watcher passes over what is not below its directory, and says how much it missed. *)
Example watcher_filters :
  watcher_recv "/a/" [Received (Written (MkTenantId "acme") "/ab" 1); Received (Written (MkTenantId "acme") "/a/b" 2); Lagged 3] =
    (Some (Written (MkTenantId "acme") "/a/b" 2), [Lagged 3]) /\ fst (watcher_recv "/a" [Lagged 3]) = Some (Skipped 3).
Proof. split; reflexivity. Qed.
