(* ===== verification/HitIds.v ===== *)
(** * Hit ids

    Models [crates/simulacra-memory/src/hit_cache.rs]: the cache behind the tokens that a search hands out and a
    later read resolves.

    Instants are numbers; the token of a mint (random bytes of the operating system, in base 32) is an argument of
    it, and so is the instant it reads.  The insertion order is a list sorted by its keys. *)

From S2P Require Import Prelude.
From S2P Require Import MemoryPath.

Abbreviation Instant := N.
Definition HIT_ID_TTL : N := (300 * 1000000000)%N.
Definition HIT_ID_CACHE_MAX : nat := N.to_nat 65536.

Record HitCacheEntry := {
  hit_tenant : TenantId;
  hit_path : MemoryPath;
  hit_chunk : N;
  hit_version : N;
  hit_expires_at : Instant;
}.

(** Keys of the insertion order: the instant, then the counter. *)
Definition order_key : Type := Instant * N.
Definition key_lt (a b : order_key) : bool := (fst a <? fst b)%N || ((fst a =? fst b)%N && (snd a <? snd b)%N).

Record HitIdCache := {
  entries : gmap str HitCacheEntry;
  insertion_order : list (order_key * str);
  seq : N;
}.
Definition cache_new : HitIdCache := {| entries := ∅; insertion_order := []; seq := 0 |}.

(** [BTreeMap::insert]. *)
Fixpoint order_insert (k : order_key) (id : str) (order : list (order_key * str)) : list (order_key * str) :=
  match order with
  | [] => [(k, id)]
  | (k', id') :: rest =>
      if key_lt k k' then (k, id) :: order
      else if key_lt k' k then (k', id') :: order_insert k id rest
      else (k, id) :: rest
  end.

Definition evict_expired (now : Instant) (c : HitIdCache) : HitIdCache :=
  let kept := filter (fun kv => ~ (hit_expires_at (snd kv) <= now)%N) (entries c) in
  {| entries := kept; insertion_order := List.filter (fun o => bool_decide (is_Some (kept !! snd o))) (insertion_order c); seq := seq c |}.

(** The loop that makes room: every turn drops the oldest of the order. *)
Fixpoint make_room (entries : gmap str HitCacheEntry) (order : list (order_key * str)) : gmap str HitCacheEntry * list (order_key * str) :=
  if (HIT_ID_CACHE_MAX <=? size entries)%nat then
    match order with
    | [] => (entries, order)
    | (_, victim) :: rest => make_room (delete victim entries) rest
    end
  else (entries, order).

Definition mint (now : Instant) (token : str) (t : TenantId) (path : MemoryPath) (chunk version : N) (c : HitIdCache) : HitIdCache * str :=
  let hit_id := "hit_" ++ token in
  let entry := {| hit_tenant := t; hit_path := path; hit_chunk := chunk; hit_version := version; hit_expires_at := (now + HIT_ID_TTL)%N |} in
  let seq := (seq c + 1)%N in
  let c := evict_expired now c in
  let '(kept, order) := make_room (entries c) (insertion_order c) in
  ({| entries := <[hit_id := entry]> kept; insertion_order := order_insert (now, seq) hit_id order; seq := seq |}, hit_id).

Definition get (now : Instant) (hit_id : str) (c : HitIdCache) : HitIdCache * option HitCacheEntry :=
  let c := evict_expired now c in (c, entries c !! hit_id).
Definition cache_len (c : HitIdCache) : nat := size (entries c).
Definition sweep_expired (now : Instant) (c : HitIdCache) : HitIdCache := evict_expired now c.

(** ** What the cache promises

    The log of the mints so far, newest last.  An id is live at [now] when its entry has not expired and is among
    the newest [HIT_ID_CACHE_MAX] of the log. *)
Definition minted : Type := order_key * (str * HitCacheEntry).
Definition newest (n : nat) {A} (l : list A) : list A := skipn (length l - n) l.
Definition unexpired (now : Instant) (m : minted) : bool := (now <? hit_expires_at (snd (snd m)))%N.
Definition live (now : Instant) (log : list minted) : list minted := List.filter (unexpired now) (newest HIT_ID_CACHE_MAX log).

Variant cache_op :=
| OpMint (token : str) (t : TenantId) (path : MemoryPath) (chunk version : N)
| OpGet (hit_id : str)
| OpSweep.
Definition cache_step (c : HitIdCache) (o : Instant * cache_op) : HitIdCache :=
  let '(now, op) := o in
  match op with
  | OpMint token t path chunk version => fst (mint now token t path chunk version c)
  | OpGet id => fst (get now id c)
  | OpSweep => sweep_expired now c
  end.
(** The mint an operation makes, as the [n]th. *)
Definition mint_of (n : N) (o : Instant * cache_op) : option minted :=
  match o with
  | (now, OpMint token t path chunk version) =>
      Some ((now, n), ("hit_" ++ token, {| hit_tenant := t; hit_path := path; hit_chunk := chunk; hit_version := version; hit_expires_at := (now + HIT_ID_TTL)%N |}))
  | _ => None
  end.
Definition log_step (log : list minted) (o : Instant * cache_op) : list minted :=
  match mint_of (N.of_nat (length log) + 1) o with Some m => log ++ [m] | None => log end.

Definition ids (log : list minted) : list str := (fun m => fst (snd m)) <$> log.
Definition map_of (log : list minted) : gmap str HitCacheEntry := list_to_map (snd <$> log).
Definition order_of (log : list minted) : list (order_key * str) := (fun m => (fst m, fst (snd m))) <$> log.
Definition mint_time (m : minted) : Instant := fst (fst m).

(** The log of operations at instants that do not go back, with tokens of their own. *)
Record log_ok (now : Instant) (log : list minted) : Prop := {
  log_times : StronglySorted (fun m m' => (mint_time m <= mint_time m')%N) log;
  log_until : Forall (fun m => (mint_time m <= now)%N) log;
  log_expires : Forall (fun m => hit_expires_at (snd (snd m)) = (mint_time m + HIT_ID_TTL)%N) log;
  log_seqs : (fun m => snd (fst m)) <$> log = List.map N.of_nat (List.seq 1 (length log));
  log_ids : NoDup (ids log);
}.
(** The cache holds what is live, in the order it was minted. *)
Record holds (now : Instant) (log : list minted) (c : HitIdCache) : Prop := {
  holds_entries : entries c = map_of (live now log);
  holds_order : insertion_order c = order_of (live now log);
  holds_seq : seq c = N.of_nat (length log);
}.
#[local] Opaque HIT_ID_CACHE_MAX.

Lemma max_positive : (0 < HIT_ID_CACHE_MAX)%nat.
Proof. apply Nat.ltb_lt. reflexivity. Qed.

Lemma newest_length {A} n (l : list A) : (length (newest n l) <= n)%nat.
Proof. unfold newest. rewrite length_skipn. lia. Qed.
Lemma newest_suffix {A} n (l : list A) : newest n l `suffix_of` l.
Proof. exists (firstn (length l - n) l). unfold newest. by rewrite firstn_skipn. Qed.
Lemma newest_short {A} n (l : list A) : (length l <= n)%nat -> newest n l = l.
Proof. intros Hl. unfold newest. by replace (length l - n)%nat with 0%nat by lia. Qed.
Lemma newest_snoc_full {A} n (l : list A) x : (0 < n)%nat -> (n <= length l)%nat ->
  exists y k, newest n l = y :: k /\ length (y :: k) = n /\ newest n (l ++ [x]) = k ++ [x].
Proof.
  intros Hn Hl. destruct (newest n l) as [|y k] eqn:E.
  - apply (f_equal length) in E. unfold newest in E. rewrite length_skipn in E. cbn in E. lia.
  - assert (length (y :: k) = n) as Hk by (rewrite <- E; unfold newest; rewrite length_skipn; lia).
    exists y, k. split; [done|split; [done|]]. unfold newest in *. rewrite length_app. cbn [length].
    replace (length l + 1 - n)%nat with (S (length l - n)) by lia.
    rewrite skipn_app. replace (S (length l - n) - length l)%nat with 0%nat by lia. f_equal.
    by rewrite <- Nat.add_1_l, <- skipn_skipn, E.
Qed.

(** *** Logs *)

Lemma sublist_ids l k : sublist l k -> sublist (ids l) (ids k).
Proof. induction 1; cbn; by constructor. Qed.

Lemma live_sublist now log : sublist (live now log) log.
Proof.
  unfold live. etrans; [|apply (sublist_drop log (length log - HIT_ID_CACHE_MAX))]. unfold newest. generalize (drop (length log - HIT_ID_CACHE_MAX) log). intros l.
  induction l as [|m l IH]; [constructor|]. cbn. destruct (unexpired now m); by constructor.
Qed.

Lemma live_ids now log : NoDup (ids log) -> NoDup (ids (live now log)).
Proof. intros Hn. eapply sublist_NoDup; [exact Hn|]. apply sublist_ids, live_sublist. Qed.

Lemma live_length now log : (length (live now log) <= HIT_ID_CACHE_MAX)%nat.
Proof. etrans; [apply List.filter_length_le|apply newest_length]. Qed.

Lemma live_later now now' log : (now <= now')%N -> live now' log = List.filter (unexpired now') (live now log).
Proof.
  intros Hn. unfold live. induction (newest HIT_ID_CACHE_MAX log) as [|m l IH]; [done|]. cbn.
  destruct (unexpired now m) eqn:E; cbn; rewrite IH; [done|].
  unfold unexpired in *. apply N.ltb_ge in E. by replace (now' <? _)%N with false by (symmetry; apply N.ltb_ge; lia).
Qed.

Lemma log_later now now' log : log_ok now log -> (now <= now')%N -> log_ok now' log.
Proof. intros [? Hu ? ? ?] ?. constructor; try done. eapply Forall_impl; [exact Hu|]. cbn. intros m. lia. Qed.

Lemma unexpired_sorted now log : StronglySorted (fun m m' => (mint_time m <= mint_time m')%N) log ->
  Forall (fun m => hit_expires_at (snd (snd m)) = (mint_time m + HIT_ID_TTL)%N) log ->
  forall m l, log = m :: l -> unexpired now m = true -> List.filter (unexpired now) log = log.
Proof.
  intros Hs He m l -> Hm. inversion Hs as [|? ? _ Hle]; inversion He as [|? ? Hem Hel]; subst.
  cbn. rewrite Hm. f_equal. unfold unexpired in Hm. apply N.ltb_lt in Hm. rewrite Hem in Hm. clear Hs He Hem.
  induction l as [|x l IH]; [done|]. inversion Hle; inversion Hel; subst. cbn.
  replace (unexpired now x) with true; [by rewrite IH|]. symmetry. apply N.ltb_lt. lia.
Qed.

(** A mint joins what is live, and takes the place of the oldest when the cache is full. *)
Lemma live_mint now log m : log_ok now log -> unexpired now m = true ->
  live now (log ++ [m]) = skipn (if (HIT_ID_CACHE_MAX <=? length (live now log))%nat then 1 else 0) (live now log) ++ [m].
Proof.
  intros Hok Hm. pose proof (live_length now log) as Hlen. destruct (Nat.lt_ge_cases (length log) HIT_ID_CACHE_MAX) as [Hl|Hl].
  - unfold live in *. rewrite !newest_short in * by (rewrite ?length_app; cbn; lia).
    assert (length (List.filter (unexpired now) log) < HIT_ID_CACHE_MAX)%nat by (pose proof (List.filter_length_le (unexpired now) log); lia).
    replace (HIT_ID_CACHE_MAX <=? _)%nat with false by (symmetry; apply Nat.leb_gt; lia).
    rewrite List.filter_app. cbn. by rewrite Hm.
  - destruct (newest_snoc_full HIT_ID_CACHE_MAX log m max_positive Hl) as (y & k & E & Hk & E').
    pose proof (newest_suffix HIT_ID_CACHE_MAX log) as [h Hh]. rewrite E in Hh.
    unfold live. rewrite E, E', List.filter_app. cbn [List.filter]. rewrite Hm. f_equal.
    destruct (unexpired now y) eqn:Ey.
    + destruct Hok as [Hs _ He _ _]. rewrite Hh in Hs, He.
      assert (List.filter (unexpired now) (y :: k) = y :: k) as Hall.
      { eapply unexpired_sorted; [by eapply StronglySorted_app_1_r|by apply Forall_app in He as [_ He]|done|done]. }
      cbn in Hall. rewrite Ey in Hall. injection Hall as Hall. rewrite Hall.
      replace (HIT_ID_CACHE_MAX <=? length (y :: k))%nat with true by (symmetry; apply Nat.leb_le; lia). done.
    + pose proof (List.filter_length_le (unexpired now) k) as Hf. cbn in Hk.
      replace (HIT_ID_CACHE_MAX <=? _)%nat with false by (symmetry; apply Nat.leb_gt; lia). done.
Qed.

(** *** The maps of a log *)

Lemma map_of_lookup l id e : NoDup (ids l) -> map_of l !! id = Some e <-> exists k, (k, (id, e)) ∈ l.
Proof.
  intros Hn. unfold map_of. rewrite <- elem_of_list_to_map.
  - rewrite list_elem_of_fmap. split; [intros ([k x] & -> & Hin); by exists k|intros [k Hin]; by exists (k, (id, e))].
  - unfold ids in Hn. by rewrite <- list_fmap_compose.
Qed.

Lemma map_of_size l : NoDup (ids l) -> size (map_of l) = length l.
Proof. intros Hn. unfold map_of. rewrite map_size_list_to_map; [by rewrite length_fmap|]. by rewrite <- list_fmap_compose. Qed.

Lemma filter_ids now l : NoDup (ids l) -> NoDup (ids (List.filter (unexpired now) l)).
Proof.
  intros Hn. eapply sublist_NoDup; [exact Hn|]. apply sublist_ids. clear Hn.
  induction l as [|m l IH]; [constructor|]. cbn. destruct (unexpired now m); by constructor.
Qed.

Lemma map_of_filter now l : NoDup (ids l) ->
  filter (fun kv => ~ (hit_expires_at (snd kv) <= now)%N) (map_of l) = map_of (List.filter (unexpired now) l).
Proof.
  intros Hn. apply map_eq. intros id. apply option_eq. intros e.
  rewrite map_lookup_filter_Some, !map_of_lookup by (done || by apply filter_ids). cbn.
  setoid_rewrite list_elem_of_In. setoid_rewrite filter_In. unfold unexpired. cbn. setoid_rewrite N.ltb_lt.
  split; [intros [[k Hk] He]; exists k; split; [done|lia]|intros (k & Hk & He); split; [by exists k|lia]].
Qed.

Lemma live_id now l m : NoDup (ids l) -> m ∈ l ->
  bool_decide (is_Some (map_of (List.filter (unexpired now) l) !! fst (snd m))) = unexpired now m.
Proof.
  intros Hn Hm. destruct m as [k [id e]]. apply Bool.eq_iff_eq_true. rewrite bool_decide_eq_true. split.
  - intros [e' He']. apply map_of_lookup in He' as [k' Hk']; [|by apply filter_ids].
    apply list_elem_of_In, filter_In in Hk' as [Hin%list_elem_of_In Hu].
    assert (map_of l !! id = Some e') as E1 by (apply map_of_lookup; [done|by exists k']).
    assert (map_of l !! id = Some e) as E2 by (apply map_of_lookup; [done|by exists k]).
    rewrite E1 in E2. injection E2 as ->. exact Hu.
  - intros Hu. exists e. apply map_of_lookup; [by apply filter_ids|]. exists k. apply list_elem_of_In, filter_In.
    split; [by apply list_elem_of_In|done].
Qed.

Lemma order_of_filter now l : NoDup (ids l) ->
  List.filter (fun o => bool_decide (is_Some (map_of (List.filter (unexpired now) l) !! snd o))) (order_of l) =
  order_of (List.filter (unexpired now) l).
Proof.
  intros Hn. unfold order_of. change (fmap ?f ?x) with (List.map f x). rewrite List.filter_map_swap. f_equal.
  apply List.filter_ext_in. intros m Hm%list_elem_of_In. by apply live_id.
Qed.

(** *** The operations keep what is live *)

Lemma holds_evict now now' log c : log_ok now log -> holds now log c -> (now <= now')%N -> holds now' log (evict_expired now' c).
Proof.
  intros Hok [He Ho Hs] Hle. pose proof (live_ids now log (log_ids _ _ Hok)) as Hn.
  constructor; cbn; rewrite ?He, ?Ho, ?(live_later now now') by done; [by apply map_of_filter| |done].
  rewrite map_of_filter by done. by apply order_of_filter.
Qed.

Lemma make_room_holds l : NoDup (ids l) -> (length l <= HIT_ID_CACHE_MAX)%nat ->
  let k := skipn (if (HIT_ID_CACHE_MAX <=? length l)%nat then 1 else 0) l in
  make_room (map_of l) (order_of l) = (map_of k, order_of k).
Proof.
  intros Hn Hl. assert (forall k, NoDup (ids k) -> (length k < HIT_ID_CACHE_MAX)%nat -> make_room (map_of k) (order_of k) = (map_of k, order_of k)) as Hdone.
  { intros k Hk Hlt. destruct k; cbn [make_room order_of fmap list_fmap]; rewrite map_of_size by done;
      by replace (HIT_ID_CACHE_MAX <=? _)%nat with false by (symmetry; apply Nat.leb_gt; lia). }
  destruct (Nat.leb_spec HIT_ID_CACHE_MAX (length l)) as [Hge|Hlt]; [|by apply Hdone].
  destruct l as [|[key [id e]] l]; [pose proof max_positive; cbn in Hge; lia|]. cbn [skipn].
  cbn [make_room order_of fmap list_fmap]. rewrite map_of_size by done.
  replace (HIT_ID_CACHE_MAX <=? _)%nat with true by (symmetry; apply Nat.leb_le; lia).
  inversion Hn as [|? ? Hid Hn']; subst. cbn in Hid. cbn [snd fst].
  replace (delete id (map_of ((key, (id, e)) :: l))) with (map_of l); [apply Hdone; [done|cbn [length] in Hl; change (drop 0 l) with l; lia]|].
  unfold map_of. cbn. rewrite delete_insert_id; [done|]. apply not_elem_of_list_to_map. by rewrite <- list_fmap_compose.
Qed.

Lemma order_insert_last k id order : Forall (fun o => key_lt (fst o) k = true) order -> order_insert k id order = order ++ [(k, id)].
Proof.
  induction 1 as [|[k' id'] rest Hk _ IH]; [done|]. cbn in *.
  assert (key_lt k k' = false) as ->.
  { destruct k as [a b], k' as [a' b']. unfold key_lt in *. cbn in *.
    destruct (N.ltb_spec a' a), (N.eqb_spec a' a), (N.ltb_spec b' b), (N.ltb_spec a a'), (N.eqb_spec a a'), (N.ltb_spec b b');
      cbn in *; done || lia. }
  by rewrite Hk, IH.
Qed.

Lemma log_mint now token t path chunk version log m : log_ok now log ->
  mint_of (N.of_nat (length log) + 1) (now, OpMint token t path chunk version) = Some m -> fst (snd m) ∉ ids log ->
  log_ok now (log ++ [m]) /\ unexpired now m = true.
Proof.
  intros [Ht Hu He Hs Hi] [= <-] Hnew. cbn in Hnew. split.
  - constructor.
    + apply StronglySorted_app_2; [|done|by repeat constructor]. intros m m' Hm ->%list_elem_of_singleton.
      rewrite Forall_forall in Hu. by apply Hu.
    + apply Forall_app. split; [done|]. repeat constructor. cbn. lia.
    + apply Forall_app. split; [done|]. by repeat constructor.
    + rewrite fmap_app, Hs, length_app, List.seq_app, List.map_app. cbn. repeat f_equal. lia.
    + unfold ids. rewrite fmap_app. apply NoDup_app. split_and!; [done| |apply NoDup_singleton].
      intros id Hid ->%list_elem_of_singleton. done.
  - apply N.ltb_lt. cbn. unfold HIT_ID_TTL. lia.
Qed.

Lemma holds_mint now now' token t path chunk version log c m : log_ok now log -> holds now log c -> (now <= now')%N ->
  mint_of (N.of_nat (length log) + 1) (now', OpMint token t path chunk version) = Some m -> fst (snd m) ∉ ids log ->
  log_ok now' (log ++ [m]) /\ holds now' (log ++ [m]) (fst (mint now' token t path chunk version c)).
Proof.
  intros Hok Hc Hle Em Hnew. apply (log_later _ now') in Hok as Hok'; [|done].
  destruct (log_mint _ _ _ _ _ _ _ _ Hok' Em Hnew) as [Hok2 Hm]. split; [done|].
  apply (holds_evict _ now') in Hc; [|done..]. pose proof (live_ids now' log (log_ids _ _ Hok')) as Hn.
  unfold mint. set (c' := evict_expired now' c) in *. destruct Hc as [He Ho Hs]. rewrite He, Ho.
  rewrite make_room_holds by (done || apply live_length).
  set (n := if (_ <=? _)%nat then _ else _) in *. cbn in Hs.
  injection Em as <-. constructor; cbn; rewrite ?(live_mint now' log) by done; fold n.
  - unfold map_of. rewrite fmap_app. cbn. rewrite list_to_map_snoc; [done|]. rewrite <- list_fmap_compose.
    intros Hin. apply Hnew. cbn. apply list_elem_of_fmap in Hin as (x & -> & Hx). apply list_elem_of_fmap. exists x. split; [done|].
    eapply elem_of_sublist; [exact Hx|]. etrans; [apply sublist_drop|apply live_sublist].
  - unfold order_of. rewrite fmap_app. cbn. rewrite Hs. apply order_insert_last. apply Forall_fmap, Forall_forall. intros x Hx.
    assert (x ∈ log) as Hxl by (eapply elem_of_sublist; [exact Hx|]; etrans; [apply sublist_drop|apply live_sublist]).
    destruct Hok' as [_ Hu _ Hq _]. rewrite Forall_forall in Hu. specialize (Hu x Hxl). unfold mint_time in Hu.
    assert (snd (fst x) ∈ List.map N.of_nat (List.seq 1 (length log))) as Hsx by (rewrite <- Hq; apply list_elem_of_fmap; by exists x).
    apply list_elem_of_In, in_map_iff in Hsx as (j & Hj & Hin%in_seq). unfold key_lt. cbn.
    apply orb_true_iff. rewrite andb_true_iff, N.ltb_lt, N.eqb_eq, N.ltb_lt. lia.
  - rewrite Hs, length_app. cbn. lia.
Qed.

Definition token_of (o : Instant * cache_op) : option str := match snd o with OpMint token _ _ _ _ => Some token | _ => None end.
Definition cache_after (ops : list (Instant * cache_op)) : HitIdCache := fold_left cache_step ops cache_new.
Definition log_of (ops : list (Instant * cache_op)) : list minted := fold_left log_step ops [].

Lemma log_step_ids log o : ids (log_step log o) = ids log ++ match token_of o with Some token => ["hit_" ++ token] | None => [] end.
Proof. destruct o as [now []]; cbn; rewrite ?app_nil_r; [|done..]. unfold ids. by rewrite fmap_app. Qed.

Lemma holds_step now log c o : log_ok now log -> holds now log c -> (now <= fst o)%N ->
  (forall token, token_of o = Some token -> "hit_" ++ token ∉ ids log) ->
  log_ok (fst o) (log_step log o) /\ holds (fst o) (log_step log o) (cache_step c o).
Proof.
  intros Hok Hc Hle Hnew. destruct o as [now' [token t path chunk version|id|]]; cbn [fst] in *; unfold log_step; cbn [mint_of].
  - eapply holds_mint; [exact Hok|exact Hc|done|done|by apply Hnew].
  - split; [by eapply log_later|by apply (holds_evict now)].
  - split; [by eapply log_later|by apply (holds_evict now)].
Qed.

Lemma cache_holds ops :
  StronglySorted (fun o o' => (fst o <= fst o')%N) ops -> NoDup (omap token_of ops) ->
  exists t, (forall now, Forall (fun o => (fst o <= now)%N) ops -> (t <= now)%N) /\
    log_ok t (log_of ops) /\ holds t (log_of ops) (cache_after ops) /\
    ids (log_of ops) = (fun token => "hit_" ++ token) <$> omap token_of ops.
Proof.
  induction ops as [|o ops IH] using rev_ind; intros Hs Hn.
  - exists 0%N. split_and!; [lia| | |done]; by repeat constructor.
  - apply StronglySorted_app in Hs as (Hlast & Hs & _). rewrite omap_app in Hn.
    assert (forall token, token_of o = Some token -> token ∉ omap token_of ops) as Hnew.
    { intros token Ht Hin. cbn in Hn. rewrite Ht in Hn. apply NoDup_app in Hn as (_ & Hd & _). apply (Hd token Hin). by left. }
    apply NoDup_app in Hn as (Hn & _ & _). destruct (IH Hs Hn) as (t & Hmin & Hok & Hc & Hids).
    assert (t <= fst o)%N as Hle by (apply Hmin, Forall_forall; intros x Hx; apply Hlast; [done|by left]).
    exists (fst o). unfold log_of, cache_after in *. rewrite !fold_left_app. cbn [fold_left].
    destruct (holds_step t _ _ o Hok Hc Hle) as [Hok' Hc'].
    { intros token Ht. rewrite Hids. intros (token' & E & Hin)%list_elem_of_fmap.
      assert (token = token') as -> by (by injection E). by apply (Hnew token'). }
    split_and!; [|done|done|].
    + intros now [_ Hlast']%Forall_app. by inversion Hlast'.
    + rewrite log_step_ids. rewrite Hids, omap_app, fmap_app. f_equal. cbn. by destruct (token_of o).
Qed.

(** C32. A hit id resolves to what it was minted for, for five minutes, and to nothing after that.  After any
    sequence of mints, reads and sweeps of the cache at instants that do not go back, with tokens that differ, the
    cache holds at most 65536 entries; and a read of an id at a later instant finds an entry exactly when that
    entry was minted under that id, has not expired, and is among the 65536 minted last.  (The cache keeps a map,
    an insertion order and the loops that evict from both; the log of the mints is what they stand for.) *)
Theorem hit_ids_resolve (ops : list (Instant * cache_op)) (now : Instant) (id : str) (e : HitCacheEntry) :
  StronglySorted (fun o o' => (fst o <= fst o')%N) (ops ++ [(now, OpGet id)]) -> NoDup (omap token_of ops) ->
  (cache_len (cache_after ops) <= HIT_ID_CACHE_MAX)%nat /\
  (snd (get now id (cache_after ops)) = Some e <->
   exists k, (k, (id, e)) ∈ newest HIT_ID_CACHE_MAX (log_of ops) /\ (now < hit_expires_at e)%N).
Proof.
  intros (Hlast & Hs & _)%StronglySorted_app Hn. destruct (cache_holds ops Hs Hn) as (t & Hmin & Hok & Hc & _).
  assert (t <= now)%N as Hle by (apply Hmin, Forall_forall; intros o Ho; apply (Hlast o (now, OpGet id)); [done|by left]).
  pose proof (live_ids t _ (log_ids _ _ Hok)) as Hni. split.
  - unfold cache_len. rewrite (holds_entries _ _ _ Hc), map_of_size by done. apply live_length.
  - change (snd (get now id (cache_after ops))) with (entries (evict_expired now (cache_after ops)) !! id).
    rewrite (holds_entries _ _ _ (holds_evict t now _ _ Hok Hc Hle)), map_of_lookup by (by apply live_ids, (log_ids t)).
    unfold live. setoid_rewrite list_elem_of_In. setoid_rewrite filter_In. unfold unexpired. by setoid_rewrite N.ltb_lt.
Qed.

Definition ex_ops : list (Instant * cache_op) :=
  [(5%N, OpMint "A" (MkTenantId "acme") (MkMemoryPath "/var/memory/a") 0 1); (9%N, OpSweep);
   (10%N, OpMint "B" (MkTenantId "acme") (MkMemoryPath "/var/memory/b") 2 7)].

(** The second id is found a minute later, the first one is not found five minutes after its mint. *)
Lemma hit_ids_resolve_witness :
  option_map hit_chunk (snd (get 60000000000 "hit_B" (cache_after ex_ops))) = Some 2%N /\
  snd (get 300000000005 "hit_A" (cache_after ex_ops)) = None /\ (cache_len (cache_after ex_ops) <= HIT_ID_CACHE_MAX)%nat.
Proof.
  split; [reflexivity|]. split; [reflexivity|].
  apply (hit_ids_resolve ex_ops 60000000000 "hit_B" {| hit_tenant := MkTenantId "acme"; hit_path := MkMemoryPath "/var/memory/b"; hit_chunk := 2; hit_version := 7; hit_expires_at := 300000000010 |}).
  - repeat (constructor; [|repeat constructor; discriminate]). constructor.
  - cbn. apply (bool_decide_unpack _). reflexivity.
Defined.
