(* ===== verification/WorkflowStore.v ===== *)
(** * Workflows: scripts, runs and where they are kept

    Models [crates/simulacra-workflow/src/types.rs], [error.rs] and [store.rs]: the data of a run and the
    files of the virtual filesystem it lives in.  How [serde] writes a run or a result to JSON and reads
    it back is a parameter with the law that reading undoes writing. *)

From S2P Require Import Prelude.
From S2P Require Import Text.
From S2P Require Import Utf8.
From S2P Require Import Segments.
From S2P Require Import Vfs.

(** ** Data ([types.rs], [error.rs]) *)

Variant WorkflowStatus := Pending | Running | Completed | Failed | Cancelled.

#[export] Instance WorkflowStatus_eq_dec : EqDecision WorkflowStatus.
Proof. solve_decision. Defined.

Record WorkflowScriptMeta := { meta_name : str; meta_description : str }.
Record WorkflowScript := { script_path_of : str; script_source : str; script_meta : WorkflowScriptMeta }.

Variant WorkflowError :=
| InvalidScriptPath (path reason : str)
| InvalidMetadata (msg : str)
| InvalidScript (msg : str)
| RunNotFound (run_id : str)
| WorkerFailed (key message : str)
| WorkflowCancelled
| WorkflowVfs (e : VfsError)
| Serde (msg : str)
| Internal (msg : str).

Definition workflow_error_to_string (e : WorkflowError) : str :=
  match e with
  | InvalidScriptPath path reason => "invalid workflow script path `" ++ path ++ "`: " ++ reason
  | InvalidMetadata m => "invalid workflow script metadata: " ++ m
  | InvalidScript m => "invalid workflow script: " ++ m
  | RunNotFound run_id => "workflow run `" ++ run_id ++ "` was not found"
  | WorkerFailed key message => "workflow worker failed for call `" ++ key ++ "`: " ++ message
  | WorkflowCancelled => "workflow run was cancelled"
  | WorkflowVfs e => "virtual filesystem error: " ++ vfs_error_to_string e
  | Serde m => "serialization error: " ++ m
  | Internal m => "internal workflow error: " ++ m
  end.

Record WorkflowAgentResult (Value : Type) := {
  result_key : str;
  output : Value;
  result_is_error : bool;
  result_error : option str;
}.
Arguments result_key {_}.
Arguments output {_}.
Arguments result_is_error {_}.
Arguments result_error {_}.

Record WorkflowRun (Value : Type) := {
  run_id : str;
  run_script_path : str;
  run_meta : WorkflowScriptMeta;
  run_status : WorkflowStatus;
  run_results : list (WorkflowAgentResult Value);
  run_error : option str;
}.
Arguments run_id {_}.
Arguments run_script_path {_}.
Arguments run_meta {_}.
Arguments run_status {_}.
Arguments run_results {_}.
Arguments run_error {_}.

Definition run_pending {Value} (id : str) (script : WorkflowScript) : WorkflowRun Value :=
  {| run_id := id; run_script_path := script_path_of script; run_meta := script_meta script; run_status := Pending;
     run_results := []; run_error := None |}.
Definition set_status {Value} (r : WorkflowRun Value) (status : WorkflowStatus) : WorkflowRun Value :=
  {| run_id := run_id r; run_script_path := run_script_path r; run_meta := run_meta r; run_status := status;
     run_results := run_results r; run_error := run_error r |}.

(** ** Paths ([store.rs]) *)

Definition validate_script_path (path : str) : result unit WorkflowError :=
  if contains_char (ascii_of_nat 0) path then Err (InvalidScriptPath path "path contains NUL byte")
  else if negb (ends_with ".mjs" path) then Err (InvalidScriptPath path "workflow scripts must use .mjs extension")
  else if negb (starts_with "/workflows/" path || starts_with "/var/workflows/runs/" path) then
    Err (InvalidScriptPath path "workflow path must be under /workflows/ or /var/workflows/runs/")
  else if existsb (fun segment => str_eqb segment "..") (split_on "/" path) then
    Err (InvalidScriptPath path "path traversal is not allowed")
  else Ok tt.

Definition script_path_for_name (name : str) : result str WorkflowError :=
  if str_eqb name [] || contains_char "/" name || contains_char "\" name || contains_char (ascii_of_nat 0) name ||
     str_eqb name "." || str_eqb name ".." then
    Err (InvalidScriptPath name "workflow name must be a single path segment")
  else Ok ("/workflows/" ++ name ++ ".mjs").

Definition inline_script_path (run_id : str) : str := "/var/workflows/runs/" ++ run_id ++ "/workflow.mjs".
Definition transcript_dir (run_id : str) : str := "/var/workflows/runs/" ++ run_id ++ "/agents".
Definition state_path (run_id : str) : str := "/var/workflows/runs/" ++ run_id ++ "/state.json".

(** A character of several bytes becomes one underscore, at its first. *)
Definition safe_label_char (c : ascii) : bool := is_ascii_alphanumeric c || Ascii.eqb c "-" || Ascii.eqb c "_".
Definition sanitize_label (label : str) : str :=
  List.concat (List.map (fun c => if continuation c then [] else if safe_label_char c then [c] else ["_"%char]) label).
Definition result_path (run_id key : str) : str := transcript_dir run_id ++ "/" ++ sanitize_label key ++ ".json".

(** ** The store *)

(** Writing and reading JSON of the two kinds of file. *)
Class RunCodec (Value : Type) := {
  encode_run : WorkflowRun Value -> bytes;
  decode_run : bytes -> result (WorkflowRun Value) str;
  encode_result : WorkflowAgentResult Value -> bytes;
  decode_result : bytes -> result (WorkflowAgentResult Value) str;
}.

Section Store.
Context {Value F : Type} `{RunCodec Value} `{VirtualFs F}.

Definition vfs_error {A} (r : result A VfsError) : result A WorkflowError := map_err WorkflowVfs r.
Definition decoded {A} (r : result A str) : result A WorkflowError := map_err Serde r.

Definition persist_inline_script (fs : F) (run_id source : str) : F * result str WorkflowError :=
  let path := inline_script_path run_id in
  let '(fs, r) := vfs_write fs path source in
  (fs, let? _ := vfs_error r in Ok path).

Definition read_script (fs : F) (path : str) : result str WorkflowError :=
  let? _ := validate_script_path path in
  let? data := vfs_error (vfs_read fs path) in
  map_err (fun e => InvalidScript ("workflow script is not UTF-8: " ++ utf8_error_to_string e)) (from_utf8 data).

Definition save_run (fs : F) (run : WorkflowRun Value) : F * result unit WorkflowError :=
  let '(fs, r) := vfs_write fs (state_path (run_id run)) (encode_run run) in (fs, vfs_error r).
Definition read_run (fs : F) (run_id : str) : result (WorkflowRun Value) WorkflowError :=
  let? data := vfs_error (vfs_read fs (state_path run_id)) in decoded (decode_run data).
Definition save_agent_result (fs : F) (run_id : str) (r : WorkflowAgentResult Value) : F * result unit WorkflowError :=
  let '(fs, res) := vfs_write fs (result_path run_id (result_key r)) (encode_result r) in (fs, vfs_error res).
Definition read_agent_result (fs : F) (run_id key : str) : result (WorkflowAgentResult Value) WorkflowError :=
  let? data := vfs_error (vfs_read fs (result_path run_id key)) in decoded (decode_result data).
End Store.

(** ** A script's path stays where scripts are *)

Definition kept_segment (w : str) : bool := negb (str_eqb w [] || str_eqb w ".").

Lemma normalize_no_dotdot segs acc :
  Forall (fun w => w <> lit "..") segs -> fold_left normalize_segment segs acc = acc ++ List.filter kept_segment segs.
Proof.
  intros Hs. revert acc. induction Hs as [|w segs Hw _ IH]; intros acc; cbn [fold_left List.filter]; [by rewrite app_nil_r|].
  rewrite IH. unfold normalize_segment, kept_segment at 2. destruct (_ || _); cbn [negb]; [done|].
  unfold str_eqb. rewrite bool_decide_false by done. by rewrite <- app_assoc.
Qed.

(** The last segment of text that ends in [.mjs] ends in it. *)
Lemma split_on_ends d p r : d ∉ p -> exists ws w, split_on d (r ++ p) = ws ++ [w ++ p].
Proof.
  intros Hd. induction r as [|c r IH]; cbn [app split_on].
  - exists [], []. by rewrite split_on_no_occ.
  - destruct IH as (ws & w & ->). destruct (Ascii.eqb c d); [by exists ([] :: ws), w|].
    destruct ws as [|v ws]; [exists [], (c :: w)|exists ((c :: v) :: ws), w]; done.
Qed.

Lemma kept_mjs w : kept_segment (w ++ lit ".mjs") = true.
Proof.
  unfold kept_segment, str_eqb. rewrite !bool_decide_false; [done|..]; intros E; apply (f_equal length) in E;
    rewrite length_app in E; cbn in E; lia.
Qed.

(** Below a root, with no [..] on the way. *)
Lemma segs_under root r path :
  path = root ++ "/"%char :: r -> Forall (fun w => w <> lit "..") (split_on "/" path) -> ends_with ".mjs" path = true ->
  exists ws w, segs_of path = fold_left normalize_segment (split_on "/" root) [] ++ ws ++ [w ++ lit ".mjs"].
Proof.
  intros -> Hd Hm. apply ends_with_true in Hm as [p Hp].
  destruct (split_on_ends "/" ".mjs" p) as (ws & w & Ep); [set_solver|]. rewrite <- Hp in Ep.
  unfold segs_of. rewrite split_on_app_sep in Hd, Ep |- *. apply Forall_app in Hd as [_ Hd].
  destruct (exists_last (split_on_nonempty "/"%char r)) as (vs & v & Ev). rewrite Ev in *.
  rewrite app_assoc in Ep. apply app_inj_tail in Ep as [_ ->].
  rewrite fold_left_app, normalize_no_dotdot, List.filter_app by done. cbn [List.filter]. rewrite kept_mjs. by eexists _, _.
Qed.

Lemma valid_path_confined path :
  validate_script_path path = Ok tt ->
  exists root ws w, segs_of path = root ++ ws ++ [w ++ lit ".mjs"] /\
    (root = [lit "workflows"] \/ root = [lit "var"; lit "workflows"; lit "runs"]).
Proof.
  unfold validate_script_path. destruct (contains_char _ path); [done|]. destruct (ends_with ".mjs" path) eqn:Em; cbn [negb]; [|done].
  destruct (_ || _) eqn:Er; cbn [negb]; [|done]. destruct (existsb _ _) eqn:Ed; [done|]. intros _.
  assert (Forall (fun w => w <> lit "..") (split_on "/" path)) as Hd.
  { apply Forall_forall. intros w Hw ->. apply not_true_iff_false in Ed. apply Ed, existsb_exists. exists (lit "..").
    split; [by apply list_elem_of_In|done]. }
  apply orb_true_iff in Er as [[r Er]%starts_with_true|[r Er]%starts_with_true].
  - destruct (segs_under (lit "/workflows") r path) as (ws & w & E); [done..|]. exists [lit "workflows"], ws, w. split; [done|by left].
  - destruct (segs_under (lit "/var/workflows/runs") r path) as (ws & w & E); [done..|].
    exists [lit "var"; lit "workflows"; lit "runs"], ws, w. split; [done|by right].
Qed.

Lemma name_path_valid name path : script_path_for_name name = Ok path -> validate_script_path path = Ok tt.
Proof.
  unfold script_path_for_name. destruct (_ || _) eqn:E; [done|]. intros Hp.
  assert (path = lit "/workflows/" ++ name ++ lit ".mjs") as Ep by (by injection Hp). clear Hp. rewrite !orb_false_iff in E.
  destruct E as (((((Hn & Hs) & _) & H0) & _) & _). apply contains_char_false in Hs, H0. unfold validate_script_path.
  assert (contains_char (ascii_of_nat 0) path = false) as ->.
  { apply contains_char_false. rewrite Ep, !not_elem_of_app. split_and!; [|done|]; by apply (bool_decide_unpack _). }
  assert (ends_with ".mjs" path = true) as ->.
  { apply ends_with_true. exists (lit "/workflows/" ++ name). by rewrite Ep, <- app_assoc. }
  assert (starts_with "/workflows/" path = true) as -> by (apply starts_with_true; by eexists).
  assert (split_on "/" path = [[]; lit "workflows"; name ++ lit ".mjs"]) as ->.
  { change (path = lit "/workflows" ++ "/"%char :: (name ++ lit ".mjs")) in Ep.
    rewrite Ep, split_on_app_sep, (split_on_no_occ _ (name ++ _)); [done|]. rewrite not_elem_of_app. split; [done|]. by apply (bool_decide_unpack _). }
  cbn. destruct (str_eqb (name ++ _) _) eqn:E2; [|done]. bools. apply (f_equal length) in E2. rewrite length_app in E2. cbn in E2. lia.
Qed.

(** A script is only read from where scripts are kept.  A path that passes the check, resolved the way
    the filesystem resolves it, lies strictly below [/workflows] or [/var/workflows/runs] and names an
    [.mjs] file; so does the path of any workflow name that is accepted. *)
Theorem script_paths_confined :
  (forall path, validate_script_path path = Ok tt ->
   exists root ws w, segs_of path = root ++ ws ++ [w ++ lit ".mjs"] /\
     (root = [lit "workflows"] \/ root = [lit "var"; lit "workflows"; lit "runs"])) /\
  (forall name path, script_path_for_name name = Ok path -> validate_script_path path = Ok tt).
Proof. split; [apply valid_path_confined|apply name_path_valid]. Qed.

Lemma script_paths_confined_witness :
  validate_script_path "/workflows/./team//triage.mjs" = Ok tt /\
  exists root ws w, segs_of "/workflows/./team//triage.mjs" = root ++ ws ++ [w ++ lit ".mjs"].
Proof.
  split; [reflexivity|]. destruct (proj1 script_paths_confined "/workflows/./team//triage.mjs") as (root & ws & w & E & _); [reflexivity|].
  by exists root, ws, w.
Defined.

(** A run id is not checked this way: an inline script of such a run is written outside. *)
Example inline_script_escapes :
  normalize (inline_script_path "../../../workspace") = lit "/workspace/workflow.mjs" /\
  normalize (state_path "../../../workspace") = lit "/workspace/state.json".
Proof. split; reflexivity. Qed.
