(* ===== verification/Hooks.v ===== *)
(** * The hook pipeline

    Models [crates/simulacra-hooks/src/verdict.rs], [error.rs], [lib.rs] and [pipeline.rs]: the chains
    of hooks around an operation, run forwards before it and backwards after it.  A hook is its name
    and what it does to a world of its own ([HookModule] is a trait; [js.rs] implements it with
    QuickJS).  The counters of the pipeline are the list of the increments it made; warnings are
    left out. *)

From S2P Require Import Prelude.

Variant Phase := Before | After.
Variant Operation := ToolCall | Llm | Spawn | HttpRequest | VfsWrite.

#[export] Instance Operation_eq_dec : EqDecision Operation.
Proof. solve_decision. Defined.

Variant Verdict :=
| Continue (modified : option str)
| Deny (reason : str)
| Kill (reason : str).

Definition continue_unchanged : Verdict := Continue None.

Variant HookError :=
| Denied (hook reason : str)
| Killed (hook reason : str)
| Timeout (hook : str) (timeout_ms : N)
| ExecutionError (hook message : str).

Definition hook_error_display (e : HookError) : str :=
  match e with
  | Denied hook reason => "hook '" ++ hook ++ "' denied: " ++ reason
  | Killed hook reason => "hook '" ++ hook ++ "' killed agent: " ++ reason
  | Timeout hook timeout_ms => "hook '" ++ hook ++ "' timed out after " ++ dec timeout_ms ++ "ms"
  | ExecutionError hook message => "hook '" ++ hook ++ "' execution error: " ++ message
  end.

(** An increment of one of the three counters, with its labels. *)
Variant counter := Invocations | Denials | Timeouts.
Record increment := { which : counter; i_hook : str; i_phase : Phase; i_operation : Operation }.

Section Hooks.
Context {W : Type}.

Record HookModule := {
  hook_name : str;
  invoke : W -> Phase -> Operation -> str -> W * result Verdict HookError;
}.

(** [HookChain] and [HookPipeline]: an ordered chain per operation. *)
Definition HookChain := list HookModule.
Definition HookPipeline := list (Operation * HookChain).

Definition chain_of (p : HookPipeline) (op : Operation) : option HookChain :=
  snd <$> List.find (fun c => bool_decide (c.1 = op)) p.

Definition pipeline_new : HookPipeline := [].

Fixpoint add (p : HookPipeline) (op : Operation) (hook : HookModule) : HookPipeline :=
  match p with
  | [] => [(op, [hook])]
  | (op', chain) :: rest =>
      if decide (op' = op) then (op', chain ++ [hook]) :: rest else (op', chain) :: add rest op hook
  end.

Definition hook_names (p : HookPipeline) (op : Operation) : list str :=
  match chain_of p op with
  | Some chain => map hook_name chain
  | None => []
  end.

(** The world the hooks act on and the counters. *)
Record State := { world : W; counted : list increment }.

Definition count (c : counter) (hook : str) (ph : Phase) (op : Operation) (s : State) : State :=
  {| world := world s;
     counted := counted s ++ [{| which := c; i_hook := hook; i_phase := ph; i_operation := op |}] |}.

Definition call_hook (h : HookModule) (ph : Phase) (op : Operation) (ctx : str) (s : State)
    : State * result Verdict HookError :=
  let '(w, r) := invoke h (world s) ph op ctx in ({| world := w; counted := counted s |}, r).

Definition timeout_reason (ms : N) : str := "hook timeout after " ++ dec ms ++ "ms (fail closed)".

Fixpoint before_loop (op : Operation) (hooks : list HookModule) (ctx : str) (s : State)
    : State * result (Verdict * str * option str) HookError :=
  match hooks with
  | [] => (s, Ok (continue_unchanged, ctx, None))
  | hook :: rest =>
      let s := count Invocations (hook_name hook) Before op s in
      let '(s, r) := call_hook hook Before op ctx s in
      match r with
      | Ok (Continue None) => before_loop op rest ctx s
      | Ok (Continue (Some modified)) => before_loop op rest modified s
      | Ok (Deny reason) =>
          let s := count Denials (hook_name hook) Before op s in
          (s, Ok (Deny reason, ctx, Some (hook_name hook)))
      | Ok (Kill reason) => (s, Err (Killed (hook_name hook) reason))
      | Err (Timeout reported_hook timeout_ms) =>
          let s := count Timeouts reported_hook Before op s in
          let s := count Denials (hook_name hook) Before op s in
          (s, Ok (Deny (timeout_reason timeout_ms), ctx, Some (hook_name hook)))
      | Err e => (s, Err e)
      end
  end.

Definition run_before_attributed (p : HookPipeline) (op : Operation) (ctx : str) (s : State)
    : State * result (Verdict * str * option str) HookError :=
  match chain_of p op with
  | None => (s, Ok (continue_unchanged, ctx, None))
  | Some chain => before_loop op chain ctx s
  end.

Definition run_before (p : HookPipeline) (op : Operation) (ctx : str) (s : State)
    : State * result (Verdict * str) HookError :=
  let '(s, r) := run_before_attributed p op ctx s in
  (s, match r with Ok (v, ctx, _) => Ok (v, ctx) | Err e => Err e end).

Fixpoint after_loop (op : Operation) (hooks : list HookModule) (ctx : str) (s : State)
    : State * result (Verdict * str) HookError :=
  match hooks with
  | [] => (s, Ok (continue_unchanged, ctx))
  | hook :: rest =>
      let s := count Invocations (hook_name hook) After op s in
      let '(s, r) := call_hook hook After op ctx s in
      match r with
      | Ok (Continue None) => after_loop op rest ctx s
      | Ok (Continue (Some modified)) => after_loop op rest modified s
      | Ok (Deny reason) => after_loop op rest ctx (count Denials (hook_name hook) After op s)
      | Ok (Kill reason) => (s, Err (Killed (hook_name hook) reason))
      | Err (Timeout hook' timeout_ms) => after_loop op rest ctx (count Timeouts hook' After op s)
      | Err e => (s, Err e)
      end
  end.

Definition run_after (p : HookPipeline) (op : Operation) (ctx : str) (s : State)
    : State * result (Verdict * str) HookError :=
  match chain_of p op with
  | None => (s, Ok (continue_unchanged, ctx))
  | Some chain => after_loop op (rev chain) ctx s
  end.

(** ** What a hook's answer does to the chain *)

(** The context a hook leaves when the chain goes on, per phase: a denial and a timeout stop the
    before phase and are ignored by the after phase. *)
Definition goes_on (ph : Phase) (ctx : str) (r : result Verdict HookError) : option str :=
  match r, ph with
  | Ok (Continue None), _ => Some ctx
  | Ok (Continue (Some modified)), _ => Some modified
  | Ok (Deny _), After | Err (Timeout _ _), After => Some ctx
  | _, _ => None
  end.

(** [passed ph op hooks ctx w ctx' w']: every hook was asked, in order, each on the context and the
    world its predecessor left, and the chain went on. *)
Inductive passed (ph : Phase) (op : Operation) : list HookModule -> str -> W -> str -> W -> Prop :=
| passed_nil ctx w : passed ph op [] ctx w ctx w
| passed_cons h rest ctx w w1 r ctx1 ctx' w' :
    invoke h w ph op ctx = (w1, r) -> goes_on ph ctx r = Some ctx1 ->
    passed ph op rest ctx1 w1 ctx' w' -> passed ph op (h :: rest) ctx w ctx' w'.

(** The answer of the hook that stopped the chain, as the caller sees it. *)
Definition stopped_before (h : HookModule) (ctx : str) (r : result Verdict HookError)
    : result (Verdict * str * option str) HookError :=
  match r with
  | Ok (Kill reason) => Err (Killed (hook_name h) reason)
  | Ok (Deny reason) => Ok (Deny reason, ctx, Some (hook_name h))
  | Err (Timeout _ ms) => Ok (Deny (timeout_reason ms), ctx, Some (hook_name h))
  | Err e => Err e
  | Ok (Continue _) => Ok (continue_unchanged, ctx, None)
  end.

(** The names counted as invoked, oldest first. *)
Definition invoked (s : State) : list str :=
  map i_hook (List.filter (fun i => match which i with Invocations => true | _ => false end) (counted s)).

Lemma invoked_count c n ph op s :
  invoked (count c n ph op s) = invoked s ++ match c with Invocations => [n] | _ => [] end.
Proof.
  unfold invoked, count. cbn [counted]. rewrite List.filter_app, map_app.
  destruct c; cbn; by rewrite ?app_nil_r.
Qed.

Lemma invoked_world s w : invoked {| world := w; counted := counted s |} = invoked s.
Proof. done. Qed.

(** *** Any loop that goes on as [goes_on] says *)

Section Loop.
Context {B : Type} (ph : Phase) (op : Operation).
Context (loop : list HookModule -> str -> State -> State * result B HookError).
Context (finished : str -> result B HookError).
Context (stopped : HookModule -> str -> result Verdict HookError -> result B HookError).

(** One turn of the loop: the hook is counted as invoked and asked once. *)
Definition steps_like_goes_on : Prop :=
  forall h rest ctx s w a, invoke h (world s) ph op ctx = (w, a) ->
    exists s1, world s1 = w /\ invoked s1 = invoked s ++ [hook_name h] /\
      loop (h :: rest) ctx s = match goes_on ph ctx a with
                               | Some ctx1 => loop rest ctx1 s1
                               | None => (s1, stopped h ctx a)
                               end.

Hypothesis Hnil : forall ctx s, loop [] ctx s = (s, finished ctx).
Hypothesis Hstep : steps_like_goes_on.

(** Either every hook passes, or the first that does not decides; nobody after it is asked. *)
Lemma loop_spec hooks ctx s :
  (exists ctx' s', passed ph op hooks ctx (world s) ctx' (world s') /\
     loop hooks ctx s = (s', finished ctx') /\ invoked s' = invoked s ++ map hook_name hooks) \/
  (exists pre h post ctx1 w1 a s', hooks = pre ++ h :: post /\
     passed ph op pre ctx (world s) ctx1 w1 /\
     invoke h w1 ph op ctx1 = (world s', a) /\ goes_on ph ctx1 a = None /\
     loop hooks ctx s = (s', stopped h ctx1 a) /\
     invoked s' = invoked s ++ map hook_name (pre ++ [h])).
Proof.
  revert ctx s; induction hooks as [|h hooks IH]; intros ctx s.
  { left. exists ctx, s. split_and!; [constructor|done|cbn; by rewrite app_nil_r]. }
  destruct (invoke h (world s) ph op ctx) as [w a] eqn:E.
  destruct (Hstep h hooks ctx s w a E) as (s1 & <- & Hinv & ->).
  destruct (goes_on ph ctx a) as [ctx1|] eqn:Eg.
  - destruct (IH ctx1 s1) as [(ctx' & s' & Hp & -> & Hi)|
      (pre & h' & post & ctx2 & w1 & a' & s' & -> & Hp & Ha & Hg & -> & Hi)]; [left|right].
    + exists ctx', s'. split_and!; [by econstructor|done|]. rewrite Hi, Hinv. by rewrite <- app_assoc.
    + exists (h :: pre), h', post, ctx2, w1, a', s'.
      split_and!; [done|by econstructor|done|done|done|]. rewrite Hi, Hinv. by rewrite <- app_assoc.
  - right. exists [], h, hooks, ctx, (world s), a, s1.
    split_and!; [done|constructor|done|done|done|done].
Qed.
End Loop.

Lemma before_steps op : steps_like_goes_on Before op (before_loop op) stopped_before.
Proof.
  intros h rest ctx s w a E. cbn [before_loop]. unfold call_hook. cbn [world count]. rewrite E.
  set (s1 := {| world := w; counted := counted (count Invocations (hook_name h) Before op s) |}).
  assert (Hi : invoked s1 = invoked s ++ [hook_name h]) by (unfold s1; by rewrite invoked_world, invoked_count).
  destruct a as [[[m|]|reason|reason]|[]]; cbn [goes_on stopped_before];
    try (by exists s1; split_and!; [done|exact Hi|]);
    (eexists; split_and!; [..|reflexivity]; [done|rewrite !invoked_count, ?app_nil_r; exact Hi]).
Qed.

(** What the after phase reports when a hook stops it: only a kill or a hook failure does. *)
Definition stopped_after (h : HookModule) (ctx : str) (r : result Verdict HookError)
    : result (Verdict * str) HookError :=
  match r with
  | Ok (Kill reason) => Err (Killed (hook_name h) reason)
  | Err e => Err e
  | Ok _ => Ok (continue_unchanged, ctx)
  end.

Lemma after_steps op : steps_like_goes_on After op (after_loop op) stopped_after.
Proof.
  intros h rest ctx s w a E. cbn [after_loop]. unfold call_hook. cbn [world count]. rewrite E.
  set (s1 := {| world := w; counted := counted (count Invocations (hook_name h) After op s) |}).
  assert (Hi : invoked s1 = invoked s ++ [hook_name h]) by (unfold s1; by rewrite invoked_world, invoked_count).
  destruct a as [[[m|]|reason|reason]|[]]; cbn [goes_on stopped_after];
    try (by exists s1; split_and!; [done|exact Hi|]);
    (eexists; split_and!; [..|reflexivity]; [done|rewrite !invoked_count, ?app_nil_r; exact Hi]).
Qed.

(** *** The chain of an operation *)

Lemma chain_of_add p op op' h :
  chain_of (add p op h) op' =
  if decide (op' = op) then Some (unwrap_or (chain_of p op) [] ++ [h]) else chain_of p op'.
Proof.
  induction p as [|[op1 c] p IH]; unfold chain_of in *; cbn [add List.find].
  - cbn [List.find fst]. destruct (decide (op' = op)) as [->|Hne];
      [by rewrite bool_decide_true|by rewrite bool_decide_false by congruence].
  - destruct (decide (op1 = op)) as [->|Hne]; cbn [List.find fst].
    + destruct (decide (op' = op)) as [->|Hne']; [by rewrite !bool_decide_true|].
      rewrite !(bool_decide_false (op = op')) by congruence. done.
    + destruct (decide (op1 = op')) as [->|Hne']; [rewrite bool_decide_true by done|rewrite bool_decide_false by done].
      * by rewrite decide_False.
      * rewrite IH. rewrite (bool_decide_false (op1 = op)) by done. done.
Qed.
End Hooks.

Arguments HookModule : clear implicits.
Arguments State : clear implicits.
Arguments HookPipeline : clear implicits.

(** Before an operation the first refusal wins: either every hook of the chain is asked, in
    order, each on the context its predecessor left, and the operation may continue with the last
    context; or the first hook that denies, kills, times out or fails decides, none after it is
    asked, and a timeout counts as a denial. *)
Theorem before_first_stop_wins {W : Type} (p : HookPipeline W) op ctx s :
  let hooks := unwrap_or (chain_of p op) [] in
  let '(s', r) := run_before_attributed p op ctx s in
  (exists ctx', passed Before op hooks ctx (world s) ctx' (world s') /\
     r = Ok (continue_unchanged, ctx', None) /\ invoked s' = invoked s ++ map hook_name hooks) \/
  (exists pre h post ctx1 w1 a, hooks = pre ++ h :: post /\
     passed Before op pre ctx (world s) ctx1 w1 /\ invoke h w1 Before op ctx1 = (world s', a) /\
     invoked s' = invoked s ++ map hook_name (pre ++ [h]) /\
     match a with
     | Ok (Continue _) => False
     | Ok (Deny reason) => r = Ok (Deny reason, ctx1, Some (hook_name h))
     | Ok (Kill reason) => r = Err (Killed (hook_name h) reason)
     | Err (Timeout _ ms) => r = Ok (Deny (timeout_reason ms), ctx1, Some (hook_name h))
     | Err e => r = Err e
     end).
Proof.
  unfold run_before_attributed. destruct (chain_of p op) as [hooks|]; cbn [unwrap_or]; cbv zeta.
  - destruct (loop_spec Before op (before_loop op) _ stopped_before (fun _ _ => eq_refl)
      (before_steps op) hooks ctx s) as [(ctx' & s' & Hp & -> & Hi)|
      (pre & h & post & ctx1 & w1 & a & s' & -> & Hp & Ha & Hg & -> & Hi)]; [left; by eauto|right].
    exists pre, h, post, ctx1, w1, a. split_and!; try done.
    by destruct a as [[[]| |]|[]].
  - left. exists ctx. split_and!; [constructor|done|cbn; by rewrite app_nil_r].
Qed.

(** After an operation the chain runs backwards and cannot refuse: every hook is asked in reverse
    order, denials and timeouts included in what goes on, so the result is always to continue,
    unless a hook kills the agent or fails, which is reported as that error. *)
Theorem after_reversed_fail_open {W : Type} (p : HookPipeline W) op ctx s :
  let hooks := rev (unwrap_or (chain_of p op) []) in
  let '(s', r) := run_after p op ctx s in
  (exists ctx', passed After op hooks ctx (world s) ctx' (world s') /\
     r = Ok (continue_unchanged, ctx') /\ invoked s' = invoked s ++ map hook_name hooks) \/
  (exists pre h post ctx1 w1 a, hooks = pre ++ h :: post /\
     passed After op pre ctx (world s) ctx1 w1 /\ invoke h w1 After op ctx1 = (world s', a) /\
     invoked s' = invoked s ++ map hook_name (pre ++ [h]) /\
     ((exists reason, a = Ok (Kill reason) /\ r = Err (Killed (hook_name h) reason)) \/
      (exists e, a = Err e /\ (forall n ms, e <> Timeout n ms) /\ r = Err e))).
Proof.
  unfold run_after. destruct (chain_of p op) as [hooks|]; cbn [unwrap_or]; cbv zeta.
  - destruct (loop_spec After op (after_loop op) _ stopped_after (fun _ _ => eq_refl)
      (after_steps op) (rev hooks) ctx s) as [(ctx' & s' & Hp & -> & Hi)|
      (pre & h & post & ctx1 & w1 & a & s' & Eh & Hp & Ha & Hg & -> & Hi)]; [left; by eauto|right].
    exists pre, h, post, ctx1, w1, a. split_and!; try done.
    destruct a as [[[]| |]|[]]; cbn in *; try done; [left; eauto|right; eexists; split_and!; done..].
  - left. exists ctx. split_and!; [constructor|done|cbn; by rewrite app_nil_r].
Qed.
