(* ===== verification/Context.v ===== *)
(** * Context compaction

    Models [crates/simulacra-context/src/lib.rs], [budget.rs], [sliding_window.rs] and
    [observation_masking.rs], and the messages of [crates/simulacra-types/src/message.rs].  The BPE
    encoder (tiktoken) and [serde_json::Value] are parameters: what a text encodes to, what a list of
    tokens decodes to, how a value prints and what its "type" string is.  [u64] sums of token counts
    are natural numbers: a transcript would need 2^64 tokens to overflow one; the saturating
    operations are written out. *)

From S2P Require Import Prelude.

Variant Role := System | User | Assistant | Tool.

#[export] Instance Role_eq_dec : EqDecision Role.
Proof. solve_decision. Defined.

(** [u64::saturating_add]. *)
Definition u64_max : N := 18446744073709551615.
Definition saturating_add (a b : N) : N := N.min u64_max (a + b)%N.

Section Context_.
Context {Value : Type}.

Record ToolCallMessage := { tc_id : str; tc_name : str; tc_arguments : Value }.
Record ProviderContentBlock := { pc_provider : str; pc_value : Value }.

Record Message := {
  role : Role;
  content : str;
  tool_calls : list ToolCallMessage;
  tool_call_id : option str;
  provider_content : list ProviderContentBlock;
}.

Definition set_content (m : Message) (c : str) : Message :=
  {| role := role m; content := c; tool_calls := tool_calls m; tool_call_id := tool_call_id m;
     provider_content := provider_content m |}.

Definition is_role (r : Role) (m : Message) : bool := bool_decide (role m = r).

(** What [serde_json::Value] and the encoder do: [to_string], [get("type")] as a string, and
    [encode_with_special_tokens] and [decode]. *)
Context (value_to_string : Value -> str) (value_type : Value -> option str).
Context (encode : str -> list N) (decode : list N -> option str).

Definition count_tokens (text : str) : N := N.of_nat (length (encode text)).

Definition nsum (l : list N) : N := fold_right N.add 0%N l.

Definition message_tokens (m : Message) (image_tokens : N) : N :=
  (count_tokens (content m)
   + nsum (map (fun c => count_tokens (tc_id c) + count_tokens (tc_name c)
                         + count_tokens (value_to_string (tc_arguments c))) (tool_calls m))
   + match tool_call_id m with Some id => count_tokens id | None => 0 end
   + nsum (map (fun b => count_tokens (pc_provider b)
                         + (if bool_decide (value_type (pc_value b) = Some (lit "image"))
                            then image_tokens
                            else count_tokens (value_to_string (pc_value b)))) (provider_content m)))%N.

Definition IMAGE_BLOCK_TOKENS : N := 4800.

Definition immutable_tokens (m : Message) (image_tokens : N) : N :=
  (message_tokens m image_tokens - count_tokens (content m))%N.

(** ** [budget.rs] *)

(** The number of [Role::Tool] messages a list starts with. *)
Fixpoint tool_run (l : list Message) : nat :=
  match l with
  | m :: l' => if is_role Tool m then S (tool_run l') else 0
  | [] => 0
  end.

Definition adjust_tool_boundary (msgs : list Message) (start : nat) : nat :=
  (start + tool_run (skipn start msgs))%nat.

Definition kept_window_start (msgs : list Message) (start : nat) : nat :=
  let adjusted := adjust_tool_boundary msgs start in
  match rposition (is_role User) msgs with
  | Some last_user => Nat.min adjusted last_user
  | None => adjusted
  end.

(** Walk back over tool results to the message that owns them. *)
Fixpoint exchange_owner (msgs : list Message) (owner : nat) : nat :=
  match owner with
  | 0%nat => 0%nat
  | S owner' =>
      match msgs !! owner with
      | Some m => if is_role Tool m then exchange_owner msgs owner' else owner
      | None => owner
      end
  end.

Definition exchange_edge (msgs : list Message) (head_end : nat) : nat :=
  if (head_end =? 0)%nat || (length msgs <? head_end)%nat then head_end
  else
    let owner := exchange_owner msgs (head_end - 1) in
    match msgs !! owner with
    | Some m =>
        match tool_calls m with
        | [] => head_end
        | _ => (head_end + tool_run (skipn head_end msgs))%nat
        end
    | None => head_end
    end.

Definition MIN_KEPT_CONTENT_TOKENS : N := 64.

Definition elided_marker (original_len : nat) : str :=
  "[output elided — " ++ dec (N.of_nat original_len) ++ " chars]".

Definition truncate_to_tokens (text : str) (target_tokens : N) : str :=
  let tokens := encode text in
  if (N.of_nat (length tokens) <=? target_tokens)%N then text
  else
    let newline := [ascii_of_nat 10] in
    let marker := newline ++ "[…truncated — " ++ dec (N.of_nat (length text)) ++ " chars total]" in
    let marker_tokens := N.of_nat (length (encode marker)) in
    if (target_tokens <=? marker_tokens)%N then marker
    else
      let keep := N.to_nat (target_tokens - marker_tokens) in
      unwrap_or (decode (firstn keep tokens)) [] ++ marker.

Definition normalize_leading (messages : list Message) (fixed_head : nat) : list Message :=
  let fixed_head := Nat.min fixed_head (length messages) in
  match position (is_role User) (skipn fixed_head messages) with
  | None => messages
  | Some rel_user =>
      if (0 <? rel_user)%nat
      then firstn fixed_head messages ++ skipn (fixed_head + rel_user) messages
      else messages
  end.

(** The variables the passes share: the messages, their costs and the running total. *)
Record Budget := { messages : list Message; costs : list N; total : N }.

(** [messages\[i\].content = c], with the cost and the total updated. *)
Definition replace_content (b : Budget) (i : nat) (c : str) (image_tokens : N) : Budget :=
  match messages b !! i with
  | None => b
  | Some m =>
      let m := set_content m c in
      let new_cost := message_tokens m image_tokens in
      {| messages := <[i := m]> (messages b);
         costs := <[i := new_cost]> (costs b);
         total := (total b - nth i (costs b) 0 + new_cost)%N |}
  end.

(** Pass 1, one index. *)
Definition elide_at (last_tool : option nat) (image_tokens : N) (b : Budget) (i : nat) : Budget :=
  match messages b !! i with
  | None => b
  | Some m =>
      if negb (is_role Tool m) || bool_decide (Some i = last_tool)
         || (count_tokens (content m) <=? MIN_KEPT_CONTENT_TOKENS)%N
      then b
      else
        let marker := elided_marker (length (content m)) in
        if (length marker <? length (content m))%nat then replace_content b i marker image_tokens
        else b
  end.

(** Pass 2, one index. *)
Definition truncate_at (token_limit image_tokens : N) (b : Budget) (i : nat) : Budget :=
  match messages b !! i with
  | None => b
  | Some m =>
      if is_role System m then b
      else if (count_tokens (content m) <=? MIN_KEPT_CONTENT_TOKENS)%N then b
      else
        let others := (total b - nth i (costs b) 0)%N in
        let allowance := (token_limit - saturating_add others (immutable_tokens m image_tokens))%N in
        let shrunk := truncate_to_tokens (content m) allowance in
        if negb (str_eqb shrunk []) && (length shrunk <? length (content m))%nat
        then replace_content b i shrunk image_tokens
        else b
  end.

(** [for i in ... { if total <= token_limit { return; } ... }]. *)
Fixpoint pass (step : Budget -> nat -> Budget) (token_limit : N) (is_ : list nat) (b : Budget) : Budget :=
  match is_ with
  | [] => b
  | i :: rest =>
      if (total b <=? token_limit)%N then b else pass step token_limit rest (step b i)
  end.

(** Pass 3: the blocks after the fixed head, as (start, end). *)
Fixpoint blocks_from (fuel : nat) (msgs : list Message) (i : nat) : list (nat * nat) :=
  match fuel with
  | O => []
  | S fuel =>
      match msgs !! i with
      | None => []
      | Some m =>
          let e := match tool_calls m with
                   | [] => (i + 1)%nat
                   | _ => (i + 1 + tool_run (skipn (i + 1) msgs))%nat
                   end in
          (i, e) :: blocks_from fuel msgs e
      end
  end.

Definition mark_dropped (dropped : list bool) (start e : nat) : list bool :=
  imap (fun j d => d || ((start <=? j)%nat && (j <? e)%nat)) dropped.

Fixpoint drop_blocks (token_limit : N) (costs : list N) (last_user : option nat)
    (final_block_start : option nat) (blocks : list (nat * nat)) (dropped : list bool) (total : N)
    : list bool * N :=
  match blocks with
  | [] => (dropped, total)
  | (start, e) :: rest =>
      if (total <=? token_limit)%N then (dropped, total)
      else if bool_decide (Some start = final_block_start) then (dropped, total)
      else if match last_user with
              | Some u => (start <=? u)%nat && (u <? e)%nat
              | None => false
              end
      then drop_blocks token_limit costs last_user final_block_start rest dropped total
      else
        drop_blocks token_limit costs last_user final_block_start rest (mark_dropped dropped start e)
          (total - nsum (firstn (e - start) (skipn start costs)))%N
  end.

Fixpoint retain {A} (l : list A) (dropped : list bool) : list A :=
  match l, dropped with
  | x :: l', d :: dropped' => if d then retain l' dropped' else x :: retain l' dropped'
  | _, _ => []
  end.

Definition drop_pass (token_limit : N) (fixed_head : nat) (b : Budget) : list Message :=
  if (token_limit <? total b)%N then
    let msgs := messages b in
    let last_user := rposition (is_role User) msgs in
    let blocks := blocks_from (length msgs) msgs (Nat.min fixed_head (length msgs)) in
    let final_block_start := option_map fst (last blocks) in
    let '(dropped, _) := drop_blocks token_limit (costs b) last_user final_block_start blocks
                           (replicate (length msgs) false) (total b) in
    if existsb id dropped then normalize_leading (retain msgs dropped) fixed_head else msgs
  else messages b.

Definition enforce_token_budget (msgs : list Message) (token_limit : N) (fixed_head : nat)
    (image_tokens : N) : list Message :=
  let msgs := normalize_leading msgs fixed_head in
  let costs := map (fun m => message_tokens m image_tokens) msgs in
  let b := {| messages := msgs; costs := costs; total := nsum costs |} in
  if (total b <=? token_limit)%N then msgs
  else
    let last_tool := rposition (is_role Tool) msgs in
    let indices := seq 0 (length msgs) in
    let b := pass (elide_at last_tool image_tokens) token_limit indices b in
    let b := pass (truncate_at token_limit image_tokens) token_limit indices b in
    drop_pass token_limit fixed_head b.

(** ** [sliding_window.rs] *)

Record SlidingWindowStrategy := { pinned_prefix : nat; image_tokens : N }.

Definition with_pinned_prefix (n : nat) : SlidingWindowStrategy :=
  {| pinned_prefix := n; image_tokens := IMAGE_BLOCK_TOKENS |}.
Definition sliding_new : SlidingWindowStrategy := with_pinned_prefix 0.
Definition with_image_tokens (s : SlidingWindowStrategy) (tokens : N) : SlidingWindowStrategy :=
  {| pinned_prefix := pinned_prefix s; image_tokens := tokens |}.

(** The backward walk over [rev rest]: the start index that fits the budget. *)
Fixpoint walk_back (image_tokens : N) (rev_rest : list Message) (start : nat) (remaining : N) : nat :=
  match rev_rest with
  | [] => start
  | m :: more =>
      let cost := message_tokens m image_tokens in
      if (remaining <? cost)%N then start
      else walk_back image_tokens more (start - 1) (remaining - cost)
  end.

Definition compact (s : SlidingWindowStrategy) (msgs : list Message) (token_limit : N) : list Message :=
  match msgs with
  | [] => []
  | first :: _ =>
      let offset := if is_role System first then 1%nat else 0%nat in
      let head_end := Nat.min (offset + pinned_prefix s) (length msgs) in
      let head_end := if (0 <? pinned_prefix s)%nat then exchange_edge msgs head_end else head_end in
      let head := firstn head_end msgs in
      let rest := skipn head_end msgs in
      let remaining := fold_left (fun r m => (r - message_tokens m (image_tokens s))%N) head token_limit in
      let start := walk_back (image_tokens s) (rev rest) (length rest) remaining in
      let start := kept_window_start rest start in
      enforce_token_budget (head ++ skipn start rest) token_limit head_end (image_tokens s)
  end.

(** ** [observation_masking.rs] *)

Record ObservationMaskingStrategy := { keep_recent_tool_results : nat; om_image_tokens : N }.

Definition masking_new (keep : nat) : ObservationMaskingStrategy :=
  {| keep_recent_tool_results := keep; om_image_tokens := IMAGE_BLOCK_TOKENS |}.

Definition tool_indices (msgs : list Message) : list nat :=
  omap (fun im => if is_role Tool (im : nat * Message).2 then Some im.1 else None) (imap pair msgs).

Definition mask (s : ObservationMaskingStrategy) (msgs : list Message) : list Message :=
  let indices := tool_indices msgs in
  let cutoff := (length indices - keep_recent_tool_results s)%nat in
  let old := firstn cutoff indices in
  imap (fun i m =>
    if bool_decide (i ∈ old)
    then {| role := Tool; content := elided_marker (length (content m)); tool_calls := tool_calls m;
            tool_call_id := tool_call_id m; provider_content := provider_content m |}
    else m) msgs.

Definition compact_masking (s : ObservationMaskingStrategy) (msgs : list Message) (token_limit : N)
    : list Message :=
  match msgs with
  | [] => []
  | _ =>
      let masked := mask s msgs in
      let total := nsum (map (fun m => message_tokens m (om_image_tokens s)) masked) in
      if (total <=? token_limit)%N then masked
      else
        let '(system, rest, remaining) :=
          match masked with
          | m :: more =>
              if is_role System m then ([m], more, (token_limit - message_tokens m (om_image_tokens s))%N)
              else ([], masked, token_limit)
          | [] => ([], [], token_limit)
          end in
        let start := walk_back (om_image_tokens s) (rev rest) (length rest) remaining in
        let start := kept_window_start rest start in
        enforce_token_budget (system ++ skipn start rest) token_limit (length system) (om_image_tokens s)
  end.

(** ** Exchanges

    What providers accept is stated on exchanges: a message that is not a tool result, with the run
    of tool results that follows it.  Compaction may shrink contents, so transcripts are compared
    without them. *)

Definition erase (m : Message) : Message := set_content m [].
Definition shape (ms : list Message) : list Message := map erase ms.

Definition starts_tool (ms : list Message) : bool :=
  match ms with m :: _ => is_role Tool m | [] => false end.

Fixpoint group (ms : list Message) : list (list Message) :=
  match ms with
  | [] => []
  | m :: rest =>
      if starts_tool rest
      then match group rest with g :: gs => (m :: g) :: gs | [] => [[m]] end
      else [m] :: group rest
  end.

(** A message with its results: results only follow an assistant message that made calls. *)
Definition exchange (g : list Message) : Prop :=
  match g with
  | [] => False
  | m :: results =>
      role m <> Tool /\ Forall (fun r => role r = Tool) results /\
      (results <> [] -> tool_calls m <> []) /\ (tool_calls m <> [] -> role m = Assistant)
  end.

Definition well_paired (ms : list Message) : Prop := Forall exchange (group ms).

Lemma is_role_true r m : is_role r m = true <-> role m = r.
Proof. apply bool_decide_eq_true. Qed.

Lemma is_role_erase r m : is_role r (erase m) = is_role r m.
Proof. done. Qed.

Lemma group_nonempty ms : group ms = [] -> ms = [].
Proof. destruct ms as [|m ms]; [done|]. cbn. destruct (starts_tool ms); [by destruct (group ms)|done]. Qed.

Lemma concat_group ms : concat (group ms) = ms.
Proof.
  induction ms as [|m ms IH]; [done|]. cbn [group]. destruct (starts_tool ms) eqn:E.
  - destruct (group ms) as [|g gs] eqn:Eg; [by apply group_nonempty in Eg as ->|].
    cbn [concat app]. by rewrite <- IH.
  - cbn [concat app]. by rewrite IH.
Qed.

Lemma starts_tool_app a b : a <> [] -> starts_tool (a ++ b) = starts_tool a.
Proof. by destruct a. Qed.

Lemma group_app a b : starts_tool b = false -> group (a ++ b) = group a ++ group b.
Proof.
  intros Hb. induction a as [|m a IH]; [done|]. cbn [group app].
  destruct a as [|m' a].
  - cbn [app group starts_tool]. by rewrite Hb.
  - rewrite starts_tool_app by done. destruct (starts_tool (m' :: a)); [|by rewrite IH].
    rewrite IH. destruct (group (m' :: a)) eqn:Eg; [by apply group_nonempty in Eg|done].
Qed.

Lemma starts_tool_shape ms : starts_tool (shape ms) = starts_tool ms.
Proof. by destruct ms. Qed.

Lemma group_shape ms : group (shape ms) = map shape (group ms).
Proof.
  induction ms as [|m ms IH]; [done|].
  change (shape (m :: ms)) with (erase m :: shape ms). cbn [group]. rewrite starts_tool_shape, IH.
  destruct (starts_tool ms); [by destruct (group ms)|done].
Qed.

Lemma exchange_shape g : exchange (shape g) <-> exchange g.
Proof.
  destruct g as [|m g]; [done|]. change (shape (m :: g)) with (erase m :: shape g).
  cbn [exchange]. assert (shape g <> [] <-> g <> []) as -> by by destruct g.
  unfold shape. rewrite Forall_fmap. done.
Qed.

Lemma well_paired_shape ms : well_paired (shape ms) <-> well_paired ms.
Proof.
  unfold well_paired. rewrite group_shape, Forall_fmap. apply Forall_iff. intros g. apply exchange_shape.
Qed.

Lemma shape_eq_paired ms ms' : shape ms = shape ms' -> well_paired ms -> well_paired ms'.
Proof. intros E H. rewrite <- well_paired_shape, <- E. by apply well_paired_shape. Qed.

Lemma well_paired_app a b : starts_tool b = false -> well_paired (a ++ b) <-> well_paired a /\ well_paired b.
Proof. intros Hb. unfold well_paired. rewrite group_app by done. apply Forall_app. Qed.

(** Groups of exchanges are those of their concatenation. *)
Lemma group_concat gs : Forall exchange gs -> group (concat gs) = gs.
Proof.
  assert (Hone : forall m results, Forall (fun r => role r = Tool) results ->
    group (m :: results) = [m :: results]).
  { intros m results H; revert m. induction H as [|r rs Hr _ IH]; intros m; [done|].
    cbn [group starts_tool]. rewrite (proj2 (is_role_true Tool r) Hr).
    change (if starts_tool rs then _ else _) with (group (r :: rs)). by rewrite IH. }
  induction 1 as [|g gs Hg Hgs IH]; [done|]. cbn [concat]. rewrite group_app.
  - rewrite IH. destruct g as [|m results]; [done|]. destruct Hg as (_ & Hr & _). by rewrite Hone.
  - destruct Hgs as [|[|m' r'] gs' Hg' _]; [done|done|]. cbn [concat app starts_tool]. destruct Hg' as [Hm _].
    apply not_true_iff_false. by rewrite is_role_true.
Qed.

Lemma tool_run_spec l :
  Forall (fun r => role r = Tool) (firstn (tool_run l) l) /\ starts_tool (skipn (tool_run l) l) = false /\
  (tool_run l <= length l)%nat.
Proof.
  induction l as [|m l (IH1 & IH2 & IH3)]; [by split_and!|]. cbn [tool_run].
  destruct (is_role Tool m) eqn:E; cbn [firstn skipn length].
  - split_and!; [constructor; [by apply is_role_true|done]|done|lia].
  - split_and!; [constructor|by cbn|lia].
Qed.

(** The first exchange of a transcript is its first message and the run of results after it. *)
Lemma group_cons m rest :
  group (m :: rest) = (m :: firstn (tool_run rest) rest) :: group (skipn (tool_run rest) rest).
Proof.
  revert m; induction rest as [|r rest IH]; intros m; [done|]. cbn [tool_run].
  destruct (is_role Tool r) eqn:E.
  - change (group (m :: r :: rest)) with
      (if starts_tool (r :: rest) then match group (r :: rest) with g :: gs => (m :: g) :: gs | [] => [[m]] end
       else [m] :: group (r :: rest)).
    cbn [starts_tool]. rewrite E, IH. done.
  - cbn [group starts_tool]. by rewrite E.
Qed.

Lemma well_paired_cons m rest :
  well_paired (m :: rest) <->
  exchange (m :: firstn (tool_run rest) rest) /\ well_paired (skipn (tool_run rest) rest).
Proof. unfold well_paired. by rewrite group_cons, Forall_cons. Qed.

Lemma well_paired_starts ms : well_paired ms -> starts_tool ms = false.
Proof.
  destruct ms as [|m ms]; [done|]. rewrite well_paired_cons. intros [(Hm & _) _].
  cbn [starts_tool]. apply not_true_iff_false. by rewrite is_role_true.
Qed.

(** ** Trimming a tail

    [trims t t']: [t'] is some of the exchanges of [t], in order, and still ends its user turns with
    the same one. *)

Definition last_user_turn (ms : list Message) : option Message := last (List.filter (is_role User) ms).

Definition trims (t t' : list Message) : Prop :=
  sublist (group t') (group t) /\ well_paired t' /\ last_user_turn t' = last_user_turn t.

Lemma trims_refl t : well_paired t -> trims t t.
Proof. done. Qed.

Lemma trims_trans t1 t2 t3 : trims t1 t2 -> trims t2 t3 -> trims t1 t3.
Proof. intros (S1 & _ & U1) (S2 & W2 & U2). split_and!; [by etransitivity|done|congruence]. Qed.

Lemma trims_paired t t' : trims t t' -> well_paired t'.
Proof. by intros (_ & ? & _). Qed.

Lemma last_user_shape l : last_user_turn (shape l) = option_map erase (last_user_turn l).
Proof.
  unfold last_user_turn, shape. rewrite <- (fmap_last erase). f_equal.
  induction l as [|m l IH]; [done|]. cbn [map List.filter]. rewrite is_role_erase, IH.
  by destruct (is_role User m).
Qed.

Lemma trims_shape t t' : trims t t' -> trims (shape t) (shape t').
Proof.
  intros (S1 & W & U). split_and!.
  - rewrite !group_shape. clear -S1. induction S1; cbn; by constructor.
  - by apply well_paired_shape.
  - by rewrite !last_user_shape, U.
Qed.

Lemma last_user_app a b : last_user_turn b <> None -> last_user_turn (a ++ b) = last_user_turn b.
Proof.
  unfold last_user_turn. rewrite List.filter_app, last_app. by destruct (last (List.filter _ b)).
Qed.

Lemma last_user_none a b : List.filter (is_role User) b = [] -> last_user_turn (a ++ b) = last_user_turn a.
Proof. intros H. unfold last_user_turn. by rewrite List.filter_app, H, app_nil_r. Qed.

Lemma last_user_cons m l : is_role User m = true -> last_user_turn (m :: l) <> None.
Proof. intros H. unfold last_user_turn. cbn [List.filter]. rewrite H, last_cons. by destruct (last _). Qed.

Definition drop_to_user (t : list Message) : list Message :=
  match position (is_role User) t with Some r => skipn r t | None => t end.

Lemma normalize_leading_eq ms h : normalize_leading ms h = firstn h ms ++ drop_to_user (skipn h ms).
Proof.
  unfold normalize_leading, drop_to_user. cbv zeta.
  assert (firstn (Nat.min h (length ms)) ms = firstn h ms) as E1.
  { destruct (Nat.le_ge_cases h (length ms)); [by rewrite Nat.min_l|].
    rewrite Nat.min_r, !firstn_all2 by lia. done. }
  assert (skipn (Nat.min h (length ms)) ms = skipn h ms) as E2.
  { destruct (Nat.le_ge_cases h (length ms)); [by rewrite Nat.min_l|].
    rewrite Nat.min_r, !skipn_all2 by lia. done. }
  rewrite E1, E2. destruct (position _ _) as [[|r]|].
  - change (ms = firstn h ms ++ skipn h ms). by rewrite firstn_skipn.
  - change (firstn h ms ++ skipn (Nat.min h (length ms) + S r) ms = firstn h ms ++ skipn (S r) (skipn h ms)).
    f_equal. rewrite <- E2, skipn_skipn. f_equal. lia.
  - by rewrite firstn_skipn.
Qed.

Lemma drop_to_user_trims t : well_paired t -> trims t (drop_to_user t).
Proof.
  intros Hw. unfold drop_to_user. destruct (position _ _) as [r|] eqn:E; [|done].
  apply position_Some in E as (x & b & E1 & -> & Hx & _).
  assert (starts_tool (x :: b) = false) as Hs.
  { apply not_true_iff_false. cbn [starts_tool]. rewrite is_role_true.
    apply is_role_true in Hx. congruence. }
  rewrite E1 in Hw |- *. apply well_paired_app in Hw as [_ Hw]; [|done].
  split_and!; [|done|].
  - rewrite group_app by done. by apply sublist_inserts_l.
  - rewrite last_user_app; [done|by apply last_user_cons].
Qed.

(** After the cut the tail starts with a user turn, if it has one. *)
Lemma drop_to_user_first t :
  last_user_turn t <> None -> exists m t', drop_to_user t = m :: t' /\ role m = User.
Proof.
  intros Hu. unfold drop_to_user. destruct (position _ _) as [r|] eqn:E.
  - apply position_Some in E as (x & b & _ & -> & Hx & _). exists x, b. by apply is_role_true in Hx.
  - apply position_None in E. destruct Hu. unfold last_user_turn.
    assert (List.filter (is_role User) t = []) as ->; [|done].
    induction E as [|y l Hy _ IH]; [done|]. cbn. by rewrite Hy.
Qed.

(** ** The shrinking passes *)

(** The costs and the total are those of the messages. *)
Definition accounts (img : N) (b : Budget) : Prop :=
  costs b = map (fun m => message_tokens m img) (messages b) /\ total b = nsum (costs b).

Definition cost_of (img : N) (ms : list Message) : N := nsum (map (fun m => message_tokens m img) ms).

Lemma nsum_cons x l : nsum (x :: l) = (x + nsum l)%N.
Proof. done. Qed.

Lemma nsum_app a b : nsum (a ++ b) = (nsum a + nsum b)%N.
Proof. induction a as [|x a IH]; [done|]. cbn [app]. rewrite !nsum_cons, IH. lia. Qed.

Lemma cost_of_app img a b : cost_of img (a ++ b) = (cost_of img a + cost_of img b)%N.
Proof. unfold cost_of. by rewrite map_app, nsum_app. Qed.

Lemma nsum_elem l i y : l !! i = Some y -> (y <= nsum l)%N.
Proof.
  revert i; induction l as [|w l IH]; intros [|i] H; try done; cbn in H; rewrite nsum_cons.
  - injection H as ->. lia.
  - specialize (IH i H). lia.
Qed.

Lemma nsum_insert l i x y : l !! i = Some y -> nsum (<[i := x]> l) = (nsum l - y + x)%N.
Proof.
  revert i; induction l as [|z l IH]; intros [|i] H; try done; cbn in H.
  - injection H as ->. change (<[0%nat := x]> (y :: l)) with (x :: l). rewrite !nsum_cons. lia.
  - change (<[S i := x]> (z :: l)) with (z :: <[i := x]> l). rewrite !nsum_cons, (IH i H).
    apply nsum_elem in H. lia.
Qed.

(** A step that changes at most one message's content, and accounts for it. *)
Definition shrinks (img : N) (b b' : Budget) : Prop :=
  shape (messages b') = shape (messages b) /\ (accounts img b -> accounts img b').

Lemma replace_content_shrinks img b i c : shrinks img b (replace_content b i c img).
Proof.
  unfold replace_content. destruct (messages b !! i) as [m|] eqn:E; [|done].
  split; cbn [messages costs total].
  - unfold shape. rewrite (list_fmap_insert erase). apply list_insert_id.
    by rewrite list_lookup_fmap, E.
  - intros [Hc Ht]. split; cbn [messages costs total].
    + by rewrite Hc, (list_fmap_insert (fun m => message_tokens m img)).
    + assert (Hi : costs b !! i = Some (message_tokens m img)) by (rewrite Hc; by rewrite list_lookup_fmap, E).
      by rewrite (nsum_insert _ i _ _ Hi), Ht, (nth_lookup_Some _ _ _ _ Hi).
Qed.

Lemma elide_at_shrinks lt img b i : shrinks img b (elide_at lt img b i).
Proof.
  unfold elide_at. destruct (messages b !! i); [|done]. destruct (_ || _); [done|].
  destruct (_ <? _)%nat; [apply replace_content_shrinks|done].
Qed.

Lemma truncate_at_shrinks limit img b i : shrinks img b (truncate_at limit img b i).
Proof.
  unfold truncate_at. destruct (messages b !! i); [|done]. destruct (is_role _ _); [done|].
  destruct (_ <=? _)%N; [done|]. cbv zeta. destruct (_ && _); [apply replace_content_shrinks|done].
Qed.

Lemma pass_shrinks img step limit is_ b :
  (forall b i, shrinks img b (step b i)) -> shrinks img b (pass step limit is_ b).
Proof.
  intros Hstep; revert b; induction is_ as [|i is_ IH]; intros b; cbn [pass]; [done|].
  destruct (_ <=? _)%N; [done|]. destruct (Hstep b i) as [E1 A1], (IH (step b i)) as [E2 A2].
  split; [congruence|auto].
Qed.

(** ** The block pass *)

Fixpoint spans (i : nat) (gs : list (list Message)) : list (nat * nat) :=
  match gs with
  | [] => []
  | g :: gs' => (i, (i + length g)%nat) :: spans (i + length g) gs'
  end.

Lemma blocks_from_spans fuel ms i :
  (length (skipn i ms) <= fuel)%nat -> well_paired (skipn i ms) ->
  blocks_from fuel ms i = spans i (group (skipn i ms)).
Proof.
  revert i; induction fuel as [|fuel IH]; intros i Hlen Hw.
  { destruct (skipn i ms); [done|cbn in Hlen; lia]. }
  cbn [blocks_from]. destruct (skipn i ms) as [|m rest] eqn:E.
  { assert (ms !! i = None) as ->; [|done]. rewrite <- (Nat.add_0_r i), <- lookup_drop. by rewrite E. }
  assert (ms !! i = Some m) as ->.
  { rewrite <- (Nat.add_0_r i), <- lookup_drop. by rewrite E. }
  assert (Er : skipn (i + 1) ms = rest) by (rewrite Nat.add_comm, <- skipn_skipn, E; done).
  rewrite Er, group_cons. cbn [spans length]. apply well_paired_cons in Hw as [Hx Hw].
  pose proof (tool_run_spec rest) as (_ & _ & Hk).
  assert (He : match tool_calls m with [] => (i + 1)%nat | _ => (i + 1 + tool_run rest)%nat end
               = (i + S (length (firstn (tool_run rest) rest)))%nat).
  { rewrite length_firstn, Nat.min_l by done. destruct (tool_calls m) eqn:Ec; [|lia].
    destruct Hx as (_ & _ & Hc & _). destruct (tool_run rest) as [|k] eqn:Ek; [lia|exfalso].
    destruct rest as [|r rest']; [cbn in Hk; lia|]. by apply Hc. }
  rewrite He. f_equal. rewrite length_firstn, Nat.min_l by done.
  assert (Es : skipn (i + S (tool_run rest)) ms = skipn (tool_run rest) rest).
  { rewrite <- Er, skipn_skipn. f_equal. lia. }
  rewrite IH, Es; [done| |by rewrite Es]. rewrite Es, length_skipn. cbn in Hlen. lia.
Qed.

(** The marks of a choice of groups to drop. *)
Definition expand (gs : list (list Message)) (ds : list bool) : list bool :=
  concat (zip_with (fun g d => replicate (length g) d) gs ds).

Lemma retain_app {A} (a b : list A) da db :
  length a = length da -> retain (a ++ b) (da ++ db) = retain a da ++ retain b db.
Proof.
  revert da; induction a as [|x a IH]; intros [|d da] E; try done. cbn in *.
  injection E as E. destruct d; cbn; by rewrite IH.
Qed.

Lemma retain_replicate {A} (l : list A) d :
  retain l (replicate (length l) d) = if d then [] else l.
Proof. induction l as [|x l IH]; [by destruct d|]. cbn. rewrite IH. by destruct d. Qed.

Lemma retain_sublist {A} (l : list A) ds : sublist (retain l ds) l.
Proof.
  revert ds; induction l as [|x l IH]; intros [|[] ds]; cbn; try constructor; auto.
  apply sublist_nil_l.
Qed.

Lemma retain_expand gs ds :
  length ds = length gs -> retain (concat gs) (expand gs ds) = concat (retain gs ds).
Proof.
  revert ds; induction gs as [|g gs IH]; intros [|d ds] E; try done. injection E as E.
  unfold expand in *. cbn [concat zip_with retain]. rewrite retain_app by by rewrite length_replicate.
  rewrite IH, retain_replicate by done. by destruct d.
Qed.

Lemma length_expand gs ds : length ds = length gs -> length (expand gs ds) = length (concat gs).
Proof.
  revert ds; induction gs as [|g gs IH]; intros [|d ds] E; try done. unfold expand in *.
  cbn [concat zip_with]. rewrite !length_app, length_replicate. f_equal. apply IH. by injection E.
Qed.

Lemma mark_dropped_eq D n k :
  (k <= n)%nat ->
  mark_dropped (D ++ replicate n false) (length D) (length D + k)
  = D ++ replicate k true ++ replicate (n - k) false.
Proof.
  intros Hk. unfold mark_dropped. apply list_eq. intros j. rewrite list_lookup_imap.
  assert (Hm : forall d, d || ((length D <=? j)%nat && (j <? length D + k)%nat) =
                 (d || (bool_decide (length D <= j)%nat && bool_decide (j < length D + k)%nat))).
  { intros d. do 2 f_equal; [destruct (Nat.leb_spec (length D) j)|destruct (Nat.ltb_spec j (length D + k))];
      symmetry; try (by apply bool_decide_eq_true); apply bool_decide_eq_false; lia. }
  destruct (decide (j < length D)) as [Hj|Hj].
  { rewrite !lookup_app_l by done. destruct (lookup_lt_is_Some_2 D j Hj) as [d ->].
    cbn [fmap option_fmap option_map]. rewrite Hm, bool_decide_false by lia. by rewrite orb_false_r. }
  rewrite !lookup_app_r by lia. destruct (decide (j - length D < k)) as [Hin|Hin].
  - rewrite lookup_app_l by by rewrite length_replicate. rewrite !lookup_replicate_2 by lia.
    cbn [fmap option_fmap option_map]. by rewrite Hm, !bool_decide_true by lia.
  - rewrite lookup_app_r by (rewrite length_replicate; lia). rewrite length_replicate.
    destruct (decide (j - length D < n)) as [Hn|Hn].
    + rewrite !lookup_replicate_2 by lia. cbn [fmap option_fmap option_map].
      by rewrite Hm, (bool_decide_false (j < _)), andb_false_r by lia.
    + rewrite !lookup_ge_None_2; [done|rewrite length_replicate; lia..].
Qed.

Definition user_weight (i : nat) (u : option nat) : nat :=
  match u with Some x => if (i <=? x)%nat then 1 else 0 | None => 0 end.

Lemma user_weight_mono i j u : (i <= j)%nat -> (user_weight j u <= user_weight i u)%nat.
Proof.
  intros H. destruct u as [x|]; [|done]. cbn [user_weight].
  destruct (Nat.leb_spec j x), (Nat.leb_spec i x); lia.
Qed.

Lemma expand_false gs : expand gs (replicate (length gs) false) = replicate (length (concat gs)) false.
Proof.
  induction gs as [|g gs IH]; [done|]. unfold expand in *. cbn [length replicate zip_with concat].
  by rewrite IH, length_app, replicate_add.
Qed.

Lemma span_cost img (P g rest : list Message) :
  nsum (firstn (length g) (skipn (length P) (map (fun m => message_tokens m img) (P ++ g ++ rest)))) =
  cost_of img g.
Proof.
  rewrite !map_app. set (c := map (fun m => message_tokens m img)).
  assert (Hc : forall l, length (c l) = length l) by (intros l; apply length_map).
  rewrite <- (Hc P), <- (Hc g), drop_app_length, take_app_length. done.
Qed.

(** What the loop over the blocks keeps: every group but those it marks, the final one always; in
    the end it is within the limit or keeps at most the user's group besides the final one. *)
Definition drop_outcome (limit img : N) (u : option nat) (init : list (list Message)) (gl : list Message)
    (D : list bool) (K : N) (res : list bool * N) : Prop :=
  exists ds, length ds = length init /\
    res = (D ++ expand (init ++ [gl]) (ds ++ [false]), (K + cost_of img (concat (retain init ds ++ [gl])))%N) /\
    ((K + cost_of img (concat (retain init ds ++ [gl])) <= limit)%N \/
     (length (retain init ds) <= user_weight (length D) u)%nat) /\
    (forall pre g post x, init = pre ++ g :: post -> u = Some x ->
       (length D + length (concat pre) <= x < length D + length (concat pre) + length g)%nat ->
       ds !! length pre = Some false).

Lemma drop_outcome_cons limit img u g init gl D K (d : bool) res :
  g <> [] ->
  drop_outcome limit img u init gl (D ++ replicate (length g) d) (if d then K else K + cost_of img g) res ->
  (d = true -> forall x, u = Some x -> ~ (length D <= x < length D + length g)%nat) ->
  (d = false -> exists x, u = Some x /\ (length D <= x < length D + length g)%nat) ->
  drop_outcome limit img u (g :: init) gl D K res.
Proof.
  intros Hg (ds & El & -> & Hb & Hu) Ht Hf. exists (d :: ds). split_and!.
  - cbn. by rewrite El.
  - rewrite <- app_assoc. unfold expand. cbn [app zip_with concat retain]. f_equal.
    destruct d; [done|]. cbn [app concat]. rewrite cost_of_app. lia.
  - rewrite length_app, length_replicate in Hb. destruct d; cbn [retain app concat length].
    + destruct Hb as [|Hb]; [by left|right]. etransitivity; [exact Hb|]. apply user_weight_mono. lia.
    + destruct (Hf eq_refl) as (x & -> & Hx). rewrite cost_of_app. destruct Hb as [Hb|Hb]; [left; lia|right].
      cbn [user_weight] in *. destruct (Nat.leb_spec (length D) x); [|lia].
      destruct (Nat.leb_spec (length D + length g) x); lia.
  - intros [|g' pre] g0 post x E Ex Hx.
    + injection E as -> ->. cbn [concat length] in Hx. destruct d; [|done].
      exfalso. apply (Ht eq_refl x Ex). lia.
    + injection E as -> ->. cbn [length lookup]. cbn [concat] in Hx. rewrite length_app in Hx.
      apply (Hu pre g0 post x); [done|done|]. rewrite length_app, length_replicate. lia.
Qed.

Lemma drop_blocks_spec limit img u init gl D (P : list Message) K :
  Forall (fun g => g <> []) (init ++ [gl]) -> length P = length D ->
  drop_outcome limit img u init gl D K
    (drop_blocks limit (map (fun m => message_tokens m img) (P ++ concat (init ++ [gl]))) u
       (Some (length D + length (concat init))%nat) (spans (length D) (init ++ [gl]))
       (D ++ replicate (length (concat (init ++ [gl]))) false) (K + cost_of img (concat (init ++ [gl])))).
Proof.
  revert D P K; induction init as [|g init IH]; intros D P K Hne HP.
  - cbn [app spans drop_blocks concat length]. exists []. rewrite bool_decide_true by (f_equal; lia).
    assert (forall b : bool, (if b then (D ++ replicate (length (gl ++ [])) false, (K + cost_of img (gl ++ []))%N)
      else (D ++ replicate (length (gl ++ [])) false, (K + cost_of img (gl ++ []))%N)) =
      (D ++ expand ([] ++ [gl]) ([] ++ [false]), (K + cost_of img (concat ([] ++ [gl])))%N)) as Hb.
    { intros b. unfold expand. cbn. rewrite !app_nil_r. by destruct b. }
    split_and!; [done|apply Hb|right; cbn; lia|]. intros [|? ?] g post x E; done.
  - pose proof Hne as Hne'. inversion Hne' as [|? ? Hg Hrest]; subst. cbn [app spans drop_blocks].
    destruct (N.leb_spec (K + cost_of img (concat (g :: init ++ [gl]))) limit) as [Hle|Hgt].
    { exists (replicate (length (g :: init)) false).
      assert (Hr : retain (g :: init) (replicate (length (g :: init)) false) = g :: init)
        by apply (retain_replicate (g :: init) false). rewrite Hr. split_and!.
      - apply length_replicate.
      - rewrite <- expand_false. f_equal. f_equal.
        change (g :: init ++ [gl]) with ((g :: init) ++ [gl]). rewrite length_app, replicate_add. done.
      - by left.
      - intros pre g0 post x E _ _. apply lookup_replicate_2. rewrite E, length_app. cbn. lia. }
    rewrite bool_decide_false.
    2: { intros [= E]. cbn [concat] in E. rewrite length_app in E. destruct g; [done|cbn in E; lia]. }
    destruct (match u with Some x => _ | None => false end) eqn:Eu.
    + destruct u as [x|]; [|done]. apply andb_true_iff in Eu as [E1%Nat.leb_le E2%Nat.ltb_lt].
      apply (drop_outcome_cons _ _ _ _ _ _ _ _ false); [done| |done|by exists x].
      specialize (IH (D ++ replicate (length g) false) (P ++ g) (K + cost_of img g)%N Hrest).
      cbn [concat] in *. rewrite !length_app, ?length_replicate in *.
      rewrite <- !app_assoc, cost_of_app, N.add_assoc, replicate_add in *.
      replace (length D + length g + length (concat init))%nat
        with (length D + (length g + length (concat init)))%nat in IH by lia.
      apply IH. lia.
    + apply (drop_outcome_cons _ _ _ _ _ _ _ _ true); [done| | |done].
      * specialize (IH (D ++ replicate (length g) true) (P ++ g) K Hrest).
        cbn [concat] in *. rewrite mark_dropped_eq by (rewrite length_app; lia).
        assert (Hcost : nsum (firstn (length D + length g - length D) (skipn (length D)
          (map (fun m => message_tokens m img) (P ++ g ++ concat (init ++ [gl]))))) = cost_of img g).
        { rewrite <- HP. replace (length P + length g - length P)%nat with (length g) by lia.
          apply span_cost. }
        rewrite Hcost, cost_of_app.
        replace (K + (cost_of img g + cost_of img (concat (init ++ [gl]))) - cost_of img g)%N
          with (K + cost_of img (concat (init ++ [gl])))%N by lia.
        rewrite !length_app, ?length_replicate in *. rewrite <- !app_assoc in IH.
        replace (length D + length g + length (concat init))%nat
          with (length D + (length g + length (concat init)))%nat in IH by lia.
        replace (length g + length (concat (init ++ [gl])) - length g)%nat
          with (length (concat (init ++ [gl]))) by lia.
        apply IH. lia.
      * intros _ x ->. apply andb_false_iff in Eu as [E%Nat.leb_gt|E%Nat.ltb_ge]; lia.
Qed.

(** *** The last user turn survives the block pass *)

Definition no_user (l : list Message) : Prop := Forall (fun m => is_role User m = false) l.

Lemma no_user_filter l : no_user l -> List.filter (is_role User) l = [].
Proof. induction 1 as [|m l Hm _ IH]; [done|]. cbn. by rewrite Hm. Qed.

Lemma no_user_concat gs gs' : sublist gs' gs -> no_user (concat gs) -> no_user (concat gs').
Proof.
  unfold no_user. induction 1; cbn [concat]; [done|..]; rewrite ?Forall_app; [|tauto].
  intros [? ?]; auto.
Qed.

Lemma last_user_mid a g b :
  last_user_turn g <> None -> no_user b -> last_user_turn (a ++ g ++ b) = last_user_turn g.
Proof.
  intros Hg Hb. rewrite app_assoc, last_user_none by by apply no_user_filter. by apply last_user_app.
Qed.

(** The element at an index of a concatenation, in its group. *)
Lemma concat_split {A} (gs : list (list A)) a y b :
  concat gs = a ++ y :: b ->
  exists pre g1 g2 post, gs = pre ++ (g1 ++ y :: g2) :: post /\ a = concat pre ++ g1 /\ b = g2 ++ concat post.
Proof.
  revert a; induction gs as [|g gs IH]; intros a E; [by destruct a|]. cbn [concat] in E.
  destruct (decide (length a < length g)%nat) as [Hlt|Hge].
  - assert (exists g2, g = a ++ y :: g2 /\ b = g2 ++ concat gs) as (g2 & -> & ->).
    { clear -E Hlt. revert a E Hlt; induction g as [|z g IH]; intros [|w a] E Hlt; cbn in *; try lia.
      - injection E as -> <-. by exists g.
      - injection E as -> E. destruct (IH a E) as (g2 & -> & ->); [lia|]. by exists g2. }
    by exists [], a, g2, gs.
  - assert (exists a', a = g ++ a' /\ concat gs = a' ++ y :: b) as (a' & -> & E').
    { clear -E Hge. revert a E Hge; induction g as [|z g IH]; intros a E Hge; cbn in *; [by exists a|].
      destruct a as [|w a]; cbn in *; [lia|]. injection E as -> E.
      destruct (IH a E) as (a' & -> & E'); [lia|]. by exists a'. }
    destruct (IH a' E') as (pre & g1 & g2 & post & -> & -> & ->).
    exists (g :: pre), g1, g2, post. cbn [concat app]. by rewrite app_assoc.
Qed.

Lemma kept_last_user (P : list Message) init gl ds :
  length ds = length init ->
  (forall pre g post x, init = pre ++ g :: post ->
     rposition (is_role User) (P ++ concat (init ++ [gl])) = Some x ->
     (length P + length (concat pre) <= x < length P + length (concat pre) + length g)%nat ->
     ds !! length pre = Some false) ->
  last_user_turn (concat (retain init ds ++ [gl])) = last_user_turn (concat (init ++ [gl])).
Proof.
  intros El Hu. set (gs := init ++ [gl]) in *.
  assert (Hsub : sublist (retain init ds ++ [gl]) gs) by (apply sublist_app; [apply retain_sublist|done]).
  assert (Hnone : no_user (concat gs) ->
    last_user_turn (concat (retain init ds ++ [gl])) = last_user_turn (concat gs)).
  { intros Hn. unfold last_user_turn. rewrite !no_user_filter; [done|done|]. by eapply no_user_concat. }
  destruct (rposition _ _) as [x|] eqn:E; [|apply rposition_None, Forall_app in E as [_ E]; by apply Hnone].
  apply rposition_Some in E as (a & y & b & E & <- & Hy & Hb).
  destruct (decide (length P <= length a)%nat) as [Hle|Hgt].
  2: { apply Hnone. apply (f_equal (skipn (length P))) in E. rewrite drop_app_length in E. rewrite E.
       rewrite skipn_app, skipn_all2 by lia. cbn [app].
       destruct (length P - length a)%nat as [|k] eqn:Ek; [lia|]. cbn [skipn]. by apply Forall_drop. }
  assert (exists a', a = P ++ a' /\ concat gs = a' ++ y :: b) as (a' & -> & E').
  { exists (skipn (length P) a). pose proof (f_equal (firstn (length P)) E) as E1.
    pose proof (f_equal (skipn (length P)) E) as E2. rewrite take_app_length in E1.
    rewrite drop_app_length in E2. rewrite firstn_app in E1. rewrite skipn_app in E2.
    replace (length P - length a)%nat with 0%nat in * by lia. cbn [firstn skipn] in *.
    rewrite app_nil_r in E1. split; [|done]. rewrite E1 at 1. by rewrite firstn_skipn. }
  apply concat_split in E' as (pre & g1 & g2 & post & Egs & -> & ->).
  assert (Hg : last_user_turn (g1 ++ y :: g2) <> None)
    by (rewrite last_user_app; by apply last_user_cons).
  apply Forall_app in Hb as [_ Hpost]. fold (no_user (concat post)) in Hpost.
  assert (last_user_turn (concat gs) = last_user_turn (g1 ++ y :: g2)) as ->
    by (rewrite Egs, concat_app; by apply last_user_mid).
  destruct post as [|p post] using rev_ind.
  - unfold gs in Egs. apply app_inj_tail in Egs as [_ ->].
    rewrite concat_app. cbn [concat]. by rewrite last_user_mid.
  - clear IHpost. unfold gs in Egs. rewrite app_comm_cons, app_assoc in Egs.
    apply app_inj_tail in Egs as [-> ->].
    specialize (Hu pre (g1 ++ y :: g2) post _ eq_refl eq_refl). rewrite !length_app in Hu. cbn [length] in Hu.
    rewrite length_app in El. cbn [length] in El.
    rewrite <- (take_drop (length pre) ds) in *.
    destruct (drop (length pre) ds) as [|d ds2] eqn:Ed.
    { apply (f_equal length) in Ed. rewrite length_drop in Ed.
      rewrite length_app, length_take in El. cbn in *. lia. }
    assert (Elp : length (take (length pre) ds) = length pre).
    { rewrite length_take. apply (f_equal length) in Ed. rewrite length_drop in Ed. cbn in Ed. lia. }
    rewrite lookup_app_r, Elp, Nat.sub_diag in Hu by lia. cbn in Hu.
    assert (d = false) as -> by (by injection Hu; [|lia]).
    rewrite retain_app by done. cbn [retain].
    rewrite <- app_assoc. cbn [app]. rewrite concat_app. cbn [concat].
    apply last_user_mid; [done|].
    eapply no_user_concat; [|exact Hpost]. by apply sublist_app; [apply retain_sublist|].
Qed.

(** ** What a bounded window is *)

(** The tail starts with a user turn, if it has one. *)
Definition user_first (t : list Message) : Prop :=
  last_user_turn t <> None -> exists m t', t = m :: t' /\ role m = User.

(** The window fits, or is as small as the block pass can make it. *)
Definition within (limit img : N) (head t : list Message) : Prop :=
  (cost_of img (head ++ t) <= limit)%N \/ (length (group t) <= 2)%nat.

(** The window [out] made of the head [head] and the tail [t]: the head stands, the tail lost whole
    exchanges only. *)
Definition bounded_window (limit img : N) (head t : list Message) (out : list Message) : Prop :=
  exists t', out = head ++ t' /\ trims t t' /\ user_first t' /\ within limit img head t'.

Lemma cost_drop_to_user img t : (cost_of img (drop_to_user t) <= cost_of img t)%N.
Proof.
  unfold drop_to_user. destruct (position _ _) as [r|]; [|done].
  rewrite <- (firstn_skipn r t) at 2. rewrite cost_of_app. lia.
Qed.

Lemma trims_within limit img head t t' :
  trims t t' -> (cost_of img t' <= cost_of img t)%N -> within limit img head t -> within limit img head t'.
Proof.
  intros (Hs & _) Hc [H|H]; [left|right]; [rewrite cost_of_app in *; lia|].
  apply sublist_length in Hs. lia.
Qed.

Lemma normalized_window limit img head t :
  well_paired t -> within limit img head t ->
  bounded_window limit img head t (normalize_leading (head ++ t) (length head)).
Proof.
  intros Hw Hin. pose proof (drop_to_user_trims t Hw) as Ht. exists (drop_to_user t). split_and!.
  - by rewrite normalize_leading_eq, take_app_length, drop_app_length.
  - done.
  - intros Hu. apply drop_to_user_first. by destruct Ht as (_ & _ & <-).
  - eapply trims_within; [done|apply cost_drop_to_user|done].
Qed.

Lemma spans_last i init g :
  option_map fst (last (spans i (init ++ [g]))) = Some (i + length (concat init))%nat.
Proof.
  revert i; induction init as [|g' init IH]; intros i; cbn [app spans concat].
  - cbn. f_equal. lia.
  - rewrite last_cons. specialize (IH (i + length g')%nat). destruct (last _) as [x|]; [|done].
    cbn [option_map] in *. rewrite IH, length_app. f_equal. lia.
Qed.

Lemma retain_none {A} (l : list A) ds : length l = length ds -> existsb id ds = false -> retain l ds = l.
Proof.
  revert ds; induction l as [|x l IH]; intros [|d ds] E; try done. cbn. destruct d; [done|].
  intros H. rewrite IH; [done|by injection E|done].
Qed.

Lemma group_ne t : Forall (fun g => g <> []) (group t).
Proof.
  assert (forall fuel t, (length t <= fuel)%nat -> Forall (fun g => g <> []) (group t)) as H; [|by eapply H].
  induction fuel as [|fuel IH]; intros [|m rest] Hl; cbn [length] in Hl; try lia; try constructor.
  rewrite group_cons. constructor; [done|]. apply IH. rewrite length_skipn. lia.
Qed.

(** The block pass on a window that is over the limit. *)
Lemma drop_pass_window limit img head t b :
  messages b = head ++ t -> accounts img b -> well_paired t -> (limit < total b)%N -> user_first t ->
  bounded_window limit img head t (drop_pass limit (length head) b).
Proof.
  intros Em [Hc Ht] Hw Hgt Huf. unfold drop_pass. rewrite (proj2 (N.ltb_lt _ _) Hgt). cbv zeta.
  rewrite Em, Nat.min_l by (rewrite length_app; lia).
  rewrite blocks_from_spans; [|rewrite drop_app_length, length_app; lia|by rewrite drop_app_length].
  rewrite drop_app_length. destruct (group t) as [|g0 gs0] eqn:Eg.
  { apply group_nonempty in Eg as ->. cbn [spans drop_blocks].
    assert (existsb id (replicate (length (head ++ [])) false) = false) as -> by by induction (length (head ++ [])).
    exists []. split_and!; [done|done|done|right; cbn; lia]. }
  rewrite <- Eg. destruct (exists_last (l := group t)) as (init & gl & Egs); [congruence|].
  pose proof (group_ne t) as Hne. rewrite Egs in *. rewrite spans_last.
  assert (Et : t = concat (init ++ [gl])) by (by rewrite <- Egs, concat_group).
  pose proof (drop_blocks_spec limit img (rposition (is_role User) (head ++ t)) init gl
    (replicate (length head) false) head (cost_of img head) Hne) as H.
  rewrite length_replicate in H. specialize (H eq_refl). rewrite <- Et in H.
  rewrite Hc, Em, Ht, Hc, Em, length_app, replicate_add.
  change (nsum (map (fun m => message_tokens m img) (head ++ t))) with (cost_of img (head ++ t)).
  rewrite cost_of_app. destruct H as (ds & El & -> & Hb & Hu). rewrite length_replicate in Hb, Hu.
  set (t1 := concat (retain init ds ++ [gl])).
  assert (El' : length (ds ++ [false]) = length (init ++ [gl])) by (rewrite !length_app, El; done).
  assert (Er : retain (head ++ t) (replicate (length head) false ++ expand (init ++ [gl]) (ds ++ [false]))
               = head ++ t1).
  { rewrite retain_app, retain_replicate by by rewrite length_replicate. f_equal.
    rewrite Et, retain_expand by done. unfold t1. by rewrite retain_app. }
  assert (Hx : Forall exchange (retain init ds ++ [gl])).
  { unfold well_paired in Hw. rewrite Egs in Hw. eapply Forall_sublist; [|exact Hw].
    apply sublist_app; [apply retain_sublist|done]. }
  assert (Ht1 : trims t t1).
  { split_and!.
    - rewrite Egs. unfold t1. rewrite group_concat by done. by apply sublist_app; [apply retain_sublist|].
    - unfold well_paired, t1. by rewrite group_concat.
    - unfold t1. rewrite Et. apply (kept_last_user head); [done|].
      intros pre g post x E Ex Hin. rewrite <- Et in Ex. by apply (Hu pre g post x). }
  assert (Hin : within limit img head t1).
  { destruct Hb as [Hb|Hb]; [left; by rewrite cost_of_app|right].
    unfold t1. rewrite group_concat by done. rewrite length_app. cbn [length].
    assert (user_weight (length head) (rposition (is_role User) (head ++ t)) <= 1)%nat; [|lia].
    destruct (rposition _ _); cbn; [|lia]. by destruct (_ <=? _)%nat; lia. }
  destruct (existsb id _) eqn:Ex.
  - rewrite Er. destruct (normalized_window limit img head t1 (trims_paired _ _ Ht1) Hin)
      as (t2 & -> & Ht2 & Hu2 & Hin2). exists t2. split_and!; [done|by eapply trims_trans|done|done].
  - rewrite retain_none in Er; [|by rewrite !length_app, length_replicate, Et, length_expand|exact Ex].
    apply app_inv_head in Er. exists t. split_and!; [done|done|done|by rewrite Er].
Qed.

(** *** The whole of [enforce_token_budget] *)

Lemma shape_app_split (l head t : list Message) :
  shape l = shape (head ++ t) -> exists head' t', l = head' ++ t' /\ shape head' = shape head /\ shape t' = shape t.
Proof.
  intros E. exists (firstn (length head) l), (skipn (length head) l). rewrite firstn_skipn.
  unfold shape in *. rewrite <- !firstn_map, <- !skipn_map, E, map_app.
  split_and!; [done|apply take_app_length'|apply drop_app_length']; by rewrite length_map.
Qed.

Lemma user_first_shape t t' : shape t = shape t' -> user_first t -> user_first t'.
Proof.
  intros E H Hu. pose proof (last_user_shape t) as E1. pose proof (last_user_shape t') as E2.
  destruct H as (m & u & -> & Hm); [intros En; rewrite En, E, E2 in E1; by destruct (last_user_turn t')|].
  destruct t' as [|m' u']; [done|]. exists m', u'. split; [done|].
  unfold shape in E. cbn in E. injection E as E _. by rewrite <- Hm, <- E.
Qed.

(** The head with its contents possibly shrunk, the tail without some exchanges, contents possibly
    shrunk too. *)
Definition compacted (limit img : N) (head t out : list Message) : Prop :=
  exists head' t', out = head' ++ t' /\ shape head' = shape head /\ trims (shape t) (shape t') /\
    user_first t' /\ within limit img head' t'.

Lemma enforce_spec limit img head t :
  well_paired t ->
  compacted limit img head t (enforce_token_budget (head ++ t) limit (length head) img).
Proof.
  intros Hw. unfold enforce_token_budget. cbv zeta. rewrite normalize_leading_eq, take_app_length, drop_app_length.
  set (t1 := drop_to_user t). pose proof (drop_to_user_trims t Hw) as Ht1.
  assert (Hf1 : user_first t1).
  { intros Hu. apply drop_to_user_first. by destruct Ht1 as (_ & _ & <-). }
  cbn [total]. fold (cost_of img (head ++ t1)). destruct (N.leb_spec (cost_of img (head ++ t1)) limit) as [Hle|_].
  { exists head, t1. split_and!; [done|done|by apply trims_shape|done|by left]. }
  set (b0 := {| messages := head ++ t1; costs := _; total := _ |}).
  set (b1 := pass (elide_at _ img) limit _ b0). set (b2 := pass (truncate_at limit img) limit _ b1).
  assert (H12 : shrinks img b0 b2).
  { assert (S1 : shrinks img b0 b1) by (apply pass_shrinks; intros; apply elide_at_shrinks).
    assert (S2 : shrinks img b1 b2) by (apply pass_shrinks; intros; apply truncate_at_shrinks).
    destruct S1 as [E1 A1], S2 as [E2 A2]. split; [by rewrite E2|auto]. }
  destruct H12 as [Es Ha]. destruct (shape_app_split _ _ _ Es) as (head2 & t2 & Em & Eh & Et).
  assert (Ha2 : accounts img b2) by (apply Ha; by split).
  assert (length head = length head2) as ->
    by (apply (f_equal length) in Eh; unfold shape in Eh; by rewrite !length_map in Eh).
  assert (Hw2 : well_paired t2) by (by eapply (shape_eq_paired t1), (trims_paired t t1)).
  destruct (N.le_gt_cases (total b2) limit) as [Hle|Hgt].
  - unfold drop_pass. assert (limit <? total b2 = false)%N as -> by by apply N.ltb_ge.
    exists head2, t2. split_and!; [done|done| | |].
    + rewrite Et. by apply trims_shape.
    + by eapply user_first_shape.
    + left. destruct Ha2 as [Hc Ht]. unfold cost_of. by rewrite <- Em, <- Hc, <- Ht.
  - destruct (drop_pass_window limit img head2 t2 b2 Em Ha2 Hw2 Hgt) as (t3 & -> & Ht3 & Hf3 & Hin).
    { by eapply user_first_shape. }
    exists head2, t3. split_and!; [done|done| |done|done].
    apply (trims_trans _ (shape t1)); [by apply trims_shape|]. rewrite <- Et. by apply trims_shape.
Qed.

(** ** Where the windows are cut *)

Lemma starts_tool_lookup ms i :
  starts_tool (skipn i ms) = match ms !! i with Some m => is_role Tool m | None => false end.
Proof.
  rewrite <- (Nat.add_0_r i) at 2. rewrite <- lookup_drop. by destruct (skipn i ms).
Qed.

Lemma well_paired_cut ms i : well_paired ms -> starts_tool (skipn i ms) = false ->
  well_paired (firstn i ms) /\ well_paired (skipn i ms).
Proof. intros Hw Hs. rewrite <- (firstn_skipn i ms) in Hw. by apply well_paired_app in Hw. Qed.

(** The kept window starts at an exchange and reaches back to the last user turn. *)
Lemma kept_window_cut rest start :
  (start <= length rest)%nat ->
  let k := kept_window_start rest start in
  starts_tool (skipn k rest) = false /\
  (forall x, rposition (is_role User) rest = Some x -> (k <= x)%nat).
Proof.
  intros Hs k. unfold k, kept_window_start, adjust_tool_boundary. cbv zeta.
  assert (Ha : starts_tool (skipn (start + tool_run (skipn start rest)) rest) = false).
  { rewrite Nat.add_comm, <- skipn_skipn. apply tool_run_spec. }
  destruct (rposition (is_role User) rest) as [x|] eqn:E; [|by split].
  split; [|intros ? [= <-]; lia]. destruct (Nat.min_spec (start + tool_run (skipn start rest)) x) as [[_ ->]|[_ ->]];
    [done|]. rewrite starts_tool_lookup. apply rposition_Some in E as (a & y & b & -> & <- & Hy & _).
  rewrite lookup_app_r, Nat.sub_diag by lia. cbn. apply not_true_iff_false. intros Hy2.
  apply is_role_true in Hy, Hy2. congruence.
Qed.

Lemma kept_window_trims rest start :
  (start <= length rest)%nat -> well_paired rest ->
  trims rest (skipn (kept_window_start rest start) rest).
Proof.
  intros Hs Hw. destruct (kept_window_cut rest start Hs) as [Hc Hu].
  set (k := kept_window_start rest start) in *. split_and!.
  - rewrite <- (firstn_skipn k rest) at 2. rewrite group_app by done. by apply sublist_inserts_l.
  - by apply well_paired_cut.
  - destruct (rposition (is_role User) rest) as [x|] eqn:E.
    + specialize (Hu x eq_refl). apply rposition_Some in E as (a & y & b & -> & <- & Hy & Hb).
      rewrite (last_user_app a) by by apply last_user_cons.
      rewrite skipn_app. replace (k - length a)%nat with 0%nat by lia. cbn [skipn].
      apply last_user_app. by apply last_user_cons.
    + apply rposition_None in E. unfold last_user_turn.
      rewrite !no_user_filter; [done|done|]. by apply Forall_drop.
Qed.

Lemma walk_back_le img l start remaining : (walk_back img l start remaining <= start)%nat.
Proof.
  revert start remaining; induction l as [|m l IH]; intros start remaining; cbn; [lia|].
  destruct (_ <? _)%N; [lia|]. etransitivity; [apply IH|lia].
Qed.

Lemma exchange_owner_spec ms owner :
  (owner < length ms)%nat ->
  let j := exchange_owner ms owner in
  (j <= owner)%nat /\ (j = 0%nat \/ starts_tool (skipn j ms) = false) /\
  forall k, (j < k <= owner)%nat -> starts_tool (skipn k ms) = true.
Proof.
  induction owner as [|o IH]; intros Hlt; cbn [exchange_owner]; [split_and!; [lia|by left|lia]|].
  cbv zeta. destruct (ms !! S o) as [m|] eqn:E; [|apply lookup_ge_None in E; lia].
  destruct (is_role Tool m) eqn:Em.
  - destruct IH as (H1 & H2 & H3); [lia|]. split_and!; [lia|done|]. intros k Hk.
    destruct (decide (k = S o)) as [->|]; [by rewrite starts_tool_lookup, E|apply H3; lia].
  - split_and!; [lia| |lia]. right. by rewrite starts_tool_lookup, E.
Qed.

Lemma exchange_edge_cut ms h :
  well_paired ms -> (h <= length ms)%nat ->
  starts_tool (skipn (exchange_edge ms h) ms) = false /\ (h <= exchange_edge ms h <= length ms)%nat.
Proof.
  intros Hw Hh. unfold exchange_edge.
  destruct (Nat.eqb_spec h 0) as [->|Hne]; [cbn [orb]; split; [by apply well_paired_starts|lia]|].
  assert (length ms <? h = false)%nat as -> by by apply Nat.ltb_ge. cbn [orb]. cbv zeta.
  destruct (exchange_owner_spec ms (h - 1)) as (H1 & H2 & H3); [lia|].
  set (j := exchange_owner ms (h - 1)) in *.
  assert (Hj : starts_tool (skipn j ms) = false) by (destruct H2 as [Hz|]; [rewrite Hz; by apply well_paired_starts|done]).
  assert (Hrun : starts_tool (skipn (h + tool_run (skipn h ms)) ms) = false)
    by (rewrite Nat.add_comm, <- skipn_skipn; apply tool_run_spec).
  assert (Hrun2 : (h + tool_run (skipn h ms) <= length ms)%nat)
    by (pose proof (tool_run_spec (skipn h ms)) as (_ & _ & Hle); rewrite length_skipn in Hle; lia).
  destruct (ms !! j) as [m|] eqn:Em; [|apply lookup_ge_None in Em; lia].
  destruct (tool_calls m) as [|c cs] eqn:Ec; [split; [|lia]|split; [done|lia]].
  apply not_true_iff_false. intros Hs.
  destruct (well_paired_cut ms j Hw Hj) as [_ Hwj]. rewrite (drop_S ms m j Em) in Hwj.
  apply well_paired_cons in Hwj as [(_ & _ & Hc & _) _].
  assert (starts_tool (skipn (S j) ms) = true) as Hn
    by (destruct (decide (S j = h)) as [Ej|]; [by rewrite Ej|apply H3; lia]).
  destruct (skipn (S j) ms) as [|r rest] eqn:Er; [done|]. cbn [starts_tool] in Hn.
  apply Hc; [|done]. cbn [tool_run]. by rewrite Hn.
Qed.

(** The head [compact] commits to. *)
Lemma system_head_cut ms first rest :
  well_paired ms -> ms = first :: rest -> is_role System first = true -> starts_tool rest = false.
Proof.
  intros Hw -> Hs. apply well_paired_cons in Hw as [(_ & _ & Hc & Ha) _].
  destruct rest as [|r rest]; [done|]. cbn [starts_tool]. apply not_true_iff_false. intros Hr.
  apply is_role_true in Hs. rewrite Ha in Hs; [done|]. apply Hc. cbn [tool_run]. by rewrite Hr.
Qed.

Definition system_offset (ms : list Message) : nat :=
  match ms with m :: _ => if is_role System m then 1 else 0 | [] => 0 end.

Lemma offset_cut ms : well_paired ms -> starts_tool (skipn (system_offset ms) ms) = false.
Proof.
  intros Hw. destruct ms as [|m rest]; [done|]. cbn [system_offset].
  destruct (is_role System m) eqn:E; [by eapply system_head_cut|by apply well_paired_starts].
Qed.

Lemma compacted_trims limit img head t t1 out :
  trims t t1 -> compacted limit img head t1 out -> compacted limit img head t out.
Proof.
  intros Ht (head' & t' & -> & Eh & Ht' & H). exists head', t'. split_and!; [done|done| |apply H|apply H].
  eapply trims_trans; [by apply trims_shape|done].
Qed.

Lemma compacted_exchanges limit img head t out :
  well_paired t -> compacted limit img head t out ->
  sublist (group (shape out)) (group (shape (head ++ t))).
Proof.
  intros Hw (head' & t' & -> & Eh & (Hs & Hw' & _) & _). unfold shape in *.
  rewrite !map_app, Eh, !group_app; [by apply sublist_app| |by apply well_paired_starts].
  apply well_paired_starts. by apply well_paired_shape.
Qed.

(** The sliding window commits to the head up to [h], the system message and the pinned prefix. *)
Lemma compact_spec s ms limit :
  well_paired ms ->
  exists h, compacted limit (image_tokens s) (firstn h ms) (skipn h ms) (compact s ms limit) /\
    well_paired (skipn h ms) /\
    (Nat.min (system_offset ms + pinned_prefix s) (length ms) <= h)%nat /\
    (pinned_prefix s = 0%nat -> h = system_offset ms).
Proof.
  intros Hw. destruct ms as [|first more] eqn:Ems.
  { exists 0%nat. split_and!; [|done|cbn; lia|done]. exists [], [].
    split_and!; [done|done|split_and!; constructor|by intros []|left; cbn; lia]. }
  unfold compact. cbv zeta.
  change (if is_role System first then 1%nat else 0%nat) with (system_offset (first :: more)).
  rewrite <- Ems in *. set (h := if (0 <? pinned_prefix s)%nat then _ else _). exists h.
  assert (Hcut : starts_tool (skipn h ms) = false /\
    (Nat.min (system_offset ms + pinned_prefix s) (length ms) <= h)%nat /\
    (pinned_prefix s = 0%nat -> h = system_offset ms) /\ (h <= length ms)%nat).
  { assert (Ho : (system_offset ms <= length ms)%nat)
      by (rewrite Ems; cbn; destruct (is_role System first); lia).
    unfold h. destruct (Nat.ltb_spec 0 (pinned_prefix s)).
    - destruct (exchange_edge_cut ms (Nat.min (system_offset ms + pinned_prefix s) (length ms)) Hw) as [H1 H2];
        [lia|]. split_and!; [done|lia|lia|lia].
    - assert (pinned_prefix s = 0%nat) as -> by lia. rewrite Nat.add_0_r.
      rewrite Nat.min_l by done. split_and!; [by apply offset_cut|done|done|done]. }
  destruct Hcut as (Hc & Hmin & Hz & Hle). destruct (well_paired_cut ms h Hw Hc) as [_ Hwt].
  split_and!; [|done|done|done]. set (start := walk_back _ _ _ _).
  assert (Hstart : (start <= length (skipn h ms))%nat) by apply walk_back_le.
  pose proof (kept_window_trims _ _ Hstart Hwt) as Ht. eapply compacted_trims; [exact Ht|].
  pose proof (enforce_spec limit (image_tokens s) (firstn h ms) _ (trims_paired _ _ Ht)) as He.
  by rewrite length_firstn, Nat.min_l in He.
Qed.

(** ** Masking *)

(** How many tool results a list holds. *)
Definition results_in (ms : list Message) : nat := length (List.filter (is_role Tool) ms).

Definition indices_from (k : nat) (ms : list Message) : list nat :=
  omap (fun im => if is_role Tool (im : nat * Message).2 then Some im.1 else None)
    (imap (fun i m => ((k + i)%nat, m)) ms).

Lemma indices_from_cons k m ms :
  indices_from k (m :: ms) = if is_role Tool m then k :: indices_from (S k) ms else indices_from (S k) ms.
Proof.
  unfold indices_from. rewrite imap_cons. cbn [omap list_omap snd fst]. rewrite Nat.add_0_r.
  assert (imap ((fun i m => ((k + i)%nat, m)) ∘ S) ms = imap (fun i m => ((S k + i)%nat, m)) ms) as ->
    by (apply imap_ext; intros i x _; cbn; f_equal; lia).
  by destruct (is_role Tool m).
Qed.

Lemma indices_from_length k ms : length (indices_from k ms) = results_in ms.
Proof.
  revert k; induction ms as [|m ms IH]; intros k; [done|]. rewrite indices_from_cons.
  unfold results_in in *. cbn [List.filter]. destruct (is_role Tool m); cbn [length]; by rewrite IH.
Qed.

Lemma indices_from_ge k ms i : i ∈ indices_from k ms -> (k <= i)%nat.
Proof.
  revert k; induction ms as [|m ms IH]; intros k; [by intros ?%elem_of_nil|]. rewrite indices_from_cons.
  destruct (is_role Tool m); rewrite ?elem_of_cons; [intros [->|H%IH]|intros H%IH]; lia.
Qed.

(** An index is old when it is a tool result with at least [keep] more after it. *)
Lemma old_indices_spec keep k ms i :
  (k + i)%nat ∈ firstn (results_in ms - keep) (indices_from k ms) <->
  exists m, ms !! i = Some m /\ role m = Tool /\ (keep <= results_in (skipn (S i) ms))%nat.
Proof.
  revert k i; induction ms as [|m ms IH]; intros k i.
  { cbn. split; [by intros ?%elem_of_nil|intros (m & [=] & _)]. }
  rewrite indices_from_cons. unfold results_in at 1. cbn [List.filter].
  assert (Hge : forall c, (k + 0)%nat ∉ firstn c (indices_from (S k) ms)).
  { intros c Hin. assert ((k + 0)%nat ∈ indices_from (S k) ms) as Hin' by (rewrite <- (firstn_skipn c (indices_from (S k) ms)); apply elem_of_app; by left).
    apply indices_from_ge in Hin'. lia. }
  assert (Hr : results_in ms = length (List.filter (is_role Tool) ms)) by done.
  destruct (is_role Tool m) eqn:Em; cbn [length]; rewrite <- Hr.
  - destruct (decide (keep <= results_in ms)%nat) as [Hk|Hk].
    + replace (S (results_in ms) - keep)%nat with (S (results_in ms - keep)) by lia. cbn [firstn].
      rewrite elem_of_cons. destruct i as [|i].
      * split; [|by left; lia]. intros _. exists m. by apply is_role_true in Em.
      * rewrite Nat.add_succ_r, <- Nat.add_succ_l, IH. cbn [lookup list_lookup skipn].
        split; [intros [?|?]; [lia|done]|by right].
    + replace (S (results_in ms) - keep)%nat with 0%nat by lia. cbn [firstn]. split; [by intros ?%elem_of_nil|].
      intros (m' & _ & _ & Hge'). exfalso.
      assert (results_in (skipn (S i) (m :: ms)) <= results_in ms)%nat; [|lia].
      cbn [skipn]. unfold results_in. rewrite <- (firstn_skipn i ms) at 2.
      rewrite List.filter_app, length_app. lia.
  - destruct i as [|i].
    + split; [intros H; by destruct (Hge _ H)|]. intros (m' & [= <-] & Hm & _).
      apply is_role_true in Hm. congruence.
    + rewrite Nat.add_succ_r, <- Nat.add_succ_l, IH. done.
Qed.

Definition masked_message (s : ObservationMaskingStrategy) (ms : list Message) (i : nat) (m : Message) : Message :=
  if is_role Tool m && (keep_recent_tool_results s <=? results_in (skipn (S i) ms))%nat
  then set_content m (elided_marker (length (content m))) else m.

Lemma mask_lookup s ms i m : ms !! i = Some m -> mask s ms !! i = Some (masked_message s ms i m).
Proof.
  intros E. unfold mask. cbv zeta. rewrite list_lookup_imap, E. cbn [fmap option_fmap option_map]. f_equal.
  change (tool_indices ms) with (indices_from 0 ms). rewrite indices_from_length.
  pose proof (old_indices_spec (keep_recent_tool_results s) 0 ms i) as H. cbn [Nat.add] in H.
  unfold masked_message. destruct (bool_decide _) eqn:Eb; bools.
  - apply H in Eb as (m' & E' & Hm & Hk). rewrite E in E'. injection E' as <-.
    rewrite (proj2 (is_role_true Tool m) Hm), (proj2 (Nat.leb_le _ _) Hk). unfold set_content. by rewrite Hm.
  - destruct (_ && _) eqn:Ea; [|done]. exfalso. apply Eb, H. apply andb_true_iff in Ea as [Ea1 Ea2].
    exists m. by apply is_role_true in Ea1; apply Nat.leb_le in Ea2.
Qed.

Lemma mask_shape s ms : shape (mask s ms) = shape ms.
Proof.
  apply list_eq. intros i. unfold shape. rewrite !list_lookup_fmap.
  destruct (ms !! i) as [m|] eqn:E.
  - rewrite (mask_lookup s ms i m E). cbn. unfold masked_message. by destruct (_ && _).
  - assert (mask s ms !! i = None) as ->; [|done]. unfold mask. cbv zeta. by rewrite list_lookup_imap, E.
Qed.

Lemma compact_masking_spec s ms limit :
  well_paired ms ->
  let img := om_image_tokens s in
  let n := system_offset ms in
  if (cost_of img (mask s ms) <=? limit)%N then compact_masking s ms limit = mask s ms
  else compacted limit img (firstn n (mask s ms)) (skipn n (mask s ms)) (compact_masking s ms limit).
Proof.
  intros Hw img n. pose proof (mask_shape s ms) as Em.
  assert (Hwm : well_paired (mask s ms)) by (by eapply shape_eq_paired).
  destruct ms as [|first more].
  { assert (cost_of img (mask s []) <=? limit = true)%N as ->; [|done].
    apply N.leb_le. change (cost_of img (mask s [])) with 0%N. lia. }
  unfold compact_masking. cbv zeta. fold img.
  change (nsum (map (fun m => message_tokens m img) (mask s (first :: more)))) with (cost_of img (mask s (first :: more))).
  destruct (cost_of img (mask s (first :: more)) <=? limit)%N; [done|].
  assert (Hn : n = system_offset (mask s (first :: more))).
  { unfold n. destruct (mask s (first :: more)) as [|m' l]; [done|].
    unfold shape in Em. cbn in Em. injection Em as Er _ _. unfold system_offset, is_role. by rewrite Er. }
  rewrite Hn. clear Hn n Em Hw. revert Hwm. generalize (mask s (first :: more)). intros ms Hw.
  pose proof (offset_cut ms Hw) as Hc. destruct (well_paired_cut ms _ Hw Hc) as [_ Hwt].
  assert (Hgen : forall head rest remaining, head = firstn (system_offset ms) ms ->
    rest = skipn (system_offset ms) ms ->
    compacted limit img head rest (enforce_token_budget
      (head ++ skipn (kept_window_start rest (walk_back img (rev rest) (length rest) remaining)) rest)
      limit (length head) img)).
  { intros head rest remaining -> ->. set (start := walk_back _ _ _ _).
    assert (Hstart : (start <= length (skipn (system_offset ms) ms))%nat) by apply walk_back_le.
    pose proof (kept_window_trims _ _ Hstart Hwt) as Ht. eapply compacted_trims; [exact Ht|].
    apply enforce_spec. by eapply trims_paired. }
  destruct ms as [|m rest]; [by apply Hgen|]. cbn [system_offset] in *.
  destruct (is_role System m); cbn [firstn skipn] in *; [by apply (Hgen [m])|by apply (Hgen [])].
Qed.

(** ** The properties *)

(** Compaction never breaks an exchange: of a transcript in which tool results only follow the
    assistant message whose calls they answer, both strategies return whole exchanges, in order,
    with everything but contents unchanged, so no call is left dangling and no result orphaned. *)
Theorem compaction_keeps_exchanges s s' ms limit :
  well_paired ms ->
  sublist (group (shape (compact s ms limit))) (group (shape ms)) /\
  sublist (group (shape (compact_masking s' ms limit))) (group (shape ms)).
Proof.
  intros Hw. split.
  - destruct (compact_spec s ms limit Hw) as (h & Hc & Hwt & _).
    apply compacted_exchanges in Hc; [|done]. by rewrite firstn_skipn in Hc.
  - pose proof (compact_masking_spec s' ms limit Hw) as Hm. cbv zeta in Hm.
    pose proof (mask_shape s' ms) as Es.
    destruct (_ <=? _)%N; [rewrite Hm, Es; done|].
    assert (Hwm : well_paired (mask s' ms)) by (by eapply shape_eq_paired).
    apply compacted_exchanges in Hm; [by rewrite firstn_skipn, Es in Hm|].
    apply well_paired_cut; [done|].
    assert (system_offset ms = system_offset (mask s' ms)) as ->; [|by apply offset_cut].
    unfold shape in Es. destruct ms as [|m ms'], (mask s' _) as [|m' l]; try done.
    cbn in Es. injection Es as Er _ _. unfold system_offset, is_role. by rewrite Er.
Qed.

(** The sliding window keeps what providers need and bounds the rest: the system message and the
    pinned prefix stand, what follows them starts with a user turn and still ends its user turns
    with the latest one, and the result fits the limit unless only two exchanges are left after the
    head. *)
Theorem sliding_window_anchored_and_bounded s ms limit :
  well_paired ms ->
  exists h head t, compact s ms limit = head ++ t /\
    shape head = shape (firstn h ms) /\
    (Nat.min (system_offset ms + pinned_prefix s) (length ms) <= h)%nat /\
    (last_user_turn (skipn h ms) <> None ->
       (exists m rest, t = m :: rest /\ role m = User) /\
       last_user_turn (shape t) = last_user_turn (shape (skipn h ms))) /\
    ((cost_of (image_tokens s) (compact s ms limit) <= limit)%N \/ (length (group t) <= 2)%nat).
Proof.
  intros Hw. destruct (compact_spec s ms limit Hw) as (h & (head & t & E & Eh & (Ht1 & Ht2 & Hu) & Hf & Hin) & Hwt & Hmin & _).
  exists h, head, t. split_and!; [done|done|done| |by rewrite E].
  intros Hex. split; [|done]. apply Hf. intros En. rewrite !last_user_shape, En in Hu.
  by destruct (last_user_turn (skipn h ms)).
Qed.

(** Observation masking replaces exactly the tool results with at least [keep] newer ones by the
    marker that records their length, and keeps every other message verbatim; when the masked
    transcript fits the limit it is the result. *)
Theorem masking_keeps_recent_results s ms limit :
  (cost_of (om_image_tokens s) (mask s ms) <= limit)%N -> well_paired ms ->
  length (compact_masking s ms limit) = length ms /\
  forall i m, ms !! i = Some m ->
    compact_masking s ms limit !! i =
      Some (if is_role Tool m && (keep_recent_tool_results s <=? results_in (skipn (S i) ms))%nat
            then set_content m (elided_marker (length (content m))) else m).
Proof.
  intros Hfit Hw. pose proof (compact_masking_spec s ms limit Hw) as Hm. cbv zeta in Hm.
  rewrite (proj2 (N.leb_le _ _) Hfit) in Hm. rewrite Hm. split.
  - pose proof (f_equal length (mask_shape s ms)) as E. unfold shape in E. by rewrite !length_map in E.
  - apply mask_lookup.
Qed.
End Context_.

(** ** The properties at a concrete transcript, one token per byte *)

Definition ex_msg (r : Role) (text : str) (calls : list (ToolCallMessage (Value := unit))) : Message :=
  {| role := r; content := text; tool_calls := calls; tool_call_id := None; provider_content := [] |}.

Definition ex_call : ToolCallMessage (Value := unit) := {| tc_id := "1"; tc_name := "f"; tc_arguments := tt |}.

Definition ex_transcript : list (Message (Value := unit)) :=
  [ex_msg System "sys" []; ex_msg User "old question" []; ex_msg Assistant "" [ex_call];
   ex_msg Tool "result" []; ex_msg Assistant "answer" []; ex_msg User "new question" []].

Definition ex_encode (s : str) : list N := map N_of_ascii s.
Definition ex_decode (l : list N) : option str := Some (map ascii_of_N l).

Lemma ex_paired : well_paired ex_transcript.
Proof.
  unfold well_paired. vm_compute. repeat constructor; try discriminate; intros H; by destruct H.
Qed.

Lemma compaction_keeps_exchanges_witness :
  well_paired ex_transcript /\
  sublist (group (shape (compact (fun _ => []) (fun _ => None) ex_encode ex_decode sliding_new ex_transcript 20)))
          (group (shape ex_transcript)).
Proof.
  split; [exact ex_paired|].
  exact (proj1 (compaction_keeps_exchanges (fun _ => []) (fun _ => None) ex_encode ex_decode
    sliding_new (masking_new 1) ex_transcript 20 ex_paired)).
Defined.

Lemma sliding_window_anchored_and_bounded_witness :
  well_paired ex_transcript /\
  exists h head t, compact (fun _ => []) (fun _ => None) ex_encode ex_decode sliding_new ex_transcript 20
    = head ++ t /\ shape head = shape (firstn h ex_transcript).
Proof.
  split; [exact ex_paired|].
  destruct (sliding_window_anchored_and_bounded (fun _ => []) (fun _ => None) ex_encode ex_decode
    sliding_new ex_transcript 20 ex_paired) as (h & head & t & E1 & E2 & _).
  exists h, head, t. split; [exact E1|exact E2].
Defined.

Lemma masking_keeps_recent_results_witness :
  (cost_of (fun _ => []) (fun _ => None) ex_encode 4800 (mask (masking_new 0) ex_transcript) <= 1000)%N /\
  compact_masking (fun _ => []) (fun _ => None) ex_encode ex_decode (masking_new 0) ex_transcript 1000 !! 3%nat
    = Some (ex_msg Tool "[output elided — 6 chars]" []).
Proof.
  assert (cost_of (fun _ => []) (fun _ => None) ex_encode 4800 (mask (masking_new 0) ex_transcript) <= 1000)%N as Hc
    by (vm_compute; discriminate).
  split; [exact Hc|].
  exact (proj2 (masking_keeps_recent_results (fun _ => []) (fun _ => None) ex_encode ex_decode
    (masking_new 0) ex_transcript 1000 Hc ex_paired) 3%nat (ex_msg Tool "result" []) eq_refl).
Defined.
