(* ===== verification/Budget.v ===== *)
(** * Resource budgets

    Models [crates/simulacra-types/src/budget.rs]: the limits of an agent, what it has used, and the
    check.  [u64] and [u32] counters are natural numbers below their width (the operations that
    change them, with their wrap-around, are the sandbox's).  [rust_decimal::Decimal] is a
    parameter: a type with the operations the code calls. *)

From S2P Require Import Prelude.

(** [Decimal]: [ZERO], [is_zero], [>=] and [to_string]. *)
Class DecimalOps (Decimal : Type) := {
  decimal_zero : Decimal;
  is_zero : Decimal -> bool;
  decimal_ge : Decimal -> Decimal -> bool;
  decimal_to_string : Decimal -> str;
}.

Record BudgetExhausted := { resource : str; used : str; limit : str }.

Definition budget_exhausted_to_string (e : BudgetExhausted) : str :=
  "budget exhausted: " ++ resource e ++ " — used " ++ used e ++ ", limit " ++ limit e.

Section Budget.
Context {Decimal : Type} `{DecimalOps Decimal}.

Record ResourceBudget := {
  max_tokens : N;
  max_turns : N;
  max_cost : Decimal;
  max_sub_agents : N;
  max_vfs_bytes : N;
  used_tokens : N;
  used_turns : N;
  used_cost : Decimal;
  used_sub_agents : N;
  used_vfs_bytes : N;
  max_fuel : N;
  used_fuel : N;
}.

Definition budget_new (max_tokens max_turns : N) (max_cost : Decimal) (max_sub_agents : N)
    : ResourceBudget :=
  {| max_tokens := max_tokens; max_turns := max_turns; max_cost := max_cost;
     max_sub_agents := max_sub_agents; max_vfs_bytes := 0; used_tokens := 0; used_turns := 0;
     used_cost := decimal_zero; used_sub_agents := 0; used_vfs_bytes := 0; max_fuel := 0;
     used_fuel := 0 |}.

Definition set_used_turns (b : ResourceBudget) (n : N) : ResourceBudget :=
  {| max_tokens := max_tokens b; max_turns := max_turns b; max_cost := max_cost b;
     max_sub_agents := max_sub_agents b; max_vfs_bytes := max_vfs_bytes b;
     used_tokens := used_tokens b; used_turns := n; used_cost := used_cost b;
     used_sub_agents := used_sub_agents b; used_vfs_bytes := used_vfs_bytes b;
     max_fuel := max_fuel b; used_fuel := used_fuel b |}.

Definition set_used_vfs_bytes (b : ResourceBudget) (n : N) : ResourceBudget :=
  {| max_tokens := max_tokens b; max_turns := max_turns b; max_cost := max_cost b;
     max_sub_agents := max_sub_agents b; max_vfs_bytes := max_vfs_bytes b;
     used_tokens := used_tokens b; used_turns := used_turns b; used_cost := used_cost b;
     used_sub_agents := used_sub_agents b; used_vfs_bytes := n;
     max_fuel := max_fuel b; used_fuel := used_fuel b |}.

Definition exhausted_at (name : str) (u l : N) : BudgetExhausted :=
  {| resource := name; used := dec u; limit := dec l |}.

Definition over (max used : N) : bool := (0 <? max)%N && (max <=? used)%N.

Definition check_budget (b : ResourceBudget) : result unit BudgetExhausted :=
  if over (max_tokens b) (used_tokens b) then Err (exhausted_at "tokens" (used_tokens b) (max_tokens b))
  else if over (max_turns b) (used_turns b) then Err (exhausted_at "turns" (used_turns b) (max_turns b))
  else if negb (is_zero (max_cost b)) && decimal_ge (used_cost b) (max_cost b) then
    Err {| resource := "cost"; used := decimal_to_string (used_cost b);
           limit := decimal_to_string (max_cost b) |}
  else if over (max_sub_agents b) (used_sub_agents b) then
    Err (exhausted_at "sub_agents" (used_sub_agents b) (max_sub_agents b))
  else if over (max_vfs_bytes b) (used_vfs_bytes b) then
    Err (exhausted_at "vfs_bytes" (used_vfs_bytes b) (max_vfs_bytes b))
  else if over (max_fuel b) (used_fuel b) then Err (exhausted_at "fuel" (used_fuel b) (max_fuel b))
  else Ok tt.

(** ** What the check decides *)

(** A limit holds: none is set, or the use is below it. *)
Definition within (max used : N) : Prop := max = 0%N \/ (used < max)%N.

Lemma over_within max used : over max used = false <-> within max used.
Proof.
  unfold over, within. rewrite andb_false_iff, N.ltb_ge, N.leb_gt. lia.
Qed.

Lemma check_budget_Ok b :
  check_budget b = Ok tt <->
  within (max_tokens b) (used_tokens b) /\ within (max_turns b) (used_turns b) /\
  (is_zero (max_cost b) = true \/ decimal_ge (used_cost b) (max_cost b) = false) /\
  within (max_sub_agents b) (used_sub_agents b) /\ within (max_vfs_bytes b) (used_vfs_bytes b) /\
  within (max_fuel b) (used_fuel b).
Proof.
  unfold check_budget. rewrite <- !over_within.
  destruct (over (max_tokens b) _), (over (max_turns b) _), (is_zero _), (decimal_ge _ _),
    (over (max_sub_agents b) _), (over (max_vfs_bytes b) _), (over (max_fuel b) _); cbn; naive_solver.
Qed.
End Budget.
Arguments ResourceBudget : clear implicits.

(** Whole numbers, for examples. *)
#[export] Instance N_decimal : DecimalOps N := {|
  decimal_zero := 0%N; is_zero := N.eqb 0; decimal_ge := fun a b => (b <=? a)%N; decimal_to_string := dec |}.
