(* ===== verification/Journal.v ===== *)
(** * The journal and its replay

    Models [crates/simulacra-types/src/journal.rs] (entries, errors, the storage interface),
    [crates/simulacra-runtime/src/journal.rs] (the in-memory store and the counting wrapper),
    [replay.rs] (the replay iterator), and of the agent loop [agent_loop/journal.rs] and the matching
    of [replay_helpers.rs] (how a turn consumes a recorded journal).

    The store's lock is never poisoned: no operation panics while holding it.  [serde_json::Value]
    (the arguments of a tool call), its equality and printing, the [Debug] printing of an entry and
    the serialization of a checkpoint are parameters.  Log events and spans are left out. *)

From S2P Require Import Prelude.
From S2P Require Import Text.
From S2P Require Import Context.
From S2P Require Import Budget.

Definition JOURNAL_SCHEMA_VERSION : N := 3.

(** [AgentId] is a string of its own type. *)
Abbreviation AgentId := str (only parsing).

Record TokenUsage := {
  input_tokens : N;
  output_tokens : N;
  cache_read_input_tokens : N;
  cache_write_input_tokens : N;
}.

Definition TokenUsage_default : TokenUsage :=
  {| input_tokens := 0; output_tokens := 0; cache_read_input_tokens := 0; cache_write_input_tokens := 0 |}.

Definition add_usage (total u : TokenUsage) : TokenUsage :=
  {| input_tokens := saturating_add (input_tokens total) (input_tokens u);
     output_tokens := saturating_add (output_tokens total) (output_tokens u);
     cache_read_input_tokens :=
       saturating_add (cache_read_input_tokens total) (cache_read_input_tokens u);
     cache_write_input_tokens :=
       saturating_add (cache_write_input_tokens total) (cache_write_input_tokens u) |}.

Variant JournalError :=
| SchemaVersionMismatch (expected got : N)
| Storage (msg : str)
| JournalNotFound (msg : str)
| InvalidCheckpointIndex (idx : nat).

Definition journal_error_to_string (e : JournalError) : str :=
  match e with
  | SchemaVersionMismatch expected got =>
      "schema version mismatch: expected " ++ dec expected ++ ", got " ++ dec got
  | Storage msg => "storage error: " ++ msg
  | JournalNotFound msg => "not found: " ++ msg
  | InvalidCheckpointIndex idx => "invalid checkpoint index: " ++ dec (N.of_nat idx)
  end.

Section Entries.
Context {Value Decimal : Type}.

Variant JournalEntryKind :=
| TurnStart
| LlmRequest (model : str) (message_count : N)
| LlmResponse (model : str) (token_usage : TokenUsage) (finish_reason : str)
    (assistant_message : option (@Message Value))
| ToolCall (call_id : option str) (tool_name : str) (arguments : Value)
| ToolResult (call_id : option str) (tool_name : str) (text : str) (is_error : bool)
    (provider_blocks : list (@ProviderContentBlock Value))
| ShellCommand (command : str) (exit_code : Z)
| CodeExecution (language : str)
| SubAgentSpawned (child_id : AgentId) (placement backend task : str)
    (instructions placement_target : option str)
| SubAgentCompleted (child_id : AgentId) (success : bool)
| FileWrite (path : str) (size_bytes : N)
| FileDelete (path : str)
| FileMove (from to : str)
| HttpRequest (method url : str) (status : N)
| Checkpoint (snapshot_data : str)
| HookDenial (hook_name operation reason : str)
| HookKill (hook_name operation reason : str).

Record JournalEntry := {
  schema_version : N;
  agent_id : AgentId;
  timestamp_ms : N;
  entry : JournalEntryKind;
}.

Record CheckpointData := {
  checkpoint_messages : list (@Message Value);
  budget_snapshot : ResourceBudget Decimal;
  vfs_snapshot : option str;
}.

(** The storage interface, over the store's state. *)
Class JournalStorage (J : Type) := {
  journal_append : J -> JournalEntry -> J * result unit JournalError;
  journal_read_all : J -> AgentId -> result (list JournalEntry) JournalError;
  journal_query_token_usage : J -> AgentId -> result TokenUsage JournalError;
  journal_save_checkpoint : J -> AgentId -> nat -> CheckpointData -> J * result unit JournalError;
  journal_fork_from : J -> AgentId -> nat -> result (list JournalEntry) JournalError;
  journal_read_from : J -> AgentId -> nat -> result (list JournalEntry) JournalError;
}.

(** ** The in-memory store *)

Definition InMemoryJournalStorage := list JournalEntry.

Definition validate_schema_version (e : JournalEntry) : result unit JournalError :=
  if negb (schema_version e =? JOURNAL_SCHEMA_VERSION)%N
  then Err (SchemaVersionMismatch JOURNAL_SCHEMA_VERSION (schema_version e))
  else Ok tt.

Definition is_agent (a : AgentId) (e : JournalEntry) : bool := str_eqb (agent_id e) a.

(** The entries of an agent, when all of them have the supported version. *)
Fixpoint validated (es : list JournalEntry) : result (list JournalEntry) JournalError :=
  match es with
  | [] => Ok []
  | e :: es =>
      match validate_schema_version e with
      | Err err => Err err
      | Ok _ => let? rest := validated es in Ok (e :: rest)
      end
  end.

Definition agent_entries (s : InMemoryJournalStorage) (a : AgentId) : result (list JournalEntry) JournalError :=
  validated (List.filter (is_agent a) s).

Definition append (s : InMemoryJournalStorage) (e : JournalEntry)
    : InMemoryJournalStorage * result unit JournalError :=
  match validate_schema_version e with
  | Err err => (s, Err err)
  | Ok _ => (s ++ [e], Ok tt)
  end.

Definition read_all (s : InMemoryJournalStorage) (a : AgentId) : result (list JournalEntry) JournalError :=
  agent_entries s a.

Fixpoint usage_loop (es : list JournalEntry) (total : TokenUsage) : result TokenUsage JournalError :=
  match es with
  | [] => Ok total
  | e :: es =>
      match validate_schema_version e with
      | Err err => Err err
      | Ok _ =>
          match entry e with
          | LlmResponse _ token_usage _ _ => usage_loop es (add_usage total token_usage)
          | _ => usage_loop es total
          end
      end
  end.

Definition query_token_usage (s : InMemoryJournalStorage) (a : AgentId) : result TokenUsage JournalError :=
  usage_loop (List.filter (is_agent a) s) TokenUsage_default.

Context (to_vec : CheckpointData -> result str str).

Definition save_checkpoint (s : InMemoryJournalStorage) (a : AgentId) (after_entry : nat)
    (data : CheckpointData) : InMemoryJournalStorage * result unit JournalError :=
  match map_err Storage (to_vec data) with
  | Err err => (s, Err err)
  | Ok serialized =>
      let e := {| schema_version := JOURNAL_SCHEMA_VERSION; agent_id := a; timestamp_ms := 0;
                  entry := Checkpoint serialized |} in
      match agent_entries s a with
      | Err err => (s, Err err)
      | Ok _ =>
          if (length (List.filter (is_agent a) s) <? after_entry)%nat
          then (s, Err (InvalidCheckpointIndex after_entry))
          else (s ++ [e], Ok tt)
      end
  end.

Definition fork_from (s : InMemoryJournalStorage) (a : AgentId) (checkpoint_idx : nat)
    : result (list JournalEntry) JournalError :=
  let? es := agent_entries s a in
  match es !! checkpoint_idx with
  | None => Err (InvalidCheckpointIndex checkpoint_idx)
  | Some e =>
      match entry e with
      | Checkpoint _ => Ok (firstn (S checkpoint_idx) es)
      | _ => Err (JournalNotFound ("entry at index " ++ dec (N.of_nat checkpoint_idx) ++ " is not a checkpoint"))
      end
  end.

Definition read_from (s : InMemoryJournalStorage) (a : AgentId) (start_index : nat)
    : result (list JournalEntry) JournalError :=
  let? es := agent_entries s a in
  if (length es <? start_index)%nat then Err (InvalidCheckpointIndex start_index)
  else Ok (skipn start_index es).

Definition memory_journal : JournalStorage InMemoryJournalStorage := {|
  journal_append := append;
  journal_read_all := read_all;
  journal_query_token_usage := query_token_usage;
  journal_save_checkpoint := save_checkpoint;
  journal_fork_from := fork_from;
  journal_read_from := read_from;
|}.

(** ** The counting wrapper *)

Record CountingJournalStorage (J : Type) := { inner : J; counter : N }.
Arguments inner {J} _.
Arguments counter {J} _.

(** [AtomicU64::fetch_add(1)] wraps around. *)
Definition fetch_add_1 (n : N) : N := ((n + 1) mod 2 ^ 64)%N.

Definition counted {J} (c : CountingJournalStorage J) (r : J * result unit JournalError)
    : CountingJournalStorage J * result unit JournalError :=
  match snd r with
  | Ok _ => ({| inner := fst r; counter := fetch_add_1 (counter c) |}, Ok tt)
  | Err e => ({| inner := fst r; counter := counter c |}, Err e)
  end.

Definition counting_journal {J} `{JournalStorage J} : JournalStorage (CountingJournalStorage J) := {|
  journal_append := fun c e => counted c (journal_append (inner c) e);
  journal_read_all := fun c => journal_read_all (inner c);
  journal_query_token_usage := fun c => journal_query_token_usage (inner c);
  journal_save_checkpoint := fun c a n d => counted c (journal_save_checkpoint (inner c) a n d);
  journal_fork_from := fun c => journal_fork_from (inner c);
  journal_read_from := fun c => journal_read_from (inner c);
|}.
End Entries.
Arguments JournalEntryKind : clear implicits.
Arguments JournalEntry : clear implicits.
Arguments CheckpointData : clear implicits.
Arguments JournalStorage : clear implicits.

(** ** Replay *)

(** The runtime errors that journaling and replay make. *)
Variant RuntimeError :=
| JournalErr (e : JournalError)
| JournalAppendFailed (entry_kind : str) (source : JournalError).

Section Replay.
Context {Value : Type}.
Abbreviation Kind := (JournalEntryKind Value).
Abbreviation Entry := (JournalEntry Value).

Record JournalReplayIterator := {
  recorded : list Entry;
  cursor : nat;
  schema_mismatch : option (N * N);
}.

Definition replay_new (es : list Entry) : JournalReplayIterator :=
  {| recorded := es; cursor := 0;
     schema_mismatch :=
       option_map (fun e => (JOURNAL_SCHEMA_VERSION, schema_version e))
         (List.find (fun e => negb (schema_version e =? JOURNAL_SCHEMA_VERSION)%N) es) |}.

Definition replay_validate (it : JournalReplayIterator) : result unit JournalError :=
  match schema_mismatch it with
  | Some (expected, got) => Err (SchemaVersionMismatch expected got)
  | None => Ok tt
  end.

Definition peek (it : JournalReplayIterator) : option Kind :=
  match schema_mismatch it with
  | Some _ => None
  | None => option_map entry (recorded it !! cursor it)
  end.

Definition next_recorded (it : JournalReplayIterator) : JournalReplayIterator * option Kind :=
  match peek it with
  | Some k =>
      ({| recorded := recorded it; cursor := S (cursor it); schema_mismatch := schema_mismatch it |}, Some k)
  | None => (it, None)
  end.

Definition at_frontier (it : JournalReplayIterator) : bool :=
  match schema_mismatch it with
  | Some _ => true
  | None => (length (recorded it) <=? cursor it)%nat
  end.

Definition remaining (it : JournalReplayIterator) : nat :=
  match schema_mismatch it with
  | Some _ => 0%nat
  | None => (length (recorded it) - cursor it)%nat
  end.

Definition replay_entries (it : JournalReplayIterator) : list Entry :=
  match schema_mismatch it with Some _ => [] | None => recorded it end.

(** *** Matching *)

Definition entry_kind_name (kind : Kind) : str :=
  match kind with
  | TurnStart => "TurnStart"
  | LlmRequest _ _ => "LlmRequest"
  | LlmResponse _ _ _ _ => "LlmResponse"
  | ToolCall _ _ _ => "ToolCall"
  | ToolResult _ _ _ _ _ => "ToolResult"
  | ShellCommand _ _ => "ShellCommand"
  | CodeExecution _ => "CodeExecution"
  | SubAgentSpawned _ _ _ _ _ _ => "SubAgentSpawned"
  | SubAgentCompleted _ _ => "SubAgentCompleted"
  | FileWrite _ _ => "FileWrite"
  | FileDelete _ => "FileDelete"
  | FileMove _ _ => "FileMove"
  | HttpRequest _ _ _ => "HttpRequest"
  | Checkpoint _ => "Checkpoint"
  | HookDenial _ _ _ => "HookDenial"
  | HookKill _ _ _ => "HookKill"
  end.

(** [serde_json::Value]: its equality and its printing; and the [Debug] printing of an entry. *)
Context (value_eqb : Value -> Value -> bool) (value_to_string : Value -> str) (debug : Kind -> str).

Definition replay_entries_match (expected actual : Kind) : bool :=
  match expected, actual with
  | TurnStart, TurnStart => true
  | LlmRequest expected_model expected_count, LlmRequest actual_model actual_count =>
      str_eqb expected_model actual_model && (expected_count =? actual_count)%N
  | ToolCall expected_id expected_tool expected_args, ToolCall actual_id actual_tool actual_args =>
      match expected_id, actual_id with
      | Some expected, Some actual => str_eqb expected actual
      | _, _ => false
      end && str_eqb expected_tool actual_tool && value_eqb expected_args actual_args
  | _, _ => false
  end.

Definition describe_replay_entry (kind : Kind) : str :=
  match kind with
  | LlmRequest model message_count =>
      "LlmRequest(model=" ++ model ++ ", message_count=" ++ dec message_count ++ ")"
  | ToolCall call_id tool_name arguments =>
      "ToolCall(tool_call_id=" ++ unwrap_or call_id (lit "<missing>") ++ ", tool_name=" ++ tool_name
        ++ ", arguments=" ++ value_to_string arguments ++ ")"
  | other => entry_kind_name other
  end.

(** *** What a turn takes from the recorded journal

    The agent loop's [replay] field is an option; the functions here take it and return it. *)

Abbreviation Replay := (option JournalReplayIterator).
Abbreviation ReplayedToolResult := (str * bool * list (@ProviderContentBlock Value))%type.

Definition has_replay_entry (replay : Replay) : bool :=
  match replay with Some it => negb (at_frontier it) | None => false end.

Definition next_of (replay : Replay) : Replay * option Kind :=
  match replay with
  | Some it => let '(it, k) := next_recorded it in (Some it, k)
  | None => (None, None)
  end.

Definition storage_error (msg : str) : RuntimeError := JournalErr (Storage msg).

Definition consume_replay_entry (expected : Kind) : SE Replay RuntimeError unit := fun replay =>
  if has_replay_entry replay then
    match next_of replay with
    | (replay, None) => (replay, Err (storage_error "replay frontier reached while consuming expected entry"))
    | (replay, Some actual) =>
        if negb (replay_entries_match expected actual) then
          (replay, Err (storage_error ("replay divergence: expected " ++ describe_replay_entry expected
                          ++ " but found " ++ describe_replay_entry actual)))
        else (replay, Ok tt)
    end
  else (replay, Ok tt).

Definition take_replay_entry : SE Replay RuntimeError Kind := fun replay =>
  match next_of replay with
  | (replay, Some k) => (replay, Ok k)
  | (replay, None) =>
      (replay, Err (storage_error "take_replay_entry called but no replay entry available"))
  end.

Definition replay_tool_result (kind : Kind) : result ReplayedToolResult RuntimeError :=
  match kind with
  | ToolResult _ _ content is_error provider_content => Ok (content, is_error, provider_content)
  | _ => Err (storage_error ("expected ToolResult during replay, got " ++ debug kind))
  end.

(** The loop of [consume_replay_tool_result_at]: [idx] runs to [offset]. *)
Fixpoint consume_loop (todo idx offset : nat) (selected : option ReplayedToolResult)
    : SE Replay RuntimeError (option ReplayedToolResult) := fun replay =>
  match todo with
  | O => (replay, Ok selected)
  | S todo =>
      match next_of replay with
      | (replay, None) =>
          (replay, Err (storage_error "replay frontier reached while consuming tool result"))
      | (replay, Some kind) =>
          if (idx =? offset)%nat then
            match replay_tool_result kind with
            | Ok r => consume_loop todo (S idx) offset (Some r) replay
            | Err e => (replay, Err e)
            end
          else consume_loop todo (S idx) offset selected replay
      end
  end.

Definition consume_replay_tool_result_at (offset : nat)
    : SE Replay RuntimeError (option ReplayedToolResult) :=
  consume_loop (S offset) 0 offset None.

(** Entries that a tool call may leave between its call and its result. *)
Definition nested_entry (kind : Kind) : bool :=
  match kind with
  | ToolResult _ _ _ _ _ | ShellCommand _ _ | CodeExecution _ | SubAgentSpawned _ _ _ _ _ _
  | SubAgentCompleted _ _ | FileWrite _ _ | FileDelete _ | FileMove _ _ | HttpRequest _ _ _
  | Checkpoint _ | HookDenial _ _ _ | HookKill _ _ _ => true
  | _ => false
  end.

Definition is_result_of (tool_call_id tool_name : str) (kind : Kind) : bool :=
  match kind with
  | ToolResult (Some recorded_id) recorded _ _ _ =>
      str_eqb recorded_id tool_call_id && str_eqb recorded tool_name
  | _ => false
  end.

(** The scan: the offset of the result, the entry that ends the search, or the frontier. *)
Fixpoint scan (tool_call_id tool_name : str) (es : list Entry) (offset : nat) : nat + option Kind :=
  match es with
  | [] => inr None
  | e :: es =>
      if is_result_of tool_call_id tool_name (entry e) then inl offset
      else if nested_entry (entry e) then scan tool_call_id tool_name es (S offset)
      else inr (Some (entry e))
  end.

Definition take_replay_tool_result (tool_call_id tool_name : str)
    : SE Replay RuntimeError (option ReplayedToolResult) := fun replay =>
  if negb (has_replay_entry replay) then (replay, Ok None)
  else
    match replay with
    | None => (replay, Ok None)
    | Some it =>
        let expected := "expected ToolResult for " ++ tool_name ++ " (" ++ tool_call_id ++ ") during replay, " in
        match scan tool_call_id tool_name (skipn (cursor it) (replay_entries it)) 0 with
        | inl selected => consume_replay_tool_result_at selected replay
        | inr (Some other) => (replay, Err (storage_error (expected ++ "found " ++ describe_replay_entry other)))
        | inr None => (replay, Err (storage_error (expected ++ "reached replay frontier")))
        end
    end.

(** *** Journaling *)

(** What [journal_entry] reads of the agent loop, and the counter it keeps, an [AtomicU32]. *)
Definition failures_add_1 (n : N) : N := ((n + 1) mod 2 ^ 32)%N.

Definition journal_entry {J Decimal} `{JournalStorage Value Decimal J} (id : AgentId) (now_ms : N)
    (kind : Kind) : SE (J * N) RuntimeError unit := fun '(j, failures) =>
  let e := {| schema_version := JOURNAL_SCHEMA_VERSION; agent_id := id; timestamp_ms := now_ms;
              entry := kind |} in
  match journal_append j e with
  | (j, Ok _) => ((j, failures), Ok tt)
  | (j, Err source) => ((j, failures_add_1 failures), Err (JournalAppendFailed (entry_kind_name kind) source))
  end.
End Replay.
Arguments JournalReplayIterator : clear implicits.

(** ** The store is an append-only log per agent *)

Section StoreProperties.
Context {Value Decimal : Type} (to_vec : CheckpointData Value Decimal -> result str str).
Abbreviation Entry := (JournalEntry Value).

Definition log (a : AgentId) (s : list Entry) : list Entry := List.filter (is_agent a) s.

Definition supported (e : Entry) : Prop := schema_version e = JOURNAL_SCHEMA_VERSION.

(** The calls that change the store. *)
Variant journal_call :=
| CallAppend (e : Entry)
| CallCheckpoint (a : AgentId) (after_entry : nat) (data : CheckpointData Value Decimal).

Definition run_call (s : list Entry) (c : journal_call) : list Entry * result unit JournalError :=
  match c with
  | CallAppend e => append s e
  | CallCheckpoint a n d => save_checkpoint to_vec s a n d
  end.

Definition after_calls (calls : list journal_call) : list Entry :=
  foldl (fun s c => fst (run_call s c)) [] calls.

Lemma validate_supported (e : Entry) : validate_schema_version e = Ok tt <-> supported e.
Proof.
  unfold validate_schema_version, supported. destruct (N.eqb_spec (schema_version e) JOURNAL_SCHEMA_VERSION); naive_solver.
Qed.

Lemma validated_supported (es : list Entry) : Forall supported es -> validated es = Ok es.
Proof.
  induction 1 as [|e es He _ IH]; [done|]. cbn [validated].
  apply validate_supported in He. by rewrite He, IH.
Qed.

Lemma Forall_log a (s : list Entry) : Forall supported s -> Forall supported (log a s).
Proof.
  rewrite !Forall_forall. intros H e He. apply H. apply list_elem_of_In, filter_In in He as [He _].
  by apply list_elem_of_In.
Qed.

(** A call changes nothing, or adds one supported entry at the end. *)
Lemma run_call_cases s c :
  (exists err, run_call s c = (s, Err err)) \/
  exists e, supported e /\ run_call s c = (s ++ [e], Ok tt).
Proof.
  destruct c as [e|a n d]; cbn [run_call].
  - unfold append. destruct (validate_schema_version e) as [[]|err] eqn:E; [|left; by eexists].
    right. exists e. by apply validate_supported in E.
  - unfold save_checkpoint. destruct (map_err _ _); [|left; by eexists].
    destruct (agent_entries _ _); [|left; by eexists]. destruct (_ <? _)%nat; [left; by eexists|].
    right. eexists. split; [|reflexivity]. reflexivity.
Qed.

Lemma after_calls_supported calls : Forall supported (after_calls calls).
Proof.
  induction calls as [|c calls IH] using rev_ind; [constructor|].
  unfold after_calls. rewrite foldl_app. cbn [foldl]. fold (after_calls calls).
  destruct (run_call_cases (after_calls calls) c) as [[err ->]|(e & He & ->)]; cbn [fst]; [done|].
  apply Forall_app. split; [done|by constructor].
Qed.

(** The store keeps one append-only log per agent: after any calls, reading an agent's journal
    gives its log, reading from an index gives the rest of the log or refuses an index past its end,
    forking gives the log up to and including a checkpoint and refuses anything else, and a further
    call either fails and changes nothing or puts one entry at the end of its own agent's log. *)
Theorem journal_is_append_only_log calls a :
  let s := after_calls calls in
  read_all s a = Ok (log a s) /\
  (forall i, read_from s a i
     = if (i <=? length (log a s))%nat then Ok (skipn i (log a s)) else Err (InvalidCheckpointIndex i)) /\
  (forall i data e, log a s !! i = Some e -> entry e = Checkpoint data ->
     fork_from s a i = Ok (firstn i (log a s) ++ [e])) /\
  (forall i es, fork_from s a i = Ok es ->
     exists e data, log a s !! i = Some e /\ entry e = Checkpoint data) /\
  (forall c, (exists err, run_call s c = (s, Err err)) \/
     exists e s', run_call s c = (s', Ok tt) /\ log (agent_id e) s' = log (agent_id e) s ++ [e] /\
       forall b, b <> agent_id e -> log b s' = log b s).
Proof.
  intros s. pose proof (after_calls_supported calls) as Hs. fold s in Hs.
  assert (Ha : agent_entries s a = Ok (log a s)) by by apply validated_supported, Forall_log.
  split_and!.
  - exact Ha.
  - intros i. unfold read_from. rewrite Ha. rewrite Nat.leb_antisym. by destruct (_ <? _)%nat.
  - intros i data e Hi He. unfold fork_from. rewrite Ha, Hi, He. f_equal. by apply take_S_r.
  - intros i es. unfold fork_from. rewrite Ha. destruct (log a s !! i) as [e|]; [|done].
    intros Hf. exists e. destruct (entry e); try done. by eexists.
  - intros c. destruct (run_call_cases s c) as [?|(e & _ & Hc)]; [by left|right].
    exists e, (s ++ [e]). split; [done|]. unfold log, is_agent. rewrite List.filter_app. cbn [List.filter].
    rewrite str_eqb_refl. split; [done|]. intros b Hb. rewrite List.filter_app. cbn [List.filter].
    destruct (str_eqb (agent_id e) b) eqn:E; bools; [congruence|by rewrite app_nil_r].
Qed.
End StoreProperties.

(** ** What replay gives back *)

Section ReplayProperties.
Context {Value : Type}.
Context (value_to_string : Value -> str) (debug : JournalEntryKind Value -> str).
Abbreviation Iterator := (JournalReplayIterator Value).

Definition advanced (it : Iterator) (n : nat) : Iterator :=
  {| recorded := recorded it; cursor := (cursor it + n)%nat; schema_mismatch := schema_mismatch it |}.

Lemma advanced_advanced it m n : advanced (advanced it m) n = advanced it (m + n).
Proof. unfold advanced. cbn. f_equal. lia. Qed.

Lemma next_at it e post :
  schema_mismatch it = None -> skipn (cursor it) (recorded it) = e :: post ->
  next_of (Some it) = (Some (advanced it 1), Some (entry e)) /\
  skipn (cursor (advanced it 1)) (recorded it) = post.
Proof.
  intros Hm Hs. unfold next_of, next_recorded, peek. rewrite Hm.
  assert (recorded it !! cursor it = Some e) as Hl.
  { rewrite <- (Nat.add_0_r (cursor it)), <- lookup_drop, Hs. done. }
  rewrite Hl. cbn [option_map]. unfold advanced. rewrite Nat.add_1_r, Hm. split; [done|].
  cbn. rewrite <- Nat.add_1_r, <- drop_drop, Hs. done.
Qed.

Lemma consume_loop_found pre e post it idx offset sel content is_err blocks id name :
  schema_mismatch it = None -> skipn (cursor it) (recorded it) = pre ++ e :: post ->
  offset = (idx + length pre)%nat -> entry e = ToolResult id name content is_err blocks ->
  consume_loop debug (S (length pre)) idx offset sel (Some it)
  = (Some (advanced it (S (length pre))), Ok (Some (content, is_err, blocks))).
Proof.
  intros Hm Hs -> He. revert it idx sel Hm Hs.
  induction pre as [|x pre IH]; intros it idx sel Hm Hs; cbn [app length] in *;
    destruct (next_at it _ _ Hm Hs) as [Hn Hs']; cbn [consume_loop]; rewrite Hn.
  - rewrite Nat.add_0_r, Nat.eqb_refl, He. done.
  - destruct (Nat.eqb_spec idx (idx + S (length pre))); [lia|].
    specialize (IH (advanced it 1) (S idx) sel Hm Hs').
    replace (idx + S (length pre))%nat with (S idx + length pre)%nat by lia.
    cbn [consume_loop] in IH. rewrite IH, advanced_advanced. done.
Qed.

Definition passed_over (tool_call_id tool_name : str) (e : JournalEntry Value) : Prop :=
  nested_entry (entry e) = true /\ is_result_of tool_call_id tool_name (entry e) = false.

Lemma scan_spec id name (es : list (JournalEntry Value)) off :
  match scan id name es off with
  | inl k => exists pre e post, es = pre ++ e :: post /\ k = (off + length pre)%nat /\
               Forall (passed_over id name) pre /\ is_result_of id name (entry e) = true
  | inr _ => forall pre e post, es = pre ++ e :: post -> Forall (passed_over id name) pre ->
               is_result_of id name (entry e) = false
  end.
Proof.
  revert off; induction es as [|x es IH]; intros off; cbn [scan].
  { intros pre e post E. by destruct pre. }
  destruct (is_result_of id name (entry x)) eqn:Er.
  { exists [], x, es. split_and!; [done|cbn; lia|constructor|done]. }
  destruct (nested_entry (entry x)) eqn:En.
  - specialize (IH (S off)). destruct (scan id name es (S off)) as [k|o].
    + destruct IH as (pre & e & post & -> & -> & Hp & He). exists (x :: pre), e, post.
      split_and!; [done|cbn; lia|by constructor|done].
    + intros [|y pre] e post [= -> ->] Hp; [done|]. inversion Hp; subst. by eapply IH.
  - intros [|y pre] e post [= -> ->] Hp; [done|]. inversion Hp as [|? ? [Hy _] _]; subst. congruence.
Qed.

(** A replayed tool call gets its own recorded result: from a journal of the supported version the
    first result with the call's id and tool name is returned, when only entries a tool call may
    nest stand before it, and the cursor is left just behind it; when there is none, nothing is
    consumed and no result is made up. *)
Theorem replay_finds_own_result id name it :
  schema_mismatch it = None ->
  let found pre e post := skipn (cursor it) (recorded it) = pre ++ e :: post /\
    Forall (passed_over id name) pre /\ is_result_of id name (entry e) = true in
  let taken := take_replay_tool_result value_to_string debug id name (Some it) in
  (exists pre e post content is_err blocks,
     found pre e post /\ entry e = ToolResult (Some id) name content is_err blocks /\
     taken = (Some (advanced it (S (length pre))), Ok (Some (content, is_err, blocks)))) \/
  ((forall pre e post, ~ found pre e post) /\ fst taken = Some it /\ forall r, snd taken <> Ok (Some r)).
Proof.
  intros Hm found taken. subst found taken. unfold take_replay_tool_result, has_replay_entry, at_frontier, replay_entries.
  rewrite Hm, negb_involutive. cbn zeta.
  destruct (length (recorded it) <=? cursor it)%nat eqn:Ef.
  { right. split_and!; [|done|done]. intros pre e post (E & _). apply Nat.leb_le in Ef.
    rewrite drop_ge in E by done. by destruct pre. }
  pose proof (scan_spec id name (skipn (cursor it) (recorded it)) 0) as Hs.
  destruct (scan _ _ _ _) as [k|o].
  - left. destruct Hs as (pre & e & post & Es & -> & Hp & He).
    assert (exists content is_err blocks, entry e = ToolResult (Some id) name content is_err blocks)
      as (content & is_err & blocks & Ee).
    { unfold is_result_of in He. destruct (entry e) as [| | | |[rid|] nm c b p| | | | | | | | | | |]; try done.
      bools. subst. by eexists _, _, _. }
    exists pre, e, post, content, is_err, blocks. split_and!; [done..|].
    cbn [Nat.add]. unfold consume_replay_tool_result_at. by eapply consume_loop_found.
  - right. split_and!; [|by destruct o|by destruct o]. intros pre e post (E & Hp & He).
    rewrite (Hs pre e post E Hp) in He. done.
Qed.
End ReplayProperties.

(** ** Replay at a concrete journal *)

Definition ex_entry (k : JournalEntryKind unit) : JournalEntry unit :=
  {| schema_version := 3; agent_id := "a"; timestamp_ms := 0; entry := k |}.

(** A shell call that wrote a file: the nested entries and then the result. *)
Definition ex_replay : JournalReplayIterator unit :=
  replay_new
    [ex_entry (FileWrite "/f" 2); ex_entry (ToolResult None "write_file" "ok" false []);
     ex_entry (ToolResult (Some (lit "c1")) "shell" "done" false []); ex_entry TurnStart].

Lemma replay_finds_own_result_witness :
  schema_mismatch ex_replay = None /\
  exists pre e post content is_err blocks,
    skipn (cursor ex_replay) (recorded ex_replay) = pre ++ e :: post /\
    entry e = ToolResult (Some (lit "c1")) "shell" content is_err blocks /\
    take_replay_tool_result (fun _ => []) (fun _ => []) "c1" "shell" (Some ex_replay)
    = (Some (advanced ex_replay (S (length pre))), Ok (Some (content, is_err, blocks))).
Proof.
  split; [reflexivity|].
  destruct (replay_finds_own_result (fun _ => []) (fun _ => []) "c1" "shell" ex_replay eq_refl)
    as [(pre & e & post & content & is_err & blocks & (Es & _) & Ee & Et)|(_ & _ & Hr)].
  - exists pre, e, post, content, is_err, blocks. split; [exact Es|]. split; [exact Ee|exact Et].
  - exfalso. eapply Hr. vm_compute. reflexivity.
Defined.
