(* ===== verification/Supervisor.v ===== *)
(** * The supervisor: spawning, budgets and restarts

    Models [crates/simulacra-runtime/src/supervisor/]: the state of [mod.rs], the data of [types.rs],
    the validation, reservation and settlement of [spawn.rs], the launch of a child ([actor.rs]) and
    the restart policy ([restart.rs]).  [Children] continues with the queries and the dispatcher.

    An account and its budget are shared: the supervisor's maps and the reservations of running
    children hold the same [Arc].  Accounts therefore live in a heap and are named by locations.  The
    mutexes make each operation atomic.  Error messages use [Debug] printing, a parameter, as are the
    arithmetic of [rust_decimal] and the task factory, a trait of the embedding.  Spans, log events
    and the activity sink are left out. *)

From S2P Require Import Prelude.
From S2P Require Import Text.
From S2P Require Import Context.
From S2P Require Import Budget.
From S2P Require Import Capability.
From S2P Require Import Journal.

(** ** Data *)

Variant RestartStrategy := RetryOnce | RetryTwiceThenFail | SnapshotAndFail | LetCrash.

Variant AgentBackend := Native | Acp.

Variant ExitReason :=
| Complete
| MaxTurns
| BudgetExhaustedExit
| GuardrailTripped (reason : str)
| AwaitingApproval
| Cancelled
| PolicyKill (hook reason : str)
| Refusal
| ErrorExit (message : str).

(** The errors the modelled code raises; an error it only passes on (of a provider, a tool, the sandbox)
    is an [OtherError] with its message. *)
Variant RuntimeError :=
| Session (message : str)
| BudgetError (e : BudgetExhausted)
| CapabilityViolation (message : str)
| HookDenialError (reason : str)
| HookFailure (message : str)
| HookKillError (hook reason : str)
| JournalAppendFailed (entry_kind : str) (source : JournalError)
| SpawnMissingTask
| SpawnMissingJournal
| AcpChildRuntimeMissing (placement acp_profile : str)
| JournalFailure (e : JournalError)
| OtherError (message : str).

Definition runtime_error_to_string (e : RuntimeError) : str :=
  match e with
  | Session m => "session error: " ++ m
  | CapabilityViolation m => "capability violation: " ++ m
  | BudgetError e => "budget exhausted: " ++ budget_exhausted_to_string e
  | HookDenialError m => "hook denied operation: " ++ m
  | HookFailure m => "hook error: " ++ m
  | HookKillError hook reason => "hook killed execution: " ++ hook ++ ": " ++ reason
  | JournalAppendFailed k s => "journal append failed for " ++ k ++ ": " ++ journal_error_to_string s
  | SpawnMissingTask => "spawn_agent called on a supervisor with no task factory configured"
  | SpawnMissingJournal =>
      "spawn_agent called on a supervisor with no journal storage configured; call set_journal_storage before spawning"
  | AcpChildRuntimeMissing p profile =>
      "child placement " ++ Capability.debug_str p ++ " requires an injected ACP runtime for profile "
        ++ Capability.debug_str profile
  | JournalFailure e => "journal error: " ++ journal_error_to_string e
  | OtherError m => m
  end.

(** [CapabilityToken::default()]. *)
Definition CapabilityToken_default : CapabilityToken :=
  {| network := []; mcp_tools := []; shell := false; javascript := false; python := false;
     paths_write := []; paths_read := []; spawn_placements := []; skill_patterns := [];
     memory := empty_memory |}.

(** The arithmetic of [Decimal] the supervisor uses. *)
Class DecimalArith (Decimal : Type) := {
  decimal_eqb : Decimal -> Decimal -> bool;
  decimal_gt : Decimal -> Decimal -> bool;
  decimal_checked_add : Decimal -> Decimal -> option Decimal;
  decimal_checked_sub : Decimal -> Decimal -> option Decimal;
  decimal_min : Decimal -> Decimal -> Decimal;
  decimal_sub : Decimal -> Decimal -> Decimal;
  decimal_add : Decimal -> Decimal -> Decimal;
  decimal_max_value : Decimal;
}.

Definition u32_max : N := 4294967295.
(** [u32::saturating_add]. *)
Definition saturating_add32 (a b : N) : N := N.min u32_max (a + b)%N.

Section Supervisor.
Context {Value Decimal J : Type} `{DecimalOps Decimal} `{DecimalArith Decimal}
  `{@JournalStorage Value Decimal J}.

(** [{:?}] of a string. *)
Context (debug_str : str -> str).

Record SpawnConfig := {
  spawn_agent_id : AgentId;
  parent_id : AgentId;
  capability : option CapabilityToken;
  spawn_budget : ResourceBudget Decimal;
  restart_strategy : RestartStrategy;
  placement : str;
  task : str;
  instructions : option str;
  placement_target : option str;
}.

Record AgentLoopOutput := {
  exit_reason : ExitReason;
  messages : list (@Message Value);
  token_usage : TokenUsage;
  reported_tool_uses : option N;
  output_turns : N;
  output_cost : Decimal;
}.

Definition SpawnResult := result AgentLoopOutput RuntimeError.

Record ChildTerminalResult := {
  terminal_id : AgentId;
  terminal_placement : str;
  terminal_status : str;
  elapsed_ms : N;
  tool_uses : N;
  terminal_result : result AgentLoopOutput str;
}.

Record ChildMetadata := {
  child_id : AgentId;
  child_placement : str;
  child_task : str;
  owner : AgentId;
  child_capability : CapabilityToken;
  started_at_ms : N;
  finished_at_ms : option N;
}.

(** A oneshot sender, by its number; a wait waiter holds its sender in a cell it shares with the other
    children it waits for, so it is named by its waiter id. *)
Abbreviation Sender := nat (only parsing).

Variant ChildWaiterSender := Single (s : Sender) | Any (s : Sender).
Record ChildWaiter := { waiter_id : N; child_ids : list AgentId }.

Record ChildRunState := {
  metadata : ChildMetadata;
  run_result : option ChildTerminalResult;
  result_delivered : bool;
  join_waiters : list Sender;
  wait_waiters : list ChildWaiter;
}.

Record AgentBudgetAccount := {
  budget : ResourceBudget Decimal;
  reserved_tokens : N;
  reserved_turns : N;
  reserved_cost : Decimal;
}.

Abbreviation Loc := nat (only parsing).

Record BudgetReservation := {
  reservation_parent : Loc;
  reservation_tokens : N;
  reservation_turns : N;
  reservation_cost : Decimal;
}.

Definition account_new (b : ResourceBudget Decimal) : AgentBudgetAccount :=
  {| budget := b; reserved_tokens := 0; reserved_turns := 0; reserved_cost := decimal_zero |}.

(** The task factory of the embedding. *)
Record TaskFactory := {
  validate_spawn_config : SpawnConfig -> result unit RuntimeError;
  placement_backend : SpawnConfig -> AgentBackend;
  prepare_spawn_config_for_caller : SpawnConfig -> CapabilityToken -> result SpawnConfig RuntimeError;
}.

Record AgentSupervisor := {
  parent_capability : CapabilityToken;
  root_agent_id : option AgentId;
  accounts : gmap Loc AgentBudgetAccount;
  root_budget_account : Loc;
  accepted_child_ids : gset AgentId;
  child_budget_accounts : gmap AgentId Loc;
  budget_reservations : gmap AgentId BudgetReservation;
  retry_counts : gmap AgentId N;
  retry_counts_shared : gmap AgentId N;
  cancellation_tokens : gmap AgentId bool;
  child_inputs : gmap AgentId (list str);
  child_results : gmap AgentId ChildRunState;
  wait_counter : N;
  wait_senders : gmap N ChildWaiterSender;
  task_factory : option TaskFactory;
  journal_storage : option J;
}.

(** [with_task_factory], [set_journal_storage] and [set_root_agent_id]. *)
Definition supervisor_new (cap : CapabilityToken) (b : ResourceBudget Decimal) (root : option AgentId)
    (factory : option TaskFactory) (j : option J) : AgentSupervisor :=
  {| parent_capability := cap; root_agent_id := root; accounts := {[0%nat := account_new b]};
     root_budget_account := 0%nat; accepted_child_ids := ∅; child_budget_accounts := ∅;
     budget_reservations := ∅; retry_counts := ∅; retry_counts_shared := ∅; cancellation_tokens := ∅; child_inputs := ∅;
     child_results := ∅; wait_counter := 1; wait_senders := ∅; task_factory := factory;
     journal_storage := j |}.

(** Field updates. *)
Definition set_accounts (x : gmap Loc AgentBudgetAccount) (s : AgentSupervisor) : AgentSupervisor :=
  {| parent_capability := parent_capability s; root_agent_id := root_agent_id s; accounts := x;
     root_budget_account := root_budget_account s; accepted_child_ids := accepted_child_ids s;
     child_budget_accounts := child_budget_accounts s;
     budget_reservations := budget_reservations s; retry_counts := retry_counts s; retry_counts_shared := retry_counts_shared s;
     cancellation_tokens := cancellation_tokens s; child_inputs := child_inputs s;
     child_results := child_results s; wait_counter := wait_counter s;
     wait_senders := wait_senders s; task_factory := task_factory s;
     journal_storage := journal_storage s |}.
Definition set_accepted (x : gset AgentId) (s : AgentSupervisor) : AgentSupervisor :=
  {| parent_capability := parent_capability s; root_agent_id := root_agent_id s;
     accounts := accounts s; root_budget_account := root_budget_account s;
     accepted_child_ids := x; child_budget_accounts := child_budget_accounts s;
     budget_reservations := budget_reservations s; retry_counts := retry_counts s; retry_counts_shared := retry_counts_shared s;
     cancellation_tokens := cancellation_tokens s; child_inputs := child_inputs s;
     child_results := child_results s; wait_counter := wait_counter s;
     wait_senders := wait_senders s; task_factory := task_factory s;
     journal_storage := journal_storage s |}.
Definition set_child_accounts (x : gmap AgentId Loc) (s : AgentSupervisor) : AgentSupervisor :=
  {| parent_capability := parent_capability s; root_agent_id := root_agent_id s;
     accounts := accounts s; root_budget_account := root_budget_account s;
     accepted_child_ids := accepted_child_ids s; child_budget_accounts := x;
     budget_reservations := budget_reservations s; retry_counts := retry_counts s; retry_counts_shared := retry_counts_shared s;
     cancellation_tokens := cancellation_tokens s; child_inputs := child_inputs s;
     child_results := child_results s; wait_counter := wait_counter s;
     wait_senders := wait_senders s; task_factory := task_factory s;
     journal_storage := journal_storage s |}.
Definition set_reservations (x : gmap AgentId BudgetReservation) (s : AgentSupervisor) : AgentSupervisor :=
  {| parent_capability := parent_capability s; root_agent_id := root_agent_id s;
     accounts := accounts s; root_budget_account := root_budget_account s;
     accepted_child_ids := accepted_child_ids s;
     child_budget_accounts := child_budget_accounts s; budget_reservations := x;
     retry_counts := retry_counts s; retry_counts_shared := retry_counts_shared s; cancellation_tokens := cancellation_tokens s;
     child_inputs := child_inputs s; child_results := child_results s;
     wait_counter := wait_counter s; wait_senders := wait_senders s;
     task_factory := task_factory s; journal_storage := journal_storage s |}.
Definition set_retry_counts (x : gmap AgentId N) (s : AgentSupervisor) : AgentSupervisor :=
  {| parent_capability := parent_capability s; root_agent_id := root_agent_id s;
     accounts := accounts s; root_budget_account := root_budget_account s;
     accepted_child_ids := accepted_child_ids s;
     child_budget_accounts := child_budget_accounts s;
     budget_reservations := budget_reservations s; retry_counts := x; retry_counts_shared := retry_counts_shared s;
     cancellation_tokens := cancellation_tokens s; child_inputs := child_inputs s;
     child_results := child_results s; wait_counter := wait_counter s;
     wait_senders := wait_senders s; task_factory := task_factory s;
     journal_storage := journal_storage s |}.
Definition set_retry_counts_shared (x : gmap AgentId N) (s : AgentSupervisor) : AgentSupervisor :=
  {| parent_capability := parent_capability s; root_agent_id := root_agent_id s;
     accounts := accounts s; root_budget_account := root_budget_account s;
     accepted_child_ids := accepted_child_ids s;
     child_budget_accounts := child_budget_accounts s;
     budget_reservations := budget_reservations s; retry_counts := retry_counts s; retry_counts_shared := x;
     cancellation_tokens := cancellation_tokens s; child_inputs := child_inputs s;
     child_results := child_results s; wait_counter := wait_counter s;
     wait_senders := wait_senders s; task_factory := task_factory s;
     journal_storage := journal_storage s |}.
Definition set_tokens (x : gmap AgentId bool) (s : AgentSupervisor) : AgentSupervisor :=
  {| parent_capability := parent_capability s; root_agent_id := root_agent_id s;
     accounts := accounts s; root_budget_account := root_budget_account s;
     accepted_child_ids := accepted_child_ids s;
     child_budget_accounts := child_budget_accounts s;
     budget_reservations := budget_reservations s; retry_counts := retry_counts s; retry_counts_shared := retry_counts_shared s;
     cancellation_tokens := x; child_inputs := child_inputs s; child_results := child_results s;
     wait_counter := wait_counter s; wait_senders := wait_senders s;
     task_factory := task_factory s; journal_storage := journal_storage s |}.
Definition set_inputs (x : gmap AgentId (list str)) (s : AgentSupervisor) : AgentSupervisor :=
  {| parent_capability := parent_capability s; root_agent_id := root_agent_id s;
     accounts := accounts s; root_budget_account := root_budget_account s;
     accepted_child_ids := accepted_child_ids s;
     child_budget_accounts := child_budget_accounts s;
     budget_reservations := budget_reservations s; retry_counts := retry_counts s; retry_counts_shared := retry_counts_shared s;
     cancellation_tokens := cancellation_tokens s; child_inputs := x;
     child_results := child_results s; wait_counter := wait_counter s;
     wait_senders := wait_senders s; task_factory := task_factory s;
     journal_storage := journal_storage s |}.
Definition set_results (x : gmap AgentId ChildRunState) (s : AgentSupervisor) : AgentSupervisor :=
  {| parent_capability := parent_capability s; root_agent_id := root_agent_id s;
     accounts := accounts s; root_budget_account := root_budget_account s;
     accepted_child_ids := accepted_child_ids s;
     child_budget_accounts := child_budget_accounts s;
     budget_reservations := budget_reservations s; retry_counts := retry_counts s; retry_counts_shared := retry_counts_shared s;
     cancellation_tokens := cancellation_tokens s; child_inputs := child_inputs s;
     child_results := x; wait_counter := wait_counter s; wait_senders := wait_senders s;
     task_factory := task_factory s; journal_storage := journal_storage s |}.
Definition set_wait_counter (x : N) (s : AgentSupervisor) : AgentSupervisor :=
  {| parent_capability := parent_capability s; root_agent_id := root_agent_id s;
     accounts := accounts s; root_budget_account := root_budget_account s;
     accepted_child_ids := accepted_child_ids s;
     child_budget_accounts := child_budget_accounts s;
     budget_reservations := budget_reservations s; retry_counts := retry_counts s; retry_counts_shared := retry_counts_shared s;
     cancellation_tokens := cancellation_tokens s; child_inputs := child_inputs s;
     child_results := child_results s; wait_counter := x; wait_senders := wait_senders s;
     task_factory := task_factory s; journal_storage := journal_storage s |}.
Definition set_wait_senders (x : gmap N ChildWaiterSender) (s : AgentSupervisor) : AgentSupervisor :=
  {| parent_capability := parent_capability s; root_agent_id := root_agent_id s;
     accounts := accounts s; root_budget_account := root_budget_account s;
     accepted_child_ids := accepted_child_ids s;
     child_budget_accounts := child_budget_accounts s;
     budget_reservations := budget_reservations s; retry_counts := retry_counts s; retry_counts_shared := retry_counts_shared s;
     cancellation_tokens := cancellation_tokens s; child_inputs := child_inputs s;
     child_results := child_results s; wait_counter := wait_counter s; wait_senders := x;
     task_factory := task_factory s; journal_storage := journal_storage s |}.
Definition set_journal (x : option J) (s : AgentSupervisor) : AgentSupervisor :=
  {| parent_capability := parent_capability s; root_agent_id := root_agent_id s;
     accounts := accounts s; root_budget_account := root_budget_account s;
     accepted_child_ids := accepted_child_ids s;
     child_budget_accounts := child_budget_accounts s;
     budget_reservations := budget_reservations s; retry_counts := retry_counts s; retry_counts_shared := retry_counts_shared s;
     cancellation_tokens := cancellation_tokens s; child_inputs := child_inputs s;
     child_results := child_results s; wait_counter := wait_counter s;
     wait_senders := wait_senders s; task_factory := task_factory s; journal_storage := x |}.

Definition Sup (A : Type) : Type := SE AgentSupervisor RuntimeError A.

(** The account an [Arc] points to. *)
Definition account_at (s : AgentSupervisor) (l : Loc) : AgentBudgetAccount :=
  unwrap_or (accounts s !! l) (account_new (budget_new 0 0 decimal_zero 0)).
Definition put_account (l : Loc) (a : AgentBudgetAccount) (s : AgentSupervisor) : AgentSupervisor :=
  set_accounts (<[l := a]> (accounts s)) s.

Definition set_used_sub_agents (b : ResourceBudget Decimal) (n : N) : ResourceBudget Decimal :=
  {| max_tokens := max_tokens b; max_turns := max_turns b; max_cost := max_cost b;
     max_sub_agents := max_sub_agents b; max_vfs_bytes := max_vfs_bytes b; used_tokens := used_tokens b;
     used_turns := used_turns b; used_cost := used_cost b; used_sub_agents := n;
     used_vfs_bytes := used_vfs_bytes b; max_fuel := max_fuel b; used_fuel := used_fuel b |}.
Definition set_usage (b : ResourceBudget Decimal) (tokens turns : N) (cost : Decimal) : ResourceBudget Decimal :=
  {| max_tokens := max_tokens b; max_turns := max_turns b; max_cost := max_cost b;
     max_sub_agents := max_sub_agents b; max_vfs_bytes := max_vfs_bytes b; used_tokens := tokens;
     used_turns := turns; used_cost := cost; used_sub_agents := used_sub_agents b;
     used_vfs_bytes := used_vfs_bytes b; max_fuel := max_fuel b; used_fuel := used_fuel b |}.

(** ** Who is calling *)

Definition require_bound_root : Sup AgentId := fun s =>
  (s, ok_or (root_agent_id s) (CapabilityViolation
    "supervisor root identity is unbound; bind the configured root agent id before exposing spawn or child-control operations")).

Definition ensure_child_id_is_new (c : AgentId) : Sup unit := fun s =>
  (s, if bool_decide (c ∈ accepted_child_ids s) then
        Err (CapabilityViolation ("child_id " ++ debug_str c
          ++ " was already accepted by this supervisor and cannot be reused"))
      else Ok tt).

Definition record_accepted_child_id (c : AgentId) (s : AgentSupervisor) : AgentSupervisor :=
  set_accepted ({[c]} ∪ accepted_child_ids s) s.

Definition budget_account_for_caller (caller : AgentId) : Sup Loc :=
  let! root := require_bound_root in
  if str_eqb root caller then fun s => (s, Ok (root_budget_account s))
  else fun s => (s, ok_or (child_budget_accounts s !! caller)
    (CapabilityViolation ("unknown or unauthenticated budget owner " ++ debug_str caller))).

Definition require_spawn_journal : Sup unit := fun s =>
  (s, match journal_storage s with Some _ => Ok tt | None => Err SpawnMissingJournal end).

Definition capability_for_caller (caller : AgentId) : Sup CapabilityToken :=
  let! root := require_bound_root in
  if str_eqb root caller then fun s => (s, Ok (parent_capability s))
  else fun s => (s, ok_or (option_map (fun st => child_capability (metadata st)) (child_results s !! caller))
    (CapabilityViolation ("unknown or unauthenticated caller " ++ debug_str caller
       ++ "; supervisor root is " ++ debug_str root))).

(** [Vec<String>::dedup]. *)
Fixpoint dedup (l : list str) : list str :=
  match l with
  | x :: (y :: _) as rest => if str_eqb x y then dedup rest else x :: dedup rest
  | _ => l
  end.

Definition debug_list (l : list str) : str := "[" ++ join ", " (List.map debug_str l) ++ "]".

Definition validate_spawn_authorization (config : SpawnConfig) : Sup unit :=
  let! caller_capability := capability_for_caller (parent_id config) in
  if negb (mem (placement config) (spawn_placements caller_capability)) then
    se_err (CapabilityViolation ("placement " ++ debug_str (placement config)
      ++ " is not authorized for caller " ++ debug_str (parent_id config)
      ++ "; available spawn_placements: "
      ++ debug_list (dedup (merge_sort str_le (spawn_placements caller_capability)))))
  else match capability config with
  | Some cap =>
      if is_subset_of cap caller_capability then se_ret tt
      else se_err (CapabilityViolation ("child capability is not a subset of caller "
             ++ debug_str (parent_id config) ++ " capability"))
  | None => se_ret tt
  end.

(** ** Budgets *)

(** [validate_supervisor_limit], at the type [T] of the limit. *)
Definition validate_supervisor_limit {T} (zero : T) (eqb gt : T -> T -> bool) (show : T -> str)
    (field : str) (requested parent_maximum parent_remaining : T) : result unit RuntimeError :=
  if eqb requested zero && negb (eqb parent_maximum zero) then
    Err (BudgetError {|
      Budget.resource := field ++ " requested " ++ show requested
        ++ " (unlimited), but immediate parent limit " ++ show parent_maximum ++ " is finite";
      used := show requested; limit := show parent_maximum |})
  else if negb (eqb requested zero) && negb (eqb parent_maximum zero) && gt requested parent_remaining then
    Err (BudgetError {|
      Budget.resource := field ++ " requested " ++ show requested
        ++ " exceeds immediate parent remaining " ++ show parent_remaining
        ++ " (limit " ++ show parent_maximum ++ ")";
      used := show requested; limit := show parent_remaining |})
  else Ok tt.

Definition validate_count (field : str) (requested maximum remaining : N) : result unit RuntimeError :=
  validate_supervisor_limit 0%N N.eqb (fun a b => (b <? a)%N) dec field requested maximum remaining.

Definition validate_budget_against_account (requested : ResourceBudget Decimal) (account : AgentBudgetAccount)
    : result unit RuntimeError :=
  let b := budget account in
  let? _ := validate_count "max_tokens" (max_tokens requested) (max_tokens b)
    (max_tokens b - saturating_add (used_tokens b) (reserved_tokens account))%N in
  let? _ := validate_count "max_turns" (max_turns requested) (max_turns b)
    (max_turns b - saturating_add32 (used_turns b) (reserved_turns account))%N in
  let committed_cost := decimal_min
    (unwrap_or (decimal_checked_add (used_cost b) (reserved_cost account)) decimal_max_value) (max_cost b) in
  let? _ := validate_supervisor_limit decimal_zero decimal_eqb decimal_gt decimal_to_string
    "max_cost" (max_cost requested) (max_cost b) (decimal_sub (max_cost b) committed_cost) in
  validate_count "max_sub_agents" (max_sub_agents requested) (max_sub_agents b)
    (max_sub_agents b - used_sub_agents b)%N.

Definition validate_spawn_budget (config : SpawnConfig) : Sup unit :=
  let! l := budget_account_for_caller (parent_id config) in
  let! s := se_get in
  let! _ := se_lift (validate_budget_against_account (spawn_budget config) (account_at s l)) in
  se_lift (map_err BudgetError (check_budget (spawn_budget config))).

(** Take the reservation [r] from its parent's account. *)
Definition release (r : BudgetReservation) (a : AgentBudgetAccount) : AgentBudgetAccount :=
  {| budget := budget a;
     reserved_tokens := (reserved_tokens a - reservation_tokens r)%N;
     reserved_turns := (reserved_turns a - reservation_turns r)%N;
     reserved_cost := unwrap_or (decimal_checked_sub (reserved_cost a) (reservation_cost r)) decimal_zero |}.

Definition with_budget (f : ResourceBudget Decimal -> ResourceBudget Decimal) (a : AgentBudgetAccount)
    : AgentBudgetAccount :=
  {| budget := f (budget a); reserved_tokens := reserved_tokens a; reserved_turns := reserved_turns a;
     reserved_cost := reserved_cost a |}.

Definition reserve (config : SpawnConfig) (a : AgentBudgetAccount) : AgentBudgetAccount :=
  let b := spawn_budget config in
  {| budget := set_used_sub_agents (budget a) (saturating_add32 (used_sub_agents (budget a)) 1);
     reserved_tokens := saturating_add (reserved_tokens a) (max_tokens b);
     reserved_turns := saturating_add32 (reserved_turns a) (max_turns b);
     reserved_cost := unwrap_or (decimal_checked_add (reserved_cost a) (max_cost b)) decimal_max_value |}.

(** The reservation, with a new account for the child. *)
Definition reserve_spawn_budget (config : SpawnConfig) : Sup unit :=
  let! parent := budget_account_for_caller (parent_id config) in
  let! s := se_get in
  let! _ := se_lift (validate_budget_against_account (spawn_budget config) (account_at s parent)) in
  let b := spawn_budget config in
  let child := fresh (dom (accounts s)) in
  se_modify (fun s =>
    let s := put_account parent (reserve config (account_at s parent)) s in
    let s := put_account child (account_new b) s in
    let s := set_child_accounts (<[spawn_agent_id config := child]> (child_budget_accounts s)) s in
    set_reservations (<[spawn_agent_id config :=
      {| reservation_parent := parent; reservation_tokens := max_tokens b;
         reservation_turns := max_turns b; reservation_cost := max_cost b |}]> (budget_reservations s)) s).

Definition total_tokens (u : TokenUsage) : N := saturating_add (input_tokens u) (output_tokens u).

Definition charge_budget_usage (output : AgentLoopOutput) (b : ResourceBudget Decimal) : ResourceBudget Decimal :=
  set_usage b (saturating_add (used_tokens b) (total_tokens (token_usage output)))
    (saturating_add32 (used_turns b) (output_turns output))
    (decimal_add (used_cost b) (output_cost output)).

Definition settle_budget_reservation (c : AgentId) (result : SpawnResult) (s : AgentSupervisor) : AgentSupervisor :=
  match budget_reservations s !! c with
  | Some r =>
      let s := set_reservations (delete c (budget_reservations s)) s in
      let a := release r (account_at s (reservation_parent r)) in
      put_account (reservation_parent r)
        (match result with Ok output => with_budget (charge_budget_usage output) a | Err _ => a end) s
  | None => s
  end.

Definition rollback_unaccepted_budget (c : AgentId) (s : AgentSupervisor) : AgentSupervisor :=
  let s :=
    match budget_reservations s !! c with
    | Some r =>
        let s := set_reservations (delete c (budget_reservations s)) s in
        let a := release r (account_at s (reservation_parent r)) in
        put_account (reservation_parent r)
          (with_budget (fun b => set_used_sub_agents b (used_sub_agents b - 1)%N) a) s
    | None => s
    end in
  set_child_accounts (delete c (child_budget_accounts s)) s.

(** ** Accepting a spawn *)

(** [journal.append] of the supervisor's storage. *)
Definition append_entry (kind : str) (e : @JournalEntry Value) : Sup unit := fun s =>
  match journal_storage s with
  | None => (s, Err SpawnMissingJournal)
  | Some j =>
      let '(j, r) := journal_append j e in
      (set_journal (Some j) s, map_err (JournalAppendFailed kind) r)
  end.

Definition backend_name (b : AgentBackend) : str := match b with Native => "native" | Acp => "acp" end.

Definition spawned_entry (now : N) (config : SpawnConfig) (backend : AgentBackend) : @JournalEntry Value :=
  {| schema_version := JOURNAL_SCHEMA_VERSION; agent_id := parent_id config; timestamp_ms := now;
     entry := SubAgentSpawned (spawn_agent_id config) (placement config) (backend_name backend)
       (task config) (instructions config) (placement_target config) |}.

Definition prepare_spawn (now : N) (config : SpawnConfig) (backend : AgentBackend) : Sup unit :=
  append_entry "SubAgentSpawned" (spawned_entry now config backend).

Definition child_metadata (config : SpawnConfig) (started : N) : ChildMetadata :=
  {| child_id := spawn_agent_id config; child_placement := placement config; child_task := task config;
     owner := parent_id config;
     child_capability := unwrap_or (capability config) CapabilityToken_default;
     started_at_ms := started; finished_at_ms := None |}.

(** The maps [spawn_task_into] fills before the task starts. *)
Definition launch (now : N) (config : SpawnConfig) (s : AgentSupervisor) : AgentSupervisor :=
  let c := spawn_agent_id config in
  let s := set_tokens (<[c := false]> (cancellation_tokens s)) s in
  let s := set_inputs (<[c := []]> (child_inputs s)) s in
  set_results (<[c := {| metadata := child_metadata config now; run_result := None;
    result_delivered := false; join_waiters := []; wait_waiters := [] |}]> (child_results s)) s.

Record SpawnAck := { ack_child : AgentId; ack_placement : str; ack_backend : AgentBackend }.

(** The checks that shape a request with the factory; every one of them comes before the first
    effect. *)
Definition shape_spawn (factory : TaskFactory) (config : SpawnConfig) : Sup SpawnConfig :=
  let! _ := se_lift (validate_spawn_config factory config) in
  let! _ := require_spawn_journal in
  let! _ := validate_spawn_budget config in
  let! caller_capability := capability_for_caller (parent_id config) in
  let! config := se_lift (prepare_spawn_config_for_caller factory config caller_capability) in
  let! _ := validate_spawn_authorization config in
  let! _ := validate_spawn_budget config in
  se_ret config.

(** The checks of a [Spawn] message, up to the configuration the factory shaped. *)
Definition check_spawn (caller : AgentId) (config : SpawnConfig) : Sup (TaskFactory * SpawnConfig) :=
  let! _ := require_bound_root in
  if negb (str_eqb caller (parent_id config)) then
    se_err (CapabilityViolation ("caller " ++ debug_str caller ++ " cannot spawn as parent "
      ++ debug_str (parent_id config)))
  else
    let! _ := ensure_child_id_is_new (spawn_agent_id config) in
    let! _ := validate_spawn_authorization config in
    let! s := se_get in
    let! factory := se_lift (ok_or (task_factory s) SpawnMissingTask) in
    let! config := shape_spawn factory config in
    se_ret (factory, config).

(** Reserve, journal, and enter the child; a failed append gives the reservation back. *)
Definition accept_spawn (now : N) (factory : TaskFactory) (config : SpawnConfig) : Sup SpawnAck :=
  let backend := placement_backend factory config in
  let! _ := reserve_spawn_budget config in
  let! prepared := se_try (prepare_spawn now config backend) in
  match prepared with
  | Err e =>
      let! _ := se_modify (rollback_unaccepted_budget (spawn_agent_id config)) in se_err e
  | Ok _ =>
      let! _ := se_modify (record_accepted_child_id (spawn_agent_id config)) in
      let! _ := se_modify (launch now config) in
      se_ret {| ack_child := spawn_agent_id config; ack_placement := placement config; ack_backend := backend |}
  end.

(** The [Spawn] payload of [dispatch_message_into]: the acknowledgement, and the configuration the task
    is started with. *)
Definition dispatch_spawn (now : N) (caller : AgentId) (config : SpawnConfig) : Sup (SpawnAck * SpawnConfig) :=
  let! (factory, config) := check_spawn caller config in
  let! ack := accept_spawn now factory config in
  se_ret (ack, config).

(** [spawn_agent] up to the first poll of the task. *)
Definition accept_spawn_agent (now : N) (config : SpawnConfig) : Sup SpawnConfig :=
  let! _ := require_bound_root in
  let! _ := ensure_child_id_is_new (spawn_agent_id config) in
  let! _ := validate_spawn_authorization config in
  let! s := se_get in
  match task_factory s with
  | None => let! _ := validate_spawn_budget config in se_err SpawnMissingTask
  | Some factory =>
      let! config := shape_spawn factory config in
      let! _ := accept_spawn now factory config in
      se_ret config
  end.

(** ** Restarts *)

Definition retry_limit (strategy : RestartStrategy) : option N :=
  match strategy with
  | RetryOnce => Some 1
  | RetryTwiceThenFail => Some 2
  | SnapshotAndFail | LetCrash => None
  end%N.

Definition should_retry (c : AgentId) (strategy : RestartStrategy) (counts : gmap AgentId N)
    : gmap AgentId N * bool :=
  match retry_limit strategy with
  | None => (counts, false)
  | Some limit =>
      let count := unwrap_or (counts !! c) 0%N in
      if (count <? limit)%N then (<[c := (count + 1)%N]> counts, true)
      else (<[c := count]> counts, false)
  end.

(** What stands for the run of a task: the token that cancels it, and what it returns under it.  A
    restarted task gets a token of its own. *)
Variant TaskToken := Registered | Fresh (attempt : nat).

(** The loop of [run_task_with_retries]: [attempt k] is what the [k]-th run of the task returns; the
    runs so far are [k]. *)
Fixpoint retry_loop (fuel : nat) (c : AgentId) (strategy : RestartStrategy) (attempt : nat -> SpawnResult)
    (k : nat) (counts : gmap AgentId N) : option (gmap AgentId N * (nat * SpawnResult)) :=
  match attempt k with
  | Ok output => Some (counts, (k, Ok output))
  | Err e =>
      let '(counts, retry) := should_retry c strategy counts in
      if retry then
        match fuel with
        | O => None
        | S fuel => retry_loop fuel c strategy attempt (S k) counts
        end
      else Some (counts, (k, Err e))
  end.

(** The token the [k]-th run holds. *)
Definition task_token (k : nat) : TaskToken := match k with O => Registered | S _ => Fresh k end.

(** Enough fuel for any strategy. *)
Definition retry_fuel : nat := 2.

Definition run_task_with_retries (config : SpawnConfig) (attempt : nat -> SpawnResult) (s : AgentSupervisor)
    : option (AgentSupervisor * (nat * SpawnResult)) :=
  match retry_loop retry_fuel (spawn_agent_id config) (restart_strategy config) attempt 0 (retry_counts_shared s) with
  | Some (counts, r) => Some (set_retry_counts_shared counts s, r)
  | None => None
  end.

(** [handle_failure]; the checkpoint a [SnapshotAndFail] saves is in the journal. *)
Definition handle_failure (c : AgentId) (strategy : RestartStrategy) (s : AgentSupervisor) : AgentSupervisor * bool :=
  match strategy with
  | RetryOnce | RetryTwiceThenFail =>
      let '(counts, b) := should_retry c strategy (retry_counts s) in (set_retry_counts counts s, b)
  | SnapshotAndFail =>
      (match journal_storage s with
       | Some j =>
           let cp := {| checkpoint_messages := [];
                        budget_snapshot := budget (account_at s (root_budget_account s)); vfs_snapshot := None |} in
           set_journal (Some (fst (journal_save_checkpoint j c 0 cp))) s
       | None => s
       end, false)
  | LetCrash => (s, false)
  end.

(** ** Completion *)

Definition child_exit_success (r : ExitReason) : option bool :=
  match r with
  | Complete | MaxTurns | BudgetExhaustedExit => Some true
  | ErrorExit _ | GuardrailTripped _ | PolicyKill _ _ | Refusal | Cancelled => Some false
  | AwaitingApproval => None
  end.

Definition status_from_spawn_result (r : SpawnResult) : str :=
  match r with
  | Ok output =>
      match exit_reason output with
      | Complete | MaxTurns | BudgetExhaustedExit => "completed"
      | ErrorExit _ | GuardrailTripped _ | PolicyKill _ _ | Refusal => "failed"
      | Cancelled => "cancelled"
      | AwaitingApproval => "running"
      end
  | Err _ => "failed"
  end.

Definition count_tool_uses (o : AgentLoopOutput) : N :=
  match reported_tool_uses o with
  | Some reported => reported
  | None => N.of_nat (length (List.filter (fun m => bool_decide (role m = Tool)) (messages o)))
  end.

(** [await_awaiting_approval_terminal], once the token was signalled. *)
Definition await_awaiting_approval_terminal (r : SpawnResult) : SpawnResult :=
  match r with
  | Ok o =>
      match exit_reason o with
      | AwaitingApproval =>
          Ok {| exit_reason := Cancelled; messages := messages o; token_usage := token_usage o;
                reported_tool_uses := reported_tool_uses o; output_turns := output_turns o;
                output_cost := output_cost o |}
      | _ => Ok o
      end
  | Err e => Err e
  end.

Definition completed_entry (now : N) (parent c : AgentId) (ok : bool) : @JournalEntry Value :=
  {| schema_version := JOURNAL_SCHEMA_VERSION; agent_id := parent; timestamp_ms := now;
     entry := SubAgentCompleted c ok |}.

(** [process_child_result_after_settlement]: the outcome is journaled; when that fails, it is the
    journal's failure. *)
Definition process_child_result (now : N) (parent c : AgentId) (r : SpawnResult) (s : AgentSupervisor)
    : AgentSupervisor * SpawnResult :=
  let entry_then (ok : bool) :=
    match journal_storage s with
    | Some _ =>
        let '(s, w) := append_entry "SubAgentCompleted" (completed_entry now parent c ok) s in
        (s, match w with Ok _ => r | Err e => Err e end)
    | None => (s, r)
    end in
  match r with
  | Ok output => match child_exit_success (exit_reason output) with None => (s, Ok output) | Some ok => entry_then ok end
  | Err _ => entry_then false
  end.

(** ** Who may spawn, and how much *)

(** The account and the capability the supervisor holds for a caller it knows. *)
Definition account_of (s : AgentSupervisor) (caller : AgentId) : option Loc :=
  match root_agent_id s with
  | Some root => if str_eqb root caller then Some (root_budget_account s) else child_budget_accounts s !! caller
  | None => None
  end.
Definition capability_of (s : AgentSupervisor) (caller : AgentId) : option CapabilityToken :=
  match root_agent_id s with
  | Some root =>
      if str_eqb root caller then Some (parent_capability s)
      else option_map (fun st => child_capability (metadata st)) (child_results s !! caller)
  | None => None
  end.

(** A count is affordable: the parent has no limit, or the request is a limit that fits beside what
    the parent has used and promised. *)
Definition count_fits (req maximum committed : N) : Prop :=
  maximum = 0%N \/ (0 < req /\ committed + req <= maximum)%N.

Definition fits (b : ResourceBudget Decimal) (a : AgentBudgetAccount) : Prop :=
  count_fits (max_tokens b) (max_tokens (budget a)) (saturating_add (used_tokens (budget a)) (reserved_tokens a)) /\
  count_fits (max_turns b) (max_turns (budget a)) (saturating_add32 (used_turns (budget a)) (reserved_turns a)) /\
  count_fits (max_sub_agents b) (max_sub_agents (budget a)) (used_sub_agents (budget a)).

(** What a spawn needs: an authorised placement, an attenuated capability, an affordable budget. *)
Definition spawn_allowed (s : AgentSupervisor) (config : SpawnConfig) : Prop :=
  (exists cap, capability_of s (parent_id config) = Some cap /\
     placement config ∈ spawn_placements cap /\
     forall c, capability config = Some c -> is_subset_of c cap = true) /\
  (exists l, account_of s (parent_id config) = Some l /\ fits (spawn_budget config) (account_at s l)).

(** A request that only reads the supervisor. *)
Definition reads {A} (m : Sup A) : Prop := forall s, fst (m s) = s.

Lemma reads_bind {A B} (m : Sup A) (k : A -> Sup B) :
  reads m -> (forall a, reads (k a)) -> reads (se_bind m k).
Proof.
  intros Hm Hk s. unfold se_bind. specialize (Hm s). destruct (m s) as [s' [a|e]]; simpl in *; subst; [apply Hk|done].
Qed.

Lemma reads_bind_Ok {A B} (m : Sup A) (k : A -> Sup B) s s' b :
  reads m -> se_bind m k s = (s', Ok b) -> exists a, m s = (s, Ok a) /\ k a s = (s', Ok b).
Proof.
  intros Hm. unfold se_bind. specialize (Hm s). destruct (m s) as [s1 [a|e]]; simpl in *; subst; [|discriminate].
  by exists a.
Qed.

Lemma lift_Ok {A} (r : result A RuntimeError) (s s' : AgentSupervisor) a :
  se_lift r s = (s', Ok a) -> r = Ok a.
Proof. unfold se_lift. congruence. Qed.

Lemma reads_root : reads require_bound_root.
Proof. done. Qed.
Lemma reads_account caller : reads (budget_account_for_caller caller).
Proof. apply reads_bind; [done|]. intros root. by destruct (str_eqb root caller). Qed.
Lemma reads_capability caller : reads (capability_for_caller caller).
Proof. apply reads_bind; [done|]. intros root. by destruct (str_eqb root caller). Qed.
Lemma reads_authorization config : reads (validate_spawn_authorization config).
Proof.
  apply reads_bind; [apply reads_capability|]. intros cap. destruct (negb _); [done|].
  destruct (capability config) as [c|]; [by destruct (is_subset_of c cap)|done].
Qed.
Lemma reads_budget config : reads (validate_spawn_budget config).
Proof. apply reads_bind; [apply reads_account|]. intros l. repeat (apply reads_bind; [done|intros ?]). done. Qed.

Lemma account_for_caller_Ok caller s s' l :
  budget_account_for_caller caller s = (s', Ok l) -> account_of s caller = Some l.
Proof.
  unfold budget_account_for_caller, account_of. intros (root & Hr & H4)%reads_bind_Ok; [|done].
  unfold require_bound_root in Hr. destruct (root_agent_id s) as [r|]; [|discriminate]. injection Hr as ->.
  destruct (str_eqb root caller); [congruence|].
  destruct (child_budget_accounts s !! caller); cbn in H4; congruence.
Qed.

Lemma capability_for_caller_Ok caller s s' cap :
  capability_for_caller caller s = (s', Ok cap) -> capability_of s caller = Some cap.
Proof.
  unfold capability_for_caller, capability_of. intros (root & Hr & H4)%reads_bind_Ok; [|done].
  unfold require_bound_root in Hr. destruct (root_agent_id s) as [r|]; [|discriminate]. injection Hr as ->.
  destruct (str_eqb root caller); [congruence|].
  destruct (option_map _ _); cbn in H4; congruence.
Qed.

Lemma authorization_Ok config s s' :
  validate_spawn_authorization config s = (s', Ok tt) ->
  exists cap, capability_of s (parent_id config) = Some cap /\
    placement config ∈ spawn_placements cap /\
    forall c, capability config = Some c -> is_subset_of c cap = true.
Proof.
  intros (cap & Hc & Hk)%reads_bind_Ok; [|apply reads_capability].
  apply capability_for_caller_Ok in Hc. exists cap. split; [done|].
  destruct (negb (mem _ _)) eqn:Hm; [discriminate|]. bools. split; [done|]. intros c Ec. rewrite Ec in Hk.
  by destruct (is_subset_of c cap).
Qed.

Lemma validate_count_Ok field req maximum committed :
  validate_count field req maximum (maximum - committed)%N = Ok tt <-> count_fits req maximum committed.
Proof.
  unfold validate_count, validate_supervisor_limit, count_fits.
  destruct (N.eqb_spec req 0), (N.eqb_spec maximum 0); simpl; try (split; [discriminate|lia]); try (split; [|done]; lia).
  destruct (N.ltb_spec (maximum - committed) req); split; try discriminate; try done; lia.
Qed.

Lemma budget_against_account_Ok b a : validate_budget_against_account b a = Ok tt -> fits b a.
Proof.
  unfold validate_budget_against_account, fits. cbv zeta. intros H4.
  destruct (validate_count "max_tokens" _ _ _) as [[]|] eqn:E1; [|discriminate].
  destruct (validate_count "max_turns" _ _ _) as [[]|] eqn:E2; [|discriminate].
  destruct (validate_supervisor_limit _ _ _ _ _ _ _ _) as [[]|]; [|discriminate].
  by split; [|split]; eapply validate_count_Ok.
Qed.

Lemma budget_Ok config s s' :
  validate_spawn_budget config s = (s', Ok tt) ->
  exists l, account_of s (parent_id config) = Some l /\ fits (spawn_budget config) (account_at s l).
Proof.
  intros (l & Hl & Hk)%reads_bind_Ok; [|apply reads_account]. apply account_for_caller_Ok in Hl.
  exists l. split; [done|]. apply reads_bind_Ok in Hk as (? & [= <-] & Hk); [|done].
  apply reads_bind_Ok in Hk as ([] & Hv & _); [|done]. apply lift_Ok in Hv. by apply budget_against_account_Ok.
Qed.

Ltac reads :=
  repeat first [ done | apply reads_authorization | apply reads_budget | apply reads_capability
               | apply reads_bind; [|intros ?] ].

Lemma reads_shape_spawn factory config : reads (shape_spawn factory config).
Proof. unfold shape_spawn. reads. Qed.

Lemma reads_check_spawn caller config : reads (check_spawn caller config).
Proof.
  apply reads_bind; [done|]. intros root. destruct (negb _); [done|].
  reads; apply reads_shape_spawn.
Qed.

(** What shaping a configuration establishes. *)
Lemma shape_spawn_Ok factory config config' s s' :
  shape_spawn factory config s = (s', Ok config') ->
  validate_spawn_config factory config = Ok tt /\ is_Some (journal_storage s) /\
  (exists l, account_of s (parent_id config) = Some l /\ fits (spawn_budget config) (account_at s l)) /\
  (exists cap, capability_of s (parent_id config) = Some cap /\
     prepare_spawn_config_for_caller factory config cap = Ok config') /\
  spawn_allowed s config'.
Proof.
  unfold shape_spawn. intros H4.
  apply reads_bind_Ok in H4 as ([] & Hv & H4); [|done]. apply lift_Ok in Hv.
  apply reads_bind_Ok in H4 as ([] & Hj & H4); [|done]. unfold require_spawn_journal in Hj.
  destruct (journal_storage s) as [j|] eqn:Ej; [|discriminate].
  apply reads_bind_Ok in H4 as ([] & Hb1 & H4); [|apply reads_budget]. apply budget_Ok in Hb1.
  apply reads_bind_Ok in H4 as (cap & Hc & H4); [|apply reads_capability]. apply capability_for_caller_Ok in Hc.
  apply reads_bind_Ok in H4 as (c' & Hp & H4); [|done]. apply lift_Ok in Hp.
  apply reads_bind_Ok in H4 as ([] & Ha2 & H4); [|apply reads_authorization]. apply authorization_Ok in Ha2.
  apply reads_bind_Ok in H4 as ([] & Hb2 & H4); [|apply reads_budget]. apply budget_Ok in Hb2.
  injection H4 as <- <-. split_and!; eauto; by split.
Qed.

(** What the checks of a spawn establish. *)
Lemma check_spawn_Ok caller config s s' factory config' :
  check_spawn caller config s = (s', Ok (factory, config')) ->
  s' = s /\ is_Some (root_agent_id s) /\ caller = parent_id config /\
  spawn_agent_id config ∉ accepted_child_ids s /\ task_factory s = Some factory /\
  validate_spawn_config factory config = Ok tt /\ is_Some (journal_storage s) /\
  spawn_allowed s config /\
  (exists cap, capability_of s caller = Some cap /\
     prepare_spawn_config_for_caller factory config cap = Ok config') /\
  spawn_allowed s config'.
Proof.
  intros H4. assert (s' = s) as -> by (pose proof (reads_check_spawn caller config s) as R; rewrite H4 in R; done).
  unfold check_spawn in H4. split; [done|].
  apply reads_bind_Ok in H4 as (root & Hr & H4); [|done]. unfold require_bound_root in Hr.
  destruct (root_agent_id s) as [r|] eqn:Er; [|discriminate].
  destruct (str_eqb caller (parent_id config)) eqn:Ec; [cbn [negb] in H4|discriminate]. bools. subst caller.
  apply reads_bind_Ok in H4 as ([] & Hid & H4); [|done]. unfold ensure_child_id_is_new in Hid.
  destruct (bool_decide _) eqn:Ea in Hid; [discriminate|]. bools.
  apply reads_bind_Ok in H4 as ([] & Ha1 & H4); [|apply reads_authorization]. apply authorization_Ok in Ha1.
  apply reads_bind_Ok in H4 as (? & [= <-] & H4); [|done].
  apply reads_bind_Ok in H4 as (f & Hf & H4); [|done]. apply lift_Ok in Hf.
  destruct (task_factory s) as [f'|] eqn:Ef; [injection Hf as ->|discriminate].
  apply reads_bind_Ok in H4 as (c' & Hs & H4); [|apply reads_shape_spawn]. apply shape_spawn_Ok in Hs as (Hv & Hj & Hb & Hcap & Hok).
  injection H4 as <- <-. split_and!; eauto; by split.
Qed.

(** ** What a spawn changes *)

(** The supervisor with the reservation of [config] taken from the account [parent]. *)
Definition reserved_state (parent : Loc) (config : SpawnConfig) (s : AgentSupervisor) : AgentSupervisor :=
  let b := spawn_budget config in
  let child := fresh (dom (accounts s)) in
  set_reservations (<[spawn_agent_id config :=
      {| reservation_parent := parent; reservation_tokens := max_tokens b;
         reservation_turns := max_turns b; reservation_cost := max_cost b |}]> (budget_reservations s))
    (set_child_accounts (<[spawn_agent_id config := child]> (child_budget_accounts s))
      (put_account child (account_new b) (put_account parent (reserve config (account_at s parent)) s))).

Lemma reserve_spawn_budget_spec config s s1 r :
  reserve_spawn_budget config s = (s1, r) ->
  match r with
  | Ok _ => exists parent, account_of s (parent_id config) = Some parent /\
      fits (spawn_budget config) (account_at s parent) /\ s1 = reserved_state parent config s
  | Err _ => s1 = s
  end.
Proof.
  unfold reserve_spawn_budget, se_bind at 1.
  destruct (budget_account_for_caller (parent_id config) s) as [s0 [parent|e]] eqn:E; intros H4.
  - pose proof (reads_account (parent_id config) s) as R. rewrite E in R. cbn in R. subst s0.
    apply account_for_caller_Ok in E. cbn in H4.
    unfold se_bind, se_lift in H4.
    destruct (validate_budget_against_account _ _) as [[]|e] eqn:Ev; injection H4 as <- <-; [|done].
    exists parent. split; [done|]. split; [by apply budget_against_account_Ok|]. done.
  - pose proof (reads_account (parent_id config) s) as R. rewrite E in R. by injection H4 as <- <-.
Qed.

Lemma append_entry_spec kind e s s' r :
  append_entry kind e s = (s', r) ->
  match journal_storage s with
  | Some j => s' = set_journal (Some (fst (journal_append j e))) s /\
      r = map_err (JournalAppendFailed kind) (snd (journal_append j e))
  | None => s' = s /\ r = Err SpawnMissingJournal
  end.
Proof.
  unfold append_entry. destruct (journal_storage s) as [j|]; [|by intros [= <- <-]].
  destruct (journal_append j e) as [j' w]. by intros [= <- <-].
Qed.

(** The state in which the spawn of [config] is accepted, the journal having become [j]. *)
Definition accepted_state (now : N) (parent : Loc) (config : SpawnConfig) (j : J) (s : AgentSupervisor) : AgentSupervisor :=
  launch now config (record_accepted_child_id (spawn_agent_id config)
    (set_journal (Some j) (reserved_state parent config s))).

(** The outcomes of accepting a shaped configuration: refused before any effect, refused because the
    journal would not take the entry (the reservation is given back), or accepted. *)
Lemma accept_spawn_cases now factory config s s' r :
  accept_spawn now factory config s = (s', r) ->
  (s' = s /\ exists e, r = Err e) \/
  exists parent j', account_of s (parent_id config) = Some parent /\
    fits (spawn_budget config) (account_at s parent) /\
    ((s' = rollback_unaccepted_budget (spawn_agent_id config) (set_journal j' (reserved_state parent config s)) /\
      exists e, r = Err e) \/
     (exists j1, j' = Some j1 /\ s' = accepted_state now parent config j1 s /\
      r = Ok {| ack_child := spawn_agent_id config; ack_placement := placement config;
                ack_backend := placement_backend factory config |})).
Proof.
  unfold accept_spawn, se_bind at 1. intros H4.
  destruct (reserve_spawn_budget config s) as [s1 [[]|e]] eqn:Er;
    pose proof (reserve_spawn_budget_spec _ _ _ _ Er) as Hr; cbn in Hr;
    [|subst s1; injection H4 as <- <-; left; eauto].
  destruct Hr as (parent & Hp & Hfit & ->). right. exists parent.
  unfold se_bind, se_try, prepare_spawn in H4.
  destruct (append_entry _ _ _) as [s2 w] eqn:Ea. apply append_entry_spec in Ea.
  destruct (journal_storage (reserved_state parent config s)) as [j|] eqn:Ej.
  - destruct Ea as [-> ->]. exists (Some (fst (journal_append j (spawned_entry now config (placement_backend factory config))))).
    do 2 (split; [done|]). destruct (snd (journal_append j _)) as [[]|err]; cbn in H4; injection H4 as <- <-; eauto.
  - destruct Ea as [-> ->]. exists None. do 2 (split; [done|]). cbn in H4. injection H4 as <- <-. left.
    split; [|eauto]. unfold set_journal. cbn in Ej |- *. by rewrite <- Ej.
Qed.

Lemma dispatch_spawn_cases now caller config s s' r :
  dispatch_spawn now caller config s = (s', r) ->
  (s' = s /\ exists e, r = Err e) \/
  exists factory config' r', check_spawn caller config s = (s, Ok (factory, config')) /\
    accept_spawn now factory config' s = (s', r') /\
    r = match r' with Ok ack => Ok (ack, config') | Err e => Err e end.
Proof.
  unfold dispatch_spawn, se_bind at 1. intros H4.
  pose proof (reads_check_spawn caller config s) as R.
  destruct (check_spawn caller config s) as [s0 [[factory config']|e]] eqn:Ec; cbn in R; subst s0;
    [|injection H4 as <- <-; left; eauto].
  right. unfold se_bind in H4. destruct (accept_spawn now factory config' s) as [s1 [ack|e]] eqn:Ea;
    injection H4 as <- <-; eauto 10.
Qed.

(** A spawn is accepted within the authority and the budget of its caller.  When the supervisor
    acknowledges a spawn request, the caller is the parent the request names, the child id was never
    accepted before, and the configuration the factory shaped names a placement the caller may spawn,
    a capability that passes attenuation against the caller's, and limits that fit beside what the
    caller has used and promised.  The acknowledged child then has exactly one reservation of those
    limits against the caller's account, an account of its own with those limits, a running entry
    owned by the parent under that capability, and its id is spent. *)
Theorem spawn_accepted_within_authority now caller config s s' ack config' :
  dispatch_spawn now caller config s = (s', Ok (ack, config')) ->
  exists factory parent child,
    let b := spawn_budget config' in
    caller = parent_id config /\ spawn_agent_id config ∉ accepted_child_ids s /\
    task_factory s = Some factory /\
    (exists cap, capability_of s caller = Some cap /\
       prepare_spawn_config_for_caller factory config cap = Ok config') /\
    spawn_allowed s config' /\ ack_child ack = spawn_agent_id config' /\
    account_of s (parent_id config') = Some parent /\ child ∉ dom (accounts s) /\
    accounts s' = <[child := account_new b]> (<[parent := reserve config' (account_at s parent)]> (accounts s)) /\
    child_budget_accounts s' = <[ack_child ack := child]> (child_budget_accounts s) /\
    budget_reservations s' = <[ack_child ack :=
      {| reservation_parent := parent; reservation_tokens := max_tokens b; reservation_turns := max_turns b;
         reservation_cost := max_cost b |}]> (budget_reservations s) /\
    accepted_child_ids s' = {[ack_child ack]} ∪ accepted_child_ids s /\
    (exists st, child_results s' !! ack_child ack = Some st /\ run_result st = None /\
       owner (metadata st) = parent_id config' /\
       child_capability (metadata st) = unwrap_or (capability config') CapabilityToken_default).
Proof.
  intros [[-> [e He]] | (factory & c & r & Hc & Ha & Hr)]%dispatch_spawn_cases; [discriminate|].
  destruct r as [ack'|]; [|discriminate]. injection Hr as <- <-.
  apply accept_spawn_cases in Ha as [[_ [e He]] | (parent & j & Hp & _ & [[_ [e He]] | (j1 & _ & -> & [= ->])])];
    [discriminate..|].
  pose proof (check_spawn_Ok _ _ _ _ _ _ Hc) as (_ & _ & -> & Hid & Hf & _ & _ & _ & Hcap & Hok).
  exists factory, parent, (fresh (dom (accounts s))). cbv zeta. split_and!; try done.
  - apply is_fresh.
  - eexists. split; [apply lookup_insert_eq|done].
Qed.

(** ** Restarts end *)

Lemma retry_loop_ends fuel c strategy attempt k counts :
  let limit := unwrap_or (retry_limit strategy) 0%N in
  let done := unwrap_or (counts !! c) 0%N in
  (limit - done <= N.of_nat fuel)%N ->
  exists counts' n, retry_loop fuel c strategy attempt k counts = Some (counts', (k + n, attempt (k + n))%nat) /\
    (N.of_nat n <= limit - done)%N /\
    (forall i, (k <= i < k + n)%nat -> exists e, attempt i = Err e) /\
    ((exists o, attempt (k + n)%nat = Ok o) \/ N.of_nat n = (limit - done)%N).
Proof.
  cbv zeta. revert k counts. induction fuel as [|fuel IH]; intros k counts Hf; cbn [retry_loop].
  all: destruct (attempt k) as [o|e] eqn:E;
    [exists counts, 0%nat; rewrite Nat.add_0_r, E; split_and!; [done|lia|lia|eauto]|].
  all: unfold should_retry; destruct (retry_limit strategy) as [limit|]; cbn [unwrap_or] in *;
    [|exists counts, 0%nat; rewrite Nat.add_0_r, E; split_and!; [done|lia|lia|right; lia]].
  all: destruct (N.ltb_spec (unwrap_or (counts !! c) 0%N) limit);
    [|eexists _, 0%nat; rewrite Nat.add_0_r, E; split_and!; [done|lia|lia|right; lia]].
  - lia.
  - destruct (IH (S k) (<[c := (unwrap_or (counts !! c) 0 + 1)%N]> counts)) as (counts' & n & Hr & Hn & Hfail & Hlast).
    { rewrite lookup_insert_eq. cbn [unwrap_or]. lia. }
    rewrite lookup_insert_eq in *. cbn [unwrap_or] in *. exists counts', (S n).
    replace (k + S n)%nat with (S k + n)%nat by lia. rewrite Hr. split_and!; [done|lia| |].
    + intros i Hi. destruct (decide (i = k)) as [->|]; [eauto|]. apply Hfail. lia.
    + destruct Hlast; [by left|right; lia].
Qed.

(** Restarts end.  Running a task under any restart strategy ends, whatever its runs return: it
    makes at most as many restarts as the strategy allows the child (one, two, or none) less those it
    already used, every run before the last failed, the answer is what the last run returned, and it
    stopped because that run succeeded or because no restart was left. *)
Theorem restarts_end config attempt s :
  let limit := unwrap_or (retry_limit (restart_strategy config)) 0%N in
  let spent := unwrap_or (retry_counts_shared s !! spawn_agent_id config) 0%N in
  exists s' n, run_task_with_retries config attempt s = Some (s', (n, attempt n)) /\
    (N.of_nat n <= limit - spent)%N /\
    (forall i, (i < n)%nat -> exists e, attempt i = Err e) /\
    ((exists output, attempt n = Ok output) \/ N.of_nat n = (limit - spent)%N).
Proof.
  cbv zeta. unfold run_task_with_retries.
  destruct (retry_loop_ends retry_fuel (spawn_agent_id config) (restart_strategy config) attempt 0
    (retry_counts_shared s)) as (counts' & n & -> & Hn & Hfail & Hlast).
  { unfold retry_fuel. destruct (restart_strategy config); cbn [retry_limit unwrap_or]; lia. }
  cbn in *. exists (set_retry_counts_shared counts' s), n. split_and!; [done|done| |done]. intros i Hi. apply Hfail. lia.
Qed.
End Supervisor.

Arguments SpawnConfig : clear implicits.
Arguments AgentLoopOutput : clear implicits.
Arguments ChildTerminalResult : clear implicits.
Arguments ChildRunState : clear implicits.
Arguments AgentBudgetAccount : clear implicits.
Arguments BudgetReservation : clear implicits.
Arguments TaskFactory : clear implicits.
Arguments AgentSupervisor : clear implicits.

(** ** A concrete supervisor

    Costs are whole numbers, the journal is the in-memory store, and the factory accepts every
    placement and shapes nothing. *)

#[export] Instance N_arith : DecimalArith N := {|
  decimal_eqb := N.eqb; decimal_gt := fun a b => (b <? a)%N;
  decimal_checked_add := fun a b => Some (a + b)%N;
  decimal_checked_sub := fun a b => if (b <=? a)%N then Some (a - b)%N else None;
  decimal_min := N.min; decimal_sub := N.sub; decimal_add := N.add; decimal_max_value := u64_max |}.
#[export] Instance unit_journal : JournalStorage unit N (@InMemoryJournalStorage unit) :=
  memory_journal (fun _ => Ok []).

Definition ex_factory : TaskFactory N := {|
  validate_spawn_config := fun _ => Ok tt;
  placement_backend := fun _ => Native;
  prepare_spawn_config_for_caller := fun config _ => Ok config |}.

Definition ex_config (c parent : AgentId) (tokens sub_agents : N) : SpawnConfig N := {|
  spawn_agent_id := c; parent_id := parent; capability := Some sample_child;
  spawn_budget := budget_new tokens 2 1%N sub_agents; restart_strategy := RetryOnce;
  placement := "native"; task := "review"; instructions := None; placement_target := None |}.

Definition ex_supervisor : AgentSupervisor unit N (@InMemoryJournalStorage unit) :=
  supervisor_new sample_parent (budget_new 100 10 20%N 3) (Some (lit "root")) (Some ex_factory) (Some []).

Definition ex_spawn (c parent : AgentId) (tokens sub_agents : N) (s : AgentSupervisor unit N _) :=
  dispatch_spawn (fun x => x) 7 parent (ex_config c parent tokens sub_agents) s.

(** The first spawn is accepted; a second one that asks for more than what is left is not. *)
Example ex_spawn_accepted :
  snd (ex_spawn "child" "root" 60 1 ex_supervisor)
    = Ok ({| ack_child := "child"; ack_placement := "native"; ack_backend := Native |},
          ex_config "child" "root" 60 1) /\
  is_ok (snd (ex_spawn "other" "root" 60 1 (fst (ex_spawn "child" "root" 60 1 ex_supervisor)))) = false.
Proof. by vm_compute. Qed.

Lemma spawn_accepted_within_authority_witness :
  exists s' ack config', ex_spawn "child" "root" 60 1 ex_supervisor = (s', Ok (ack, config')) /\
    lit "child" ∉ accepted_child_ids ex_supervisor /\ accepted_child_ids s' = {[lit "child"]}.
Proof.
  destruct (ex_spawn "child" "root" 60 1 ex_supervisor) as [s' r] eqn:E.
  destruct r as [[ack c]|e]; [|vm_compute in E; discriminate].
  exists s', ack, c. split; [done|].
  pose proof (spawn_accepted_within_authority _ _ _ _ _ _ _ _ E)
    as (f & p & l & _ & Hid & Hf & (cap & _ & Hcap) & _ & Ha & _ & _ & _ & _ & _ & Hs & _).
  split; [exact Hid|]. rewrite Hs, Ha. injection Hf as <-. injection Hcap as <-. vm_compute. reflexivity.
Defined.
