(* ===== verification/LlmReplay.v ===== *)
(** * Model responses and their recorded form

    Models the response types of [crates/simulacra-types/src/provider.rs] and, of the agent loop, the
    way a response comes back from the journal: [replay_llm_response] and [unescape_debug_str]
    ([agent_loop/replay_helpers.rs]).  The journal keeps a finish reason as its [Debug] text, so
    reading it back undoes the escapes of Rust's [Debug] for strings.

    A string is its UTF-8 bytes.  [escape_debug_str] is [Debug] on ASCII; a character beyond ASCII is
    kept as it is, which is what [Debug] does with printable ones. *)

From S2P Require Import Prelude.
From S2P Require Import Text.
From S2P Require Import Utf8.
From S2P Require Import Context.
From S2P Require Import Budget.
From S2P Require Import Journal.

(** ** Responses ([provider.rs]) *)

Variant FinishReason :=
| EndTurn
| ToolUse
| MaxTokens
| StopSequence
| RefusalReason
| Other (raw : str).

#[export] Instance FinishReason_eq_dec : EqDecision FinishReason.
Proof. solve_decision. Defined.

(** ** [Debug] of a string, and back *)

Definition backslash : ascii := "\".
Definition quote : ascii := ascii_of_nat 34.

Definition lower_hex (n : N) : ascii := ascii_of_N (if (n <? 10)%N then 48 + n else 87 + n)%N.

(** [\u{..}] with the digits of a number below 256. *)
Definition unicode_escape (n : N) : str :=
  "\u{" ++ (if (n <? 16)%N then [lower_hex n] else [lower_hex (n / 16); lower_hex (n mod 16)]) ++ "}".

Definition escape_debug_char (c : ascii) : str :=
  let n := N_of_ascii c in
  if (n =? 0)%N then lit "\0"
  else if (n =? 9)%N then lit "\t"
  else if (n =? 10)%N then lit "\n"
  else if (n =? 13)%N then lit "\r"
  else if (n =? 34)%N then [backslash; quote]
  else if (n =? 92)%N then [backslash; backslash]
  else if (n <? 32)%N || (n =? 127)%N then unicode_escape n
  else [c].

Definition escape_debug_str (s : str) : str := List.concat (List.map escape_debug_char s).

(** [char::to_digit(16)], [u32::from_str_radix(_, 16)], [char::from_u32] and [String::push]. *)
Definition hex_digit_value (c : ascii) : option N :=
  let n := N_of_ascii c in
  if in_range 48 57 c then Some (n - 48)%N
  else if in_range 97 102 c then Some (n - 87)%N
  else if in_range 65 70 c then Some (n - 55)%N
  else None.

Fixpoint hex_value (digits : str) (acc : N) : option N :=
  match digits with
  | [] => Some acc
  | c :: digits =>
      match hex_digit_value c with
      | None => None
      | Some d => if (acc * 16 + d <? 2 ^ 32)%N then hex_value digits (acc * 16 + d) else None
      end
  end.

Definition from_str_radix_16 (s : str) : option N :=
  match match s with "+"%char :: digits => digits | _ => s end with
  | [] => None
  | digits => hex_value digits 0
  end.

Definition from_u32 (n : N) : option N :=
  if (n <? 55296)%N || ((57343 <? n)%N && (n <? 1114112)%N) then Some n else None.

Definition encode_utf8 (n : N) : str :=
  List.map ascii_of_N
    (if (n <? 128)%N then [n]
     else if (n <? 2048)%N then [192 + n / 64; 128 + n mod 64]
     else if (n <? 65536)%N then [224 + n / 4096; 128 + n / 64 mod 64; 128 + n mod 64]
     else [240 + n / 262144; 128 + n / 4096 mod 64; 128 + n / 64 mod 64; 128 + n mod 64])%N.

(** After [\u]: the character of [{XXXX}] and what follows it. *)
Definition unicode_scalar (after_u : str) : option (str * str) :=
  match strip_prefix "{" after_u with
  | None => None
  | Some rest =>
      match position (Ascii.eqb "}") rest with
      | None => None
      | Some close_idx =>
          match from_str_radix_16 (firstn close_idx rest) with
          | None => None
          | Some n =>
              match from_u32 n with
              | None => None
              | Some ch => Some (encode_utf8 ch, skipn (S close_idx) rest)
              end
          end
      end
  end.

Definition simple_escape (c : ascii) : option ascii :=
  if Ascii.eqb c backslash then Some backslash
  else if Ascii.eqb c quote then Some quote
  else if Ascii.eqb c "'" then Some "'"%char
  else if Ascii.eqb c "n" then Some (ascii_of_nat 10)
  else if Ascii.eqb c "r" then Some (ascii_of_nat 13)
  else if Ascii.eqb c "t" then Some (ascii_of_nat 9)
  else if Ascii.eqb c "0" then Some (ascii_of_nat 0)
  else None.

(** The loop; every turn shortens the text. *)
Fixpoint unescape_loop (fuel : nat) (chars : str) : str :=
  match fuel, chars with
  | S fuel, c :: rest =>
      if negb (Ascii.eqb c backslash) then c :: unescape_loop fuel rest
      else match rest with
      | [] => [backslash]
      | e :: lookahead =>
          match simple_escape e with
          | Some x => x :: unescape_loop fuel lookahead
          | None =>
              if Ascii.eqb e "u" then
                match unicode_scalar lookahead with
                | Some (ch, remainder) => ch ++ unescape_loop fuel remainder
                | None => backslash :: "u"%char :: unescape_loop fuel lookahead
                end
              else backslash :: e :: unescape_loop fuel lookahead
          end
      end
  | _, _ => []
  end.

Definition unescape_debug_str (escaped : str) : str := unescape_loop (length escaped) escaped.

(** ** The finish reason in the journal *)

(** [format!("{:?}", finish_reason)]. *)
Definition debug_finish_reason (f : FinishReason) : str :=
  match f with
  | EndTurn => "EndTurn"
  | ToolUse => "ToolUse"
  | MaxTokens => "MaxTokens"
  | StopSequence => "StopSequence"
  | RefusalReason => "Refusal"
  | Other raw => "Other(" ++ [quote] ++ escape_debug_str raw ++ [quote] ++ ")"
  end.

Definition parse_finish_reason (s : str) : FinishReason :=
  if str_eqb s "EndTurn" then EndTurn
  else if str_eqb s "ToolUse" then ToolUse
  else if str_eqb s "MaxTokens" then MaxTokens
  else if str_eqb s "StopSequence" then StopSequence
  else if str_eqb s "Refusal" then RefusalReason
  else Other (match strip_prefix ("Other(" ++ [quote]) s with
              | None => s
              | Some t => match strip_suffix ([quote] ++ ")") t with
                          | None => s
                          | Some raw => unescape_debug_str raw
                          end
              end).

Section Responses.
Context {Value : Type}.

(** The id the provider gave a response is not used after it. *)
Record ProviderResponse := {
  response_message : @Message Value;
  response_usage : TokenUsage;
  finish_reason : FinishReason;
  response_model : str;
}.

Definition empty_assistant : @Message Value :=
  {| role := Assistant; content := []; tool_calls := []; tool_call_id := None; provider_content := [] |}.

(** [{kind:?}]. *)
Context (debug : JournalEntryKind Value -> str).

Definition replay_llm_response (kind : JournalEntryKind Value) : result ProviderResponse Journal.RuntimeError :=
  match kind with
  | LlmResponse model token_usage finish assistant_message =>
      Ok {| response_message := unwrap_or assistant_message empty_assistant; response_usage := token_usage;
            finish_reason := parse_finish_reason finish; response_model := model |}
  | _ => Err (storage_error ("expected LlmResponse during replay, got " ++ debug kind))
  end.

(** The entry [execute_turn] journals for a response. *)
Definition response_entry (r : ProviderResponse) : JournalEntryKind Value :=
  LlmResponse (response_model r) (response_usage r) (debug_finish_reason (finish_reason r))
    (Some (response_message r)).
End Responses.

(** ** Nothing is lost on the way *)

Lemma escape_debug_char_length c : (1 <= length (escape_debug_char c))%nat.
Proof. destruct c as [[] [] [] [] [] [] [] []]; vm_compute; lia. Qed.

Lemma unescape_char c fuel rest :
  unescape_loop (S fuel) (escape_debug_char c ++ rest) = c :: unescape_loop fuel rest.
Proof. destruct c as [[] [] [] [] [] [] [] []]; reflexivity. Qed.

Lemma unescape_escape s fuel :
  (length (escape_debug_str s) <= fuel)%nat -> unescape_loop fuel (escape_debug_str s) = s.
Proof.
  revert fuel. induction s as [|c s IH]; intros fuel H; [by destruct fuel|].
  change (escape_debug_str (c :: s)) with (escape_debug_char c ++ escape_debug_str s) in *.
  rewrite length_app in H. pose proof (escape_debug_char_length c).
  destruct fuel as [|fuel]; [lia|]. rewrite unescape_char. f_equal. apply IH. lia.
Qed.

(** The journal keeps every finish reason: parsing the text a response was journaled with gives back
    the reason, whatever text a provider put into it. *)
Theorem finish_reason_roundtrip f : parse_finish_reason (debug_finish_reason f) = f.
Proof.
  destruct f as [| | | | |raw]; try reflexivity. unfold parse_finish_reason, debug_finish_reason.
  change (Other (match strip_prefix ("Other(" ++ [quote])
    (("Other(" ++ [quote]) ++ escape_debug_str raw ++ [quote] ++ ")") with
    | None => "Other(" ++ [quote] ++ escape_debug_str raw ++ [quote] ++ ")"
    | Some t => match strip_suffix ([quote] ++ ")") t with
                | None => "Other(" ++ [quote] ++ escape_debug_str raw ++ [quote] ++ ")"
                | Some raw => unescape_debug_str raw
                end
    end) = Other raw).
  rewrite strip_prefix_app, strip_suffix_app. f_equal. by apply unescape_escape.
Qed.
