(* ===== verification/Json.v ===== *)
(** * JSON values

    [serde_json::Value] as the modelled code uses it: reading a text, looking into a value and
    building one.  Values, their parsing and their printing belong to the package; [JsonOps] is what
    a value answers to, and a model takes any implementation of it.  [json_error] is the text of the
    error for what is not JSON.  [JsonLaws] is what the package documents of values and their parts. *)

From S2P Require Import Prelude.

Class JsonOps (Value : Type) := {
  json_from_str : str -> option Value;
  json_error : str -> str;
  json_to_string : Value -> str;
  as_object : Value -> option (list (str * Value));
  as_array : Value -> option (list Value);
  as_str : Value -> option str;
  as_u64 : Value -> option N;
  as_bool : Value -> option bool;
  is_null : Value -> bool;
  json_null : Value;
  json_string : str -> Value;
  json_bool : bool -> Value;
  json_number : N -> Value;
  json_array : list Value -> Value;
  json_object : list (str * Value) -> Value;
}.

Section Json.
Context {Value : Type} `{JsonOps Value}.

(** [Map::get]. *)
Fixpoint map_get (key : str) (fields : list (str * Value)) : option Value :=
  match fields with
  | [] => None
  | (k, v) :: fields => if str_eqb k key then Some v else map_get key fields
  end.

(** [Value::get] with a string. *)
Definition value_get (key : str) (v : Value) : option Value := as_object v ≫= map_get key.

(** [v.get(key).and_then(|v| v.as_str())] and [.unwrap_or("")], the same with [as_u64] and [unwrap_or(0)]. *)
Definition get_str (key : str) (v : Value) : option str := value_get key v ≫= as_str.
Definition get_text (key : str) (v : Value) : str := unwrap_or (get_str key v) [].
Definition get_u64 (key : str) (v : Value) : option N := value_get key v ≫= as_u64.
Definition get_number (key : str) (v : Value) : N := unwrap_or (get_u64 key v) 0%N.

(** [Map::insert], [v[key] = x] on an object, and [v[key] = x] on any value: null turns into an object, and
    [None] is the panic on a value that has no fields. *)
Fixpoint put_field (key : str) (x : Value) (fields : list (str * Value)) : list (str * Value) :=
  match fields with
  | [] => [(key, x)]
  | (k, v) :: fields => if str_eqb k key then (k, x) :: fields else (k, v) :: put_field key x fields
  end.
Definition set_field (key : str) (x v : Value) : Value :=
  match as_object v with Some fields => json_object (put_field key x fields) | None => v end.
Definition index_set (key : str) (x v : Value) : option Value :=
  match as_object v with
  | Some fields => Some (json_object (put_field key x fields))
  | None => if is_null v then Some (json_object [(key, x)]) else None
  end.

(** [json!] of an optional string. *)
Definition json_opt_string (s : option str) : Value :=
  match s with Some s => json_string s | None => json_null end.
End Json.

(** ** Laws

    A map keeps its fields, in an order of its own. *)
Class JsonLaws (Value : Type) `{JsonOps Value} := {
  as_str_string s : as_str (json_string s) = Some s;
  as_str_null : as_str json_null = None;
  as_bool_bool b : as_bool (json_bool b) = Some b;
  as_object_object fields : NoDup (List.map fst fields) ->
    exists fields', as_object (json_object fields) = Some fields' /\ fields' ≡ₚ fields;
}.

Section Laws.
Context {Value : Type} `{JsonLaws Value}.

Lemma map_get_In key (fields : list (str * Value)) v :
  NoDup (List.map fst fields) -> map_get key fields = Some v <-> (key, v) ∈ fields.
Proof.
  induction fields as [|[k w] fields IH]; cbn [map_get List.map]; [by rewrite elem_of_nil|].
  intros [Hk Hd]%NoDup_cons. rewrite elem_of_cons. unfold str_eqb.
  destruct (decide (k = key)) as [->|Hn]; [rewrite bool_decide_true by done|rewrite bool_decide_false by done; rewrite IH by done].
  - split; [intros [= ->]; by left|]. intros [[= ->]|Hin]; [done|]. destruct Hk. apply list_elem_of_fmap. by exists (key, v).
  - split; [by right|]. by intros [[= ? _]|].
Qed.

Lemma map_get_here key (v : Value) fields : map_get key ((key, v) :: fields) = Some v.
Proof. cbn. by rewrite str_eqb_refl. Qed.
Lemma map_get_skip key k (v : Value) fields : str_eqb k key = false -> map_get key ((k, v) :: fields) = map_get key fields.
Proof. cbn. by intros ->. Qed.

Lemma map_get_perm key (f1 f2 : list (str * Value)) : NoDup (List.map fst f1) -> f1 ≡ₚ f2 -> map_get key f1 = map_get key f2.
Proof.
  intros Hd Hp. assert (NoDup (List.map fst f2)) as Hd2 by by rewrite <- Hp. apply option_eq. intros v.
  by rewrite !map_get_In, Hp.
Qed.

Lemma value_get_object key fields : NoDup (List.map fst fields) -> value_get key (json_object fields) = map_get key fields.
Proof.
  intros Hd. destruct (as_object_object fields Hd) as (fields' & E & Hp). unfold value_get. rewrite E.
  cbn. symmetry. by apply map_get_perm.
Qed.

Lemma get_str_object key fields : NoDup (List.map fst fields) -> get_str key (json_object fields) = map_get key fields ≫= as_str.
Proof. intros Hd. unfold get_str. by rewrite value_get_object. Qed.
End Laws.

(** Looks up fields of objects that are written out. *)
Ltac json_fields :=
  repeat first [rewrite map_get_here | rewrite map_get_skip by reflexivity | progress cbn [map_get mbind option_bind unwrap_or]
               | rewrite as_str_string | rewrite as_str_null | rewrite as_bool_bool].

(** ** Concrete implementations

    A value is its text: objects and arrays are opaque, which is all a witness needs. *)
Definition text_json : JsonOps str := {|
  json_from_str := fun _ => None;
  json_error := fun _ => "not JSON";
  json_to_string := fun v => v;
  as_object := fun _ => None;
  as_array := fun _ => None;
  as_str := Some;
  as_u64 := fun _ => None;
  as_bool := fun _ => None;
  is_null := fun v => str_eqb v "null";
  json_null := "null";
  json_string := fun s => s;
  json_bool := fun b => if b then lit "true" else lit "false";
  json_number := dec;
  json_array := fun vs => join (lit ",") vs;
  json_object := fun fields => join (lit ",") (List.map (fun '(k, v) => k ++ lit "=" ++ v) fields);
|}.

(** A value as a tree, its text read from a table. *)
Inductive tree :=
| Null
| Bool (b : bool)
| Number (n : N)
| Text (s : str)
| Array (items : list tree)
| Object (fields : list (str * tree)).

Definition tree_json (texts : list (str * tree)) : JsonOps tree := {|
  json_from_str := fun s => map_get s texts;
  json_error := fun _ => "not in the table";
  json_to_string := fun _ => [];
  as_object := fun v => match v with Object fields => Some fields | _ => None end;
  as_array := fun v => match v with Array items => Some items | _ => None end;
  as_str := fun v => match v with Text s => Some s | _ => None end;
  as_u64 := fun v => match v with Number n => Some n | _ => None end;
  as_bool := fun v => match v with Bool b => Some b | _ => None end;
  is_null := fun v => match v with Null => true | _ => false end;
  json_null := Null;
  json_string := Text;
  json_bool := Bool;
  json_number := Number;
  json_array := Array;
  json_object := Object;
|}.

Lemma tree_laws texts : @JsonLaws tree (tree_json texts).
Proof. split; [done..|]. intros fields _. by exists fields. Qed.
