(* ===== verification/Tools.v ===== *)
(** * Tools: what a model may call and what it gets back

    Models [crates/simulacra-types/src/tool.rs]: definitions and their schemas, the typed output of a
    call with its form as JSON, errors, and the trait [Tool] with its default methods.  A tool acts on a
    world it shares with everything else that runs.  How [serde] reads provider blocks is a parameter. *)

From S2P Require Import Prelude.
From S2P Require Import Text.
From S2P Require Import Utf8.
From S2P Require Import Json.
From S2P Require Import Capability.
From S2P Require Import Context.

Definition TOOL_PREVIEW_MAX_CHARS : nat := 4096.

Record ToolDefinition (Value : Type) := { def_name : str; def_description : str; input_schema : Value }.
Arguments def_name {_}.
Arguments def_description {_}.
Arguments input_schema {_}.

Variant ToolError :=
| ToolDenied (denied : CapabilityDenied)
| InvalidArguments (message : str)
| ExecutionFailed (message : str).

Definition tool_error_to_string (e : ToolError) : str :=
  match e with
  | ToolDenied denied => "capability denied: " ++ capability_denied_to_string denied
  | InvalidArguments m => "invalid arguments: " ++ m
  | ExecutionFailed m => "execution failed: " ++ m
  end.

Definition truncate_chars (content : str) (max_chars : nat) : str * bool :=
  if (char_count content <=? max_chars)%nat then (content, false) else (take_chars max_chars content, true).
Definition preview (content : str) : str := fst (truncate_chars content TOOL_PREVIEW_MAX_CHARS).

Section Tools.
Context {Value : Type} `{JsonOps Value}.
Abbreviation Blocks := (list (@ProviderContentBlock Value)).

(** ** Schemas *)

Definition schema_object (properties : list (str * Value)) (required : list str) : Value :=
  json_object ["type" ↦ json_string (lit "object"); "properties" ↦ json_object properties;
               "required" ↦ json_array (List.map json_string required); "additionalProperties" ↦ json_bool false].
Definition described_schema (schema_type description : str) : Value :=
  json_object ["type" ↦ json_string schema_type; "description" ↦ json_string description].

(** ** The output of a tool *)

Record ToolOutput := {
  out_content : str;
  out_is_error : bool;
  log_preview : str;
  structured : option Value;
  hook_input : option Value;
  hook_output : option Value;
  out_blocks : Blocks;
}.

Definition tool_output (is_error : bool) (content : str) : ToolOutput :=
  {| out_content := content; out_is_error := is_error; log_preview := preview content; structured := None;
     hook_input := None; hook_output := None; out_blocks := [] |}.
Definition success : str -> ToolOutput := tool_output false.
Definition error : str -> ToolOutput := tool_output true.

Definition with_structured (v : Value) (o : ToolOutput) : ToolOutput :=
  {| out_content := out_content o; out_is_error := out_is_error o; log_preview := log_preview o; structured := Some v;
     hook_input := hook_input o; hook_output := hook_output o; out_blocks := out_blocks o |}.
Definition with_hook_input (v : Value) (o : ToolOutput) : ToolOutput :=
  {| out_content := out_content o; out_is_error := out_is_error o; log_preview := log_preview o;
     structured := structured o; hook_input := Some v; hook_output := hook_output o; out_blocks := out_blocks o |}.
Definition with_hook_output (v : Value) (o : ToolOutput) : ToolOutput :=
  {| out_content := out_content o; out_is_error := out_is_error o; log_preview := log_preview o;
     structured := structured o; hook_input := hook_input o; hook_output := Some v; out_blocks := out_blocks o |}.
Definition with_log_preview (p : str) (o : ToolOutput) : ToolOutput :=
  {| out_content := out_content o; out_is_error := out_is_error o; log_preview := p; structured := structured o;
     hook_input := hook_input o; hook_output := hook_output o; out_blocks := out_blocks o |}.

Definition opt_field (key : str) (v : option Value) : list (str * Value) :=
  match v with Some v => [(key, v)] | None => [] end.

Definition block_value (b : @ProviderContentBlock Value) : Value :=
  json_object ["provider" ↦ json_string (pc_provider b); "value" ↦ pc_value b].
Definition blocks_value (blocks : Blocks) : Value := json_array (List.map block_value blocks).

Definition to_value (o : ToolOutput) : Value :=
  json_object (["content" ↦ json_string (out_content o); "is_error" ↦ json_bool (out_is_error o);
                "log_preview" ↦ json_string (log_preview o)]
    ++ opt_field (lit "structured") (structured o) ++ opt_field (lit "hook_input") (hook_input o)
    ++ opt_field (lit "hook_output") (hook_output o)
    ++ (if bool_decide (out_blocks o = []) then [] else ["provider_content" ↦ blocks_value (out_blocks o)])).

(** [serde_json::from_value::<Vec<ProviderContentBlock>>]. *)
Context (blocks_of_value : Value -> option Blocks).

Definition from_value (value : Value) : ToolOutput :=
  match get_str (lit "content") value, value_get (lit "is_error") value ≫= as_bool with
  | Some content, Some is_error =>
      {| out_content := content; out_is_error := is_error;
         log_preview := unwrap_or (get_str (lit "log_preview") value) (preview content);
         structured := value_get (lit "structured") value; hook_input := value_get (lit "hook_input") value;
         hook_output := value_get (lit "hook_output") value;
         out_blocks := unwrap_or (value_get (lit "provider_content") value ≫= blocks_of_value) [] |}
  | _, _ =>
      match as_str value with
      | Some content => success content
      | None => with_structured value (success (json_to_string value))
      end
  end.

(** ** The trait *)

Record ToolObject (W : Type) := {
  definition : ToolDefinition Value;
  advertised_to : CapabilityToken -> bool;
  tool_call : Value -> CapabilityToken -> SE W ToolError Value;
  handles_own_hooks : bool;
  output_schema : option Value;
  supports_parallel_tool_calls : bool;
  waits_for_runtime_cancellation : bool;
  hook_input_payload : str -> Value -> Value;
  arguments_from_hook_input : Value -> Value -> Value;
  hook_output_payload : str -> Value -> Value -> Value;
  result_from_hook_output : Value -> Value -> Value;
  output_from_value : Value -> ToolOutput;
}.

(** A [Box<dyn Tool>] that overrides none of the defaults. *)
Definition default_hook_input_payload (tool_name : str) (arguments : Value) : Value :=
  json_object ["tool" ↦ json_string tool_name; "arguments" ↦ arguments].
Definition default_arguments_from_hook_input (original payload : Value) : Value :=
  unwrap_or (value_get (lit "arguments") payload) original.
Definition default_hook_output_payload (tool_name : str) (arguments r : Value) : Value :=
  json_object ["tool" ↦ json_string tool_name; "arguments" ↦ arguments; "result" ↦ r].
Definition default_result_from_hook_output (original payload : Value) : Value :=
  unwrap_or (value_get (lit "result") payload) original.
Definition default_tool {W} (d : ToolDefinition Value) (f : Value -> CapabilityToken -> SE W ToolError Value) : ToolObject W :=
  {| definition := d; advertised_to := fun _ => true; tool_call := f; handles_own_hooks := false; output_schema := None;
     supports_parallel_tool_calls := false; waits_for_runtime_cancellation := false;
     hook_input_payload := default_hook_input_payload; arguments_from_hook_input := default_arguments_from_hook_input;
     hook_output_payload := default_hook_output_payload; result_from_hook_output := default_result_from_hook_output;
     output_from_value := from_value |}.
Definition with_advertised_to {W} (f : CapabilityToken -> bool) (t : ToolObject W) : ToolObject W :=
  {| definition := definition _ t; advertised_to := f; tool_call := tool_call _ t; handles_own_hooks := handles_own_hooks _ t;
     output_schema := output_schema _ t; supports_parallel_tool_calls := supports_parallel_tool_calls _ t;
     waits_for_runtime_cancellation := waits_for_runtime_cancellation _ t; hook_input_payload := hook_input_payload _ t;
     arguments_from_hook_input := arguments_from_hook_input _ t; hook_output_payload := hook_output_payload _ t;
     result_from_hook_output := result_from_hook_output _ t; output_from_value := output_from_value _ t |}.
End Tools.
Arguments definition {_ _}.
Arguments advertised_to {_ _}.
Arguments tool_call {_ _}.
Arguments handles_own_hooks {_ _}.
Arguments output_schema {_ _}.
Arguments supports_parallel_tool_calls {_ _}.
Arguments waits_for_runtime_cancellation {_ _}.
Arguments hook_input_payload {_ _}.
Arguments arguments_from_hook_input {_ _}.
Arguments hook_output_payload {_ _}.
Arguments result_from_hook_output {_ _}.
Arguments output_from_value {_ _}.

(** ** An output and its JSON *)

Lemma truncate_chars_bound content n : (char_count (fst (truncate_chars content n)) <= n)%nat.
Proof. unfold truncate_chars. destruct (Nat.leb_spec (char_count content) n); [done|]. apply take_chars_count. Qed.

Section Laws.
Context {Value : Type} `{JsonLaws Value} (blocks_of_value : Value -> option (list (@ProviderContentBlock Value))).

(** A tool's output survives its JSON: read back it is the output that was written, its optional parts
    and its provider blocks included. *)
Theorem tool_output_roundtrip (o : ToolOutput) :
  (forall blocks, blocks_of_value (blocks_value blocks) = Some blocks) ->
  from_value blocks_of_value (to_value o) = o.
Proof.
  intros Hb. destruct o as [c e p s hi ho bs]. unfold from_value, to_value, get_str.
  cbn [out_content out_is_error log_preview structured hook_input hook_output out_blocks].
  rewrite !value_get_object by (destruct s, hi, ho, bs; cbn; by apply (bool_decide_unpack _)).
  destruct s, hi, ho, bs; try rewrite bool_decide_true by done; try rewrite bool_decide_false by done; cbn [opt_field app];
    json_fields; rewrite ?Hb; by json_fields.
Qed.
End Laws.

(** ** Examples *)

Definition ex_blocks (v : tree) : option (list (@ProviderContentBlock tree)) :=
  let J := tree_json [] in
  as_array v ≫= mapM (fun b =>
    provider ← get_str "provider" b; value ← value_get "value" b; Some {| pc_provider := provider; pc_value := value |}).

Lemma ex_blocks_back blocks : ex_blocks (blocks_value (H := tree_json []) blocks) = Some blocks.
Proof.
  unfold ex_blocks, blocks_value. cbn [as_array json_array tree_json mbind option_bind].
  induction blocks as [|[provider value] blocks IH]; [done|]. cbn [List.map mapM]. by rewrite IH.
Qed.

Lemma tool_output_roundtrip_witness :
  let J := tree_json [] in
  let o := with_hook_output (Bool true) {| out_content := "text"; out_is_error := false; log_preview := "t"; structured := Some (Number 7);
             hook_input := None; hook_output := None; out_blocks := [{| pc_provider := "p"; pc_value := Text "opaque" |}] |} in
  from_value ex_blocks (to_value o) = o.
Proof. intros J o. apply (tool_output_roundtrip (H0 := tree_laws []) ex_blocks o ex_blocks_back). Defined.
