(* ===== verification/ToolRegistry.v ===== *)
(** * The tool registry

    Models [crates/simulacra-tool/src/registry.rs] and the batches of [sandbox_tools/tool_sets.rs]: the
    tools a host offers, which of them a model is told about, and a call with the hooks around it.

    The tools of a registry share a world, the hooks have theirs; a call takes the two and the log events
    emitted so far to the next ones.  Spans are left out. *)

From S2P Require Import Prelude.
From S2P Require Import Text.
From S2P Require Import Utf8.
From S2P Require Import Json.
From S2P Require Import Capability.
From S2P Require Import Tools.
From S2P Require Import Hooks.

Variant ToolExposure := Direct | Hidden | Deferred.

#[export] Instance ToolExposure_eq_dec : EqDecision ToolExposure.
Proof. solve_decision. Defined.

(** [emit_tool_result_event] and [emit_tool_error_event]. *)
Variant ToolEvent :=
| ToolResultEvent (name message : str) (result_length : nat) (message_truncated : bool)
| ToolErrorEvent (name error : str).

Section Registry.
Context {Value W HW : Type} `{JsonOps Value}.
Abbreviation ToolObject := (@ToolObject Value W).

Record RegisteredTool := { tool : ToolObject; exposure : ToolExposure }.
Definition registered_definition (r : RegisteredTool) : ToolDefinition Value := definition (tool r).
Definition registered_name (r : RegisteredTool) : str := def_name (registered_definition r).

Record ToolMetadata := {
  md_exposure : ToolExposure;
  md_output_schema : option Value;
  md_supports_parallel_tool_calls : bool;
  md_waits_for_runtime_cancellation : bool;
}.
Definition registered_metadata (r : RegisteredTool) : ToolMetadata :=
  {| md_exposure := exposure r; md_output_schema := output_schema (tool r);
     md_supports_parallel_tool_calls := supports_parallel_tool_calls (tool r);
     md_waits_for_runtime_cancellation := waits_for_runtime_cancellation (tool r) |}.

Definition tool_message_event_payload (output : @ToolOutput Value) : str * nat * bool :=
  let '(message, preview_was_truncated) := truncate_chars (log_preview output) TOOL_PREVIEW_MAX_CHARS in
  (message, char_count (out_content output),
   (TOOL_PREVIEW_MAX_CHARS <? char_count (out_content output))%nat || preview_was_truncated).

Definition tool_result_event (name : str) (output : @ToolOutput Value) : ToolEvent :=
  let '(message, len, truncated) :=
    if str_eqb name "mcp_call" then (lit "[REDACTED]", char_count (out_content output), false)
    else tool_message_event_payload output in
  ToolResultEvent name message len truncated.

(** ** Registration *)

Record ToolRegistry := { tools : list RegisteredTool; pipeline : option (HookPipeline HW) }.

Definition new : ToolRegistry := {| tools := []; pipeline := None |}.
Definition set_pipeline (p : HookPipeline HW) (r : ToolRegistry) : ToolRegistry := {| tools := tools r; pipeline := Some p |}.

Definition find_tool (name : str) (r : ToolRegistry) : option RegisteredTool :=
  List.find (fun registered => str_eqb (registered_name registered) name) (tools r).

Definition duplicate_tool (name : str) : ToolError := ExecutionFailed ("duplicate tool registration: " ++ name).

Definition try_register_with_exposure (t : ToolObject) (e : ToolExposure) (r : ToolRegistry)
    : ToolRegistry * result unit ToolError :=
  let name := def_name (definition t) in
  if existsb (fun registered => str_eqb (registered_name registered) name) (tools r)
  then (r, Err (duplicate_tool name))
  else ({| tools := tools r ++ [{| tool := t; exposure := e |}]; pipeline := pipeline r |}, Ok tt).
Definition register (t : ToolObject) : ToolRegistry -> ToolRegistry * result unit ToolError := try_register_with_exposure t Direct.
Definition try_register_hidden (t : ToolObject) : ToolRegistry -> ToolRegistry * result unit ToolError := try_register_with_exposure t Hidden.
Definition try_register_deferred (t : ToolObject) : ToolRegistry -> ToolRegistry * result unit ToolError := try_register_with_exposure t Deferred.

Definition definitions (r : ToolRegistry) : list (ToolDefinition Value) :=
  List.map registered_definition (List.filter (fun t => bool_decide (exposure t = Direct)) (tools r)).
Definition definitions_for (capability : CapabilityToken) (r : ToolRegistry) : list (ToolDefinition Value) :=
  List.map registered_definition
    (List.filter (fun t => advertised_to (tool t) capability)
      (List.filter (fun t => bool_decide (exposure t = Direct)) (tools r))).
Definition metadata (name : str) (r : ToolRegistry) : option ToolMetadata := option_map registered_metadata (find_tool name r).

Definition matches_query (query : str) (t : RegisteredTool) : bool :=
  let d := registered_definition t in
  let haystack := List.map to_ascii_lowercase (def_name d) ++ [lf] ++ List.map to_ascii_lowercase (def_description d) in
  str_eqb query [] || bool_decide (is_Some (find_sub query haystack)).
Definition search_deferred (query : str) (r : ToolRegistry) : list (ToolDefinition Value) :=
  let query := List.map to_ascii_lowercase query in
  List.map registered_definition
    (List.filter (matches_query query) (List.filter (fun t => bool_decide (exposure t = Deferred)) (tools r))).
Definition search_deferred_for (query : str) (capability : CapabilityToken) (r : ToolRegistry) : list (ToolDefinition Value) :=
  let query := List.map to_ascii_lowercase query in
  List.map registered_definition
    (List.filter (matches_query query)
      (List.filter (fun t => advertised_to (tool t) capability)
        (List.filter (fun t => bool_decide (exposure t = Deferred)) (tools r)))).

(** *** Batches ([tool_sets.rs]) *)

Fixpoint check_batch_names (ts : list ToolObject) (names : list str) (r : ToolRegistry) : result unit ToolError :=
  match ts with
  | [] => Ok tt
  | t :: ts =>
      let name := def_name (definition t) in
      if bool_decide (is_Some (metadata name r)) || mem name names then Err (duplicate_tool name)
      else check_batch_names ts (names ++ [name]) r
  end.
Fixpoint register_all (ts : list ToolObject) (r : ToolRegistry) : ToolRegistry * result unit ToolError :=
  match ts with
  | [] => (r, Ok tt)
  | t :: ts =>
      match register t r with
      | (r, Ok _) => register_all ts r
      | (r, Err e) => (r, Err e)
      end
  end.
Definition register_tool_batch (ts : list ToolObject) (r : ToolRegistry) : ToolRegistry * result unit ToolError :=
  match check_batch_names ts [] r with
  | Err e => (r, Err e)
  | Ok _ => register_all ts r
  end.

(** ** A call *)

Record Host := { tool_world : W; hook_state : State HW; emitted : list ToolEvent }.
Definition set_tool_world (h : Host) (w : W) : Host := {| tool_world := w; hook_state := hook_state h; emitted := emitted h |}.
Definition set_hook_state (h : Host) (s : State HW) : Host := {| tool_world := tool_world h; hook_state := s; emitted := emitted h |}.
Definition emit (e : ToolEvent) (h : Host) : Host :=
  {| tool_world := tool_world h; hook_state := hook_state h; emitted := emitted h ++ [e] |}.

Definition fail {A} (name : str) (e : ToolError) : SE Host ToolError A := fun h =>
  (emit (ToolErrorEvent name (tool_error_to_string e)) h, Err e).

Definition hooks_of (t : ToolObject) (r : ToolRegistry) : option (HookPipeline HW) :=
  if handles_own_hooks t then None else pipeline r.

(** The arguments the before hooks leave.  [run_before] never returns a kill as a verdict. *)
Definition effective_arguments (hooks : option (HookPipeline HW)) (t : ToolObject) (name : str) (arguments : Value)
    : SE Host ToolError Value :=
  match hooks with
  | None => se_ret arguments
  | Some p => fun h =>
    let before_ctx := json_to_string (hook_input_payload t name arguments) in
    let '(s, r) := run_before p ToolCall before_ctx (hook_state h) in
    let h := set_hook_state h s in
    match r with
    | Ok (Continue _, modified_ctx) =>
        (h, Ok (match json_from_str modified_ctx with
                | Some parsed => arguments_from_hook_input t arguments parsed
                | None => arguments
                end))
    | Ok (Deny reason, _) | Ok (Kill reason, _) => fail name (ExecutionFailed ("hook denied tool call: " ++ reason)) h
    | Err e => fail name (ExecutionFailed ("hook error: " ++ hook_error_display e)) h
    end
  end.

(** The result the after hooks leave. *)
Definition final_result (hooks : option (HookPipeline HW)) (t : ToolObject) (name : str) (arguments result_value : Value)
    : SE Host ToolError Value :=
  match hooks with
  | None => se_ret result_value
  | Some p => fun h =>
    let after_ctx := json_to_string (hook_output_payload t name arguments result_value) in
    let '(s, r) := run_after p ToolCall after_ctx (hook_state h) in
    let h := set_hook_state h s in
    match r with
    | Ok (_, modified_ctx) =>
        (h, Ok (match json_from_str modified_ctx with
                | Some parsed => result_from_hook_output t result_value parsed
                | None => result_value
                end))
    | Err e => fail name (ExecutionFailed ("hook error: " ++ hook_error_display e)) h
    end
  end.

Definition call_tool (t : ToolObject) (arguments : Value) (capability : CapabilityToken) : SE Host ToolError Value := fun h =>
  let '(w, r) := tool_call t arguments capability (tool_world h) in (set_tool_world h w, r).

Definition call_raw (name : str) (arguments : Value) (capability : CapabilityToken) (r : ToolRegistry) : SE Host ToolError Value :=
  match find_tool name r with
  | None => fail name (ExecutionFailed ("unknown tool: " ++ name))
  | Some registered =>
      let t := tool registered in
      let! effective_args := effective_arguments (hooks_of t r) t name arguments in
      let! outcome := se_try (call_tool t effective_args capability) in
      match outcome with
      | Err err => fail name err
      | Ok result_value =>
          let! final := final_result (hooks_of t r) t name effective_args result_value in
          let! _ := se_modify (emit (tool_result_event name (output_from_value t final))) in
          se_ret final
      end
  end.

(** [call] is [call_raw]. *)
Definition call_output (name : str) (arguments : Value) (capability : CapabilityToken) (r : ToolRegistry)
    : SE Host ToolError (@ToolOutput Value) :=
  let! raw := call_raw name arguments capability r in
  match find_tool name r with
  | None => se_err (ExecutionFailed ("unknown tool: " ++ name))
  | Some registered => se_ret (output_from_value (tool registered) raw)
  end.

(** ** Names *)

Definition names_of (r : ToolRegistry) : list str := List.map registered_name (tools r).

Lemma find_tool_spec name r :
  match find_tool name r with
  | Some t => t ∈ tools r /\ registered_name t = name
  | None => name ∉ names_of r
  end.
Proof.
  unfold find_tool, names_of. destruct (List.find _ (tools r)) as [t|] eqn:E.
  - apply List.find_some in E as [Hin E]. bools. split; [by apply list_elem_of_In|done].
  - intros (t & -> & Hin)%list_elem_of_fmap. apply list_elem_of_In in Hin. apply (List.find_none _ _ E) in Hin.
    by rewrite str_eqb_refl in Hin.
Qed.

Lemma find_tool_app name r more p : find_tool name {| tools := tools r ++ more; pipeline := p |} =
  match find_tool name r with Some t => Some t | None => List.find (fun t => str_eqb (registered_name t) name) more end.
Proof. unfold find_tool. cbn [tools]. induction (tools r) as [|t ts IH]; cbn [List.find app]; [done|]. by destruct (str_eqb _ _). Qed.

(** What a registration may do to a registry: nothing, or put tools with new names behind the others. *)
Definition grows (r r' : ToolRegistry) (added : list RegisteredTool) : Prop :=
  tools r' = tools r ++ added /\ pipeline r' = pipeline r /\
  NoDup (List.map registered_name added) /\ forall t, t ∈ added -> registered_name t ∉ names_of r.

Lemma register_spec t e r :
  (try_register_with_exposure t e r = (r, Err (duplicate_tool (def_name (definition t)))) /\ def_name (definition t) ∈ names_of r) \/
  exists r', try_register_with_exposure t e r = (r', Ok tt) /\ grows r r' [{| tool := t; exposure := e |}].
Proof.
  unfold try_register_with_exposure. destruct (existsb _ _) eqn:E.
  - left. split; [done|]. apply existsb_exists in E as (x & Hx%list_elem_of_In & E). bools. rewrite <- E. by apply list_elem_of_fmap_2.
  - right. eexists. split; [done|]. split_and!; [done|done|cbn; constructor; [apply not_elem_of_nil|constructor]|].
    intros x ->%list_elem_of_singleton (y & Ey & Hy)%list_elem_of_fmap. apply not_true_iff_false in E. apply E, existsb_exists.
    exists y. split; [by apply list_elem_of_In|]. change (str_eqb (registered_name y) (def_name (definition t)) = true). rewrite <- Ey. apply str_eqb_refl.
Qed.

Lemma grows_trans a b c x y : grows a b x -> grows b c y -> grows a c (x ++ y).
Proof.
  intros (E1 & P1 & N1 & D1) (E2 & P2 & N2 & D2). unfold grows. rewrite E2, E1, P2, P1, app_assoc.
  assert (forall t, t ∈ y -> registered_name t ∉ names_of a ++ List.map registered_name x) as D.
  { intros t Ht. specialize (D2 t Ht). unfold names_of in *. by rewrite E1, map_app in D2. }
  split_and!; [done|done| |].
  - rewrite map_app. apply NoDup_app. split_and!; [done| |done]. intros n Hn (t & -> & Ht)%list_elem_of_fmap. apply (D t Ht). set_solver.
  - intros t [Ht|Ht]%elem_of_app; [by apply D1|]. specialize (D t Ht). set_solver.
Qed.

Definition direct (t : ToolObject) : RegisteredTool := {| tool := t; exposure := Direct |}.

Lemma batch_names_ok ts names r : check_batch_names ts names r = Ok tt ->
  NoDup (List.map (fun t => def_name (definition t)) ts) /\
  forall t, t ∈ ts -> def_name (definition t) ∉ names_of r /\ def_name (definition t) ∉ names.
Proof.
  revert names. induction ts as [|t ts IH]; intros names; cbn [check_batch_names List.map]; [split; [constructor|by intros ? ?%elem_of_nil]|].
  destruct (_ || _) eqn:E; [done|]. intros Hc. apply IH in Hc as [Hd Ht]. apply orb_false_iff in E as [E1 E2]. apply bool_decide_eq_false in E1, E2.
  assert (def_name (definition t) ∉ names_of r) as Hn.
  { pose proof (find_tool_spec (def_name (definition t)) r) as Hf. unfold metadata in E1. by destruct (find_tool _ r); [destruct E1; eexists|]. }
  split.
  - constructor; [|done]. intros (x & Ex & Hx)%list_elem_of_fmap. destruct (Ht x Hx) as [_ Hx']. rewrite <- Ex in Hx'. set_solver.
  - intros x [->|Hx]%elem_of_cons; [done|]. destruct (Ht x Hx). split; [done|set_solver].
Qed.

Lemma register_all_ok ts r :
  NoDup (List.map (fun t => def_name (definition t)) ts) -> (forall t, t ∈ ts -> def_name (definition t) ∉ names_of r) ->
  exists r', register_all ts r = (r', Ok tt) /\ grows r r' (List.map direct ts).
Proof.
  revert r. induction ts as [|t ts IH]; intros r; cbn [register_all List.map].
  - intros _ _. exists r. split; [done|]. split_and!; [by rewrite app_nil_r|done|constructor|by intros ? ?%elem_of_nil].
  - intros [Hn Hd]%NoDup_cons Ht. unfold register.
    destruct (register_spec t Direct r) as [[_ Hin]|(r1 & -> & Hg)]; [by destruct (Ht t); [left|]|].
    destruct (IH r1 Hd) as (r2 & -> & Hg2).
    + intros x Hx. destruct Hg as (E & _). unfold names_of. rewrite E, map_app, elem_of_app. intros [Hin|Hin].
      * by destruct (Ht x); [right|].
      * apply list_elem_of_singleton in Hin. apply Hn. apply list_elem_of_fmap. by exists x.
    + exists r2. split; [done|]. by eapply (grows_trans r r1 r2 [_]).
Qed.

(** *** After any calls *)

Variant RegistryOp := OpRegister (t : ToolObject) (e : ToolExposure) | OpBatch (ts : list ToolObject).
Definition registry_run (op : RegistryOp) (r : ToolRegistry) : ToolRegistry * result unit ToolError :=
  match op with
  | OpRegister t e => try_register_with_exposure t e r
  | OpBatch ts => register_tool_batch ts r
  end.
Definition asked_for (op : RegistryOp) : list RegisteredTool :=
  match op with OpRegister t e => [{| tool := t; exposure := e |}] | OpBatch ts => List.map direct ts end.

Lemma registry_run_cases op r :
  (exists e, registry_run op r = (r, Err e)) \/
  exists r', registry_run op r = (r', Ok tt) /\ grows r r' (asked_for op).
Proof.
  destruct op as [t e|ts]; cbn [registry_run asked_for].
  - destruct (register_spec t e r) as [[-> _]|?]; [left; by eexists|by right].
  - unfold register_tool_batch. destruct (check_batch_names ts [] r) as [[]|e] eqn:E; [|left; by eexists].
    apply batch_names_ok in E as [Hd Ht]. right. apply register_all_ok; [done|]. intros t Hin. by apply Ht.
Qed.

Lemma grows_names r r' added : grows r r' added -> NoDup (names_of r) -> NoDup (names_of r').
Proof.
  intros (E & _ & Hn & Hd) Hr. unfold names_of. rewrite E, map_app. apply NoDup_app. split_and!; [done| |done].
  intros n Hin (t & -> & Ht)%list_elem_of_fmap. by apply (Hd t Ht).
Qed.

Lemma find_of_names r t : NoDup (names_of r) -> t ∈ tools r -> find_tool (registered_name t) r = Some t.
Proof.
  unfold find_tool, names_of. induction (tools r) as [|x ts IH]; [by intros _ ?%elem_of_nil|]. cbn [List.map List.find].
  intros [Hx Hd]%NoDup_cons [->|Hin]%elem_of_cons; [by rewrite str_eqb_refl|]. unfold str_eqb at 1. rewrite bool_decide_false; [by apply IH|].
  intros E. apply Hx. rewrite E. by apply list_elem_of_fmap_2.
Qed.

(** A name means one tool, for good.  After any registrations, single or in batches and whatever they
    reported, no two tools of a registry have the same name; a registration that fails has registered
    nothing, not even a part of its batch; one that succeeds makes each of its tools the one found under
    its name; and a name that was taken keeps its tool. *)
Theorem names_keep_their_tools (ops : list RegistryOp) op :
  let r := fold_left (fun r op => fst (registry_run op r)) ops new in
  let '(r', res) := registry_run op r in
  NoDup (names_of r) /\ (forall name t, find_tool name r = Some t -> find_tool name r' = Some t) /\
  match res with
  | Ok _ => forall t, t ∈ asked_for op -> find_tool (registered_name t) r' = Some t
  | Err _ => r' = r
  end.
Proof.
  cbv zeta. assert (NoDup (names_of (fold_left (fun r op => fst (registry_run op r)) ops new))) as Hd.
  { assert (NoDup (names_of new)) as H0 by constructor. revert H0. generalize new. induction ops as [|o ops IH]; intros r Hr; [done|].
    cbn [fold_left]. apply IH. destruct (registry_run_cases o r) as [[e ->]|(r' & -> & Hg)]; [done|by eapply grows_names]. }
  set (r := fold_left _ _ _) in *. destruct (registry_run_cases op r) as [[e ->]|(r' & -> & Hg)]; [done|].
  pose proof (grows_names _ _ _ Hg Hd) as Hd'. destruct Hg as (E & _). split_and!; [done| |].
  - intros name t Ht. pose proof (find_tool_spec name r) as Hf. rewrite Ht in Hf. destruct Hf as [Hin <-].
    apply find_of_names; [done|]. rewrite E, elem_of_app. by left.
  - intros t Ht. apply find_of_names; [done|]. rewrite E, elem_of_app. by right.
Qed.

(** ** A governed call *)

Lemma before_verdict (p : HookPipeline HW) op ctx s :
  match snd (run_before p op ctx s) with Ok (Kill _, _) => False | _ => True end.
Proof.
  unfold run_before, run_before_attributed. destruct (chain_of p op) as [hooks|]; [|done]. revert ctx s.
  induction hooks as [|h hooks IH]; intros ctx s; cbn [before_loop]; [done|].
  destruct (call_hook _ _ _ _ _) as [s' [[[m|]|reason|reason]|[]]]; try done; apply IH.
Qed.

Lemma before_passes (p : HookPipeline HW) op ctx s v ctx' :
  snd (run_before p op ctx s) = Ok (Continue v, ctx') ->
  passed Before op (unwrap_or (chain_of p op) []) ctx (world s) ctx' (world (fst (run_before p op ctx s))).
Proof.
  unfold run_before, run_before_attributed. destruct (chain_of p op) as [hooks|]; cbn [unwrap_or]; [|intros [= _ <-]; constructor].
  destruct (loop_spec Before op (before_loop op) _ stopped_before (fun _ _ => eq_refl) (before_steps op) hooks ctx s)
    as [(c' & s' & Hp & -> & _)|(pre & h & post & ctx1 & w1 & a & s' & -> & Hp & Ha & Hg & -> & _)]; cbn [fst snd].
  - intros [= _ <-]. exact Hp.
  - unfold stopped_before. by destruct a as [[[m|]|reason|reason]|[]].
Qed.

(** What a call is about: the tool of that name, and the arguments the hooks let it have. *)
Definition allowed_arguments (r : ToolRegistry) (t : ToolObject) (name : str) (arguments : Value) (h : Host) (args : Value) : Prop :=
  match hooks_of t r with
  | None => args = arguments
  | Some p => exists ctx w, passed Before ToolCall (unwrap_or (chain_of p ToolCall) [])
                (json_to_string (hook_input_payload t name arguments)) (world (hook_state h)) ctx w /\
              args = match json_from_str ctx with
                     | Some parsed => arguments_from_hook_input t arguments parsed
                     | None => arguments
                     end
  end.

(** The event of a call that returned [res]: of a result a bounded preview, which for [mcp_call] is nothing at
    all; of an error its whole text, for [mcp_call] too. *)
Definition event_ok {A} (name : str) (res : result A ToolError) (e : ToolEvent) : Prop :=
  match res, e with
  | Ok _, ToolResultEvent n message _ _ => n = name /\
      if str_eqb name "mcp_call" then message = lit "[REDACTED]" else (char_count message <= TOOL_PREVIEW_MAX_CHARS)%nat
  | Err err, ToolErrorEvent n text => n = name /\ text = tool_error_to_string err
  | _, _ => False
  end.

Lemma result_event_ok name o (v : Value) : event_ok name (Ok v) (tool_result_event name o).
Proof.
  unfold tool_result_event, event_ok, tool_message_event_payload. destruct (str_eqb name "mcp_call"); [done|].
  destruct (truncate_chars _ _) as [m b] eqn:E. split; [done|]. pose proof (truncate_chars_bound (log_preview o) TOOL_PREVIEW_MAX_CHARS) as Hb. by rewrite E in Hb.
Qed.

Definition logs {A} (name : str) (res : result A ToolError) (h h' : Host) : Prop :=
  exists e, emitted h' = emitted h ++ [e] /\ event_ok name res e.

Lemma effective_arguments_spec r t name arguments h :
  let '(h1, a) := effective_arguments (hooks_of t r) t name arguments h in
  tool_world h1 = tool_world h /\
  match a with
  | Ok args => emitted h1 = emitted h /\ allowed_arguments r t name arguments h args
  | Err _ => logs name a h h1
  end.
Proof.
  unfold allowed_arguments. destruct (hooks_of t r) as [p|]; [|done]. unfold effective_arguments.
  pose proof (before_passes p ToolCall (json_to_string (hook_input_payload t name arguments)) (hook_state h)) as Hp.
  destruct (run_before _ _ _ _) as [s [[[m|reason|reason] ctx]|e]]; cbn [fst snd] in Hp; (split; [done|]); [|by eexists..].
  split; [done|]. exists ctx, (world s). split; [by eapply Hp|done].
Qed.

Lemma final_result_spec o t name args v h :
  let '(h2, b) := final_result o t name args v h in
  tool_world h2 = tool_world h /\ match b with Ok _ => emitted h2 = emitted h | Err _ => logs name b h h2 end.
Proof.
  destruct o as [p|]; [|done]. unfold final_result. destruct (run_after _ _ _ _) as [s [[v' ctx]|e]]; (split; [done|]); [done|by eexists].
Qed.

(** C22. No tool runs behind the hooks.  Whatever the tools and the hooks do, a call changes the world of the
    tools only by the one call of the tool of that name, under the caller's token and with the arguments the
    before hooks left after every one of them let the call pass (those given, when the tool has hooks of its
    own or no pipeline is set).  A call logs exactly one event, under its name: when it succeeds, a preview of
    the result of bounded length, and nothing of what an [mcp_call] returned; when it fails, the text of the
    error, whole, whatever its length and whichever the tool. *)
Theorem tools_run_behind_hooks r name arguments capability h :
  let '(h', res) := call_raw name arguments capability r h in
  logs name res h h' /\
  (tool_world h' = tool_world h /\ (exists e, res = Err e) \/
   exists t args, find_tool name r = Some t /\ allowed_arguments r (tool t) name arguments h args /\
     let '(w, out) := tool_call (tool t) args capability (tool_world h) in
     tool_world h' = w /\ forall e, out = Err e -> res = Err e).
Proof.
  unfold call_raw. destruct (find_tool name r) as [t|]; [|by split; [by eexists|left; eauto]].
  unfold se_bind at 1. pose proof (effective_arguments_spec r (tool t) name arguments h) as Ha.
  destruct (effective_arguments _ _ _ _ h) as [h1 [args|e]]; [|destruct Ha as [Hw He]; split; [exact He|left; eauto]].
  destruct Ha as (Hw & He & Ha). unfold se_bind at 1, se_try, call_tool. rewrite Hw.
  destruct (tool_call (tool t) args capability (tool_world h)) as [w [v|e]] eqn:Et.
  2: { cbn. split; [by eexists; split; [cbn; by rewrite He|]|]. right. exists t, args. rewrite Et. split_and!; try done. }
  unfold se_bind at 1. pose proof (final_result_spec (hooks_of (tool t) r) (tool t) name args v (set_tool_world h1 w)) as Hb.
  unfold logs in Hb. cbn [emitted tool_world set_tool_world] in Hb. rewrite He in Hb.
  destruct (final_result _ _ _ _ _ _) as [h2 [fin|e]]; destruct Hb as [Hw2 Hb]; cbn;
    (split; [|right; exists t, args; rewrite Et; by split_and!]); [|exact Hb].
  eexists. cbn. rewrite Hb. split; [done|apply (result_event_ok name _ fin)].
Qed.
End Registry.
