(* ===== verification/HookedFs.v ===== *)
(** * Writes behind hooks

    Models [crates/simulacra-runtime/src/vfs_hook.rs]: the layer that asks the hooks of the [VfsWrite] chain before every
    write and remove, and refuses what would pass them by.  Spans are left out. *)

From S2P Require Import Prelude.
From S2P Require Import Vfs.
From S2P Require Import MemoryFs.
From S2P Require Import Hooks.
From S2P Require Import Json.
From S2P Require ToolRegistry.
From S2P Require MemoryPath.

Section Hooked.
Context {V HW Value : Type} `{VirtualFs V} `{JsonOps Value}.

Record HookedVfsLayer := {
  hooked_inner : V;
  hook_state : Hooks.State HW;
  pipeline : HookPipeline HW;
  hooked_tenant : MemoryPath.TenantId;
}.
Definition hooked_new (t : MemoryPath.TenantId) (v : V) (p : HookPipeline HW) (s : Hooks.State HW) : HookedVfsLayer :=
  {| hooked_inner := v; hook_state := s; pipeline := p; hooked_tenant := t |}.
Definition set_hooked (v : V) (s : Hooks.State HW) (f : HookedVfsLayer) : HookedVfsLayer :=
  {| hooked_inner := v; hook_state := s; pipeline := pipeline f; hooked_tenant := hooked_tenant f |}.
Definition hooked_inside (f : HookedVfsLayer) (r : V * result unit VfsError) : HookedVfsLayer * result unit VfsError :=
  (set_hooked (fst r) (hook_state f) f, snd r).

Definition write_context (tenant : MemoryPath.TenantId) (path op_kind : str) (bytes_len : N) : str :=
  json_to_string (json_object ["tenant" ↦ json_string (MemoryPath.tenant_str tenant); "path" ↦ json_string path; "op" ↦ json_string op_kind;
                               "bytes_len" ↦ json_number bytes_len]).

(** A field that is there, and a text, and not the one expected. *)
Definition differs (field : option str) (expected : str) : bool :=
  match field with Some t => negb (str_eqb t expected) | None => false end.
Definition modified_ctx_path_if_changed (original_ctx : str) (modified_ctx : option str) (expected_tenant : MemoryPath.TenantId) (expected_op : str)
    : result (option str) VfsError :=
  match modified_ctx with
  | None => Ok None
  | Some modified =>
      let? original_value := ok_or (json_from_str original_ctx) HookContractViolation in
      let? modified_value := ok_or (json_from_str modified) HookContractViolation in
      if differs (get_str "tenant" modified_value) (MemoryPath.tenant_str expected_tenant) then Err HookContractViolation
      else if differs (get_str "op" modified_value) expected_op then Err HookContractViolation
      else
        match get_str "path" original_value, get_str "path" modified_value with
        | Some orig, Some new => Ok (if str_eqb orig new then None else Some new)
        | _, _ => Ok None
        end
  end.

Definition run_vfs_write_chain (f : HookedVfsLayer) (path op_kind : str) (bytes_len : N) : HookedVfsLayer * result str VfsError :=
  let context := write_context (hooked_tenant f) path op_kind bytes_len in
  let '(s, r) := run_before (pipeline f) VfsWrite context (hook_state f) in
  (set_hooked (hooked_inner f) s f,
   match r with
   | Ok (Continue _, final_ctx) =>
       let? new := modified_ctx_path_if_changed context (Some final_ctx) (hooked_tenant f) op_kind in
       Ok (unwrap_or new path)
   | Ok (Deny reason, _) => Err (HookDenied reason)
   | Ok (Kill reason, _) => Err (HookKilled reason)
   | Err (Killed _ reason) => Err (HookKilled reason)
   | Err other => Err (HookDenied ("hook error: " ++ hook_error_display other))
   end).

(** A call made on the path the chain leaves. *)
Definition governed (r : HookedVfsLayer * result str VfsError) (call : V -> str -> V * result unit VfsError)
    : HookedVfsLayer * result unit VfsError :=
  let '(f, r) := r in
  match r with
  | Err e => (f, Err e)
  | Ok effective_path => hooked_inside f (call (hooked_inner f) effective_path)
  end.

#[export] Instance hooked_fs : VirtualFs HookedVfsLayer := {|
  vfs_read f := vfs_read (hooked_inner f);
  vfs_write f path data := governed (run_vfs_write_chain f path "write" (N.of_nat (length data))) (fun v q => vfs_write v q data);
  vfs_exists f := vfs_exists (hooked_inner f);
  vfs_list_dir f := vfs_list_dir (hooked_inner f);
  vfs_mkdir f path := hooked_inside f (vfs_mkdir (hooked_inner f) path);
  vfs_remove f path := governed (run_vfs_write_chain f path "remove" 0) vfs_remove;
  vfs_metadata f := vfs_metadata (hooked_inner f);
  vfs_snapshot f := vfs_snapshot (hooked_inner f);
  vfs_restore f d := hooked_inside f (vfs_restore (hooked_inner f) d);
  vfs_write_if f path data p := (f, Err (Unsupported ("write_if " ++ path ++ " would bypass VfsWrite hooks")));
  vfs_rename f from to := (f, Err (Unsupported ("rename " ++ from ++ " -> " ++ to ++ " would bypass VfsWrite hooks")));
  vfs_apply_batch f ms := (f, Err (Unsupported "apply_batch would bypass VfsWrite hooks"));
  vfs_list_dir_bounded f := vfs_list_dir_bounded (hooked_inner f);
|}.

(** ** What the chain lets pass *)

(** The hooks left the path of the context they were shown, or no path can be told from what they left. *)
Definition path_left (shown : str) (v : Value) : Prop :=
  exists o, json_from_str shown = Some o /\
    (get_str "path" v = get_str "path" o \/ get_str "path" v = None \/ get_str "path" o = None).

(** Every hook of the chain has let the call pass, and what they left says what is done: the same operation, for
    the same tenant, at [q]. *)
Definition let_through (f : HookedVfsLayer) (path op_kind : str) (bytes_len : N) (q : str) : Prop :=
  exists ctx w v,
    passed Before VfsWrite (unwrap_or (chain_of (pipeline f) VfsWrite) []) (write_context (hooked_tenant f) path op_kind bytes_len)
      (world (hook_state f)) ctx w /\
    json_from_str ctx = Some v /\
    (forall t, get_str "tenant" v = Some t -> t = MemoryPath.tenant_str (hooked_tenant f)) /\
    (forall o, get_str "op" v = Some o -> o = op_kind) /\
    (q = path /\ path_left (write_context (hooked_tenant f) path op_kind bytes_len) v \/ get_str "path" v = Some q).

(** The errors of a call that was not let through. *)
Definition is_refusal (e : VfsError) : bool :=
  match e with HookDenied _ | HookKilled _ | HookContractViolation => true | _ => false end.

Lemma differs_false field expected : differs field expected = false -> forall t, field = Some t -> t = expected.
Proof. intros Hd t ->. cbn in Hd. by apply negb_false_iff, str_eqb_true in Hd. Qed.

Lemma chain_spec f path op_kind n : let '(f', r) := run_vfs_write_chain f path op_kind n in
  hooked_inner f' = hooked_inner f /\
  match r with Ok q => let_through f path op_kind n q | Err e => is_refusal e = true end.
Proof.
  unfold run_vfs_write_chain. pose proof (ToolRegistry.before_passes (pipeline f) VfsWrite (write_context (hooked_tenant f) path op_kind n) (hook_state f)) as Hp.
  destruct (run_before _ _ _ _) as [s [[[m|reason|reason] ctx]|e]]; cbn [fst snd] in *; (split; [done|]); try done; [|by destruct e].
  specialize (Hp m ctx eq_refl). unfold modified_ctx_path_if_changed.
  destruct (json_from_str (write_context _ _ _ _)) as [o|] eqn:Eo0; [|done]. cbn [ok_or]. destruct (json_from_str ctx) as [v|] eqn:Ev; [|done]. cbn [ok_or].
  destruct (differs (get_str "tenant" v) _) eqn:Et; [done|]. destruct (differs (get_str "op" v) _) eqn:Eo; [done|].
  assert (forall q, (q = path /\ path_left (write_context (hooked_tenant f) path op_kind n) v \/ get_str "path" v = Some q) ->
    let_through f path op_kind n q) as Hl.
  { intros q Hq. exists ctx, (world s), v. split_and!; [done|done|by apply differs_false|by apply differs_false|done]. }
  assert (get_str "path" v = get_str "path" o \/ get_str "path" v = None \/ get_str "path" o = None ->
    let_through f path op_kind n path) as Hsame by (intros Hp'; apply Hl; left; split; [done|by exists o]).
  destruct (get_str "path" o) as [orig|]; [|apply Hsame; by auto]. destruct (get_str "path" v) as [new|] eqn:En; [|apply Hsame; by auto].
  destruct (str_eqb orig new) eqn:Eq; [apply Hsame; left; apply str_eqb_true in Eq; congruence|by apply Hl; right].
Qed.

(** C23. Nothing is written or removed past the hooks.  A write or a remove is made on the filesystem below only when every
    hook of the chain has let it pass, as the same operation for the same tenant, at the one the hooks put in the
    place of the path asked for, or at that path when they left it; when it is not, the filesystem below is as it was and the caller is told so.  The calls that
    would pass the hooks by are refused with nothing done. *)
Theorem writes_pass_the_hooks f c : let '(f', r) := run f c in
  let refused := hooked_inner f' = hooked_inner f /\ exists e, r = Err e /\ is_refusal e = true in
  match c with
  | CWrite path data =>
      refused \/ exists q, let_through f path "write" (N.of_nat (length data)) q /\ (hooked_inner f', r) = vfs_write (hooked_inner f) q data
  | CRemove path => refused \/ exists q, let_through f path "remove" 0 q /\ (hooked_inner f', r) = vfs_remove (hooked_inner f) q
  | CMkdir path => (hooked_inner f', r) = vfs_mkdir (hooked_inner f) path
  | CWriteIf _ _ _ | CRename _ _ | CBatch _ => f' = f /\ exists m, r = Err (Unsupported m)
  end.
Proof.
  destruct c as [path data|path|path|path data p|from to|ms]; cbn [run hooked_fs vfs_write vfs_mkdir vfs_remove vfs_write_if vfs_rename vfs_apply_batch]; try by eauto.
  - pose proof (chain_spec f path "write" (N.of_nat (length data))) as Hs. unfold governed. destruct (run_vfs_write_chain _ _ _ _) as [f1 [q|e]]; cbn.
    + right. exists q. destruct Hs as [-> ?]. split; [done|]. by destruct (vfs_write _ q data).
    + left. destruct Hs. eauto.
  - cbn. by destruct (vfs_mkdir _ path).
  - pose proof (chain_spec f path "remove" 0) as Hs. unfold governed. destruct (run_vfs_write_chain _ _ _ _) as [f1 [q|e]]; cbn.
    + right. exists q. destruct Hs as [-> ?]. split; [done|]. by destruct (vfs_remove _ q).
    + left. destruct Hs. eauto.
Qed.
End Hooked.
Arguments HookedVfsLayer : clear implicits.

(** ** A concrete chain *)

Definition ex_texts : list (str * tree) :=
  [(lit "asked", Object [(lit "tenant", Text "acme"); (lit "path", Text "/a"); (lit "op", Text "write"); (lit "bytes_len", Number 1)]);
   (lit "moved", Object [(lit "tenant", Text "acme"); (lit "path", Text "/safe/a")]);
   (lit "stolen", Object [(lit "tenant", Text "other"); (lit "path", Text "/a")])].
(** Every context prints as [asked]. *)
#[local] Instance ex_hook_json : JsonOps tree := {|
  json_from_str := json_from_str (JsonOps := tree_json ex_texts); json_error := fun _ => []; json_to_string := fun _ => "asked";
  as_object := as_object (JsonOps := tree_json ex_texts); as_array := as_array (JsonOps := tree_json ex_texts); as_str := as_str (JsonOps := tree_json ex_texts);
  as_u64 := as_u64 (JsonOps := tree_json ex_texts); as_bool := as_bool (JsonOps := tree_json ex_texts); is_null := is_null (JsonOps := tree_json ex_texts);
  json_null := Null; json_string := Text; json_bool := Bool; json_number := Number; json_array := Array; json_object := Object |}.
#[local] Instance ex_governed : VirtualFs MemoryFs.State := memory_fs ex_to_vec ex_from_slice.

Definition ex_answering (r : result Verdict HookError) : HookedVfsLayer MemoryFs.State unit :=
  hooked_new (MemoryPath.MkTenantId "acme") MemoryFs.new (add pipeline_new VfsWrite {| hook_name := "h"; invoke _ _ _ _ := (tt, r) |})
    {| world := tt; counted := [] |}.
#[local] Instance ex_hooked : VirtualFs (HookedVfsLayer MemoryFs.State unit) := hooked_fs (Value := tree).

Example hooked_verdicts :
  vfs_read (fst (vfs_write (ex_answering (Ok continue_unchanged)) "/a" "1")) "/a" = Ok (lit "1") /\
  vfs_read (fst (vfs_write (ex_answering (Ok (Continue (Some (lit "moved"))))) "/a" "1")) "/safe/a" = Ok (lit "1") /\
  snd (vfs_write (ex_answering (Ok (Continue (Some (lit "stolen"))))) "/a" "1") = Err HookContractViolation /\
  snd (vfs_write (ex_answering (Ok (Deny "no"))) "/a" "1") = Err (HookDenied "no") /\
  snd (vfs_write (ex_answering (Ok (Kill "stop"))) "/a" "1") = Err (HookKilled "stop") /\
  snd (vfs_write (ex_answering (Err (ExecutionError "h" "boom"))) "/a" "1") = Err (HookDenied "hook error: hook 'h' execution error: boom") /\
  snd (vfs_mkdir (ex_answering (Ok (Deny "no"))) "/d") = Ok tt.
Proof. vm_compute. repeat split; reflexivity. Qed.
