(* ===== verification/MemoryTools.v ===== *)
(** * Searching memory

    Models [crates/simulacra-tool/src/memory/] (the tools [semantic_search] and [memory_read_chunk] and their
    registration), the search of the buffer of recent writes ([crates/simulacra-memory/src/rrwb.rs]) and the
    interfaces it works against ([index.rs], [embedder.rs]).

    A [VectorIndex] and an [Embedder] are any implementations; so is the arithmetic of the scores ([Scores]: 32-bit
    floats, their total order and their JSON).  The world of a call is what the clock and the random generator read
    from, the cache of hit ids and the state of the hooks.  Spans are left out, and [to_lowercase], a Unicode table,
    is a parameter. *)

From S2P Require Import Prelude.
From S2P Require Import Text.
From S2P Require Import Utf8.
From S2P Require Import Json.
From S2P Require Import MemoryPath.
From S2P Require Import MemoryStoreFs.
From S2P Require Import HitIds.
From S2P Require Import Capability.
From S2P Require Import Context.
From S2P Require Import Tools.
From S2P Require Import Hooks.
From S2P Require Import ToolRegistry.

(** ** Data *)

Variant Locator :=
| Locator_Text (byte_start byte_end : N)
| Locator_PdfPage (page paragraph : N)
| Locator_HtmlSelector (selector : str) (text_start text_end : N)
| Locator_JsonlLine (line : N)
| Locator_Opaque (format payload : str).

Section Data.
Context {Value : Type} `{JsonOps Value}.
Definition tagged (kind : str) (fields : list (str * Value)) : Value := json_object (("kind" ↦ json_string kind) :: fields).
Definition locator_value (l : Locator) : Value :=
  match l with
  | Locator_Text a b => tagged "text" ["byte_start" ↦ json_number a; "byte_end" ↦ json_number b]
  | Locator_PdfPage p q => tagged "pdf_page" ["page" ↦ json_number p; "paragraph" ↦ json_number q]
  | Locator_HtmlSelector s a b => tagged "html_selector" ["selector" ↦ json_string s; "text_start" ↦ json_number a; "text_end" ↦ json_number b]
  | Locator_JsonlLine n => tagged "jsonl_line" ["line" ↦ json_number n]
  | Locator_Opaque f p => tagged "opaque" ["format" ↦ json_string f; "payload" ↦ json_string p]
  end.
End Data.

(** The scores: a number of JSON read as one ([as_f64] and [as f32]), the bounds of a floor, their total order, and
    [1 - 1 / (1 + n)]. *)
Class Scores (F Value : Type) := {
  score_of_number : Value -> option F;
  score_value : F -> Value;
  score_leb : F -> F -> bool;
  MIN_COSINE_LOWER : F;
  MIN_COSINE_UPPER : F;
  score_zero : F;
  match_score : N -> F;
}.

Record SearchHit (F : Type) := {
  sh_path : MemoryPath;
  sh_chunk_index : N;
  sh_version : N;
  sh_locator : Locator;
  sh_snippet : str;
  cosine_score : F;
}.
Arguments Build_SearchHit {F}.
Arguments sh_path {F}.
Arguments sh_chunk_index {F}.
Arguments sh_version {F}.
Arguments sh_locator {F}.
Arguments sh_snippet {F}.
Arguments cosine_score {F}.

(** What the tools use of [VectorIndex] and [Embedder]. *)
Class VectorIndex (Ix F : Type) := {
  index_search : Ix -> TenantId -> MemoryPath -> list F -> str -> N -> option F -> result (list (SearchHit F)) MemoryError;
  index_get_chunk : Ix -> TenantId -> MemoryPath -> N -> N -> result (option (Locator * str)) MemoryError;
}.
(** A search filters its hits to the scope. *)
Class VectorIndexLaws (Ix F : Type) `{VectorIndex Ix F} := {
  index_search_scope : forall ix t scope v id k floor hits, index_search ix t scope v id k floor = Ok hits ->
    Forall (fun h => starts_with_prefix (sh_path h) scope = true) hits;
}.
Record Embedder (F : Type) := { embedder_id : str; embed : list str -> result (list (list F)) MemoryError }.
Arguments embedder_id {F}.
Arguments embed {F}.

(** [is_char_boundary], and the way back to one. *)
Definition is_char_boundary (text : str) (i : nat) : bool :=
  match nth_error text i with Some c => negb (continuation c) | None => (i =? length text)%nat end.
Fixpoint floor_boundary (text : str) (start : nat) : nat :=
  match start with
  | O => O
  | S i => if is_char_boundary text start then start else floor_boundary text i
  end.

Definition RRWB_SNIPPET_CHARS : nat := 240.
Definition MEMORY_SNIPPET_CHARS : nat := 320.
Definition build_snippet (text text_lc query_lc : str) : str :=
  let snippet_source :=
    if (length text =? length text_lc)%nat then
      match find_sub query_lc text_lc with
      | Some offset => skipn (floor_boundary text (Nat.min (offset - RRWB_SNIPPET_CHARS / 4) (length text))) text
      | None => text
      end
    else text in
  take_chars RRWB_SNIPPET_CHARS snippet_source.

Section MemoryTools.
Context {Value F Ix St X HW : Type} `{JsonOps Value} `{Scores F Value} `{VectorIndex Ix F} `{MemoryStore St}.
Context (to_lowercase : str -> str) (instant : X -> X * N) (random_token : X -> X * str).

Definition score_ge (a b : F) : Prop := score_leb b a = true.
#[local] Instance score_ge_dec : RelDecision score_ge := fun a b => decide (score_leb b a = true).
(** [sort_by(|a, b| b.cosine_score.total_cmp(&a.cosine_score))]. *)
Definition by_score (a b : SearchHit F) : Prop := score_ge (cosine_score a) (cosine_score b).
#[local] Instance by_score_dec : RelDecision by_score := fun a b => decide (score_ge (cosine_score a) (cosine_score b)).
Definition sort_hits (hits : list (SearchHit F)) : list (SearchHit F) := merge_sort by_score hits.
Definition clamp_score (x : F) : F :=
  if negb (score_leb MIN_COSINE_LOWER x) then MIN_COSINE_LOWER else if negb (score_leb x MIN_COSINE_UPPER) then MIN_COSINE_UPPER else x.

(** ** The buffer of recent writes *)

Definition buffer_hit (query_lc : str) (scope : MemoryPath) (entry : BufferedWrite) : option (SearchHit F) :=
  if negb (starts_with_prefix (write_path entry) scope) then None
  else
    let text_lc := to_lowercase (write_text entry) in
    match find_sub query_lc text_lc with
    | None => None
    | Some _ => Some {|
        sh_path := write_path entry; sh_chunk_index := 0; sh_version := write_version entry;
        sh_locator := Locator_Text 0 (N.of_nat (length (write_text entry)));
        sh_snippet := build_snippet (write_text entry) text_lc query_lc;
        cosine_score := match_score (N.of_nat (count_matches query_lc text_lc)) |}
    end.
Definition buffer_search (query : str) (scope : MemoryPath) (b : RecentWritesBuffer) : list (SearchHit F) :=
  let query_lc := to_lowercase query in
  if str_eqb query_lc [] then [] else sort_hits (omap (buffer_hit query_lc scope) (buffered b)).

(** ** Hooks *)

Record MemoryWorld := { outside : X; hit_cache : HitIdCache; hook_world : State HW }.
Definition set_hooks (w : MemoryWorld) (s : State HW) : MemoryWorld := {| outside := outside w; hit_cache := hit_cache w; hook_world := s |}.

(** The context a before hook leaves; [None] is a denial. *)
Definition before (name : str) (p : HookPipeline HW) (ctx : str) : SE MemoryWorld ToolError (option str) := fun w =>
  let '(s, r) := run_before p ToolCall ctx (hook_world w) in
  (set_hooks w s,
   match r with
   | Ok (Deny _, _) => Ok None
   | Ok (Kill _, _) => Err (ExecutionFailed ("hook kill: " ++ name))
   | Ok (Continue _, modified_ctx) => Ok (Some modified_ctx)
   | Err (Killed hook reason) => Err (ExecutionFailed ("hook kill: " ++ hook ++ ": " ++ reason))
   | Err e => Err (ExecutionFailed ("hook error: " ++ hook_error_display e))
   end).

(** The result the after hooks leave. *)
Definition after (p : option (HookPipeline HW)) (after_ctx : str) (result_json : Value) : SE MemoryWorld ToolError Value :=
  match p with
  | None => se_ret result_json
  | Some p => fun w =>
    let '(s, r) := run_after p ToolCall after_ctx (hook_world w) in
    (set_hooks w s,
     match r with
     | Ok (_, modified_ctx) =>
         Ok (match json_from_str modified_ctx with
             | Some parsed => unwrap_or (value_get "result" parsed) result_json
             | None => result_json
             end)
     | Err e => Err (ExecutionFailed ("hook error: " ++ hook_error_display e))
     end)
  end.

(** ** [semantic_search] *)

Record SemanticSearchTool := {
  st_tenant : TenantId;
  st_capability : MemoryCapability;
  st_index : Ix;
  st_embedder : Embedder F;
  st_rrwb : option RecentWritesBuffer;
  st_hooks : option (HookPipeline HW);
}.

Definition DEFAULT_K : N := 5.
Definition MAX_K : N := 20.
Definition MAX_QUERY_LEN : nat := 2048.
Definition clamp_k (k : N) : N := N.min (N.max k 1) MAX_K.

(** The arguments of a search as the hooks leave them, with the JSON an after hook is shown. *)
Record SearchArgs := { sa_query : str; sa_scope : MemoryPath; sa_k : N; sa_min : option F; sa_shown : Value }.

Definition query_too_long : ToolError := InvalidArguments ("query too long: max " ++ dec (N.of_nat MAX_QUERY_LEN) ++ " chars").
Definition parse_scope (s : str) : result MemoryPath ToolError :=
  map_err (fun e => InvalidArguments ("invalid scope: " ++ memory_path_error_str e)) (memory_parse s).
Definition get_floor (args : Value) : option F := option_map clamp_score (value_get "min_cosine" args ≫= score_of_number).

Definition parse_args (args : Value) : result SearchArgs ToolError :=
  let? query := ok_or (get_str "query" args) (InvalidArguments "missing field: query") in
  if (MAX_QUERY_LEN <? char_count query)%nat then Err query_too_long
  else
    let? scope_str := ok_or (get_str "scope" args) (InvalidArguments "missing field: scope") in
    let? scope := parse_scope scope_str in
    let k := clamp_k (unwrap_or (get_u64 "k" args) DEFAULT_K) in
    let min_cosine := get_floor args in
    Ok {| sa_query := query; sa_scope := scope; sa_k := k; sa_min := min_cosine;
          sa_shown := json_object ["query" ↦ json_string query; "scope" ↦ json_string (mp_str scope); "k" ↦ json_number k;
                                   "min_cosine" ↦ match min_cosine with Some m => score_value m | None => json_null end] |}.

(** The arguments with those a before hook returned in their place. *)
Definition amended (a : SearchArgs) (modified_ctx : str) : result SearchArgs ToolError :=
  match json_from_str modified_ctx ≫= value_get "arguments" with
  | None => Ok a
  | Some new_args =>
      let? query :=
        match get_str "query" new_args with
        | Some q => if (MAX_QUERY_LEN <? length q)%nat then Err query_too_long else Ok q
        | None => Ok (sa_query a)
        end in
      let? scope := match get_str "scope" new_args with Some s => parse_scope s | None => Ok (sa_scope a) end in
      let k := match get_u64 "k" new_args with Some k => clamp_k k | None => sa_k a end in
      let min_cosine := option_or (get_floor new_args) (sa_min a) in
      Ok {| sa_query := query; sa_scope := scope; sa_k := k; sa_min := min_cosine; sa_shown := new_args |}
  end.

Definition before_search (t : SemanticSearchTool) (a : SearchArgs) : SE MemoryWorld ToolError (option SearchArgs) :=
  match st_hooks t with
  | None => se_ret (Some a)
  | Some p =>
      let ctx := json_to_string (json_object ["tool" ↦ json_string (lit "semantic_search"); "arguments" ↦ sa_shown a]) in
      let! passed := before "semantic_search" p ctx in
      match passed with
      | None => se_ret None
      | Some modified_ctx => let! a := se_lift (amended a modified_ctx) in se_ret (Some a)
      end
  end.

Definition empty_hits : Value := json_object ["hits" ↦ json_array []].

Definition find_hits (t : SemanticSearchTool) (a : SearchArgs) : result (list (SearchHit F)) ToolError :=
  let? embeddings := map_err (fun e => ExecutionFailed ("embed failed: " ++ memory_error_to_string e)) (embed (st_embedder t) [sa_query a]) in
  let? query_vec := ok_or (head embeddings) (ExecutionFailed "embedder returned no vector") in
  let? persistent_hits :=
    map_err (fun e => ExecutionFailed ("vector search failed: " ++ memory_error_to_string e))
      (index_search (st_index t) (st_tenant t) (sa_scope a) query_vec (embedder_id (st_embedder t)) (sa_k a) (sa_min a)) in
  let rrwb_hits := match st_rrwb t with Some b => buffer_search (sa_query a) (sa_scope a) b | None => [] end in
  let fresh h := negb (existsb (fun r => str_eqb (mp_str (sh_path r)) (mp_str (sh_path h))) rrwb_hits) in
  Ok (firstn (N.to_nat (sa_k a)) (rrwb_hits ++ List.filter fresh (sort_hits persistent_hits))).

(** [HitIdCache::mint], with the clock and the generator it reads. *)
Definition mint_hit (tenant : TenantId) (path : MemoryPath) (chunk version : N) : SE MemoryWorld ToolError str := fun w =>
  let '(x, now) := instant (outside w) in
  let '(x, token) := random_token x in
  let '(c, id) := mint now token tenant path chunk version (hit_cache w) in
  ({| outside := x; hit_cache := c; hook_world := hook_world w |}, Ok id).

Fixpoint mint_hits (tenant : TenantId) (hits : list (SearchHit F)) : SE MemoryWorld ToolError (list Value) :=
  match hits with
  | [] => se_ret []
  | h :: hits =>
      let snippet := take_chars MEMORY_SNIPPET_CHARS (sh_snippet h) in
      let! hit_id := mint_hit tenant (sh_path h) (sh_chunk_index h) (sh_version h) in
      let! rest := mint_hits tenant hits in
      se_ret (json_object ["hit_id" ↦ json_string hit_id; "path" ↦ json_string (mp_str (sh_path h)); "snippet" ↦ json_string snippet;
                           "locator" ↦ locator_value (sh_locator h); "cosine_score" ↦ score_value (cosine_score h)] :: rest)
  end.

Definition semantic_search (t : SemanticSearchTool) (args : Value) : SE MemoryWorld ToolError Value :=
  let! initial := se_lift (parse_args args) in
  let! passed := before_search t initial in
  match passed with
  | None => se_ret empty_hits
  | Some a =>
      if negb (can_read (st_capability t) (sa_scope a)) then se_ret empty_hits
      else
        let! hits := se_lift (find_hits t a) in
        let! minted := mint_hits (st_tenant t) hits in
        let result_json := json_object ["hits" ↦ json_array minted] in
        let after_ctx := json_to_string (json_object ["tool" ↦ json_string (lit "semantic_search"); "arguments" ↦ sa_shown a; "result" ↦ result_json]) in
        after (st_hooks t) after_ctx result_json
  end.

(** ** [memory_read_chunk] *)

Record MemoryReadChunkTool := {
  rc_tenant : TenantId;
  rc_capability : MemoryCapability;
  rc_store : St;
  rc_index : Ix;
  rc_hooks : option (HookPipeline HW);
}.

Definition refusal (error : str) (code : N) (rest : list (str * Value)) : Value :=
  json_object (("error" ↦ json_string error) :: ("code" ↦ json_number code) :: rest).
Definition hit_not_found : Value := refusal "hit_not_found" 404 [].

Definition cache_get (hit_id : str) : SE MemoryWorld ToolError (option HitCacheEntry) := fun w =>
  let '(x, now) := instant (outside w) in
  let '(c, e) := HitIds.get now hit_id (hit_cache w) in
  ({| outside := x; hit_cache := c; hook_world := hook_world w |}, Ok e).

(** The before hook of a read: whether it goes on. *)
Definition before_read (t : MemoryReadChunkTool) (before_args : Value) : SE MemoryWorld ToolError bool :=
  match rc_hooks t with
  | None => se_ret true
  | Some p =>
      let ctx := json_to_string (json_object ["tool" ↦ json_string (lit "memory_read_chunk"); "arguments" ↦ before_args]) in
      let! passed := before "memory_read_chunk" p ctx in
      se_ret (bool_decide (is_Some passed))
  end.

Definition read_entry (t : MemoryReadChunkTool) (hit_id : str) (e : HitCacheEntry) : SE MemoryWorld ToolError Value :=
  if negb (str_eqb (tenant_str (hit_tenant e)) (tenant_str (rc_tenant t))) then se_ret hit_not_found
  else if negb (can_read (rc_capability t) (hit_path e)) then se_ret hit_not_found
  else
    let path := json_string (mp_str (hit_path e)) in
    let! current := se_lift (map_err (fun e => ExecutionFailed ("current_version failed: " ++ memory_error_to_string e))
                               (store_current_version (rc_store t) (hit_tenant e) (hit_path e))) in
    match current with
    | None => se_ret (refusal "chunk_deleted" 410 ["path" ↦ path])
    | Some current_version =>
        if (hit_version e <? current_version)%N then se_ret (refusal "chunk_stale" 410 ["path" ↦ path; "hint" ↦ json_string "re-run semantic_search"])
        else
          let before_args := json_object ["hit_id" ↦ json_string hit_id; "path" ↦ path; "chunk_index" ↦ json_number (hit_chunk e);
                                          "version" ↦ json_number (hit_version e)] in
          let! cleared := before_read t before_args in
          if negb cleared then se_ret (refusal "denied" 403 [])
          else
            let! chunk := se_lift (map_err (fun e => ExecutionFailed ("get_chunk failed: " ++ memory_error_to_string e))
                                     (index_get_chunk (rc_index t) (hit_tenant e) (hit_path e) (hit_version e) (hit_chunk e))) in
            match chunk with
            | None => se_ret (refusal "chunk_unavailable" 503 ["hint" ↦ json_string "reindex in progress"])
            | Some (locator, content) =>
                let result_json := json_object ["path" ↦ path; "locator" ↦ locator_value locator; "content" ↦ json_string content] in
                let after_ctx := json_to_string (json_object ["tool" ↦ json_string (lit "memory_read_chunk"); "arguments" ↦ before_args;
                                                              "result" ↦ result_json]) in
                after (rc_hooks t) after_ctx result_json
            end
    end.

Definition memory_read_chunk (t : MemoryReadChunkTool) (args : Value) : SE MemoryWorld ToolError Value :=
  let! hit_id := se_lift (ok_or (get_str "hit_id" args) (InvalidArguments "missing field: hit_id")) in
  let! found := cache_get hit_id in
  match found with
  | None => se_ret hit_not_found
  | Some e => read_entry t hit_id e
  end.

(** ** Registration ([registration.rs]) *)

Definition search_definition : ToolDefinition Value := {|
  def_name := "semantic_search";
  def_description := "Retrieve the top-K most relevant memory chunks matching a query, scoped to a VFS subtree the agent has read access to.";
  input_schema := json_object [
    "type" ↦ json_string (lit "object");
    "properties" ↦ json_object [
      "query" ↦ json_object ["type" ↦ json_string (lit "string"); "description" ↦ json_string (lit "Natural-language query (max 2048 characters).");
                             "maxLength" ↦ json_number (N.of_nat MAX_QUERY_LEN)];
      "scope" ↦ json_object ["type" ↦ json_string (lit "string");
                             "description" ↦ json_string (lit "MemoryPath prefix, e.g. /var/memory/self/ or /mnt/policies/")];
      "k" ↦ json_object ["type" ↦ json_string (lit "integer"); "description" ↦ json_string (lit "Number of hits to return (default 5, max 20).");
                         "default" ↦ json_number DEFAULT_K; "maximum" ↦ json_number MAX_K];
      "min_cosine" ↦ json_object ["type" ↦ json_string (lit "number");
                                  "description" ↦ json_string (lit "Floor on cosine similarity (default 0.0, range [-1.0, 1.0]).");
                                  "default" ↦ score_value score_zero; "minimum" ↦ score_value MIN_COSINE_LOWER;
                                  "maximum" ↦ score_value MIN_COSINE_UPPER]];
    "required" ↦ json_array [json_string (lit "query"); json_string (lit "scope")]] |}.
Definition read_definition : ToolDefinition Value := {|
  def_name := "memory_read_chunk";
  def_description := "Retrieve the full text of a chunk previously returned by semantic_search.";
  input_schema := json_object [
    "type" ↦ json_string (lit "object");
    "properties" ↦ json_object ["hit_id" ↦ json_object ["type" ↦ json_string (lit "string")]];
    "required" ↦ json_array [json_string (lit "hit_id")]] |}.

Section Registration.
Context (blocks_of_value : Value -> option (list (@ProviderContentBlock Value))).

(** A tool that runs its hooks itself. *)
Definition memory_tool (d : ToolDefinition Value) (call : Value -> SE MemoryWorld ToolError Value) (output : Value -> ToolOutput) : ToolObject MemoryWorld := {|
  definition := d; advertised_to := fun _ => true; tool_call := fun args _ => call args; handles_own_hooks := true; output_schema := None;
  supports_parallel_tool_calls := false; waits_for_runtime_cancellation := false;
  hook_input_payload := default_hook_input_payload; arguments_from_hook_input := default_arguments_from_hook_input;
  hook_output_payload := default_hook_output_payload; result_from_hook_output := default_result_from_hook_output;
  output_from_value := output |}.
Definition semantic_search_tool (t : SemanticSearchTool) : ToolObject MemoryWorld :=
  memory_tool search_definition (semantic_search t) (from_value blocks_of_value).
Definition memory_read_chunk_tool (t : MemoryReadChunkTool) : ToolObject MemoryWorld :=
  memory_tool read_definition (memory_read_chunk t) (fun value =>
    match value_get "error" value with
    | Some _ => with_structured value (Tools.error (json_to_string value))
    | None => from_value blocks_of_value value
    end).

Record MemoryToolHandles := {
  h_tenant : TenantId;
  h_capability : MemoryCapability;
  h_store : St;
  h_index : Ix;
  h_embedder : Embedder F;
  h_rrwb : option RecentWritesBuffer;
  h_hooks : option (HookPipeline HW);
}.
Definition search_of (h : MemoryToolHandles) : SemanticSearchTool :=
  {| st_tenant := h_tenant h; st_capability := h_capability h; st_index := h_index h; st_embedder := h_embedder h;
     st_rrwb := h_rrwb h; st_hooks := h_hooks h |}.
Definition read_of (h : MemoryToolHandles) : MemoryReadChunkTool :=
  {| rc_tenant := h_tenant h; rc_capability := h_capability h; rc_store := h_store h; rc_index := h_index h; rc_hooks := h_hooks h |}.

Definition register_memory_tools (h : MemoryToolHandles) (r : ToolRegistry (Value := Value) (W := MemoryWorld) (HW := HW))
    : ToolRegistry * result unit ToolError :=
  if negb (enabled (h_capability h)) then (r, Ok tt)
  else
    match List.find (fun name => bool_decide (is_Some (metadata name r))) [lit "semantic_search"; lit "memory_read_chunk"] with
    | Some name => (r, Err (duplicate_tool name))
    | None =>
        match register (semantic_search_tool (search_of h)) r with
        | (r, Err e) => (r, Err e)
        | (r, Ok _) => register (memory_read_chunk_tool (read_of h)) r
        end
    end.
End Registration.

(** ** The tools keep to the scopes *)

Lemma can_read_below c p q : starts_with_prefix p q = true -> can_read c q = true -> can_read c p = true.
Proof.
  intros Hp [He (s & Hs & Hq)%existsb_exists]%andb_true_iff. apply andb_true_iff. split; [done|].
  apply existsb_exists. exists s. split; [done|]. by eapply starts_with_prefix_trans.
Qed.

(** Two settings of a tool that agree on what its capability lets it read. *)
Definition readable_writes (c : MemoryCapability) (b : RecentWritesBuffer) : list BufferedWrite :=
  List.filter (fun w => can_read c (write_path w)) (buffered b).
Record searches_alike (t u : SemanticSearchTool) : Prop := {
  sa_tenant : st_tenant u = st_tenant t;
  sa_capability : st_capability u = st_capability t;
  sa_embedder : st_embedder u = st_embedder t;
  sa_hooks : st_hooks u = st_hooks t;
  sa_index : forall scope v id k floor, can_read (st_capability t) scope = true ->
    index_search (st_index u) (st_tenant t) scope v id k floor = index_search (st_index t) (st_tenant t) scope v id k floor;
  sa_rrwb : option_map (readable_writes (st_capability t)) (st_rrwb u) = option_map (readable_writes (st_capability t)) (st_rrwb t);
}.
(** The version of a readable path is the same, and so is a chunk of it that is not older than that. *)
Record reads_alike_tool (t u : MemoryReadChunkTool) : Prop := {
  ra_tenant : rc_tenant u = rc_tenant t;
  ra_capability : rc_capability u = rc_capability t;
  ra_hooks : rc_hooks u = rc_hooks t;
  ra_version : forall path, can_read (rc_capability t) path = true ->
    store_current_version (rc_store u) (rc_tenant t) path = store_current_version (rc_store t) (rc_tenant t) path;
  ra_index : forall path current version i, can_read (rc_capability t) path = true ->
    store_current_version (rc_store t) (rc_tenant t) path = Ok (Some current) -> (current <= version)%N ->
    index_get_chunk (rc_index u) (rc_tenant t) path version i = index_get_chunk (rc_index t) (rc_tenant t) path version i;
}.

Lemma buffer_hits_readable c query_lc scope l : can_read c scope = true ->
  omap (buffer_hit query_lc scope) l = omap (buffer_hit query_lc scope) (List.filter (fun w => can_read c (write_path w)) l).
Proof.
  intros Hs. induction l as [|w l IH]; [done|]. cbn. destruct (can_read c (write_path w)) eqn:E; cbn; [by rewrite IH|].
  unfold buffer_hit at 1. destruct (starts_with_prefix (write_path w) scope) eqn:Ew; cbn; [|done].
  by rewrite (can_read_below c _ _ Ew Hs) in E.
Qed.

Lemma find_hits_alike t u a : searches_alike t u -> can_read (st_capability t) (sa_scope a) = true -> find_hits u a = find_hits t a.
Proof.
  intros [Ht Hc He Hh Hi Hb] Hs. unfold find_hits. rewrite He, Ht.
  destruct (map_err _ (embed _ _)) as [embeddings|]; [|done]. destruct (ok_or (head embeddings) _) as [v|]; [|done].
  rewrite Hi by done. destruct (map_err _ (index_search _ _ _ _ _ _ _)) as [hits|]; [|done].
  destruct (st_rrwb u) as [b|], (st_rrwb t) as [b'|]; try done. injection Hb as Hb.
  assert (buffer_search (sa_query a) (sa_scope a) b = buffer_search (sa_query a) (sa_scope a) b') as ->; [|done].
  unfold buffer_search. rewrite (buffer_hits_readable _ _ _ (buffered b) Hs), (buffer_hits_readable _ _ _ (buffered b') Hs).
  unfold readable_writes in Hb. by rewrite Hb.
Qed.

Lemma search_alike t u args w : searches_alike t u -> semantic_search u args w = semantic_search t args w.
Proof.
  intros Ha. pose proof Ha as [Ht Hc He Hh _ _]. unfold semantic_search, se_bind, se_lift. destruct (parse_args args) as [a0|]; [|done].
  replace (before_search u a0 w) with (before_search t a0 w) by (unfold before_search; by rewrite Hh).
  destruct (before_search t a0 w) as [w1 [[a|]|]]; [|done|done].
  rewrite Hc. destruct (can_read (st_capability t) (sa_scope a)) eqn:Hs; [|done]. cbn [negb].
  by rewrite (find_hits_alike t u a Ha Hs), Ht, Hh.
Qed.

Lemma tenant_eq (t u : TenantId) : str_eqb (tenant_str t) (tenant_str u) = true -> t = u.
Proof. destruct t, u. cbn. intros ->%str_eqb_true. done. Qed.

Lemma read_alike t u args w : reads_alike_tool t u -> memory_read_chunk u args w = memory_read_chunk t args w.
Proof.
  intros [Ht Hc Hh Hv Hi]. unfold memory_read_chunk, se_bind, se_lift. destruct (ok_or (get_str "hit_id" args) _) as [id|]; [|done].
  destruct (cache_get id w) as [w1 [[e|]|]]; [|done|done]. unfold read_entry. rewrite Ht, Hc.
  destruct (str_eqb _ _) eqn:Et; [|done]. cbn [negb]. destruct (can_read (rc_capability t) (hit_path e)) eqn:Er; [|done]. cbn [negb].
  apply tenant_eq in Et. rewrite Et, Hv by done. unfold se_bind, se_lift.
  destruct (store_current_version (rc_store t) (rc_tenant t) (hit_path e)) as [[current|]|] eqn:Ev; cbn [map_err]; [|done|done].
  destruct (N.ltb_spec (hit_version e) current) as [|Hle]; [done|]. rewrite (Hi _ _ _ _ Er Ev Hle).
  unfold before_read. by rewrite Hh.
Qed.

(** *** The ids of a search *)

Definition issued (t : TenantId) (c : MemoryCapability) (e : HitCacheEntry) : Prop := hit_tenant e = t /\ can_read c (hit_path e) = true.
Definition only_adds (P : HitCacheEntry -> Prop) (w w' : MemoryWorld) : Prop :=
  forall id e, entries (hit_cache w') !! id = Some e -> entries (hit_cache w) !! id = Some e \/ P e.

Lemma make_room_keeps m o id e : fst (make_room m o) !! id = Some e -> m !! id = Some e.
Proof.
  revert m. induction o as [|[k victim] o IH]; intros m; cbn [make_room]; destruct (_ <=? _)%nat; cbn; try done.
  intros E. apply IH in E. by apply lookup_delete_Some in E as [_ ?].
Qed.

Lemma mint_keeps now token t p i v c id e : entries (fst (mint now token t p i v c)) !! id = Some e ->
  entries c !! id = Some e \/ (hit_tenant e = t /\ hit_path e = p).
Proof.
  unfold mint. destruct (make_room _ _) as [m o] eqn:E. cbn. intros [[_ <-]|[_ He]]%lookup_insert_Some; [by right|]. left.
  assert (fst (make_room (entries (evict_expired now c)) (insertion_order (evict_expired now c))) !! id = Some e) as Hm by (by rewrite E).
  apply make_room_keeps in Hm. by apply map_lookup_filter_Some in Hm as [? _].
Qed.

Lemma mint_hits_issued t c hits w : Forall (fun h => can_read c (sh_path h) = true) hits -> only_adds (issued t c) w (fst (mint_hits t hits w)).
Proof.
  intros Hf. revert w. induction Hf as [|h hits Hh _ IH]; intros w; cbn [mint_hits]; [by left|].
  unfold se_bind, mint_hit. destruct (instant (outside w)) as [x now]. destruct (random_token x) as [x' token].
  destruct (mint now token t _ _ _ (hit_cache w)) as [c' id'] eqn:Em.
  specialize (IH {| outside := x'; hit_cache := c'; hook_world := hook_world w |}).
  destruct (mint_hits t hits _) as [w2 [rest|err]] eqn:E2; cbn in *; intros id e He; (destruct (IH id e He) as [Hc|]; [|by right]);
    cbn in Hc; replace c' with (fst (mint now token t (sh_path h) (sh_chunk_index h) (sh_version h) (hit_cache w))) in Hc by (by rewrite Em);
    apply mint_keeps in Hc as [?|[Ht Hp]]; try (by left); right; split; congruence.
Qed.

Lemma only_adds_refl P w w' : hit_cache w' = hit_cache w -> only_adds P w w'.
Proof. intros E id e. rewrite E. by left. Qed.
Lemma only_adds_trans P w1 w2 w3 : only_adds P w1 w2 -> only_adds P w2 w3 -> only_adds P w1 w3.
Proof. intros H12 H23 id e He. destruct (H23 id e He) as [|]; [by apply H12|by right]. Qed.

Lemma before_search_cache t a w : hit_cache (fst (before_search t a w)) = hit_cache w.
Proof.
  unfold before_search, before, se_bind, se_lift. destruct (st_hooks t); [|done].
  destruct (run_before _ _ _ _) as [s [[[] ?]|[]]]; cbn; try done. by destruct (amended _ _).
Qed.
Lemma after_cache p ctx v w : hit_cache (fst (after p ctx v w)) = hit_cache w.
Proof. unfold after. destruct p; [|done]. by destruct (run_after _ _ _ _) as [s []]. Qed.

Lemma sort_hits_in h hits : h ∈ sort_hits hits -> h ∈ hits.
Proof. unfold sort_hits. by rewrite (merge_sort_Permutation by_score). Qed.

Lemma buffer_search_scope q scope b : Forall (fun h => starts_with_prefix (sh_path h) scope = true) (buffer_search q scope b).
Proof.
  unfold buffer_search. destruct (str_eqb _ _); [constructor|]. apply Forall_forall. intros h Hh%sort_hits_in.
  apply list_elem_of_omap in Hh as (w & _ & Hw). unfold buffer_hit in Hw.
  destruct (starts_with_prefix (write_path w) scope) eqn:E; [|done]. cbn in Hw. destruct (find_sub _ _); [|done]. by injection Hw as <-.
Qed.

Lemma find_hits_scope `{!VectorIndexLaws Ix F} t a hits : find_hits t a = Ok hits ->
  Forall (fun h => starts_with_prefix (sh_path h) (sa_scope a) = true) hits.
Proof.
  unfold find_hits. destruct (map_err _ (embed _ _)) as [embeddings|]; [|done]. destruct (ok_or (head embeddings) _) as [v|]; [|done].
  destruct (index_search _ _ _ _ _ _ _) as [found|] eqn:Ei; [|done]. intros [= <-]. apply Forall_take, Forall_app. split.
  - destruct (st_rrwb t); [apply buffer_search_scope|constructor].
  - apply index_search_scope in Ei. rewrite Forall_forall in Ei |- *. intros h Hh%list_elem_of_In. apply filter_In in Hh as [Hh _].
    by apply Ei, sort_hits_in, list_elem_of_In.
Qed.

Lemma search_issues `{!VectorIndexLaws Ix F} t args w :
  only_adds (issued (st_tenant t) (st_capability t)) w (fst (semantic_search t args w)).
Proof.
  unfold semantic_search, se_bind, se_lift. destruct (parse_args args) as [a0|]; [|by apply only_adds_refl].
  pose proof (before_search_cache t a0 w) as Hb. destruct (before_search t a0 w) as [w1 [[a|]|]]; cbn in Hb |- *;
    [|by apply only_adds_refl..]. destruct (can_read _ (sa_scope a)) eqn:Hs; cbn; [|by apply only_adds_refl].
  destruct (find_hits t a) as [hits|] eqn:Ef; cbn; [|by apply only_adds_refl].
  assert (only_adds (issued (st_tenant t) (st_capability t)) w (fst (mint_hits (st_tenant t) hits w1))) as Hm.
  { eapply only_adds_trans; [by apply (only_adds_refl _ w w1)|]. apply mint_hits_issued.
    eapply Forall_impl; [by eapply find_hits_scope|]. cbn. intros h Hh. by eapply can_read_below. }
  destruct (mint_hits (st_tenant t) hits w1) as [w2 [minted|]]; cbn in Hm |- *; [|done].
  eapply only_adds_trans; [exact Hm|]. apply only_adds_refl. apply after_cache.
Qed.

(** C17. The memory tools show an agent nothing outside its search scopes.  A search answers the same, and leaves the
    same world, over any two indexes that agree on searches of scopes the capability covers for the tenant, and any
    two buffers with the same writes under such scopes, whatever the hooks make of the arguments; every hit id it
    adds to the cache stands for a path of the tenant that the capability covers.  A read answers the same over any
    two stores that agree on the current versions of such paths, and any two indexes that agree on the chunks of
    such paths that are not older than the current version: a read never shows a stale or deleted chunk.  A search
    does not look at the store, so it may show what index and buffer still have of a text that was replaced or
    removed ([removed_file_is_found]). *)
Theorem memory_tools_stay_in_scope `{!VectorIndexLaws Ix F} (t u : SemanticSearchTool) (t' u' : MemoryReadChunkTool) (args : Value) (w : MemoryWorld) :
  (searches_alike t u -> semantic_search u args w = semantic_search t args w) /\
  (reads_alike_tool t' u' -> memory_read_chunk u' args w = memory_read_chunk t' args w) /\
  only_adds (issued (st_tenant t) (st_capability t)) w (fst (semantic_search t args w)).
Proof. split_and!; [by apply search_alike|by apply read_alike|apply search_issues]. Qed.
End MemoryTools.

(** ** Examples *)

#[local] Instance ex_scores : Scores N tree := {|
  score_of_number := fun v => match v with Number n => Some n | _ => None end;
  score_value := Number;
  score_leb := N.leb;
  MIN_COSINE_LOWER := 0%N;
  MIN_COSINE_UPPER := 100%N;
  score_zero := 0%N;
  match_score := fun n => n;
|}.

Record ExChunk := { ec_path : MemoryPath; ec_version : N; ec_text : str }.
Definition ex_hit (c : ExChunk) : SearchHit N :=
  {| sh_path := ec_path c; sh_chunk_index := 0; sh_version := ec_version c; sh_locator := Locator_JsonlLine 0;
     sh_snippet := ec_text c; cosine_score := 1%N |}.
#[local] Instance ex_index : VectorIndex (list ExChunk) N := {|
  index_search := fun ix _ scope _ _ k _ => Ok (firstn (N.to_nat k) (List.map ex_hit (List.filter (fun c => starts_with_prefix (ec_path c) scope) ix)));
  index_get_chunk := fun ix _ path version _ =>
    Ok (option_map (fun c => (Locator_JsonlLine 0, ec_text c))
          (List.find (fun c => str_eqb (mp_str (ec_path c)) (mp_str path) && (ec_version c =? version)%N) ix));
|}.
#[local] Instance ex_index_laws : VectorIndexLaws (list ExChunk) N.
Proof.
  constructor. intros ix t scope v id k floor hits [= <-]. apply Forall_take, Forall_fmap, Forall_forall.
  intros c Hc%list_elem_of_In. by apply filter_In in Hc as [_ Hc].
Qed.

Definition ex_chunks : list ExChunk := [{| ec_path := MkMemoryPath "/var/memory/self/a"; ec_version := 0; ec_text := "alpha" |}].
Definition ex_secret_chunk : ExChunk := {| ec_path := ex_secret; ec_version := 0; ec_text := "alpha secret" |}.
Definition ex_embedder : Embedder N := {| embedder_id := "none"; embed := fun texts => Ok (List.map (fun _ => []) texts) |}.
Definition ex_search (ix : list ExChunk) (b : option RecentWritesBuffer) : SemanticSearchTool :=
  {| st_tenant := ex_tenant; st_capability := ex_scope; st_index := ix; st_embedder := ex_embedder; st_rrwb := b; st_hooks := @None (HookPipeline unit) |}.
Definition ex_read (ix : list ExChunk) (s : ExStore) : MemoryReadChunkTool :=
  {| rc_tenant := ex_tenant; rc_capability := ex_scope; rc_store := s; rc_index := ix; rc_hooks := @None (HookPipeline unit) |}.
Definition ex_world : @MemoryWorld N unit := {| outside := 7%N; hit_cache := cache_new; hook_world := {| world := tt; counted := [] |} |}.
Definition ex_instant (x : N) : N * N := (x + 1, x)%N.
Definition ex_token (x : N) : N * str := (x, dec x).
Abbreviation run_search t args := (semantic_search (fun s => s) ex_instant ex_token t args ex_world).

Lemma ex_searches_alike : searches_alike (ex_search ex_chunks None) (ex_search (ex_secret_chunk :: ex_chunks) None).
Proof.
  constructor; try done. intros scope v id k floor Hs. cbn [index_search ex_index st_index ex_search List.filter].
  destruct (starts_with_prefix (ec_path ex_secret_chunk) scope) eqn:E; [|done]. by pose proof (can_read_below _ _ _ E Hs).
Qed.
Lemma ex_reads_alike : reads_alike_tool (ex_read ex_chunks ex_empty) (ex_read (ex_secret_chunk :: ex_chunks) ex_with_secret).
Proof.
  split; [done..| |].
  - intros path Hp. symmetry. by apply (alike_version _ _ _ _ ex_alike).
  - intros path current version i Hp _ _. cbn [index_get_chunk ex_index rc_index ex_read List.find].
    destruct (str_eqb (mp_str (ec_path ex_secret_chunk)) (mp_str path)) eqn:E; [|done]. apply str_eqb_true in E.
    replace path with ex_secret in Hp by (destruct path; cbn in *; by subst). done.
Qed.

(** A search for what the agent may see and what it may not, and a read of the hit, over an index and a store
    with a secret: the answers are those without it. *)
Lemma memory_tools_stay_in_scope_witness :
  let J := tree_json [] in
  let args := Object ["query" ↦ Text "alpha"; "scope" ↦ Text "/var/memory/self"] in
  let t := ex_search ex_chunks None in
  let u := ex_search (ex_secret_chunk :: ex_chunks) None in
  run_search u args = run_search t args /\
  snd (run_search t args) = Ok (Object ["hits" ↦ Array [Object ["hit_id" ↦ Text "hit_8"; "path" ↦ Text "/var/memory/self/a";
    "snippet" ↦ Text "alpha"; "locator" ↦ Object ["kind" ↦ Text "jsonl_line"; "line" ↦ Number 0%N]; "cosine_score" ↦ Number 1%N]]]).
Proof.
  intros J args t u. split; [|reflexivity].
  apply (memory_tools_stay_in_scope (fun s => s) ex_instant ex_token t u (ex_read ex_chunks ex_empty) (ex_read (ex_secret_chunk :: ex_chunks) ex_with_secret) args ex_world).
  exact ex_searches_alike.
Defined.

(** What was removed through the layer is still found by a search of the same run. *)
Example removed_file_is_found :
  let J := tree_json [] in
  store_exists (store ex_removed) ex_tenant (MkMemoryPath ex_note) = Ok false /\
  snd (run_search (ex_search [] (rrwb ex_removed)) (Object ["query" ↦ Text "old"; "scope" ↦ Text "/var/memory/self"])) =
    Ok (Object ["hits" ↦ Array [Object ["hit_id" ↦ Text "hit_8"; "path" ↦ Text ex_note; "snippet" ↦ Text "old";
      "locator" ↦ Object ["kind" ↦ Text "text"; "byte_start" ↦ Number 0%N; "byte_end" ↦ Number 3%N]; "cosine_score" ↦ Number 1%N]]]).
Proof. split; reflexivity. Qed.

(** A query of 1025 characters of two bytes is not too long, until a hook passes it on unchanged: the arguments a
    hook returns are measured in bytes. *)
Definition ex_wide : str := concat (repeat [ascii_of_N 195; ascii_of_N 169] 1025).
Definition ex_wide_args : tree := Object ["query" ↦ Text ex_wide; "scope" ↦ Text "/var/memory/self"].
Definition ex_hook : @HookModule unit := {| hook_name := "audit"; invoke := fun w _ _ _ => (w, Ok continue_unchanged) |}.
Example wide_query_refused_behind_hooks :
  let J := tree_json [([], Object ["tool" ↦ Text "semantic_search"; "arguments" ↦ ex_wide_args])] in
  let t := ex_search [] None in
  let hooked := {| st_tenant := st_tenant t; st_capability := st_capability t; st_index := st_index t; st_embedder := st_embedder t;
                   st_rrwb := None; st_hooks := Some (add pipeline_new ToolCall ex_hook) |} in
  char_count ex_wide = 1025%nat /\ snd (run_search t ex_wide_args) = Ok empty_hits /\
  snd (run_search hooked ex_wide_args) = Err (InvalidArguments "query too long: max 2048 chars").
Proof. repeat split; vm_compute; reflexivity. Qed.
