(* ===== verification/Chunkers.v ===== *)
(** * Chunkers

    Models [crates/simulacra-memory/src/chunker.rs] and [chunkers.rs]: how a document is cut into the chunks that are
    embedded and that [memory_read_chunk] shows, by Markdown sections, by windows of words and by lines. *)

From S2P Require Import Prelude.
From S2P Require Import Text.
From S2P Require Import Utf8.
From S2P Require Import MemoryStoreFs.
From S2P Require Import MemoryTools.

Record Chunk := { chunk_index : N; locator : Locator; chunk_text : str }.

(** [&source[a..b]]. *)
Definition slice (a b : nat) (source : str) : str := firstn (b - a) (skipn a source).
Definition text_chunk (index a b : nat) (source : str) : Chunk :=
  {| chunk_index := N.of_nat index; locator := Locator_Text (N.of_nat a) (N.of_nat b); chunk_text := slice a b source |}.

Definition decode_utf8 (content : bytes) : result str MemoryError :=
  map_err (fun _ => MemoryInternal "invalid utf-8 in chunker source") (from_utf8 content).

(** ** Markdown sections *)

Fixpoint heading_loop (count : nat) (line : str) : bool :=
  match line with
  | [] => false
  | b :: line =>
      if Ascii.eqb b "#" then let count := S count in if (3 <? count)%nat then false else heading_loop count line
      else (1 <=? count)%nat && (count <=? 3)%nat && Ascii.eqb b " "
  end.
Definition is_md_heading (line : str) : bool := heading_loop 0 line.

(** [split_inclusive('\n')]. *)
Fixpoint split_inclusive (source : str) : list str :=
  match source with
  | [] => []
  | c :: rest =>
      if Ascii.eqb c lf then [c] :: split_inclusive rest
      else match split_inclusive rest with [] => [[c]] | line :: lines => (c :: line) :: lines end
  end.

Fixpoint section_starts (byte : nat) (lines : list str) : list nat :=
  match lines with
  | [] => []
  | line :: lines =>
      let rest := section_starts (byte + length line) lines in
      if is_md_heading (unwrap_or (strip_suffix [lf] line) line) then byte :: rest else rest
  end.
Fixpoint sections (index : nat) (starts : list nat) (source : str) : list Chunk :=
  match starts with
  | [] => []
  | start :: rest =>
      let end_ := match rest with next :: _ => next | [] => length source end in
      text_chunk index start end_ source :: sections (S index) rest source
  end.

Definition chunk_markdown (content : bytes) : result (list Chunk) MemoryError :=
  if str_eqb content [] then Ok []
  else
    let? source := decode_utf8 content in
    let starts := section_starts 0 (split_inclusive source) in
    match starts with
    | [] => Ok [text_chunk 0 0 (length source) source]
    | first :: _ =>
        let intro := if (0 <? first)%nat then [text_chunk 0 0 first source] else [] in
        Ok (intro ++ sections (length intro) starts source)
    end.

(** ** Windows of words *)

Record FixedTokenChunker := { tokens_per_chunk : nat; overlap_tokens : nat }.
Definition fixed_token_default : FixedTokenChunker := {| tokens_per_chunk := 400; overlap_tokens := 50 |}.

Record TokenSpan := { byte_start : nat; byte_end : nat }.

(** The width of the character at the front of a text. *)
Definition char_width (s : str) : nat :=
  match s with
  | [] => 0
  | c :: r => match utf8_step c r with Char width => width | Invalid _ => 1 end
  end.
(** The start of the next word, and the end of the word begun: every turn passes a character. *)
Fixpoint skip_space (fuel off : nat) (s : str) : option nat :=
  match fuel, s with
  | O, _ | _, [] => None
  | S fuel, _ => match strip_one s with Some rest => skip_space fuel (off + (length s - length rest)) rest | None => Some off end
  end.
Fixpoint word_end (fuel off : nat) (s : str) : nat :=
  match fuel, s with
  | O, _ | _, [] => off + length s
  | S fuel, _ => match strip_one s with Some _ => off | None => word_end fuel (off + char_width s) (skipn (char_width s) s) end
  end.
Fixpoint tokenize (fuel i : nat) (source : str) : list TokenSpan :=
  match fuel with
  | O => []
  | S fuel =>
      let rest := skipn i source in
      match skip_space (length rest) 0 rest with
      | None => []
      | Some start_rel =>
          let after := skipn start_rel rest in
          let w := char_width after in
          let end_rel := word_end (length rest) (start_rel + w) (skipn w after) in
          {| byte_start := i + start_rel; byte_end := i + end_rel |} :: tokenize fuel (i + end_rel) source
      end
  end.
Definition tokenize_with_spans (source : str) : list TokenSpan := tokenize (S (length source)) 0 source.

Definition no_span : TokenSpan := {| byte_start := 0; byte_end := 0 |}.
(** The loop over the windows, at least one token further every turn. *)
Fixpoint windows (fuel window step start_idx index : nat) (spans : list TokenSpan) (source : str) : list Chunk :=
  match fuel with
  | O => []
  | S fuel =>
      if (length spans <=? start_idx)%nat then []
      else
        let end_idx := Nat.min (start_idx + window) (length spans) in
        let c := text_chunk index (byte_start (nth start_idx spans no_span)) (byte_end (nth (end_idx - 1) spans no_span)) source in
        c :: (if (end_idx =? length spans)%nat then [] else windows fuel window step (start_idx + step) (S index) spans source)
  end.
Definition chunk_fixed (c : FixedTokenChunker) (content : bytes) : result (list Chunk) MemoryError :=
  if str_eqb content [] then Ok []
  else
    let? source := decode_utf8 content in
    let spans := tokenize_with_spans source in
    let window := Nat.max (tokens_per_chunk c) 1 in
    let overlap := Nat.min (overlap_tokens c) (window - 1) in
    Ok (windows (length spans) window (window - overlap) 0 0 spans source).

(** ** Lines of JSON *)

Fixpoint jsonl_loop (line_no index : nat) (lines : list str) : list Chunk :=
  match lines with
  | [] => []
  | line :: lines =>
      if str_eqb (trim line) [] then jsonl_loop (S line_no) index lines
      else {| chunk_index := N.of_nat index; locator := Locator_JsonlLine (N.of_nat line_no); chunk_text := line |}
             :: jsonl_loop (S line_no) (S index) lines
  end.
Definition chunk_jsonl (content : bytes) : result (list Chunk) MemoryError :=
  if str_eqb content [] then Ok []
  else let? source := decode_utf8 content in Ok (jsonl_loop 0 0 (split_on lf source)).

(** ** Nothing of a document is lost *)

(** The bytes of a text chunk are the ones its locator names. *)
Definition located (source : str) (c : Chunk) : Prop :=
  exists a b, locator c = Locator_Text (N.of_nat a) (N.of_nat b) /\ (a <= b <= length source)%nat /\ chunk_text c = slice a b source.
Definition numbered (chunks : list Chunk) : Prop := List.map chunk_index chunks = List.map N.of_nat (List.seq 0 (length chunks)).

Lemma split_inclusive_concat source : concat (split_inclusive source) = source.
Proof.
  induction source as [|c rest IH]; [done|]. cbn. destruct (Ascii.eqb c lf); cbn; [by rewrite IH|].
  destruct (split_inclusive rest); cbn in *; by rewrite <- IH.
Qed.

(** Offsets that do not go back, from [a] to [b]. *)
Inductive climbs (b : nat) : nat -> list nat -> Prop :=
| climbs_nil a : (a <= b)%nat -> climbs b a []
| climbs_cons a s l : (a <= s)%nat -> climbs b s l -> climbs b a (s :: l).

Lemma climbs_le b a l : climbs b a l -> (a <= b)%nat.
Proof. induction 1; lia. Qed.
Lemma climbs_lower b a a' l : climbs b a l -> (a' <= a)%nat -> climbs b a' l.
Proof. destruct 1; constructor; (done || lia). Qed.

Lemma section_starts_climb byte lines : climbs (byte + length (concat lines)) byte (section_starts byte lines).
Proof.
  revert byte. induction lines as [|line lines IH]; intros byte; cbn; [constructor; lia|].
  rewrite length_app, Nat.add_assoc. destruct (is_md_heading _); [constructor; [done|]|];
    (eapply climbs_lower; [apply IH|lia]).
Qed.

Lemma slice_skip a b source : (a <= b)%nat -> (b <= length source)%nat -> slice a b source ++ skipn b source = skipn a source.
Proof.
  intros Hab Hb. unfold slice. replace (skipn b source) with (skipn (b - a) (skipn a source)); [apply firstn_skipn|].
  rewrite skipn_skipn. f_equal. lia.
Qed.

Lemma sections_spec source index starts a : climbs (length source) a starts ->
  Forall (located source) (sections index starts source) /\
  concat (List.map chunk_text (sections index starts source)) = match starts with [] => [] | s :: _ => skipn s source end /\
  List.map chunk_index (sections index starts source) = List.map N.of_nat (List.seq index (length starts)).
Proof.
  intros Hc. revert index a Hc. induction starts as [|s rest IH]; intros index a Hc; cbn; [done|].
  inversion Hc as [|? ? ? _ Hr]; subst. destruct (IH (S index) s Hr) as (Hl & Ht & Hi).
  rewrite Ht, Hi. split_and!; [constructor; [|done]| |done].
  - destruct rest as [|next rest].
    + pose proof (climbs_le _ _ _ Hr). by exists s, (length source).
    + inversion Hr as [|? ? ? ? Hr']; subst. pose proof (climbs_le _ _ _ Hr'). by exists s, next.
  - destruct rest as [|next rest].
    + pose proof (climbs_le _ _ _ Hr). rewrite app_nil_r. unfold slice. rewrite firstn_all2; [done|]. by rewrite length_skipn.
    + inversion Hr as [|? ? ? ? Hr']; subst. pose proof (climbs_le _ _ _ Hr'). by apply slice_skip.
Qed.

Lemma slice_whole source : slice 0 (length source) source = source.
Proof. unfold slice. rewrite Nat.sub_0_r. apply firstn_all. Qed.

Lemma decode_ok content source : decode_utf8 content = Ok source -> source = content.
Proof. unfold decode_utf8. destruct (from_utf8 content) eqn:E; [|done]. intros [= <-]. by apply from_utf8_inv in E as [? _]. Qed.

Lemma markdown_spec content chunks : chunk_markdown content = Ok chunks ->
  concat (List.map chunk_text chunks) = content /\ Forall (located content) chunks /\ numbered chunks.
Proof.
  unfold chunk_markdown. destruct (str_eqb content []) eqn:E; [apply str_eqb_true in E as ->; by intros [= <-]|].
  destruct (decode_utf8 content) as [source|] eqn:Ed; [|done]. apply decode_ok in Ed as ->.
  pose proof (section_starts_climb 0 (split_inclusive content)) as Hc. rewrite split_inclusive_concat in Hc. cbn [Nat.add] in Hc.
  destruct (section_starts 0 (split_inclusive content)) as [|first rest].
  - intros [= <-]. cbn. rewrite slice_whole, app_nil_r. split_and!; [done| |done]. repeat constructor.
    exists 0%nat, (length content). split_and!; try done; lia.
  - destruct (sections_spec content (length (if (0 <? first)%nat then [text_chunk 0 0 first content] else [])) (first :: rest) 0 Hc) as (Hl & Ht & Hi).
    inversion Hc as [|? ? ? Hf Hr]; subst. pose proof (climbs_le _ _ _ Hr) as Hle.
    remember (sections _ (first :: rest) content) as secs eqn:Es. clear Es. intros [= <-].
    assert (length (first :: rest) = length secs) as Hlen by (apply (f_equal length) in Hi; by rewrite !length_map, length_seq in Hi).
    rewrite Hlen in Hi. unfold numbered. destruct (Nat.ltb_spec 0 first) as [Hpos|H0]; cbn [app List.map concat length List.seq] in *.
    + rewrite Ht, Hi. split_and!; [exact (slice_skip 0 first content (Nat.le_0_l _) Hle)| |done].
      constructor; [|done]. exists 0%nat, first. split_and!; try done; lia.
    + assert (first = 0)%nat as -> by lia. by rewrite Ht, Hi.
Qed.

(** *** Words *)

Inductive spaces : str -> Prop :=
| spaces_nil : spaces []
| spaces_cons w s : w ∈ white_space -> spaces s -> spaces (w ++ s).

(** Words from an offset on, with nothing but white space before, between and after them. *)
Inductive laid_out (source : str) : nat -> list TokenSpan -> Prop :=
| laid_end i : spaces (skipn i source) -> laid_out source i []
| laid_token i t l : (i <= byte_start t < byte_end t)%nat -> (byte_end t <= length source)%nat -> spaces (slice i (byte_start t) source) ->
    strip_one (skipn (byte_start t) source) = None -> laid_out source (byte_end t) l -> laid_out source i (t :: l).

Lemma strip_one_space s r : strip_one s = Some r -> exists w, w ∈ white_space /\ s = w ++ r.
Proof.
  unfold strip_one. induction white_space as [|w ws IH]; cbn [fold_right]; [done|]. unfold option_or.
  destruct (strip_prefix w s) as [r'|] eqn:E.
  - intros [= ->]. apply strip_prefix_Some in E. exists w. split; [by left|done].
  - intros Hr. destruct (IH Hr) as (w' & Hw & ->). exists w'. split; [by right|done].
Qed.

Lemma skip_space_spec fuel off s : (length s <= fuel)%nat ->
  match skip_space fuel off s with
  | None => spaces s
  | Some k => exists g t, s = g ++ t /\ spaces g /\ k = (off + length g)%nat /\ t <> [] /\ strip_one t = None
  end.
Proof.
  revert off s. induction fuel as [|fuel IH]; intros off s Hf.
  - destruct s; [constructor|cbn in Hf; lia].
  - destruct s as [|c s']; [constructor|]. set (s := c :: s') in *. change (skip_space (S fuel) off s) with
      (match strip_one s with Some rest => skip_space fuel (off + (length s - length rest)) rest | None => Some off end).
    destruct (strip_one s) as [rest|] eqn:E; [|exists [], s; split_and!; [done|constructor|cbn; lia|done|done]].
    pose proof (strip_one_shortens _ _ E) as Hlt. apply strip_one_space in E as (w & Hw & E).
    specialize (IH (off + (length s - length rest))%nat rest ltac:(lia)).
    destruct (skip_space fuel _ rest) as [k|]; rewrite E; [|by constructor].
    destruct IH as (g & t & -> & Hg & -> & Ht & Hn). exists (w ++ g), t. rewrite app_assoc. split_and!; [done|by constructor| |done|done].
    rewrite E, !length_app. lia.
Qed.

Lemma utf8_step_width c r w : utf8_step c r = Char w -> (1 <= w)%nat.
Proof.
  unfold utf8_step, next_byte. intros E. repeat case_match; try discriminate E; injection E as <-; lia.
Qed.
Lemma char_width_le s : s <> [] -> (1 <= char_width s <= length s)%nat.
Proof.
  destruct s as [|c r]; [done|]. intros _. cbn. destruct (utf8_step c r) eqn:E; [|lia].
  pose proof (utf8_step_width _ _ _ E). apply (utf8_step_app _ _ _ []) in E as [_ E]. lia.
Qed.

Lemma word_end_spec fuel off s : (length s <= fuel)%nat -> (off <= word_end fuel off s <= off + length s)%nat.
Proof.
  revert off s. induction fuel as [|fuel IH]; intros off s Hf; [cbn; lia|].
  destruct s as [|c s']; [cbn; lia|]. set (s := c :: s') in *. change (word_end (S fuel) off s) with
    (match strip_one s with Some _ => off | None => word_end fuel (off + char_width s) (skipn (char_width s) s) end).
  destruct (strip_one s); [lia|]. pose proof (char_width_le s ltac:(done)) as Hw.
  specialize (IH (off + char_width s)%nat (skipn (char_width s) s)). rewrite length_skipn in IH. lia.
Qed.

Lemma tokenize_laid source fuel i : (i <= length source)%nat -> (length source - i < fuel)%nat -> laid_out source i (tokenize fuel i source).
Proof.
  revert i. induction fuel as [|fuel IH]; intros i Hi Hf; [lia|]. cbn [tokenize].
  pose proof (skip_space_spec (length (skipn i source)) 0 (skipn i source) (le_n _)) as Hs.
  destruct (skip_space _ 0 _) as [k|]; [|by constructor]. destruct Hs as (g & t & Eg & Hg & -> & Ht & Hn).
  assert (length (skipn i source) = length g + length t)%nat as Hlen by (rewrite Eg; apply length_app).
  rewrite length_skipn in Hlen. cbn [Nat.add]. rewrite Eg, skipn_app, skipn_all, Nat.sub_diag. cbn [app].
  change (skipn 0 t) with t. pose proof (char_width_le t Ht) as Hw.
  pose proof (word_end_spec (length (g ++ t)) (length g + char_width t) (skipn (char_width t) t)) as He.
  rewrite length_skipn, length_app in He. specialize (He ltac:(lia)). rewrite length_app.
  set (e := word_end _ _ _) in *. apply laid_token; cbn [byte_start byte_end].
  - lia.
  - lia.
  - unfold slice. rewrite Eg. replace (i + length g - i)%nat with (length g) by lia. by rewrite firstn_app, firstn_all, Nat.sub_diag, app_nil_r.
  - replace (skipn (i + length g) source) with (skipn (length g) (skipn i source)) by (rewrite skipn_skipn; f_equal; lia).
    by rewrite Eg, skipn_app, skipn_all, Nat.sub_diag.
  - apply IH; lia.
Qed.

Lemma laid_nth source i l j : laid_out source i l -> (j < length l)%nat ->
  (i <= byte_start (nth j l no_span) < byte_end (nth j l no_span))%nat /\ (byte_end (nth j l no_span) <= length source)%nat.
Proof.
  intros Hl. revert j. induction Hl as [i|i t l Ht Hle _ _ _ IH]; intros j Hj; cbn in Hj; [lia|].
  destruct j as [|j]; cbn [nth]; [done|]. destruct (IH j ltac:(lia)). lia.
Qed.

Lemma laid_order source i l j k : laid_out source i l -> (j <= k)%nat -> (k < length l)%nat ->
  (byte_start (nth j l no_span) <= byte_start (nth k l no_span))%nat /\ (byte_end (nth j l no_span) <= byte_end (nth k l no_span))%nat.
Proof.
  intros Hl. revert j k. induction Hl as [i|i t l Ht Hle _ _ Hl IH]; intros j k Hjk Hk; cbn in Hk; [lia|].
  destruct j as [|j], k as [|k]; cbn [nth]; try lia; [|by apply IH; lia].
  destruct (laid_nth _ _ _ k Hl ltac:(lia)). lia.
Qed.

Section Windows.
Context (source : str) (spans : list TokenSpan) (window step : nat).
Context (Hlaid : laid_out source 0 spans) (Hstep : (1 <= step <= window)%nat).

Lemma windows_spec fuel start_idx index : (length spans - start_idx <= fuel)%nat ->
  let chunks := windows fuel window step start_idx index spans source in
  Forall (located source) chunks /\ List.map chunk_index chunks = List.map N.of_nat (List.seq index (length chunks)) /\
  forall j, (start_idx <= j < length spans)%nat -> exists c a b, c ∈ chunks /\ locator c = Locator_Text (N.of_nat a) (N.of_nat b) /\
    (a <= byte_start (nth j spans no_span))%nat /\ (byte_end (nth j spans no_span) <= b)%nat.
Proof.
  revert start_idx index. induction fuel as [|fuel IH]; intros start_idx index Hf; cbn [windows].
  { split_and!; [constructor|done|intros j Hj; lia]. }
  destruct (Nat.leb_spec (length spans) start_idx) as [|Hlt]; [split_and!; [constructor|done|intros j Hj; lia]|].
  set (end_idx := Nat.min (start_idx + window) (length spans)). set (c := text_chunk index _ _ source).
  assert (start_idx <= end_idx - 1 < length spans)%nat as He by lia.
  pose proof (laid_nth _ _ _ _ Hlaid Hlt) as [Hs _]. pose proof (laid_nth _ _ _ _ Hlaid (proj2 He)) as [_ Hb].
  pose proof (laid_order _ _ _ _ _ Hlaid (proj1 He) (proj2 He)) as [_ Hse].
  assert (located source c) as Hc by (eexists _, _; split_and!; [done|lia|done|done]).
  assert (forall j, (start_idx <= j < end_idx)%nat -> exists a b, locator c = Locator_Text (N.of_nat a) (N.of_nat b) /\
    (a <= byte_start (nth j spans no_span))%nat /\ (byte_end (nth j spans no_span) <= b)%nat) as Hhere.
  { intros j Hj. eexists _, _. split; [done|]. split; eapply laid_order; (done || lia). }
  set (rest := if (end_idx =? length spans)%nat then [] else _).
  assert (Forall (located source) rest /\ List.map chunk_index rest = List.map N.of_nat (List.seq (S index) (length rest)) /\
    forall j, (end_idx <= j < length spans)%nat -> exists c a b, c ∈ rest /\ locator c = Locator_Text (N.of_nat a) (N.of_nat b) /\
      (a <= byte_start (nth j spans no_span))%nat /\ (byte_end (nth j spans no_span) <= b)%nat) as (Hr & Hi & Hcov).
  { unfold rest. destruct (Nat.eqb_spec end_idx (length spans)) as [E|E]; [split_and!; [constructor|done|intros j Hj; lia]|].
    destruct (IH (start_idx + step)%nat (S index) ltac:(lia)) as (H1 & H2 & H3). split_and!; [done|done|].
    intros j Hj. apply H3. lia. }
  split_and!; [by constructor|cbn; by rewrite Hi|]. intros j Hj. destruct (Nat.lt_ge_cases j end_idx) as [Hje|Hje].
  - destruct (Hhere j ltac:(lia)) as (a & b & ? & ? & ?). exists c, a, b. split_and!; [by left|done..].
  - destruct (Hcov j ltac:(lia)) as (c' & a & b & Hin & ? & ? & ?). exists c', a, b. split_and!; [by right|done..].
Qed.
End Windows.

Lemma fixed_spec c content chunks : chunk_fixed c content = Ok chunks ->
  let spans := tokenize_with_spans content in
  Forall (located content) chunks /\ numbered chunks /\ laid_out content 0 spans /\
  forall t, t ∈ spans -> exists k a b, k ∈ chunks /\ locator k = Locator_Text (N.of_nat a) (N.of_nat b) /\ (a <= byte_start t)%nat /\ (byte_end t <= b)%nat.
Proof.
  assert (forall source, laid_out source 0 (tokenize_with_spans source)) as Hl by (intros source; apply tokenize_laid; lia).
  unfold chunk_fixed. destruct (str_eqb content []) eqn:E.
  - apply str_eqb_true in E as ->. intros [= <-]. split_and!; [constructor|done|apply Hl|]. intros t Ht. by apply elem_of_nil in Ht.
  - destruct (decode_utf8 content) as [source|] eqn:Ed; [|done]. apply decode_ok in Ed as ->. intros [= <-].
    set (window := Nat.max (tokens_per_chunk c) 1). set (step := (window - Nat.min (overlap_tokens c) (window - 1))%nat).
    destruct (windows_spec content _ window step (Hl content) ltac:(lia) (length (tokenize_with_spans content)) 0 0 ltac:(lia)) as (H1 & H2 & H3).
    split_and!; [done|done|apply Hl|]. intros t Ht. apply list_elem_of_In, (In_nth _ _ no_span) in Ht as (j & Hj & <-). apply H3. lia.
Qed.

(** *** Lines *)

Lemma jsonl_spec line_no index lines :
  let chunks := jsonl_loop line_no index lines in
  List.map chunk_index chunks = List.map N.of_nat (List.seq index (length chunks)) /\
  List.map chunk_text chunks = List.filter (fun line => negb (str_eqb (trim line) [])) lines /\
  Forall (fun c => exists n, locator c = Locator_JsonlLine (N.of_nat (line_no + n)) /\ lines !! n = Some (chunk_text c)) chunks.
Proof.
  revert line_no index. induction lines as [|line lines IH]; intros line_no index; cbn [jsonl_loop List.filter]; [split_and!; [done|done|constructor]|].
  assert (forall cs, Forall (fun c => exists n, locator c = Locator_JsonlLine (N.of_nat (S line_no + n)) /\ lines !! n = Some (chunk_text c)) cs ->
    Forall (fun c => exists n, locator c = Locator_JsonlLine (N.of_nat (line_no + n)) /\ (line :: lines) !! n = Some (chunk_text c)) cs) as Hup.
  { intros cs Hcs. eapply Forall_impl; [exact Hcs|]. intros c (n & Hn & Ht). exists (S n). rewrite Nat.add_succ_r. done. }
  destruct (str_eqb (trim line) []); cbn [negb].
  - destruct (IH (S line_no) index) as (Hi & Ht & Hf). split_and!; [done|done|by apply Hup].
  - destruct (IH (S line_no) (S index)) as (Hi & Ht & Hf). cbn. rewrite Hi, Ht. split_and!; [done|done|].
    constructor; [|by apply Hup]. exists 0%nat. by rewrite Nat.add_0_r.
Qed.

(** C34. No chunker loses text, and the place a chunk gives is where its text is.  The chunks of a document are
    numbered from 0 in order.  The sections of a Markdown document, put together, are the document, and each is the
    bytes its locator names.  The windows over its words are the bytes their locators name, and every word lies
    whole in one of them; the words are separated by white space and by nothing else, and there is nothing else
    before the first and after the last.  The chunks of a document of JSON lines are its lines that are not blank,
    in order, each at the number its locator gives.  Only a document that is not text is refused. *)
Theorem chunks_lose_nothing (config : FixedTokenChunker) (content : bytes) :
  (forall chunks, chunk_markdown content = Ok chunks ->
     numbered chunks /\ Forall (located content) chunks /\ concat (List.map chunk_text chunks) = content) /\
  (forall chunks, chunk_fixed config content = Ok chunks ->
     numbered chunks /\ Forall (located content) chunks /\ laid_out content 0 (tokenize_with_spans content) /\
     forall t, t ∈ tokenize_with_spans content -> exists c a b, c ∈ chunks /\ locator c = Locator_Text (N.of_nat a) (N.of_nat b) /\
       (a <= byte_start t)%nat /\ (byte_end t <= b)%nat) /\
  (forall chunks, chunk_jsonl content = Ok chunks ->
     numbered chunks /\ List.map chunk_text chunks = List.filter (fun line => negb (str_eqb (trim line) [])) (split_on lf content) /\
     Forall (fun c => exists n, locator c = Locator_JsonlLine (N.of_nat n) /\ split_on lf content !! n = Some (chunk_text c)) chunks) /\
  (valid_utf8 content -> is_ok (chunk_markdown content) && is_ok (chunk_fixed config content) && is_ok (chunk_jsonl content) = true).
Proof.
  split_and!.
  - intros chunks (Ht & Hl & Hn)%markdown_spec. done.
  - intros chunks (Hl & Hn & Hs & Hc)%fixed_spec. done.
  - intros chunks. unfold chunk_jsonl. destruct (str_eqb content []) eqn:E; [apply str_eqb_true in E as ->; by intros [= <-]|].
    destruct (decode_utf8 content) as [source|] eqn:Ed; [|done]. apply decode_ok in Ed as ->. intros [= <-].
    destruct (jsonl_spec 0 0 (split_on lf content)) as (Hi & Ht & Hf). done.
  - intros Hv%from_utf8_ok. unfold chunk_markdown, chunk_fixed, chunk_jsonl, decode_utf8. rewrite Hv. destruct (str_eqb content []); [done|].
    cbn [map_err]. by destruct (section_starts _ _).
Qed.

Definition ex_document : str := "intro" ++ [lf] ++ "# One" ++ [lf] ++ "two words" ++ [lf] ++ "#### deep" ++ [lf] ++ "## Two".
Lemma chunks_lose_nothing_witness :
  numbered [text_chunk 0 0 6 ex_document; text_chunk 1 6 32 ex_document; text_chunk 2 32 38 ex_document] /\
  (exists c, c ∈ (match chunk_fixed {| tokens_per_chunk := 3; overlap_tokens := 1 |} ex_document with Ok cs => cs | Err _ => [] end)).
Proof.
  destruct (chunks_lose_nothing {| tokens_per_chunk := 3; overlap_tokens := 1 |} ex_document) as (Hm & Hf & _ & _). split.
  - apply (Hm [text_chunk 0 0 6 ex_document; text_chunk 1 6 32 ex_document; text_chunk 2 32 38 ex_document]). reflexivity.
  - destruct (chunk_fixed _ ex_document) as [cs|] eqn:E; [|discriminate E]. destruct (Hf cs eq_refl) as (_ & _ & _ & Hc).
    destruct (Hc {| byte_start := 0; byte_end := 5 |}) as (c & _ & _ & Hin & _); [by left|]. by exists c.
Defined.
