(* ===== verification/Retention.v ===== *)
(** * Retention of memory

    Models [crates/simulacra-memory/src/retention.rs]: the sweep that deletes what has outlived the time to live of
    its subtree.  The timers of the workers, their registration and shutdown are tokio's and are left out; a sweep
    that yields between batches runs whatever others do to the store there ([others]). *)

From S2P Require Import Prelude.
From S2P Require Import MemoryPath.
From S2P Require Import MemoryStoreFs.

Record RetentionSubtree := { prefix : MemoryPath; ttl : N }.
Record RetentionReaperConfig := { interval : N; batch_size : nat; subtrees : list RetentionSubtree }.
Definition reaper_config_default : RetentionReaperConfig := {| interval := 3600 * 1000000000; batch_size := 256; subtrees := [] |}.

Record ReaperStats := { paths_deleted : N; batches : N; subtrees_scanned : N; index_failures : N }.
Definition no_stats : ReaperStats := {| paths_deleted := 0; batches := 0; subtrees_scanned := 0; index_failures := 0 |}.
Definition count_deleted (s : ReaperStats) : ReaperStats :=
  {| paths_deleted := paths_deleted s + 1; batches := batches s; subtrees_scanned := subtrees_scanned s; index_failures := index_failures s |}.
Definition count_failure (s : ReaperStats) : ReaperStats :=
  {| paths_deleted := paths_deleted s; batches := batches s; subtrees_scanned := subtrees_scanned s; index_failures := index_failures s + 1 |}.
Definition count_batch (s : ReaperStats) : ReaperStats :=
  {| paths_deleted := paths_deleted s; batches := batches s + 1; subtrees_scanned := subtrees_scanned s; index_failures := index_failures s |}.
Definition add_stats (s t : ReaperStats) : ReaperStats :=
  {| paths_deleted := paths_deleted s + paths_deleted t; batches := batches s + batches t;
     subtrees_scanned := subtrees_scanned s + 1; index_failures := index_failures s + index_failures t |}.

(** What the reaper uses of the index. *)
Class ChunkIndex (Ix : Type) := {
  index_delete_path : Ix -> TenantId -> MemoryPath -> N -> Ix * result unit MemoryError;
}.

Section Reaper.
Context {St Ix : Type} `{MemoryStore St} `{ChunkIndex Ix} (others : St -> St).

(** The store, the index and the counts of the sweep. *)
Record Sweep := { swept_store : St; swept_index : Ix; stats : ReaperStats }.

Definition is_expired (now ttl : N) (e : MemoryEntry) : bool := (ttl <? now - mtime e)%N.

Definition reap (t : TenantId) (path : MemoryPath) : SE Sweep MemoryError unit := fun s =>
  let '(st, r) := store_delete (swept_store s) t path in
  match r with
  | Ok tombstone_version =>
      let '(ix, r) := index_delete_path (swept_index s) t path tombstone_version in
      ({| swept_store := st; swept_index := ix; stats := match r with Ok _ => count_deleted (stats s) | Err _ => count_failure (stats s) end |}, Ok tt)
  | Err (MemoryNotFound _) => ({| swept_store := st; swept_index := swept_index s; stats := stats s |}, Ok tt)
  | Err e => ({| swept_store := st; swept_index := swept_index s; stats := stats s |}, Err e)
  end.

Definition end_batch (s : Sweep) : Sweep :=
  {| swept_store := others (swept_store s); swept_index := swept_index s; stats := count_batch (stats s) |}.

(** [expired.chunks(batch_size)]: [fuel] batches at most. *)
Fixpoint batches_of {A} (fuel n : nat) (l : list A) : list (list A) :=
  match fuel, l with
  | O, _ | _, [] => []
  | S fuel, _ => firstn n l :: batches_of fuel n (skipn n l)
  end.

Definition sweep_batch (t : TenantId) (batch : list MemoryPath) : SE Sweep MemoryError unit :=
  let! _ := se_for batch (reap t) in
  se_modify end_batch.

Definition sweep_subtree (t : TenantId) (subtree : RetentionSubtree) (batch_size : nat) (now : N) : SE Sweep MemoryError unit := fun s =>
  match store_list_prefix (swept_store s) t (prefix subtree) with
  | Err e => (s, Err e)
  | Ok entries =>
      let expired := List.map entry_path (List.filter (is_expired now (ttl subtree)) entries) in
      se_for (batches_of (length expired) batch_size expired) (sweep_batch t) s
  end.

(** [sweep_tenant]: the subtrees in order, each at an instant of its own; a sweep that fails counts nothing. *)
Fixpoint sweep_subtrees (t : TenantId) (subtrees : list (RetentionSubtree * N)) (batch_size : nat) (total : ReaperStats)
    (st : St) (ix : Ix) : (St * Ix) * result ReaperStats MemoryError :=
  match subtrees with
  | [] => ((st, ix), Ok total)
  | (subtree, now) :: rest =>
      let '(s, r) := sweep_subtree t subtree batch_size now {| swept_store := st; swept_index := ix; stats := no_stats |} in
      match r with
      | Err e => ((swept_store s, swept_index s), Err e)
      | Ok _ => sweep_subtrees t rest batch_size (add_stats total (stats s)) (swept_store s) (swept_index s)
      end
  end.
(** [nows]: what the clock reads when each subtree is begun. *)
Definition sweep_tenant (t : TenantId) (config : RetentionReaperConfig) (nows : list N) (st : St) (ix : Ix) : (St * Ix) * result ReaperStats MemoryError :=
  sweep_subtrees t (zip (subtrees config) nows) (Nat.max (batch_size config) 1) no_stats st ix.
End Reaper.

(** ** What a sweep promises

    The entries of a store, as its operations document them. *)
Class MemoryStoreView (St : Type) `{MemoryStore St} := {
  store_at : St -> TenantId -> MemoryPath -> option MemoryEntry;
  at_path : forall st t p e, store_at st t p = Some e -> entry_path e = p;
  at_list : forall st t q l, store_list_prefix st t q = Ok l ->
    forall e, e ∈ l <-> starts_with_prefix (entry_path e) q = true /\ store_at st t (entry_path e) = Some e;
  at_delete : forall st t p st' v, store_delete st t p = (st', Ok v) ->
    store_at st' t p = None /\ forall u q, u <> t \/ q <> p -> store_at st' u q = store_at st u q;
  at_refused : forall st t p st' e, store_delete st t p = (st', Err e) ->
    (forall u q, store_at st' u q = store_at st u q) /\ (forall m, e = MemoryNotFound m -> store_at st t p = None);
}.

#[export] Instance MemoryPath_eq_dec : EqDecision MemoryPath.
Proof. solve_decision. Defined.
#[export] Instance TenantId_eq_dec : EqDecision TenantId.
Proof. solve_decision. Defined.

Section Promise.
Context {St Ix : Type} `{MemoryStoreView St} `{ChunkIndex Ix}.
#[local] Abbreviation Sweep := (@Sweep St Ix).
#[local] Abbreviation quiet := (fun st : St => st).

(** The paths [gone] of a tenant may be missing, and nothing else has changed. *)
Definition only_gone (t : TenantId) (gone : list MemoryPath) (s s' : Sweep) : Prop :=
  forall u q, store_at (swept_store s') u q = store_at (swept_store s) u q \/
    (u = t /\ q ∈ gone /\ store_at (swept_store s') u q = None).
Definition all_gone (t : TenantId) (gone : list MemoryPath) (s' : Sweep) : Prop :=
  forall q, q ∈ gone -> store_at (swept_store s') t q = None.

Lemma only_gone_trans t g h (s1 s2 s3 : Sweep) : only_gone t g s1 s2 -> only_gone t h s2 s3 -> only_gone t (g ++ h) s1 s3.
Proof.
  intros H12 H23 u q. destruct (H23 u q) as [->|(-> & Hq & ->)]; [|right; split_and!; [done|apply elem_of_app; by right|done]].
  destruct (H12 u q) as [|(-> & Hq & E)]; [by left|]. right. split_and!; [done|apply elem_of_app; by left|done].
Qed.

Lemma reap_spec t p (s s' : Sweep) r : reap t p s = (s', r) ->
  only_gone t [p] s s' /\ (is_ok r = true -> all_gone t [p] s').
Proof.
  unfold reap. destruct (store_delete (swept_store s) t p) as [st [v|e]] eqn:Ed.
  - apply at_delete in Ed as [Hn Ho]. destruct (index_delete_path _ _ _ _) as [ix [|]]; intros [= <- <-]; (split; cbn;
      [|intros _ q ->%list_elem_of_singleton; done]); intros u q;
      (destruct (decide (u = t)) as [->|Hu]; [destruct (decide (q = p)) as [->|Hq]; [right; split_and!; [done|by left|done]|]|]; left; apply Ho; tauto).
  - apply at_refused in Ed as [Ho Hn]. assert (forall x, x = {| swept_store := st; swept_index := swept_index s; stats := stats s |} -> only_gone t [p] s x) as Hx.
    { intros x -> u q. left. apply Ho. }
    destruct e; intros [= <- <-]; (split; [by apply Hx|]); try done. intros _ q ->%list_elem_of_singleton. cbn. rewrite Ho. by eapply Hn.
Qed.

(** A loop of steps that each take care of their own paths. *)
Lemma reap_all {A} (paths : A -> list MemoryPath) (m : A -> SE Sweep MemoryError unit) t l :
  (forall x s s' r, m x s = (s', r) -> only_gone t (paths x) s s' /\ (is_ok r = true -> all_gone t (paths x) s')) ->
  forall s s' r, se_for l m s = (s', r) -> only_gone t (flat_map paths l) s s' /\ (is_ok r = true -> all_gone t (flat_map paths l) s').
Proof.
  intros Hm. induction l as [|x l IH]; intros s s' r; cbn [se_for flat_map].
  - intros [= <- <-]. split; [intros u q; by left|]. intros _ q Hq. by apply elem_of_nil in Hq.
  - unfold se_bind. destruct (m x s) as [s1 [[]|e]] eqn:E1; apply Hm in E1 as [G1 G1'].
    + intros E2. apply IH in E2 as [G2 G2']. split; [by eapply only_gone_trans|]. intros Hr q Hq.
      apply elem_of_app in Hq as [Hq|Hq]; [|by apply G2']. destruct (G2 t q) as [->|(_ & _ & ->)]; [|done]. by apply G1'.
    + intros [= <- <-]. split; [|done]. intros u q. destruct (G1 u q) as [|(-> & Hq & E)]; [by left|]. right. split_and!; [done|apply elem_of_app; by left|done].
Qed.

Lemma batches_concat {A} fuel n (l : list A) : (1 <= n)%nat -> (length l <= fuel)%nat -> concat (batches_of fuel n l) = l.
Proof.
  intros Hn. revert l. induction fuel as [|fuel IH]; intros l Hl; [destruct l; [done|cbn in Hl; lia]|].
  destruct l as [|x l]; [done|]. cbn [batches_of concat]. rewrite IH; [apply firstn_skipn|]. rewrite length_skipn. cbn in *. lia.
Qed.

Lemma flat_map_id {A} (l : list A) : flat_map (fun x => [x]) l = l.
Proof. induction l as [|x l IH]; [done|]. cbn. by rewrite IH. Qed.

Lemma batch_spec t batch (s s' : Sweep) r : sweep_batch quiet t batch s = (s', r) ->
  only_gone t batch s s' /\ (is_ok r = true -> all_gone t batch s').
Proof.
  unfold sweep_batch, se_bind. destruct (se_for batch (reap t) s) as [s1 r1] eqn:E.
  apply (reap_all (fun p => [p]) _ t) in E as [G1 G2]; [|intros x *; apply reap_spec]. rewrite flat_map_id in G1, G2.
  destruct r1 as [[]|e]; intros [= <- <-]; (split; [exact G1|]); [|done]. exact G2.
Qed.

(** A sweep deletes what has expired and nothing else.  After a sweep of a subtree during which nobody else
    writes, every entry of every tenant is as it was, but for entries of the swept tenant under the prefix whose age
    was over the time to live, which may be gone; when the sweep succeeds (whatever the index answers, and however
    the paths fall into batches) they are all gone, so nothing under the prefix is older than its time to live. *)
Theorem sweep_reaps_expired (t : TenantId) (subtree : RetentionSubtree) (batch_size : nat) (now : N) (s s' : Sweep) r :
  (1 <= batch_size)%nat -> sweep_subtree quiet t subtree batch_size now s = (s', r) ->
  (forall u q, store_at (swept_store s') u q = store_at (swept_store s) u q \/
    (u = t /\ starts_with_prefix q (prefix subtree) = true /\ store_at (swept_store s') u q = None /\
     exists e, store_at (swept_store s) t q = Some e /\ is_expired now (ttl subtree) e = true)) /\
  (is_ok r = true -> forall q e, store_at (swept_store s') t q = Some e -> starts_with_prefix q (prefix subtree) = true ->
    is_expired now (ttl subtree) e = false).
Proof.
  intros Hb. unfold sweep_subtree. destruct (store_list_prefix _ t _) as [entries|] eqn:El.
  2:{ intros [= <- <-]. split; [intros u q; by left|done]. }
  pose proof (at_list _ _ _ _ El) as Hin. set (expired := List.map entry_path _). intros E.
  apply (reap_all (fun batch => batch) _ t) in E as [G1 G2]; [|intros x *; apply batch_spec].
  rewrite flat_map_concat_map, List.map_id, batches_concat in G1, G2 by done.
  assert (forall q, q ∈ expired <-> starts_with_prefix q (prefix subtree) = true /\ exists e, store_at (swept_store s) t q = Some e /\ is_expired now (ttl subtree) e = true) as Hexp.
  { intros q. unfold expired. rewrite list_elem_of_In, in_map_iff. setoid_rewrite filter_In. setoid_rewrite <- list_elem_of_In. setoid_rewrite Hin. split.
    - intros (e & <- & (Hp & Ha) & He). split; [done|]. by exists e.
    - intros (Hp & e & Ha & He). pose proof (at_path _ _ _ _ Ha) as <-. by exists e. }
  split.
  - intros u q. destruct (G1 u q) as [|(-> & Hq & Hn)]; [by left|]. right. apply Hexp in Hq as [Hp He]. done.
  - intros Hr q e He Hp. destruct (is_expired now (ttl subtree) e) eqn:Ex; [|done]. exfalso.
    destruct (G1 t q) as [Es|(_ & _ & Hn)]; [|congruence]. rewrite He in Es.
    assert (q ∈ expired) as Hq by (apply Hexp; split; [done|by exists e]). specialize (G2 Hr q Hq). congruence.
Qed.
End Promise.

(** ** Over the store of the examples *)

Definition ex_at (s : ExStore) (t : TenantId) (p : MemoryPath) : option MemoryEntry :=
  (fun '(data, v) => {| entry_path := p; entry_size := len data; entry_version := v; mtime := 0; content_hash := [] |})
    <$> cells s !! (tenant_str t, mp_str p).
#[export] Program Instance ex_store_view : MemoryStoreView ExStore := {| store_at := ex_at |}.
Next Obligation. intros s t p e. unfold ex_at. destruct (cells s !! _) as [[data v]|]; [|done]. by intros [= <-]. Qed.
Next Obligation.
  intros s t q l [= <-] e. unfold ex_entries. rewrite list_elem_of_omap. split.
  - intros ([[u p] [data v]] & Hin & E). apply elem_of_map_to_list in Hin. destruct (str_eqb u (tenant_str t)) eqn:Eu; [|done]. cbn in E.
    destruct (starts_with_prefix (MkMemoryPath p) q) eqn:Ep; [|done]. injection E as <-. apply str_eqb_true in Eu as ->. split; [done|].
    apply (f_equal (fmap (fun '(data, v) => {| entry_path := MkMemoryPath p; entry_size := len data; entry_version := v; mtime := 0%N; content_hash := [] |}))) in Hin. exact Hin.
  - intros [Hp He]. unfold ex_at in He. destruct (cells s !! (tenant_str t, mp_str (entry_path e))) as [[data v]|] eqn:Ec; [|done]. injection He as He.
    exists ((tenant_str t, mp_str (entry_path e)), (data, v)). split; [by apply elem_of_map_to_list|]. rewrite str_eqb_refl.
    destruct (entry_path e) as [p] eqn:Ee. cbn. by rewrite Hp, He.
Qed.
Next Obligation.
  intros s t p st' v. unfold ex_at. cbn. destruct (cells s !! _) as [x|] eqn:Ec; [|done]. intros [= <- <-]. cbn. split; [by rewrite lookup_delete_eq|].
  intros u q Hne. rewrite lookup_delete_ne; [done|]. destruct t, u, p, q. cbn. intros [= -> ->]. tauto.
Qed.
Next Obligation.
  intros s t p st' e. unfold ex_at. cbn. destruct (cells s !! _) as [x|] eqn:Ec; [done|]. intros [= <- <-]. split; [done|]. intros m _. apply (f_equal (fmap (fun x : bytes * N => x))) in Ec. by destruct (cells s !! _) as [x|].
Qed.

#[local] Instance ex_chunk_index : ChunkIndex unit := {| index_delete_path := fun ix _ _ _ => (ix, Ok tt) |}.
Definition ex_subtree : RetentionSubtree := {| prefix := ex_self; ttl := 10 |}.
Definition ex_file (n : string) : MemoryPath := MkMemoryPath ("/var/memory/self/" ++ lit n).
Definition ex_put (n : string) (text : string) (s : ExStore) : ExStore := fst (store_put s ex_tenant (ex_file n) (lit text)).
Definition ex_sweep : @Sweep ExStore unit :=
  {| swept_store := ex_put "b" "old" (ex_put "a" "old" ex_with_secret); swept_index := tt; stats := no_stats |}.

Lemma sweep_reaps_expired_witness :
  let res := sweep_subtree (fun st : ExStore => st) ex_tenant ex_subtree 1 20 ex_sweep in
  stats (fst res) = {| paths_deleted := 2; batches := 2; subtrees_scanned := 0; index_failures := 0 |} /\
  forall q e, store_at (swept_store (fst res)) ex_tenant q = Some e -> starts_with_prefix q ex_self = true -> is_expired 20 10 e = false.
Proof.
  intros res. split; [reflexivity|].
  exact (proj2 (sweep_reaps_expired ex_tenant ex_subtree 1 20 ex_sweep (fst res) (snd res) (le_n 1) eq_refl) eq_refl).
Defined.

(** What is written to an expired path while the sweep is between two batches is deleted with it: the version the
    path had when it was found expired is not looked at. *)
Definition ex_writer (st : ExStore) : ExStore :=
  match cells st !! (lit "acme", mp_str (ex_file "b")) with
  | Some (text, _) => if str_eqb text "old" then ex_put "b" "new" st else st
  | None => st
  end.
Example write_during_sweep_is_lost :
  let after_sweep n := swept_store (fst (sweep_subtree ex_writer ex_tenant ex_subtree n 20 ex_sweep)) in
  store_get (ex_writer (swept_store ex_sweep)) ex_tenant (ex_file "b") = Ok (lit "new", 3%N) /\
  store_get (after_sweep 1%nat) ex_tenant (ex_file "b") = Err (MemoryNotFound (mp_str (ex_file "b"))).
Proof. split; reflexivity. Qed.
