(* ===== verification/Workflow.v ===== *)
(** * Workflows: the runtime

    Models [crates/simulacra-workflow/src/runtime.rs], the events of [types.rs] and [tool.rs]: starting a
    run, the [agent()] calls its script makes, cancellation, the end of a run and resuming from an earlier
    one.  A script runs in an asynchronous JavaScript engine: which calls it makes and when is open, so a
    run is a step relation whose steps are the stretches of the host code between two suspensions, in any
    interleaving, with a worker that answers a call when and how it likes and other users of the
    filesystem in between.  The engine, the JSON of [serde] and fresh ids are parameters; locks are not
    poisoned. *)

From S2P Require Import Prelude.
From S2P Require Import Text.
From S2P Require Import Vfs.
From S2P Require Import Json.
From S2P Require Import WorkflowStore.
From S2P Require MemoryFs.

(** ** Events *)

Variant WorkflowEvent :=
| RunStarted (run_id script_path name : str)
| Progress (run_id message : str)
| PhaseStarted (run_id name : str)
| PhaseCompleted (run_id name : str)
| AgentCallStarted (run_id key : str) (agent task : option str)
| AgentCallCompleted (run_id key : str) (cached is_error : bool)
| RunCompleted (run_id : str)
| RunFailed (run_id error : str)
| RunCancelled (run_id : str).

Section Workflow.
Context {Value F : Type} `{JsonOps Value} `{RunCodec Value} `{VirtualFs F}.
Abbreviation AgentResult := (WorkflowAgentResult Value).
Abbreviation Run := (WorkflowRun Value).

Definition json_event (event : str) (run_id : str) (seq : N) (more : list (str * Value)) : Value :=
  json_object (["event" ↦ json_string event; "run_id" ↦ json_string run_id; "seq" ↦ json_number seq] ++ more).
Definition running : list (str * Value) := ["status" ↦ json_string (lit "running")].
Definition opt_string (key : str) (v : option str) : list (str * Value) :=
  match v with Some v => [(key, json_string v)] | None => [] end.

Definition to_sse_json (e : WorkflowEvent) (seq : N) : Value :=
  match e with
  | RunStarted run_id script_path name =>
      json_event "workflow.started" run_id seq (["script_path" ↦ json_string script_path; "name" ↦ json_string name] ++ running)
  | Progress run_id message => json_event "workflow.progress" run_id seq (["message" ↦ json_string message] ++ running)
  | PhaseStarted run_id name => json_event "workflow.phase_start" run_id seq (["phase" ↦ json_string name] ++ running)
  | PhaseCompleted run_id name => json_event "workflow.phase_finish" run_id seq (["phase" ↦ json_string name] ++ running)
  | AgentCallStarted run_id key agent task =>
      json_event "workflow.agent_start" run_id seq
        (["agent_label" ↦ json_string key] ++ running ++ opt_string (lit "agent_type") agent ++ opt_string (lit "task") task)
  | AgentCallCompleted run_id key cached is_error =>
      json_event "workflow.agent_finish" run_id seq
        ["agent_label" ↦ json_string key; "cached" ↦ json_bool cached; "is_error" ↦ json_bool is_error;
         "status" ↦ json_string (if is_error then lit "failed" else lit "running")]
  | RunCompleted run_id => json_event "workflow.completed" run_id seq ["status" ↦ json_string (lit "completed")]
  | RunFailed run_id error =>
      json_event "workflow.failed" run_id seq ["status" ↦ json_string (lit "failed"); "error" ↦ json_string error]
  | RunCancelled run_id => json_event "workflow.cancelled" run_id seq ["status" ↦ json_string (lit "cancelled")]
  end.

(** ** A running script *)

(** The [phase] of a call is never set. *)
Record WorkflowAgentCall := {
  call_key : str;
  call_index : nat;
  call_agent : option str;
  call_task : option str;
  call_input : Value;
  call_arguments : Value;
}.

(** A call waits for a permit of the semaphore, then for its worker. *)
Variant InFlight := Queued (call : WorkflowAgentCall) | Working (call : WorkflowAgentCall).

(** [ExecutionContext] with what [execute_workflow] makes from it and the [JsWorkflowHost] shares; [outcome]
    is what it returned, once it has. *)
Record Execution := {
  exec_run_id : str;
  exec_script_path : str;
  exec_meta : WorkflowScriptMeta;
  concurrency_limit : nat;
  cached : gmap str AgentResult;
  events : list WorkflowEvent;
  is_cancelled : bool;
  results : list (nat * AgentResult);
  next_index : nat;
  in_flight : gmap nat InFlight;
  outcome : option (result Run WorkflowError);
}.

Definition set_events (x : Execution) (v : list WorkflowEvent) : Execution :=
  {| exec_run_id := exec_run_id x; exec_script_path := exec_script_path x; exec_meta := exec_meta x;
     concurrency_limit := concurrency_limit x; cached := cached x; events := v; is_cancelled := is_cancelled x;
     results := results x; next_index := next_index x; in_flight := in_flight x; outcome := outcome x |}.
Definition set_cancelled (x : Execution) : Execution :=
  {| exec_run_id := exec_run_id x; exec_script_path := exec_script_path x; exec_meta := exec_meta x;
     concurrency_limit := concurrency_limit x; cached := cached x; events := events x; is_cancelled := true;
     results := results x; next_index := next_index x; in_flight := in_flight x; outcome := outcome x |}.
Definition set_calls (x : Execution) (r : list (nat * AgentResult)) (n : nat) (f : gmap nat InFlight) : Execution :=
  {| exec_run_id := exec_run_id x; exec_script_path := exec_script_path x; exec_meta := exec_meta x;
     concurrency_limit := concurrency_limit x; cached := cached x; events := events x; is_cancelled := is_cancelled x;
     results := r; next_index := n; in_flight := f; outcome := outcome x |}.
Definition set_outcome (x : Execution) (o : result Run WorkflowError) : Execution :=
  {| exec_run_id := exec_run_id x; exec_script_path := exec_script_path x; exec_meta := exec_meta x;
     concurrency_limit := concurrency_limit x; cached := cached x; events := events x; is_cancelled := is_cancelled x;
     results := results x; next_index := next_index x; in_flight := in_flight x; outcome := Some o |}.

Definition push_event (e : WorkflowEvent) (x : Execution) : Execution := set_events x (events x ++ [e]).
Definition push_result (index : nat) (r : AgentResult) (x : Execution) : Execution :=
  set_calls x (results x ++ [(index, r)]) (next_index x) (in_flight x).
Definition set_in_flight (x : Execution) (f : gmap nat InFlight) : Execution := set_calls x (results x) (next_index x) f.

(** *** [agent()] *)

Definition first_str (a b : str) (arguments : Value) : option str :=
  option_or (value_get a arguments) (value_get b arguments) ≫= as_str.

Definition call_label (arguments : Value) (index : nat) : str :=
  match first_str (lit "label") (lit "key") arguments with
  | Some s => if str_eqb s [] then "agent-" ++ dec (N.of_nat index) else s
  | None => "agent-" ++ dec (N.of_nat index)
  end.

Definition agent_call_of (arguments : Value) (index : nat) : WorkflowAgentCall :=
  {| call_key := call_label arguments index; call_index := index;
     call_agent := first_str (lit "agent") (lit "agent_type") arguments;
     call_task := first_str (lit "task") (lit "prompt") arguments;
     call_input := unwrap_or (value_get (lit "input") arguments) json_null;
     call_arguments := unwrap_or (value_get (lit "arguments") arguments) json_null |}.

(** [host_agent_call_inner] up to its first suspension: an error, an answer from the cache, or a call that
    now waits ([None]). *)
Definition enter_call (call_json : str) (x : Execution) : Execution * result (option AgentResult) WorkflowError :=
  if is_cancelled x then (x, Err WorkflowCancelled)
  else
    let index := next_index x in
    let x := set_calls x (results x) (S index) (in_flight x) in
    match json_from_str call_json with
    | None => (x, Err (InvalidScript ("agent() argument is not JSON: " ++ json_error call_json)))
    | Some arguments =>
        let call := agent_call_of arguments index in
        let key := call_key call in
        match cached x !! key with
        | Some r =>
            (push_result index r (push_event (AgentCallCompleted (exec_run_id x) key true (result_is_error r)) x), Ok (Some r))
        | None =>
            let x := push_event (AgentCallStarted (exec_run_id x) key (call_agent call) (call_task call)) x in
            (set_in_flight x (<[index := Queued call]> (in_flight x)), Ok None)
        end
    end.

(** The worker answered: the permit is given back, the result saved and recorded. *)
Definition finish_call (call : WorkflowAgentCall) (r : AgentResult) (fs : F) (x : Execution)
    : F * Execution * result AgentResult WorkflowError :=
  let x := set_in_flight x (delete (call_index call) (in_flight x)) in
  match save_agent_result fs (exec_run_id x) r with
  | (fs, Err e) => (fs, x, Err e)
  | (fs, Ok _) =>
      (fs, push_result (call_index call) r
             (push_event (AgentCallCompleted (exec_run_id x) (call_key call) false (result_is_error r)) x), Ok r)
  end.

(** What the script is told ([host_agent_call]). *)
Definition call_reply (r : result AgentResult WorkflowError) : AgentResult :=
  match r with
  | Ok r => r
  | Err e => {| result_key := "workflow-error"; output := json_null; result_is_error := true;
                result_error := Some (workflow_error_to_string e) |}
  end.

(** *** The end of a run *)

(** [sort_by_key(|(idx, _)| *idx)]. *)
Fixpoint insert_by_index (x : nat * AgentResult) (l : list (nat * AgentResult)) : list (nat * AgentResult) :=
  match l with
  | [] => [x]
  | y :: l' => if (fst x <=? fst y)%nat then x :: l else y :: insert_by_index x l'
  end.
Definition sort_by_index (l : list (nat * AgentResult)) : list (nat * AgentResult) := fold_right insert_by_index [] l.

Definition workers_failed : str := "one or more workflow workers failed".

(** [execute_workflow] from when the script has ended. *)
Definition finish_run (eval_result : result str WorkflowError) (fs : F) (x : Execution) : F * Execution :=
  let run_results := List.map snd (sort_by_index (results x)) in
  let run status error : Run :=
    {| run_id := exec_run_id x; run_script_path := exec_script_path x; run_meta := exec_meta x; run_status := status;
       run_results := run_results; run_error := error |} in
  let '(r, event, terminal) :=
    if is_cancelled x then (run Cancelled None, RunCancelled (exec_run_id x), None)
    else match eval_result with
    | Err err => (run Failed (Some (workflow_error_to_string err)), RunFailed (exec_run_id x) (workflow_error_to_string err), Some err)
    | Ok _ =>
        if existsb result_is_error run_results
        then (run Failed (Some workers_failed), RunFailed (exec_run_id x) workers_failed, None)
        else (run Completed None, RunCompleted (exec_run_id x), None)
    end in
  let x := push_event event x in
  match save_run fs r with
  | (fs, Err e) => (fs, set_outcome x (Err e))
  | (fs, Ok _) => (fs, set_outcome x (match terminal with Some err => Err err | None => Ok r end))
  end.

(** *** Resuming *)

Definition resume_entry (fs : F) (source_run_id : str) (cache : gmap str AgentResult) (r : AgentResult) : gmap str AgentResult :=
  if result_is_error r then cache
  else match read_agent_result fs source_run_id (result_key r) with
  | Ok saved => <[result_key saved := saved]> cache
  | Err _ => cache
  end.

Definition load_resume_cache (fs : F) (resume_from : option str) : gmap str AgentResult :=
  match resume_from with
  | None => ∅
  | Some source_run_id =>
      match read_run fs source_run_id with
      | Err _ => ∅
      | Ok previous => fold_left (resume_entry fs source_run_id) (run_results previous) ∅
      end
  end.

(** ** The runtime *)

Record WorkflowRunOptions := {
  opt_run_id : option str;
  opt_script : option str;
  opt_name : option str;
  opt_script_path : option str;
  opt_args : Value;
  opt_resume_from : option str;
  opt_concurrency_limit : nat;
}.

(** [runs] holds the control of a run: the events and the token it shares with an execution. *)
Record WorkflowRuntime := { rt_fs : F; runs : gmap str nat; executions : list Execution }.

Definition resolve_script (fs : F) (run_id : str) (options : WorkflowRunOptions) : F * result (str * str) WorkflowError :=
  match opt_script_path options with
  | Some path => (fs, let? _ := validate_script_path path in let? source := read_script fs path in Ok (path, source))
  | None =>
      match opt_name options with
      | Some name => (fs, let? path := script_path_for_name name in let? source := read_script fs path in Ok (path, source))
      | None =>
          match opt_script options with
          | Some script => let '(fs, r) := persist_inline_script fs run_id script in (fs, let? path := r in Ok (path, script))
          | None => (fs, Err (InvalidScript "must provide script, name, or script_path"))
          end
      end
  end.

(** What a script exports as [meta], as JSON text, and how [serde] reads it. *)
Context (eval_meta : str -> result str WorkflowError) (meta_of_value : Value -> result WorkflowScriptMeta str).

Definition evaluate_metadata (source : str) : result WorkflowScriptMeta WorkflowError :=
  let? text := eval_meta source in
  match json_from_str text with
  | None => Err (Serde (json_error text))
  | Some value =>
      if is_null value then Err (InvalidMetadata "workflow meta must be exported as a non-empty object")
      else
        let? meta := map_err (fun e => InvalidMetadata ("workflow meta is invalid: " ++ e)) (meta_of_value value) in
        if str_eqb (trim (meta_name meta)) [] || str_eqb (trim (meta_description meta)) []
        then Err (InvalidMetadata "workflow meta name and description must be non-empty")
        else Ok meta
  end.

Definition set_fs (s : WorkflowRuntime) (fs : F) : WorkflowRuntime := {| rt_fs := fs; runs := runs s; executions := executions s |}.

(** [start]; the cache is loaded when the execution is first polled, which [yield_now] lets happen. *)
Definition start (fresh_id : str) (options : WorkflowRunOptions) (s : WorkflowRuntime) : WorkflowRuntime * result str WorkflowError :=
  let run_id := unwrap_or (opt_run_id options) fresh_id in
  match resolve_script (rt_fs s) run_id options with
  | (fs, Err e) => (set_fs s fs, Err e)
  | (fs, Ok (script_path, source)) =>
      match evaluate_metadata source with
      | Err e => (set_fs s fs, Err e)
      | Ok meta =>
          let run := set_status (run_pending run_id {| script_path_of := script_path; script_source := source; script_meta := meta |}) Running in
          match save_run fs run with
          | (fs, Err e) => (set_fs s fs, Err e)
          | (fs, Ok _) =>
              let x := {| exec_run_id := run_id; exec_script_path := script_path; exec_meta := meta;
                          concurrency_limit := Nat.max (opt_concurrency_limit options) 1;
                          cached := load_resume_cache fs (opt_resume_from options);
                          events := [RunStarted run_id script_path (meta_name meta)]; is_cancelled := false; results := [];
                          next_index := 0; in_flight := ∅; outcome := None |} in
              ({| rt_fs := fs; runs := <[run_id := length (executions s)]> (runs s); executions := executions s ++ [x] |}, Ok run_id)
          end
      end
  end.

Definition control (run_id : str) (s : WorkflowRuntime) : option Execution := runs s !! run_id ≫= fun i => executions s !! i.

Definition cancel (run_id : str) (s : WorkflowRuntime) : WorkflowRuntime * result unit WorkflowError :=
  match runs s !! run_id with
  | None => (s, Err (RunNotFound run_id))
  | Some i => ({| rt_fs := rt_fs s; runs := runs s; executions := alter set_cancelled i (executions s) |}, Ok tt)
  end.

Definition run_events (run_id : str) (s : WorkflowRuntime) : result (list WorkflowEvent) WorkflowError :=
  match control run_id s with None => Err (RunNotFound run_id) | Some x => Ok (events x) end.

(** *** The tool ([tool.rs]) *)

(** Errors are the texts of [ToolError::InvalidArguments]. *)
Definition optional_string (object : list (str * Value)) (field : str) : result (option str) str :=
  match map_get field object with
  | None => Ok None
  | Some v =>
      if is_null v then Ok None
      else match as_str v with
      | Some value => if str_eqb (trim value) [] then Ok None else Ok (Some value)
      | None => Err ("Workflow field `" ++ field ++ "` must be a string")
      end
  end.

Definition parse_tool_options (arguments : Value) : result WorkflowRunOptions str :=
  match as_object arguments with
  | None => Err (lit "Workflow input must be an object")
  | Some object =>
      let? script := optional_string object (lit "script") in
      let? name := optional_string object (lit "name") in
      let? script_path := optional_string object (lit "script_path") in
      if bool_decide (script = None) && bool_decide (name = None) && bool_decide (script_path = None)
      then Err (lit "Workflow requires script, name, or script_path")
      else
        let? run_id := optional_string object (lit "run_id") in
        let? resume_from := optional_string object (lit "resume_from_run_id") in
        Ok {| opt_run_id := run_id; opt_script := script; opt_name := name; opt_script_path := script_path;
              opt_args := unwrap_or (map_get (lit "args") object) (json_object []); opt_resume_from := resume_from;
              opt_concurrency_limit := match map_get (lit "concurrency_limit") object ≫= as_u64 with
                                       | Some n => N.to_nat n
                                       | None => 16%nat
                                       end |}
  end.

(** *** The steps of an execution *)

Definition is_working (c : InFlight) : bool := match c with Working _ => true | Queued _ => false end.
Definition permits_used (x : Execution) : nat := base.size (filter (fun ic => is_working (snd ic) = true) (in_flight x)).

(** What the script may report. *)
Definition reported (x : Execution) (e : WorkflowEvent) : Prop :=
  (exists m, e = Progress (exec_run_id x) m) \/ (exists n, e = PhaseStarted (exec_run_id x) n) \/ (exists n, e = PhaseCompleted (exec_run_id x) n).

Inductive exec_step : F * Execution -> F * Execution -> Prop :=
| step_enter fs x call_json : exec_step (fs, x) (fs, fst (enter_call call_json x))
| step_report fs x e : reported x e -> exec_step (fs, x) (fs, push_event e x)
| step_permit fs x i call :
    in_flight x !! i = Some (Queued call) -> (permits_used x < concurrency_limit x)%nat ->
    exec_step (fs, x) (fs, set_in_flight x (<[i := Working call]> (in_flight x)))
| step_answered fs x i call r :
    in_flight x !! i = Some (Working call) -> exec_step (fs, x) (fst (finish_call call r fs x))
| step_worker_failed fs x i call :
    in_flight x !! i = Some (Working call) -> exec_step (fs, x) (fs, set_in_flight x (delete i (in_flight x)))
| step_call_cancelled fs x i call :
    is_cancelled x = true -> in_flight x !! i = Some call -> exec_step (fs, x) (fs, set_in_flight x (delete i (in_flight x)))
| step_script_ended fs x eval_result : exec_step (fs, x) (finish_run eval_result fs x).

Inductive rt_step : WorkflowRuntime -> WorkflowRuntime -> Prop :=
| step_start s fresh_id options : rt_step s (fst (start fresh_id options s))
| step_cancel s run_id : rt_step s (fst (cancel run_id s))
| step_execution s i x fs x' :
    executions s !! i = Some x -> outcome x = None -> exec_step (rt_fs s, x) (fs, x') ->
    rt_step s {| rt_fs := fs; runs := runs s; executions := <[i := x']> (executions s) |}
| step_others s fs : rt_step s (set_fs s fs).

(** ** Invariants of a run *)

Definition call_in (c : InFlight) : WorkflowAgentCall := match c with Queued call | Working call => call end.
Definition is_completed (e : WorkflowEvent) : bool := match e with AgentCallCompleted _ _ _ _ => true | _ => false end.
Definition is_terminal (e : WorkflowEvent) : bool :=
  match e with RunCompleted _ | RunFailed _ _ | RunCancelled _ => true | _ => false end.

Definition event_status (e : WorkflowEvent) : option WorkflowStatus :=
  match e with RunCompleted _ => Some Completed | RunFailed _ _ => Some Failed | RunCancelled _ => Some Cancelled | _ => None end.

Record exec_ok (x : Execution) : Prop := {
  ok_permits : (permits_used x <= concurrency_limit x)%nat;
  ok_calls : forall i c, in_flight x !! i = Some c ->
    (i < next_index x)%nat /\ call_index (call_in c) = i /\ i ∉ List.map fst (results x);
  ok_results : NoDup (List.map fst (results x));
  ok_indices : Forall (fun i => i < next_index x)%nat (List.map fst (results x));
  ok_completed : length (List.filter is_completed (events x)) = length (results x);
  ok_started : exists more, events x = RunStarted (exec_run_id x) (exec_script_path x) (meta_name (exec_meta x)) :: more;
  ok_terminal :
    match outcome x with
    | None => List.filter is_terminal (events x) = []
    | Some o => exists more e, events x = more ++ [e] /\ is_terminal e = true /\ List.filter is_terminal more = [] /\
        forall r, o = Ok r -> event_status e = Some (run_status r)
    end;
}.

(** Until a run has ended it has no terminal event. *)
Record exec_live (x : Execution) : Prop := {
  live_ok : exec_ok x;
  live_outcome : outcome x = None;
  live_events : List.filter is_terminal (events x) = [];
}.

(** *** Permits *)

Definition working_of (f : gmap nat InFlight) : nat := base.size (filter (fun ic => is_working (snd ic) = true) f).

Lemma working_delete f i : (working_of (delete i f) <= working_of f)%nat.
Proof. unfold working_of. rewrite map_filter_delete, map_size_delete. destruct (_ !! i); unfold id; lia. Qed.

Lemma working_queue f i call : (working_of (<[i := Queued call]> f) <= working_of f)%nat.
Proof.
  unfold working_of at 1. rewrite map_filter_insert, decide_False by done. apply (working_delete f i).
Qed.

Lemma working_permit f i call : (working_of (<[i := Working call]> f) <= S (working_of f))%nat.
Proof. unfold working_of. rewrite map_filter_insert, decide_True, map_size_insert by done. destruct (_ !! i); unfold id; lia. Qed.

(** *** Events *)

Lemma filter_snoc {A} (p : A -> bool) l x : List.filter p (l ++ [x]) = List.filter p l ++ (if p x then [x] else []).
Proof. by rewrite List.filter_app. Qed.

(** An event that ends nothing and completes no call. *)
Lemma live_event x e : exec_live x -> is_terminal e = false -> is_completed e = false -> exec_live (push_event e x).
Proof.
  intros [[Hp Hc Hr Hi Hn (more & Hs) Ht] Ho He] He1 He2. split; [|done|].
  - split; try done; cbn [events push_event set_events].
    + by rewrite filter_snoc, He2, app_nil_r.
    + exists (more ++ [e]). by rewrite Hs.
    + cbn. rewrite Ho, filter_snoc, He1, app_nil_r. done.
  - cbn. by rewrite filter_snoc, He1, app_nil_r.
Qed.

(** A result with its event. *)
Lemma live_result x i r id key c : exec_live x -> (i < next_index x)%nat -> i ∉ List.map fst (results x) -> in_flight x !! i = None ->
  exec_live (push_result i r (push_event (AgentCallCompleted id key c (result_is_error r)) x)).
Proof.
  intros [[Hp Hc Hr Hi Hn (more & Hs) Ht] Ho He] Hlt Hin Hf. split; [|done|].
  - split; cbn [events push_event set_events push_result set_calls results next_index in_flight outcome]; try done.
    + intros j cj Hj. destruct (Hc j cj Hj) as (Hc1 & Hc2 & Hc3). split_and!; [done|done|]. rewrite List.map_app. cbn.
      rewrite not_elem_of_app, list_elem_of_singleton. split; [done|]. intros ->. by rewrite Hf in Hj.
    + rewrite List.map_app. apply NoDup_app. split_and!; [done| |apply NoDup_singleton]. by intros j Hj ->%list_elem_of_singleton.
    + rewrite List.map_app. apply Forall_app. split; [done|by constructor].
    + rewrite filter_snoc, !length_app, Hn. done.
    + eexists. by rewrite Hs.
    + cbn. rewrite Ho, filter_snoc, app_nil_r. done.
  - cbn. by rewrite filter_snoc, app_nil_r.
Qed.

Lemma live_calls x f : exec_live x -> (working_of f <= concurrency_limit x)%nat ->
  (forall i c, f !! i = Some c -> (i < next_index x)%nat /\ call_index (call_in c) = i /\ i ∉ List.map fst (results x)) ->
  exec_live (set_in_flight x f).
Proof. by intros [[Hp Hc Hr Hi Hn Hs Ht] Ho He] Hw Hf. Qed.

Lemma live_delete x i : exec_live x -> exec_live (set_in_flight x (delete i (in_flight x))).
Proof.
  intros Hl. pose proof (ok_permits _ (live_ok _ Hl)) as Hp. apply live_calls; [done|etrans; [apply working_delete|done]|].
  intros j c [_ Hj]%lookup_delete_Some. by apply (ok_calls _ (live_ok _ Hl)).
Qed.

Lemma live_next x : exec_live x -> exec_live (set_calls x (results x) (S (next_index x)) (in_flight x)).
Proof.
  intros [[Hp Hc Hr Hi Hn Hs Ht] Ho He]. split; [|done|done]. split; cbn; try done.
  - intros i c Hic. destruct (Hc i c Hic) as (Hc1 & Hc2 & Hc3). split_and!; [lia|done|done].
  - eapply Forall_impl; [exact Hi|]. cbn. lia.
Qed.

Lemma live_fresh x : exec_live x -> in_flight x !! next_index x = None /\ next_index x ∉ List.map fst (results x).
Proof.
  intros [[Hp Hc Hr Hi Hn Hs Ht] Ho He]. split.
  - destruct (in_flight x !! next_index x) eqn:E; [|done]. apply Hc in E as [? _]. lia.
  - intros Hin. rewrite Forall_forall in Hi. apply Hi in Hin. lia.
Qed.

Lemma live_enter call_json x : exec_live x -> exec_live (fst (enter_call call_json x)).
Proof.
  intros Hl. unfold enter_call. destruct (is_cancelled x); [done|]. pose proof (live_next x Hl) as Hn.
  destruct (live_fresh x Hl) as [Hf Hr]. destruct (json_from_str call_json) as [arguments|]; [|done]. cbn [cached set_calls].
  destruct (cached x !! _) as [r|]; cbn [fst].
  - apply live_result; [done|cbn; lia|done|done].
  - set (x1 := set_calls x _ _ _) in *. pose proof (live_event x1 (AgentCallStarted (exec_run_id x) (call_key (agent_call_of arguments (next_index x)))
      (call_agent (agent_call_of arguments (next_index x))) (call_task (agent_call_of arguments (next_index x)))) Hn eq_refl eq_refl) as He.
    apply (live_calls _ _ He).
    + etrans; [apply working_queue|]. apply (ok_permits _ (live_ok _ He)).
    + intros i c [[<- <-]|[_ Hi]]%lookup_insert_Some; [cbn; split_and!; [lia|done|done]|]. by apply (ok_calls _ (live_ok _ He)).
Qed.

Lemma live_finish_call x i call r fs : exec_live x -> in_flight x !! i = Some (Working call) -> exec_live (snd (fst (finish_call call r fs x))).
Proof.
  intros Hl Hi. destruct (ok_calls _ (live_ok _ Hl) _ _ Hi) as (Hlt & Hci & Hr). cbn in Hci. unfold finish_call.
  pose proof (live_delete x (call_index call) Hl) as Hd. destruct (save_agent_result _ _ _) as [fs' [[]|e]]; [|done]. cbn [fst snd].
  apply live_result; [done|by rewrite Hci|by rewrite Hci|]. cbn. apply lookup_delete_eq.
Qed.

Lemma live_cancel x : exec_live x -> exec_live (set_cancelled x).
Proof. by intros [[Hp Hc Hr Hi Hn Hs Ht] Ho He]. Qed.

Lemma finish_run_ok eval_result fs x : exec_live x -> exec_ok (snd (finish_run eval_result fs x)).
Proof.
  intros [[Hp Hc Hr Hi Hn (more & Hs) Ht] Ho He]. unfold finish_run. cbv zeta.
  destruct (if is_cancelled x then _ else _) as [[r event] terminal] eqn:Ee.
  assert (is_terminal event = true /\ is_completed event = false) as [He1 He2].
  { destruct (is_cancelled x); [by injection Ee as _ <- _|]. destruct eval_result; [|by injection Ee as _ <- _].
    destruct (existsb _ _); by injection Ee as _ <- _. }
  assert (event_status event = Some (run_status r)) as He3.
  { destruct (is_cancelled x); [by injection Ee as <- <- _|]. destruct eval_result; [|by injection Ee as <- <- _].
    destruct (existsb _ _); by injection Ee as <- <- _. }
  assert (forall o, (forall r', o = Ok r' -> r' = r) -> exec_ok (set_outcome (push_event event x) o)) as Hok.
  { intros o Hr'. split; cbn; try done.
    - by rewrite filter_snoc, He2, app_nil_r.
    - exists (more ++ [event]). by rewrite Hs.
    - exists (events x), event. split_and!; [done..|]. by intros r' ->%Hr'. }
  destruct (save_run fs r) as [fs' [[]|e]]; apply Hok; [|done]. destruct terminal; [done|]. by intros r' [= ->].
Qed.

Lemma exec_step_ok p q : exec_step p q -> exec_live (snd p) ->
  exec_live (snd q) \/ (outcome (snd q) <> None /\ exec_ok (snd q)).
Proof.
  intros [fs x j|fs x e He|fs x i call Hi Hp|fs x i call r Hi|fs x i call Hi|fs x i call Hc Hi|fs x er] Hl; cbn [snd] in *.
  - left. by apply live_enter.
  - left. destruct He as [[? ->]|[[? ->]|[? ->]]]; by apply live_event.
  - left. apply live_calls; [done|etrans; [apply working_permit|exact Hp]|].
    intros j c [[<- <-]|[_ Hj]]%lookup_insert_Some; [exact (ok_calls _ (live_ok _ Hl) _ _ Hi)|by apply (ok_calls _ (live_ok _ Hl))].
  - left. by eapply live_finish_call.
  - left. by apply live_delete.
  - left. by apply live_delete.
  - right. split; [|by apply finish_run_ok]. unfold finish_run. cbv zeta.
    destruct (if is_cancelled x then _ else _) as [[r event] terminal]. by destruct (save_run fs r) as [fs' [[]|e]].
Qed.

(** *** Of the runtime *)

Definition execution_ok (x : Execution) : Prop := exec_ok x /\ (outcome x = None -> exec_live x).

Lemma start_ok fresh_id options s : Forall execution_ok (executions s) -> Forall execution_ok (executions (fst (start fresh_id options s))).
Proof.
  intros Hs. unfold start. destruct (resolve_script _ _ _) as [fs [[path source]|e]]; [|done].
  destruct (evaluate_metadata source) as [meta|e]; [|done]. destruct (save_run fs _) as [fs' [[]|e]]; [|done]. cbn [fst executions].
  apply Forall_app. split; [done|]. constructor; [|constructor].
  match goal with |- execution_ok ?x => assert (exec_live x) as Hl end; [|by split; [apply live_ok|]].
  split; [|done|done]. split; cbn; try done.
  - unfold permits_used. cbn. rewrite map_filter_empty, map_size_empty. lia.
  - constructor.
  - by eexists.
Qed.

Definition rt_ok (s : WorkflowRuntime) : Prop :=
  Forall execution_ok (executions s) /\ forall id i, runs s !! id = Some i -> (i < length (executions s))%nat.

Lemma rt_step_ok s s' : rt_step s s' -> rt_ok s -> rt_ok s'.
Proof.
  intros [s0 fresh options|s0 id|s0 i x fs x' Hi Ho Hx|s0 fs] [Hs Hr].
  - split; [by apply start_ok|]. unfold start. destruct (resolve_script _ _ _) as [fs [[path source]|e]]; [|done].
    destruct (evaluate_metadata source) as [meta|e]; [|done]. destruct (save_run fs _) as [fs' [[]|e]]; [|done]. cbn [fst runs executions].
    intros id i Hl. rewrite length_app. cbn. apply lookup_insert_Some in Hl as [[_ <-]|[_ Hl]]; [lia|]. apply Hr in Hl. lia.
  - unfold cancel. destruct (runs s0 !! id) as [i|]; [|done]. split; cbn; [|intros id' j; rewrite length_alter; apply Hr].
    apply Forall_alter; [done|]. intros x _ [Hx Hl]. split; [by destruct Hx|]. intros Ho. by apply live_cancel, Hl.
  - split; cbn; [|intros id' j; rewrite length_insert; apply Hr]. apply Forall_insert; [done|].
    rewrite Forall_lookup in Hs. destruct (Hs i x Hi) as [_ Hl]. apply exec_step_ok in Hx; [|by apply Hl]. cbn in Hx.
    destruct Hx as [Hx|[Hn Hx]]; (split; [done || by apply live_ok|done]).
  - done.
Qed.


(** *** How a run ends *)

Lemma insert_by_index_perm x l : insert_by_index x l ≡ₚ x :: l.
Proof.
  induction l as [|y l IH]; cbn; [done|]. destruct (_ <=? _)%nat; [done|]. rewrite IH. apply Permutation_swap.
Qed.
Lemma sort_by_index_perm l : sort_by_index l ≡ₚ l.
Proof. induction l as [|x l IH]; cbn; [done|]. by rewrite insert_by_index_perm, IH. Qed.

Definition index_lt (a b : nat * AgentResult) : Prop := (fst a < fst b)%nat.

Lemma insert_by_index_sorted x l : fst x ∉ List.map fst l -> StronglySorted index_lt l -> StronglySorted index_lt (insert_by_index x l).
Proof.
  intros Hx. induction 1 as [|y l Hl IH Hy]; cbn [insert_by_index]; [repeat constructor|].
  apply not_elem_of_cons in Hx as [Hxy Hx]. destruct (Nat.leb_spec (fst x) (fst y)).
  - constructor; [by constructor|]. assert (index_lt x y) as Hlt by (unfold index_lt; lia). constructor; [done|].
    eapply Forall_impl; [exact Hy|]. unfold index_lt in *. intros z ?. lia.
  - constructor; [by apply IH|]. rewrite insert_by_index_perm. constructor; [done|exact Hy].
Qed.

Lemma sort_by_index_sorted l : NoDup (List.map fst l) -> StronglySorted index_lt (sort_by_index l).
Proof.
  induction l as [|x l IH]; cbn; [constructor|]. intros [Hx Hl]%NoDup_cons. apply insert_by_index_sorted; [|by apply IH].
  by rewrite sort_by_index_perm.
Qed.

(** What a run says of itself, from what happened. *)
Definition expected_status (cancelled : bool) (eval_result : result str WorkflowError) (rs : list AgentResult) : WorkflowStatus :=
  if cancelled then Cancelled
  else match eval_result with Err _ => Failed | Ok _ => if existsb result_is_error rs then Failed else Completed end.

(** A run ends the way it went.  The results it saves and returns are those of its calls in the order
    the script made them, whatever the order the workers answered in; it is cancelled when it was cancelled,
    failed when its script failed or a result is an error, completed otherwise; and its last event says the
    same.  A script that fails an uncancelled run, or a state file that cannot be written, is an error. *)
Theorem run_ends_as_it_went eval_result fs x :
  exec_live x ->
  exists sorted event r, sorted ≡ₚ results x /\ StronglySorted index_lt sorted /\
    let '(fs', x') := finish_run eval_result fs x in
    run_results r = List.map snd sorted /\
    run_status r = expected_status (is_cancelled x) eval_result (List.map snd (results x)) /\
    events x' = events x ++ [event] /\ event_status event = Some (run_status r) /\
    fs' = fst (save_run fs r) /\
    outcome x' = Some (match snd (save_run fs r) with
                       | Err e => Err e
                       | Ok _ => match eval_result with
                                 | Err e => if is_cancelled x then Ok r else Err e
                                 | Ok _ => Ok r
                                 end
                       end).
Proof.
  intros [[Hp Hc Hr Hi Hn Hs Ht] Ho He]. exists (sort_by_index (results x)).
  assert (existsb result_is_error (List.map snd (sort_by_index (results x))) = existsb result_is_error (List.map snd (results x))) as Hex.
  { apply eq_true_iff_eq. rewrite !existsb_exists. setoid_rewrite <- list_elem_of_In. by setoid_rewrite (sort_by_index_perm (results x)). }
  unfold finish_run, expected_status. cbv zeta. rewrite Hex.
  set (rs := List.map snd (sort_by_index (results x))) in *. set (mk := fun status error => {| run_id := exec_run_id x;
    run_script_path := exec_script_path x; run_meta := exec_meta x; run_status := status; run_results := rs; run_error := error |}).
  destruct (is_cancelled x); [|destruct eval_result as [v|err]; [destruct (existsb result_is_error (List.map snd (results x)))|]].
  1: exists (RunCancelled (exec_run_id x)), (mk Cancelled None).
  2: exists (RunFailed (exec_run_id x) workers_failed), (mk Failed (Some workers_failed)).
  3: exists (RunCompleted (exec_run_id x)), (mk Completed None).
  4: exists (RunFailed (exec_run_id x) (workflow_error_to_string err)), (mk Failed (Some (workflow_error_to_string err))).
  all: split; [apply sort_by_index_perm|]; split; [by apply sort_by_index_sorted|]; unfold mk; destruct (save_run fs _) as [fs' [[]|e]];
    cbn; repeat (apply conj); done || by destruct eval_result.
Qed.

(** *** Cancellation *)

Definition is_call_started (e : WorkflowEvent) : bool := match e with AgentCallStarted _ _ _ _ => true | _ => false end.

(** A step of a run that has not ended. *)
Definition run_step (p q : F * Execution) : Prop := outcome (snd p) = None /\ exec_step p q.

Definition same_calls (x y : Execution) : Prop :=
  is_cancelled y = true /\ next_index y = next_index x /\
  List.filter is_call_started (events y) = List.filter is_call_started (events x) /\
  dom (in_flight y) ⊆ dom (in_flight x).

Lemma cancelled_step p q : is_cancelled (snd p) = true -> exec_step p q ->
  same_calls (snd p) (snd q) /\ (outcome (snd p) = None -> forall r, outcome (snd q) = Some (Ok r) -> run_status r = Cancelled).
Proof.
  intros Hc Hs. revert Hc. destruct Hs as [fs x j|fs x e He|fs x i call Hi Hp|fs x i call r Hi|fs x i call Hi|fs x i call Hc' Hi|fs x er];
    cbn [snd]; intros Hc.
  - unfold enter_call. rewrite Hc. cbn. by split; [|intros ->].
  - split; [|by cbn; intros ->]. split_and!; [done|done| |done]. cbn. rewrite filter_snoc.
    destruct He as [[? ->]|[[? ->]|[? ->]]]; cbn; by rewrite app_nil_r.
  - split; [|by cbn; intros ->]. split_and!; [done|done|done|]. cbn. rewrite dom_insert. apply elem_of_dom_2 in Hi. set_solver.
  - unfold finish_call. destruct (save_agent_result _ _ _) as [fs' [[]|e]]; (split; [|by cbn; intros ->]); split_and!; try done; cbn.
    1: by rewrite filter_snoc, app_nil_r. all: rewrite dom_delete; set_solver.
  - split; [|by cbn; intros ->]. split_and!; [done..|]. cbn. rewrite dom_delete. set_solver.
  - split; [|by cbn; intros ->]. split_and!; [done..|]. cbn. rewrite dom_delete. set_solver.
  - unfold finish_run. cbv zeta. rewrite Hc. destruct (save_run fs _) as [fs' [[]|e]]; cbn.
    + split; [|by intros _ r [= <-]]. split_and!; [done|done|by cbn; rewrite filter_snoc, app_nil_r|done].
    + split; [|done]. split_and!; [done|done|by cbn; rewrite filter_snoc, app_nil_r|done].
Qed.

(** A cancelled run starts no further call: whatever its script does, no call enters after the
    cancellation, those in flight can only finish or be dropped, and when the script ends the run is
    reported as cancelled, even if the script failed or every worker had answered. *)
Theorem cancelled_run_stops p q :
  is_cancelled (snd p) = true -> outcome (snd p) = None -> rtc run_step p q ->
  same_calls (snd p) (snd q) /\ forall r, outcome (snd q) = Some (Ok r) -> run_status r = Cancelled.
Proof.
  intros Hc Ho Hr. revert Hc Ho. induction Hr as [p|p q s [_ Hs] Hr IH]; intros Hc Ho.
  { split; [by split_and!|]. by rewrite Ho. }
  destruct (cancelled_step p q Hc Hs) as [(Hc' & Hn & He & Hd) Hx]. destruct (outcome (snd q)) as [o|] eqn:Eo.
  - inversion Hr as [|? ? ? [Hn' _] _]; subst; [|by rewrite Eo in Hn']. split; [done|]. intros r Er. apply Hx; [done|]. by rewrite Eo in *.
  - destruct (IH Hc' eq_refl) as [(Hc2 & Hn2 & He2 & Hd2) Hx2]. split; [|done]. split_and!; [done|congruence|congruence|set_solver].
Qed.

(** *** Resuming *)

Lemma resume_fold fs src rs : (forall r, r ∈ rs -> result_is_error r = false -> read_agent_result fs src (result_key r) = Ok r) ->
  forall cache, (forall k r, cache !! k = Some r -> result_key r = k /\ result_is_error r = false) ->
  let c := fold_left (resume_entry fs src) rs cache in
  (forall k r, c !! k = Some r -> result_key r = k /\ result_is_error r = false /\ (cache !! k = Some r \/ r ∈ rs)) /\
  (forall k, is_Some (cache !! k) \/ (exists r, r ∈ rs /\ result_is_error r = false /\ result_key r = k) -> is_Some (c !! k)).
Proof.
  induction rs as [|r rs IH]; intros Hrs cache Hc; cbn [fold_left]; cbv zeta.
  - split; [intros k r Hk; destruct (Hc k r Hk); by auto|]. by intros k [?|(r & Hr%not_elem_of_nil & _)].
  - assert (forall k r', resume_entry fs src cache r !! k = Some r' ->
      result_key r' = k /\ result_is_error r' = false /\ (cache !! k = Some r' \/ r' = r)) as He.
    { intros k r'. unfold resume_entry. destruct (result_is_error r) eqn:Er; [intros Hk; destruct (Hc k r' Hk); by auto|].
      rewrite (Hrs r) by (by left || done). intros [[<- <-]|[_ Hk]]%lookup_insert_Some; [by auto|]. destruct (Hc k r' Hk); by auto. }
    destruct (IH (fun r' Hr' => Hrs r' (proj2 (elem_of_cons _ _ _) (or_intror Hr'))) (resume_entry fs src cache r)) as [H3 H4].
    { intros k r' Hk. by destruct (He k r' Hk) as (? & ? & _). }
    split.
    + intros k r' Hk. destruct (H3 k r' Hk) as (E1 & E2 & [Hk'|Hin]); [|split_and!; [done|done|right; by right]].
      destruct (He k r' Hk') as (_ & _ & [?| ->]); split_and!; try done; [by left|right; by left].
    + intros k Hk. apply H4. destruct Hk as [[r' Hk]|(r' & [->|Hin]%elem_of_cons & E1 & E2)].
      * left. unfold resume_entry. destruct (result_is_error r); [by exists r'|]. destruct (read_agent_result _ _ _) as [saved|]; [|by exists r'].
        rewrite lookup_insert. by case_decide.
      * left. unfold resume_entry. rewrite E1, Hrs, E2 by (by left || done). by rewrite lookup_insert_eq.
      * right. by exists r'.
Qed.

(** C35. Resuming repeats no work that succeeded and was kept.  When the file of each successful result of an
    earlier run still reads back exactly that result (labels that sanitise alike share a file, and a result
    that came from a cache has none, so this can fail), a call of the resumed run whose label is that of one
    of them is answered at once with a successful result of that label from the earlier run, and no worker is
    asked; a call with any other label, that of a failed result included, goes to a worker. *)
Theorem resume_reuses_results fs src previous x call_json arguments :
  read_run fs src = Ok previous ->
  (forall r, r ∈ run_results previous -> result_is_error r = false -> read_agent_result fs src (result_key r) = Ok r) ->
  cached x = load_resume_cache fs (Some src) -> is_cancelled x = false -> json_from_str call_json = Some arguments ->
  let label := call_label arguments (next_index x) in
  let '(x', reply) := enter_call call_json x in
  if decide (Exists (fun r => result_is_error r = false /\ result_key r = label) (run_results previous)) then
    in_flight x' = in_flight x /\
    exists r, reply = Ok (Some r) /\ r ∈ run_results previous /\ result_is_error r = false /\ result_key r = label /\
              results x' = results x ++ [(next_index x, r)]
  else reply = Ok None /\ is_Some (in_flight x' !! next_index x).
Proof.
  intros Hp Hrs Hc Hx Hj. cbv zeta. unfold enter_call. rewrite Hx, Hj. cbn [cached set_calls].
  unfold load_resume_cache in Hc. rewrite Hp in Hc.
  destruct (resume_fold fs src (run_results previous) Hrs ∅) as [H3 H4]; [by intros k r ?%lookup_empty_Some|]. cbv zeta in H3, H4.
  rewrite <- Hc in H3, H4. cbn [call_key agent_call_of]. set (label := call_label arguments (next_index x)) in *.
  destruct (cached x !! label) as [r|] eqn:El.
  - destruct (H3 _ _ El) as (E1 & E2 & [?%lookup_empty_Some|Hin]); [done|]. rewrite decide_True; [|apply Exists_exists; by exists r].
    split; [done|]. by exists r.
  - rewrite decide_False; [split; [done|]; cbn; by rewrite lookup_insert_eq|]. intros (r & Hr & E1 & E2)%Exists_exists.
    destruct (H4 label) as [? Hk]; [right; by exists r|]. by rewrite El in Hk.
Qed.
End Workflow.

(** ** Concrete runs

    Files in memory, results with their key and whether they are errors, arguments that are a label. *)

#[local] Instance ex_files : VirtualFs MemoryFs.State := MemoryFs.memory_fs MemoryFs.ex_to_vec MemoryFs.ex_from_slice.
Definition ex_decode_result (data : bytes) : result (WorkflowAgentResult tree) str :=
  match data with
  | c :: key => Ok {| result_key := key; output := Null; result_is_error := Ascii.eqb c "E"; result_error := None |}
  | [] => Err (lit "empty")
  end.
Definition ex_encode_result (r : WorkflowAgentResult tree) : bytes := (if result_is_error r then "E"%char else "S"%char) :: result_key r.
Definition ex_meta : WorkflowScriptMeta := {| meta_name := "triage"; meta_description := "sorts" |}.
#[local] Instance ex_codec : RunCodec tree := {|
  encode_run := fun r => join [lf] (List.map ex_encode_result (run_results r));
  decode_run := fun data =>
    let? rs := (fix go pieces := match pieces with
                                 | [] => Ok []
                                 | p :: pieces => let? r := ex_decode_result p in let? rs := go pieces in Ok (r :: rs)
                                 end) (split_on lf data) in
    Ok {| run_id := []; run_script_path := []; run_meta := ex_meta; run_status := Failed; run_results := rs; run_error := None |};
  encode_result := ex_encode_result;
  decode_result := ex_decode_result;
|}.

(** The text of [agent({label: l})] is [l]; that of [meta] is [meta]. *)
Definition ex_label (l : String.string) : str * tree := (lit l, Object [(lit "label", Text (lit l))]).
#[local] Instance ex_json : JsonOps tree := tree_json [ex_label "a b"; ex_label "a_b"; ex_label "c"; (lit "meta", Object [])].

Definition ex_result (key : String.string) (is_error : bool) : WorkflowAgentResult tree :=
  {| result_key := lit key; output := Null; result_is_error := is_error; result_error := None |}.
Definition ex_options (resume : option str) : WorkflowRunOptions :=
  {| opt_run_id := None; opt_script := Some (lit "export const meta"); opt_name := None; opt_script_path := None; opt_args := Null;
     opt_resume_from := resume; opt_concurrency_limit := 2 |}.
Definition ex_start (fresh : String.string) (options : WorkflowRunOptions) (s : @WorkflowRuntime tree MemoryFs.State) :=
  fst (start (fun _ => Ok (lit "meta")) (fun _ => Ok ex_meta) (lit fresh) options s).
Definition ex_empty : @WorkflowRuntime tree MemoryFs.State := {| rt_fs := MemoryFs.new; runs := ∅; executions := [] |}.

(** Ask for a label, take a permit and let the worker answer, on the only execution. *)
Definition ex_ask (label : String.string) (p : MemoryFs.State * @Execution tree) : MemoryFs.State * @Execution tree :=
  (fst p, fst (enter_call (lit label) (snd p))).
Definition ex_permit (i : nat) (p : MemoryFs.State * @Execution tree) : MemoryFs.State * @Execution tree :=
  match in_flight (snd p) !! i with
  | Some (Queued call) => (fst p, set_in_flight (snd p) (<[i := Working call]> (in_flight (snd p))))
  | _ => p
  end.
Definition ex_answer (i : nat) (r : WorkflowAgentResult tree) (p : MemoryFs.State * @Execution tree) : MemoryFs.State * @Execution tree :=
  match in_flight (snd p) !! i with
  | Some (Working call) => fst (finish_call call r (fst p) (snd p))
  | _ => p
  end.
Definition ex_execution (s : @WorkflowRuntime tree MemoryFs.State) (i : nat) : MemoryFs.State * @Execution tree :=
  (rt_fs s, nth i (executions s) {| exec_run_id := []; exec_script_path := []; exec_meta := ex_meta; concurrency_limit := 0; cached := ∅;
     events := []; is_cancelled := false; results := []; next_index := 0; in_flight := ∅; outcome := None |}).

(** A first run: the worker of [a b] succeeds, then that of [a_b] reports an error. *)
Definition ex_first : MemoryFs.State * @Execution tree :=
  finish_run (Ok [])
    (fst (ex_answer 1 (ex_result "a_b" true) (ex_permit 1 (ex_ask "a_b" (ex_answer 0 (ex_result "a b" false) (ex_permit 0 (ex_ask "a b"
      (ex_execution (ex_start "r1" (ex_options None) ex_empty) 0))))))))
    (snd (ex_answer 1 (ex_result "a_b" true) (ex_permit 1 (ex_ask "a_b" (ex_answer 0 (ex_result "a b" false) (ex_permit 0 (ex_ask "a b"
      (ex_execution (ex_start "r1" (ex_options None) ex_empty) 0)))))))).

(** Labels that sanitise alike share a file: the resumed run takes the failed result for a success and
    does not ask the worker again. *)
Example resume_reuses_a_failure :
  let s := ex_start "r2" (ex_options (Some (lit "r1"))) {| rt_fs := fst ex_first; runs := ∅; executions := [] |} in
  let '(_, x) := ex_ask "a_b" (ex_execution s 0) in
  results x = [(0%nat, ex_result "a_b" true)] /\ in_flight x = ∅.
Proof. split; vm_compute; reflexivity. Qed.

(** A worker that fails leaves no result, so a script that goes on completes the run. *)
Example worker_failure_completes :
  let '(fs, x) := ex_permit 0 (ex_ask "c" (ex_execution (ex_start "r1" (ex_options None) ex_empty) 0)) in
  let x := set_in_flight x (delete 0%nat (in_flight x)) in
  match outcome (snd (finish_run (Ok []) fs x)) with Some (Ok r) => run_status r = Completed | _ => False end.
Proof. vm_compute. reflexivity. Qed.

(** A run of the first script that has been asked for one label, its worker at work. *)
Definition ex_working : MemoryFs.State * @Execution tree :=
  ex_permit 0 (ex_ask "a b" (ex_execution (ex_start "r1" (ex_options None) ex_empty) 0)).


Lemma ex_live : exec_live (snd (ex_execution (ex_start "r1" (ex_options None) ex_empty) 0)).
Proof.
  assert (Forall execution_ok (executions (ex_start "r1" (ex_options None) ex_empty))) as Hf by (apply start_ok; constructor).
  remember (executions _) as l eqn:El in Hf. vm_compute in El. subst l. inversion Hf as [|? ? [_ Hl] _]. exact (Hl eq_refl).
Qed.

Lemma run_ends_as_it_went_witness :
  exec_live (snd ex_working) /\ exists sorted, sorted ≡ₚ results (snd ex_working) /\ StronglySorted index_lt sorted.
Proof.
  assert (exec_live (snd ex_working)) as Hl.
  { destruct (exec_step_ok (ex_ask "a b" (ex_execution (ex_start "r1" (ex_options None) ex_empty) 0)) ex_working) as [?|[Ho _]]; [| |done|].
    - eapply (step_permit _ _ 0%nat); [by vm_compute|]. vm_compute. lia.
    - apply live_enter, ex_live.
    - exfalso. apply Ho. by vm_compute. }
  split; [exact Hl|]. destruct (run_ends_as_it_went (Ok []) (fst ex_working) (snd ex_working) Hl) as (sorted & _ & _ & Hp & Hs & _).
  by exists sorted.
Defined.

Lemma cancelled_run_stops_witness :
  let p := (fst ex_working, set_cancelled (snd ex_working)) in
  let q := finish_run (Ok []) (fst p) (snd p) in
  rtc run_step p q /\ forall r, outcome (snd q) = Some (Ok r) -> run_status r = Cancelled.
Proof.
  cbv zeta. match goal with |- ?A /\ _ => assert A as Hr by (apply rtc_once; split; [by vm_compute|apply step_script_ended]) end.
  split; [exact Hr|]. exact (proj2 (cancelled_run_stops (fst ex_working, set_cancelled (snd ex_working)) _ eq_refl ltac:(by vm_compute) Hr)).
Defined.

(** The earlier run has one result, and its file still holds it. *)
Definition ex_earlier : MemoryFs.State * @Execution tree :=
  let p := ex_answer 0 (ex_result "a b" false) ex_working in finish_run (Ok []) (fst p) (snd p).
Definition ex_previous : WorkflowRun tree :=
  {| run_id := []; run_script_path := []; run_meta := ex_meta; run_status := Failed; run_results := [ex_result "a b" false]; run_error := None |}.
Definition ex_resumed : MemoryFs.State * @Execution tree :=
  ex_execution (ex_start "r2" (ex_options (Some (lit "r1"))) {| rt_fs := fst ex_earlier; runs := ∅; executions := [] |}) 0.

Lemma resume_reuses_results_witness :
  read_run (fst ex_earlier) (lit "r1") = Ok ex_previous /\
  let '(x', reply) := enter_call (lit "a b") (snd ex_resumed) in
  exists r, reply = Ok (Some r) /\ results x' = [(0%nat, r)].
Proof.
  assert (read_run (fst ex_earlier) (lit "r1") = Ok ex_previous) as Hp by (vm_compute; reflexivity).
  assert (forall r, r ∈ run_results ex_previous -> result_is_error r = false -> read_agent_result (fst ex_earlier) (lit "r1") (result_key r) = Ok r) as Hrs
    by (intros r ->%list_elem_of_singleton _; vm_compute; reflexivity).
  split; [exact Hp|].
  pose proof (resume_reuses_results (fst ex_earlier) (lit "r1") ex_previous (snd ex_resumed) (lit "a b") _ Hp Hrs
    ltac:(vm_compute; reflexivity) eq_refl eq_refl) as H. cbv zeta in H.
  destruct (enter_call (lit "a b") (snd ex_resumed)) as [x' reply]. rewrite decide_True in H by (vm_compute; constructor; by split).
  destruct H as (_ & r & E1 & _ & _ & _ & E2). exists r. split; [exact E1|]. rewrite E2. vm_compute. reflexivity.
Defined.
