(* ===== verification/Provider.v ===== *)
(** * Model providers: what they share

    Models the events and errors of [crates/simulacra-types/src/provider.rs] and, of
    [crates/simulacra-provider], [finish_reason.rs], [tool_pairs.rs], [transport.rs] and the HTTP
    client of both providers ([anthropic/client.rs], [openai/http.rs]): the pairing of tool calls with
    their results before a request, the classification of failures, and a response read whole or chunk
    by chunk into a sink.  What [reqwest] does is a parameter: the answer to a request, as a failure to
    send or a status, headers and the chunks of the body with how it ended. *)

From S2P Require Import Prelude.
From S2P Require Import Text.
From S2P Require Import Utf8.
From S2P Require Import Context.
From S2P Require Import Budget.
From S2P Require Import Journal.
From S2P Require Import LlmReplay.
From S2P Require Export Tools.

(** ** Events and errors ([provider.rs]) *)

Variant ProviderStreamEvent :=
| TextDelta (text : str)
| ToolCallDelta (index : N) (tool_call_id name : option str) (arguments_delta : str)
| ThinkingStart
| ThinkingDelta (text : str)
| ThinkingEnd.

(** A delta of a tool call names what it knows. *)
Definition some_nonempty (s : str) : option str := if str_eqb s [] then None else Some s.
Definition tool_call_delta (index : N) (id name arguments_delta : str) : ProviderStreamEvent :=
  ToolCallDelta index (some_nonempty id) (some_nonempty name) arguments_delta.

(** The text a run of events adds up to. *)
Definition text_of (event : ProviderStreamEvent) : str := match event with TextDelta text => text | _ => [] end.
Definition deltas (events : list ProviderStreamEvent) : str := List.concat (List.map text_of events).

Lemma deltas_snoc events event : deltas (events ++ [event]) = deltas events ++ text_of event.
Proof. unfold deltas. rewrite List.map_app, List.concat_app. cbn. by rewrite app_nil_r. Qed.

Variant ProviderError :=
| RateLimit (retry_after_ms : option N)
| AuthError (msg : str)
| BadRequest (msg : str)
| ServerError (msg : str)
| Overloaded (msg : str)
| Transport (msg : str)
| BudgetExhaustedError (e : BudgetExhausted)
| MalformedToolInput (tool_name : str) (raw_len : N)
| OtherFailure (msg : str).

Definition classify (status : N) (msg : str) : ProviderError :=
  if (status =? 401)%N || (status =? 403)%N then AuthError msg
  else if (status =? 400)%N then BadRequest msg
  else if (status =? 429)%N then RateLimit None
  else if (status =? 529)%N then Overloaded msg
  else if (500 <=? status)%N && (status <=? 599)%N then ServerError msg
  else OtherFailure ("HTTP " ++ dec status ++ ": " ++ msg).

Definition is_retryable (e : ProviderError) : bool :=
  match e with
  | RateLimit _ | ServerError _ | Overloaded _ | Transport _ => true
  | _ => false
  end.

(** A response with the id its provider gave it. *)
Record ProviderReply (Value : Type) := {
  reply_response : @ProviderResponse Value;
  provider_response_id : option str;
}.
Arguments reply_response {_}.
Arguments provider_response_id {_}.

(** [BTreeMap::insert] on the sorted list. *)
Fixpoint btree_insert {A} (k : N) (x : A) (l : list (N * A)) : list (N * A) :=
  match l with
  | [] => [(k, x)]
  | (k', y) :: l' =>
      if (k <? k')%N then (k, x) :: l
      else if (k =? k')%N then (k, x) :: l'
      else (k', y) :: btree_insert k x l'
  end.

(** A provider-supplied stop value: one underscore for a character that is not safe (for a character of
    several bytes, at its first), and at most 64 characters. *)
Definition safe_reason_char (c : ascii) : bool := is_ascii_alphanumeric c || Ascii.eqb c "_" || Ascii.eqb c "-".
Definition sanitize_other_reason (raw : str) : str :=
  firstn 64 (List.concat (List.map (fun c => if continuation c then [] else if safe_reason_char c then [c] else ["_"%char]) raw)).

(** ** Tool calls and their results ([tool_pairs.rs]) *)

Section Pairs.
Context {Value : Type}.
Abbreviation Message := (@Message Value).

Definition before_next_assistant (messages : list Message) : list Message :=
  take_while (fun m => negb (is_role Assistant m)) messages.

(** The result a turn keeps for each of the ids expected: the last one. *)
Fixpoint latest_results (expected : list str) (candidates : list Message) (latest : gmap str Message) : gmap str Message :=
  match candidates with
  | [] => latest
  | candidate :: candidates =>
      latest_results expected candidates
        (if negb (is_role Tool candidate) then latest
         else match tool_call_id candidate with
              | None => latest
              | Some id => if mem id expected then <[id := candidate]> latest else latest
              end)
  end.

Fixpoint attach (calls : list (@ToolCallMessage Value)) (latest : gmap str Message) : list Message :=
  match calls with
  | [] => []
  | tool_call :: calls =>
      match latest !! tc_id tool_call with
      | Some result => result :: attach calls (delete (tc_id tool_call) latest)
      | None => attach calls latest
      end
  end.

Definition turn_results (m : Message) (rest : list Message) : list Message :=
  if negb (is_role Assistant m) || bool_decide (tool_calls m = []) then []
  else attach (tool_calls m) (latest_results (List.map tc_id (tool_calls m)) (before_next_assistant rest) ∅).

Fixpoint normalize_tool_pairs (messages : list Message) : list Message :=
  match messages with
  | [] => []
  | m :: rest =>
      if is_role Tool m then normalize_tool_pairs rest
      else m :: turn_results m rest ++ normalize_tool_pairs rest
  end.
End Pairs.

(** ** HTTP *)

Abbreviation Headers := (list (str * str)).

(** What the code asks of a [reqwest::Error]. *)
Record ReqwestError := {
  is_builder : bool;
  is_redirect : bool;
  is_timeout : bool;
  is_connect : bool;
  is_request : bool;
  without_url : str;
}.

Definition send_request : str := "sending the HTTP request to the provider".

Definition transport_error (err : ReqwestError) : ProviderError :=
  if is_builder err then
    OtherFailure (send_request ++ " could not be constructed; verify the provider endpoint and credential configuration.")
  else if is_redirect err then
    OtherFailure (send_request ++ " was rejected by the HTTP redirect policy; verify the provider endpoint configuration.")
  else if is_timeout err then
    Transport (send_request ++ " timed out before response headers arrived; check network connectivity and retry.")
  else if is_connect err then
    Transport (send_request ++ " could not connect before response headers arrived; check network connectivity and retry.")
  else if is_request err then
    Transport (send_request ++ " failed before response headers arrived; the provider may or may not have processed the request, so check network connectivity and retry.")
  else OtherFailure (send_request ++ " failed for a non-transient HTTP reason; verify the provider endpoint configuration.").

Definition read_error (part : str) (err : ReqwestError) : ProviderError :=
  if is_timeout err then Transport ("the provider stopped sending the " ++ part ++ "; retry.")
  else OtherFailure ("failed to read " ++ part ++ ": " ++ without_url err).

(** A response as it arrives: headers that are not text have no value, the body comes in chunks and may
    break off. *)
Record WireResponse := {
  wire_status : N;
  wire_headers : list (str * option str);
  wire_chunks : list bytes;
  wire_failure : option ReqwestError;
}.

Record HttpResponse := { http_status : N; http_headers : gmap str str; http_body : bytes }.

(** Names in lower case ([http::HeaderName] has no others); a later header replaces an earlier one. *)
Definition collect_headers (headers : list (str * option str)) : gmap str str :=
  fold_left (fun acc '(k, v) => match v with Some v => <[List.map to_ascii_lowercase k := v]> acc | None => acc end) headers ∅.

Definition http_post (sent : result WireResponse ReqwestError) : result HttpResponse ProviderError :=
  match sent with
  | Err e => Err (transport_error e)
  | Ok resp =>
      match wire_failure resp with
      | Some e => Err (read_error "response body" e)
      | None => Ok {| http_status := wire_status resp; http_headers := collect_headers (wire_headers resp);
                      http_body := List.concat (wire_chunks resp) |}
      end
  end.

(** A sink of a streamed response. *)
Class HttpStreamSink (S : Type) := {
  sink_begin : S -> N -> gmap str str -> S;
  sink_chunk : S -> bytes -> S * result unit ProviderError;
}.

Section Stream.
Context {S : Type} `{HttpStreamSink S}.

Fixpoint feed (chunks : list bytes) (s : S) : S * result unit ProviderError :=
  match chunks with
  | [] => (s, Ok tt)
  | chunk :: chunks =>
      match sink_chunk s chunk with
      | (s, Ok _) => feed chunks s
      | (s, Err e) => (s, Err e)
      end
  end.

Definition http_post_stream (sent : result WireResponse ReqwestError) (s : S) : S * result HttpResponse ProviderError :=
  match sent with
  | Err e => (s, Err (transport_error e))
  | Ok resp =>
      let headers := collect_headers (wire_headers resp) in
      match feed (wire_chunks resp) (sink_begin s (wire_status resp) headers) with
      | (s, Err e) => (s, Err e)
      | (s, Ok _) =>
          match wire_failure resp with
          | Some e => (s, Err (read_error "response chunk" e))
          | None => (s, Ok {| http_status := wire_status resp; http_headers := headers;
                              http_body := List.concat (wire_chunks resp) |})
          end
      end
  end.
End Stream.

(** [retry-after] in seconds: [secs * 1000] wraps around (or panics in a debug build) only for a
    server that asks for more than 584 million years. *)
Definition parse_u64 (s : str) : option N :=
  let digits := match s with "+"%char :: d => d | _ => s end in
  if str_eqb digits [] || negb (forallb is_ascii_digit digits) then None
  else
    let n := fold_left (fun acc c => acc * 10 + (N_of_ascii c - 48))%N digits 0%N in
    if (n <? 2 ^ 64)%N then Some n else None.

Definition retry_after_ms (headers : gmap str str) : option N :=
  option_map (fun secs => (secs * 1000) mod 2 ^ 64)%N (headers !! lit "retry-after" ≫= parse_u64).

Definition is_event_stream (headers : gmap str str) : bool :=
  match headers !! lit "content-type" with
  | Some ct => match find_sub "text/event-stream" ct with Some _ => true | None => false end
  | None => false
  end.

(** ** The pairing is what providers ask for *)

Section Paired.
Context {Value : Type}.
Abbreviation Message := (@Message Value).
Implicit Types (m r : Message) (L : gmap str Message).

(** Results that answer the calls of a message: tool messages, for some of its calls, in the order of the
    calls and none twice; only an assistant has any. *)
Record answers m (results : list Message) : Prop := {
  answers_tool : Forall (fun r => role r = Tool) results;
  answers_ids : exists ids, List.map tool_call_id results = List.map Some ids /\ NoDup ids /\
    ids `sublist_of` List.map tc_id (tool_calls m);
  answers_assistant : role m <> Assistant -> results = [];
}.

(** A transcript in which every tool message answers a call of the assistant message right before its run. *)
Inductive paired : list Message -> Prop :=
| paired_nil : paired []
| paired_turn m results rest : role m <> Tool -> answers m results -> paired rest -> paired (m :: results ++ rest).

(** The results kept for a turn are tool messages under their own id. *)
Definition results_wf (expected : list str) L : Prop :=
  forall id r, L !! id = Some r -> role r = Tool /\ tool_call_id r = Some id /\ id ∈ expected.

Lemma latest_results_wf expected candidates L :
  results_wf expected L -> results_wf expected (latest_results expected candidates L).
Proof.
  revert L. induction candidates as [|c cs IH]; intros L HL; cbn [latest_results]; [done|]. apply IH.
  unfold is_role. destruct (bool_decide (role c = Tool)) eqn:Er; bools; cbn [negb]; [|done].
  destruct (tool_call_id c) as [id|] eqn:Ei; [|done]. destruct (mem id expected) eqn:Em; bools; [|done].
  intros id' r [[<- <-]|[_ Hr]]%lookup_insert_Some; [done|by apply HL].
Qed.

Lemma results_wf_delete expected id L : results_wf expected L -> results_wf expected (delete id L).
Proof. intros HL id' r [_ Hr]%lookup_delete_Some. by apply HL. Qed.

Lemma attach_answers expected calls : forall L, results_wf expected L ->
  Forall (fun r => role r = Tool) (attach calls L) /\
  exists ids, List.map tool_call_id (attach calls L) = List.map Some ids /\ NoDup ids /\
    ids `sublist_of` List.map tc_id calls /\ (forall id, id ∈ ids -> is_Some (L !! id)).
Proof.
  induction calls as [|c calls IH]; intros L HL; cbn [attach].
  - split; [constructor|]. exists []. split_and!; [done|constructor|constructor|by intros id ?%not_elem_of_nil].
  - destruct (L !! tc_id c) as [r|] eqn:El.
    + destruct (IH (delete (tc_id c) L)) as (Ht & ids & Em & Hd & Hs & Hin); [by apply results_wf_delete|].
      destruct (HL _ _ El) as (Hr & Hi & _). split; [by constructor|]. exists (tc_id c :: ids).
      split_and!; [cbn; by rewrite Em, Hi| |by apply sublist_skip|].
      * constructor; [|done]. intros [x Hx]%Hin. by rewrite lookup_delete_eq in Hx.
      * intros id [->|[x Hx]%Hin]%elem_of_cons; [by rewrite El|]. apply lookup_delete_Some in Hx as [_ Hx]. by exists x.
    + destruct (IH L HL) as (Ht & ids & Em & Hd & Hs & Hin). split; [done|]. exists ids.
      split_and!; [done|done|by apply sublist_cons|done].
Qed.

Lemma turn_results_answer m rest : answers m (turn_results m rest).
Proof.
  unfold turn_results, is_role. destruct (bool_decide (role m = Assistant)) eqn:Er; bools; cbn [negb orb];
    [destruct (bool_decide (tool_calls m = []))|]; try (split; [constructor|exists []; split_and!; [done|constructor|apply sublist_nil_l]|done]).
  destruct (attach_answers (List.map tc_id (tool_calls m)) (tool_calls m)
    (latest_results (List.map tc_id (tool_calls m)) (before_next_assistant rest) ∅)) as (Ht & ids & Em & Hd & Hs & _).
  { apply latest_results_wf. intros id r Hr. by rewrite lookup_empty in Hr. }
  split; [done|by exists ids|done].
Qed.

Lemma normalize_paired (ms : list Message) : paired (normalize_tool_pairs ms).
Proof.
  induction ms as [|m ms IH]; cbn [normalize_tool_pairs]; [constructor|]. unfold is_role.
  destruct (bool_decide (role m = Tool)) eqn:Er; bools; [done|]. apply paired_turn; [done|apply turn_results_answer|done].
Qed.

(** *** Nothing but tool messages is dropped or moved *)

Definition not_tool m : bool := negb (is_role Tool m).

Lemma filter_tools results : Forall (fun r => role r = Tool) results -> List.filter not_tool results = [].
Proof.
  induction 1 as [|r rs Hr _ IH]; [done|]. cbn. unfold not_tool at 1, is_role. by rewrite bool_decide_true.
Qed.

Lemma normalize_keeps (ms : list Message) : List.filter not_tool (normalize_tool_pairs ms) = List.filter not_tool ms.
Proof.
  induction ms as [|m ms IH]; cbn [normalize_tool_pairs List.filter]; [done|]. unfold not_tool at 2.
  destruct (is_role Tool m) eqn:Er; cbn [negb]; [done|]. cbn [List.filter]. unfold not_tool at 1. rewrite Er. cbn [negb].
  by rewrite List.filter_app, filter_tools, IH by apply turn_results_answer.
Qed.

(** *** A turn finds the results it was given *)

Lemma latest_results_app expected c1 c2 L :
  latest_results expected (c1 ++ c2) L = latest_results expected c2 (latest_results expected c1 L).
Proof. revert L. induction c1 as [|c c1 IH]; intros L; cbn; [done|]. apply IH. Qed.

Lemma latest_results_skip expected candidates L :
  Forall (fun m => role m <> Tool) candidates -> latest_results expected candidates L = L.
Proof.
  intros Hc. revert L. induction Hc as [|c cs Hc _ IH]; intros L; cbn [latest_results]; [done|].
  unfold is_role. rewrite bool_decide_false by done. apply IH.
Qed.

(** What a turn attached is what it finds. *)
Lemma latest_attach expected calls : forall L M, results_wf expected L ->
  (forall id, is_Some (L !! id) -> id ∈ List.map tc_id calls) ->
  latest_results expected (attach calls L) M = L ∪ M.
Proof.
  induction calls as [|c calls IH]; intros L M HL Hdom; cbn [attach].
  - cbn. assert (L = ∅) as ->; [|by rewrite (left_id_L ∅ (∪))]. apply map_empty. intros id. apply eq_None_not_Some.
    by intros ?%Hdom%not_elem_of_nil.
  - destruct (L !! tc_id c) as [r|] eqn:El.
    + destruct (HL _ _ El) as (Hr & Hi & He). cbn [latest_results]. unfold is_role. rewrite bool_decide_true by done.
      cbn [negb]. rewrite Hi. unfold mem. rewrite bool_decide_true by done. rewrite IH.
      * apply map_eq. intros id. destruct (decide (id = tc_id c)) as [->|Hn].
        -- rewrite lookup_union_r by apply lookup_delete_eq. rewrite lookup_insert_eq. symmetry. by apply lookup_union_Some_l.
        -- rewrite !lookup_union, lookup_delete_ne, lookup_insert_ne by done. done.
      * by apply results_wf_delete.
      * intros id [x [Hn Hx]%lookup_delete_Some]. assert (id ∈ List.map tc_id (c :: calls)) as [->|]%elem_of_cons by (apply Hdom; by exists x); done.
    + apply IH; [done|]. intros id Hid. pose proof (Hdom id Hid) as [->|]%elem_of_cons; [|done].
      rewrite El in Hid. by destruct Hid.
Qed.

Lemma take_while_app_all {A} (f : A -> bool) l k : Forall (fun x => f x = true) l -> take_while f (l ++ k) = l ++ take_while f k.
Proof. induction 1 as [|x l Hx _ IH]; cbn; [done|]. by rewrite Hx, IH. Qed.

(** Before its first assistant message a normalised transcript has no tool message. *)
Lemma no_tool_before_assistant (ms : list Message) : Forall (fun m => role m <> Tool) (before_next_assistant (normalize_tool_pairs ms)).
Proof.
  unfold before_next_assistant. induction ms as [|m ms IH]; cbn [normalize_tool_pairs]; [constructor|].
  destruct (is_role Tool m) eqn:Et; [done|]. cbn [take_while]. destruct (is_role Assistant m) eqn:Ea; cbn [negb]; [constructor|].
  constructor; [by unfold is_role in Et; bools|].
  rewrite (answers_assistant _ _ (turn_results_answer m ms)); [done|by unfold is_role in Ea; bools].
Qed.

Lemma turn_results_again m (ms : list Message) :
  turn_results m (turn_results m ms ++ normalize_tool_pairs ms) = turn_results m ms.
Proof.
  pose proof (answers_tool _ _ (turn_results_answer m ms)) as Ht. unfold turn_results at 1.
  unfold turn_results in Ht |- *. destruct (_ || _); [done|]. set (exp := List.map tc_id (tool_calls m)) in *.
  set (L := latest_results exp (before_next_assistant ms) ∅) in *. unfold before_next_assistant.
  rewrite take_while_app_all.
  - rewrite latest_results_app, latest_results_skip by apply no_tool_before_assistant.
    assert (results_wf exp L) as HL by (apply latest_results_wf; intros id r Hr; by rewrite lookup_empty in Hr).
    rewrite latest_attach, (right_id_L ∅ (∪)); [done|done|]. intros id [r Hr]. by apply HL in Hr as (_ & _ & ?).
  - eapply Forall_impl; [exact Ht|]. intros r Hr. unfold is_role. by rewrite bool_decide_false by (rewrite Hr; done).
Qed.

Lemma normalize_tools_app (rs ms : list Message) : Forall (fun r => role r = Tool) rs -> normalize_tool_pairs (rs ++ ms) = normalize_tool_pairs ms.
Proof. induction 1 as [|r rs Hr _ IH]; [done|]. cbn. unfold is_role at 1. by rewrite bool_decide_true. Qed.

Lemma pairs_normalize_idem (ms : list Message) : normalize_tool_pairs (normalize_tool_pairs ms) = normalize_tool_pairs ms.
Proof.
  induction ms as [|m ms IH]; cbn [normalize_tool_pairs]; [done|]. destruct (is_role Tool m) eqn:Et; [done|].
  cbn [normalize_tool_pairs]. rewrite Et, turn_results_again, normalize_tools_app by apply turn_results_answer. by rewrite IH.
Qed.

(** A call that has a result before the next assistant message keeps one. *)
Lemma latest_keeps expected candidates id L :
  id ∈ expected ->
  (is_Some (L !! id) \/ exists r, r ∈ candidates /\ role r = Tool /\ tool_call_id r = Some id) ->
  is_Some (latest_results expected candidates L !! id).
Proof.
  intros He. revert L. induction candidates as [|c cs IH]; intros L; cbn [latest_results].
  { intros [Hs|(r & Hr & _)]; [done|by apply not_elem_of_nil in Hr]. }
  intros H. apply IH. destruct H as [Hs|(r & [->|Hr]%elem_of_cons & Ht & Hi)].
  - left. destruct (negb _); [done|]. destruct (tool_call_id c) as [i|]; [|done]. destruct (mem i expected); [|done].
    destruct (decide (i = id)) as [->|]; [by rewrite lookup_insert_eq|by rewrite lookup_insert_ne].
  - left. unfold is_role, mem. rewrite !bool_decide_true by done. cbn [negb]. rewrite Hi, bool_decide_true by done. by rewrite lookup_insert_eq.
  - right. by exists r.
Qed.

Lemma attach_keeps calls : forall L id, id ∈ List.map tc_id calls -> is_Some (L !! id) ->
  exists r, r ∈ attach calls L /\ L !! id = Some r.
Proof.
  induction calls as [|c calls IH]; intros L id; cbn [List.map attach]; [by intros ?%not_elem_of_nil|].
  intros Hin Hs. destruct (decide (id = tc_id c)) as [->|Hn].
  - destruct Hs as [r Hr]. rewrite Hr. exists r. split; [by left|done].
  - apply elem_of_cons in Hin as [?|Hin]; [done|]. destruct (L !! tc_id c) as [r0|].
    + destruct (IH (delete (tc_id c) L) id Hin) as (r & Hr & El); [by rewrite lookup_delete_ne|].
      exists r. split; [by right|]. by rewrite lookup_delete_ne in El.
    + by apply IH.
Qed.

(** *** What a turn keeps, said without maps *)

(** The result of a call: the last one before the next assistant message. *)
Definition has_result_id (id : str) r : bool := is_role Tool r && bool_decide (tool_call_id r = Some id).
Definition result_for (after : list Message) (id : str) : option Message :=
  last (List.filter (has_result_id id) (before_next_assistant after)).
(** Ids, each where it comes first. *)
Fixpoint first_ids (seen ids : list str) : list str :=
  match ids with
  | [] => []
  | id :: ids => if mem id seen then first_ids seen ids else id :: first_ids (id :: seen) ids
  end.
Definition kept_results m (after : list Message) : list Message :=
  if is_role Assistant m then omap (result_for after) (first_ids [] (List.map tc_id (tool_calls m))) else [].

(** The exchanges of a transcript: every message that is not a tool's, with the results it keeps. *)
Fixpoint exchanges (ms : list Message) : list (Message * list Message) :=
  match ms with
  | [] => []
  | m :: rest => if is_role Tool m then exchanges rest else (m, kept_results m rest) :: exchanges rest
  end.

Lemma latest_results_last expected candidates L id :
  latest_results expected candidates L !! id =
  if mem id expected then match last (List.filter (has_result_id id) candidates) with Some r => Some r | None => L !! id end else L !! id.
Proof.
  revert L. induction candidates as [|c cs IH]; intros L; cbn [latest_results List.filter]; [by case_match|]. rewrite IH. clear IH.
  destruct (mem id expected) eqn:Em.
  - unfold has_result_id at 2. destruct (is_role Tool c); cbn [negb andb]; [|done].
    destruct (bool_decide (tool_call_id c = Some id)) eqn:Ei; bools.
    + apply mem_true in Em. rewrite Ei, Em, lookup_insert_eq. cbn [last]. by destruct (List.filter _ cs); [|destruct (last _) eqn:El; [|apply last_None in El]].
    + destruct (last _); [done|]. destruct (tool_call_id c) as [i|]; [|done]. destruct (mem i expected); [|done].
      rewrite lookup_insert_ne; congruence.
  - destruct (negb _); [done|]. destruct (tool_call_id c) as [i|]; [|done]. destruct (mem i expected) eqn:Ei; [|done].
    rewrite lookup_insert_ne; congruence.
Qed.

Lemma mem_other (x id : str) seen : id <> x -> mem id (x :: seen) = mem id seen.
Proof. intros Hn. unfold mem. apply bool_decide_ext. rewrite elem_of_cons. tauto. Qed.

Lemma attach_first calls L L' seen : (forall id, L' !! id = if mem id seen then None else L !! id) ->
  attach calls L' = omap (fun id => L !! id) (first_ids seen (List.map tc_id calls)).
Proof.
  revert L' seen. induction calls as [|c calls IH]; intros L' seen HL; cbn [attach List.map first_ids]; [done|].
  rewrite HL. destruct (mem (tc_id c) seen) eqn:Em; [by apply IH|]. cbn [omap list_omap].
  destruct (L !! tc_id c) as [r|] eqn:El; [f_equal|]; apply IH; intros id.
  - destruct (decide (id = tc_id c)) as [->|Hn]; [rewrite lookup_delete_eq|rewrite lookup_delete_ne, HL by done];
      [unfold mem; by rewrite bool_decide_true by left|by rewrite mem_other].
  - rewrite HL. destruct (decide (id = tc_id c)) as [->|Hn]; [rewrite El; by repeat case_match|by rewrite mem_other].
Qed.

Lemma first_ids_in seen ids id : id ∈ first_ids seen ids <-> id ∈ ids /\ id ∉ seen.
Proof.
  revert seen. induction ids as [|x ids IH]; intros seen; cbn [first_ids]; [set_solver|].
  destruct (mem x seen) eqn:E; unfold mem in E; bools; [|rewrite elem_of_cons]; rewrite IH; [set_solver|].
  destruct (decide (id = x)); set_solver.
Qed.

Lemma turn_results_kept m rest : turn_results m rest = kept_results m rest.
Proof.
  unfold turn_results, kept_results. destruct (is_role Assistant m); [cbn [negb orb]|done].
  destruct (bool_decide (tool_calls m = [])) eqn:Ec; bools; [by rewrite Ec|].
  rewrite (attach_first _ (latest_results (List.map tc_id (tool_calls m)) (before_next_assistant rest) ∅) _ []) by done.
  assert (forall ids : list str, (forall id, id ∈ ids -> id ∈ List.map tc_id (tool_calls m)) ->
    omap (M := list) (fun id => latest_results (List.map tc_id (tool_calls m)) (before_next_assistant rest) ∅ !! id) ids =
    omap (M := list) (result_for rest) ids) as Hg.
  { induction ids as [|id ids IH]; intros Hin; [done|]. cbn [omap list_omap]. rewrite IH by (intros; apply Hin; by right).
    rewrite latest_results_last, lookup_empty. unfold mem. rewrite bool_decide_true by (apply Hin; left). unfold result_for. by destruct (last _). }
  apply Hg. intros id Hid. by apply first_ids_in in Hid as [? _].
Qed.

Lemma normalize_turns (ms : list Message) : normalize_tool_pairs ms = flat_map (fun t => fst t :: snd t) (exchanges ms).
Proof.
  induction ms as [|m ms IH]; cbn [normalize_tool_pairs exchanges]; [done|]. destruct (is_role Tool m); [done|].
  cbn [flat_map fst snd app]. by rewrite IH, turn_results_kept.
Qed.

Lemma kept_answer m rest : answers m (kept_results m rest).
Proof. rewrite <- turn_results_kept. apply turn_results_answer. Qed.

(** Before a request every tool result is put where a provider accepts it.  In the normalised transcript
    each tool message answers a call of the assistant message right before its run, in the order of the
    calls and none twice; all other messages stay as they are and in order; a call with a result before
    the next assistant message is answered; and normalising again changes nothing. *)
Theorem tool_pairs_normalized (ms : list Message) :
  paired (normalize_tool_pairs ms) /\
  List.filter not_tool (normalize_tool_pairs ms) = List.filter not_tool ms /\
  normalize_tool_pairs (normalize_tool_pairs ms) = normalize_tool_pairs ms /\
  forall before m after call r, ms = before ++ m :: after -> role m = Assistant -> call ∈ tool_calls m ->
    r ∈ before_next_assistant after -> role r = Tool -> tool_call_id r = Some (tc_id call) ->
    exists r', r' ∈ turn_results m after /\ tool_call_id r' = Some (tc_id call) /\ r' ∈ normalize_tool_pairs ms.
Proof.
  split; [apply normalize_paired|]. split; [apply normalize_keeps|]. split; [apply pairs_normalize_idem|].
  intros before m after call r -> Hm Hc Hr Ht Hi.
  assert (tc_id call ∈ List.map tc_id (tool_calls m)) as Hid by (apply list_elem_of_fmap; by exists call).
  assert (exists r', r' ∈ turn_results m after /\ tool_call_id r' = Some (tc_id call)) as (r' & Hr' & Hi').
  { unfold turn_results, is_role. rewrite (bool_decide_true (role m = Assistant)) by done.
    destruct (bool_decide (tool_calls m = [])) eqn:E; bools; [rewrite E in Hc; by apply not_elem_of_nil in Hc|].
    cbn [negb orb]. set (exp := List.map tc_id (tool_calls m)) in *.
    destruct (attach_keeps (tool_calls m) (latest_results exp (before_next_assistant after) ∅) (tc_id call) Hid) as (r' & Hr' & El).
    - apply latest_keeps; [done|]. right. by exists r.
    - exists r'. split; [done|]. by apply (latest_results_wf exp (before_next_assistant after) ∅) in El as (_ & ? & _);
        [|intros ? ? H0; rewrite lookup_empty in H0]. }
  exists r'. split_and!; [done|done|]. clear -Hr' Hm. induction before as [|b before IH]; cbn [app normalize_tool_pairs].
  - unfold is_role. rewrite bool_decide_false by (rewrite Hm; done). right. apply elem_of_app. by left.
  - destruct (is_role Tool b); [done|]. right. apply elem_of_app. by right.
Qed.
End Paired.
