(* ===== verification/ProviderStream.v ===== *)
(** * Model providers: a streamed reply

    Models what both providers do with the body of an event stream: [AnthropicStreamEmitter] with
    [parse_sse_to_provider_response] ([anthropic/client.rs]) and [OpenAiStreamEmitter] with
    [parse_sse_response] ([openai/mod.rs]) are the same code over an accumulator of their own, here a
    type with its [process_line].  An emitter takes the body in chunks as they arrive, cut anywhere, and
    hands on one line at a time; the other path waits for the whole body. *)

From S2P Require Import Prelude.
From S2P Require Import Text.
From S2P Require Import Utf8.
From S2P Require Import Provider.

(** ** The two readers *)

Definition is_eol (c : ascii) : bool := Ascii.eqb c lf || Ascii.eqb c cr.

(** [while matches!(line.last(), Some(b'\n' | b'\r')) { line.pop(); }]. *)
Definition pop_eol (line : bytes) : bytes := rev (drop_while is_eol (rev line)).

(** What the providers' accumulators come with. *)
Class SseAccumulator (Acc Reply : Type) := {
  process_line : str -> SE Acc ProviderError unit;
  finish_reply : Acc -> result Reply ProviderError;
}.

Section Emitter.
Context {Acc Reply : Type} `{SseAccumulator Acc Reply}.

Definition process_line_bytes (line : bytes) : SE Acc ProviderError unit :=
  match from_utf8 (pop_eol line) with
  | Err e => se_err (OtherFailure ("SSE line is not valid UTF-8: " ++ utf8_error_to_string e))
  | Ok line => process_line (trim line)
  end.

Record Emitter := { accumulator : Acc; active : bool; pending : bytes }.

Definition emitter_new (a : Acc) : Emitter := {| accumulator := a; active := false; pending := [] |}.

(** The loop over the line feeds in [pending]; every turn takes a byte at least. *)
Fixpoint drain_lines (fuel : nat) (e : Emitter) : Emitter * result unit ProviderError :=
  match fuel with
  | O => (e, Ok tt)
  | S fuel =>
      match position (fun b => Ascii.eqb b lf) (pending e) with
      | None => (e, Ok tt)
      | Some pos =>
          let line := firstn (S pos) (pending e) in
          let '(a, r) := process_line_bytes line (accumulator e) in
          let e := {| accumulator := a; active := active e; pending := skipn (S pos) (pending e) |} in
          match r with
          | Ok _ => drain_lines fuel e
          | Err err => (e, Err err)
          end
      end
  end.

Definition push_bytes (e : Emitter) (chunk : bytes) : Emitter * result unit ProviderError :=
  if negb (active e) then (e, Ok tt)
  else
    let p := pending e ++ chunk in
    drain_lines (length p) {| accumulator := accumulator e; active := active e; pending := p |}.

Definition emitter_begin (e : Emitter) (status : N) (headers : gmap str str) : Emitter :=
  {| accumulator := accumulator e; active := (status =? 200)%N && is_event_stream headers; pending := pending e |}.

#[export] Instance emitter_sink : HttpStreamSink Emitter := {
  sink_begin := emitter_begin;
  sink_chunk := push_bytes;
}.

(** The accumulator is returned with the result: what it has emitted stays emitted. *)
Definition emitter_finish (e : Emitter) : Acc * result Reply ProviderError :=
  let '(a, r) :=
    if active e && bool_decide (pending e <> []) then process_line_bytes (pending e) (accumulator e)
    else (accumulator e, Ok tt) in
  match r with
  | Ok _ => (a, finish_reply a)
  | Err err => (a, Err err)
  end.

(** The whole body at once. *)
Definition parse_sse_body (a : Acc) (body : bytes) : result Reply ProviderError :=
  match from_utf8 body with
  | Err e => Err (OtherFailure ("SSE body is not valid UTF-8: " ++ utf8_error_to_string e))
  | Ok text =>
      match se_for (lines text) (fun line => process_line (trim line)) a with
      | (a, Ok _) => finish_reply a
      | (_, Err e) => Err e
      end
  end.

(** *** A call's answer

    What both providers do with it: [chat] from the whole response, [chat_stream] with the emitter as
    the sink; [on_error] is the error of a status other than 200, [on_json] reads a body that is no event
    stream. *)
Context (on_error : HttpResponse -> ProviderError) (on_json : bytes -> result Reply ProviderError).

Definition chat_reply (a : Acc) (sent : result WireResponse ReqwestError) : result Reply ProviderError :=
  let? resp := http_post sent in
  if negb (http_status resp =? 200)%N then Err (on_error resp)
  else if is_event_stream (http_headers resp) then parse_sse_body a (http_body resp)
  else on_json (http_body resp).

Definition chat_stream_reply (a : Acc) (sent : result WireResponse ReqwestError) : Acc * result Reply ProviderError :=
  match http_post_stream sent (emitter_new a) with
  | (emitter, Err e) => (accumulator emitter, Err e)
  | (emitter, Ok resp) =>
      if negb (http_status resp =? 200)%N then (accumulator emitter, Err (on_error resp))
      else if is_event_stream (http_headers resp) then emitter_finish emitter
      else (accumulator emitter, on_json (http_body resp))
  end.

(** ** Chunks do not matter *)

(** The lines of a body the way the emitter sees them: an unfinished line counts when it is not empty. *)
Fixpoint stream_pieces (pieces : list str) : list str :=
  match pieces with
  | [] => []
  | [l] => if bool_decide (l = []) then [] else [l]
  | l :: rest => l :: stream_pieces rest
  end.
Definition stream_lines (body : bytes) : list str := stream_pieces (split_on lf body).

Lemma pop_eol_lf l : pop_eol (l ++ [lf]) = pop_eol l.
Proof. unfold pop_eol. by rewrite rev_app_distr. Qed.

Lemma process_line_bytes_lf l : process_line_bytes (l ++ [lf]) = process_line_bytes l.
Proof. unfold process_line_bytes. by rewrite pop_eol_lf. Qed.

(** What is at stake: the line feeds seen so far, one after the other, then the rest. *)
Definition read_lines (p : bytes) : SE Acc ProviderError unit := se_for (stream_lines p) process_line_bytes.

Lemma stream_lines_cons l r : lf ∉ l -> stream_lines (l ++ lf :: r) = l :: stream_lines r.
Proof.
  intros Hl. unfold stream_lines. rewrite split_on_app by done.
  pose proof (split_on_nonempty lf r). by destruct (split_on lf r).
Qed.

Lemma stream_lines_end p : lf ∉ p -> stream_lines p = if bool_decide (p = []) then [] else [p].
Proof. intros Hp. unfold stream_lines. by rewrite split_on_no_occ. Qed.

Lemma position_lf p :
  match position (fun b => Ascii.eqb b lf) p with
  | None => lf ∉ p
  | Some i => exists l r, p = l ++ lf :: r /\ lf ∉ l /\ firstn (S i) p = l ++ [lf] /\ skipn (S i) p = r
  end.
Proof.
  induction p as [|c p IH]; cbn [position]; [apply not_elem_of_nil|].
  destruct (Ascii.eqb_spec c lf) as [->|Hn]; [exists [], p; repeat split; apply not_elem_of_nil|].
  destruct (position _ p) as [i|]; cbn [option_map].
  - destruct IH as (l & r & -> & Hl & E1 & E2). exists (c :: l), r. cbn [app]. cbn [firstn skipn] in *.
    split_and!; [done|by apply not_elem_of_cons|by rewrite <- E1|done].
  - by apply not_elem_of_cons.
Qed.

(** Draining now and reading the rest later is reading all of it. *)
Lemma drain_then_read fuel : forall e rest, (length (pending e) <= fuel)%nat ->
  let '(e', r) := drain_lines fuel e in
  active e' = active e /\
  match r with
  | Ok _ => lf ∉ pending e' /\ read_lines (pending e ++ rest) (accumulator e) = read_lines (pending e' ++ rest) (accumulator e')
  | Err err => read_lines (pending e ++ rest) (accumulator e) = (accumulator e', Err err)
  end.
Proof.
  induction fuel as [|fuel IH]; intros e rest Hf; cbn [drain_lines].
  { destruct (pending e) as [|c p]; [|cbn in Hf; lia]. split_and!; [done|apply not_elem_of_nil|done]. }
  pose proof (position_lf (pending e)) as Hp. destruct (position _ (pending e)) as [i|]; [|by split_and!].
  destruct Hp as (l & r & Ep & Hl & -> & ->). rewrite process_line_bytes_lf.
  assert (read_lines (pending e ++ rest) = se_bind (process_line_bytes l) (fun _ => read_lines (r ++ rest))) as ->.
  { unfold read_lines. rewrite Ep, <- app_assoc. cbn [app]. by rewrite stream_lines_cons. }
  unfold se_bind. destruct (process_line_bytes l (accumulator e)) as [a [[]|err]]; [|done].
  apply (IH {| accumulator := a; active := active e; pending := r |} rest). cbn.
  rewrite Ep, length_app in Hf. cbn in Hf. lia.
Qed.

Lemma emitter_finish_read e : active e = true -> lf ∉ pending e ->
  emitter_finish e = match read_lines (pending e) (accumulator e) with
                     | (a, Ok _) => (a, finish_reply a)
                     | (a, Err err) => (a, Err err)
                     end.
Proof.
  intros Ha Hp. unfold emitter_finish, read_lines. rewrite Ha, stream_lines_end by done. cbn [andb].
  destruct (decide (pending e = [])) as [->|Hn]; [done|]. rewrite !bool_decide_true, bool_decide_false by done.
  cbn [se_for]. unfold se_bind, se_ret. by destruct (process_line_bytes _ _) as [a [[]|err]].
Qed.

(** The emitter over a body in chunks. *)
Definition run_emitter (e : Emitter) (chunks : list bytes) : Acc * result Reply ProviderError :=
  match feed chunks e with
  | (e, Ok _) => emitter_finish e
  | (e, Err err) => (accumulator e, Err err)
  end.

Lemma run_emitter_read chunks : forall e, active e = true -> lf ∉ pending e ->
  run_emitter e chunks = match read_lines (pending e ++ List.concat chunks) (accumulator e) with
                         | (a, Ok _) => (a, finish_reply a)
                         | (a, Err err) => (a, Err err)
                         end.
Proof.
  induction chunks as [|chunk chunks IH]; intros e Ha Hp; unfold run_emitter; cbn [feed List.concat].
  { rewrite app_nil_r. by apply emitter_finish_read. }
  cbn [sink_chunk emitter_sink]. unfold push_bytes. rewrite Ha. cbn [negb].
  set (e1 := {| accumulator := accumulator e; active := true; pending := pending e ++ chunk |}).
  pose proof (drain_then_read (length (pending e1)) e1 (List.concat chunks) (le_n _)) as Hd. cbn [pending accumulator e1] in Hd.
  destruct (drain_lines _ e1) as [e' [[]|err]]; destruct Hd as [Ha' Hd]; rewrite app_assoc.
  - destruct Hd as [Hp' ->]. by apply IH.
  - by rewrite Hd.
Qed.

(** ** A valid body is read alike *)

Lemma trim_pop_eol l : lf ∉ l -> trim (pop_eol l) = trim l.
Proof.
  induction l as [|c l IH] using rev_ind; [done|]. intros Hl. unfold pop_eol. rewrite rev_app_distr. cbn [rev app drop_while].
  apply not_elem_of_app in Hl as [Hl Hc]. rewrite list_elem_of_singleton in Hc. unfold is_eol at 1.
  destruct (Ascii.eqb_spec c lf) as [->|_]; [done|]. cbn [orb]. destruct (Ascii.eqb_spec c cr) as [->|_].
  - rewrite trim_cr. by apply IH.
  - cbn [rev]. by rewrite rev_involutive.
Qed.

Lemma pop_eol_prefix l : exists k, l = pop_eol l ++ k /\ Forall (fun c => is_eol c = true) k.
Proof.
  unfold pop_eol. destruct (drop_while_suffix is_eol (rev l)) as (k & E & Hk). exists (rev k). split.
  - by rewrite <- rev_app_distr, <- E, rev_involutive.
  - apply Forall_rev. apply Forall_forall. intros x Hx.
    rewrite forallb_forall in Hk. apply Hk. by apply list_elem_of_In.
Qed.

Lemma eol_ascii c : is_eol c = true -> is_ascii c = true.
Proof. unfold is_eol. intros [->%Ascii.eqb_eq| ->%Ascii.eqb_eq]%orb_true_iff; done. Qed.

Lemma valid_pop_eol l : valid_utf8 (pop_eol l) <-> valid_utf8 l.
Proof.
  destruct (pop_eol_prefix l) as (k & E & Hk). rewrite E at 2. split.
  - intros Hv. apply valid_utf8_app; [done|]. apply ascii_valid. eapply Forall_impl; [exact Hk|]. apply eol_ascii.
  - destruct Hk as [|c k Hc Hk]; [by rewrite app_nil_r|]. intros Hv.
    exact (proj1 (valid_utf8_cut _ _ _ (eol_ascii _ Hc) Hv)).
Qed.

Lemma valid_pieces p : valid_utf8 p <-> Forall valid_utf8 (stream_lines p).
Proof.
  induction p as [p IH] using (induction_ltof1 _ (@length ascii)). unfold ltof in IH.
  pose proof (position_lf p) as Hp. destruct (position _ p) as [i|].
  - destruct Hp as (l & r & -> & Hl & _ & _). rewrite stream_lines_cons, Forall_cons by done.
    rewrite <- IH by (rewrite length_app; cbn; lia). split.
    + intros Hv. by eapply valid_utf8_cut; [|exact Hv].
    + intros [Hvl Hvr]. apply valid_utf8_app; [done|]. by apply (valid_utf8_app [lf] r).
  - rewrite stream_lines_end by done. destruct (bool_decide (p = [])) eqn:E; bools.
    + subst p. split; [constructor|done].
    + by rewrite Forall_singleton.
Qed.

Lemma process_line_bytes_valid l : lf ∉ l -> valid_utf8 l -> process_line_bytes l = process_line (trim l).
Proof.
  intros Hl Hv. unfold process_line_bytes. rewrite from_utf8_ok by by apply valid_pop_eol. by rewrite trim_pop_eol.
Qed.

Lemma strip_suffix_cr l : trim (unwrap_or (strip_suffix [cr] l) l) = trim l.
Proof. destruct (strip_suffix [cr] l) as [u|] eqn:E; [|done]. apply strip_suffix_Some in E as ->. by rewrite trim_cr. Qed.

Lemma se_for_ext {A} (l1 l2 : list A) (m1 m2 : A -> SE Acc ProviderError unit) :
  Forall2 (fun x y => m1 x = m2 y) l1 l2 -> se_for l1 m1 = se_for l2 m2.
Proof. induction 1 as [|x y l1 l2 Hxy _ IH]; cbn [se_for]; [done|]. by rewrite Hxy, IH. Qed.

Lemma read_lines_valid p : valid_utf8 p -> read_lines p = se_for (lines p) (fun line => process_line (trim line)).
Proof.
  intros Hv%valid_pieces. unfold read_lines. apply se_for_ext. unfold stream_lines, lines in *.
  assert (Forall (fun w => lf ∉ w) (split_on lf p)) as Hn by (apply Forall_forall; intros w; apply split_on_no_sep).
  induction Hn as [|w ws Hw Hn IH]; [constructor|]. destruct ws as [|w2 ws].
  - cbn [stream_pieces lines_of] in *. unfold str_eqb. destruct (decide (w = [])) as [->|Hne]; [constructor|].
    rewrite bool_decide_false in Hv by done. repeat rewrite bool_decide_false by done. apply Forall_cons in Hv as [Hv _].
    constructor; [by apply process_line_bytes_valid|constructor].
  - change (stream_pieces (w :: w2 :: ws)) with (w :: stream_pieces (w2 :: ws)) in *.
    change (lines_of (w :: w2 :: ws)) with (unwrap_or (strip_suffix [cr] w) w :: lines_of (w2 :: ws)).
    apply Forall_cons in Hv as [Hv1 Hv]. constructor; [|by apply IH].
    by rewrite strip_suffix_cr, process_line_bytes_valid.
Qed.

(** A body that is not text fails in both readers. *)
Lemma read_lines_invalid p a : ~ valid_utf8 p -> exists a' e, read_lines p a = (a', Err e).
Proof.
  rewrite valid_pieces. unfold read_lines. revert a. induction (stream_lines p) as [|l ls IH]; intros a Hn; [by destruct Hn|].
  cbn [se_for]. unfold se_bind. destruct (process_line_bytes l a) as [a' [[]|e]] eqn:E; [|eauto]. apply IH. intros Hls.
  apply Hn. constructor; [|done]. apply valid_pop_eol. unfold process_line_bytes in E.
  destruct (from_utf8 (pop_eol l)) as [t|] eqn:Eu; [|done]. by apply from_utf8_inv in Eu as [_ ?].
Qed.

(** ** What every line keeps, a stream keeps *)

Section Kept.
Context (P : Acc -> Prop) (process_keeps : forall line, preserves P (process_line line)).

Lemma process_line_bytes_keeps line : preserves P (process_line_bytes line).
Proof. unfold process_line_bytes. destruct (from_utf8 _); [done|apply preserves_err]. Qed.

Lemma drain_keeps fuel : forall e, P (accumulator e) -> P (accumulator (fst (drain_lines fuel e))).
Proof.
  induction fuel as [|fuel IH]; intros e He; cbn [drain_lines]; [done|]. destruct (position _ _) as [pos|]; [|done].
  pose proof (process_line_bytes_keeps (firstn (S pos) (pending e)) _ He) as Hp.
  destruct (process_line_bytes _ _) as [a [[]|err]]; [by apply IH|done].
Qed.

Lemma feed_keeps chunks : forall e, P (accumulator e) -> P (accumulator (fst (feed chunks e))).
Proof.
  induction chunks as [|c cs IH]; intros e He; cbn [feed sink_chunk emitter_sink]; [done|].
  assert (P (accumulator (fst (push_bytes e c)))) as Hp by (unfold push_bytes; destruct (active e); [by apply drain_keeps|done]).
  destruct (push_bytes e c) as [e' [[]|err]]; [by apply IH|done].
Qed.

Lemma chat_stream_reply_keeps a sent : P a -> P (fst (chat_stream_reply a sent)).
Proof.
  intros Ha. unfold chat_stream_reply, http_post_stream. destruct sent as [resp|err]; [|done].
  pose proof (feed_keeps (wire_chunks resp) (sink_begin (emitter_new a) (wire_status resp) (collect_headers (wire_headers resp))) Ha) as Hf.
  destruct (feed _ _) as [e [[]|err]]; cbn [fst] in Hf; [|done]. destruct (wire_failure resp); [done|].
  repeat case_match; try done. unfold emitter_finish.
  destruct (active e && _); cbn; [|done]. pose proof (process_line_bytes_keeps (pending e) _ Hf) as Hp.
  by destruct (process_line_bytes _ _) as [a' [[]|err]].
Qed.
End Kept.

(** A reply read from an event stream is made from the accumulator that is left. *)
Lemma chat_stream_reply_ok a resp r :
  snd (chat_stream_reply a (Ok resp)) = Ok r ->
  let headers := collect_headers (wire_headers resp) in
  (is_event_stream headers = true /\ finish_reply (fst (chat_stream_reply a (Ok resp))) = Ok r) \/
  (is_event_stream headers = false /\ on_json (List.concat (wire_chunks resp)) = Ok r).
Proof.
  unfold chat_stream_reply, http_post_stream. destruct (feed _ _) as [e [[]|err]]; [|done]. destruct (wire_failure resp); [done|].
  cbn [http_status http_headers http_body]. destruct (negb _); [done|].
  destruct (is_event_stream _); [|by right]. intros Hr. left. split; [done|]. revert Hr. unfold emitter_finish.
  destruct (if active e && _ then _ else _) as [a' [[]|err]]; [done|]. by intros [=].
Qed.

(** A line that fails on any accumulator fails the body. *)
Lemma failing_line_fails a body line :
  line ∈ lines body -> (forall a, exists e, snd (process_line (trim line) a) = Err e) -> exists e, parse_sse_body a body = Err e.
Proof.
  intros Hin Hf. unfold parse_sse_body. destruct (from_utf8 body) as [t|] eqn:Eu; [|eauto]. apply from_utf8_inv in Eu as [-> _].
  assert (forall a, exists a' e, se_for (lines body) (fun line => process_line (trim line)) a = (a', Err e)) as Hl.
  { clear a. induction (lines body) as [|l ls IH]; intros a; [by apply not_elem_of_nil in Hin|]. cbn [se_for]. unfold se_bind.
    destruct (process_line (trim l) a) as [a' [[]|e]] eqn:E; [|eauto]. apply elem_of_cons in Hin as [->|Hin]; [|by apply IH].
    destruct (Hf a) as [e He]. by rewrite E in He. }
  destruct (Hl a) as (a' & e & ->). eauto.
Qed.

(** ** The two calls agree

    [R] relates accumulators that differ in what they have emitted only. *)
Context (R : Acc -> Acc -> Prop) (process_step : forall line, in_step R eq (process_line line) (process_line line)).
Context (finish_same : forall a1 a2, R a1 a2 -> finish_reply a1 = finish_reply a2).

(** The same reply, or a failure of each. *)
Definition same_outcome (r1 r2 : result Reply ProviderError) : Prop :=
  match r1, r2 with Ok x, Ok y => x = y | Err _, Err _ => True | _, _ => False end.

Lemma same_outcome_refl r : same_outcome r r.
Proof. by destruct r. Qed.

Lemma lines_step ls : in_step R eq (se_for ls (fun line => process_line (trim line))) (se_for ls (fun line => process_line (trim line))).
Proof.
  induction ls as [|l ls IH]; cbn [se_for]; [by apply step_ret|]. eapply step_bind; [apply process_step|]. by intros ? ? _.
Qed.

Lemma body_valid a1 a2 body : R a1 a2 -> valid_utf8 body ->
  parse_sse_body a1 body = match read_lines body a2 with
                           | (a, Ok _) => finish_reply a
                           | (_, Err e) => Err e
                           end.
Proof.
  intros Ha Hv. unfold parse_sse_body. rewrite from_utf8_ok, read_lines_valid by done.
  destruct (lines_step (lines body) a1 a2 Ha) as [Hs Hr].
  destruct (se_for _ _ a1) as [b1 [[]|e1]], (se_for _ _ a2) as [b2 [[]|e2]]; cbn in Hs, Hr; [by apply finish_same|done..|by subst e2].
Qed.

Lemma body_invalid a body : ~ valid_utf8 body -> exists e, parse_sse_body a body = Err e.
Proof.
  intros Hn. unfold parse_sse_body. destruct (from_utf8 body) as [t|] eqn:E; [by apply from_utf8_inv in E as [-> ?]|eauto].
Qed.

Lemma body_outcome a1 a2 body : R a1 a2 ->
  same_outcome (parse_sse_body a1 body) (match read_lines body a2 with (a, Ok _) => finish_reply a | (_, Err e) => Err e end).
Proof.
  intros Ha. destruct (validate 0 0 body) as [[]|] eqn:Ev.
  - rewrite (body_valid a1 a2) by done. apply same_outcome_refl.
  - assert (~ valid_utf8 body) as Hn by (unfold valid_utf8; by rewrite Ev).
    destruct (body_invalid a1 body Hn) as [e1 ->]. by destruct (read_lines_invalid body a2 Hn) as (a' & e' & ->).
Qed.

Lemma feed_inactive chunks (e : Emitter) : active e = false -> feed chunks e = (e, Ok tt).
Proof. intros Ha. induction chunks as [|c cs IH]; cbn [feed]; [done|]. cbn. unfold push_bytes. by rewrite Ha. Qed.

Lemma streamed_whole resp a1 a2 :
  R a1 a2 -> wire_failure resp = None ->
  same_outcome (chat_reply a1 (Ok resp)) (snd (chat_stream_reply a2 (Ok resp))) /\
  (valid_utf8 (List.concat (wire_chunks resp)) -> chat_reply a1 (Ok resp) = snd (chat_stream_reply a2 (Ok resp))).
Proof.
  intros Ha Hf. unfold chat_reply, chat_stream_reply, http_post, http_post_stream. rewrite Hf. cbn.
  cbn [sink_begin emitter_sink]. unfold emitter_begin. cbn [accumulator emitter_new pending].
  set (act := (wire_status resp =? 200)%N && is_event_stream (collect_headers (wire_headers resp))).
  set (em := {| accumulator := a2; active := act; pending := [] |}). cbn [http_status http_headers http_body].
  destruct act eqn:Eact.
  - assert (act = true) as (E1 & E2)%andb_true_iff by done. rewrite E1, E2. cbn [negb].
    assert (snd (run_emitter em (wire_chunks resp)) =
            match read_lines (List.concat (wire_chunks resp)) a2 with (a, Ok _) => finish_reply a | (_, Err err) => Err err end) as E.
    { rewrite run_emitter_read by (done || apply not_elem_of_nil). cbn [pending accumulator em app].
      by destruct (read_lines _ a2) as [a [[]|err]]. }
    assert (snd (match feed (wire_chunks resp) em with
                 | (e, Ok _) => emitter_finish e
                 | (e, Err err) => (accumulator e, Err err)
                 end) = snd (run_emitter em (wire_chunks resp))) as Eg by done.
    rewrite E in Eg. clear E. destruct (feed (wire_chunks resp) em) as [e' [[]|err]]; cbn [http_status http_headers http_body]; rewrite ?E1, ?E2; cbn [negb].
    + rewrite Eg. split; [by apply body_outcome|by apply body_valid].
    + cbn [snd] in Eg |- *. rewrite Eg. split; [by apply body_outcome|by apply body_valid].
  - rewrite feed_inactive by done. cbn [http_status http_headers http_body].
    destruct (wire_status resp =? 200)%N; cbn [negb]; [|by split].
    assert (is_event_stream (collect_headers (wire_headers resp)) = false) as -> by done.
    cbn [snd]. split; [apply same_outcome_refl|done].
Qed.

Lemma streamed_agrees sent a1 a2 :
  R a1 a2 ->
  same_outcome (chat_reply a1 sent) (snd (chat_stream_reply a2 sent)) /\
  (match sent with Ok resp => wire_failure resp = None /\ valid_utf8 (List.concat (wire_chunks resp)) | Err _ => True end ->
   chat_reply a1 sent = snd (chat_stream_reply a2 sent)).
Proof.
  intros Ha. destruct sent as [resp|err]; [|by split]. destruct (wire_failure resp) as [err|] eqn:Ef.
  - split; [|by intros [? _]]. unfold chat_reply, chat_stream_reply, http_post, http_post_stream. rewrite Ef. cbn.
    by destruct (feed _ _) as [e' [[]|]].
  - destruct (streamed_whole resp a1 a2 Ha Ef) as [Ho Hv]. split; [done|]. intros [_ ?]. by apply Hv.
Qed.
End Emitter.

Arguments Emitter : clear implicits.
