(* ===== verification/AnthropicApi.v ===== *)
(** * The Anthropic provider: requests and whole replies

    Models [crates/simulacra-provider/src/anthropic/api_types.rs] and [cache_breakpoints.rs]: the request
    a transcript becomes, with the prefixes a host marked for caching, and the reply a response becomes.
    A request's body is the JSON value it serialises to; the order of a body's keys is left out, and so is
    the deserialiser [serde] derives for responses.  Log events are left out. *)

From S2P Require Import Prelude.
From S2P Require Import Text.
From S2P Require Import Context.
From S2P Require Import Journal.
From S2P Require Import LlmReplay.
From S2P Require Import Json.
From S2P Require Import Provider.

Section Api.
Context {Value : Type} `{JsonOps Value}.
Abbreviation Message := (@Message Value).
Abbreviation ProviderContentBlock := (@ProviderContentBlock Value).
Abbreviation ToolCallMessage := (@ToolCallMessage Value).

(** ** Requests *)

Inductive ApiRequestContentBlock :=
| TextBlock (text : str)
| ToolUseBlock (id name : str) (input : Value)
| ToolResultBlock (tool_use_id : str) (content : ToolResultContent) (is_error : bool)
| ImageBlock (source : Value)
| ThinkingBlock (thinking : str) (signature : option str)
| RedactedThinkingBlock (data : str)
with ToolResultContent :=
| ResultText (text : str)
| ResultBlocks (blocks : list ApiRequestContentBlock).

Variant ApiMessageContent :=
| TextContent (text : str)
| Blocks (blocks : list ApiRequestContentBlock).

Record ApiMessage := { api_role : str; api_content : ApiMessageContent }.

(** [cache_control] is [Some(EPHEMERAL)] or [None]. *)
Record ApiRequest := {
  req_model : str;
  req_max_tokens : N;
  req_messages : list ApiMessage;
  req_system : option str;
  req_tools : list (ToolDefinition Value);
  req_cache_control : bool;
  req_cache_breakpoints : list nat;
}.

(** *** Their JSON *)

Definition opt_field (key : str) (v : option Value) : list (str * Value) :=
  match v with Some v => [(key, v)] | None => [] end.
Definition ephemeral : Value := json_object ["type" ↦ json_string (lit "ephemeral")].

Fixpoint block_value (b : ApiRequestContentBlock) : Value :=
  match b with
  | TextBlock text => json_object ["type" ↦ json_string (lit "text"); "text" ↦ json_string text]
  | ToolUseBlock id name input =>
      json_object ["type" ↦ json_string (lit "tool_use"); "id" ↦ json_string id; "name" ↦ json_string name; "input" ↦ input]
  | ToolResultBlock tool_use_id content is_error =>
      json_object (["type" ↦ json_string (lit "tool_result"); "tool_use_id" ↦ json_string tool_use_id;
                    "content" ↦ match content with
                                | ResultText text => json_string text
                                | ResultBlocks blocks => json_array (List.map block_value blocks)
                                end] ++ if is_error then ["is_error" ↦ json_bool true] else [])
  | ImageBlock source => json_object ["type" ↦ json_string (lit "image"); "source" ↦ source]
  | ThinkingBlock thinking signature =>
      json_object (["type" ↦ json_string (lit "thinking"); "thinking" ↦ json_string thinking] ++
                   opt_field (lit "signature") (option_map json_string signature))
  | RedactedThinkingBlock data => json_object ["type" ↦ json_string (lit "redacted_thinking"); "data" ↦ json_string data]
  end.

Definition message_value (m : ApiMessage) : Value :=
  json_object ["role" ↦ json_string (api_role m);
               "content" ↦ match api_content m with
                           | TextContent text => json_string text
                           | Blocks blocks => json_array (List.map block_value blocks)
                           end].

Definition tool_value (t : ToolDefinition Value) : Value :=
  json_object ["name" ↦ json_string (def_name t); "description" ↦ json_string (def_description t); "input_schema" ↦ input_schema t].

Definition request_value (r : ApiRequest) : Value :=
  json_object (["model" ↦ json_string (req_model r); "max_tokens" ↦ json_number (req_max_tokens r);
                "messages" ↦ json_array (List.map message_value (req_messages r))] ++
               opt_field (lit "system") (option_map json_string (req_system r)) ++
               opt_field (lit "tools") (if bool_decide (req_tools r = []) then None
                                        else Some (json_array (List.map tool_value (req_tools r)))) ++
               opt_field (lit "cache_control") (if req_cache_control r then Some ephemeral else None)).

(** *** Cache breakpoints ([cache_breakpoints.rs]) *)

Definition MARKER : str := "cache_breakpoint_before".
Definition MAX_EXPLICIT : nat := 3.

Definition is_marker (b : ProviderContentBlock) : bool :=
  str_eqb (pc_provider b) "anthropic" && bool_decide (get_str (lit "type") (pc_value b) = Some MARKER).
Definition is_marked (m : Message) : bool := existsb is_marker (provider_content m).
Definition only_markers (blocks : list ProviderContentBlock) : bool := forallb is_marker blocks.

Definition cacheable (block : Value) : bool :=
  match get_str (lit "type") block with
  | Some t =>
      if str_eqb t "thinking" || str_eqb t "redacted_thinking" then false
      else if str_eqb t "text" then
        match get_str (lit "text") block with Some text => bool_decide (text <> []) | None => false end
      else true
  | None => true
  end.

(** [f] on [v.get_mut(key)]. *)
Definition update_field (key : str) (f : Value -> Value) (v : Value) : Value :=
  match value_get key v with Some x => set_field key (f x) v | None => v end.
Definition update_item (index : nat) (f : Value -> Value) (v : Value) : Value :=
  match as_array v with Some items => json_array (alter f index items) | None => v end.

Fixpoint update_first {A} (p : A -> bool) (f : A -> A) (l : list A) : list A :=
  match l with
  | [] => []
  | x :: l => if p x then f x :: l else x :: update_first p f l
  end.

(** The last cacheable block of a list gets the control. *)
Definition mark_last (blocks : list Value) : list Value :=
  rev (update_first cacheable (set_field (lit "cache_control") ephemeral) (rev blocks)).

Definition mark_content (content : Value) : Value :=
  match as_str content with
  | Some text =>
      if str_eqb text [] then content
      else json_array (mark_last [json_object ["type" ↦ json_string (lit "text"); "text" ↦ json_string text]])
  | None =>
      match as_array content with
      | Some blocks => json_array (mark_last blocks)
      | None => content
      end
  end.

Definition apply_breakpoints (body : Value) (messages : list nat) : Value :=
  fold_left (fun body index =>
      update_field (lit "messages") (update_item index (update_field (lit "content") mark_content)) body)
    (skipn (length messages - MAX_EXPLICIT) messages) body.

Definition request_body (r : ApiRequest) : Value :=
  if bool_decide (req_cache_breakpoints r = []) then request_value r
  else apply_breakpoints (request_value r) (req_cache_breakpoints r).

(** *** Building one *)

Definition is_anthropic (b : ProviderContentBlock) : bool := str_eqb (pc_provider b) "anthropic".

Definition provider_block (b : ProviderContentBlock) : option ApiRequestContentBlock :=
  let value := pc_value b in
  match get_str (lit "type") value with
  | Some t =>
      if str_eqb t "thinking" then Some (ThinkingBlock (get_text (lit "thinking") value) (get_str (lit "signature") value))
      else if str_eqb t "redacted_thinking" then Some (RedactedThinkingBlock (get_text (lit "data") value))
      else None
  | None => None
  end.

Definition anthropic_provider_blocks (content : list ProviderContentBlock) : list ApiRequestContentBlock :=
  omap provider_block (List.filter is_anthropic content).

Definition anthropic_tool_result_images (blocks : list ProviderContentBlock) : list ApiRequestContentBlock :=
  List.map (fun b => ImageBlock (unwrap_or (value_get (lit "source") (pc_value b)) json_null))
    (List.filter (fun b => bool_decide (get_str (lit "type") (pc_value b) = Some (lit "image"))) (List.filter is_anthropic blocks)).

Definition text_blocks (content : str) : list ApiRequestContentBlock :=
  if str_eqb content [] then [] else [TextBlock content].

Definition assistant_blocks (msg : Message) : list ApiRequestContentBlock :=
  anthropic_provider_blocks (provider_content msg) ++ text_blocks (content msg) ++
  List.map (fun tc => ToolUseBlock (tc_id tc) (tc_name tc) (tc_arguments tc)) (tool_calls msg).

(** The messages on the wire for one of the transcript: one or none, and none for a system message. *)
Definition wire_message (msg : Message) : list ApiMessage :=
  match role msg with
  | System => []
  | User => [{| api_role := "user"; api_content := TextContent (content msg) |}]
  | Assistant =>
      let blocks := assistant_blocks msg in
      if bool_decide (blocks = []) then []
      else
        let content :=
          if only_markers (provider_content msg) && (length blocks =? 1)%nat && bool_decide (tool_calls msg = [])
          then TextContent (content msg) else Blocks blocks in
        [{| api_role := "assistant"; api_content := content |}]
  | Tool =>
      match tool_call_id msg with
      | None => []
      | Some tool_call_id =>
          let images := anthropic_tool_result_images (provider_content msg) in
          let result :=
            if bool_decide (images = []) then ResultText (content msg)
            else ResultBlocks (text_blocks (content msg) ++ images) in
          [{| api_role := "user"; api_content := Blocks [ToolResultBlock tool_call_id result false] |}]
      end
  end.

(** The loop's three variables. *)
Record Parts := { system_text : option str; api_messages : list ApiMessage; cache_breakpoints : list nat }.

Definition add_message (p : Parts) (msg : Message) : Parts :=
  {| system_text :=
       if is_role System msg then
         Some (match system_text p with
               | Some existing => existing ++ [lf; lf] ++ content msg
               | None => content msg
               end)
       else system_text p;
     api_messages := api_messages p ++ wire_message msg;
     cache_breakpoints :=
       if negb (is_role System msg) && is_marked msg && negb (bool_decide (api_messages p = []))
       then cache_breakpoints p ++ [length (api_messages p) - 1]%nat else cache_breakpoints p |}.

Definition build_parts (normalized : list Message) : Parts :=
  fold_left add_message normalized {| system_text := None; api_messages := []; cache_breakpoints := [] |}.

Definition build_request_parts (messages : list Message) (tools : list (ToolDefinition Value)) (model : str) (max_tokens : N) : ApiRequest :=
  let p := build_parts (normalize_tool_pairs messages) in
  {| req_model := model; req_max_tokens := max_tokens; req_messages := api_messages p; req_system := system_text p;
     req_tools := tools; req_cache_control := false; req_cache_breakpoints := cache_breakpoints p |}.

(** ** Replies *)

Variant ApiResponseContentBlock :=
| TextPart (text : str)
| ToolUsePart (id name : str) (input : Value)
| ThinkingPart (thinking : str) (signature : option str)
| RedactedThinkingPart (data : str).

Record ApiUsage := {
  api_input_tokens : N;
  api_output_tokens : N;
  api_cache_read_input_tokens : N;
  api_cache_creation_input_tokens : N;
}.

Record ApiResponse := {
  resp_id : str;
  resp_content : list ApiResponseContentBlock;
  resp_model : str;
  resp_stop_reason : option str;
  resp_usage : ApiUsage;
}.

Definition map_stop_reason (stop_reason : option str) : FinishReason :=
  match stop_reason with
  | Some r =>
      if str_eqb r "tool_use" then ToolUse
      else if str_eqb r "end_turn" then EndTurn
      else if str_eqb r "max_tokens" then MaxTokens
      else if str_eqb r "stop_sequence" then StopSequence
      else if str_eqb r "refusal" then RefusalReason
      else Other (sanitize_other_reason r)
  | None => Other "missing"
  end.

Definition drop_tool_calls_unless_tool_use (finish_reason : FinishReason) (tool_calls : list ToolCallMessage) : list ToolCallMessage :=
  if bool_decide (finish_reason = ToolUse) || bool_decide (tool_calls = []) then tool_calls else [].

(** [json!] of the blocks a reply keeps for the next request. *)
Definition thinking_value (thinking : str) (signature : option str) : Value :=
  json_object ["type" ↦ json_string (lit "thinking"); "thinking" ↦ json_string thinking; "signature" ↦ json_opt_string signature].
Definition redacted_value (data : str) : Value :=
  json_object ["type" ↦ json_string (lit "redacted_thinking"); "data" ↦ json_string data].
Definition anthropic_block (value : Value) : ProviderContentBlock := {| pc_provider := "anthropic"; pc_value := value |}.

(** The loop's three variables, as what a block adds to each. *)
Definition part_text (b : ApiResponseContentBlock) : str := match b with TextPart text => text | _ => [] end.
Definition part_call (b : ApiResponseContentBlock) : option ToolCallMessage :=
  match b with ToolUsePart id name input => Some {| tc_id := id; tc_name := name; tc_arguments := input |} | _ => None end.
Definition part_block (b : ApiResponseContentBlock) : option ProviderContentBlock :=
  match b with
  | ThinkingPart thinking signature => Some (anthropic_block (thinking_value thinking signature))
  | RedactedThinkingPart data => Some (anthropic_block (redacted_value data))
  | _ => None
  end.

Definition into_provider_response (resp : ApiResponse) : ProviderReply Value :=
  let finish_reason := map_stop_reason (resp_stop_reason resp) in
  let usage := resp_usage resp in
  {| reply_response :=
       {| response_message :=
            {| role := Assistant;
               content := List.concat (List.map part_text (resp_content resp));
               tool_calls := drop_tool_calls_unless_tool_use finish_reason (omap part_call (resp_content resp));
               tool_call_id := None;
               provider_content := omap part_block (resp_content resp) |};
          response_usage :=
            {| input_tokens := saturating_add (saturating_add (api_input_tokens usage) (api_cache_read_input_tokens usage))
                                 (api_cache_creation_input_tokens usage);
               output_tokens := api_output_tokens usage;
               cache_read_input_tokens := api_cache_read_input_tokens usage;
               cache_write_input_tokens := api_cache_creation_input_tokens usage |};
          finish_reason := finish_reason;
          response_model := resp_model resp |};
     provider_response_id := Some (resp_id resp) |}.

(** ** A request pairs every result with its call *)

Definition blocks_of (m : ApiMessage) : list ApiRequestContentBlock :=
  match api_content m with Blocks blocks => blocks | TextContent _ => [] end.
Definition use_ids (m : ApiMessage) : list str :=
  omap (fun b => match b with ToolUseBlock id _ _ => Some id | _ => None end) (blocks_of m).
Definition result_ids (m : ApiMessage) : list str :=
  omap (fun b => match b with ToolResultBlock id _ _ => Some id | _ => None end) (blocks_of m).

(** Each message that carries results comes in the run right after the message that carries their calls,
    which it answers in order and without repetition; [strict], which a provider asks for, when no call is
    left unanswered. *)
Inductive wire_paired (strict : bool) : list ApiMessage -> Prop :=
| wire_nil : wire_paired strict []
| wire_turn m results rest :
    result_ids m = [] -> Forall (fun r => use_ids r = []) results ->
    NoDup (List.concat (List.map result_ids results)) ->
    List.concat (List.map result_ids results) `sublist_of` use_ids m ->
    (strict = true -> forall id, id ∈ use_ids m -> id ∈ List.concat (List.map result_ids results)) ->
    wire_paired strict rest -> wire_paired strict (m :: results ++ rest).

(** Every call of an assistant message has a result before the next assistant message. *)
Fixpoint all_answered (ms : list Message) : bool :=
  match ms with
  | [] => true
  | m :: rest =>
      (negb (is_role Assistant m) ||
       forallb (fun c => existsb (has_result_id (tc_id c)) (before_next_assistant rest)) (tool_calls m)) && all_answered rest
  end.

(** What the user said and what the assistant called, of a transcript and of a request. *)
Definition user_texts (ms : list Message) : list str := List.map content (List.filter (is_role User) ms).
Definition called (ms : list Message) : list (str * str * Value) :=
  flat_map (fun m => List.map (fun c => (tc_id c, tc_name c, tc_arguments c)) (tool_calls m)) (List.filter (is_role Assistant) ms).
Definition sent_texts (ws : list ApiMessage) : list str :=
  omap (fun w => match api_content w with
                 | TextContent text => if str_eqb (api_role w) "user" then Some text else None
                 | Blocks _ => None
                 end) ws.
Definition sent_calls (ws : list ApiMessage) : list (str * str * Value) :=
  flat_map (fun w => omap (fun b => match b with ToolUseBlock id name input => Some (id, name, input) | _ => None end) (blocks_of w)) ws.

Lemma build_api_messages (ms : list Message) (p : Parts) :
  api_messages (fold_left add_message ms p) = api_messages p ++ List.concat (List.map wire_message ms).
Proof.
  revert p. induction ms as [|m ms IH]; intros p; cbn [fold_left List.map List.concat]; [by rewrite app_nil_r|].
  rewrite IH. cbn [add_message api_messages]. by rewrite app_assoc.
Qed.

Lemma build_system_text (ms : list Message) (p : Parts) :
  system_text (fold_left add_message ms p) =
  match match system_text p with Some s => [s] | None => [] end ++ List.map content (List.filter (is_role System) ms) with
  | [] => None
  | texts => Some (join [lf; lf] texts)
  end.
Proof.
  revert p. induction ms as [|m ms IH]; intros p; cbn [fold_left List.filter List.map]; [rewrite app_nil_r; by destruct (system_text p)|].
  rewrite IH. cbn [add_message system_text]. destruct (is_role System m); [|done].
  destruct (system_text p) as [s|]; cbn [app List.map]; [|done].
  destruct (List.map content (List.filter (is_role System) ms)) as [|t ts]; cbn [join]; by rewrite <- ?app_assoc.
Qed.

Definition is_block (f : ApiRequestContentBlock -> option str) : Prop :=
  (forall t s, f (ThinkingBlock t s) = None) /\ (forall d, f (RedactedThinkingBlock d) = None) /\ (forall t, f (TextBlock t) = None).

Lemma omap_assistant (f : ApiRequestContentBlock -> option str) m : is_block f ->
  omap f (assistant_blocks m) = omap (fun tc => f (ToolUseBlock (tc_id tc) (tc_name tc) (tc_arguments tc))) (tool_calls m).
Proof.
  intros (Ht & Hr & Hx). unfold assistant_blocks. rewrite !omap_app.
  assert (omap f (anthropic_provider_blocks (provider_content m)) = []) as ->.
  { assert (forall b, provider_block b ≫= f = None) as Hb.
    { intros b. unfold provider_block. repeat case_match; cbn; auto. }
    unfold anthropic_provider_blocks. induction (List.filter _ _) as [|b bs IH]; [done|]. specialize (Hb b). cbn [omap list_omap].
    destruct (provider_block b) as [x|]; [|done]. cbn in Hb. cbn [omap list_omap]. by rewrite Hb. }
  assert (omap f (text_blocks (content m)) = []) as ->.
  { unfold text_blocks. destruct (str_eqb _ _); [done|]. cbn. by rewrite Hx. }
  cbn [app]. induction (tool_calls m) as [|tc tcs IH]; [done|]. cbn. by rewrite IH.
Qed.

Lemma assistant_ids m :
  omap (fun b => match b with ToolUseBlock id _ _ => Some id | _ => None end) (assistant_blocks m) = List.map tc_id (tool_calls m) /\
  omap (fun b => match b with ToolResultBlock id _ _ => Some id | _ => None end) (assistant_blocks m) = [].
Proof.
  rewrite !omap_assistant by done. induction (tool_calls m) as [|tc tcs [IH1 IH2]]; [done|]. cbn. by rewrite IH1, IH2.
Qed.

Lemma wire_assistant m : role m = Assistant -> (wire_message m = [] /\ tool_calls m = []) \/
  exists w, wire_message m = [w] /\ result_ids w = [] /\ use_ids w = List.map tc_id (tool_calls m).
Proof.
  intros Hr. destruct (assistant_ids m) as [Hu Hi]. unfold wire_message. rewrite Hr.
  destruct (bool_decide (assistant_blocks m = [])) eqn:Eb; bools.
  - left. split; [done|]. rewrite Eb in Hu. cbn in Hu. by destruct (tool_calls m).
  - right. eexists. split; [done|]. unfold result_ids, use_ids, blocks_of. cbn [api_content].
    destruct (only_markers _ && _); cbn [andb]; [|done]. destruct (bool_decide (tool_calls m = [])) eqn:Et; bools; [by rewrite Et|done].
Qed.

Lemma wire_tool m id : role m = Tool -> tool_call_id m = Some id ->
  exists w, wire_message m = [w] /\ use_ids w = [] /\ result_ids w = [id].
Proof. intros Hr Hi. unfold wire_message. rewrite Hr, Hi. by eexists. Qed.

Lemma wire_results results ids : Forall (fun r => role r = Tool) results -> List.map tool_call_id results = List.map Some ids ->
  let ws := List.concat (List.map wire_message results) in
  Forall (fun w => use_ids w = []) ws /\ List.concat (List.map result_ids ws) = ids.
Proof.
  intros Ht. revert ids. induction Ht as [|r rs Hr _ IH]; intros [|id ids] Em; try discriminate; [done|].
  cbn in Em. injection Em as Ei Em. destruct (wire_tool r id Hr Ei) as (w & Ew & Hu & Hi). destruct (IH ids Em) as [H1 H2].
  cbn [List.map List.concat]. rewrite Ew. cbn [app List.map List.concat]. split; [by constructor|]. by rewrite Hi, H2.
Qed.

Lemma kept_ids (m : Message) rest (ids : list str) : List.map tool_call_id (kept_results m rest) = List.map Some ids -> role m = Assistant ->
  forallb (fun c => existsb (has_result_id (tc_id c)) (before_next_assistant rest)) (tool_calls m) = true ->
  forall id, id ∈ List.map tc_id (tool_calls m) -> id ∈ ids.
Proof.
  intros Em Hr Ha id Hid. apply list_elem_of_fmap in Hid as (c & -> & Hc).
  assert (existsb (has_result_id (tc_id c)) (before_next_assistant rest) = true) as He
    by (rewrite forallb_forall in Ha; apply Ha; by apply list_elem_of_In).
  assert (exists r, result_for rest (tc_id c) = Some r /\ tool_call_id r = Some (tc_id c)) as (r & Er & Ei).
  { unfold result_for. apply existsb_exists in He as (x & Hx & Hi). destruct (last _) as [r|] eqn:El.
    - exists r. split; [done|]. apply last_Some_elem_of, list_elem_of_In, filter_In in El as [_ El].
      unfold has_result_id in El. by apply andb_true_iff in El as [_ ?%bool_decide_eq_true].
    - apply last_None in El. assert (In x []) as []. rewrite <- El. by apply filter_In. }
  assert (r ∈ kept_results m rest) as Hk.
  { unfold kept_results, is_role. rewrite bool_decide_true by done. apply list_elem_of_omap. exists (tc_id c). split; [|done].
    apply first_ids_in. split; [apply list_elem_of_fmap; by exists c|by apply not_elem_of_nil]. }
  assert (Some (tc_id c) ∈ List.map Some ids) as Hs by (rewrite <- Em; apply list_elem_of_fmap; by exists r).
  apply list_elem_of_fmap in Hs as (? & [= ->] & ?). done.
Qed.

(** The messages on the wire for a turn. *)
Definition wire_turns (t : Message * list Message) : list ApiMessage := wire_message (fst t) ++ flat_map wire_message (snd t).

Lemma turns_paired strict (ms : list Message) : (strict = true -> all_answered ms = true) -> wire_paired strict (flat_map wire_turns (exchanges ms)).
Proof.
  induction ms as [|m ms IH]; intros Hall; cbn [exchanges]; [constructor|].
  assert (wire_paired strict (flat_map wire_turns (exchanges ms))) as Hrest.
  { apply IH. intros E. specialize (Hall E). cbn [all_answered] in Hall. by apply andb_true_iff in Hall as [_ ?]. }
  destruct (is_role Tool m) eqn:Et; [done|]. cbn [flat_map]. unfold wire_turns at 1. cbn [fst snd]. rewrite flat_map_concat_map.
  destruct (kept_answer m ms) as [Ht (ids & Em & Hd & Hs) Hn]. destruct (wire_results (kept_results m ms) ids Ht Em) as [Hu Hi].
  cbv zeta in Hu, Hi. set (ws := List.concat (List.map wire_message (kept_results m ms))) in *.
  destruct (decide (role m = Assistant)) as [Hr|Hr].
  - destruct (wire_assistant m Hr) as [[-> Ec]|(w & -> & Hwr & Hwu)].
    + rewrite Ec in Hs. apply sublist_nil_r in Hs. subst ids. cbn in Em. apply map_eq_nil in Em. subst ws. by rewrite Em.
    + rewrite <- app_assoc. apply (wire_turn strict w ws _); [done|done|by rewrite Hi|by rewrite Hi, Hwu| |done].
      intros E id Hid. rewrite Hi. rewrite Hwu in Hid. specialize (Hall E). cbn [all_answered] in Hall.
      apply andb_true_iff in Hall as [Hall _]. unfold is_role in Hall. rewrite bool_decide_true in Hall by done. by apply (kept_ids m ms ids).
  - subst ws. rewrite (Hn Hr). cbn [List.map List.concat app]. unfold is_role in Et. bools. unfold wire_message. destruct (role m); try done.
    apply (wire_turn strict _ [] _); [done|constructor|constructor|apply sublist_nil_l|by intros _ ? ?%not_elem_of_nil|done].
Qed.

Lemma calls_of_blocks (m : Message) :
  omap (fun b => match b with ToolUseBlock id name input => Some (id, name, input) | _ => None end) (assistant_blocks m) =
  List.map (fun c => (tc_id c, tc_name c, tc_arguments c)) (tool_calls m).
Proof.
  unfold assistant_blocks. rewrite !omap_app.
  assert (forall bs, omap (fun b => match b with ToolUseBlock id name input => Some (id, name, input) | _ => None end)
    (anthropic_provider_blocks bs) = []) as ->.
  { intros bs. unfold anthropic_provider_blocks. induction (List.filter _ bs) as [|b l IH]; [done|]. cbn [omap list_omap].
    destruct (provider_block b) as [x|] eqn:E; [|done]. cbn [omap list_omap].
    unfold provider_block in E. repeat case_match; by simplify_eq. }
  assert (omap (fun b => match b with ToolUseBlock id name input => Some (id, name, input) | _ => None end) (text_blocks (content m)) = []) as ->.
  { unfold text_blocks. by destruct (str_eqb _ _). }
  cbn [app]. induction (tool_calls m) as [|c cs IH]; [done|]. cbn. by rewrite IH.
Qed.

Lemma sent_texts_app l l' : sent_texts (l ++ l') = sent_texts l ++ sent_texts l'.
Proof. apply omap_app. Qed.
Lemma sent_calls_app l l' : sent_calls (l ++ l') = sent_calls l ++ sent_calls l'.
Proof. apply flat_map_app. Qed.

Lemma wire_says (m : Message) :
  sent_texts (wire_message m) = user_texts [m] /\ sent_calls (wire_message m) = called [m].
Proof.
  unfold user_texts, called, is_role. cbn [List.filter]. unfold wire_message. destruct (role m) eqn:Er.
  - done.
  - done.
  - rewrite (bool_decide_false (Assistant = User)), (bool_decide_true (Assistant = Assistant)) by done.
    cbn [List.map flat_map]. rewrite app_nil_r, <- calls_of_blocks.
    destruct (bool_decide (assistant_blocks m = [])) eqn:Eb; bools; [by rewrite Eb|].
    unfold sent_texts, sent_calls. cbn [omap list_omap flat_map]. unfold blocks_of. cbn [api_content api_role]. rewrite app_nil_r.
    destruct (only_markers _ && _); cbn [andb]; [|done].
    destruct (bool_decide (tool_calls m = [])) eqn:Et; bools; [|done]. by rewrite calls_of_blocks, Et.
  - destruct (tool_call_id m); done.
Qed.

Lemma results_say (rs : list Message) : Forall (fun r => role r = Tool) rs ->
  sent_texts (flat_map wire_message rs) = [] /\ sent_calls (flat_map wire_message rs) = [].
Proof.
  induction 1 as [|r rs Hr _ [IH1 IH2]]; [done|]. cbn [flat_map]. rewrite sent_texts_app, sent_calls_app, IH1, IH2, !app_nil_r.
  destruct (wire_says r) as [-> ->]. unfold user_texts, called, is_role. cbn [List.filter]. by rewrite !bool_decide_false by (rewrite Hr; done).
Qed.

Lemma turns_say (ms : list Message) :
  sent_texts (flat_map wire_turns (exchanges ms)) = user_texts ms /\ sent_calls (flat_map wire_turns (exchanges ms)) = called ms.
Proof.
  induction ms as [|m ms [IH1 IH2]]; [done|]. cbn [exchanges]. unfold user_texts, called. cbn [List.filter].
  destruct (is_role Tool m) eqn:Et.
  - unfold is_role in *. bools. by rewrite !bool_decide_false by (rewrite Et; done).
  - cbn [flat_map]. rewrite sent_texts_app, sent_calls_app, IH1, IH2. unfold wire_turns. cbn [fst snd].
    rewrite sent_texts_app, sent_calls_app. destruct (results_say (kept_results m ms)) as [-> ->]; [apply (kept_answer m ms)|].
    destruct (wire_says m) as [-> ->]. unfold user_texts, called. cbn [List.filter]. rewrite !app_nil_r.
    split; [by destruct (is_role User m)|]. destruct (is_role Assistant m); [|done]. cbn [flat_map]. by rewrite app_nil_r.
Qed.

(** C28. A request says what the transcript says, for any transcript.  Its system text is the transcript's
    system messages in order with a blank line between two.  Its messages are, turn by turn, the one of
    each message that is neither the system's nor a tool's (none for an assistant message with nothing to
    send), and right after it the results kept for its calls: for each call id, where it comes first, the
    last result before the next assistant message.  So every text of the user and every call of the
    assistant is sent, in order; a result stands only in the run right after the message with the call it
    answers, in the calls' order and none twice; and no call is left unanswered when the transcript has a
    result for each before the next assistant message.  A call without one is sent unanswered: the code
    only warns. *)
Theorem request_pairs_calls (messages : list Message) tools model max_tokens :
  let r := build_request_parts messages tools model max_tokens in
  req_messages r = flat_map wire_turns (exchanges messages) /\
  sent_texts (req_messages r) = user_texts messages /\
  sent_calls (req_messages r) = called messages /\
  wire_paired (all_answered messages) (req_messages r) /\
  req_system r = match List.map content (List.filter (is_role System) messages) with
                 | [] => None
                 | texts => Some (join [lf; lf] texts)
                 end.
Proof.
  cbn. unfold build_parts. rewrite build_api_messages, build_system_text. cbn [api_messages system_text app].
  assert (List.concat (List.map wire_message (normalize_tool_pairs messages)) = flat_map wire_turns (exchanges messages)) as ->.
  { rewrite normalize_turns, <- flat_map_concat_map. induction (exchanges messages) as [|t ts IH]; [done|]. cbn [flat_map].
    by rewrite flat_map_app, IH. }
  destruct (turns_say messages). split_and!; [done|done|done|by apply turns_paired|].
  assert (forall l : list Message, List.filter (is_role System) l = List.filter (is_role System) (List.filter not_tool l)) as Hf.
  { induction l as [|m l IH]; [done|]. cbn [List.filter]. unfold not_tool at 1. destruct (is_role Tool m) eqn:Et; cbn [negb List.filter].
    - assert (is_role System m = false) as ->; [|done]. unfold is_role in *. bools. by rewrite bool_decide_false by (rewrite Et; done).
    - by rewrite <- IH. }
  by rewrite Hf, normalize_keeps, <- Hf.
Qed.
End Api.

(** ** What a reply becomes in the next request *)

Section RoundTrip.
Context {Value : Type} `{JsonLaws Value}.

(** The block on the wire for one of a response; text is gathered in one block of its own. *)
Definition returned_block (b : @ApiResponseContentBlock Value) : option (@ApiRequestContentBlock Value) :=
  match b with
  | ThinkingPart thinking signature => Some (ThinkingBlock thinking signature)
  | RedactedThinkingPart data => Some (RedactedThinkingBlock data)
  | _ => None
  end.
Definition returned_call (b : @ApiResponseContentBlock Value) : option (@ApiRequestContentBlock Value) :=
  match b with ToolUsePart id name input => Some (ToolUseBlock id name input) | _ => None end.

Definition sent_blocks (m : @ApiMessage Value) : list ApiRequestContentBlock :=
  match api_content m with Blocks blocks => blocks | TextContent text => [TextBlock text] end.

#[local] Ltac keys := repeat constructor; set_unfold; naive_solver.

Lemma provider_block_thinking thinking signature :
  provider_block (anthropic_block (thinking_value thinking signature)) = Some (ThinkingBlock thinking signature).
Proof.
  unfold provider_block, anthropic_block, thinking_value, get_text. cbn [pc_value].
  rewrite !get_str_object by keys. json_fields. cbn. by destruct signature; cbn; json_fields.
Qed.

Lemma provider_block_redacted data :
  provider_block (anthropic_block (redacted_value data)) = Some (RedactedThinkingBlock data).
Proof.
  unfold provider_block, anthropic_block, redacted_value, get_text. cbn [pc_value].
  rewrite !get_str_object by keys. by json_fields.
Qed.

Lemma part_block_returned b :
  match part_block b with Some x => provider_block x | None => None end = returned_block b /\
  match part_block b with Some x => is_anthropic x = true /\ is_marker x = false | None => True end.
Proof.
  destruct b; cbn [part_block returned_block]; try done; split; try apply provider_block_thinking; try apply provider_block_redacted.
  all: split; [done|]; unfold is_marker, anthropic_block, thinking_value, redacted_value; cbn [pc_value pc_provider];
    rewrite get_str_object by keys; by json_fields.
Qed.

Lemma returned_blocks parts : anthropic_provider_blocks (omap part_block parts) = omap returned_block parts.
Proof.
  unfold anthropic_provider_blocks. induction parts as [|b parts IH]; [done|]. cbn [omap list_omap].
  destruct (part_block_returned b) as [Hb Hp]. destruct (part_block b) as [x|].
  - destruct Hp as [Ha _]. cbn [List.filter]. rewrite Ha. cbn [omap list_omap]. rewrite Hb. by destruct (returned_block b); rewrite <- IH.
  - by rewrite <- Hb.
Qed.

Lemma only_markers_returned parts : only_markers (omap part_block parts) = true -> omap part_block parts = [] .
Proof.
  induction parts as [|b parts IH]; [done|]. cbn [omap list_omap]. destruct (part_block_returned b) as [_ Hp].
  destruct (part_block b) as [x|]; [|done]. destruct Hp as [_ Hm]. cbn. by rewrite Hm.
Qed.

Lemma returned_calls (parts : list (@ApiResponseContentBlock Value)) :
  List.map (fun tc => ToolUseBlock (tc_id tc) (tc_name tc) (tc_arguments tc)) (omap part_call parts) = omap returned_call parts.
Proof. induction parts as [|b parts IH]; [done|]. destruct b; cbn; by rewrite <- ?IH. Qed.

(** What the model said comes back to it unchanged.  The message a response becomes is sent in the next
    request as its thinking blocks, verbatim with their signatures and in order, its text, and, when the
    turn ended in tool use, its tool calls; a message with none of these is not sent. *)
Theorem reply_sent_back (resp : @ApiResponse Value) :
  let m := response_message (reply_response (into_provider_response resp)) in
  let parts := resp_content resp in
  let calls := if bool_decide (map_stop_reason (resp_stop_reason resp) = ToolUse) then omap returned_call parts else [] in
  let blocks := omap returned_block parts ++ text_blocks (List.concat (List.map part_text parts)) ++ calls in
  assistant_blocks m = blocks /\
  (blocks = [] -> wire_message m = []) /\
  (blocks <> [] -> exists w, wire_message m = [w] /\ api_role w = lit "assistant" /\ sent_blocks w = blocks).
Proof.
  cbv zeta. set (m := response_message _). set (blocks := _ ++ _ ++ _).
  assert (assistant_blocks m = blocks) as E.
  { unfold assistant_blocks. change (provider_content m) with (omap part_block (resp_content resp)). rewrite returned_blocks.
    unfold blocks. f_equal. change (content m) with (List.concat (List.map part_text (resp_content resp))). f_equal.
    change (tool_calls m) with (drop_tool_calls_unless_tool_use (map_stop_reason (resp_stop_reason resp)) (omap part_call (resp_content resp))).
    unfold drop_tool_calls_unless_tool_use. destruct (bool_decide _); cbn [orb]; [apply returned_calls|].
    by destruct (bool_decide (_ = [])) eqn:En; bools; [rewrite En|]. }
  split; [done|]. unfold wire_message. change (role m) with Assistant. cbv beta iota zeta. rewrite E. split.
  - intros ->. by rewrite bool_decide_true.
  - intros Hn. rewrite bool_decide_false by done. eexists. split; [done|]. split; [done|]. unfold sent_blocks. cbn [api_content].
    destruct (only_markers (provider_content m)) eqn:Eo; cbn [andb]; [|done].
    destruct (length blocks =? 1)%nat eqn:El; bools; cbn [andb]; [|done].
    destruct (bool_decide (tool_calls m = [])) eqn:Ec; bools; [|done].
    assert (omap part_block (resp_content resp) = []) as Ep by by apply only_markers_returned.
    rewrite <- E in El |- *. unfold assistant_blocks in *. rewrite Ec in *. cbn [List.map] in *. rewrite app_nil_r in *.
    change (provider_content m) with (omap part_block (resp_content resp)) in *. rewrite Ep in *. cbn in El |- *.
    revert El. unfold text_blocks. by destruct (str_eqb _ []) eqn:Es.
Qed.
End RoundTrip.

Definition ex_part_thinking : @ApiResponseContentBlock tree := ThinkingPart (lit "consider") (Some (lit "sig")).
Definition ex_response : @ApiResponse tree :=
  {| resp_id := "msg_1"; resp_content := [ex_part_thinking; TextPart (lit "Let me "); TextPart (lit "see."); ToolUsePart (lit "call_1") (lit "read") Null];
     resp_model := "claude"; resp_stop_reason := Some (lit "tool_use");
     resp_usage := {| api_input_tokens := 10; api_output_tokens := 5; api_cache_read_input_tokens := 3; api_cache_creation_input_tokens := 2 |} |}.

Lemma reply_sent_back_witness :
  let m := response_message (reply_response (@into_provider_response tree (tree_json []) ex_response)) in
  exists w, @wire_message tree (tree_json []) m = [w] /\
    sent_blocks w = [ThinkingBlock (lit "consider") (Some (lit "sig")); TextBlock (lit "Let me see."); ToolUseBlock (lit "call_1") (lit "read") Null].
Proof.
  cbv zeta. destruct (proj2 (proj2 (@reply_sent_back tree (tree_json []) (tree_laws []) ex_response))) as (w & Hw & _ & Hb).
  - vm_compute. discriminate.
  - exists w. split; [exact Hw|]. rewrite Hb. vm_compute. reflexivity.
Defined.

(** A call whose result comes late, after a message of the user, is sent with the result right behind it. *)
Definition late_result : list (@Message tree) :=
  [{| role := User; content := "list"; tool_calls := []; tool_call_id := None; provider_content := [] |};
   {| role := Assistant; content := []; tool_calls := [{| tc_id := "c1"; tc_name := "ls"; tc_arguments := Null |}]; tool_call_id := None; provider_content := [] |};
   {| role := User; content := "and?"; tool_calls := []; tool_call_id := None; provider_content := [] |};
   {| role := Tool; content := "a.txt"; tool_calls := []; tool_call_id := Some (lit "c1"); provider_content := [] |}].

Example late_result_is_moved :
  let ws := req_messages (@build_request_parts tree (tree_json []) late_result [] (lit "claude") 100) in
  all_answered late_result = true /\ List.map result_ids ws = [[]; []; [lit "c1"]; []] /\ List.map use_ids ws = [[]; [lit "c1"]; []; []].
Proof. vm_compute. split_and!; reflexivity. Qed.
