(* ===== verification/Anthropic.v ===== *)
(** * The Anthropic provider: calls and streamed replies

    Models [crates/simulacra-provider/src/anthropic/client.rs], with [stream_error.rs] and
    [output_cap.rs]: the accumulator that builds a reply from the events of a stream and emits deltas on
    the way, and the two ways to call the model.  JSON values are [JsonOps]; what [serde] derives to read
    a response or an error, the serialiser and the HTTP client are parameters.  A [BTreeMap] whose values
    are only looked up is a map, the completed blocks are a list sorted by index.  Spans and meters are
    left out. *)

From S2P Require Import Prelude.
From S2P Require Import Text.
From S2P Require Import Utf8.
From S2P Require Import Context.
From S2P Require Import Budget.
From S2P Require Import Journal.
From S2P Require Import LlmReplay.
From S2P Require Import Json.
From S2P Require Import Provider.
From S2P Require Import ProviderStream.
From S2P Require Import AnthropicApi.

Section Client.
Context {Value : Type} `{JsonOps Value}.
Abbreviation ProviderContentBlock := (@ProviderContentBlock Value).
Abbreviation ToolCallMessage := (@ToolCallMessage Value).

(** ** In-stream errors ([stream_error.rs]) *)

Definition from_event (event : Value) : ProviderError :=
  let error := value_get (lit "error") event in
  let field name := unwrap_or (error ≫= get_str name) [] in
  let kind := field (lit "type") in
  let message := field (lit "message") in
  if str_eqb kind "overloaded_error" then Overloaded message
  else if str_eqb kind "rate_limit_error" then RateLimit None
  else if str_eqb kind "invalid_request_error" || str_eqb kind "request_too_large" then BadRequest message
  else if str_eqb kind "authentication_error" || str_eqb kind "permission_error" then AuthError message
  else ServerError ("stream error " ++ kind ++ ": " ++ message).

(** ** The accumulator *)

Record Accumulator := {
  acc_model : str;
  provider_sink : option (list ProviderStreamEvent);
  response_id : option str;
  acc_usage : TokenUsage;
  acc_content : str;
  stop_reason : option str;
  pending_tool_blocks : gmap N (str * str * str);
  pending_thinking_blocks : gmap N (str * option str);
  completed_provider_blocks : list (N * ProviderContentBlock);
  tool_block_indices : gset N;
  thinking_indices : gset N;
  acc_tool_calls : list ToolCallMessage;
}.

Definition set_sink (a : Accumulator) (x : option (list ProviderStreamEvent)) : Accumulator :=
  {| acc_model := acc_model a; provider_sink := x; response_id := response_id a; acc_usage := acc_usage a;
     acc_content := acc_content a; stop_reason := stop_reason a; pending_tool_blocks := pending_tool_blocks a;
     pending_thinking_blocks := pending_thinking_blocks a; completed_provider_blocks := completed_provider_blocks a;
     tool_block_indices := tool_block_indices a; thinking_indices := thinking_indices a;
     acc_tool_calls := acc_tool_calls a |}.
Definition set_id (a : Accumulator) (x : option str) : Accumulator :=
  {| acc_model := acc_model a; provider_sink := provider_sink a; response_id := x; acc_usage := acc_usage a;
     acc_content := acc_content a; stop_reason := stop_reason a; pending_tool_blocks := pending_tool_blocks a;
     pending_thinking_blocks := pending_thinking_blocks a; completed_provider_blocks := completed_provider_blocks a;
     tool_block_indices := tool_block_indices a; thinking_indices := thinking_indices a;
     acc_tool_calls := acc_tool_calls a |}.
Definition set_usage (a : Accumulator) (x : TokenUsage) : Accumulator :=
  {| acc_model := acc_model a; provider_sink := provider_sink a; response_id := response_id a; acc_usage := x;
     acc_content := acc_content a; stop_reason := stop_reason a; pending_tool_blocks := pending_tool_blocks a;
     pending_thinking_blocks := pending_thinking_blocks a; completed_provider_blocks := completed_provider_blocks a;
     tool_block_indices := tool_block_indices a; thinking_indices := thinking_indices a;
     acc_tool_calls := acc_tool_calls a |}.
Definition set_content (a : Accumulator) (x : str) : Accumulator :=
  {| acc_model := acc_model a; provider_sink := provider_sink a; response_id := response_id a;
     acc_usage := acc_usage a; acc_content := x; stop_reason := stop_reason a;
     pending_tool_blocks := pending_tool_blocks a; pending_thinking_blocks := pending_thinking_blocks a;
     completed_provider_blocks := completed_provider_blocks a; tool_block_indices := tool_block_indices a;
     thinking_indices := thinking_indices a; acc_tool_calls := acc_tool_calls a |}.
Definition set_stop_reason (a : Accumulator) (x : option str) : Accumulator :=
  {| acc_model := acc_model a; provider_sink := provider_sink a; response_id := response_id a;
     acc_usage := acc_usage a; acc_content := acc_content a; stop_reason := x;
     pending_tool_blocks := pending_tool_blocks a; pending_thinking_blocks := pending_thinking_blocks a;
     completed_provider_blocks := completed_provider_blocks a; tool_block_indices := tool_block_indices a;
     thinking_indices := thinking_indices a; acc_tool_calls := acc_tool_calls a |}.
Definition set_pending_tools (a : Accumulator) (x : gmap N (str * str * str)) : Accumulator :=
  {| acc_model := acc_model a; provider_sink := provider_sink a; response_id := response_id a;
     acc_usage := acc_usage a; acc_content := acc_content a; stop_reason := stop_reason a; pending_tool_blocks := x;
     pending_thinking_blocks := pending_thinking_blocks a; completed_provider_blocks := completed_provider_blocks a;
     tool_block_indices := tool_block_indices a; thinking_indices := thinking_indices a;
     acc_tool_calls := acc_tool_calls a |}.
Definition set_pending_thinking (a : Accumulator) (x : gmap N (str * option str)) : Accumulator :=
  {| acc_model := acc_model a; provider_sink := provider_sink a; response_id := response_id a;
     acc_usage := acc_usage a; acc_content := acc_content a; stop_reason := stop_reason a;
     pending_tool_blocks := pending_tool_blocks a; pending_thinking_blocks := x;
     completed_provider_blocks := completed_provider_blocks a; tool_block_indices := tool_block_indices a;
     thinking_indices := thinking_indices a; acc_tool_calls := acc_tool_calls a |}.
Definition set_completed (a : Accumulator) (x : list (N * ProviderContentBlock)) : Accumulator :=
  {| acc_model := acc_model a; provider_sink := provider_sink a; response_id := response_id a;
     acc_usage := acc_usage a; acc_content := acc_content a; stop_reason := stop_reason a;
     pending_tool_blocks := pending_tool_blocks a; pending_thinking_blocks := pending_thinking_blocks a;
     completed_provider_blocks := x; tool_block_indices := tool_block_indices a;
     thinking_indices := thinking_indices a; acc_tool_calls := acc_tool_calls a |}.
Definition set_tool_indices (a : Accumulator) (x : gset N) : Accumulator :=
  {| acc_model := acc_model a; provider_sink := provider_sink a; response_id := response_id a;
     acc_usage := acc_usage a; acc_content := acc_content a; stop_reason := stop_reason a;
     pending_tool_blocks := pending_tool_blocks a; pending_thinking_blocks := pending_thinking_blocks a;
     completed_provider_blocks := completed_provider_blocks a; tool_block_indices := x;
     thinking_indices := thinking_indices a; acc_tool_calls := acc_tool_calls a |}.
Definition set_thinking_indices (a : Accumulator) (x : gset N) : Accumulator :=
  {| acc_model := acc_model a; provider_sink := provider_sink a; response_id := response_id a;
     acc_usage := acc_usage a; acc_content := acc_content a; stop_reason := stop_reason a;
     pending_tool_blocks := pending_tool_blocks a; pending_thinking_blocks := pending_thinking_blocks a;
     completed_provider_blocks := completed_provider_blocks a; tool_block_indices := tool_block_indices a;
     thinking_indices := x; acc_tool_calls := acc_tool_calls a |}.
Definition set_tool_calls (a : Accumulator) (x : list ToolCallMessage) : Accumulator :=
  {| acc_model := acc_model a; provider_sink := provider_sink a; response_id := response_id a;
     acc_usage := acc_usage a; acc_content := acc_content a; stop_reason := stop_reason a;
     pending_tool_blocks := pending_tool_blocks a; pending_thinking_blocks := pending_thinking_blocks a;
     completed_provider_blocks := completed_provider_blocks a; tool_block_indices := tool_block_indices a;
     thinking_indices := thinking_indices a; acc_tool_calls := x |}.

Definition no_usage : TokenUsage :=
  {| input_tokens := 0; output_tokens := 0; cache_read_input_tokens := 0; cache_write_input_tokens := 0 |}.

Definition accumulator_new (model : str) (sink : option (list ProviderStreamEvent)) : Accumulator :=
  {| acc_model := model; provider_sink := sink; response_id := None; acc_usage := no_usage; acc_content := [];
     stop_reason := None; pending_tool_blocks := ∅; pending_thinking_blocks := ∅; completed_provider_blocks := [];
     tool_block_indices := ∅; thinking_indices := ∅; acc_tool_calls := [] |}.

(** [provider_sink.emit(event)], when there is a sink. *)
Definition emit (event : ProviderStreamEvent) (a : Accumulator) : Accumulator :=
  match provider_sink a with
  | Some events => set_sink a (Some (events ++ [event]))
  | None => a
  end.

Definition process_message_start (event : Value) (a : Accumulator) : Accumulator :=
  match value_get (lit "message") event with
  | None => a
  | Some msg =>
      let a := set_id a (get_str (lit "id") msg) in
      match value_get (lit "usage") msg with
      | None => a
      | Some usage =>
          let input := get_number (lit "input_tokens") usage in
          let cache_read := get_number (lit "cache_read_input_tokens") usage in
          let cache_write := get_number (lit "cache_creation_input_tokens") usage in
          set_usage a {| input_tokens := saturating_add (saturating_add input cache_read) cache_write;
                         output_tokens := output_tokens (acc_usage a);
                         cache_read_input_tokens := cache_read; cache_write_input_tokens := cache_write |}
      end
  end.

Definition process_content_block_start (event : Value) (a : Accumulator) : Accumulator :=
  let index := get_number (lit "index") event in
  match value_get (lit "content_block") event with
  | None => a
  | Some block =>
      let kind := get_text (lit "type") block in
      if str_eqb kind "tool_use" then
        let id := get_text (lit "id") block in
        let name := get_text (lit "name") block in
        let a := set_pending_tools a (<[index := (id, name, [])]> (pending_tool_blocks a)) in
        let a := set_tool_indices a ({[index]} ∪ tool_block_indices a) in
        emit (tool_call_delta index id name []) a
      else if str_eqb kind "thinking" then
        let a := set_pending_thinking a
          (<[index := (get_text (lit "thinking") block, get_str (lit "signature") block)]> (pending_thinking_blocks a)) in
        let a := set_thinking_indices a ({[index]} ∪ thinking_indices a) in
        emit ThinkingStart a
      else if str_eqb kind "redacted_thinking" then
        set_completed a (btree_insert index (anthropic_block (redacted_value (get_text (lit "data") block)))
                           (completed_provider_blocks a))
      else a
  end.

Definition push_text_delta (text_delta : str) (a : Accumulator) : Accumulator :=
  let a := set_content a (acc_content a ++ text_delta) in
  if str_eqb text_delta [] then a else emit (TextDelta text_delta) a.

Definition process_content_block_delta (event : Value) (a : Accumulator) : Accumulator :=
  let index := get_number (lit "index") event in
  match value_get (lit "delta") event with
  | None => a
  | Some delta =>
      let kind := get_text (lit "type") delta in
      if str_eqb kind "text_delta" then
        match get_str (lit "text") delta with Some text_delta => push_text_delta text_delta a | None => a end
      else if str_eqb kind "input_json_delta" then
        match get_str (lit "partial_json") delta, pending_tool_blocks a !! index with
        | Some partial, Some (id, name, args) =>
            let a := set_pending_tools a (<[index := (id, name, args ++ partial)]> (pending_tool_blocks a)) in
            emit (tool_call_delta index id name partial) a
        | _, _ => a
        end
      else if str_eqb kind "thinking_delta" && bool_decide (index ∈ thinking_indices a) then
        match option_or (value_get (lit "thinking") delta) (value_get (lit "text") delta) ≫= as_str with
        | Some text =>
            let a := match pending_thinking_blocks a !! index with
                     | Some (thinking, signature) =>
                         set_pending_thinking a (<[index := (thinking ++ text, signature)]> (pending_thinking_blocks a))
                     | None => a
                     end in
            if str_eqb text [] then a else emit (ThinkingDelta text) a
        | None => a
        end
      else if str_eqb kind "signature_delta" && bool_decide (index ∈ thinking_indices a) then
        match get_str (lit "signature") delta, pending_thinking_blocks a !! index with
        | Some signature, Some (thinking, _) =>
            set_pending_thinking a (<[index := (thinking, Some signature)]> (pending_thinking_blocks a))
        | _, _ => a
        end
      else match get_str (lit "text") delta with Some text_delta => push_text_delta text_delta a | None => a end
  end.

(** The arguments of a finished tool block. *)
Definition finished_tool_call (id name args_str : str) (a : Accumulator) : Accumulator * result unit ProviderError :=
  let push arguments :=
    set_tool_calls a (acc_tool_calls a ++ [{| tc_id := id; tc_name := name; tc_arguments := arguments |}]) in
  if str_eqb (trim args_str) [] then (push (json_object []), Ok tt)
  else match json_from_str args_str with
  | Some arguments => (push arguments, Ok tt)
  | None => (a, Err (MalformedToolInput name (N.of_nat (length args_str))))
  end.

Definition stop_tool_block (index : N) (a : Accumulator) : Accumulator * result unit ProviderError :=
  if negb (bool_decide (index ∈ tool_block_indices a)) then (a, Ok tt)
  else
    let a := set_tool_indices a (tool_block_indices a ∖ {[index]}) in
    match pending_tool_blocks a !! index with
    | None => (a, Ok tt)
    | Some (id, name, args_str) =>
        finished_tool_call id name args_str (set_pending_tools a (delete index (pending_tool_blocks a)))
    end.

Definition stop_thinking_block (index : N) (a : Accumulator) : Accumulator :=
  if negb (bool_decide (index ∈ thinking_indices a)) then a
  else
    let a := set_thinking_indices a (thinking_indices a ∖ {[index]}) in
    match pending_thinking_blocks a !! index with
    | None => a
    | Some (thinking, signature) =>
        let a := set_pending_thinking a (delete index (pending_thinking_blocks a)) in
        let a := set_completed a (btree_insert index (anthropic_block (thinking_value thinking signature))
                                    (completed_provider_blocks a)) in
        emit ThinkingEnd a
    end.

Definition process_content_block_stop (event : Value) : SE Accumulator ProviderError unit :=
  let index := get_number (lit "index") event in
  let! _ := stop_tool_block index in
  se_modify (stop_thinking_block index).

Definition process_message_delta (event : Value) (a : Accumulator) : Accumulator :=
  let a := match value_get (lit "delta") event with
           | Some delta => set_stop_reason a (get_str (lit "stop_reason") delta)
           | None => a
           end in
  match value_get (lit "usage") event with
  | Some usage =>
      let u := acc_usage a in
      set_usage a {| input_tokens := input_tokens u; output_tokens := get_number (lit "output_tokens") usage;
                     cache_read_input_tokens := cache_read_input_tokens u;
                     cache_write_input_tokens := cache_write_input_tokens u |}
  | None => a
  end.

Definition process_event (event : Value) : SE Accumulator ProviderError unit :=
  match get_str (lit "type") event with
  | None => se_ret tt
  | Some kind =>
      if str_eqb kind "message_start" then se_modify (process_message_start event)
      else if str_eqb kind "content_block_start" then se_modify (process_content_block_start event)
      else if str_eqb kind "content_block_delta" then se_modify (process_content_block_delta event)
      else if str_eqb kind "content_block_stop" then process_content_block_stop event
      else if str_eqb kind "message_delta" then se_modify (process_message_delta event)
      else if str_eqb kind "error" then se_err (from_event event)
      else se_ret tt
  end.

Definition accumulate_line (line : str) : SE Accumulator ProviderError unit :=
  match strip_prefix "data: " line with
  | None => se_ret tt
  | Some json_str =>
      match json_from_str json_str with
      | None => se_err (OtherFailure ("failed to parse SSE event JSON: " ++ json_error json_str))
      | Some event => process_event event
      end
  end.

Definition finish (a : Accumulator) : ProviderReply Value :=
  let finish_reason := map_stop_reason (stop_reason a) in
  {| reply_response :=
       {| response_message :=
            {| role := Assistant; content := acc_content a;
               tool_calls := drop_tool_calls_unless_tool_use finish_reason (acc_tool_calls a);
               tool_call_id := None; provider_content := List.map snd (completed_provider_blocks a) |};
          response_usage := acc_usage a; finish_reason := finish_reason; response_model := acc_model a |};
     provider_response_id := response_id a |}.

#[export] Instance anthropic_sse : SseAccumulator Accumulator (ProviderReply Value) := {
  process_line := accumulate_line;
  finish_reply a := Ok (finish a);
}.

(** ** Calls *)

Definition DEFAULT_MAX_OUTPUT_TOKENS : N := 8192.

(** [output_cap.rs]. *)
Definition request_max_tokens {Decimal} (budget : ResourceBudget Decimal) (cap : N) : N :=
  if (max_tokens budget =? 0)%N then cap
  else
    let remaining := (max_tokens budget - used_tokens budget)%N in
    N.max (N.min remaining cap) 1.

Record AnthropicProvider := { api_key : str; model : str; max_output_tokens : N; prompt_caching : bool }.

Definition anthropic_new (api_key model : str) : AnthropicProvider :=
  {| api_key := trim api_key; model := model; max_output_tokens := DEFAULT_MAX_OUTPUT_TOKENS; prompt_caching := false |}.
Definition with_max_output_tokens (p : AnthropicProvider) (max_output_tokens : N) : AnthropicProvider :=
  {| api_key := api_key p; model := model p; max_output_tokens := N.max max_output_tokens 1; prompt_caching := prompt_caching p |}.
Definition with_prompt_caching (p : AnthropicProvider) : AnthropicProvider :=
  {| api_key := api_key p; model := model p; max_output_tokens := max_output_tokens p; prompt_caching := true |}.

Definition request (p : AnthropicProvider) (messages : list (@Message Value)) (tools : list (ToolDefinition Value)) (max_tokens : N)
    : ApiRequest :=
  let r := build_request_parts messages tools (model p) max_tokens in
  {| req_model := req_model r; req_max_tokens := req_max_tokens r; req_messages := req_messages r; req_system := req_system r;
     req_tools := req_tools r; req_cache_control := prompt_caching p;
     req_cache_breakpoints := if prompt_caching p then req_cache_breakpoints r else [] |}.

Definition ANTHROPIC_API_URL : str := "https://api.anthropic.com/v1/messages".
Definition request_headers (p : AnthropicProvider) : Headers :=
  [(lit "x-api-key", api_key p); (lit "anthropic-version", lit "2023-06-01"); (lit "content-type", lit "application/json")].

Section Calls.
Context {Decimal : Type} `{DecimalOps Decimal}.
Context (to_vec : Value -> result bytes str).
Context (api_response_from_slice : bytes -> result (@ApiResponse Value) str) (api_error_message : bytes -> option str).
Context (post : str -> Headers -> bytes -> result WireResponse ReqwestError).

Definition status_error (resp : HttpResponse) : ProviderError :=
  let error_message := unwrap_or (api_error_message (http_body resp)) (from_utf8_lossy (http_body resp)) in
  if (http_status resp =? 429)%N then RateLimit (Provider.retry_after_ms (http_headers resp))
  else classify (http_status resp) error_message.

Definition parse_response (body : bytes) : result (ProviderReply Value) ProviderError :=
  match api_response_from_slice body with
  | Ok api_resp => Ok (into_provider_response api_resp)
  | Err e => Err (OtherFailure ("failed to parse Anthropic response: " ++ e))
  end.

(** What both calls do before they send. *)
Definition send (p : AnthropicProvider) (messages : list (@Message Value)) (tools : list (ToolDefinition Value))
    (budget : ResourceBudget Decimal) : result (result WireResponse ReqwestError) ProviderError :=
  match check_budget budget with
  | Err e => Err (BudgetExhaustedError e)
  | Ok _ =>
      let api_req := request p messages tools (request_max_tokens budget (max_output_tokens p)) in
      match to_vec (request_body api_req) with
      | Err e => Err (OtherFailure ("request serialization failed: " ++ e))
      | Ok body => Ok (post ANTHROPIC_API_URL (request_headers p) body)
      end
  end.

Definition chat (p : AnthropicProvider) messages tools budget : result (ProviderReply Value) ProviderError :=
  let? sent := send p messages tools budget in
  chat_reply status_error parse_response (accumulator_new (model p) None) sent.

(** With what the sink was given, in order. *)
Definition chat_stream (p : AnthropicProvider) messages tools budget
    : list ProviderStreamEvent * result (ProviderReply Value) ProviderError :=
  match send p messages tools budget with
  | Err e => ([], Err e)
  | Ok sent =>
      let '(a, r) := chat_stream_reply status_error parse_response (accumulator_new (model p) (Some [])) sent in
      (unwrap_or (provider_sink a) [], r)
  end.
End Calls.

(** ** Lemmas *)

(** *** The sink changes nothing else *)

Definition forget (a : Accumulator) : Accumulator := set_sink a None.

(** A step commutes with forgetting. *)
Definition blind (f : Accumulator -> Accumulator) : Prop := forall a, forget (f a) = f (forget a).

#[local] Ltac blind_step :=
  intros a; destruct a as [? sink ? ? ? ? ? ? ? ? ? ?];
  repeat first [progress cbn | case_match | progress unfold emit | reflexivity].

Lemma message_start_blind event : blind (process_message_start event).
Proof. unfold process_message_start. blind_step. Qed.
Lemma block_start_blind event : blind (process_content_block_start event).
Proof. unfold process_content_block_start. blind_step. Qed.
Lemma push_text_blind text : blind (push_text_delta text).
Proof. unfold push_text_delta. blind_step. Qed.
Lemma stop_thinking_blind index : blind (stop_thinking_block index).
Proof. unfold stop_thinking_block. blind_step. Qed.
Lemma message_delta_blind event : blind (process_message_delta event).
Proof. unfold process_message_delta. blind_step. Qed.

Lemma block_delta_blind event : blind (process_content_block_delta event).
Proof.
  unfold process_content_block_delta. intros a. pose proof (fun t => push_text_blind t a) as Hp.
  destruct a as [? sink ? ? ? ? ? ? ? ? ? ?].
  repeat first [progress cbn -[push_text_delta] | apply Hp | case_match | progress unfold emit | reflexivity].
Qed.

(** A step of the accumulator with and without the sink. *)
Definition same_but_sink (a1 a2 : Accumulator) : Prop := forget a1 = forget a2.

Lemma blind_in_step f : blind f -> in_step same_but_sink eq (se_modify (E := ProviderError) f) (se_modify f).
Proof. intros Hf a1 a2 Ha. split; [|done]. unfold same_but_sink in *. cbn. by rewrite !Hf, Ha. Qed.

Lemma blind_result_in_step (f : SE Accumulator ProviderError unit) :
  (forall a, forget (fst (f a)) = fst (f (forget a)) /\ snd (f a) = snd (f (forget a))) -> in_step same_but_sink eq f f.
Proof.
  intros Hf a1 a2 Ha. unfold same_but_sink in *. destruct (Hf a1) as [H1 H2], (Hf a2) as [H3 H4].
  rewrite H1, H3, H2, H4, Ha. split; [done|]. by destruct (snd (f (forget a2))).
Qed.

Lemma stop_tool_in_step index : in_step same_but_sink eq (stop_tool_block index) (stop_tool_block index).
Proof.
  apply blind_result_in_step. intros a. unfold stop_tool_block, finished_tool_call. destruct a as [? sink ? ? ? ? ? ? ? ? ? ?]. cbn.
  repeat first [progress cbn | case_match | by split].
Qed.

Lemma line_in_step line : in_step same_but_sink eq (accumulate_line line) (accumulate_line line).
Proof.
  unfold accumulate_line. destruct (strip_prefix _ line); [|by apply step_ret].
  destruct (json_from_str _) as [event|]; [|apply step_err]. unfold process_event.
  destruct (get_str _ event) as [kind|]; [|by apply step_ret].
  repeat (case_match; [first [apply blind_in_step; auto using message_start_blind, block_start_blind, block_delta_blind, message_delta_blind; done
                             | apply step_err
                             | unfold process_content_block_stop; eapply step_bind; [apply stop_tool_in_step|]; intros ? ? _;
                               apply blind_in_step, stop_thinking_blind]|]). by apply step_ret.
Qed.

(** *** What has been emitted *)

(** The text deltas so far are the content so far. *)
Definition mirrored (a : Accumulator) : Prop :=
  exists events, provider_sink a = Some events /\ deltas events = acc_content a.

Lemma emit_mirrored event a : text_of event = [] -> mirrored a -> mirrored (emit event a).
Proof.
  intros He (events & Es & Ha). exists (events ++ [event]). unfold emit. rewrite Es. split; [done|].
  by rewrite deltas_snoc, He, Ha, app_nil_r.
Qed.

Lemma push_text_mirrored text a : mirrored a -> mirrored (push_text_delta text a).
Proof.
  unfold push_text_delta. intros (events & Es & Ha). destruct (str_eqb text []) eqn:E; bools.
  - subst text. exists events. cbn. by rewrite app_nil_r.
  - exists (events ++ [TextDelta text]). unfold emit. cbn. rewrite Es. cbn. by rewrite deltas_snoc, Ha.
Qed.

(** Nothing else touches the text or the sink. *)
#[local] Ltac mirror_step :=
  intros a Ha; repeat first [case_match | exact Ha | by apply push_text_mirrored | by apply emit_mirrored | progress cbn [fst se_modify]].

Lemma line_mirrored line : preserves mirrored (accumulate_line line).
Proof.
  unfold accumulate_line. destruct (strip_prefix _ line); [|apply preserves_ret].
  destruct (json_from_str _) as [event|]; [|apply preserves_err]. unfold process_event.
  destruct (get_str _ event) as [kind|]; [|apply preserves_ret].
  repeat (case_match; [|]); try apply preserves_ret; try apply preserves_err.
  - unfold se_modify, process_message_start. mirror_step.
  - unfold se_modify, process_content_block_start. mirror_step.
  - unfold se_modify, process_content_block_delta. mirror_step.
  - apply preserves_bind; [|intros _]; unfold se_modify, stop_tool_block, stop_thinking_block, finished_tool_call; mirror_step.
  - unfold se_modify, process_message_delta. mirror_step.
Qed.

(** ** Properties *)

Section Properties.
Context {Decimal : Type} `{DecimalOps Decimal}.
Context (to_vec : Value -> result bytes str).
Context (api_response_from_slice : bytes -> result (@ApiResponse Value) str) (api_error_message : bytes -> option str).
Context (post : str -> Headers -> bytes -> result WireResponse ReqwestError).
Abbreviation chat_whole := (chat to_vec api_response_from_slice api_error_message post).
Abbreviation chat_streamed := (chat_stream to_vec api_response_from_slice api_error_message post).
Abbreviation sent_for := (send (Decimal := Decimal) to_vec post).

(** A response that arrives whole and whose body is text. *)
Definition arrived (sent : result WireResponse ReqwestError) : Prop :=
  match sent with Ok resp => wire_failure resp = None /\ valid_utf8 (List.concat (wire_chunks resp)) | Err _ => True end.

Lemma streaming_outcome p messages tools (budget : ResourceBudget Decimal) :
  same_outcome (chat_whole p messages tools budget) (snd (chat_streamed p messages tools budget)) /\
  ((forall sent, sent_for p messages tools budget = Ok sent -> arrived sent) ->
   chat_whole p messages tools budget = snd (chat_streamed p messages tools budget)).
Proof.
  unfold chat, chat_stream. destruct (sent_for p messages tools budget) as [sent|e]; [|by split].
  destruct (@streamed_agrees _ _ anthropic_sse (status_error api_error_message) (parse_response api_response_from_slice) same_but_sink line_in_step
    (fun a1 a2 Ha => f_equal Ok (f_equal finish Ha : finish (forget a1) = finish (forget a2)))
    sent (accumulator_new (model p) None) (accumulator_new (model p) (Some [])) eq_refl) as [Ho He].
  destruct (chat_stream_reply _ _ _ _) as [a r]. cbn [snd] in *. split; [done|]. intros Ha. apply He, Ha, eq_refl.
Qed.

(** C27. Streaming a reply is waiting for it.  However the connection cuts the body into chunks, through
    the middle of lines or characters, [chat_stream] gives the same reply as [chat], or both fail; and when
    the response arrives whole and is text, they fail with the same error too. *)
Theorem streaming_agrees p messages tools (budget : ResourceBudget Decimal) :
  same_outcome (chat_whole p messages tools budget) (snd (chat_streamed p messages tools budget)) /\
  ((forall sent, sent_for p messages tools budget = Ok sent -> arrived sent) ->
   chat_whole p messages tools budget = snd (chat_streamed p messages tools budget)).
Proof. apply streaming_outcome. Qed.

(** A reply asks for tools only when the turn ended in tool use, and the text a stream emitted, put
    together, is the text of its reply. *)
Theorem reply_matches_stream p messages tools (budget : ResourceBudget Decimal) events r :
  chat_streamed p messages tools budget = (events, Ok r) ->
  let m := response_message (reply_response r) in
  (tool_calls m = [] \/ finish_reason (reply_response r) = ToolUse) /\
  (forall resp, sent_for p messages tools budget = Ok (Ok resp) -> is_event_stream (collect_headers (wire_headers resp)) = true ->
   deltas events = content m).
Proof.
  unfold chat_stream. destruct (sent_for p messages tools budget) as [sent|e]; [|done].
  set (oe := status_error api_error_message). set (oj := parse_response api_response_from_slice).
  set (a0 := accumulator_new (model p) (Some [])). destruct (chat_stream_reply oe oj a0 sent) as [a r'] eqn:Es. intros [= <- ->].
  assert (mirrored a) as Hm.
  { pose proof (@chat_stream_reply_keeps _ _ anthropic_sse oe oj mirrored line_mirrored a0 sent) as Hk. specialize (Hk (ex_intro _ [] (conj eq_refl eq_refl))). by rewrite Es in Hk. }
  destruct sent as [resp|err]; [|by unfold chat_stream_reply in Es].
  destruct (chat_stream_reply_ok oe oj a0 resp r) as [[Hs Hr]|[Hs Hr]]; [by rewrite Es|..].
  - rewrite Es in Hr. cbn in Hr. injection Hr as <-. split.
    + cbn. unfold drop_tool_calls_unless_tool_use. destruct (bool_decide (map_stop_reason _ = _)) eqn:Ef; bools; [by right|left].
      cbn [orb]. by destruct (bool_decide (acc_tool_calls a = [])) eqn:Ec; bools.
    + intros _ _ _. cbn. destruct Hm as (events & -> & Hd). exact Hd.
  - unfold oj, parse_response in Hr. destruct (api_response_from_slice _) as [ar|]; [|done]. injection Hr as <-. split.
    + cbn. unfold drop_tool_calls_unless_tool_use. destruct (bool_decide (map_stop_reason _ = _)) eqn:Ef; bools; [by right|left].
      cbn [orb]. by destruct (bool_decide (_ = [])) eqn:Ec; bools.
    + intros resp' [= <-]. by rewrite Hs.
Qed.

(** *** Failures inside a stream *)

Lemma error_event_fails line json event :
  strip_prefix "data: " line = Some json -> json_from_str json = Some event -> get_str (lit "type") event = Some (lit "error") ->
  forall a, accumulate_line line a = (a, Err (from_event event)).
Proof. intros Hp Hj Ht a. unfold accumulate_line, process_event. by rewrite Hp, Hj, Ht. Qed.

(** An error the provider reports inside a stream is an error of the call.  Whatever text came before
    it, and however the body was cut, a response with an [error] event in one of its lines is not taken for
    a reply by either call; overload and rate limits reported this way can be retried. *)
Theorem stream_errors_fail p messages tools (budget : ResourceBudget Decimal) resp line json event :
  sent_for p messages tools budget = Ok (Ok resp) ->
  is_event_stream (collect_headers (wire_headers resp)) = true ->
  line ∈ lines (List.concat (wire_chunks resp)) -> strip_prefix "data: " (trim line) = Some json ->
  json_from_str json = Some event -> get_str (lit "type") event = Some (lit "error") ->
  (exists e, chat_whole p messages tools budget = Err e) /\
  (exists e, snd (chat_streamed p messages tools budget) = Err e) /\
  (forall kind, value_get (lit "error") event ≫= get_str (lit "type") = Some kind ->
   kind = lit "overloaded_error" \/ kind = lit "rate_limit_error" -> is_retryable (from_event event) = true).
Proof.
  intros Hs He Hin Hp Hj Ht.
  assert (exists e, chat_whole p messages tools budget = Err e) as Hw.
  { unfold chat. rewrite Hs. unfold chat_reply, http_post. destruct (wire_failure resp); [eauto|]. cbn [http_status http_headers http_body].
    destruct (negb _); [eauto|]. rewrite He. apply (failing_line_fails _ _ line Hin). intros a. eexists.
    cbn [process_line anthropic_sse]. by rewrite (error_event_fails _ _ _ Hp Hj Ht). }
  split; [done|]. split.
  - destruct (streaming_outcome p messages tools budget) as [Ho _]. destruct Hw as [e Hw]. rewrite Hw in Ho.
    destruct (snd _) as [r|e']; [done|eauto].
  - intros kind Hk Hr. unfold from_event. destruct (value_get (lit "error") event) as [er|]; [|done]. cbn in Hk |- *. rewrite Hk.
    by destruct Hr as [->| ->].
Qed.

(** A request never asks for more than it may use: at least one token, at most the provider's cap, and
    no more than what a limited budget has left, if anything. *)
Theorem request_cap_bounds p messages tools (budget : ResourceBudget Decimal) :
  (1 <= max_output_tokens p)%N ->
  let cap := req_max_tokens (request p messages tools (request_max_tokens budget (max_output_tokens p))) in
  (1 <= cap <= max_output_tokens p)%N /\
  (max_tokens budget <> 0 -> used_tokens budget < max_tokens budget -> used_tokens budget + cap <= max_tokens budget)%N.
Proof.
  cbn. intros Hc. unfold request_max_tokens. destruct (N.eqb_spec (max_tokens budget) 0); lia.
Qed.
End Properties.
End Client.
Arguments Accumulator : clear implicits.

(** ** A concrete stream

    The events of a short reply with a tool call, in chunks that cut lines; a second body adds an error
    event. *)

Definition obj (fields : list (String.string * tree)) : tree := Object (List.map (fun '(k, v) => (lit k, v)) fields).
Definition word (s : String.string) : tree := Text (lit s).
Definition ex_events : list (str * tree) := [
  (lit "start", obj [("type", word "message_start");
                     ("message", obj [("id", word "msg_1"); ("usage", obj [("input_tokens", Number 10)])])]);
  (lit "hel", obj [("type", word "content_block_delta"); ("delta", obj [("type", word "text_delta"); ("text", word "Hel")])]);
  (lit "lo", obj [("type", word "content_block_delta"); ("delta", obj [("type", word "text_delta"); ("text", word "lo")])]);
  (lit "tool", obj [("type", word "content_block_start"); ("index", Number 1);
                    ("content_block", obj [("type", word "tool_use"); ("id", word "call_1"); ("name", word "read")])]);
  (lit "stop", obj [("type", word "content_block_stop"); ("index", Number 1)]);
  (lit "end", obj [("type", word "message_delta"); ("delta", obj [("stop_reason", word "tool_use")]);
                   ("usage", obj [("output_tokens", Number 4)])]);
  (lit "busy", obj [("type", word "error"); ("error", obj [("type", word "overloaded_error"); ("message", word "Overloaded")])])
]%string.
#[local] Instance ex_json : JsonOps tree := tree_json ex_events.

Definition ex_wire (chunks : list bytes) : WireResponse :=
  {| wire_status := 200; wire_headers := [(lit "Content-Type", Some (lit "text/event-stream"))]; wire_chunks := chunks; wire_failure := None |}.
Definition nl : bytes := [lf].
Definition ex_chunks : list bytes :=
  [lit "data: start" ++ [cr] ++ nl ++ nl ++ lit "da"; lit "ta: hel"; nl ++ lit "data: lo" ++ nl ++ lit "data: tool" ++ nl; lit "data: stop" ++ nl ++ lit "data: end"].
Definition ex_error_chunks : list bytes := [lit "data: start" ++ nl ++ lit "data: hel" ++ nl ++ lit "data: bu"; lit "sy" ++ nl].
Definition ex_post (chunks : list bytes) (url : str) (headers : Headers) (body : bytes) : result WireResponse ReqwestError := Ok (ex_wire chunks).
Definition ex_provider : AnthropicProvider := anthropic_new (lit " key ") (lit "claude").
Definition ex_budget : ResourceBudget N := budget_new 100 0 0%N 0.
Definition ex_chat chunks := @chat tree ex_json N _ (fun _ => Ok []) (fun _ => Err (lit "not read")) (fun _ => None) (ex_post chunks).
Definition ex_chat_stream chunks := @chat_stream tree ex_json N _ (fun _ => Ok []) (fun _ => Err (lit "not read")) (fun _ => None) (ex_post chunks).

Lemma streaming_agrees_witness :
  exists r, ex_chat ex_chunks ex_provider [] [] ex_budget = Ok r /\ snd (ex_chat_stream ex_chunks ex_provider [] [] ex_budget) = Ok r /\
    content (response_message (reply_response r)) = lit "Hello" /\ length (tool_calls (response_message (reply_response r))) = 1%nat.
Proof.
  pose proof (proj2 (@streaming_agrees tree ex_json N _ (fun _ => Ok []) (fun _ => Err (lit "not read")) (fun _ => None) (ex_post ex_chunks)
    ex_provider [] [] ex_budget)) as H.
  eexists. split; [vm_compute; reflexivity|]. split; [|split; vm_compute; reflexivity].
  transitivity (ex_chat ex_chunks ex_provider [] [] ex_budget); [|vm_compute; reflexivity]. symmetry. apply H.
  intros sent Hs. vm_compute in Hs. injection Hs as <-. split; vm_compute; reflexivity.
Defined.

Lemma reply_matches_stream_witness :
  let '(events, r) := ex_chat_stream ex_chunks ex_provider [] [] ex_budget in
  deltas events = lit "Hello" /\ length events = 3%nat /\ exists reply, r = Ok reply /\ finish_reason (reply_response reply) = ToolUse.
Proof.
  pose proof (@reply_matches_stream tree ex_json N _ (fun _ => Ok []) (fun _ => Err (lit "not read")) (fun _ => None) (ex_post ex_chunks)
    ex_provider [] [] ex_budget) as H. fold ex_chat_stream in H.
  destruct (ex_chat_stream ex_chunks ex_provider [] [] ex_budget) as [events r] eqn:E. vm_compute in E. injection E as <- <-.
  edestruct (H _ _ ltac:(vm_compute; reflexivity)) as [_ Hd]. split; [|split; [reflexivity|eexists; split; reflexivity]].
  refine (eq_trans (Hd (ex_wire ex_chunks) _ _) _); vm_compute; reflexivity.
Defined.

Lemma stream_errors_fail_witness :
  (exists e, ex_chat ex_error_chunks ex_provider [] [] ex_budget = Err e) /\
  fst (ex_chat_stream ex_error_chunks ex_provider [] [] ex_budget) = [TextDelta (lit "Hel")] /\
  snd (ex_chat_stream ex_error_chunks ex_provider [] [] ex_budget) = Err (Overloaded (lit "Overloaded")).
Proof.
  split; [|split; vm_compute; reflexivity].
  edestruct (@stream_errors_fail tree ex_json N _ (fun _ => Ok []) (fun _ => Err (lit "not read")) (fun _ => None) (ex_post ex_error_chunks)
    ex_provider [] [] ex_budget (ex_wire ex_error_chunks) (lit "data: busy") (lit "busy")) as [Hw _]; [..|exact Hw].
  1-2, 4-6: vm_compute; reflexivity. apply (bool_decide_unpack _). vm_compute. exact I.
Defined.

Lemma request_cap_bounds_witness :
  (1 <= max_output_tokens ex_provider)%N /\
  (used_tokens ex_budget + req_max_tokens (@request tree ex_json ex_provider [] [] (request_max_tokens ex_budget (max_output_tokens ex_provider)))
   <= max_tokens ex_budget)%N.
Proof.
  split; [by vm_compute|]. apply (@request_cap_bounds tree ex_json N ex_provider [] [] ex_budget); by vm_compute.
Defined.
