(* ===== verification/OpenAiConfig.v ===== *)
(** * The OpenAI provider: configuration, endpoint and error text

    Models [crates/simulacra-provider/src/openai/config.rs] and [endpoint.rs]: the headers a request
    carries, the URL a base URL gives, and the scrubbing of the text an upstream error carries.  A parsed
    URL is the [url] package's: the operations the code calls are a parameter. *)

From S2P Require Import Prelude.
From S2P Require Import Text.
From S2P Require Import Utf8.
From S2P Require Import Provider.

(** ** Configuration ([config.rs]) *)

Variant AuthStyle := Bearer | Header (name : str).
Variant OutputCapField := MaxCompletionTokens | MaxTokens.

Definition wire_name (f : OutputCapField) : str :=
  match f with MaxCompletionTokens => "max_completion_tokens" | MaxTokens => "max_tokens" end.

Record OpenAiConfig := {
  base_url : str;
  api_key : str;
  model : str;
  auth_style : AuthStyle;
  extra_headers : Headers;
  output_cap_field : OutputCapField;
}.

Definition config_new (base_url api_key model : str) : OpenAiConfig :=
  {| base_url := base_url; api_key := trim api_key; model := model; auth_style := Bearer; extra_headers := [];
     output_cap_field := MaxCompletionTokens |}.
Definition with_auth_style (c : OpenAiConfig) (x : AuthStyle) : OpenAiConfig :=
  {| base_url := base_url c; api_key := api_key c; model := model c; auth_style := x; extra_headers := extra_headers c;
     output_cap_field := output_cap_field c |}.
Definition with_extra_headers (c : OpenAiConfig) (x : Headers) : OpenAiConfig :=
  {| base_url := base_url c; api_key := api_key c; model := model c; auth_style := auth_style c; extra_headers := x;
     output_cap_field := output_cap_field c |}.
Definition with_output_cap_field (c : OpenAiConfig) (x : OutputCapField) : OpenAiConfig :=
  {| base_url := base_url c; api_key := api_key c; model := model c; auth_style := auth_style c; extra_headers := extra_headers c;
     output_cap_field := x |}.

Definition auth_headers (c : OpenAiConfig) : Headers :=
  match auth_style c with
  | Bearer => [(lit "authorization", "Bearer " ++ api_key c)]
  | Header name => [(name, api_key c)]
  end ++ extra_headers c.

(** ** Upstream text *)

Definition MAX_UPSTREAM_TEXT_CHARS : nat := 512.
Definition redacted : str := "<redacted>".

(** [sort_by_key(|secret| Reverse(secret.len()))]: stable, the longest first. *)
Fixpoint insert_longest (x : str) (l : list str) : list str :=
  match l with
  | [] => [x]
  | y :: l' => if (length y <=? length x)%nat then x :: l else y :: insert_longest x l'
  end.
Definition longest_first (l : list str) : list str := fold_right insert_longest [] l.

Definition secrets (c : OpenAiConfig) : list str :=
  longest_first (List.filter (fun s => negb (str_eqb s [])) (api_key c :: List.map snd (extra_headers c))).

Definition scrub_upstream_text (c : OpenAiConfig) (text : str) : str :=
  let scrubbed := fold_left (fun scrubbed secret => str_replace secret redacted scrubbed) (secrets c) text in
  if (char_count scrubbed <=? MAX_UPSTREAM_TEXT_CHARS)%nat then scrubbed
  else take_chars (MAX_UPSTREAM_TEXT_CHARS - 3) scrubbed ++ lit "...".

(** ** The endpoint ([endpoint.rs]) *)

Class UrlOps (Url : Type) := {
  url_parse : str -> result Url str;
  url_username : Url -> str;
  url_password : Url -> option str;
  url_path : Url -> str;
  url_set_path : Url -> str -> Url;
  url_set_username : Url -> str -> Url;
  url_set_password : Url -> option str -> Url;
  url_set_query : Url -> option str -> Url;
  url_to_string : Url -> str;
}.

Section Endpoint.
Context {Url : Type} `{UrlOps Url}.

Definition credentials_in_url : ProviderError :=
  OtherFailure "the OpenAI base URL must not carry credentials; use the api key or extra headers".

Definition build_chat_completions_url (base_url : str) : result str ProviderError :=
  match url_parse base_url with
  | Err e => Err (OtherFailure ("invalid OpenAI base URL: " ++ e))
  | Ok url =>
      if bool_decide (url_username url <> []) || bool_decide (is_Some (url_password url)) then Err credentials_in_url
      else
        let existing_path := url_path url in
        let suffix := if str_eqb existing_path [] || str_eqb existing_path "/"
                      then lit "/v1/chat/completions" else lit "/chat/completions" in
        Ok (url_to_string (url_set_path url (trim_end_matches "/" existing_path ++ suffix)))
  end.

Definition redacted_base_url (base_url : str) : str :=
  match url_parse base_url with
  | Ok url => url_to_string (url_set_query (url_set_password (url_set_username url []) None) None)
  | Err _ => "<unparseable base URL>"
  end.
End Endpoint.

(** ** No secret gets through *)

Definition infix (t s : str) : Prop := exists a b, s = a ++ t ++ b.

Lemma infix_l t x y : infix t x -> infix t (x ++ y).
Proof. intros (a & b & ->). exists a, (b ++ y). by rewrite <- !app_assoc. Qed.
Lemma infix_r t x y : infix t y -> infix t (x ++ y).
Proof. intros (a & b & ->). exists (x ++ a), b. by rewrite <- !app_assoc. Qed.

(** Text without [c] does not reach across one. *)
Lemma infix_cut c t x y : c ∉ t -> infix t (x ++ c :: y) -> infix t x \/ infix t y.
Proof.
  intros Hc (a & b & E). revert x E. induction a as [|d a IH]; intros x E.
  - left. destruct (decide (length t <= length x)%nat) as [Hl|Hl].
    + exists [], (drop (length t) x). cbn in E |- *. apply (f_equal (take (length t))) in E.
      rewrite take_app_le, take_app_length in E by done. rewrite <- E at 1. by rewrite take_drop.
    + exfalso. apply Hc. apply (f_equal (take (length t))) in E. cbn in E. rewrite take_app_length in E. rewrite <- E.
      rewrite take_app_ge by lia. apply elem_of_app. right. destruct (length t - length x)%nat eqn:El; [lia|]. by left.
  - destruct x as [|d' x]; cbn in E; injection E as <- E.
    + right. by exists a, b.
    + destruct (IH x E) as [(a' & b' & ->)|?]; [left; by exists (d' :: a'), b'|by right].
Qed.

(** The end of a text: a piece that does not end in [c] stands before it. *)
Lemma infix_snoc c t x : last t <> Some c -> infix t (x ++ [c]) -> infix t x.
Proof.
  intros Hl (a & b & E). destruct b as [|d b _] using rev_ind.
  - rewrite app_nil_r in E. destruct t as [|d t _] using rev_ind; [exists x, []; by rewrite app_nil_r|].
    rewrite app_assoc in E. apply app_inj_tail in E as [_ <-]. by rewrite last_snoc in Hl.
  - rewrite !app_assoc in E. apply app_inj_tail in E as [-> _]. exists a, b. by rewrite app_assoc.
Qed.

(** A secret the mask neither contains nor cuts. *)
Record maskable (t : str) : Prop := {
  mask_open : "<"%char ∉ t;
  mask_close : ">"%char ∉ t;
  mask_apart : ~ infix t "redacted";
  mask_dots : last t <> Some "."%char;
}.

Lemma maskable_cut t x y : maskable t -> infix t (x ++ redacted ++ y) -> infix t x \/ infix t y.
Proof.
  intros [Ho Hc Ha _] [?|Hi]%(infix_cut "<" t x (lit "redacted" ++ ">"%char :: y)); [by left| |done].
  apply infix_cut in Hi as [?|?]; [done|by right|done].
Qed.

Lemma find_sub_first p s i : p <> [] -> find_sub p s = Some i -> ~ infix p (take i s).
Proof.
  intros Hp E (a & b & Et). pose proof (find_sub_spec p s) as Hs. rewrite E in Hs. destruct Hs as (x & y & -> & <- & Hmin).
  rewrite take_app_length in Et. subst x. specialize (Hmin a (b ++ p ++ y)). rewrite <- !app_assoc in Hmin.
  specialize (Hmin eq_refl). rewrite !length_app in Hmin. destruct p; [done|cbn in Hmin; lia].
Qed.

(** Replacing one secret hides it and brings no other. *)
Lemma replace_hides fuel p s t : (length s <= fuel)%nat -> p <> [] -> maskable t -> t = p \/ ~ infix t s ->
  ~ infix t (replace_loop fuel p redacted s).
Proof.
  intros Hf Hp Ht. revert s Hf. induction fuel as [|fuel IH]; intros s Hf Hor; cbn [replace_loop].
  - destruct s; [|cbn in Hf; lia]. destruct Hor as [->|?]; [|done]. intros (a & b & E). symmetry in E.
    apply app_eq_nil in E as [_ [E _]%app_eq_nil]. by apply Hp.
  - pose proof (find_sub_spec p s) as Hs. destruct (find_sub p s) as [i|] eqn:E.
    + intros [Hi|Hi]%maskable_cut; [..|done].
      * destruct Hor as [->|Hn]; [by apply (find_sub_first p s i)|]. apply Hn. rewrite <- (take_drop i s). by apply infix_l.
      * revert Hi. apply IH.
        -- rewrite length_skipn. destruct p; [done|cbn]. lia.
        -- destruct Hor as [->|Hn]; [by left|right]. intros Hi. apply Hn. rewrite <- (take_drop (i + length p) s). by apply infix_r.
    + destruct Hor as [->|?]; [|done]. intros (a & b & Es). by apply (Hs a b).
Qed.

Lemma replace_all_hides (ss : list str) t text : Forall (fun s => s <> []) ss -> maskable t -> t ∈ ss \/ ~ infix t text ->
  ~ infix t (fold_left (fun scrubbed secret => str_replace secret redacted scrubbed) ss text).
Proof.
  intros Hs Ht. revert text. induction Hs as [|p ss Hp _ IH]; intros text; cbn [fold_left].
  { by intros [?%not_elem_of_nil|]. }
  intros Hor. apply IH. destruct Hor as [[->|?]%elem_of_cons|Hn]; [right|by left|right];
    apply replace_hides; auto.
Qed.

Lemma insert_longest_In x y l : y ∈ insert_longest x l <-> y = x \/ y ∈ l.
Proof.
  induction l as [|z l IH]; cbn [insert_longest]; [set_solver|]. destruct (_ <=? _)%nat; [set_solver|].
  rewrite !elem_of_cons, IH. tauto.
Qed.
Lemma longest_first_In y l : y ∈ longest_first l <-> y ∈ l.
Proof. induction l as [|x l IH]; [done|]. cbn. by rewrite insert_longest_In, IH, elem_of_cons. Qed.

Lemma secrets_In c t : t ∈ secrets c <-> t <> [] /\ t ∈ api_key c :: List.map snd (extra_headers c).
Proof.
  unfold secrets. rewrite longest_first_In. induction (api_key c :: _) as [|s l IH]; [set_solver|]. cbn.
  destruct (str_eqb s []) eqn:E; bools; cbn; rewrite ?elem_of_cons, IH; [|naive_solver]. subst s. set_solver.
Qed.

(** The text an upstream error carries on holds none of the configured secrets, the key or the value
    of an extra header: wherever the answer echoes one, however secrets overlap, and where the text is cut
    to its bound.  (A secret that is itself part of the mask, holds an angle bracket or ends in a dot is
    not covered.) *)
Theorem upstream_text_hides_secrets c text secret :
  secret <> [] -> secret ∈ api_key c :: List.map snd (extra_headers c) -> maskable secret ->
  ~ infix secret (scrub_upstream_text c text) /\
  (char_count (scrub_upstream_text c text) <= MAX_UPSTREAM_TEXT_CHARS)%nat.
Proof.
  intros Hn Hin Hm. assert (secret ∈ secrets c) as Hs by by apply secrets_In.
  assert (Forall (fun s => s <> []) (secrets c)) as Hne by (apply Forall_forall; intros s Hx; by apply secrets_In in Hx as [? _]).
  pose proof (replace_all_hides (secrets c) secret text Hne Hm (or_introl Hs)) as Hh. unfold scrub_upstream_text.
  destruct (Nat.leb_spec (char_count (fold_left (fun s x => str_replace x redacted s) (secrets c) text)) MAX_UPSTREAM_TEXT_CHARS) as [El|El]; [by split|]. split.
  - intros Hi. apply Hh. set (s := fold_left _ _ _) in *. destruct (take_chars_prefix (MAX_UPSTREAM_TEXT_CHARS - 3) s) as [r Er].
    rewrite Er. apply infix_l. pose proof (mask_dots _ Hm) as Hd.
    change (lit "...") with ((["."%char] ++ ["."%char]) ++ ["."%char]) in Hi. rewrite !app_assoc in Hi.
    by do 3 apply (infix_snoc "." _ _ Hd) in Hi.
  - unfold char_count. rewrite List.filter_app, length_app. pose proof (take_chars_count (MAX_UPSTREAM_TEXT_CHARS - 3)
      (fold_left (fun scrubbed secret => str_replace secret redacted scrubbed) (secrets c) text)) as Hc. unfold char_count in Hc.
    change (length (List.filter _ (lit "..."))) with 3%nat. unfold MAX_UPSTREAM_TEXT_CHARS in *. lia.
Qed.

(** A gateway echoes the key it was sent and the header; a long answer is cut where the key stands. *)
Definition ex_config : OpenAiConfig :=
  with_extra_headers (config_new (lit "https://gateway.example") (lit " sk-12345 ") (lit "m")) [(lit "x-tenant", lit "sk-12345-tenant")].

Lemma upstream_text_hides_secrets_witness :
  scrub_upstream_text ex_config (lit "invalid key: sk-12345 for sk-12345-tenant") = lit "invalid key: <redacted> for <redacted>" /\
  ~ infix (lit "sk-12345") (scrub_upstream_text ex_config (repeat "x"%char 505 ++ lit "sk-12345" ++ repeat "y"%char 30)) /\
  char_count (scrub_upstream_text ex_config (repeat "x"%char 505 ++ lit "sk-12345" ++ repeat "y"%char 30)) = 512%nat.
Proof.
  split; [vm_compute; reflexivity|]. split; [|vm_compute; reflexivity].
  apply (upstream_text_hides_secrets ex_config (repeat "x"%char 505 ++ lit "sk-12345" ++ repeat "y"%char 30) (lit "sk-12345")).
  - discriminate.
  - apply (bool_decide_unpack _). vm_compute. exact I.
  - split; [apply (bool_decide_unpack _); vm_compute; exact I..| |discriminate].
    intros (a & b & E). assert ("k"%char ∈ lit "redacted") as Hk.
    { rewrite E. apply elem_of_app. right. apply elem_of_app. left. apply (bool_decide_unpack _). vm_compute. exact I. }
    apply (bool_decide_pack _) in Hk. vm_compute in Hk. exact Hk.
Defined.
