(* ===== verification/OpenAi.v ===== *)
(** * The OpenAI provider

    Models [crates/simulacra-provider/src/openai]: [mod.rs] with [encode.rs], [tool_images.rs] and
    [finish.rs] (the configuration and the endpoint are in [OpenAiConfig]): the request body, with the
    images tools returned moved to a message of their own; a reply read whole or from a stream; and the
    two ways to call the model.  The body is the JSON value sent, without the order of its keys.  JSON
    values, URLs, the serialiser and the HTTP client are parameters; a [BTreeMap] is a list sorted by
    index.  Spans and meters are left out. *)

From S2P Require Import Prelude.
From S2P Require Import Text.
From S2P Require Import Utf8.
From S2P Require Import Context.
From S2P Require Import Budget.
From S2P Require Import Journal.
From S2P Require Import LlmReplay.
From S2P Require Import Json.
From S2P Require Import Provider.
From S2P Require Import ProviderStream.
From S2P Require Import OpenAiConfig.

Section OpenAi.
Context {Value : Type} `{JsonOps Value}.
Abbreviation Message := (@Message Value).
Abbreviation ToolCallMessage := (@ToolCallMessage Value).

(** ** The request ([encode.rs], [tool_images.rs]) *)

Definition role_name (r : Role) : str :=
  match r with System => "system" | User => "user" | Assistant => "assistant" | Tool => "tool" end.

Definition encode_message (msg : Message) : Value :=
  json_object
    (["role" ↦ json_string (role_name (role msg)); "content" ↦ json_string (content msg)] ++
     (if bool_decide (tool_calls msg = []) then [] else
        ["tool_calls" ↦ json_array (List.map (fun tc =>
           json_object ["id" ↦ json_string (tc_id tc); "type" ↦ json_string (lit "function");
                        "function" ↦ json_object ["name" ↦ json_string (tc_name tc);
                                                  "arguments" ↦ json_string (json_to_string (tc_arguments tc))]]) (tool_calls msg))]) ++
     match tool_call_id msg with Some id => ["tool_call_id" ↦ json_string id] | None => [] end).

Definition text_part (text : str) : Value := json_object ["type" ↦ json_string (lit "text"); "text" ↦ json_string text].

Definition image_part (source : option Value) : Value :=
  let field (k : str) := source ≫= get_str k in
  let url :=
    match field (lit "type") with
    | Some t =>
        if str_eqb t "base64" then
          match field (lit "media_type"), field (lit "data") with
          | Some media, Some data => Some ("data:" ++ media ++ ";base64," ++ data)
          | _, _ => None
          end
        else if str_eqb t "url" then field (lit "url")
        else None
    | None => None
    end in
  match url with
  | Some url => json_object ["type" ↦ json_string (lit "image_url");
                             "image_url" ↦ json_object ["url" ↦ json_string url; "detail" ↦ json_string (lit "high")]]
  | None => text_part "[An image returned by the tool is unavailable on this provider.]"
  end.

Definition tool_images (msg : Message) : list (@ProviderContentBlock Value) :=
  List.filter (fun b => bool_decide (get_str (lit "type") (pc_value b) = Some (lit "image")))
    (List.filter (fun b => str_eqb (pc_provider b) "anthropic") (provider_content msg)).

(** What [collect] adds to the parts. *)
Definition image_parts (msg : Message) : list Value :=
  match tool_images msg with
  | [] => []
  | images =>
      text_part ("Image(s) returned by tool call " ++ unwrap_or (tool_call_id msg) [] ++ ":") ::
      List.map (fun b => image_part (value_get (lit "source") (pc_value b))) images
  end.

(** What [flush] adds to the output. *)
Definition flushed (parts : list Value) : list Value :=
  match parts with [] => [] | _ => [json_object ["role" ↦ json_string (lit "user"); "content" ↦ json_array parts]] end.

(** The loop of [encode_messages], with the parts that wait. *)
Fixpoint encode_loop (messages : list Message) (parts : list Value) : list Value :=
  match messages with
  | [] => flushed parts
  | msg :: messages =>
      match role msg with
      | Tool => encode_message msg :: encode_loop messages (parts ++ image_parts msg)
      | User =>
          match parts with
          | [] => encode_message msg :: encode_loop messages []
          | _ => flushed (parts ++ if str_eqb (content msg) [] then [] else [text_part (content msg)]) ++ encode_loop messages []
          end
      | _ => flushed parts ++ encode_message msg :: encode_loop messages []
      end
  end.
Definition encode_messages (messages : list Message) : list Value := encode_loop messages [].

Definition api_tool (t : ToolDefinition Value) : Value :=
  json_object ["type" ↦ json_string (lit "function");
               "function" ↦ json_object ["name" ↦ json_string (def_name t); "description" ↦ json_string (def_description t);
                                         "parameters" ↦ input_schema t]].

Definition build_request_body (config : OpenAiConfig) (messages : list Message) (tools : list (ToolDefinition Value)) (stream : bool)
    (output_cap : option N) : Value :=
  json_object
    (["model" ↦ json_string (model config); "messages" ↦ json_array (encode_messages (normalize_tool_pairs messages));
      "stream" ↦ json_bool stream] ++
     (if stream then ["stream_options" ↦ json_object ["include_usage" ↦ json_bool true]] else []) ++
     match output_cap with Some cap => [(wire_name (output_cap_field config), json_number cap)] | None => [] end ++
     if bool_decide (tools = []) then [] else ["tools" ↦ json_array (List.map api_tool tools)]).

(** ** Replies ([finish.rs], [mod.rs]) *)

Definition map_finish_reason (finish_reason : option str) (refusal_seen : bool) : FinishReason :=
  if refusal_seen then RefusalReason
  else match finish_reason with
  | Some r =>
      if str_eqb r "stop" then EndTurn
      else if str_eqb r "tool_calls" then ToolUse
      else if str_eqb r "length" then LlmReplay.MaxTokens
      else if str_eqb r "content_filter" then RefusalReason
      else Other (sanitize_other_reason r)
  | None => Other "missing"
  end.

Definition parse_tool_call_arguments (tool_name raw_args : str) : result Value ProviderError :=
  if str_eqb (trim raw_args) [] then Ok (json_object [])
  else match json_from_str raw_args with
  | Some v => Ok v
  | None => Err (MalformedToolInput tool_name (N.of_nat (length raw_args)))
  end.

Definition classify_error (config : OpenAiConfig) (resp : HttpResponse) : ProviderError :=
  let message := unwrap_or ((json_from_str (http_body resp) ≫= value_get (lit "error")) ≫= get_str (lit "message"))
                           (from_utf8_lossy (http_body resp)) in
  let message := scrub_upstream_text config message in
  if (http_status resp =? 429)%N then RateLimit (Provider.retry_after_ms (http_headers resp))
  else classify (http_status resp) message.

Fixpoint parse_tool_call_items (items : list Value) : result (list ToolCallMessage) ProviderError :=
  match items with
  | [] => Ok []
  | tc :: items =>
      match get_str (lit "id") tc, value_get (lit "function") tc with
      | Some id, Some func =>
          match get_str (lit "name") func, get_str (lit "arguments") func with
          | Some name, Some args_str =>
              let? arguments := parse_tool_call_arguments name args_str in
              let? rest := parse_tool_call_items items in
              Ok ({| tc_id := id; tc_name := name; tc_arguments := arguments |} :: rest)
          | _, _ => parse_tool_call_items items
          end
      | _, _ => parse_tool_call_items items
      end
  end.
Definition parse_tool_calls (message_obj : Value) : result (list ToolCallMessage) ProviderError :=
  match value_get (lit "tool_calls") message_obj ≫= as_array with
  | None => Ok []
  | Some arr => parse_tool_call_items arr
  end.

Definition refusal_in (v : Value) : bool :=
  match get_str (lit "refusal") v with Some s => negb (str_eqb s []) | None => false end.
Definition usage_number (usage : option Value) (key : str) (default : N) : N := unwrap_or (usage ≫= get_u64 key) default.
Definition cached_tokens (usage : option Value) (default : N) : N :=
  unwrap_or ((usage ≫= value_get (lit "prompt_tokens_details")) ≫= get_u64 (lit "cached_tokens")) default.

Definition reply_of (content : str) (tool_calls : list ToolCallMessage) (usage : TokenUsage) (reason : FinishReason) (model : str)
    (id : option str) : ProviderReply Value :=
  {| reply_response :=
       {| response_message := {| role := Assistant; content := content; tool_calls := tool_calls; tool_call_id := None; provider_content := [] |};
          response_usage := usage; finish_reason := reason; response_model := model |};
     provider_response_id := id |}.

Definition parse_json_response (body : bytes) : result (ProviderReply Value) ProviderError :=
  match json_from_str body with
  | None => Err (OtherFailure ("failed to parse response JSON: " ++ json_error body))
  | Some json =>
      match (value_get (lit "choices") json ≫= as_array) ≫= head with
      | None => Err (OtherFailure "no choices in response")
      | Some choice =>
          match value_get (lit "message") choice with
          | None => Err (OtherFailure "no message in choice")
          | Some message_obj =>
              let? tool_calls := parse_tool_calls message_obj in
              let usage := value_get (lit "usage") json in
              let input := usage_number usage (lit "prompt_tokens") 0 in
              Ok (reply_of (get_text (lit "content") message_obj) tool_calls
                    {| input_tokens := input; output_tokens := usage_number usage (lit "completion_tokens") 0;
                       cache_read_input_tokens := N.min (cached_tokens usage 0) input; cache_write_input_tokens := 0 |}
                    (map_finish_reason (get_str (lit "finish_reason") choice) (refusal_in message_obj))
                    (get_text (lit "model") json) (get_str (lit "id") json))
          end
      end
  end.

(** ** The accumulator of a stream *)

Record Accumulator := {
  default_model : str;
  provider_sink : option (list ProviderStreamEvent);
  response_id : option str;
  acc_input_tokens : N;
  acc_output_tokens : N;
  acc_cache_read : N;
  acc_content : str;
  acc_finish_reason : option str;
  refusal_seen : bool;
  resp_model : option str;
  pending_tool_calls : list (N * (str * str * str));
  done_seen : bool;
}.

Definition set_sink (a : Accumulator) (x : option (list ProviderStreamEvent)) : Accumulator :=
  {| default_model := default_model a; provider_sink := x; response_id := response_id a;
     acc_input_tokens := acc_input_tokens a; acc_output_tokens := acc_output_tokens a;
     acc_cache_read := acc_cache_read a; acc_content := acc_content a; acc_finish_reason := acc_finish_reason a;
     refusal_seen := refusal_seen a; resp_model := resp_model a; pending_tool_calls := pending_tool_calls a;
     done_seen := done_seen a |}.
Definition set_id (a : Accumulator) (x : option str) : Accumulator :=
  {| default_model := default_model a; provider_sink := provider_sink a; response_id := x;
     acc_input_tokens := acc_input_tokens a; acc_output_tokens := acc_output_tokens a;
     acc_cache_read := acc_cache_read a; acc_content := acc_content a; acc_finish_reason := acc_finish_reason a;
     refusal_seen := refusal_seen a; resp_model := resp_model a; pending_tool_calls := pending_tool_calls a;
     done_seen := done_seen a |}.
Definition set_content (a : Accumulator) (x : str) : Accumulator :=
  {| default_model := default_model a; provider_sink := provider_sink a; response_id := response_id a;
     acc_input_tokens := acc_input_tokens a; acc_output_tokens := acc_output_tokens a;
     acc_cache_read := acc_cache_read a; acc_content := x; acc_finish_reason := acc_finish_reason a;
     refusal_seen := refusal_seen a; resp_model := resp_model a; pending_tool_calls := pending_tool_calls a;
     done_seen := done_seen a |}.
Definition set_finish_reason (a : Accumulator) (x : option str) : Accumulator :=
  {| default_model := default_model a; provider_sink := provider_sink a; response_id := response_id a;
     acc_input_tokens := acc_input_tokens a; acc_output_tokens := acc_output_tokens a;
     acc_cache_read := acc_cache_read a; acc_content := acc_content a; acc_finish_reason := x;
     refusal_seen := refusal_seen a; resp_model := resp_model a; pending_tool_calls := pending_tool_calls a;
     done_seen := done_seen a |}.
Definition set_refusal (a : Accumulator) (x : bool) : Accumulator :=
  {| default_model := default_model a; provider_sink := provider_sink a; response_id := response_id a;
     acc_input_tokens := acc_input_tokens a; acc_output_tokens := acc_output_tokens a;
     acc_cache_read := acc_cache_read a; acc_content := acc_content a; acc_finish_reason := acc_finish_reason a;
     refusal_seen := x; resp_model := resp_model a; pending_tool_calls := pending_tool_calls a;
     done_seen := done_seen a |}.
Definition set_model (a : Accumulator) (x : option str) : Accumulator :=
  {| default_model := default_model a; provider_sink := provider_sink a; response_id := response_id a;
     acc_input_tokens := acc_input_tokens a; acc_output_tokens := acc_output_tokens a;
     acc_cache_read := acc_cache_read a; acc_content := acc_content a; acc_finish_reason := acc_finish_reason a;
     refusal_seen := refusal_seen a; resp_model := x; pending_tool_calls := pending_tool_calls a;
     done_seen := done_seen a |}.
Definition set_pending (a : Accumulator) (x : list (N * (str * str * str))) : Accumulator :=
  {| default_model := default_model a; provider_sink := provider_sink a; response_id := response_id a;
     acc_input_tokens := acc_input_tokens a; acc_output_tokens := acc_output_tokens a;
     acc_cache_read := acc_cache_read a; acc_content := acc_content a; acc_finish_reason := acc_finish_reason a;
     refusal_seen := refusal_seen a; resp_model := resp_model a; pending_tool_calls := x; done_seen := done_seen a |}.
Definition set_done (a : Accumulator) (x : bool) : Accumulator :=
  {| default_model := default_model a; provider_sink := provider_sink a; response_id := response_id a;
     acc_input_tokens := acc_input_tokens a; acc_output_tokens := acc_output_tokens a;
     acc_cache_read := acc_cache_read a; acc_content := acc_content a; acc_finish_reason := acc_finish_reason a;
     refusal_seen := refusal_seen a; resp_model := resp_model a; pending_tool_calls := pending_tool_calls a;
     done_seen := x |}.
Definition set_usage (a : Accumulator) (input output cache_read : N) : Accumulator :=
  {| default_model := default_model a; provider_sink := provider_sink a; response_id := response_id a;
     acc_input_tokens := input; acc_output_tokens := output; acc_cache_read := cache_read;
     acc_content := acc_content a; acc_finish_reason := acc_finish_reason a; refusal_seen := refusal_seen a;
     resp_model := resp_model a; pending_tool_calls := pending_tool_calls a; done_seen := done_seen a |}.

Definition accumulator_new (model : str) (sink : option (list ProviderStreamEvent)) : Accumulator :=
  {| default_model := model; provider_sink := sink; response_id := None; acc_input_tokens := 0;
     acc_output_tokens := 0; acc_cache_read := 0; acc_content := []; acc_finish_reason := None;
     refusal_seen := false; resp_model := None; pending_tool_calls := []; done_seen := false |}.

Definition emit (event : ProviderStreamEvent) (a : Accumulator) : Accumulator :=
  match provider_sink a with
  | Some events => set_sink a (Some (events ++ [event]))
  | None => a
  end.

Fixpoint btree_get {A} (k : N) (l : list (N * A)) : option A :=
  match l with [] => None | (k', x) :: l => if (k =? k')%N then Some x else btree_get k l end.

Definition push_text (text_content : str) (a : Accumulator) : Accumulator :=
  let a := set_content a (acc_content a ++ text_content) in
  if str_eqb text_content [] then a else emit (TextDelta text_content) a.

(** One entry of [delta.tool_calls]. *)
Definition push_tool_call (tc : Value) (a : Accumulator) : Accumulator :=
  let idx := get_number (lit "index") tc in
  let '(id, name, args) := unwrap_or (btree_get idx (pending_tool_calls a)) ([], [], []) in
  let func := value_get (lit "function") tc in
  let new_id := get_str (lit "id") tc in
  let new_name := func ≫= get_str (lit "name") in
  let new_args := func ≫= get_str (lit "arguments") in
  let id := unwrap_or new_id id in
  let name := unwrap_or new_name name in
  let arguments_delta := unwrap_or new_args [] in
  let a := set_pending a (btree_insert idx (id, name, args ++ arguments_delta) (pending_tool_calls a)) in
  if bool_decide (is_Some new_id) || bool_decide (is_Some new_name) || bool_decide (is_Some new_args)
  then emit (tool_call_delta idx id name arguments_delta) a else a.

Definition push_delta (delta : Value) (a : Accumulator) : Accumulator :=
  let a := match get_str (lit "content") delta with Some text_content => push_text text_content a | None => a end in
  let a := match value_get (lit "tool_calls") delta ≫= as_array with
           | Some tool_calls => fold_left (fun a tc => push_tool_call tc a) tool_calls a
           | None => a
           end in
  if refusal_in delta then set_refusal a true else a.

Definition push_choice (choice : Value) (a : Accumulator) : Accumulator :=
  let a := match value_get (lit "delta") choice with Some delta => push_delta delta a | None => a end in
  match get_str (lit "finish_reason") choice with Some fr => set_finish_reason a (Some fr) | None => a end.

Definition push_usage (usage : Value) (a : Accumulator) : Accumulator :=
  let input := usage_number (Some usage) (lit "prompt_tokens") (acc_input_tokens a) in
  set_usage a input (usage_number (Some usage) (lit "completion_tokens") (acc_output_tokens a))
    (N.min (cached_tokens (Some usage) (acc_cache_read a)) input).

Definition process_event (event : Value) (a : Accumulator) : Accumulator :=
  let a := match response_id a with None => set_id a (get_str (lit "id") event) | Some _ => a end in
  let a := match resp_model a with None => set_model a (get_str (lit "model") event) | Some _ => a end in
  let a := match value_get (lit "choices") event ≫= as_array with
           | Some choices => fold_left (fun a choice => push_choice choice a) choices a
           | None => a
           end in
  match value_get (lit "usage") event with Some usage => push_usage usage a | None => a end.

Definition accumulate_line (line : str) : SE Accumulator ProviderError unit := fun a =>
  if done_seen a then (a, Ok tt)
  else match strip_prefix "data: " line with
  | None => (a, Ok tt)
  | Some json_str =>
      if str_eqb json_str "[DONE]" then (set_done a true, Ok tt)
      else match json_from_str json_str with
      | None => (a, Err (OtherFailure ("failed to parse SSE event JSON: " ++ json_error json_str)))
      | Some event => (process_event event a, Ok tt)
      end
  end.

Fixpoint finished_tool_calls (pending : list (N * (str * str * str))) : result (list ToolCallMessage) ProviderError :=
  match pending with
  | [] => Ok []
  | (_, (id, name, args_str)) :: pending =>
      let? arguments := parse_tool_call_arguments name args_str in
      let? rest := finished_tool_calls pending in
      Ok ({| tc_id := id; tc_name := name; tc_arguments := arguments |} :: rest)
  end.

Definition finish (a : Accumulator) : result (ProviderReply Value) ProviderError :=
  let? tool_calls := finished_tool_calls (pending_tool_calls a) in
  Ok (reply_of (acc_content a) tool_calls
        {| input_tokens := acc_input_tokens a; output_tokens := acc_output_tokens a;
           cache_read_input_tokens := acc_cache_read a; cache_write_input_tokens := 0 |}
        (map_finish_reason (acc_finish_reason a) (refusal_seen a))
        (unwrap_or (resp_model a) (default_model a)) (response_id a)).

#[export] Instance openai_sse : SseAccumulator Accumulator (ProviderReply Value) := {
  process_line := accumulate_line;
  finish_reply := finish;
}.

(** ** Calls *)

Section Calls.
Context {Url : Type} `{UrlOps Url}.
Context {Decimal : Type} `{DecimalOps Decimal}.
Context (to_vec : Value -> result bytes str).
Context (post : str -> Headers -> bytes -> result WireResponse ReqwestError).

Definition output_cap (budget : ResourceBudget Decimal) : option N :=
  if (max_tokens budget =? 0)%N then None else Some (N.max (max_tokens budget - used_tokens budget) 1)%N.

(** What both calls do before they send. *)
Definition send (config : OpenAiConfig) (messages : list Message) (tools : list (ToolDefinition Value)) (budget : ResourceBudget Decimal)
    : result (result WireResponse ReqwestError) ProviderError :=
  match check_budget budget with
  | Err e => Err (BudgetExhaustedError e)
  | Ok _ =>
      let? url := build_chat_completions_url (base_url config) in
      match to_vec (build_request_body config messages tools true (output_cap budget)) with
      | Err e => Err (OtherFailure ("failed to serialize request: " ++ e))
      | Ok body => Ok (post url ((lit "content-type", lit "application/json") :: auth_headers config) body)
      end
  end.

Definition chat (config : OpenAiConfig) messages tools budget : result (ProviderReply Value) ProviderError :=
  let? sent := send config messages tools budget in
  chat_reply (classify_error config) parse_json_response (accumulator_new (model config) None) sent.

Definition chat_stream (config : OpenAiConfig) messages tools budget
    : list ProviderStreamEvent * result (ProviderReply Value) ProviderError :=
  match send config messages tools budget with
  | Err e => ([], Err e)
  | Ok sent =>
      let '(a, r) := chat_stream_reply (classify_error config) parse_json_response (accumulator_new (model config) (Some [])) sent in
      (unwrap_or (provider_sink a) [], r)
  end.
End Calls.

(** ** Lemmas *)

(** *** The sink changes nothing else *)

Definition forget (a : Accumulator) : Accumulator := set_sink a None.
Definition blind (f : Accumulator -> Accumulator) : Prop := forall a, forget (f a) = f (forget a).
Definition same_but_sink (a1 a2 : Accumulator) : Prop := forget a1 = forget a2.

Lemma fold_blind {A} (f : A -> Accumulator -> Accumulator) l : (forall x, blind (f x)) -> blind (fold_left (fun a x => f x a) l).
Proof. intros Hf. induction l as [|x l IH]; intros a; cbn; [done|]. by rewrite IH, Hf. Qed.

Lemma chat_text_blind text : blind (push_text text).
Proof. intros [? [?|] ? ? ? ? ? ? ? ? ? ?]; unfold push_text; by destruct (str_eqb text []). Qed.

Lemma push_tool_call_blind tc : blind (push_tool_call tc).
Proof.
  intros [? [?|] ? ? ? ? ? ? ? ? pending ?]; unfold push_tool_call; cbn;
    destruct (unwrap_or (btree_get _ pending) _) as [[id name] args]; by destruct (_ || _).
Qed.

Lemma push_delta_blind delta : blind (push_delta delta).
Proof.
  intros a. unfold push_delta.
  assert (forall a, forget (if refusal_in delta then set_refusal a true else a) = if refusal_in delta then set_refusal (forget a) true else forget a)
    as -> by (intros b; by destruct (refusal_in delta)).
  destruct (value_get _ delta ≫= as_array) as [tcs|]; rewrite ?(fold_blind push_tool_call tcs push_tool_call_blind);
    destruct (get_str _ delta) as [text|]; by rewrite ?chat_text_blind.
Qed.

Lemma push_choice_blind choice : blind (push_choice choice).
Proof.
  intros a. unfold push_choice. destruct (value_get _ choice) as [delta|], (get_str _ choice) as [fr|]; rewrite <- ?push_delta_blind; done.
Qed.

Lemma process_event_blind event : blind (process_event event).
Proof.
  intros a. unfold process_event.
  assert (forall a, forget (match response_id a with None => set_id a (get_str (lit "id") event) | Some _ => a end) =
    match response_id (forget a) with None => set_id (forget a) (get_str (lit "id") event) | Some _ => forget a end) as H1
    by (intros [? ? [?|] ? ? ? ? ? ? ? ? ?]; done).
  assert (forall a, forget (match resp_model a with None => set_model a (get_str (lit "model") event) | Some _ => a end) =
    match resp_model (forget a) with None => set_model (forget a) (get_str (lit "model") event) | Some _ => forget a end) as H2
    by (intros [? ? ? ? ? ? ? ? ? [?|] ? ?]; done).
  rewrite <- H1, <- H2.
  destruct (value_get _ event ≫= as_array) as [choices|]; rewrite <- ?(fold_blind push_choice choices push_choice_blind);
    by destruct (value_get _ event).
Qed.

Lemma chat_line_in_step line : in_step same_but_sink eq (accumulate_line line) (accumulate_line line).
Proof.
  intros a1 a2 Ha. unfold accumulate_line, same_but_sink in *. assert (done_seen a1 = done_seen a2) as -> by exact (f_equal done_seen Ha).
  destruct (done_seen a2); [done|]. destruct (strip_prefix _ line) as [json|]; [|done].
  destruct (str_eqb json _); [cbn; split; [|done]; by apply (f_equal (fun a => set_done a true)) in Ha|].
  destruct (json_from_str json) as [event|]; [|done]. cbn. by rewrite !process_event_blind, Ha.
Qed.

(** *** What has been emitted *)

Definition mirrored (a : Accumulator) : Prop := exists events, provider_sink a = Some events /\ deltas events = acc_content a.

Lemma chat_text_mirrored text a : mirrored a -> mirrored (push_text text a).
Proof.
  unfold push_text. intros (events & Es & Ha). destruct (str_eqb text []) eqn:E; bools.
  - subst text. exists events. cbn. by rewrite app_nil_r.
  - exists (events ++ [TextDelta text]). unfold emit. cbn. rewrite Es. cbn. by rewrite deltas_snoc, Ha.
Qed.

Lemma push_tool_call_mirrored tc a : mirrored a -> mirrored (push_tool_call tc a).
Proof.
  unfold push_tool_call. intros (events & Es & Ha). destruct (unwrap_or _ _) as [[id name] args].
  destruct (_ || _); [|by exists events]. unfold emit. cbn. rewrite Es. eexists. split; [done|]. by rewrite deltas_snoc, app_nil_r.
Qed.

Lemma fold_mirrored {A} (f : A -> Accumulator -> Accumulator) l a :
  (forall x a, mirrored a -> mirrored (f x a)) -> mirrored a -> mirrored (fold_left (fun a x => f x a) l a).
Proof. intros Hf. revert a. induction l as [|x l IH]; intros a Ha; cbn; [done|]. by apply IH, Hf. Qed.

Lemma push_choice_mirrored choice a : mirrored a -> mirrored (push_choice choice a).
Proof.
  intros Ha. unfold push_choice. assert (forall delta, mirrored (push_delta delta a)) as Hd.
  { intros delta. unfold push_delta.
    assert (mirrored (match get_str (lit "content") delta with Some t => push_text t a | None => a end)) as H1
      by (destruct (get_str _ delta); [by apply chat_text_mirrored|done]).
    revert H1. generalize (match get_str (lit "content") delta with Some t => push_text t a | None => a end). intros b Hb.
    assert (mirrored (match value_get (lit "tool_calls") delta ≫= as_array with
                      | Some tcs => fold_left (fun a tc => push_tool_call tc a) tcs b | None => b end)) as H2
      by (destruct (_ ≫= as_array); [apply fold_mirrored; [intros; by apply push_tool_call_mirrored|done]|done]).
    by destruct (refusal_in delta). }
  destruct (value_get _ choice) as [delta|]; destruct (get_str _ choice); try apply Hd; exact Ha.
Qed.

Lemma chat_line_mirrored line : preserves mirrored (accumulate_line line).
Proof.
  intros a Ha. unfold accumulate_line. destruct (done_seen a); [done|]. destruct (strip_prefix _ line) as [json|]; [|done].
  destruct (str_eqb json _); [done|]. destruct (json_from_str json) as [event|]; [|done]. cbn [fst]. unfold process_event.
  assert (mirrored (match response_id a with None => set_id a (get_str (lit "id") event) | Some _ => a end)) as H1 by by destruct (response_id a).
  revert H1. generalize (match response_id a with None => set_id a (get_str (lit "id") event) | Some _ => a end). intros b Hb.
  assert (mirrored (match resp_model b with None => set_model b (get_str (lit "model") event) | Some _ => b end)) as H2 by by destruct (resp_model b).
  revert H2. generalize (match resp_model b with None => set_model b (get_str (lit "model") event) | Some _ => b end). intros c Hc.
  assert (mirrored (match value_get (lit "choices") event ≫= as_array with
                    | Some cs => fold_left (fun a x => push_choice x a) cs c | None => c end)) as H3
    by (destruct (_ ≫= as_array); [apply fold_mirrored; [intros; by apply push_choice_mirrored|done]|done]).
  by destruct (value_get (lit "usage") event).
Qed.

(** ** Properties *)

Definition user_parts (parts : list Value) : Value := json_object ["role" ↦ json_string (lit "user"); "content" ↦ json_array parts].

Lemma encode_run results rest parts : Forall (fun r => role r = Tool) results ->
  encode_loop (results ++ rest) parts = List.map encode_message results ++ encode_loop rest (parts ++ List.concat (List.map image_parts results)).
Proof.
  intros Hr. revert parts. induction Hr as [|r rs Hr _ IH]; intros parts; cbn [app List.map List.concat encode_loop]; [by rewrite app_nil_r|].
  by rewrite Hr, IH, app_assoc.
Qed.

Lemma encode_before m rest : role m = Assistant -> forall pre parts,
  exists out, encode_loop (pre ++ m :: rest) parts = out ++ encode_message m :: encode_loop rest [].
Proof.
  intros Hm. induction pre as [|x pre IH]; intros parts; cbn [app encode_loop].
  { rewrite Hm. by exists (flushed parts). }
  destruct (role x); [..|destruct (IH (parts ++ image_parts x)) as [out ->]; by exists (encode_message x :: out)].
  1,3: destruct (IH []) as [out ->]; exists (flushed parts ++ encode_message x :: out); by rewrite <- app_assoc.
  destruct parts as [|p ps]; destruct (IH []) as [out ->]; [by exists (encode_message x :: out)|].
  eexists. by rewrite app_assoc.
Qed.

(** Images do not come between a call and its results.  The results of an assistant turn are sent as
    one unbroken run right after it, and what images they carry follows the run in one user message: the
    next message of the transcript when the user speaks next, one of its own otherwise. *)
Theorem images_follow_the_run pre m results rest :
  role m = Assistant -> Forall (fun r => role r = Tool) results -> Forall (fun r => role r <> Tool) (option_list (head rest)) ->
  exists before after,
    encode_messages (pre ++ m :: results ++ rest) = before ++ encode_message m :: List.map encode_message results ++ after /\
    let images := List.concat (List.map image_parts results) in
    (images = [] -> after = encode_messages rest) /\
    (images <> [] -> exists more after', after = user_parts (images ++ more) :: after' /\
       (more = [] \/ exists u rest', rest = u :: rest' /\ role u = User /\ more = [text_part (content u)])).
Proof.
  intros Hm Hr Hh. unfold encode_messages. destruct (encode_before m (results ++ rest) Hm pre []) as [before ->].
  rewrite encode_run by done. cbn [app]. exists before. eexists. split; [done|]. cbv zeta.
  set (images := List.concat _). split; [by intros ->|]. intros Hi. destruct images as [|i imgs] eqn:Ei; [done|].
  destruct rest as [|u rest]; cbn [encode_loop flushed].
  - exists [], []. rewrite app_nil_r. split; [done|by left].
  - cbn in Hh. apply Forall_cons in Hh as [Hu _]. destruct (role u) eqn:Er; [| | |done]; cbn [flushed app].
    1,3: exists [], (encode_message u :: encode_loop rest []); rewrite app_nil_r; split; [done|by left].
    destruct (str_eqb (content u) []).
    + exists [], (encode_loop rest []). split; [done|by left].
    + exists [text_part (content u)], (encode_loop rest []). split; [done|]. right. by exists u, rest.
Qed.

Section Properties.
Context {Url : Type} `{UrlOps Url}.
Context {Decimal : Type} `{DecimalOps Decimal}.
Context (to_vec : Value -> result bytes str).
Context (post : str -> Headers -> bytes -> result WireResponse ReqwestError).
Abbreviation chat_whole := (chat to_vec post).
Abbreviation chat_streamed := (chat_stream to_vec post).
Abbreviation sent_for := (send (Decimal := Decimal) to_vec post).

(** Streaming a reply is waiting for it, for this provider too: [chat] and [chat_stream] give the same
    reply or both fail, however the body is cut, and the text a stream emitted, put together, is the text
    of its reply. *)
Theorem openai_streaming_agrees config messages tools (budget : ResourceBudget Decimal) :
  let streamed := chat_streamed config messages tools budget in
  same_outcome (chat_whole config messages tools budget) (snd streamed) /\
  forall resp r, sent_for config messages tools budget = Ok (Ok resp) -> is_event_stream (collect_headers (wire_headers resp)) = true ->
  snd streamed = Ok r -> deltas (fst streamed) = content (response_message (reply_response r)).
Proof.
  cbv zeta. unfold chat, chat_stream. destruct (sent_for config messages tools budget) as [sent|e]; [|by split].
  set (oe := classify_error config). set (a0 := accumulator_new (model config) (Some [])).
  destruct (@streamed_agrees _ _ openai_sse oe parse_json_response same_but_sink chat_line_in_step
    (fun a1 a2 Ha => f_equal finish Ha : finish (forget a1) = finish (forget a2))
    sent (accumulator_new (model config) None) a0 eq_refl) as [Ho _].
  assert (mirrored (fst (chat_stream_reply oe parse_json_response a0 sent))) as Hm.
  { apply chat_stream_reply_keeps; [apply chat_line_mirrored|]. by exists []. }
  destruct (chat_stream_reply oe parse_json_response a0 sent) as [a r'] eqn:Es. cbn [fst snd] in *. split; [done|].
  intros resp r [= ->] Hs ->. destruct (chat_stream_reply_ok oe parse_json_response a0 resp r) as [[_ Hr]|[Hs' _]]; [by rewrite Es| |by rewrite Hs in Hs'].
  rewrite Es in Hr. cbn in Hr. unfold finish in Hr. destruct (finished_tool_calls _) as [tcs|]; [|done]. injection Hr as <-.
  destruct Hm as (events & -> & Hd). exact Hd.
Qed.
End Properties.
End OpenAi.
Arguments Accumulator : clear implicits.

(** ** A concrete stream *)

Definition obj (fields : list (String.string * tree)) : tree := Object (List.map (fun '(k, v) => (lit k, v)) fields).
Definition word (s : String.string) : tree := Text (lit s).
Definition ex_events : list (str * tree) := [
  (lit "hel", obj [("id", word "chatcmpl_1"); ("choices", Array [obj [("delta", obj [("content", word "Hel")])]])]);
  (lit "lo", obj [("choices", Array [obj [("delta", obj [("content", word "lo")]); ("finish_reason", word "stop")]])]);
  (lit "usage", obj [("usage", obj [("prompt_tokens", Number 7); ("completion_tokens", Number 2)])])
]%string.
#[local] Instance ex_json : JsonOps tree := tree_json ex_events.
#[local] Instance ex_urls : UrlOps (str * str) := {|
  url_parse := fun s => Ok (s, []); url_username := fun _ => []; url_password := fun _ => None; url_path := snd;
  url_set_path := fun u p => (fst u, p); url_set_username := fun u _ => u; url_set_password := fun u _ => u;
  url_set_query := fun u _ => u; url_to_string := fun u => fst u ++ snd u |}.

Definition ex_wire : WireResponse :=
  {| wire_status := 200; wire_headers := [(lit "content-type", Some (lit "text/event-stream"))];
     wire_chunks := [lit "data: he"; lit "l" ++ [cr; lf; cr; lf] ++ lit "data: lo" ++ [lf]; lit "data: usage" ++ [lf] ++ lit "data: [DONE]"];
     wire_failure := None |}.
Definition ex_chat_stream := @chat_stream tree ex_json (str * str) ex_urls N _ (fun _ => Ok []) (fun _ _ _ => Ok ex_wire) ex_config [] []
  (budget_new 100 0 0%N 0).

Lemma openai_streaming_agrees_witness :
  length (fst ex_chat_stream) = 2%nat /\ deltas (fst ex_chat_stream) = lit "Hello" /\ exists r, snd ex_chat_stream = Ok r.
Proof.
  destruct (@openai_streaming_agrees tree ex_json (str * str) ex_urls N _ (fun _ => Ok []) (fun _ _ _ => Ok ex_wire) ex_config [] []
    (budget_new 100 0 0%N 0)) as [_ H].
  split; [vm_compute; reflexivity|]. split; [|eexists; vm_compute; reflexivity].
  refine (eq_trans (H ex_wire _ _ _ _) _); [vm_compute; reflexivity..|]. vm_compute. reflexivity.
Defined.

(** Two results, one with an image, then the user. *)
Definition ex_message (r : Role) (text : String.string) (id : option str) (blocks : list (@ProviderContentBlock tree)) : @Message tree :=
  {| role := r; content := lit text; tool_calls := []; tool_call_id := id; provider_content := blocks |}.
Definition ex_image : @ProviderContentBlock tree :=
  {| pc_provider := "anthropic"; pc_value := obj [("type", word "image"); ("source", obj [("type", word "url"); ("url", word "https://x/i.png")])]%string |}.
Definition ex_results : list (@Message tree) :=
  [ex_message Tool "shot" (Some (lit "c1")) [ex_image]; ex_message Tool "done" (Some (lit "c2")) []].

Lemma images_follow_the_run_witness :
  exists after, encode_messages (ex_message Assistant "ok" None [] :: ex_results ++ [ex_message User "next" None []]) =
    encode_message (ex_message Assistant "ok" None []) :: List.map encode_message ex_results ++ [user_parts after] /\ length after = 3%nat.
Proof.
  destruct (images_follow_the_run [] (ex_message Assistant "ok" None []) ex_results [ex_message User "next" None []])
    as (before & after & E & _ & Hi); [done|repeat constructor|repeat constructor; done|].
  destruct Hi as (more & after' & -> & _); [vm_compute; discriminate|].
  eexists. split; [vm_compute; reflexivity|vm_compute; reflexivity].
Defined.
