(* ===== verification/AgentLoop.v ===== *)
(** * The agent loop

    Models [crates/simulacra-runtime/src/agent_loop/]: the turn ([turn/mod.rs], [turn/provider.rs],
    [turn/tools.rs]), the dispatch of tool calls ([tool_runtime.rs], [tool_execution.rs]), approvals
    ([hitl.rs]), the budget mirror ([construct.rs]), the run of turns ([run.rs]) and the size of the
    context ([mod.rs]).  [LlmReplay] and [Journal] are what the loop takes from a recorded journal.

    The provider, the tools, the humans who approve and everything that runs beside the loop are an
    environment: functions that may change the whole [World] (the journal, the shared budget, the
    cancellation flag, the policy signal, the queue of steering messages, the hooks' state) at every
    point where the loop awaits.  [trace] is what the loop did to the outside, in order.  Spans,
    meters and activity events are left out, and with them [TurnState], which only they read. *)

From S2P Require Import Prelude.
From S2P Require Import Text.
From S2P Require Import Context.
From S2P Require Import Budget.
From S2P Require Import Capability.
From S2P Require Import Journal.
From S2P Require Hooks.
From S2P Require Import Supervisor.
From S2P Require Import LlmReplay.

(** ** The size of the context ([mod.rs]) *)

Definition CONTEXT_TOKEN_LIMIT : N := 128000.

Definition model_context_window (model : str) : option N :=
  if ends_with "[1m]" model then Some 1000000%N
  else if starts_with "claude-sonnet-5" model then Some 1000000%N
  else if starts_with "claude-" model then Some 200000%N
  else None.

Definition default_context_limit (model : str) : N :=
  match model_context_window model with
  | Some window => (window / 5 * 4)%N
  | None => CONTEXT_TOKEN_LIMIT
  end.

Definition compaction_token_limit (max_tokens used_tokens context_limit : N) : N :=
  N.min (if (max_tokens =? 0)%N then u64_max else (max_tokens - used_tokens)%N) context_limit.

Definition of_journal (e : Journal.RuntimeError) : RuntimeError :=
  match e with
  | Journal.JournalErr e => JournalFailure e
  | Journal.JournalAppendFailed kind source => JournalAppendFailed kind source
  end.

Section AgentLoop.
Context {Value Decimal J W X : Type} `{DecimalOps Decimal} `{DecimalArith Decimal}
  `{@JournalStorage Value Decimal J}.
Notation Message := (@Message Value).
Notation ToolCallMessage := (@ToolCallMessage Value).
Notation Kind := (JournalEntryKind Value).
Notation Entry := (JournalEntry Value).
Notation Blocks := (list (@ProviderContentBlock Value)).
Notation ResourceBudget := (ResourceBudget Decimal).
Notation ProviderResponse := (@ProviderResponse Value).
Notation AgentLoopOutput := (AgentLoopOutput Value Decimal).

(** ** Data *)

(** The capability is for the tools, which are the environment. *)
Record AgentLoopConfig := {
  loop_agent : AgentId;
  system_prompt : str;
  loop_model : str;
  loop_max_turns : N;
  context_token_limit : option N;
}.

(** What the loop takes from a tool's output. *)
Record ToolOutput := { output_content : str; output_is_error : bool; output_blocks : Blocks }.

Record ToolExecutionResult := {
  result_content : str;
  result_is_error : bool;
  result_cancelled : bool;
  result_blocks : Blocks;
}.

(** What a joined tool task gives: the tool's answer (an error as its text), or that it panicked. *)
Variant Joined :=
| Returned (r : result ToolOutput str)
| TaskFailed (err : str).

Record ToolApprovalResponse := { approval_call : str; approved : bool; approval_reason : option str }.

(** What a wait for an approval sees: a response, or the cancellation. *)
Variant ApprovalEvent := Response (r : ToolApprovalResponse) | CancelSeen.

Variant ToolApprovalDecision := Approved | Denied (reason : str).

Variant ProviderCallOutcome := ProviderAnswered (r : ProviderResponse) | ProviderCancelled.

Variant TurnResult :=
| TurnComplete (message : Message) (reason : FinishReason)
| ToolCallsProcessed (assistant_message : Message) (tool_results : list Message)
| TurnBudgetExhausted
| TurnCancelled.

Record TurnExecution := {
  turn_result : TurnResult;
  turn_usage : TokenUsage;
  turn_exhausted : option BudgetExhausted;
}.

(** What the loop did to the outside. *)
Variant Effect :=
| Appended (kind : Kind)
| Called (ms : list Message)
| Executed (tc : ToolCallMessage).

(** The shared state: others change it whenever the loop awaits. *)
Record World := {
  journal : J;
  budget_mirror : option ResourceBudget;
  turn_mirror : option N;
  cancel_signalled : bool;
  kill_decision : option (str * str);
  input_queue : option (list str);
  hooks : @Hooks.State W;
  outside : X;
}.

Record Env := {
  clock : X -> N;
  compact_messages : list Message -> N -> list Message;
  streaming : bool;
  chat : list Message -> ResourceBudget -> World -> World * ResourceBudget * result ProviderResponse str;
  chat_or_cancel : list Message -> ResourceBudget -> World ->
    World * ResourceBudget * option (result ProviderResponse str);
  supports_parallel_tool_calls : str -> bool;
  waits_for_runtime_cancellation : str -> bool;
  start_tool : ToolCallMessage -> World -> World;
  join : ToolCallMessage -> World -> World * Joined;
  join_or_cancel : ToolCallMessage -> World -> World * option Joined;
  abort_task : ToolCallMessage -> World -> World;
  await_task : ToolCallMessage -> World -> World;
  approvals : ToolCallMessage -> World -> World * list ApprovalEvent;
  llm_before_ctx : str -> nat -> str;
  llm_after_ctx : ProviderResponse -> str;
  hook_error_to_string : Hooks.HookError -> str;
  decode_checkpoint : str -> option (CheckpointData Value Decimal);
  restore_vfs : str -> World -> World;
  value_get : str -> Value -> option Value;
  value_as_str : Value -> option str;
  value_object : list (str * (N + str)) -> Value;
  value_null : Value;
  value_to_string : Value -> str;
  value_eqb : Value -> Value -> bool;
  debug_entry : Kind -> str;
}.
Context (E : Env).

(** [pipeline], [hitl] (whether tools need an approval), [cancellation] (whether a token is attached)
    and [has_vfs] are set up before a run.  [transcript] is the caller's vector of messages. *)
Record AgentLoop := {
  config : AgentLoopConfig;
  pipeline : option (@Hooks.HookPipeline W);
  hitl : option bool;
  cancellation : bool;
  has_vfs : bool;
  budget : ResourceBudget;
  replay : option (JournalReplayIterator Value);
  journal_write_failures : N;
  spawn_hook_journal_frontier : option nat;
  world : World;
  transcript : list Message;
  trace : list Effect;
}.

Definition set_state (b : ResourceBudget) (r : option (JournalReplayIterator Value)) (failures : N)
    (frontier : option nat) (w : World) (ms : list Message) (t : list Effect) (s : AgentLoop) : AgentLoop :=
  {| config := config s; pipeline := pipeline s; hitl := hitl s; cancellation := cancellation s;
     has_vfs := has_vfs s; budget := b; replay := r; journal_write_failures := failures;
     spawn_hook_journal_frontier := frontier; world := w; transcript := ms; trace := t |}.
Definition set_budget (b : ResourceBudget) (s : AgentLoop) : AgentLoop :=
  set_state b (replay s) (journal_write_failures s) (spawn_hook_journal_frontier s) (world s) (transcript s) (trace s) s.
Definition set_replay (r : option (JournalReplayIterator Value)) (s : AgentLoop) : AgentLoop :=
  set_state (budget s) r (journal_write_failures s) (spawn_hook_journal_frontier s) (world s) (transcript s) (trace s) s.
Definition set_failures (n : N) (s : AgentLoop) : AgentLoop :=
  set_state (budget s) (replay s) n (spawn_hook_journal_frontier s) (world s) (transcript s) (trace s) s.
Definition set_frontier (f : option nat) (s : AgentLoop) : AgentLoop :=
  set_state (budget s) (replay s) (journal_write_failures s) f (world s) (transcript s) (trace s) s.
Definition set_world (w : World) (s : AgentLoop) : AgentLoop :=
  set_state (budget s) (replay s) (journal_write_failures s) (spawn_hook_journal_frontier s) w (transcript s) (trace s) s.
Definition set_transcript (ms : list Message) (s : AgentLoop) : AgentLoop :=
  set_state (budget s) (replay s) (journal_write_failures s) (spawn_hook_journal_frontier s) (world s) ms (trace s) s.
Definition did (e : Effect) (s : AgentLoop) : AgentLoop :=
  set_state (budget s) (replay s) (journal_write_failures s) (spawn_hook_journal_frontier s) (world s)
    (transcript s) (trace s ++ [e]) s.

Definition set_journal (j : J) (w : World) : World :=
  {| journal := j; budget_mirror := budget_mirror w; turn_mirror := turn_mirror w;
     cancel_signalled := cancel_signalled w; kill_decision := kill_decision w; input_queue := input_queue w;
     hooks := hooks w; outside := outside w |}.
Definition set_mirrors (b : option ResourceBudget) (t : option N) (w : World) : World :=
  {| journal := journal w; budget_mirror := b; turn_mirror := t; cancel_signalled := cancel_signalled w;
     kill_decision := kill_decision w; input_queue := input_queue w; hooks := hooks w; outside := outside w |}.
Definition set_input_queue (q : option (list str)) (w : World) : World :=
  {| journal := journal w; budget_mirror := budget_mirror w; turn_mirror := turn_mirror w;
     cancel_signalled := cancel_signalled w; kill_decision := kill_decision w; input_queue := q;
     hooks := hooks w; outside := outside w |}.
Definition set_hooks (h : @Hooks.State W) (w : World) : World :=
  {| journal := journal w; budget_mirror := budget_mirror w; turn_mirror := turn_mirror w;
     cancel_signalled := cancel_signalled w; kill_decision := kill_decision w; input_queue := input_queue w;
     hooks := h; outside := outside w |}.

Definition L (A : Type) : Type := SE AgentLoop RuntimeError A.

Definition is_cancelled (s : AgentLoop) : bool := cancellation s && cancel_signalled (world s).

(** ** Journal and replay *)

Definition journal_entry (kind : Kind) : L unit := fun s =>
  let '((j, failures), r) := Journal.journal_entry (Decimal := Decimal) (loop_agent (config s))
    (clock E (outside (world s))) kind (journal (world s), journal_write_failures s) in
  let s := set_failures failures (set_world (set_journal j (world s)) s) in
  (match r with Ok _ => did (Appended kind) s | Err _ => s end, map_err of_journal r).

Definition on_replay {A} (m : SE (option (JournalReplayIterator Value)) Journal.RuntimeError A) : L A := fun s =>
  let '(r, x) := m (replay s) in (set_replay r s, map_err of_journal x).

Definition consume_replay_entry (expected : Kind) : L unit :=
  on_replay (Journal.consume_replay_entry (value_eqb E) (value_to_string E) expected).

Definition take_replay_tool_result (id name : str) : L (option (str * bool * Blocks)) :=
  on_replay (Journal.take_replay_tool_result (value_to_string E) (debug_entry E) id name).

(** ** The shared budget ([construct.rs]) *)

(** The working copy's turns, for [/proc]. *)
Definition sync_turn_mirror (s : AgentLoop) : AgentLoop :=
  set_world (set_mirrors (budget_mirror (world s))
    (option_map (fun _ => used_turns (budget s)) (turn_mirror (world s))) (world s)) s.

Definition refresh_budget_from_mirror (s : AgentLoop) : AgentLoop :=
  sync_turn_mirror (match budget_mirror (world s) with Some b => set_budget b s | None => s end).

Definition replace_budget_mirror (s : AgentLoop) : AgentLoop :=
  sync_turn_mirror (set_world (set_mirrors (option_map (fun _ => budget s) (budget_mirror (world s)))
    (turn_mirror (world s)) (world s)) s).

(** [b] with what [now] used more than [before] added. *)
Definition add_delta (before now b : ResourceBudget) (sub_agents : N) : ResourceBudget :=
  {| max_tokens := max_tokens b; max_turns := max_turns b; max_cost := max_cost b;
     max_sub_agents := max_sub_agents b; max_vfs_bytes := max_vfs_bytes b;
     used_tokens := saturating_add (used_tokens b) (used_tokens now - used_tokens before);
     used_turns := saturating_add32 (used_turns b) (used_turns now - used_turns before);
     used_cost := if decimal_gt (used_cost now) (used_cost before)
                  then decimal_add (used_cost b) (decimal_sub (used_cost now) (used_cost before))
                  else used_cost b;
     used_sub_agents := sub_agents;
     used_vfs_bytes := saturating_add (used_vfs_bytes b) (used_vfs_bytes now - used_vfs_bytes before);
     max_fuel := max_fuel b;
     used_fuel := saturating_add (used_fuel b) (used_fuel now - used_fuel before) |}.

Definition merge_budget_into_mirror (before : ResourceBudget) (s : AgentLoop) : AgentLoop :=
  sync_turn_mirror
    (match budget_mirror (world s) with
     | Some shared =>
         let shared := add_delta before (budget s) shared
           (saturating_add32 (used_sub_agents shared) (used_sub_agents (budget s) - used_sub_agents before)) in
         set_budget shared (set_world (set_mirrors (Some shared) (turn_mirror (world s)) (world s)) s)
     | None => s
     end).

Definition merge_provider_budget_delta (before now : ResourceBudget) (s : AgentLoop) : AgentLoop :=
  set_budget (add_delta before now (budget s) (used_sub_agents (budget s))) s.

(** The copy whose limit on children is off: it governs delegation only. *)
Definition without_sub_agents (b : ResourceBudget) : ResourceBudget :=
  {| max_tokens := max_tokens b; max_turns := max_turns b; max_cost := max_cost b; max_sub_agents := 0;
     max_vfs_bytes := max_vfs_bytes b; used_tokens := used_tokens b; used_turns := used_turns b;
     used_cost := used_cost b; used_sub_agents := used_sub_agents b; used_vfs_bytes := used_vfs_bytes b;
     max_fuel := max_fuel b; used_fuel := used_fuel b |}.

(** The charge of a finished model call; [used_turns += 1] wraps in a release build. *)
Definition charge_turn (u : TokenUsage) (b : ResourceBudget) : ResourceBudget :=
  {| max_tokens := max_tokens b; max_turns := max_turns b; max_cost := max_cost b;
     max_sub_agents := max_sub_agents b; max_vfs_bytes := max_vfs_bytes b;
     used_tokens := saturating_add (used_tokens b) (total_tokens u);
     used_turns := ((used_turns b + 1) mod 2 ^ 32)%N; used_cost := used_cost b;
     used_sub_agents := used_sub_agents b; used_vfs_bytes := used_vfs_bytes b;
     max_fuel := max_fuel b; used_fuel := used_fuel b |}.

(** ** Policy kills and steering ([turn/mod.rs]) *)

Definition check_signal : L unit := fun s =>
  (s, match kill_decision (world s) with
      | Some (hook, reason) => Err (HookKillError hook reason)
      | None => Ok tt
      end).

Fixpoint find_spawn_kill (es : list Entry) : option (str * str) :=
  match es with
  | [] => None
  | e :: es =>
      match entry e with
      | HookKill hook_name operation reason =>
          if str_eqb operation "spawn" then Some (hook_name, reason) else find_spawn_kill es
      | _ => find_spawn_kill es
      end
  end.

Definition check_pending_spawn_hook_kill : L unit :=
  let! _ := check_signal in
  let! s := se_get in
  match spawn_hook_journal_frontier s with
  | None =>
      match journal_read_all (journal (world s)) (loop_agent (config s)) with
      | Ok es => se_modify (set_frontier (Some (length es)))
      | Err e => se_err (JournalFailure e)
      end
  | Some frontier =>
      match journal_read_from (journal (world s)) (loop_agent (config s)) frontier with
      | Err e => let! _ := check_signal in se_err (JournalFailure e)
      | Ok entries =>
          let! _ := se_modify (set_frontier (Some (frontier + length entries)%nat)) in
          match find_spawn_kill entries with
          | Some (hook, reason) => se_err (HookKillError hook reason)
          | None => check_signal
          end
      end
  end.

Definition user_message (text : str) : Message :=
  {| role := User; content := text; tool_calls := []; tool_call_id := None; provider_content := [] |}.

Definition drain_input_queue (s : AgentLoop) : AgentLoop :=
  match input_queue (world s) with
  | None => s
  | Some queued =>
      set_transcript (transcript s ++ List.map user_message queued)
        (set_world (set_input_queue (Some []) (world s)) s)
  end.

Definition cancelled_execution : TurnExecution :=
  {| turn_result := TurnCancelled; turn_usage := TokenUsage_default; turn_exhausted := None |}.

(** ** The provider ([turn/provider.rs]) *)

Definition provider_error {A} (r : result A str) : result A RuntimeError := map_err OtherError r.

Definition call_provider (ms : list Message) : L ProviderCallOutcome := fun s =>
  let before := budget s in
  let s := did (Called ms) s in
  if streaming E && cancellation s then
    let '(w, b, r) := chat_or_cancel E ms (without_sub_agents before) (world s) in
    let s := merge_provider_budget_delta before b (set_world w s) in
    (s, match r with
        | None => Ok ProviderCancelled
        | Some r => let? response := provider_error r in
                    Ok (if is_cancelled s then ProviderCancelled else ProviderAnswered response)
        end)
  else
    let '(w, b, r) := chat E ms (without_sub_agents before) (world s) in
    let s := merge_provider_budget_delta before b (set_world w s) in
    (s, let? response := provider_error r in Ok (ProviderAnswered response)).

(** Tool calls under another finish reason than [ToolUse] are dropped. *)
Definition clear_tool_calls (m : Message) : Message :=
  {| role := role m; content := content m; tool_calls := []; tool_call_id := tool_call_id m;
     provider_content := provider_content m |}.
Definition enforce_tool_calls_require_tool_use_finish (r : ProviderResponse) : ProviderResponse :=
  if bool_decide (finish_reason r = ToolUse) then r
  else match tool_calls (response_message r) with
  | [] => r
  | _ => {| response_message := clear_tool_calls (response_message r); response_usage := response_usage r;
            finish_reason := finish_reason r; response_model := response_model r |}
  end.

(** ** Hooks around the model call *)

Definition with_hooks {A} (f : @Hooks.State W -> @Hooks.State W * A) : L A := fun s =>
  let '(h, a) := f (hooks (world s)) in (set_world (set_hooks h (world s)) s, Ok a).

(** A kill ends the turn after its journal entry, which may fail. *)
Definition journaled_kill {A} (kind : Kind) (hook reason : str) : L A :=
  let! _ := journal_entry kind in se_err (HookKillError hook reason).

Definition run_llm_before (ms : list Message) : L unit :=
  let! s := se_get in
  match pipeline s with
  | None => se_ret tt
  | Some p =>
      let! r := with_hooks (Hooks.run_before_attributed p Hooks.Llm (llm_before_ctx E (loop_model (config s)) (length ms))) in
      match r with
      | Ok (Hooks.Continue _, _, _) => se_ret tt
      | Ok (Hooks.Deny reason, _, Some hook) =>
          let! _ := journal_entry (HookDenial hook "llm" reason) in se_err (HookDenialError reason)
      | Ok (Hooks.Deny _, _, None) => se_err (HookFailure "LLM before-hook denied without hook attribution")
      | Ok (Hooks.Kill reason, _, Some hook) => journaled_kill (HookKill hook "llm" reason) hook reason
      | Ok (Hooks.Kill _, _, None) => se_err (HookFailure "LLM before-hook killed without hook attribution")
      | Err (Hooks.Killed hook reason) => journaled_kill (HookKill hook "llm" reason) hook reason
      | Err e => se_err (HookFailure (hook_error_to_string E e))
      end
  end.

Definition run_llm_after (r : ProviderResponse) : L unit :=
  let! s := se_get in
  match pipeline s with
  | None => se_ret tt
  | Some p =>
      let! v := with_hooks (Hooks.run_after p Hooks.Llm (llm_after_ctx E r)) in
      match v with
      | Ok _ => se_ret tt
      | Err (Hooks.Killed hook reason) => journaled_kill (HookDenial hook "llm" reason) hook reason
      | Err e => se_err (HookFailure (hook_error_to_string E e))
      end
  end.

(** ** Tool calls ([turn/tools.rs], [tool_runtime.rs]) *)

Definition safe_outer_tool_arguments (tool_name : str) (arguments : Value) : Value :=
  let text key := unwrap_or (match value_get E key arguments with Some v => value_as_str E v | None => None end) [] in
  if str_eqb tool_name "mcp_search" then
    value_object E [(lit "query_length", inl (N.of_nat (length (text "query"))))]
  else if str_eqb tool_name "mcp_call" then
    value_object E
      [(lit "server", inr (text "server")); (lit "tool", inr (text "tool"));
       (lit "argument_length",
        inl (N.of_nat (length (value_to_string E (unwrap_or (value_get E "arguments" arguments) (value_null E))))))]
  else arguments.

Definition tool_call_entry (tc : ToolCallMessage) : Kind :=
  ToolCall (Some (tc_id tc)) (tc_name tc) (safe_outer_tool_arguments (tc_name tc) (tc_arguments tc)).

Definition journal_tool_call (tc : ToolCallMessage) : L unit :=
  let! _ := journal_entry (tool_call_entry tc) in
  consume_replay_entry (tool_call_entry tc).

Definition tool_result_entry (tc : ToolCallMessage) (r : ToolExecutionResult) : Kind :=
  ToolResult (Some (tc_id tc)) (tc_name tc) (result_content r) (result_is_error r) (result_blocks r).

Definition tool_message (tc : ToolCallMessage) (r : ToolExecutionResult) : Message :=
  {| role := Tool; content := (if result_is_error r then lit "ERROR: " else []) ++ result_content r;
     tool_calls := []; tool_call_id := Some (tc_id tc); provider_content := result_blocks r |}.

Definition finish_tool_call (tc : ToolCallMessage) (r : ToolExecutionResult) : L Message :=
  let! _ := journal_entry (tool_result_entry tc r) in se_ret (tool_message tc r).

Definition failed_result (text : str) : ToolExecutionResult :=
  {| result_content := text; result_is_error := true; result_cancelled := false; result_blocks := [] |}.
Definition cancelled_result : ToolExecutionResult :=
  {| result_content := "cancelled by user"; result_is_error := true; result_cancelled := true; result_blocks := [] |}.

Definition join_tool (j : Joined) : ToolExecutionResult :=
  match j with
  | Returned (Ok o) => {| result_content := output_content o; result_is_error := output_is_error o;
                          result_cancelled := false; result_blocks := output_blocks o |}
  | Returned (Err e) => failed_result e
  | TaskFailed err => failed_result ("tool task failed: " ++ err)
  end.

Definition spawn_tool (tc : ToolCallMessage) (s : AgentLoop) : AgentLoop :=
  let s := did (Executed tc) s in set_world (start_tool E tc (world s)) s.

(** A cancelled tool is aborted, or waited for when it cleans up after itself. *)
Definition cancel_tool (tc : ToolCallMessage) (s : AgentLoop) : AgentLoop :=
  set_world (if waits_for_runtime_cancellation E (tc_name tc) then await_task E tc (world s)
             else abort_task E tc (world s)) s.

Definition await_tool (tc : ToolCallMessage) : L ToolExecutionResult := fun s =>
  if negb (cancellation s) then
    let '(w, j) := join E tc (world s) in (set_world w s, Ok (join_tool j))
  else if cancel_signalled (world s) then (cancel_tool tc s, Ok cancelled_result)
  else match join_or_cancel E tc (world s) with
  | (w, Some j) => (set_world w s, Ok (join_tool j))
  | (w, None) => (cancel_tool tc (set_world w s), Ok cancelled_result)
  end.

Definition execute_one (tc : ToolCallMessage) : L ToolExecutionResult :=
  let! _ := se_modify (spawn_tool tc) in await_tool tc.

Fixpoint await_all (calls : list ToolCallMessage) : L (list ToolExecutionResult) :=
  match calls with
  | [] => se_ret []
  | tc :: calls => let! r := await_tool tc in let! rs := await_all calls in se_ret (r :: rs)
  end.

Definition execute_parallel_batch (calls : list ToolCallMessage) : L (list ToolExecutionResult) :=
  let! _ := se_modify (fun s => fold_left (fun s tc => spawn_tool tc s) calls s) in
  await_all calls.

Definition supports_parallel_batch (calls : list ToolCallMessage) : bool :=
  (1 <? length calls)%nat && forallb (fun tc => supports_parallel_tool_calls E (tc_name tc)) calls.

Definition REQUEST_INPUT_TOOL_NAME : str := "request_input".

(** The wait for the decision on one call: responses to other calls are ignored. *)
Fixpoint approval_loop (tc : ToolCallMessage) (cancelled : bool) (events : list ApprovalEvent)
    : result ToolApprovalDecision RuntimeError :=
  match events with
  | [] => Err (Session "tool approval response channel closed")
  | CancelSeen :: events => if cancelled then Ok (Denied "cancelled by user") else approval_loop tc cancelled events
  | Response r :: events =>
      if negb (str_eqb (approval_call r) (tc_id tc)) then approval_loop tc cancelled events
      else if approved r then Ok Approved
      else Ok (Denied (unwrap_or (approval_reason r) (lit "denied by user")))
  end.

Definition requires_tool_approval (s : AgentLoop) : bool := unwrap_or (hitl s) false.

Definition await_tool_approval (tc : ToolCallMessage) : L ToolApprovalDecision := fun s =>
  if negb (requires_tool_approval s) || str_eqb (tc_name tc) REQUEST_INPUT_TOOL_NAME then (s, Ok Approved)
  else if is_cancelled s then (s, Ok (Denied "cancelled by user"))
  else
    let '(w, events) := approvals E tc (world s) in
    (set_world w s, approval_loop tc (cancellation s) events).

Definition live_result (tc : ToolCallMessage) : L ToolExecutionResult :=
  let! d := await_tool_approval tc in
  match d with
  | Approved => execute_one tc
  | Denied reason => se_ret (failed_result ("approval denied: " ++ reason))
  end.

Definition serial_call (tc : ToolCallMessage) : L Message :=
  let! _ := journal_tool_call tc in
  let! replayed := take_replay_tool_result (tc_id tc) (tc_name tc) in
  let! r := match replayed with
            | Some (text, is_error, blocks) =>
                se_ret {| result_content := text; result_is_error := is_error; result_cancelled := false;
                          result_blocks := blocks |}
            | None => live_result tc
            end in
  finish_tool_call tc r.

Fixpoint se_map {A B} (f : A -> L B) (l : list A) : L (list B) :=
  match l with
  | [] => se_ret []
  | x :: l => let! y := f x in let! ys := se_map f l in se_ret (y :: ys)
  end.

Definition dispatch_tool_calls (calls : list ToolCallMessage) : L (list Message) :=
  let! s := se_get in
  if negb (requires_tool_approval s) && negb (has_replay_entry (replay s)) && supports_parallel_batch calls then
    let! _ := se_for calls journal_tool_call in
    let! results := execute_parallel_batch calls in
    se_map (fun '(tc, r) => finish_tool_call tc r) (zip calls results)
  else se_map serial_call calls.

(** ** A turn *)

Definition has_replay : L bool := fun s => (s, Ok (has_replay_entry (replay s))).

(** What the model answered: from the journal while one is replayed (an entry that does not fit ends
    the turn at once), else from the provider, whose error is looked at later. *)
Definition replayed_response : L ProviderResponse :=
  let! kind := on_replay take_replay_entry in
  se_lift (map_err of_journal (replay_llm_response (debug_entry E) kind)).

Definition provider_outcome (ms : list Message) : L (result ProviderCallOutcome RuntimeError) :=
  let! recorded := has_replay in
  if recorded then let! r := replayed_response in se_ret (Ok (ProviderAnswered r))
  else se_try (call_provider ms).

Definition context_limit (s : AgentLoop) : N :=
  compaction_token_limit (max_tokens (budget s)) (used_tokens (budget s))
    (unwrap_or (context_token_limit (config s)) (default_context_limit (loop_model (config s)))).

(** After the response: journal it, charge it, extend the transcript and run its calls. *)
Definition finish_turn (before : ResourceBudget) (response : ProviderResponse) : L TurnExecution :=
  let! _ := run_llm_after response in
  let! _ := journal_entry (response_entry response) in
  let! _ := se_modify (fun s => set_budget (charge_turn (response_usage response) (budget s)) s) in
  let! _ := se_modify (merge_budget_into_mirror before) in
  let! _ := se_modify (fun s => set_transcript (transcript s ++ [response_message response]) s) in
  match tool_calls (response_message response) with
  | [] =>
      let! _ := check_pending_spawn_hook_kill in
      se_ret {| turn_result := TurnComplete (response_message response) (finish_reason response);
                turn_usage := response_usage response; turn_exhausted := None |}
  | calls =>
      let! tool_results := dispatch_tool_calls calls in
      let! _ := check_pending_spawn_hook_kill in
      let! _ := se_modify (fun s => set_transcript (transcript s ++ tool_results) s) in
      let! _ := check_pending_spawn_hook_kill in
      se_ret {| turn_result := ToolCallsProcessed (response_message response) tool_results;
                turn_usage := response_usage response; turn_exhausted := None |}
  end.

(** From the start of a turn that may run to the response of the model. *)
Definition model_step : L TurnExecution :=
  let! _ := journal_entry TurnStart in
  let! _ := consume_replay_entry TurnStart in
  let! s := se_get in
  let ms := compact_messages E (transcript s) (context_limit s) in
  let before := budget s in
  let request := LlmRequest (loop_model (config s)) (N.of_nat (length ms)) in
  let! _ := journal_entry request in
  let! _ := consume_replay_entry request in
  let! _ := run_llm_before ms in
  let! s := se_get in
  if negb (has_replay_entry (replay s)) && is_cancelled s then se_ret cancelled_execution
  else
    let! outcome := provider_outcome ms in
    let! _ := check_pending_spawn_hook_kill in
    let! outcome := se_lift outcome in
    match outcome with
    | ProviderCancelled => se_ret cancelled_execution
    | ProviderAnswered response => finish_turn before (enforce_tool_calls_require_tool_use_finish response)
    end.

Definition execute_turn : L TurnExecution :=
  let! _ := check_pending_spawn_hook_kill in
  let! s := se_get in
  if is_cancelled s then se_ret cancelled_execution
  else
    let! _ := se_modify drain_input_queue in
    let! _ := se_modify refresh_budget_from_mirror in
    let! s := se_get in
    match check_budget (without_sub_agents (budget s)) with
    | Err exhausted =>
        se_ret {| turn_result := TurnBudgetExhausted; turn_usage := TokenUsage_default;
                  turn_exhausted := Some exhausted |}
    | Ok _ => model_step
    end.

Definition run_single_turn : L TurnResult :=
  let! t := execute_turn in se_ret (turn_result t).

(** ** A run ([run.rs]) *)

(** The latest checkpoint of a recorded journal that decodes. *)
Definition latest_checkpoint (es : list Entry) : option (CheckpointData Value Decimal) :=
  fold_left (fun latest e =>
    match entry e with
    | Checkpoint data => option_or (decode_checkpoint E data) latest
    | _ => latest
    end) es None.

Definition restore_checkpoint (s : AgentLoop) : AgentLoop :=
  match replay s with
  | None => s
  | Some it =>
      match latest_checkpoint (replay_entries it) with
      | None => s
      | Some c =>
          let s := replace_budget_mirror (set_budget (budget_snapshot c) s) in
          let s := match checkpoint_messages c with [] => s | ms => set_transcript ms s end in
          match vfs_snapshot c with
          | Some bytes => if has_vfs s then set_world (restore_vfs E bytes (world s)) s else s
          | None => s
          end
      end
  end.

Definition effective_max_turns (s : AgentLoop) : N :=
  if (loop_max_turns (config s) =? 0)%N then u32_max else loop_max_turns (config s).

Definition loop_output (reason : ExitReason) (usage : TokenUsage) (s : AgentLoop) : AgentLoopOutput :=
  {| exit_reason := reason; Supervisor.messages := transcript s; token_usage := usage;
     reported_tool_uses := None; output_turns := used_turns (budget s); output_cost := used_cost (budget s) |}.

Definition exit_with (reason : ExitReason) (usage : TokenUsage) : L AgentLoopOutput := fun s =>
  (s, Ok (loop_output reason usage s)).

Fixpoint turns (n : nat) (usage : TokenUsage) : L AgentLoopOutput :=
  match n with
  | O => exit_with MaxTurns usage
  | S n =>
      let! r := se_try execute_turn in
      match r with
      | Err (HookKillError hook reason) => exit_with (PolicyKill hook reason) usage
      | Err e => se_err e
      | Ok turn =>
          let usage := add_usage usage (turn_usage turn) in
          match turn_result turn with
          | TurnComplete _ reason =>
              exit_with (if bool_decide (reason = RefusalReason) then Refusal else Complete) usage
          | ToolCallsProcessed _ _ => turns n usage
          | TurnBudgetExhausted =>
              match turn_exhausted turn with
              | Some e => se_err (BudgetError e)
              | None => se_err (Session "budget exhausted turn result did not include error details")
              end
          | TurnCancelled => exit_with Cancelled usage
          end
      end
  end.

Definition initial_messages (s : AgentLoop) (task : str) : list Message :=
  [{| role := System; content := system_prompt (config s); tool_calls := []; tool_call_id := None;
      provider_content := [] |};
   user_message task].

Definition run (task : str) : L AgentLoopOutput :=
  let! s := se_get in
  let! _ := se_lift (match replay s with
                     | Some it => map_err JournalFailure (replay_validate it)
                     | None => Ok tt
                     end) in
  let! _ := se_modify (fun s => set_transcript (initial_messages s task) s) in
  let! _ := se_modify restore_checkpoint in
  turns (N.to_nat (effective_max_turns s)) TokenUsage_default.
End AgentLoop.
