(* ===== verification/AgentTurns.v ===== *)
(** * What the agent loop guarantees

    Theorems about [AgentLoop]: effects are journaled before they happen, every tool call is answered
    in order, a run makes a bounded number of model calls, a turn that may not start does nothing.

    The lemmas are about how an operation moves the loop: [moves R m] says that from every state [m]
    ends, with or without an error, in a state [R]-related to it; [R] is a preorder, so it composes. *)

From S2P Require Import Prelude.
From S2P Require Import Context.
From S2P Require Import Budget.
From S2P Require Import Capability.
From S2P Require Import Journal.
From S2P Require Hooks.
From S2P Require Import Supervisor.
From S2P Require Import LlmReplay.
From S2P Require Import AgentLoop.

Create HintDb loop.

Section Turns.
Context {Value Decimal J W X : Type} `{DecimalOps Decimal} `{DecimalArith Decimal}
  `{!JournalStorage Value Decimal J}.
Notation Message := (@Message Value).
Notation ToolCallMessage := (@ToolCallMessage Value).
Notation Kind := (JournalEntryKind Value).
Notation Effect := (@Effect Value).
Notation AgentLoop := (@AgentLoop Value Decimal J W X).
Notation L := (@L Value Decimal J W X).
Notation TurnExecution := (@TurnExecution Value).
Context (E : @Env Value Decimal J W X).
Implicit Types s : AgentLoop.

(** ** Moves *)

Definition moves (R : AgentLoop -> AgentLoop -> Prop) {A} (m : L A) : Prop := forall s, R s (fst (m s)).

Section Preorder.
Context (R : AgentLoop -> AgentLoop -> Prop) `{!PreOrder R}.

Lemma moves_bind {A B} (m : L A) (k : A -> L B) :
  moves R m -> (forall a, moves R (k a)) -> moves R (se_bind m k).
Proof.
  intros Hm Hk s. unfold se_bind. specialize (Hm s). destruct (m s) as [s1 [a|e]]; cbn [fst] in *; [|done].
  by transitivity s1; [|apply Hk].
Qed.

Lemma moves_ret {A} (a : A) : moves R (se_ret a).
Proof. intros s. cbn. reflexivity. Qed.

Lemma moves_err {A} e : moves R (se_err e : L A).
Proof. intros s. cbn. reflexivity. Qed.

Lemma moves_lift {A} r : moves R (se_lift r : L A).
Proof. intros s. cbn. reflexivity. Qed.

Lemma moves_get : moves R (se_get : L AgentLoop).
Proof. intros s. cbn. reflexivity. Qed.

Lemma moves_modify f : (forall s, R s (f s)) -> moves R (se_modify f : L unit).
Proof. intros Hf s. apply Hf. Qed.

Lemma moves_try {A} (m : L A) : moves R m -> moves R (se_try m : L (result A RuntimeError)).
Proof. intros Hm s. unfold se_try. specialize (Hm s). by destruct (m s). Qed.

Lemma moves_for {A} (l : list A) (m : A -> L unit) : (forall x, moves R (m x)) -> moves R (se_for l m).
Proof. intros Hm. induction l as [|x l IH]; [apply moves_ret|]. apply moves_bind; [apply Hm|done]. Qed.

Lemma moves_map {A B} (f : A -> L B) (l : list A) : (forall x, moves R (f x)) -> moves R (se_map f l).
Proof.
  intros Hf. induction l as [|x l IH]; [apply moves_ret|].
  apply moves_bind; [apply Hf|intros y]. apply moves_bind; [done|intros ys]. apply moves_ret.
Qed.
End Preorder.

(** ** What an operation does to the outside *)

(** The trace grows by effects that satisfy [P]. *)
Definition emits (P : Effect -> Prop) s s' : Prop := exists t, trace s' = trace s ++ t /\ Forall P t.

#[export] Instance emits_preorder P : PreOrder (emits P).
Proof.
  split.
  - intros s. exists []. by rewrite app_nil_r.
  - intros s1 s2 s3 (t & E1 & Ht) (u & E2 & Hu). exists (t ++ u). rewrite E2, E1, app_assoc. split; [done|].
    by apply Forall_app.
Qed.

Lemma emits_same (P : Effect -> Prop) s s' : trace s' = trace s -> emits P s s'.
Proof. intros Et. exists []. by rewrite app_nil_r. Qed.

Lemma emits_one (P : Effect -> Prop) s s' e : trace s' = trace s ++ [e] -> P e -> emits P s s'.
Proof. intros Et He. exists [e]. split; [done|]. by constructor. Qed.

Lemma emits_weaken (P Q : Effect -> Prop) {A} (m : L A) :
  (forall e, P e -> Q e) -> moves (emits P) m -> moves (emits Q) m.
Proof. intros HPQ Hm s. destruct (Hm s) as (t & Et & Ht). exists t. split; [done|]. by eapply Forall_impl. Qed.

Definition nothing (e : Effect) : Prop := False.
Definition appended (e : Effect) : Prop := match e with Appended _ => True | _ => False end.
Definition not_called (e : Effect) : Prop := match e with Called _ => False | _ => True end.

Lemma emits_nothing {A} (m : L A) s : moves (emits nothing) m -> trace (fst (m s)) = trace s.
Proof. intros Hm. destruct (Hm s) as (t & -> & Ht). destruct t; [by rewrite app_nil_r|by inversion Ht]. Qed.

Lemma emits_appended {A} (m : L A) : moves (emits nothing) m -> moves (emits appended) m.
Proof. by apply emits_weaken. Qed.

Lemma appended_not_called {A} (m : L A) : moves (emits appended) m -> moves (emits not_called) m.
Proof. apply emits_weaken. by intros []. Qed.

Lemma nothing_not_called {A} (m : L A) : moves (emits nothing) m -> moves (emits not_called) m.
Proof. by apply emits_weaken. Qed.

(** [journal_entry] appends, or fails and appends nothing. *)
Lemma journal_entry_cases kind s :
  exists s', (journal_entry E kind s = (s', Ok tt) /\ trace s' = trace s ++ [Appended kind]) \/
             (exists e, journal_entry E kind s = (s', Err e) /\ trace s' = trace s).
Proof.
  unfold journal_entry. destruct (Journal.journal_entry _ _ _ _) as [[j n] [[]|e]] eqn:Ej; eexists; [left|right]; eauto.
Qed.

Lemma journal_entry_emits kind : moves (emits appended) (journal_entry E kind).
Proof.
  intros s. destruct (journal_entry_cases kind s) as (s' & [[-> Ht]|(e & -> & Ht)]); cbn [fst].
  - by eapply emits_one.
  - by apply emits_same.
Qed.

Lemma on_replay_silent {A} (m : SE _ _ A) : moves (emits nothing) (on_replay m : L A).
Proof. intros s. unfold on_replay. destruct (m _) as [r x]. by apply emits_same. Qed.

Lemma sync_turn_mirror_trace s : trace (sync_turn_mirror s) = trace s.
Proof. reflexivity. Qed.

Lemma check_signal_silent : moves (emits nothing) (check_signal : L unit).
Proof. intros s. by apply emits_same. Qed.

Ltac moves_step :=
  first
  [ progress (eauto 2 with loop nocore)
  | apply moves_bind; [apply _| |intros ?]
  | apply moves_ret; apply _ | apply moves_err; apply _ | apply moves_lift; apply _ | apply moves_get; apply _
  | apply moves_try
  | apply moves_for; [apply _|intros ?] | apply moves_map; [apply _|intros ?]
  | match goal with
    | |- moves _ (match ?x with _ => _ end) => destruct x
    | |- moves _ (if ?x then _ else _) => destruct x
    end ].
Ltac solve_moves := repeat moves_step.

Hint Resolve on_replay_silent check_signal_silent journal_entry_emits : loop.

Lemma check_pending_silent : moves (emits nothing) (check_pending_spawn_hook_kill : L unit).
Proof. unfold check_pending_spawn_hook_kill. solve_moves; apply moves_modify; intros s; by apply emits_same. Qed.
Hint Resolve check_pending_silent : loop.

Lemma with_hooks_silent {A} (f : @Hooks.State W -> @Hooks.State W * A) : moves (emits nothing) (with_hooks f : L A).
Proof. intros s. unfold with_hooks. destruct (f _). by apply emits_same. Qed.
Hint Resolve with_hooks_silent : loop.
Hint Resolve emits_appended appended_not_called : loop.

Lemma run_llm_before_emits ms : moves (emits appended) (run_llm_before E ms).
Proof. unfold run_llm_before, journaled_kill. solve_moves. Qed.

Lemma run_llm_after_emits r : moves (emits appended) (run_llm_after E r).
Proof. unfold run_llm_after, journaled_kill. solve_moves. Qed.
Hint Resolve run_llm_before_emits run_llm_after_emits : loop.

(** A before-hook that lets the call through has journaled nothing. *)
Lemma run_llm_before_Ok ms s s' : run_llm_before E ms s = (s', Ok tt) -> trace s' = trace s.
Proof.
  unfold run_llm_before. intros (s0 & s1 & [= <- <-] & Hr)%bind_Ok. destruct (pipeline s) as [p|]; [|by injection Hr as <-].
  apply bind_Ok in Hr as (r & s2 & Hw & Hr).
  assert (trace s2 = trace s) as <-.
  { unfold with_hooks in Hw. destruct (Hooks.run_before_attributed _ _ _ _). by injection Hw as <- _. }
  unfold journaled_kill in Hr.
  repeat (case_match; simplify_eq/=; try discriminate; try (apply bind_Ok in Hr as (? & ? & _ & [=]))); by injection Hr as <-.
Qed.

(** ** Write-ahead journaling *)

(** Effects that leave the current turn's calls in force. *)
Definition in_turn (e : Effect) : Prop :=
  match e with Called _ | Appended (LlmResponse _ _ _ _) => False | _ => True end.

(** The call was journaled in the current turn. *)
Definition announced (t : list Effect) (tc : ToolCallMessage) : Prop :=
  exists before after, t = before ++ Appended (tool_call_entry E tc) :: after /\ Forall in_turn after.

(** A model call comes right after the entry of its request, which counts the messages sent; a tool runs
    only when its call was journaled since the model's response. *)
Inductive write_ahead : list Effect -> Prop :=
| ahead_nil : write_ahead []
| ahead_append t kind : write_ahead t -> write_ahead (t ++ [Appended kind])
| ahead_call t name ms :
    write_ahead (t ++ [Appended (LlmRequest name (N.of_nat (length ms)))]) ->
    write_ahead (t ++ [Appended (LlmRequest name (N.of_nat (length ms)))] ++ [Called ms])
| ahead_execute t tc : write_ahead t -> announced t tc -> write_ahead (t ++ [Executed tc]).

Definition keeps s s' : Prop := write_ahead (trace s) -> write_ahead (trace s').

#[export] Instance keeps_preorder : PreOrder keeps.
Proof. split; unfold keeps; [by intros s|intros s1 s2 s3; tauto]. Qed.

Lemma appended_keeps {A} (m : L A) : moves (emits appended) m -> moves keeps m.
Proof.
  intros Hm s. destruct (Hm s) as (t & Et & Ht). unfold keeps. rewrite Et. clear Et. revert Ht. generalize (trace s).
  induction t as [|e t IH]; intros t0 Ht Ha; [by rewrite app_nil_r|].
  inversion Ht as [|? ? He Ht']; subst. destruct e as [k| |]; try done.
  replace (t0 ++ Appended k :: t) with ((t0 ++ [Appended k]) ++ t) by (by rewrite <- app_assoc).
  apply IH; [done|by constructor].
Qed.

Lemma announced_app t u tc : announced t tc -> Forall in_turn u -> announced (t ++ u) tc.
Proof.
  intros (b & a & -> & Ha) Hu. exists b, (a ++ u). rewrite <- app_assoc. split; [done|]. by apply Forall_app.
Qed.

Lemma announced_emits s s' tc : emits in_turn s s' -> announced (trace s) tc -> announced (trace s') tc.
Proof. intros (t & -> & Ht) Ha. by apply announced_app. Qed.

Lemma journal_tool_call_emits tc : moves (emits in_turn) (journal_tool_call E tc).
Proof.
  unfold journal_tool_call. apply moves_bind; [apply _| |intros _].
  - intros s. destruct (journal_entry_cases (tool_call_entry E tc) s) as (s' & [[-> Ht]|(e & -> & Ht)]); cbn [fst].
    + by eapply emits_one.
    + by apply emits_same.
  - apply (emits_weaken nothing); [done|apply on_replay_silent].
Qed.

Lemma journal_tool_call_appended tc : moves (emits appended) (journal_tool_call E tc).
Proof. unfold journal_tool_call, consume_replay_entry. solve_moves. Qed.
Hint Resolve journal_tool_call_appended : loop.

Lemma journal_tool_call_Ok tc s s' : journal_tool_call E tc s = (s', Ok tt) -> announced (trace s') tc.
Proof.
  unfold journal_tool_call. intros ([] & s1 & Hj & Hr)%bind_Ok.
  destruct (journal_entry_cases (tool_call_entry E tc) s) as (s2 & [[E2 Ht]|(e & E2 & _)]); rewrite E2 in Hj; [|discriminate].
  injection Hj as <-. exists (trace s), []. split; [|done].
  pose proof (emits_nothing _ s2 (on_replay_silent
    (Journal.consume_replay_entry (value_eqb E) (value_to_string E) (tool_call_entry E tc)))) as Hn.
  unfold consume_replay_entry in Hr. rewrite Hr in Hn. cbn [fst] in Hn. by rewrite Hn.
Qed.

Lemma for_announced calls s s' :
  se_for calls (journal_tool_call E) s = (s', Ok tt) -> Forall (announced (trace s')) calls.
Proof.
  revert s. induction calls as [|tc calls IH]; intros s Hr; [constructor|].
  cbn [se_for] in Hr. apply bind_Ok in Hr as ([] & s1 & Hj & Hr). constructor; [|by eapply IH].
  apply (announced_emits s1); [|by eapply journal_tool_call_Ok].
  pose proof (moves_for (emits in_turn) calls (journal_tool_call E) journal_tool_call_emits s1) as Hm.
  by rewrite Hr in Hm.
Qed.

Lemma spawn_tool_trace tc s : trace (spawn_tool E tc s) = trace s ++ [Executed tc].
Proof. reflexivity. Qed.

Lemma spawn_tool_keeps tc s : announced (trace s) tc -> keeps s (spawn_tool E tc s).
Proof. intros Ha Hw. rewrite spawn_tool_trace. by constructor. Qed.

Lemma spawn_all_keeps calls s :
  Forall (announced (trace s)) calls -> keeps s (fold_left (fun s tc => spawn_tool E tc s) calls s).
Proof.
  revert s. induction calls as [|tc calls IH]; intros s Ha; [done|]. inversion Ha as [|? ? H1 H2]; subst. cbn [fold_left].
  transitivity (spawn_tool E tc s); [by apply spawn_tool_keeps|]. apply IH. eapply Forall_impl; [exact H2|]. intros tc' Hc.
  rewrite spawn_tool_trace. by apply announced_app; [|repeat constructor].
Qed.

Lemma await_tool_silent tc : moves (emits nothing) (await_tool E tc).
Proof.
  intros s. unfold await_tool. destruct (negb _); [destruct (join E tc _); by apply emits_same|].
  destruct (cancel_signalled _); [by apply emits_same|]. destruct (join_or_cancel E tc _) as [w [j|]]; by apply emits_same.
Qed.
Hint Resolve await_tool_silent : loop.

Lemma await_all_silent calls : moves (emits nothing) (await_all E calls).
Proof. induction calls; cbn [await_all]; solve_moves. Qed.
Hint Resolve await_all_silent : loop.

Lemma await_tool_approval_silent tc : moves (emits nothing) (await_tool_approval E tc).
Proof.
  intros s. unfold await_tool_approval. destruct (_ || _); [by apply emits_same|].
  destruct (is_cancelled s); [by apply emits_same|]. destruct (approvals E tc _). by apply emits_same.
Qed.
Hint Resolve await_tool_approval_silent : loop.

Lemma finish_tool_call_emits tc r : moves (emits appended) (finish_tool_call E tc r).
Proof. unfold finish_tool_call. solve_moves. Qed.
Hint Resolve finish_tool_call_emits appended_keeps : loop.

Lemma bind_keeps {A B} (m : L A) (k : A -> L B) s :
  keeps s (fst (m s)) -> (forall a s1, m s = (s1, Ok a) -> keeps s1 (fst (k a s1))) -> keeps s (fst (se_bind m k s)).
Proof.
  intros Hm Hk. unfold se_bind. destruct (m s) as [s1 [a|e]]; cbn [fst] in *; [|done].
  by transitivity s1; [|apply Hk].
Qed.

Lemma silent_announced {A} (m : L A) s s1 r tc :
  moves (emits nothing) m -> m s = (s1, r) -> announced (trace s) tc -> announced (trace s1) tc.
Proof. intros Hm Hr Ha. pose proof (emits_nothing m s Hm) as Ht. rewrite Hr in Ht. cbn in Ht. by rewrite Ht. Qed.

Lemma live_result_keeps tc s : announced (trace s) tc -> keeps s (fst (live_result E tc s)).
Proof.
  intros Ha. unfold live_result. apply bind_keeps; [apply appended_keeps; eauto with loop|]. intros d s1 Hd.
  apply (silent_announced _ s s1 _ tc (await_tool_approval_silent tc) Hd) in Ha.
  destruct d; [|cbn; reflexivity]. unfold execute_one. apply bind_keeps; [by apply spawn_tool_keeps|].
  intros _ s2 _. apply appended_keeps. eauto with loop.
Qed.

Lemma serial_call_keeps tc : moves keeps (serial_call E tc).
Proof.
  intros s. unfold serial_call. apply bind_keeps; [apply appended_keeps; eauto with loop|].
  intros [] s1 Hj%journal_tool_call_Ok. apply bind_keeps; [apply appended_keeps; unfold take_replay_tool_result; eauto with loop|].
  intros o s2 Ho. apply (silent_announced _ s1 s2 _ tc (on_replay_silent _) Ho) in Hj.
  apply bind_keeps; [destruct o as [[[? ?] ?]|]; [cbn; reflexivity|by apply live_result_keeps]|].
  intros r s3 _. apply appended_keeps. eauto with loop.
Qed.

Lemma dispatch_keeps calls : moves keeps (dispatch_tool_calls E calls).
Proof.
  intros s. unfold dispatch_tool_calls. apply bind_keeps; [cbn; reflexivity|]. intros s0 s0' [= <- <-]. destruct (_ && _).
  - apply bind_keeps; [apply appended_keeps, moves_for; [apply _|eauto with loop]|]. intros [] s1 Ha%for_announced.
    apply bind_keeps.
    + unfold execute_parallel_batch. apply bind_keeps; [by apply spawn_all_keeps|]. intros _ s2 _. apply appended_keeps. eauto with loop.
    + intros rs s2 _. apply appended_keeps, moves_map; [apply _|]. intros [? ?]. eauto with loop.
  - apply moves_map; [apply _|]. intros tc. apply serial_call_keeps.
Qed.
Hint Resolve dispatch_keeps : loop.

(** Updates of the loop's own fields leave the trace. *)
Lemma modify_silent f : (forall s, trace (f s) = trace s) -> moves (emits nothing) (se_modify f : L unit).
Proof. intros Hf. apply moves_modify. intros s. by apply emits_same. Qed.

Lemma merge_mirror_trace b s : trace (merge_budget_into_mirror b s) = trace s.
Proof. unfold merge_budget_into_mirror. by destruct (budget_mirror (world s)). Qed.

Lemma refresh_trace s : trace (refresh_budget_from_mirror s) = trace s.
Proof. unfold refresh_budget_from_mirror. by destruct (budget_mirror (world s)). Qed.

Lemma drain_trace s : trace (drain_input_queue s) = trace s.
Proof. unfold drain_input_queue. by destruct (input_queue (world s)). Qed.
Hint Resolve modify_silent merge_mirror_trace refresh_trace drain_trace : loop.
Hint Extern 1 (trace _ = trace _) => reflexivity : loop.
Hint Extern 1 (moves (emits nothing) (se_modify _)) => apply modify_silent; intros ?; solve [auto with loop] : loop.

Ltac turn_step :=
  first
  [ solve [eauto 4 with loop nocore]
  | apply moves_bind; [apply _| |intros ?]
  | apply moves_ret; apply _ | apply moves_err; apply _ | apply moves_lift; apply _ | apply moves_get; apply _
  | apply moves_try
  | match goal with
    | |- moves _ (match ?x with _ => _ end) => destruct x
    | |- moves _ (if ?x then _ else _) => destruct x
    end ].
Ltac solve_turn := repeat turn_step.

Lemma finish_turn_keeps before r : moves keeps (finish_turn E before r).
Proof. unfold finish_turn. solve_turn. Qed.
Hint Resolve finish_turn_keeps : loop.

Lemma call_provider_trace ms s : trace (fst (call_provider E ms s)) = trace s ++ [Called ms].
Proof.
  unfold call_provider. destruct (_ && _); [destruct (chat_or_cancel E _ _ _) as [[? ?] ?]|destruct (chat E _ _ _) as [[? ?] ?]]; reflexivity.
Qed.

Lemma replayed_response_silent : moves (emits nothing) (replayed_response E).
Proof. unfold replayed_response. solve_moves. Qed.

Lemma provider_outcome_cases ms s :
  trace (fst (provider_outcome E ms s)) = trace s \/ trace (fst (provider_outcome E ms s)) = trace s ++ [Called ms].
Proof.
  unfold provider_outcome, se_bind, has_replay. destruct (has_replay_entry (replay s)).
  - left. pose proof (emits_nothing _ s replayed_response_silent) as Ht.
    destruct (replayed_response E s) as [s1 [r|e]]; exact Ht.
  - right. pose proof (call_provider_trace ms s) as Ht. unfold se_try. by destruct (call_provider E ms s).
Qed.

Lemma consume_silent kind : moves (emits nothing) (consume_replay_entry E kind).
Proof. apply on_replay_silent. Qed.
Hint Resolve consume_silent : loop.

Lemma model_step_keeps : moves keeps (model_step E).
Proof.
  intros s. unfold model_step. apply bind_keeps; [apply appended_keeps; eauto with loop|intros _ s1 _].
  apply bind_keeps; [apply appended_keeps; eauto with loop|intros _ s2 _].
  apply bind_keeps; [cbn; reflexivity|]. intros s2' s2'' [= <- <-]. cbv zeta.
  set (ms := compact_messages E (transcript s2) (context_limit s2)).
  set (request := LlmRequest _ _). apply bind_keeps; [apply appended_keeps; eauto with loop|]. intros [] s3 Hj.
  destruct (journal_entry_cases request s2) as (s3' & [[Ej Ht]|(e & Ej & _)]); rewrite Ej in Hj; [|discriminate].
  injection Hj as ->. apply bind_keeps; [apply appended_keeps; eauto with loop|]. intros [] s4 Hc.
  pose proof (emits_nothing _ s3 (consume_silent request)) as H4. rewrite Hc in H4. cbn [fst] in H4.
  apply bind_keeps; [apply appended_keeps; eauto with loop|]. intros [] s5 Hb%run_llm_before_Ok.
  apply bind_keeps; [cbn; reflexivity|]. intros s5' s5'' [= <- <-]. destruct (_ && _); [cbn; reflexivity|].
  apply bind_keeps.
  - destruct (provider_outcome_cases ms s5) as [E5|E5]; unfold keeps; rewrite E5; [done|].
    rewrite Hb, H4, Ht. intros Hw. rewrite <- app_assoc. by apply ahead_call.
  - intros o s6 _. match goal with |- keeps _ (fst (?m s6)) => assert (moves keeps m) as Hm; [|apply Hm] end. solve_turn.
Qed.
Hint Resolve model_step_keeps : loop.

Lemma execute_turn_keeps : moves keeps (execute_turn E).
Proof. unfold execute_turn. solve_turn. Qed.
Hint Resolve execute_turn_keeps : loop.

Lemma exit_with_silent reason usage : moves (emits nothing) (exit_with reason usage : L _).
Proof. intros s. by apply emits_same. Qed.
Hint Resolve exit_with_silent : loop.

Lemma turns_keeps n usage : moves keeps (turns E n usage).
Proof. revert usage. induction n as [|n IH]; intros usage; cbn [turns]; solve_turn. Qed.
Hint Resolve turns_keeps : loop.

Lemma restore_trace s : trace (restore_checkpoint E s) = trace s.
Proof.
  unfold restore_checkpoint. destruct (replay s) as [it|]; [|done]. destruct (latest_checkpoint _ _) as [c|]; [|done].
  unfold replace_budget_mirror, sync_turn_mirror. destruct (checkpoint_messages c), (vfs_snapshot c); cbn; try done; by destruct (has_vfs s).
Qed.
Hint Resolve restore_trace : loop.

(** C7. Journal before effect.  However a run ends, with whatever provider, tools, hooks and approvals,
    and whatever others do to the journal and the shared state while it waits: every model call it made
    comes right after the journal entry of its request, and every tool it ran was journaled as called
    after the model's last response. *)
Theorem effects_are_journaled_first task s :
  write_ahead (trace s) -> write_ahead (trace (fst (run E task s))).
Proof. assert (moves keeps (run E task)) as Hm; [|apply Hm]. unfold run. solve_turn. Qed.

(** ** Every call is answered *)

(** A result answers a call. *)
Definition answers (tc : ToolCallMessage) (m : Message) : Prop :=
  role m = Tool /\ tool_call_id m = Some (tc_id tc) /\ tool_calls m = [].

(** A message with one result per call, in the order of the calls. *)
Definition answered_block (b : list Message) : Prop :=
  match b with m :: results => Forall2 answers (tool_calls m) results | [] => False end.
Definition answered (ms : list Message) : Prop := exists blocks, ms = concat blocks /\ Forall answered_block blocks.

Lemma answered_nil : answered [].
Proof. by exists []. Qed.

Lemma answered_app a b : answered a -> answered b -> answered (a ++ b).
Proof. intros (x & -> & Hx) (y & -> & Hy). exists (x ++ y). rewrite concat_app. split; [done|]. by apply Forall_app. Qed.

Lemma answered_one m results : Forall2 answers (tool_calls m) results -> answered (m :: results).
Proof. intros Hf. exists [m :: results]. cbn. rewrite app_nil_r. split; [done|]. by constructor. Qed.

Lemma answered_plain m : tool_calls m = [] -> answered [m].
Proof. intros Hc. apply answered_one. by rewrite Hc. Qed.

Lemma answered_users queued : answered (List.map (user_message (Value := Value)) queued).
Proof.
  induction queued as [|q l IH]; [apply answered_nil|]. apply (answered_app [user_message q]); [by apply answered_plain|done].
Qed.

Definition same_transcript s s' : Prop := transcript s' = transcript s.
#[export] Instance same_transcript_preorder : PreOrder same_transcript.
Proof. split; unfold same_transcript; [done|congruence]. Qed.
Notation same := (moves same_transcript).

Lemma journal_entry_same kind : same (journal_entry E kind).
Proof. intros s. unfold journal_entry. by destruct (Journal.journal_entry _ _ _ _) as [[? ?] [?|?]]. Qed.
Lemma on_replay_same {A} (m : SE _ _ A) : same (on_replay m : L A).
Proof. intros s. unfold on_replay. by destruct (m _). Qed.
Lemma check_signal_same : same (check_signal : L unit).
Proof. by intros s. Qed.
Hint Resolve journal_entry_same on_replay_same check_signal_same : loop.
Lemma modify_same f : (forall s, transcript (f s) = transcript s) -> same (se_modify f : L unit).
Proof. intros Hf. by apply moves_modify. Qed.
Hint Extern 1 (transcript _ = transcript _) => reflexivity : loop.
Hint Extern 1 (moves same_transcript (se_modify _)) => apply modify_same; intros ?; solve [auto with loop] : loop.

Lemma check_pending_same : same (check_pending_spawn_hook_kill : L unit).
Proof. unfold check_pending_spawn_hook_kill. solve_turn. Qed.
Hint Resolve check_pending_same : loop.
Lemma with_hooks_same {A} (f : @Hooks.State W -> @Hooks.State W * A) : same (with_hooks f : L A).
Proof. intros s. unfold with_hooks. by destruct (f _). Qed.
Hint Resolve with_hooks_same : loop.
Lemma run_llm_before_same ms : same (run_llm_before E ms).
Proof. unfold run_llm_before, journaled_kill. solve_turn. Qed.
Lemma run_llm_after_same r : same (run_llm_after E r).
Proof. unfold run_llm_after, journaled_kill. solve_turn. Qed.
Lemma journal_tool_call_same tc : same (journal_tool_call E tc).
Proof. unfold journal_tool_call, consume_replay_entry. solve_turn. Qed.
Lemma await_tool_same tc : same (await_tool E tc).
Proof.
  intros s. unfold await_tool. destruct (negb _); [by destruct (join E tc _)|].
  destruct (cancel_signalled _); [done|]. by destruct (join_or_cancel E tc _) as [w [j|]].
Qed.
Lemma await_tool_approval_same tc : same (await_tool_approval E tc).
Proof.
  intros s. unfold await_tool_approval. destruct (_ || _); [done|]. destruct (is_cancelled s); [done|]. by destruct (approvals E tc _).
Qed.
Hint Resolve run_llm_before_same run_llm_after_same journal_tool_call_same await_tool_same await_tool_approval_same : loop.
Lemma await_all_same calls : same (await_all E calls).
Proof. induction calls; cbn [await_all]; solve_turn. Qed.
Lemma finish_tool_call_same tc r : same (finish_tool_call E tc r).
Proof. unfold finish_tool_call. solve_turn. Qed.
Lemma spawn_all_same calls s : transcript (fold_left (fun s tc => spawn_tool E tc s) calls s) = transcript s.
Proof. revert s. induction calls as [|tc calls IH]; intros s; cbn [fold_left]; [done|by rewrite IH]. Qed.
Hint Resolve await_all_same finish_tool_call_same spawn_all_same : loop.
Lemma serial_call_same tc : same (serial_call E tc).
Proof. unfold serial_call, live_result, execute_one, take_replay_tool_result. solve_turn. Qed.
Hint Resolve serial_call_same : loop.
Lemma dispatch_same calls : same (dispatch_tool_calls E calls).
Proof.
  unfold dispatch_tool_calls, execute_parallel_batch.
  apply moves_bind; [apply _|solve_turn|intros s]. destruct (_ && _).
  - apply moves_bind; [apply _|apply moves_for; [apply _|eauto with loop]|intros _].
    apply moves_bind; [apply _|solve_turn|intros rs]. apply moves_map; [apply _|]. intros [? ?]. eauto with loop.
  - apply moves_map; [apply _|eauto with loop].
Qed.
Hint Resolve dispatch_same : loop.

Lemma same_Ok {A} (m : L A) s s' r : same m -> m s = (s', r) -> transcript s' = transcript s.
Proof. intros Hm Hr. specialize (Hm s). by rewrite Hr in Hm. Qed.

Lemma finish_tool_call_Ok tc r s s' m : finish_tool_call E tc r s = (s', Ok m) -> answers tc m.
Proof. intros ([] & s1 & _ & [= _ <-])%bind_Ok. by split. Qed.

Lemma serial_call_Ok tc s s' m : serial_call E tc s = (s', Ok m) -> answers tc m.
Proof.
  unfold serial_call. intros ([] & s1 & _ & (o & s2 & _ & (r & s3 & _ & Hf)%bind_Ok)%bind_Ok)%bind_Ok.
  by eapply finish_tool_call_Ok.
Qed.

Lemma se_map_Ok {A B} (f : A -> L B) (P : A -> B -> Prop) l s s' ys :
  (forall x s s' y, f x s = (s', Ok y) -> P x y) -> se_map f l s = (s', Ok ys) -> Forall2 P l ys.
Proof.
  intros Hf. revert s ys. induction l as [|x l IH]; intros s ys; cbn [se_map]; [by intros [= _ <-]|].
  intros (y & s1 & Hy & (ys' & s2 & Hys & [= -> <-])%bind_Ok)%bind_Ok. constructor; [by eapply Hf|by eapply IH].
Qed.

Lemma await_all_length calls s s' rs : await_all E calls s = (s', Ok rs) -> length rs = length calls.
Proof.
  revert s rs. induction calls as [|tc calls IH]; intros s rs; cbn [await_all]; [by intros [= _ <-]|].
  intros (r & s1 & _ & (rs' & s2 & Hrs & [= -> <-])%bind_Ok)%bind_Ok. cbn. f_equal. by eapply IH.
Qed.

Lemma dispatch_Ok calls s s' ms : dispatch_tool_calls E calls s = (s', Ok ms) -> Forall2 answers calls ms.
Proof.
  unfold dispatch_tool_calls. intros (s0 & s1 & [= <- <-] & Hr)%bind_Ok. destruct (_ && _) in Hr.
  - apply bind_Ok in Hr as ([] & s1 & _ & (rs & s2 & Hb & Hr)%bind_Ok).
    assert (length rs = length calls) as Hl.
    { unfold execute_parallel_batch in Hb. apply bind_Ok in Hb as (_ & s3 & _ & Hb). by eapply await_all_length. }
    apply (se_map_Ok _ (fun p m => answers p.1 m)) in Hr; [|intros [tc r] ? ? y; cbn; apply finish_tool_call_Ok].
    clear -Hr Hl. revert rs ms Hr Hl. induction calls as [|tc calls IH]; intros [|r rs] ms Hr Hl; try discriminate; inversion Hr; subst; [constructor|].
    constructor; [done|]. eapply IH; [done|]. by injection Hl.
  - eapply se_map_Ok; [|exact Hr]. apply serial_call_Ok.
Qed.

(** Answered, up to a last message whose calls have not been answered. *)
Definition pending (ms : list Message) : Prop := exists pre m, ms = pre ++ [m] /\ answered pre.
Definition settled (r : AgentLoop * result TurnExecution RuntimeError) : Prop :=
  (is_ok (snd r) = true -> answered (transcript (fst r))) /\
  (answered (transcript (fst r)) \/ pending (transcript (fst r))).

Lemma settled_answered (r : AgentLoop * result TurnExecution RuntimeError) : answered (transcript (fst r)) -> settled r.
Proof. intros Ha. split; [done|by left]. Qed.

Lemma settled_bind {A} (m : L A) (k : A -> L TurnExecution) s :
  same m -> answered (transcript s) ->
  (forall a s1, m s = (s1, Ok a) -> answered (transcript s1) -> settled (k a s1)) -> settled (se_bind m k s).
Proof.
  intros Hm Ha Hk. destruct (bind_cases m k s) as [(s1 & e & E1 & ->)|(s1 & a & E1 & ->)];
    pose proof (same_Ok m _ _ _ Hm E1) as Ht.
  - apply settled_answered. cbn. by rewrite Ht.
  - apply Hk; [done|]. by rewrite Ht.
Qed.

Lemma settled_pending s1 e : pending (transcript s1) -> settled (s1, Err e).
Proof. intros Hp. split; [done|by right]. Qed.

Lemma settled_modify f k s : settled (k tt (f s)) -> settled (se_bind (se_modify f) k s).
Proof. done. Qed.

(** A step that does not touch the transcript, while the last message is open. *)
Lemma pending_bind {A} (m : L A) (k : A -> L TurnExecution) s :
  same m -> pending (transcript s) ->
  (forall a s1, m s = (s1, Ok a) -> transcript s1 = transcript s -> settled (k a s1)) -> settled (se_bind m k s).
Proof.
  intros Hm Hp Hk. destruct (bind_cases m k s) as [(s1 & e & E1 & ->)|(s1 & a & E1 & ->)];
    pose proof (same_Ok m _ _ _ Hm E1) as Ht; [apply settled_pending; by rewrite Ht|by apply Hk].
Qed.

(** The part of a turn after the model's response. *)
Lemma finish_turn_settled before r s : answered (transcript s) -> settled (finish_turn E before r s).
Proof.
  intros Ha. unfold finish_turn. do 2 (apply settled_bind; [eauto with loop|done|]; intros [] sx _ Ax; clear s Ha; rename sx into s, Ax into Ha).
  do 2 apply settled_modify. set (s1 := merge_budget_into_mirror _ _).
  assert (transcript s1 = transcript s) as T1 by (unfold s1, merge_budget_into_mirror; by destruct (budget_mirror _)).
  clearbody s1. apply settled_modify. set (m := response_message r).
  set (s2 := set_transcript _ s1). assert (transcript s2 = transcript s ++ [m]) as T2 by (rewrite <- T1; reflexivity).
  clearbody s2. destruct (tool_calls m) as [|tc calls] eqn:Ec.
  { apply settled_bind; [eauto with loop|rewrite T2; by apply answered_app, answered_plain|].
    intros _ s3 _ A3. by apply settled_answered. }
  rewrite <- Ec. assert (pending (transcript s2)) as P2 by (rewrite T2; by exists (transcript s), m).
  apply pending_bind; [eauto with loop|done|]. intros rs s3 Hrs%dispatch_Ok T3.
  apply pending_bind; [eauto with loop|by rewrite T3|]. intros _ s4 _ T4. apply settled_modify.
  apply settled_bind; [eauto with loop| |intros _ s5 _ A5; by apply settled_answered].
  cbn [transcript set_transcript set_state]. rewrite T4, T3, T2, <- app_assoc. apply answered_app; [done|by apply answered_one].
Qed.

Lemma call_provider_same ms : same (call_provider E ms).
Proof.
  intros s. unfold call_provider. destruct (_ && _); [by destruct (chat_or_cancel E _ _ _) as [[? ?] ?]|by destruct (chat E _ _ _) as [[? ?] ?]].
Qed.
Hint Resolve call_provider_same : loop.
Lemma provider_outcome_same ms : same (provider_outcome E ms).
Proof.
  unfold provider_outcome. apply moves_bind; [apply _|by intros s|intros [] ]; unfold replayed_response; solve_turn.
Qed.
Hint Resolve provider_outcome_same : loop.
Lemma consume_same kind : same (consume_replay_entry E kind).
Proof. apply on_replay_same. Qed.
Hint Resolve consume_same : loop.

Ltac settle := apply settled_bind; [first [by intros ?|eauto with loop]|assumption|intros ? ? _ ?].

Lemma model_step_settled s : answered (transcript s) -> settled (model_step E s).
Proof.
  intros Ha. unfold model_step. do 7 settle. destruct (_ && _); [by apply settled_answered|]. do 3 settle.
  match goal with |- settled (match ?o with _ => _ end _) => destruct o end; [by apply finish_turn_settled|by apply settled_answered].
Qed.

Lemma drain_answered s : answered (transcript s) -> answered (transcript (drain_input_queue s)).
Proof.
  intros Ha. unfold drain_input_queue. destruct (input_queue _) as [q|]; [|done]. by apply answered_app, answered_users.
Qed.

Lemma refresh_same s : transcript (refresh_budget_from_mirror s) = transcript s.
Proof. unfold refresh_budget_from_mirror. by destruct (budget_mirror _). Qed.
Hint Resolve refresh_same : loop.

Lemma execute_turn_settled s : answered (transcript s) -> settled (execute_turn E s).
Proof.
  intros Ha. unfold execute_turn. do 2 settle. destruct (is_cancelled _); [by apply settled_answered|].
  apply settled_modify.
  match goal with |- settled (_ (drain_input_queue ?s0)) => assert (answered (transcript (drain_input_queue s0))) by by apply drain_answered end.
  do 2 settle. destruct (check_budget _); [by apply model_step_settled|by apply settled_answered].
Qed.

(** The transcript a run hands back. *)
Definition handed_back (out : AgentLoopOutput Value Decimal) : Prop :=
  answered (messages out) \/
  (exists hook reason, exit_reason out = PolicyKill hook reason) /\ pending (messages out).

Lemma turns_handed_back n usage s s' out :
  answered (transcript s) -> turns E n usage s = (s', Ok out) -> handed_back out.
Proof.
  revert usage s. induction n as [|n IH]; intros usage s Ha; cbn [turns]; [intros [= _ <-]; by left|].
  pose proof (execute_turn_settled s Ha) as [Hok Hany].
  unfold se_bind, se_try. destruct (execute_turn E s) as [s1 [t|e]]; cbn [fst snd is_ok] in *.
  - specialize (Hok eq_refl). destruct (turn_result t).
    + intros [= _ <-]. by left.
    + by apply IH.
    + by destruct (turn_exhausted t).
    + intros [= _ <-]. by left.
  - destruct e; try discriminate. intros [= _ <-]. destruct Hany as [?|?]; [by left|right]. split; [by eexists _, _|done].
Qed.

Lemma latest_checkpoint_answered :
  (forall bytes c, decode_checkpoint E bytes = Some c -> answered (checkpoint_messages c)) ->
  forall (es : list (JournalEntry Value)) c, latest_checkpoint E es = Some c -> answered (checkpoint_messages c).
Proof.
  intros Hc es. unfold latest_checkpoint.
  match goal with |- forall c, fold_left ?f es None = _ -> _ =>
    cut (forall o, (forall c, o = Some c -> answered (checkpoint_messages c)) ->
           forall c, fold_left f es o = Some c -> answered (checkpoint_messages c)); [intros Hl; by apply Hl|] end.
  induction es as [|e es IH]; intros o Ho; cbn [fold_left]; [exact Ho|]. apply IH. destruct (entry e); try done.
  destruct (decode_checkpoint E snapshot_data) as [d|] eqn:Ed; [|done]. intros c [= <-]. by eapply Hc.
Qed.

(** C8. Every call is answered, a policy kill apart.  In the transcript a run hands back, each assistant
    message with tool calls is followed by exactly one result per call, in the order of the calls and under
    their ids: denied, failed, panicked, cancelled, parallel and replayed calls included; a run that ends in a
    policy kill may leave the calls of the very last message open.  The checkpoints that decode are assumed
    to be answered: a replay that resumes from one hands back its messages as they are. *)
Theorem run_answers_every_call task s s' out :
  (forall bytes c, decode_checkpoint E bytes = Some c -> answered (checkpoint_messages c)) ->
  run E task s = (s', Ok out) -> handed_back out.
Proof.
  intros Hc. unfold run. intros (s0 & s1 & [= <- <-] & ([] & s2 & _ & ([] & s3 & [= <-] & ([] & s4 & [= <-] & Hr)%bind_Ok)%bind_Ok)%bind_Ok)%bind_Ok.
  revert Hr. apply turns_handed_back.
  assert (answered (initial_messages s2 task)) as Hi.
  { apply (answered_app [_] [_]); by apply answered_plain. }
  unfold restore_checkpoint. cbn [replay set_transcript set_state].
  destruct (replay s2) as [it|]; [|exact Hi]. destruct (latest_checkpoint _ _) as [c|] eqn:El; [|exact Hi].
  apply (latest_checkpoint_answered Hc) in El.
  unfold replace_budget_mirror, sync_turn_mirror.
  destruct (checkpoint_messages c); destruct (vfs_snapshot c); cbn; try destruct (has_vfs s2); first [exact Hi|exact El].
Qed.

(** ** A bounded number of model calls *)

Definition is_call (e : Effect) : bool := match e with Called _ => true | _ => false end.
Definition model_calls (t : list Effect) : nat := length (List.filter is_call t).

(** At most [n] model calls. *)
Definition calls (n : nat) s s' : Prop := (model_calls (trace s') <= n + model_calls (trace s))%nat.

Lemma calls_bind n k {A B} (m : L A) (f : A -> L B) :
  moves (calls n) m -> (forall a, moves (calls k) (f a)) -> moves (calls (n + k)) (se_bind m f).
Proof.
  intros Hm Hf s. unfold se_bind, calls in *. specialize (Hm s). destruct (m s) as [s1 [a|e]]; cbn [fst] in *; [|lia].
  specialize (Hf a s1). cbn in Hf. lia.
Qed.

Lemma calls_none {A} (m : L A) : moves (emits not_called) m -> moves (calls 0) m.
Proof.
  intros Hm s. destruct (Hm s) as (t & Et & Ht). unfold calls, model_calls. rewrite Et, List.filter_app, length_app.
  enough (List.filter is_call t = []) as -> by (cbn; lia). clear Et. induction Ht as [|e t He _ IH]; [done|]. cbn. by destruct e.
Qed.

Lemma calls_more n k {A} (m : L A) : (n <= k)%nat -> moves (calls n) m -> moves (calls k) m.
Proof. intros Hle Hm s. specialize (Hm s). unfold calls in *. lia. Qed.

Lemma calls_0_bind n {A B} (m : L A) (f : A -> L B) :
  moves (emits not_called) m -> (forall a, moves (calls n) (f a)) -> moves (calls n) (se_bind m f).
Proof. intros Hm Hf. apply (calls_bind 0 n); [by apply calls_none|done]. Qed.

Lemma journal_tool_call_quiet tc : moves (emits not_called) (journal_tool_call E tc).
Proof. apply appended_not_called. eauto with loop. Qed.

Lemma spawn_all_quiet l s : emits not_called s (fold_left (fun s tc => spawn_tool E tc s) l s).
Proof.
  revert s. induction l as [|tc l IH]; intros s; cbn [fold_left]; [reflexivity|].
  transitivity (spawn_tool E tc s); [by eapply emits_one|apply IH].
Qed.

Lemma serial_call_quiet tc : moves (emits not_called) (serial_call E tc).
Proof.
  unfold serial_call. apply moves_bind; [apply _|apply journal_tool_call_quiet|intros _].
  apply moves_bind; [apply _|apply nothing_not_called, on_replay_silent|intros o].
  apply moves_bind; [apply _| |intros r; apply appended_not_called; eauto with loop].
  destruct o as [[[? ?] ?]|]; [apply moves_ret; apply _|]. unfold live_result.
  apply moves_bind; [apply _|apply nothing_not_called; eauto with loop|intros [|]; [|apply moves_ret; apply _]].
  unfold execute_one. apply moves_bind; [apply _|apply moves_modify; intros s; by eapply emits_one|intros _].
  apply nothing_not_called. eauto with loop.
Qed.

Lemma dispatch_quiet l : moves (emits not_called) (dispatch_tool_calls E l).
Proof.
  unfold dispatch_tool_calls, execute_parallel_batch.
  apply moves_bind; [apply _|apply moves_get; apply _|intros s]. destruct (_ && _).
  - apply moves_bind; [apply _|apply moves_for; [apply _|apply journal_tool_call_quiet]|intros _].
    apply moves_bind; [apply _| |intros rs; apply moves_map; [apply _|]; intros [? ?]; apply appended_not_called; eauto with loop].
    apply moves_bind; [apply _|apply moves_modify, spawn_all_quiet|intros _]. apply nothing_not_called. eauto with loop.
  - apply moves_map; [apply _|]. apply serial_call_quiet.
Qed.
Hint Resolve dispatch_quiet : loop.

Lemma finish_turn_quiet before r : moves (emits not_called) (finish_turn E before r).
Proof. unfold finish_turn. solve_turn. Qed.

Lemma provider_outcome_calls ms : moves (calls 1) (provider_outcome E ms).
Proof.
  intros s. unfold calls. destruct (provider_outcome_cases ms s) as [->| ->]; [lia|].
  unfold model_calls. rewrite List.filter_app, length_app. cbn. lia.
Qed.

Ltac quiet := apply calls_0_bind; [solve [solve_turn]|intros ?].

Lemma execute_turn_calls : moves (calls 1) (execute_turn E).
Proof.
  unfold execute_turn. do 2 quiet. destruct (is_cancelled _); [apply (calls_more 0); [lia|apply calls_none; solve_turn]|].
  do 3 quiet. destruct (check_budget _); [|apply (calls_more 0); [lia|apply calls_none; solve_turn]].
  unfold model_step. do 7 quiet. destruct (_ && _); [apply (calls_more 0); [lia|apply calls_none; solve_turn]|].
  apply (calls_bind 1 0); [apply provider_outcome_calls|intros ?]. do 2 quiet.
  match goal with |- moves _ (match ?o with _ => _ end) => destruct o end; apply calls_none; [apply finish_turn_quiet|solve_turn].
Qed.

(** C36. A run ends, and makes at most as many model calls as the configuration allows turns ([u32::MAX]
    when it sets no limit), whatever the provider answers. *)
Theorem run_is_bounded task s :
  (model_calls (trace (fst (run E task s))) <= N.to_nat (effective_max_turns s) + model_calls (trace s))%nat.
Proof.
  assert (forall n usage, moves (calls n) (turns E n usage)) as Ht.
  { induction n as [|n IH]; intros usage; cbn [turns]; [apply calls_none; solve_turn|].
    apply (calls_bind 1 n).
    { intros s0. unfold se_try. pose proof (execute_turn_calls s0). by destruct (execute_turn E s0). }
    intros r. destruct r as [t|e].
    - destruct (turn_result t); [|apply IH| |]; apply (calls_more 0); try lia; apply calls_none; solve_turn.
    - apply (calls_more 0); [lia|]. apply calls_none. destruct e; solve_turn. }
  unfold run. unfold se_bind at 1, se_get. generalize (N.to_nat (effective_max_turns s)). intros n.
  match goal with |- context [?m s] => assert (moves (calls n) m) as Hm; [|apply Hm] end. do 3 quiet. apply Ht.
Qed.

(** ** Turns that may not start *)

Lemma within_limits_Ok b : check_budget (without_sub_agents b) = Ok tt ->
  within (max_tokens b) (used_tokens b) /\ within (max_turns b) (used_turns b) /\
  (is_zero (max_cost b) = true \/ decimal_ge (used_cost b) (max_cost b) = false) /\
  within (max_vfs_bytes b) (used_vfs_bytes b) /\ within (max_fuel b) (used_fuel b).
Proof. intros Hc%check_budget_Ok. cbn in Hc. naive_solver. Qed.

(** A turn that does anything, to the journal, the model or the tools, was not killed and not cancelled
    when it began, and every limit of the shared budget (tokens, turns, cost, bytes, fuel) had room. *)
Theorem turn_acts_only_within_limits s s' r :
  execute_turn E s = (s', r) -> trace s' <> trace s ->
  kill_decision (world s) = None /\ is_cancelled s = false /\
  let b := unwrap_or (budget_mirror (world s)) (budget s) in
  within (max_tokens b) (used_tokens b) /\ within (max_turns b) (used_turns b) /\
  (is_zero (max_cost b) = true \/ decimal_ge (used_cost b) (max_cost b) = false) /\
  within (max_vfs_bytes b) (used_vfs_bytes b) /\ within (max_fuel b) (used_fuel b).
Proof.
  unfold execute_turn. intros Hr Ht.
  destruct (bind_cases check_pending_spawn_hook_kill (fun _ => let! s := se_get in
    if is_cancelled s then se_ret cancelled_execution else
    let! _ := se_modify drain_input_queue in let! _ := se_modify refresh_budget_from_mirror in let! s := se_get in
    match check_budget (without_sub_agents (budget s)) with
    | Err exhausted => se_ret {| turn_result := TurnBudgetExhausted; turn_usage := TokenUsage_default; turn_exhausted := Some exhausted |}
    | Ok _ => model_step E end) s) as [(s1 & e & E1 & E2)|(s1 & [] & E1 & E2)];
    rewrite E2 in Hr; pose proof (emits_nothing _ s check_pending_silent) as T1; rewrite E1 in T1; cbn [fst] in T1.
  { injection Hr as <- _. congruence. }
  assert (kill_decision (world s) = None /\ world s1 = world s /\ cancellation s1 = cancellation s /\ budget s1 = budget s) as (Hk & Hw & Hcc & Hb).
  { revert E1. unfold check_pending_spawn_hook_kill, check_signal, se_bind, se_get, se_modify, se_err. cbn.
    destruct (kill_decision (world s)) as [[? ?]|] eqn:Ek; [discriminate|]. cbn.
    destruct (spawn_hook_journal_frontier s); [destruct (journal_read_from _ _ _)|destruct (journal_read_all _ _)]; cbn; rewrite ?Ek;
      try discriminate; try (destruct (find_spawn_kill _) as [[? ?]|]; cbn; rewrite ?Ek; try discriminate); by intros [= <-]. }
  unfold se_bind, se_get, se_modify in Hr. unfold is_cancelled in *. rewrite Hw, Hcc in Hr.
  destruct (cancellation s && _) eqn:Ec; [injection Hr as <- _; congruence|]. split; [done|]. split; [done|]. cbv zeta.
  apply within_limits_Ok. unfold refresh_budget_from_mirror in Hr.
  assert (budget_mirror (world (drain_input_queue s1)) = budget_mirror (world s) /\ budget (drain_input_queue s1) = budget s) as [Hm Hb'].
  { unfold drain_input_queue. rewrite <- Hw, <- Hb. destruct (input_queue (world s1)); by split. }
  rewrite Hm in Hr. destruct (check_budget (without_sub_agents (unwrap_or _ _))) as [[]|x] eqn:Eb; [done|exfalso].
  destruct (budget_mirror (world s)) as [b|]; cbn in Eb, Hr; rewrite ?Hb' in Hr; rewrite Eb in Hr; injection Hr as <- _;
    apply Ht; cbn; rewrite drain_trace; exact T1.
Qed.
End Turns.

(** ** A concrete run

    The model asks for the time, gets it from the only tool and answers. *)

Definition ex_call : @ToolCallMessage unit :=
  {| tc_id := "c1"; tc_name := "time"; tc_arguments := tt |}.

Definition ex_response (ms : list (@Message unit)) : @ProviderResponse unit :=
  let usage := {| input_tokens := 5; output_tokens := 2; cache_read_input_tokens := 0; cache_write_input_tokens := 0 |} in
  let say text calls := {| role := Assistant; content := text; tool_calls := calls; tool_call_id := None;
                           provider_content := [] |} in
  if (length ms <=? 2)%nat
  then {| response_message := say [] [ex_call]; response_usage := usage; finish_reason := ToolUse; response_model := "m" |}
  else {| response_message := say (lit "noon") []; response_usage := usage; finish_reason := EndTurn; response_model := "m" |}.

Definition ex_env : @Env unit N (@InMemoryJournalStorage unit) unit unit := {|
  clock := fun _ => 0%N;
  compact_messages := fun ms _ => ms;
  streaming := false;
  chat := fun ms b w => (w, b, Ok (ex_response ms));
  chat_or_cancel := fun ms b w => (w, b, Some (Ok (ex_response ms)));
  supports_parallel_tool_calls := fun _ => false;
  waits_for_runtime_cancellation := fun _ => false;
  start_tool := fun _ w => w;
  join := fun _ w => (w, Returned (Ok {| output_content := "12:00"; output_is_error := false; output_blocks := [] |}));
  join_or_cancel := fun _ w => (w, Some (Returned (Err [])));
  abort_task := fun _ w => w;
  await_task := fun _ w => w;
  approvals := fun _ w => (w, []);
  llm_before_ctx := fun _ _ => [];
  llm_after_ctx := fun _ => [];
  hook_error_to_string := fun _ => [];
  decode_checkpoint := fun _ => None;
  restore_vfs := fun _ w => w;
  value_get := fun _ _ => None;
  value_as_str := fun _ => None;
  value_object := fun _ => tt;
  value_null := tt;
  value_to_string := fun _ => [];
  value_eqb := fun _ _ => true;
  debug_entry := fun _ => [];
|}.

Definition ex_loop (r : option (JournalReplayIterator unit)) : @AgentLoop unit N (@InMemoryJournalStorage unit) unit unit := {|
  config := {| loop_agent := "a"; system_prompt := "sys"; loop_model := "m"; loop_max_turns := 5; context_token_limit := None |};
  pipeline := None; hitl := None; cancellation := false; has_vfs := false;
  budget := {| max_tokens := 100; max_turns := 0; max_cost := 0%N; max_sub_agents := 0; max_vfs_bytes := 0;
               used_tokens := 0; used_turns := 0; used_cost := 0%N; used_sub_agents := 0; used_vfs_bytes := 0;
               max_fuel := 0; used_fuel := 0 |};
  replay := r; journal_write_failures := 0; spawn_hook_journal_frontier := None;
  AgentLoop.world := {| journal := []; budget_mirror := None; turn_mirror := None; cancel_signalled := false; kill_decision := None;
               input_queue := None; hooks := {| Hooks.world := tt; Hooks.counted := [] |}; outside := tt |};
  transcript := []; trace := [];
|}.

Lemma effects_are_journaled_first_witness :
  let t := trace (fst (run ex_env "when" (ex_loop None))) in
  List.filter is_call t <> [] /\ In (Executed ex_call) t /\ write_ahead ex_env t.
Proof.
  split; [vm_compute; discriminate|]. split; [vm_compute; tauto|].
  apply (effects_are_journaled_first ex_env "when" (ex_loop None)). apply ahead_nil.
Defined.

Lemma run_answers_every_call_witness :
  exists s' out, run ex_env "when" (ex_loop None) = (s', Ok out) /\ length (messages out) = 5%nat /\ handed_back out.
Proof.
  destruct (run ex_env "when" (ex_loop None)) as [s' [out|e]] eqn:Er; [|vm_compute in Er; discriminate Er].
  exists s', out. split; [reflexivity|]. split; [vm_compute in Er; injection Er as <- <-; reflexivity|].
  apply (run_answers_every_call ex_env "when" (ex_loop None) s'); [discriminate|exact Er].
Defined.

Lemma turn_acts_only_within_limits_witness :
  exists s' r, execute_turn ex_env (ex_loop None) = (s', r) /\ trace s' <> [] /\
    within (max_tokens (budget (ex_loop None))) (used_tokens (budget (ex_loop None))).
Proof.
  destruct (execute_turn ex_env (ex_loop None)) as [s' r] eqn:Er. exists s', r. split; [reflexivity|].
  assert (trace s' <> []) as Ht by (vm_compute in Er; injection Er as <- _; vm_compute; discriminate).
  split; [exact Ht|].
  destruct (turn_acts_only_within_limits ex_env (ex_loop None) s' r Er Ht) as (_ & _ & Hw & _). exact Hw.
Defined.
