(* ===== verification/AgentReplay.v ===== *)
(** * Replaying a recorded run

    A run of the agent loop is determined by its journal: a live run whose tools run one at a time,
    recorded with whatever its tools journaled inside their calls, is reproduced from the record by a
    loop that calls neither the model nor a tool.

    [Live] says what a successful live turn leaves in the trace; [Recorded] what of it reaches the
    journal; [Replaying] takes it back.  The replaying loop writes to the in-memory store. *)

From S2P Require Import Prelude.
From S2P Require Import Context.
From S2P Require Import Budget.
From S2P Require Import Capability.
From S2P Require Import Journal.
From S2P Require Hooks.
From S2P Require Import Supervisor.
From S2P Require Import LlmReplay.
From S2P Require Import AgentLoop.
From S2P Require Import AgentTurns.

Section Live.
Context {Value Decimal J W X : Type} `{DecimalOps Decimal} `{DecimalArith Decimal}
  `{!JournalStorage Value Decimal J}.
Notation Message := (@Message Value).
Notation ToolCallMessage := (@ToolCallMessage Value).
Notation Effect := (@Effect Value).
Notation AgentLoop := (@AgentLoop Value Decimal J W X).
Notation World := (@World Decimal J W X).
Notation L := (@L Value Decimal J W X).
Context (E : @Env Value Decimal J W X).
Implicit Types s : AgentLoop.

(** ** A loop of its own

    Nobody shares its budget or steers it, and the provider leaves the counts of tokens and turns to
    the loop (it may charge costs). *)
Definition solo (w : World) : Prop := budget_mirror w = None /\ input_queue w = None.

Record Solo : Prop := {
  solo_chat ms b w : solo w ->
    solo (fst (fst (chat E ms b w))) /\ (used_tokens (snd (fst (chat E ms b w))) <= used_tokens b)%N /\
    (used_turns (snd (fst (chat E ms b w))) <= used_turns b)%N;
  solo_chat_or_cancel ms b w : solo w ->
    solo (fst (fst (chat_or_cancel E ms b w))) /\ (used_tokens (snd (fst (chat_or_cancel E ms b w))) <= used_tokens b)%N /\
    (used_turns (snd (fst (chat_or_cancel E ms b w))) <= used_turns b)%N;
  solo_start tc w : solo w -> solo (start_tool E tc w);
  solo_join tc w : solo w -> solo (fst (join E tc w));
  solo_join_or_cancel tc w : solo w -> solo (fst (join_or_cancel E tc w));
  solo_abort tc w : solo w -> solo (abort_task E tc w);
  solo_await tc w : solo w -> solo (await_task E tc w);
  solo_approvals tc w : solo w -> solo (fst (approvals E tc w));
}.
Context (HS : Solo) (serial : forall name, supports_parallel_tool_calls E name = false).

Record alone s : Prop := {
  alone_replay : replay s = None;
  alone_pipeline : pipeline s = None;
  alone_world : solo (world s);
  alone_tokens : (used_tokens (budget s) <= u64_max)%N;
  alone_turns : (used_turns (budget s) <= u32_max)%N;
}.

(** The counts the context and the next turn depend on. *)
Definition counts (b : ResourceBudget Decimal) : N * N * N * N :=
  (max_tokens b, max_turns b, used_tokens b, used_turns b).

Lemma counts_eq b b' : counts b' = counts b ->
  max_tokens b' = max_tokens b /\ max_turns b' = max_turns b /\ used_tokens b' = used_tokens b /\ used_turns b' = used_turns b.
Proof. unfold counts. intros Hc. split_and!; congruence. Qed.

Definition still s s' : Prop :=
  alone s -> alone s' /\ config s' = config s /\ counts (budget s') = counts (budget s).

#[local] Instance still_preorder : PreOrder still.
Proof.
  split; unfold still; [done|]. intros s1 s2 s3 H1 H2 A1. destruct (H1 A1) as (A2 & C2 & B2).
  destruct (H2 A2) as (A3 & C3 & B3). split_and!; congruence.
Qed.

(** Changes of the world, the trace and the transcript. *)
Lemma still_world w s : (solo (world s) -> solo w) -> still s (set_world w s).
Proof. intros Hw A. destruct A. split_and!; [|done..]. split; cbn; auto. Qed.
Lemma still_did e s : still s (did e s).
Proof. intros []. split_and!; [|done..]. by split. Qed.
Lemma still_transcript ms s : still s (set_transcript ms s).
Proof. intros []. split_and!; [|done..]. by split. Qed.
Lemma still_frontier f s : still s (set_frontier f s).
Proof. intros []. split_and!; [|done..]. by split. Qed.
Hint Resolve still_did still_transcript still_frontier : loop.

Lemma solo_journal j w : solo w -> solo (set_journal j w).
Proof. done. Qed.

Lemma journal_entry_still kind : moves still (journal_entry E kind).
Proof.
  intros s A. unfold journal_entry. destruct (Journal.journal_entry _ _ _ _) as [[j n] [[]|e]]; destruct A; cbn;
    (split_and!; [|done..]); by split.
Qed.

Lemma consume_still kind : moves still (consume_replay_entry E kind).
Proof.
  intros s A. pose proof A as []. unfold consume_replay_entry, on_replay. rewrite alone_replay0. cbn.
  split_and!; [|done..]. by split.
Qed.

Lemma check_signal_still : moves still (check_signal : L unit).
Proof. intros s. cbn. reflexivity. Qed.
Hint Resolve journal_entry_still consume_still check_signal_still : loop.

Ltac still_step :=
  first
  [ solve [eauto 4 with loop nocore]
  | apply moves_bind; [apply _| |intros ?]
  | apply moves_ret; apply _ | apply moves_err; apply _ | apply moves_lift; apply _ | apply moves_get; apply _
  | match goal with
    | |- moves _ (se_try _) => apply moves_try
    | |- moves _ (se_modify _) => apply moves_modify; intros ?
    | |- moves _ (match ?x with _ => _ end) => destruct x
    | |- moves _ (if ?x then _ else _) => destruct x
    end ].
Ltac solve_still := repeat still_step.

Lemma check_pending_still : moves still (check_pending_spawn_hook_kill : L unit).
Proof. unfold check_pending_spawn_hook_kill. solve_still. Qed.

Lemma run_llm_before_still ms s s' r : run_llm_before E ms s = (s', r) -> pipeline s = None -> s' = s.
Proof. unfold run_llm_before, se_bind, se_get. intros Hr Hp. rewrite Hp in Hr. by injection Hr as <- _. Qed.

Lemma run_llm_after_still resp s s' r : run_llm_after E resp s = (s', r) -> pipeline s = None -> s' = s.
Proof. unfold run_llm_after, se_bind, se_get. intros Hr Hp. rewrite Hp in Hr. by injection Hr as <- _. Qed.

Lemma saturating_add_0 n : (n <= u64_max)%N -> saturating_add n 0 = n.
Proof. unfold saturating_add. lia. Qed.
Lemma saturating_add32_0 n : (n <= u32_max)%N -> saturating_add32 n 0 = n.
Proof. unfold saturating_add32. lia. Qed.

Lemma merge_delta_still before now s :
  (used_tokens now <= used_tokens before)%N -> (used_turns now <= used_turns before)%N ->
  still s (merge_provider_budget_delta before now s).
Proof.
  intros Ht Hn A. destruct A.
  assert (counts (budget (merge_provider_budget_delta before now s)) = counts (budget s)) as Hc.
  { unfold counts. cbn [merge_provider_budget_delta budget set_budget set_state add_delta max_tokens max_turns used_tokens used_turns].
    replace (used_tokens now - used_tokens before)%N with 0%N by lia.
    replace (used_turns now - used_turns before)%N with 0%N by lia.
    by rewrite saturating_add_0, saturating_add32_0. }
  destruct (counts_eq _ _ Hc) as (_ & _ & E3 & E4). split_and!; [|done..]. split; try done; by rewrite ?E3, ?E4.
Qed.

Lemma call_provider_still ms : moves still (call_provider E ms).
Proof.
  intros s. unfold call_provider. set (s1 := did (Called ms) s). intros A.
  assert (alone s1) as A1 by (by destruct (still_did (Called ms) s A)). revert A1.
  assert (config s1 = config s /\ counts (budget s1) = counts (budget s) /\ budget s1 = budget s) as (C1 & B1 & BB) by done.
  destruct (_ && _); intros A1.
  - pose proof (solo_chat_or_cancel HS ms (without_sub_agents (budget s)) (world s1) (alone_world _ A1)) as (Hw & Ht & Hn).
    destruct (chat_or_cancel E _ _ _) as [[w b] r]. cbn [fst snd] in *.
    destruct (still_world w s1 (fun _ => Hw) A1) as (A2 & C2 & B2).
    destruct (merge_delta_still (budget s) b (set_world w s1) Ht Hn A2) as (A3 & C3 & B3). split_and!; congruence.
  - pose proof (solo_chat HS ms (without_sub_agents (budget s)) (world s1) (alone_world _ A1)) as (Hw & Ht & Hn).
    destruct (chat E _ _ _) as [[w b] r]. cbn [fst snd] in *.
    destruct (still_world w s1 (fun _ => Hw) A1) as (A2 & C2 & B2).
    destruct (merge_delta_still (budget s) b (set_world w s1) Ht Hn A2) as (A3 & C3 & B3). split_and!; congruence.
Qed.

Lemma spawn_tool_still tc s : still s (spawn_tool E tc s).
Proof.
  unfold spawn_tool. transitivity (did (Executed tc) s); [apply still_did|]. apply still_world. apply (solo_start HS).
Qed.

Lemma cancel_tool_still tc s : still s (cancel_tool E tc s).
Proof. apply still_world. intros Hw. destruct (waits_for_runtime_cancellation _ _); [by apply (solo_await HS)|by apply (solo_abort HS)]. Qed.

Lemma await_tool_still tc : moves still (await_tool E tc).
Proof.
  intros s. unfold await_tool. destruct (negb _).
  - pose proof (solo_join HS tc (world s)). destruct (join E tc _) as [w j]. by apply still_world.
  - destruct (cancel_signalled _); [apply cancel_tool_still|].
    pose proof (solo_join_or_cancel HS tc (world s)). destruct (join_or_cancel E tc _) as [w [j|]]; cbn [fst] in *; [by apply still_world|].
    transitivity (set_world w s); [by apply still_world|apply cancel_tool_still].
Qed.

Lemma await_tool_approval_still tc : moves still (await_tool_approval E tc).
Proof.
  intros s. unfold await_tool_approval. destruct (_ || _); [cbn; reflexivity|]. destruct (is_cancelled s); [cbn; reflexivity|].
  pose proof (solo_approvals HS tc (world s)). destruct (approvals E tc _) as [w ev]. by apply still_world.
Qed.
Hint Resolve check_pending_still call_provider_still spawn_tool_still await_tool_still await_tool_approval_still : loop.

Lemma journal_tool_call_still tc : moves still (journal_tool_call E tc).
Proof. unfold journal_tool_call. solve_still. Qed.
Lemma finish_tool_call_still tc r : moves still (finish_tool_call E tc r).
Proof. unfold finish_tool_call. solve_still. Qed.
Lemma live_result_still tc : moves still (live_result E tc).
Proof. unfold live_result, execute_one. solve_still. Qed.
Hint Resolve journal_tool_call_still finish_tool_call_still live_result_still : loop.

(** ** What a successful live turn leaves *)

(** The effects of answering [calls] one by one: a call may have been denied instead of run. *)
Inductive called_back : list ToolCallMessage -> list Effect -> list Message -> Prop :=
| back_nil : called_back [] [] []
| back_cons tc r ran calls t ms :
    ran = [] \/ ran = [Executed tc] -> called_back calls t ms ->
    called_back (tc :: calls)
      (Appended (tool_call_entry E tc) :: ran ++ Appended (tool_result_entry tc r) :: t)
      (tool_message tc r :: ms).

Lemma still_Ok {A} (m : L A) s s' r : moves still m -> m s = (s', r) -> alone s ->
  alone s' /\ config s' = config s /\ counts (budget s') = counts (budget s).
Proof. intros Hm Hr. specialize (Hm s). by rewrite Hr in Hm. Qed.

Lemma journal_entry_Ok kind s s' : journal_entry E kind s = (s', Ok tt) -> trace s' = trace s ++ [Appended kind].
Proof.
  intros Hj. destruct (journal_entry_cases E kind s) as (s1 & [[E1 Ht]|(e & E1 & _)]); rewrite E1 in Hj; [|discriminate].
  by injection Hj as <-.
Qed.

Lemma modify_Ok {A} f (k : unit -> L A) s s' r : se_bind (se_modify f) k s = (s', r) -> k tt (f s) = (s', r).
Proof. done. Qed.

Lemma live_result_trace tc s s' r : live_result E tc s = (s', Ok r) ->
  exists ran, (ran = [] \/ ran = [Executed tc]) /\ trace s' = trace s ++ ran.
Proof.
  unfold live_result. intros (d & s1 & Hd & Hr)%bind_Ok.
  pose proof (emits_nothing _ s (await_tool_approval_silent E tc)) as T1. rewrite Hd in T1. cbn in T1.
  destruct d.
  - unfold execute_one in Hr. apply bind_Ok in Hr as ([] & s2 & [= <-] & Hr).
    pose proof (emits_nothing _ (spawn_tool E tc s1) (await_tool_silent E tc)) as T2. rewrite Hr in T2. cbn [fst] in T2.
    exists [Executed tc]. split; [by right|]. by rewrite T2, spawn_tool_trace, T1.
  - injection Hr as <- _. exists []. split; [by left|]. by rewrite app_nil_r.
Qed.

Lemma take_replay_live (tc : ToolCallMessage) s s' o : take_replay_tool_result E (tc_id tc) (tc_name tc) s = (s', o) -> replay s = None ->
  s' = set_replay None s /\ o = Ok None.
Proof. unfold take_replay_tool_result, on_replay. intros Ho Hr. rewrite Hr in Ho. cbn in Ho. by injection Ho as <- <-. Qed.

Lemma set_replay_alone s : alone s -> set_replay None s = s.
Proof. intros []. destruct s. cbn in *. by subst. Qed.

Lemma serial_call_live tc s s' m : alone s -> serial_call E tc s = (s', Ok m) ->
  alone s' /\ config s' = config s /\ counts (budget s') = counts (budget s) /\
  exists r ran, (ran = [] \/ ran = [Executed tc]) /\ m = tool_message tc r /\
    trace s' = trace s ++ Appended (tool_call_entry E tc) :: ran ++ [Appended (tool_result_entry tc r)].
Proof.
  intros A. unfold serial_call. intros ([] & s1 & Hj & (o & s2 & Ho & (r & s3 & Hl & Hf)%bind_Ok)%bind_Ok)%bind_Ok.
  destruct (still_Ok _ _ _ _ (journal_tool_call_still tc) Hj A) as (A1 & C1 & B1).
  assert (trace s1 = trace s ++ [Appended (tool_call_entry E tc)]) as T1.
  { unfold journal_tool_call in Hj. apply bind_Ok in Hj as ([] & s0 & Hj%journal_entry_Ok & Hc). rewrite <- Hj.
    pose proof (emits_nothing _ s0 (consume_silent E (tool_call_entry E tc))) as T. by rewrite Hc in T. }
  apply take_replay_live in Ho as [-> [= ->]]; [|apply A1]. rewrite (set_replay_alone _ A1) in Hl.
  destruct (still_Ok _ _ _ _ (live_result_still tc) Hl A1) as (A2 & C2 & B2).
  destruct (still_Ok _ _ _ _ (finish_tool_call_still tc r) Hf A2) as (A3 & C3 & B3).
  apply live_result_trace in Hl as (ran & Hran & T2). unfold finish_tool_call in Hf.
  apply bind_Ok in Hf as ([] & s4 & Hj4%journal_entry_Ok & [= <- <-]). split_and!; [done|congruence..|].
  exists r, ran. split_and!; [done..|]. by rewrite Hj4, T2, T1, <- !app_assoc.
Qed.

Lemma serial_calls_live calls s s' ms : alone s -> se_map (serial_call E) calls s = (s', Ok ms) ->
  alone s' /\ config s' = config s /\ counts (budget s') = counts (budget s) /\
  exists t, called_back calls t ms /\ trace s' = trace s ++ t.
Proof.
  revert s ms. induction calls as [|tc calls IH]; intros s ms A; cbn [se_map].
  - intros [= <- <-]. split_and!; [done..|]. exists []. rewrite app_nil_r. split; [constructor|done].
  - intros (m & s1 & Hm & (ms' & s2 & Hms & [= <- <-])%bind_Ok)%bind_Ok.
    destruct (serial_call_live tc _ _ _ A Hm) as (A1 & C1 & B1 & r & ran & Hran & -> & T1).
    destruct (IH _ _ A1 Hms) as (A2 & C2 & B2 & t & Hb & T2). split_and!; [done|congruence..|].
    eexists. split; [by apply (back_cons tc r ran)|]. by rewrite T2, T1, <- !app_assoc; cbn; rewrite <- app_assoc.
Qed.

Lemma dispatch_live calls s s' ms : alone s -> dispatch_tool_calls E calls s = (s', Ok ms) ->
  alone s' /\ config s' = config s /\ counts (budget s') = counts (budget s) /\
  exists t, called_back calls t ms /\ trace s' = trace s ++ t.
Proof.
  intros A. unfold dispatch_tool_calls. intros (s0 & s1 & [= <- <-] & Hr)%bind_Ok.
  assert (supports_parallel_batch E calls = false) as Hp.
  { unfold supports_parallel_batch. destruct calls as [|tc [|tc' calls]]; [done..|]. cbn. by rewrite serial. }
  rewrite Hp, andb_false_r in Hr. by apply serial_calls_live.
Qed.

(** The charge of a turn, on the counts. *)
Definition charged (u : TokenUsage) (c : N * N * N * N) : N * N * N * N :=
  let '(mt, mn, ut, un) := c in (mt, mn, saturating_add ut (total_tokens u), ((un + 1) mod 2 ^ 32)%N).

Definition finished (resp : @ProviderResponse Value) (results : list Message) : @TurnExecution Value :=
  {| turn_result := match tool_calls (response_message resp) with
                    | [] => TurnComplete (response_message resp) (finish_reason resp)
                    | _ => ToolCallsProcessed (response_message resp) results
                    end;
     turn_usage := response_usage resp; turn_exhausted := None |}.

Lemma charge_alone u s : alone s ->
  alone (set_budget (charge_turn u (budget s)) s) /\
  counts (budget (set_budget (charge_turn u (budget s)) s)) = charged u (counts (budget s)).
Proof.
  intros []. split; [|done]. split; cbn [replay pipeline world budget set_budget set_state charge_turn used_tokens used_turns]; try done.
  - unfold saturating_add. lia.
  - unfold u32_max. pose proof (N.mod_lt (used_turns (budget s) + 1) (2 ^ 32) ltac:(done)). lia.
Qed.

Lemma merge_mirror_alone b s : alone s -> merge_budget_into_mirror b s = sync_turn_mirror s.
Proof. intros [? ? [Hm _] ? ?]. unfold merge_budget_into_mirror. by rewrite Hm. Qed.

Lemma sync_still s : still s (sync_turn_mirror s).
Proof. apply still_world. by intros []. Qed.

Lemma finish_turn_live before resp s s' t : alone s -> finish_turn E before resp s = (s', Ok t) ->
  alone s' /\ config s' = config s /\ counts (budget s') = charged (response_usage resp) (counts (budget s)) /\
  exists results tr, called_back (tool_calls (response_message resp)) tr results /\ t = finished resp results /\
    trace s' = trace s ++ Appended (response_entry resp) :: tr /\
    transcript s' = transcript s ++ response_message resp :: results.
Proof.
  intros A. unfold finish_turn. intros ([] & s1 & Ha & ([] & s2 & Hj & Hr)%bind_Ok)%bind_Ok.
  apply modify_Ok, modify_Ok, modify_Ok in Hr.
  apply run_llm_after_still in Ha as ->; [|apply A].
  destruct (still_Ok _ _ _ _ (journal_entry_still _) Hj A) as (A2 & C2 & B2).
  pose proof (same_Ok _ _ _ _ (journal_entry_same E _) Hj) as M2. apply journal_entry_Ok in Hj as T2.
  destruct (charge_alone (response_usage resp) s2 A2) as [A3 B3]. cbv beta in Hr. set (s3 := set_budget _ s2) in *.
  rewrite (merge_mirror_alone _ _ A3) in Hr. destruct (sync_still s3 A3) as (A4 & C4 & B4).
  destruct (still_transcript (transcript (sync_turn_mirror s3) ++ [response_message resp]) _ A4) as (A5 & C5 & B5).
  set (s5 := set_transcript _ _) in *.
  assert (trace s5 = trace s ++ [Appended (response_entry resp)]) as T5 by exact T2.
  assert (transcript s5 = transcript s ++ [response_message resp]) as M5 by (rewrite <- M2; reflexivity).
  assert (config s5 = config s) as C5' by (rewrite C5, C4; exact C2).
  assert (counts (budget s5) = charged (response_usage resp) (counts (budget s))) as B5' by (rewrite B5, B4, B3; by rewrite B2).
  clearbody s5. unfold finished. destruct (tool_calls (response_message resp)) as [|tc calls] eqn:Ec.
  - apply bind_Ok in Hr as ([] & s6 & Hk & [= <- <-]).
    destruct (still_Ok _ _ _ _ check_pending_still Hk A5) as (A6 & C6 & B6).
    pose proof (same_Ok _ _ _ _ check_pending_same Hk) as M6.
    pose proof (emits_nothing _ s5 check_pending_silent) as T6. rewrite Hk in T6. cbn in T6.
    split_and!; [done|congruence..|]. exists [], []. split_and!; [constructor|done|by rewrite T6, T5|by rewrite M6, M5].
  - apply bind_Ok in Hr as (results & s6 & Hd & ([] & s7 & Hk & ([] & s8 & [= <-] & ([] & s9 & Hk' & [= <- <-])%bind_Ok)%bind_Ok)%bind_Ok).
    pose proof (same_Ok _ _ _ _ (dispatch_same E _) Hd) as M6.
    destruct (dispatch_live _ _ _ _ A5 Hd) as (A6 & C6 & B6 & tr & Hb & T6).
    destruct (still_Ok _ _ _ _ check_pending_still Hk A6) as (A7 & C7 & B7).
    pose proof (same_Ok _ _ _ _ check_pending_same Hk) as M7.
    pose proof (emits_nothing _ s6 check_pending_silent) as T7. rewrite Hk in T7. cbn in T7.
    destruct (still_transcript (transcript s7 ++ results) _ A7) as (A8 & C8 & B8). set (s8 := set_transcript _ s7) in *.
    destruct (still_Ok _ _ _ _ check_pending_still Hk' A8) as (A9 & C9 & B9).
    pose proof (same_Ok _ _ _ _ check_pending_same Hk') as M9.
    pose proof (emits_nothing _ s8 check_pending_silent) as T9. rewrite Hk' in T9. cbn in T9.
    split_and!; [done|congruence..|]. exists results, tr. split_and!; [done..| |].
    + rewrite T9, T7, T6, T5, <- app_assoc. done.
    + rewrite M9. cbn. by rewrite M7, M6, M5, <- app_assoc.
Qed.

(** A turn from its start to the end of its calls. *)
Record turn_left s s' (t : @TurnExecution Value) (resp : @ProviderResponse Value) (results : list Message)
    (tr : list Effect) : Prop := {
  left_alone : alone s';
  left_config : config s' = config s;
  left_counts : counts (budget s') = charged (response_usage resp) (counts (budget s));
  left_checked : check_budget (without_sub_agents (budget s)) = Ok tt;
  left_enforced : enforce_tool_calls_require_tool_use_finish resp = resp;
  left_results : called_back (tool_calls (response_message resp)) tr results;
  left_finished : t = finished resp results;
  left_transcript : transcript s' = transcript s ++ response_message resp :: results;
  left_trace : let ms := compact_messages E (transcript s) (context_limit s) in
    trace s' = trace s ++ Appended TurnStart :: Appended (LlmRequest (loop_model (config s)) (N.of_nat (length ms))) ::
      Called ms :: Appended (response_entry resp) :: tr;
}.

Definition not_cut (t : @TurnExecution Value) : Prop :=
  match turn_result t with TurnComplete _ _ | ToolCallsProcessed _ _ => True | _ => False end.

Lemma enforce_idem (r : @ProviderResponse Value) :
  enforce_tool_calls_require_tool_use_finish (enforce_tool_calls_require_tool_use_finish r)
  = enforce_tool_calls_require_tool_use_finish r.
Proof.
  unfold enforce_tool_calls_require_tool_use_finish. destruct (bool_decide (finish_reason r = ToolUse)) eqn:Eb.
  - by rewrite Eb.
  - destruct (tool_calls (response_message r)) eqn:Ec; [by rewrite Eb, Ec|]. cbn. by rewrite Eb.
Qed.

(** Silent steps keep everything the turn depends on. *)
Record quiet_step s s' : Prop := {
  quiet_alone : alone s';
  quiet_config : config s' = config s;
  quiet_counts : counts (budget s') = counts (budget s);
  quiet_transcript : transcript s' = transcript s;
}.

Lemma quiet_run {A} (m : L A) s s' r : moves still m -> moves same_transcript m -> m s = (s', r) -> alone s -> quiet_step s s'.
Proof. intros Hs Ht Hr A1. destruct (still_Ok _ _ _ _ Hs Hr A1) as (?&?&?). split; try done. by eapply same_Ok. Qed.

Lemma quiet_trans s1 s2 s3 : quiet_step s1 s2 -> quiet_step s2 s3 -> quiet_step s1 s3.
Proof. intros [] []. split; congruence. Qed.

Lemma context_limit_eq s s' : config s' = config s -> counts (budget s') = counts (budget s) -> context_limit s' = context_limit s.
Proof. unfold context_limit. intros -> (-> & _ & -> & _)%counts_eq. done. Qed.

Lemma provider_outcome_live ms s s' o : alone s -> provider_outcome E ms s = (s', Ok o) ->
  quiet_step s s' /\ trace s' = trace s ++ [Called ms].
Proof.
  intros A. unfold provider_outcome, se_bind, has_replay. rewrite (alone_replay _ A). cbn [has_replay_entry]. unfold se_try.
  pose proof (call_provider_trace E ms s) as Ht. destruct (call_provider E ms s) as [s1 r] eqn:Ec. intros [= <- _].
  split; [|done]. eapply quiet_run; [apply call_provider_still|apply call_provider_same|done|done].
Qed.

Lemma model_step_live s s' t : alone s -> check_budget (without_sub_agents (budget s)) = Ok tt ->
  model_step E s = (s', Ok t) -> not_cut t -> exists resp results tr, turn_left s s' t resp results tr.
Proof.
  intros A Hb. unfold model_step. intros ([] & s1 & Hj & ([] & s2 & Hc & (sg & s3 & [= <- <-] & Hr)%bind_Ok)%bind_Ok)%bind_Ok Ht.
  cbv zeta in Hr. apply bind_Ok in Hr as ([] & s3 & Hj' & ([] & s4 & Hc' & ([] & s5 & Hh & (sg & s6 & [= <- <-] & Hr)%bind_Ok)%bind_Ok)%bind_Ok).
  pose proof (quiet_run _ _ _ _ (journal_entry_still _) (journal_entry_same E _) Hj A) as Q1.
  pose proof (quiet_run _ _ _ _ (consume_still _) (consume_same E _) Hc (quiet_alone _ _ Q1)) as Q2.
  pose proof (quiet_trans _ _ _ Q1 Q2) as Q. clear Q1 Q2.
  pose proof (quiet_run _ _ _ _ (journal_entry_still _) (journal_entry_same E _) Hj' (quiet_alone _ _ Q)) as Q1.
  pose proof (quiet_run _ _ _ _ (consume_still _) (consume_same E _) Hc' (quiet_alone _ _ Q1)) as Q2.
  pose proof (quiet_trans _ _ _ Q (quiet_trans _ _ _ Q1 Q2)) as Q'. clear Q1 Q2.
  apply run_llm_before_still in Hh as ->; [|apply Q'].
  apply journal_entry_Ok in Hj. apply journal_entry_Ok in Hj'.
  pose proof (emits_nothing _ s1 (consume_silent E TurnStart)) as T2. rewrite Hc in T2. cbn [fst] in T2.
  match type of Hc' with consume_replay_entry _ ?k _ = _ => pose proof (emits_nothing _ s3 (consume_silent E k)) as T4 end.
  rewrite Hc' in T4. cbn [fst] in T4.
  set (ms := compact_messages E (transcript s2) (context_limit s2)) in *.
  assert (ms = compact_messages E (transcript s) (context_limit s)) as Ems.
  { unfold ms. by rewrite (quiet_transcript _ _ Q), (context_limit_eq s s2) by apply Q. }
  clearbody ms. subst ms. rewrite (quiet_config _ _ Q) in *.
  destruct (_ && _); [injection Hr as _ <-; done|].
  apply bind_Ok in Hr as (o & s6 & Ho & ([] & s7 & Hk & (o' & s8 & Hl & Hr)%bind_Ok)%bind_Ok).
  apply provider_outcome_live in Ho as [Q6 T6]; [|apply Q'].
  pose proof (quiet_run _ _ _ _ check_pending_still check_pending_same Hk (quiet_alone _ _ Q6)) as Q7.
  pose proof (emits_nothing _ s6 check_pending_silent) as T7. rewrite Hk in T7. cbn [fst] in T7.
  injection Hl as <- ->. pose proof (quiet_trans _ _ _ Q' (quiet_trans _ _ _ Q6 Q7)) as Q8. clear Q Q' Q6 Q7.
  destruct o' as [r|]; [|injection Hr as _ <-; done].
  apply finish_turn_live in Hr as (A' & C' & B' & results & tr & Hback & -> & T & M); [|apply Q8].
  eexists _, results, tr. split; try done.
  - rewrite C'. apply Q8.
  - by rewrite B', (quiet_counts _ _ Q8).
  - apply enforce_idem.
  - by rewrite M, (quiet_transcript _ _ Q8).
  - cbv zeta. by rewrite T, T7, T6, T4, Hj', T2, Hj, <- !app_assoc.
Qed.

Lemma check_pending_budget s s' r : check_pending_spawn_hook_kill s = (s', r) -> budget s' = budget s.
Proof.
  unfold check_pending_spawn_hook_kill, check_signal, se_bind, se_get, se_modify, se_err. cbn.
  repeat (case_match; simplify_eq/=; try done; try (by intros [= <- _])).
Qed.

Lemma drain_alone s : alone s -> drain_input_queue s = s.
Proof. intros [? ? [_ Hq] ? ?]. unfold drain_input_queue. by rewrite Hq. Qed.

Lemma refresh_alone s : alone s -> refresh_budget_from_mirror s = sync_turn_mirror s.
Proof. intros [? ? [Hm _] ? ?]. unfold refresh_budget_from_mirror. by rewrite Hm. Qed.

Lemma live_turn s s' t : alone s -> execute_turn E s = (s', Ok t) -> not_cut t ->
  exists resp results tr, turn_left s s' t resp results tr.
Proof.
  intros A. unfold execute_turn. intros ([] & s1 & Hk & (sg & s2 & [= <- <-] & Hr)%bind_Ok)%bind_Ok Ht.
  pose proof (quiet_run _ _ _ _ check_pending_still check_pending_same Hk A) as Q.
  pose proof (emits_nothing _ s check_pending_silent) as T1. rewrite Hk in T1. cbn [fst] in T1.
  destruct (is_cancelled s1); [injection Hr as _ <-; done|].
  apply modify_Ok in Hr. rewrite drain_alone in Hr by apply Q. apply modify_Ok in Hr. rewrite refresh_alone in Hr by apply Q.
  apply bind_Ok in Hr as (sg & s3 & [= <- <-] & Hr).
  pose proof (sync_still s1 (quiet_alone _ _ Q)) as (A2 & C2 & B2). set (s2 := sync_turn_mirror s1) in *.
  assert (trace s2 = trace s) as T2 by exact T1. assert (transcript s2 = transcript s) as M2 by apply Q.
  rewrite (quiet_config _ _ Q) in C2. rewrite (quiet_counts _ _ Q) in B2. assert (budget s2 = budget s1) as B2' by done.
  destruct (check_budget _) as [[]|] eqn:Eb; [|injection Hr as _ <-; done].
  assert (budget s1 = budget s) as B1 by (by eapply check_pending_budget). clearbody s2.
  destruct (model_step_live s2 s' t A2 Eb Hr Ht) as (resp & results & tr & []).
  exists resp, results, tr. split; try done; try congruence.
  - cbv zeta in *. by rewrite left_trace0, M2, C2, T2, (context_limit_eq s s2 C2 B2).
Qed.
End Live.

(** ** The record of a run *)

Definition is_append {Value} (e : @Effect Value) : bool := match e with Appended _ => true | _ => false end.

Definition is_checkpoint {Value} (kind : JournalEntryKind Value) : bool :=
  match kind with Checkpoint _ => true | _ => false end.

(** What may stand in the journal between a call and its result. *)
Definition nested_in {Value} (tc : @ToolCallMessage Value) (kind : JournalEntryKind Value) : Prop :=
  nested_entry kind = true /\ is_result_of (tc_id tc) (tc_name tc) kind = false /\ is_checkpoint kind = false.

(** The journal of a trace: the loop's own entries, and inside a tool's run what the tool journaled. *)
Inductive recording {Value} : list (@Effect Value) -> list (JournalEntryKind Value) -> Prop :=
| recording_nil : recording [] []
| recording_appended kind t ks : recording t ks -> recording (Appended kind :: t) (kind :: ks)
| recording_called ms t ks : recording t ks -> recording (Called ms :: t) ks
| recording_executed tc nested t ks : Forall (nested_in tc) nested -> recording t ks ->
    recording (Executed tc :: t) (nested ++ ks).

Section Replaying.
Context {Value Decimal W X : Type} `{DecimalOps Decimal} `{DecimalArith Decimal}.
Context (to_vec : CheckpointData Value Decimal -> result str str).
Notation Store := (@InMemoryJournalStorage Value).
#[local] Instance store : JournalStorage Value Decimal Store := memory_journal to_vec.
Notation Kind := (JournalEntryKind Value).
Notation Message := (@Message Value).
Notation ToolCallMessage := (@ToolCallMessage Value).
Notation Effect := (@Effect Value).
Notation AgentLoop := (@AgentLoop Value Decimal Store W X).
Notation L := (@L Value Decimal Store W X).
Context (E : @Env Value Decimal Store W X) (eqb_refl : forall v, value_eqb E v v = true).
Implicit Types s : AgentLoop.

(** Every run of [m] from [s] ends without an error, in [P]. *)
Definition wp {A} (m : L A) s (P : A -> AgentLoop -> Prop) : Prop :=
  match m s with (s', Ok a) => P a s' | (_, Err _) => False end.

Lemma wp_bind {A B} (m : L A) (k : A -> L B) s P : wp m s (fun a s' => wp (k a) s' P) -> wp (se_bind m k) s P.
Proof. unfold wp, se_bind. by destruct (m s) as [s1 [a|e]]. Qed.

Lemma wp_mono {A} (m : L A) s (P Q : A -> AgentLoop -> Prop) : wp m s P -> (forall a s', P a s' -> Q a s') -> wp m s Q.
Proof. unfold wp. destruct (m s) as [s1 [a|e]]; auto. Qed.

Lemma wp_try {A} (m : L A) s (P : result A RuntimeError -> AgentLoop -> Prop) :
  wp m s (fun a s' => P (Ok a) s') -> wp (se_try m) s P.
Proof. unfold wp, se_try. by destruct (m s) as [s1 [a|e]]. Qed.

Definition no_kill (e : JournalEntry Value) : Prop := match entry e with HookKill _ _ _ => False | _ => True end.

Definition agent_log s : list (JournalEntry Value) := log (loop_agent (config s)) (journal (world s)).

(** A loop whose record holds [ks] next, with nothing from outside to stop it. *)
Record ready (ks : list Kind) s : Prop := {
  ready_pipeline : pipeline s = None;
  ready_cancel : cancel_signalled (world s) = false;
  ready_kill : kill_decision (world s) = None;
  ready_mirror : budget_mirror (world s) = None;
  ready_queue : input_queue (world s) = None;
  ready_store : Forall supported (journal (world s));
  ready_frontier : match spawn_hook_journal_frontier s with
                   | Some f => (f <= length (agent_log s))%nat /\ Forall no_kill (skipn f (agent_log s))
                   | None => True
                   end;
  ready_feed : exists it, replay s = Some it /\ schema_mismatch it = None /\
                 List.map entry (skipn (cursor it) (recorded it)) = ks;
}.

(** [s'] comes after [s] and the effects [t]; only the journal and the record moved. *)
Record after s (t : list Effect) s' : Prop := {
  after_config : config s' = config s;
  after_budget : budget s' = budget s;
  after_transcript : transcript s' = transcript s;
  after_trace : trace s' = trace s ++ t;
}.

Lemma after_refl s : after s [] s.
Proof. split; try done. by rewrite app_nil_r. Qed.

Lemma after_trans s1 s2 s3 t u : after s1 t s2 -> after s2 u s3 -> after s1 (t ++ u) s3.
Proof. intros [] []. split; try congruence. by rewrite after_trace1, after_trace0, app_assoc. Qed.

(** [m] gives [a], leaving [ks] of the record and [t] on the trace. *)
Definition gives {A} (m : L A) s (a : A) ks t : Prop := wp m s (fun x s' => x = a /\ ready ks s' /\ after s t s').

Lemma gives_bind {A B} (m : L A) (k : A -> L B) s a ks t P :
  gives m s a ks t -> (forall s', ready ks s' -> after s t s' -> wp (k a) s' P) -> wp (se_bind m k) s P.
Proof. intros Hm Hk. apply wp_bind. eapply wp_mono; [exact Hm|]. intros ? s' (-> & Hr & Ha). by apply Hk. Qed.

Lemma gives_then {A B} (m : L A) (k : A -> L B) s a ks t b ks' u :
  gives m s a ks t -> (forall s', ready ks s' -> gives (k a) s' b ks' u) -> gives (se_bind m k) s b ks' (t ++ u).
Proof.
  intros Hm Hk. eapply gives_bind; [exact Hm|]. intros s' Hr Ha. eapply wp_mono; [by apply Hk|].
  intros ? s2 (-> & Hr2 & Ha2). split_and!; [done..|]. by eapply after_trans.
Qed.

Lemma gives_ret {A} (a : A) s ks : ready ks s -> gives (se_ret a) s a ks [].
Proof. intros Hr. split_and!; [done..|apply after_refl]. Qed.

Lemma gives_mono {A} (m : L A) s a ks t u : gives m s a ks t -> t = u -> gives m s a ks u.
Proof. by intros ? ->. Qed.

(** *** The store *)

Lemma log_append a (es : list (JournalEntry Value)) e : agent_id e = a -> log a (es ++ [e]) = log a es ++ [e].
Proof. intros <-. unfold log, is_agent. rewrite List.filter_app. cbn. by rewrite str_eqb_refl. Qed.

Lemma append_gives kind s ks : ready ks s -> (forall a b c, kind <> HookKill a b c) ->
  gives (journal_entry E kind) s tt ks [Appended kind].
Proof.
  intros [] Hk. unfold gives, wp, journal_entry, Journal.journal_entry.
  cbn [journal_append store memory_journal append validate_schema_version schema_version].
  unfold append, validate_schema_version. cbn [schema_version].
  rewrite N.eqb_refl. cbn. split; [done|]. split; [|by split].
  split; cbn -[log]; try done.
  - apply Forall_app. split; [done|]. by constructor.
  - unfold agent_log in *. cbn -[log]. destruct (spawn_hook_journal_frontier s) as [f|]; [|done].
    destruct ready_frontier0 as [Hf Hn]. rewrite log_append by done. rewrite length_app. split; [lia|].
    rewrite drop_app_le by done. apply Forall_app. split; [done|].
    constructor; [|done]. unfold no_kill. cbn. destruct kind; try done. by eapply Hk.
Qed.

Lemma read_all_log a (es : list (JournalEntry Value)) : Forall supported es -> read_all es a = Ok (log a es).
Proof. intros Hs. by apply validated_supported, Forall_log. Qed.

Lemma read_from_log a (es : list (JournalEntry Value)) f : Forall supported es -> (f <= length (log a es))%nat ->
  read_from es a f = Ok (skipn f (log a es)).
Proof.
  intros Hs Hf. unfold read_from. pose proof (read_all_log a es Hs) as Ha. unfold read_all in Ha. rewrite Ha.
  destruct (Nat.ltb_spec (length (log a es)) f); [lia|done].
Qed.

Lemma no_spawn_kill (es : list (JournalEntry Value)) : Forall no_kill es -> find_spawn_kill es = None.
Proof. induction 1 as [|e es He _ IH]; [done|]. cbn. unfold no_kill in He. by destruct (entry e). Qed.

Lemma check_pending_gives s ks : ready ks s -> gives check_pending_spawn_hook_kill s tt ks [].
Proof.
  intros []. unfold gives, wp, check_pending_spawn_hook_kill, check_signal, se_bind, se_get, se_modify. rewrite ready_kill0.
  pose proof (read_all_log (loop_agent (config s)) _ ready_store0) as Ha. unfold agent_log in *.
  destruct (spawn_hook_journal_frontier s) as [f|] eqn:Ef; cbn [journal_read_from journal_read_all store memory_journal].
  - destruct ready_frontier0 as [Hf Hn]. rewrite read_from_log by done. cbv beta iota.
    rewrite no_spawn_kill by done. cbn -[log]. rewrite ready_kill0. split; [done|]. split; [|split; try done; cbn; by rewrite app_nil_r].
    split; cbn -[log]; try done. unfold agent_log. cbn -[log]. rewrite length_skipn, skipn_all2 by (rewrite ?length_skipn; lia). split; [lia|constructor].
  - rewrite Ha. cbn -[log]. split; [done|]. split; [|split; try done; cbn; by rewrite app_nil_r].
    split; cbn -[log]; try done. unfold agent_log. cbn -[log]. rewrite skipn_all. split; [lia|constructor].
Qed.

(** *** Taking from the record *)

Definition feeds (it : JournalReplayIterator Value) (ks : list Kind) : Prop :=
  schema_mismatch it = None /\ List.map entry (skipn (cursor it) (recorded it)) = ks.

Lemma ready_feeds s ks : ready ks s -> exists it, replay s = Some it /\ feeds it ks.
Proof. intros []. destruct ready_feed0 as (it & ? & ? & ?). by exists it. Qed.

Lemma feeds_cons it k ks : feeds it (k :: ks) -> next_of (Some it) = (Some (advanced it 1), Some k) /\ feeds (advanced it 1) ks.
Proof.
  intros [Hm Hs]. destruct (skipn _ _) as [|e post] eqn:Ep; [done|]. injection Hs as <- <-.
  destruct (next_at it e post Hm Ep) as [-> Hp]. split; [done|]. split; [done|]. exact (f_equal (List.map entry) Hp).
Qed.

Lemma feeds_more it k ks : feeds it (k :: ks) -> has_replay_entry (Some it) = true.
Proof.
  intros [Hm Hs]. unfold has_replay_entry, at_frontier. rewrite Hm. apply negb_true_iff, Nat.leb_gt.
  apply (f_equal length) in Hs. rewrite length_map, length_skipn in Hs. cbn in Hs. lia.
Qed.

Lemma ready_more s k ks : ready (k :: ks) s -> has_replay_entry (replay s) = true.
Proof. intros (it & -> & Hf)%ready_feeds. by eapply feeds_more. Qed.

Lemma fed s ks ks' it : ready ks s -> feeds it ks' -> ready ks' (set_replay (Some it) s) /\ after s [] (set_replay (Some it) s).
Proof.
  intros [] [Hm Hf]. split; [split; try done; by exists it|]. split; try done. cbn. by rewrite app_nil_r.
Qed.

Lemma consume_gives expected actual s ks : ready (actual :: ks) s ->
  replay_entries_match (value_eqb E) expected actual = true -> gives (consume_replay_entry E expected) s tt ks [].
Proof.
  intros Hr Hm. destruct (ready_feeds _ _ Hr) as (it & Er & Hf). destruct (feeds_cons _ _ _ Hf) as [Hn Hf'].
  unfold gives, wp, consume_replay_entry, on_replay, Journal.consume_replay_entry.
  rewrite Er, (feeds_more _ _ _ Hf), Hn, Hm. cbn. split; [done|]. by eapply fed.
Qed.

Lemma take_entry_gives k s ks : ready (k :: ks) s -> gives (on_replay take_replay_entry) s k ks [].
Proof.
  intros Hr. destruct (ready_feeds _ _ Hr) as (it & Er & Hf). destruct (feeds_cons _ _ _ Hf) as [Hn Hf'].
  unfold gives, wp, on_replay, take_replay_entry. rewrite Er, Hn. cbn. split; [done|]. by eapply fed.
Qed.

Lemma map_entry_app (es : list (JournalEntry Value)) ks k rest :
  List.map entry es = ks ++ k :: rest ->
  exists pre e post, es = pre ++ e :: post /\ List.map entry pre = ks /\ entry e = k /\ List.map entry post = rest.
Proof.
  intros Hm. apply map_eq_app in Hm as (pre & l & -> & <- & Hl). destruct l as [|e post]; [done|]. injection Hl as <- <-.
  by exists pre, e, post.
Qed.

Lemma scan_found id name pre (e : JournalEntry Value) post off :
  Forall (passed_over id name) pre -> is_result_of id name (entry e) = true ->
  scan id name (pre ++ e :: post) off = inl (off + length pre)%nat.
Proof.
  intros Hp He. revert off. induction Hp as [|x pre [Hn Hx] _ IH]; intros off; cbn [app scan length].
  - rewrite He. f_equal. lia.
  - rewrite Hx, Hn, IH. f_equal. lia.
Qed.

Lemma take_result_gives (tc : ToolCallMessage) nested text is_error blocks s ks :
  ready (nested ++ ToolResult (Some (tc_id tc)) (tc_name tc) text is_error blocks :: ks) s -> Forall (nested_in tc) nested ->
  gives (take_replay_tool_result E (tc_id tc) (tc_name tc)) s (Some (text, is_error, blocks)) ks [].
Proof.
  intros Hr Hn. destruct (ready_feeds _ _ Hr) as (it & Er & Hf).
  assert (has_replay_entry (replay s) = true) as Hh by (destruct nested; by eapply ready_more).
  destruct Hf as [Hm Hs]. apply map_entry_app in Hs as (pre & e & post & Es & <- & Ee & Hpost).
  assert (Forall (passed_over (tc_id tc) (tc_name tc)) pre) as Hp.
  { rewrite List.Forall_map in Hn. eapply Forall_impl; [exact Hn|]. by intros x (? & ? & _). }
  assert (is_result_of (tc_id tc) (tc_name tc) (entry e) = true) as He by (rewrite Ee; cbn; by rewrite !str_eqb_refl).
  unfold gives, wp, take_replay_tool_result, on_replay, Journal.take_replay_tool_result. rewrite Hh. cbn [negb]. rewrite Er.
  unfold replay_entries. rewrite Hm, Es, scan_found by done. unfold consume_replay_tool_result_at. cbn [Nat.add].
  erewrite consume_loop_found by done. cbn. split; [done|]. eapply fed; [done|]. split; [done|].
  unfold advanced. cbn. by rewrite <- drop_drop, Es, <- Nat.add_1_r, <- drop_drop, drop_app_length.
Qed.

(** *** Calls *)

Lemma serial_call_gives tc (r : ToolExecutionResult) nested s ks :
  ready (tool_call_entry E tc :: nested ++ tool_result_entry tc r :: ks) s -> Forall (nested_in tc) nested ->
  gives (serial_call E tc) s (tool_message tc r) ks [Appended (tool_call_entry E tc); Appended (tool_result_entry tc r)].
Proof.
  intros Hr Hn. unfold serial_call, journal_tool_call. apply (gives_mono _ _ _ _ (([Appended (tool_call_entry E tc)] ++ []) ++ [] ++ [] ++ [Appended (tool_result_entry tc r)] ++ [])); [|done].
  eapply gives_then.
  { eapply gives_then; [by apply append_gives|]. intros s1 R1. eapply consume_gives; [exact R1|]. cbn. by rewrite !str_eqb_refl, eqb_refl. }
  intros s1 R1. eapply gives_then; [by apply (take_result_gives _ nested (result_content r) (result_is_error r) (result_blocks r))|].
  intros s2 R2. eapply gives_then; [by apply gives_ret|]. intros s3 R3. unfold finish_tool_call.
  eapply gives_then; [by apply append_gives|]. intros s4 R4. by apply gives_ret.
Qed.

(** The entries of the calls come back in order; the tools do not run. *)
Lemma calls_give calls t ms ks s rest : called_back E calls t ms -> recording t ks -> ready (ks ++ rest) s ->
  gives (se_map (serial_call E) calls) s ms rest (List.filter is_append t).
Proof.
  intros Hc. revert ks s. induction Hc as [|tc r ran calls t ms Hran Hc IH]; intros ks s Hrec Hr; cbn [se_map].
  - inversion Hrec; subst. by apply gives_ret.
  - assert (exists nested ks', ks = tool_call_entry E tc :: nested ++ tool_result_entry tc r :: ks' /\
      Forall (nested_in tc) nested /\ recording t ks') as (nested & ks' & -> & Hn & Hrec').
    { inversion Hrec as [|? ? ? H1| |]; subst. destruct Hran as [->| ->]; cbn in H1.
      - inversion H1; subst. by eexists [], _.
      - inversion H1 as [| | |? ? ? ? ? H2]; subst. inversion H2; subst. by eexists _, _. }
    assert (ready (tool_call_entry E tc :: nested ++ tool_result_entry tc r :: (ks' ++ rest)) s) as Hr'.
    { cbn in Hr. by rewrite <- app_assoc in Hr. }
    eapply gives_mono; [eapply gives_then; [eapply serial_call_gives; [exact Hr'|done]|]|].
    + intros s1 R1. eapply gives_then; [by eapply IH|]. intros s2 R2. by apply gives_ret.
    + cbn. rewrite List.filter_app, app_nil_r. by destruct Hran as [->| ->].
Qed.

Lemma dispatch_gives tc calls t ms ks s rest : called_back E (tc :: calls) t ms -> recording t ks -> ready (ks ++ rest) s ->
  gives (dispatch_tool_calls E (tc :: calls)) s ms rest (List.filter is_append t).
Proof.
  intros Hc Hrec Hr. assert (has_replay_entry (replay s) = true) as Hh.
  { inversion Hc; subst. inversion Hrec; subst. by eapply ready_more. }
  unfold dispatch_tool_calls. unfold gives. apply wp_bind. unfold wp at 1, se_get. rewrite Hh, andb_false_r, andb_false_l.
  by eapply calls_give.
Qed.

(** *** A turn *)

Lemma ready_budget b s ks : ready ks s -> ready ks (set_budget b s).
Proof. by intros []. Qed.
Lemma ready_transcript ms s ks : ready ks s -> ready ks (set_transcript ms s).
Proof. by intros []. Qed.
Lemma ready_sync s ks : ready ks s -> ready ks (sync_turn_mirror s).
Proof. by intros []. Qed.
Lemma ready_merge b s ks : ready ks s -> merge_budget_into_mirror b s = sync_turn_mirror s.
Proof. intros []. unfold merge_budget_into_mirror. by rewrite ready_mirror0. Qed.
Lemma ready_refresh s ks : ready ks s -> refresh_budget_from_mirror s = sync_turn_mirror s.
Proof. intros []. unfold refresh_budget_from_mirror. by rewrite ready_mirror0. Qed.
Lemma ready_drain s ks : ready ks s -> drain_input_queue s = s.
Proof. intros []. unfold drain_input_queue. by rewrite ready_queue0. Qed.
Lemma ready_not_cancelled s ks : ready ks s -> is_cancelled s = false.
Proof. intros []. unfold is_cancelled. by rewrite ready_cancel0, andb_false_r. Qed.

(** The limits a replayed turn does not charge. *)
Definition allowance (b : ResourceBudget Decimal) : Decimal * Decimal * (N * N * N * N) :=
  (max_cost b, used_cost b, (max_vfs_bytes b, used_vfs_bytes b, max_fuel b, used_fuel b)).

Lemma allowed b0 b b' : counts b' = counts b -> allowance b' = allowance b0 ->
  check_budget (without_sub_agents b0) = Ok tt -> check_budget (without_sub_agents b) = Ok tt ->
  check_budget (without_sub_agents b') = Ok tt.
Proof.
  unfold counts, allowance. intros [= E1 E2 E3 E4] [= F1 F2 F3 F4 F5 F6]. rewrite !check_budget_Ok. cbn.
  rewrite E1, E2, E3, E4, F1, F2, F3, F4, F5, F6. intros (?&?&?&_&?&?) (?&?&_). split_and!; try done. by left.
Qed.

Record turn_back s resp (results : list Message) (t : list Effect) rest (x : @TurnExecution Value) s' : Prop := {
  back_finished : x = finished resp results;
  back_ready : ready rest s';
  back_config : config s' = config s;
  back_counts : counts (budget s') = charged (response_usage resp) (counts (budget s));
  back_allowance : allowance (budget s') = allowance (budget s);
  back_transcript : transcript s' = transcript s ++ response_message resp :: results;
  back_trace : trace s' = trace s ++ t;
}.

Lemma finish_turn_gives before resp results tr ks rest s :
  called_back E (tool_calls (response_message resp)) tr results -> recording tr ks -> ready (ks ++ rest) s ->
  wp (finish_turn E before resp) s
    (turn_back s resp results (Appended (response_entry resp) :: List.filter is_append tr) rest).
Proof.
  intros Hc Hrec Hr. unfold finish_turn. apply wp_bind. unfold wp at 1, run_llm_after, se_bind at 1, se_get at 1.
  rewrite (ready_pipeline _ _ Hr). cbn [se_ret].
  eapply gives_bind; [by apply append_gives|]. intros s1 R1 A1. apply wp_bind. unfold wp at 1, se_modify at 1.
  pose proof (ready_budget (charge_turn (response_usage resp) (budget s1)) _ _ R1) as R2. set (s2 := set_budget _ s1) in *.
  apply wp_bind. unfold wp at 1, se_modify at 1. rewrite (ready_merge _ _ _ R2).
  apply wp_bind. unfold wp at 1, se_modify at 1. apply ready_sync in R2.
  apply (ready_transcript (transcript (sync_turn_mirror s2) ++ [response_message resp])) in R2.
  set (s3 := set_transcript _ (sync_turn_mirror s2)) in *.
  assert (turn_back s resp [] [Appended (response_entry resp)] (ks ++ rest) (finished resp []) s3) as [].
  { destruct A1. split; try done; cbn; by rewrite <- ?after_budget0, <- ?after_transcript0. }
  clearbody s3. clear s2 R2 s1 R1 A1 Hr. unfold finished.
  destruct (tool_calls (response_message resp)) as [|tc calls] eqn:Ec.
  - inversion Hc; subst. inversion Hrec; subst. eapply gives_bind; [by apply check_pending_gives|].
    intros s4 R4 []. split; try congruence; unfold finished; by rewrite ?Ec, ?after_trace0, ?app_nil_r.
  - eapply gives_bind; [by eapply dispatch_gives|]. intros s4 R4 []. eapply gives_bind; [by apply check_pending_gives|].
    intros s5 R5 []. apply wp_bind. unfold wp at 1, se_modify at 1.
    apply (ready_transcript (transcript s5 ++ results)) in R5. set (s6 := set_transcript _ s5) in *.
    eapply gives_bind; [by apply check_pending_gives|]. intros s7 R7 []. split; try done.
    + unfold finished. by rewrite Ec.
    + cbn in *. congruence.
    + cbn in *. congruence.
    + cbn in *. congruence.
    + rewrite after_transcript2. cbn. by rewrite after_transcript1, after_transcript0, back_transcript0, <- app_assoc.
    + rewrite after_trace2. cbn. by rewrite after_trace1, after_trace0, back_trace0, !app_nil_r, <- app_assoc.
Qed.

Lemma execute_turn_gives resp results tr ks rest s :
  let request := LlmRequest (loop_model (config s)) (N.of_nat (length (compact_messages E (transcript s) (context_limit s)))) in
  check_budget (without_sub_agents (budget s)) = Ok tt -> enforce_tool_calls_require_tool_use_finish resp = resp ->
  called_back E (tool_calls (response_message resp)) tr results -> recording tr ks ->
  ready (TurnStart :: request :: response_entry resp :: ks ++ rest) s ->
  wp (execute_turn E) s (turn_back s resp results
    (Appended TurnStart :: Appended request :: Appended (response_entry resp) :: List.filter is_append tr) rest).
Proof.
  intros request Hb He Hc Hrec Hr. unfold execute_turn. eapply gives_bind; [by apply check_pending_gives|]. intros s1 R1 A1.
  apply wp_bind. unfold wp at 1, se_get at 1. rewrite (ready_not_cancelled _ _ R1).
  apply wp_bind. unfold wp at 1, se_modify at 1. rewrite (ready_drain _ _ R1).
  apply wp_bind. unfold wp at 1, se_modify at 1. rewrite (ready_refresh _ _ R1).
  apply wp_bind. unfold wp at 1, se_get at 1. apply ready_sync in R1. set (s2 := sync_turn_mirror s1) in *.
  assert (after s [] s2) as A2 by (by destruct A1). clearbody s2. clear s1 A1.
  rewrite (after_budget _ _ _ A2), Hb. unfold model_step.
  eapply gives_bind; [by apply append_gives|]. intros s3 R3 A3.
  eapply gives_bind; [by eapply consume_gives|]. intros s4 R4 A4.
  apply wp_bind. unfold wp at 1, se_get at 1. cbv zeta.
  pose proof (after_trans _ _ _ _ _ A2 (after_trans _ _ _ _ _ A3 A4)) as A. clear A2 A3 A4 s2 s3 R1 R3.
  assert (context_limit s4 = context_limit s) as Hl.
  { unfold context_limit. by rewrite (after_budget _ _ _ A), (after_config _ _ _ A). }
  rewrite Hl, (after_transcript _ _ _ A), (after_config _ _ _ A). fold request.
  set (ms := compact_messages E (transcript s) (context_limit s)) in *.
  eapply gives_bind; [by apply append_gives|]. intros s5 R5 A5.
  eapply gives_bind; [eapply consume_gives; [exact R5|]; cbn; by rewrite str_eqb_refl, N.eqb_refl|]. intros s6 R6 A6.
  apply wp_bind. unfold wp at 1, run_llm_before, se_bind at 1, se_get at 1. rewrite (ready_pipeline _ _ R6). cbn [se_ret].
  apply wp_bind. unfold wp at 1, se_get at 1. rewrite (ready_more _ _ _ R6). cbn [negb andb].
  pose proof (after_trans _ _ _ _ _ A (after_trans _ _ _ _ _ A5 A6)) as A7. clear A A5 A6 R5 s5.
  apply (gives_bind _ _ _ (Ok (ProviderAnswered resp)) (ks ++ rest) []).
  { unfold provider_outcome, has_replay, gives. apply wp_bind. unfold wp at 1. rewrite (ready_more _ _ _ R6).
    unfold replayed_response. apply wp_bind, wp_bind. eapply wp_mono; [by apply take_entry_gives|].
    intros ? s7 (-> & R7 & A8). cbn [replay_llm_response response_entry unwrap_or map_err]. unfold wp, se_lift, se_ret.
    rewrite finish_reason_roundtrip. split_and!; [by destruct resp|done..]. }
  intros s7 R7 A8. eapply gives_bind; [by apply check_pending_gives|]. intros s8 R8 A9.
  apply wp_bind. unfold wp at 1, se_lift. rewrite He.
  eapply wp_mono; [by eapply finish_turn_gives|]. intros x s' []. destruct A7, A8, A9. split; try done; try congruence.
  rewrite back_trace0, after_trace2, after_trace1, after_trace0, <- !app_assoc. done.
Qed.
End Replaying.

(** ** A recorded run comes back *)

Section Reproduced.
Context {Value Decimal J1 W1 X1 W2 X2 : Type} `{DecimalOps Decimal} `{DecimalArith Decimal}
  `{!JournalStorage Value Decimal J1}.
Context (to_vec : CheckpointData Value Decimal -> result str str).
#[local] Instance store2 : JournalStorage Value Decimal (@InMemoryJournalStorage Value) := store to_vec.
Notation Loop1 := (@AgentLoop Value Decimal J1 W1 X1).
Notation Loop2 := (@AgentLoop Value Decimal (@InMemoryJournalStorage Value) W2 X2).
Notation Effect := (@Effect Value).
Context (E1 : @Env Value Decimal J1 W1 X1) (E2 : @Env Value Decimal (@InMemoryJournalStorage Value) W2 X2).
Context (HS : Solo E1) (serial : forall name, supports_parallel_tool_calls E1 name = false).
Context (eqb_refl : forall v, value_eqb E2 v v = true)
  (same_compaction : forall ms limit, compact_messages E2 ms limit = compact_messages E1 ms limit)
  (same_arguments : forall tc, tool_call_entry E2 tc = tool_call_entry E1 tc).

Lemma called_back_same calls t ms : called_back E1 calls t ms -> called_back E2 calls t ms.
Proof. induction 1; [constructor|]. rewrite <- same_arguments. by constructor. Qed.

Lemma recording_app (t u : list Effect) ks : recording (t ++ u) ks ->
  exists ks1 ks2, ks = ks1 ++ ks2 /\ recording t ks1 /\ recording u ks2.
Proof.
  revert ks. induction t as [|e t IH]; intros ks Hr; [exists [], ks; split_and!; [done|constructor|done]|].
  inversion Hr as [|kind t' ks' Hr'|ms t' ks' Hr'|tc nested t' ks' Hn Hr']; subst;
    apply IH in Hr' as (k1 & k2 & -> & H1 & H2).
  - exists (kind :: k1), k2. split_and!; [done|by constructor|done].
  - exists k1, k2. split_and!; [done|by constructor|done].
  - exists (nested ++ k1), k2. split_and!; [by rewrite app_assoc|by constructor|done].
Qed.

(** Both loops stand at the same point. *)
Record level (s1 : Loop1) (s2 : Loop2) : Prop := {
  level_config : config s2 = config s1;
  level_counts : counts (budget s2) = counts (budget s1);
  level_transcript : transcript s2 = transcript s1;
  level_checked : check_budget (without_sub_agents (budget s1)) = Ok tt -> check_budget (without_sub_agents (budget s2)) = Ok tt;
}.

Definition ended (r : ExitReason) : Prop := match r with Complete | Refusal | MaxTurns => True | _ => False end.

(** The same outcome, with the same journal and nothing done to the outside. *)
Record same_run (out1 : AgentLoopOutput Value Decimal) (t : list Effect) (s2 : Loop2) (out2 : AgentLoopOutput Value Decimal)
    (s2' : Loop2) : Prop := {
  same_messages : messages out2 = messages out1;
  same_exit : exit_reason out2 = exit_reason out1;
  same_usage : token_usage out2 = token_usage out1;
  same_turns : output_turns out2 = output_turns out1;
  same_trace : trace s2' = trace s2 ++ List.filter is_append t;
}.

Lemma level_exit reason usage s1 (s2 s0 : Loop2) t : level s1 s2 -> trace s2 = trace s0 ++ List.filter is_append t ->
  wp (exit_with reason usage) s2 (same_run (loop_output reason usage s1) t s0).
Proof. intros [] Ht. split; try done. cbn. by apply counts_eq in level_counts0 as (_ & _ & _ & ->). Qed.

Definition not_checkpoint (e : Effect) : Prop := match e with Appended kind => is_checkpoint kind = false | _ => True end.

Lemma called_back_no_checkpoint calls t ms : called_back E1 calls t ms -> Forall not_checkpoint t.
Proof.
  induction 1 as [|tc r ran calls t ms Hran _ IH]; [constructor|]. constructor; [done|]. apply Forall_app. split.
  - destruct Hran as [->| ->]; by repeat constructor.
  - by constructor.
Qed.

(** One turn of each loop. *)
Lemma turn_reproduced s1 s1' x : alone s1 -> execute_turn E1 s1 = (s1', Ok x) -> not_cut x ->
  alone s1' /\ exists t, trace s1' = trace s1 ++ t /\ Forall not_checkpoint t /\
    forall ks rest s2, recording t ks -> level s1 s2 -> ready (ks ++ rest) s2 ->
      wp (execute_turn E2) s2 (fun x2 s2' => x2 = x /\ level s1' s2' /\ ready rest s2' /\
        trace s2' = trace s2 ++ List.filter is_append t).
Proof.
  intros A Hx Hc. destruct (live_turn E1 HS serial _ _ _ A Hx Hc) as (resp & results & tr & []). split; [done|]. cbv zeta in *.
  eexists. split; [exact left_trace0|]. split.
  { repeat (constructor; [done|]). by eapply called_back_no_checkpoint. }
  intros ks rest s2 Hrec [] Hr.
  inversion Hrec as [|? ? k1 R1| |]; subst. inversion R1 as [|? ? k2 R2| |]; subst.
  inversion R2 as [| |? ? k3 R3|]; subst. inversion R3 as [|? ? k4 R4| |]; subst.
  assert (compact_messages E2 (transcript s2) (context_limit s2) = compact_messages E1 (transcript s1) (context_limit s1)) as Hm.
  { rewrite same_compaction, level_transcript0. f_equal. unfold context_limit. rewrite level_config0.
    by apply counts_eq in level_counts0 as (-> & _ & -> & _). }
  rewrite <- Hm, <- level_config0 in *. eapply wp_mono.
  - eapply execute_turn_gives; [done|by apply level_checked0|done|by apply called_back_same|exact R4|exact Hr].
  - intros x2 s2' []. split_and!; [done| |done|done]. split.
    + congruence.
    + by rewrite back_counts0, left_counts0, level_counts0.
    + by rewrite back_transcript0, left_transcript0, level_transcript0.
    + apply (allowed (budget s2)); [by rewrite back_counts0, left_counts0, level_counts0|done|by apply level_checked0].
Qed.

Lemma turns_reproduced n usage s1 s1' out1 :
  alone s1 -> turns E1 n usage s1 = (s1', Ok out1) -> ended (exit_reason out1) ->
  exists t, trace s1' = trace s1 ++ t /\ Forall not_checkpoint t /\
    forall ks s2, recording t ks -> level s1 s2 -> ready ks s2 -> wp (turns E2 n usage) s2 (same_run out1 t s2).
Proof.
  revert usage s1. induction n as [|n IH]; intros usage s1 A; cbn [turns].
  - intros [= <- <-] _. exists []. rewrite app_nil_r. split_and!; [done..|]. intros ks s2 _ Hl _.
    apply level_exit; [done|by rewrite app_nil_r].
  - unfold se_bind at 1, se_try. destruct (execute_turn E1 s1) as [s [x|e]] eqn:Ex; [|destruct e; try discriminate; by intros [= _ <-]].
    intros Hr He. assert (not_cut x) as Hc.
    { unfold not_cut. destruct (turn_result x); try done; [by destruct (turn_exhausted x)|by injection Hr as _ <-]. }
    destruct (turn_reproduced _ _ _ A Ex Hc) as (A' & t & Ht & Hn & Hback).
    unfold not_cut in Hc. destruct (turn_result x) as [m reason|m results| |] eqn:Er; try done.
    + injection Hr as <- <-. exists t. split_and!; [done..|]. intros ks s2 Hrec Hl Hd.
      apply wp_bind, wp_try. eapply wp_mono; [eapply (Hback ks []); [done|done|by rewrite app_nil_r]|].
      intros x2 s2' (-> & Hl' & _ & Ht'). rewrite Er. by eapply level_exit.
    + destruct (IH _ _ A' Hr He) as (t' & Ht' & Hn' & Hback'). exists (t ++ t').
      split_and!; [by rewrite Ht', Ht, app_assoc|by apply Forall_app|]. intros ks s2 Hrec Hl Hd.
      apply recording_app in Hrec as (k1 & k2 & -> & H1 & H2).
      apply wp_bind, wp_try. eapply wp_mono; [by eapply (Hback k1 k2)|].
      intros x2 s2' (-> & Hl' & Hd' & Ht2). rewrite Er. eapply wp_mono; [by eapply Hback'|].
      intros out2 s3 []. split; try done. by rewrite same_trace0, Ht2, List.filter_app, app_assoc.
Qed.

Lemma recording_no_checkpoint t (ks : list (JournalEntryKind Value)) : recording t ks -> Forall not_checkpoint t ->
  Forall (fun k => is_checkpoint k = false) ks.
Proof.
  induction 1 as [|kind t ks _ IH|ms t ks _ IH|tc nested t ks Hn _ IH]; intros Hf; inversion Hf; subst; auto.
  apply Forall_app. split; [|auto]. eapply Forall_impl; [exact Hn|]. by intros k (_ & _ & ?).
Qed.

Lemma no_checkpoint_restored (es : list (JournalEntry Value)) :
  Forall (fun k => is_checkpoint k = false) (List.map entry es) -> latest_checkpoint E2 es = None.
Proof.
  unfold latest_checkpoint. induction es as [|e es IH]; [done|]. cbn [List.map fold_left].
  intros Hf. inversion Hf as [|? ? He Hes]; subst. destruct (entry e); try done; by apply IH.
Qed.

(** C6. A run of a lone loop is determined by its journal.  The recorded run: its tool executor runs every
    tool serially, it has no hooks, no shared budget, no queue of steering messages and replays nothing
    itself ([alone]), the provider leaves the counts of tokens and turns to the loop ([Solo]), and it ended
    by itself, complete, refused or at its turn limit.  Its record: the loop's own entries, with whatever the
    tools journaled inside their calls, results of the call itself and checkpoints apart ([recording]).  The
    replaying loop: fresh, of the same configuration and budget, compacting and journaling arguments alike,
    with no hooks, shared budget or steering, neither cancelled nor killed ([ready]).  It hands back the same
    messages, exit reason, token usage and turn count, journals the same entries in the same order, and calls
    neither the model nor any tool.  (Records of parallel batches, and those with entries that hooks or the
    supervisor put between the loop's own, are not such records, and do not replay.) *)
Theorem replay_reproduces_run task s1 s1' out1 t (es : list (JournalEntry Value)) s2 :
  alone s1 -> run E1 task s1 = (s1', Ok out1) -> ended (exit_reason out1) -> trace s1' = trace s1 ++ t ->
  recording t (List.map entry es) ->
  config s2 = config s1 -> budget s2 = budget s1 -> replay s2 = Some (replay_new es) -> ready (List.map entry es) s2 ->
  exists s2' out2, run E2 task s2 = (s2', Ok out2) /\ same_run out1 t s2 out2 s2'.
Proof.
  intros A Hr He Ht Hrec Hcfg Hbud Hrep Hd.
  unfold run in Hr. apply bind_Ok in Hr as (sg & s0 & [= <- <-] & ([] & s0 & Hv & Hr)%bind_Ok).
  rewrite (alone_replay _ A) in Hv. injection Hv as <-. apply modify_Ok, modify_Ok in Hr.
  destruct (still_transcript (initial_messages s1 task) s1 A) as (A1 & C1 & B1). set (s0 := set_transcript _ s1) in *.
  assert (restore_checkpoint E1 s0 = s0) as Hnone by (unfold restore_checkpoint; by rewrite (alone_replay _ A1)).
  rewrite Hnone in Hr. destruct (turns_reproduced _ _ _ _ _ A1 Hr He) as (t' & Ht' & Hn & Hback).
  assert (t' = t) as -> by (eapply app_inv_head; rewrite <- Ht'; exact Ht).
  pose proof (ready_transcript (initial_messages s2 task) _ _ Hd) as Hd2. set (s3 := set_transcript _ s2) in *.
  assert (restore_checkpoint E2 s3 = s3) as Hnone2.
  { unfold restore_checkpoint. destruct Hd as [_ _ _ _ _ _ _ (it & Eit & Hm & _)]. rewrite Hrep in Eit. injection Eit as <-.
    cbn [replay s3 set_transcript set_state]. rewrite Hrep. unfold replay_entries. rewrite Hm.
    rewrite no_checkpoint_restored; [done|]. by eapply recording_no_checkpoint. }
  assert (wp (run E2 task) s2 (same_run out1 t s2)) as Hw.
  { unfold run. apply wp_bind. unfold wp at 1, se_get at 1. apply wp_bind.
    unfold wp at 1, se_lift. rewrite Hrep. destruct Hd as [_ _ _ _ _ _ _ (it & Eit & Hm & _)]. rewrite Hrep in Eit. injection Eit as <-.
    unfold replay_validate. rewrite Hm. cbn [map_err]. apply wp_bind. unfold wp at 1, se_modify at 1.
    apply wp_bind. unfold wp at 1, se_modify at 1. fold s3. rewrite Hnone2.
    replace (effective_max_turns s2) with (effective_max_turns s1) by (unfold effective_max_turns; by rewrite Hcfg).
    eapply wp_mono; [eapply Hback; [exact Hrec| |exact Hd2]|by intros ? ? []].
    split; cbn [config budget transcript s0 s3 set_transcript set_state]; try congruence.
    unfold initial_messages. by rewrite Hcfg. }
  unfold wp in Hw. destruct (run E2 task s2) as [s2' [out2|e]]; [|done]. by eexists _, _.
Qed.
End Reproduced.

(** ** A concrete record *)

(** The entries of a trace, as the store keeps them. *)
Definition ex_record (t : list (@Effect unit)) : list (JournalEntry unit) :=
  flat_map (fun e => match e with Appended kind => [ex_entry kind] | _ => [] end) t.

Abbreviation ex_live := (run ex_env "when" (ex_loop None)).
Definition ex_es : list (JournalEntry unit) := ex_record (trace (fst ex_live)).
Definition ex_replaying := ex_loop (Some (replay_new ex_es)).

Abbreviation ex_again := (run (J := @InMemoryJournalStorage unit) (H1 := store2 (fun _ => Ok [])) ex_env "when" ex_replaying).

Lemma ex_recorded : recording (trace (fst ex_live)) (List.map entry ex_es).
Proof.
  vm_compute. repeat first [apply recording_nil | apply recording_appended | apply recording_called
    | apply (recording_executed _ []); [constructor|]].
Qed.

Lemma ex_alone : alone (ex_loop None).
Proof. split; try reflexivity; [by split|vm_compute; discriminate..]. Qed.

Lemma ex_solo : Solo ex_env.
Proof. split; intros; cbn; split_and?; try done; lia. Qed.

Lemma ex_ready : ready (List.map entry ex_es) ex_replaying.
Proof. split; try done. by eexists. Qed.

Lemma ex_starts : trace (fst ex_live) = trace (ex_loop None) ++ trace (fst ex_live).
Proof. exact (eq_sym (app_nil_l _)). Qed.

Lemma ex_ends : match snd ex_live with
  | Ok out => ended (exit_reason out) /\ length (List.filter is_call (trace (fst ex_live))) = 2%nat
  | Err _ => False
  end.
Proof. vm_compute. by split. Qed.

Lemma replay_reproduces_run_witness :
  exists out1 s2' out2, snd ex_live = Ok out1 /\ length (List.filter is_call (trace (fst ex_live))) = 2%nat /\
    ex_again = (s2', Ok out2) /\ same_run out1 (trace (fst ex_live)) ex_replaying out2 s2'.
Proof.
  pose proof ex_ends as He. pose proof (surjective_pairing ex_live) as Er. destruct (snd ex_live) as [out1|e]; [|destruct He].
  destruct He as [He Hc].
  destruct (replay_reproduces_run (fun _ => Ok []) ex_env ex_env ex_solo (fun _ => eq_refl) (fun _ => eq_refl)
    (fun _ _ => eq_refl) (fun _ => eq_refl) "when" (ex_loop None) (fst ex_live) out1 (trace (fst ex_live)) ex_es ex_replaying
    ex_alone Er He ex_starts ex_recorded eq_refl eq_refl eq_refl ex_ready) as (s2' & out2 & Hr & Hs).
  exists out1, s2', out2. split; [reflexivity|]. split; [exact Hc|]. split; [exact Hr|exact Hs].
Defined.
