(* ===== verification/Children.v ===== *)
(** * Child handles: joins, waits, status, control

    Models [crates/simulacra-runtime/src/supervisor/child_queries.rs], the dispatcher
    [dispatch_message_into] ([dispatch.rs]) and the lifecycle of a child's task ([actor.rs],
    [spawn.rs]).

    A oneshot channel is named by its sender; a send is an effect of the operation that makes it, and
    is lost when nobody listens at the other end, which [listening] decides at the time of the
    operation.  An operation also starts tasks and timers; [Supervision] runs them.  [queue_open] says
    whether a child still holds its input queue. *)

From S2P Require Import Prelude.
From S2P Require Import Text.
From S2P Require Import Context.
From S2P Require Import Budget.
From S2P Require Import Capability.
From S2P Require Import Journal.
From S2P Require Import Supervisor.

Section Children.
Context {Value Decimal J : Type} `{DecimalOps Decimal} `{DecimalArith Decimal}
  `{@JournalStorage Value Decimal J}.
Notation AgentSupervisor := (AgentSupervisor Value Decimal J).
Notation ChildTerminalResult := (ChildTerminalResult Value Decimal).
Notation ChildRunState := (ChildRunState Value Decimal).
Notation AgentLoopOutput := (AgentLoopOutput Value Decimal).
Notation SpawnConfig := (SpawnConfig Decimal).
Notation SpawnResult := (result AgentLoopOutput RuntimeError).

Context (debug_str : str -> str).

(** ** Results and replies *)

Variant ChildAgentStatus :=
| StatusRunning
| StatusCompleted (message : option str)
| StatusFailed (message : option str)
| StatusCancelled (message : option str).

Record ChildStatus := {
  status_child : AgentId;
  status_placement : str;
  status_of : ChildAgentStatus;
  status_ready : bool;
  status_elapsed : N;
}.

Record ChildRosterEntry := {
  roster_child : str;
  roster_placement : str;
  roster_task : str;
  roster_status : ChildAgentStatus;
  roster_ready : bool;
  roster_elapsed : N;
}.

Record ChildResultInspection := { inspected : ChildTerminalResult; was_delivered : bool }.

Record WaitChildResult := {
  wait_child_id : AgentId;
  wait_placement : option str;
  wait_status : str;
  wait_ready : bool;
  wait_terminal : option ChildTerminalResult;
}.

Record WaitChildrenResult := {
  wait_child_ids : list AgentId;
  wait_any_status : str;
  wait_any_ready : bool;
  wait_any_terminal : option ChildTerminalResult;
}.

Variant Reply :=
| ReplySpawn (r : result SpawnAck RuntimeError)
| ReplyJoin (r : result ChildTerminalResult str)
| ReplyInspection (r : result ChildResultInspection str)
| ReplyStatus (r : result ChildStatus str)
| ReplyRoster (r : result (list ChildRosterEntry) str)
| ReplyWait (r : result WaitChildResult str)
| ReplyWaitAny (r : result WaitChildrenResult str)
| ReplyDone (r : result unit str).

(** The timers of bounded waits. *)
Variant Timer :=
| WaitTimer (c : AgentId) (waiter : N)
| WaitAnyTimer (cs : list AgentId) (waiter : N).

Variant Effect :=
| Sent (tx : nat) (r : Reply)
| Started (config : SpawnConfig)
| Timed (t : Timer).

Definition Step : Type := AgentSupervisor -> AgentSupervisor * list Effect.

(** ** Shaping results *)

Definition final_assistant_message (o : AgentLoopOutput) : option str :=
  option_map (@content Value)
    (List.find (fun m => bool_decide (role m = Assistant)) (rev (messages o))).

Definition ok_of {A E} (r : result A E) : option A := match r with Ok a => Some a | Err _ => None end.

Definition agent_status_from_terminal (t : ChildTerminalResult) : ChildAgentStatus :=
  if str_eqb (terminal_status t) "completed" then
    StatusCompleted (match ok_of (terminal_result t) with Some o => final_assistant_message o | None => None end)
  else if str_eqb (terminal_status t) "failed" then
    StatusFailed (match terminal_result t with
      | Err e => Some e
      | Ok o => match exit_reason o with ErrorExit e => Some e | _ => final_assistant_message o end
      end)
  else if str_eqb (terminal_status t) "cancelled" then
    StatusCancelled (match terminal_result t with Ok o => final_assistant_message o | Err e => Some e end)
  else StatusFailed (Some ("unknown cached child terminal status: " ++ terminal_status t)).

Definition is_terminal (st : ChildRunState) : bool :=
  match run_result st with Some _ => true | None => false end.

Definition status_from_state (now : N) (st : ChildRunState) : ChildStatus :=
  {| status_child := child_id (metadata st);
     status_placement := child_placement (metadata st);
     status_of := match run_result st with Some t => agent_status_from_terminal t | None => StatusRunning end;
     status_ready := is_terminal st;
     status_elapsed := (unwrap_or (finished_at_ms (metadata st)) now - started_at_ms (metadata st))%N |}.

Definition roster_entry_from_state (now : N) (st : ChildRunState) : ChildRosterEntry :=
  let status := status_from_state now st in
  {| roster_child := status_child status; roster_placement := status_placement status;
     roster_task := child_task (metadata st); roster_status := status_of status;
     roster_ready := status_ready status; roster_elapsed := status_elapsed status |}.

Definition wait_result_running (m : ChildMetadata) : WaitChildResult :=
  {| wait_child_id := child_id m; wait_placement := Some (child_placement m); wait_status := "running";
     wait_ready := false; wait_terminal := None |}.

Definition wait_result_terminal (t : ChildTerminalResult) : WaitChildResult :=
  {| wait_child_id := terminal_id t; wait_placement := Some (terminal_placement t);
     wait_status := terminal_status t; wait_ready := true; wait_terminal := Some t |}.

Definition wait_children_result_running (cs : list AgentId) : WaitChildrenResult :=
  {| wait_child_ids := cs; wait_any_status := "running"; wait_any_ready := false; wait_any_terminal := None |}.

Definition wait_children_result_terminal (cs : list AgentId) (t : ChildTerminalResult) : WaitChildrenResult :=
  {| wait_child_ids := cs; wait_any_status := terminal_status t; wait_any_ready := true;
     wait_any_terminal := Some t |}.

(** ** Updates of a child's entry *)

Definition with_result (m : ChildMetadata) (t : option ChildTerminalResult) (delivered : bool)
    (joins : list nat) (waits : list ChildWaiter) : ChildRunState :=
  {| metadata := m; run_result := t; result_delivered := delivered; join_waiters := joins;
     wait_waiters := waits |}.

Definition mark_delivered (st : ChildRunState) : ChildRunState :=
  with_result (metadata st) (run_result st) true (join_waiters st) (wait_waiters st).
Definition push_join (tx : nat) (st : ChildRunState) : ChildRunState :=
  with_result (metadata st) (run_result st) (result_delivered st) (join_waiters st ++ [tx]) (wait_waiters st).
Definition set_waits (ws : list ChildWaiter) (st : ChildRunState) : ChildRunState :=
  with_result (metadata st) (run_result st) (result_delivered st) (join_waiters st) ws.
Definition push_wait (w : ChildWaiter) (st : ChildRunState) : ChildRunState :=
  set_waits (wait_waiters st ++ [w]) st.
(** [wait_waiters.retain(|w| w.id != id)]. *)
Definition drop_waiter (id : N) (st : ChildRunState) : ChildRunState :=
  set_waits (List.filter (fun w => negb (waiter_id w =? id)%N) (wait_waiters st)) st.

Definition map_results (f : gmap AgentId ChildRunState -> gmap AgentId ChildRunState) (s : AgentSupervisor)
    : AgentSupervisor := set_results (f (child_results s)) s.

(** ** Sending *)

Context (listening : nat -> bool).

(** [tx.send(r)]. *)
Definition send (tx : nat) (r : Reply) : list Effect := if listening tx then [Sent tx r] else [].

Definition reply_only (tx : nat) (r : Reply) : Step := fun s => (s, send tx r).

(** ** Who may ask *)

Definition validate_caller_identity (caller : AgentId) (s : AgentSupervisor) : result unit str :=
  match snd (capability_for_caller debug_str caller s) with
  | Ok _ => Ok tt
  | Err e => Err (runtime_error_to_string e)
  end.

Definition authorize_child_owner (caller child : AgentId) (s : AgentSupervisor) : result unit str :=
  let? _ := validate_caller_identity caller s in
  match child_results s !! child with
  | None => Err ("unknown or closed child_id: " ++ child)
  | Some st =>
      if str_eqb (owner (metadata st)) caller then Ok tt
      else Err ("caller " ++ debug_str caller ++ " does not own child " ++ debug_str child
             ++ "; owner is " ++ debug_str (owner (metadata st)))
  end.

(** ** Queries *)

Definition join_child (c : AgentId) (tx : nat) : Step := fun s =>
  match child_results s !! c with
  | None => (s, send tx (ReplyJoin (Err ("unknown child_id: " ++ c))))
  | Some st =>
      match run_result st with
      | Some t =>
          (if listening tx then map_results (<[c := mark_delivered st]>) s else s, send tx (ReplyJoin (Ok t)))
      | None => (map_results (<[c := push_join tx st]>) s, [])
      end
  end.

Definition inspect_child_result (c : AgentId) (s : AgentSupervisor) : result ChildResultInspection str :=
  match child_results s !! c with
  | None => Err ("unknown or closed child_id: " ++ c)
  | Some st =>
      match run_result st with
      | None => Err ("child_id is still running: " ++ c)
      | Some t => Ok {| inspected := t; was_delivered := result_delivered st |}
      end
  end.

Definition send_child_status (now : N) (c : AgentId) (tx : nat) : Step := fun s =>
  match child_results s !! c with
  | None => (s, send tx (ReplyStatus (Err ("unknown or closed child_id: " ++ c))))
  | Some st =>
      (if listening tx && is_terminal st then map_results (<[c := mark_delivered st]>) s else s,
       send tx (ReplyStatus (Ok (status_from_state now st))))
  end.

(** The entries are sorted by id; the ids of a roster are distinct. *)
Definition roster_le (a b : ChildRosterEntry) : Prop := str_le (roster_child a) (roster_child b).
#[local] Instance roster_le_dec a b : Decision (roster_le a b).
Proof. unfold roster_le. apply _. Defined.

Definition roster (now : N) (keep : ChildRunState -> bool) (s : AgentSupervisor) : list ChildRosterEntry :=
  merge_sort roster_le
    (List.map (roster_entry_from_state now) (List.filter keep (List.map snd (map_to_list (child_results s))))).

Definition owned_by (caller : AgentId) (st : ChildRunState) : bool := str_eqb (owner (metadata st)) caller.

Definition send_child_roster (now : N) (caller : AgentId) (tx : nat) : Step := fun s =>
  match validate_caller_identity caller s with
  | Err e => (s, send tx (ReplyRoster (Err e)))
  | Ok _ =>
      (if listening tx then
         map_results (fmap (fun st => if owned_by caller st && is_terminal st then mark_delivered st else st)) s
       else s,
       send tx (ReplyRoster (Ok (roster now (owned_by caller) s))))
  end.

Definition send_child_roster_inspection (now : N) (tx : nat) : Step := fun s =>
  (s, send tx (ReplyRoster (Ok (roster now (fun _ => true) s)))).

(** ** Bounded waits *)

(** [AtomicU64::fetch_add(1)]: the old value, and the new one with its wrap-around. *)
Definition next_waiter (s : AgentSupervisor) : N * AgentSupervisor :=
  (wait_counter s, set_wait_counter ((wait_counter s + 1) mod 2 ^ 64)%N s).

Definition wait_child (c : AgentId) (timeout : N) (tx : nat) : Step := fun s =>
  match child_results s !! c with
  | None => (s, send tx (ReplyWait (Err ("unknown or closed child_id: " ++ c))))
  | Some st =>
      match run_result st with
      | Some t =>
          (if listening tx then map_results (<[c := mark_delivered st]>) s else s,
           send tx (ReplyWait (Ok (wait_result_terminal t))))
      | None =>
          if (timeout =? 0)%N then (s, send tx (ReplyWait (Ok (wait_result_running (metadata st)))))
          else
            let '(id, s) := next_waiter s in
            let s := map_results (<[c := push_wait {| waiter_id := id; child_ids := [c] |} st]>) s in
            (set_wait_senders (<[id := Single tx]> (wait_senders s)) s, [Timed (WaitTimer c id)])
      end
  end.

(** [position] and [Vec::swap_remove]. *)
Fixpoint waiter_position (id : N) (ws : list ChildWaiter) : option nat :=
  match ws with
  | [] => None
  | w :: ws => if (waiter_id w =? id)%N then Some 0%nat else option_map S (waiter_position id ws)
  end.
Definition swap_remove {A} (i : nat) (l : list A) : list A :=
  match last l with
  | Some x => if (S i =? length l)%nat then removelast l else <[i := x]> (removelast l)
  | None => l
  end.

(** The sender of a wait, taken out of its cell. *)
Definition take_sender (id : N) (s : AgentSupervisor) : option ChildWaiterSender * AgentSupervisor :=
  (wait_senders s !! id, set_wait_senders (delete id (wait_senders s)) s).

(** What the timer of [wait_child] does when it fires. *)
Definition wait_timeout (c : AgentId) (id : N) : Step := fun s =>
  match child_results s !! c with
  | None => (s, [])
  | Some st =>
      match waiter_position id (wait_waiters st) with
      | None => (s, [])
      | Some i =>
          let s := map_results (<[c := set_waits (swap_remove i (wait_waiters st)) st]>) s in
          let '(sender, s) := take_sender id s in
          (s, match sender with
              | Some (Single tx) => send tx (ReplyWait (Ok (wait_result_running (metadata st))))
              | _ => []
              end)
      end
  end.

(** The first of the children with a terminal result. *)
Fixpoint first_terminal (cs : list AgentId) (s : AgentSupervisor) : option (AgentId * ChildRunState * ChildTerminalResult) :=
  match cs with
  | [] => None
  | c :: cs =>
      match child_results s !! c with
      | Some st => match run_result st with Some t => Some (c, st, t) | None => first_terminal cs s end
      | None => first_terminal cs s
      end
  end.

Definition unknown_child (s : AgentSupervisor) (c : AgentId) : bool :=
  match child_results s !! c with Some _ => false | None => true end.

Definition wait_children (cs : list AgentId) (timeout : N) (tx : nat) : Step := fun s =>
  match cs with
  | [] => (s, send tx (ReplyWaitAny (Err (lit "missing required field: child_ids"))))
  | _ =>
      match List.find (unknown_child s) cs with
      | Some c => (s, send tx (ReplyWaitAny (Err ("unknown or closed child_id: " ++ c))))
      | None =>
          match first_terminal cs s with
          | Some (c, st, t) =>
              (if listening tx then map_results (<[c := mark_delivered st]>) s else s,
               send tx (ReplyWaitAny (Ok (wait_children_result_terminal cs t))))
          | None =>
              if (timeout =? 0)%N then (s, send tx (ReplyWaitAny (Ok (wait_children_result_running cs))))
              else
                let '(id, s) := next_waiter s in
                let w := {| waiter_id := id; child_ids := cs |} in
                let s := map_results (fun m => foldl (fun m c => alter (push_wait w) c m) m cs) s in
                (set_wait_senders (<[id := Any tx]> (wait_senders s)) s, [Timed (WaitAnyTimer cs id)])
          end
      end
  end.

(** What the timer of [wait_children] does. *)
Definition wait_children_timeout (cs : list AgentId) (id : N) : Step := fun s =>
  let s := map_results (fun m => foldl (fun m c => alter (drop_waiter id) c m) m cs) s in
  let '(sender, s) := take_sender id s in
  (s, match sender with
      | Some (Any tx) => send tx (ReplyWaitAny (Ok (wait_children_result_running cs)))
      | _ => []
      end).

Definition close_child (c : AgentId) (s : AgentSupervisor) : AgentSupervisor * result unit str :=
  match child_results s !! c with
  | None => (s, Err ("unknown or closed child_id: " ++ c))
  | Some st =>
      match run_result st with
      | None => (s, Err ("child_id is still running: " ++ c))
      | Some _ =>
          let s := map_results (delete c) s in
          let s := set_tokens (delete c (cancellation_tokens s)) s in
          let s := set_inputs (delete c (child_inputs s)) s in
          let s := set_child_accounts (delete c (child_budget_accounts s)) s in
          (set_reservations (delete c (budget_reservations s)) s, Ok tt)
      end
  end.

(** ** Completion *)

(** The waits of a finished child are answered in the order they were made; a cell is empty once its
    sender was taken. *)
Fixpoint answer_waits (t : ChildTerminalResult) (ws : list ChildWaiter) (cells : gmap N ChildWaiterSender)
    : gmap N ChildWaiterSender * list Effect :=
  match ws with
  | [] => (cells, [])
  | w :: ws =>
      let sent := match cells !! waiter_id w with
        | Some (Single tx) => send tx (ReplyWait (Ok (wait_result_terminal t)))
        | Some (Any tx) => send tx (ReplyWaitAny (Ok (wait_children_result_terminal (child_ids w) t)))
        | None => []
        end in
      let '(cells, rest) := answer_waits t ws (delete (waiter_id w) cells) in
      (cells, sent ++ rest)
  end.

(** The waits of the finished child [c] leave the other children they waited for. *)
Definition forget_waits (c : AgentId) (ws : list ChildWaiter) (m : gmap AgentId ChildRunState)
    : gmap AgentId ChildRunState :=
  foldl (fun m w =>
    foldl (fun m c' => if str_eqb c' c then m else alter (drop_waiter (waiter_id w)) c' m) m (child_ids w)) m ws.

Definition finish_metadata (now : N) (m : ChildMetadata) : ChildMetadata :=
  {| child_id := child_id m; child_placement := child_placement m; child_task := child_task m;
     owner := owner m; child_capability := child_capability m; started_at_ms := started_at_ms m;
     finished_at_ms := Some now |}.

Definition record_child_terminal_result (now : N) (t : ChildTerminalResult) : Step := fun s =>
  let c := terminal_id t in
  match child_results s !! c with
  | None => (s, [])
  | Some st =>
      let m := finish_metadata now (metadata st) in
      let t := {| terminal_id := c; terminal_placement := terminal_placement t;
                  terminal_status := terminal_status t; elapsed_ms := (now - started_at_ms m)%N;
                  tool_uses := tool_uses t; terminal_result := terminal_result t |} in
      let joined := flat_map (fun tx => send tx (ReplyJoin (Ok t))) (join_waiters st) in
      let '(cells, waited) := answer_waits t (wait_waiters st) (wait_senders s) in
      let delivered := match joined ++ waited with [] => result_delivered st | _ => true end in
      let s := map_results (fun r =>
        <[c := with_result m (Some t) delivered [] []]> (forget_waits c (wait_waiters st) r)) s in
      (set_wait_senders cells s, joined ++ waited)
  end.

(** ** The lifecycle of a child's task

    The task runs with its restarts, waits for a cancellation when it stopped for an approval, and
    settles its reservation; then its outcome is journaled; then the terminal result is recorded; then
    its token and its input queue go.  Each is a critical section of its own. *)

Definition task_settles (config : SpawnConfig) (attempt : nat -> SpawnResult) (s : AgentSupervisor)
    : option (AgentSupervisor * SpawnResult) :=
  match run_task_with_retries config attempt s with
  | Some (s, (_, r)) =>
      let r := await_awaiting_approval_terminal r in
      Some (settle_budget_reservation (spawn_agent_id config) r s, r)
  | None => None
  end.

Definition task_journals (now : N) (config : SpawnConfig) (r : SpawnResult) (s : AgentSupervisor)
    : AgentSupervisor * SpawnResult :=
  process_child_result now (parent_id config) (spawn_agent_id config) r s.

Definition terminal_of (config : SpawnConfig) (elapsed : N) (r : SpawnResult) : ChildTerminalResult :=
  {| terminal_id := spawn_agent_id config; terminal_placement := placement config;
     terminal_status := status_from_spawn_result r; elapsed_ms := elapsed;
     tool_uses := match r with Ok o => count_tool_uses o | Err _ => 0%N end;
     terminal_result := map_err runtime_error_to_string r |}.

Definition task_records (now elapsed : N) (config : SpawnConfig) (r : SpawnResult) : Step :=
  record_child_terminal_result now (terminal_of config elapsed r).

Definition task_cleans (config : SpawnConfig) (s : AgentSupervisor) : AgentSupervisor :=
  let s := set_tokens (delete (spawn_agent_id config) (cancellation_tokens s)) s in
  set_inputs (delete (spawn_agent_id config) (child_inputs s)) s.

(** [spawn_agent]: [immediate] is what the first poll of the task returned, when it returned. *)
Definition spawn_agent (now elapsed : N) (config : SpawnConfig) (immediate : option SpawnResult)
    (s : AgentSupervisor) : AgentSupervisor * list Effect * result unit RuntimeError :=
  match accept_spawn_agent debug_str now config s with
  | (s, Err e) => (s, [], Err e)
  | (s, Ok config) =>
      let finish (r : SpawnResult) :=
        let s := settle_budget_reservation (spawn_agent_id config) r s in
        let '(s, finalized) := task_journals now config r s in
        let '(s, sent) := task_records now elapsed config finalized s in
        (task_cleans config s, sent,
         match r with
         | Ok _ => Ok tt
         | Err e => Err (Session ("child " ++ spawn_agent_id config ++ " (placement=" ++ placement config
                      ++ ") failed immediately: " ++ runtime_error_to_string e))
         end) in
      match immediate with
      | None => (s, [Started config], Ok tt)
      | Some (Ok o) =>
          match exit_reason o with
          | AwaitingApproval => (s, [Started config], Ok tt)
          | _ => finish (Ok o)
          end
      | Some (Err e) => finish (Err e)
      end
  end.

(** ** The dispatcher *)

Variant SupervisorPayload :=
| Completed
| Failed (reason : str)
| Spawn (config : SpawnConfig) (tx : nat)
| JoinChild (c : AgentId) (tx : nat)
| InspectChildResult (c : AgentId) (tx : nat)
| CancelChild (c : AgentId) (tx : nat)
| SteerChild (c : AgentId) (message : str) (tx : nat)
| QueryStatus (c : AgentId) (tx : nat)
| ListChildren (tx : nat)
| InspectChildren (tx : nat)
| WaitChild (c : AgentId) (timeout : N) (tx : nat)
| WaitChildren (cs : list AgentId) (timeout : N) (tx : nat)
| CloseChild (c : AgentId) (tx : nat)
| Cancel.

Context (queue_open : AgentId -> bool).

(** An error for a child that has no token or no input queue any more. *)
Definition child_gone (c : AgentId) (s : AgentSupervisor) : result unit str :=
  match child_results s !! c with
  | Some st => if is_terminal st then Err ("child_id already completed: " ++ c) else Err ("unknown child_id: " ++ c)
  | None => Err ("unknown child_id: " ++ c)
  end.

Definition signal (c : AgentId) (s : AgentSupervisor) : AgentSupervisor :=
  set_tokens (<[c := true]> (cancellation_tokens s)) s.

Definition cancel_child (c : AgentId) (tx : nat) : Step := fun s =>
  match cancellation_tokens s !! c with
  | Some _ => (signal c s, send tx (ReplyDone (Ok tt)))
  | None => (s, send tx (ReplyDone (child_gone c s)))
  end.

Definition steer_child (c : AgentId) (message : str) (tx : nat) : Step := fun s =>
  match child_inputs s !! c with
  | Some q =>
      if queue_open c then
        (set_inputs (<[c := q ++ [message]]> (child_inputs s)) s, send tx (ReplyDone (Ok tt)))
      else (s, send tx (ReplyDone (Err (lit "child input queue is closed"))))
  | None => (s, send tx (ReplyDone (child_gone c s)))
  end.

(** [authorize_child_owner], then the operation, or the error in the reply. *)
Definition owner_only (caller c : AgentId) (refuse : str -> Reply) (tx : nat) (op : Step) : Step := fun s =>
  match authorize_child_owner caller c s with
  | Ok _ => op s
  | Err e => (s, send tx (refuse e))
  end.

(** The first child the caller may not wait for. *)
Fixpoint authorize_all (caller : AgentId) (cs : list AgentId) (s : AgentSupervisor) : result unit str :=
  match cs with
  | [] => Ok tt
  | c :: cs => let? _ := authorize_child_owner caller c s in authorize_all caller cs s
  end.

Definition dispatch_message (now : N) (caller : AgentId) (p : SupervisorPayload) : Step := fun s =>
  match p with
  | Completed | Failed _ => (s, [])
  | Spawn config tx =>
      match dispatch_spawn debug_str now caller config s with
      | (s, Ok (ack, started)) => (s, send tx (ReplySpawn (Ok ack)) ++ [Started started])
      | (s, Err e) => (s, send tx (ReplySpawn (Err e)))
      end
  | JoinChild c tx => owner_only caller c (fun e => ReplyJoin (Err e)) tx (join_child c tx) s
  | InspectChildResult c tx =>
      (s, send tx (ReplyInspection (let? _ := validate_caller_identity caller s in inspect_child_result c s)))
  | CancelChild c tx => owner_only caller c (fun e => ReplyDone (Err e)) tx (cancel_child c tx) s
  | SteerChild c message tx => owner_only caller c (fun e => ReplyDone (Err e)) tx (steer_child c message tx) s
  | QueryStatus c tx => owner_only caller c (fun e => ReplyStatus (Err e)) tx (send_child_status now c tx) s
  | ListChildren tx => send_child_roster now caller tx s
  | InspectChildren tx => send_child_roster_inspection now tx s
  | WaitChild c timeout tx => owner_only caller c (fun e => ReplyWait (Err e)) tx (wait_child c timeout tx) s
  | WaitChildren cs timeout tx =>
      match authorize_all caller cs s with
      | Ok _ => wait_children cs timeout tx s
      | Err e => (s, send tx (ReplyWaitAny (Err e)))
      end
  | CloseChild c tx =>
      owner_only caller c (fun e => ReplyDone (Err e)) tx
        (fun s => let '(s, r) := close_child c s in (s, send tx (ReplyDone r))) s
  | Cancel => (match cancellation_tokens s !! caller with Some _ => signal caller s | None => s end, [])
  end.

(** ** Authority over children *)

(** The children a control message addresses, and where its answer goes. *)
Definition addressed (p : SupervisorPayload) : list AgentId :=
  match p with
  | JoinChild c _ | CancelChild c _ | SteerChild c _ _ | QueryStatus c _ | WaitChild c _ _ | CloseChild c _ => [c]
  | WaitChildren cs _ _ => cs
  | _ => []
  end.
Definition answer_to (p : SupervisorPayload) : option nat :=
  match p with
  | Spawn _ tx | JoinChild _ tx | InspectChildResult _ tx | CancelChild _ tx | SteerChild _ _ tx
  | QueryStatus _ tx | ListChildren tx | InspectChildren tx | WaitChild _ _ tx | WaitChildren _ _ tx
  | CloseChild _ tx => Some tx
  | Completed | Failed _ | Cancel => None
  end.

Definition refusal (r : Reply) : Prop :=
  match r with
  | ReplySpawn (Err _) | ReplyJoin (Err _) | ReplyInspection (Err _) | ReplyStatus (Err _)
  | ReplyRoster (Err _) | ReplyWait (Err _) | ReplyWaitAny (Err _) | ReplyDone (Err _) => True
  | _ => False
  end.

(** The caller is known to the supervisor and is the parent of the child. *)
Definition owns (s : AgentSupervisor) (caller c : AgentId) : Prop :=
  is_Some (capability_of s caller) /\
  exists st, child_results s !! c = Some st /\ owner (metadata st) = caller.

Lemma validate_caller_identity_Ok caller s :
  validate_caller_identity caller s = Ok tt <-> is_Some (capability_of s caller).
Proof.
  unfold validate_caller_identity, capability_of, capability_for_caller, require_bound_root, se_bind.
  destruct (root_agent_id s) as [root|]; cbn; [|by split; [|intros []]].
  destruct (str_eqb root caller); cbn; [by split; [eauto|]|].
  destruct (child_results s !! caller); cbn; [by split; [eauto|]|by split; [|intros []]].
Qed.

Lemma authorize_child_owner_Ok caller c s : authorize_child_owner caller c s = Ok tt <-> owns s caller c.
Proof.
  unfold authorize_child_owner, owns. rewrite <- validate_caller_identity_Ok.
  destruct (validate_caller_identity caller s) as [[]|e]; [|by split; [|intros []]].
  destruct (child_results s !! c) as [st|]; [|by split; [|intros (_ & ? & [=] & _)]].
  destruct (str_eqb _ _) eqn:E; bools; split; try done; [eauto|intros (_ & ? & [= <-] & ?); congruence].
Qed.

Lemma authorize_all_Ok caller cs s :
  authorize_all caller cs s = Ok tt <-> Forall (owns s caller) cs.
Proof.
  induction cs as [|c cs IH]; cbn; [by split|]. rewrite Forall_cons, <- IH, <- authorize_child_owner_Ok.
  destruct (authorize_child_owner caller c s) as [[]|e]; naive_solver.
Qed.

(** Only its owner controls a child.  A message that joins, waits for, asks about, steers, cancels
    or closes a child, or waits for several of them, from a caller the supervisor does not know or
    that is not the parent of every child addressed, is answered with an error and changes nothing. *)
Theorem only_the_owner_controls now caller p s c :
  c ∈ addressed p -> ~ owns s caller c ->
  exists tx r, answer_to p = Some tx /\ refusal r /\ dispatch_message now caller p s = (s, send tx r).
Proof.
  intros Hc Hno.
  assert (forall refuse tx op, (forall e, refusal (refuse e)) ->
    exists r, refusal r /\ owner_only caller c refuse tx op s = (s, send tx r)) as Honly.
  { intros refuse tx op Hr. unfold owner_only.
    destruct (authorize_child_owner caller c s) as [[]|e] eqn:E; [by apply authorize_child_owner_Ok in E|eauto]. }
  destruct p; cbn in Hc; try (by inversion Hc); cbn [answer_to dispatch_message];
    try (apply list_elem_of_singleton in Hc as <-;
         match goal with |- context [owner_only _ _ ?f ?x ?op] =>
           destruct (Honly f x op (fun _ => I)) as (r & Hr & ->); eauto end).
  destruct (authorize_all caller cs s) as [[]|e] eqn:E; [|by exists tx, (ReplyWaitAny (Err e))].
  apply authorize_all_Ok in E. rewrite Forall_forall in E. by destruct (Hno (E c Hc)).
Qed.
End Children.
