(* ===== verification/Supervision.v ===== *)
(** * Supervision: runs of the supervisor with its children

    The supervisor of [Supervisor] and [Children] together with the tasks it started and the timers of
    bounded waits.  A run is a sequence of events: messages dispatched, direct spawns, the stages of
    the tasks, timers, and the usage agents charge to their own budgets, in any order; the mutexes of
    the code make each event atomic.  The theorems hold of every run from a new supervisor. *)

From S2P Require Import Prelude.
From S2P Require Import Text.
From S2P Require Import MemoryPath.
From S2P Require Import Context.
From S2P Require Import Budget.
From S2P Require Import Capability.
From S2P Require Import Journal.
From S2P Require Import Supervisor.
From S2P Require Import Children.

Section Supervision.
Context {Value Decimal J : Type} `{DecimalOps Decimal} `{DecimalArith Decimal}
  `{@JournalStorage Value Decimal J}.
Notation AgentSupervisor := (AgentSupervisor Value Decimal J).
Notation ChildTerminalResult := (ChildTerminalResult Value Decimal).
Notation ChildRunState := (ChildRunState Value Decimal).
Notation AgentLoopOutput := (AgentLoopOutput Value Decimal).
Notation SpawnConfig := (SpawnConfig Decimal).
Notation SpawnResult := (result AgentLoopOutput RuntimeError).
Notation Reply := (@Reply Value Decimal).
Notation Effect := (@Effect Value Decimal).

Context (debug_str : str -> str).

(** ** Worlds and events *)

(** How far a child's task has come; see [Children]. *)
Variant Phase :=
| Running
| Settled (r : SpawnResult)
| Journaled (r : SpawnResult)
| Recorded.

Record Task := { task_config : SpawnConfig; phase : Phase }.

Record World := {
  sup : AgentSupervisor;
  tasks : gmap AgentId Task;
  timers : list Timer;
  log : list (nat * Reply);
}.

Definition world_new (s : AgentSupervisor) : World :=
  {| sup := s; tasks := ∅; timers := []; log := [] |}.

Definition with_sup (s : AgentSupervisor) (w : World) : World :=
  {| sup := s; tasks := tasks w; timers := timers w; log := log w |}.
Definition with_task (c : AgentId) (t : option Task) (w : World) : World :=
  {| sup := sup w; tasks := partial_alter (fun _ => t) c (tasks w); timers := timers w; log := log w |}.

Definition apply_effect (w : World) (e : Effect) : World :=
  match e with
  | Sent tx r => {| sup := sup w; tasks := tasks w; timers := timers w; log := log w ++ [(tx, r)] |}
  | Started config => with_task (spawn_agent_id config) (Some {| task_config := config; phase := Running |}) w
  | Timed t => {| sup := sup w; tasks := tasks w; timers := timers w ++ [t]; log := log w |}
  end.

Definition apply_step (x : AgentSupervisor * list Effect) (w : World) : World :=
  foldl apply_effect (with_sup (fst x) w) (snd x).

Variant Event :=
| Dispatch (now : N) (caller : AgentId) (p : @SupervisorPayload Decimal)
| DirectSpawn (now elapsed : N) (config : SpawnConfig) (immediate : option SpawnResult)
| TaskReturns (c : AgentId) (attempt : nat -> SpawnResult)
| TaskJournals (now : N) (c : AgentId)
| TaskRecords (now elapsed : N) (c : AgentId)
| TaskCleans (c : AgentId)
| TimerFires (t : Timer)
| Charges (account : nat) (tokens turns : N) (cost : Decimal).

#[export] Instance Timer_eq_dec : EqDecision Timer.
Proof. solve_decision. Defined.

Definition fire (listening : nat -> bool) (t : Timer) : AgentSupervisor -> AgentSupervisor * list Effect :=
  match t with
  | WaitTimer c id => wait_timeout listening c id
  | WaitAnyTimer cs id => wait_children_timeout listening cs id
  end.

(** The budget of an account is shared with the agent that spends it. *)
Definition charge (l : nat) (tokens turns : N) (cost : Decimal) (s : AgentSupervisor) : AgentSupervisor :=
  match accounts s !! l with
  | Some a => put_account l (with_budget (fun b => set_usage b tokens turns cost) a) s
  | None => s
  end.

(** An event that is not enabled changes nothing. *)
Definition step (listening : nat -> bool) (queue_open : AgentId -> bool) (e : Event) (w : World) : World :=
  match e with
  | Dispatch now caller p => apply_step (dispatch_message debug_str listening queue_open now caller p (sup w)) w
  | DirectSpawn now elapsed config immediate =>
      apply_step (fst (spawn_agent debug_str listening now elapsed config immediate (sup w))) w
  | TaskReturns c attempt =>
      match tasks w !! c with
      | Some {| task_config := config; phase := Running |} =>
          match task_settles config attempt (sup w) with
          | Some (s, r) => with_task c (Some {| task_config := config; phase := Settled r |}) (with_sup s w)
          | None => w
          end
      | _ => w
      end
  | TaskJournals now c =>
      match tasks w !! c with
      | Some {| task_config := config; phase := Settled r |} =>
          let '(s, r) := task_journals now config r (sup w) in
          with_task c (Some {| task_config := config; phase := Journaled r |}) (with_sup s w)
      | _ => w
      end
  | TaskRecords now elapsed c =>
      match tasks w !! c with
      | Some {| task_config := config; phase := Journaled r |} =>
          with_task c (Some {| task_config := config; phase := Recorded |})
            (apply_step (task_records listening now elapsed config r (sup w)) w)
      | _ => w
      end
  | TaskCleans c =>
      match tasks w !! c with
      | Some {| task_config := config; phase := Recorded |} =>
          with_task c None (with_sup (task_cleans config (sup w)) w)
      | _ => w
      end
  | TimerFires t =>
      if bool_decide (t ∈ timers w) then
        let w' := apply_step (fire listening t (sup w)) w in
        {| sup := sup w'; tasks := tasks w'; timers := List.filter (fun t' => bool_decide (t' <> t)) (timers w');
           log := log w' |}
      else w
  | Charges l tokens turns cost => with_sup (charge l tokens turns cost (sup w)) w
  end.

(** A run: each event with the receivers that listen and the queues that are open when it happens. *)
Definition Run : Type := list ((nat -> bool) * (AgentId -> bool) * Event).
Definition run (evs : Run) (w : World) : World :=
  foldl (fun w '(listening, queue_open, e) => step listening queue_open e w) w evs.

(** ** What the queries leave alone

    The part of the supervisor that authority and budgets depend on: of a child's entry, its metadata
    and its result. *)

(** An entry changes at most in its delivery mark and in its waiters; nobody who joined is forgotten. *)
Definition grows (st st' : ChildRunState) : Prop :=
  metadata st' = metadata st /\ run_result st' = run_result st /\ (join_waiters st ⊆ join_waiters st').

Definition grow (m m' : gmap AgentId ChildRunState) : Prop :=
  forall c, option_Forall2 grows (m !! c) (m' !! c).

Record quiet (s s' : AgentSupervisor) : Prop := {
  quiet_capability : parent_capability s' = parent_capability s;
  quiet_root : root_agent_id s' = root_agent_id s;
  quiet_accounts : accounts s' = accounts s;
  quiet_root_account : root_budget_account s' = root_budget_account s;
  quiet_accepted : accepted_child_ids s' = accepted_child_ids s;
  quiet_child_accounts : child_budget_accounts s' = child_budget_accounts s;
  quiet_reservations : budget_reservations s' = budget_reservations s;
  quiet_factory : task_factory s' = task_factory s;
  quiet_results : grow (child_results s) (child_results s');
}.

#[local] Instance grows_preorder : PreOrder grows.
Proof.
  split; [intros a; unfold grows; by split_and!|]. intros a b c (E1 & E2 & E3) (F1 & F2 & F3).
  unfold grows. split_and!; [congruence..|]. by etrans.
Qed.

#[local] Instance grow_preorder : PreOrder grow.
Proof.
  split; [intros m c; destruct (m !! c); by constructor|].
  intros m1 m2 m3 H12 H23 c. specialize (H12 c). specialize (H23 c).
  inversion H12 as [a b Hab E1 E2|E1 E2]; rewrite <- E2 in H23; inversion H23; subst; constructor. by etrans.
Qed.

#[local] Instance quiet_preorder : PreOrder quiet.
Proof.
  split; [by split|]. intros s1 s2 s3 [] []. split; try congruence. by etrans.
Qed.

(** Updates of the results under which every entry grows. *)
Definition growing (f : gmap AgentId ChildRunState -> gmap AgentId ChildRunState) : Prop := forall m, grow m (f m).

Lemma growing_alter (g : ChildRunState -> ChildRunState) c :
  (forall st, grows st (g st)) -> growing (alter g c).
Proof.
  intros Hg m c'. destruct (decide (c = c')) as [<-|Hne].
  - rewrite lookup_alter_eq. destruct (m !! c); cbn; by constructor.
  - rewrite lookup_alter_ne by done. destruct (m !! c'); by constructor.
Qed.

Lemma growing_foldl {A} (l : list A) (h : A -> gmap AgentId ChildRunState -> gmap AgentId ChildRunState) :
  (forall a, growing (h a)) -> growing (fun m => foldl (fun m a => h a m) m l).
Proof.
  intros Hh m. revert m. induction l as [|a l IH]; intros m; cbn; [done|]. etrans; [apply Hh|apply IH].
Qed.

Lemma grow_insert (c : AgentId) (st st' : ChildRunState) (m : gmap AgentId ChildRunState) :
  m !! c = Some st -> grows st st' -> grow m (<[c := st']> m).
Proof.
  intros Hm Hg c'. destruct (decide (c = c')) as [<-|Hne].
  - rewrite lookup_insert_eq, Hm. by constructor.
  - rewrite lookup_insert_ne by done. destruct (m !! c'); by constructor.
Qed.

Lemma grow_fmap (g : ChildRunState -> ChildRunState) (m : gmap AgentId ChildRunState) :
  (forall st, grows st (g st)) -> grow m (g <$> m).
Proof. intros Hg c. rewrite lookup_fmap. destruct (m !! c); cbn; by constructor. Qed.

Lemma grows_mark st : grows st (mark_delivered st).
Proof. done. Qed.
Lemma grows_waits ws st : grows st (set_waits ws st).
Proof. done. Qed.
Lemma grows_join tx st : grows st (push_join tx st).
Proof. unfold grows. split_and!; [done..|]. cbn. set_solver. Qed.

Lemma quiet_results_only f s : grow (child_results s) (f (child_results s)) -> quiet s (map_results f s).
Proof. by split. Qed.

Lemma quiet_wait_senders x s : quiet s (set_wait_senders x s).
Proof. by split. Qed.
Lemma quiet_next_waiter s : quiet s (snd (next_waiter s)).
Proof. by split. Qed.
Lemma quiet_take_sender id s : quiet s (snd (take_sender id s)).
Proof. by split. Qed.
Lemma quiet_signal c s : quiet s (signal c s).
Proof. by split. Qed.
Lemma quiet_inputs x s : quiet s (set_inputs x s).
Proof. by split. Qed.
Hint Resolve quiet_wait_senders quiet_next_waiter quiet_take_sender quiet_signal quiet_inputs : quiet.
Hint Extern 0 (quiet _ _) => reflexivity : quiet.

Lemma quiet_join listening c tx s : quiet s (fst (join_child listening c tx s)).
Proof.
  unfold join_child. destruct (child_results s !! c) as [st|] eqn:E; [|done].
  destruct (run_result st) as [t|] eqn:Er; cbn; [destruct (listening tx); [|done]|];
    apply quiet_results_only, (grow_insert _ st); auto using grows_mark, grows_join.
Qed.

Lemma quiet_status listening now c tx s : quiet s (fst (send_child_status listening now c tx s)).
Proof.
  unfold send_child_status. destruct (child_results s !! c) as [st|] eqn:E; [|done]. cbn.
  destruct (_ && _); [|done]. by apply quiet_results_only, (grow_insert _ st).
Qed.

Lemma quiet_roster listening now caller tx s : quiet s (fst (send_child_roster debug_str listening now caller tx s)).
Proof.
  unfold send_child_roster. destruct (validate_caller_identity _ _ _); [|done]. cbn.
  destruct (listening tx); [|done]. apply quiet_results_only, grow_fmap. intros st. by destruct (_ && _).
Qed.

Lemma quiet_wait listening c timeout tx s : quiet s (fst (wait_child listening c timeout tx s)).
Proof.
  unfold wait_child. destruct (child_results s !! c) as [st|] eqn:E; [|done].
  destruct (run_result st) as [t|] eqn:Er; cbn.
  - destruct (listening tx); [|done]. by apply quiet_results_only, (grow_insert _ st).
  - destruct (_ =? _)%N; [done|]. cbn. etrans; [|apply quiet_wait_senders].
    etrans; [apply quiet_next_waiter|]. by apply quiet_results_only, (grow_insert _ st).
Qed.

Lemma quiet_wait_timeout listening c id s : quiet s (fst (wait_timeout listening c id s)).
Proof.
  unfold wait_timeout. destruct (child_results s !! c) as [st|] eqn:E; [|done].
  destruct (waiter_position id (wait_waiters st)) as [i|]; [|done]. cbn.
  etrans; [|apply quiet_wait_senders]. by apply quiet_results_only, (grow_insert _ st).
Qed.

Lemma quiet_wait_children listening cs timeout tx s : quiet s (fst (wait_children listening cs timeout tx s)).
Proof.
  unfold wait_children. destruct cs as [|c0 cs0]; [done|]. set (cs := c0 :: cs0).
  destruct (List.find _ cs); [done|]. destruct (first_terminal cs s) as [[[c st] t]|] eqn:Ef; cbn.
  - destruct (listening tx); [|done]. apply quiet_results_only, (grow_insert _ st); [|done].
    clear -Ef. induction cs as [|c' cs IH]; [discriminate|]. cbn in Ef.
    destruct (child_results s !! c') as [st'|] eqn:E; [|by apply IH].
    destruct (run_result st'); [by injection Ef as <- <- _|by apply IH].
  - destruct (_ =? _)%N; [done|]. cbn. etrans; [|apply quiet_wait_senders].
    etrans; [apply quiet_next_waiter|]. apply quiet_results_only.
    apply (growing_foldl cs (fun c => alter _ c)). intros c. by apply growing_alter.
Qed.

Lemma quiet_wait_children_timeout listening cs id s : quiet s (fst (wait_children_timeout listening cs id s)).
Proof.
  unfold wait_children_timeout. cbn. etrans; [|apply quiet_wait_senders]. apply quiet_results_only.
  apply (growing_foldl cs (fun c => alter _ c)). intros c. by apply growing_alter.
Qed.

Lemma quiet_fire listening t s : quiet s (fst (fire listening t s)).
Proof. destruct t; [apply quiet_wait_timeout|apply quiet_wait_children_timeout]. Qed.

(** ** Transitions

    What an event does to the supervisor and its tasks, as far as authority and budgets are concerned:
    a few transitions in a row. *)

Definition State : Type := AgentSupervisor * gmap AgentId Task.

(** Limits are machine words. *)
Definition sized (b : ResourceBudget Decimal) : Prop := (max_tokens b <= u64_max /\ max_turns b <= u32_max)%N.

(** A factory shapes capability and limits, not identities. *)
Class FactoryLaws (f : TaskFactory Decimal) : Prop := {
  factory_keeps_id config cap config' :
    prepare_spawn_config_for_caller f config cap = Ok config' -> spawn_agent_id config' = spawn_agent_id config;
  factory_sized config cap config' :
    prepare_spawn_config_for_caller f config cap = Ok config' ->
    sized (spawn_budget config) -> sized (spawn_budget config');
}.

(** A configuration that passed the checks. *)
Record shaped (s : AgentSupervisor) (config : SpawnConfig) (parent : nat) : Prop := {
  shaped_new : spawn_agent_id config ∉ accepted_child_ids s;
  shaped_sized : sized (spawn_budget config);
  shaped_allowed : spawn_allowed s config;
  shaped_parent : account_of s (parent_id config) = Some parent;
  shaped_fits : fits (spawn_budget config) (account_at s parent);
}.

Definition closed (c : AgentId) (s : AgentSupervisor) : AgentSupervisor := fst (close_child c s).

Inductive act : State -> State -> Prop :=
| act_quiet s s' ts : quiet s s' -> act (s, ts) (s', ts)
| act_refuse s ts config parent j :
    shaped s config parent ->
    act (s, ts) (rollback_unaccepted_budget (spawn_agent_id config) (set_journal j (reserved_state parent config s)), ts)
| act_accept s ts now config parent j :
    shaped s config parent ->
    act (s, ts) (accepted_state now parent config j s,
                 <[spawn_agent_id config := {| task_config := config; phase := Running |}]> ts)
| act_close s ts c : act (s, ts) (closed c s, ts)
| act_settle s ts c config r :
    ts !! c = Some {| task_config := config; phase := Running |} ->
    act (s, ts) (settle_budget_reservation (spawn_agent_id config) r s,
                 <[c := {| task_config := config; phase := Settled r |}]> ts)
| act_journal s ts c config r r' :
    ts !! c = Some {| task_config := config; phase := Settled r |} ->
    act (s, ts) (s, <[c := {| task_config := config; phase := Journaled r' |}]> ts)
| act_record s ts c config r listening now elapsed :
    ts !! c = Some {| task_config := config; phase := Journaled r |} ->
    act (s, ts) (fst (task_records listening now elapsed config r s),
                 <[c := {| task_config := config; phase := Recorded |}]> ts)
| act_clean s ts c config :
    ts !! c = Some {| task_config := config; phase := Recorded |} -> act (s, ts) (s, delete c ts)
| act_charge s ts l tokens turns cost : act (s, ts) (charge l tokens turns cost s, ts).

(** ** Promises

    What the outstanding reservations promise against an account. *)

Definition promise (f : BudgetReservation Decimal -> N) (l : nat) (r : BudgetReservation Decimal) : N :=
  if bool_decide (reservation_parent r = l) then f r else 0%N.
Definition promised (f : BudgetReservation Decimal -> N) (l : nat) (rs : gmap AgentId (BudgetReservation Decimal)) : N :=
  map_fold (fun _ r n => (promise f l r + n)%N) 0%N rs.

Lemma promised_insert (f : BudgetReservation Decimal -> N) (l : nat) (c : AgentId) r rs :
  rs !! c = None -> promised f l (<[c := r]> rs) = (promise f l r + promised f l rs)%N.
Proof. intros Hc. unfold promised. rewrite map_fold_insert_L; [done| |done]. intros; lia. Qed.

Lemma promised_delete (f : BudgetReservation Decimal -> N) (l : nat) (c : AgentId) r rs :
  rs !! c = Some r -> promised f l rs = (promise f l r + promised f l (delete c rs))%N.
Proof. intros Hc. unfold promised. rewrite (map_fold_delete_L _ _ c r); [done| |done]. intros; lia. Qed.

Lemma promised_none (f : BudgetReservation Decimal -> N) (l : nat) (rs : gmap AgentId (BudgetReservation Decimal)) :
  (forall (c : AgentId) r, rs !! c = Some r -> reservation_parent r <> l) -> promised f l rs = 0%N.
Proof.
  induction rs as [|c r rs Hc IH] using map_ind; intros Hall; [done|].
  rewrite promised_insert by done. rewrite IH.
  - unfold promise. rewrite bool_decide_eq_false_2; [done|]. apply (Hall c). apply lookup_insert_eq.
  - intros c' r' Hr. apply (Hall c'). rewrite lookup_insert_ne; [done|]. congruence.
Qed.

(** The books of one resource: under a limit, what is reserved is what is promised, and within it. *)
Definition booked (maximum reserved promises : N) : Prop :=
  maximum <> 0%N -> reserved = promises /\ (reserved <= maximum)%N.

(** The books of an account. *)
Record ledger (rs : gmap AgentId (BudgetReservation Decimal)) (l : nat) (a : AgentBudgetAccount Decimal) : Prop := {
  ledger_sized : sized (budget a);
  ledger_tokens : booked (max_tokens (budget a)) (reserved_tokens a) (promised reservation_tokens l rs);
  ledger_turns : booked (max_turns (budget a)) (reserved_turns a) (promised reservation_turns l rs);
}.

Lemma booked_reserve maximum used reserved promises req width :
  (maximum <= width)%N -> count_fits req maximum (N.min width (used + reserved)) ->
  booked maximum reserved promises -> booked maximum (N.min width (reserved + req)) (req + promises).
Proof. unfold booked, count_fits. intros Hw Hf Hb Hm. specialize (Hb Hm). lia. Qed.

Lemma booked_release maximum reserved promises req :
  booked maximum reserved (req + promises) -> booked maximum (reserved - req) promises.
Proof. unfold booked. intros Hb Hm. specialize (Hb Hm). lia. Qed.

(** ** The invariant *)

Definition unfinished (ts : gmap AgentId Task) (c : AgentId) : Prop :=
  exists t, ts !! c = Some t /\ phase t <> Recorded.

Record Inv (x : State) : Prop := {
  inv_factory f : task_factory x.1 = Some f -> FactoryLaws f;
  inv_root : is_Some (accounts x.1 !! root_budget_account x.1);
  inv_accounts c l : child_budget_accounts x.1 !! c = Some l ->
    is_Some (accounts x.1 !! l) /\ c ∈ accepted_child_ids x.1;
  inv_results c st : child_results x.1 !! c = Some st ->
    c ∈ accepted_child_ids x.1 /\ (run_result st = None -> unfinished x.2 c);
  inv_tasks c t : x.2 !! c = Some t ->
    spawn_agent_id (task_config t) = c /\ c ∈ accepted_child_ids x.1 /\
    (phase t <> Recorded -> exists st, child_results x.1 !! c = Some st /\ run_result st = None);
  inv_reservations c r : budget_reservations x.1 !! c = Some r ->
    is_Some (accounts x.1 !! reservation_parent r) /\ exists t, x.2 !! c = Some t /\ phase t = Running;
  inv_ledger l a : accounts x.1 !! l = Some a -> ledger (budget_reservations x.1) l a;
  inv_authority c st r : child_results x.1 !! c = Some st -> local_request r = true ->
    allowed (child_capability (metadata st)) r = true -> allowed (parent_capability x.1) r = true;
  inv_terminal c st t : child_results x.1 !! c = Some st -> run_result st = Some t -> terminal_id t = c;
}.

Lemma grow_lookup m m' (c : AgentId) st' :
  grow m m' -> m' !! c = Some st' -> exists st, m !! c = Some st /\ grows st st'.
Proof. intros Hg Hc. specialize (Hg c). rewrite Hc in Hg. inversion Hg; subst. eauto. Qed.

Lemma grow_lookup_back m m' (c : AgentId) st :
  grow m m' -> m !! c = Some st -> exists st', m' !! c = Some st' /\ grows st st'.
Proof. intros Hg Hc. specialize (Hg c). rewrite Hc in Hg. inversion Hg; subst. eauto. Qed.

Lemma inv_quiet s s' ts : quiet s s' -> Inv (s, ts) -> Inv (s', ts).
Proof.
  intros Hq []. constructor; cbn [fst snd] in *; destruct Hq; try setoid_rewrite quiet_accounts0;
    try setoid_rewrite quiet_root_account0; try setoid_rewrite quiet_accepted0;
    try setoid_rewrite quiet_child_accounts0; try setoid_rewrite quiet_reservations0;
    try setoid_rewrite quiet_factory0; try setoid_rewrite quiet_capability0; try done.
  - intros c st' Hc. destruct (grow_lookup _ _ _ _ quiet_results0 Hc) as (st & Hs & _ & Hr & _).
    rewrite Hr. eauto.
  - intros c t Ht. destruct (inv_tasks0 c t Ht) as (H2 & H3 & H4). split_and!; [done..|].
    intros Hp. destruct (H4 Hp) as (st & Hs & Hr).
    destruct (grow_lookup_back _ _ _ _ quiet_results0 Hs) as (st' & Hs' & _ & Hr' & _). exists st'. by rewrite Hr'.
  - intros c st' r Hc. destruct (grow_lookup _ _ _ _ quiet_results0 Hc) as (st & Hs & Hm & _).
    rewrite Hm. eauto.
  - intros c st' t Hc. destruct (grow_lookup _ _ _ _ quiet_results0 Hc) as (st & Hs & _ & Hr & _).
    rewrite Hr. eauto.
Qed.

(** The account of a known caller exists. *)
Lemma account_exists s ts caller l : Inv (s, ts) -> account_of s caller = Some l -> is_Some (accounts s !! l).
Proof.
  intros HI. unfold account_of. destruct (root_agent_id s) as [root|]; [|done]. destruct (str_eqb root caller).
  - intros [= <-]. apply (inv_root _ HI).
  - intros Hl. by apply (inv_accounts _ HI) in Hl as [? _].
Qed.

(** A known caller may do nothing beyond the root, hosts and skills apart. *)
Lemma caller_authority s ts caller cap r :
  Inv (s, ts) -> capability_of s caller = Some cap -> local_request r = true ->
  allowed cap r = true -> allowed (parent_capability s) r = true.
Proof.
  intros HI. unfold capability_of. destruct (root_agent_id s) as [root|]; [|done].
  destruct (str_eqb root caller); [by intros [= <-]|].
  destruct (child_results s !! caller) as [st|] eqn:E; [|done]. intros [= <-]. by apply (inv_authority _ HI caller).
Qed.

Lemma default_allows_nothing r : local_request r = true -> allowed CapabilityToken_default r = false.
Proof.
  destruct r; try done; intros _; cbn [allowed].
  - rewrite is_ok_check_path_read. destruct (is_memory_path_str _); [by destruct (memory_parse _)|done].
  - rewrite is_ok_check_path_write. destruct (is_memory_path_str _); [|done].
    destruct (memory_parse _) as [q|]; [|done]. by destruct (is_mnt q).
Qed.

Lemma shaped_no_account s ts config parent :
  Inv (s, ts) -> shaped s config parent -> child_budget_accounts s !! spawn_agent_id config = None.
Proof.
  intros HI Hs. destruct (child_budget_accounts s !! _) as [l|] eqn:E; [|done].
  apply (inv_accounts _ HI) in E as [_ Ha]. by destruct (shaped_new _ _ _ Hs).
Qed.

Lemma shaped_no_task s ts config parent : Inv (s, ts) -> shaped s config parent -> ts !! spawn_agent_id config = None.
Proof.
  intros HI Hs. destruct (ts !! _) as [t|] eqn:E; [|done].
  apply (inv_tasks _ HI) in E as (_ & Ha & _). by destruct (shaped_new _ _ _ Hs).
Qed.

Lemma shaped_no_reservation s ts config parent :
  Inv (s, ts) -> shaped s config parent -> budget_reservations s !! spawn_agent_id config = None.
Proof.
  intros HI Hs. destruct (budget_reservations s !! _) as [r|] eqn:E; [|done].
  apply (inv_reservations _ HI) in E as (_ & t & Ht & _). cbn in Ht.
  by rewrite (shaped_no_task _ _ _ _ HI Hs) in Ht.
Qed.

(** The account of the parent is not the new one. *)
Lemma shaped_parent_old s ts config parent :
  Inv (s, ts) -> shaped s config parent -> exists a, accounts s !! parent = Some a /\
    account_at s parent = a /\ parent <> fresh (dom (accounts s)).
Proof.
  intros HI Hs. destruct (account_exists _ _ _ _ HI (shaped_parent _ _ _ Hs)) as [a Ha].
  exists a. split; [done|]. unfold account_at. rewrite Ha. split; [done|].
  intros E. apply (is_fresh (dom (accounts s))). rewrite <- E. by apply elem_of_dom_2 in Ha.
Qed.

(** *** The books *)

Lemma promise_other f l (r : BudgetReservation Decimal) : reservation_parent r <> l -> promise f l r = 0%N.
Proof. intros Hne. unfold promise. by rewrite bool_decide_eq_false_2. Qed.
Lemma promise_own f (r : BudgetReservation Decimal) : promise f (reservation_parent r) r = f r.
Proof. unfold promise. by rewrite bool_decide_eq_true_2. Qed.

Lemma ledger_insert_other rs l a (c : AgentId) r :
  rs !! c = None -> reservation_parent r <> l -> ledger rs l a -> ledger (<[c := r]> rs) l a.
Proof. intros Hc Hne []. split; [done|rewrite promised_insert, promise_other by done; done..]. Qed.

Lemma ledger_delete_other rs l a (c : AgentId) r :
  rs !! c = Some r -> reservation_parent r <> l -> ledger rs l a -> ledger (delete c rs) l a.
Proof.
  intros Hc Hne []. split; [done|..].
  - by rewrite (promised_delete _ _ c r), promise_other in ledger_tokens0.
  - by rewrite (promised_delete _ _ c r), promise_other in ledger_turns0.
Qed.

(** Reserving keeps the books. *)
Lemma ledger_reserve rs (c : AgentId) r config a :
  rs !! c = None -> fits (spawn_budget config) a ->
  reservation_tokens r = max_tokens (spawn_budget config) ->
  reservation_turns r = max_turns (spawn_budget config) ->
  ledger rs (reservation_parent r) a ->
  ledger (<[c := r]> rs) (reservation_parent r) (reserve config a).
Proof.
  intros Hc (Ht & Hu & _) Er1 Er2 [Hs Ht' Hu']. split; [done|..].
  - rewrite promised_insert, promise_own, Er1 by done. cbn. by eapply booked_reserve; [apply Hs| |].
  - rewrite promised_insert, promise_own, Er2 by done. cbn. by eapply booked_reserve; [apply Hs| |].
Qed.

(** Releasing keeps the books, whatever becomes of the usage. *)
Lemma ledger_release rs (c : AgentId) r a b :
  rs !! c = Some r -> sized b -> max_tokens b = max_tokens (budget a) -> max_turns b = max_turns (budget a) ->
  ledger rs (reservation_parent r) a ->
  ledger (delete c rs) (reservation_parent r) (with_budget (fun _ => b) (release r a)).
Proof.
  intros Hc Hs E1 E2 []. split; cbn; [done|rewrite E1|rewrite E2].
  - rewrite (promised_delete _ _ c r), promise_own in ledger_tokens0 by done. by apply booked_release.
  - rewrite (promised_delete _ _ c r), promise_own in ledger_turns0 by done. by apply booked_release.
Qed.

Lemma ledger_usage rs l a tokens turns cost :
  ledger rs l a -> ledger rs l (with_budget (fun b => set_usage b tokens turns cost) a).
Proof. intros []. by split. Qed.

Lemma promised_fresh s ts f l :
  Inv (s, ts) -> l ∉ dom (accounts s) -> promised f l (budget_reservations s) = 0%N.
Proof.
  intros HI Hl. apply promised_none. intros c r Hr <-. apply (inv_reservations _ HI) in Hr as [Hp _].
  by apply Hl, elem_of_dom.
Qed.

Lemma ledger_new s ts l b : Inv (s, ts) -> l ∉ dom (accounts s) -> sized b ->
  ledger (budget_reservations s) l (account_new b).
Proof. intros HI Hl Hs. split; [done|..]; cbn; rewrite (promised_fresh _ _ _ _ HI Hl); intros ?; lia. Qed.

(** The reservation of an accepted spawn. *)
Definition reservation_of (parent : nat) (config : SpawnConfig) : BudgetReservation Decimal :=
  let b := spawn_budget config in
  {| reservation_parent := parent; reservation_tokens := max_tokens b; reservation_turns := max_turns b;
     reservation_cost := max_cost b |}.

Lemma reserved_ledger s ts config parent l a' :
  Inv (s, ts) -> shaped s config parent -> accounts (reserved_state parent config s) !! l = Some a' ->
  ledger (<[spawn_agent_id config := reservation_of parent config]> (budget_reservations s)) l a'.
Proof.
  intros HI Hs. pose proof (shaped_no_reservation _ _ _ _ HI Hs) as Hn.
  destruct (shaped_parent_old _ _ _ _ HI Hs) as (a & Ha & Hat & Hne). cbn.
  destruct (decide (fresh (dom (accounts s)) = l)) as [<-|Hl].
  { rewrite lookup_insert_eq. intros [= <-]. apply ledger_insert_other; [done|done|].
    apply (ledger_new _ _ _ _ HI); [apply is_fresh|apply Hs]. }
  rewrite lookup_insert_ne by done. destruct (decide (parent = l)) as [<-|Hp].
  - rewrite lookup_insert_eq, Hat. intros [= <-]. apply (ledger_reserve _ _ (reservation_of parent config)); try done.
    + rewrite <- Hat. apply Hs.
    + by apply (inv_ledger _ HI).
  - rewrite lookup_insert_ne by done. intros Hl'. apply ledger_insert_other; [done|done|]. by apply (inv_ledger _ HI).
Qed.

Lemma reserved_dom (s : AgentSupervisor) config parent l :
  is_Some (accounts s !! l) -> is_Some (accounts (reserved_state parent config s) !! l).
Proof.
  intros Hl. cbn. rewrite !lookup_insert_is_Some'. auto.
Qed.

(** *** Every transition preserves the invariant *)

(** The rest of the tasks is unchanged. *)
Lemma unfinished_insert ts c t c' : phase t <> Recorded -> unfinished ts c' -> unfinished (<[c := t]> ts) c'.
Proof.
  intros Hp (t' & Ht & Hp'). unfold unfinished. destruct (decide (c = c')) as [<-|Hne].
  - exists t. by rewrite lookup_insert_eq.
  - exists t'. by rewrite lookup_insert_ne.
Qed.

Lemma inv_accept s ts now config parent j :
  Inv (s, ts) -> shaped s config parent ->
  Inv (accepted_state now parent config j s,
       <[spawn_agent_id config := {| task_config := config; phase := Running |}]> ts).
Proof.
  intros HI Hs. set (id := spawn_agent_id config).
  destruct (shaped_parent_old _ _ _ _ HI Hs) as (a & Ha & _ & Hne).
  constructor; cbn [fst snd].
  - apply (inv_factory _ HI).
  - apply reserved_dom, (inv_root _ HI).
  - intros c l Hl. cbn in Hl. destruct (decide (id = c)) as [<-|Hc].
    + fold id in Hl. rewrite lookup_insert_eq in Hl. injection Hl as <-. cbn. rewrite lookup_insert_eq. split; [eauto|set_solver].
    + rewrite lookup_insert_ne in Hl by done. apply (inv_accounts _ HI) in Hl as [Hl Hacc]. cbn [fst] in *.
      split; [by apply reserved_dom|cbn; set_solver].
  - intros c st Hc. cbn in Hc. fold id in Hc. destruct (decide (id = c)) as [<-|Hne'].
    + split; [cbn; set_solver|]. intros _. exists {| task_config := config; phase := Running |}.
      by rewrite lookup_insert_eq.
    + rewrite lookup_insert_ne in Hc by done. apply (inv_results _ HI) in Hc as [Hacc Hrun]. cbn [fst snd] in *.
      split; [cbn; set_solver|]. intros Hr. apply unfinished_insert; [done|auto].
  - intros c t Ht. cbn. fold id. destruct (decide (id = c)) as [<-|Hne'].
    + rewrite lookup_insert_eq in Ht. injection Ht as <-. rewrite lookup_insert_eq. split_and!; [done|set_solver|eauto].
    + rewrite lookup_insert_ne in Ht by done. apply (inv_tasks _ HI) in Ht as (H2 & H3 & H4). cbn [fst] in *.
      rewrite lookup_insert_ne by done. split_and!; [done|set_solver|done].
  - intros c r Hr. cbn in Hr. fold id in Hr. destruct (decide (id = c)) as [<-|Hne'].
    + rewrite lookup_insert_eq in Hr. injection Hr as <-. rewrite lookup_insert_eq. split; [|eauto].
      apply reserved_dom. eauto.
    + rewrite lookup_insert_ne in Hr by done. rewrite lookup_insert_ne by done.
      apply (inv_reservations _ HI) in Hr as [Hr Ht]. split; [by apply reserved_dom|done].
  - intros l a' Hl. by apply (reserved_ledger s ts config parent).
  - intros c st r Hc Hr. cbn in Hc |- *. fold id in Hc. destruct (decide (id = c)) as [<-|Hne'].
    + rewrite lookup_insert_eq in Hc. injection Hc as <-. cbn. intros Hal.
      destruct (shaped_allowed _ _ _ Hs) as [(cap & Hcap & _ & Hsub) _].
      apply (caller_authority _ _ _ _ _ HI Hcap Hr). destruct (capability config) as [cc|]; cbn in Hal.
      * eapply subset_allows_local; eauto.
      * by rewrite default_allows_nothing in Hal.
    + rewrite lookup_insert_ne in Hc by done. by apply (inv_authority _ HI c st).
  - intros c st t Hc. cbn in Hc. fold id in Hc. destruct (decide (id = c)) as [<-|Hne'].
    + rewrite lookup_insert_eq in Hc. by injection Hc as <-.
    + rewrite lookup_insert_ne in Hc by done. by apply (inv_terminal _ HI c st).
Qed.

Lemma inv_refuse s ts config parent j :
  Inv (s, ts) -> shaped s config parent ->
  Inv (rollback_unaccepted_budget (spawn_agent_id config) (set_journal j (reserved_state parent config s)), ts).
Proof.
  intros HI Hs. set (id := spawn_agent_id config).
  pose proof (shaped_no_reservation _ _ _ _ HI Hs) as Hn.
  pose proof (shaped_no_account _ _ _ _ HI Hs) as Hna.
  unfold rollback_unaccepted_budget. cbn [budget_reservations reserved_state set_journal set_reservations].
  rewrite lookup_insert_eq. fold id.
  assert (forall l, is_Some (accounts s !! l) -> is_Some (<[parent := with_budget
      (fun b => set_used_sub_agents b (used_sub_agents b - 1)%N)
      (release (reservation_of parent config) (account_at (reserved_state parent config s) parent))]>
      (accounts (reserved_state parent config s)) !! l)) as Hdom.
  { intros l Hl. rewrite lookup_insert_is_Some'. right. by apply reserved_dom. }
  constructor; cbn [fst snd].
  - apply (inv_factory _ HI).
  - apply Hdom, (inv_root _ HI).
  - intros c l Hl. cbn in Hl. fold id in Hl. rewrite delete_insert_id in Hl by done.
    apply (inv_accounts _ HI) in Hl as [Hl Hacc]. split; [by apply Hdom|done].
  - apply (inv_results _ HI).
  - apply (inv_tasks _ HI).
  - intros c r Hr. cbn in Hr. fold id in Hr. rewrite delete_insert_id in Hr by done.
    apply (inv_reservations _ HI) in Hr as [Hr Ht]. split; [by apply Hdom|done].
  - intros l a' Hl. cbn. cbn in Hl. fold id.
    destruct (decide (parent = l)) as [<-|Hne].
    + rewrite lookup_insert_eq in Hl. injection Hl as <-.
      destruct (shaped_parent_old _ _ _ _ HI Hs) as (a & Ha & Hat & Hne).
      assert (accounts (reserved_state parent config s) !! parent = Some (reserve config a)) as Hr.
      { cbn. by rewrite lookup_insert_ne, lookup_insert_eq, Hat by done. }
      pose proof (reserved_ledger _ _ _ _ _ _ HI Hs Hr) as HL.
      match goal with |- ledger (delete _ ?rs) _ (with_budget ?f (release ?r ?x)) =>
        replace x with (reserve config a) by (unfold account_at; cbn; by rewrite lookup_insert_ne, lookup_insert_eq, Hat by done)
      end.
      apply (ledger_release _ id (reservation_of parent config) (reserve config a)); try done; [apply lookup_insert_eq|apply HL].
    + rewrite lookup_insert_ne in Hl by done.
      apply (ledger_delete_other _ _ _ _ (reservation_of parent config)); [apply lookup_insert_eq|done|].
      by apply (reserved_ledger _ ts _ parent).
  - apply (inv_authority _ HI).
  - apply (inv_terminal _ HI).
Qed.

Lemma inv_charge s ts l tokens turns cost : Inv (s, ts) -> Inv (charge l tokens turns cost s, ts).
Proof.
  intros HI. unfold charge. destruct (accounts s !! l) as [a|] eqn:Ea; [|done].
  assert (forall x l', is_Some (accounts s !! l') -> is_Some (accounts (put_account l x s) !! l')) as Hdom.
  { intros x l' Hl. cbn. rewrite lookup_insert_is_Some'. auto. }
  constructor; cbn [fst snd]; try apply HI.
  - apply Hdom, (inv_root _ HI).
  - intros c l' Hl. apply (inv_accounts _ HI) in Hl as [? ?]. auto.
  - intros c r Hr. apply (inv_reservations _ HI) in Hr as [? ?]. auto.
  - intros l' a' Hl. cbn in Hl. destruct (decide (l = l')) as [<-|Hne].
    + rewrite lookup_insert_eq in Hl. injection Hl as <-. by apply ledger_usage, (inv_ledger _ HI).
    + rewrite lookup_insert_ne in Hl by done. by apply (inv_ledger _ HI).
Qed.

Lemma inv_settle s ts c config r :
  ts !! c = Some {| task_config := config; phase := Running |} -> Inv (s, ts) ->
  Inv (settle_budget_reservation (spawn_agent_id config) r s,
       <[c := {| task_config := config; phase := Settled r |}]> ts).
Proof.
  intros Hc HI. destruct (inv_tasks _ HI c _ Hc) as (Hid & Hacc & Hst). cbn in Hid, Hacc, Hst.
  assert (forall s' : AgentSupervisor, accepted_child_ids s' = accepted_child_ids s -> child_results s' = child_results s ->
    forall c' t, (<[c := {| task_config := config; phase := Settled r |}]> ts) !! c' = Some t ->
    spawn_agent_id (task_config t) = c' /\ c' ∈ accepted_child_ids s' /\
    (phase t <> Recorded -> exists st, child_results s' !! c' = Some st /\ run_result st = None)) as Htasks.
  { intros s' -> -> c' t Ht. destruct (decide (c = c')) as [<-|Hne].
    - rewrite lookup_insert_eq in Ht. injection Ht as <-. by split_and!; [..|intros _; apply Hst].
    - rewrite lookup_insert_ne in Ht by done. by apply (inv_tasks _ HI c'). }
  assert (forall c' st, child_results s !! c' = Some st -> c' ∈ accepted_child_ids s /\
    (run_result st = None -> unfinished (<[c := {| task_config := config; phase := Settled r |}]> ts) c')) as Hres.
  { intros c' st Hs. apply (inv_results _ HI) in Hs as [? Hu]. split; [done|]. intros Hr. by apply unfinished_insert, Hu. }
  unfold settle_budget_reservation. rewrite Hid.
  destruct (budget_reservations s !! c) as [rv|] eqn:Er.
  2: { constructor; cbn [fst snd]; try apply HI; [done|by apply Htasks|].
       intros c' r' Hr'. destruct (decide (c = c')) as [<-|Hne]; [by rewrite Er in Hr'|].
       rewrite lookup_insert_ne by done. by apply (inv_reservations _ HI). }
  destruct (inv_reservations _ HI _ _ Er) as [[a Ha] _]. cbn in Ha.
  set (x := match r with Ok o => _ | Err _ => _ end).
  assert (account_at (set_reservations (delete c (budget_reservations s)) s) (reservation_parent rv) = a) as Hat
    by (unfold account_at; cbn; by rewrite Ha).
  assert (forall l', is_Some (accounts s !! l') -> is_Some (<[reservation_parent rv := x]> (accounts s) !! l')) as Hdom.
  { intros l' Hl. rewrite lookup_insert_is_Some'. auto. }
  assert (ledger (delete c (budget_reservations s)) (reservation_parent rv) x) as Hx.
  { pose proof (inv_ledger _ HI _ _ Ha) as HL. cbn in HL. unfold x. rewrite Hat. destruct r as [o|e].
    - apply (ledger_release _ c rv a (charge_budget_usage o (budget a))); try done. apply HL.
    - apply (ledger_release _ c rv a (budget a)); try done. apply HL. }
  constructor; cbn [fst snd]; try apply HI.
  - apply Hdom, (inv_root _ HI).
  - intros c' l' Hl. apply (inv_accounts _ HI) in Hl as [? ?]. auto.
  - done.
  - by apply Htasks.
  - intros c' r' Hr'. cbn in Hr'. apply lookup_delete_Some in Hr' as [Hne Hr'].
    rewrite lookup_insert_ne by done. apply (inv_reservations _ HI) in Hr' as [? ?]. auto.
  - intros l' a' Hl. cbn in Hl |- *. destruct (decide (reservation_parent rv = l')) as [<-|Hne].
    + rewrite lookup_insert_eq in Hl. by injection Hl as <-.
    + rewrite lookup_insert_ne in Hl by done. apply (ledger_delete_other _ _ _ _ rv); [done|done|]. by apply (inv_ledger _ HI).
Qed.

(** A stage that leaves the entry unfinished, or has finished it. *)
Lemma inv_stage s ts c t t' :
  Inv (s, ts) -> ts !! c = Some t -> phase t <> Running -> task_config t' = task_config t ->
  phase t <> Recorded -> phase t' <> Recorded -> Inv (s, <[c := t']> ts).
Proof.
  intros HI Hc Hr Hcfg Hp Hp'. constructor; cbn [fst snd]; try apply HI.
  - intros c' st Hs. apply (inv_results _ HI) in Hs as [? Hu]. split; [done|]. intros Hn. by apply unfinished_insert, Hu.
  - intros c' t'' Ht. destruct (decide (c = c')) as [<-|Hne].
    + rewrite lookup_insert_eq in Ht. injection Ht as <-. rewrite Hcfg.
      destruct (inv_tasks _ HI c _ Hc) as (? & ? & Hst). split_and!; [done..|]. intros _. by apply Hst.
    + rewrite lookup_insert_ne in Ht by done. by apply (inv_tasks _ HI c').
  - intros c' r Hr'. pose proof (inv_reservations _ HI _ _ Hr') as [? (t1 & Ht1 & Hrun)]. split; [done|].
    destruct (decide (c = c')) as [<-|Hne]; [cbn in Ht1; congruence|]. exists t1. by rewrite lookup_insert_ne.
Qed.

Lemma inv_clean s ts c t : Inv (s, ts) -> ts !! c = Some t -> phase t = Recorded -> Inv (s, delete c ts).
Proof.
  intros HI Hc Hp. constructor; cbn [fst snd]; try apply HI.
  - intros c' st Hs. apply (inv_results _ HI) in Hs as [? Hu]. split; [done|]. intros Hn.
    destruct (Hu Hn) as (t' & Ht' & Hp'). exists t'. cbn in Ht'. rewrite lookup_delete_ne; [done|]. congruence.
  - intros c' t' Ht. apply lookup_delete_Some in Ht as [Hne Ht]. by apply (inv_tasks _ HI c').
  - intros c' r Hr'. pose proof (inv_reservations _ HI _ _ Hr') as [? (t1 & Ht1 & Hrun)]. split; [done|].
    exists t1. cbn in Ht1. rewrite lookup_delete_ne; [done|]. congruence.
Qed.

Lemma running_unreserved s ts c st :
  Inv (s, ts) -> child_results s !! c = Some st -> run_result st <> None -> budget_reservations s !! c = None.
Proof.
  intros HI Hc Hr. destruct (budget_reservations s !! c) as [r|] eqn:E; [|done].
  apply (inv_reservations _ HI) in E as (_ & t & Ht & Hp).
  apply (inv_tasks _ HI) in Ht as (_ & _ & Hst). destruct Hst as (st' & Hst' & Hn); [by rewrite Hp|].
  cbn in Hst'. congruence.
Qed.

Lemma inv_close s ts c : Inv (s, ts) -> Inv (closed c s, ts).
Proof.
  intros HI. unfold closed, close_child. destruct (child_results s !! c) as [st|] eqn:Ec; [|done].
  destruct (run_result st) as [t|] eqn:Er; [|done].
  pose proof (running_unreserved s ts c st HI Ec ltac:(congruence)) as Hnr.
  constructor; cbn [fst snd]; try apply HI.
  - intros c' l Hl. cbn in Hl. apply lookup_delete_Some in Hl as [_ Hl]. by apply (inv_accounts _ HI) in Hl.
  - intros c' st' Hs. cbn in Hs. apply lookup_delete_Some in Hs as [_ Hs]. by apply (inv_results _ HI) in Hs.
  - intros c' t' Ht. destruct (inv_tasks _ HI _ _ Ht) as (? & ? & Hst). split_and!; [done..|]. intros Hp.
    destruct (Hst Hp) as (st' & Hs & Hr). cbn in Hs |- *. exists st'. rewrite lookup_delete_ne; [done|]. congruence.
  - intros c' r Hr. cbn in Hr. rewrite delete_id in Hr by done. by apply (inv_reservations _ HI).
  - intros l a Hl. cbn. rewrite delete_id by done. by apply (inv_ledger _ HI).
  - intros c' st' r Hs. cbn in Hs. apply lookup_delete_Some in Hs as [_ Hs]. by apply (inv_authority _ HI c').
  - intros c' st' t' Hs. cbn in Hs. apply lookup_delete_Some in Hs as [_ Hs]. by apply (inv_terminal _ HI c').
Qed.

Lemma forget_growing c ws : growing (forget_waits c ws).
Proof.
  apply (growing_foldl ws (fun w m => foldl _ m (child_ids w))). intros w.
  apply (growing_foldl (child_ids w) (fun c' m => if str_eqb c' c then m else alter _ c' m)). intros c' m.
  destruct (str_eqb c' c); [done|]. by apply growing_alter.
Qed.

(** Recording a result touches nothing but the entry of its child and the waits. *)
Lemma record_spec listening now t s st :
  child_results s !! terminal_id t = Some st ->
  let s' := fst (record_child_terminal_result listening now t s) in
  exists m st', child_results s' = <[terminal_id t := st']> m /\ grow (child_results s) m /\
    metadata st' = finish_metadata now (metadata st) /\
    (exists t', run_result st' = Some t' /\ terminal_id t' = terminal_id t) /\
    quiet s (set_results (child_results s) s').
Proof.
  intros Hc. unfold record_child_terminal_result. rewrite Hc. cbv zeta.
  destruct (answer_waits _ _ _ _) as [cells waited]. cbn [fst].
  eexists _, _. split; [reflexivity|]. split_and!; [apply forget_growing|done|by eexists|by split].
Qed.

Lemma inv_record s ts c config r listening now elapsed :
  Inv (s, ts) -> ts !! c = Some {| task_config := config; phase := Journaled r |} ->
  Inv (fst (task_records listening now elapsed config r s),
       <[c := {| task_config := config; phase := Recorded |}]> ts).
Proof.
  intros HI Hc. destruct (inv_tasks _ HI c _ Hc) as (Hid & Hacc & Hst). cbn in Hid, Hacc, Hst.
  destruct Hst as (st & Hs & Hr); [done|]. unfold task_records.
  destruct (record_spec listening now (terminal_of config elapsed r) s st) as (m & st1 & Hres & Hm & Hmeta & (tr & Hdone & Hterm) & Hq).
  { cbn. by rewrite Hid. }
  cbn [terminal_of terminal_id] in Hres, Hterm. rewrite Hid in Hres, Hterm. set (s' := fst _) in *.
  assert (forall c' st', child_results s' !! c' = Some st' ->
    (c' = c /\ (exists t', run_result st' = Some t' /\ terminal_id t' = c) /\ child_capability (metadata st') = child_capability (metadata st)) \/
    (c' <> c /\ exists st0, child_results s !! c' = Some st0 /\ metadata st' = metadata st0 /\ run_result st' = run_result st0)) as Hlook.
  { intros c' st' Hs'. rewrite Hres in Hs'. destruct (decide (c' = c)) as [->|Hne].
    - rewrite lookup_insert_eq in Hs'. injection Hs' as <-. left. rewrite Hmeta, Hdone. by split_and!; [|eauto|].
    - rewrite lookup_insert_ne in Hs' by done. destruct (grow_lookup _ _ _ _ Hm Hs') as (st0 & Hs0 & E1 & E2 & _).
      right. eauto. }
  destruct Hq. cbn in *. constructor; cbn [fst snd] in *; try rewrite quiet_accounts0; try rewrite quiet_root_account0;
    try rewrite quiet_accepted0; try rewrite quiet_child_accounts0; try rewrite quiet_reservations0;
    try rewrite quiet_factory0; try rewrite quiet_capability0; try apply HI.
  - intros c' st' Hs'. destruct (Hlook _ _ Hs') as [(-> & (t2 & Hn & _) & _)|(Hne & st0 & Hs0 & _ & Hr0)].
    + split; [done|]. by rewrite Hn.
    + destruct (inv_results _ HI _ _ Hs0) as [Ha Hu]. split; [done|]. rewrite Hr0. intros Hn.
      destruct (Hu Hn) as (t1 & Ht1 & Hp1). cbn in Ht1. exists t1. rewrite lookup_insert_ne; done.
  - intros c' t1 Ht1. destruct (decide (c = c')) as [<-|Hne].
    + rewrite lookup_insert_eq in Ht1. injection Ht1 as <-. by split_and!.
    + rewrite lookup_insert_ne in Ht1 by done. destruct (inv_tasks _ HI _ _ Ht1) as (? & ? & Hst').
      split_and!; [done..|]. intros Hp. destruct (Hst' Hp) as (st0 & Hs0 & Hr0). cbn in Hs0.
      destruct (grow_lookup_back _ _ _ _ Hm Hs0) as (st' & Hs' & _ & E2 & _). exists st'.
      by rewrite Hres, lookup_insert_ne, E2.
  - intros c' r' Hr'. destruct (inv_reservations _ HI _ _ Hr') as (? & t1 & Ht1 & Hp). cbn in Ht1. split; [done|].
    exists t1. rewrite lookup_insert_ne; [done|].
    intros <-. rewrite Hc in Ht1. by injection Ht1 as <-.
  - intros c' st' rq Hs' Hl. destruct (Hlook _ _ Hs') as [(-> & _ & Hcap)|(Hne & st0 & Hs0 & Hcap & _)]; rewrite Hcap;
      [apply (inv_authority _ HI c st)|apply (inv_authority _ HI c' st0)]; done.
  - intros c' st' t' Hs' Ht'. destruct (Hlook _ _ Hs') as [(-> & (t2 & Hn & E) & _)|(Hne & st0 & Hs0 & _ & Hr0)].
    + congruence.
    + apply (inv_terminal _ HI c' st0); [done|congruence].
Qed.

Lemma inv_act x y : act x y -> Inv x -> Inv y.
Proof.
  intros Ha HI. destruct Ha.
  - by apply (inv_quiet s).
  - by apply inv_refuse.
  - by apply inv_accept.
  - by apply inv_close.
  - by apply inv_settle.
  - by eapply inv_stage.
  - by apply inv_record.
  - by eapply inv_clean.
  - by apply inv_charge.
Qed.

(** ** Events are transitions *)

Definition state (w : World) : State := (sup w, tasks w).

(** The limits a request carries are machine words. *)
Definition event_ok (e : Event) : Prop :=
  match e with
  | Dispatch _ _ (Spawn config _) | DirectSpawn _ _ config _ => sized (spawn_budget config)
  | _ => True
  end.

(** Effects that start no task. *)
Definition starts_nothing (es : list Effect) : Prop :=
  Forall (fun e => match e with Started _ => False | _ => True end) es.

Lemma sup_effects es w : sup (foldl apply_effect w es) = sup w.
Proof. revert w. induction es as [|[]]; intros w; cbn; rewrite ?IHes; done. Qed.

Lemma tasks_effects es w : starts_nothing es -> tasks (foldl apply_effect w es) = tasks w.
Proof. intros He. revert w. induction He as [|[] es]; intros w; cbn; rewrite ?IHHe; done. Qed.

Lemma state_quiet x w : starts_nothing (snd x) -> state (apply_step x w) = (fst x, tasks w).
Proof. intros He. unfold state, apply_step. by rewrite sup_effects, tasks_effects. Qed.

Lemma starts_nothing_send listening tx r : starts_nothing (send listening tx r).
Proof. unfold send. destruct (listening tx); repeat constructor. Qed.
Hint Resolve starts_nothing_send : core.
Hint Extern 0 (starts_nothing []) => constructor : core.
Hint Extern 0 (starts_nothing [Timed _]) => repeat constructor : core.

(** The messages that only look, or register interest. *)
Definition asks (p : @SupervisorPayload Decimal) : bool :=
  match p with Spawn _ _ | CloseChild _ _ => false | _ => true end.

Lemma owner_only_spec listening caller c refuse tx op s :
  quiet s (fst (op s)) -> starts_nothing (snd (op s)) ->
  quiet s (fst (owner_only debug_str listening caller c refuse tx op s)) /\
  starts_nothing (snd (owner_only debug_str listening caller c refuse tx op s)).
Proof. intros Hq He. unfold owner_only. destruct (authorize_child_owner _ _ _ _); cbn; [done|]. split; [reflexivity|auto]. Qed.

Lemma starts_join listening c tx (s : AgentSupervisor) : starts_nothing (snd (join_child listening c tx s)).
Proof. unfold join_child. repeat case_match; cbn; auto. Qed.
Lemma starts_status listening now c tx (s : AgentSupervisor) : starts_nothing (snd (send_child_status listening now c tx s)).
Proof. unfold send_child_status. repeat case_match; cbn; auto. Qed.
Lemma starts_roster listening now caller tx (s : AgentSupervisor) :
  starts_nothing (snd (send_child_roster debug_str listening now caller tx s)).
Proof. unfold send_child_roster. repeat case_match; cbn; auto. Qed.
Lemma starts_wait listening c timeout tx (s : AgentSupervisor) : starts_nothing (snd (wait_child listening c timeout tx s)).
Proof. unfold wait_child. repeat case_match; cbn; auto. Qed.
Lemma starts_wait_children listening cs timeout tx (s : AgentSupervisor) : starts_nothing (snd (wait_children listening cs timeout tx s)).
Proof. unfold wait_children. repeat case_match; cbn; auto. Qed.
Lemma starts_answer_waits listening t ws cells : starts_nothing (snd (answer_waits listening t ws cells)).
Proof.
  revert cells. induction ws as [|w ws IH]; intros cells; cbn; [auto|].
  specialize (IH (delete (waiter_id w) cells)). destruct (answer_waits _ _ _ _) as [cells' rest]. cbn in *.
  apply Forall_app. split; [|done]. destruct (cells !! waiter_id w) as [[]|]; [apply starts_nothing_send..|constructor].
Qed.
Lemma starts_record listening now elapsed config r (s : AgentSupervisor) :
  starts_nothing (snd (task_records listening now elapsed config r s)).
Proof.
  unfold task_records, record_child_terminal_result. destruct (child_results s !! _) as [st|]; [|constructor]. cbv zeta.
  match goal with |- context [answer_waits ?l ?t ?ws ?c] => pose proof (starts_answer_waits l t ws c) as Hw end.
  destruct (answer_waits _ _ _ _) as [cells waited]. cbn in *. apply Forall_app. split; [|done].
  induction (join_waiters st); cbn; [constructor|]. apply Forall_app. split; [apply starts_nothing_send|done].
Qed.
Lemma starts_fire listening t (s : AgentSupervisor) : starts_nothing (snd (fire listening t s)).
Proof.
  destruct t; cbn; [unfold wait_timeout|unfold wait_children_timeout]; repeat (case_match; cbn); auto.
Qed.

Lemma asks_quiet listening queue_open now caller p s :
  asks p = true ->
  quiet s (fst (dispatch_message debug_str listening queue_open now caller p s)) /\
  starts_nothing (snd (dispatch_message debug_str listening queue_open now caller p s)).
Proof.
  destruct p; try discriminate; intros _; cbn [dispatch_message].
  - split; [reflexivity|cbn; auto].
  - split; [reflexivity|cbn; auto].
  - apply owner_only_spec; [apply quiet_join|apply starts_join].
  - split; [reflexivity|cbn; auto].
  - apply owner_only_spec; unfold cancel_child; case_match; cbn; auto; [apply quiet_signal|reflexivity].
  - apply owner_only_spec; unfold steer_child; repeat case_match; cbn; auto; [apply quiet_inputs|reflexivity..].
  - apply owner_only_spec; [apply quiet_status|apply starts_status].
  - split; [apply quiet_roster|apply starts_roster].
  - split; [reflexivity|cbn; auto].
  - apply owner_only_spec; [apply quiet_wait|apply starts_wait].
  - destruct (authorize_all _ _ _ _); [split; [apply quiet_wait_children|apply starts_wait_children]|split; [reflexivity|cbn; auto]].
  - cbn. split; [|auto]. destruct (cancellation_tokens s !! caller); [apply quiet_signal|reflexivity].
Qed.

(** A request that passed the checks is a shaped configuration. *)
Lemma checked_shaped s ts config config' factory now s' r :
  Inv (s, ts) -> sized (spawn_budget config) ->
  spawn_agent_id config ∉ accepted_child_ids s -> task_factory s = Some factory ->
  (exists cap, prepare_spawn_config_for_caller factory config cap = Ok config') -> spawn_allowed s config' ->
  accept_spawn debug_str now factory config' s = (s', r) ->
  match r with
  | Ok _ => exists parent j, shaped s config' parent /\ s' = accepted_state now parent config' j s
  | Err _ => s' = s \/ act (s, ts) (s', ts)
  end.
Proof.
  intros HI Hsz Hnew Hf (cap & Hp) Hal Ha.
  pose proof (inv_factory _ HI _ Hf) as HF.
  assert (forall parent, account_of s (parent_id config') = Some parent ->
    fits (spawn_budget config') (account_at s parent) -> shaped s config' parent) as Hsh.
  { intros parent Hacc Hfit. split; try done.
    - by rewrite (factory_keeps_id _ _ _ Hp).
    - by apply (factory_sized _ _ _ Hp). }
  apply accept_spawn_cases in Ha as [[-> [e ->]]|(parent & j & Hacc & Hfit & [[-> [e ->]]|(j1 & -> & -> & ->)])].
  - by left.
  - right. apply act_refuse. auto.
  - exists parent, j1. auto.
Qed.

Lemma accept_spawn_agent_cases now config s s' r :
  accept_spawn_agent debug_str now config s = (s', r) ->
  (s' = s /\ exists e, r = Err e) \/
  exists factory config' r', spawn_agent_id config ∉ accepted_child_ids s /\ task_factory s = Some factory /\
    (exists cap, prepare_spawn_config_for_caller factory config cap = Ok config') /\ spawn_allowed s config' /\
    accept_spawn debug_str now factory config' s = (s', r') /\
    r = match r' with Ok _ => Ok config' | Err e => Err e end.
Proof.
  unfold accept_spawn_agent. intros H4.
  unfold se_bind at 1 in H4. destruct (require_bound_root s) as [s0 [root|e]] eqn:E0;
    pose proof (reads_root s) as R0; rewrite E0 in R0; cbn in R0; subst s0; [|injection H4 as <- <-; left; eauto].
  unfold se_bind at 1 in H4. destruct (ensure_child_id_is_new debug_str _ s) as [s0 r1] eqn:E1.
  unfold ensure_child_id_is_new in E1. injection E1 as <- <-.
  destruct (bool_decide _) eqn:Hnew; [injection H4 as <- <-; left; eauto|]. bools.
  unfold se_bind at 1 in H4. destruct (validate_spawn_authorization debug_str config s) as [s0 [[]|e]] eqn:E2;
    pose proof (reads_authorization debug_str config s) as R2; rewrite E2 in R2; cbn in R2; subst s0;
    [|injection H4 as <- <-; left; eauto].
  unfold se_bind at 1, se_get in H4. destruct (task_factory s) as [f|] eqn:Ef.
  2: { unfold se_bind, se_err in H4. pose proof (reads_budget debug_str config s) as R3.
       destruct (validate_spawn_budget debug_str config s) as [s0 [[]|e]]; cbn in R3; subst s0;
         injection H4 as <- <-; left; eauto. }
  unfold se_bind at 1 in H4. pose proof (reads_shape_spawn debug_str f config s) as R4.
  destruct (shape_spawn debug_str f config s) as [s0 [config'|e]] eqn:E4; cbn in R4; subst s0;
    [|injection H4 as <- <-; left; eauto].
  apply shape_spawn_Ok in E4 as (_ & _ & _ & (cap & _ & Hcap) & Hal).
  unfold se_bind in H4. destruct (accept_spawn debug_str now f config' s) as [s1 [ack|e]] eqn:Ea;
    injection H4 as <- <-; right; do 3 eexists; split_and!; eauto.
Qed.

Lemma quiet_journals now config r s : quiet s (fst (task_journals now config r s)).
Proof.
  unfold task_journals, process_child_result.
  assert (forall ok, quiet s (fst (match journal_storage s with
    | Some _ => let '(s, w) := append_entry "SubAgentCompleted"
                  (completed_entry now (parent_id config) (spawn_agent_id config) ok) s in
                (s, match w with Ok _ => r | Err e => Err e end)
    | None => (s, r) end))) as Hj.
  { intros ok. destruct (journal_storage s) as [j|] eqn:Ej; [|reflexivity].
    destruct (append_entry _ _ s) as [s' w] eqn:Ea. apply append_entry_spec in Ea. rewrite Ej in Ea.
    by destruct Ea as [-> _]. }
  destruct r as [o|e]; [|apply Hj]. destruct (child_exit_success (exit_reason o)); [apply Hj|reflexivity].
Qed.

Lemma quiet_cleans config s : quiet s (task_cleans config s).
Proof. by split. Qed.

(** A task that finishes in the caller's thread goes through the same stages. *)
Lemma immediate_acts s ts now elapsed config r listening :
  ts !! spawn_agent_id config = None ->
  let s1 := settle_budget_reservation (spawn_agent_id config) r s in
  let x := task_journals now config r s1 in
  rtc act (s, <[spawn_agent_id config := {| task_config := config; phase := Running |}]> ts)
    (task_cleans config (fst (task_records listening now elapsed config (snd x) (fst x))), ts).
Proof.
  intros Hn s1 x. set (c := spawn_agent_id config) in *.
  eapply rtc_l; [apply (act_settle _ _ c config r), lookup_insert_eq|]. fold c. fold s1.
  eapply rtc_l; [apply act_quiet, (quiet_journals now config r)|]. fold x.
  eapply rtc_l; [apply (act_journal _ _ c config r (snd x)), lookup_insert_eq|].
  eapply rtc_l; [apply (act_record _ _ c config (snd x) listening now elapsed), lookup_insert_eq|].
  eapply rtc_l; [apply (act_clean _ _ c config), lookup_insert_eq|].
  rewrite !insert_insert_eq, delete_insert_id by done. apply rtc_once, act_quiet, quiet_cleans.
Qed.

Lemma spawn_agent_acts listening now elapsed config immediate s ts :
  Inv (s, ts) -> sized (spawn_budget config) ->
  let '(s', es, _) := spawn_agent debug_str listening now elapsed config immediate s in
  rtc act (s, ts) (s', ts) /\ starts_nothing es \/
  exists config', es = [Started config'] /\
    rtc act (s, ts) (s', <[spawn_agent_id config' := {| task_config := config'; phase := Running |}]> ts).
Proof.
  intros HI Hsz. unfold spawn_agent. destruct (accept_spawn_agent debug_str now config s) as [s1 r] eqn:Ea.
  apply accept_spawn_agent_cases in Ea as [[-> [e ->]]|(f & config' & r' & Hnew & Hf & Hp & Hal & Ha & ->)];
    [left; split; [reflexivity|auto]|].
  apply (checked_shaped s ts config config' f) in Ha; [|done..]. destruct r' as [ack|e].
  2: { left. split; [|auto]. destruct Ha as [->|Ha]; [reflexivity|by apply rtc_once]. }
  destruct Ha as (parent & j & Hs & ->).
  assert (rtc act (s, ts) (accepted_state now parent config' j s,
    <[spawn_agent_id config' := {| task_config := config'; phase := Running |}]> ts)) as Hacc
    by (by apply rtc_once, act_accept).
  pose proof (shaped_no_task _ _ _ _ HI Hs) as Hnt.
  assert (forall r, rtc act (s, ts) (task_cleans config' (fst (task_records listening now elapsed config'
      (snd (task_journals now config' r (settle_budget_reservation (spawn_agent_id config') r (accepted_state now parent config' j s))))
      (fst (task_journals now config' r (settle_budget_reservation (spawn_agent_id config') r (accepted_state now parent config' j s)))))), ts))
    as Hfin by (intros r; etrans; [exact Hacc|]; by apply immediate_acts).
  assert (forall r, starts_nothing (snd (task_records listening now elapsed config'
      (snd (task_journals now config' r (settle_budget_reservation (spawn_agent_id config') r (accepted_state now parent config' j s))))
      (fst (task_journals now config' r (settle_budget_reservation (spawn_agent_id config') r (accepted_state now parent config' j s)))))))
    as Hst by (intros r; apply starts_record).
  destruct immediate as [[o|e]|]; [|..|right; eauto].
  - specialize (Hfin (Ok o)). specialize (Hst (Ok o)). cbv zeta.
    destruct (task_journals _ _ (Ok o) _) as [s2 fin]. cbn [fst snd] in *.
    destruct (task_records _ _ _ _ _ _) as [s3 es]. cbn [fst snd] in *.
    destruct (exit_reason o); try (by left). right; eauto.
  - specialize (Hfin (Err e)). specialize (Hst (Err e)). cbv zeta.
    destruct (task_journals _ _ (Err e) _) as [s2 fin]. cbn [fst snd] in *.
    destruct (task_records _ _ _ _ _ _) as [s3 es]. cbn [fst snd] in *. by left.
Qed.

Lemma run_task_shape config attempt s s' k r :
  run_task_with_retries config attempt s = Some (s', (k, r)) -> quiet s s'.
Proof.
  unfold run_task_with_retries. destruct (retry_loop _ _ _ _ _ _) as [[counts' x]|]; [|discriminate].
  intros [= <- _]. by split.
Qed.

Lemma state_task w c t : state (with_task c (Some t) w) = (sup w, <[c := t]> (tasks w)).
Proof. done. Qed.

Lemma dispatch_acts listening queue_open now caller p w :
  event_ok (Dispatch now caller p) -> Inv (state w) ->
  rtc act (state w) (state (apply_step (dispatch_message debug_str listening queue_open now caller p (sup w)) w)).
Proof.
  intros Hok HI. destruct (asks p) eqn:Ep.
  { destruct (asks_quiet listening queue_open now caller p (sup w) Ep) as [Hq He].
    rewrite state_quiet by done. by apply rtc_once, act_quiet. }
  destruct p as [| |config tx| | | | | | | | | |c tx|]; try discriminate; cbn [dispatch_message event_ok] in *.
  - destruct (dispatch_spawn debug_str now caller config (sup w)) as [s' r] eqn:Ed.
    apply dispatch_spawn_cases in Ed as [[-> [e ->]]|(f & config' & r' & Hc & Ha & ->)].
    { rewrite state_quiet by (cbn; auto). apply rtc_refl. }
    apply check_spawn_Ok in Hc as (_ & _ & -> & Hnew & Hf & _ & _ & _ & (cap & _ & Hp) & Hal).
    apply (checked_shaped _ (tasks w) config config' f) in Ha; [|done..|eauto|done]. destruct r' as [ack|e].
    + destruct Ha as (parent & j & Hs & ->). unfold apply_step. cbn [fst snd]. rewrite foldl_app. cbn [foldl apply_effect].
      rewrite state_task, sup_effects, tasks_effects by auto. by apply rtc_once, act_accept.
    + rewrite state_quiet by (cbn; auto). destruct Ha as [->|Ha]; [apply rtc_refl|by apply rtc_once].
  - unfold owner_only. destruct (authorize_child_owner _ _ _ _) as [[]|e].
    + destruct (close_child c (sup w)) as [s' r] eqn:Ec. rewrite state_quiet by (cbn; auto). cbn [fst].
      replace s' with (closed c (sup w)) by (unfold closed; by rewrite Ec). apply rtc_once, act_close.
    + rewrite state_quiet by (cbn; auto). apply rtc_refl.
Qed.

Lemma step_acts listening queue_open e w :
  event_ok e -> Inv (state w) -> rtc act (state w) (state (step listening queue_open e w)).
Proof.
  intros Hok HI. destruct e as [now caller p|now elapsed config immediate|c attempt|now c|now elapsed c|c|t|l tokens turns cost];
    cbn [step].
  - by apply dispatch_acts.
  - pose proof (spawn_agent_acts listening now elapsed config immediate (sup w) (tasks w) HI Hok) as Hs.
    destruct (spawn_agent _ _ _ _ _ _ _) as [[s' es] r]. cbn [fst]. destruct Hs as [[Ha He]|(config' & -> & Ha)].
    + by rewrite state_quiet.
    + exact Ha.
  - destruct (tasks w !! c) as [[config []]|] eqn:Et; try apply rtc_refl. unfold task_settles.
    destruct (run_task_with_retries config attempt (sup w)) as [[s' [k r]]|] eqn:Er; [|apply rtc_refl].
    rewrite state_task. eapply rtc_l; [apply act_quiet, (run_task_shape _ _ _ _ _ _ Er)|].
    apply rtc_once. by apply act_settle.
  - destruct (tasks w !! c) as [[config []]|] eqn:Et; try apply rtc_refl.
    pose proof (quiet_journals now config r (sup w)) as Hq.
    destruct (task_journals now config r (sup w)) as [s' r'] eqn:Ej. cbn [fst] in Hq.
    rewrite state_task. eapply rtc_l; [by apply act_quiet|]. apply rtc_once. by apply (act_journal _ _ c config r).
  - destruct (tasks w !! c) as [[config []]|] eqn:Et; try apply rtc_refl.
    rewrite state_task. unfold apply_step. rewrite sup_effects, tasks_effects by apply starts_record.
    apply rtc_once. by apply act_record.
  - destruct (tasks w !! c) as [[config []]|] eqn:Et; try apply rtc_refl.
    eapply rtc_l; [apply act_quiet, (quiet_cleans config)|]. apply rtc_once. by apply (act_clean _ _ c config).
  - destruct (bool_decide _); [|apply rtc_refl].
    change (state _) with (state (apply_step (fire listening t (sup w)) w)) at 2.
    rewrite state_quiet by apply starts_fire. apply rtc_once, act_quiet, quiet_fire.
  - apply rtc_once, act_charge.
Qed.

Definition run_ok (evs : Run) : Prop := Forall (fun x => event_ok (snd x)) evs.

Lemma acts_inv x y : rtc act x y -> Inv x -> Inv y.
Proof. induction 1; intros HI; [done|]. eauto using inv_act. Qed.

Lemma run_acts evs w :
  run_ok evs -> Inv (state w) -> rtc act (state w) (state (run evs w)) /\ Inv (state (run evs w)).
Proof.
  intros Hok. revert w. induction Hok as [|[[listening queue_open] e] evs He _ IH]; intros w HI; cbn; [by split; [apply rtc_refl|]|].
  pose proof (step_acts listening queue_open e w He HI) as Ha.
  destruct (IH _ (acts_inv _ _ Ha HI)) as [Hr Hi]. split; [by etrans|done].
Qed.

Lemma inv_new cap b root factory j :
  (forall f, factory = Some f -> FactoryLaws f) -> sized b ->
  Inv (state (world_new (supervisor_new cap b root factory j))).
Proof.
  intros Hf Hs. split; cbn; try done.
  intros l a Hl. apply lookup_singleton_Some in Hl as [<- <-]. split; [done|..]; intros _; (split; [done|apply N.le_0_l]).
Qed.

Lemma act_capability x y : act x y -> parent_capability y.1 = parent_capability x.1.
Proof.
  destruct 1 as [s s' ts Hq| | |s ts c|s ts c config r| |s ts c config r listening now elapsed| |s ts l]; cbn [fst]; try done.
  - apply Hq.
  - unfold rollback_unaccepted_budget. by destruct (budget_reservations _ !! _).
  - unfold closed, close_child. destruct (child_results s !! c) as [st|]; [|done]. by destruct (run_result st).
  - unfold settle_budget_reservation. by destruct (budget_reservations s !! _).
  - unfold task_records, record_child_terminal_result. destruct (child_results s !! _) as [st|]; [|done]. cbv zeta.
    by destruct (answer_waits _ _ _ _).
  - unfold charge. by destruct (accounts s !! l).
Qed.

Lemma acts_capability x y : rtc act x y -> parent_capability y.1 = parent_capability x.1.
Proof. induction 1 as [|x y z Ha _ IH]; [done|]. by rewrite IH, (act_capability _ _ Ha). Qed.

(** A supervisor as it is when a run begins. *)
Definition fresh_world (cap : CapabilityToken) (b : ResourceBudget Decimal) (root : AgentId)
    (factory : TaskFactory Decimal) (j : J) : World :=
  world_new (supervisor_new cap b (Some root) (Some factory) (Some j)).

Lemma run_inv cap b root factory j evs :
  FactoryLaws factory -> sized b -> run_ok evs -> Inv (state (run evs (fresh_world cap b root factory j))).
Proof.
  intros HF Hb Hev. apply run_acts; [done|]. apply inv_new; [by intros f [= <-]|done].
Qed.

(** C1. Delegation never widens local authority.  After any run, of spawns at any depth by any callers with
    any capabilities they ask for, restarts, closes and the rest, every agent the supervisor knows is
    allowed no shell, script, path to read or write, memory, placement or MCP grant that the root's token
    does not allow.  These are the requests of [local_request]; hosts and skills are outside the theorem,
    since attenuation itself lets [net:*] and empty skill lists through. *)
Theorem delegation_never_widens cap b root factory j evs caller token r :
  FactoryLaws factory -> sized b -> run_ok evs ->
  capability_of (sup (run evs (fresh_world cap b root factory j))) caller = Some token ->
  local_request r = true -> allowed token r = true -> allowed cap r = true.
Proof.
  intros HF Hb Hev Hc Hr Hal.
  destruct (run_acts evs (fresh_world cap b root factory j) Hev) as [Ha HI]; [by apply inv_new; [intros f [= <-]|]|].
  pose proof (acts_capability _ _ Ha) as Hcap. cbn in Hcap. rewrite <- Hcap.
  by apply (caller_authority _ _ _ _ _ HI Hc).
Qed.

(** The books balance.  After any run, for every agent with a token or a turn limit, what its
    account has reserved is exactly the sum of the limits of its children that are still running, and
    it does not exceed the agent's own limit: together the running children of an agent, however many
    and however nested, were never promised more than the agent may spend. *)
Theorem reservations_balance cap b root factory j evs l a :
  FactoryLaws factory -> sized b -> run_ok evs ->
  let w := run evs (fresh_world cap b root factory j) in
  accounts (sup w) !! l = Some a ->
  booked (max_tokens (budget a)) (reserved_tokens a) (promised reservation_tokens l (budget_reservations (sup w))) /\
  booked (max_turns (budget a)) (reserved_turns a) (promised reservation_turns l (budget_reservations (sup w))) /\
  (forall c r, budget_reservations (sup w) !! c = Some r -> exists t, tasks w !! c = Some t /\ phase t = Running).
Proof.
  intros HF Hb Hev w Ha. pose proof (run_inv cap b root factory j evs HF Hb Hev) as HI.
  destruct (inv_ledger _ HI _ _ Ha). split_and!; [done..|]. intros c r Hr.
  by destruct (inv_reservations _ HI c r Hr).
Qed.

Lemma unreserve_sub_agents (b : ResourceBudget Decimal) :
  (used_sub_agents b < u32_max)%N ->
  let n := saturating_add32 (used_sub_agents b) 1 in
  set_used_sub_agents (set_used_sub_agents b n) (n - 1) = b.
Proof.
  intros Hb n. unfold n, saturating_add32. replace (N.min u32_max (used_sub_agents b + 1) - 1)%N with (used_sub_agents b) by lia.
  by destruct b.
Qed.

(** A refused spawn costs nothing.  After any run, when a spawn request is answered with an error,
    at whatever point it failed, the reservations, the accounts children have, the accepted ids and the
    children are as before, and an account under limits has the budget and the reservations it had. *)
Theorem refused_spawn_costs_nothing cap b root factory j evs now caller config s' e l a :
  FactoryLaws factory -> sized b -> run_ok evs -> sized (spawn_budget config) ->
  let s := sup (run evs (fresh_world cap b root factory j)) in
  dispatch_spawn debug_str now caller config s = (s', Err e) ->
  accounts s !! l = Some a -> (used_sub_agents (budget a) < u32_max)%N ->
  max_tokens (budget a) <> 0%N -> max_turns (budget a) <> 0%N ->
  budget_reservations s' = budget_reservations s /\ child_budget_accounts s' = child_budget_accounts s /\
  accepted_child_ids s' = accepted_child_ids s /\ child_results s' = child_results s /\
  exists a', accounts s' !! l = Some a' /\ budget a' = budget a /\
    reserved_tokens a' = reserved_tokens a /\ reserved_turns a' = reserved_turns a.
Proof.
  intros HF Hb Hev Hsz s Hd Ha Hsub Ht Hu. pose proof (run_inv cap b root factory j evs HF Hb Hev) as HI.
  change (state _) with (s, tasks (run evs (fresh_world cap b root factory j))) in HI.
  apply dispatch_spawn_cases in Hd as [[-> _]|(f & config' & r' & Hc & Hacc & Hr)]; [by split_and!; [done..|exists a]|].
  destruct r' as [ack|e']; [discriminate|].
  apply check_spawn_Ok in Hc as (_ & _ & -> & Hnew & Hf & _ & _ & _ & (c & _ & Hp) & Hal).
  apply accept_spawn_cases in Hacc as [[-> _]|(parent & jo & Hpar & Hfit & [[-> _]|(? & _ & _ & [=])])]; [by split_and!; [done..|exists a]|].
  pose proof (inv_factory _ HI _ Hf) as HF'.
  assert (shaped s config' parent) as Hs.
  { split; try done; [by rewrite (factory_keeps_id _ _ _ Hp)|by apply (factory_sized _ _ _ Hp)]. }
  pose proof (shaped_no_reservation _ _ _ _ HI Hs) as Hn. pose proof (shaped_no_account _ _ _ _ HI Hs) as Hna.
  destruct (shaped_parent_old _ _ _ _ HI Hs) as (ap & Hap & Hat & Hne).
  unfold rollback_unaccepted_budget. cbn [budget_reservations reserved_state set_journal set_reservations].
  rewrite lookup_insert_eq. cbn -[fresh]. rewrite !delete_insert_id by done. split_and!; [done..|].
  destruct (decide (parent = l)) as [<-|Hl].
  - rewrite lookup_insert_eq. eexists. split; [done|]. unfold account_at. cbn -[fresh].
    rewrite lookup_insert_ne, lookup_insert_eq by done. cbn -[fresh saturating_add saturating_add32 N.sub]. rewrite Hat.
    assert (ap = a) as -> by congruence. destruct (inv_ledger _ HI _ _ Ha) as [[Hs1 Hs2] Htok Htur].
    specialize (Htok Ht). specialize (Htur Hu). unfold fits in Hfit. rewrite Hat in Hfit. destruct Hfit as (Hf1 & Hf2 & _).
    rewrite unreserve_sub_agents by done. unfold count_fits, saturating_add, saturating_add32 in *.
    split_and!; [done|lia..].
  - rewrite lookup_insert_ne by done. exists a. split; [|done].
    rewrite lookup_insert_ne; [by rewrite lookup_insert_ne|].
    intros <-. apply (is_fresh (dom (accounts s))), elem_of_dom. eauto.
Qed.

(** ** Nobody who joined is forgotten *)

Definition joined (x : State) (c : AgentId) (tx : nat) : Prop :=
  exists st, child_results x.1 !! c = Some st /\ run_result st = None /\ tx ∈ join_waiters st.

Definition stage (t : Task) : nat :=
  match phase t with Running => 0 | Settled _ => 1 | Journaled _ => 2 | Recorded => 3 end.

(** The child was accepted, and its task has come at least so far. *)
Definition at_least (n : nat) (x : State) (c : AgentId) : Prop :=
  c ∈ accepted_child_ids x.1 /\ forall t, x.2 !! c = Some t -> (n <= stage t)%nat.

Lemma act_accepted x y : act x y -> accepted_child_ids x.1 ⊆ accepted_child_ids y.1.
Proof.
  destruct 1 as [s s' ts Hq| | |s ts c|s ts c config r| |s ts c config r listening now elapsed| |s ts l]; cbn [fst]; try done.
  - by rewrite (quiet_accepted _ _ Hq).
  - unfold rollback_unaccepted_budget. by destruct (budget_reservations _ !! _).
  - cbn. set_solver.
  - unfold closed, close_child. destruct (child_results s !! c) as [st|]; [|done]. by destruct (run_result st).
  - unfold settle_budget_reservation. by destruct (budget_reservations s !! _).
  - unfold task_records, record_child_terminal_result. destruct (child_results s !! _) as [st|]; [|done]. cbv zeta.
    by destruct (answer_waits _ _ _ _).
  - unfold charge. by destruct (accounts s !! l).
Qed.

Lemma act_at_least n x y c : act x y -> at_least n x c -> at_least n y c.
Proof.
  intros Ha [Hacc Hn]. split; [by apply (act_accepted _ _ Ha)|].
  assert (forall s ts c' t0 t1, x = (s, ts) -> ts !! c' = Some t0 -> (stage t0 <= stage t1)%nat ->
    forall t, <[c' := t1]> ts !! c = Some t -> (n <= stage t)%nat) as Hins.
  { intros s ts c' t0 t1 -> H0' Hle t Ht. cbn in *. destruct (decide (c' = c)) as [<-|Hne].
    - rewrite lookup_insert_eq in Ht. injection Ht as <-. specialize (Hn _ H0'). lia.
    - rewrite lookup_insert_ne in Ht by done. auto. }
  destruct Ha as [| |s ts now config parent j Hs| |s ts c' config r Hc|s ts c' config r r' Hc|s ts c' config r l now el Hc|s ts c' config Hc|];
    cbn [fst snd] in *; try done.
  - intros t Ht. destruct (decide (spawn_agent_id config = c)) as [<-|Hne]; [by destruct (shaped_new _ _ _ Hs)|].
    rewrite lookup_insert_ne in Ht by done. auto.
  - eapply Hins; [done|done|cbn; lia].
  - eapply Hins; [done|done|cbn; lia].
  - eapply Hins; [done|done|cbn; lia].
  - intros t Ht. apply lookup_delete_Some in Ht as [_ Ht]. auto.
Qed.

Lemma acts_at_least n x y c : rtc act x y -> at_least n x c -> at_least n y c.
Proof. induction 1; eauto using act_at_least. Qed.

(** A transition keeps a join waiting, or it records the child. *)
Lemma act_joined x y c tx : act x y -> Inv x -> joined x c tx -> joined y c tx \/ at_least 3 y c.
Proof.
  intros Ha HI (st & Hc & Hr & Hin). destruct (inv_results _ HI _ _ Hc) as [Hacc _].
  destruct Ha as [s s' ts Hq| |s ts now config parent j Hs|s ts c'|s ts c' config r|
    |s ts c' config r l now el Ht| |s ts l]; cbn [fst snd] in *; try (by left; exists st).
  - left. destruct (grow_lookup_back _ _ _ _ (quiet_results _ _ Hq) Hc) as (st' & Hs' & _ & Hr' & Hj).
    exists st'. split_and!; [done|congruence|by apply Hj].
  - left. exists st. split_and!; [|done..]. unfold rollback_unaccepted_budget. by destruct (budget_reservations _ !! _).
  - left. exists st. split_and!; [|done..]. cbn. rewrite lookup_insert_ne; [done|].
    intros <-. by destruct (shaped_new _ _ _ Hs).
  - left. exists st. split_and!; [|done..]. unfold closed, close_child.
    destruct (child_results s !! c') as [st'|] eqn:E; [|done]. destruct (run_result st') as [t|] eqn:Er; [|done].
    cbn. rewrite lookup_delete_ne; [done|]. congruence.
  - left. exists st. split_and!; [|done..]. unfold settle_budget_reservation. by destruct (budget_reservations s !! _).
  - destruct (inv_tasks _ HI c' _ Ht) as (Hid & _ & Hst). cbn in Hid, Hst. destruct Hst as (st0 & Hs0 & Hr0); [done|].
    unfold task_records. destruct (record_spec l now (terminal_of config el r) s st0) as (m & st1 & Hres & Hm & _ & _ & Hq).
    { cbn. by rewrite Hid. }
    cbn [terminal_of terminal_id] in Hres. rewrite Hid in Hres. destruct (decide (c' = c)) as [<-|Hne].
    + right. split; cbn [fst snd]; [rewrite <- (quiet_accepted _ _ Hq) in Hacc; exact Hacc|]. intros t. rewrite lookup_insert_eq. by intros [= <-].
    + left. destruct (grow_lookup_back _ _ _ _ Hm Hc) as (st' & Hs' & _ & Hr' & Hj). exists st'. cbn [fst].
      rewrite Hres, lookup_insert_ne by done. split_and!; [done|congruence|by apply Hj].
  - left. exists st. split_and!; [|done..]. unfold charge. by destruct (accounts s !! l).
Qed.

Lemma acts_joined x y c tx : rtc act x y -> Inv x -> joined x c tx -> joined y c tx \/ at_least 3 y c.
Proof.
  induction 1 as [|x y z Ha Hr IH]; intros HI Hj; [by left|].
  destruct (act_joined _ _ _ _ Ha HI Hj) as [Hj'|Hd].
  - apply IH; [by apply (inv_act x)|done].
  - right. by apply (acts_at_least _ y).
Qed.

Lemma joined_unfinished x c tx : Inv x -> joined x c tx -> ~ at_least 3 x c.
Proof.
  intros HI (st & Hc & Hr & _) [_ Hn]. destruct (inv_results _ HI _ _ Hc) as [_ Hu].
  destruct (Hu Hr) as (t & Ht & Hp). specialize (Hn _ Ht). unfold stage in Hn. destruct (phase t); done || lia.
Qed.

(** The join was answered with the result of the child. *)
Definition answered (w : World) (c : AgentId) (tx : nat) : Prop :=
  exists t, terminal_id t = c /\ (tx, ReplyJoin (Ok t)) ∈ log w.

Lemma effects_log es w : exists l, log (foldl apply_effect w es) = log w ++ l.
Proof.
  revert w. induction es as [|e es IH]; intros w; cbn; [exists []; by rewrite app_nil_r|].
  destruct (IH (apply_effect w e)) as [l Hl]. destruct e as [tx r| |]; cbn in Hl |- *; eauto.
  exists ((tx, r) :: l). by rewrite Hl, <- app_assoc.
Qed.

Lemma effects_sent es w tx r : Sent tx r ∈ es -> (tx, r) ∈ log (foldl apply_effect w es).
Proof.
  revert w. induction es as [|e es IH]; intros w; [by inversion 1|]. intros [<-|He]%elem_of_cons; [|by apply IH].
  change (foldl apply_effect w _) with (foldl apply_effect (apply_effect w (Sent tx r)) es).
  destruct (effects_log es (apply_effect w (Sent tx r))) as [l ->]. cbn. set_solver.
Qed.

Lemma step_log listening queue_open e w : exists l, log (step listening queue_open e w) = log w ++ l.
Proof.
  assert (exists l, log w = log w ++ l) as Hid by (exists []; by rewrite app_nil_r).
  assert (forall x, exists l, log (apply_step x w) = log w ++ l) as Hst.
  { intros x. unfold apply_step. destruct (effects_log (snd x) (with_sup (fst x) w)) as [l Hl]. eauto. }
  destruct e as [now caller p|now elapsed config immediate|c attempt|now c|now elapsed c|c|t|l tokens turns cost];
    cbn [step]; try apply Hst; try done.
  - destruct (tasks w !! c) as [[config []]|]; try done. by destruct (task_settles _ _ _) as [[s' r]|].
  - destruct (tasks w !! c) as [[config []]|]; try done. by destruct (task_journals _ _ _ _).
  - destruct (tasks w !! c) as [[config []]|]; try done. apply Hst.
  - by destruct (tasks w !! c) as [[config []]|].
  - destruct (bool_decide _); [|done]. apply Hst.
Qed.

Lemma step_answered listening queue_open e w c tx : answered w c tx -> answered (step listening queue_open e w) c tx.
Proof.
  intros (t & Ht & Hin). exists t. split; [done|]. destruct (step_log listening queue_open e w) as [l ->]. set_solver.
Qed.

Lemma effects_unfinished es w c : unfinished (tasks w) c -> unfinished (tasks (foldl apply_effect w es)) c.
Proof.
  revert w. induction es as [|e es IH]; intros w Hu; cbn; [done|]. apply IH. destruct e; cbn; try done.
  by apply unfinished_insert.
Qed.

(** Only recording its result finishes a child. *)
Lemma step_unfinished listening queue_open e w c :
  unfinished (tasks w) c -> unfinished (tasks (step listening queue_open e w)) c \/
  exists now elapsed config r, e = TaskRecords now elapsed c /\
    tasks w !! c = Some {| task_config := config; phase := Journaled r |}.
Proof.
  intros Hu. destruct e as [now caller p|now elapsed config immediate|c' attempt|now c'|now elapsed c'|c'|t|l tokens turns cost];
    cbn [step]; try (by left; apply effects_unfinished); try (by left).
  - left. destruct (tasks w !! c') as [[config []]|]; try done. destruct (task_settles _ _ _) as [[s' r]|]; [|done].
    by apply unfinished_insert.
  - left. destruct (tasks w !! c') as [[config []]|]; try done. destruct (task_journals _ _ _ _).
    by apply unfinished_insert.
  - destruct (tasks w !! c') as [[config []]|] eqn:Et; try (by left).
    destruct (decide (c' = c)) as [->|Hne]; [right; eauto 10|]. left. cbn.
    destruct (effects_unfinished (snd (task_records listening now elapsed config r (sup w)))
      (with_sup (fst (task_records listening now elapsed config r (sup w))) w) c Hu) as (t & Ht & Hp).
    exists t. unfold apply_step. by rewrite lookup_partial_alter_ne.
  - left. destruct (tasks w !! c') as [[config []]|] eqn:Et; try done.
    destruct Hu as (t & Ht & Hp). exists t. cbn. rewrite lookup_partial_alter_ne; [done|]. intros ->.
    rewrite Et in Ht. by injection Ht as <-.
  - left. destruct (bool_decide _); [|done]. by apply effects_unfinished.
Qed.

Lemma record_answers listening queue_open now elapsed config r w c tx :
  Inv (state w) -> joined (state w) c tx -> listening tx = true ->
  tasks w !! c = Some {| task_config := config; phase := Journaled r |} ->
  answered (step listening queue_open (TaskRecords now elapsed c) w) c tx.
Proof.
  intros HI (st & Hc & Hr & Hin) Hl Ht. cbn in Hc. cbn [step]. rewrite Ht.
  destruct (inv_tasks _ HI _ _ Ht) as (Hid & _). cbn in Hid.
  unfold answered, apply_step. cbn [log with_task].
  unfold task_records, record_child_terminal_result. cbn [terminal_of terminal_id]. rewrite Hid, Hc. cbv zeta.
  destruct (answer_waits _ _ _ _) as [cells waited]. cbn [fst snd].
  eexists. split; [|apply effects_sent, elem_of_app; left; apply list_elem_of_In, in_flat_map;
    exists tx; split; [by apply list_elem_of_In|]; unfold send; rewrite Hl; by left]. done.
Qed.

Lemma step_joined listening queue_open e w c tx :
  event_ok e -> Inv (state w) -> listening tx = true -> joined (state w) c tx ->
  joined (state (step listening queue_open e w)) c tx \/ answered (step listening queue_open e w) c tx.
Proof.
  intros He HI Hl Hj. pose proof (step_acts listening queue_open e w He HI) as Ha.
  destruct (acts_joined _ _ _ _ Ha HI Hj) as [?|Hd]; [by left|].
  pose proof Hj as (st & Hc & Hr & Hin). destruct (inv_results _ HI _ _ Hc) as [_ Hu].
  destruct (step_unfinished listening queue_open e w c (Hu Hr)) as [(t & Ht & Hp)|(now & el & config & r & -> & Ht)].
  - destruct Hd as [_ Hd]. specialize (Hd _ Ht). unfold stage in Hd. destruct (phase t); done || lia.
  - right. by eapply record_answers.
Qed.

Lemma run_task_total (config : SpawnConfig) (attempt : nat -> SpawnResult) (s : AgentSupervisor) : exists x, run_task_with_retries config attempt s = Some x.
Proof.
  unfold run_task_with_retries.
  destruct (retry_loop_ends retry_fuel (spawn_agent_id config) (restart_strategy config) attempt 0
    (retry_counts_shared s)) as (counts' & n & -> & _); [|by eexists].
  unfold retry_fuel. destruct (restart_strategy config); cbn [retry_limit unwrap_or]; lia.
Qed.

(** The stages of a task follow each other. *)
Lemma returns_stage listening queue_open c attempt w :
  at_least 0 (state w) c -> at_least 1 (state (step listening queue_open (TaskReturns c attempt) w)) c.
Proof.
  intros [Ha _]. cbn in Ha. cbn [step]. destruct (tasks w !! c) as [[config ph]|] eqn:Et.
  2: { split; [done|]. intros t Ht. cbn in Ht. congruence. }
  destruct ph; try (split; [done|]; intros t Ht; cbn in Ht; rewrite Et in Ht; injection Ht as <-; cbn; lia).
  unfold task_settles. destruct (run_task_total config attempt (sup w)) as [[s' [k r]] Er]. rewrite Er, state_task.
  apply run_task_shape in Er. split.
  - cbn. rewrite <- (quiet_accepted _ _ Er) in Ha. unfold settle_budget_reservation.
    by destruct (budget_reservations s' !! _).
  - intros t Ht. cbn in Ht. rewrite lookup_insert_eq in Ht. injection Ht as <-. cbn. lia.
Qed.

Lemma journals_stage listening queue_open c now w :
  at_least 1 (state w) c -> at_least 2 (state (step listening queue_open (TaskJournals now c) w)) c.
Proof.
  intros [Ha Hn]. cbn in Ha, Hn. cbn [step]. destruct (tasks w !! c) as [[config ph]|] eqn:Et.
  2: { split; [done|]. intros t Ht. cbn in Ht. congruence. }
  destruct ph as [|r|r|]; try (split; [done|]; intros t Ht; cbn in Ht; rewrite Et in Ht; injection Ht as <-; cbn; lia).
  { specialize (Hn _ eq_refl). cbn in Hn. lia. }
  pose proof (quiet_journals now config r (sup w)) as Hq.
  destruct (task_journals now config r (sup w)) as [s' r']. rewrite state_task. split.
  - cbn. by rewrite <- (quiet_accepted _ _ Hq) in Ha.
  - intros t Ht. cbn in Ht. rewrite lookup_insert_eq in Ht. injection Ht as <-. cbn. lia.
Qed.

Lemma records_stage listening queue_open c now elapsed w :
  event_ok (TaskRecords now elapsed c) -> Inv (state w) ->
  at_least 2 (state w) c -> at_least 3 (state (step listening queue_open (TaskRecords now elapsed c) w)) c.
Proof.
  intros He HI [Ha Hn]. pose proof (step_acts listening queue_open _ w He HI) as Hacts.
  pose proof (acts_at_least 2 _ _ _ Hacts (conj Ha Hn)) as [Ha' _]. split; [done|].
  cbn in Hn |- *. destruct (tasks w !! c) as [[config ph]|] eqn:Et; [|congruence].
  specialize (Hn _ eq_refl). cbn in Hn.
  destruct ph; try (cbn in Hn; lia); intros t Ht; cbn in Ht.
  - rewrite lookup_partial_alter_eq in Ht. injection Ht as <-. cbn. lia.
  - rewrite Et in Ht. injection Ht as <-. cbn. lia.
Qed.

(** In [evs] the task of [c] comes to its end, other events in between. *)
Definition finishes (c : AgentId) (evs : Run) : Prop :=
  exists e1 x1 e2 x2 e3 x3 e4 attempt now1 now2 elapsed,
    evs = e1 ++ x1 :: e2 ++ x2 :: e3 ++ x3 :: e4 /\ snd x1 = TaskReturns c attempt /\
    snd x2 = TaskJournals now1 c /\ snd x3 = TaskRecords now2 elapsed c.

Lemma run_app evs evs' w : run (evs ++ evs') w = run evs' (run evs w).
Proof. apply foldl_app. Qed.
Lemma run_cons listening queue_open e evs w :
  run ((listening, queue_open, e) :: evs) w = run evs (step listening queue_open e w).
Proof. done. Qed.

Lemma run_at_least n evs w c :
  run_ok evs -> Inv (state w) -> at_least n (state w) c ->
  at_least n (state (run evs w)) c /\ Inv (state (run evs w)).
Proof. intros Hok HI Hn. destruct (run_acts evs w Hok HI) as [Ha HI']. split; [by apply (acts_at_least n _ _ _ Ha)|done]. Qed.

Lemma finishes_done c evs w :
  run_ok evs -> Inv (state w) -> c ∈ accepted_child_ids (sup w) -> finishes c evs -> at_least 3 (state (run evs w)) c.
Proof.
  intros Hok HI Ha (e1 & [[l1 q1] x1] & e2 & [[l2 q2] x2] & e3 & [[l3 q3] x3] & e4 & attempt & now1 & now2 & elapsed & -> & E1 & E2 & E3).
  cbn in E1, E2, E3. subst. unfold run_ok in Hok.
  apply Forall_app in Hok as [Hok1 Hok]. inversion_clear Hok as [|? ? Hx1 Hok2].
  apply Forall_app in Hok2 as [Hok2 Hok]. inversion_clear Hok as [|? ? Hx2 Hok3].
  apply Forall_app in Hok3 as [Hok3 Hok]. inversion_clear Hok as [|? ? Hx3 Hok4].
  rewrite run_app, run_cons, run_app, run_cons, run_app, run_cons.
  destruct (run_at_least 0 e1 w c Hok1 HI) as [Hs HI1]; [by split; [|lia]|]. set (w1 := run e1 w) in *.
  apply (returns_stage l1 q1 c attempt) in Hs.
  pose proof (acts_inv _ _ (step_acts l1 q1 _ _ Hx1 HI1) HI1) as HI1'. cbn [snd] in HI1'.
  destruct (run_at_least 1 e2 _ c Hok2 HI1' Hs) as [Hs2 HI2]. apply (journals_stage l2 q2 c now1) in Hs2.
  pose proof (acts_inv _ _ (step_acts l2 q2 _ _ Hx2 HI2) HI2) as HI2'. cbn [snd] in HI2'.
  destruct (run_at_least 2 e3 _ c Hok3 HI2' Hs2) as [Hs3 HI3]. apply (records_stage l3 q3 c now2 elapsed _ Hx3 HI3) in Hs3.
  pose proof (acts_inv _ _ (step_acts l3 q3 _ _ Hx3 HI3) HI3) as HI3'.
  by apply (run_at_least 3).
Qed.

Lemma run_joined evs w c tx :
  run_ok evs -> Inv (state w) -> Forall (fun x => x.1.1 tx = true) evs ->
  joined (state w) c tx \/ answered w c tx -> joined (state (run evs w)) c tx \/ answered (run evs w) c tx.
Proof.
  intros Hok HI Hl. revert w HI. induction Hok as [|[[l q] e] evs He _ IH]; intros w HI Hj; [done|].
  inversion_clear Hl as [|? ? Hl1 Hl2]. rewrite run_cons. apply IH; [done| |].
  - exact (acts_inv _ _ (step_acts l q e w He HI) HI).
  - destruct Hj as [Hj|Hj]; [by apply step_joined|right; by apply step_answered].
Qed.

(** C30. A join is answered.  After any run, when the owner of a child joins it and keeps listening, then
    once the task of the child has come to its end, whatever other messages, spawns, timers and tasks
    come in between, the join has been answered with the result of that child: no completion is lost
    between the look at the cached result and the registration of the waiter. *)
Theorem join_is_answered cap b root factory j evs caller c tx listening queue_open now evs' :
  FactoryLaws factory -> sized b -> run_ok evs -> run_ok evs' ->
  let w := run evs (fresh_world cap b root factory j) in
  owns (sup w) caller c -> listening tx = true -> Forall (fun x => x.1.1 tx = true) evs' -> finishes c evs' ->
  answered (run evs' (step listening queue_open (Dispatch now caller (JoinChild c tx)) w)) c tx.
Proof.
  intros HF Hb Hok Hok' w Ho Hl Hls Hfin. pose proof (run_inv cap b root factory j evs HF Hb Hok) as HI.
  fold w in HI. set (w1 := step _ _ _ w).
  assert (Inv (state w1)) as HI1 by (exact (acts_inv _ _ (step_acts listening queue_open (Dispatch now caller (JoinChild c tx)) w I HI) HI)).
  assert (joined (state w1) c tx \/ answered w1 c tx) as Hj.
  { unfold w1. cbn [step dispatch_message]. unfold owner_only.
    rewrite (proj2 (authorize_child_owner_Ok debug_str caller c (sup w))) by done.
    destruct Ho as [_ (st & Hc & _)]. unfold join_child. rewrite Hc.
    destruct (run_result st) as [t|] eqn:Er.
    - right. exists t. split; [by apply (inv_terminal _ HI c st)|]. unfold send. rewrite Hl. cbn. set_solver.
    - left. exists (push_join tx st). cbn. rewrite lookup_insert_eq. split_and!; [done..|]. set_solver. }
  assert (c ∈ accepted_child_ids (sup w1)) as Hacc.
  { destruct Ho as [_ (st & Hc & _)]. destruct (inv_results _ HI _ _ Hc) as [Ha _].
    pose proof (acts_at_least 0 _ _ c (step_acts listening queue_open (Dispatch now caller (JoinChild c tx)) w I HI)) as Hz.
    apply Hz. split; [done|]. intros; lia. }
  destruct (run_joined evs' w1 c tx Hok' HI1 Hls Hj) as [Hj'|]; [|done].
  exfalso. apply (joined_unfinished _ _ _ (proj2 (run_acts evs' w1 Hok' HI1)) Hj').
  by apply finishes_done.
Qed.
End Supervision.

(** ** A concrete run

    The root spawns a child with its own token, the child spawns another; both are joined by their
    owners, and the grandchild's task ends. *)

#[export] Instance ex_factory_laws : FactoryLaws ex_factory.
Proof. split; by intros ? ? ? [= ->]. Qed.

Definition ex_delegate (c parent : AgentId) (tokens sub_agents : N) : SpawnConfig N := {|
  spawn_agent_id := c; parent_id := parent; capability := Some sample_parent;
  spawn_budget := budget_new tokens 2 1%N sub_agents; restart_strategy := RetryOnce;
  placement := "native"; task := "review"; instructions := None; placement_target := None |}.

Definition ex_output : AgentLoopOutput unit N := {|
  exit_reason := Complete; messages := []; token_usage := TokenUsage_default; reported_tool_uses := None;
  output_turns := 1; output_cost := 0%N |}.

Definition ex_event (e : @Event unit N) : (nat -> bool) * (AgentId -> bool) * @Event unit N :=
  (fun _ => true, fun _ => true, e).

Definition ex_spawns : @Run unit N := [
  ex_event (Dispatch 1 "root" (Spawn (ex_delegate "child" "root" 60 1) 0));
  ex_event (Dispatch 2 "child" (Spawn (ex_delegate "grand" "child" 20 1) 1))].

Definition ex_ends : @Run unit N := [
  ex_event (TaskReturns "grand" (fun k => match k with O => Err SpawnMissingTask | _ => Ok ex_output end));
  ex_event (Dispatch 4 "root" (CancelChild "child" 7));
  ex_event (TaskJournals 5 "grand"); ex_event (TaskRecords 6 3 "grand")].

Definition ex_budget : ResourceBudget N := budget_new 100 10 20%N 3.
Definition ex_world : @World unit N (@InMemoryJournalStorage unit) :=
  run (fun x => x) ex_spawns (fresh_world sample_parent ex_budget "root" ex_factory []).

Lemma ex_sized : sized ex_budget.
Proof. by split; vm_compute. Qed.
Lemma ex_spawns_ok : run_ok ex_spawns.
Proof. by repeat constructor; vm_compute. Qed.
Lemma ex_ends_ok : run_ok ex_ends.
Proof. by repeat constructor. Qed.

Lemma only_the_owner_controls_witness :
  exists tx r, answer_to (@CancelChild N "grand" 9) = Some tx /\ refusal r /\
    dispatch_message (fun x => x) (fun _ => true) (fun _ => true) 3 "root" (CancelChild "grand" 9) (sup ex_world)
      = (sup ex_world, send (fun _ => true) tx r).
Proof.
  apply (only_the_owner_controls (fun x => x) (fun _ => true) (fun _ => true) 3 "root" (CancelChild "grand" 9)
    (sup ex_world) "grand").
  - by left.
  - intros [_ (st & Hs & Ho)]. vm_compute in Hs. injection Hs as <-. vm_compute in Ho. discriminate.
Defined.

Lemma delegation_never_widens_witness :
  capability_of (sup ex_world) "grand" = Some sample_parent /\
  allowed sample_parent (WriteReq "/workspace/./x/../out/a") = true.
Proof.
  assert (capability_of (sup ex_world) "grand" = Some sample_parent) as Hc by (vm_compute; reflexivity).
  split; [exact Hc|].
  apply (delegation_never_widens (fun x => x) sample_parent ex_budget "root" ex_factory [] ex_spawns "grand" sample_parent);
    [apply ex_factory_laws|apply ex_sized|apply ex_spawns_ok|exact Hc|reflexivity|reflexivity].
Defined.

(** The child of the root reserves 60 tokens of the root's account, its own child 20 of its. *)
Lemma reservations_balance_witness :
  option_map reserved_tokens (accounts (sup ex_world) !! 0%nat) = Some 60%N /\
  promised reservation_tokens 0 (budget_reservations (sup ex_world)) = 60%N.
Proof.
  destruct (accounts (sup ex_world) !! 0%nat) as [a|] eqn:Ea; [|vm_compute in Ea; discriminate].
  destruct (reservations_balance (fun x => x) sample_parent ex_budget "root" ex_factory [] ex_spawns 0 a
    ex_factory_laws ex_sized ex_spawns_ok Ea) as (Hb & _ & _).
  assert (max_tokens (budget a) <> 0%N /\ reserved_tokens a = 60%N) as [Hm Hr].
  { vm_compute in Ea. injection Ea as <-. by vm_compute. }
  destruct (Hb Hm) as [E _]. split; [cbn; by rewrite Hr|]. transitivity (reserved_tokens a); [symmetry; exact E|exact Hr].
Defined.

Lemma join_is_answered_witness :
  answered (run (fun x => x) ex_ends (step (fun x => x) (fun _ => true) (fun _ => true)
    (Dispatch 3 "child" (JoinChild "grand" 5)) ex_world)) "grand" 5.
Proof.
  apply (join_is_answered (fun x => x) sample_parent ex_budget "root" ex_factory [] ex_spawns "child" "grand" 5
    (fun _ => true) (fun _ => true) 3 ex_ends ex_factory_laws ex_sized ex_spawns_ok ex_ends_ok).
  - split; [eexists; vm_compute; reflexivity|]. eexists. split; vm_compute; reflexivity.
  - reflexivity.
  - repeat constructor.
  - exists [], (ex_event (TaskReturns "grand" (fun k => match k with O => Err SpawnMissingTask | _ => Ok ex_output end))),
      [ex_event (Dispatch 4 "root" (CancelChild "child" 7))], (ex_event (TaskJournals 5 "grand")),
      [], (ex_event (TaskRecords 6 3 "grand")), []. by do 4 eexists.
Defined.

(** A journal that takes a number of entries and then fails. *)
#[export] Instance tape_journal : JournalStorage unit N nat := {|
  journal_append n _ := match n with O => (O, Err (Storage "full")) | S n => (n, Ok tt) end;
  journal_read_all _ _ := Ok []; journal_query_token_usage _ _ := Ok TokenUsage_default;
  journal_save_checkpoint n _ _ _ := (n, Ok tt); journal_fork_from _ _ _ := Ok []; journal_read_from _ _ _ := Ok [] |}.

(** The second spawn reserves, fails to journal, and gives back. *)
Lemma refused_spawn_costs_nothing_witness :
  let w := run (fun x => x) [List.hd (ex_event (TaskCleans "")) ex_spawns]
    (fresh_world sample_parent ex_budget "root" ex_factory 1%nat) in
  let x := dispatch_spawn (fun x => x) 3 "root" (ex_delegate "late" "root" 30 1) (sup w) in
  snd x = Err (JournalAppendFailed "SubAgentSpawned" (Storage "full")) /\
  budget_reservations (fst x) = budget_reservations (sup w).
Proof.
  intros w x. assert (snd x = Err (JournalAppendFailed "SubAgentSpawned" (Storage "full"))) as Hx by (vm_compute; reflexivity).
  split; [exact Hx|].
  destruct (accounts (sup w) !! 0%nat) as [a|] eqn:Ea; [|vm_compute in Ea; discriminate].
  assert (used_sub_agents (budget a) < u32_max /\ max_tokens (budget a) <> 0 /\ max_turns (budget a) <> 0)%N as (Hu & Ht & Hv).
  { vm_compute in Ea. injection Ea as <-. split; [reflexivity|split; discriminate]. }
  assert (run_ok [List.hd (ex_event (TaskCleans "")) ex_spawns]) as Hok by (constructor; [by split; vm_compute|constructor]).
  refine (proj1 (refused_spawn_costs_nothing (fun x => x) sample_parent ex_budget "root" ex_factory 1%nat
    [List.hd (ex_event (TaskCleans "")) ex_spawns] 3 "root" (ex_delegate "late" "root" 30 1) (fst x)
    (JournalAppendFailed "SubAgentSpawned" (Storage "full")) 0%nat a ex_factory_laws ex_sized Hok _ _ Ea Hu Ht Hv)).
  - split; vm_compute; discriminate.
  - rewrite <- Hx. apply surjective_pairing.
Defined.
