(* ===== verification/SpawnTool.v ===== *)
(** * The spawn tool and the production task factory

    Models [crates/simulacra-runtime/src/spawn_tool/]: what [spawn_agent] makes of a model's arguments
    ([tool.rs]), the path scopes it normalises and the before-hook of a spawn ([helpers.rs]), and the
    checks and the shaping of [AgentTaskFactory] ([factory.rs]), with the placement envelope of
    [crates/simulacra-config/src/lib.rs].  [AgentTaskFactory] discharges the [FactoryLaws] the
    supervisor's theorems assume.

    The JSON of the arguments and of the hook context is decoded and encoded by [serde_json], a
    parameter; the arguments are modelled from their decoded form.  Starting the child (its provider,
    environment and loop) is left out. *)

From S2P Require Import Prelude.
From S2P Require Import Text.
From S2P Require Import PathGlob.
From S2P Require Import Segments.
From S2P Require Import MemoryPath.
From S2P Require Import Context.
From S2P Require Import Budget.
From S2P Require Import Capability.
From S2P Require Import Journal.
From S2P Require Hooks.
From S2P Require Import Tools.
From S2P Require Import Supervisor.
From S2P Require Import Supervision.

(** ** Path scopes ([helpers.rs]) *)

Definition normalize_absolute_spawn_path (path : str) : str :=
  "/" ++ join "/" (fold_left normalize_segment (split_on "/" path) []).

Definition common_workspace_directories : list str :=
  [lit ".github"; lit "bench"; lit "benches"; lit "crate"; lit "crates"; lit "demo"; lit "demos"; lit "doc";
   lit "docs"; lit "example"; lit "examples"; lit "fixture"; lit "fixtures"; lit "rule"; lit "rules";
   lit "script"; lit "scripts"; lit "spec"; lit "specs"; lit "src"; lit "test"; lit "tests"; lit "workspace"].
Definition is_common_workspace_directory (leaf : str) : bool := mem leaf common_workspace_directories.

(** The last piece of a path. *)
Definition leaf_of (path : str) : str := List.last (split_on "/" path) [].

Definition normalize_spawn_path_scope (path : str) : str :=
  let had_trailing_slash := negb (str_eqb path "/") && ends_with "/" path in
  let trimmed := if str_eqb path "/" then path else trim_end_matches "/" path in
  if str_eqb trimmed [] || negb (starts_with "/" trimmed) then path
  else match strip_suffix "/**" trimmed with
  | Some prefix =>
      let normalized := normalize_absolute_spawn_path prefix in
      if str_eqb normalized "/" then lit "/**" else normalized ++ "/**"
  | None =>
      match (match strip_suffix "/*" trimmed with
             | Some prefix => if contains_char "*" prefix then None else Some prefix
             | None => None end) with
      | Some prefix => trim_end_matches "/" (normalize_absolute_spawn_path prefix) ++ "/*"
      | None =>
          if contains_char "*" path then path
          else
            let normalized := normalize_absolute_spawn_path trimmed in
            if str_eqb normalized "/" then lit "/**"
            else if had_trailing_slash || is_common_workspace_directory (leaf_of normalized)
            then normalized ++ "/**"
            else normalized
      end
  end.

(** ** The placement envelope ([simulacra-config]) *)

Record MemoryCapabilityConfig := {
  config_enabled : bool;
  config_search_scopes : list str;
  config_write_scopes : list str;
}.

Record CapabilitiesConfig := {
  caps_network : list str;
  caps_mcp : list str;
  caps_shell : bool;
  caps_javascript : bool;
  caps_python : bool;
  caps_paths_read : list str;
  caps_paths_write : list str;
  caps_skill_patterns : list str;
  caps_memory : option MemoryCapabilityConfig;
}.

Definition parse_scopes (raw : list str) : list MemoryPath :=
  omap (fun s => match memory_parse s with Ok p => Some p | Err _ => None end) raw.

Definition build_memory_capability (config : option MemoryCapabilityConfig) : MemoryCapability :=
  match config with
  | None => empty_memory
  | Some cfg =>
      {| enabled := config_enabled cfg; search_scopes := parse_scopes (config_search_scopes cfg);
         write_scopes := parse_scopes (config_write_scopes cfg) |}
  end.

Definition normalize_skill_capability_pattern (pattern : str) : str :=
  let pattern := trim pattern in
  if starts_with "skill:" pattern || str_eqb pattern "*" then pattern else "skill:" ++ pattern.

Definition with_spawn_placements (t : CapabilityToken) (placements : list str) : CapabilityToken :=
  {| network := network t; mcp_tools := mcp_tools t; shell := shell t; javascript := javascript t;
     python := python t; paths_write := paths_write t; paths_read := paths_read t;
     spawn_placements := placements; skill_patterns := skill_patterns t; memory := memory t |}.

Definition build_capability_token_from_parts (capabilities : option CapabilitiesConfig)
    (spawn_placements : list str) : CapabilityToken :=
  let token := match capabilities with
    | Some caps =>
        {| network := caps_network caps; mcp_tools := caps_mcp caps; shell := caps_shell caps;
           javascript := caps_javascript caps; python := caps_python caps;
           paths_write := caps_paths_write caps; paths_read := caps_paths_read caps;
           Capability.spawn_placements := [];
           skill_patterns := List.map normalize_skill_capability_pattern (caps_skill_patterns caps);
           memory := build_memory_capability (caps_memory caps) |}
    | None => CapabilityToken_default
    end in
  with_spawn_placements token spawn_placements.

(** ** Names of children ([tool.rs]) *)

Definition validate_text (value field : str) : result unit ToolError :=
  if str_eqb (trim value) [] then Err (InvalidArguments (field ++ " must be a non-blank string")) else Ok tt.

Definition is_task_name_char (c : ascii) : bool := is_ascii_lowercase c || is_ascii_digit c || Ascii.eqb c "_".

(** The length is in characters; it is taken of names of ASCII characters only. *)
Definition validate_task_name (value : str) : result unit ToolError :=
  let? _ := validate_text value "task_name" in
  if contains_char "/" value then Err (InvalidArguments "task_name must not contain '/'")
  else if mem value [lit "forge"; lit "."; lit ".."] then
    Err (InvalidArguments "task_name is reserved; choose a different name")
  else if negb (forallb is_task_name_char value) then
    Err (InvalidArguments "task_name may only contain ASCII lowercase letters, digits, and underscores")
  else if (64 <? length value)%nat then
    Err (InvalidArguments ("task_name has " ++ dec (N.of_nat (length value)) ++ " characters; maximum is 64"))
  else Ok tt.

Definition is_ascii_whitespace (c : ascii) : bool :=
  mem (nat_of_ascii c) [9; 10; 12; 13; 32]%nat.

(** One character of the loop of [derive_auto_slug], over the slug and whether white space is pending.  A
    byte of a character beyond ASCII is none of the classes and is dropped, as the character is. *)
Definition slug_char (acc : str * bool) (c : ascii) : str * bool :=
  let '(slug, pending) := acc in
  let flushed := if pending && negb (str_eqb slug []) then slug ++ ["_"%char] else slug in
  if is_ascii_alphanumeric c then (flushed ++ [to_ascii_lowercase c], false)
  else if Ascii.eqb c "_" then (flushed ++ [c], false)
  else if is_ascii_whitespace c then (slug, true)
  else (slug, pending).

Definition derive_auto_slug (task : str) : str :=
  firstn 32 (trim_end_matches "_" (trim_start_matches "_" (fst (fold_left slug_char task ([], false))))).

(** [AUTO_SLUG_SEGMENTS]: the segments taken, by parent. *)
Notation Registry := (gmap str (gset str)).
Definition taken (registry : Registry) (parent : str) : gset str := unwrap_or (registry !! parent) ∅.

(** The candidates in the order they are tried: the slug, then [_2] to [_100]. *)
Definition slug_candidates (slug : str) : list str :=
  slug :: List.map (fun k => slug ++ "_" ++ dec (N.of_nat k)) (seq 2 99).

Definition reserve_auto_slug_segment (registry : Registry) (parent slug : str) : Registry * option str :=
  match List.find (fun candidate => negb (bool_decide (candidate ∈ taken registry parent))) (slug_candidates slug) with
  | Some segment => (<[parent := {[segment]} ∪ taken registry parent]> registry, Some segment)
  | None => (<[parent := taken registry parent]> registry, None)
  end.

Definition compose_child_path (parent segment : str) : str :=
  if starts_with "/forge/" parent then parent ++ "/" ++ segment else "/forge/" ++ segment.

(** [{:016x}] of a [u64]. *)
Definition hex_digit (n : N) : ascii := ascii_of_N (if (n <? 10)%N then 48 + n else 87 + n)%N.
Definition hex16 (n : N) : str := List.map (fun k => hex_digit (N.land (N.shiftr n (4 * N.of_nat k)) 15)) (rev (seq 0 16)).

(** The state the tool keeps between calls: the registry and the counter of fallback ids. *)
Record Naming := { registry : Registry; next_child : N }.

Definition next_child_id (nanos : N) (n : Naming) : Naming * str :=
  ({| registry := registry n; next_child := ((next_child n + 1) mod 2 ^ 64)%N |},
   "child-" ++ hex16 nanos ++ hex16 (next_child n)).

(** The id of the child of a call: from the name the model chose, from the task, or a fallback. *)
Definition child_id_of (nanos : N) (parent : str) (task_name : option str) (task : str) (n : Naming)
    : Naming * result str ToolError :=
  match task_name with
  | Some name =>
      (n, let? _ := validate_task_name name in Ok (compose_child_path parent name))
  | None =>
      let slug := derive_auto_slug task in
      if str_eqb slug [] then let '(n, c) := next_child_id nanos n in (n, Ok c)
      else
        let '(r, segment) := reserve_auto_slug_segment (registry n) parent slug in
        let n := {| registry := r; next_child := next_child n |} in
        match segment with
        | Some segment => (n, Ok (compose_child_path parent segment))
        | None => let '(n, c) := next_child_id nanos n in (n, Ok c)
        end
  end.

(** ** What the model may ask for *)

Record SpawnCapabilities := {
  want_network : option (list str);
  want_mcp_tools : option (list str);
  want_shell : option bool;
  want_javascript : option bool;
  want_python : option bool;
  want_paths_write : option (list str);
  want_paths_read : option (list str);
  want_spawn_placements : option (list str);
}.

(** [path_pattern_is_supported(value.trim_end_matches('/')) || path_pattern_is_supported(value)]. *)
Definition pattern_ok (value : str) : bool := is_supported (trim_end_matches "/" value) || is_supported value.

Definition check_patterns (field : str) (values : option (list str)) : result unit ToolError :=
  match List.find (fun v => negb (pattern_ok v)) (unwrap_or values []) with
  | Some value => Err (InvalidArguments (field ++ " pattern " ++ value
      ++ " is not supported: use /dir/** for a directory and everything below it, /dir/* for its direct entries, or an exact path"))
  | None => Ok tt
  end.

Definition check_path_patterns (c : SpawnCapabilities) : result unit ToolError :=
  let? _ := check_patterns "paths_read" (want_paths_read c) in
  check_patterns "paths_write" (want_paths_write c).

(** The token a request asks for, before it is intersected with the caller's. *)
Definition requested_token (c : SpawnCapabilities) (parent : CapabilityToken) : CapabilityToken :=
  {| network := unwrap_or (want_network c) (network parent);
     mcp_tools := unwrap_or (want_mcp_tools c) (mcp_tools parent);
     shell := unwrap_or (want_shell c) (shell parent);
     javascript := unwrap_or (want_javascript c) (javascript parent);
     python := unwrap_or (want_python c) (python parent);
     paths_write := match want_paths_write c with
       | Some values => List.map normalize_spawn_path_scope values | None => paths_write parent end;
     paths_read := match want_paths_read c with
       | Some values => List.map normalize_spawn_path_scope values | None => paths_read parent end;
     Capability.spawn_placements := unwrap_or (want_spawn_placements c) (Capability.spawn_placements parent);
     skill_patterns := skill_patterns parent;
     memory := memory parent |}.

Definition into_token (c : SpawnCapabilities) (parent : CapabilityToken) : CapabilityToken :=
  intersect parent (requested_token c parent).

Section SpawnTool.
Context {Value Decimal J W : Type} `{DecimalOps Decimal} `{DecimalArith Decimal}
  `{@JournalStorage Value Decimal J}.

(** [{:?}] of a string, [str::parse::<Decimal>] and [is_sign_negative]. *)
Context (debug_str : str -> str) (parse_decimal : str -> option Decimal) (is_sign_negative : Decimal -> bool).

(** [validate_limit], at the type of the limit. *)
Definition validate_limit {T} (zero : T) (eqb gt : T -> T -> bool) (show : T -> str)
    (field : str) (requested parent_maximum parent_remaining : T) : result unit ToolError :=
  if eqb requested zero && negb (eqb parent_maximum zero) then
    Err (InvalidArguments (field ++ " requested " ++ show requested ++ " (unlimited), but parent remaining is "
      ++ show parent_remaining))
  else if negb (eqb requested zero) && negb (eqb parent_maximum zero) && gt requested parent_remaining then
    Err (InvalidArguments (field ++ " requested " ++ show requested ++ " exceeds parent remaining "
      ++ show parent_remaining))
  else Ok tt.

Definition validate_count_limit (field : str) (requested maximum remaining : N) : result unit ToolError :=
  validate_limit 0%N N.eqb (fun a b => (b <? a)%N) dec field requested maximum remaining.

Definition validate_parent_budget (requested parent : ResourceBudget Decimal) : result unit ToolError :=
  let? _ := validate_count_limit "max_tokens" (max_tokens requested) (max_tokens parent)
    (max_tokens parent - used_tokens parent)%N in
  let? _ := validate_count_limit "max_turns" (max_turns requested) (max_turns parent)
    (max_turns parent - used_turns parent)%N in
  let? _ := validate_limit decimal_zero decimal_eqb decimal_gt decimal_to_string "max_cost" (max_cost requested)
    (max_cost parent) (decimal_sub (max_cost parent) (decimal_min (used_cost parent) (max_cost parent))) in
  validate_count_limit "max_sub_agents" (max_sub_agents requested) (max_sub_agents parent)
    (max_sub_agents parent - used_sub_agents parent)%N.

Record SpawnBudget := {
  ask_tokens : N;
  ask_turns : N;
  ask_cost : str;
  ask_sub_agents : N;
}.

Record SpawnArguments := {
  arg_placement : str;
  arg_instructions : option str;
  arg_task : str;
  arg_budget : SpawnBudget;
  arg_capabilities : option SpawnCapabilities;
  arg_task_name : option str;
  arg_placement_target : option str;
}.

Definition MAX_INSTRUCTION_BYTES : N := 65536.

Definition shape_instructions (instructions : option str) : result (option str) ToolError :=
  match instructions with
  | None => Ok None
  | Some value =>
      if (MAX_INSTRUCTION_BYTES <? N.of_nat (length value))%N then
        Err (InvalidArguments ("instructions has " ++ dec (N.of_nat (length value)) ++ " UTF-8 bytes; maximum is "
          ++ dec MAX_INSTRUCTION_BYTES))
      else Ok (if str_eqb (trim value) [] then None else Some value)
  end.

Definition check_placement (allowed_placements caller_placements : list str) (p : str) : result unit ToolError :=
  let available := dedup (merge_sort str_le allowed_placements) in
  if negb (mem p available) then
    Err (InvalidArguments ("unknown or unauthorized placement " ++ debug_str p
      ++ (match available with [] => [] | _ => "; available placements: " ++ join ", " available end)))
  else if negb (mem p caller_placements) then
    Err (InvalidArguments ("placement " ++ debug_str p ++ " is not authorized by caller spawn_placements"))
  else Ok tt.

Definition parse_cost (s : str) : result Decimal ToolError :=
  let e := InvalidArguments ("max_cost " ++ debug_str s ++ " is not a nonnegative decimal string") in
  match parse_decimal s with
  | None => Err e
  | Some d => if is_sign_negative d then Err e else Ok d
  end.

(** [SpawnAgentTool]: the placements it offers, its agent, and the agent's budget. *)
Record SpawnAgentTool := {
  allowed_placements : list str;
  tool_parent_id : AgentId;
  tool_parent_budget : ResourceBudget Decimal;
}.

(** [call], from the decoded arguments to the configuration sent to the supervisor.  A name is taken only
    after every other check. *)
Definition spawn_call (nanos : N) (tool : SpawnAgentTool) (caller : CapabilityToken) (args : SpawnArguments)
    (n : Naming) : Naming * result (SpawnConfig Decimal) ToolError :=
  let checked :=
    let? _ := validate_text (arg_placement args) "placement" in
    let? _ := validate_text (arg_task args) "task" in
    let? _ := match arg_capabilities args with Some c => check_path_patterns c | None => Ok tt end in
    let? instructions := shape_instructions (arg_instructions args) in
    let? _ := check_placement (allowed_placements tool) (Capability.spawn_placements caller) (arg_placement args) in
    let? max_cost := parse_cost (ask_cost (arg_budget args)) in
    let requested := budget_new (ask_tokens (arg_budget args)) (ask_turns (arg_budget args)) max_cost
      (ask_sub_agents (arg_budget args)) in
    let? _ := validate_parent_budget requested (tool_parent_budget tool) in
    Ok (instructions, requested) in
  match checked with
  | Err e => (n, Err e)
  | Ok (instructions, requested) =>
      let '(n, c) := child_id_of nanos (tool_parent_id tool) (arg_task_name args) (arg_task args) n in
      (n, let? c := c in
          Ok {| spawn_agent_id := c; parent_id := tool_parent_id tool;
                capability := option_map (fun o => into_token o caller) (arg_capabilities args);
                spawn_budget := requested; restart_strategy := LetCrash; placement := arg_placement args;
                task := arg_task args; instructions := instructions;
                placement_target := arg_placement_target args |})
  end.

(** ** The production factory ([factory.rs]) *)

Record ChildPlacementConfig := {
  backend : AgentBackend;
  model : option str;
  acp_profile : option str;
  placement_capabilities : option CapabilitiesConfig;
  limit_turns : option N;
  limit_tokens : option N;
  limit_cost : option Decimal;
  limit_sub_agents : option N;
  allowed_child_placements : list str;
}.

Definition build_child_placement_capability (p : ChildPlacementConfig) : CapabilityToken :=
  build_capability_token_from_parts (placement_capabilities p) (allowed_child_placements p).

Definition effective_spawn_capability (p : ChildPlacementConfig) (requested : option CapabilityToken)
    (parent : CapabilityToken) : CapabilityToken :=
  let configured := build_child_placement_capability p in
  match requested with
  | Some requested => intersect (intersect configured requested) parent
  | None => intersect configured parent
  end.

Definition unknown_placement_error (placements : gmap str ChildPlacementConfig) (requested : str) : RuntimeError :=
  let available := merge_sort str_le (List.map fst (map_to_list placements)) in
  Session ("unknown child placement " ++ debug_str requested
    ++ (match available with [] => [] | _ => "; available placements: " ++ join ", " available end)).

Definition native_placement_model (name : str) (p : ChildPlacementConfig) : result str RuntimeError :=
  let e := Session ("native child placement " ++ debug_str name ++ " requires a non-blank model") in
  match model p with
  | Some m => if str_eqb (trim m) [] then Err e else Ok m
  | None => Err e
  end.

Definition validate_placement_limit {T} (zero : T) (eqb gt : T -> T -> bool) (show : T -> str)
    (field : str) (requested : T) (maximum : option T) : result unit RuntimeError :=
  match maximum with
  | None => Ok tt
  | Some maximum =>
      if eqb maximum zero then Ok tt
      else if eqb requested zero then
        Err (Session (field ++ " requested " ++ show requested ++ " (unlimited), but placement limit is " ++ show maximum))
      else if gt requested maximum then
        Err (Session (field ++ " requested " ++ show requested ++ " exceeds placement limit " ++ show maximum))
      else Ok tt
  end.

Definition validate_placement_count (field : str) (requested : N) (maximum : option N) : result unit RuntimeError :=
  validate_placement_limit 0%N N.eqb (fun a b => (b <? a)%N) dec field requested maximum.

Definition validate_placement_budget (requested : ResourceBudget Decimal) (p : ChildPlacementConfig)
    : result unit RuntimeError :=
  let? _ := validate_placement_count "max_tokens" (max_tokens requested) (limit_tokens p) in
  let? _ := validate_placement_count "max_turns" (max_turns requested) (limit_turns p) in
  let? _ := validate_placement_limit decimal_zero decimal_eqb decimal_gt decimal_to_string "max_cost"
    (max_cost requested) (limit_cost p) in
  validate_placement_count "max_sub_agents" (max_sub_agents requested) (limit_sub_agents p).

(** *** The before-hook of a spawn ([helpers.rs]) *)

Record SpawnHookBudget := {
  hook_tokens : N;
  hook_turns : N;
  hook_cost : Decimal;
  hook_sub_agents : N;
}.

Definition from_resource (b : ResourceBudget Decimal) : SpawnHookBudget :=
  {| hook_tokens := max_tokens b; hook_turns := max_turns b; hook_cost := max_cost b;
     hook_sub_agents := max_sub_agents b |}.

Definition apply_to (h : SpawnHookBudget) (b : ResourceBudget Decimal) : ResourceBudget Decimal :=
  {| max_tokens := hook_tokens h; max_turns := hook_turns h; max_cost := hook_cost h;
     max_sub_agents := hook_sub_agents h; max_vfs_bytes := max_vfs_bytes b; used_tokens := used_tokens b;
     used_turns := used_turns b; used_cost := used_cost b; used_sub_agents := used_sub_agents b;
     used_vfs_bytes := used_vfs_bytes b; max_fuel := max_fuel b; used_fuel := used_fuel b |}.

(** The capabilities of the context are the fields of the token, under the same names. *)
Record SpawnBeforeContext := {
  before_placement : str;
  before_backend : str;
  before_instructions : option str;
  before_task : str;
  before_budget : SpawnHookBudget;
  before_capabilities : CapabilityToken;
}.

Definition hook_limit_is_attenuation {T} (zero : T) (eqb gt : T -> T -> bool) (candidate original : T) : bool :=
  eqb original zero || (negb (eqb candidate zero) && negb (gt candidate original)).
Definition count_is_attenuation (candidate original : N) : bool :=
  hook_limit_is_attenuation 0%N N.eqb (fun a b => (b <? a)%N) candidate original.

Definition budget_is_attenuation (candidate original : SpawnHookBudget) : bool :=
  count_is_attenuation (hook_tokens candidate) (hook_tokens original)
  && count_is_attenuation (hook_turns candidate) (hook_turns original)
  && hook_limit_is_attenuation decimal_zero decimal_eqb decimal_gt (hook_cost candidate) (hook_cost original)
  && count_is_attenuation (hook_sub_agents candidate) (hook_sub_agents original).

(** What the hooks, the journal and the kill signals have become. *)
Record SpawnWorld := {
  hook_world : @Hooks.State W;
  hook_journal : J;
  kill_signals : list (AgentId * str * str);
}.

Definition hook_entry (now : N) (parent : AgentId) (kind : @JournalEntryKind Value) : @JournalEntry Value :=
  {| schema_version := JOURNAL_SCHEMA_VERSION; agent_id := parent; timestamp_ms := now; entry := kind |}.

Definition append_spawn_hook_entry (now : N) (parent : AgentId) (kind : @JournalEntryKind Value)
    : SE SpawnWorld RuntimeError unit := fun w =>
  let '(j, r) := journal_append (hook_journal w) (hook_entry now parent kind) in
  ({| hook_world := hook_world w; hook_journal := j; kill_signals := kill_signals w |},
   map_err (JournalAppendFailed "spawn hook") r).

(** The signal comes first; the audit entry may fail. *)
Definition authoritative_spawn_hook_kill {A} (now : N) (parent : AgentId) (hook reason : str)
    : SE SpawnWorld RuntimeError A := fun w =>
  let w := {| hook_world := hook_world w; hook_journal := hook_journal w;
              kill_signals := kill_signals w ++ [(parent, hook, reason)] |} in
  let '(w, _) := append_spawn_hook_entry now parent (HookKill hook "spawn" reason) w in
  (w, Err (HookKillError hook reason)).

(** [serde_json] on the context. *)
Context (to_json : SpawnBeforeContext -> result str str) (from_json : str -> result SpawnBeforeContext str).
Context (hook_error_to_string : Hooks.HookError -> str).

Definition run_before (p : @Hooks.HookPipeline W) (ctx : str)
    : SE SpawnWorld RuntimeError (result (Hooks.Verdict * str * option str) Hooks.HookError) := fun w =>
  let '(h, r) := Hooks.run_before_attributed p Hooks.Spawn ctx (hook_world w) in
  ({| hook_world := h; hook_journal := hook_journal w; kill_signals := kill_signals w |}, Ok r).

(** The first field the hooks must not have changed. *)
Definition changed_field (modified initial : SpawnBeforeContext) : option str :=
  if negb (str_eqb (before_placement modified) (before_placement initial)) then Some (lit "placement")
  else if negb (str_eqb (before_backend modified) (before_backend initial)) then Some (lit "backend")
  else if negb (bool_decide (before_instructions modified = before_instructions initial)) then Some (lit "instructions")
  else if negb (str_eqb (before_task modified) (before_task initial)) then Some (lit "task")
  else None.

Definition with_capability (config : SpawnConfig Decimal) (t : CapabilityToken) (b : ResourceBudget Decimal)
    : SpawnConfig Decimal :=
  {| spawn_agent_id := spawn_agent_id config; parent_id := parent_id config; capability := Some t;
     spawn_budget := b; restart_strategy := restart_strategy config; placement := placement config;
     task := task config; instructions := instructions config; placement_target := placement_target config |}.

(** The configuration the hooks leave: they may lower limits and drop capabilities. *)
Definition shaped_by (config : SpawnConfig Decimal) (initial modified : SpawnBeforeContext)
    : result (SpawnConfig Decimal) RuntimeError :=
  match changed_field modified initial with
  | Some field => Err (HookFailure ("spawn before-hook cannot modify " ++ field))
  | None =>
      if negb (budget_is_attenuation (before_budget modified) (before_budget initial)) then
        Err (HookFailure "spawn before-hook budget must attenuate the requested budget")
      else if negb (is_subset_of (before_capabilities modified) (before_capabilities initial)) then
        Err (HookFailure "spawn before-hook capabilities must attenuate the effective capabilities")
      else Ok (with_capability config (before_capabilities modified)
                 (apply_to (before_budget modified) (spawn_budget config)))
  end.

Definition run_spawn_before_hook (now : N) (pipeline : option (@Hooks.HookPipeline W)) (config : SpawnConfig Decimal)
    (b : AgentBackend) (effective : CapabilityToken) : SE SpawnWorld RuntimeError (SpawnConfig Decimal) :=
  match pipeline with
  | None => se_ret (with_capability config effective (spawn_budget config))
  | Some pipeline =>
      let initial := {| before_placement := placement config; before_backend := backend_name b;
                        before_instructions := instructions config; before_task := task config;
                        before_budget := from_resource (spawn_budget config); before_capabilities := effective |} in
      let! ctx := se_lift (map_err HookFailure (to_json initial)) in
      let! r := run_before pipeline ctx in
      match r with
      | Ok (Hooks.Continue _, modified, _) =>
          let! modified := se_lift (map_err (fun e => HookFailure ("invalid spawn before-hook context: " ++ e))
            (from_json modified)) in
          se_lift (shaped_by config initial modified)
      | Ok (Hooks.Deny reason, _, Some hook) =>
          let! _ := append_spawn_hook_entry now (parent_id config) (HookDenial hook "spawn" reason) in
          se_err (HookDenialError reason)
      | Ok (Hooks.Deny _, _, None) => se_err (HookFailure "spawn before-hook denied without hook attribution")
      | Ok (Hooks.Kill reason, _, Some hook) => authoritative_spawn_hook_kill now (parent_id config) hook reason
      | Ok (Hooks.Kill _, _, None) => se_err (HookFailure "spawn before-hook killed without hook attribution")
      | Err (Hooks.Killed hook reason) => authoritative_spawn_hook_kill now (parent_id config) hook reason
      | Err e => se_err (HookFailure (hook_error_to_string e))
      end
  end.

(** *** [AgentTaskFactory] *)

Record AgentTaskFactory := {
  child_placements : gmap str ChildPlacementConfig;
  pipeline : option (@Hooks.HookPipeline W);
  has_acp_runtime : bool;
}.

Definition factory_validate (f : AgentTaskFactory) (config : SpawnConfig Decimal) : result unit RuntimeError :=
  match child_placements f !! placement config with
  | None => Err (unknown_placement_error (child_placements f) (placement config))
  | Some p =>
      let? _ := match backend p with
                | Native => let? _ := native_placement_model (placement config) p in Ok tt
                | Acp => Ok tt end in
      let? _ := validate_placement_budget (spawn_budget config) p in
      match backend p with
      | Acp =>
          if has_acp_runtime f then Ok tt
          else Err (AcpChildRuntimeMissing (placement config) (unwrap_or (acp_profile p) (lit "<missing>")))
      | Native => Ok tt
      end
  end.

Definition factory_backend (f : AgentTaskFactory) (config : SpawnConfig Decimal) : AgentBackend :=
  match child_placements f !! placement config with Some p => backend p | None => Native end.

Definition factory_prepare (now : N) (f : AgentTaskFactory) (config : SpawnConfig Decimal) (caller : CapabilityToken)
    : SE SpawnWorld RuntimeError (SpawnConfig Decimal) :=
  match child_placements f !! placement config with
  | None => se_err (unknown_placement_error (child_placements f) (placement config))
  | Some p =>
      let! config := run_spawn_before_hook now (pipeline f) config (backend p)
        (effective_spawn_capability p (capability config) caller) in
      let! _ := se_lift (validate_placement_budget (spawn_budget config) p) in
      se_ret config
  end.

(** The factory as the supervisor sees it, with the hooks in the state [w]. *)
Definition agent_task_factory (now : N) (f : AgentTaskFactory) (w : SpawnWorld) : TaskFactory Decimal :=
  {| validate_spawn_config := factory_validate f;
     Supervisor.placement_backend := factory_backend f;
     prepare_spawn_config_for_caller := fun config caller => snd (factory_prepare now f config caller w) |}.
End SpawnTool.

(** ** Normalised scopes are patterns a capability can match *)

Lemma fold_no_star c segs acc :
  Forall (fun w => c ∉ w) segs -> Forall (fun w => c ∉ w) acc ->
  Forall (fun w => c ∉ w) (fold_left normalize_segment segs acc).
Proof.
  intros Hs. revert acc. induction Hs as [|w segs Hw _ IH]; intros acc Ha; [done|]. cbn. apply IH.
  unfold normalize_segment. destruct (_ || _); [done|]. destruct (str_eqb w ".."); [by apply Forall_removelast|].
  apply Forall_app. split; [done|by constructor].
Qed.

Lemma normalize_absolute_no_star p : "*"%char ∉ p -> "*"%char ∉ normalize_absolute_spawn_path p.
Proof.
  intros Hp. unfold normalize_absolute_spawn_path. intros [E%list_elem_of_singleton|Hin]%elem_of_app; [done|].
  apply (elem_of_join "/"%char) in Hin as [?|(w & Hw & Hin)]; [done|].
  assert (Forall (fun w => "*"%char ∉ w) (split_on "/" p)) as Hsp.
  { apply Forall_forall. intros v Hv Hc. apply Hp. rewrite <- (join_split_on "/" p). by apply (elem_of_join_2 _ _ v). }
  pose proof (fold_no_star "*"%char _ [] Hsp ltac:(constructor)) as Hf. rewrite Forall_forall in Hf. by apply (Hf w).
Qed.

Lemma subtree_supported s : starts_with "/" s = true -> "*"%char ∉ s -> is_supported (s ++ "/**") = true.
Proof.
  intros Hp Hs. unfold is_supported. rewrite strip_suffix_app. cbn [option_or unwrap_or].
  apply starts_with_true in Hp as [r ->]. rewrite <- app_assoc, starts_with_app. cbn [andb].
  by apply negb_true_iff, contains_char_false.
Qed.

Lemma entries_supported s : starts_with "/" (s ++ "/*") = true -> "*"%char ∉ s -> is_supported (s ++ "/*") = true.
Proof.
  intros Hp Hs. unfold is_supported. rewrite strip_star2_of_star1, strip_suffix_app, Hp. cbn.
  by apply negb_true_iff, contains_char_false.
Qed.

Lemma slash_normalized p : starts_with "/" (normalize_absolute_spawn_path p) = true.
Proof. apply starts_with_app. Qed.

Lemma trim_end_elem c x s : x ∈ trim_end_matches c s -> x ∈ s.
Proof. destruct (trim_end_prefix c s) as [k E]. rewrite E at 2. set_solver. Qed.

Lemma trim_end_star path : "*"%char ∈ path -> "*"%char ∈ trim_end_matches "/" path.
Proof.
  unfold trim_end_matches. rewrite !list_elem_of_In, <- in_rev, (in_rev path).
  induction (rev path) as [|c l IH]; cbn [drop_while]; [done|]. destruct (Ascii.eqb_spec "/" c) as [<-|Hne].
  - intros [E|Hin]; [discriminate|by apply IH].
  - done.
Qed.

(** What the check of the tool leaves of a pattern without its trailing slashes. *)
Lemma pattern_ok_trimmed path :
  pattern_ok path = true -> starts_with "/" (trim_end_matches "/" path) = true ->
  is_supported (trim_end_matches "/" path) = true.
Proof.
  intros [Hs|Hs]%orb_true_iff Hp; [done|].
  destruct (contains_char "*" (trim_end_matches "/" path)) eqn:Ec.
  - destruct (trim_end_prefix "/" path) as [k Ek].
    assert (k = []) as ->; [|rewrite app_nil_r in Ek; by rewrite <- Ek].
    apply is_supported_base in Hs. destruct (trim_end_prefix "/"%char path) as [k' Ek'].
    destruct (last path) as [x|] eqn:El; [|apply last_None in El; subst; by destruct (trim_end_matches _ _), k].
    destruct (decide (x = "/"%char)) as [->|Hx].
    + exfalso. apply last_Some in El as [p' ->]. apply Hs. apply contains_char_true in Ec.
      apply trim_end_elem in Ec. destruct (classify (p' ++ ["/"%char])) eqn:E.
      * apply classify_everything in E. apply (f_equal last) in E. by rewrite last_snoc in E.
      * apply classify_subtree in E as [E _]. apply (f_equal last) in E. rewrite last_snoc, last_app in E. by cbn in E.
      * apply classify_entries in E. apply (f_equal last) in E. rewrite last_snoc, last_app in E. by cbn in E.
      * apply classify_exactly in E as <-. exact Ec.
    + apply last_Some in El as [p' ->]. rewrite trim_end_id in Ek by done.
      rewrite <- (app_nil_r (p' ++ [x])) in Ek at 1. by apply app_inv_head in Ek.
  - apply supported_no_star; [done|by apply contains_char_false].
Qed.

(** A path scope the check let through normalises to a pattern that capabilities can match. *)
Lemma normalized_supported path : pattern_ok path = true -> is_supported (normalize_spawn_path_scope path) = true.
Proof.
  intros Hok. unfold normalize_spawn_path_scope.
  destruct (str_eqb path "/") eqn:Er; bools; [subst; reflexivity|].
  set (t := trim_end_matches "/" path). pose proof (pattern_ok_trimmed path Hok) as Ht. fold t in Ht.
  destruct (str_eqb t []) eqn:E1; bools.
  { unfold pattern_ok in Hok. fold t in Hok. by rewrite E1 in Hok. }
  destruct (starts_with "/" t) eqn:E2; cbn [negb orb].
  2: { unfold pattern_ok in Hok. apply orb_true_iff in Hok as [Hok|Hok]; [|done].
       unfold is_supported in Hok. fold t in Hok. by rewrite E2 in Hok. }
  specialize (Ht eq_refl). pose proof (is_supported_base t Ht) as Hb. rewrite <- base_classify in Hb.
  destruct (strip_suffix "/**" t) as [prefix|] eqn:E3.
  { cbn [option_or unwrap_or] in Hb. destruct (str_eqb _ "/"); [done|].
    apply subtree_supported; [apply slash_normalized|by apply normalize_absolute_no_star]. }
  cbn [option_or] in Hb. destruct (strip_suffix "/*" t) as [prefix|] eqn:E4; cbn [unwrap_or] in Hb.
  { pose proof Hb as Hb'. apply contains_char_false in Hb' as ->.
    apply entries_supported.
    - pose proof (slash_normalized prefix) as [r Hr]%starts_with_true.
      destruct (trim_end_matches "/" (normalize_absolute_spawn_path prefix)) as [|c l] eqn:El; [done|].
      destruct (trim_end_prefix "/"%char (normalize_absolute_spawn_path prefix)) as [k Ek].
      rewrite El, Hr in Ek. injection Ek as <- _. done.
    - intros Hin%trim_end_elem. by apply (normalize_absolute_no_star prefix). }
  destruct (contains_char "*" path) eqn:E5.
  { exfalso. apply Hb. by apply trim_end_star, contains_char_true. }
  assert ("*"%char ∉ normalize_absolute_spawn_path t) as Hn by by apply normalize_absolute_no_star.
  destruct (str_eqb (normalize_absolute_spawn_path t) "/"); [done|]. destruct (_ || _).
  - apply subtree_supported; [apply slash_normalized|done].
  - apply supported_no_star; [apply slash_normalized|done].
Qed.

(** ** The token a request is turned into *)

Lemma check_patterns_ok field values :
  check_patterns field values = Ok tt -> Forall (fun v => pattern_ok v = true) (unwrap_or values []).
Proof.
  unfold check_patterns. destruct (List.find _ _) eqn:E; [done|]. intros _. apply Forall_forall.
  intros v Hv. apply list_elem_of_In, (List.find_none _ _ E), negb_false_iff in Hv. exact Hv.
Qed.

Lemma wanted_supported field values parents :
  check_patterns field values = Ok tt -> Forall (fun p => is_supported p = true) parents ->
  Forall (fun p => is_supported p = true)
    (match values with Some values => List.map normalize_spawn_path_scope values | None => parents end).
Proof.
  intros Hc%check_patterns_ok Hp. destruct values as [values|]; [|done]. cbn in Hc.
  apply Forall_fmap. eapply Forall_impl; [exact Hc|]. apply normalized_supported.
Qed.

(** A request the tool lets through becomes a well-formed token: its path scopes, however the model
    wrote them (trailing slashes, [..], globs), are patterns that capabilities match; so a child never
    holds a scope that silently reaches nothing.  (The caller's token is well formed, and [net:*] was
    not asked for.) *)
Theorem requested_token_well_formed c parent :
  well_formed parent -> lit "net:*" ∉ unwrap_or (want_network c) [] -> check_path_patterns c = Ok tt ->
  well_formed (into_token c parent).
Proof.
  intros Wp Hnet Hc. apply intersect_well_formed; [done|]. unfold check_path_patterns in Hc.
  destruct (check_patterns "paths_read" (want_paths_read c)) as [[]|] eqn:Er; [|discriminate].
  split; cbn; try apply Wp.
  - destruct (want_network c); [exact Hnet|apply Wp].
  - apply (wanted_supported "paths_read"); [exact Er|apply Wp].
  - apply (wanted_supported "paths_write"); [exact Hc|apply Wp].
Qed.

Section Factory.
Context {Value Decimal J W : Type} `{DecimalOps Decimal} `{DecimalArith Decimal}
  `{@JournalStorage Value Decimal J}.
Notation ChildPlacementConfig := (@ChildPlacementConfig Decimal).
Notation AgentTaskFactory := (@AgentTaskFactory Decimal W).
Notation SpawnWorld := (@SpawnWorld J W).

Context (debug_str : str -> str)
  (to_json : @SpawnBeforeContext Decimal -> result str str)
  (from_json : str -> result (@SpawnBeforeContext Decimal) str)
  (hook_error_to_string : Hooks.HookError -> str).

(** Decoding a [u64] or a [u32] field gives a number of that width. *)
Hypothesis from_json_sized : forall s c, from_json s = Ok c ->
  (hook_tokens (before_budget c) <= u64_max /\ hook_turns (before_budget c) <= u32_max)%N.

(** ** What the factory makes of a configuration *)

(** The envelope of the effective capability. *)
Lemma effective_well_formed p requested parent :
  well_formed (build_child_placement_capability (Decimal := Decimal) p) ->
  (forall q, requested = Some q -> well_formed q) -> well_formed parent ->
  well_formed (effective_spawn_capability p requested parent).
Proof.
  intros Hp Hr Hc. unfold effective_spawn_capability. destruct requested as [q|]; auto using intersect_well_formed.
Qed.

Lemma effective_allows p requested parent r :
  well_formed (build_child_placement_capability (Decimal := Decimal) p) ->
  (forall q, requested = Some q -> well_formed q) -> well_formed parent -> plain_request r = true ->
  allowed (effective_spawn_capability p requested parent) r
    = allowed (build_child_placement_capability p) r
      && (match requested with Some q => allowed q r | None => true end) && allowed parent r.
Proof.
  intros Hp Hq Hc Hr. unfold effective_spawn_capability. destruct requested as [q|].
  - rewrite !intersect_allows; auto using intersect_well_formed.
  - rewrite intersect_allows by auto. by rewrite andb_true_r.
Qed.

(** What the hooks leave. *)
Lemma before_hook_Ok now (pl : option (@Hooks.HookPipeline W)) config b effective (w w' : SpawnWorld) config' :
  run_spawn_before_hook (Value := Value) to_json from_json hook_error_to_string now pl config b effective w = (w', Ok config') ->
  exists t b', config' = with_capability config t b' /\
    ((t = effective /\ b' = spawn_budget config) \/
     (is_subset_of t effective = true /\ exists s m, from_json s = Ok m /\
        b' = apply_to (before_budget m) (spawn_budget config) /\
        budget_is_attenuation (before_budget m) (from_resource (spawn_budget config)) = true)).
Proof.
  unfold run_spawn_before_hook. destruct pl as [pl|].
  2: { intros [= _ <-]. eexists _, _. split; [done|]. by left. }
  unfold se_bind at 1, se_lift at 1. destruct (to_json _) as [ctx|e]; cbn [map_err]; [|discriminate].
  unfold se_bind at 1. destruct (run_before pl ctx w) as [w1 [r|e]]; [|discriminate].
  destruct r as [[[[] modified] hook]|e].
  - unfold se_bind, se_lift. destruct (from_json modified) as [m|e] eqn:Em; cbn [map_err]; [|discriminate].
    unfold shaped_by. destruct (changed_field _ _); [discriminate|].
    destruct (negb (budget_is_attenuation _ _)) eqn:Eb; [discriminate|].
    destruct (negb (is_subset_of _ _)) eqn:Es; [discriminate|]. intros [= _ <-]. bools.
    eexists _, _. split; [done|]. right. eauto 10.
  - destruct hook; [|discriminate]. unfold se_bind, se_err. by destruct (append_spawn_hook_entry _ _ _ _) as [? []].
  - destruct hook; [|discriminate]. unfold authoritative_spawn_hook_kill.
    by destruct (append_spawn_hook_entry _ _ _ _).
  - destruct e; try discriminate. unfold authoritative_spawn_hook_kill. by destruct (append_spawn_hook_entry _ _ _ _).
Qed.

Lemma prepare_Ok now (f : AgentTaskFactory) config caller (w w' : SpawnWorld) config' :
  factory_prepare (Value := Value) debug_str to_json from_json hook_error_to_string now f config caller w = (w', Ok config') ->
  exists p, child_placements f !! placement config = Some p /\
    validate_placement_budget (spawn_budget config') p = Ok tt /\
    exists w1, run_spawn_before_hook (Value := Value) to_json from_json hook_error_to_string now (pipeline f) config (backend p)
      (effective_spawn_capability p (capability config) caller) w = (w1, Ok config').
Proof.
  unfold factory_prepare. destruct (child_placements f !! placement config) as [p|]; [|discriminate]. intros H4.
  exists p. split; [done|]. unfold se_bind at 1 in H4.
  destruct (run_spawn_before_hook _ _ _ _ _ _ _ _ _) as [w1 [c|e]] eqn:E; [|discriminate].
  unfold se_bind, se_lift, se_ret in H4. destruct (validate_placement_budget (spawn_budget c) p) as [[]|] eqn:Ev; [|discriminate].
  injection H4 as _ <-. eauto.
Qed.

(** The production factory is a lawful one: whatever the placements and whatever the hooks do, a
    configuration it prepares keeps the identities of the request, and its limits are machine words.
    The supervisor's theorems apply to it. *)
Theorem production_factory_lawful now (f : AgentTaskFactory) (w : SpawnWorld) :
  FactoryLaws (agent_task_factory (Value := Value) debug_str to_json from_json hook_error_to_string now f w).
Proof.
  assert (forall config cap config',
    prepare_spawn_config_for_caller
      (agent_task_factory (Value := Value) debug_str to_json from_json hook_error_to_string now f w) config cap = Ok config' ->
    exists t b, config' = with_capability config t b /\ (sized (spawn_budget config) -> sized b)) as Hp.
  { intros config cap config' Hc. cbn in Hc.
    destruct (factory_prepare _ _ _ _ _ _ _ _ w) as [w' r] eqn:E. cbn in Hc. subst r.
    apply prepare_Ok in E as (p & _ & _ & w1 & (t & b & -> & Hb)%before_hook_Ok). exists t, b. split; [done|].
    destruct Hb as [[_ ->]|(_ & s & m & Hm & -> & _)]; [done|]. intros _. by apply (from_json_sized s). }
  split; intros config cap config' Hc; destruct (Hp _ _ _ Hc) as (t & b & -> & Hb); [done|exact Hb].
Qed.

(** The factory only narrows.  When it prepares a configuration, the child's token allows nothing
    that the placement's envelope, the capability asked for and the caller's own token do not all
    allow, hosts and skills included, whatever the hooks did; without hooks it allows exactly that.
    (The tokens are well formed, as in the theorem on [intersect].) *)
Theorem prepared_spawn_narrows now (f : AgentTaskFactory) config caller (w w' : SpawnWorld) config' p r :
  child_placements f !! placement config = Some p ->
  well_formed (build_child_placement_capability p) -> (forall q, capability config = Some q -> well_formed q) ->
  well_formed caller -> plain_request r = true ->
  factory_prepare (Value := Value) debug_str to_json from_json hook_error_to_string now f config caller w = (w', Ok config') ->
  exists t, capability config' = Some t /\
    let all := allowed (build_child_placement_capability p) r
      && (match capability config with Some q => allowed q r | None => true end) && allowed caller r in
    (allowed t r = true -> all = true) /\ (pipeline f = None -> allowed t r = all).
Proof.
  intros Hp Wp Wq Wc Hr (p' & Hp' & _ & w1 & Hh)%prepare_Ok. assert (p' = p) as -> by congruence.
  pose proof (effective_allows p (capability config) caller r Wp Wq Wc Hr) as Hall.
  pose proof (effective_well_formed p (capability config) caller Wp Wq Wc) as We.
  destruct (pipeline f) as [pl|] eqn:Epl.
  - apply before_hook_Ok in Hh as (t & b & -> & Hcase). exists t. split; [done|]. cbv zeta. rewrite <- Hall.
    split; [|done]. destruct Hcase as [[-> _]|[Hsub _]]; [done|]. apply subset_allows; [apply We|apply We|done].
  - cbn in Hh. injection Hh as _ <-. eexists. split; [done|]. cbv zeta. by rewrite <- Hall.
Qed.
End Factory.

(** ** The ids of the children of a call *)

Lemma hex_digit_inj a b : (a < 16)%N -> (b < 16)%N -> hex_digit a = hex_digit b -> a = b.
Proof.
  intros Ha Hb E. apply (f_equal N_of_ascii) in E. unfold hex_digit in E.
  rewrite !N_ascii_embedding in E by (repeat case_match; lia).
  destruct (N.ltb_spec a 10), (N.ltb_spec b 10); lia.
Qed.

Lemma hex16_inj a b : (a < 2 ^ 64)%N -> (b < 2 ^ 64)%N -> hex16 a = hex16 b -> a = b.
Proof.
  intros Ha Hb E. unfold hex16 in E. rewrite !map_rev in E. apply rev_inj in E.
  assert (forall k, (k < 16)%nat -> N.land (N.shiftr a (4 * N.of_nat k)) 15 = N.land (N.shiftr b (4 * N.of_nat k)) 15) as Hk.
  { intros k Hk. apply hex_digit_inj; [change 15%N with (N.ones 4); rewrite N.land_ones; by apply N.mod_lt..|].
    apply (f_equal (fun l => l !! k)) in E. rewrite !list_lookup_fmap in E.
    rewrite (lookup_seq_lt 0 16 k) in E by done. cbn in E. by injection E. }
  apply N.bits_inj. intros i. destruct (N.lt_ge_cases i 64) as [Hi|Hi].
  - specialize (Hk (N.to_nat (i / 4)) ltac:(assert (i / 4 < 16)%N by (apply N.Div0.div_lt_upper_bound; lia); lia)).
    apply (f_equal (fun v => N.testbit v (i mod 4))) in Hk. rewrite !N.land_spec, !N.shiftr_spec' in Hk.
    assert (N.testbit 15 (i mod 4) = true) as Ht.
    { change 15%N with (N.ones 4). apply N.ones_spec_low. by apply N.mod_lt. }
    rewrite Ht, !andb_true_r, N2Nat.id, N.add_comm, <- (N.Div0.div_mod i 4) in Hk. exact Hk.
  - by rewrite !N.bits_above_log2 by
      (try (destruct (decide (a = 0%N)) as [->|]; [cbn; lia|apply N.lt_le_trans with 64%N; [apply N.log2_lt_pow2; lia|done]]);
       try (destruct (decide (b = 0%N)) as [->|]; [cbn; lia|apply N.lt_le_trans with 64%N; [apply N.log2_lt_pow2; lia|done]])).
Qed.

Lemma compose_child_path_inj p a b : compose_child_path p a = compose_child_path p b -> a = b.
Proof. unfold compose_child_path. intros E. case_match; simplify_list_eq; congruence. Qed.

Lemma compose_child_path_slash p a : exists r, compose_child_path p a = "/"%char :: r.
Proof.
  unfold compose_child_path. destruct (starts_with "/forge/" p) eqn:E; [|by eexists].
  apply starts_with_true in E as [r ->]. by eexists.
Qed.

(** The ids the tool can still give to a child of [p]: a segment not yet taken, or a later counter. *)
Definition available (n : Naming) (p id : str) : Prop :=
  (exists segment, segment ∉ taken (registry n) p /\ id = compose_child_path p segment) \/
  (exists nanos k, (next_child n <= k < 2 ^ 64)%N /\ id = "child-" ++ hex16 nanos ++ hex16 k).

(** Ids asked for without a name, for the parents of a list of calls. *)
Fixpoint unnamed_ids (calls : list (N * str * str)) (n : Naming) : list (str * result str ToolError) :=
  match calls with
  | [] => []
  | (nanos, parent, task) :: calls =>
      let '(n, r) := child_id_of nanos parent None task n in (parent, r) :: unnamed_ids calls n
  end.

Lemma length_hex16 n : length (hex16 n) = 16%nat.
Proof. reflexivity. Qed.

(** A fallback id comes from the counter. *)
Lemma next_child_id_available nanos p n n' id :
  (next_child n + 1 < 2 ^ 64)%N -> next_child_id nanos n = (n', id) ->
  available n p id /\ ~ available n' p id /\ next_child n' = (next_child n + 1)%N /\ registry n' = registry n.
Proof.
  intros Hn [<- <-]%pair_equal_spec. cbn [next_child registry]. rewrite N.mod_small by done. split; [|split; [|done]].
  - right. exists nanos, (next_child n). split; [lia|done].
  - intros [(s & _ & E)|(m & k & Hk & E)]; cbn [next_child] in *.
    + destruct (compose_child_path_slash p s) as [r Hr]. rewrite Hr in E. discriminate.
    + apply app_inv_head in E. apply app_inj_1 in E as [_ E]; [|by rewrite !length_hex16].
      apply hex16_inj in E; lia.
Qed.

Lemma taken_insert r p s q :
  taken (<[p := s]> r) q = if decide (p = q) then s else taken r q.
Proof. unfold taken. case_decide; [subst; by rewrite lookup_insert_eq|by rewrite lookup_insert_ne]. Qed.

(** An id is available before it is given and not after, and nothing becomes available. *)
Lemma child_id_available nanos p task n n' r :
  (next_child n + 1 < 2 ^ 64)%N -> child_id_of nanos p None task n = (n', r) ->
  exists id, r = Ok id /\ available n p id /\ ~ available n' p id /\
    (next_child n' <= next_child n + 1)%N /\ (forall q i, available n' q i -> available n q i).
Proof.
  intros Hn. unfold child_id_of.
  assert (forall m m' id, next_child m = next_child n -> (forall q, taken (registry m) q = taken (registry n) q) ->
    next_child_id nanos m = (m', id) ->
    exists id', @Ok str ToolError id = Ok id' /\ available n p id' /\ ~ available m' p id' /\
      (next_child m' <= next_child n + 1)%N /\ (forall q i, available m' q i -> available n q i)) as Hfall.
  { intros m m' id Hm Hr E. apply (next_child_id_available _ p) in E as (Ha & Hna & Hc & Hreg); [|by rewrite Hm].
    exists id. split; [done|]. split; [|split; [done|split; [lia|]]].
    - destruct Ha as [(s & Hs & ?)|(k & j & Hk & ?)]; [left; exists s; by rewrite <- Hr|right; exists k, j; by rewrite <- Hm].
    - intros q i [(s & Hs & ->)|(k & j & Hk & ->)]; [left; exists s; by rewrite <- Hr, <- Hreg|].
      right. exists k, j. split; [lia|done]. }
  destruct (str_eqb (derive_auto_slug task) []).
  { destruct (next_child_id nanos n) as [m id] eqn:E. intros [= <- <-]. by apply (Hfall n). }
  unfold reserve_auto_slug_segment. destruct (List.find _ _) as [s|] eqn:Ef.
  - intros [= <- <-]. apply List.find_some in Ef as [_ Hs]. apply negb_true_iff, bool_decide_eq_false in Hs.
    exists (compose_child_path p s). split; [done|]. split; [by left; exists s|]. split; [|split; [cbn; lia|]].
    + intros [(s' & Hs' & E)|(m & k & _ & E)].
      * apply compose_child_path_inj in E as <-. cbn [registry] in Hs'. rewrite taken_insert, decide_True in Hs' by done. set_solver.
      * destruct (compose_child_path_slash p s) as [l Hl]. rewrite Hl in E. discriminate.
    + intros q i [(s' & Hs' & ->)|Hc]; [left|by right]. exists s'. split; [|done].
      cbn [registry] in Hs'. rewrite taken_insert in Hs'. case_decide; [subst; set_solver|done].
  - destruct (next_child_id nanos _) as [m id] eqn:E. intros [= <- <-].
    eapply Hfall, E; [done|]. intros q. cbn [registry]. rewrite taken_insert. case_decide; by subst.
Qed.

(** Ids that are not named by the model never repeat: over any sequence of calls, from any parents
    and with any tasks and clock readings, no parent is given the same id twice, whether the ids come
    from the slugs of the tasks or from the fallback counter (which must not wrap). *)
Theorem unnamed_ids_distinct calls n :
  (next_child n + N.of_nat (length calls) < 2 ^ 64)%N -> NoDup (unnamed_ids calls n).
Proof.
  intros Hn. cut (NoDup (unnamed_ids calls n) /\
    forall p r, (p, r) ∈ unnamed_ids calls n -> exists id, r = Ok id /\ available n p id); [by intros []|].
  revert n Hn. induction calls as [|[[nanos p] task] calls IH]; intros n Hn; cbn [unnamed_ids length] in *.
  - split; [constructor|]. intros ? ? Hin. by apply not_elem_of_nil in Hin.
  - destruct (child_id_of nanos p None task n) as [n' r] eqn:E.
    apply child_id_available in E as (id & -> & Ha & Hna & Hc & Hmono); [|lia].
    destruct (IH n' ltac:(lia)) as [Hnd Hav]. split.
    + constructor; [|done]. intros (? & [= <-] & ?)%Hav. done.
    + intros q r [[= -> ->]|(i & -> & Hi)%Hav]%elem_of_cons; eauto.
Qed.

(** ** Concrete inputs *)

Definition ex_capabilities : SpawnCapabilities := {|
  want_network := None; want_mcp_tools := Some []; want_shell := None; want_javascript := None;
  want_python := None; want_paths_write := Some [lit "/workspace/src/../docs/"];
  want_paths_read := Some [lit "/workspace/src"]; want_spawn_placements := None |}.

Lemma requested_token_well_formed_witness :
  paths_write (into_token ex_capabilities sample_parent) = [lit "/workspace/docs/**"] /\
  well_formed (into_token ex_capabilities sample_parent).
Proof.
  split; [reflexivity|].
  apply (requested_token_well_formed ex_capabilities sample_parent); [apply sample_well_formed|set_solver|reflexivity].
Defined.

Lemma unnamed_ids_distinct_witness :
  unnamed_ids [(5, lit "root", lit "Review the code!"); (6, lit "root", lit "review the code"); (7, lit "root", lit "?")]%N
    {| registry := ∅; next_child := 1 |}
  = [(lit "root", Ok (lit "/forge/review_the_code")); (lit "root", Ok (lit "/forge/review_the_code_2"));
     (lit "root", Ok (lit "child-00000000000000070000000000000001"))] /\
  NoDup (unnamed_ids [(5, lit "root", lit "Review the code!"); (6, lit "root", lit "review the code");
                      (7, lit "root", lit "?")]%N {| registry := ∅; next_child := 1 |}).
Proof. split; [vm_compute; reflexivity|]. apply unnamed_ids_distinct. vm_compute. reflexivity. Defined.

(** A placement with everything the sample parent has, a hook that rewrites the context, and a decoder
    that reads one context: the tokens lowered to 50, the rest as asked. *)
Definition ex_placement : @ChildPlacementConfig N := {|
  backend := Native; model := Some (lit "m"); acp_profile := None;
  placement_capabilities := Some {|
    caps_network := [lit "net:*.github.com"]; caps_mcp := [lit "mcp:github:*"]; caps_shell := true;
    caps_javascript := true; caps_python := false; caps_paths_read := [lit "/**"];
    caps_paths_write := [lit "/workspace/**"]; caps_skill_patterns := [lit "code-*"]; caps_memory := None |};
  limit_turns := Some 10%N; limit_tokens := Some 80%N; limit_cost := None; limit_sub_agents := None;
  allowed_child_placements := [] |}.

Definition ex_hook : @Hooks.HookModule unit := {|
  Hooks.hook_name := "trim"; Hooks.invoke := fun w _ _ ctx => (w, Ok (Hooks.Continue (Some ctx))) |}.
Definition ex_agent_factory : @AgentTaskFactory N unit := {|
  child_placements := {[lit "native" := ex_placement]};
  pipeline := Some (Hooks.add Hooks.pipeline_new Hooks.Spawn ex_hook); has_acp_runtime := false |}.
Definition ex_effective : CapabilityToken :=
  effective_spawn_capability (Decimal := N) ex_placement (Some sample_child) sample_parent.
Definition ex_to_json (c : @SpawnBeforeContext N) : result str str := Ok (before_task c).
Definition ex_from_json (s : str) : result (@SpawnBeforeContext N) str :=
  Ok {| before_placement := "native"; before_backend := "native"; before_instructions := None; before_task := s;
        before_budget := {| hook_tokens := 50; hook_turns := 2; hook_cost := 1%N; hook_sub_agents := 1 |};
        before_capabilities := ex_effective |}.
Definition ex_spawn_world : @SpawnWorld (@InMemoryJournalStorage unit) unit := {|
  hook_world := {| Hooks.world := tt; Hooks.counted := [] |}; hook_journal := []; kill_signals := [] |}.

Lemma ex_from_json_sized s c : ex_from_json s = Ok c ->
  (hook_tokens (before_budget c) <= u64_max /\ hook_turns (before_budget c) <= u32_max)%N.
Proof. by intros [= <-]. Qed.

Definition ex_prepare := factory_prepare (Value := unit) (fun x => x) ex_to_json ex_from_json (fun _ => []) 7
  ex_agent_factory (ex_config "child" "root" 60 1) sample_parent ex_spawn_world.

Lemma production_factory_lawful_witness :
  FactoryLaws (agent_task_factory (Value := unit) (fun x => x) ex_to_json ex_from_json (fun _ => []) 7
    ex_agent_factory ex_spawn_world).
Proof. apply (production_factory_lawful (fun x => x) ex_to_json ex_from_json). exact ex_from_json_sized. Defined.

Lemma ex_placement_well_formed : well_formed (build_child_placement_capability ex_placement).
Proof.
  split; cbn; try (by constructor); try (repeat constructor; fail); try set_solver.
  constructor; [|constructor]. by apply contains_char_false.
Qed.

(** The hook lowers the tokens; the child may not write outside the placement's envelope. *)
Lemma prepared_spawn_narrows_witness :
  exists w' config' t, ex_prepare = (w', Ok config') /\ max_tokens (spawn_budget config') = 50%N /\
    capability config' = Some t /\ allowed t (WriteReq "/workspace/out/a") = true /\
    allowed sample_parent (WriteReq "/workspace/out/a") = true.
Proof.
  destruct ex_prepare as [w' r] eqn:E. destruct r as [config'|e]; [|vm_compute in E; discriminate].
  destruct (prepared_spawn_narrows (Value := unit) (fun x => x) ex_to_json ex_from_json (fun _ => []) 7
    ex_agent_factory (ex_config "child" "root" 60 1) sample_parent ex_spawn_world w' config' ex_placement
    (WriteReq "/workspace/out/a")) as (t & Ht & Hall & _); try reflexivity; try assumption.
  { exact ex_placement_well_formed. }
  { intros ? [= <-]. apply sample_well_formed. }
  { apply sample_well_formed. }
  exists w', config', t. split; [done|]. apply (f_equal snd) in E. vm_compute in E. injection E as <-.
  injection Ht as <-. split; [done|]. split; [done|]. split; [vm_compute; reflexivity|].
  assert (allowed ex_effective (WriteReq "/workspace/out/a") = true) as Ha by (vm_compute; reflexivity).
  apply Hall in Ha. by apply andb_true_iff in Ha as [_ ?].
Defined.
