(* ===== verification/HttpClient.v ===== *)
(** * The HTTP client

    Models [crates/simulacra-http/src/types.rs], [lib.rs] and [client.rs]: requests and responses, the
    client over [ureq] with the hooks around a request, the redaction of what the hooks see, and the
    mapping of errors.  [ureq] is a parameter, a transport over a state of its own, with the errors
    the code tells apart; JSON values are [JsonOps].  Spans and meters are left out. *)

From S2P Require Import Prelude.
From S2P Require Import Text.
From S2P Require Import Utf8.
From S2P Require Import Json.
From S2P Require Hooks.

(** ** Types ([types.rs]) *)

Abbreviation Headers := (list (str * str)).

Record HttpRequest := {
  request_url : str;
  request_method : str;
  request_headers : Headers;
  request_body : option bytes;
  timeout_ms : option N;
  max_redirects : option N;
}.

Record HttpResponse := {
  response_status : N;
  status_text : str;
  response_headers : Headers;
  response_body : bytes;
  response_url : str;
  redirected : bool;
}.

Variant HttpError :=
| Network (msg : str)
| TimedOut
| TooManyRedirects
| InvalidUrl (msg : str)
| ResponseTooLarge (limit : N).

Definition http_error_to_string (e : HttpError) : str :=
  match e with
  | Network msg => "network error: " ++ msg
  | TimedOut => "request timed out"
  | TooManyRedirects => "too many redirects"
  | InvalidUrl msg => "invalid URL: " ++ msg
  | ResponseTooLarge limit => "response too large: " ++ dec limit ++ " bytes"
  end.

(** The interface: a client, with whatever it keeps. *)
Class HttpClient (C : Type) := http_execute : C -> HttpRequest -> C * result HttpResponse HttpError.

(** ** Redaction *)

Definition MAX_RESPONSE_SIZE : N := 10 * 1024 * 1024.

Definition SENSITIVE_HEADERS : list str :=
  List.map lit ["authorization"; "cookie"; "set-cookie"; "x-api-key"; "proxy-authorization"]%string.

Definition is_sensitive_header (name : str) : bool := existsb (eq_ignore_ascii_case name) SENSITIVE_HEADERS.

Definition redact_headers (headers : Headers) : Headers :=
  List.map (fun '(name, value) => (name, if is_sensitive_header name then lit "[REDACTED]" else value)) headers.

(** [<scheme>://<host>[:port]]; a piece before the first separator is always there. *)
Definition sanitize_url_for_log (url : str) : str :=
  match split_once_str "://" url with
  | None => "[invalid-url]"
  | Some (scheme, rest) =>
      let without_query := take_while (fun c => negb (Ascii.eqb c "?" || Ascii.eqb c "#")) rest in
      let authority := take_while (fun c => negb (Ascii.eqb c "/")) without_query in
      let host := match rsplit_once "@" authority with Some (_, h) => h | None => authority end in
      if str_eqb host [] then scheme ++ "://[redacted]" else scheme ++ "://" ++ host
  end.

Definition url_scheme_is_http (url : str) : bool :=
  match split_once_str "://" url with
  | None => false
  | Some (scheme, rest) =>
      if str_eqb rest [] then false else eq_ignore_ascii_case scheme "http" || eq_ignore_ascii_case scheme "https"
  end.

(** ** What a hook may change *)

Section Client.
Context {Value : Type} `{JsonOps Value} {W U : Type}.

Record BeforeHookOverrides := {
  before_url : option str;
  before_headers : option Headers;
  before_body : option (option bytes);
}.

Record AfterHookOverrides := {
  after_status : option N;
  after_headers : option Headers;
  after_body : option bytes;
}.

(** The entries that are pairs of strings, or nothing when one is not. *)
Fixpoint parse_pairs (arr : list Value) : option Headers :=
  match arr with
  | [] => Some []
  | item :: arr =>
      match as_array item with
      | Some [n; v] =>
          match as_str n, as_str v with
          | Some name, Some val =>
              match parse_pairs arr with Some out => Some ((name, val) :: out) | None => None end
          | _, _ => None
          end
      | _ => None
      end
  end.

Fixpoint string_fields (fields : list (str * Value)) : Headers :=
  match fields with
  | [] => []
  | (k, v) :: fields =>
      match as_str v with Some s => (k, s) :: string_fields fields | None => string_fields fields end
  end.

Definition parse_headers_value (value : Value) : option Headers :=
  match as_array value with
  | Some arr => parse_pairs arr
  | None => option_map string_fields (as_object value)
  end.

Definition modified_fields (modified : str) : list (str * Value) :=
  unwrap_or (json_from_str modified ≫= as_object) [].

Definition parse_before_overrides (modified : str) : BeforeHookOverrides :=
  let obj := modified_fields modified in
  {| before_url := map_get "url" obj ≫= as_str;
     before_headers := map_get "headers" obj ≫= parse_headers_value;
     before_body := match map_get "body" obj with
                    | Some body => if is_null body then Some None else option_map Some (as_str body)
                    | None => None
                    end |}.

Definition parse_after_overrides (modified : str) : AfterHookOverrides :=
  let obj := modified_fields modified in
  {| after_status := match map_get "status" obj ≫= as_u64 with
                     | Some status => if (status <=? 65535)%N then Some status else None
                     | None => None
                     end;
     after_headers := map_get "headers" obj ≫= parse_headers_value;
     after_body := map_get "body" obj ≫= as_str |}.

(** The contexts the hooks are called with. *)
Definition headers_value (headers : Headers) : Value :=
  json_array (List.map (fun '(name, value) => json_array [json_string name; json_string value]) headers).

Definition before_ctx (r : HttpRequest) : str :=
  json_to_string (json_object
    [(lit "url", json_string (request_url r)); (lit "method", json_string (request_method r));
     (lit "headers", headers_value (redact_headers (request_headers r)));
     (lit "body", json_opt_string (option_map from_utf8_lossy (request_body r)))]).

Definition after_ctx (url method : str) (status : N) (headers : Headers) (body : bytes) : str :=
  json_to_string (json_object
    [(lit "url", json_string (sanitize_url_for_log url)); (lit "method", json_string method);
     (lit "status", json_number status); (lit "headers", headers_value (redact_headers headers));
     (lit "body", json_string (from_utf8_lossy body))]).

(** ** The transport *)

(** What the code tells apart of [ureq::Error]. *)
Variant UreqError :=
| UreqTimeout
| UreqTooManyRedirects
| UreqHostNotFound
| UreqConnectionFailed
| UreqRedirectFailed
| UreqBodyExceedsLimit
| UreqOther (text : str).

(** A request on a fresh agent: a method with a body sends one, if an empty one. *)
Record UreqCall := {
  call_timeout_ms : N;
  call_max_redirects : N;
  call_method : str;
  call_url : str;
  call_headers : Headers;
  call_body : option bytes;
}.

(** An answer; its body is read up to a limit. *)
Record UreqAnswer := {
  answer_status : N;
  answer_headers : Headers;
  redirect_history : option (list str);
  read_to_vec : N -> result bytes UreqError;
}.

Context (ureq : U -> UreqCall -> U * result UreqAnswer UreqError) (ureq_error_to_string : UreqError -> str)
  (hook_error_to_string : Hooks.HookError -> str).

Variant DispatchError :=
| Ureq (e : UreqError)
| UnsupportedMethod (m : str).

Definition map_ureq_error (err : DispatchError) (url : str) : HttpError :=
  match err with
  | UnsupportedMethod m => InvalidUrl ("unsupported HTTP method: " ++ m)
  | Ureq UreqTimeout => TimedOut
  | Ureq UreqTooManyRedirects => TooManyRedirects
  | Ureq UreqHostNotFound => Network ("host not found: " ++ url)
  | Ureq UreqConnectionFailed => Network ("connection failed: " ++ url)
  | Ureq UreqRedirectFailed => Network ("redirect failed: " ++ url)
  | Ureq other => Network (ureq_error_to_string other)
  end.

Definition status_to_text (status : N) : str :=
  unwrap_or (snd <$> List.find (fun p => (fst p =? status)%N)
    [(100, lit "Continue"); (101, lit "Switching Protocols"); (200, lit "OK"); (201, lit "Created");
     (202, lit "Accepted"); (204, lit "No Content"); (301, lit "Moved Permanently"); (302, lit "Found");
     (303, lit "See Other"); (304, lit "Not Modified"); (307, lit "Temporary Redirect");
     (308, lit "Permanent Redirect"); (400, lit "Bad Request"); (401, lit "Unauthorized");
     (403, lit "Forbidden"); (404, lit "Not Found"); (405, lit "Method Not Allowed");
     (408, lit "Request Timeout"); (409, lit "Conflict"); (410, lit "Gone"); (413, lit "Payload Too Large");
     (415, lit "Unsupported Media Type"); (422, lit "Unprocessable Entity"); (429, lit "Too Many Requests");
     (500, lit "Internal Server Error"); (501, lit "Not Implemented"); (502, lit "Bad Gateway");
     (503, lit "Service Unavailable"); (504, lit "Gateway Timeout")]%N) (lit "Unknown").

(** ** The client ([UreqHttpClient]) *)

Record UreqHttpClient := {
  default_timeout_ms : N;
  client_max_redirects : N;
  pipeline : option (@Hooks.HookPipeline W);
}.

Definition client_new (timeout redirects : N) : UreqHttpClient :=
  {| default_timeout_ms := timeout; client_max_redirects := redirects; pipeline := None |}.
Definition with_pipeline (timeout redirects : N) (p : option (@Hooks.HookPipeline W)) : UreqHttpClient :=
  {| default_timeout_ms := timeout; client_max_redirects := redirects; pipeline := p |}.
Definition client_default : UreqHttpClient := client_new 5000 5.

(** The hooks' state and the transport's. *)
Record Net := { net_hooks : @Hooks.State W; net_ureq : U }.

(** A failed request, or the [unreachable!] of a branch. *)
Variant Failure := Failed (e : HttpError) | Unreachable.

Abbreviation Client := (SE Net Failure).

Definition on_hooks {A} (f : @Hooks.State W -> @Hooks.State W * A) : Client A := fun n =>
  let '(h, a) := f (net_hooks n) in ({| net_hooks := h; net_ureq := net_ureq n |}, Ok a).

Definition dispatch (timeout redirects : N) (method url : str) (headers : Headers) (body : option bytes)
    (u : U) : U * result UreqAnswer DispatchError :=
  let send m b :=
    let '(u, r) := ureq u {| call_timeout_ms := timeout; call_max_redirects := redirects; call_method := m;
                             call_url := url; call_headers := headers; call_body := b |} in
    (u, map_err Ureq r) in
  let m := List.map to_ascii_uppercase method in
  if mem m (List.map lit ["GET"; "HEAD"; "DELETE"]%string) then send m None
  else if mem m (List.map lit ["POST"; "PUT"; "PATCH"]%string) then send m (Some (unwrap_or body []))
  else (u, Err (UnsupportedMethod m)).

Definition run_dispatch (timeout redirects : N) (method url : str) (headers : Headers) (body : option bytes)
    : Client UreqAnswer := fun n =>
  let '(u, r) := dispatch timeout redirects method url headers body (net_ureq n) in
  ({| net_hooks := net_hooks n; net_ureq := u |}, map_err (fun e => Failed (map_ureq_error e url)) r).

(** The request as the before-hooks leave it: URL, headers and body. *)
Definition before (c : UreqHttpClient) (r : HttpRequest) : Client (str * Headers * option bytes) :=
  let unchanged := (request_url r, request_headers r, request_body r) in
  match pipeline c with
  | None => se_ret unchanged
  | Some p =>
      let! v := on_hooks (Hooks.run_before p Hooks.HttpRequest (before_ctx r)) in
      match v with
      | Ok (Hooks.Continue None, _) => se_ret unchanged
      | Ok (Hooks.Continue (Some modified), _) =>
          let o := parse_before_overrides modified in
          se_ret (unwrap_or (before_url o) (request_url r), unwrap_or (before_headers o) (request_headers r),
                  unwrap_or (before_body o) (request_body r))
      | Ok (Hooks.Deny reason, _) => se_err (Failed (Network ("hook denied HTTP request: " ++ reason)))
      | Ok (Hooks.Kill _, _) => se_err Unreachable
      | Err e => se_err (Failed (Network ("hook error: " ++ hook_error_to_string e)))
      end
  end.

(** The response as the after-hooks leave it: status, headers and body. *)
Definition after (c : UreqHttpClient) (url method : str) (status : N) (headers : Headers) (body : bytes)
    : Client (N * Headers * bytes) :=
  match pipeline c with
  | None => se_ret (status, headers, body)
  | Some p =>
      let! v := on_hooks (Hooks.run_after p Hooks.HttpRequest (after_ctx url method status headers body)) in
      match v with
      | Ok (Hooks.Continue (Some modified), _) =>
          let o := parse_after_overrides modified in
          se_ret (unwrap_or (after_status o) status, unwrap_or (after_headers o) headers,
                  unwrap_or (after_body o) body)
      | Ok _ => se_ret (status, headers, body)
      | Err e => se_err (Failed (Network ("hook error: " ++ hook_error_to_string e)))
      end
  end.

Definition final_url (answer : UreqAnswer) (url : str) : str :=
  match redirect_history answer with
  | Some history => List.last history url
  | None => url
  end.

Definition read_body (answer : UreqAnswer) : result bytes Failure :=
  map_err (fun e => Failed (match e with
                            | UreqBodyExceedsLimit => ResponseTooLarge MAX_RESPONSE_SIZE
                            | e => Network (ureq_error_to_string e)
                            end)) (read_to_vec answer MAX_RESPONSE_SIZE).

Definition execute (c : UreqHttpClient) (r : HttpRequest) : Client HttpResponse :=
  let! effective := before c r in
  let '(url, headers, body) := effective in
  if negb (url_scheme_is_http url) then se_err (Failed (InvalidUrl url))
  else
    let! answer := run_dispatch (unwrap_or (timeout_ms r) (default_timeout_ms c))
      (unwrap_or (max_redirects r) (client_max_redirects c)) (request_method r) url headers body in
    let! content := se_lift (read_body answer) in
    let! shown := after c url (request_method r) (answer_status answer) (answer_headers answer) content in
    let '(status, headers, content) := shown in
    se_ret {| response_status := status; status_text := status_to_text status; response_headers := headers;
              response_body := content; response_url := final_url answer url;
              redirected := negb (str_eqb (final_url answer url) url) |}.
End Client.

(** The client behind the interface; the branch that is unreachable is one nothing is said about. *)
Definition ureq_http_client {Value} `{JsonOps Value} {W U : Type} (ureq : U -> UreqCall -> U * result UreqAnswer UreqError)
    (ureq_error_to_string : UreqError -> str) (hook_error_to_string : Hooks.HookError -> str)
    (c : @UreqHttpClient W) : HttpClient (@Net W U) := fun n r =>
  let '(n, x) := execute ureq ureq_error_to_string hook_error_to_string c r n in
  (n, map_err (fun f => match f with Failed e => e | Unreachable => Network [] end) x).

(** ** The hooks never learn a credential *)

(** Headers that agree but for the values of sensitive ones. *)
Definition same_header (a b : str * str) : Prop :=
  a.1 = b.1 /\ (is_sensitive_header a.1 = false -> a.2 = b.2).
Definition same_headers : Headers -> Headers -> Prop := Forall2 same_header.

#[export] Instance same_header_refl : Reflexive same_header.
Proof. done. Qed.

Lemma redact_same h1 h2 : same_headers h1 h2 -> redact_headers h1 = redact_headers h2.
Proof.
  unfold redact_headers. induction 1 as [|[n1 v1] [n2 v2] h1 h2 [Hn Hv] _ IH]; [done|]. cbn [fst snd] in *. subst n2.
  cbn [List.map]. rewrite IH. f_equal. f_equal. destruct (is_sensitive_header n1); [done|by apply Hv].
Qed.

Record same_request (r1 r2 : HttpRequest) : Prop := {
  same_url : request_url r1 = request_url r2;
  same_method : request_method r1 = request_method r2;
  same_req_headers : same_headers (request_headers r1) (request_headers r2);
  same_body : request_body r1 = request_body r2;
  same_timeout : timeout_ms r1 = timeout_ms r2;
  same_redirects : max_redirects r1 = max_redirects r2;
}.

Record same_call (c1 c2 : UreqCall) : Prop := {
  same_call_timeout : call_timeout_ms c1 = call_timeout_ms c2;
  same_call_redirects : call_max_redirects c1 = call_max_redirects c2;
  same_call_method : call_method c1 = call_method c2;
  same_call_url : call_url c1 = call_url c2;
  same_call_headers : same_headers (call_headers c1) (call_headers c2);
  same_call_body : call_body c1 = call_body c2;
}.

Record same_answer (a1 a2 : UreqAnswer) : Prop := {
  same_answer_status : answer_status a1 = answer_status a2;
  same_answer_headers : same_headers (answer_headers a1) (answer_headers a2);
  same_history : redirect_history a1 = redirect_history a2;
  same_read : forall limit, read_to_vec a1 limit = read_to_vec a2 limit;
}.

Record same_response (r1 r2 : HttpResponse) : Prop := {
  same_status : response_status r1 = response_status r2;
  same_text : status_text r1 = status_text r2;
  same_resp_headers : same_headers (response_headers r1) (response_headers r2);
  same_resp_body : response_body r1 = response_body r2;
  same_resp_url : response_url r1 = response_url r2;
  same_redirected : redirected r1 = redirected r2;
}.

Section Secrets.
Context {Value : Type} `{JsonOps Value} {W U : Type} (ureq : U -> UreqCall -> U * result UreqAnswer UreqError)
  (ureq_error_to_string : UreqError -> str) (hook_error_to_string : Hooks.HookError -> str).
(** A transport that treats calls alike that agree but for credentials, between states it keeps alike. *)
Context (R : U -> U -> Prop)
  (alike : forall u1 u2 c1 c2, R u1 u2 -> same_call c1 c2 ->
     R (fst (ureq u1 c1)) (fst (ureq u2 c2)) /\ same_result same_answer (snd (ureq u1 c1)) (snd (ureq u2 c2))).
Implicit Types n : @Net W U.

Definition same_net n1 n2 : Prop := net_hooks n1 = net_hooks n2 /\ R (net_ureq n1) (net_ureq n2).

Abbreviation in_step := (in_step same_net).

Lemma step_hooks {A} (f : @Hooks.State W -> @Hooks.State W * A) : in_step eq (on_hooks f) (on_hooks f).
Proof. intros [h u1] [h' u2] [E Hu]. cbn in E. subst h'. unfold on_hooks. cbn. by destruct (f h). Qed.

Definition same_effective (a b : str * Headers * option bytes) : Prop :=
  a.1.1 = b.1.1 /\ same_headers a.1.2 b.1.2 /\ a.2 = b.2.

Lemma before_in_step c r1 r2 : same_request r1 r2 ->
  in_step same_effective (before hook_error_to_string c r1) (before hook_error_to_string c r2).
Proof.
  intros []. unfold before. destruct (pipeline c) as [p|]; [|by apply step_ret].
  assert (before_ctx r1 = before_ctx r2) as -> by (unfold before_ctx; by rewrite same_url0, same_method0, (redact_same _ _ same_req_headers0), same_body0).
  eapply step_bind; [apply step_hooks|]. intros v ? <-.
  destruct v as [[[[modified|]|reason|reason] ctx]|e]; [|by apply step_ret|apply step_err..].
  apply step_ret. split_and!; cbn; [by rewrite same_url0| |by rewrite same_body0].
  destruct (map_get _ _ ≫= parse_headers_value); cbn; [|done]. reflexivity.
Qed.

Lemma after_in_step c url method status h1 h2 body : same_headers h1 h2 ->
  in_step (fun a b => a.1.1 = b.1.1 /\ same_headers a.1.2 b.1.2 /\ a.2 = b.2)
    (after hook_error_to_string c url method status h1 body) (after hook_error_to_string c url method status h2 body).
Proof.
  intros Hh. unfold after. destruct (pipeline c) as [p|]; [|by apply step_ret].
  assert (after_ctx url method status h1 body = after_ctx url method status h2 body) as ->
    by (unfold after_ctx; by rewrite (redact_same _ _ Hh)).
  eapply step_bind; [apply step_hooks|]. intros v ? <-.
  destruct v as [[[[modified|]|reason|reason] ctx]|e]; try apply step_err; try (by apply step_ret).
  apply step_ret. split_and!; cbn; [done| |done]. destruct (map_get _ _ ≫= parse_headers_value); cbn; [|done]. reflexivity.
Qed.

Lemma dispatch_in_step t m method url h1 h2 body : same_headers h1 h2 ->
  in_step same_answer (run_dispatch ureq ureq_error_to_string t m method url h1 body)
    (run_dispatch ureq ureq_error_to_string t m method url h2 body).
Proof.
  intros Hh [h u1] [h' u2] [E Hu]. cbn in E, Hu. subst h'. unfold run_dispatch, dispatch. cbn [net_ureq net_hooks].
  assert (forall c1 c2, same_call c1 c2 -> R (ureq u1 c1).1 (ureq u2 c2).1 /\
    same_result same_answer (ureq u1 c1).2 (ureq u2 c2).2) as Ha by auto.
  destruct (mem _ _); [|destruct (mem _ _); [|done]];
    (match goal with |- context [ureq u1 ?c1] => match goal with |- context [ureq u2 ?c2] =>
       destruct (Ha c1 c2 ltac:(by split)) as [Hs Hr]; destruct (ureq u1 c1) as [u1' x1], (ureq u2 c2) as [u2' x2] end end);
    cbn in *; (split; [done|]); destruct x1, x2; simplify_eq/=; done.
Qed.

Lemma execute_in_step c r1 r2 : same_request r1 r2 ->
  in_step same_response (execute ureq ureq_error_to_string hook_error_to_string c r1)
    (execute ureq ureq_error_to_string hook_error_to_string c r2).
Proof.
  intros Hr. unfold execute. eapply step_bind; [by apply before_in_step|].
  intros [[url h1] body] [[url' h2] body'] (E1 & Hh & E2). cbn in E1, Hh, E2. subst url' body'.
  destruct (negb _); [apply step_err|]. destruct Hr. rewrite same_timeout0, same_redirects0, same_method0.
  eapply step_bind; [by apply dispatch_in_step|]. intros a1 a2 []. unfold read_body. rewrite same_read0.
  eapply step_bind; [apply (step_lift _ eq); by destruct (read_to_vec _ _)|]. intros content ? <-.
  rewrite same_answer_status0. eapply step_bind; [by apply after_in_step|].
  intros [[status g1] b1] [[status' g2] b2] (E1 & Hg & E2). cbn in E1, Hg, E2. subst status' b2.
  assert (final_url a1 url = final_url a2 url) as E by (unfold final_url; by rewrite same_history0).
  apply step_ret. split; cbn; try done; by rewrite E.
Qed.
End Secrets.

Section Learned.
Context {Value : Type} `{JsonOps Value} {W U : Type} (ureq : U -> UreqCall -> U * result UreqAnswer UreqError)
  (ureq_error_to_string : UreqError -> str) (hook_error_to_string : Hooks.HookError -> str) (R : U -> U -> Prop).

(** The hooks around a request learn nothing of its credentials.  Two requests that agree but for the
    values of their sensitive headers, over a transport that treats them alike (its answers may differ in
    the values of sensitive headers again), leave the hooks in the same state, whatever the hooks do with
    what they are shown, and end alike for the caller. *)
Theorem hooks_learn_no_credentials (c : @UreqHttpClient W) r1 r2 (n1 n2 : @Net W U) :
  (forall u1 u2 c1 c2, R u1 u2 -> same_call c1 c2 ->
     R (fst (ureq u1 c1)) (fst (ureq u2 c2)) /\ same_result same_answer (snd (ureq u1 c1)) (snd (ureq u2 c2))) ->
  same_request r1 r2 -> net_hooks n1 = net_hooks n2 -> R (net_ureq n1) (net_ureq n2) ->
  let run r n := execute ureq ureq_error_to_string hook_error_to_string c r n in
  net_hooks (fst (run r1 n1)) = net_hooks (fst (run r2 n2)) /\ same_result same_response (snd (run r1 n1)) (snd (run r2 n2)).
Proof.
  intros alike Hr Hh HR run. subst run.
  destruct (execute_in_step ureq ureq_error_to_string hook_error_to_string R alike c r1 r2 Hr n1 n2) as [[? _] ?]; by split.
Qed.
End Learned.

(** No run of a chain lets a kill through as a verdict. *)
Lemma before_loop_no_kill {W} op hooks ctx (s : @Hooks.State W) s' reason ctx' hook :
  Hooks.before_loop op hooks ctx s <> (s', Ok (Hooks.Kill reason, ctx', hook)).
Proof.
  revert ctx s. induction hooks as [|h hooks IH]; intros ctx s; cbn [Hooks.before_loop]; [done|].
  destruct (Hooks.call_hook _ _ _ _ _) as [s1 [[[m|]|r|r]|[]]]; auto; done.
Qed.

(** The branch marked unreachable is. *)
Lemma execute_reaches {Value} `{JsonOps Value} {W U} ureq ureq_error_to_string hook_error_to_string c r (n : @Net W U) :
  snd (execute ureq ureq_error_to_string hook_error_to_string c r n) <> Err Unreachable.
Proof.
  assert (forall p ctx (s s' : @Hooks.State W) reason ctx', Hooks.run_before p Hooks.HttpRequest ctx s <> (s', Ok (Hooks.Kill reason, ctx'))) as Hk.
  { intros p ctx s s' reason ctx'. unfold Hooks.run_before, Hooks.run_before_attributed. destruct (Hooks.chain_of _ _) as [hooks|]; [|done].
    pose proof (before_loop_no_kill Hooks.HttpRequest hooks ctx s) as Hb. destruct (Hooks.before_loop _ _ _ _) as [s1 [[[v x] h]|e]]; [|done].
    intros [= -> -> ->]. by eapply Hb. }
  unfold execute, before, after, on_hooks, run_dispatch, read_body, se_bind, se_lift, se_ret, se_err.
  destruct (pipeline c) as [p|]; cbn.
  - destruct (Hooks.run_before _ _ _ _) as [h [[[[m|]|rr|rr] x]|e]] eqn:Eb; cbn; try done; [..|by apply Hk in Eb];
      (destruct (negb _); [done|]); destruct (dispatch _ _ _ _ _ _ _ _) as [u [a|e]]; cbn; try done;
      destruct (read_to_vec a _) as [d|e]; cbn; try done; destruct (Hooks.run_after _ _ _ _) as [h' [[[[m'|]|?|?] ?]|?]]; done.
  - destruct (negb _); [done|]; destruct (dispatch _ _ _ _ _ _ _ _) as [u [a|e]]; cbn; try done. by destruct (read_to_vec a _).
Qed.

(** ** A concrete client

    A hook that keeps everything it is shown, and a transport that echoes the headers it is sent. *)

#[local] Existing Instance text_json.

Definition ex_spy : @Hooks.HookModule (list str) := {|
  Hooks.hook_name := "spy";
  Hooks.invoke := fun seen ph op ctx => (seen ++ [ctx], Ok Hooks.continue_unchanged);
|}.

Definition ex_client : @UreqHttpClient (list str) :=
  with_pipeline 5000 5 (Some (Hooks.add Hooks.pipeline_new Hooks.HttpRequest ex_spy)).

Definition ex_ureq (u : unit) (c : UreqCall) : unit * result UreqAnswer UreqError :=
  (u, Ok {| answer_status := 200; answer_headers := call_headers c; redirect_history := None;
            read_to_vec := fun _ => Ok (lit "hello") |}).

Definition ex_request (token : str) : HttpRequest := {|
  request_url := "https://api.example.com/v1?q=1"; request_method := "get";
  request_headers := [(lit "Authorization", token); (lit "accept", lit "*/*")];
  request_body := None; timeout_ms := None; max_redirects := None |}.

Definition ex_net : @Net (list str) unit :=
  {| net_hooks := {| Hooks.world := []; Hooks.counted := [] |}; net_ureq := tt |}.

Lemma hooks_learn_no_credentials_witness :
  let run token := execute ex_ureq (fun _ => []) (fun _ => []) ex_client (ex_request token) ex_net in
  length (Hooks.world (net_hooks (fst (run (lit "Bearer a"))))) = 2%nat /\
  net_hooks (fst (run (lit "Bearer a"))) = net_hooks (fst (run (lit "Bearer b"))).
Proof.
  intros run. split; [vm_compute; reflexivity|].
  assert (same_request (ex_request (lit "Bearer a")) (ex_request (lit "Bearer b"))) as Hr.
  { split; try reflexivity. constructor; [|constructor; [|constructor]]; (split; [reflexivity|]); intros Hs;
      [vm_compute in Hs; discriminate Hs|reflexivity]. }
  assert (forall u1 u2 c1 c2, u1 = u2 -> same_call c1 c2 -> fst (ex_ureq u1 c1) = fst (ex_ureq u2 c2) /\
    same_result same_answer (snd (ex_ureq u1 c1)) (snd (ex_ureq u2 c2))) as Ha.
  { intros [] [] c1 c2 _ Hc. split; [reflexivity|]. split; try reflexivity. exact (same_call_headers _ _ Hc). }
  destruct (hooks_learn_no_credentials ex_ureq (fun _ => []) (fun _ => []) eq ex_client _ _ ex_net ex_net Ha Hr
    eq_refl eq_refl) as [E _]. exact E.
Defined.
