(* ===== verification/Integration.v ===== *)
(** * Integrations and their credentials

    Models [crates/simulacra-integration/src/types.rs], [registry.rs] and [injector.rs] with the
    configuration they read ([AuthMethod], [IntegrationConfig] of [simulacra-config]): the registry of
    live credentials, the token exchange, the background refresh with its backoff and degraded state,
    and the choice of the credential that goes into a request.

    Outside the model, and so parameters: the environment variables, the order a [HashMap] iterates
    in, the replies of the token endpoints with the time they arrive, and the reach of a base URL.
    Times are nanoseconds; an [Instant] keeps its seconds in 63 bits and adding past that panics
    ([None]).  A background task is a state machine whose step is one wait or one exchange. *)

From S2P Require Import Prelude.
From S2P Require Import Text.
From S2P Require Import Json.

(** ** Configuration ([config/src/lib.rs]) *)

Variant AuthMethod :=
| OAuth2 (client_id client_secret token_url : str) (scopes : list str) (refresh_token : option str)
| ApiKey (key placement : str).

Definition default_key_placement : str := "header".

Record IntegrationConfig := {
  auth : AuthMethod;
  base_url : str;
  description : option str;
  rate_limit_rps : N;
  skills_path : option str;
}.

(** ** Credentials ([types.rs]) *)

Definition Instant := N.
Definition Duration := N.
Definition from_secs (n : N) : Duration := (n * 10 ^ 9)%N.
Definition instant_add (t : Instant) (d : Duration) : option Instant :=
  if (t + d <? from_secs (2 ^ 63))%N then Some (t + d)%N else None.

Record IntegrationCredential := {
  cred_name : str;
  config : IntegrationConfig;
  cred_token : str;
  expires_at : option Instant;
  degraded : bool;
  refresh_failures : N;
  connectivity_ok : bool;
}.

Definition set_refresh (token : str) (expires : option Instant) (d : bool) (failures : N) (c : IntegrationCredential) :=
  {| cred_name := cred_name c; config := config c; cred_token := token; expires_at := expires;
     degraded := d; refresh_failures := failures; connectivity_ok := connectivity_ok c |}.

Definition mark_degraded (c : IntegrationCredential) : IntegrationCredential :=
  set_refresh (cred_token c) (expires_at c) true (refresh_failures c) c.
Definition clear_degraded (c : IntegrationCredential) : IntegrationCredential :=
  set_refresh (cred_token c) (expires_at c) false 0 c.
(** [AtomicU32::fetch_add] wraps around. *)
Definition increment_failures (c : IntegrationCredential) : IntegrationCredential * N :=
  let n := ((refresh_failures c + 1) mod 2 ^ 32)%N in
  (set_refresh (cred_token c) (expires_at c) (degraded c) n c, n).

Record IntegrationMetadata := {
  meta_base_url : str;
  meta_scopes : list str;
  meta_rate_limit_rps : N;
  meta_status : str;
  meta_description : option str;
}.

Variant IntegrationError :=
| MissingEnvVar (name : str)
| NotFound (name : str)
| TokenRefreshFailed (name : str)
| Http (msg : str)
| Degraded (msg : str).

Definition integration_error_to_string (e : IntegrationError) : str :=
  match e with
  | MissingEnvVar v => "missing env var: " ++ v
  | NotFound n => "integration not found: " ++ n
  | TokenRefreshFailed n => "token refresh failed for integration: " ++ n
  | Http m => "http error: " ++ m
  | Degraded n => "integration degraded: " ++ n
  end.

(** ** The exchange of a refresh token *)

(** What the client of the token endpoint gives back: a failure to send, or a status with a body. *)
Record TokenReply (Value : Type) := { reply_status : N; reply_json : result Value str }.
Arguments reply_status {_}.
Arguments reply_json {_}.

Definition refresh_form (client_id client_secret refresh_token : str) : list (str * str) :=
  [(lit "grant_type", lit "refresh_token"); (lit "client_id", client_id);
   (lit "client_secret", client_secret); (lit "refresh_token", refresh_token)].

Section Refresh.
Context {Value : Type} `{JsonOps Value}.

(** The time is the one read when the reply is in. *)
Definition do_token_refresh (now : Instant) (sent : result (TokenReply Value) str)
    : option (result (str * Instant) IntegrationError) :=
  match sent with
  | Err e => Some (Err (Http e))
  | Ok resp =>
      if negb ((200 <=? reply_status resp)%N && (reply_status resp <? 300)%N) then
        Some (Err (Http ("token refresh failed with status " ++ dec (reply_status resp))))
      else
        match reply_json resp with
        | Err e => Some (Err (Http e))
        | Ok body =>
            match value_get "access_token" body ≫= as_str with
            | None => Some (Err (Http "missing access_token in response"))
            | Some access_token =>
                let expires_in := unwrap_or (value_get "expires_in" body ≫= as_u64) 3600%N in
                option_map (fun expires => Ok (access_token, expires)) (instant_add now (from_secs expires_in))
            end
        end
  end.

(** How the outcome of an exchange is kept, at start and in the background alike. *)
Definition keep_outcome (outcome : result (str * Instant) IntegrationError) (c : IntegrationCredential)
    : IntegrationCredential :=
  match outcome with
  | Ok (token, expires) => clear_degraded (set_refresh token (Some expires) (degraded c) (refresh_failures c) c)
  | Err _ => let '(c, failures) := increment_failures c in if (3 <=? failures)%N then mark_degraded c else c
  end.

(** ** The background refresh ([run_refresh_loop]) *)

Definition five_minutes : Duration := from_secs (5 * 60).

(** [None]: [now + five_minutes] is past what an [Instant] holds. *)
Definition sleep_duration (now : Instant) (c : IntegrationCredential) : option Duration :=
  if str_eqb (cred_token c) [] then Some 0%N
  else
    match expires_at c with
    | Some expiry =>
        if (expiry <=? now)%N then Some 0%N
        else
          option_map (fun soon => if (soon <? expiry)%N then (expiry - now - five_minutes)%N
                                  else ((expiry - now) * 9 / 10)%N) (instant_add now five_minutes)
    | None => Some (from_secs (55 * 60))
    end.

Variant LoopPhase :=
| AtTop
| Retrying (backoff : Duration).

Definition next_backoff (backoff : Duration) : Duration := N.min (backoff * 2) (from_secs 60).

(** One round: the wait at the top, or one exchange with the wait after a failure.  The answer is the
    sleep the round ends with, if any, and what comes next ([None]: the task has panicked). *)
Definition refresh_step (now : Instant) (sent : result (TokenReply Value) str) (phase : LoopPhase)
    (c : IntegrationCredential) : option (option Duration * LoopPhase * IntegrationCredential) :=
  match phase with
  | AtTop =>
      option_map (fun d => (if (d =? 0)%N then None else Some d, Retrying (from_secs 1), c)) (sleep_duration now c)
  | Retrying backoff =>
      match do_token_refresh now sent with
      | None => None
      | Some (Ok got) => Some (None, AtTop, keep_outcome (Ok got) c)
      | Some (Err e) => Some (Some backoff, Retrying (next_backoff backoff), keep_outcome (Err e) c)
      end
  end.

(** ** The registry *)

Record RefreshTask := {
  task_integration : str;
  task_token_url : str;
  task_client_id : str;
  task_client_secret : str;
  task_refresh_token : str;
  task_phase : LoopPhase;
}.

(** The integrations are listed in the order the map iterates. *)
Record IntegrationRegistry := {
  integrations : list (str * IntegrationCredential);
  refresh_handles : list RefreshTask;
}.

Context (env_var : str -> option str)
  (hash_order : list (str * IntegrationCredential) -> list (str * IntegrationCredential)).

Definition resolve_env (var_name : str) : result str IntegrationError :=
  match env_var var_name with Some v => Ok v | None => Err (MissingEnvVar var_name) end.

Definition resolve_auth (a : AuthMethod) : result str IntegrationError :=
  match a with
  | ApiKey key _ => resolve_env key
  | OAuth2 client_id client_secret _ _ refresh_token =>
      match resolve_env client_id, resolve_env client_secret with
      | Err e, _ | _, Err e => Err e
      | Ok _, Ok _ =>
          match refresh_token with
          | Some rt => match resolve_env rt with Ok _ => Ok [] | Err e => Err e end
          | None => Ok []
          end
      end
  end.

Definition credential_new (name : str) (cfg : IntegrationConfig) (token : str) : IntegrationCredential :=
  {| cred_name := name; config := cfg; cred_token := token; expires_at := None; degraded := false;
     refresh_failures := 0; connectivity_ok := true |}.

Fixpoint resolve_all (configs : list (str * IntegrationConfig))
    : result (list (str * IntegrationCredential)) IntegrationError :=
  match configs with
  | [] => Ok []
  | (name, cfg) :: configs =>
      match resolve_auth (auth cfg) with
      | Err e => Err e
      | Ok token =>
          match resolve_all configs with
          | Err e => Err e
          | Ok resolved => Ok ((name, credential_new name cfg token) :: resolved)
          end
      end
  end.

Definition from_config (configs : list (str * IntegrationConfig)) : result IntegrationRegistry IntegrationError :=
  match resolve_all configs with
  | Err e => Err e
  | Ok resolved => Ok {| integrations := hash_order resolved; refresh_handles := [] |}
  end.

Fixpoint lookup_cred (name : str) (l : list (str * IntegrationCredential)) : option IntegrationCredential :=
  match l with
  | [] => None
  | (n, c) :: l => if str_eqb n name then Some c else lookup_cred name l
  end.

(** A change of the credential a name is bound to, which all its holders share. *)
Definition on_cred (name : str) (f : IntegrationCredential -> IntegrationCredential)
    (l : list (str * IntegrationCredential)) : list (str * IntegrationCredential) :=
  List.map (fun '(n, c) => (n, if str_eqb n name then f c else c)) l.

(** The background task of an integration, if it has one. *)
Definition refresh_task (name : str) (c : IntegrationCredential) : option RefreshTask :=
  match auth (config c) with
  | OAuth2 client_id_env client_secret_env token_url _ (Some refresh_token_env) =>
      match env_var client_id_env, env_var client_secret_env, env_var refresh_token_env with
      | Some client_id, Some client_secret, Some refresh_token =>
          Some {| task_integration := name; task_token_url := token_url; task_client_id := client_id;
                  task_client_secret := client_secret; task_refresh_token := refresh_token; task_phase := AtTop |}
      | _, _, _ => None
      end
  | _ => None
  end.

(** The first exchanges, in turn, each with its background task.  [exchange] is when and what the
    endpoint answers for a name; [Err]: an exchange has panicked, and the caller with it. *)
Fixpoint start_loop (exchange : str -> Instant * result (TokenReply Value) str)
    (pending : list (str * IntegrationCredential)) : SE IntegrationRegistry unit unit :=
  match pending with
  | [] => se_ret tt
  | (name, c) :: pending =>
      match refresh_task name c with
      | None => start_loop exchange pending
      | Some task =>
          let '(now, sent) := exchange name in
          match do_token_refresh now sent with
          | None => se_err tt
          | Some outcome =>
              let! _ := se_modify (fun r => {| integrations := on_cred name (keep_outcome outcome) (integrations r);
                                               refresh_handles := refresh_handles r ++ [task] |}) in
              start_loop exchange pending
          end
      end
  end.

Definition start_background_refresh (exchange : str -> Instant * result (TokenReply Value) str)
    : SE IntegrationRegistry unit unit := fun r => start_loop exchange (integrations r) r.

(** A step of the [i]th background task; the task's credential is the registry's.  A panicked task is gone. *)
Definition with_phase (t : RefreshTask) (phase : LoopPhase) : RefreshTask :=
  {| task_integration := task_integration t; task_token_url := task_token_url t; task_client_id := task_client_id t;
     task_client_secret := task_client_secret t; task_refresh_token := task_refresh_token t; task_phase := phase |}.

Definition run_task (i : nat) (now : Instant) (sent : result (TokenReply Value) str) (r : IntegrationRegistry)
    : IntegrationRegistry :=
  match refresh_handles r !! i with
  | None => r
  | Some t =>
      match lookup_cred (task_integration t) (integrations r) with
      | None => r
      | Some c =>
          match refresh_step now sent (task_phase t) c with
          | None => {| integrations := integrations r; refresh_handles := delete i (refresh_handles r) |}
          | Some (_, phase, c') =>
              {| integrations := on_cred (task_integration t) (fun _ => c') (integrations r);
                 refresh_handles := <[i := with_phase t phase]> (refresh_handles r) |}
          end
      end
  end.

Definition set_connectivity (ok : bool) (c : IntegrationCredential) : IntegrationCredential :=
  {| cred_name := cred_name c; config := config c; cred_token := cred_token c; expires_at := expires_at c;
     degraded := degraded c; refresh_failures := refresh_failures c; connectivity_ok := ok |}.

Definition test_connectivity (head : str -> result unit str) (r : IntegrationRegistry)
    : IntegrationRegistry * list (str * result unit IntegrationError) :=
  let probe (c : IntegrationCredential) := head (base_url (config c)) in
  ({| integrations := List.map (fun '(n, c) => (n, set_connectivity (match probe c with Ok _ => true | Err _ => false end) c))
                        (integrations r);
      refresh_handles := refresh_handles r |},
   List.map (fun '(n, c) => (n, map_err Http (probe c))) (integrations r)).

Definition shutdown (r : IntegrationRegistry) : IntegrationRegistry :=
  {| integrations := integrations r; refresh_handles := [] |}.

Definition access_token (name : str) (r : IntegrationRegistry) : result str IntegrationError :=
  match lookup_cred name (integrations r) with
  | None => Err (NotFound name)
  | Some c =>
      if degraded c then Err (TokenRefreshFailed name)
      else if str_eqb (cred_token c) [] then Err (TokenRefreshFailed name)
      else Ok (cred_token c)
  end.

Definition names (r : IntegrationRegistry) : list str := List.map fst (integrations r).

Definition metadata (name : str) (r : IntegrationRegistry) : option IntegrationMetadata :=
  option_map (fun c =>
    {| meta_base_url := base_url (config c);
       meta_scopes := match auth (config c) with OAuth2 _ _ _ scopes _ => scopes | ApiKey _ _ => [] end;
       meta_rate_limit_rps := rate_limit_rps (config c);
       meta_status := if degraded c then "degraded" else if connectivity_ok c then "ok" else "unreachable";
       meta_description := description (config c) |}) (lookup_cred name (integrations r)).

(** ** Injection ([injector.rs]) *)

Definition url_matches_base (base_url url : str) : bool :=
  if negb (starts_with base_url url) then false
  else if (length url =? length base_url)%nat then true
  else if ends_with "/" base_url then true
  else
    match url !! length base_url with
    | Some c => Ascii.eqb c "/" || Ascii.eqb c "?" || Ascii.eqb c "#"
    | None => false
    end.

Definition parse_api_key_headers (placement key : str) : list (str * str) :=
  match strip_prefix "header:" placement with
  | Some header_name => [(header_name, key)]
  | None => [(lit "Authorization", lit "Bearer " ++ key)]
  end.

Definition auth_headers (a : AuthMethod) (token : str) : list (str * str) :=
  match a with
  | ApiKey _ placement => parse_api_key_headers placement token
  | OAuth2 _ _ _ _ _ => [(lit "Authorization", lit "Bearer " ++ token)]
  end.

(** Both ways to inject walk the map for the first integration that applies, and stop there. *)
Fixpoint inject_loop (tenant_integrations : list str) (url : str) (l : list (str * IntegrationCredential))
    : result (option (list (str * str))) IntegrationError :=
  match l with
  | [] => Ok None
  | (name, c) :: l =>
      if negb (url_matches_base (base_url (config c)) url) then inject_loop tenant_integrations url l
      else if negb (mem name tenant_integrations) then inject_loop tenant_integrations url l
      else if degraded c then Err (Degraded ("integration '" ++ name ++ "' is degraded"))
      else if str_eqb (cred_token c) [] then
        Err (TokenRefreshFailed ("integration '" ++ name ++ "' has no token"))
      else Ok (Some (auth_headers (auth (config c)) (cred_token c)))
  end.

Definition inject_headers_sync (url : str) (tenant_integrations : list str) (r : IntegrationRegistry)
    : result (option (list (str * str))) IntegrationError :=
  inject_loop tenant_integrations url (integrations r).

Fixpoint credentials_loop (r : IntegrationRegistry) (tenant_integrations : list str) (url : str)
    (l : list (str * IntegrationCredential)) : result (option (list (str * str))) IntegrationError :=
  match l with
  | [] => Ok None
  | (name, c) :: l =>
      if negb (url_matches_base (base_url (config c)) url) then credentials_loop r tenant_integrations url l
      else if negb (mem name tenant_integrations) then credentials_loop r tenant_integrations url l
      else
        match access_token name r with
        | Err e => Err e
        | Ok token => Ok (Some (auth_headers (auth (config c)) token))
        end
  end.

Definition inject_credentials (url : str) (tenant_integrations : list str) (r : IntegrationRegistry)
    : result (option (list (str * str))) IntegrationError :=
  credentials_loop r tenant_integrations url (integrations r).
End Refresh.

(** ** A credential goes only where it belongs *)

(** What stands between [://] and the path, query or fragment. *)
Definition in_authority (c : ascii) : bool := negb (Ascii.eqb c "/" || Ascii.eqb c "?" || Ascii.eqb c "#").
Definition url_authority (url : str) : str :=
  match split_once_str "://" url with Some (_, rest) => take_while in_authority rest | None => [] end.

Lemma url_matches_base_tail base url : url_matches_base base url = true ->
  exists t, url = base ++ t /\
    (t = [] \/ ends_with "/" base = true \/ exists c t', t = c :: t' /\ in_authority c = false).
Proof.
  unfold url_matches_base. destruct (starts_with base url) eqn:Es; [|done]. apply starts_with_true in Es as [t ->].
  intros E. exists t. split; [done|]. cbn [negb] in E. destruct (_ =? _)%nat eqn:El.
  - left. apply Nat.eqb_eq in El. rewrite length_app in El. apply length_zero_iff_nil. lia.
  - destruct (ends_with "/" base); [by right; left|]. right; right.
    rewrite lookup_app_r in E by lia. rewrite Nat.sub_diag in E. destruct t as [|c t']; [done|]. cbn in E.
    exists c, t'. split; [done|]. unfold in_authority. by rewrite E.
Qed.

(** A matching URL has the scheme and the authority of the base. *)
Lemma match_keeps_authority base url :
  url_matches_base base url = true -> url_authority base <> [] -> url_authority url = url_authority base.
Proof.
  intros (t & -> & Ht)%url_matches_base_tail. unfold url_authority, split_once_str.
  destruct (find_sub "://" base) as [i|] eqn:E; [|done]. rewrite (find_sub_app _ _ t i E). cbn [option_map].
  pose proof (find_sub_spec "://" base) as Hs. rewrite E in Hs. destruct Hs as (x & y & -> & <- & _).
  assert (forall z, skipn (length x + length (lit "://")) (x ++ lit "://" ++ z) = z) as Hd.
  { intros z. by rewrite app_assoc, <- length_app, drop_app_length. }
  rewrite <- !app_assoc, !Hd. intros Hy. apply take_while_stop.
  destruct (forallb in_authority y) eqn:Ef; [|by left]. right. destruct Ht as [->|[He|He]]; [by left| |by right].
  exfalso. apply ends_with_true in He as [r Er]. destruct (decide (y = [])) as [->|Hn]; [done|].
  destruct (exists_last Hn) as (y' & c & ->). rewrite !app_assoc in Er. apply app_inj_tail in Er as [_ ->].
  rewrite forallb_app in Ef. by apply andb_true_iff in Ef as [_ Ef].
Qed.

(** How a walk for a credential ends. *)
Lemma inject_loop_spec tenants url l :
  match inject_loop tenants url l with
  | Ok None => forall n c, (n, c) ∈ l -> url_matches_base (base_url (config c)) url = true -> n ∉ tenants
  | Ok (Some hs) =>
      exists n c, (n, c) ∈ l /\ url_matches_base (base_url (config c)) url = true /\ n ∈ tenants /\
        degraded c = false /\ cred_token c <> [] /\ hs = auth_headers (auth (config c)) (cred_token c)
  | Err e =>
      exists n c, (n, c) ∈ l /\ url_matches_base (base_url (config c)) url = true /\ n ∈ tenants /\
        (degraded c = true \/ cred_token c = [])
  end.
Proof.
  induction l as [|[n c] l IH]; cbn [inject_loop]; [by intros n c ?%not_elem_of_nil|].
  assert (forall (R : str -> IntegrationCredential -> Prop), (exists n' c', (n', c') ∈ l /\ R n' c') ->
    exists n' c', (n', c') ∈ (n, c) :: l /\ R n' c') as Hin.
  { intros R (n' & c' & Hl & HR). exists n', c'. split; [by right|done]. }
  assert (url_matches_base (base_url (config c)) url = false \/ n ∉ tenants ->
    match inject_loop tenants url l with
    | Ok None => forall n' c', (n', c') ∈ (n, c) :: l -> url_matches_base (base_url (config c')) url = true -> n' ∉ tenants
    | Ok (Some hs) => exists n' c', (n', c') ∈ (n, c) :: l /\ url_matches_base (base_url (config c')) url = true /\
        n' ∈ tenants /\ degraded c' = false /\ cred_token c' <> [] /\ hs = auth_headers (auth (config c')) (cred_token c')
    | Err e => exists n' c', (n', c') ∈ (n, c) :: l /\ url_matches_base (base_url (config c')) url = true /\
        n' ∈ tenants /\ (degraded c' = true \/ cred_token c' = [])
    end) as Hskip.
  { intros Hs. destruct (inject_loop tenants url l) as [[hs|]|e]; [by apply Hin| |by apply Hin].
    intros n' c' [[= -> ->]|Hl]%elem_of_cons Hm; [|by eapply IH]. by destruct Hs as [Hs|Hs]; [rewrite Hs in Hm|]. }
  destruct (url_matches_base _ url) eqn:Em; cbn [negb]; [|by apply Hskip; left].
  destruct (mem n tenants) eqn:Et; cbn [negb]; bools; [|by apply Hskip; right].
  destruct (degraded c) eqn:Ed; [exists n, c; split_and!; [by left|done..|by left]|].
  destruct (str_eqb (cred_token c) []) eqn:Ek; bools; exists n, c; split_and!; try done; try (by left). by right.
Qed.

(** C29. A credential is injected only into a request for a URL with the authority of the integration's
    base, for a tenant that was granted the integration, and only while the integration is not degraded
    and has a token; it is the header the configuration asks for with that token.  No header at all
    means that no granted integration matches, and an error that one does but has nothing to give. *)
Theorem injection_is_scoped url tenants r :
  match inject_headers_sync url tenants r with
  | Ok (Some hs) =>
      exists n c, (n, c) ∈ integrations r /\ n ∈ tenants /\ degraded c = false /\ cred_token c <> [] /\
        (url_authority (base_url (config c)) <> [] -> url_authority url = url_authority (base_url (config c))) /\
        hs = auth_headers (auth (config c)) (cred_token c)
  | Ok None => forall n c, (n, c) ∈ integrations r -> n ∈ tenants -> url_matches_base (base_url (config c)) url = false
  | Err _ => exists n c, (n, c) ∈ integrations r /\ n ∈ tenants /\ (degraded c = true \/ cred_token c = [])
  end.
Proof.
  unfold inject_headers_sync. pose proof (inject_loop_spec tenants url (integrations r)) as Hs.
  destruct (inject_loop _ _ _) as [[hs|]|e].
  - destruct Hs as (n & c & Hin & Hm & Ht & Hd & Hk & ->). exists n, c. split_and!; try done.
    by apply match_keeps_authority.
  - intros n c Hin Ht. apply not_true_iff_false. intros Hm. by eapply Hs.
  - destruct Hs as (n & c & Hin & _ & Ht & Hd). by exists n, c.
Qed.

(** ** The two ways to inject agree *)

Lemma lookup_cred_In l n c : NoDup (List.map fst l) -> (n, c) ∈ l -> lookup_cred n l = Some c.
Proof.
  induction l as [|[n' c'] l IH]; cbn [List.map lookup_cred fst]; intros Hd Hin; [by apply not_elem_of_nil in Hin|].
  apply NoDup_cons in Hd as [Hn Hd]. apply elem_of_cons in Hin as [[= -> ->]|Hin]; [by rewrite str_eqb_refl|].
  destruct (str_eqb n' n) eqn:E; bools; [|by apply IH]. subst n'. destruct Hn. apply list_elem_of_fmap. by exists (n, c).
Qed.

(** The asynchronous injection gives a header exactly when the one on the hot path does, and the same
    one; it fails on the same requests. *)
Theorem injections_agree url tenants r : NoDup (names r) ->
  match inject_credentials url tenants r, inject_headers_sync url tenants r with
  | Ok h1, Ok h2 => h1 = h2
  | Err _, Err _ => True
  | _, _ => False
  end.
Proof.
  intros Hd. unfold inject_credentials, inject_headers_sync.
  assert (forall l, (forall n c, (n, c) ∈ l -> lookup_cred n (integrations r) = Some c) ->
    match credentials_loop r tenants url l, inject_loop tenants url l with
    | Ok h1, Ok h2 => h1 = h2 | Err _, Err _ => True | _, _ => False end) as Hl.
  { induction l as [|[n c] l IH]; intros Hin; cbn [credentials_loop inject_loop]; [done|].
    assert (forall n c, (n, c) ∈ l -> lookup_cred n (integrations r) = Some c) as Hin' by (intros; apply Hin; by right).
    destruct (negb (url_matches_base _ _)); [by apply IH|]. destruct (negb (mem _ _)); [by apply IH|].
    unfold access_token. rewrite (Hin n c) by by left. destruct (degraded c); [done|]. by destruct (str_eqb _ []). }
  apply Hl. intros n c. by apply lookup_cred_In.
Qed.

(** ** Three failures in a row degrade an integration *)

Definition keep_all (outcomes : list (result (str * Instant) IntegrationError)) (c : IntegrationCredential)
    : IntegrationCredential := fold_left (fun c o => keep_outcome o c) outcomes c.

(** The failures since the last success, and the token of that success. *)
Definition is_failure (o : result (str * Instant) IntegrationError) : bool :=
  match o with Ok _ => false | Err _ => true end.
Definition failures_in_a_row (outcomes : list (result (str * Instant) IntegrationError)) : nat :=
  length (take_while is_failure (rev outcomes)).
Definition latest_token (initial : str) (outcomes : list (result (str * Instant) IntegrationError)) : str :=
  fold_left (fun t o => match o with Ok (token, _) => token | Err _ => t end) outcomes initial.

Lemma failures_snoc os o :
  failures_in_a_row (os ++ [o]) = if is_failure o then S (failures_in_a_row os) else 0%nat.
Proof. unfold failures_in_a_row. rewrite rev_app_distr. cbn. by destruct (is_failure o). Qed.

Lemma failures_le os : (failures_in_a_row os <= length os)%nat.
Proof.
  unfold failures_in_a_row. rewrite <- (length_rev os). generalize (rev os) as l.
  induction l as [|o l IH]; cbn; [done|]. destruct (is_failure o); cbn; lia.
Qed.

(** After any exchanges (fewer than 2^32 of them) an integration is degraded exactly when the last three
    or more failed in a row, a single success clears it, and its token is the one of the last success. *)
Theorem degraded_after_three_failures name cfg token outcomes :
  (N.of_nat (length outcomes) < 2 ^ 32)%N ->
  let c := keep_all outcomes (credential_new name cfg token) in
  degraded c = (3 <=? failures_in_a_row outcomes)%nat /\
  refresh_failures c = N.of_nat (failures_in_a_row outcomes) /\
  cred_token c = latest_token token outcomes /\ config c = cfg.
Proof.
  induction outcomes as [|o os IH] using rev_ind; intros Hl; [done|]. rewrite length_app in Hl. cbn in Hl.
  destruct IH as (Hd & Hf & Ht & Hc); [lia|]. pose proof (failures_le os) as Hle.
  unfold keep_all, latest_token in *. rewrite !fold_left_app, failures_snoc. cbn [fold_left].
  set (c := fold_left _ os _) in *. destruct o as [[t x]|e]; cbn [is_failure keep_outcome].
  { by split_and!. }
  unfold increment_failures. rewrite Hf, N.mod_small by lia.
  replace (3 <=? N.of_nat (failures_in_a_row os) + 1)%N with (3 <=? S (failures_in_a_row os))%nat
    by (apply eq_iff_eq_true; rewrite Nat.leb_le, N.leb_le; lia).
  destruct (3 <=? S _)%nat eqn:E; cbn; split_and!; try done; try lia.
  rewrite Hd. apply Nat.leb_gt in E. apply Nat.leb_gt. lia.
Qed.

(** ** The waits of the background task *)

Section Waits.
Context {Value : Type} `{JsonOps Value}.

(** A task over its rounds: the sleeps it asks for, and where it stands ([None]: it has panicked). *)
Fixpoint refresh_rounds (rounds : list (Instant * result (TokenReply Value) str)) (phase : LoopPhase)
    (c : IntegrationCredential) : option (list Duration * LoopPhase * IntegrationCredential) :=
  match rounds with
  | [] => Some ([], phase, c)
  | (now, sent) :: rounds =>
      match refresh_step now sent phase c with
      | None => None
      | Some (slept, phase, c) =>
          option_map (fun '(sleeps, phase, c) => (option_list slept ++ sleeps, phase, c))
            (refresh_rounds rounds phase c)
      end
  end.

Definition backoff_at (n : nat) : Duration := from_secs (N.min (2 ^ N.of_nat n) 60).

Lemma next_backoff_at n : next_backoff (backoff_at n) = backoff_at (S n).
Proof.
  unfold next_backoff, backoff_at, from_secs. rewrite Nat2N.inj_succ, N.pow_succ_r'.
  destruct (N.min_spec (2 ^ N.of_nat n) 60), (N.min_spec (2 * 2 ^ N.of_nat n) 60); lia.
Qed.

Lemma failing_round now sent n c : (forall r, do_token_refresh now sent = Some (Ok r) -> False) ->
  do_token_refresh now sent <> None ->
  exists e, refresh_step now sent (Retrying (backoff_at n)) c =
    Some (Some (backoff_at n), Retrying (backoff_at (S n)), keep_outcome (Err e) c).
Proof.
  intros Hf Hn. cbn [refresh_step]. rewrite <- next_backoff_at.
  destruct (do_token_refresh now sent) as [[r|e]|]; [by destruct (Hf r)|by exists e|done].
Qed.

(** A task whose exchanges fail waits 1, 2, 4, 8, .. seconds after them, never more than a minute. *)
Theorem failures_back_off rounds c :
  Forall (fun '(now, sent) => exists e, do_token_refresh now sent = Some (Err e)) rounds ->
  exists c', refresh_rounds rounds (Retrying (from_secs 1)) c =
    Some (List.map (fun k => from_secs (N.min (2 ^ N.of_nat k) 60)) (seq 0 (length rounds)),
          Retrying (backoff_at (length rounds)), c').
Proof.
  intros Hr. change (from_secs 1) with (backoff_at 0). change (length rounds) with (0 + length rounds)%nat at 2.
  generalize 0%nat as n. revert c. induction Hr as [|[now sent] rounds (e & He) _ IH]; intros c n.
  { exists c. cbn. by rewrite Nat.add_0_r. }
  destruct (failing_round now sent n c) as [e' E]; [by rewrite He|by rewrite He|]. cbn [refresh_rounds].
  rewrite E. destruct (IH (keep_outcome (Err e') c) (S n)) as [c' ->]. exists c'.
  cbn [option_map option_list app length seq List.map]. by rewrite Nat.add_succ_r.
Qed.

(** At the top of its loop a task never sleeps past the expiry of the token it keeps: it sleeps until
    five minutes before a distant one, and for nine tenths of what is left of a near one. *)
Theorem wakes_before_expiry now c expiry d :
  cred_token c <> [] -> expires_at c = Some expiry -> sleep_duration now c = Some d ->
  (now < expiry -> now + d < expiry)%N /\ (now + five_minutes < expiry -> now + d + five_minutes = expiry)%N /\
  ((d = 0)%N <-> (expiry < now + 2)%N).
Proof.
  intros Ht He. unfold sleep_duration. destruct (str_eqb _ _) eqn:E; bools; [done|]. rewrite He.
  change five_minutes with 300000000000%N. destruct (N.leb_spec expiry now) as [Hn|Hn].
  { intros [= <-]. split_and!; [lia..|]. split; [lia|done]. }
  unfold instant_add. destruct (_ <? from_secs _)%N; [|done]. cbn [option_map].
  destruct (N.ltb_spec (now + 300000000000) expiry) as [Hf|Hf]; intros [= <-]; [split_and!; lia|].
  assert ((expiry - now) * 9 / 10 < expiry - now)%N by (apply N.Div0.div_lt_upper_bound; lia).
  split_and!; [lia..|]. split; intros Hd.
  - destruct (N.le_gt_cases 2 (expiry - now)) as [H2|]; [|lia].
    assert (1 <= (expiry - now) * 9 / 10)%N by (apply N.div_le_lower_bound; lia). lia.
  - replace (expiry - now)%N with 1%N by lia. done.
Qed.

(** But a task whose exchanges succeed with a token that has already expired ([expires_in] 0) never
    sleeps: it asks the endpoint again and again without a pause. *)
Theorem expired_tokens_spin rounds c :
  Forall (fun '(now, sent) => exists token expires, do_token_refresh now sent = Some (Ok (token, expires)) /\
            Forall (fun '(later, _) => expires <= later)%N rounds) rounds ->
  (forall e, expires_at c = Some e -> Forall (fun '(later, _) => e <= later)%N rounds) ->
  (expires_at c = None -> cred_token c = []) ->
  exists phase c', refresh_rounds rounds AtTop c = Some ([], phase, c').
Proof.
  intros Hr He Hn.
  assert (forall rs, rs `sublist_of` rounds -> forall phase c, (phase = AtTop \/ phase = Retrying (from_secs 1)) ->
    (forall e, expires_at c = Some e -> Forall (fun '(later, _) => e <= later)%N rounds) ->
    (expires_at c = None -> cred_token c = []) ->
    exists phase' c', refresh_rounds rs phase c = Some ([], phase', c')) as Hg; [|by eapply Hg; [|left|..]].
  clear He Hn c. induction rs as [|[now sent] rs IH]; intros Hsub phase c Hp He Hn; [by exists phase, c|].
  assert ((now, sent) ∈ rounds) as Hin by (eapply sublist_subseteq; [done|by left]).
  assert (rs `sublist_of` rounds) as Hsub' by (etrans; [|done]; by apply sublist_cons).
  rewrite Forall_forall in Hr. cbn [refresh_rounds]. destruct Hp as [->| ->]; cbn [refresh_step].
  - assert (sleep_duration now c = Some 0%N) as ->.
    { unfold sleep_duration. destruct (str_eqb _ _) eqn:E; [done|]. bools. destruct (expires_at c) as [e|]; [|by destruct (E (Hn eq_refl))].
      specialize (He e eq_refl). rewrite Forall_forall in He. specialize (He _ Hin). cbn in He.
      by apply N.leb_le in He as ->. }
    cbn. destruct (IH Hsub' (Retrying (from_secs 1)) c) as (p & c' & ->); [by right|done..|]. by exists p, c'.
  - destruct (Hr _ Hin) as (token & expires & -> & Hx). cbn [option_list app].
    destruct (IH Hsub' AtTop (keep_outcome (Ok (token, expires)) c)) as (p & c' & ->); [by left|..|by exists p, c'];
      cbn; [by intros e [= <-]|done].
Qed.
End Waits.

(** ** What holds of every registry *)

Section Registries.
Context {Value : Type} `{JsonOps Value} (env_var : str -> option str)
  (hash_order : list (str * IntegrationCredential) -> list (str * IntegrationCredential))
  (configs : list (str * IntegrationConfig)).

(** The registries the calls and the background tasks lead to, in any order. *)
Inductive reachable : IntegrationRegistry -> Prop :=
| reach_from_config r : from_config env_var hash_order configs = Ok r -> reachable r
| reach_start exchange r : reachable r -> reachable (fst (start_background_refresh (Value := Value) env_var exchange r))
| reach_task i now sent r : reachable r -> reachable (run_task (Value := Value) i now sent r)
| reach_connectivity head r : reachable r -> reachable (fst (test_connectivity head r))
| reach_shutdown r : reachable r -> reachable (shutdown r).

Record cred_wf (name : str) (c : IntegrationCredential) : Prop := {
  cred_configured : (name, config c) ∈ configs;
  cred_healthy : degraded c = false -> (refresh_failures c < 3)%N;
  cred_api_key : forall key placement, auth (config c) = ApiKey key placement ->
    env_var key = Some (cred_token c) /\ degraded c = false;
}.

Definition refreshes (t : RefreshTask) (c : IntegrationCredential) : Prop :=
  exists i s u sc rt, auth (config c) = OAuth2 i s u sc (Some rt) /\ env_var i = Some (task_client_id t) /\
    env_var s = Some (task_client_secret t) /\ env_var rt = Some (task_refresh_token t) /\ u = task_token_url t.

Record registry_wf (r : IntegrationRegistry) : Prop := {
  wf_names : NoDup (names r);
  wf_creds : forall n c, (n, c) ∈ integrations r -> cred_wf n c;
  wf_tasks : forall t, t ∈ refresh_handles r -> forall c, (task_integration t, c) ∈ integrations r -> refreshes t c;
}.

Lemma keep_outcome_wf n o c : (forall key placement, auth (config c) <> ApiKey key placement) ->
  cred_wf n c -> cred_wf n (keep_outcome o c).
Proof.
  intros Ha [Hc Hh Hk]. assert (config (keep_outcome o c) = config c) as E.
  { destruct o as [[t x]|e]; cbn; [done|]. by destruct (3 <=? _)%N. }
  split; [by rewrite E| |by intros k p; rewrite E; intros E'; destruct (Ha k p)].
  destruct o as [[t x]|e]; cbn; [lia|]. destruct (N.leb_spec 3 ((refresh_failures c + 1) mod 2 ^ 32)); [done|]. cbn. lia.
Qed.

Lemma names_on_cred n f l : List.map fst (on_cred n f l) = List.map fst l.
Proof. unfold on_cred. rewrite List.map_map. apply List.map_ext. by intros [? ?]. Qed.

Lemma on_cred_In n f l m c : (m, c) ∈ on_cred n f l ->
  exists c0, (m, c0) ∈ l /\ c = if str_eqb m n then f c0 else c0.
Proof.
  unfold on_cred. intros ([m' c0] & [= -> ->] & Hin)%list_elem_of_fmap. by exists c0.
Qed.

(** Changing the credential of a name to one with the same configuration. *)
Lemma on_cred_wf n f r : registry_wf r ->
  (forall c, (n, c) ∈ integrations r -> config (f c) = config c /\ cred_wf n (f c)) ->
  registry_wf {| integrations := on_cred n f (integrations r); refresh_handles := refresh_handles r |}.
Proof.
  intros [Hn Hc Ht] Hf. split; unfold names; cbn.
  - by rewrite names_on_cred.
  - intros m c (c0 & Hin & ->)%on_cred_In. destruct (str_eqb m n) eqn:E; bools; [subst m; by apply Hf|by apply Hc].
  - intros t Hh c (c0 & Hin & ->)%on_cred_In. specialize (Ht t Hh c0 Hin).
    destruct (str_eqb _ n) eqn:E; bools; [|done]. subst n. destruct (Hf c0 Hin) as [Ec _].
    destruct Ht as (i & s & u & sc & rt & ? & ?). exists i, s, u, sc, rt. by rewrite Ec.
Qed.

(** Handles that refresh what they name may come and go. *)
Lemma handles_wf r hs : registry_wf r ->
  (forall t, t ∈ hs -> forall c, (task_integration t, c) ∈ integrations r -> refreshes t c) ->
  registry_wf {| integrations := integrations r; refresh_handles := hs |}.
Proof. by intros [Hn Hc Ht] Hh; split. Qed.

Lemma same_name_same (l : list (str * IntegrationCredential)) n c1 c2 : NoDup (List.map fst l) -> (n, c1) ∈ l -> (n, c2) ∈ l -> c1 = c2.
Proof. intros Hd H1 H2. apply lookup_cred_In in H1, H2; [congruence|done..]. Qed.

Lemma refresh_task_refreshes n c t : refresh_task env_var n c = Some t -> task_integration t = n /\ refreshes t c.
Proof.
  unfold refresh_task, refreshes. destruct (auth (config c)) as [i s u sc [rt|]|]; try done.
  destruct (env_var i) eqn:E1, (env_var s) eqn:E2, (env_var rt) eqn:E3; try done. intros [= <-]. cbn.
  split; [done|]. by exists i, s, u, sc, rt.
Qed.

Lemma refreshes_not_api t c : refreshes t c -> forall key placement, auth (config c) <> ApiKey key placement.
Proof. intros (i & s & u & sc & rt & E & _) k p. congruence. Qed.

Lemma start_loop_wf exchange pending : forall r, registry_wf r ->
  (forall n c, (n, c) ∈ pending -> forall c', (n, c') ∈ integrations r -> config c' = config c) ->
  registry_wf (fst (start_loop (Value := Value) env_var exchange pending r)).
Proof.
  induction pending as [|[n c] pending IH]; intros r Hr Hp; cbn [start_loop]; [done|].
  assert (forall n c, (n, c) ∈ pending -> forall c', (n, c') ∈ integrations r -> config c' = config c) as Hp'
    by (intros m ? ?; apply (Hp m); by right).
  destruct (refresh_task env_var n c) as [t|] eqn:Et; [|by apply IH]. apply refresh_task_refreshes in Et as [En Ht].
  destruct (exchange n) as [now sent]. destruct (do_token_refresh now sent) as [o|]; [|done].
  assert (forall c', (n, c') ∈ integrations r -> refreshes t c') as Htr.
  { intros c' Hin. destruct Ht as (i & s & u & sc & rt & Ht). exists i, s, u, sc, rt. by rewrite (Hp n c ltac:(by left) c'). }
  assert (forall c, config (keep_outcome o c) = config c) as Hk.
  { intros c'. destruct o as [[t' x]|e]; cbn; [done|]. by destruct (3 <=? _)%N. }
  assert (registry_wf {| integrations := on_cred n (keep_outcome o) (integrations r); refresh_handles := refresh_handles r |}) as Hr'.
  { apply on_cred_wf; [done|]. intros c' Hin. split; [done|]. apply keep_outcome_wf; [by eapply refreshes_not_api, Htr|].
    by apply (wf_creds _ Hr). }
  apply (IH {| integrations := on_cred n (keep_outcome o) (integrations r); refresh_handles := refresh_handles r ++ [t] |}).
  - apply (handles_wf _ (refresh_handles r ++ [t])) in Hr'; [done|]. intros t' [Hin| ->%list_elem_of_singleton]%elem_of_app.
    + by apply (wf_tasks _ Hr').
    + rewrite En. intros c' (c0 & Hin & ->)%on_cred_In. rewrite str_eqb_refl. specialize (Htr c0 Hin).
      destruct Htr as (i & s & u & sc & rt & Htr). exists i, s, u, sc, rt. by rewrite Hk.
  - intros m c0 Hin c' (c1 & Hin1 & ->)%on_cred_In. destruct (str_eqb m n); [rewrite Hk|]; by apply (Hp' m).
Qed.

Lemma run_task_wf i now sent r : registry_wf r -> registry_wf (run_task (Value := Value) i now sent r).
Proof.
  intros Hr. unfold run_task. destruct (refresh_handles r !! i) as [t|] eqn:Ei; [|done].
  pose proof (list_elem_of_lookup_2 _ _ _ Ei) as Ht.
  destruct (lookup_cred _ _) as [c|] eqn:El; [|done].
  assert ((task_integration t, c) ∈ integrations r) as Hin.
  { clear -El. induction (integrations r) as [|[n c'] l IH]; cbn in El; [done|].
    destruct (str_eqb n _) eqn:E; bools; [|by right; apply IH]. injection El as ->. subst n. by left. }
  pose proof (wf_tasks _ Hr t Ht c Hin) as Hre. pose proof (wf_creds _ Hr _ _ Hin) as Hc.
  assert (forall hs c', config c' = config c -> cred_wf (task_integration t) c' ->
    (forall t', t' ∈ hs -> t' ∈ refresh_handles r \/ exists p, t' = with_phase t p) ->
    registry_wf {| integrations := on_cred (task_integration t) (fun _ => c') (integrations r); refresh_handles := hs |}) as Hput.
  { intros hs c' Ec Hc' Hhs. apply (handles_wf {| integrations := _; refresh_handles := refresh_handles r |}).
    - apply on_cred_wf; [done|]. intros c0 H0. by rewrite (same_name_same _ _ _ _ (wf_names _ Hr) H0 Hin).
    - cbn. intros t' [Hin'|[p ->]]%Hhs c0 (c1 & H1 & ->)%on_cred_In.
      + pose proof (wf_tasks _ Hr t' Hin' c1 H1) as Hw. destruct (str_eqb _ _) eqn:E; bools; [|done].
        rewrite E in H1. rewrite (same_name_same _ _ _ _ (wf_names _ Hr) H1 Hin) in Hw.
        destruct Hw as (i' & s & u & sc & rt & Hw). exists i', s, u, sc, rt. by rewrite Ec.
      + cbn. rewrite str_eqb_refl. destruct Hre as (i' & s & u & sc & rt & Hw). exists i', s, u, sc, rt. by rewrite Ec. }
  assert (forall p t', t' ∈ <[i := with_phase t p]> (refresh_handles r) -> t' ∈ refresh_handles r \/ exists p, t' = with_phase t p) as Hins.
  { intros p t' [j [(-> & <- & _)|[_ Hj]]%list_lookup_insert_Some]%list_elem_of_lookup_1; [right; by exists p|].
    left. by eapply list_elem_of_lookup_2. }
  unfold refresh_step. destruct (task_phase t) as [|b].
  - destruct (sleep_duration now c) as [d|]; cbn [option_map].
    + apply Hput; [done|done|apply Hins].
    + apply handles_wf; [done|]. intros t' Hin'. apply (wf_tasks _ Hr). by eapply list_elem_of_delete_inv.
  - assert (forall o, config (keep_outcome o c) = config c) as Hk.
    { intros o. destruct o as [[t' x]|e]; cbn; [done|]. by destruct (3 <=? _)%N. }
    destruct (do_token_refresh now sent) as [[got|e]|].
    + apply Hput; [apply Hk| |apply Hins]. apply keep_outcome_wf; [by eapply refreshes_not_api|done].
    + apply Hput; [apply Hk| |apply Hins]. apply keep_outcome_wf; [by eapply refreshes_not_api|done].
    + apply handles_wf; [done|]. intros t' Hin'. apply (wf_tasks _ Hr). by eapply list_elem_of_delete_inv.
Qed.

Lemma from_config_wf r : (forall l, Permutation l (hash_order l)) -> NoDup (List.map fst configs) ->
  from_config env_var hash_order configs = Ok r -> registry_wf r.
Proof.
  intros Hp Hd. unfold from_config.
  assert (forall l resolved, resolve_all env_var l = Ok resolved -> List.map fst resolved = List.map fst l /\
    (l ⊆ configs -> forall n c, (n, c) ∈ resolved -> cred_wf n c)) as Hl.
  { induction l as [|[n cfg] l IH]; intros resolved; cbn [resolve_all].
    { intros [= <-]. split; [done|]. by intros _ n c ?%not_elem_of_nil. }
    destruct (resolve_auth _ _) as [token|] eqn:Ea; [|done]. destruct (resolve_all env_var l) as [rs|]; [|done].
    intros [= <-]. destruct (IH rs eq_refl) as [En Hc]. split; [cbn; by rewrite En|].
    intros Hs m c [[= -> ->]|Hin]%elem_of_cons; [|apply Hc; [|done]; intros x Hx; apply Hs; by right].
    split; cbn; [apply Hs; by left|done|]. intros key p E. rewrite E in Ea. cbn in Ea. unfold resolve_env in Ea.
    destruct (env_var key); [|done]. by injection Ea as ->. }
  destruct (resolve_all env_var configs) as [rs|] eqn:E; [|done]. intros [= <-]. destruct (Hl _ _ E) as [En Hc].
  split; unfold names; cbn.
  - rewrite <- (Permutation_map fst (Hp rs)). by rewrite En.
  - intros n c Hin. apply Hc; [done|]. by rewrite (Hp rs).
  - by intros t ?%not_elem_of_nil.
Qed.

(** In every registry that the calls and the background tasks lead to, names are unique and configured;
    an integration that is not degraded has failed fewer than three times; the key of an API-key
    integration is the one of the environment and never degraded; and a background task refreshes an
    OAuth2 integration with that integration's own client and refresh token. *)
Theorem registry_invariant r :
  (forall l, Permutation l (hash_order l)) -> NoDup (List.map fst configs) -> reachable r -> registry_wf r.
Proof.
  intros Hp Hd. induction 1 as [r E|exchange r _ IH|i now sent r _ IH|head r _ IH|r _ IH].
  - by apply from_config_wf.
  - apply start_loop_wf; [done|]. intros n c H1 c' H2. by rewrite (same_name_same _ _ _ _ (wf_names _ IH) H1 H2).
  - by apply run_task_wf.
  - unfold test_connectivity. cbn. destruct IH as [Hn Hc Ht].
    assert (forall n c, (n, c) ∈ List.map (fun '(n, c) => (n, set_connectivity
      (match head (base_url (config c)) with Ok _ => true | Err _ => false end) c)) (integrations r) ->
      exists c0 b, (n, c0) ∈ integrations r /\ c = set_connectivity b c0) as Hin.
    { intros n c ([n' c0] & [= -> ->] & Hin)%list_elem_of_fmap. by eexists c0, _. }
    split; unfold names in *; cbn.
    + rewrite List.map_map. erewrite List.map_ext; [exact Hn|]. by intros [? ?].
    + intros n c (c0 & b & H0 & ->)%Hin. by destruct (Hc n c0 H0).
    + intros t H1 c (c0 & b & H0 & ->)%Hin. exact (Ht t H1 c0 H0).
  - by apply (handles_wf r []); [|intros t ?%not_elem_of_nil].
Qed.
End Registries.

(** ** A concrete registry *)

Definition ex_config : IntegrationConfig :=
  {| auth := ApiKey "API_KEY" "header:X-Api-Key"; base_url := "https://api.example.com"; description := None;
     rate_limit_rps := 0; skills_path := None |}.
Definition ex_oauth : IntegrationConfig :=
  {| auth := OAuth2 "ID" "SECRET" "https://auth.example.com/token" [] (Some (lit "RT")); base_url := "https://crm.example.com/v1";
     description := None; rate_limit_rps := 0; skills_path := None |}.
Definition ex_configs : list (str * IntegrationConfig) := [(lit "api", ex_config); (lit "crm", ex_oauth)].
Definition ex_env (name : str) : option str := Some (lit "value of " ++ name).

(** A reply whose token is its text, with the expiry the missing field stands for. *)
#[local] Instance ex_json : JsonOps (str + N) := {|
  json_from_str := fun _ => None; json_error := fun _ => []; json_to_string := fun _ => [];
  as_object := fun v => match v with
                        | inl token => Some [(lit "access_token", inl token)]
                        | inr n => Some [(lit "access_token", inl (lit "t")); (lit "expires_in", inr n)]
                        end;
  as_array := fun _ => None; as_str := fun v => match v with inl s => Some s | inr _ => None end;
  as_u64 := fun v => match v with inr n => Some n | inl _ => None end; as_bool := fun _ => None; is_null := fun _ => false;
  json_null := inl []; json_string := inl; json_bool := fun _ => inl []; json_number := inr; json_array := fun _ => inl []; json_object := fun _ => inl [];
|}.
Definition ex_reply (v : str + N) : result (TokenReply (str + N)) str := Ok {| reply_status := 200; reply_json := Ok v |}.
Definition ex_down : result (TokenReply (str + N)) str := Err (lit "connection refused").

Definition ex_registry : IntegrationRegistry :=
  match from_config ex_env id ex_configs with Ok r => r | Err _ => {| integrations := []; refresh_handles := [] |} end.
Definition ex_started : IntegrationRegistry :=
  run_task 0 0%N ex_down (run_task 0 0%N ex_down (run_task 0 0%N ex_down
    (fst (start_background_refresh ex_env (fun _ => (0%N, ex_down)) ex_registry)))).

Lemma registry_invariant_witness :
  registry_wf ex_env ex_configs ex_started /\
  (degraded <$> lookup_cred "crm" (integrations ex_started)) = Some true /\
  inject_headers_sync "https://api.example.com/users" [lit "api"] ex_started =
    Ok (Some [(lit "X-Api-Key", lit "value of API_KEY")]).
Proof.
  split; [|split; reflexivity]. apply (registry_invariant (Value := str + N) ex_env id ex_configs).
  - reflexivity.
  - apply (bool_decide_unpack _). vm_compute. exact I.
  - do 3 apply reach_task. apply reach_start. by apply (reach_from_config (Value := str + N)).
Defined.

Lemma injections_agree_witness :
  inject_headers_sync "https://api.example.com/users" [lit "api"] ex_registry =
    Ok (Some [(lit "X-Api-Key", lit "value of API_KEY")]) /\
  match inject_credentials "https://api.example.com/users" [lit "api"] ex_registry,
        inject_headers_sync "https://api.example.com/users" [lit "api"] ex_registry with
  | Ok h1, Ok h2 => h1 = h2 | Err _, Err _ => True | _, _ => False end.
Proof.
  split; [reflexivity|]. apply (injections_agree "https://api.example.com/users" [lit "api"] ex_registry).
  apply (bool_decide_unpack _). vm_compute. exact I.
Defined.

Definition ex_outcomes : list (result (str * Instant) IntegrationError) :=
  [Ok (lit "t", 9%N); Err (Http []); Err (Http []); Err (Http [])].
Lemma degraded_after_three_failures_witness :
  let c := keep_all ex_outcomes (credential_new "crm" ex_oauth []) in
  degraded c = true /\ degraded c = (3 <=? failures_in_a_row ex_outcomes)%nat.
Proof.
  split; [reflexivity|]. destruct (degraded_after_three_failures "crm" ex_oauth [] ex_outcomes) as [E _]; [reflexivity|]. exact E.
Defined.

Lemma failures_back_off_witness :
  exists c', refresh_rounds (repeat (0%N, ex_down) 8) (Retrying (from_secs 1)) (credential_new "crm" ex_oauth []) =
    Some (List.map from_secs [1; 2; 4; 8; 16; 32; 60; 60]%N, Retrying (from_secs 60), c').
Proof.
  destruct (failures_back_off (repeat (0%N, ex_down) 8) (credential_new "crm" ex_oauth [])) as [c' E].
  - repeat constructor; by eexists.
  - exists c'. exact E.
Defined.

Lemma expired_tokens_spin_witness :
  exists phase c', refresh_rounds (repeat (5%N, ex_reply (inr 0%N)) 4) AtTop (credential_new "crm" ex_oauth []) = Some ([], phase, c').
Proof.
  apply (expired_tokens_spin (repeat (5%N, ex_reply (inr 0%N)) 4)); [|done|done].
  repeat constructor; exists (lit "t"), 5%N; (split; [reflexivity|]); repeat constructor; done.
Defined.

Lemma wakes_before_expiry_witness :
  let c := set_refresh (lit "t") (Some (from_secs 1000)) false 0 (credential_new "crm" ex_oauth []) in
  sleep_duration (from_secs 100) c = Some (from_secs 600) /\ (from_secs 100 + from_secs 600 + five_minutes = from_secs 1000)%N.
Proof.
  split; [reflexivity|].
  destruct (wakes_before_expiry (from_secs 100) (set_refresh (lit "t") (Some (from_secs 1000)) false 0 (credential_new "crm" ex_oauth []))
    (from_secs 1000) (from_secs 600)) as (_ & E & _); [done|reflexivity|reflexivity|]. by apply E.
Defined.

(** The base is matched against the text of the URL, before any parsing removes dot segments. *)
Example dot_segments_match : url_matches_base "https://crm.example.com/v1" "https://crm.example.com/v1/../admin" = true.
Proof. reflexivity. Qed.
Example lookalike_host_does_not_match : url_matches_base "https://api.example.com" "https://api.example.com.evil.com" = false.
Proof. reflexivity. Qed.
