(* ===== verification/SystemFs.v ===== *)
(** * The service and process filesystems

    Models [crates/simulacra-vfs/src/servicefs.rs], [procfs.rs] and [procfs/]: the layers that answer below
    [/svc] and [/proc] from the running program, and that let nothing be changed there but the mailbox; and what
    they ask, as [crates/simulacra-server/src/engine.rs] and [crates/simulacra-runtime/src/spawn_tool/proc_runtime.rs]
    wire it: the integrations, the tools and the hooks.

    The filesystem below is any implementation of [VirtualFs].  Printing a decimal with two places belongs to its
    package and is a parameter; the time since the start of a session is part of the state.  Watchers, spans and
    counters are left out. *)

From S2P Require Import Prelude.
From S2P Require Import Text.
From S2P Require Import Segments.
From S2P Require Import Capability.
From S2P Require Import Vfs.
From S2P Require Import MemoryFs.
From S2P Require Import Hooks.
From S2P Require Import Budget.
From S2P Require Import Json.
From S2P Require Import Tools.
From S2P Require Integration.

Abbreviation len s := (N.of_nat (length s)).

(** ** A part of the tree that only reads *)

(** A directory and what is below it, with trailing slashes dropped; and the path below the directory. *)
Definition below_dir (dir path : str) : bool :=
  let normalized := trim_end_matches "/" path in str_eqb normalized dir || starts_with (dir ++ "/") normalized.
Definition dir_tail (dir path : str) : option str :=
  let normalized := trim_end_matches "/" path in
  if str_eqb normalized dir then None else strip_prefix (dir ++ "/") normalized.

Section View.
Context {V : Type} `{VirtualFs V} (owned : str -> bool) (label : str).

Definition read_only (path : str) : VfsError := PermissionDenied (path ++ " is read-only").
Definition whole_tree (path : str) : VfsError :=
  PermissionDenied (path ++ ": whole-tree removal through read-only " ++ label ++ " is refused").

Fixpoint gate (ts : list Touch) : result unit VfsError :=
  match ts with
  | [] => Ok tt
  | t :: ts =>
      if owned (touch_path t) then Err (read_only (touch_path t))
      else if takes_subtree t && is_root (touch_path t) then Err (whole_tree (touch_path t))
      else gate ts
  end.
Definition gated (ts : list Touch) (v : V) (call : V -> V * result unit VfsError) : V * result unit VfsError :=
  match gate ts with Err e => (v, Err e) | Ok _ => call v end.

(** The calls that change something, on the filesystem below. *)
Definition view_write (v : V) (path : str) (data : bytes) : V * result unit VfsError :=
  let path := normalize path in if owned path then (v, Err (read_only path)) else vfs_write v path data.
Definition view_mkdir (v : V) (path : str) : V * result unit VfsError :=
  let path := normalize path in if owned path then (v, Err (read_only path)) else vfs_mkdir v path.
Definition view_remove (v : V) (path : str) : V * result unit VfsError :=
  let path := normalize path in gated (removed path) v (fun v => vfs_remove v path).
Definition view_write_if (v : V) (path : str) (data : bytes) (p : Precondition) : V * result unit VfsError :=
  gated (written path) v (fun v => vfs_write_if v (normalize path) data p).
Definition view_rename (v : V) (from to : str) : V * result unit VfsError :=
  gated (renamed from to) v (fun v => vfs_rename v (normalize from) (normalize to)).
Definition view_apply_batch (v : V) (ms : list FsMutation) : V * result unit VfsError :=
  gated (batched ms) v (fun v => vfs_apply_batch v (normalize_mutations ms)).
End View.

(** ** Services ([servicefs.rs]) *)

Record IntegrationLister := {
  integration_names : list str;
  integration_metadata : str -> option str;
  integration_readme : str -> option str;
  integration_skill_names : str -> list str;
}.

Definition is_svc : str -> bool := below_dir "/svc".
Definition svc_tail : str -> option str := dir_tail "/svc".

Section Svc.
Context (l : IntegrationLister).

Definition svc_read (path : str) : result bytes VfsError :=
  match svc_tail path with
  | None => Err (NotAFile path)
  | Some tail =>
      match split_once_str "/" tail with
      | None => Err (NotAFile path)
      | Some (name, file) =>
          if str_eqb file "README.md" then ok_or (integration_readme l name) (NotFound path)
          else if str_eqb file "config.json" then ok_or (integration_metadata l name) (NotFound path)
          else Err (NotFound path)
      end
  end.

Definition svc_list_dir (path : str) : result (list str) VfsError :=
  match svc_tail path with
  | None => Ok (merge_sort str_le (integration_names l))
  | Some t =>
      let '(name, sub) := match split_once_str "/" t with Some (n, s) => (n, Some s) | None => (t, None) end in
      match integration_metadata l name with
      | None => Err (NotFound path)
      | Some _ =>
          match sub with
          | None => Ok [lit "README.md"; lit "config.json"; lit "skills"]
          | Some s =>
              if str_eqb s "skills" || str_eqb s "skills/" then Ok (integration_skill_names l name)
              else Err (NotFound path)
          end
      end
  end.

Definition svc_metadata (path : str) : result FsMetadata VfsError :=
  if str_eqb (trim_end_matches "/" path) "/svc" then Ok FsMetadata_dir
  else
    let tail := unwrap_or (svc_tail path) [] in
    match split_once_str "/" tail with
    | None => match integration_metadata l tail with Some _ => Ok FsMetadata_dir | None => Err (NotFound path) end
    | Some (name, file) =>
        match integration_metadata l name with
        | None => Err (NotFound path)
        | Some _ =>
            if str_eqb file "skills" then Ok FsMetadata_dir
            else if str_eqb file "README.md" || str_eqb file "config.json" then
              let? data := svc_read path in Ok (FsMetadata_file (len data))
            else Err (NotFound path)
        end
    end.
Definition svc_exists (path : str) : bool := is_ok (svc_metadata path).
End Svc.

Record ServiceFs (V : Type) := { svc_inner : V; integrations : IntegrationLister }.
Arguments svc_inner {V} _.
Arguments integrations {V} _.

Section ServiceFs.
Context {V : Type} `{VirtualFs V}.

Definition service_fs_new (v : V) (l : IntegrationLister) : ServiceFs V := {| svc_inner := v; integrations := l |}.
Definition svc_inside (f : ServiceFs V) (r : V * result unit VfsError) : ServiceFs V * result unit VfsError :=
  ({| svc_inner := fst r; integrations := integrations f |}, snd r).

Definition svcfs_list_dir (f : ServiceFs V) (path : str) : result (list str) VfsError :=
  let path := normalize path in if is_svc path then svc_list_dir (integrations f) path else vfs_list_dir (svc_inner f) path.

#[export] Instance service_fs : VirtualFs (ServiceFs V) := {|
  vfs_read f path := let path := normalize path in if is_svc path then svc_read (integrations f) path else vfs_read (svc_inner f) path;
  vfs_write f path data := svc_inside f (view_write is_svc (svc_inner f) path data);
  vfs_exists f path := let path := normalize path in if is_svc path then svc_exists (integrations f) path else vfs_exists (svc_inner f) path;
  vfs_list_dir := svcfs_list_dir;
  vfs_mkdir f path := svc_inside f (view_mkdir is_svc (svc_inner f) path);
  vfs_remove f path := svc_inside f (view_remove is_svc "/svc" (svc_inner f) path);
  vfs_metadata f path := let path := normalize path in if is_svc path then svc_metadata (integrations f) path else vfs_metadata (svc_inner f) path;
  vfs_snapshot f := vfs_snapshot (svc_inner f);
  vfs_restore f d := svc_inside f (vfs_restore (svc_inner f) d);
  vfs_write_if f path data p := svc_inside f (view_write_if is_svc "/svc" (svc_inner f) path data p);
  vfs_rename f from to := svc_inside f (view_rename is_svc "/svc" (svc_inner f) from to);
  vfs_apply_batch f ms := svc_inside f (view_apply_batch is_svc "/svc" (svc_inner f) ms);
  vfs_list_dir_bounded f path :=
    let path := normalize path in
    if is_svc path then let? names := svcfs_list_dir f path in Ok (DirListing_complete names)
    else vfs_list_dir_bounded (svc_inner f) path;
|}.
End ServiceFs.

(** ** The process ([procfs.rs], [procfs/]) *)

Record ToolLister := { tool_names : list str; tool_json : str -> option str }.
Definition HookLister : Type := str -> list str.

Section Process.
Context {Decimal : Type} `{DecimalOps Decimal} (two_places : Decimal -> str).

Record ProcState := {
  agent_id : str;
  agent_name : str;
  model : str;
  parent_id : option str;
  budget : ResourceBudget Decimal;
  capabilities : CapabilityToken;
  tools : ToolLister;
  session_id : str;
  uptime_ms : N;
  journal_entries : N;
  hooks : HookLister;
  turn : N;
}.

Definition is_proc (path : str) : bool := str_eqb path "/proc" || starts_with "/proc/" path.
Definition is_mailbox (path : str) : bool := str_eqb path "/proc/mailbox" || starts_with "/proc/mailbox/" path.
Definition proc_tail : str -> option str := dir_tail "/proc".

(** A [match] on a name. *)
Definition named {A : Type} (table : list (str * A)) (name : str) : option A :=
  option_map snd (List.find (fun row => str_eqb (fst row) name) table).

Definition budget_value (b : ResourceBudget Decimal) : str -> option str := named [
  (lit "max_tokens", dec (max_tokens b));
  (lit "used_tokens", dec (used_tokens b));
  (lit "remaining_tokens", if (max_tokens b =? 0)%N then lit "0" else dec (max_tokens b - used_tokens b));
  (lit "max_turns", dec (max_turns b));
  (lit "used_turns", dec (used_turns b));
  (lit "remaining_turns", if (max_turns b =? 0)%N then lit "0" else dec (max_turns b - used_turns b));
  (lit "max_fuel", dec (max_fuel b));
  (lit "used_fuel", dec (used_fuel b));
  (lit "max_cost", two_places (max_cost b));
  (lit "used_cost", two_places (used_cost b))].
Definition flag (b : bool) : str := if b then "true" else "false".
Definition capabilities_value (c : CapabilityToken) : str -> option str := named [
  (lit "shell", flag (shell c));
  (lit "javascript", flag (javascript c));
  (lit "python", flag (python c));
  (lit "network", join [lf] (network c));
  (lit "mcp_tools", join [lf] (mcp_tools c));
  (lit "paths_read", join [lf] (paths_read c));
  (lit "paths_write", join [lf] (paths_write c))].
Definition session_value (s : ProcState) : str -> option str := named [
  (lit "id", session_id s);
  (lit "uptime_ms", dec (uptime_ms s));
  (lit "journal_entries", dec (journal_entries s))].
Definition agent_value (s : ProcState) : str -> option str := named [
  (lit "id", agent_id s);
  (lit "name", agent_name s);
  (lit "model", model s);
  (lit "turn", dec (turn s));
  (lit "parent_id", unwrap_or (parent_id s) [])].
Definition hooks_value (s : ProcState) (name : str) : option str :=
  if existsb (str_eqb name) [lit "tool_call"; lit "llm"; lit "spawn"; lit "http_request"]
  then Some (join [lf] (hooks s name)) else None.

(** What a [match] on the first part of a path decides. *)
Definition category (s : ProcState) : str -> option (str -> option str) := named [
  (lit "agent", agent_value s);
  (lit "budget", budget_value (budget s));
  (lit "capabilities", capabilities_value (capabilities s));
  (lit "tools", tool_json (tools s));
  (lit "session", session_value s);
  (lit "hooks", hooks_value s)].

Definition proc_read (s : ProcState) (path : str) : result bytes VfsError :=
  match proc_tail path with
  | None => Err (NotAFile path)
  | Some tail =>
      let '(head, rest) := match split_once_str "/" tail with Some (h, r) => (h, Some r) | None => (tail, None) end in
      match category s head with
      | None => Err (NotFound path)
      | Some value => match rest with None => Err (NotAFile path) | Some name => ok_or (value name) (NotFound path) end
      end
  end.

Definition directories (s : ProcState) : str -> option (list str) := named [
  (lit "agent", [lit "id"; lit "model"; lit "name"; lit "parent_id"; lit "turn"]);
  (lit "budget", [lit "max_cost"; lit "max_fuel"; lit "max_tokens"; lit "max_turns"; lit "remaining_tokens";
                  lit "remaining_turns"; lit "used_cost"; lit "used_fuel"; lit "used_tokens"; lit "used_turns"]);
  (lit "capabilities", [lit "javascript"; lit "mcp_tools"; lit "network"; lit "paths_read"; lit "paths_write";
                        lit "python"; lit "shell"]);
  (lit "tools", merge_sort str_le (tool_names (tools s)));
  (lit "session", [lit "id"; lit "journal_entries"; lit "uptime_ms"]);
  (lit "hooks", [lit "http_request"; lit "llm"; lit "spawn"; lit "tool_call"])].
Definition proc_list_dir (s : ProcState) (path : str) : result (list str) VfsError :=
  match proc_tail path with
  | None => Ok [lit "agent"; lit "budget"; lit "capabilities"; lit "hooks"; lit "mailbox"; lit "session"; lit "tools"]
  | Some tail => ok_or (directories s tail) (NotFound path)
  end.

Definition is_category (name : str) : bool :=
  existsb (str_eqb name)
    [lit "agent"; lit "budget"; lit "capabilities"; lit "tools"; lit "session"; lit "hooks"; lit "mailbox"].
Definition proc_metadata (s : ProcState) (path : str) : result FsMetadata VfsError :=
  if str_eqb (trim_end_matches "/" path) "/proc" then Ok FsMetadata_dir
  else if is_category (unwrap_or (proc_tail path) []) then Ok FsMetadata_dir
  else
    match proc_read s path with
    | Ok data => Ok (FsMetadata_file (len data))
    | Err (NotFound _) => Err (NotFound path)
    | Err e => Err e
    end.
Definition proc_exists (s : ProcState) (path : str) : bool := is_ok (proc_metadata s path).

(** The part of [/proc] the layer answers for itself. *)
Definition is_own (path : str) : bool := is_proc path && negb (is_mailbox path).

Record ProcFs (V : Type) := { proc_inner : V; state : ProcState }.
#[global] Arguments proc_inner {V} _.
#[global] Arguments state {V} _.

Section ProcFs.
Context {V : Type} `{VirtualFs V}.

Definition proc_fs_new (v : V) (s : ProcState) : ProcFs V := {| proc_inner := v; state := s |}.
Definition proc_inside (f : ProcFs V) (r : V * result unit VfsError) : ProcFs V * result unit VfsError :=
  ({| proc_inner := fst r; state := state f |}, snd r).

Definition procfs_list_dir (f : ProcFs V) (path : str) : result (list str) VfsError :=
  let path := normalize path in
  if is_mailbox path then
    match vfs_list_dir (proc_inner f) path with
    | Err (NotFound _) => Ok []
    | r => r
    end
  else if is_proc path then proc_list_dir (state f) path
  else vfs_list_dir (proc_inner f) path.
Definition procfs_list_dir_bounded (f : ProcFs V) (path : str) : result DirListing VfsError :=
  let normalized := normalize path in
  if is_own normalized then let? names := procfs_list_dir f path in Ok (DirListing_complete names)
  else
    match vfs_list_dir_bounded (proc_inner f) normalized with
    | Err (NotFound p) => if is_mailbox normalized then Ok (DirListing_complete []) else Err (NotFound p)
    | other => other
    end.

#[export] Instance proc_fs : VirtualFs (ProcFs V) := {|
  vfs_read f path :=
    let path := normalize path in
    if is_mailbox path then vfs_read (proc_inner f) path
    else if is_proc path then proc_read (state f) path else vfs_read (proc_inner f) path;
  vfs_write f path data := proc_inside f (view_write is_own (proc_inner f) path data);
  vfs_exists f path :=
    let path := normalize path in
    if is_mailbox path then vfs_exists (proc_inner f) path
    else if is_proc path then proc_exists (state f) path else vfs_exists (proc_inner f) path;
  vfs_list_dir := procfs_list_dir;
  vfs_mkdir f path := proc_inside f (view_mkdir is_own (proc_inner f) path);
  vfs_remove f path := proc_inside f (view_remove is_own "/proc" (proc_inner f) path);
  vfs_metadata f path :=
    let path := normalize path in
    if is_mailbox path then vfs_metadata (proc_inner f) path
    else if is_proc path then proc_metadata (state f) path else vfs_metadata (proc_inner f) path;
  vfs_snapshot f := vfs_snapshot (proc_inner f);
  vfs_restore f d := proc_inside f (vfs_restore (proc_inner f) d);
  vfs_write_if f path data p := proc_inside f (view_write_if is_own "/proc" (proc_inner f) path data p);
  vfs_rename f from to := proc_inside f (view_rename is_own "/proc" (proc_inner f) from to);
  vfs_apply_batch f ms := proc_inside f (view_apply_batch is_own "/proc" (proc_inner f) ms);
  vfs_list_dir_bounded := procfs_list_dir_bounded;
|}.
End ProcFs.
End Process.
Arguments ProcState : clear implicits.
Arguments ProcFs : clear implicits.

(** ** What the layers ask *)

Definition empty_integration_lister : IntegrationLister :=
  {| integration_names := []; integration_metadata _ := None; integration_readme _ := None; integration_skill_names _ := [] |}.

Section Listers.
Context {Value : Type} `{JsonOps Value}.
Import Integration.

(** [IntegrationMetadata] as it is serialised. *)
Definition metadata_value (m : IntegrationMetadata) : Value :=
  json_object (
    [("base_url" ↦ json_string (meta_base_url m))] ++
    (match meta_scopes m with [] => [] | s => ["scopes" ↦ json_array (json_string <$> s)] end) ++
    ["rate_limit_rps" ↦ json_number (meta_rate_limit_rps m); "status" ↦ json_string (meta_status m)] ++
    (match meta_description m with None => [] | Some d => ["description" ↦ json_string d] end)).
Definition readme (name : str) (m : IntegrationMetadata) : str :=
  "# " ++ name ++ [lf; lf] ++ unwrap_or (meta_description m) (name ++ " integration") ++ [lf; lf] ++
  "**Base URL:** " ++ meta_base_url m ++ [lf] ++ "**Status:** " ++ meta_status m ++ [lf].
Definition registry_integration_lister (r : IntegrationRegistry) : IntegrationLister := {|
  integration_names := names r;
  integration_metadata name := option_map (fun m => json_to_string (metadata_value m)) (metadata name r);
  integration_readme name := option_map (readme name) (metadata name r);
  integration_skill_names _ := [];
|}.

Definition definition_value (d : ToolDefinition Value) : Value :=
  json_object ["name" ↦ json_string (def_name d); "description" ↦ json_string (def_description d); "input_schema" ↦ input_schema d].
Definition shared_tool_list (ds : list (ToolDefinition Value)) : ToolLister := {|
  tool_names := def_name <$> ds;
  tool_json name := option_map (fun d => json_to_string (definition_value d)) (List.find (fun d => str_eqb (def_name d) name) ds);
|}.
End Listers.

Definition empty_hook_lister : HookLister := fun _ => [].
Definition runtime_pipeline_hook_lister {W : Type} (p : option (HookPipeline W)) : HookLister := fun operation =>
  match p with
  | None => []
  | Some p =>
      match named [(lit "tool_call", ToolCall); (lit "llm", Llm); (lit "spawn", Spawn); (lit "http_request", HttpRequest);
                   (lit "vfs_write", VfsWrite)] operation with
      | Some op => hook_names p op
      | None => []
      end
  end.

(** ** Calls on a part that only reads *)

(** What a touch must not do. *)
Definition reaches (owned : str -> bool) (t : Touch) : bool :=
  owned (touch_path t) || (takes_subtree t && is_root (touch_path t)).

Lemma gate_cases owned label ts :
  if existsb (reaches owned) ts then exists m, gate owned label ts = Err (PermissionDenied m) else gate owned label ts = Ok tt.
Proof.
  induction ts as [|t ts IH]; [done|]. cbn [existsb gate]. unfold reaches at 1.
  destruct (owned (touch_path t)); [by eexists|]. destruct (_ && _); [by eexists|]. exact IH.
Qed.

Section Calls.
Context {V : Type} `{VirtualFs V} (owned : str -> bool) (label : str).

Definition view_run (v : V) (c : call) : V * result unit VfsError :=
  match c with
  | CWrite p d => view_write owned v p d
  | CMkdir p => view_mkdir owned v p
  | CRemove p => view_remove owned label v p
  | CWriteIf p d pre => view_write_if owned label v p d pre
  | CRename a b => view_rename owned label v a b
  | CBatch ms => view_apply_batch owned label v ms
  end.

(** A call is refused, with nothing done, when it reaches the part; any other is passed on normalised. *)
Lemma view_run_spec (v : V) c :
  if existsb (reaches owned) (touches c) then exists m, view_run v c = (v, Err (PermissionDenied m))
  else view_run v c = run v (normalized c).
Proof.
  assert (forall ts call', if existsb (reaches owned) ts then exists m, gated owned label ts v call' = (v, Err (PermissionDenied m))
    else gated owned label ts v call' = call' v) as Hg.
  { intros ts call'. unfold gated. pose proof (gate_cases owned label ts) as Hg.
    destruct (existsb _ ts); [destruct Hg as [m ->]; by exists m|by rewrite Hg]. }
  destruct c as [p d|p|p|p d pre|a b|ms]; cbn [touches view_run normalized run]; try apply Hg.
  1,2: cbn [written existsb]; unfold view_write, view_mkdir, reaches; cbn [touch touch_path takes_subtree];
    rewrite orb_false_r, orb_false_r; destruct (owned (normalize p)); [by eexists|done].
  unfold view_remove. specialize (Hg (removed (normalize p)) (fun v => vfs_remove v (normalize p))).
  unfold removed in *. by rewrite touch_normalize in Hg |- *.
Qed.
End Calls.

(** ** The two layers *)

Section Layers.
Context {V : Type} `{VirtualFs V} {Decimal : Type} (two_places : Decimal -> str).
#[local] Existing Instance proc_fs.

Lemma service_run (f : ServiceFs V) c : run f c = svc_inside f (view_run is_svc "/svc" (svc_inner f) c).
Proof. by destruct c. Qed.

Lemma proc_run (f : ProcFs Decimal V) c : run (H := proc_fs two_places) f c = proc_inside f (view_run is_own "/proc" (proc_inner f) c).
Proof. by destruct c. Qed.
End Layers.

(** What is below [/svc], or below [/proc] and not in the mailbox. *)
Definition is_system (path : str) : bool := is_own path || is_svc path.

Section Stack.
Context {V : Type} `{VirtualFs V} {Decimal : Type} (two_places : Decimal -> str).
Abbreviation Stack := (ProcFs Decimal (ServiceFs V)).
#[local] Instance stack_fs : VirtualFs Stack := proc_fs two_places.

Definition below (f : Stack) : V := svc_inner (proc_inner f).
Definition set_below (v : V) (f : Stack) : Stack := {| proc_inner := {| svc_inner := v; integrations := integrations (proc_inner f) |}; state := state f |}.

Lemma reaches_split ts :
  existsb (reaches is_system) ts = existsb (reaches is_own) ts || existsb (reaches is_svc) ts.
Proof.
  induction ts as [|t ts IH]; [done|]. cbn [existsb]. rewrite IH. unfold reaches, is_system.
  destruct (is_own _), (is_svc _), (_ && _), (existsb _ ts), (existsb _ ts); done.
Qed.

(** Nothing below [/proc] or [/svc] can be changed, nor taken along with the root, and what an agent changes
    elsewhere is changed on the filesystem below, by the call with its paths normalised. *)
Lemma system_paths_are_read_only (f : Stack) c :
  if existsb (reaches is_system) (touches c) then exists m, run f c = (f, Err (PermissionDenied m))
  else run f c = (set_below (fst (run (below f) (normalized c))) f, snd (run (below f) (normalized c))).
Proof.
  rewrite reaches_split. unfold stack_fs. rewrite proc_run. pose proof (view_run_spec is_own "/proc" (proc_inner f) c) as Hp.
  destruct (existsb (reaches is_own) (touches c)); cbn [orb].
  { destruct Hp as [m ->]. exists m. by destruct f. }
  rewrite Hp, service_run. pose proof (view_run_spec is_svc "/svc" (svc_inner (proc_inner f)) (normalized c)) as Hs.
  rewrite touches_normalized in Hs. destruct (existsb (reaches is_svc) (touches c)).
  { destruct Hs as [m ->]. exists m. by destruct f as [[] ?]. }
  by rewrite Hs, normalized_idem.
Qed.

(** What is read there does not depend on the filesystem below, and what is read elsewhere is what the
    filesystem below has: but for the listing of a mailbox that is not there yet, which is empty. *)
Definition mailbox_listing {A} (path : str) (empty : A) (r : result A VfsError) : result A VfsError :=
  match r with Err (NotFound p) => if is_mailbox path then Ok empty else Err (NotFound p) | r => r end.

Lemma system_reads (f : Stack) path :
  let q := normalize path in
  if is_system q then forall v,
    vfs_read (set_below v f) path = vfs_read f path /\ vfs_exists (set_below v f) path = vfs_exists f path /\
    vfs_metadata (set_below v f) path = vfs_metadata f path /\ vfs_list_dir (set_below v f) path = vfs_list_dir f path
  else
    vfs_read f path = vfs_read (below f) q /\ vfs_exists f path = vfs_exists (below f) q /\
    vfs_metadata f path = vfs_metadata (below f) q /\
    vfs_list_dir f path = mailbox_listing q [] (vfs_list_dir (below f) q).
Proof.
  cbv zeta. cbn [stack_fs proc_fs service_fs vfs_read vfs_exists vfs_metadata vfs_list_dir proc_inner svc_inner set_below].
  unfold is_system, is_own, procfs_list_dir, svcfs_list_dir, mailbox_listing, below.
  cbn [vfs_list_dir service_fs proc_inner svc_inner state integrations]. unfold svcfs_list_dir. rewrite !normalize_idem.
  cbn [svc_inner integrations].
  destruct (is_mailbox (normalize path)) eqn:Em, (is_proc (normalize path)) eqn:Ep, (is_svc (normalize path)) eqn:Es; cbn [andb negb orb]; try done;
    split_and!; try done; by destruct (vfs_list_dir _ _) as [|[]].
Qed.
End Stack.

(** ** Reading, listing and metadata agree *)

Lemma named_Some {A} (table : list (str * A)) name x : named table name = Some x -> (name, x) ∈ table.
Proof.
  unfold named. destruct (List.find _ table) as [[k y]|] eqn:E; cbn; intros [= <-].
  apply List.find_some in E as [Hin Hk]. cbn in Hk. apply str_eqb_true in Hk as <-. by apply list_elem_of_In.
Qed.

Lemma find_sub_lit p s i : find_sub p s = Some i -> exists a b, s = a ++ p ++ b.
Proof.
  revert i. induction s as [|c s IH]; intros i; cbn [find_sub]; destruct (starts_with _ _) eqn:E.
  1,3: apply starts_with_true in E as [r ->]; intros _; by exists [], r.
  - done.
  - destruct (find_sub p s) as [j|]; [|done]. intros _. destruct (IH j eq_refl) as (a & b & ->). by exists (c :: a), b.
Qed.

(** A trimmed text does not end in what was trimmed. *)
Lemma trim_end_last c s x : trim_end_matches c s <> x ++ [c].
Proof.
  unfold trim_end_matches. intros E. apply (f_equal (@rev ascii)) in E. rewrite rev_involutive, rev_app_distr in E. cbn in E.
  revert E. generalize (rev s) as y, (rev x) as z. induction y as [|d y IH]; cbn; [done|]. intros z.
  destruct (Ascii.eqb_spec c d) as [->|Hne]; [apply IH|]. intros [= -> ?]. by destruct Hne.
Qed.

Lemma dir_tail_last dir path t x : dir_tail dir path = Some t -> t <> x ++ "/".
Proof.
  unfold dir_tail. destruct (str_eqb _ _); [done|]. intros E%strip_prefix_Some ->.
  rewrite app_assoc in E. by apply trim_end_last in E.
Qed.

Lemma dir_tail_None dir path : dir_tail dir path = None -> str_eqb (trim_end_matches "/" path) dir = true \/ starts_with (dir ++ "/") (trim_end_matches "/" path) = false.
Proof. unfold dir_tail, starts_with. destruct (str_eqb _ _); [by left|]. intros ->. by right. Qed.

Section Process.
Context {Decimal : Type} (two_places : Decimal -> str) (s : ProcState Decimal).

Lemma category_plain name : is_category name = true -> split_once_str "/" name = None.
Proof. unfold is_category. cbn [existsb]. rewrite !orb_true_iff, !str_eqb_true. intros H. by destruct_or?; subst. Qed.

Lemma proc_read_metadata path data : proc_read two_places s path = Ok data -> proc_metadata two_places s path = Ok (FsMetadata_file (len data)).
Proof.
  intros Hr. unfold proc_metadata. rewrite Hr. unfold proc_read, proc_tail, dir_tail in *.
  destruct (str_eqb _ "/proc"); [done|]. destruct (strip_prefix _ _) as [tail|] eqn:Et; [|done]. cbn [unwrap_or].
  destruct (is_category tail) eqn:Ec; [|done]. rewrite (category_plain _ Ec) in Hr. by destruct (category _ _ _).
Qed.

Lemma directories_categories tail names : directories s tail = Some names -> is_category tail = true.
Proof. intros H%named_Some. rewrite !elem_of_cons, elem_of_nil in H. by destruct_or?; simplify_eq. Qed.

Lemma proc_list_metadata path names : is_proc (trim_end_matches "/" path) = true -> proc_list_dir s path = Ok names ->
  proc_metadata two_places s path = Ok FsMetadata_dir.
Proof.
  intros Hp. unfold proc_list_dir, proc_metadata, proc_tail. destruct (dir_tail _ path) as [tail|] eqn:Et.
  - destruct (directories s tail) as [l|] eqn:Ed; [|done]. intros _. cbn [unwrap_or]. rewrite (directories_categories _ _ Ed).
    by destruct (str_eqb _ _).
  - intros _. apply dir_tail_None in Et as [->|E]; [done|]. unfold is_proc in Hp. change ("/proc" ++ "/") with (lit "/proc/") in E.
    rewrite E, orb_false_r in Hp. by rewrite Hp.
Qed.
End Process.

(** A lister that knows as much of an integration in one way as in another. *)
Definition lister_ok (l : IntegrationLister) : Prop :=
  forall name, is_Some (integration_readme l name) <-> is_Some (integration_metadata l name).

Section Services.
Context (l : IntegrationLister).

Lemma svc_read_metadata path data : lister_ok l -> svc_read l path = Ok data -> svc_metadata l path = Ok (FsMetadata_file (len data)).
Proof.
  intros Hl Hr. unfold svc_metadata. rewrite Hr. unfold svc_read, svc_tail, dir_tail in *.
  destruct (str_eqb _ "/svc"); [done|]. destruct (strip_prefix _ _) as [tail|]; [|done]. cbn [unwrap_or].
  destruct (split_once_str "/" tail) as [[name file]|]; [|done]. specialize (Hl name).
  destruct (str_eqb file "README.md") eqn:E1; [apply str_eqb_true in E1 as ->|].
  - cbn in Hr. destruct (integration_metadata l name) eqn:Em; [done|]. destruct (integration_readme l name) eqn:Er; [|done].
    destruct (proj1 Hl) as [? ?]; [by eexists|done].
  - destruct (str_eqb file "config.json") eqn:E2; [apply str_eqb_true in E2 as ->|done]. by destruct (integration_metadata l name).
Qed.

Lemma svc_list_metadata path names : is_svc path = true -> svc_list_dir l path = Ok names -> svc_metadata l path = Ok FsMetadata_dir.
Proof.
  intros Hs. unfold svc_list_dir, svc_metadata, svc_tail. destruct (dir_tail _ path) as [tail|] eqn:Et.
  - intros Hl. destruct (str_eqb _ "/svc"); [done|]. cbn [unwrap_or]. destruct (split_once_str "/" tail) as [[name file]|] eqn:Ef.
    + destruct (integration_metadata l name); [|done]. destruct (str_eqb file "skills"); [done|]. cbn [orb] in Hl.
      destruct (str_eqb file "skills/") eqn:E; [|done]. apply str_eqb_true in E as ->. exfalso.
      unfold split_once_str in Ef. destruct (find_sub "/" tail) as [i|]; [|done]. injection Ef as _ Ef.
      apply (dir_tail_last _ _ _ (firstn (i + 1) tail ++ "skills") Et).
      rewrite <- (firstn_skipn (i + 1) tail) at 1. change (length (lit "/")) with 1%nat in Ef. rewrite Ef. by rewrite <- app_assoc.
    + by destruct (integration_metadata l tail).
  - intros _. apply dir_tail_None in Et as [->|E]; [done|]. unfold is_svc, below_dir in Hs. by rewrite E, orb_false_r in Hs; rewrite Hs.
Qed.
End Services.

Section Registry.
Context {Value : Type} `{JsonOps Value}.
Import Integration.

Lemma registry_lister_ok (r : IntegrationRegistry) : lister_ok (registry_integration_lister r).
Proof. intros name. cbn. destruct (metadata name r); cbn; split; intros [? ?]; by eauto. Qed.

(** A registry without its secrets. *)
Definition hide_auth (a : AuthMethod) : AuthMethod :=
  match a with
  | OAuth2 _ _ _ scopes _ => OAuth2 [] [] [] scopes None
  | ApiKey _ placement => ApiKey [] placement
  end.
Definition hide_config (c : IntegrationConfig) : IntegrationConfig :=
  {| auth := hide_auth (auth c); base_url := base_url c; description := description c; rate_limit_rps := rate_limit_rps c; skills_path := skills_path c |}.
Definition hide_credential (c : IntegrationCredential) : IntegrationCredential :=
  {| cred_name := cred_name c; config := hide_config (config c); cred_token := []; expires_at := None; degraded := degraded c;
     refresh_failures := refresh_failures c; connectivity_ok := connectivity_ok c |}.
Definition hidden (r : IntegrationRegistry) : IntegrationRegistry :=
  {| integrations := prod_map id hide_credential <$> integrations r; refresh_handles := [] |}.

Lemma metadata_hidden name r : metadata name (hidden r) = metadata name r.
Proof.
  unfold metadata, hidden. cbn [integrations]. induction (integrations r) as [|[n c] cs IH]; [done|].
  cbn. destruct (str_eqb n name); [|exact IH]. cbn. f_equal. f_equal. by destruct (auth (config c)).
Qed.
Lemma names_hidden r : names (hidden r) = names r.
Proof. unfold names, hidden. cbn [integrations]. induction (integrations r) as [|[n c] cs IH]; [done|]. cbn. f_equal. exact IH. Qed.

(** What is served of integrations does not depend on their secrets. *)
Lemma services_hidden r path :
  svc_read (registry_integration_lister (hidden r)) path = svc_read (registry_integration_lister r) path /\
  svc_list_dir (registry_integration_lister (hidden r)) path = svc_list_dir (registry_integration_lister r) path /\
  svc_metadata (registry_integration_lister (hidden r)) path = svc_metadata (registry_integration_lister r) path.
Proof.
  assert (svc_read (registry_integration_lister (hidden r)) path = svc_read (registry_integration_lister r) path) as Hr.
  { unfold svc_read. cbn. destruct (svc_tail path); [|done]. destruct (split_once_str _ _) as [[n ?]|]; [|done]. by rewrite metadata_hidden. }
  split_and!; [done|unfold svc_list_dir|unfold svc_metadata; rewrite Hr]; cbn [registry_integration_lister integration_names integration_metadata integration_skill_names].
  - rewrite names_hidden. destruct (svc_tail path); [|done]. destruct (split_once_str _ _) as [[n ?]|]; by rewrite metadata_hidden.
  - destruct (str_eqb _ "/svc"); [done|]. destruct (split_once_str _ _) as [[n ?]|]; by rewrite metadata_hidden.
Qed.
End Registry.

Section Children.
Context {Decimal : Type} (two_places : Decimal -> str) (s : ProcState Decimal).

(** What a directory of [/proc] lists is there. *)
Lemma proc_children_exist dir names name : directories s dir = Some names -> name ∈ names ->
  (dir = "tools" -> is_Some (tool_json (tools s) name) /\ exists w c, name = w ++ [c] /\ c <> "/"%char) ->
  is_ok (proc_read two_places s ("/proc/" ++ dir ++ "/" ++ name)) = true.
Proof.
  intros H%named_Some Hin Ht. rewrite !elem_of_cons, elem_of_nil in H. destruct_or?; simplify_eq.
  4: { destruct (Ht eq_refl) as ([j Hj] & w & c & Hn & Hc). unfold proc_read, proc_tail, dir_tail.
    rewrite Hn. change ("/proc/" ++ "tools" ++ "/" ++ (w ++ [c])) with (("/proc/tools/" ++ w) ++ [c]). rewrite trim_end_id by done.
    change (strip_prefix ("/proc" ++ "/") (("/proc/tools/" ++ w) ++ [c])) with (Some (lit "tools/" ++ (w ++ [c]))).
    change (str_eqb (("/proc/tools/" ++ w) ++ [c]) "/proc") with false. cbv iota.
    change (split_once_str "/" (lit "tools/" ++ (w ++ [c]))) with (Some (lit "tools", w ++ [c])). cbv iota. rewrite <- Hn.
    change (category two_places s (lit "tools")) with (Some (tool_json (tools s))). cbv iota beta. by rewrite Hj. }
  all: rewrite !elem_of_cons, elem_of_nil in Hin; destruct_or?; subst; reflexivity.
Qed.

Lemma shared_tool_list_ok {Value} `{JsonOps Value} (ds : list (ToolDefinition Value)) name :
  name ∈ tool_names (shared_tool_list ds) -> is_Some (tool_json (shared_tool_list ds) name).
Proof.
  cbn. intros (d & -> & Hd)%list_elem_of_fmap. destruct (List.find _ ds) as [e|] eqn:E; [by eexists|].
  apply list_elem_of_In in Hd. apply (List.find_none _ _ E) in Hd. by rewrite str_eqb_refl in Hd.
Qed.
End Children.

(** ** The tree an agent sees *)

Lemma trim_normal p : normalize p <> lit "/" -> trim_end_matches "/" (normalize p) = normalize p.
Proof.
  rewrite normalize_str. intros Hne. destruct (path_str_last (segs_of p)) as (d & c & -> & Hc); [apply segs_of_plain| |by apply trim_end_id].
  intros E. apply Hne. by rewrite E.
Qed.

Lemma own_is_proc p : is_own (normalize p) = true -> is_mailbox (normalize p) = false /\ is_proc (normalize p) = true /\
  is_proc (trim_end_matches "/" (normalize p)) = true.
Proof.
  unfold is_own. rewrite andb_true_iff, negb_true_iff. intros [Hp Hm]. rewrite trim_normal; [done|]. intros E. by rewrite E in Hp.
Qed.

Lemma svc_not_mailbox p : is_svc p = true -> is_mailbox p = false.
Proof.
  unfold is_svc, below_dir, is_mailbox. intros Hs. apply not_true_iff_false. rewrite orb_true_iff, str_eqb_true, starts_with_true.
  intros [->|[r ->]]; [discriminate Hs|].
  change ("/proc/mailbox/" ++ r) with ((lit "/proc/mailbo" ++ ["x"%char]) ++ "/" ++ r) in Hs. rewrite trim_end_app in Hs by done. discriminate Hs.
Qed.

Section Tree.
Context {V : Type} `{VirtualFs V} {Decimal : Type} (two_places : Decimal -> str) {Value : Type} `{JsonOps Value}.
#[local] Instance system_vfs : VirtualFs (ProcFs Decimal (ServiceFs V)) := stack_fs two_places.

Definition system_fs (v : V) (r : Integration.IntegrationRegistry) (s : ProcState Decimal) : ProcFs Decimal (ServiceFs V) :=
  proc_fs_new (service_fs_new v (registry_integration_lister r)) s.

Lemma own_views (f : ProcFs Decimal (ServiceFs V)) path : is_own (normalize path) = true ->
  vfs_read f path = proc_read two_places (state f) (normalize path) /\
  vfs_metadata f path = proc_metadata two_places (state f) (normalize path) /\
  vfs_exists f path = is_ok (proc_metadata two_places (state f) (normalize path)) /\
  vfs_list_dir f path = proc_list_dir (state f) (normalize path).
Proof.
  intros (Hm & Hp & _)%own_is_proc. cbn [system_vfs stack_fs proc_fs vfs_read vfs_exists vfs_metadata vfs_list_dir]. unfold procfs_list_dir, proc_exists.
  by rewrite Hm, Hp.
Qed.
Lemma svc_views (f : ProcFs Decimal (ServiceFs V)) path : is_own (normalize path) = false -> is_svc (normalize path) = true ->
  let l := integrations (proc_inner f) in
  vfs_read f path = svc_read l (normalize path) /\
  vfs_metadata f path = svc_metadata l (normalize path) /\
  vfs_exists f path = is_ok (svc_metadata l (normalize path)) /\
  vfs_list_dir f path = svc_list_dir l (normalize path).
Proof.
  intros Ho Hs. pose proof (svc_not_mailbox _ Hs) as Hm. unfold is_own in Ho. rewrite Hm, andb_true_r in Ho.
  cbn [system_vfs stack_fs proc_fs service_fs vfs_read vfs_exists vfs_metadata vfs_list_dir]. unfold procfs_list_dir, svcfs_list_dir, svc_exists.
  rewrite Hm, Ho. cbn [vfs_list_dir service_fs]. unfold svcfs_list_dir. by rewrite !normalize_idem, !Hs.
Qed.

(** What an agent sees below [/svc] and [/proc] (the mailbox aside) hangs together and tells no secrets.  What can be read is
    a file of that size, what can be listed is a directory, and both exist; reading, listing, existence and
    metadata are the same for a registry whose keys, tokens and client secrets are blanked, and for any
    filesystem below. *)
Theorem system_tree_is_coherent (v w : V) r (s : ProcState Decimal) path (f := system_fs v r s) (g := system_fs w (hidden r) s) :
  is_system (normalize path) = true ->
  (forall data, vfs_read f path = Ok data ->
     vfs_metadata f path = Ok (FsMetadata_file (len data)) /\ vfs_exists f path = true) /\
  (forall names, vfs_list_dir f path = Ok names ->
     vfs_metadata f path = Ok FsMetadata_dir /\ vfs_exists f path = true) /\
  vfs_read g path = vfs_read f path /\
  vfs_list_dir g path = vfs_list_dir f path /\
  vfs_metadata g path = vfs_metadata f path /\
  vfs_exists g path = vfs_exists f path.
Proof.
  unfold is_system. destruct (is_own (normalize path)) eqn:Eo; cbn [orb]; intros Hs.
  - destruct (own_views f path Eo) as (-> & -> & -> & ->), (own_views g path Eo) as (-> & -> & -> & ->). apply own_is_proc in Eo as (_ & _ & Hp).
    split_and!; [intros data Hd%proc_read_metadata; by rewrite Hd| |done..].
    intros names Hn. by rewrite (proc_list_metadata two_places _ _ _ Hp Hn).
  - destruct (svc_views f path Eo Hs) as (-> & -> & -> & ->), (svc_views g path Eo Hs) as (-> & -> & -> & ->). cbn [f g system_fs proc_fs_new service_fs_new proc_inner integrations].
    destruct (services_hidden r (normalize path)) as (-> & -> & ->).
    split_and!; [intros data Hd%svc_read_metadata; [by rewrite Hd|apply registry_lister_ok]| |done..].
    intros names Hn. by rewrite (svc_list_metadata _ _ _ Hs Hn).
Qed.
End Tree.

(** ** A concrete tree *)

#[local] Instance ex_inner : VirtualFs MemoryFs.State := memory_fs ex_to_vec ex_from_slice.
#[local] Existing Instance text_json.
Definition ex_agent : ProcState N := {|
  agent_id := "t1"; agent_name := "helper"; model := "m"; parent_id := None;
  budget := {| max_tokens := 10; max_turns := 0; max_cost := 0%N; max_sub_agents := 0; max_vfs_bytes := 0; used_tokens := 12; used_turns := 3;
               used_cost := 0%N; used_sub_agents := 0; used_vfs_bytes := 0; max_fuel := 0; used_fuel := 0 |};
  capabilities := {| network := []; mcp_tools := []; shell := true; javascript := false; python := false; paths_write := [];
                     paths_read := [lit "/a/**"; lit "/b/**"]; spawn_placements := []; skill_patterns := [];
                     memory := {| MemoryPath.enabled := false; MemoryPath.search_scopes := []; MemoryPath.write_scopes := [] |} |};
  tools := shared_tool_list [{| def_name := "shell"; def_description := "d"; input_schema := lit "{}" |}];
  session_id := "t1"; uptime_ms := 5; journal_entries := 0; hooks := empty_hook_lister; turn := 2 |}.
Definition ex_tree : ProcFs N (ServiceFs MemoryFs.State) := system_fs MemoryFs.new Integration.ex_registry ex_agent.
#[local] Instance ex_tree_fs : VirtualFs (ProcFs N (ServiceFs MemoryFs.State)) := stack_fs dec.

Lemma system_tree_is_coherent_witness :
  vfs_read ex_tree "/proc/budget/remaining_tokens" = Ok (lit "0") /\ vfs_metadata ex_tree "/proc/budget/remaining_tokens" = Ok (FsMetadata_file 1) /\
  is_ok (vfs_list_dir ex_tree "/svc/api") = true.
Proof.
  split_and!; [reflexivity| |reflexivity].
  apply (system_tree_is_coherent dec (Value := str) MemoryFs.new MemoryFs.new Integration.ex_registry ex_agent "/proc/budget/remaining_tokens" eq_refl).
Defined.

Example system_views :
  vfs_list_dir ex_tree "/svc" = Ok [lit "api"; lit "crm"] /\
  vfs_read ex_tree "/proc/./capabilities/paths_read" = Ok (lit "/a/**" ++ [lf] ++ lit "/b/**") /\
  vfs_read ex_tree "/proc/budget/remaining_turns" = Ok (lit "0") /\
  vfs_list_dir ex_tree "/proc/tools" = Ok [lit "shell"] /\
  vfs_read ex_tree "/proc/agent" = Err (NotAFile "/proc/agent") /\
  snd (vfs_write ex_tree "/x/../proc/agent/id" "me") = Err (PermissionDenied "/proc/agent/id is read-only") /\
  snd (vfs_remove ex_tree "//") = Err (PermissionDenied "/: whole-tree removal through read-only /proc is refused") /\
  snd (vfs_rename ex_tree "/a" "/svc/a") = Err (PermissionDenied "/svc/a is read-only").
Proof. repeat split; vm_compute; reflexivity. Qed.

(** A mailbox that is not there is listed, as an empty one. *)
Example absent_mailbox_is_listed :
  vfs_exists ex_tree "/proc/mailbox" = false /\ vfs_list_dir ex_tree "/proc/mailbox" = Ok [] /\
  (fun l => existsb (str_eqb "mailbox") l) <$> (match vfs_list_dir ex_tree "/proc" with Ok l => Some l | Err _ => None end) = Some true.
Proof. repeat split; vm_compute; reflexivity. Qed.
