(* ===== verification/MailboxFs.v ===== *)
(** * The mailbox of artifacts

    Models [crates/simulacra-types/src/artifact.rs], [crates/simulacra-vfs/src/mailboxfs.rs] and the check of paths in
    [crates/simulacra-server/src/artifact_store.rs]: the layer that keeps what an agent writes below [/proc/mailbox]
    in a durable store of artifacts.

    The store is any implementation of [ArtifactStore], the filesystem below any of [VirtualFs].  The sink is the
    list of what it was told; a panic in it is caught and changes nothing.  Watchers and logs are left out. *)

From S2P Require Import Prelude.
From S2P Require Import Text.
From S2P Require Import Segments.
From S2P Require Import Vfs.
From S2P Require Import MemoryFs.
From S2P Require Import SystemFs.
From S2P Require MemoryPath.

(** ** The store ([artifact.rs], [artifact_store.rs]) *)

Record ArtifactEntry := { artifact_path : str; artifact_size : N }.
Variant ArtifactError := ArtifactNotFound (path : str) | ArtifactInvalidPath (m : str) | ArtifactIo (m : str).
Definition artifact_error_to_string (e : ArtifactError) : str :=
  match e with
  | ArtifactNotFound p => "artifact not found: " ++ p
  | ArtifactInvalidPath m => "invalid artifact path: " ++ m
  | ArtifactIo m => "io error: " ++ m
  end.

Class ArtifactStore (A : Type) := {
  artifact_put : A -> str -> str -> str -> bytes -> A * result unit ArtifactError;
  artifact_get : A -> str -> str -> str -> result bytes ArtifactError;
  artifact_list : A -> str -> str -> result (list ArtifactEntry) ArtifactError;
  artifact_delete_task : A -> str -> str -> A * result unit ArtifactError;
}.

Definition validate_artifact_path (path : str) : result unit ArtifactError :=
  if str_eqb path [] then Err (ArtifactInvalidPath "path is empty")
  else if contains_char MemoryPath.nul path then Err (ArtifactInvalidPath "path contains null byte")
  else if starts_with "/" path then Err (ArtifactInvalidPath "absolute paths are not allowed")
  else if existsb (str_eqb "..") (split_on "/" path) then Err (ArtifactInvalidPath "path contains '..' component")
  else Ok tt.

(** A path in its shortest form, below a directory. *)
Definition relative (p : str) : Prop := exists segs, segs <> [] /\ Forall plain_segment segs /\ p = join "/" segs.

(** An artifact is kept under its tenant, task and path; a put that fails leaves what there was. *)
Class ArtifactStoreLaws (A : Type) `{ArtifactStore A} := {
  put_ok : forall a k t p d a', relative p -> artifact_put a k t p d = (a', Ok tt) -> forall t' k' p', relative p' ->
    artifact_get a' t' k' p' = if decide ((t', k', p') = (t, k, p)) then Ok d else artifact_get a t' k' p';
  put_err : forall a k t p d a' e, artifact_put a k t p d = (a', Err e) -> forall t' k' p', artifact_get a' t' k' p' = artifact_get a t' k' p';
}.

(** ** The layer ([mailboxfs.rs]) *)

Section Layer.
Context {V A : Type} `{VirtualFs V} `{ArtifactStore A}.

Record MailboxFs := {
  mailbox_inner : V;
  task_id : str;
  mailbox_tenant : str;
  mailbox_store : A;
  artifact_sink : option (list (str * str * N));
}.
Definition mailbox_fs_new (v : V) (task tenant : str) (a : A) : MailboxFs :=
  {| mailbox_inner := v; task_id := task; mailbox_tenant := tenant; mailbox_store := a; artifact_sink := None |}.
Definition with_artifact_sink (f : MailboxFs) : MailboxFs :=
  {| mailbox_inner := mailbox_inner f; task_id := task_id f; mailbox_tenant := mailbox_tenant f; mailbox_store := mailbox_store f; artifact_sink := Some [] |}.
Definition set_mailbox (v : V) (a : A) (sink : option (list (str * str * N))) (f : MailboxFs) : MailboxFs :=
  {| mailbox_inner := v; task_id := task_id f; mailbox_tenant := mailbox_tenant f; mailbox_store := a; artifact_sink := sink |}.
Definition mailbox_inside (f : MailboxFs) (r : V * result unit VfsError) : MailboxFs * result unit VfsError :=
  (set_mailbox (fst r) (mailbox_store f) (artifact_sink f) f, snd r).

Definition MAILBOX_PREFIX : str := "/proc/mailbox".
Definition is_mailbox : str -> bool := below_dir MAILBOX_PREFIX.
Definition mailbox_tail : str -> option str := dir_tail MAILBOX_PREFIX.

Definition mailbox_gate (ts : list Touch) : result unit VfsError :=
  match List.find (fun t => is_mailbox (touch_path t) || (takes_subtree t && is_ancestor (touch_path t) MAILBOX_PREFIX)) ts with
  | Some t => Err (Unsupported ("atomic operation on mailbox path " ++ touch_path t))
  | None => Ok tt
  end.
Definition mailbox_gated (ts : list Touch) (f : MailboxFs) (call : V -> V * result unit VfsError) : MailboxFs * result unit VfsError :=
  match mailbox_gate ts with Err e => (f, Err e) | Ok _ => mailbox_inside f (call (mailbox_inner f)) end.

Definition mb_read (f : MailboxFs) (path : str) : result bytes VfsError :=
  let path := normalize path in
  if is_mailbox path then
    let? tail := ok_or (mailbox_tail path) (NotAFile path) in
    map_err (fun _ => NotFound path) (artifact_get (mailbox_store f) (mailbox_tenant f) (task_id f) tail)
  else vfs_read (mailbox_inner f) path.

(** The copy for reads by other layers: what fails of it does not matter. *)
Definition dual_write (v : V) (path : str) (data : bytes) : V :=
  match vfs_write v path data with
  | (v, Ok _) => v
  | (v, Err _) =>
      let v := match rsplit_once "/" path with Some (parent, _) => fst (vfs_mkdir v parent) | None => v end in
      fst (vfs_write v path data)
  end.
Definition mb_write (f : MailboxFs) (path : str) (data : bytes) : MailboxFs * result unit VfsError :=
  let path := normalize path in
  if is_mailbox path then
    match mailbox_tail path with
    | None => (f, Err (NotAFile path))
    | Some tail =>
        match artifact_put (mailbox_store f) (task_id f) (mailbox_tenant f) tail data with
        | (a, Err e) => (set_mailbox (mailbox_inner f) a (artifact_sink f) f, Err (Io (artifact_error_to_string e)))
        | (a, Ok _) =>
            (set_mailbox (dual_write (mailbox_inner f) path data) a
               (option_map (fun told => told ++ [(path, mailbox_tenant f, len data)]) (artifact_sink f)) f, Ok tt)
        end
    end
  else mailbox_inside f (vfs_write (mailbox_inner f) path data).

Definition has_below (tail : str) (es : list ArtifactEntry) : bool :=
  existsb (fun e => starts_with (tail ++ "/") (artifact_path e)) es.
Definition mb_exists (f : MailboxFs) (path : str) : bool :=
  let path := normalize path in
  if is_mailbox path then
    if str_eqb (trim_end_matches "/" path) MAILBOX_PREFIX then true
    else
      match mailbox_tail path with
      | None => true
      | Some tail =>
          if is_ok (artifact_get (mailbox_store f) (mailbox_tenant f) (task_id f) tail) then true
          else match artifact_list (mailbox_store f) (mailbox_tenant f) (task_id f) with
               | Ok es => has_below tail es
               | Err _ => false
               end
      end
  else vfs_exists (mailbox_inner f) path.

(** The first component below a directory of the artifacts. *)
Definition mailbox_child (pfx : str) (e : ArtifactEntry) : option str :=
  relative ← (if str_eqb pfx [] then Some (artifact_path e) else strip_prefix pfx (artifact_path e));
  let top := match split_once_str "/" relative with Some (dir, _) => dir | None => relative end in
  if str_eqb top [] then None else Some top.
Definition mb_list_dir (f : MailboxFs) (path : str) : result (list str) VfsError :=
  let path := normalize path in
  if is_mailbox path then
    let prefix := unwrap_or (mailbox_tail path) [] in
    let? es := map_err (fun e => Io (artifact_error_to_string e)) (artifact_list (mailbox_store f) (mailbox_tenant f) (task_id f)) in
    let pfx := if str_eqb prefix [] then [] else prefix ++ "/" in
    Ok (merge_sort str_le (elements (list_to_set (C := gset str) (omap (mailbox_child pfx) es))))
  else vfs_list_dir (mailbox_inner f) path.

Definition mb_mkdir (f : MailboxFs) (path : str) : MailboxFs * result unit VfsError :=
  let path := normalize path in
  if is_mailbox path then (f, Ok tt) else mailbox_inside f (vfs_mkdir (mailbox_inner f) path).

Definition mb_remove (f : MailboxFs) (path : str) : MailboxFs * result unit VfsError :=
  let path := normalize path in
  if is_mailbox path then (f, Err (PermissionDenied (path ++ ": mailbox artifacts are immutable")))
  else mailbox_inside f (vfs_remove (mailbox_inner f) path).

Definition mb_metadata (f : MailboxFs) (path : str) : result FsMetadata VfsError :=
  let path := normalize path in
  if is_mailbox path then
    if str_eqb (trim_end_matches "/" path) MAILBOX_PREFIX then Ok FsMetadata_dir
    else
      let? tail := ok_or (mailbox_tail path) (NotFound path) in
      match artifact_get (mailbox_store f) (mailbox_tenant f) (task_id f) tail with
      | Ok data => Ok (FsMetadata_file (len data))
      | Err _ =>
          match artifact_list (mailbox_store f) (mailbox_tenant f) (task_id f) with
          | Ok es => if has_below tail es then Ok FsMetadata_dir else Err (NotFound path)
          | Err _ => Err (NotFound path)
          end
      end
  else vfs_metadata (mailbox_inner f) path.

Definition mb_list_dir_bounded (f : MailboxFs) (path : str) : result DirListing VfsError :=
  let path := normalize path in
  if is_mailbox path then let? names := mb_list_dir f path in Ok (DirListing_complete names)
  else vfs_list_dir_bounded (mailbox_inner f) path.

#[export] Instance mailbox_fs : VirtualFs MailboxFs := {|
  vfs_read := mb_read;
  vfs_write := mb_write;
  vfs_exists := mb_exists;
  vfs_list_dir := mb_list_dir;
  vfs_mkdir := mb_mkdir;
  vfs_remove := mb_remove;
  vfs_metadata := mb_metadata;
  vfs_snapshot f := vfs_snapshot (mailbox_inner f);
  vfs_restore f d := mailbox_inside f (vfs_restore (mailbox_inner f) d);
  vfs_write_if f path data p := mailbox_gated (written path) f (fun v => vfs_write_if v (normalize path) data p);
  vfs_rename f from to := mailbox_gated (renamed from to) f (fun v => vfs_rename v (normalize from) (normalize to));
  vfs_apply_batch f ms := mailbox_gated (batched ms) f (fun v => vfs_apply_batch v (normalize_mutations ms));
  vfs_list_dir_bounded := mb_list_dir_bounded;
|}.
End Layer.
Arguments MailboxFs : clear implicits.

(** ** Paths of artifacts *)

Lemma below_dir_spec d p : d <> [] -> Forall plain_segment d ->
  below_dir (path_str d) (normalize p) = true <-> d `prefix_of` segs_of p.
Proof.
  intros Hne Hd. unfold below_dir. rewrite normalize_str. pose proof (segs_of_plain p) as Hp. set (segs := segs_of p) in *.
  destruct (decide (segs = [])) as [->|Hs].
  - split; [|intros E; by apply prefix_nil_inv in E]. change (trim_end_matches "/" (path_str [])) with (@nil ascii).
    destruct (path_str_last d Hd Hne) as (x & c & -> & _). intros [E|E]%orb_true_iff; [apply str_eqb_true in E; by destruct x|].
    apply starts_with_true in E as [r E]. by destruct x.
  - destruct (path_str_last segs Hp Hs) as (x & c & E & Hc). rewrite E, trim_end_id, <- E by done.
    rewrite <- (path_within d segs) by done. by rewrite orb_true_iff, str_eqb_true.
Qed.

Lemma dir_tail_spec d p : d <> [] -> Forall plain_segment d -> d `prefix_of` segs_of p ->
  match dir_tail (path_str d) (normalize p) with
  | None => segs_of p = d
  | Some tail => exists rest, rest <> [] /\ segs_of p = d ++ rest /\ tail = join "/" rest
  end.
Proof.
  intros Hne Hd [rest Hr]. unfold dir_tail. pose proof (segs_of_plain p) as Hp. rewrite trim_normal.
  2: { rewrite normalize_str, Hr. intros E. rewrite Hr in Hp. apply (path_str_root _ Hp) in E. by destruct d. }
  rewrite normalize_str. destruct (str_eqb _ _) eqn:E.
  - apply str_eqb_true in E. by apply path_str_inj in E.
  - destruct rest as [|w k]; [rewrite Hr, app_nil_r, str_eqb_refl in E; done|].
    assert (path_str (segs_of p) = (path_str d ++ "/") ++ join "/" (w :: k)) as ->.
    { rewrite Hr. destruct d as [|x d]; [done|]. cbn [path_str app]. change (x :: d ++ w :: k) with ((x :: d) ++ w :: k).
      by rewrite path_of_app, <- (path_of_join (w :: k)), app_assoc by done. }
    rewrite strip_prefix_app. by exists (w :: k).
Qed.

Abbreviation mailbox_segs := [lit "proc"; lit "mailbox"].
Lemma mailbox_segs_plain : Forall plain_segment mailbox_segs.
Proof. repeat constructor; try done; apply (bool_decide_unpack _); vm_compute; exact I. Qed.

Lemma is_mailbox_spec p : is_mailbox (normalize p) = true <-> mailbox_segs `prefix_of` segs_of p.
Proof. apply (below_dir_spec mailbox_segs); [done|apply mailbox_segs_plain]. Qed.

Lemma mailbox_tail_relative p tail : is_mailbox (normalize p) = true -> mailbox_tail (normalize p) = Some tail -> relative tail.
Proof.
  intros Hm%is_mailbox_spec Ht. pose proof (dir_tail_spec mailbox_segs p ltac:(done) mailbox_segs_plain Hm) as H.
  change (path_str mailbox_segs) with MAILBOX_PREFIX in H. unfold mailbox_tail in Ht. rewrite Ht in H.
  destruct H as (rest & Hne & Hs & ->). exists rest. split_and!; [done| |done].
  pose proof (segs_of_plain p) as Hp. rewrite Hs in Hp. by apply Forall_app in Hp as [_ ?].
Qed.

(** A path below the mailbox names one artifact, and is a path the disk store accepts when no byte of it is zero. *)
Lemma relative_valid p : relative p -> contains_char MemoryPath.nul p = false -> validate_artifact_path p = Ok tt.
Proof.
  intros (segs & Hne & Hp & ->) Hn. unfold validate_artifact_path. rewrite Hn.
  pose proof (path_str_last segs Hp Hne) as (x & c & E & _). pose proof Hp as Hp2.
  assert (split_on "/" (join "/" segs) = segs) as Hs.
  { apply (split_on_join "/"%char); [done|]. eapply Forall_impl; [exact Hp|]. by intros ? (_ & _ & _ & ?). }
  rewrite Hs. destruct segs as [|w k]; [done|]. inversion Hp2 as [|? ? (Hw & _ & _ & Hsl) Hk]; subst.
  destruct w as [|a w]; [done|]. apply not_elem_of_cons in Hsl as [Ha _].
  assert (exists r, join "/" ((a :: w) :: k) = a :: r) as [r Er].
  { destruct k as [|v k]; [by eexists|]. rewrite join_cons_nonempty by done. by eexists. }
  rewrite Er. destruct (str_eqb (a :: r) []) eqn:E1; [by apply str_eqb_true in E1|].
  destruct (starts_with "/" (a :: r)) eqn:E2; [apply starts_with_true in E2 as [? [= -> _]]; done|].
  destruct (existsb _ _) eqn:E3; [|done]. exfalso. apply existsb_exists in E3 as (v & Hv & Ev). apply str_eqb_true in Ev as <-.
  apply list_elem_of_In in Hv. rewrite Forall_forall in Hp. by destruct (Hp _ Hv) as (_ & _ & Hd & _).
Qed.

(** ** What a call does *)

Section Kept.
Context {V A : Type} `{VirtualFs V} `{ArtifactStoreLaws A}.
Abbreviation Mailbox := (MailboxFs V A).
Implicit Types f : Mailbox.

(** An artifact of a mailbox's task; and the writes of one. *)
Definition own_artifact f (p : str) : result bytes ArtifactError := artifact_get (mailbox_store f) (mailbox_tenant f) (task_id f) p.
Definition artifact_of (c : call) : option (str * bytes) :=
  match c with
  | CWrite path data => if is_mailbox (normalize path) then option_map (fun tail => (tail, data)) (mailbox_tail (normalize path)) else None
  | _ => None
  end.
(** What the sink is told of a call. *)
Definition told f (c : call) : list (str * str * N) :=
  match c, artifact_of c with
  | CWrite path data, Some _ => if is_ok (snd (run f c)) then [(normalize path, mailbox_tenant f, len data)] else []
  | _, _ => []
  end.

Variant effect f (c : call) : Mailbox -> result unit VfsError -> Prop :=
| Idle r : artifact_of c = None \/ is_ok r = false -> effect f c f r
| Kept path p d a s : c = CWrite path d -> artifact_of c = Some (p, d) -> artifact_put (mailbox_store f) (task_id f) (mailbox_tenant f) p d = (a, Ok tt) ->
    s = option_map (fun l => l ++ told f c) (artifact_sink f) -> effect f c (set_mailbox (dual_write (mailbox_inner f) (normalize path) d) a s f) (Ok tt)
| Refused p d a e r : artifact_of c = Some (p, d) -> artifact_put (mailbox_store f) (task_id f) (mailbox_tenant f) p d = (a, Err e) ->
    is_ok r = false -> effect f c (set_mailbox (mailbox_inner f) a (artifact_sink f) f) r
| Passed r : artifact_of c = None -> (forall t, t ∈ touches c -> is_mailbox (touch_path t) = false) ->
    r = snd (run (mailbox_inner f) (normalized c)) ->
    effect f c (set_mailbox (fst (run (mailbox_inner f) (normalized c))) (mailbox_store f) (artifact_sink f) f) r.

Lemma mailbox_gate_spec ts : mailbox_gate ts = Ok tt -> forall t, t ∈ ts -> is_mailbox (touch_path t) = false.
Proof.
  unfold mailbox_gate. destruct (List.find _ ts) eqn:E; [done|]. intros _ t Ht%list_elem_of_In.
  by apply (List.find_none _ _ E), orb_false_iff in Ht as [? _].
Qed.

Lemma mailbox_gated_effect f c call' : artifact_of c = None -> (forall v, call' v = run v (normalized c)) ->
  let '(f', r) := mailbox_gated (touches c) f call' in effect f c f' r.
Proof.
  intros Hc Hr. unfold mailbox_gated. destruct (mailbox_gate (touches c)) as [[]|] eqn:E; [|by constructor; left].
  unfold mailbox_inside. rewrite Hr. apply Passed; [done|by apply mailbox_gate_spec|done].
Qed.

Lemma run_effect f c : let '(f', r) := run f c in effect f c f' r.
Proof.
  destruct c as [path data|path|path|path data p|from to|ms]; cbn [run mailbox_fs vfs_write vfs_mkdir vfs_remove vfs_write_if vfs_rename vfs_apply_batch].
  - unfold mb_write. destruct (is_mailbox (normalize path)) eqn:E.
    + destruct (mailbox_tail _) as [tail|] eqn:Et; [|constructor; by right].
      assert (artifact_of (CWrite path data) = Some (tail, data)) as Hof by (cbn; by rewrite E, Et).
      destruct (artifact_put _ _ _ tail data) as [a [[]|e]] eqn:Ep; [|by eapply Refused].
      eapply Kept; [done|done|done|]. unfold told. rewrite Hof. cbn [run mailbox_fs vfs_write]. unfold mb_write. by rewrite E, Et, Ep.
    + apply (Passed f (CWrite path data)); [cbn; by rewrite E|by intros t ->%list_elem_of_singleton|done].
  - unfold mb_mkdir. destruct (is_mailbox (normalize path)) eqn:E; [constructor; by left|].
    apply (Passed f (CMkdir path)); [done|by intros t ->%list_elem_of_singleton|done].
  - unfold mb_remove. destruct (is_mailbox (normalize path)) eqn:E; [constructor; by left|].
    apply (Passed f (CRemove path)); [done|by intros t ->%list_elem_of_singleton|done].
  - by apply (mailbox_gated_effect f (CWriteIf path data p)).
  - by apply (mailbox_gated_effect f (CRename from to)).
  - by apply (mailbox_gated_effect f (CBatch ms)).
Qed.
(** *** One call *)

Lemma artifact_of_relative c p d : artifact_of c = Some (p, d) -> relative p.
Proof.
  destruct c as [path data| | | | |]; cbn; try done. destruct (is_mailbox _) eqn:E; [|done].
  destruct (mailbox_tail _) as [tail|] eqn:Et; [|done]. intros [= <- _]. by apply (mailbox_tail_relative path).
Qed.

Lemma effect_settings f c f' r : effect f c f' r -> mailbox_tenant f' = mailbox_tenant f /\ task_id f' = task_id f.
Proof. by destruct 1. Qed.

Lemma effect_other f c f' r t k q : effect f c f' r -> relative q -> (t, k) <> (mailbox_tenant f, task_id f) ->
  artifact_get (mailbox_store f') t k q = artifact_get (mailbox_store f) t k q.
Proof.
  intros He Hq Hne. destruct He as [|path p d a s _ Hc Hp|p d a e r Hc Hp|]; [done| | |done]; cbn.
  - rewrite (put_ok _ _ _ _ _ _ (artifact_of_relative _ _ _ Hc) Hp) by done. rewrite decide_False; [done|]. intros [= -> -> _]. by destruct Hne.
  - by rewrite (put_err _ _ _ _ _ _ _ Hp).
Qed.

Lemma effect_own f c f' r q d : effect f c f' r -> relative q -> own_artifact f q = Ok d ->
  exists d', own_artifact f' q = Ok d' /\ (d' = d \/ artifact_of c = Some (q, d')).
Proof.
  unfold own_artifact. intros He Hq Hd. destruct He as [|path p x a s _ Hc Hp|p x a e r Hc Hp|]; cbn; [by eauto| | |by eauto].
  - rewrite (put_ok _ _ _ _ _ _ (artifact_of_relative _ _ _ Hc) Hp) by done. destruct (decide _) as [[= ->]|]; eauto.
  - rewrite (put_err _ _ _ _ _ _ _ Hp). eauto.
Qed.

Lemma run_sink f c : artifact_sink (fst (run f c)) = option_map (fun l => l ++ told f c) (artifact_sink f).
Proof.
  pose proof (run_effect f c) as He. destruct (run f c) as [f' r] eqn:E. cbn [fst].
  assert (artifact_of c = None \/ is_ok r = false -> artifact_sink f = option_map (fun l => l ++ told f c) (artifact_sink f)) as Hn.
  { intros Hn. assert (told f c = []) as ->; [|destruct (artifact_sink f); cbn; by rewrite ?app_nil_r].
    unfold told. rewrite E. cbn [snd]. destruct c, (artifact_of _); try done. destruct Hn as [|Hn]; [done|]. by rewrite Hn. }
  destruct He; cbn [artifact_sink set_mailbox]; eauto.
Qed.

Lemma written_artifact_is_read f path data f' : is_mailbox (normalize path) = true -> vfs_write f path data = (f', Ok tt) -> vfs_read f' path = Ok data.
Proof.
  intros Hm. cbn [vfs_write vfs_read mailbox_fs]. unfold mb_write, mb_read. rewrite Hm. destruct (mailbox_tail _) as [tail|] eqn:Et; [|done].
  destruct (artifact_put _ _ _ _ _) as [a [[]|]] eqn:Ep; [|done]. intros [= <-]. cbn.
  rewrite (put_ok _ _ _ _ _ _ (mailbox_tail_relative _ _ Hm Et) Ep) by (by apply (mailbox_tail_relative path)). by rewrite decide_True.
Qed.

(** *** Many calls *)

Fixpoint run_all f (cs : list call) : Mailbox := match cs with [] => f | c :: cs => run_all (fst (run f c)) cs end.
Fixpoint all_told f (cs : list call) : list (str * str * N) :=
  match cs with [] => [] | c :: cs => told f c ++ all_told (fst (run f c)) cs end.

(** C24. An artifact is kept.  Whatever an agent does through the mailbox, an artifact of its task that was there is
    still there, with the contents it had or those of one of the agent's own writes of that path; the
    artifacts of other tasks and tenants are as they were; the sink has heard of the writes that succeeded,
    in order, and of nothing else; and what a write that succeeds has written is read back, also when the filesystem below
    takes no copy of it. *)
Theorem artifacts_are_kept f cs :
  (forall p d, relative p -> own_artifact f p = Ok d ->
     exists d', own_artifact (run_all f cs) p = Ok d' /\ (d' = d \/ exists c, c ∈ cs /\ artifact_of c = Some (p, d'))) /\
  (forall t k q, relative q -> (t, k) <> (mailbox_tenant f, task_id f) ->
     artifact_get (mailbox_store (run_all f cs)) t k q = artifact_get (mailbox_store f) t k q) /\
  artifact_sink (run_all f cs) = option_map (fun l => l ++ all_told f cs) (artifact_sink f) /\
  (forall path data f', is_mailbox (normalize path) = true -> vfs_write (run_all f cs) path data = (f', Ok tt) -> vfs_read f' path = Ok data).
Proof.
  revert f. induction cs as [|c cs IH]; intros f; cbn [run_all all_told].
  { split_and!; [by eauto|done|destruct (artifact_sink f); cbn; by rewrite ?app_nil_r|apply written_artifact_is_read]. }
  pose proof (run_effect f c) as He. pose proof (run_sink f c) as Hs. destruct (run f c) as [f1 r]. cbn [fst] in *.
  destruct (effect_settings _ _ _ _ He) as [Et Ek]. destruct (IH f1) as (Hown & Hoth & Hsink & Hread).
  split_and!; [| | |done].
  - intros p d Hp Hd. destruct (effect_own _ _ _ _ _ _ He Hp Hd) as (d1 & Hd1 & Hof).
    destruct (Hown p d1 Hp Hd1) as (d' & Hd' & Hw). exists d'. split; [done|]. destruct Hw as [->|(c' & Hin & Hc')]; [|right; exists c'; split; [by right|done]].
    destruct Hof as [->|Hof]; [by left|right; exists c; split; [by left|done]].
  - intros t k q Hq Hne. rewrite Hoth; [|done|congruence]. by apply (effect_other _ _ _ _ _ _ _ He).
  - rewrite Hsink, Hs. destruct (artifact_sink f); cbn; by rewrite ?app_assoc.
Qed.
End Kept.

(** ** A store in memory *)

#[export] Instance ex_artifacts : ArtifactStore (gmap (str * str * str) bytes) := {|
  artifact_put a k t p d := (<[(t, k, p) := d]> a, Ok tt);
  artifact_get a t k p := ok_or (a !! (t, k, p)) (ArtifactNotFound p);
  artifact_list a t k := Ok (omap (fun '((t', k', p), d) => if str_eqb t' t && str_eqb k' k then Some {| artifact_path := p; artifact_size := len d |} else None) (map_to_list a));
  artifact_delete_task a t k := (filter (fun kv => fst (fst kv) <> (t, k)) a, Ok tt);
|}.
#[export] Instance ex_artifacts_laws : ArtifactStoreLaws (gmap (str * str * str) bytes).
Proof.
  constructor; [|by intros]. intros a k t p d a' _ [= <-] t' k' p' _. cbn. destruct (decide _) as [[= -> -> ->]|Hne].
  - by rewrite lookup_insert_eq.
  - rewrite lookup_insert_ne; [done|]. congruence.
Qed.

#[local] Instance ex_below_mailbox : VirtualFs State := memory_fs ex_to_vec ex_from_slice.
Definition ex_mailbox : MailboxFs State (gmap (str * str * str) bytes) :=
  with_artifact_sink (mailbox_fs_new (fst (vfs_write MemoryFs.new "/proc" "a file")) "t1" "acme" {[ (lit "acme", lit "t1", lit "answer.md") := lit "42" ]}).

Lemma artifacts_are_kept_witness :
  (exists d', own_artifact (run_all ex_mailbox [CRemove "/proc"; CRemove "/proc/mailbox/answer.md"; CRename "/proc/mailbox/answer.md" "/a"]) "answer.md" = Ok d' /\ d' = "42") /\
  snd (vfs_write ex_mailbox "/proc/mailbox/reports//q1.csv" "1,2") = Ok tt.
Proof.
  split; [|reflexivity].
  destruct (artifacts_are_kept ex_mailbox [CRemove "/proc"; CRemove "/proc/mailbox/answer.md"; CRename "/proc/mailbox/answer.md" "/a"]) as [Hk _].
  destruct (Hk "answer.md" "42") as (d' & Hd & Hw).
  - exists [lit "answer.md"]. split_and!; [done| |reflexivity]. apply (bool_decide_unpack _); vm_compute; exact I.
  - reflexivity.
  - exists d'. split; [exact Hd|]. destruct Hw as [Hw|(c & Hc & Hof)]; [exact Hw|]. exfalso. rewrite !elem_of_cons, elem_of_nil in Hc.
    destruct Hc as [->|[->|[->|[]]]]; discriminate Hof.
Defined.

(** A write replaces an artifact, and the filesystem below need not take the copy. *)
Definition ex_rewritten : MailboxFs State (gmap (str * str * str) bytes) := fst (vfs_write ex_mailbox "/proc/./mailbox/answer.md" "43").
Example mailbox_views :
  vfs_read ex_rewritten "/proc/mailbox/answer.md" = Ok (lit "43") /\
  vfs_read (mailbox_inner ex_rewritten) "/proc" = Ok (lit "a file") /\
  artifact_sink ex_rewritten = Some [(lit "/proc/mailbox/answer.md", lit "acme", 2%N)] /\
  vfs_list_dir (fst (vfs_write ex_rewritten "/proc/mailbox/reports/q1.csv" "1")) "/proc/mailbox" = Ok [lit "answer.md"; lit "reports"] /\
  snd (vfs_remove ex_rewritten "/proc/mailbox/answer.md") = Err (PermissionDenied "/proc/mailbox/answer.md: mailbox artifacts are immutable") /\
  snd (vfs_rename ex_rewritten "/proc" "/p") = Err (Unsupported "atomic operation on mailbox path /proc").
Proof. repeat split; vm_compute; reflexivity. Qed.
