(* ===== verification/AgentVfs.v ===== *)
(** * The filesystem of an agent on the server

    Models how [crates/simulacra-server/src/engine.rs] stacks the layers of a task's filesystem: the mailbox over the
    workspace, durable memory over the mailbox when the agent has it, the services, and the process on top.  What the
    layers guarantee one by one is put together here: everything an agent's call can change. *)

From S2P Require Import Prelude.
From S2P Require Import Segments.
From S2P Require Import MemoryPath.
From S2P Require Import Capability.
From S2P Require Import Vfs.
From S2P Require Import MemoryFs.
From S2P Require Import MemoryStoreFs.
From S2P Require Import Json.
From S2P Require Import SystemFs.
From S2P Require Import MailboxFs.
From S2P Require Integration.

Section Agent.
Context {V A St : Type} `{VirtualFs V} `{ArtifactStore A} `{MemoryStore St}.
Context {Decimal : Type} (two_places : Decimal -> str) {Value : Type} `{JsonOps Value}.

(** The mailbox, with durable memory over it or without. *)
Variant Layered :=
| Remembers (f : MemoryStoreFs (MailboxFs V A) St)
| Forgets (f : MailboxFs V A).

Definition lift {F : Type} (mk : F -> Layered) (r : F * result unit VfsError) : Layered * result unit VfsError := (mk (fst r), snd r).
Definition on_layered (call : forall F, VirtualFs F -> F -> F * result unit VfsError) (l : Layered) : Layered * result unit VfsError :=
  match l with
  | Remembers f => lift Remembers (call _ memory_store_fs f)
  | Forgets f => lift Forgets (call _ mailbox_fs f)
  end.
Definition of_layered {R : Type} (call : forall F, VirtualFs F -> F -> R) (l : Layered) : R :=
  match l with
  | Remembers f => call _ memory_store_fs f
  | Forgets f => call _ mailbox_fs f
  end.

#[export] Instance layered_fs : VirtualFs Layered := {|
  vfs_read l path := of_layered (fun _ _ f => vfs_read f path) l;
  vfs_write l path data := on_layered (fun _ _ f => vfs_write f path data) l;
  vfs_exists l path := of_layered (fun _ _ f => vfs_exists f path) l;
  vfs_list_dir l path := of_layered (fun _ _ f => vfs_list_dir f path) l;
  vfs_mkdir l path := on_layered (fun _ _ f => vfs_mkdir f path) l;
  vfs_remove l path := on_layered (fun _ _ f => vfs_remove f path) l;
  vfs_metadata l path := of_layered (fun _ _ f => vfs_metadata f path) l;
  vfs_snapshot l := of_layered (fun _ _ f => vfs_snapshot f) l;
  vfs_restore l d := on_layered (fun _ _ f => vfs_restore f d) l;
  vfs_write_if l path data p := on_layered (fun _ _ f => vfs_write_if f path data p) l;
  vfs_rename l from to := on_layered (fun _ _ f => vfs_rename f from to) l;
  vfs_apply_batch l ms := on_layered (fun _ _ f => vfs_apply_batch f ms) l;
  vfs_list_dir_bounded l path := of_layered (fun _ _ f => vfs_list_dir_bounded f path) l;
|}.

(** ** The stack ([engine.rs]) *)

Definition with_memory (f : MailboxFs V A) (c : MemoryCapability) (namespace : str) (st : option St) : Layered :=
  match (if enabled c then st else None) with
  | None => Forgets f
  | Some st =>
      match tenant_parse namespace with
      | Ok t => Remembers (with_rrwb buffer_new (memory_store_fs_new f t st c))
      | Err _ => Forgets f
      end
  end.

Abbreviation Agent := (ProcFs Decimal (ServiceFs Layered)).
#[local] Instance agent_vfs : VirtualFs Agent := stack_fs two_places.

Definition agent_fs (root : V) (a : A) (st : option St) (namespace : str) (registry : option Integration.IntegrationRegistry)
    (s : ProcState Decimal) : Agent :=
  let with_mailbox := with_artifact_sink (mailbox_fs_new root (agent_id s) namespace a) in
  let with_memory := with_memory with_mailbox (memory (capabilities s)) namespace st in
  let lister := match registry with Some r => registry_integration_lister r | None => empty_integration_lister end in
  proc_fs_new (service_fs_new with_memory lister) s.

(** ** What a call changes *)

Definition mailbox_of (l : Layered) : MailboxFs V A := match l with Remembers f => inner f | Forgets f => f end.
Definition set_mailbox_of (b : MailboxFs V A) (l : Layered) : Layered :=
  match l with Remembers f => Remembers (set_inner b f) | Forgets _ => Forgets b end.
(** Memory paths are the business of the memory, when there is one. *)
Definition in_memory (l : Layered) (path : str) : bool := match l with Remembers _ => is_memory_path_str path | Forgets _ => false end.

(** What a call may change of the layers; [c] is the call as the agent made it. *)
Variant confined (c : call) : Layered -> Layered -> Prop :=
| NothingChanged l : confined c l l
| MemoryChanged f f' q : can_write (capability f) q = true -> is_mnt q = false ->
    store f' = fst (store_delete (store f) (tenant f) q) \/ (exists data, store f' = fst (store_put (store f) (tenant f) q data)) ->
    inner f' = inner f -> tenant f' = tenant f -> capability f' = capability f -> confined c (Remembers f) (Remembers f')
| ArtifactKept l b path p d a s : b = mailbox_of l -> c = CWrite path d -> artifact_of c = Some (p, d) ->
    artifact_put (mailbox_store b) (task_id b) (mailbox_tenant b) p d = (a, Ok tt) ->
    confined c l (set_mailbox_of (set_mailbox (dual_write (mailbox_inner b) (normalize path) d) a s b) l)
| ArtifactRefused l b p d a e : b = mailbox_of l -> artifact_of c = Some (p, d) ->
    artifact_put (mailbox_store b) (task_id b) (mailbox_tenant b) p d = (a, Err e) ->
    confined c l (set_mailbox_of (set_mailbox (mailbox_inner b) a (artifact_sink b) b) l)
| WorkspaceChanged l b d : b = mailbox_of l -> touches d = touches c ->
    (forall t, t ∈ touches c -> MailboxFs.is_mailbox (touch_path t) = false /\ in_memory l (touch_path t) = false) ->
    confined c l (set_mailbox_of (set_mailbox (fst (run (mailbox_inner b) d)) (mailbox_store b) (artifact_sink b) b) l).

Lemma layered_run l c : run l c = match l with
  | Remembers f => lift Remembers (run f c)
  | Forgets f => lift Forgets (run f c)
  end.
Proof. by destruct l, c. Qed.

Lemma artifact_of_normalized c : artifact_of (normalized c) = artifact_of c.
Proof. destruct c; cbn; by rewrite ?normalize_idem. Qed.

Lemma confined_normalized c l l' : confined (normalized c) l l' -> confined c l l'.
Proof.
  destruct 1 as [l|f f' q|l b path p d a s Hb Hc Hof Hp|l b p d a e Hb Hof|l b d Hb Hd Ht].
  - constructor.
  - by eapply MemoryChanged.
  - destruct c as [path0 d0| | | | |]; try done. injection Hc as <- <-. rewrite normalize_idem. rewrite artifact_of_normalized in Hof. by eapply ArtifactKept.
  - rewrite artifact_of_normalized in Hof. by eapply ArtifactRefused.
  - rewrite touches_normalized in *. by eapply WorkspaceChanged.
Qed.

(** What a call does to the mailbox, seen from the layers over it. *)
Lemma mailbox_confined l c : (forall t, t ∈ touches c -> in_memory l (touch_path t) = false) ->
  confined c l (set_mailbox_of (fst (run (mailbox_of l) c)) l).
Proof.
  intros Hm. pose proof (run_effect (mailbox_of l) c) as He. destruct (run (mailbox_of l) c) as [b r]. cbn [fst].
  destruct He as [r _|path p d a s Hc Hof Hp|p d a e r Hof Hp|r Hof Ht Hr].
  - assert (set_mailbox_of (mailbox_of l) l = l) as -> by (by destruct l as [[]|]). constructor.
  - by eapply ArtifactKept.
  - by eapply ArtifactRefused.
  - eapply WorkspaceChanged; [done|apply touches_normalized|auto].
Qed.

Lemma layered_confined l c : confined c l (fst (run l c)).
Proof.
  rewrite layered_run. destruct l as [f|f]; cbn [lift fst].
  - destruct (run_settings f c) as [Ht Hcap]. pose proof (run_allowed f c) as Ha. destruct (run f c) as [f' r]. cbn [fst] in *.
    destruct Ha as [c Hf|path data q Hq Hw Hm Hs Hi|path q Hq Hw Hm Hs Hi|c Hn Hs Hr Hi].
    + rewrite Hf. constructor.
    + eapply MemoryChanged; eauto.
    + eapply MemoryChanged; eauto.
    + apply confined_normalized. assert (Remembers f' = set_mailbox_of (fst (run (mailbox_of (Remembers f)) (normalized c))) (Remembers f)) as ->.
      { cbn. f_equal. destruct f', f; cbn in *. by subst. }
      apply mailbox_confined. by rewrite touches_normalized.
  - change (confined c (Forgets f) (set_mailbox_of (fst (run (mailbox_of (Forgets f)) c)) (Forgets f))). by apply mailbox_confined.
Qed.

(** ** What an agent reads *)

(** Two mailboxes that hold the same for their task. *)
Definition mailboxes_alike (b b' : MailboxFs V A) : Prop :=
  mailbox_tenant b = mailbox_tenant b' /\ task_id b = task_id b' /\ reads_same (mailbox_inner b) (mailbox_inner b') /\
  (forall p, artifact_get (mailbox_store b) (mailbox_tenant b) (task_id b) p = artifact_get (mailbox_store b') (mailbox_tenant b) (task_id b) p) /\
  artifact_list (mailbox_store b) (mailbox_tenant b) (task_id b) = artifact_list (mailbox_store b') (mailbox_tenant b) (task_id b).

Lemma mailbox_reads b b' : mailboxes_alike b b' -> reads_same b b'.
Proof.
  intros (Et & Ek & Hi & Hg & Hl) path. cbn [vfs_read vfs_exists vfs_list_dir vfs_metadata mailbox_fs].
  unfold mb_read, mb_exists, mb_list_dir, mb_metadata. destruct (MailboxFs.is_mailbox (normalize path)); [|apply Hi].
  rewrite <- Et, <- Ek, Hl. split_and!; [|destruct (str_eqb _ MAILBOX_PREFIX); [done|]|done|destruct (str_eqb _ MAILBOX_PREFIX); [done|]];
    destruct (mailbox_tail _); cbn; by rewrite ?Hg.
Qed.

(** Two stacks that hold the same within what an agent may read. *)
Definition layers_alike (l l' : Layered) : Prop :=
  mailboxes_alike (mailbox_of l) (mailbox_of l') /\
  match l, l' with
  | Remembers f, Remembers f' => tenant f = tenant f' /\ capability f = capability f' /\ alike (capability f') (tenant f') (store f') (store f)
  | Forgets _, Forgets _ => True
  | _, _ => False
  end.

Lemma layered_reads l l' : layers_alike l l' -> reads_same l l'.
Proof.
  intros [Hb%mailbox_reads Hm]. destruct l as [f|f], l' as [f'|f']; try done; cbn in *.
  - destruct Hm as (Ht & Hc & Ha). exact (reads_alike f' f Hb Ht Hc Ha).
Qed.

Lemma agent_reads (f g : Agent) :
  integrations (proc_inner g) = integrations (proc_inner f) -> state g = state f -> reads_same (below g) (below f) -> reads_same g f.
Proof.
  intros Hi Hs Hb path. pose proof (system_reads two_places f path) as Hf. pose proof (system_reads two_places g path) as Hg.
  cbv zeta in *. unfold agent_vfs. destruct (is_system (normalize path)).
  - assert (g = set_below (below g) f) as -> by (destruct g as [[]], f as [[]]; cbn in *; by subst).
    destruct (Hf (below g)) as (? & ? & ? & ?). done.
  - destruct Hf as (-> & -> & -> & ->), Hg as (-> & -> & -> & ->), (Hb (normalize path)) as (-> & -> & -> & ->). done.
Qed.
(** Whose layers they are. *)
Definition owner (l : Layered) : str * str * option (TenantId * MemoryCapability) :=
  (mailbox_tenant (mailbox_of l), task_id (mailbox_of l), match l with Remembers f => Some (tenant f, capability f) | Forgets _ => None end).

Lemma confined_owner c l l' : confined c l l' -> owner l' = owner l.
Proof.
  destruct 1 as [l|f f' q _ _ _ Hi Ht Hc|l b path p d a s -> _ _ _|l b p d a e -> _ _|l b d -> _ _]; unfold owner; [done| |by destruct l..].
  cbn. by rewrite Hi, Ht, Hc.
Qed.

(** The layers of a new agent are those of its task and tenant; memory is there when the agent may have it, the
    server has one, and the tenant's name is one a tenant can have. *)
Lemma agent_fs_owner root a st namespace registry s :
  owner (below (agent_fs root a st namespace registry s)) =
  (namespace, agent_id s,
   match (if enabled (memory (capabilities s)) then st else None), tenant_parse namespace with
   | Some _, Ok t => Some (t, memory (capabilities s))
   | _, _ => None
   end).
Proof. unfold below, agent_fs, with_memory. cbn. by destruct (tenant_parse namespace), (enabled _), st. Qed.

(** C16. An agent on the server stays within what is its own.  Whatever call it makes, its process state,
    integrations, task, tenant and memory capability stay what they are; a call that reaches into [/svc] or [/proc]
    (but for the mailbox), or takes the root away, is refused and changes nothing; and any other changes at most one
    thing: one path of the tenant's memory that the write scopes cover, by a put or a delete; one artifact of the task,
    by the write of just that artifact, with its copy in the workspace; or the workspace, by a call with the
    same touched paths, none of them of the mailbox or of the memory.  And what the agent
    reads is the same wherever the workspace, its own task's artifacts and what its search scopes cover of the tenant's
    memory are the same. *)
Theorem agent_is_isolated (f : Agent) :
  (forall c, let f' := fst (run f c) in
     state f' = state f /\ integrations (proc_inner f') = integrations (proc_inner f) /\ owner (below f') = owner (below f) /\
     if existsb (reaches is_system) (touches c) then f' = f /\ exists m, snd (run f c) = Err (PermissionDenied m)
     else confined c (below f) (below f')) /\
  (forall g, state g = state f -> integrations (proc_inner g) = integrations (proc_inner f) -> layers_alike (below g) (below f) ->
     reads_same g f).
Proof.
  split; [|intros g Hs Hi Hl%layered_reads; by apply agent_reads].
  intros c. pose proof (system_paths_are_read_only two_places f c) as Hr. unfold agent_vfs. destruct (existsb _ _).
  - destruct Hr as [m ->]. cbn. split_and!; eauto.
  - rewrite Hr. cbn. pose proof (confined_normalized _ _ _ (layered_confined (below f) (normalized c))) as Hc.
    split_and!; [done|done|by apply confined_owner in Hc|done].
Qed.
End Agent.
Arguments Layered : clear implicits.

(** ** Two agents that differ in what is not theirs *)

#[local] Instance ex_root : VirtualFs State := memory_fs ex_to_vec ex_from_slice.
#[local] Existing Instance text_json.
Abbreviation ExArtifacts := (gmap (str * str * str) bytes).
Definition ex_process : ProcState N := {|
  agent_id := "t1"; agent_name := "helper"; model := "m"; parent_id := None; budget := budget ex_agent;
  capabilities := {| network := []; mcp_tools := []; shell := true; javascript := false; python := false; paths_write := []; paths_read := [];
                     spawn_placements := []; skill_patterns := []; memory := ex_scope |};
  tools := tools ex_agent; session_id := "t1"; uptime_ms := 5; journal_entries := 0; hooks := empty_hook_lister; turn := 2 |}.
Definition ex_artifact (task : str) : ExArtifacts := {[ (lit "acme", task, lit "answer.md") := lit "42" ]}.
Definition ex_other (a : ExArtifacts) (m : ExStore) := agent_fs MemoryFs.new a (Some m) "acme" None ex_process.
#[local] Instance ex_agent_vfs : VirtualFs (ProcFs N (ServiceFs (Layered State ExArtifacts ExStore))) := agent_vfs dec.

Lemma ex_alike_back : alike ex_scope ex_tenant ex_with_secret ex_empty.
Proof. destruct ex_alike as [Hg He Hv Hl]. constructor; intros q Hq; symmetry; eauto. Qed.

Lemma agent_is_isolated_witness :
  vfs_read (ex_other (ex_artifact "t2") ex_with_secret) "/proc/mailbox/answer.md" = Err (NotFound "/proc/mailbox/answer.md") /\
  vfs_list_dir (ex_other ∅ ex_empty) "/proc/mailbox" = vfs_list_dir (ex_other (ex_artifact "t2") ex_with_secret) "/proc/mailbox".
Proof.
  split; [reflexivity|].
  apply (proj2 (agent_is_isolated dec (ex_other (ex_artifact "t2") ex_with_secret)) (ex_other ∅ ex_empty)); [reflexivity|reflexivity|].
  split; [split_and!; try reflexivity|split_and!; [reflexivity|reflexivity|exact ex_alike_back]].
  intros p. change (ok_or ((∅ : ExArtifacts) !! (lit "acme", lit "t1", p)) (ArtifactNotFound p) = ok_or (ex_artifact "t2" !! (lit "acme", lit "t1", p)) (ArtifactNotFound p)).
  unfold ex_artifact. by rewrite lookup_singleton_ne by done.
Defined.

(** The layers answer in turn. *)
Definition ex_one : ProcFs N (ServiceFs (Layered State ExArtifacts ExStore)) := ex_other (ex_artifact "t1") ex_with_secret.
Example agent_views :
  vfs_read ex_one "/proc/agent/model" = Ok (lit "m") /\
  vfs_read ex_one "/proc/mailbox/answer.md" = Ok (lit "42") /\
  vfs_read ex_one "/var/memory/secret" = Err (PermissionDenied "read outside memory search_scopes: /var/memory/secret") /\
  snd (vfs_write ex_one "/workspace/a" "1") = Ok tt /\
  snd (vfs_remove ex_one "/svc/x") = Err (PermissionDenied "/svc/x is read-only") /\
  snd (vfs_rename ex_one "/workspace" "/proc/mailbox/w") = Err (Unsupported "atomic operation on mailbox path /proc/mailbox/w").
Proof. repeat split; vm_compute; reflexivity. Qed.
