(* ===== verification/Guards.v ===== *)
(** * The sandbox's guards and file operations

    Models [crates/simulacra-sandbox/src/guards.rs], [file_io.rs] and the filesystem operations of
    [AgentCell] in [lib.rs]: every call checks the capability, then the budget, journals and only
    then reaches the filesystem.

    An agent's cell is the state the calls change: the filesystem, the budget and the journal, each
    any implementation of its interface.  The calls of one cell run one at a time here; the locks
    around the budget are never poisoned, since nothing panics while holding them.  Log events,
    spans and meters are left out, and with them the capability names that only label them. *)

From S2P Require Import Prelude.
From S2P Require Import Capability.
From S2P Require Import Vfs.
From S2P Require Import Context.
From S2P Require Import Budget.
From S2P Require Import Journal.

Variant SandboxError :=
| DeniedByCapability (denied : CapabilityDenied)
| OverBudget (exhausted : BudgetExhausted)
| ShellError (msg : str)
| HttpError (msg : str)
| JsError (msg : str)
| VfsFailed (e : VfsError)
| Internal (msg : str).

Definition sandbox_error_to_string (e : SandboxError) : str :=
  match e with
  | DeniedByCapability denied => "capability denied: " ++ capability_denied_to_string denied
  | OverBudget exhausted => "budget exhausted: " ++ budget_exhausted_to_string exhausted
  | ShellError msg => "shell error: " ++ msg
  | HttpError msg => "http error: " ++ msg
  | JsError msg => "js error: " ++ msg
  | VfsFailed e => "vfs error: " ++ vfs_error_to_string e
  | Internal msg => "internal error: " ++ msg
  end.

Section Guards.
Context {V J Value Decimal : Type} `{VirtualFs V} `{JournalStorage Value Decimal J}.

Record Cell := {
  cell_vfs : V;
  cell_budget : ResourceBudget Decimal;
  cell_journal : J;
}.

Definition set_vfs (c : Cell) (v : V) : Cell :=
  {| cell_vfs := v; cell_budget := cell_budget c; cell_journal := cell_journal c |}.
Definition set_budget (c : Cell) (b : ResourceBudget Decimal) : Cell :=
  {| cell_vfs := cell_vfs c; cell_budget := b; cell_journal := cell_journal c |}.
Definition set_journal (c : Cell) (j : J) : Cell :=
  {| cell_vfs := cell_vfs c; cell_budget := cell_budget c; cell_journal := j |}.

Abbreviation Op := (SE Cell SandboxError).

(** A call on the cell's filesystem, one that changes it or one that reads it. *)
Definition on_vfs {A} (f : V -> V * result A VfsError) : SE Cell VfsError A := fun c =>
  let '(v, r) := f (cell_vfs c) in (set_vfs c v, r).
Definition of_vfs {A} (f : V -> result A VfsError) : SE Cell VfsError A := fun c =>
  (c, f (cell_vfs c)).

(** The agent the cell belongs to. *)
Context (agent_id : str) (capability : CapabilityToken).

Definition journal_put (kind : JournalEntryKind Value) : SE Cell JournalError unit := fun c =>
  let e := {| schema_version := JOURNAL_SCHEMA_VERSION; Journal.agent_id := agent_id;
              timestamp_ms := 0; entry := kind |} in
  let '(j, r) := journal_append (cell_journal c) e in (set_journal c j, r).

(** [let _ = journal.append(..)], or a failure that is only logged. *)
Definition journal_try (kind : JournalEntryKind Value) : Op unit :=
  let! _ := se_try (journal_put kind) in se_ret tt.

Definition tool_result (tool_name content : str) (is_error : bool) : JournalEntryKind Value :=
  ToolResult None tool_name content is_error [].

Definition journal_denial (operation_ : str) (denied : CapabilityDenied) : Op unit :=
  journal_try (tool_result operation_
    ("capability denied: " ++ operation denied ++ " - " ++ reason denied) true).

Definition journal_budget_exhaustion (exhausted : BudgetExhausted) : Op unit :=
  journal_try (tool_result (resource exhausted)
    ("budget exhausted: " ++ resource exhausted ++ " - used " ++ used exhausted
      ++ ", limit " ++ limit exhausted) true).

Definition check_and_journal_capability (check : result unit CapabilityDenied) (operation_ : str)
    : Op unit :=
  match check with
  | Err denied =>
      let! _ := journal_denial operation_ denied in se_err (DeniedByCapability denied)
  | Ok _ => se_ret tt
  end.

Definition refuse_exhausted (exhausted : BudgetExhausted) : Op unit :=
  let! _ := journal_budget_exhaustion exhausted in se_err (OverBudget exhausted).

Definition check_turns_budget : Op unit := fun c =>
  let b := cell_budget c in
  if over (max_turns b) (used_turns b) then
    refuse_exhausted (exhausted_at "turns" (used_turns b) (max_turns b)) c
  else (c, Ok tt).

(** [used_turns] is a [u32]: it wraps around, or panics in a debug build, only without a limit. *)
Definition reserve_turn : Op unit := fun c =>
  let b := cell_budget c in
  if over (max_turns b) (used_turns b) then
    refuse_exhausted (exhausted_at "turns" (used_turns b) (max_turns b)) c
  else (set_budget c (set_used_turns b ((used_turns b + 1) mod 2 ^ 32)), Ok tt).

Definition reserve_vfs_bytes (n : N) : Op unit := fun c =>
  let b := cell_budget c in
  if over (max_vfs_bytes b) (used_vfs_bytes b) then
    refuse_exhausted (exhausted_at "vfs_bytes" (used_vfs_bytes b) (max_vfs_bytes b)) c
  else
    let projected := saturating_add (used_vfs_bytes b) n in
    if (0 <? max_vfs_bytes b)%N && (max_vfs_bytes b <? projected)%N then
      refuse_exhausted (exhausted_at "vfs_bytes" projected (max_vfs_bytes b)) c
    else (set_budget c (set_used_vfs_bytes b projected), Ok tt).

Definition release_vfs_bytes (n : N) : Op unit := fun c =>
  let b := cell_budget c in
  (set_budget c (set_used_vfs_bytes b (used_vfs_bytes b - n)), Ok tt).

Definition release_unless_unknown (err : VfsError) (n : N) : Op unit :=
  match err with
  | OutcomeUnknown _ => se_ret tt
  | _ => release_vfs_bytes n
  end.

Definition preflight_vfs_write_bytes (n : N) : Op unit := fun c =>
  let b := cell_budget c in
  let projected := saturating_add (used_vfs_bytes b) n in
  if over (max_vfs_bytes b) (used_vfs_bytes b) then
    refuse_exhausted (exhausted_at "vfs_bytes" (used_vfs_bytes b) (max_vfs_bytes b)) c
  else if (0 <? max_vfs_bytes b)%N && (max_vfs_bytes b <? projected)%N then
    refuse_exhausted (exhausted_at "vfs_bytes" projected (max_vfs_bytes b)) c
  else (c, Ok tt).

(** ** File operations *)

Definition read_file_inner (path : str) : Op bytes :=
  let! _ := check_and_journal_capability (check_path_read capability path) "read_file" in
  let! outcome := se_try (of_vfs (fun v => vfs_read v path)) in
  match outcome with
  | Err err =>
      let! _ := journal_try (tool_result "read_file" (vfs_error_to_string err) true) in
      se_err (VfsFailed err)
  | Ok data =>
      let! _ := journal_try (tool_result "read_file"
        ("read " ++ dec (N.of_nat (length data)) ++ " bytes from " ++ path) false) in
      se_ret data
  end.

Definition write_file_inner (path : str) (data : bytes) : Op unit :=
  let! _ := check_and_journal_capability (check_path_write capability path) "write_file" in
  let write_bytes := N.of_nat (length data) in
  let! _ := reserve_vfs_bytes write_bytes in
  let! _ := journal_try (FileWrite path write_bytes) in
  let! outcome := se_try (on_vfs (fun v => vfs_write v path data)) in
  match outcome with
  | Err err => let! _ := release_unless_unknown err write_bytes in se_err (VfsFailed err)
  | Ok _ => se_ret tt
  end.

Definition read_file (path : str) : Op bytes := read_file_inner path.
Definition write_file (path : str) (data : bytes) : Op unit := write_file_inner path data.

Definition preflight_path_write (path : str) : Op unit :=
  check_and_journal_capability (check_path_write capability path) "preflight_path_write".

Definition path_exists_for_write (path : str) : Op bool :=
  let! _ := check_and_journal_capability (check_path_write capability path) "path_exists_for_write" in
  fun c => (c, Ok (vfs_exists (cell_vfs c) path)).

Definition cell_list_dir_bounded (path : str) : Op DirListing :=
  let! _ := check_and_journal_capability (check_path_read capability path) "list_dir" in
  let! listing := se_map_err VfsFailed (of_vfs (fun v => vfs_list_dir_bounded v path)) in
  if str_eqb path "/proc" || starts_with "/proc/" path then
    let! _ := journal_try (tool_result "list_dir"
      ("listed " ++ dec (N.of_nat (length (entries listing))) ++ " entries in " ++ path) false) in
    se_ret listing
  else se_ret listing.

Definition cell_list_dir (path : str) : Op (list str) :=
  let! listing := cell_list_dir_bounded path in se_ret (entries listing).

Definition cell_metadata (path : str) : Op FsMetadata :=
  let! _ := check_and_journal_capability
    (map_err (fun denied => {| operation := "path_read"; reason := reason denied |})
       (check_path_read capability path)) "metadata" in
  se_map_err VfsFailed (of_vfs (fun v => vfs_metadata v path)).
End Guards.
Arguments Cell : clear implicits.
