(* ===== verification/HttpFetch.v ===== *)
(** * Network access of an agent

    Models [crates/simulacra-sandbox/src/http.rs], [fetch_proxy.rs], [module_fetcher.rs],
    [shell_http_proxy.rs] and [AgentCell::fetch_http]: every request of an agent goes through
    [fetch_http_inner], which checks the host and the turn budget, sends through an HTTP client that
    follows no redirect by itself, journals the request and checks each redirect before following it.
    The script's [fetch] adds the credentials of an integration first ([Integration]).

    The client is any implementation of [HttpClient]; a parsed URL is any implementation of [UrlOps],
    the operations of the [url] package the code calls.  The state is an agent's cell with the client. *)

From S2P Require Import Prelude.
From S2P Require Import Text.
From S2P Require Import Utf8.
From S2P Require Import Capability.
From S2P Require Import Vfs.
From S2P Require Import Context.
From S2P Require Import Budget.
From S2P Require Import Journal.
From S2P Require Import Guards.
From S2P Require HttpClient.
From S2P Require Integration.

Abbreviation Headers := (list (str * str)).
Abbreviation HttpResponse := HttpClient.HttpResponse.

(** ** URLs *)

(** [url::Host]: the addresses are the integers they stand for. *)
Variant Host :=
| Domain (name : str)
| Ipv4 (ip : N)
| Ipv6 (ip : N).

Class UrlOps (Url : Type) := {
  url_parse : str -> option Url;
  url_scheme : Url -> str;
  url_host : Url -> option Host;
  url_host_str : Url -> option str;
  url_to_string : Url -> str;
  url_join : Url -> str -> option Url;
}.

(** [Ipv4Addr::is_loopback] (127.0.0.0/8) and [Ipv6Addr::is_loopback] (::1). *)
Definition ipv4_is_loopback (ip : N) : bool := (N.shiftr ip 24 =? 127)%N.
Definition ipv6_is_loopback (ip : N) : bool := (ip =? 1)%N.

Definition MAX_REDIRECTS : nat := 5.

(** The credential headers a redirect drops. *)
Definition is_credential_header (name : str) : bool :=
  mem (List.map to_ascii_lowercase name) (List.map lit ["authorization"; "proxy-authorization"; "cookie"]%string).

Definition strip_credentials (headers : Headers) : Headers :=
  List.filter (fun '(name, _) => negb (is_credential_header name)) headers.

Definition https_scheme_error : SandboxError := HttpError "https scheme required for network requests".

Definition finalize_response (response : HttpResponse) (final_url : str) (redirects : nat) : HttpResponse :=
  if (0 <? redirects)%nat then
    {| HttpClient.response_status := HttpClient.response_status response;
       HttpClient.status_text := HttpClient.status_text response;
       HttpClient.response_headers := HttpClient.response_headers response;
       HttpClient.response_body := HttpClient.response_body response;
       HttpClient.response_url := final_url; HttpClient.redirected := true |}
  else response.

(** [headers.iter().find(..)] of the first header with a name, in any case. *)
Definition find_header (key : str) (headers : Headers) : option str :=
  snd <$> List.find (fun '(name, _) => eq_ignore_ascii_case name key) headers.

Section Fetch.
Context {V J Value Decimal Url Client : Type} `{VirtualFs V} `{JournalStorage Value Decimal J}
  `{UrlOps Url} `{HttpClient.HttpClient Client}.

Definition host_of (u : Url) : str := unwrap_or (url_host_str u) [].

Definition extract_host (url : str) : option str :=
  url_parse url ≫= fun parsed =>
    if mem (url_scheme parsed) [lit "http"; lit "https"] then url_host_str parsed else None.

Definition scheme_is_admitted (url : Url) : bool :=
  if str_eqb (url_scheme url) "https" then true
  else if str_eqb (url_scheme url) "http" then
    match url_host url with
    | Some (Ipv4 ip) => ipv4_is_loopback ip
    | Some (Ipv6 ip) => ipv6_is_loopback ip
    | Some (Domain d) => str_eqb d "localhost"
    | None => false
    end
  else false.

(** ** The state: a cell and its client *)

Record NetCell := { net_cell : Cell V J Decimal; net_client : Client }.
Abbreviation Fetching := (SE NetCell SandboxError).

Definition on_cell {A} (m : SE (Cell V J Decimal) SandboxError A) : Fetching A := fun s =>
  let '(c, r) := m (net_cell s) in ({| net_cell := c; net_client := net_client s |}, r).

Definition send (r : HttpClient.HttpRequest) : Fetching (result HttpResponse HttpClient.HttpError) := fun s =>
  let '(client, outcome) := HttpClient.http_execute (net_client s) r in
  ({| net_cell := net_cell s; net_client := client |}, Ok outcome).

(** ** One request and its redirects *)

Section Agent.
Context (agent_id : str) (capability : CapabilityToken).

Definition journal_http_request (method url : str) (status : N) : Fetching unit :=
  on_cell (journal_try (V := V) agent_id (HttpRequest method url status)).

Definition check_network_journaled (host operation_name : str) : Fetching unit :=
  on_cell (check_and_journal_capability agent_id (check_network capability host) operation_name).

(** Only GET and HEAD follow a redirect, and only one that says where to. *)
Definition redirect_location (method : str) (response : HttpResponse) : option str :=
  let status := HttpClient.response_status response in
  if negb ((300 <=? status)%N && (status <? 400)%N) || negb (mem method [lit "GET"; lit "HEAD"]) then None
  else find_header "location" (HttpClient.response_headers response).

Definition redirect_destination (current : Url) (location : str) : result Url SandboxError :=
  match url_join current location with
  | None => Err (HttpError "invalid redirect location")
  | Some destination => if negb (scheme_is_admitted destination) then Err https_scheme_error else Ok destination
  end.

Definition hop_request (method : str) (body : option bytes) (timeout : option N) (u : Url) (headers : Headers)
    : HttpClient.HttpRequest :=
  {| HttpClient.request_url := url_to_string u; HttpClient.request_method := method;
     HttpClient.request_headers := headers; HttpClient.request_body := body;
     HttpClient.timeout_ms := timeout; HttpClient.max_redirects := Some 0%N |}.

Definition hop_status (outcome : result HttpResponse HttpClient.HttpError) : N :=
  match outcome with Ok resp => HttpClient.response_status resp | Err _ => 0%N end.

(** What follows a request: the end, or the next hop ([None]: no redirect is left). *)
Definition follow (again : option (Url -> Fetching HttpResponse)) (method operation_name : str) (redirects : nat)
    (current : Url) (outcome : result HttpResponse HttpClient.HttpError) : Fetching HttpResponse :=
  match outcome with
  | Err e => se_err (HttpError (url_to_string current ++ " — " ++ HttpClient.http_error_to_string e))
  | Ok response =>
      match redirect_location method response with
      | None => se_ret (finalize_response response (url_to_string current) redirects)
      | Some location =>
          match again with
          | None => se_err (HttpError ("redirect limit of " ++ dec (N.of_nat MAX_REDIRECTS) ++ " redirects exceeded"))
          | Some again =>
              let! destination := se_lift (redirect_destination current location) in
              let! _ := check_network_journaled (host_of destination) operation_name in
              again destination
          end
      end
  end.

(** [budget] redirects may still be followed, [redirects] have been. *)
Fixpoint fetch_loop (method : str) (body : option bytes) (operation_name : str) (timeout : option N)
    (budget redirects : nat) (current : Url) (hop_headers : Headers) : Fetching HttpResponse :=
  let! outcome := send (hop_request method body timeout current hop_headers) in
  let! _ := journal_http_request method (url_to_string current) (hop_status outcome) in
  follow (match budget with
          | O => None
          | S budget => Some (fun destination =>
              fetch_loop method body operation_name timeout budget (S redirects) destination (strip_credentials hop_headers))
          end) method operation_name redirects current outcome.

Definition fetch_http_inner (url method : str) (headers : Headers) (body : option bytes) (increment_turns : bool)
    (operation_name : str) (timeout : option N) : Fetching HttpResponse :=
  let parsed := url_parse url in
  let! _ := check_network_journaled (unwrap_or (parsed ≫= url_host_str) []) operation_name in
  let! _ := on_cell (if increment_turns then reserve_turn agent_id else check_turns_budget agent_id) in
  match parsed with
  | Some current =>
      if scheme_is_admitted current then
        fetch_loop method body operation_name timeout MAX_REDIRECTS 0 current headers
      else let! _ := journal_http_request method url 0 in se_err https_scheme_error
  | None => let! _ := journal_http_request method url 0 in se_err https_scheme_error
  end.

(** ** The ways in *)

(** [AgentCell::fetch_http]. *)
Definition fetch_http (url method : str) (headers : Headers) (body : option bytes) (timeout : option N)
    : Fetching HttpResponse :=
  fetch_http_inner url method headers body true "fetch_http" timeout.

(** [ShellHttpProxy] of [curl] and [wget]. *)
Record ShellHttpResponse := {
  shell_status : N;
  shell_status_text : str;
  shell_headers : Headers;
  shell_body : bytes;
  shell_url : str;
}.

Variant ShellHttpError :=
| ShellCapabilityDenied (msg : str)
| ShellBudgetExhausted (msg : str)
| ShellNetworkError (msg : str)
| ShellTimeout.

Definition sandbox_error_to_shell_http_error (err : SandboxError) : ShellHttpError :=
  match err with
  | DeniedByCapability denied => ShellCapabilityDenied (capability_denied_to_string denied)
  | OverBudget exhausted => ShellBudgetExhausted (budget_exhausted_to_string exhausted)
  | HttpError msg => ShellNetworkError msg
  | other => ShellNetworkError (sandbox_error_to_string other)
  end.

Definition shell_http_execute (url method : str) (headers : Headers) (body : option bytes) (timeout : option N)
    : SE NetCell ShellHttpError ShellHttpResponse :=
  let! resp := se_map_err sandbox_error_to_shell_http_error
    (fetch_http_inner url method headers body true "shell_http" timeout) in
  se_ret {| shell_status := HttpClient.response_status resp; shell_status_text := HttpClient.status_text resp;
            shell_headers := HttpClient.response_headers resp; shell_body := HttpClient.response_body resp;
            shell_url := HttpClient.response_url resp |}.

(** [ModuleFetcher] of the script engine; a registered stub needs the same checks. *)
Definition module_fetch (stubs : gmap str str) (url : str) : SE NetCell str str :=
  match stubs !! url with
  | Some source =>
      se_map_err sandbox_error_to_string
        (let! _ := check_network_journaled (unwrap_or (extract_host url) []) "module_fetch" in
         let! _ := on_cell (check_turns_budget agent_id) in
         let! _ := journal_http_request "GET" url 200 in
         se_ret source)
  | None =>
      let! response := se_map_err sandbox_error_to_string
        (fetch_http_inner url "GET" [] None false "module_fetch" None) in
      se_lift (map_err (fun e => "module response is not valid UTF-8: " ++ utf8_error_to_string e)
        (from_utf8 (HttpClient.response_body response)))
  end.

(** [FetchProxy] of the script's [fetch]. *)
Record FetchResponse := {
  fetch_status : N;
  fetch_status_text : str;
  fetch_headers : Headers;
  fetch_body : bytes;
  fetch_url : str;
  fetch_redirected : bool;
}.

Variant FetchError :=
| FetchCapabilityDenied (msg : str)
| FetchBudgetExhausted (msg : str)
| FetchNetworkError (msg : str)
| FetchTimeout
| FetchAborted (msg : str).

Definition sandbox_error_to_fetch_error (err : SandboxError) : FetchError :=
  match err with
  | DeniedByCapability denied => FetchCapabilityDenied (capability_denied_to_string denied)
  | OverBudget exhausted => FetchBudgetExhausted (budget_exhausted_to_string exhausted)
  | HttpError msg => FetchNetworkError msg
  | other => FetchNetworkError (sandbox_error_to_string other)
  end.

(** The injected headers, where the script has not given one of the same name. *)
Fixpoint inject (all_headers injected : Headers) : Headers :=
  match injected with
  | [] => all_headers
  | (k, v) :: injected =>
      inject (if existsb (fun '(hk, _) => eq_ignore_ascii_case hk k) all_headers then all_headers
              else all_headers ++ [(k, v)]) injected
  end.

Definition proxy_headers (registry : option Integration.IntegrationRegistry) (tenant_integrations : list str)
    (url : str) (headers : Headers) : result Headers FetchError :=
  match registry with
  | None => Ok headers
  | Some registry =>
      match Integration.inject_headers_sync url tenant_integrations registry with
      | Ok (Some injected) => Ok (inject headers injected)
      | Ok None => Ok headers
      | Err e => Err (FetchNetworkError ("integration credential error: " ++ Integration.integration_error_to_string e))
      end
  end.

Definition proxy_fetch (registry : option Integration.IntegrationRegistry) (tenant_integrations : list str)
    (url method : str) (headers : Headers) (body : option bytes) (timeout : option N)
    : SE NetCell FetchError FetchResponse :=
  let! all_headers := se_lift (proxy_headers registry tenant_integrations url headers) in
  let! resp := se_map_err sandbox_error_to_fetch_error
    (fetch_http_inner url method all_headers body false "fetch_http" timeout) in
  se_ret {| fetch_status := HttpClient.response_status resp; fetch_status_text := HttpClient.status_text resp;
            fetch_headers := HttpClient.response_headers resp; fetch_body := HttpClient.response_body resp;
            fetch_url := HttpClient.response_url resp; fetch_redirected := HttpClient.redirected resp |}.
End Agent.
End Fetch.

(** ** What is sent *)

(** A client that also keeps what it is asked and what it answers. *)
Abbreviation Sent := (list (HttpClient.HttpRequest * result HttpResponse HttpClient.HttpError)).
#[export] Instance recorded {Client} `{HttpClient.HttpClient Client} : HttpClient.HttpClient (Client * Sent) := fun c r =>
  let '(client, outcome) := HttpClient.http_execute (fst c) r in ((client, snd c ++ [(r, outcome)]), outcome).

Section Chains.
Context {Url : Type} `{UrlOps Url} (capability : CapabilityToken) (method : str) (body : option bytes) (timeout : option N).

Abbreviation request := (hop_request method body timeout).

Definition admitted (u : Url) : Prop :=
  scheme_is_admitted u = true /\ check_network capability (host_of u) = Ok tt.

(** The chains of requests the sandbox may send: the first to an admitted URL, each further one to where the
    redirect before it points, if that is admitted too, and without the credentials. *)
Inductive chain : Url -> Headers -> Sent -> Prop :=
| chain_end u headers outcome : admitted u -> chain u headers [(request u headers, outcome)]
| chain_hop u headers response location destination rest :
    admitted u -> redirect_location method response = Some location ->
    url_join u location = Some destination -> chain destination (strip_credentials headers) rest ->
    chain u headers ((request u headers, Ok response) :: rest).

Lemma strip_idem h : strip_credentials (strip_credentials h) = strip_credentials h.
Proof.
  unfold strip_credentials. induction h as [|[n v] h IH]; cbn; [done|].
  destruct (is_credential_header n) eqn:E; cbn; [done|]. rewrite E. cbn. by rewrite IH.
Qed.

(** Every request of a chain goes to an admitted URL and leaves redirects to the sandbox; only the first
    carries credentials. *)
Lemma chain_requests u headers log : chain u headers log ->
  forall i r o, log !! i = Some (r, o) ->
    exists v, admitted v /\ r = request v (if (i =? 0)%nat then headers else strip_credentials headers).
Proof.
  induction 1 as [u h o Ha|u h resp loc d rest Ha Hl Hj _ IH]; intros i r o' Hi.
  - destruct i; [|done]. injection Hi as <- <-. by exists u.
  - destruct i as [|i]; [injection Hi as <- <-; by exists u|]. destruct (IH i r o' Hi) as (v & Hv & ->).
    exists v. split; [done|]. cbn. destruct (i =? 0)%nat; [done|]. by rewrite strip_idem.
Qed.
End Chains.

Section Requests.
Context {V J Value Decimal Url Client : Type} `{VirtualFs V} `{JournalStorage Value Decimal J}
  `{UrlOps Url} `{HttpClient.HttpClient Client} (agent_id : str) (capability : CapabilityToken).
Abbreviation St := (@NetCell V J Decimal (Client * Sent)).

Lemma on_cell_client {C A} (m : SE (Cell V J Decimal) SandboxError A) (s : @NetCell V J Decimal C) :
  net_client (fst (on_cell m s)) = net_client s /\ net_cell (fst (on_cell m s)) = fst (m (net_cell s)) /\
  snd (on_cell m s) = snd (m (net_cell s)).
Proof. unfold on_cell. by destruct (m (net_cell s)). Qed.

Lemma journal_try_ok (kind : JournalEntryKind Value) (c : Cell V J Decimal) : snd (journal_try agent_id kind c) = Ok tt.
Proof. unfold journal_try, se_try, se_bind. by destruct (journal_put agent_id kind c). Qed.

Lemma journal_http_request_ok {C} method url status (s : @NetCell V J Decimal C) :
  exists s', journal_http_request agent_id method url status s = (s', Ok tt) /\ net_client s' = net_client s.
Proof.
  unfold journal_http_request.
  destruct (on_cell_client (journal_try agent_id (HttpRequest method url status)) s) as (Ec & _ & Er).
  rewrite journal_try_ok in Er. destruct (on_cell _ s) as [s' r]. cbn in *. subst r. by exists s'.
Qed.

Lemma check_denied d op (c : Cell V J Decimal) :
  exists c', check_and_journal_capability agent_id (Err d) op c = (c', Err (DeniedByCapability d)).
Proof.
  cbn. unfold se_bind, journal_denial. rewrite (surjective_pairing (journal_try _ _ c)), journal_try_ok. by eexists.
Qed.

Lemma check_network_cases {C} host op (s : @NetCell V J Decimal C) :
  (check_network capability host = Ok tt /\ check_network_journaled agent_id capability host op s = (s, Ok tt)) \/
  (exists s' d, check_network_journaled agent_id capability host op s = (s', Err (DeniedByCapability d)) /\
     net_client s' = net_client s).
Proof.
  unfold check_network_journaled, on_cell. destruct (check_network capability host) as [[]|d]; [left; by destruct s|].
  right. destruct (check_denied d op (net_cell s)) as [c' ->]. by eexists _, d.
Qed.

Lemma send_recorded r (s : St) : exists client o,
  send r s = ({| net_cell := net_cell s; net_client := (client, snd (net_client s) ++ [(r, o)]) |}, Ok o).
Proof.
  unfold send, HttpClient.http_execute, recorded. destruct (HttpClient.http_execute _ r) as [client o]. by eexists _, _.
Qed.

(** One round of the loop: a request, its entry in the journal, and what follows. *)
Lemma fetch_loop_round {C} `{HttpClient.HttpClient C} method body op timeout budget redirects u headers (s : @NetCell V J Decimal C) :
  exists s1 o s2, send (hop_request method body timeout u headers) s = (s1, Ok o) /\
    journal_http_request agent_id method (url_to_string u) (hop_status o) s1 = (s2, Ok tt) /\
    net_client s2 = net_client s1 /\
    fetch_loop agent_id capability method body op timeout budget redirects u headers s =
    follow agent_id capability (match budget with
          | O => None
          | S budget => Some (fun destination =>
              fetch_loop agent_id capability method body op timeout budget (S redirects) destination (strip_credentials headers))
          end) method op redirects u o s2.
Proof.
  assert (exists s1 o, send (hop_request method body timeout u headers) s = (s1, Ok o)) as (s1 & o & E).
  { unfold send. destruct (HttpClient.http_execute _ _) as [c o]. by eexists _, _. }
  destruct (journal_http_request_ok method (url_to_string u) (hop_status o) s1) as (s2 & E2 & Ec).
  exists s1, o, s2. split_and!; [done..|]. destruct budget; cbn [fetch_loop]; by rewrite (bind_step _ _ _ _ _ E), (bind_step _ _ _ _ _ E2).
Qed.

(** The loop sends a chain, never more than the redirects left and one. *)
Lemma fetch_loop_chain method body op timeout budget : forall redirects u headers (s : St),
  admitted capability u ->
  exists log, snd (net_client (fst (fetch_loop agent_id capability method body op timeout budget redirects u headers s)))
      = snd (net_client s) ++ log /\ chain capability method body timeout u headers log /\ (length log <= S budget)%nat.
Proof.
  induction budget as [budget IH] using lt_wf_ind. intros redirects u headers s Ha.
  destruct (fetch_loop_round method body op timeout budget redirects u headers s) as (s1 & o & s2 & E & _ & Ec & ->).
  destruct (send_recorded (hop_request method body timeout u headers) s) as (client & o' & E'). rewrite E in E'.
  injection E' as -> ->. cbn in Ec.
  assert (forall r : result HttpResponse SandboxError, exists log, snd (net_client (fst (s2, r))) = snd (net_client s) ++ log /\
      chain capability method body timeout u headers log /\ (length log <= S budget)%nat) as Hend.
  { intros r. eexists. cbn [fst]. rewrite Ec. split_and!; [done|by apply chain_end|cbn; lia]. }
  unfold follow. destruct o' as [resp|e]; [|apply Hend]. destruct (redirect_location method resp) as [loc|] eqn:El; [|apply Hend].
  destruct budget as [|budget]; [apply Hend|]. unfold redirect_destination.
  destruct (url_join u loc) as [d|] eqn:Ej; [|apply Hend]. destruct (scheme_is_admitted d) eqn:Es; [|apply Hend].
  change (se_lift (if negb true then Err https_scheme_error else Ok d)) with (se_ret (St := St) (E := SandboxError) d).
  rewrite (bind_step _ _ _ s2 d) by done.
  destruct (check_network_cases (host_of d) op s2) as [[Hd Eo]|(s3 & dn & Eo & Ec3)].
  - rewrite (bind_step _ _ _ _ _ Eo).
    destruct (IH budget ltac:(lia) (S redirects) d (strip_credentials headers) s2 ltac:(by split)) as (log & -> & Hc & Hl).
    exists ((hop_request method body timeout u headers, Ok resp) :: log). rewrite Ec. cbn [snd].
    split_and!; [by rewrite <- app_assoc|by eapply chain_hop|cbn; lia].
  - unfold se_bind. rewrite Eo. cbn [fst]. rewrite Ec3. apply (Hend (Ok resp)).
Qed.

(** C13. What an agent sends over the network is authorized.  A fetch sends nothing, or the budget had room and
    the URL parsed and it sends a chain of at most six requests with the method and body given: each goes to
    an https URL (or a loopback one) whose host the token permits, each after the first to where the redirect
    before it points and without credential headers, and the client follows no redirect by itself. *)
Theorem fetch_requests_authorized url method headers body turns op timeout (s : St) :
  snd (net_client s) = [] ->
  let log := snd (net_client (fst (fetch_http_inner agent_id capability url method headers body turns op timeout s))) in
  let b := cell_budget (net_cell s) in
  log = [] \/
  exists u, url_parse url = Some u /\ over (max_turns b) (used_turns b) = false /\
    chain capability method body timeout u headers log /\ (length log <= 6)%nat /\
    forall i r o, log !! i = Some (r, o) -> exists v,
      scheme_is_admitted v = true /\ check_network capability (host_of v) = Ok tt /\
      r = hop_request method body timeout v (if (i =? 0)%nat then headers else strip_credentials headers).
Proof.
  intros Hs log b. subst log. unfold fetch_http_inner.
  destruct (check_network_cases (unwrap_or (url_parse url ≫= url_host_str) []) op s) as [[Hd Eo]|(s1 & dn & Eo & Ec)];
    [|left; unfold se_bind; rewrite Eo; cbn; by rewrite Ec].
  rewrite (bind_step _ _ _ _ _ Eo).
  set (turn := if turns then reserve_turn agent_id else check_turns_budget agent_id).
  destruct (on_cell_client turn s) as (Ec & _ & Er).
  assert (over (max_turns b) (used_turns b) = true -> exists e, snd (turn (net_cell s)) = Err e) as Hover.
  { intros Eb. subst turn b. unfold reserve_turn, check_turns_budget. destruct turns; rewrite Eb;
      unfold refuse_exhausted, journal_budget_exhaustion, se_bind; rewrite (surjective_pairing (journal_try _ _ _)), journal_try_ok; by eexists. }
  destruct (on_cell turn s) as [s1 [[]|e]] eqn:Et; cbn in Ec, Er;
    [rewrite (bind_step _ _ _ _ _ Et)|left; unfold se_bind; rewrite Et; cbn; by rewrite Ec].
  assert (forall m x st, snd (net_client (fst ((let! _ := journal_http_request agent_id m x st in
    se_err (A := HttpResponse) https_scheme_error) s1))) = []) as Hno.
  { intros m x st. destruct (journal_http_request_ok m x st s1) as (s2 & E2 & Ec2). rewrite (bind_step _ _ _ _ _ E2). cbn. by rewrite Ec2, Ec. }
  destruct (url_parse url) as [u|]; [|left; apply Hno]. destruct (scheme_is_admitted u) eqn:Ea; [|left; apply Hno].
  right. exists u. destruct (fetch_loop_chain method body op timeout MAX_REDIRECTS 0 u headers s1 ltac:(by split)) as (log & -> & Hc & Hl).
  rewrite Ec, Hs. cbn [app]. split_and!; [done| |done|done|].
  - destruct (over _ _) eqn:Eb; [|done]. destruct (Hover eq_refl) as [e Ee]. congruence.
  - intros i r o Hi. by destruct (chain_requests _ _ _ _ _ _ _ Hc i r o Hi) as (v & [? ?] & ->); exists v.
Qed.
End Requests.

(** ** The audit trail *)

Section Audit.
Context {V Value Decimal Url Client : Type} `{VirtualFs V} `{UrlOps Url} `{HttpClient.HttpClient Client}
  (to_vec : CheckpointData Value Decimal -> result str str) (agent_id : str) (capability : CapabilityToken).
Abbreviation Store := (@InMemoryJournalStorage Value).
#[local] Instance store : JournalStorage Value Decimal Store := memory_journal to_vec.
Abbreviation St := (@NetCell V Store Decimal (Client * Sent)).

(** The requests a journal records, and the record of a request sent. *)
Definition http_entry (e : JournalEntry Value) : option (str * str * N) :=
  match entry e with HttpRequest method url status => Some (method, url, status) | _ => None end.
Definition http_entries (j : Store) : list (str * str * N) := omap http_entry j.
Definition hop_entry (hop : HttpClient.HttpRequest * result HttpResponse HttpClient.HttpError) : str * str * N :=
  (HttpClient.request_method (fst hop), HttpClient.request_url (fst hop), hop_status (snd hop)).

Lemma journal_try_appends kind (c : Cell V Store Decimal) : exists e, entry e = kind /\
  cell_journal (fst (journal_try agent_id kind c)) = cell_journal c ++ [e].
Proof. unfold journal_try, se_bind, se_try, journal_put. cbn. by eexists {| entry := kind |}. Qed.

(** Computations on a cell that record no request. *)
Definition entries_are (x : list (str * str * N)) (c : Cell V Store Decimal) : Prop := http_entries (cell_journal c) = x.

Lemma journal_try_quiet x tool content is_error : preserves (entries_are x) (journal_try agent_id (tool_result tool content is_error)).
Proof.
  intros c Hc. destruct (journal_try_appends (tool_result tool content is_error) c) as (e & Ee & E).
  unfold entries_are, http_entries. rewrite E, omap_app. cbn. unfold http_entry at 2. by rewrite Ee, app_nil_r.
Qed.
Hint Resolve journal_try_quiet : keep.

Lemma check_quiet x check op : preserves (entries_are x) (check_and_journal_capability agent_id check op).
Proof. destruct check; cbn; unfold journal_denial; auto with keep. Qed.

Lemma turn_quiet x (turns : bool) : preserves (entries_are x) (if turns then reserve_turn agent_id else check_turns_budget agent_id).
Proof.
  assert (forall e, preserves (entries_are x) (refuse_exhausted agent_id e)) as Hr
    by (intros e; unfold refuse_exhausted, journal_budget_exhaustion; auto with keep).
  intros c Hc. unfold reserve_turn, check_turns_budget. destruct turns, (over _ _); try done; by apply Hr.
Qed.

(** The journal is [base] and then the requests sent. *)
Definition in_step_with (base : list (str * str * N)) (s : St) : Prop :=
  http_entries (cell_journal (net_cell s)) = base ++ List.map hop_entry (snd (net_client s)).

Lemma on_cell_in_step {A} base (m : SE (Cell V Store Decimal) SandboxError A) :
  (forall x, preserves (entries_are x) m) -> preserves (in_step_with base) (on_cell (Client := Client * Sent) m).
Proof.
  intros Hm s Hs. destruct (on_cell_client m s) as (Ec & El & _). unfold in_step_with. rewrite Ec, El.
  rewrite <- Hs. by apply Hm.
Qed.

Lemma check_network_in_step base host op : preserves (in_step_with base) (check_network_journaled agent_id capability host op).
Proof. apply on_cell_in_step. intros x. apply check_quiet. Qed.

Lemma journal_http_request_entries method url status (s : St) :
  http_entries (cell_journal (net_cell (fst (journal_http_request agent_id method url status s)))) =
  http_entries (cell_journal (net_cell s)) ++ [(method, url, status)].
Proof.
  unfold journal_http_request. destruct (on_cell_client (journal_try agent_id (HttpRequest method url status)) s) as (_ & -> & _).
  destruct (journal_try_appends (HttpRequest method url status) (net_cell s)) as (e & Ee & ->).
  unfold http_entries. rewrite omap_app. cbn. unfold http_entry at 2. by rewrite Ee.
Qed.

Lemma fetch_loop_in_step base method body op timeout budget : forall redirects u headers,
  preserves (in_step_with base) (fetch_loop (Client := Client * Sent) agent_id capability method body op timeout budget redirects u headers).
Proof.
  induction budget as [budget IH] using lt_wf_ind. intros redirects u headers s Hs.
  destruct (fetch_loop_round agent_id capability method body op timeout budget redirects u headers s) as (s1 & o & s2 & E & E2 & Ec & ->).
  destruct (send_recorded (hop_request method body timeout u headers) s) as (client & o' & E'). rewrite E in E'.
  injection E' as -> ->. cbn in Ec.
  assert (in_step_with base s2) as Hs2.
  { pose proof (journal_http_request_entries method (url_to_string u) (hop_status o')
      {| net_cell := net_cell s; net_client := (client, (net_client s).2 ++ [(hop_request method body timeout u headers, o')]) |}) as Ej.
    rewrite E2 in Ej. unfold in_step_with. rewrite Ec. cbn in *. rewrite Ej, Hs, List.map_app, app_assoc. done. }
  clear E2 Ec. revert s2 Hs2. change (preserves (in_step_with base) (follow agent_id capability (match budget with
    | O => None
    | S budget => Some (fun destination => fetch_loop agent_id capability method body op timeout budget (S redirects) destination (strip_credentials headers))
    end) method op redirects u o')).
  unfold follow. destruct o' as [resp|e]; [|auto with keep]. destruct (redirect_location _ _); [|auto with keep].
  destruct budget as [|budget]; [auto with keep|]. apply preserves_bind; [by intros s'|]. intros d.
  apply preserves_bind; [apply check_network_in_step|]. intros _. apply IH. lia.
Qed.

(** The journal and the network agree: a fetch adds to the journal exactly one HttpRequest entry for each
    request it sends, in order, with its method, its URL and the status that came back (0 for a failure), or,
    when it sends nothing because of the scheme, a single entry with the status 0 for the URL asked for. *)
Theorem requests_are_journaled url method headers body turns op timeout (s : St) :
  snd (net_client s) = [] ->
  let s' := fst (fetch_http_inner agent_id capability url method headers body turns op timeout s) in
  let log := snd (net_client s') in
  let before := http_entries (cell_journal (net_cell s)) in
  http_entries (cell_journal (net_cell s')) = before ++ List.map hop_entry log \/
  (log = [] /\ http_entries (cell_journal (net_cell s')) = before ++ [(method, url, 0%N)]).
Proof.
  intros Hs s' log before. subst log.
  assert (in_step_with before s) as Hin by (unfold in_step_with; rewrite Hs; cbn; by rewrite app_nil_r).
  subst s'. unfold fetch_http_inner.
  pose proof (check_network_in_step before (unwrap_or (url_parse url ≫= url_host_str) []) op s Hin) as H1'.
  set (check := check_network_journaled agent_id capability (unwrap_or (url_parse url ≫= url_host_str) []) op) in *.
  assert (snd (net_client (fst (check s))) = []) as Hc1.
  { subst check. unfold check_network_journaled. match goal with |- context [on_cell ?m s] => destruct (on_cell_client m s) as (-> & _ & _) end. done. }
  destruct (check s) as [s1 [[]|e]] eqn:E1; [rewrite (bind_step _ _ _ _ _ E1)|left; unfold se_bind; by rewrite E1].
  cbn in H1', Hc1. set (turn := if turns then reserve_turn agent_id else check_turns_budget agent_id).
  pose proof (on_cell_in_step before turn (fun x => turn_quiet x turns) s1 H1') as H2'.
  destruct (on_cell_client turn s1) as (Ec & _ & _).
  destruct (on_cell turn s1) as [s2 [[]|e]] eqn:E2; [rewrite (bind_step _ _ _ _ _ E2)|left; unfold se_bind; by rewrite E2].
  cbn in H2', Ec. rewrite <- Ec in Hc1.
  assert (forall (r : result HttpResponse SandboxError), let s3 := fst ((let! _ := journal_http_request agent_id method url 0 in
    se_lift r) s2) in snd (net_client s3) = [] /\ http_entries (cell_journal (net_cell s3)) = before ++ [(method, url, 0%N)]) as Hno.
  { intros r. destruct (journal_http_request_ok agent_id method url 0%N s2) as (s3 & E3 & Ec3). rewrite (bind_step _ _ _ _ _ E3). cbn.
    rewrite Ec3. split; [done|]. pose proof (journal_http_request_entries method url 0%N s2) as Ej. rewrite E3 in Ej. cbn in Ej.
    rewrite Ej. unfold in_step_with in H2'. rewrite H2', Hc1. cbn. by rewrite app_nil_r. }
  destruct (url_parse url) as [u|]; [|right; apply (Hno (Err _))]. destruct (scheme_is_admitted u); [|right; apply (Hno (Err _))].
  left. by apply fetch_loop_in_step.
Qed.
End Audit.

(** ** The script never learns a token *)

(** Headers with the same names, and requests and registries that agree but for the values. *)
Definition same_names : Headers -> Headers -> Prop := Forall2 (fun a b => a.1 = b.1).

Record same_but_values (r1 r2 : HttpClient.HttpRequest) : Prop := {
  sbv_url : HttpClient.request_url r1 = HttpClient.request_url r2;
  sbv_method : HttpClient.request_method r1 = HttpClient.request_method r2;
  sbv_headers : same_names (HttpClient.request_headers r1) (HttpClient.request_headers r2);
  sbv_body : HttpClient.request_body r1 = HttpClient.request_body r2;
  sbv_timeout : HttpClient.timeout_ms r1 = HttpClient.timeout_ms r2;
  sbv_redirects : HttpClient.max_redirects r1 = HttpClient.max_redirects r2;
}.

Definition same_but_token (c1 c2 : Integration.IntegrationCredential) : Prop :=
  Integration.config c1 = Integration.config c2 /\ Integration.degraded c1 = Integration.degraded c2 /\
  (Integration.cred_token c1 = [] <-> Integration.cred_token c2 = []).
Definition same_but_tokens (r1 r2 : Integration.IntegrationRegistry) : Prop :=
  Forall2 (fun a b => a.1 = b.1 /\ same_but_token a.2 b.2) (Integration.integrations r1) (Integration.integrations r2).

#[export] Instance same_names_refl : Reflexive same_names.
Proof. intros h. by apply Forall_Forall2_diag, Forall_true. Qed.

Lemma strip_same h1 h2 : same_names h1 h2 -> same_names (strip_credentials h1) (strip_credentials h2).
Proof.
  unfold strip_credentials. induction 1 as [|[n1 v1] [n2 v2] h1 h2 E _ IH]; cbn; [constructor|].
  cbn in E. subst n2. destruct (is_credential_header n1); cbn; [done|by constructor].
Qed.

Lemma inject_same i1 i2 : same_names i1 i2 -> forall h1 h2, same_names h1 h2 -> same_names (inject h1 i1) (inject h2 i2).
Proof.
  induction 1 as [|[n1 v1] [n2 v2] i1 i2 E _ IH]; intros h1 h2 Hh; cbn [inject]; [done|]. cbn in E. subst n2.
  apply IH. assert (existsb (fun '(hk, _) => eq_ignore_ascii_case hk n1) h1 = existsb (fun '(hk, _) => eq_ignore_ascii_case hk n1) h2) as ->.
  { induction Hh as [|[m1 w1] [m2 w2] h1 h2 E _ IHh]; cbn; [done|]. cbn in E. subst m2. by rewrite IHh. }
  destruct (existsb _ h2); [done|]. apply Forall2_app; [done|]. by constructor.
Qed.

Lemma auth_headers_same a t1 t2 : same_names (Integration.auth_headers a t1) (Integration.auth_headers a t2).
Proof.
  destruct a as [| k p]; cbn; [by repeat constructor|]. unfold Integration.parse_api_key_headers.
  destruct (strip_prefix _ p); by repeat constructor.
Qed.

Lemma proxy_headers_same r1 r2 tenants url headers : option_Forall2 same_but_tokens r1 r2 ->
  same_result same_names (proxy_headers r1 tenants url headers) (proxy_headers r2 tenants url headers).
Proof.
  intros [g1 g2 Hg|]; [|apply same_names_refl]. unfold proxy_headers, Integration.inject_headers_sync.
  destruct g1 as [l1 t1], g2 as [l2 t2]. unfold same_but_tokens in Hg. cbn in *. clear t1 t2.
  induction Hg as [|[n1 c1] [n2 c2] l1 l2 [En [Ec [Ed Et]]] _ IH]; cbn [Integration.inject_loop]; [apply same_names_refl|].
  cbn in En, Ec, Ed, Et. subst n2. rewrite Ec, Ed. destruct (negb _); [done|]. destruct (negb _); [done|].
  destruct (Integration.degraded c2); [done|].
  destruct (str_eqb (Integration.cred_token c1) []) eqn:E1, (str_eqb (Integration.cred_token c2) []) eqn:E2; bools; try done; [by tauto..|].
  cbn. apply inject_same; [apply auth_headers_same|apply same_names_refl].
Qed.

Section Secrecy.
Context {V J Value Decimal Url Client : Type} `{VirtualFs V} `{JournalStorage Value Decimal J}
  `{UrlOps Url} `{HttpClient.HttpClient Client} (agent_id : str) (capability : CapabilityToken).
Context (R : Client -> Client -> Prop)
  (alike : forall c1 c2 r1 r2, R c1 c2 -> same_but_values r1 r2 ->
     R (fst (HttpClient.http_execute c1 r1)) (fst (HttpClient.http_execute c2 r2)) /\
     snd (HttpClient.http_execute c1 r1) = snd (HttpClient.http_execute c2 r2)).

Definition same_cell (s1 s2 : @NetCell V J Decimal Client) : Prop :=
  net_cell s1 = net_cell s2 /\ R (net_client s1) (net_client s2).

Lemma on_cell_same {A} (m : SE (Cell V J Decimal) SandboxError A) : in_step same_cell eq (on_cell m) (on_cell m).
Proof.
  intros s1 s2 [E Hr]. unfold on_cell. rewrite E. destruct (m (net_cell s2)) as [c r]. by destruct r.
Qed.

Lemma send_same r1 r2 : same_but_values r1 r2 -> in_step same_cell eq (send r1) (send r2).
Proof.
  intros Hr s1 s2 [E Hc]. unfold send. destruct (alike _ _ _ _ Hc Hr) as [HR Ho].
  destruct (HttpClient.http_execute (net_client s1) r1), (HttpClient.http_execute (net_client s2) r2). by cbn in *.
Qed.

Lemma follow_same again1 again2 method op redirects u o : option_Forall2 (fun k1 k2 => forall d, in_step same_cell eq (k1 d) (k2 d)) again1 again2 ->
  in_step same_cell eq (follow agent_id capability again1 method op redirects u o) (follow agent_id capability again2 method op redirects u o).
Proof.
  intros Ha. unfold follow. destruct o as [resp|e]; [|apply step_err]. destruct (redirect_location _ _); [|by apply step_ret].
  destruct Ha as [k1 k2 Hk|]; [|apply step_err]. eapply step_bind; [apply (step_lift _ eq); by destruct (redirect_destination _ _)|].
  intros d ? <-. eapply step_bind; [apply on_cell_same|]. intros. apply Hk.
Qed.

Lemma fetch_loop_same method body op timeout budget : forall redirects u h1 h2, same_names h1 h2 ->
  in_step same_cell eq (fetch_loop agent_id capability method body op timeout budget redirects u h1)
    (fetch_loop agent_id capability method body op timeout budget redirects u h2).
Proof.
  induction budget as [|budget IH]; intros redirects u h1 h2 Hh; cbn [fetch_loop];
    (eapply step_bind; [by apply send_same|]); intros o ? <-; (eapply step_bind; [apply on_cell_same|]); intros _ _ _;
    apply follow_same; constructor. intros d. by apply IH, strip_same.
Qed.

Lemma fetch_http_inner_same url method h1 h2 body turns op timeout : same_names h1 h2 ->
  in_step same_cell eq (fetch_http_inner agent_id capability url method h1 body turns op timeout)
    (fetch_http_inner agent_id capability url method h2 body turns op timeout).
Proof.
  intros Hh. unfold fetch_http_inner. eapply step_bind; [apply on_cell_same|]. intros _ _ _.
  eapply step_bind; [apply on_cell_same|]. intros _ _ _.
  assert (forall m x st, in_step same_cell (@eq HttpResponse) (let! _ := journal_http_request agent_id m x st in se_err https_scheme_error)
    (let! _ := journal_http_request agent_id m x st in se_err https_scheme_error)) as Hno
    by (intros; eapply step_bind; [apply on_cell_same|intros; apply step_err]).
  destruct (url_parse url) as [u|]; [|apply Hno]. destruct (scheme_is_admitted u); [by apply fetch_loop_same|apply Hno].
Qed.
End Secrecy.

Section Learns.
Context {V J Value Decimal Url Client : Type} `{VirtualFs V} `{JournalStorage Value Decimal J}
  `{UrlOps Url} `{HttpClient.HttpClient Client} (agent_id : str) (capability : CapabilityToken) (R : Client -> Client -> Prop).

(** A script learns nothing of the tokens that are injected into its requests.  Over clients that answer
    alike to requests that differ only in the values of headers, two registries that agree but for their
    tokens give the same outcome of [fetch], the same files, budget and journal. *)
Theorem script_learns_no_token registry1 registry2 tenants url method headers body timeout (s1 s2 : @NetCell V J Decimal Client) :
  (forall c1 c2 r1 r2, R c1 c2 -> same_but_values r1 r2 ->
     R (fst (HttpClient.http_execute c1 r1)) (fst (HttpClient.http_execute c2 r2)) /\
     snd (HttpClient.http_execute c1 r1) = snd (HttpClient.http_execute c2 r2)) ->
  option_Forall2 same_but_tokens registry1 registry2 ->
  net_cell s1 = net_cell s2 -> R (net_client s1) (net_client s2) ->
  let run registry s := proxy_fetch agent_id capability registry tenants url method headers body timeout s in
  snd (run registry1 s1) = snd (run registry2 s2) /\
  net_cell (fst (run registry1 s1)) = net_cell (fst (run registry2 s2)).
Proof.
  intros alike Hg Ec HR run. assert (in_step (same_cell R) eq (run registry1) (run registry2)) as Hi.
  { unfold run, proxy_fetch. eapply step_bind; [by apply step_lift, proxy_headers_same|]. intros h1 h2 Hh.
    eapply step_bind; [by apply step_map_err, (fetch_http_inner_same agent_id capability R alike)|].
    intros resp ? <-. by apply step_ret. }
  destruct (Hi s1 s2) as [[E _] Hr]; [done|]. split; [|done].
  destruct (snd (run registry1 s1)), (snd (run registry2 s2)); cbn in Hr; by subst.
Qed.
End Learns.

(** ** A concrete network

    A URL is its text, a host its authority, and a redirect is absolute.  The API of
    [Integration.ex_registry] redirects to another host, which answers. *)
Section Examples.

#[local] Instance text_url : UrlOps str := {|
  url_parse := fun s => if str_eqb (Integration.url_authority s) [] then None else Some s;
  url_scheme := fun u => match split_once_str "://" u with Some (scheme, _) => scheme | None => [] end;
  url_host := fun u => Some (Domain (Integration.url_authority u));
  url_host_str := fun u => Some (Integration.url_authority u);
  url_to_string := fun u => u;
  url_join := fun _ location => if str_eqb (Integration.url_authority location) [] then None else Some location;
|}.

Definition ex_response (status : N) (headers : Headers) (content : str) : HttpResponse :=
  {| HttpClient.response_status := status; HttpClient.status_text := []; HttpClient.response_headers := headers;
     HttpClient.response_body := content; HttpClient.response_url := []; HttpClient.redirected := false |}.

#[local] Instance ex_web : HttpClient.HttpClient unit := fun _ r =>
  (tt, if str_eqb (Integration.url_authority (HttpClient.request_url r)) "api.example.com" then
         Ok (ex_response 302 [(lit "Location", lit "https://other.example.net/landing")] [])
       else Ok (ex_response 200 [] "hello")).

#[local] Instance ex_store : JournalStorage unit N (list (JournalEntry unit)) := memory_journal (fun _ => Err []).

Definition ex_net_token : CapabilityToken :=
  {| network := [lit "net:api.example.com"; lit "net:other.example.net"]; mcp_tools := []; shell := false;
     javascript := true; python := false; paths_write := []; paths_read := []; spawn_placements := [];
     skill_patterns := []; memory := empty_memory |}.

Definition ex_net_budget (turns : N) : ResourceBudget N :=
  {| max_tokens := 0; max_turns := 3; max_cost := 0%N; max_sub_agents := 0; max_vfs_bytes := 0;
     used_tokens := 0; used_turns := turns; used_cost := 0%N; used_sub_agents := 0; used_vfs_bytes := 0;
     max_fuel := 0; used_fuel := 0 |}.

Definition ex_net_cell : @NetCell unit (list (JournalEntry unit)) N (unit * Sent) :=
  {| net_cell := {| cell_vfs := tt; cell_budget := ex_net_budget 1; cell_journal := [] |}; net_client := (tt, []) |}.

Definition ex_headers : Headers := [(lit "Authorization", lit "Bearer mine"); (lit "Accept", lit "*/*")].

Abbreviation ex_fetch s := (fetch_http (Value := unit) "agent" ex_net_token "https://api.example.com/v1" "GET" ex_headers None None s).

Lemma fetch_requests_authorized_witness :
  let log := snd (net_client (fst (ex_fetch ex_net_cell))) in
  List.map (fun hop => (HttpClient.request_url (fst hop), HttpClient.request_headers (fst hop))) log =
    [(lit "https://api.example.com/v1", ex_headers); (lit "https://other.example.net/landing", [(lit "Accept", lit "*/*")])] /\
  exists u, chain ex_net_token "GET" None None u ex_headers log.
Proof.
  split; [vm_compute; reflexivity|].
  destruct (fetch_requests_authorized (Value := unit) "agent" ex_net_token "https://api.example.com/v1" "GET" ex_headers None true
    "fetch_http" None ex_net_cell eq_refl) as [E|(u & _ & _ & Hc & _)]; [vm_compute in E; discriminate E|].
  exists u. exact Hc.
Defined.

Lemma requests_are_journaled_witness :
  http_entries (cell_journal (net_cell (fst (ex_fetch ex_net_cell)))) =
    [(lit "GET", lit "https://api.example.com/v1", 302%N); (lit "GET", lit "https://other.example.net/landing", 200%N)] /\
  http_entries (cell_journal (net_cell (fst (ex_fetch ex_net_cell)))) =
    List.map hop_entry (snd (net_client (fst (ex_fetch ex_net_cell)))).
Proof.
  split; [vm_compute; reflexivity|].
  destruct (requests_are_journaled (Decimal := N) (fun _ => Err []) "agent" ex_net_token "https://api.example.com/v1" "GET" ex_headers None true
    "fetch_http" None ex_net_cell eq_refl) as [E|[E _]]; [exact E|vm_compute in E; discriminate E].
Defined.

(** The registry of [Integration], and the same with another key. *)
Definition ex_rekeyed : Integration.IntegrationRegistry :=
  {| Integration.integrations := List.map (fun '(n, c) => (n, Integration.set_refresh
       (if str_eqb (Integration.cred_token c) [] then [] else lit "another key") None false 0 c))
       (Integration.integrations Integration.ex_registry);
     Integration.refresh_handles := [] |}.

Abbreviation ex_script registry s := (proxy_fetch (Value := unit) (J := list (JournalEntry unit)) (V := unit) (Decimal := N)
  "agent" ex_net_token (Some registry) [lit "api"] "https://api.example.com/v1" "GET" [] None None s).

Definition ex_plain_cell : @NetCell unit (list (JournalEntry unit)) N unit :=
  {| net_cell := net_cell ex_net_cell; net_client := tt |}.

Lemma script_learns_no_token_witness :
  Integration.inject_headers_sync "https://api.example.com/v1" [lit "api"] ex_rekeyed <>
    Integration.inject_headers_sync "https://api.example.com/v1" [lit "api"] Integration.ex_registry /\
  snd (ex_script Integration.ex_registry ex_plain_cell) = snd (ex_script ex_rekeyed ex_plain_cell).
Proof.
  split; [vm_compute; discriminate|].
  assert (option_Forall2 same_but_tokens (Some Integration.ex_registry) (Some ex_rekeyed)) as Hg.
  { constructor. vm_compute. repeat constructor; intros E; discriminate E || reflexivity. }
  assert (forall (c1 c2 : unit) r1 r2, c1 = c2 -> same_but_values r1 r2 ->
     fst (HttpClient.http_execute c1 r1) = fst (HttpClient.http_execute c2 r2) /\
     snd (HttpClient.http_execute c1 r1) = snd (HttpClient.http_execute c2 r2)) as Ha.
  { intros c1 c2 r1 r2 _ []. split; [reflexivity|]. unfold HttpClient.http_execute, ex_web. cbn. by rewrite sbv_url0. }
  destruct (script_learns_no_token (Value := unit) "agent" ex_net_token eq (Some Integration.ex_registry) (Some ex_rekeyed)
    [lit "api"] "https://api.example.com/v1" "GET" [] None None ex_plain_cell ex_plain_cell Ha Hg eq_refl eq_refl) as [E _].
  exact E.
Defined.

(** An injected key that is not one of the credential headers rides the redirect to the other host. *)
Example api_key_rides_redirect :
  List.map (fun hop => (HttpClient.request_url (fst hop), HttpClient.request_headers (fst hop)))
    (snd (net_client (fst (ex_script Integration.ex_registry ex_net_cell)))) =
  [(lit "https://api.example.com/v1", [(lit "X-Api-Key", lit "value of API_KEY")]);
   (lit "https://other.example.net/landing", [(lit "X-Api-Key", lit "value of API_KEY")])].
Proof. vm_compute. reflexivity. Qed.
End Examples.
