(* ===== verification/Mutations.v ===== *)
(** * Batched mutations through the sandbox

    Models [crates/simulacra-sandbox/src/vfs_mutation.rs], [vfs_batch.rs], [vfs_state.rs] and
    [vfs_mutation_journal.rs]: a batch is checked against the capability, charged to the byte
    budget, prepared (its preconditions validated and pinned to revisions), journaled, and committed
    as one atomic batch of the filesystem, or item by item with rollback where the filesystem has no
    atomic batches. *)

From S2P Require Import Prelude.
From S2P Require Import Capability.
From S2P Require Import Vfs.
From S2P Require Import Context.
From S2P Require Import Budget.
From S2P Require Import Journal.
From S2P Require Import Guards.

(** ** Data *)

Variant VfsWritePrecondition := Any | Missing | Matches (expected : bytes).

Variant VfsMutation :=
| MWrite (path : str) (data : bytes) (precondition : VfsWritePrecondition)
| MDelete (path : str)
| MMove (from to : str)
| MMoveAndWrite (from to : str) (data : bytes) (from_precondition : option bytes).

Variant PreparedVfsMutation :=
| PWrite (path : str) (data : bytes)
| PDelete (path : str)
| PMove (from to : str) (data : bytes)
| PMoveAndWrite (from to : str) (data : bytes).

Variant VfsPathState := StateMissing | StateFile (data : bytes) | StateDir.

Record VfsRollbackEntry := { rb_path : str; before : VfsPathState; rb_expected_after : VfsPathState }.
Record VfsRollbackExpectation := { ex_path : str; expected_after : VfsPathState }.

Record Prepared := {
  rollback : list VfsRollbackExpectation;
  parent_dirs : list str;
  mutations : list PreparedVfsMutation;
  batch : list FsMutation;
}.

Definition no_mutation : Prepared :=
  {| rollback := []; parent_dirs := []; mutations := []; batch := [] |}.

(** The paths above a path, from the top. *)
Fixpoint path_loop (segments : list str) (current : str) : list str :=
  match segments with
  | [] => []
  | segment :: rest =>
      let current := current ++ "/" ++ segment in current :: path_loop rest current
  end.

Definition parent_paths (path : str) : list str :=
  match rposition (Ascii.eqb "/") path with
  | None => []
  | Some i =>
      let parent := firstn i path in
      let parent := if str_eqb parent [] then lit "/" else parent in
      path_loop (List.filter (fun segment => negb (str_eqb segment [])) (split_on "/" parent)) []
  end.

Fixpoint upsert_rollback_expectation (expectations : list VfsRollbackExpectation) (path : str)
    (after : VfsPathState) : list VfsRollbackExpectation :=
  match expectations with
  | [] => [{| ex_path := path; expected_after := after |}]
  | e :: rest =>
      if str_eqb (ex_path e) path then {| ex_path := ex_path e; expected_after := after |} :: rest
      else e :: upsert_rollback_expectation rest path after
  end.

Section Mutations.
Context {V J Value Decimal : Type} `{VirtualFs V} `{JournalStorage Value Decimal J}.
Context (agent_id : str) (capability : CapabilityToken).
Abbreviation Cell := (Cell V J Decimal).
Abbreviation Op := (SE Cell SandboxError).

(** ** State queries ([vfs_state.rs]) *)

Definition ensure_vfs_path_missing (v : V) (path : str) : result unit SandboxError :=
  if vfs_exists v path then Err (VfsFailed (AlreadyExists path)) else Ok tt.

Fixpoint parents_are_directories (v : V) (parents : list str) : result unit SandboxError :=
  match parents with
  | [] => Ok tt
  | parent :: rest =>
      match vfs_metadata v parent with
      | Ok metadata =>
          if is_file metadata then Err (VfsFailed (NotADirectory parent))
          else parents_are_directories v rest
      | Err (NotFound _) => parents_are_directories v rest
      | Err err => Err (VfsFailed err)
      end
  end.

Definition ensure_parent_components_are_directories (v : V) (path : str) : result unit SandboxError :=
  parents_are_directories v (parent_paths path).

Definition validate_file_matches (v : V) (path : str) (expected : bytes) : result unit SandboxError :=
  let? metadata := map_err VfsFailed (vfs_metadata v path) in
  if negb (is_file metadata) then Err (VfsFailed (NotAFile path))
  else
    let? current := map_err VfsFailed (vfs_read v path) in
    if negb (str_eqb current expected)
    then Err (VfsFailed (Io ("stale write precondition failed for " ++ path)))
    else Ok tt.

Definition validate_write_precondition (v : V) (path : str) (p : VfsWritePrecondition)
    : result unit SandboxError :=
  match p with
  | Any =>
      match vfs_metadata v path with
      | Ok metadata => if is_dir metadata then Err (VfsFailed (NotAFile path)) else Ok tt
      | Err _ => Ok tt
      end
  | Missing => ensure_vfs_path_missing v path
  | Matches expected => validate_file_matches v path expected
  end.

Definition require_file (v : V) (path : str) : result unit SandboxError :=
  let? metadata := map_err VfsFailed (vfs_metadata v path) in
  if negb (is_file metadata) then Err (VfsFailed (NotAFile path)) else Ok tt.

Definition record_missing_parent_dirs (v : V) (path : str) (created : list str) : list str :=
  foldl (fun created parent =>
           if negb (vfs_exists v parent) && negb (mem parent created) then created ++ [parent]
           else created) created (parent_paths path).

Fixpoint capture_vfs_rollback_entries (v : V) (expectations : list VfsRollbackExpectation)
    : result (list VfsRollbackEntry) VfsError :=
  match expectations with
  | [] => Ok []
  | e :: rest =>
      let path := ex_path e in
      let? state :=
        match vfs_metadata v path with
        | Ok metadata =>
            if is_file metadata then let? data := vfs_read v path in Ok (StateFile data)
            else if is_dir metadata then Ok StateDir
            else Ok StateMissing
        | Err (NotFound _) => Ok StateMissing
        | Err err => Err err
        end in
      let? entries := capture_vfs_rollback_entries v rest in
      Ok ({| rb_path := path; before := state; rb_expected_after := expected_after e |} :: entries)
  end.

Definition vfs_path_matches_state (v : V) (path : str) (expected : VfsPathState) : result bool VfsError :=
  match expected with
  | StateMissing => Ok (negb (vfs_exists v path))
  | StateFile expected_data =>
      match vfs_metadata v path with
      | Ok metadata =>
          if is_file metadata then let? data := vfs_read v path in Ok (str_eqb data expected_data)
          else Ok false
      | Err (NotFound _) => Ok false
      | Err err => Err err
      end
  | StateDir =>
      match vfs_metadata v path with
      | Ok metadata => Ok (is_dir metadata)
      | Err (NotFound _) => Ok false
      | Err err => Err err
      end
  end.

Definition restore_entry (e : VfsRollbackEntry) : SE V VfsError unit := fun v =>
  match vfs_path_matches_state v (rb_path e) (rb_expected_after e) with
  | Err err => (v, Err err)
  | Ok false => (v, Ok tt)
  | Ok true =>
      match before e with
      | StateMissing => if vfs_exists v (rb_path e) then vfs_remove v (rb_path e) else (v, Ok tt)
      | StateFile data => vfs_write v (rb_path e) data
      | StateDir => vfs_mkdir v (rb_path e)
      end
  end.

Definition remove_if_empty (path : str) : SE V VfsError unit := fun v =>
  match vfs_list_dir v path with
  | Ok [] => vfs_remove v path
  | _ => (v, Ok tt)
  end.

Definition restore_vfs_path_states (states : list VfsRollbackEntry) (created_parent_dirs : list str)
    : SE V VfsError unit :=
  let! _ := se_for (rev states) restore_entry in se_for (rev created_parent_dirs) remove_if_empty.

(** ** The atomic batch ([vfs_batch.rs]) *)

Definition revision_or_unconditional (v : V) (path : str) : result Precondition SandboxError :=
  let? metadata := map_err VfsFailed (vfs_metadata v path) in
  Ok match revision metadata with Some r => MustMatch r | None => Unconditional end.

Definition batch_items (v : V) (m : VfsMutation) : result (list FsMutation) SandboxError :=
  match m with
  | MWrite path data precondition =>
      let? precondition :=
        match precondition with
        | Any => Ok Unconditional
        | Missing => Ok MustBeAbsent
        | Matches _ => revision_or_unconditional v path
        end in
      Ok [Write path data precondition]
  | MDelete path =>
      let? precondition := revision_or_unconditional v path in Ok [Remove path precondition]
  | MMove from to =>
      let? precondition := revision_or_unconditional v from in Ok [Rename from to precondition]
  | MMoveAndWrite from to data _ =>
      let? precondition := revision_or_unconditional v from in
      Ok [Write to data MustBeAbsent; Remove from precondition]
  end.

(** ** Preparing *)

Definition prepare_mutation (v : V) (m : VfsMutation) (p : Prepared) : result Prepared SandboxError :=
  match m with
  | MWrite path data precondition =>
      let? _ := ensure_parent_components_are_directories v path in
      let? _ := validate_write_precondition v path precondition in
      Ok {| rollback := upsert_rollback_expectation (rollback p) path (StateFile data);
            parent_dirs := record_missing_parent_dirs v path (parent_dirs p);
            mutations := mutations p ++ [PWrite path data]; batch := batch p |}
  | MDelete path =>
      let? _ := require_file v path in
      Ok {| rollback := upsert_rollback_expectation (rollback p) path StateMissing;
            parent_dirs := parent_dirs p;
            mutations := mutations p ++ [PDelete path]; batch := batch p |}
  | MMove from to =>
      let? _ := require_file v from in
      let? _ := ensure_parent_components_are_directories v to in
      let? _ := ensure_vfs_path_missing v to in
      let? data := map_err VfsFailed (vfs_read v from) in
      Ok {| rollback := upsert_rollback_expectation
                          (upsert_rollback_expectation (rollback p) from StateMissing) to (StateFile data);
            parent_dirs := record_missing_parent_dirs v to (parent_dirs p);
            mutations := mutations p ++ [PMove from to data]; batch := batch p |}
  | MMoveAndWrite from to data from_precondition =>
      let? _ := require_file v from in
      let? _ := match from_precondition with
                | Some expected => validate_file_matches v from expected
                | None => Ok tt
                end in
      let? _ := ensure_parent_components_are_directories v to in
      let? _ := ensure_vfs_path_missing v to in
      Ok {| rollback := upsert_rollback_expectation
                          (upsert_rollback_expectation (rollback p) from StateMissing) to (StateFile data);
            parent_dirs := record_missing_parent_dirs v to (parent_dirs p);
            mutations := mutations p ++ [PMoveAndWrite from to data]; batch := batch p |}
  end.

Fixpoint prepare_loop (v : V) (ms : list VfsMutation) (p : Prepared) : result Prepared SandboxError :=
  match ms with
  | [] => Ok p
  | m :: ms =>
      let? items := batch_items v m in
      let p := {| rollback := rollback p; parent_dirs := parent_dirs p; mutations := mutations p;
                  batch := batch p ++ items |} in
      let? p := prepare_mutation v m p in
      prepare_loop v ms p
  end.

Definition prepare_all_mutations (v : V) (ms : list VfsMutation) : result Prepared SandboxError :=
  prepare_loop v ms no_mutation.

(** ** Executing item by item *)

Definition execute_one (m : PreparedVfsMutation) : SE V VfsError unit := fun v =>
  match m with
  | PWrite path data => vfs_write v path data
  | PDelete path => vfs_remove v path
  | PMove from to data | PMoveAndWrite from to data =>
      se_bind (fun v => vfs_write v to data) (fun _ v => vfs_remove v from) v
  end.

Definition execute_prepared (ms : list PreparedVfsMutation) : SE V VfsError unit := se_for ms execute_one.

(** ** Capabilities *)

Definition check_batch_capabilities (tool_name : str) (ms : list VfsMutation) : Op unit :=
  se_for ms (fun m =>
    match m with
    | MWrite path _ _ | MDelete path =>
        check_and_journal_capability agent_id (check_path_write capability path) tool_name
    | MMove from to | MMoveAndWrite from to _ _ =>
        let! _ := check_and_journal_capability agent_id (check_path_read capability from) tool_name in
        let! _ := check_and_journal_capability agent_id (check_path_write capability from) tool_name in
        check_and_journal_capability agent_id (check_path_write capability to) tool_name
    end).

(** ** Journaling ([vfs_mutation_journal.rs]) *)

Definition journal_or_fail (what : str) (kind : JournalEntryKind Value) : Op unit :=
  se_map_err (fun err => Internal ("journal append failed for VFS mutation " ++ what ++ ": "
                                     ++ journal_error_to_string err))
    (journal_put agent_id kind).

Definition journal_plan (tool_name : str) (count : nat) : Op unit :=
  journal_or_fail "plan"
    (tool_result tool_name ("planned " ++ dec (N.of_nat count) ++ " VFS mutation(s)") false).
Definition journal_deletes (paths : list str) : Op unit :=
  se_for paths (fun path => journal_or_fail "delete" (FileDelete path)).
Definition journal_moves (moves : list (str * str)) : Op unit :=
  se_for moves (fun '(from, to) => journal_or_fail "move" (FileMove from to)).
Definition journal_writes (writes : list (str * N)) : Op unit :=
  se_for writes (fun '(path, size_bytes) => journal_or_fail "write" (FileWrite path size_bytes)).

Definition journal_unknown_outcome (tool_name : str) (err : VfsError) : Op unit :=
  journal_try agent_id
    (tool_result tool_name ("VFS mutation batch may have been applied: " ++ vfs_error_to_string err) true).
Definition journal_execution_failure (tool_name : str) (err : VfsError) : Op unit :=
  journal_try agent_id (tool_result tool_name (vfs_error_to_string err) true).

(** ** The batch *)

(** What the loop over the mutations adds up before the batch is prepared. *)
Record Tally := {
  write_bytes : N;
  file_writes : list (str * N);
  file_deletes : list str;
  file_moves : list (str * str);
}.

Definition no_tally : Tally :=
  {| write_bytes := 0; file_writes := []; file_deletes := []; file_moves := [] |}.

Definition tally_one (v : V) (m : VfsMutation) (t : Tally) : result Tally SandboxError :=
  match m with
  | MWrite path data _ =>
      let n := N.of_nat (length data) in
      Ok {| write_bytes := saturating_add (write_bytes t) n; file_writes := file_writes t ++ [(path, n)];
            file_deletes := file_deletes t; file_moves := file_moves t |}
  | MDelete path =>
      Ok {| write_bytes := write_bytes t; file_writes := file_writes t;
            file_deletes := file_deletes t ++ [path]; file_moves := file_moves t |}
  | MMove from to =>
      let? metadata := map_err VfsFailed (vfs_metadata v from) in
      if negb (is_file metadata) then Err (VfsFailed (NotAFile from))
      else Ok {| write_bytes := saturating_add (write_bytes t) (size metadata);
                 file_writes := file_writes t ++ [(to, size metadata)];
                 file_deletes := file_deletes t; file_moves := file_moves t ++ [(from, to)] |}
  | MMoveAndWrite from to data _ =>
      let n := N.of_nat (length data) in
      Ok {| write_bytes := saturating_add (write_bytes t) n; file_writes := file_writes t ++ [(to, n)];
            file_deletes := file_deletes t; file_moves := file_moves t ++ [(from, to)] |}
  end.

Fixpoint tally (v : V) (ms : list VfsMutation) (t : Tally) : result Tally SandboxError :=
  match ms with
  | [] => Ok t
  | m :: ms => let? t := tally_one v m t in tally v ms t
  end.

Definition release_reserved_bytes (n : N) : Op unit :=
  if (0 <? n)%N then release_vfs_bytes n else se_ret tt.

(** [if let Err(err) = m { release_reserved_bytes(..)?; return Err(err); }]. *)
Definition releasing {A} (n : N) (m : Op A) : Op A :=
  let! outcome := se_try m in
  match outcome with
  | Ok a => se_ret a
  | Err err => let! _ := release_reserved_bytes n in se_err err
  end.

(** What follows the journal: the commit. *)
Definition commit (tool_name : str) (n : N) (prepared : Prepared) (rollback_states : list VfsRollbackEntry)
    : Op unit :=
  let! outcome := se_try (on_vfs (fun v => vfs_apply_batch v (batch prepared))) in
  match outcome with
  | Ok _ => se_ret tt
  | Err (Unsupported _) =>
      let! executed := se_try (on_vfs (execute_prepared (mutations prepared))) in
      match executed with
      | Ok _ => se_ret tt
      | Err ((OutcomeUnknown _) as err) =>
          let! _ := journal_unknown_outcome tool_name err in se_err (VfsFailed err)
      | Err err =>
          let! _ := release_reserved_bytes n in
          let! restored := se_try (on_vfs (restore_vfs_path_states rollback_states (parent_dirs prepared))) in
          match restored with
          | Err restore_err =>
              se_err (Internal ("failed to roll back VFS mutations after " ++ vfs_error_to_string err
                                  ++ ": " ++ vfs_error_to_string restore_err))
          | Ok _ => let! _ := journal_execution_failure tool_name err in se_err (VfsFailed err)
          end
      end
  | Err ((OutcomeUnknown _) as err) =>
      let! _ := journal_unknown_outcome tool_name err in se_err (VfsFailed err)
  | Err err =>
      let! _ := release_reserved_bytes n in
      let! _ := journal_execution_failure tool_name err in
      se_err (VfsFailed err)
  end.

Definition apply_vfs_mutations (tool_name : str) (ms : list VfsMutation) : Op unit :=
  let! _ := check_batch_capabilities tool_name ms in
  let! _ := preflight_vfs_write_bytes agent_id 0 in
  let! t := fun c => (c, tally (cell_vfs c) ms no_tally) in
  let n := write_bytes t in
  let! _ := if (0 <? n)%N then reserve_vfs_bytes agent_id n else se_ret tt in
  let! prepared := releasing n (fun c => (c, prepare_all_mutations (cell_vfs c) ms)) in
  let! rollback_states := releasing n
    (se_map_err VfsFailed (of_vfs (fun v => capture_vfs_rollback_entries v (rollback prepared)))) in
  let! _ := releasing n (journal_plan tool_name (length ms)) in
  let! _ := releasing n (journal_deletes (file_deletes t)) in
  let! _ := releasing n (journal_moves (file_moves t)) in
  let! _ := releasing n (journal_writes (file_writes t)) in
  commit tool_name n prepared rollback_states.

Definition remove_path (path : str) : Op unit := apply_vfs_mutations "remove_path" [MDelete path].
Definition move_path (from to : str) : Op unit := apply_vfs_mutations "move_path" [MMove from to].
End Mutations.
