(* ===== verification/Sandbox.v ===== *)
(** * What the sandbox guarantees

    The calls of an agent's cell ([Guards], [Mutations]) together: no call changes the filesystem
    without the capability to write what it names, none takes the bytes charged past their limit,
    and a batch is all or nothing. *)

From S2P Require Import Prelude.
From S2P Require Import PathGlob.
From S2P Require Import Segments.
From S2P Require Import Capability.
From S2P Require Import Vfs.
From S2P Require Import MemoryFs.
From S2P Require Import Context.
From S2P Require Import Budget.
From S2P Require Import Journal.
From S2P Require Import Guards.
From S2P Require Import Mutations.

(** ** The calls *)

Section Sandbox.
Context {V J Value Decimal : Type} `{VirtualFs V} `{JournalStorage Value Decimal J}.
Context (agent_id : str) (capability : CapabilityToken).
Abbreviation Cell := (Cell V J Decimal).
Abbreviation Op := (SE Cell SandboxError).

Variant sandbox_call :=
| ReadFile (path : str)
| WriteFile (path : str) (data : bytes)
| PreflightPathWrite (path : str)
| PathExistsForWrite (path : str)
| ListDir (path : str)
| Metadata (path : str)
| ReserveTurn
| Mutate (tool_name : str) (ms : list VfsMutation).

Definition sandbox_run (k : sandbox_call) (c : Cell) : Cell * option SandboxError :=
  let ended {A} (o : Cell * result A SandboxError) :=
    (fst o, match snd o with Ok _ => None | Err e => Some e end) in
  match k with
  | ReadFile p => ended (read_file agent_id capability p c)
  | WriteFile p d => ended (write_file agent_id capability p d c)
  | PreflightPathWrite p => ended (preflight_path_write agent_id capability p c)
  | PathExistsForWrite p => ended (path_exists_for_write agent_id capability p c)
  | ListDir p => ended (cell_list_dir agent_id capability p c)
  | Metadata p => ended (cell_metadata agent_id capability p c)
  | ReserveTurn => ended (reserve_turn agent_id c)
  | Mutate t ms => ended (apply_vfs_mutations agent_id capability t ms c)
  end.

(** The paths a call writes, which the capability must allow. *)
Definition mutation_writes (m : VfsMutation) : list str :=
  match m with
  | MWrite path _ _ | MDelete path => [path]
  | MMove from to | MMoveAndWrite from to _ _ => [from; to]
  end.

Definition call_writes (k : sandbox_call) : list str :=
  match k with
  | WriteFile p _ => [p]
  | Mutate _ ms => flat_map mutation_writes ms
  | _ => []
  end.

(** *** Journaling and charging leave the filesystem alone *)

Definition vfs_is (v : V) (c : Cell) : Prop := cell_vfs c = v.

(** Filesystem and budget are these. *)
Definition stands (v : V) (b : ResourceBudget Decimal) (c : Cell) : Prop :=
  cell_vfs c = v /\ cell_budget c = b.

Lemma journal_put_stands v b k : preserves (stands v b) (journal_put agent_id k).
Proof. intros c [Hv Hb]. unfold journal_put. by destruct (journal_append _ _). Qed.

Lemma journal_try_stands v b k : preserves (stands v b) (journal_try agent_id k).
Proof.
  apply preserves_bind; [|intros; apply preserves_ret]. apply preserves_try, journal_put_stands.
Qed.
Hint Resolve journal_put_stands journal_try_stands : keep.

Lemma check_stands v b check o : preserves (stands v b) (check_and_journal_capability agent_id check o).
Proof. destruct check; cbn; unfold journal_denial; auto with keep. Qed.

Lemma refuse_stands v b e : preserves (stands v b) (refuse_exhausted agent_id e).
Proof. unfold refuse_exhausted, journal_budget_exhaustion. auto with keep. Qed.
Hint Resolve check_stands refuse_stands : keep.

Lemma stands_vfs {A} (m : Op A) : (forall v b, preserves (stands v b) m) -> forall v, preserves (vfs_is v) m.
Proof. intros Hm v c Hc. by destruct (Hm v (cell_budget c) c (conj Hc eq_refl)). Qed.

Lemma reserve_turn_vfs v : preserves (vfs_is v) (reserve_turn agent_id).
Proof.
  intros c Hc. unfold reserve_turn. destruct (over _ _); [|done].
  by apply (stands_vfs _ (fun v b => refuse_stands v b _)).
Qed.

Lemma reserve_vfs_bytes_vfs v n : preserves (vfs_is v) (reserve_vfs_bytes agent_id n).
Proof.
  intros c Hc. unfold reserve_vfs_bytes. destruct (over _ _); [|destruct (_ && _); [|done]];
    by apply (stands_vfs _ (fun v b => refuse_stands v b _)).
Qed.

Lemma preflight_stands v b n : preserves (stands v b) (preflight_vfs_write_bytes agent_id n).
Proof.
  intros c Hc. unfold preflight_vfs_write_bytes. destruct (over _ _); [|destruct (_ && _); [|done]];
    by apply refuse_stands.
Qed.
Hint Resolve preflight_stands : keep.

Lemma on_vfs_budget {A} (f : V -> V * result A VfsError) b :
  preserves (fun c : Cell => cell_budget c = b) (on_vfs f).
Proof. intros c Hc. unfold on_vfs. by destruct (f (cell_vfs c)). Qed.

(** *** The capability checks of a batch *)

(** Whether the capability allows every path a mutation reads and writes. *)
Definition permits (m : VfsMutation) : bool :=
  match m with
  | MWrite path _ _ | MDelete path => is_ok (check_path_write capability path)
  | MMove from to | MMoveAndWrite from to _ _ =>
      is_ok (check_path_read capability from) && is_ok (check_path_write capability from)
      && is_ok (check_path_write capability to)
  end.

Lemma check_inv check o (c c' : Cell) :
  check_and_journal_capability agent_id check o c = (c', Ok tt) -> c' = c /\ is_ok check = true.
Proof.
  destruct check; cbn; [by intros [= <-]|].
  intros Hc. by apply bind_inv in Hc as [(? & ? & _ & [=])|(? & _ & [=])].
Qed.

Lemma check_batch_inv t ms (c c' : Cell) :
  check_batch_capabilities agent_id capability t ms c = (c', Ok tt) -> c' = c /\ forallb permits ms = true.
Proof.
  unfold check_batch_capabilities. revert c; induction ms as [|m ms IH]; intros c; cbn [se_for forallb].
  { by intros [= <-]. }
  intros [([] & s1 & Hm & Hrest)|(e & _ & [=])]%bind_inv.
  apply IH in Hrest as [-> ->]. rewrite andb_true_r. destruct m; cbn [permits].
  1,2: by apply check_inv in Hm.
  all: apply bind_inv in Hm as [([] & s2 & H1 & Hm)|(e & _ & [=])];
    apply bind_inv in Hm as [([] & s3 & H2 & Hm)|(e & _ & [=])];
    apply check_inv in H1 as [-> ->]; apply check_inv in H2 as [-> ->]; by apply check_inv in Hm.
Qed.

Lemma check_batch_stands v b t ms : preserves (stands v b) (check_batch_capabilities agent_id capability t ms).
Proof. apply preserves_for. intros [| | |]; auto 6 with keep. Qed.

Lemma of_vfs_preserves {A} (P : Cell -> Prop) (f : V -> result A VfsError) : preserves P (of_vfs f).
Proof. by intros c. Qed.
Hint Resolve of_vfs_preserves : keep.

Lemma reading_stands v b k (c : Cell) :
  match k with WriteFile _ _ | ReserveTurn | Mutate _ _ => False | _ => True end ->
  stands v b c -> stands v b (fst (sandbox_run k c)).
Proof.
  intros Hk Hc. destruct k as [p|p d|p|p|p|p| |t ms]; try done; cbn [sandbox_run fst].
  - revert c Hc. change (preserves (stands v b) (read_file agent_id capability p)).
    unfold read_file, read_file_inner. repeat (apply preserves_bind; [|intros]); auto with keep.
    destruct a0; repeat (apply preserves_bind; [|intros]); auto with keep.
  - by apply check_stands.
  - revert c Hc. change (preserves (stands v b) (path_exists_for_write agent_id capability p)).
    apply preserves_bind; [auto with keep|]. intros _ c. done.
  - revert c Hc. change (preserves (stands v b) (cell_list_dir agent_id capability p)).
    unfold cell_list_dir, cell_list_dir_bounded. repeat (apply preserves_bind; [|intros]); auto with keep.
    destruct (_ || _); auto with keep.
  - revert c Hc. change (preserves (stands v b) (cell_metadata agent_id capability p)).
    unfold cell_metadata. auto with keep.
Qed.

Definition may_write (k : sandbox_call) : bool :=
  match k with WriteFile _ _ | Mutate _ _ => true | _ => false end.

Lemma refused_write_file p d (c : Cell) :
  is_ok (check_path_write capability p) = false -> cell_vfs (fst (write_file agent_id capability p d c)) = cell_vfs c.
Proof.
  intros E. unfold write_file, write_file_inner, se_bind at 1.
  pose proof (check_stands (cell_vfs c) (cell_budget c) (check_path_write capability p) "write_file" c
    (conj eq_refl eq_refl)) as [Hv _].
  destruct (check_and_journal_capability _ _ _ c) as [c1 [[]|e]] eqn:E1; [|done].
  apply check_inv in E1 as [_ E1]. congruence.
Qed.

Lemma refused_batch t ms (c : Cell) :
  forallb permits ms = false -> cell_vfs (fst (apply_vfs_mutations agent_id capability t ms c)) = cell_vfs c.
Proof.
  intros E. unfold apply_vfs_mutations, se_bind at 1.
  pose proof (check_batch_stands (cell_vfs c) (cell_budget c) t ms c (conj eq_refl eq_refl)) as [Hv _].
  destruct (check_batch_capabilities _ _ t ms c) as [c1 [[]|e]] eqn:E1; [|done].
  apply check_batch_inv in E1 as [_ E1]. congruence.
Qed.

(** C3. Nothing is written without the capability: whatever the filesystem and the journal do, a call
    after which the filesystem differs is a write or a batch, and the capability lets it write every
    path it names. *)
Theorem sandbox_writes_are_permitted k (c : Cell) :
  cell_vfs (fst (sandbox_run k c)) <> cell_vfs c ->
  may_write k = true /\ Forall (fun path => check_path_write capability path = Ok tt) (call_writes k).
Proof.
  assert (Hok : forall r : result unit CapabilityDenied, is_ok r = true -> r = Ok tt) by (by intros [[]|]).
  intros Hd. destruct k as [p|p d|p|p|p|p| |t ms];
    try (destruct Hd; by apply (reading_stands (cell_vfs c) (cell_budget c) _ c)); (split; [try done|]).
  - constructor; [|constructor]. destruct (is_ok (check_path_write capability p)) eqn:E; [by apply Hok|].
    by destruct Hd; apply refused_write_file.
  - destruct Hd. by apply (reserve_turn_vfs (cell_vfs c)).
  - constructor.
  - destruct (forallb permits ms) eqn:E; [|by destruct Hd; apply refused_batch].
    rewrite Forall_forall. intros path Hin. apply list_elem_of_In, in_flat_map in Hin as (m & Hm & Hin%list_elem_of_In).
    rewrite forallb_forall in E. specialize (E m Hm). destruct m; cbn in E, Hin; bools;
      rewrite ?elem_of_cons, ?elem_of_nil in Hin; destruct_or?; subst; try done; by apply Hok.
Qed.

(** *** The byte budget *)

(** The limit is [limit], and what is charged is not past it. *)
Definition charged_within (limit : N) (c : Cell) : Prop :=
  max_vfs_bytes (cell_budget c) = limit /\ (limit = 0 \/ used_vfs_bytes (cell_budget c) <= limit)%N.

Lemma stands_within {A} (m : Op A) limit :
  (forall v b, preserves (stands v b) m) -> preserves (charged_within limit) m.
Proof.
  intros Hm c Hc. destruct (Hm (cell_vfs c) (cell_budget c) c (conj eq_refl eq_refl)) as [_ Hb].
  unfold charged_within. by rewrite Hb.
Qed.

Lemma reserve_turn_within limit : preserves (charged_within limit) (reserve_turn agent_id).
Proof.
  intros c Hc. unfold reserve_turn. destruct (over _ _); [|done].
  by apply (stands_within _ limit (fun v b => refuse_stands v b _)).
Qed.

Lemma reserve_vfs_bytes_within limit n : preserves (charged_within limit) (reserve_vfs_bytes agent_id n).
Proof.
  intros c Hc. unfold reserve_vfs_bytes. destruct (over _ _); [|destruct (_ && _) eqn:E].
  1,2: by apply (stands_within _ limit (fun v b => refuse_stands v b _)).
  destruct Hc as [Hm _]. split; [done|]. cbn [fst set_budget cell_budget set_used_vfs_bytes used_vfs_bytes].
  apply andb_false_iff in E as [E|E]; [left; apply N.ltb_ge in E; lia|right; apply N.ltb_ge in E; lia].
Qed.

Lemma release_vfs_bytes_within limit n : preserves (charged_within limit) (release_vfs_bytes (V := V) (J := J) n).
Proof. intros c [Hm Hu]. split; [done|]. cbn. destruct Hu; [by left|right; lia]. Qed.

Lemma on_vfs_within {A} limit (f : V -> V * result A VfsError) : preserves (charged_within limit) (on_vfs f).
Proof. intros c Hc. unfold on_vfs. by destruct (f (cell_vfs c)). Qed.
Hint Resolve reserve_turn_within reserve_vfs_bytes_within release_vfs_bytes_within on_vfs_within : keep.

Lemma journal_try_within limit k : preserves (charged_within limit) (journal_try agent_id k).
Proof. apply stands_within. auto with keep. Qed.

Lemma releasing_within {A} limit n (m : Op A) :
  preserves (charged_within limit) m -> preserves (charged_within limit) (releasing n m).
Proof.
  intros Hm. apply preserves_bind; [auto with keep|]. intros [a|e]; [auto with keep|].
  unfold release_reserved_bytes. destruct (0 <? n)%N; auto with keep.
Qed.

Lemma journal_or_fail_stands v b w k : preserves (stands v b) (journal_or_fail agent_id w k).
Proof. unfold journal_or_fail. auto with keep. Qed.

Lemma journal_plan_stands v b t n : preserves (stands v b) (journal_plan agent_id t n).
Proof. apply journal_or_fail_stands. Qed.

Lemma journal_deletes_stands v b l : preserves (stands v b) (journal_deletes agent_id l).
Proof. apply preserves_for. intros. apply journal_or_fail_stands. Qed.

Lemma journal_moves_stands v b l : preserves (stands v b) (journal_moves agent_id l).
Proof. apply preserves_for. intros []. apply journal_or_fail_stands. Qed.

Lemma journal_writes_stands v b l : preserves (stands v b) (journal_writes agent_id l).
Proof. apply preserves_for. intros []. apply journal_or_fail_stands. Qed.
Hint Resolve journal_plan_stands journal_deletes_stands journal_moves_stands journal_writes_stands : keep.
Hint Resolve journal_try_within releasing_within : keep.

Lemma commit_within limit t n p rb : preserves (charged_within limit) (commit agent_id t n p rb).
Proof.
  assert (Hr : preserves (charged_within limit) (release_reserved_bytes (V := V) (J := J) n)).
  { unfold release_reserved_bytes. destruct (0 <? n)%N; auto with keep. }
  assert (Hj : forall e, preserves (charged_within limit) (journal_unknown_outcome agent_id t e) /\
                         preserves (charged_within limit) (journal_execution_failure agent_id t e)).
  { intros e. split; apply journal_try_within. }
  unfold commit. apply preserves_bind; [auto with keep|]. intros [[]|e]; [auto with keep|].
  destruct e; repeat (apply preserves_bind; [first [apply Hj|auto with keep]|intros]); auto with keep.
  destruct a as [[]|e]; [auto with keep|].
  destruct e; repeat (apply preserves_bind; [first [apply Hj|auto with keep]|intros]); auto with keep.
  all: destruct a0 as [[]|]; repeat (apply preserves_bind; [first [apply Hj|auto with keep]|intros]); auto with keep.
Qed.

Lemma apply_vfs_mutations_within limit t ms :
  preserves (charged_within limit) (apply_vfs_mutations agent_id capability t ms).
Proof.
  unfold apply_vfs_mutations.
  apply preserves_bind; [apply stands_within; intros; apply check_batch_stands|intros _].
  apply preserves_bind; [apply stands_within; intros; apply preflight_stands|intros _].
  apply preserves_bind; [auto with keep|intros ta].
  apply preserves_bind; [destruct (0 <? _)%N; auto with keep|intros _].
  apply preserves_bind; [auto with keep|intros p]. apply preserves_bind; [auto with keep|intros rb].
  do 4 (apply preserves_bind; [apply releasing_within, stands_within; auto with keep|intros _]).
  apply commit_within.
Qed.

Lemma reading_within limit k (c : Cell) :
  match k with WriteFile _ _ | ReserveTurn | Mutate _ _ => False | _ => True end ->
  charged_within limit c -> charged_within limit (fst (sandbox_run k c)).
Proof.
  intros Hk Hc. destruct (reading_stands (cell_vfs c) (cell_budget c) k c Hk (conj eq_refl eq_refl)) as [_ Hb].
  unfold charged_within. by rewrite Hb.
Qed.

(** The byte budget holds: from a cell charged no more than its limit, no sequence of calls,
    whatever their outcomes, changes the limit or charges more than it. *)
Theorem sandbox_bytes_within_limit ks (c : Cell) limit :
  charged_within limit c -> charged_within limit (foldl (fun c k => fst (sandbox_run k c)) c ks).
Proof.
  revert c; induction ks as [|k ks IH]; intros c Hc; cbn [foldl]; [done|]. apply IH. clear IH.
  destruct k as [p|p d|p|p|p|p| |t ms];
    try (by apply reading_within).
  - revert c Hc. change (preserves (charged_within limit) (write_file agent_id capability p d)).
    unfold write_file, write_file_inner. apply preserves_bind; [apply stands_within; auto with keep|intros _].
    do 2 (apply preserves_bind; [auto with keep|intros _]). apply preserves_bind; [auto with keep|].
    intros [[]|e]; [auto with keep|]. apply preserves_bind; [|auto with keep].
    destruct e; cbn; auto with keep.
  - by apply reserve_turn_within.
  - by apply apply_vfs_mutations_within.
Qed.
End Sandbox.

#[export] Hint Resolve of_vfs_preserves journal_plan_stands journal_deletes_stands journal_moves_stands
  journal_writes_stands : keep.

(** ** A batch is all or nothing *)

Section Atomic.
Context {V J Value Decimal : Type} `{VirtualFsLaws V} `{JournalStorage Value Decimal J}.
Context (agent_id : str) (capability : CapabilityToken).
Abbreviation Cell := (Cell V J Decimal).
Abbreviation Op := (SE Cell SandboxError).

(** A budget with [n] more bytes reserved. *)
Definition charged (b : ResourceBudget Decimal) (n : N) : ResourceBudget Decimal :=
  if (0 <? n)%N then set_used_vfs_bytes b (saturating_add (used_vfs_bytes b) n) else b.

Lemma set_used_twice b x y :
  set_used_vfs_bytes (set_used_vfs_bytes b x) y = set_used_vfs_bytes (Decimal := Decimal) b y.
Proof. done. Qed.

Lemma set_used_same b : set_used_vfs_bytes (Decimal := Decimal) b (used_vfs_bytes b) = b.
Proof. by destruct b. Qed.

Lemma charged_used b n :
  (used_vfs_bytes b + n <= u64_max)%N -> used_vfs_bytes (charged b n) = (used_vfs_bytes b + n)%N.
Proof.
  intros Hn. unfold charged, saturating_add. destruct (N.ltb_spec 0 n); [|lia].
  cbn [set_used_vfs_bytes used_vfs_bytes]. lia.
Qed.

Lemma release_charged b n v (c : Cell) :
  (used_vfs_bytes b + n <= u64_max)%N -> stands v (charged b n) c ->
  stands v b (fst (release_reserved_bytes n c)).
Proof.
  intros Hn [Hv Hb]. unfold release_reserved_bytes, charged in *. destruct (N.ltb_spec 0 n); [|done].
  split; [done|]. cbn [fst release_vfs_bytes set_budget cell_budget]. rewrite Hb, set_used_twice.
  trans (set_used_vfs_bytes b (used_vfs_bytes b)); [|apply set_used_same].
  f_equal. unfold saturating_add. cbn [set_used_vfs_bytes used_vfs_bytes]. lia.
Qed.

Lemma reserve_charges v b n (c c' : Cell) :
  stands v b c -> (if (0 <? n)%N then reserve_vfs_bytes agent_id n else se_ret tt) c = (c', Ok tt) ->
  stands v (charged b n) c'.
Proof.
  intros [Hv Hb]. unfold charged, reserve_vfs_bytes. destruct (0 <? n)%N; [|by intros [= <-]].
  assert (Hno : forall x, refuse_exhausted agent_id x c <> (c', Ok tt)).
  { intros x Hx. by apply bind_inv in Hx as [(? & ? & _ & [=])|(? & _ & [=])]. }
  destruct (over _ _); [by intros ?%Hno|]. cbv zeta. destruct (_ && _); [by intros ?%Hno|].
  intros [= <-]. split; [done|]. cbn. by rewrite Hb.
Qed.

Lemma reserve_refused v b n (c c' : Cell) e :
  stands v b c -> (if (0 <? n)%N then reserve_vfs_bytes agent_id n else se_ret tt) c = (c', Err e) ->
  stands v b c'.
Proof.
  intros Hc. unfold reserve_vfs_bytes. destruct (0 <? n)%N; [|done].
  assert (Hr : forall x, refuse_exhausted agent_id x c = (c', Err e) -> stands v b c').
  { intros x Hx. pose proof (refuse_stands agent_id v b x c Hc) as Hs. by rewrite Hx in Hs. }
  destruct (over _ _); [by intros ?%Hr|]. cbv zeta. destruct (_ && _); [by intros ?%Hr|done].
Qed.

(** A step after the reservation: it goes on with everything as it stands, or the reservation is given
    back. *)
Lemma releasing_step {A} v b n (m : Op A) (k : A -> Op unit) (c c' : Cell) r :
  (used_vfs_bytes b + n <= u64_max)%N ->
  (forall v b, preserves (stands v b) m) -> stands v (charged b n) c ->
  se_bind (releasing n m) k c = (c', r) ->
  (exists a c1, stands v (charged b n) c1 /\ m c = (c1, Ok a) /\ k a c1 = (c', r)) \/
  (exists e, r = Err e /\ stands v b c').
Proof.
  intros Hn Hm Hc Hr. specialize (Hm v (charged b n) c Hc). unfold releasing, se_try, se_bind in Hr.
  destruct (m c) as [c1 [a|e]]; cbn in Hm, Hr; [left; by exists a, c1|right].
  pose proof (release_charged b n v c1 Hn Hm) as Hrel.
  destruct (release_reserved_bytes n c1) as [c2 [[]|e2]]; cbn in Hr, Hrel; injection Hr as <- <-; by eexists.
Qed.

(** What an atomic filesystem's commit does. *)
Lemma commit_atomic v b t n p rb (c c' : Cell) r :
  fs_inv v -> (forall v' m, vfs_apply_batch v (batch p) <> (v', Err (Unsupported m))) ->
  (used_vfs_bytes b + n <= u64_max)%N -> stands v (charged b n) c ->
  commit agent_id t n p rb c = (c', r) ->
  match r with
  | Ok _ => vfs_apply_batch v (batch p) = (cell_vfs c', Ok tt) /\ cell_budget c' = charged b n
  | Err e => stands v b c' \/
      (exists m, e = VfsFailed (OutcomeUnknown m)) /\ cell_budget c' = charged b n /\
        (cell_vfs c' = v \/ lands v (CBatch (batch p)) (cell_vfs c'))
  end.
Proof.
  intros Hi Hat Hn [Hv Hb] Hr. unfold commit in Hr.
  apply bind_inv in Hr as [(o & c1 & Ho & Hr)|(e & Ho & _)];
    unfold se_try, on_vfs in Ho; rewrite Hv in Ho;
    destruct (vfs_apply_batch v (batch p)) as [v1 r1] eqn:Eb; [|by inversion Ho].
  injection Ho as <- <-. destruct r1 as [[]|e].
  { injection Hr as <- <-. cbn. by rewrite Hb. }
  pose proof (law_error v (CBatch (batch p)) v1 e Hi Eb) as Hl.
  assert (Hc1 : stands v1 (charged b n) (set_vfs c v1)) by by split.
  assert (Hfail : forall e0, v1 = v -> (let! _ := release_reserved_bytes n in
    let! _ := journal_execution_failure agent_id t e0 in se_err (VfsFailed e0)) (set_vfs c v1) = (c', r) ->
    match r with
    | Ok _ => False
    | Err _ => stands v b c'
    end).
  { intros e0 -> Hx. pose proof (release_charged b n v _ Hn Hc1) as Hrel. unfold se_bind at 1 in Hx.
    destruct (release_reserved_bytes n (set_vfs c v)) as [c2 [[]|e2]] eqn:E2; cbn in Hrel.
    - pose proof (journal_try_stands agent_id v b (tool_result t (vfs_error_to_string e0) true) c2 Hrel) as Hj.
      unfold se_bind at 1, journal_execution_failure in Hx. destruct (journal_try _ _ c2) as [c3 [[]|e3]]; cbn in Hj;
        injection Hx as <- <-; done.
    - by injection Hx as <- <-. }
  destruct e; try (destruct Hl as [Hl|[[? [=]] _]]; apply (Hfail _ Hl) in Hr; destruct r as [|e0]; [done|]; by left).
  - by destruct (Hat v1 msg).
  - pose proof (journal_try_stands agent_id v1 (charged b n) (tool_result t
      ("VFS mutation batch may have been applied: " ++ vfs_error_to_string (OutcomeUnknown msg)) true) _ Hc1) as Hj.
    unfold se_bind, journal_unknown_outcome in Hr. destruct (journal_try _ _ (set_vfs c v1)) as [c3 [[]|e3]] eqn:E3; cbn in Hj, Hr.
    + injection Hr as <- <-. destruct Hj as [-> Hj]. right. split_and!; [by eexists|done|]. by destruct Hl as [|[_ ?]]; [left|right].
    + unfold journal_try, se_bind, se_try in E3. destruct (journal_put _ _ _) as [? ?]; discriminate E3.
Qed.

(** Up to the commit: the batch is prepared and charged, or everything stands as before. *)
Lemma apply_to_commit v b t ms (c c' : Cell) r :
  stands v b c ->
  (forall ta, tally v ms no_tally = Ok ta -> (used_vfs_bytes b + write_bytes ta <= u64_max)%N) ->
  apply_vfs_mutations agent_id capability t ms c = (c', r) ->
  (exists ta p rb c1, tally v ms no_tally = Ok ta /\ prepare_all_mutations v ms = Ok p /\
     stands v (charged b (write_bytes ta)) c1 /\ commit agent_id t (write_bytes ta) p rb c1 = (c', r)) \/
  (exists e, r = Err e /\ stands v b c').
Proof.
  intros Hc Hn Hr. unfold apply_vfs_mutations in Hr.
  apply bind_inv in Hr as [([] & c1 & E1 & Hr)|(e & E1 & ->)];
    pose proof (check_batch_stands agent_id capability v b t ms c Hc) as Hs1; rewrite E1 in Hs1;
    [|right; by exists e].
  apply bind_inv in Hr as [([] & c2 & E2 & Hr)|(e & E2 & ->)];
    pose proof (preflight_stands agent_id v b 0 c1 Hs1) as Hs2; rewrite E2 in Hs2; [|right; by exists e].
  cbn [fst] in Hs1, Hs2. pose proof Hs2 as [Hv2 _].
  apply bind_inv in Hr as [(ta & c3 & E3 & Hr)|(e & E3 & ->)]; rewrite Hv2 in E3; injection E3 as <- Hta;
    [|right; by exists e].
  specialize (Hn ta Hta).
  apply bind_inv in Hr as [([] & c4 & E4 & Hr)|(e & E4 & ->)];
    [|right; exists e; split; [done|by eapply reserve_refused]].
  assert (Hs4 : stands v (charged b (write_bytes ta)) c4) by by eapply reserve_charges.
  apply (releasing_step v b) in Hr as [(p & c5 & Hs5 & E5 & Hr)|?]; [|by right|done|intros; apply preserves_pure|done].
  apply (releasing_step v b) in Hr as [(rb & c6 & Hs6 & _ & Hr)|?]; [|by right|done|solve [auto with keep]|done].
  apply (releasing_step v b) in Hr as [([] & c7 & Hs7 & _ & Hr)|?]; [|by right|done|solve [auto with keep]|done].
  apply (releasing_step v b) in Hr as [([] & c8 & Hs8 & _ & Hr)|?]; [|by right|done|solve [auto with keep]|done].
  apply (releasing_step v b) in Hr as [([] & c9 & Hs9 & _ & Hr)|?]; [|by right|done|solve [auto with keep]|done].
  apply (releasing_step v b) in Hr as [([] & c10 & Hs10 & _ & Hr)|?]; [|by right|done|solve [auto with keep]|done].
  left. exists ta, p, rb, c10. split_and!; [done| |done|exact Hr].
  injection E5 as _ E5. by destruct Hs4 as [<- _].
Qed.

(** C15. A batch is all or nothing.  On a filesystem that keeps the interface's laws and does not refuse
    the batch as unsupported (the code then makes the changes one at a time), and while the byte counter
    does not saturate: a batch that succeeds has been committed whole, from the mutations as prepared, and
    charged for exactly the bytes it writes; one that fails, at any step, leaves the filesystem as it was
    and the budget as it was, unless the commit ends in [OutcomeUnknown]: the charge for its bytes then
    stays, and the filesystem is as it was or the whole batch took effect. *)
Theorem batch_all_or_nothing t ms (c c' : Cell) r :
  fs_inv (cell_vfs c) ->
  (forall p v' m, prepare_all_mutations (cell_vfs c) ms = Ok p ->
     vfs_apply_batch (cell_vfs c) (batch p) <> (v', Err (Unsupported m))) ->
  (forall ta, tally (cell_vfs c) ms no_tally = Ok ta ->
     (used_vfs_bytes (cell_budget c) + write_bytes ta <= u64_max)%N) ->
  apply_vfs_mutations agent_id capability t ms c = (c', r) ->
  match r with
  | Ok _ => exists ta p, tally (cell_vfs c) ms no_tally = Ok ta /\
      prepare_all_mutations (cell_vfs c) ms = Ok p /\
      vfs_apply_batch (cell_vfs c) (batch p) = (cell_vfs c', Ok tt) /\
      used_vfs_bytes (cell_budget c') = (used_vfs_bytes (cell_budget c) + write_bytes ta)%N
  | Err e =>
      (cell_vfs c' = cell_vfs c /\ cell_budget c' = cell_budget c) \/
      exists m ta p, e = VfsFailed (OutcomeUnknown m) /\ tally (cell_vfs c) ms no_tally = Ok ta /\
        prepare_all_mutations (cell_vfs c) ms = Ok p /\
        used_vfs_bytes (cell_budget c') = (used_vfs_bytes (cell_budget c) + write_bytes ta)%N /\
        (cell_vfs c' = cell_vfs c \/ lands (cell_vfs c) (CBatch (batch p)) (cell_vfs c'))
  end.
Proof.
  intros Hi Hat Hn Hr. set (v := cell_vfs c) in *. set (b := cell_budget c) in *.
  apply (apply_to_commit v b) in Hr as [(ta & p & rb & c1 & Hta & Hp & Hs & Hr)|(e & -> & Hv & Hb)];
    [|by left|done|done].
  specialize (Hn ta Hta). apply (commit_atomic v b) in Hr; [|done|by intros; apply Hat|done..]. destruct r as [[]|e].
  - destruct Hr as [Hb Hbud]. exists ta, p. split_and!; [done..|]. by rewrite Hbud, charged_used.
  - destruct Hr as [Hr|([m ->] & Hbud & Hl)]; [by left|right]. exists m, ta, p. split_and!; [done..| |done].
    by rewrite Hbud, charged_used.
Qed.
End Atomic.

(** ** The guarantees at a concrete cell *)

Section Examples.
#[local] Instance ex_vfs : VirtualFs State := memory_fs ex_to_vec ex_from_slice.
#[local] Instance ex_laws : VirtualFsLaws State := memory_laws ex_to_vec ex_from_slice.
#[local] Instance ex_journal : JournalStorage unit N (list (JournalEntry unit)) :=
  memory_journal (fun _ => Err []).
(** A cell over [ex_fs] that may stage ten bytes, for a token that may write everything. *)
Definition ex_budget : ResourceBudget N :=
  {| max_tokens := 0; max_turns := 0; max_cost := 0%N; max_sub_agents := 0; max_vfs_bytes := 10;
     used_tokens := 0; used_turns := 0; used_cost := 0%N; used_sub_agents := 0; used_vfs_bytes := 4;
     max_fuel := 0; used_fuel := 0 |}.
Definition ex_cell : Cell State (list (JournalEntry unit)) N :=
  {| cell_vfs := ex_fs; cell_budget := ex_budget; cell_journal := [] |}.

Definition ex_token : CapabilityToken :=
  {| network := []; mcp_tools := []; shell := false; javascript := false; python := false;
     paths_write := [lit "/a/**"]; paths_read := [lit "/a/**"]; spawn_placements := [];
     skill_patterns := []; memory := empty_memory |}.

(** Replace [/a/b], as read, and add [/a/c]. *)
Definition ex_batch : list VfsMutation :=
  [MWrite "/a/b" "bye" (Matches "hi"); MWrite "/a/c" "new" Missing].

Abbreviation ex_run ms := (apply_vfs_mutations (Value := unit) "agent" ex_token "apply_patch" ms ex_cell).

Lemma sandbox_writes_are_permitted_witness :
  cell_vfs (fst (sandbox_run (Value := unit) "agent" ex_token (Mutate "apply_patch" ex_batch) ex_cell))
    <> cell_vfs ex_cell /\
  Forall (fun path => check_path_write ex_token path = Ok tt)
    (call_writes (Mutate "apply_patch" ex_batch)).
Proof.
  assert (cell_vfs (fst (sandbox_run (Value := unit) "agent" ex_token (Mutate "apply_patch" ex_batch) ex_cell))
    <> cell_vfs ex_cell) as Hd.
  { intros E. apply (f_equal (fun s => is_ok (vfs_read s "/a/c"))) in E. vm_compute in E. discriminate. }
  split; [exact Hd|]. exact (proj2 (sandbox_writes_are_permitted "agent" ex_token _ ex_cell Hd)).
Defined.

Lemma sandbox_bytes_within_limit_witness :
  charged_within 10 ex_cell /\
  charged_within 10
    (foldl (fun c k => fst (sandbox_run (Value := unit) "agent" ex_token k c)) ex_cell
       [WriteFile "/a/d" "12345"; WriteFile "/a/e" "1"; WriteFile "/a/f" "1234567"]).
Proof.
  assert (charged_within 10 ex_cell) as Hc by (split; [reflexivity|right; vm_compute; discriminate]).
  split; [exact Hc|]. apply (sandbox_bytes_within_limit "agent" ex_token). exact Hc.
Defined.

(** The second mutation finds a file where it expected none, and the whole batch is refused. *)
Lemma batch_all_or_nothing_witness :
  (cell_vfs (fst (ex_run (ex_batch ++ [MWrite "/a/b" [] Missing]))) = cell_vfs ex_cell /\
   cell_budget (fst (ex_run (ex_batch ++ [MWrite "/a/b" [] Missing]))) = cell_budget ex_cell) /\
  vfs_read (cell_vfs (fst (ex_run ex_batch))) "/a/b" = Ok (lit "bye").
Proof.
  split; [|vm_compute; reflexivity].
  pose proof (batch_all_or_nothing "agent" ex_token "apply_patch" (ex_batch ++ [MWrite "/a/b" [] Missing])
    ex_cell (fst (ex_run (ex_batch ++ [MWrite "/a/b" [] Missing])))
    (snd (ex_run (ex_batch ++ [MWrite "/a/b" [] Missing])))) as Hall.
  assert (snd (ex_run (ex_batch ++ [MWrite "/a/b" [] Missing])) = Err (VfsFailed (AlreadyExists "/a/b")))
    as Er by (vm_compute; reflexivity).
  rewrite Er in Hall. destruct Hall as [Hall|(m & _ & _ & Em & _)]; [..|exact Hall|discriminate Em].
  - exact ex_fs_inv.
  - intros p v' m Hp. vm_compute in Hp. discriminate.
  - intros ta Hta. vm_compute in Hta. injection Hta as <-. vm_compute. discriminate.
  - rewrite <- Er. apply surjective_pairing.
Defined.
End Examples.
