(* ===== verification/Patch.v ===== *)
(** * Patches

    Models [crates/simulacra-tool/src/sandbox_tools/apply_patch.rs]: the grammar of a patch, its plan
    against the files of a cell and the batch that carries it out.  Every line the parser looks at is
    behind it in the next turn, so the number of lines is fuel enough. *)

From S2P Require Import Prelude.
From S2P Require Import Text.
From S2P Require Import Utf8.
From S2P Require Import Segments.
From S2P Require Import Capability.
From S2P Require Import Vfs.
From S2P Require Import MemoryFs.
From S2P Require Import Context.
From S2P Require Import Budget.
From S2P Require Import Journal.
From S2P Require Import Guards.
From S2P Require Import Mutations.
From S2P Require Import Sandbox.

(** ** Data *)

Record Hunk := { old_text : str; new_text : str }.

Variant PatchOp :=
| Add (path content : str)
| Delete (path : str)
| Update (path : str) (move_to : option str) (hunks : list Hunk).

Variant PatchError := User (message : str) | SandboxFailed (e : SandboxError).

(** ** Parsing *)

Definition BEGIN_PATCH : str := "*** Begin Patch".
Definition END_PATCH : str := "*** End Patch".
Definition is_marker_line (line : str) : bool := starts_with "*** " line.
Definition is_hunk_line (line : str) : bool := starts_with "@@" line.

(** [normalize_vfs_path] is the [normalize] of the filesystems. *)
Definition normalize_vfs_path (path : str) : str := normalize path.

Definition join_patch_lines (ls : list str) : str := match ls with [] => [] | _ => join [lf] ls ++ [lf] end.

(** The lines of an added file, and what follows them. *)
Fixpoint parse_added (path : str) (ls : list str) : result (list str * list str) str :=
  match ls with
  | [] => Ok ([], [])
  | line :: rest =>
      if is_marker_line line then Ok ([], ls)
      else match strip_prefix "+" line with
      | None => Err ("malformed add for " ++ path ++ ": expected + line")
      | Some content => let? (added, rest) := parse_added path rest in Ok (content :: added, rest)
      end
  end.

(** The old lines and the new lines of a hunk, and what follows them. *)
Fixpoint hunk_lines (ls : list str) : result (list str * list str * list str) str :=
  match ls with
  | [] => Ok ([], [], [])
  | line :: rest =>
      if is_marker_line line || is_hunk_line line then Ok ([], [], ls)
      else match strip_prefix " " line with
      | Some context => let? (old, new, rest) := hunk_lines rest in Ok (context :: old, context :: new, rest)
      | None =>
          match strip_prefix "-" line with
          | Some removed => let? (old, new, rest) := hunk_lines rest in Ok (removed :: old, new, rest)
          | None =>
              match strip_prefix "+" line with
              | Some added => let? (old, new, rest) := hunk_lines rest in Ok (old, added :: new, rest)
              | None => Err ("malformed hunk line: " ++ line)
              end
          end
      end
  end.

Definition parse_hunk (ls : list str) : result (Hunk * list str) str :=
  let? (old, new, rest) := hunk_lines ls in
  match old, new with
  | [], [] => Err (lit "malformed hunk: empty hunk")
  | _, _ => Ok ({| old_text := join_patch_lines old; new_text := join_patch_lines new |}, rest)
  end.

Fixpoint parse_hunks (fuel : nat) (path : str) (ls : list str) : result (list Hunk * list str) str :=
  match fuel, ls with
  | S fuel, line :: rest =>
      if is_marker_line line then Ok ([], ls)
      else if is_hunk_line line then
        let? (hunk, rest) := parse_hunk rest in
        let? (hunks, rest) := parse_hunks fuel path rest in
        Ok (hunk :: hunks, rest)
      else Err ("malformed update for " ++ path ++ ": expected @@ hunk")
  | _, _ => Ok ([], ls)
  end.

Definition parse_move (ls : list str) : option str * list str :=
  match ls with
  | line :: rest =>
      match strip_prefix "*** Move to: " line with
      | Some path => (Some (normalize_vfs_path path), rest)
      | None => (None, ls)
      end
  | [] => (None, [])
  end.

(** The lines between the first and the last. *)
Fixpoint parse_ops (fuel : nat) (ls : list str) : result (list PatchOp) str :=
  match fuel, ls with
  | S fuel, line :: rest =>
      match strip_prefix "*** Add File: " line with
      | Some path =>
          let? (added, rest) := parse_added path rest in
          let? ops := parse_ops fuel rest in
          Ok (Add (normalize_vfs_path path) (join_patch_lines added) :: ops)
      | None =>
          match strip_prefix "*** Delete File: " line with
          | Some path => let? ops := parse_ops fuel rest in Ok (Delete (normalize_vfs_path path) :: ops)
          | None =>
              match strip_prefix "*** Update File: " line with
              | Some path =>
                  let '(move_to, rest) := parse_move rest in
                  let? (hunks, rest) := parse_hunks fuel path rest in
                  match move_to, hunks with
                  | None, [] => Err ("malformed update for " ++ path ++ ": expected @@ hunk")
                  | _, _ =>
                      let? ops := parse_ops fuel rest in
                      Ok (Update (normalize_vfs_path path) move_to hunks :: ops)
                  end
              | None =>
                  if str_eqb line "*** End of File" then parse_ops fuel rest
                  else Err ("malformed patch line: " ++ line)
              end
          end
      end
  | _, _ => Ok []
  end.

Definition parse_patch (patch : str) : result (list PatchOp) str :=
  match lines patch with
  | first :: rest =>
      if negb (str_eqb first BEGIN_PATCH) then Err (lit "malformed patch: missing *** Begin Patch")
      else if negb (str_eqb (List.last (first :: rest) []) END_PATCH) then Err (lit "malformed patch: missing *** End Patch")
      else parse_ops (length rest) (removelast rest)
  | [] => Err (lit "malformed patch: missing *** Begin Patch")
  end.

(** ** Hunks *)

(** [content.replacen(p, r, 1)]. *)
Definition replace_first (p r s : str) : str :=
  match find_sub p s with Some i => firstn i s ++ r ++ skipn (i + length p) s | None => s end.

Fixpoint apply_hunks (path content : str) (hunks : list Hunk) : result str str :=
  match hunks with
  | [] => Ok content
  | hunk :: hunks =>
      if str_eqb (old_text hunk) [] then Err ("stale hunk for " ++ path ++ ": empty old text")
      else
        let count := count_matches (old_text hunk) content in
        if negb (count =? 1)%nat then
          Err ("stale hunk for " ++ path ++ ": expected one match, found " ++ dec (N.of_nat count))
        else apply_hunks path (replace_first (old_text hunk) (new_text hunk) content) hunks
  end.

(** ** The plan *)

Variant PlannedChange :=
| PlanWrite (path content : str) (precondition : VfsWritePrecondition)
| PlanDelete (path : str)
| PlanMove (from to : str)
| PlanMoveAndWrite (from to content : str) (from_precondition : option bytes).

Section Patch.
Context {V J Value Decimal : Type} `{VirtualFs V} `{JournalStorage Value Decimal J}.
Context (agent_id : str) (capability : CapabilityToken).
Abbreviation Cell := (Cell V J Decimal).
Abbreviation Planning := (SE Cell PatchError).

Definition mark_touched_path (touched : list str) (path : str) : result (list str) PatchError :=
  if mem path touched then Err (User ("duplicate path in patch: " ++ path)) else Ok (touched ++ [path]).

(** A denial and an exhausted budget are errors of the tool, everything else is told to the model. *)
Definition plan_error (message : str -> str) (err : SandboxError) : PatchError :=
  match err with
  | DeniedByCapability _ | OverBudget _ => SandboxFailed err
  | _ => User (message (sandbox_error_to_string err))
  end.

Definition read_utf8 (path : str) : SE Cell SandboxError str :=
  let! data := read_file agent_id capability path in se_ret (from_utf8_lossy data).

Definition ensure_missing (path operation : str) : Planning unit :=
  let! exists_ := se_map_err (plan_error (fun err => operation ++ " target check failed for " ++ path ++ ": " ++ err))
    (path_exists_for_write agent_id capability path) in
  if exists_ then se_err (User (operation ++ " target already exists: " ++ path)) else se_ret tt.

Definition ensure_present_for_write (path operation : str) : Planning unit :=
  let! exists_ := se_map_err (plan_error (fun err => operation ++ " source check failed for " ++ path ++ ": " ++ err))
    (path_exists_for_write agent_id capability path) in
  if exists_ then se_ret tt else se_err (User (operation ++ " source does not exist: " ++ path)).

Definition plan_op (op : PatchOp) (touched : list str) : Planning (PlannedChange * list str) :=
  match op with
  | Add path content =>
      let! touched := se_lift (mark_touched_path touched path) in
      let! _ := ensure_missing path "add" in
      se_ret (PlanWrite path content Missing, touched)
  | Delete path =>
      let! touched := se_lift (mark_touched_path touched path) in
      let! _ := ensure_present_for_write path "delete" in
      se_ret (PlanDelete path, touched)
  | Update path (Some to) [] =>
      let! touched := se_lift (mark_touched_path touched path) in
      let! touched := se_lift (mark_touched_path touched to) in
      let! _ := ensure_present_for_write path "move" in
      let! _ := ensure_missing to "move" in
      se_ret (PlanMove path to, touched)
  | Update path move_to hunks =>
      let! original := se_map_err (plan_error (fun err => "update failed for " ++ path ++ ": " ++ err)) (read_utf8 path) in
      let! updated := se_lift (map_err User (apply_hunks path original hunks)) in
      let! touched := se_lift (mark_touched_path touched path) in
      match move_to with
      | Some to =>
          let! touched := se_lift (mark_touched_path touched to) in
          let! _ := ensure_missing to "move" in
          se_ret (PlanMoveAndWrite path to updated (Some original), touched)
      | None => se_ret (PlanWrite path updated (Matches original), touched)
      end
  end.

Fixpoint plan_ops (ops : list PatchOp) (touched : list str) : Planning (list PlannedChange) :=
  match ops with
  | [] => se_ret []
  | op :: ops =>
      let! (change, touched) := plan_op op touched in
      let! changes := plan_ops ops touched in
      se_ret (change :: changes)
  end.

Definition plan_patch (patch : str) : Planning (list PlannedChange) :=
  let! ops := se_lift (map_err User (parse_patch patch)) in plan_ops ops [].

(** ** Carrying it out *)

Definition mutation_of (c : PlannedChange) : VfsMutation :=
  match c with
  | PlanWrite path content precondition => MWrite path content precondition
  | PlanDelete path => MDelete path
  | PlanMove from to => MMove from to
  | PlanMoveAndWrite from to content from_precondition => MMoveAndWrite from to content from_precondition
  end.
Definition touched_of (c : PlannedChange) : str :=
  match c with
  | PlanWrite path _ _ | PlanDelete path => path
  | PlanMove from to | PlanMoveAndWrite from to _ _ => from ++ " -> " ++ to
  end.

(** What the tool reports: the message and the paths. *)
Definition applied_message (touched : list str) : str :=
  match touched with
  | [] => "patch applied with no file changes"
  | _ => "patch applied: " ++ join ", " touched
  end.
Definition apply_plan (changes : list PlannedChange) : SE Cell SandboxError (list str) :=
  let! _ := apply_vfs_mutations agent_id capability "apply_patch" (List.map mutation_of changes) in
  se_ret (List.map touched_of changes).
End Patch.

(** ** Fuel *)

Lemma parse_added_rest path ls added rest : parse_added path ls = Ok (added, rest) -> (length rest <= length ls)%nat.
Proof.
  revert added rest. induction ls as [|l ls IH]; intros added rest; cbn [parse_added]; [by intros [= _ <-]|].
  destruct (is_marker_line l); [by intros [= _ <-]|]. destruct (strip_prefix "+" l) as [x|]; [|done].
  destruct (parse_added path ls) as [[a r]|]; [|done]. intros [= _ <-]. specialize (IH a r eq_refl). cbn. lia.
Qed.

Lemma hunk_lines_rest ls old new rest : hunk_lines ls = Ok (old, new, rest) -> (length rest <= length ls)%nat.
Proof.
  revert old new rest. induction ls as [|l ls IH]; intros old new rest; cbn [hunk_lines]; [by intros [= _ _ <-]|].
  destruct (_ || _); [by intros [= _ _ <-]|]. destruct (hunk_lines ls) as [[[o n] r]|].
  - specialize (IH o n r eq_refl). destruct (strip_prefix " " l), (strip_prefix "-" l), (strip_prefix "+" l); try done; intros [= _ _ <-]; cbn; lia.
  - by destruct (strip_prefix " " l), (strip_prefix "-" l), (strip_prefix "+" l).
Qed.

Lemma parse_hunk_rest ls h rest : parse_hunk ls = Ok (h, rest) -> (length rest <= length ls)%nat.
Proof.
  unfold parse_hunk. destruct (hunk_lines ls) as [[[o n] r]|] eqn:E; [|done]. apply hunk_lines_rest in E.
  by destruct o, n; intros [= _ <-].
Qed.

Lemma parse_hunks_rest fuel path ls hs rest : parse_hunks fuel path ls = Ok (hs, rest) -> (length rest <= length ls)%nat.
Proof.
  revert ls hs rest. induction fuel as [|fuel IH]; intros [|l ls] hs rest; cbn [parse_hunks]; try by intros [= _ <-].
  destruct (is_marker_line l); [by intros [= _ <-]|]. destruct (is_hunk_line l); [|done].
  destruct (parse_hunk ls) as [[h r]|] eqn:E; [|done]. apply parse_hunk_rest in E.
  destruct (parse_hunks fuel path r) as [[hs' r']|] eqn:E2; [|done]. apply IH in E2. intros [= _ <-]. cbn. lia.
Qed.

Lemma parse_hunks_fuel n m path ls : (length ls <= n)%nat -> (length ls <= m)%nat -> parse_hunks n path ls = parse_hunks m path ls.
Proof.
  revert m ls. induction n as [|n IH]; intros [|m] [|l ls] Hn Hm; cbn [length] in *; try lia; try done. cbn [parse_hunks].
  destruct (is_marker_line l); [done|]. destruct (is_hunk_line l); [|done].
  destruct (parse_hunk ls) as [[h r]|] eqn:E; [|done]. apply parse_hunk_rest in E. rewrite (IH m r) by lia. done.
Qed.

Lemma parse_move_rest ls : (length (snd (parse_move ls)) <= length ls)%nat.
Proof. destruct ls as [|l ls]; cbn [parse_move]; [done|]. destruct (strip_prefix _ l); cbn; lia. Qed.

Lemma parse_ops_fuel n m ls : (length ls <= n)%nat -> (length ls <= m)%nat -> parse_ops n ls = parse_ops m ls.
Proof.
  revert m ls. induction n as [|n IH]; intros [|m] [|l ls] Hn Hm; cbn [length] in *; try lia; try done. cbn [parse_ops].
  destruct (strip_prefix _ l) as [path|].
  { destruct (parse_added path ls) as [[a r]|] eqn:E; [|done]. apply parse_added_rest in E. by rewrite (IH m r) by lia. }
  destruct (strip_prefix _ l) as [path|]; [by rewrite (IH m ls) by lia|].
  destruct (strip_prefix _ l) as [path|]; [|by rewrite (IH m ls) by lia].
  pose proof (parse_move_rest ls) as Hr. destruct (parse_move ls) as [to r]. cbn [snd] in Hr.
  rewrite (parse_hunks_fuel n m) by lia. destruct (parse_hunks m path r) as [[hs r']|] eqn:E; [|done]. apply parse_hunks_rest in E.
  by rewrite (IH m r') by lia.
Qed.

(** ** Writing a patch *)

Variant HunkLine := ContextLine (l : str) | RemovedLine (l : str) | AddedLine (l : str).

Variant SourceOp :=
| SourceAdd (path : str) (content : list str)
| SourceDelete (path : str)
| SourceUpdate (path : str) (move_to : option str) (hunks : list (list HunkLine)).

Definition render_hunk_line (h : HunkLine) : str :=
  match h with ContextLine l => " " ++ l | RemovedLine l => "-" ++ l | AddedLine l => "+" ++ l end.
Definition render_hunk (h : list HunkLine) : list str := lit "@@" :: List.map render_hunk_line h.
Definition render_op (op : SourceOp) : list str :=
  match op with
  | SourceAdd path content => ("*** Add File: " ++ path) :: List.map (fun l => lit "+" ++ l) content
  | SourceDelete path => ["*** Delete File: " ++ path]
  | SourceUpdate path move_to hunks =>
      ("*** Update File: " ++ path) :: match move_to with Some to => ["*** Move to: " ++ to] | None => [] end
      ++ List.concat (List.map render_hunk hunks)
  end.
Definition unlines (ls : list str) : str := List.concat (List.map (fun l => l ++ [lf]) ls).
Definition render_patch (ops : list SourceOp) : str :=
  unlines (BEGIN_PATCH :: List.concat (List.map render_op ops) ++ [END_PATCH]).

Definition old_line (h : HunkLine) : option str := match h with ContextLine l | RemovedLine l => Some l | AddedLine _ => None end.
Definition new_line (h : HunkLine) : option str := match h with ContextLine l | AddedLine l => Some l | RemovedLine _ => None end.
Definition hunk_of (h : list HunkLine) : Hunk :=
  {| old_text := join_patch_lines (omap old_line h); new_text := join_patch_lines (omap new_line h) |}.
Definition op_of (op : SourceOp) : PatchOp :=
  match op with
  | SourceAdd path content => Add (normalize path) (join_patch_lines content)
  | SourceDelete path => Delete (normalize path)
  | SourceUpdate path move_to hunks => Update (normalize path) (option_map normalize move_to) (List.map hunk_of hunks)
  end.

(** A line as [str::lines] gives it back. *)
Definition plain_line (l : str) : Prop := lf ∉ l /\ strip_suffix [cr] l = None.
Definition source_ok (op : SourceOp) : Prop :=
  Forall plain_line (render_op op) /\
  match op with
  | SourceUpdate _ move_to hunks => Forall (fun h => h <> []) hunks /\ (move_to <> None \/ hunks <> [])
  | _ => True
  end.

Lemma lines_unlines ls : Forall plain_line ls -> lines (unlines ls) = ls.
Proof.
  intros Hl. unfold lines, unlines. induction Hl as [|l ls [Hn Hc] _ IH]; [done|]. cbn [List.map List.concat].
  rewrite <- app_assoc. cbn [app]. rewrite split_on_app by done. pose proof (split_on_nonempty lf (List.concat (List.map (fun l => l ++ [lf]) ls))) as Hs.
  destruct (split_on lf _) as [|p ps]; [done|]. change (lines_of (l :: p :: ps)) with (unwrap_or (strip_suffix [cr] l) l :: lines_of (p :: ps)). by rewrite Hc, IH.
Qed.

(** What may come after the lines of an added file or of a hunk. *)
Definition stops (p : str -> bool) (rest : list str) : Prop := match rest with [] => True | l :: _ => p l = true end.

Lemma added_lines path content rest : stops is_marker_line rest ->
  parse_added path (List.map (fun l => lit "+" ++ l) content ++ rest) = Ok (content, rest).
Proof.
  intros Hr. induction content as [|l content IH]; cbn [List.map app].
  - destruct rest as [|l rest]; [done|]. cbn in Hr |- *. by rewrite Hr.
  - cbn [parse_added]. change (is_marker_line (lit "+" ++ l)) with false. cbv iota. rewrite (strip_prefix_app "+"). by rewrite IH.
Qed.

Lemma hunk_body h rest : stops (fun l => is_marker_line l || is_hunk_line l) rest ->
  hunk_lines (List.map render_hunk_line h ++ rest) = Ok (omap old_line h, omap new_line h, rest).
Proof.
  intros Hr. induction h as [|l h IH]; cbn [List.map app].
  - destruct rest as [|l rest]; [done|]. cbn in Hr |- *. by rewrite Hr.
  - destruct l as [l|l|l]; cbn [hunk_lines render_hunk_line app]; rewrite IH; cbn; done.
Qed.

Lemma hunk_lines_nonempty h : h <> [] -> omap old_line h <> [] \/ omap new_line h <> [].
Proof. destruct h as [|[l|l|l] h]; [done|left|left|right]; done. Qed.

Lemma parse_rendered_hunks n path hs rest :
  Forall (fun h => h <> []) hs -> stops is_marker_line rest -> (length (List.concat (List.map render_hunk hs) ++ rest) <= n)%nat ->
  parse_hunks n path (List.concat (List.map render_hunk hs) ++ rest) = Ok (List.map hunk_of hs, rest).
Proof.
  intros Hh Hr. revert n. induction Hh as [|h hs Hne Hh IH]; intros n Hn; cbn [List.map List.concat app].
  - destruct rest as [|l rest], n as [|n]; try done. cbn [parse_hunks]. cbn in Hr. by rewrite Hr.
  - cbn [List.map List.concat render_hunk app length] in Hn. destruct n as [|n]; [lia|].
    cbn [render_hunk app]. rewrite <- app_assoc in Hn |- *. rewrite length_app in Hn. cbn [parse_hunks].
    change (is_marker_line (lit "@@")) with false. change (is_hunk_line (lit "@@")) with true. cbv iota.
    unfold parse_hunk. rewrite hunk_body.
    + unfold hunk_of at 1. destruct (hunk_lines_nonempty h Hne) as [Ho|Ho], (omap old_line h) eqn:Eo, (omap new_line h) eqn:En; try done;
        by rewrite (IH n) by lia.
    + destruct hs as [|h' hs]; [|done]. destruct rest as [|l rest]; [done|]. cbn in Hr |- *. by rewrite Hr.
Qed.

Lemma render_op_head op : stops is_marker_line (render_op op) /\ render_op op <> [].
Proof. by destruct op. Qed.

Lemma parse_rendered_ops n ops :
  Forall source_ok ops -> (length (List.concat (List.map render_op ops)) <= n)%nat ->
  parse_ops n (List.concat (List.map render_op ops)) = Ok (List.map op_of ops).
Proof.
  intros Ho. revert n. induction Ho as [|op ops Hop Ho IH]; intros n Hn; [by destruct n|].
  cbn [List.map List.concat] in *. rewrite length_app in Hn.
  assert (stops is_marker_line (List.concat (List.map render_op ops))) as Hs.
  { destruct ops as [|o ops]; [done|]. cbn [List.map List.concat]. destruct (render_op_head o) as [? ?]. by destruct (render_op o). }
  destruct op as [path content|path|path move_to hs]; cbn [render_op length app] in *; (destruct n as [|n]; [lia|]); cbn [parse_ops].
  - rewrite (strip_prefix_app "*** Add File: "), added_lines by done. rewrite IH by lia. done.
  - change (strip_prefix (lit "*** Add File: ") (lit "*** Delete File: " ++ path)) with (@None str).
    rewrite (strip_prefix_app "*** Delete File: "), IH by lia. done.
  - change (strip_prefix (lit "*** Add File: ") (lit "*** Update File: " ++ path)) with (@None str).
    change (strip_prefix (lit "*** Delete File: ") (lit "*** Update File: " ++ path)) with (@None str).
    rewrite (strip_prefix_app "*** Update File: "). destruct Hop as [_ [Hh Hne]]. rewrite <- app_assoc.
    assert (parse_move (match move_to with Some to => [lit "*** Move to: " ++ to] | None => [] end ++
      List.concat (List.map render_hunk hs) ++ List.concat (List.map render_op ops)) =
      (option_map normalize move_to, List.concat (List.map render_hunk hs) ++ List.concat (List.map render_op ops))) as ->.
    { destruct move_to as [to|]; cbn [app option_map]; [unfold parse_move; by rewrite (strip_prefix_app "*** Move to: ")|].
      destruct hs as [|h hs]; [by destruct Hne|]. done. }
    rewrite !length_app in Hn. rewrite parse_rendered_hunks; [|done|done|rewrite length_app; lia]. rewrite IH by lia.
    cbn [List.map op_of]. destruct move_to, hs; try done. by destruct Hne.
Qed.

(** Patches round-trip: the parser reads a patch that was written out as the operations it was written
    from, with their paths normalized and the old and the new text of every hunk put together from its
    lines, for any lines that [str::lines] can give back. *)
Theorem patch_parse_render ops : Forall source_ok ops -> parse_patch (render_patch ops) = Ok (List.map op_of ops).
Proof.
  intros Ho. unfold parse_patch, render_patch. rewrite lines_unlines.
  - rewrite str_eqb_refl. cbn [negb]. rewrite app_comm_cons, List.last_last, str_eqb_refl. cbn [negb].
    rewrite removelast_last, (parse_ops_fuel _ (length (List.concat (List.map render_op ops)))); [by apply parse_rendered_ops| |done].
    rewrite length_app. lia.
  - constructor; [split; [by apply (bool_decide_unpack _)|done]|]. apply Forall_app. split.
    + induction Ho as [|op ops [Hl _] _ IH]; [constructor|]. cbn. apply Forall_app. by split.
    + constructor; [split; [by apply (bool_decide_unpack _)|done]|constructor].
Qed.

(** ** What hunks do *)

(** One after the other, each hunk replaces its old text, which is not empty, at its first place in the
    text; every other place overlaps that one. *)
Inductive patched : list Hunk -> str -> str -> Prop :=
| patched_nil text : patched [] text text
| patched_cons h hunks a b out :
    old_text h <> [] ->
    (forall x y, a ++ old_text h ++ b = x ++ old_text h ++ y ->
       (length a <= length x < length a + length (old_text h))%nat) ->
    patched hunks (a ++ new_text h ++ b) out ->
    patched (h :: hunks) (a ++ old_text h ++ b) out.

Lemma count_one p s : p <> [] -> count_matches p s = 1%nat ->
  exists a b, s = a ++ p ++ b /\ find_sub p s = Some (length a) /\
    forall x y, s = x ++ p ++ y -> (length a <= length x < length a + length p)%nat.
Proof.
  intros Hp. unfold count_matches. destruct s as [|c s]; [done|]. cbn [length count_loop].
  pose proof (find_sub_spec p (c :: s)) as Hs. destruct (find_sub p (c :: s)) as [i|]; [|done]. destruct Hs as (a & b & Es & Ei & Hmin).
  intros [= Hc]. assert (skipn (i + length p) (c :: s) = b) as Eb.
  { rewrite Es, <- Ei, app_assoc, <- length_app. apply drop_app_length. }
  rewrite Eb in Hc. assert (find_sub p b = None) as Hb.
  { destruct (length s) as [|n] eqn:El.
    - destruct s; [|done]. apply (f_equal length) in Es. rewrite !length_app in Es. destruct p as [|d p]; [done|].
      destruct b; [done|]. cbn in Es. lia.
    - cbn [count_loop] in Hc. by destruct (find_sub p b). }
  exists a, b. split_and!; [done|by rewrite Ei|]. intros x y Ex. pose proof (Hmin x y Ex) as Hx. split; [lia|].
  destruct (decide (length a + length p <= length x)%nat) as [Hl|]; [|lia]. exfalso.
  assert (exists z, x = (a ++ p) ++ z) as [z ->].
  { rewrite Es in Ex. rewrite app_assoc in Ex. apply app_eq_inv in Ex as [(k & E1 & E2)|(k & E1 & E2)]; [|by exists k].
    destruct k as [|d k]; [exists []; by rewrite app_nil_r in *|]. apply (f_equal length) in E1. rewrite !length_app in E1. cbn in E1. lia. }
  rewrite Es, <- !app_assoc in Ex. apply app_inv_head in Ex. apply app_inv_head in Ex.
  pose proof (find_sub_spec p b) as Hf. rewrite Hb in Hf. by destruct (Hf z y).
Qed.

Lemma apply_hunks_patched path hunks text out : apply_hunks path text hunks = Ok out -> patched hunks text out.
Proof.
  revert text. induction hunks as [|h hunks IH]; intros text; cbn [apply_hunks]; [intros [= <-]; constructor|].
  destruct (str_eqb (old_text h) []) eqn:Eo; [done|]. destruct (Nat.eqb_spec (count_matches (old_text h) text) 1) as [Ec|]; [|done].
  cbn [negb]. intros Ho. bools. destruct (count_one _ _ Eo Ec) as (a & b & -> & Ef & Hu).
  unfold replace_first in Ho. rewrite Ef, take_app_length, (app_assoc a (old_text h) b), <- length_app, drop_app_length in Ho.
  constructor; [done|done|]. by apply IH.
Qed.

(** ** From the plan to the batch *)

Section Effect.
Context {V J Value Decimal : Type} `{HF : VirtualFs V} `{HJ : JournalStorage Value Decimal J}.
Context (agent_id : str) (capability : CapabilityToken).
Abbreviation Cell := (Cell V J Decimal).

(** What a plan knows of the files it was made from. *)
Definition planned (v : V) (op : PatchOp) (change : PlannedChange) : Prop :=
  match op with
  | Add path content => change = PlanWrite path content Missing
  | Delete path => change = PlanDelete path
  | Update path (Some to) [] => change = PlanMove path to
  | Update path move_to hunks =>
      exists data out, vfs_read v path = Ok data /\ patched hunks (from_utf8_lossy data) out /\
        change = match move_to with
                 | Some to => PlanMoveAndWrite path to out (Some (from_utf8_lossy data))
                 | None => PlanWrite path out (Matches (from_utf8_lossy data))
                 end
  end.

(** What a batch does to carry an operation out on files [v]. *)
Definition carried (v : V) (op : PatchOp) (items : list FsMutation) : Prop :=
  match op with
  | Add path content => vfs_exists v path = false /\ items = [Write path content MustBeAbsent]
  | Delete path => exists p md, vfs_metadata v path = Ok md /\ is_file md = true /\ items = [Remove path p]
  | Update path (Some to) [] => vfs_exists v to = false /\ exists p, items = [Rename path to p]
  | Update path move_to hunks =>
      exists text out p, vfs_read v path = Ok text /\ patched hunks text out /\
        match move_to with
        | Some to => vfs_exists v to = false /\ items = [Write to out MustBeAbsent; Remove path p]
        | None => items = [Write path out p]
        end
  end.

Lemma exists_ensures v b path : ensures (stands v b) (path_exists_for_write agent_id capability path) (fun r => r = vfs_exists v path).
Proof.
  eapply ensures_bind; [apply ensures_keeps, check_stands|]. intros _ _ c [Hv Hb]. cbn. split; [by split|]. intros a [= <-]. by rewrite Hv.
Qed.

Lemma read_ensures v b path : ensures (stands v b) (read_utf8 agent_id capability path)
  (fun text => exists data, vfs_read v path = Ok data /\ text = from_utf8_lossy data).
Proof.
  unfold read_utf8. eapply (ensures_bind _ _ _ (fun data => vfs_read v path = Ok data)); [|by intros data Hd; apply ensures_ret; eauto].
  eapply ensures_bind; [apply ensures_keeps, check_stands|]. intros _ _.
  eapply (ensures_bind _ _ _ (fun o => o = vfs_read v path)).
  { intros c [Hv Hb]. cbn. split; [by split|]. intros a [= <-]. by rewrite Hv. }
  intros o ->. destruct (vfs_read v path) as [data|err].
  - eapply ensures_bind; [apply ensures_keeps, journal_try_stands|]. intros _ _. by apply ensures_ret.
  - eapply ensures_bind; [apply ensures_keeps, journal_try_stands|]. intros _ _. apply ensures_err.
Qed.

Lemma missing_ensures v b path operation :
  ensures (stands v b) (ensure_missing agent_id capability path operation) (fun _ => True).
Proof.
  eapply ensures_bind; [apply ensures_map_err, exists_ensures|]. intros a ->. destruct (vfs_exists v path); [apply ensures_err|by apply ensures_ret].
Qed.
Lemma present_ensures v b path operation :
  ensures (stands v b) (ensure_present_for_write agent_id capability path operation) (fun _ => True).
Proof.
  eapply ensures_bind; [apply ensures_map_err, exists_ensures|]. intros a ->. destruct (vfs_exists v path); [by apply ensures_ret|apply ensures_err].
Qed.

Ltac ensure_step :=
  first [apply ensures_bind with (Q := fun _ => True); [first [apply missing_ensures | apply present_ensures | by apply ensures_lift] |intros ? _]
        |apply ensures_ret].

Lemma plan_op_ensures v b op touched :
  ensures (stands v b) (plan_op agent_id capability op touched) (fun r => planned v op (fst r)).
Proof.
  destruct op as [path content|path|path move_to hunks]; cbn [plan_op planned]; [by repeat ensure_step..|].
  destruct move_to as [to|], hunks as [|h hunks]; [by repeat ensure_step| | |];
    (eapply ensures_bind; [apply ensures_map_err, read_ensures|]; intros text (data & Hd & ->);
     eapply (ensures_bind _ _ _ (fun out => patched _ (from_utf8_lossy data) out));
       [apply ensures_lift; intros out Ho; destruct (apply_hunks _ _ _) eqn:E; [|done]; injection Ho as <-; eapply apply_hunks_patched, E|];
     intros out Ho; repeat ensure_step; by eexists _, _).
Qed.

Lemma plan_ops_ensures v b ops touched :
  ensures (stands v b) (plan_ops agent_id capability ops touched) (fun changes => Forall2 (planned v) ops changes).
Proof.
  revert touched. induction ops as [|op ops IH]; intros touched; cbn [plan_ops]; [apply ensures_ret; constructor|].
  eapply ensures_bind; [apply plan_op_ensures|]. intros [ch t] Hc. eapply ensures_bind; [apply IH|]. intros chs Hs. apply ensures_ret. by constructor.
Qed.

(** *** The batch *)

Lemma prepare_mutation_batch v m p q : prepare_mutation v m p = Ok q -> batch q = batch p.
Proof.
  destruct m; cbn [prepare_mutation]; repeat match goal with |- (let? _ := ?e in _) = _ -> _ => destruct e; [|done] end; by intros [= <-].
Qed.

Lemma prepare_loop_items v ms p q : prepare_loop v ms p = Ok q ->
  exists itemss, batch q = batch p ++ List.concat itemss /\
    Forall2 (fun m items => batch_items v m = Ok items /\ exists p1 p2, prepare_mutation v m p1 = Ok p2) ms itemss.
Proof.
  revert p. induction ms as [|m ms IH]; intros p; cbn [prepare_loop].
  - intros [= <-]. exists []. split; [by rewrite app_nil_r|constructor].
  - destruct (batch_items v m) as [items|e] eqn:Ei; [|done]. destruct (prepare_mutation v m _) as [p2|e] eqn:Ep; [|done].
    intros Hq. destruct (IH p2 Hq) as (itemss & Eb & Hi). exists (items :: itemss). split; [|constructor; [split; [done|by eexists _, _]|done]].
    rewrite Eb, (prepare_mutation_batch _ _ _ _ Ep). cbn [batch List.concat]. by rewrite <- app_assoc.
Qed.

Lemma matches_read v path expected : validate_file_matches v path expected = Ok tt -> vfs_read v path = Ok expected.
Proof.
  unfold validate_file_matches. destruct (vfs_metadata v path) as [md|]; [|done]. cbn [map_err]. destruct (negb _); [done|].
  destruct (vfs_read v path) as [current|]; [|done]. cbn [map_err]. destruct (str_eqb current expected) eqn:E; [|done]. by bools; subst.
Qed.

Lemma missing_not_exists v path : ensure_vfs_path_missing v path = Ok tt -> vfs_exists v path = false.
Proof. unfold ensure_vfs_path_missing. by destruct (vfs_exists v path). Qed.

Lemma require_file_Ok v path : require_file v path = Ok tt -> exists md, vfs_metadata v path = Ok md /\ is_file md = true.
Proof. unfold require_file. destruct (vfs_metadata v path) as [md|]; [|done]. cbn. destruct (is_file md) eqn:E; [|done]. by eexists. Qed.

Lemma planned_carried v0 v op ch items p1 p2 :
  planned v0 op ch -> batch_items v (mutation_of ch) = Ok items -> prepare_mutation v (mutation_of ch) p1 = Ok p2 -> carried v op items.
Proof.
  destruct op as [path content|path|path move_to hunks]; cbn [planned carried].
  - intros ->. cbn [mutation_of batch_items prepare_mutation validate_write_precondition]. intros [= <-].
    destruct (ensure_parent_components_are_directories v path) as [[]|]; [|done]. destruct (ensure_vfs_path_missing v path) as [[]|] eqn:E; [|done].
    intros _. split; [by apply missing_not_exists|done].
  - intros ->. cbn [mutation_of batch_items prepare_mutation]. destruct (revision_or_unconditional v path) as [r|]; [|done]. intros [= <-].
    destruct (require_file v path) as [[]|] eqn:E; [|done]. apply require_file_Ok in E as (md & ? & ?). intros _. by exists r, md.
  - assert (forall to out text, batch_items v (MMoveAndWrite path to out (Some text)) = Ok items ->
      prepare_mutation v (MMoveAndWrite path to out (Some text)) p1 = Ok p2 ->
      vfs_read v path = Ok text /\ vfs_exists v to = false /\ exists p, items = [Write to out MustBeAbsent; Remove path p]) as Hm.
    { intros to out text. cbn [batch_items prepare_mutation]. destruct (revision_or_unconditional v path) as [r|]; [|done]. intros [= <-].
      destruct (require_file v path) as [[]|]; [|done]. destruct (validate_file_matches v path text) as [[]|] eqn:E1; [|done].
      destruct (ensure_parent_components_are_directories v to) as [[]|]; [|done]. destruct (ensure_vfs_path_missing v to) as [[]|] eqn:E2; [|done].
      intros _. split_and!; [by apply matches_read|by apply missing_not_exists|by eexists]. }
    assert (forall out text, batch_items v (MWrite path out (Matches text)) = Ok items ->
      prepare_mutation v (MWrite path out (Matches text)) p1 = Ok p2 -> vfs_read v path = Ok text /\ exists p, items = [Write path out p]) as Hw.
    { intros out text. cbn [batch_items prepare_mutation validate_write_precondition]. destruct (revision_or_unconditional v path) as [r|]; [|done].
      intros [= <-]. destruct (ensure_parent_components_are_directories v path) as [[]|]; [|done].
      destruct (validate_file_matches v path text) as [[]|] eqn:E1; [|done]. intros _. split; [by apply matches_read|by eexists]. }
    destruct move_to as [to|], hunks as [|h hunks].
    { intros ->. cbn [mutation_of batch_items prepare_mutation]. destruct (revision_or_unconditional v path) as [r|]; [|done]. intros [= <-].
      destruct (require_file v path) as [[]|]; [|done]. destruct (ensure_parent_components_are_directories v to) as [[]|]; [|done].
      destruct (ensure_vfs_path_missing v to) as [[]|] eqn:E; [|done]. intros _. split; [by apply missing_not_exists|by eexists]. }
    all: intros (data & out & Hd & Hp & ->) Hi Hpm; cbn [mutation_of] in Hi, Hpm.
    1: destruct (Hm _ _ _ Hi Hpm) as (? & ? & p & ->). 2-3: destruct (Hw _ _ Hi Hpm) as (? & p & ->).
    all: by eexists _, _, _.
Qed.
End Effect.

(** ** The tool's promise *)

(** The batch prepared from a plan carries each operation, in order. *)
Lemma prepared_carried `{VirtualFs V} (v0 v : V) ops changes p :
  Forall2 (planned v0) ops changes -> prepare_all_mutations v (List.map mutation_of changes) = Ok p ->
  exists itemss, batch p = List.concat itemss /\ Forall2 (carried v) ops itemss.
Proof.
  intros Hc (itemss & Eb & Hit)%prepare_loop_items. exists itemss. split; [exact Eb|]. clear -Hc Hit. revert itemss Hit.
  induction Hc as [|op ch ops changes Hoc _ IH]; intros itemss Hit; inversion Hit as [|? items ? itemss' (Hi & p1 & p2 & Hp) Hrest]; subst; constructor.
  - by eapply planned_carried.
  - by apply IH.
Qed.

Section Promise.
Context {V J Value Decimal : Type} `{HL : VirtualFsLaws V} `{HJ : JournalStorage Value Decimal J}.
Context (agent_id : str) (capability : CapabilityToken).
Abbreviation Cell := (Cell V J Decimal).

(** What a batch leaves of the files: all of it, or nothing. *)
Lemma batch_files t ms (c c' : Cell) r :
  fs_inv (cell_vfs c) ->
  (forall p v' m, prepare_all_mutations (cell_vfs c) ms = Ok p -> vfs_apply_batch (cell_vfs c) (batch p) <> (v', Err (Unsupported m))) ->
  (forall ta, tally (cell_vfs c) ms no_tally = Ok ta -> (used_vfs_bytes (cell_budget c) + write_bytes ta <= u64_max)%N) ->
  apply_vfs_mutations agent_id capability t ms c = (c', r) ->
  match r with
  | Ok _ => exists p, prepare_all_mutations (cell_vfs c) ms = Ok p /\ vfs_apply_batch (cell_vfs c) (batch p) = (cell_vfs c', Ok tt)
  | Err e => cell_vfs c' = cell_vfs c \/
      exists m p, e = VfsFailed (OutcomeUnknown m) /\ prepare_all_mutations (cell_vfs c) ms = Ok p /\
        lands (cell_vfs c) (CBatch (batch p)) (cell_vfs c')
  end.
Proof.
  intros Hi Hat Hn Hr. set (v := cell_vfs c) in *. set (b := cell_budget c) in *.
  apply (apply_to_commit agent_id capability v b) in Hr as [(ta & p & rb & c1 & Hta & Hp & Hs & Hr)|(e & -> & Hv & _)]; [|by left|done..].
  specialize (Hn ta Hta). apply (commit_atomic agent_id v b) in Hr; [|done|by intros; apply Hat|done..].
  destruct r as [[]|e]; [exists p; split; [done|apply Hr]|].
  destruct Hr as [[Hr _]|([m ->] & _ & [Hr|Hr])]; [by left|by left|right]. by exists m, p.
Qed.

(** C21. A patch is applied to the files its author saw, whole or not at all, on a filesystem that keeps
    the interface's laws and does not refuse the batch as unsupported (the code then falls back to one
    call at a time), while the byte counter does not saturate.  Planning leaves every file alone.
    Whatever happened to the files between the plan and its commit: a commit that succeeds is one
    atomic batch with the changes of every operation of the patch, in order; each file added or moved to
    did not exist, each file edited is, at that moment, exactly the text the hunks were matched against,
    and what is written is that text with the old text of each hunk replaced at its first place, any other
    place overlapping it; a commit that fails leaves every file as it was, unless it ends in
    [OutcomeUnknown], when that same batch, as fresh, may have taken effect whole. *)
Theorem patch_is_fresh_and_atomic patch (c0 c1 c c' : Cell) changes r :
  plan_patch agent_id capability patch c0 = (c1, Ok changes) ->
  fs_inv (cell_vfs c) ->
  let ms := List.map mutation_of changes in
  (forall p v' m, prepare_all_mutations (cell_vfs c) ms = Ok p -> vfs_apply_batch (cell_vfs c) (batch p) <> (v', Err (Unsupported m))) ->
  (forall ta, tally (cell_vfs c) ms no_tally = Ok ta -> (used_vfs_bytes (cell_budget c) + write_bytes ta <= u64_max)%N) ->
  apply_plan agent_id capability changes c = (c', r) ->
  cell_vfs c1 = cell_vfs c0 /\
  match r with
  | Ok _ => exists ops itemss, parse_patch patch = Ok ops /\ Forall2 (carried (cell_vfs c)) ops itemss /\
      vfs_apply_batch (cell_vfs c) (List.concat itemss) = (cell_vfs c', Ok tt)
  | Err e => cell_vfs c' = cell_vfs c \/
      exists m ops itemss, e = VfsFailed (OutcomeUnknown m) /\
        parse_patch patch = Ok ops /\ Forall2 (carried (cell_vfs c)) ops itemss /\
        lands (cell_vfs c) (CBatch (List.concat itemss)) (cell_vfs c')
  end.
Proof.
  intros Hplan Hi ms Hat Hn Hr. unfold plan_patch, se_bind, se_lift in Hplan.
  destruct (parse_patch patch) as [ops|] eqn:Eops; [|done]. cbn [map_err] in Hplan.
  destruct (plan_ops_ensures agent_id capability (cell_vfs c0) (cell_budget c0) ops [] c0 (conj eq_refl eq_refl)) as [[Hv _] Hc].
  rewrite Hplan in Hv, Hc. cbn [fst snd] in Hv, Hc. specialize (Hc changes eq_refl). split; [done|].
  unfold apply_plan, se_bind in Hr. fold ms in Hr.
  destruct (apply_vfs_mutations agent_id capability "apply_patch" ms c) as [c2 [[]|e]] eqn:Ea;
    injection Hr as <- <-; pose proof (batch_files _ _ _ _ _ Hi Hat Hn Ea) as Hb; cbn in Hb.
  - destruct Hb as (p & Hp & Hba). destruct (prepared_carried _ _ ops changes p Hc Hp) as (itemss & Eb & Hit).
    rewrite Eb in Hba. by exists ops, itemss.
  - destruct Hb as [?|(m & p & -> & Hp & Hl)]; [by left|right].
    destruct (prepared_carried _ _ ops changes p Hc Hp) as (itemss & Eb & Hit). rewrite Eb in Hl. by exists m, ops, itemss.
Qed.
End Promise.

(** ** Concrete patches

    Over the files [/a/b], which holds [hi], and no others, for the token and budget of [Sandbox]. *)

#[local] Instance ex_vfs : VirtualFs State := memory_fs ex_to_vec ex_from_slice.
#[local] Instance ex_laws : VirtualFsLaws State := memory_laws ex_to_vec ex_from_slice.
#[local] Instance ex_journal : JournalStorage unit N (list (JournalEntry unit)) := memory_journal (fun _ => Err []).

Definition ex_source : list SourceOp :=
  [SourceAdd "a/c" [lit "one"; lit "two"]; SourceUpdate "/a/b" None [[ContextLine "keep"; RemovedLine "old"; AddedLine "new"]];
   SourceUpdate "/a/d" (Some (lit "/a/./e")) []; SourceDelete "/a/../f"].

Lemma patch_parse_render_witness :
  Forall source_ok ex_source /\
  parse_patch (render_patch ex_source) =
    Ok [Add "/a/c" (lit "one" ++ lf :: lit "two" ++ [lf]);
        Update "/a/b" None [{| old_text := lit "keep" ++ lf :: lit "old" ++ [lf]; new_text := lit "keep" ++ lf :: lit "new" ++ [lf] |}];
        Update "/a/d" (Some (lit "/a/e")) []; Delete "/f"].
Proof.
  assert (Forall source_ok ex_source) as Ho.
  { repeat constructor; cbn; first [by apply (bool_decide_unpack _) | done | by left | by right]. }
  split; [exact Ho|]. exact (patch_parse_render ex_source Ho).
Defined.

(** A file of one line, and one that ends the same way. *)
Definition ex_files (text : str) : State := fst (vfs_write ex_fs "/a/b" text).
Definition ex_at (text : str) : Cell State (list (JournalEntry unit)) N :=
  {| cell_vfs := ex_files text;
     cell_budget := {| max_tokens := 0; max_turns := 0; max_cost := 0%N; max_sub_agents := 0; max_vfs_bytes := 0; used_tokens := 0;
       used_turns := 0; used_cost := 0%N; used_sub_agents := 0; used_vfs_bytes := 4; max_fuel := 0; used_fuel := 0 |};
     cell_journal := [] |}.
Definition ex_edit : str :=
  render_patch [SourceUpdate "/a/b" None [[RemovedLine "cat"; AddedLine "dog"]]; SourceAdd "/a/c" [lit "new"]].
Definition ex_plan (text : str) := plan_patch (Value := unit) "agent" ex_token ex_edit (ex_at text).
Definition ex_commit (planned_on text : str) :=
  match snd (ex_plan planned_on) with
  | Ok changes => apply_plan (Value := unit) "agent" ex_token changes (ex_at text)
  | Err _ => (ex_at text, Err (Internal []))
  end.

(** A file edited after the plan keeps the edit: the commit is refused and adds no other file either. *)
Lemma patch_is_fresh_and_atomic_witness :
  let changed := lit "a cat" ++ [lf] in
  cell_vfs (fst (ex_commit (lit "cat" ++ [lf]) changed)) = ex_files changed /\
  vfs_read (cell_vfs (fst (ex_commit (lit "cat" ++ [lf]) (lit "cat" ++ [lf])))) "/a/b" = Ok (lit "dog" ++ [lf]).
Proof.
  cbv zeta. split; [|vm_compute; reflexivity].
  set (text := lit "cat" ++ [lf]). set (changed := lit "a cat" ++ [lf]).
  assert (exists changes, snd (ex_plan text) = Ok changes /\
    changes = [PlanWrite "/a/b" (lit "dog" ++ [lf]) (Matches text); PlanWrite "/a/c" (lit "new" ++ [lf]) Missing]) as (changes & Ep & Ec)
    by (eexists; split; [vm_compute; reflexivity|reflexivity]).
  unfold ex_commit. rewrite Ep.
  pose proof (patch_is_fresh_and_atomic (Value := unit) "agent" ex_token ex_edit (ex_at text) (fst (ex_plan text)) (ex_at changed)
    (fst (apply_plan (Value := unit) "agent" ex_token changes (ex_at changed))) changes
    (snd (apply_plan (Value := unit) "agent" ex_token changes (ex_at changed)))) as H.
  assert (snd (apply_plan (Value := unit) "agent" ex_token changes (ex_at changed))
    = Err (VfsFailed (Io ("stale write precondition failed for " ++ lit "/a/b")))) as Er by (subst changes; vm_compute; reflexivity).
  rewrite Er in H. destruct H as [_ [H|(m & ? & ? & Em & _)]]; [..|exact H|discriminate Em].
  - rewrite <- Ep. apply surjective_pairing.
  - eapply (run_keeps_inv ex_fs (CWrite "/a/b" changed) (ex_files changed) (snd (vfs_write ex_fs "/a/b" changed))); [exact ex_fs_inv|].
    apply surjective_pairing.
  - intros p v' m Hp. subst changes. vm_compute in Hp. discriminate.
  - intros ta Hta. subst changes. vm_compute in Hta. injection Hta as <-. vm_compute. discriminate.
  - rewrite <- Er. apply surjective_pairing.
Defined.

(** A hunk is matched as text, not as lines: the line [a cat] is edited by a hunk for the line [cat]. *)
Example hunk_edits_a_longer_line :
  apply_hunks "/a/b" (lit "a cat" ++ [lf]) [hunk_of [RemovedLine "cat"; AddedLine "dog"]] = Ok (lit "a dog" ++ [lf]).
Proof. reflexivity. Qed.

(** Places that overlap are counted as one. *)
Example overlapping_places_count_once :
  let blank := [RemovedLine ""; RemovedLine ""] in
  apply_hunks "/a/b" [lf; lf; lf] [hunk_of (blank ++ [AddedLine "x"])] = Ok (lit "x" ++ [lf; lf]).
Proof. reflexivity. Qed.
