(* ===== verification/FsProxy.v ===== *)
(** * The filesystem scripts and the shell see

    Models [crates/simulacra-sandbox/src/fs_proxy.rs], [fs_proxy_append.rs], [fs_proxy_rename.rs] and
    [fs_proxy_vfs.rs]: every operation of a script or a shell on a cell's files checks the capability,
    charges the budget and journals on its way to the filesystem.

    Others may change the files while an append looks at them: what they do at its three suspensions is
    an argument.  A copied directory is walked with fuel, one step for a level of the tree. *)

From S2P Require Import Prelude.
From S2P Require Import Segments.
From S2P Require Import Capability.
From S2P Require Import Vfs.
From S2P Require Import MemoryFs.
From S2P Require Import Context.
From S2P Require Import Budget.
From S2P Require Import Journal.
From S2P Require Import Guards.
From S2P Require Import Sandbox.

(** ** Appending ([fs_proxy_append.rs]) *)

Section Append.
Context {V : Type} `{VirtualFs V}.

Definition revision_of (v : V) (path : str) : result (option N) VfsError :=
  let? meta := vfs_metadata v path in Ok (revision meta).

Variant Observed := Stable (existing : bytes) (p : Precondition) | Changed.

(** [others] run between the three looks. *)
Definition observe (others1 others2 : V -> V) (path : str) : SE V VfsError Observed := fun v =>
  let before := revision_of v path in
  let v := others1 v in
  match vfs_read v path with
  | Err (NotFound _) => (v, Ok (Stable [] MustBeAbsent))
  | Err err => (v, Err err)
  | Ok existing =>
      let v := others2 v in
      let after := revision_of v path in
      (v, match before, after with
          | Ok (Some b), Ok (Some a) => Ok (if (a =? b)%N then Stable existing (MustMatch a) else Changed)
          | Ok None, Ok None => Ok (Stable existing Unconditional)
          | Err (NotFound _), _ | _, Err (NotFound _) => Ok Changed
          | Err err, _ | _, Err err => Err err
          | _, _ => Ok Changed
          end)
  end.

Definition RACED : str := "append raced with another writer twice".
Variant Attempt := Done | Raced.

Definition attempt (others1 others2 others3 : V -> V) (path : str) (data : bytes) : SE V VfsError Attempt :=
  let! observed := observe others1 others2 path in
  match observed with
  | Changed => se_ret Raced
  | Stable existing precondition => fun v =>
      let combined := existing ++ data in
      match vfs_write_if (others3 v) path combined precondition with
      | (v, Ok _) => (v, Ok Done)
      | (v, Err (Unsupported _)) =>
          match vfs_write v path combined with (v, Ok _) => (v, Ok Done) | (v, Err e) => (v, Err e) end
      | (v, Err (Conflict _)) => (v, Ok Raced)
      | (v, Err e) => (v, Err e)
      end
  end.

(** [others i] is what runs at the suspension number [i]. *)
Definition append_conditionally (others : nat -> V -> V) (path : str) (data : bytes) : SE V VfsError unit :=
  let! first := attempt (others 0%nat) (others 1%nat) (others 2%nat) path data in
  match first with
  | Done => se_ret tt
  | Raced =>
      let! second := attempt (others 3%nat) (others 4%nat) (others 5%nat) path data in
      match second with Done => se_ret tt | Raced => se_err (Conflict RACED) end
  end.
End Append.

(** ** Renaming ([fs_proxy_rename.rs]) *)

Definition join_vfs_path (parent child : str) : str :=
  if str_eqb parent "/" then "/" ++ child else trim_end_matches "/" parent ++ "/" ++ child.

Section Rename.
Context {V J Value Decimal : Type} `{VirtualFs V} `{JournalStorage Value Decimal J}.
Abbreviation Cell := (Cell V J Decimal).
Abbreviation OpV := (SE Cell VfsError).
Context (write : str -> bytes -> OpV unit).

(** [fuel] levels of directories. *)
Fixpoint copy_vfs_entry (fuel : nat) (from to : str) : OpV unit :=
  match fuel with
  | O => se_err (Io "the tree is deeper than the fuel")
  | S fuel =>
      let! meta := of_vfs (fun v => vfs_metadata v from) in
      if is_file meta then
        let! data := of_vfs (fun v => vfs_read v from) in write to data
      else
        let! _ := on_vfs (fun v => vfs_mkdir v to) in
        let! children := of_vfs (fun v => vfs_list_dir v from) in
        se_for children (fun child => copy_vfs_entry fuel (join_vfs_path from child) (join_vfs_path to child))
  end.

Definition pin (r : option N) : Precondition := match r with Some r => MustMatch r | None => Unconditional end.

Definition rename_replacing (fuel : nat) (from to : str) : OpV unit :=
  let! source := of_vfs (fun v => vfs_metadata v from) in
  if str_eqb (normalize from) (normalize to) then se_ret tt
  else
    let! looked := se_try (of_vfs (fun v => vfs_metadata v to)) in
    let! atomic :=
      match looked with
      | Err (NotFound _) => se_try (on_vfs (fun v => vfs_rename v from to))
      | Err err => se_err err
      | Ok target =>
          if is_dir target then se_err (Conflict ("destination is a directory: " ++ to))
          else if is_dir source then se_err (Conflict ("cannot replace a file with a directory: " ++ to))
          else se_try (on_vfs (fun v => vfs_apply_batch v [Remove to (pin (revision target)); Rename from to (pin (revision source))]))
      end in
    match atomic with
    | Err (Unsupported _) =>
        let! _ := copy_vfs_entry fuel from to in on_vfs (fun v => vfs_remove v from)
    | Err e => se_err e
    | Ok _ => se_ret tt
    end.
End Rename.

(** ** The proxy ([fs_proxy.rs]) *)

Section Proxy.
Context {V J Value Decimal : Type} `{VirtualFs V} `{JournalStorage Value Decimal J}.
Context (agent_id : str) (capability : CapabilityToken).
Abbreviation Cell := (Cell V J Decimal).
Abbreviation OpS := (SE Cell str).
Abbreviation OpV := (SE Cell VfsError).

(** [map_err(|e| e.to_string())] of the sandbox's guards. *)
Definition told {A} (m : SE Cell SandboxError A) : OpS A := se_map_err sandbox_error_to_string m.
Definition check_read (path operation_ : str) : OpS unit :=
  told (check_and_journal_capability agent_id (check_path_read capability path) operation_).
Definition check_write (path operation_ : str) : OpS unit :=
  told (check_and_journal_capability agent_id (check_path_write capability path) operation_).
Definition reserve_write_budget (n : N) : OpS unit := told (reserve_vfs_bytes agent_id n).
Definition release_write_budget (err : VfsError) (n : N) : OpS unit := told (release_unless_unknown err n).

Definition journal_file_write {E} (path : str) (n : N) : SE Cell E unit :=
  let! _ := se_try (journal_put agent_id (FileWrite path n)) in se_ret tt.
Definition journal_result {E} (operation_ content : str) (is_error : bool) : SE Cell E unit :=
  let! _ := se_try (journal_put agent_id (tool_result operation_ content is_error)) in se_ret tt.

Definition finish {A} (operation_ : str) (ok_content : A -> str) (m : OpV A) : OpS A :=
  let! outcome := se_try m in
  match outcome with
  | Ok value => let! _ := journal_result operation_ (ok_content value) false in se_ret value
  | Err err => let! _ := journal_result operation_ (vfs_error_to_string err) true in se_err (vfs_error_to_string err)
  end.

Definition bool_text (b : bool) : str := if b then "true" else "false".

Definition stat_metadata (path : str) : OpV FsMetadata :=
  let! _ := se_map_err PermissionDenied (check_read path "stat") in
  let! outcome := se_try (of_vfs (fun v => vfs_metadata v path)) in
  match outcome with
  | Ok meta =>
      let! _ := journal_result "stat" ("stat " ++ path ++ ": file=" ++ bool_text (is_file meta) ++ ", dir="
        ++ bool_text (is_dir meta) ++ ", size=" ++ dec (size meta)) false in
      se_ret meta
  | Err err => let! _ := journal_result "stat" (vfs_error_to_string err) true in se_err err
  end.

Definition charged_copy_write (path : str) (data : bytes) : OpV unit :=
  let n := N.of_nat (length data) in
  let! _ := se_map_err PermissionDenied (reserve_write_budget n) in
  let! _ := journal_file_write path n in
  let! outcome := se_try (on_vfs (fun v => vfs_write v path data)) in
  match outcome with
  | Err err => let! _ := se_map_err PermissionDenied (release_write_budget err n) in se_err err
  | Ok _ => se_ret tt
  end.

(** *** [FsProxy], for scripts *)

Definition proxy_read_file (path : str) : OpS bytes := told (read_file_inner agent_id capability path).
Definition proxy_write_file (path : str) (data : bytes) : OpS unit := told (write_file_inner agent_id capability path data).

Definition proxy_append_file (others : nat -> V -> V) (path : str) (data : bytes) : OpS unit :=
  let n := N.of_nat (length data) in
  let! _ := check_write path "append_file" in
  let! _ := reserve_write_budget n in
  let! _ := journal_file_write path n in
  let! outcome := se_try (on_vfs (append_conditionally others path data)) in
  match outcome with
  | Err err => let! _ := release_write_budget err n in se_err (vfs_error_to_string err)
  | Ok _ => se_ret tt
  end.

Definition proxy_list_dir_bounded (path : str) : OpS (list str * bool) :=
  let! _ := check_read path "list_dir" in
  let! listing := finish "list_dir"
    (fun listing => "listed " ++ dec (N.of_nat (length (entries listing))) ++ " entries in " ++ path)
    (of_vfs (fun v => vfs_list_dir_bounded v path)) in
  se_ret (entries listing, truncated listing).
Definition proxy_list_dir (path : str) : OpS (list str) :=
  let! listing := proxy_list_dir_bounded path in se_ret (fst listing).

Definition proxy_stat (path : str) : OpS (bool * bool * N) :=
  let! meta := se_map_err vfs_error_to_string (stat_metadata path) in se_ret (is_file meta, is_dir meta, size meta).

Definition proxy_remove (path : str) : OpS unit :=
  let! _ := check_write path "remove" in
  let! _ := reserve_write_budget 0 in
  finish "remove" (fun _ => "removed " ++ path) (on_vfs (fun v => vfs_remove v path)).

Definition proxy_rename (fuel : nat) (from to : str) : OpS unit :=
  let! _ := check_write from "rename" in
  let! _ := check_write to "rename" in
  let! _ := reserve_write_budget 0 in
  finish "rename" (fun _ => "renamed " ++ from ++ " to " ++ to) (rename_replacing charged_copy_write fuel from to).

Definition proxy_exists (path : str) : OpS bool :=
  let! _ := check_read path "exists" in fun c => (c, Ok (vfs_exists (cell_vfs c) path)).

Definition proxy_mkdir (path : str) : OpS unit :=
  let! _ := check_write path "mkdir" in
  let! _ := reserve_write_budget 0 in
  finish "mkdir" (fun _ => "created directory " ++ path) (on_vfs (fun v => vfs_mkdir v path)).

(** *** [VirtualFs], for the shell ([fs_proxy_vfs.rs]) *)

Definition refused {A} (m : OpS A) : OpV A := se_map_err PermissionDenied m.

Definition shell_write_if (path : str) (data : bytes) (precondition : Precondition) : OpV unit :=
  let n := N.of_nat (length data) in
  let! _ := refused (check_write path "write_if") in
  let! _ := refused (reserve_write_budget n) in
  let! _ := journal_file_write path n in
  let! outcome := se_try (on_vfs (fun v => vfs_write_if v path data precondition)) in
  match outcome with
  | Err err => let! _ := refused (release_write_budget err n) in se_err err
  | Ok _ => se_ret tt
  end.

Definition shell_rename (from to : str) : OpV unit :=
  let! _ := refused (check_write from "rename") in
  let! _ := refused (check_write to "rename") in
  let! _ := refused (reserve_write_budget 0) in
  let! outcome := se_try (on_vfs (fun v => vfs_rename v from to)) in
  match outcome with
  | Err ((Unsupported _) as err) => se_err err
  | Err err => let! _ := journal_result "rename" (vfs_error_to_string err) true in se_err err
  | Ok _ => journal_result "rename" ("renamed " ++ from ++ " to " ++ to) false
  end.

Definition batch_writes (ms : list FsMutation) : list (str * N) :=
  omap (fun m => match m with Write path data _ => Some (path, N.of_nat (length data)) | _ => None end) ms.
Definition batch_bytes (ms : list FsMutation) : N := fold_right N.add 0%N (List.map snd (batch_writes ms)).

Definition shell_apply_batch (ms : list FsMutation) : OpV unit :=
  let total := batch_bytes ms in
  let! _ := se_for ms (fun m => se_for (mutation_paths m) (fun path => refused (check_write path "apply_batch"))) in
  let! _ := refused (reserve_write_budget total) in
  let! _ := se_for (batch_writes ms) (fun '(path, n) => journal_file_write path n) in
  let! outcome := se_try (on_vfs (fun v => vfs_apply_batch v ms)) in
  match outcome with
  | Ok _ => journal_result "apply_batch" ("applied " ++ dec (N.of_nat (length ms)) ++ " mutations") false
  | Err err =>
      let! _ := refused (release_write_budget err total) in
      match err with
      | Unsupported _ => se_err err
      | _ => let! _ := journal_result "apply_batch" (vfs_error_to_string err) true in se_err err
      end
  end.

Definition not_mediated (what : str) : VfsError := PermissionDenied (what ++ " is not available through mediated shell fs").

(** Reading through the interface of filesystems gives the answer and leaves the entries that reads add to
    the journal out: they decide nothing ([reads_only_journal] below). *)
Definition answer {A E} (m : SE Cell E A) (c : Cell) : result A E := snd (m c).

#[export] Instance proxy_fs : VirtualFs Cell := {
  vfs_read := fun c path => answer (refused (proxy_read_file path)) c;
  vfs_write := fun c path data => refused (proxy_write_file path data) c;
  vfs_exists := fun c path => match answer (proxy_exists path) c with Ok b => b | Err _ => false end;
  vfs_list_dir := fun c path => answer (refused (proxy_list_dir path)) c;
  vfs_mkdir := fun c path => refused (proxy_mkdir path) c;
  vfs_remove := fun c path => refused (proxy_remove path) c;
  vfs_metadata := fun c path => answer (stat_metadata path) c;
  vfs_snapshot := fun _ => Err (not_mediated "snapshot");
  vfs_restore := fun c _ => (c, Err (not_mediated "restore"));
  vfs_write_if := fun c path data p => shell_write_if path data p c;
  vfs_rename := fun c from to => shell_rename from to c;
  vfs_apply_batch := fun c ms => shell_apply_batch ms c;
  vfs_list_dir_bounded := fun c path =>
    answer (let! l := refused (proxy_list_dir_bounded path) in se_ret {| entries := fst l; truncated := snd l |}) c;
}.
End Proxy.

(** ** What reaches the files *)

Definition call_paths (k : call) : list str :=
  match k with
  | CWrite p _ | CMkdir p | CRemove p | CWriteIf p _ _ => [p]
  | CRename from to => [from; to]
  | CBatch ms => flat_map mutation_paths ms
  end.

Section Permitted.
Context {V J Value Decimal : Type} `{HL : VirtualFsLaws V} `{HJ : JournalStorage Value Decimal J}.
Context (agent_id : str) (capability : CapabilityToken).
Abbreviation Cell := (Cell V J Decimal).

(** The path, or one above it, may be written. *)
Definition permitted_path (p : str) : Prop :=
  exists q, check_path_write capability q = Ok tt /\ segs_of q `prefix_of` segs_of p.
Definition permitted (k : call) : Prop := Forall permitted_path (call_paths k).

(** A step of the files: a permitted call of this cell, or something others do. *)
Definition files_step (others : V -> V -> Prop) (v v' : V) : Prop :=
  (exists k, permitted k /\ v' = fst (run v k)) \/ others v v'.

(** From [v0], by such steps; the bytes charged stay within [limit]. *)
Definition mediated (others : V -> V -> Prop) (v0 : V) (limit : N) (c : Cell) : Prop :=
  fs_inv (cell_vfs c) /\ rtc (files_step others) v0 (cell_vfs c) /\ charged_within limit c.

Section Kept.
Context (others : V -> V -> Prop) (v0 : V) (limit : N).
Abbreviation P := (mediated others v0 limit).

Lemma stands_mediated {A E} (m : SE Cell E A) : (forall v b, preserves (stands v b) m) -> preserves P m.
Proof.
  intros Hm c (Hi & Hs & Hc). destruct (Hm (cell_vfs c) (cell_budget c) c (conj eq_refl eq_refl)) as [Ev Eb].
  unfold mediated, charged_within. rewrite Ev, Eb. done.
Qed.

Lemma journal_mediated (k : JournalEntryKind Value) : preserves P (journal_put agent_id k).
Proof. apply stands_mediated. intros. apply journal_put_stands. Qed.

Lemma budget_mediated {A} (m : SE Cell SandboxError A) :
  (forall v, preserves (vfs_is v) m) -> (forall l, preserves (charged_within l) m) -> preserves P m.
Proof.
  intros Hv Hb c (Hi & Hs & Hc). unfold mediated. rewrite (Hv (cell_vfs c) c eq_refl). split_and!; [done..|]. by apply Hb.
Qed.

Lemma reserve_mediated n : preserves P (reserve_vfs_bytes agent_id n).
Proof. apply budget_mediated; intros; [apply reserve_vfs_bytes_vfs|apply reserve_vfs_bytes_within]. Qed.

Lemma release_mediated err n : preserves P (release_unless_unknown err n).
Proof.
  apply budget_mediated; intros x; unfold release_unless_unknown;
    destruct err; first [apply preserves_ret | apply release_vfs_bytes_within | by intros c Hc].
Qed.

(** The files' share of it. *)
Definition reached (v : V) : Prop := fs_inv v /\ rtc (files_step others) v0 v.

Lemma on_vfs_mediated {A} (m : SE V VfsError A) : preserves reached m -> preserves P (on_vfs m).
Proof.
  intros Hm c (Hi & Hs & Hc). unfold on_vfs. destruct (Hm (cell_vfs c) (conj Hi Hs)) as [Hi' Hs'].
  by destruct (m (cell_vfs c)) as [v r].
Qed.

Lemma run_reached k : permitted k -> preserves reached (fun v => run v k).
Proof.
  intros Hk v [Hi Hs]. destruct (run v k) as [v' r] eqn:E. split; [by eapply run_keeps_inv|].
  eapply rtc_r; [exact Hs|]. left. exists k. by rewrite E.
Qed.

Lemma call_mediated k : permitted k -> preserves P (on_vfs (fun v => run v k)).
Proof. intros Hk. by apply on_vfs_mediated, run_reached. Qed.

Lemma write_check_ensures path op :
  ensures P (check_and_journal_capability agent_id (check_path_write capability path) op) (fun _ => check_path_write capability path = Ok tt).
Proof.
  unfold check_and_journal_capability. destruct (check_path_write capability path) as [[]|d]; [by apply ensures_ret|].
  eapply ensures_bind; [apply ensures_keeps, stands_mediated; intros; apply journal_try_stands|]. intros. apply ensures_err.
Qed.

(** After a check of a path to write, the path may be written. *)
Lemma checked_bind {E B} (m : SE Cell E unit) path (k : unit -> SE Cell E B) :
  ensures P m (fun _ => check_path_write capability path = Ok tt) ->
  (check_path_write capability path = Ok tt -> preserves P (k tt)) -> preserves P (let! a := m in k a).
Proof.
  intros Hm Hk c Hc. destruct (Hm c Hc) as [H1 H2]. unfold se_bind.
  destruct (m c) as [c' [[]|e]]; [|done]. exact (Hk (H2 tt eq_refl) c' H1).
Qed.

Lemma check_read_mediated path op : preserves P (check_read agent_id capability path op).
Proof. apply preserves_map_err, stands_mediated. intros. apply check_stands. Qed.

Lemma permitted_self path : check_path_write capability path = Ok tt -> permitted_path path.
Proof. by exists path. Qed.

(** One step of a sequence of which nothing but its keeping [P] matters. *)
Lemma mediated_bind {A B E} (m : SE Cell E A) (k : A -> SE Cell E B) :
  preserves P m -> (forall a, preserves P (k a)) -> preserves P (let! a := m in k a).
Proof. apply preserves_bind. Qed.

Lemma told_mediated {A} (m : SE Cell SandboxError A) : preserves P m -> preserves P (told m).
Proof. apply preserves_map_err. Qed.
Lemma refused_mediated {A} (m : SE Cell str A) : preserves P m -> preserves P (refused m).
Proof. apply preserves_map_err. Qed.
Lemma of_vfs_mediated {A} (f : V -> result A VfsError) : preserves P (of_vfs f).
Proof. by intros c Hc. Qed.
Lemma finish_mediated {A} op (f : A -> str) (m : SE Cell VfsError A) : preserves P m -> preserves P (finish agent_id op f m).
Proof.
  intros Hm. apply preserves_bind; [by apply preserves_try|]. intros [a|e]; (apply preserves_bind; [apply preserves_bind; [apply preserves_try, journal_mediated|intros; apply preserves_ret]|]); intros;
    first [apply preserves_ret|apply preserves_err].
Qed.
End Kept.

#[local] Hint Resolve journal_mediated reserve_mediated release_mediated check_read_mediated told_mediated refused_mediated
  of_vfs_mediated finish_mediated stands_mediated permitted_self : mediated.
#[local] Hint Resolve preserves_ret preserves_err preserves_try preserves_map_err preserves_pure : mediated.

(** Goes through a sequence; a branch is a case. *)
Ltac mediate :=
  repeat first
    [ match goal with
      | |- forall _, preserves _ _ => intros ?
      | |- preserves _ (se_bind (check_and_journal_capability _ (check_path_write _ ?p) _) _) =>
          apply (checked_bind _ _ _ _ p); [apply write_check_ensures|]
      | |- preserves _ (se_bind (check_write _ _ ?p _) _) =>
          apply (checked_bind _ _ _ _ p); [apply ensures_map_err, write_check_ensures|]
      | |- preserves _ (se_bind (refused (check_write _ _ ?p _)) _) =>
          apply (checked_bind _ _ _ _ p); [apply ensures_map_err, ensures_map_err, write_check_ensures|]
      | |- preserves _ (se_bind _ _) => apply mediated_bind
      | |- preserves _ (match ?x with _ => _ end) => destruct x
      end
    | solve [eauto with mediated] ].

Lemma write_inner_mediated others v0 limit path data :
  preserves (mediated others v0 limit) (write_file_inner agent_id capability path data).
Proof.
  unfold write_file_inner, journal_try. mediate. apply preserves_try, (call_mediated others v0 limit (CWrite path data)).
  repeat constructor. by apply permitted_self.
Qed.

Lemma read_inner_mediated others v0 limit path : preserves (mediated others v0 limit) (read_file_inner agent_id capability path).
Proof.
  unfold read_file_inner, journal_try. apply preserves_bind; [apply stands_mediated; intros; apply check_stands|]. mediate.
Qed.

Lemma permitted_one path : check_path_write capability path = Ok tt -> Forall permitted_path [path].
Proof. intros Hp. repeat constructor. by apply permitted_self. Qed.
#[local] Hint Resolve permitted_one : mediated.

(** *** Appending *)

Section AppendKept.
Context (others : V -> V -> Prop) (v0 : V) (o : nat -> V -> V).
Hypothesis others_inv : forall v v', fs_inv v -> others v v' -> fs_inv v'.
Hypothesis is_others : forall i v, others v (o i v).

Lemma others_reached i v : reached others v0 v -> reached others v0 (o i v).
Proof. intros [Hi Hs]. split; [by eapply others_inv|]. eapply rtc_r; [exact Hs|]. by right. Qed.

Lemma attempt_reached i j k path data : check_path_write capability path = Ok tt ->
  preserves (reached others v0) (attempt (o i) (o j) (o k) path data).
Proof.
  intros Hp. unfold attempt. apply preserves_bind.
  - intros v Hv. unfold observe. apply (others_reached i) in Hv. destruct (vfs_read (o i v) path) as [d|[]]; try done. cbn. by apply others_reached.
  - intros [existing pre|]; [|apply preserves_ret]. intros v Hv. apply (others_reached k) in Hv.
    pose proof (run_reached others v0 (CWriteIf path (existing ++ data) pre) (permitted_one _ Hp) _ Hv) as Hw. cbn [run] in Hw.
    destruct (vfs_write_if (o k v) path (existing ++ data) pre) as [v' [[]|[]]]; try exact Hw.
    pose proof (run_reached others v0 (CWrite path (existing ++ data)) (permitted_one _ Hp) _ Hw) as Hw'. cbn [run fst] in Hw'.
    by destruct (vfs_write v' path (existing ++ data)) as [v2 []].
Qed.

Lemma append_reached path data : check_path_write capability path = Ok tt -> preserves (reached others v0) (append_conditionally o path data).
Proof.
  intros Hp. unfold append_conditionally. apply preserves_bind; [by apply attempt_reached|]. intros []; [apply preserves_ret|].
  apply preserves_bind; [by apply attempt_reached|]. intros []; [apply preserves_ret|apply preserves_err].
Qed.
End AppendKept.

(** *** Renaming *)

Lemma trim_end_segs p : segs_of (trim_end_matches "/" p) = segs_of p.
Proof.
  unfold trim_end_matches. destruct (drop_while_suffix (Ascii.eqb "/") (rev p)) as (k & E & Hk).
  assert (p = rev (drop_while (Ascii.eqb "/") (rev p)) ++ rev k) as Ep by (by rewrite <- rev_app_distr, <- E, rev_involutive).
  rewrite Ep at 2. assert (Forall (fun c => c = "/"%char) (rev k)) as Hs.
  { apply Forall_rev, Forall_forall. intros c Hc%list_elem_of_In. rewrite forallb_forall in Hk. by apply Hk, Ascii.eqb_eq in Hc. }
  clear E Ep Hk. set (q := rev (drop_while _ _)). revert Hs. generalize (rev k) as t. intros t.
  induction t as [|c t IH] using rev_ind; [by rewrite app_nil_r|]. intros [Ht Hc]%Forall_app. inversion Hc; subst.
  rewrite app_assoc. change ["/"%char] with (lit "/"). rewrite segs_of_slash. by apply IH.
Qed.

Lemma join_vfs_path_segs parent child : plain_segment child -> segs_of (join_vfs_path parent child) = segs_of parent ++ [child].
Proof.
  intros Hc. assert (forall p, segs_of (p ++ "/"%char :: child) = segs_of p ++ [child]) as Hj.
  { intros p. unfold segs_of. rewrite split_on_app_sep, fold_left_app, (split_on_no_occ _ child) by apply Hc. by rewrite normalize_fold_id by by constructor. }
  unfold join_vfs_path. destruct (str_eqb parent "/") eqn:E; bools.
  - subst parent. apply (Hj []).
  - change ("/" ++ child) with ("/"%char :: child). by rewrite Hj, trim_end_segs.
Qed.

Lemma permitted_child to child : permitted_path to -> plain_segment child -> permitted_path (join_vfs_path to child).
Proof. intros (q & Hq & Hp) Hc. exists q. split; [done|]. rewrite join_vfs_path_segs by done. by apply prefix_app_r. Qed.

Section RenameKept.
Context (others : V -> V -> Prop) (v0 : V) (limit : N).
Hypothesis listings_plain : forall v p names, fs_inv v -> vfs_list_dir v p = Ok names -> Forall plain_segment names.

Lemma copy_write_mediated path data : permitted_path path -> preserves (mediated others v0 limit) (charged_copy_write agent_id path data).
Proof.
  intros Hp. unfold charged_copy_write, reserve_write_budget, journal_file_write, release_write_budget. mediate.
  apply preserves_try, (call_mediated others v0 limit (CWrite path data)). by repeat constructor.
Qed.

Lemma copy_mediated fuel from to : permitted_path to ->
  preserves (mediated others v0 limit) (copy_vfs_entry (charged_copy_write agent_id) fuel from to).
Proof.
  revert from to. induction fuel as [|fuel IH]; intros from to Hto; cbn [copy_vfs_entry]; [apply preserves_err|].
  apply preserves_bind; [apply of_vfs_mediated|]. intros meta. destruct (is_file meta).
  - apply preserves_bind; [apply of_vfs_mediated|]. intros. by apply copy_write_mediated.
  - apply preserves_bind; [apply (call_mediated others v0 limit (CMkdir to)); by repeat constructor|]. intros _ c Hc. unfold se_bind, of_vfs.
    destruct (vfs_list_dir (cell_vfs c) from) as [names|e] eqn:El; [|done]. apply listings_plain in El; [|apply Hc].
    revert c Hc. change (preserves (mediated others v0 limit) (se_for names (fun child =>
      copy_vfs_entry (charged_copy_write agent_id) fuel (join_vfs_path from child) (join_vfs_path to child)))).
    induction El as [|n names Hn _ IHn]; cbn [se_for]; [apply preserves_ret|]. apply preserves_bind; [by apply IH, permitted_child|]. by intros _.
Qed.

Lemma rename_mediated fuel from to : check_path_write capability from = Ok tt -> check_path_write capability to = Ok tt ->
  preserves (mediated others v0 limit) (rename_replacing (charged_copy_write agent_id) fuel from to).
Proof.
  intros Hf Ht. assert (permitted (CRename from to)) as Hp by (repeat constructor; by apply permitted_self).
  unfold rename_replacing. apply preserves_bind; [apply of_vfs_mediated|]. intros source. destruct (str_eqb _ _); [apply preserves_ret|].
  apply preserves_bind; [apply preserves_try, of_vfs_mediated|]. intros looked. apply preserves_bind.
  - destruct looked as [target|e].
    + destruct (is_dir target); [apply preserves_err|]. destruct (is_dir source); [apply preserves_err|].
      apply preserves_try, (call_mediated others v0 limit (CBatch [Remove to _; Rename from to _])). unfold permitted; cbn. by repeat constructor; apply permitted_self.
    + destruct e; try apply preserves_err. by apply preserves_try, (call_mediated others v0 limit (CRename from to)).
  - intros atomic. destruct atomic as [[]|e]; [apply preserves_ret|]. destruct e; try apply preserves_err.
    apply preserves_bind; [by apply copy_mediated, permitted_self|]. intros _. apply (call_mediated others v0 limit (CRemove from)). by apply permitted_one.
Qed.
End RenameKept.

(** *** What scripts call *)

Variant script_call :=
| ReadFile (path : str)
| WriteFile (path : str) (data : bytes)
| AppendFile (others : nat -> V -> V) (path : str) (data : bytes)
| ListDir (path : str)
| Stat (path : str)
| RemoveFile (path : str)
| RenameFile (fuel : nat) (from to : str)
| FileExists (path : str)
| MakeDir (path : str).

Definition ended {A} (x : Cell * A) : Cell := fst x.
Definition script_run (k : script_call) (c : Cell) : Cell :=
  match k with
  | ReadFile p => fst (proxy_read_file agent_id capability p c)
  | WriteFile p d => fst (proxy_write_file agent_id capability p d c)
  | AppendFile others p d => fst (proxy_append_file agent_id capability others p d c)
  | ListDir p => fst (proxy_list_dir agent_id capability p c)
  | Stat p => fst (proxy_stat agent_id capability p c)
  | RemoveFile p => fst (proxy_remove agent_id capability p c)
  | RenameFile fuel from to => fst (proxy_rename agent_id capability fuel from to c)
  | FileExists p => fst (proxy_exists agent_id capability p c)
  | MakeDir p => fst (proxy_mkdir agent_id capability p c)
  end.

(** What others do in between. *)
Definition interferes (k : script_call) (others : V -> V -> Prop) : Prop :=
  match k with AppendFile o _ _ => forall i v, others v (o i v) | _ => True end.

(** *** Any call *)

Section CallsKept.
Context (others : V -> V -> Prop) (v0 : V) (limit : N).
Hypothesis others_inv : forall v v', fs_inv v -> others v v' -> fs_inv v'.
Hypothesis listings_plain : forall v p names, fs_inv v -> vfs_list_dir v p = Ok names -> Forall plain_segment names.
Abbreviation P := (mediated others v0 limit).

Lemma batch_checked ms :
  ensures P (se_for ms (fun m => se_for (mutation_paths m) (fun path => refused (check_write agent_id capability path "apply_batch"))))
    (fun _ => permitted (CBatch ms)).
Proof.
  unfold permitted. cbn [call_paths]. induction ms as [|m ms IH]; cbn [se_for flat_map]; [apply ensures_ret; constructor|].
  eapply (ensures_bind _ _ _ (fun _ => Forall permitted_path (mutation_paths m))).
  - induction (mutation_paths m) as [|p ps IHp]; cbn [se_for]; [apply ensures_ret; constructor|].
    eapply ensures_bind; [apply ensures_map_err, ensures_map_err, write_check_ensures|]. intros ? Hp. cbv beta in Hp.
    eapply ensures_weaken; [exact IHp|]. intros ? Hps. cbv beta in Hps. constructor; [by apply permitted_self|done].
  - intros _ Hm. eapply ensures_weaken; [exact IH|]. intros ? Hms. by apply Forall_app.
Qed.

Lemma list_mediated path : preserves P (proxy_list_dir_bounded agent_id capability path).
Proof. unfold proxy_list_dir_bounded. mediate. Qed.
Lemma stat_mediated path : preserves P (stat_metadata agent_id capability path).
Proof. unfold stat_metadata, journal_result. mediate. Qed.
Lemma remove_mediated path : preserves P (proxy_remove agent_id capability path).
Proof.
  unfold proxy_remove, reserve_write_budget. mediate. apply finish_mediated, (call_mediated others v0 limit (CRemove path)). by apply permitted_one.
Qed.
Lemma mkdir_mediated path : preserves P (proxy_mkdir agent_id capability path).
Proof.
  unfold proxy_mkdir, reserve_write_budget. mediate. apply finish_mediated, (call_mediated others v0 limit (CMkdir path)). by apply permitted_one.
Qed.
Lemma exists_mediated path : preserves P (proxy_exists agent_id capability path).
Proof. unfold proxy_exists. mediate. Qed.

(** A script's calls keep within the capability. *)
Lemma script_mediated k : interferes k others -> forall c, P c -> P (script_run k c).
Proof.
  intros Hk. destruct k as [p|p d|o p d|p|p|p|fuel from to|p|p]; cbn [script_run].
  - apply preserves_map_err, read_inner_mediated.
  - apply preserves_map_err, write_inner_mediated.
  - change (preserves P (proxy_append_file agent_id capability o p d)).
    unfold proxy_append_file, reserve_write_budget, release_write_budget, journal_file_write. mediate.
    apply preserves_try, on_vfs_mediated, append_reached; done.
  - change (preserves P (proxy_list_dir agent_id capability p)). unfold proxy_list_dir. apply preserves_bind; [apply list_mediated|]. intros. apply preserves_ret.
  - change (preserves P (proxy_stat agent_id capability p)). unfold proxy_stat. apply preserves_bind; [apply preserves_map_err, stat_mediated|]. intros. apply preserves_ret.
  - apply remove_mediated.
  - change (preserves P (proxy_rename agent_id capability fuel from to)). unfold proxy_rename, reserve_write_budget. mediate.
    by apply finish_mediated, rename_mediated.
  - apply exists_mediated.
  - apply mkdir_mediated.
Qed.

(** Those of a shell, which sees a filesystem. *)
Lemma shell_mediated k : preserves P (fun c => run (H := proxy_fs agent_id capability) c k).
Proof.
  destruct k as [p d|p|p|p d pre|from to|ms]; cbn [run].
  - apply preserves_map_err, preserves_map_err, write_inner_mediated.
  - apply preserves_map_err, mkdir_mediated.
  - apply preserves_map_err, remove_mediated.
  - change (preserves P (shell_write_if agent_id capability p d pre)).
    unfold shell_write_if, reserve_write_budget, release_write_budget, journal_file_write. mediate.
    apply preserves_try, (call_mediated others v0 limit (CWriteIf p d pre)). by apply permitted_one.
  - change (preserves P (shell_rename agent_id capability from to)). unfold shell_rename, reserve_write_budget, journal_result.
    do 2 (eapply checked_bind; [apply ensures_map_err, ensures_map_err, write_check_ensures|]; intros ?).
    apply preserves_bind; [eauto with mediated|]. intros _. apply preserves_bind.
    + apply preserves_try, (call_mediated others v0 limit (CRename from to)). by repeat constructor; apply permitted_self.
    + intros [[]|[]]; mediate.
  - change (preserves P (shell_apply_batch agent_id capability ms)). unfold shell_apply_batch, reserve_write_budget, release_write_budget, journal_file_write, journal_result.
    intros c Hc. destruct (batch_checked ms c Hc) as [H1 H2]. unfold se_bind at 1.
    destruct (se_for ms _ c) as [c' [[]|e]]; [|done]. cbn [fst snd] in H1, H2. specialize (H2 tt eq_refl). revert c' H1. 
    match goal with |- forall c', P c' -> P (fst (?m c')) => change (preserves P m) end.
    mediate; try (by apply preserves_for; intros []; mediate). by apply preserves_try, (call_mediated others v0 limit (CBatch ms)).
Qed.
End CallsKept.
End Permitted.

(** ** What scripts may do *)

Section Scripts.
Context {V J Value Decimal : Type} `{HL : VirtualFsLaws V} `{HJ : JournalStorage Value Decimal J}.
Context (agent_id : str) (capability : CapabilityToken).
Abbreviation Cell := (Cell V J Decimal).

(** C4. A script cannot get round its capability.  Whatever operations it makes on a cell's files, in any
    order, with whatever others do to the files in between: the files are what a sequence of calls leaves
    each of which names only paths that the capability lets the cell write, or paths below one, apart from
    what the others did; and the bytes charged stay within the limit. *)
Theorem scripts_stay_within_capability (others : V -> V -> Prop) (ks : list script_call) limit (c : Cell) :
  (forall v v', fs_inv v -> others v v' -> fs_inv v') ->
  (forall v p names, fs_inv v -> vfs_list_dir v p = Ok names -> Forall plain_segment names) ->
  Forall (fun k => interferes k others) ks -> fs_inv (cell_vfs c) -> charged_within limit c ->
  let c' := fold_left (fun c k => script_run agent_id capability k c) ks c in
  rtc (files_step capability others) (cell_vfs c) (cell_vfs c') /\ charged_within limit c'.
Proof.
  intros Ho Hl Hk Hi Hc c'.
  assert (mediated capability others (cell_vfs c) limit c) as Hm by (split_and!; [done|apply rtc_refl|done]).
  assert (mediated capability others (cell_vfs c) limit c') as (_ & Hs & Hb); [|done]. subst c'. revert Hm. generalize (cell_vfs c) as v0. clear Hi Hc.
  induction Hk as [|k ks Hk _ IH] in c |- *; intros v0 Hm; [done|]. cbn [fold_left]. apply IH. by apply script_mediated.
Qed.

(** The journal decides nothing for a reader: what a read answers depends on the files and the budget alone,
    and a read changes neither. *)
Lemma reads_only_journal path (c1 c2 : Cell) :
  cell_vfs c1 = cell_vfs c2 ->
  answer (proxy_read_file agent_id capability path) c1 = answer (proxy_read_file agent_id capability path) c2 /\
  cell_vfs (fst (proxy_read_file agent_id capability path c1)) = cell_vfs c1 /\
  cell_budget (fst (proxy_read_file agent_id capability path c1)) = cell_budget c1.
Proof.
  intros Ev. split.
  - unfold answer, proxy_read_file, told, se_map_err, read_file_inner, check_and_journal_capability, journal_denial, journal_try, journal_put,
      se_bind, se_try, of_vfs, se_ret, se_err.
    destruct (check_path_read capability path) as [[]|d]; rewrite ?Ev.
    + destruct (vfs_read (cell_vfs c2) path) as [data|e]; repeat (destruct (journal_append _ _) as [? [?|?]]; cbn); done.
    + repeat (destruct (journal_append _ _) as [? [?|?]]; cbn); done.
  - assert (forall v b, preserves (stands v b) (proxy_read_file agent_id capability path)) as Hs.
    { intros v b. apply preserves_map_err. unfold read_file_inner. apply preserves_bind; [apply check_stands|]. intros _.
      apply preserves_bind; [apply preserves_try, of_vfs_preserves|]. intros [d|e]; (apply preserves_bind; [apply journal_try_stands|]); intros;
        first [apply preserves_ret|apply preserves_err]. }
    by destruct (Hs (cell_vfs c1) (cell_budget c1) c1 (conj eq_refl eq_refl)).
Qed.
End Scripts.

(** ** Appending to a file others write *)

Section AppendAtomic.
Context (to_vec : items -> result bytes str) (from_slice : bytes -> result items str).
#[local] Instance append_vfs : VirtualFs State := memory_fs to_vec from_slice.

Definition others_of (h : nat -> list step) (i : nat) : State -> State := fun s => history to_vec from_slice s (h i).

(** The bytes an append adds to: those of the file, none where there is none. *)
Definition bytes_at (s : State) (path : str) (existing : bytes) : Prop :=
  read s path = Ok existing \/ ((exists p, read s path = Err (NotFound p)) /\ existing = []).

Lemma write_if_commits path data pre (s s' : State) :
  write_if path data pre s = (s', Ok tt) -> admits s (segs_of path) pre /\ read s' path = Ok data.
Proof.
  rewrite write_if_result. destruct (decide _); [done|]. destruct (check (map s) (normalize path) pre) as [[]|] eqn:Ec; [|done].
  intros E. rewrite normalize_str in Ec. apply check_spec in Ec. split; [done|]. unfold read. rewrite normalize_str in E |- *.
  destruct (map s !! path_str (segs_of path)) as [[d r|]|]; [|done|]; (destruct (reject_file_ancestor _ _) as [[]|]; [|done]);
    injection E as <-; cbn [map]; by rewrite put_map_self.
Qed.

Lemma reject_not_unsupported m path cur segs e : reject_file_ancestor_loop m path cur segs = Err e -> forall x, e <> Unsupported x.
Proof.
  revert cur. induction segs as [|w segs IH]; intros cur; cbn [reject_file_ancestor_loop]; [done|]. destruct (str_eqb _ path); [done|].
  destruct (m !! _) as [[]|]; [by intros [= <-]|apply IH..].
Qed.

Lemma write_if_refused path data pre (s s' : State) e :
  write_if path data pre s = (s', Err e) -> s' = s /\ forall m, e <> Unsupported m.
Proof.
  rewrite write_if_result. destruct (decide _); [by intros [= <- <-]|].
  destruct (check (map s) (normalize path) pre) as [[]|] eqn:Ec.
  - destruct (map s !! normalize path) as [[d r|]|]; [|by intros [= <- <-]|];
      (destruct (reject_file_ancestor _ _) as [[]|] eqn:Er; [done|]); intros [= <- <-]; (split; [done|]); by eapply reject_not_unsupported.
  - intros [= <- <-]. split; [done|]. intros m ->. unfold check in Ec. destruct pre, (map s !! normalize path) as [[d r|]|]; try done. by destruct (_ =? _)%N.
Qed.

(** In a state others reach from [s]. *)
Definition reachable (s s' : State) : Prop := exists h, s' = history to_vec from_slice s h.

Lemma reachable_others h i s s' : reachable s s' -> reachable s (others_of h i s').
Proof. intros [h0 ->]. exists (h0 ++ h i). unfold others_of, history. by rewrite fold_left_app. Qed.
Lemma reachable_tidy s s' : reachable s s' -> tidy s s'.
Proof. intros [h ->]. apply history_tidy. Qed.

(** What a look at the file is good for: unless the path was a directory, a commit under its precondition
    finds the bytes it saw. *)
Lemma observe_pins h i j path s0 (s s' : State) existing pre :
  rev_ok s0 -> reachable s0 s -> observe (others_of h i) (others_of h j) path s = (s', Ok (Stable existing pre)) ->
  reachable s0 s' /\
  ((exists s1, reachable s0 s1 /\ mem_at s1 (segs_of path) = Some DirNode) \/
   forall s2, tidy s' s2 -> admits s2 (segs_of path) pre -> bytes_at s2 path existing).
Proof.
  intros Hr Hs. unfold observe. set (s1 := others_of h i s). assert (reachable s0 s1) as Hs1 by by apply reachable_others.
  assert (tidy s s1) as T1 by (apply reachable_tidy; by exists (h i)). cbn [vfs_read append_vfs memory_fs]. unfold read at 1.
  destruct (map s1 !! normalize path) as [[d r1|]|] eqn:E1; [|done|].
  - set (s2 := others_of h j s1). assert (reachable s0 s2) as Hs2 by by apply reachable_others.
    assert (tidy s1 s2) as T2 by (apply reachable_tidy; by exists (h j)).
    unfold revision_of. cbn [vfs_metadata append_vfs memory_fs]. unfold metadata.
    destruct (map s !! normalize path) as [[d0 r0|]|] eqn:E0, (map s2 !! normalize path) as [[d2 r2|]|] eqn:E2; cbn; try done.
    + destruct (N.eqb_spec r2 r0) as [->|]; [|done]. intros [= <- <- <-]. split; [done|]. right. intros s3 T3 [d3 H3].
      pose proof (reachable_tidy _ _ Hs) as T0. destruct T0 as [_ T0]. apply T0 in Hr as [Hle _]. apply Hle in E0.
      destruct T1 as [[Hn1 _] _]. assert (tidy s1 s3) as [[_ He] _] by (etransitivity; [exact T2|exact T3]).
      left. unfold read. rewrite normalize_str in *. rewrite H3. destruct (He _ _ _ H3) as [Hlt|H1]; [lia|]. congruence.
    + intros [= <- <- <-]. split; [done|]. left. exists s. split; [done|]. unfold mem_at, at_map. rewrite <- normalize_str, E0. done.
  - intros [= <- <- <-]. split; [done|]. right. intros s3 _ Ha. right. split; [|done]. exists (normalize path). unfold read.
    cbn in Ha. unfold mem_at in Ha. apply at_map_None in Ha. rewrite normalize_str. by rewrite Ha.
Qed.

Definition committed (s0 : State) (path data : str) (s' : State) : Prop :=
  exists s1 existing pre, reachable s0 s1 /\ write_if path (existing ++ data) pre s1 = (s', Ok tt) /\
    read s' path = Ok (existing ++ data) /\
    ((exists s2, reachable s0 s2 /\ mem_at s2 (segs_of path) = Some DirNode) \/ bytes_at s1 path existing).

Lemma attempt_appends h i j k path data s0 (s s' : State) r :
  rev_ok s0 -> reachable s0 s -> attempt (others_of h i) (others_of h j) (others_of h k) path data s = (s', r) ->
  match r with Ok Done => committed s0 path data s' | _ => reachable s0 s' end.
Proof.
  intros Hr Hs. unfold attempt, se_bind. destruct (observe _ _ path s) as [s1 [[existing pre|]|e]] eqn:Eo.
  - destruct (observe_pins h i j path s0 s s1 existing pre Hr Hs Eo) as [Hs1 Hp].
    set (s2 := others_of h k s1). assert (reachable s0 s2) as Hs2 by by apply reachable_others.
    assert (tidy s1 s2) as T by (apply reachable_tidy; by exists (h k)).
    cbn [vfs_write_if append_vfs memory_fs]. destruct (write_if path (existing ++ data) pre s2) as [s3 [[]|e]] eqn:Ew.
    + intros [= <- <-]. destruct (write_if_commits _ _ _ _ _ Ew) as [Ha Hd]. exists s2, existing, pre. split_and!; try done.
      destruct Hp as [Hp|Hp]; [by left|right; by apply Hp].
    + apply write_if_refused in Ew as [-> Hu]. destruct e; try (by intros [= <- <-]). by destruct (Hu msg).
  - intros [= <- <-]. unfold observe in Eo. revert Eo. case_match; [|case_match; by intros [= <-]].
    intros [= <- _]. by do 2 apply reachable_others.
  - intros [= <- <-]. unfold observe in Eo. revert Eo. case_match; [|case_match; intros [= <- _]; by apply reachable_others].
    intros [= <- _]. by do 2 apply reachable_others.
Qed.

(** An append loses no bytes of others.  Over the in-memory filesystem, whatever others do at each
    suspension of an append, restores of snapshots included: if it succeeds, the file holds the bytes it
    had at the moment of the one write that appended, none if there was no file, and then the new ones,
    provided the path was at no moment a directory; if it fails, it has written nothing. *)
Theorem append_loses_no_bytes h path data (s s' : State) r :
  mem_inv s -> append_conditionally (others_of h) path data s = (s', r) ->
  match r with
  | Ok _ => committed s path data s'
  | Err _ => reachable s s'
  end.
Proof.
  intros [_ Hr]. unfold append_conditionally, se_bind. assert (reachable s s) as H0 by by exists [].
  destruct (attempt _ _ _ path data s) as [s1 [a|e]] eqn:E1; pose proof (attempt_appends _ _ _ _ _ _ _ _ _ _ Hr H0 E1) as H1; cbn in H1.
  - destruct a; [by intros [= <- <-]|].
    destruct (attempt (others_of h 3) _ _ path data s1) as [s2 [a|e]] eqn:E2; pose proof (attempt_appends _ _ _ _ _ _ _ _ _ _ Hr H1 E2) as H2; cbn in H2.
    + destruct a; intros [= <- <-]; done.
    + by intros [= <- <-].
  - by intros [= <- <-].
Qed.
End AppendAtomic.

(** ** Concrete runs *)

#[local] Instance ex_vfs : VirtualFs State := memory_fs ex_to_vec ex_from_slice.
#[local] Instance ex_laws : VirtualFsLaws State := memory_laws ex_to_vec ex_from_slice.
#[local] Instance ex_journal : JournalStorage unit N (list (JournalEntry unit)) := memory_journal (fun _ => Err []).

(** Another writer gets in between the read and the write: the first attempt is refused, the second appends. *)
Definition ex_race (i : nat) : list step := if (i =? 2)%nat then [SCall (CWrite "/a/b" "theirs, ")] else [].

Lemma append_loses_no_bytes_witness :
  mem_inv ex_fs /\
  let s' := fst (append_conditionally (others_of ex_to_vec ex_from_slice ex_race) "/a/b" "ours" ex_fs) in
  read s' "/a/b" = Ok (lit "theirs, ours") /\ committed ex_to_vec ex_from_slice ex_fs "/a/b" "ours" s'.
Proof.
  split; [exact ex_fs_inv|]. cbv zeta. split; [vm_compute; reflexivity|].
  set (s' := fst (append_conditionally (others_of ex_to_vec ex_from_slice ex_race) "/a/b" "ours" ex_fs)).
  assert (match snd (append_conditionally (others_of ex_to_vec ex_from_slice ex_race) "/a/b" "ours" ex_fs) with
          | Ok _ => committed ex_to_vec ex_from_slice ex_fs "/a/b" "ours" s' | Err _ => reachable ex_to_vec ex_from_slice ex_fs s' end) as H
    by exact (append_loses_no_bytes ex_to_vec ex_from_slice ex_race "/a/b" "ours" ex_fs _ _ ex_fs_inv (surjective_pairing _)).
  assert (snd (append_conditionally (others_of ex_to_vec ex_from_slice ex_race) "/a/b" "ours" ex_fs) = Ok tt) as Er by (vm_compute; reflexivity).
  rewrite Er in H. exact H.
Defined.

Lemma memory_listings_plain (s : State) p names : mem_inv s -> list_dir s p = Ok names -> Forall plain_segment names.
Proof.
  intros Hi Hl. apply Forall_forall. intros w Hw. destruct (memfs_list_dir_children s p names Hi Hl) as (_ & _ & Hn). by apply Hn.
Qed.

Definition ex_script : list (@script_call State) :=
  [WriteFile "/a/c" "12"; RenameFile 3 "/a/c" "/a/d"; AppendFile (fun _ s => s) "/a/d" "3"; RenameFile 3 "/a/d" "/x"; ReadFile "/a/d"].

Lemma scripts_stay_within_capability_witness :
  charged_within 10 ex_cell /\
  let c' := fold_left (fun c k => script_run (Value := unit) "agent" ex_token k c) ex_script ex_cell in
  read (cell_vfs c') "/a/d" = Ok (lit "123") /\ charged_within 10 c'.
Proof.
  assert (charged_within 10 ex_cell) as Hc by (split; [reflexivity|right; vm_compute; discriminate]).
  split; [exact Hc|]. cbv zeta. split; [vm_compute; reflexivity|].
  refine (proj2 (scripts_stay_within_capability (Value := unit) "agent" ex_token (fun s s' => s' = s) ex_script 10 ex_cell _ _ _ ex_fs_inv Hc)).
  - by intros v v' Hi ->.
  - exact memory_listings_plain.
  - repeat constructor.
Defined.

(** Renaming needs no permission to read: a file that may be written but not read is moved to where it may
    be read.  The sandbox's own move refuses. *)
Definition ex_writer : CapabilityToken :=
  {| network := []; mcp_tools := []; shell := false; javascript := true; python := false;
     paths_write := [lit "/**"]; paths_read := [lit "/open/**"]; spawn_placements := [];
     skill_patterns := []; memory := empty_memory |}.
Example rename_reads_the_unreadable :
  let c := fst (proxy_rename (Value := unit) "agent" ex_writer 3 "/a/b" "/open/b" ex_cell) in
  is_ok (answer (proxy_read_file (Value := unit) "agent" ex_writer "/a/b") ex_cell) = false /\
  answer (proxy_read_file (Value := unit) "agent" ex_writer "/open/b") c = Ok (lit "hi") /\
  is_ok (snd (Mutations.apply_vfs_mutations (Value := unit) "agent" ex_writer "move_path" [Mutations.MMove "/a/b" "/open/b"] ex_cell)) = false.
Proof. vm_compute. done. Qed.
