(* ===== verification/CellShell.v ===== *)
(** * Scripts and shell commands in a cell

    Models [crates/simulacra-sandbox/src/shell.rs] and [js.rs]: running a shell command over the mediated
    filesystem, with [node] as one of its commands, and running a script.

    The script engine, the Python interpreter and the shell commands of files not modelled are parameters
    that act on the cell.  The environment and the working directory of the shell stay between calls. *)

From S2P Require Import Prelude.
From S2P Require Import Text.
From S2P Require Import Utf8.
From S2P Require Import Segments.
From S2P Require Import Capability.
From S2P Require Import Vfs.
From S2P Require Import MemoryFs.
From S2P Require Import Context.
From S2P Require Import Budget.
From S2P Require Import Journal.
From S2P Require Import Guards.
From S2P Require Import Sandbox.
From S2P Require Import FsProxy.
From S2P Require ShellExec.
From S2P Require ShellBuiltins.

Abbreviation CommandResult := ShellExec.CommandResult.

(** [JsError]: its timeout, and every other with its text. *)
Variant EngineError := EngineTimeout | EngineFailed (text : str).
Record JsOutput := { js_stdout : str; js_result : option str; js_exit_code : option Z }.

Section CellShell.
Context {V J Value Decimal : Type} `{VirtualFs V} `{JournalStorage Value Decimal J}.
Context (agent_id : str) (capability : CapabilityToken).
Abbreviation Cell := (Cell V J Decimal).
Abbreviation Op := (SE Cell SandboxError).

(** Building the runtime, which is kept; evaluating; the permit of a script executor, when there is one. *)
Context (prepare_js_runtime : Op unit) (eval : str -> SE Cell EngineError JsOutput) (permit : option (result unit str)).

(** ** Scripts ([js.rs]) *)

Definition map_js_execution_error (error : EngineError) (c : Cell) : SandboxError :=
  match error with
  | EngineTimeout => JsError "deadline_exceeded"
  | EngineFailed text =>
      let b := cell_budget c in
      if over (max_turns b) (used_turns b) then OverBudget (exhausted_at "turns" (used_turns b) (max_turns b))
      else JsError text
  end.

Definition eval_mapped (code : str) : Op JsOutput := fun c =>
  match eval code c with
  | (c, Ok out) => (c, Ok out)
  | (c, Err e) => (c, Err (map_js_execution_error e c))
  end.

Definition finish_js_execution : Op unit := journal_try agent_id (CodeExecution "javascript").

Definition acquire_permit : Op unit :=
  match permit with
  | Some (Err e) => se_err (Internal ("script executor error: " ++ e))
  | _ => se_ret tt
  end.

(** [execute_js], and [execute_js_async], which waits for its permit. *)
Definition execute_js (code : str) : Op JsOutput :=
  let! _ := check_and_journal_capability agent_id (check_javascript capability) "execute_js" in
  let! _ := reserve_turn agent_id in
  let! _ := acquire_permit in
  let! output := se_try (let! _ := prepare_js_runtime in eval_mapped code) in
  let! _ := finish_js_execution in
  se_lift output.

Definition js_text (out : JsOutput) : str :=
  js_stdout out ++
  match js_result out with
  | Some r => if str_eqb r [] || str_eqb r "undefined" then [] else r ++ [lf]
  | None => []
  end.

Definition command (out err : str) (code : Z) : CommandResult :=
  {| ShellExec.stdout := out; ShellExec.stderr := err; ShellExec.exit_code := code |}.

Definition js_shell_result (code : str) (c : Cell) : Cell * CommandResult :=
  match execute_js code c with
  | (c, Ok out) => (c, command (js_text out) [] (unwrap_or (js_exit_code out) 0%Z))
  | (c, Err e) => (c, command [] (sandbox_error_to_string e ++ [lf]) 1)
  end.

(** ** External commands ([shell.rs]) *)

Context (python_shell_result : option (str -> Cell -> Cell * CommandResult)).

Definition usage_error (usage : str) : CommandResult := command [] ("Usage: " ++ usage ++ [lf]) 1.
Definition open_error (program file : str) (err : SandboxError) : CommandResult :=
  command [] (program ++ ": cannot open '" ++ file ++ "': " ++ sandbox_error_to_string err ++ [lf]) 1.
Definition require_flag_arg (args : list str) (program flag : str) : result str CommandResult :=
  match args with
  | _ :: (_ :: _) as rest => Ok (join " " (tl args))
  | _ => Err (command [] (program ++ ": option " ++ flag ++ " requires an argument" ++ [lf]) 1)
  end.

Definition resolve_shell_path (path cwd : str) : str :=
  normalize (if starts_with "/" path then path else if str_eqb cwd "/" then "/" ++ path else cwd ++ "/" ++ path).

(** What [node] and [python] have in common: code from a flag, from the input or from a file. *)
Definition run_code (program usage flag shown : str) (run_it : str -> Cell -> Cell * CommandResult)
    (args : list str) (stdin cwd : str) (c : Cell) : Cell * CommandResult :=
  match args with
  | [] => (c, usage_error usage)
  | first :: _ =>
      if str_eqb first flag then
        match require_flag_arg args program flag with Ok code => run_it code c | Err r => (c, r) end
      else if str_eqb first "-" then run_it stdin c
      else
        match read_file agent_id capability (resolve_shell_path first cwd) c with
        | (c, Ok data) => run_it (from_utf8_lossy data) c
        | (c, Err e) => (c, open_error shown first e)
        end
  end.

Definition run_node (args : list str) (stdin cwd : str) (c : Cell) : Cell * CommandResult :=
  run_code "node" "node <script.js>" "-e" "node" js_shell_result args stdin cwd c.

Definition run_python (py : str -> Cell -> Cell * CommandResult) (args : list str) (stdin cwd : str) (c : Cell)
    : Cell * CommandResult :=
  match check_and_journal_capability agent_id (check_python capability) "execute_python" c with
  | (c, Err _) => (c, command [] ("python: capability not granted" ++ [lf]) 1)
  | (c, Ok _) => run_code "python" "python3 <script.py>" "-c" "python3" py args stdin cwd c
  end.

Definition run_external (program : str) (args : list str) (stdin cwd : str) (c : Cell) : Cell * option CommandResult :=
  if str_eqb program "node" || str_eqb program "nodejs" then
    let '(c, r) := run_node args stdin cwd c in (c, Some r)
  else match python_shell_result with
  | Some py =>
      if str_eqb program "python" || str_eqb program "python3" then
        let '(c, r) := run_python py args stdin cwd c in (c, Some r)
      else (c, None)
  | None => (c, None)
  end.

(** ** A shell command *)

Record AgentCell := { cell : Cell; shell_env : gmap str str; shell_cwd : str }.
Definition set_cell (a : AgentCell) (c : Cell) : AgentCell := {| cell := c; shell_env := shell_env a; shell_cwd := shell_cwd a |}.

(** The commands that fetch and that work on text. *)
Context (alphanumeric : str -> bool) (text_builtin : str -> list str -> str -> str -> Cell -> Cell * option CommandResult).

#[local] Instance mediated_fs : VirtualFs Cell := proxy_fs agent_id capability.
#[local] Instance cell_commands : ShellExec.Commands Cell := ShellBuiltins.shell_commands text_builtin (Some run_external).

(** What comes before the command runs. *)
Definition admit_shell (workdir : option str) : Op unit :=
  let! _ := check_and_journal_capability agent_id (check_shell capability) "execute_shell" in
  let! _ := match workdir with
            | Some path =>
                let! metadata := cell_metadata agent_id capability path in
                if is_dir metadata then se_ret tt else se_err (VfsFailed (NotADirectory path))
            | None => se_ret tt
            end in
  reserve_turn agent_id.

(** [resolve_cwd] and the executor with its directory. *)
Definition start_shell (workdir : option str) (a : AgentCell) : result (@ShellExec.Shell Cell) VfsError :=
  let sh := {| ShellExec.shell_vfs := cell a; ShellExec.env := shell_env a; ShellExec.last_status := 0; ShellExec.cwd := "/" |} in
  match workdir with
  | Some path => ShellExec.try_with_cwd sh path
  | None => Ok (ShellExec.with_cwd sh (shell_cwd a))
  end.

Definition record_shell_command (input : str) (exit_code : Z) : Op unit := journal_try agent_id (ShellCommand input exit_code).

(** [None]: the shell never comes back from the line. *)
Definition execute_shell_with_workdir (input : str) (workdir : option str) (a : AgentCell)
    : option (AgentCell * result CommandResult SandboxError) :=
  match admit_shell workdir (cell a) with
  | (c, Err e) => Some (set_cell a c, Err e)
  | (c, Ok _) =>
      let a := set_cell a c in
      match start_shell workdir a with
      | Err e => Some (a, Err (VfsFailed e))
      | Ok sh =>
          match ShellExec.shell_run alphanumeric input sh with
          | None => None
          | Some (sh, r) =>
              let c := fst (record_shell_command input (ShellExec.exit_code r) (ShellExec.shell_vfs sh)) in
              Some ({| cell := c; shell_env := ShellExec.env sh;
                       shell_cwd := match workdir with Some _ => shell_cwd a | None => ShellExec.cwd sh end |}, Ok r)
          end
      end
  end.
Definition execute_shell (input : str) : AgentCell -> option (AgentCell * result CommandResult SandboxError) :=
  execute_shell_with_workdir input None.
End CellShell.

(** ** What a command line may do *)

Section Promise.
Context {V J Value Decimal : Type} `{HL : VirtualFsLaws V} `{HJ : JournalStorage Value Decimal J}.
Context (agent_id : str) (capability : CapabilityToken) (others : V -> V -> Prop).
Abbreviation Cell := (Cell V J Decimal).

(** A step of what runs inside a cell: an operation of a script on files, a call of a shell on files, or
    something that leaves files and the bytes charged alone, a fetch for one. *)
Definition cell_step (c c' : Cell) : Prop :=
  (exists k, interferes k others /\ c' = script_run agent_id capability k c) \/
  (exists k, c' = fst (run (H := proxy_fs agent_id capability) c k)) \/
  (cell_vfs c' = cell_vfs c /\ max_vfs_bytes (cell_budget c') = max_vfs_bytes (cell_budget c) /\
   used_vfs_bytes (cell_budget c') = used_vfs_bytes (cell_budget c)).
Definition through_cell {A} (f : Cell -> Cell * A) : Prop := forall c, rtc cell_step c (fst (f c)).

Hypothesis others_inv : forall v v', fs_inv v -> others v v' -> fs_inv v'.
Hypothesis listings_plain : forall v p names, fs_inv v -> vfs_list_dir v p = Ok names -> Forall plain_segment names.

Lemma step_mediated v0 limit c c' : cell_step c c' -> mediated capability others v0 limit c -> mediated capability others v0 limit c'.
Proof.
  intros [(k & Hk & ->)|[(k & ->)|(Ev & Em & Eu)]] Hc.
  - by apply script_mediated.
  - by apply shell_mediated.
  - unfold mediated, charged_within. rewrite Ev, Em, Eu. exact Hc.
Qed.

Lemma steps_mediated v0 limit c c' : rtc cell_step c c' -> mediated capability others v0 limit c -> mediated capability others v0 limit c'.
Proof. intros Hs. induction Hs as [|c c1 c2 Hstep _ IH]; eauto using step_mediated. Qed.

Lemma reserve_turn_mediated v0 limit : preserves (mediated capability others v0 limit) (reserve_turn agent_id).
Proof. apply budget_mediated; intros; [apply reserve_turn_vfs|apply reserve_turn_within]. Qed.

Lemma finish_js_mediated v0 limit : preserves (mediated capability others v0 limit) (finish_js_execution agent_id).
Proof. apply stands_mediated. intros. apply journal_try_stands. Qed.

(** The parameters of the shell act through the cell. *)
Context (prepare_js_runtime : SE Cell SandboxError unit) (eval : str -> SE Cell EngineError JsOutput) (permit : option (result unit str))
  (python : option (str -> Cell -> Cell * CommandResult)) (alphanumeric : str -> bool)
  (text_builtin : str -> list str -> str -> str -> Cell -> Cell * option CommandResult).
Hypothesis prepare_through : through_cell prepare_js_runtime.
Hypothesis eval_through : forall code, through_cell (eval code).
Hypothesis python_through : forall py code, python = Some py -> through_cell (py code).
Hypothesis text_through : forall program args stdin cwd, through_cell (text_builtin program args stdin cwd).

Section Kept.
Context (v0 : V) (limit : N).
Abbreviation P := (mediated capability others v0 limit).

Lemma through_mediated {A} (f : Cell -> Cell * A) c : through_cell f -> P c -> P (fst (f c)).
Proof. intros Hf. apply steps_mediated, Hf. Qed.

Lemma check_mediated ck o : preserves P (check_and_journal_capability agent_id ck o).
Proof. apply stands_mediated. intros. apply check_stands. Qed.

Lemma execute_js_mediated code : preserves P (execute_js agent_id capability prepare_js_runtime eval permit code).
Proof.
  unfold execute_js. apply preserves_bind; [apply check_mediated|]. intros _.
  apply preserves_bind; [apply reserve_turn_mediated|]. intros _.
  apply preserves_bind; [unfold acquire_permit; destruct permit as [[]|]; first [apply preserves_ret|apply preserves_err]|]. intros _.
  apply preserves_bind; [apply preserves_try, preserves_bind|].
  - intros c. by apply through_mediated.
  - intros _ c Hc. unfold eval_mapped. pose proof (through_mediated _ _ (eval_through code) Hc) as He.
    by destruct (eval code c) as [c' []].
  - intros output. apply preserves_bind; [apply finish_js_mediated|]. intros _ c. by destruct output.
Qed.

Lemma js_result_mediated code c : P c -> P (fst (js_shell_result agent_id capability prepare_js_runtime eval permit code c)).
Proof. intros Hc. unfold js_shell_result. pose proof (execute_js_mediated code c Hc) as He. by destruct (execute_js _ _ _ _ _ _ _) as [c' []]. Qed.

Lemma run_code_mediated program usage flag shown run_it args stdin cwd c :
  (forall code c, P c -> P (fst (run_it code c))) -> P c ->
  P (fst (run_code agent_id capability program usage flag shown run_it args stdin cwd c)).
Proof.
  intros Hr Hc. unfold run_code. destruct args as [|first args]; [done|].
  destruct (str_eqb first flag); [destruct (require_flag_arg _ _ _); [by apply Hr|done]|].
  destruct (str_eqb first "-"); [by apply Hr|].
  pose proof (read_inner_mediated agent_id capability others v0 limit (resolve_shell_path first cwd) c Hc) as Hf. unfold read_file.
  destruct (read_file_inner _ _ _ _) as [c' []]; [by apply Hr|done].
Qed.

Lemma run_external_mediated program args stdin cwd c :
  P c -> P (fst (run_external agent_id capability prepare_js_runtime eval permit python program args stdin cwd c)).
Proof.
  intros Hc. unfold run_external. destruct (_ || _).
  - pose proof (run_code_mediated "node" "node <script.js>" "-e" "node" _ args stdin cwd c js_result_mediated Hc) as Hn.
    unfold run_node. by destruct (run_code _ _ _ _ _ _ _ _ _ _ _).
  - destruct python as [py|] eqn:Ep; [|done]. destruct (_ || _); [|done]. unfold run_python.
    pose proof (check_mediated (check_python capability) "execute_python" c Hc) as Hk.
    destruct (check_and_journal_capability _ _ _ _) as [c1 [[]|]]; [|done].
    assert (forall code c, P c -> P (fst (py code c))) as Hpy by (intros code c2; by apply through_mediated, python_through).
    pose proof (run_code_mediated "python" "python3 <script.py>" "-c" "python3" py args stdin cwd c1 Hpy Hk) as Hn.
    by destruct (run_code _ _ _ _ _ _ _ _ _ _ _).
Qed.

Lemma admit_shell_mediated workdir : preserves P (admit_shell agent_id capability workdir).
Proof.
  unfold admit_shell. apply preserves_bind; [apply check_mediated|]. intros _.
  apply preserves_bind; [|intros; apply reserve_turn_mediated]. destruct workdir as [path|]; [|apply preserves_ret].
  apply preserves_bind; [|intros m; destruct (is_dir m); [apply preserves_ret|apply preserves_err]].
  unfold cell_metadata. apply preserves_bind; [apply check_mediated|]. intros _. apply preserves_map_err. by intros c.
Qed.

Lemma start_shell_cell workdir (a : AgentCell) sh : start_shell agent_id capability workdir a = Ok sh -> ShellExec.shell_vfs sh = cell a.
Proof.
  unfold start_shell, ShellExec.try_with_cwd. destruct workdir as [path|]; [|by intros [= <-]].
  repeat case_match; intros; simplify_eq; done.
Qed.

Lemma run_kept : forall c k, P c -> P (fst (run (H := proxy_fs agent_id capability) c k)).
Proof. intros c k. by apply shell_mediated. Qed.
End Kept.

(** C5. A command line does with the files what the capability allows, whatever it says and wherever it
    starts, through pipes, redirections, builtins and scripts of [node] or Python: the files it leaves are
    those before after calls each of which names only paths that the capability lets the cell write, or
    paths below one, and what others did; the bytes charged stay within the limit; and a directory
    given for one call does not move the shell's. *)
Theorem shell_stays_within_capability input workdir limit (a a' : AgentCell) r :
  fs_inv (cell_vfs (cell a)) -> charged_within limit (cell a) ->
  execute_shell_with_workdir agent_id capability prepare_js_runtime eval permit python alphanumeric text_builtin input workdir a = Some (a', r) ->
  rtc (files_step capability others) (cell_vfs (cell a)) (cell_vfs (cell a')) /\ charged_within limit (cell a') /\
  (workdir <> None -> shell_cwd a' = shell_cwd a).
Proof.
  intros Hi Hc E. set (v0 := cell_vfs (cell a)).
  assert (mediated capability others v0 limit (cell a)) as Hm by (split_and!; [done|apply rtc_refl|done]).
  enough (mediated capability others v0 limit (cell a') /\ (workdir <> None -> shell_cwd a' = shell_cwd a)) as [(_ & Hs & Hb) Hw] by done.
  clear Hi Hc. unfold execute_shell_with_workdir in E. pose proof (admit_shell_mediated v0 limit workdir (cell a) Hm) as Ha.
  destruct (admit_shell _ _ _ _) as [c [[]|e]]; [|by simplify_eq/=]. cbn [fst] in Ha.
  destruct (start_shell _ _ _ _) as [sh|e] eqn:Es; [|by simplify_eq/=]. apply start_shell_cell in Es. cbn in Es.
  destruct (ShellExec.shell_run _ _ _) as [[sh' res]|] eqn:Er; [|done]. simplify_eq/=.
  split; [|by destruct workdir]. apply (stands_mediated capability others v0 limit); [intros; apply journal_try_stands|].
  refine (ShellExec.run_line_keeps alphanumeric _ (ShellBuiltins.builtins_invariant text_builtin _ _ (run_kept v0 limit) _ _) _ _ _ _ _ _ Er).
  - intros program args stdin cwd v. apply through_mediated, text_through.
  - intros f program args stdin cwd v [= <-]. apply run_external_mediated.
  - done.
Qed.
End Promise.

(** ** Examples *)

Section Examples.
#[local] Existing Instances Sandbox.ex_vfs Sandbox.ex_laws Sandbox.ex_journal.
Abbreviation ExCell := (Cell State (list (JournalEntry unit)) N).

(** May run commands and scripts, and write below [/a]. *)
Definition ex_operator : CapabilityToken :=
  {| network := []; mcp_tools := []; shell := true; javascript := true; python := false;
     paths_write := [lit "/a/**"]; paths_read := [lit "/**"]; spawn_placements := [];
     skill_patterns := []; memory := empty_memory |}.
(** An engine whose scripts write their own text to a file, unless they are [bad]. *)
Definition ex_engine (code : str) : SE ExCell EngineError JsOutput := fun c =>
  let c := fst (proxy_write_file (Value := unit) "agent" ex_operator "/a/js" code c) in
  if str_eqb code "bad" then (c, Err (EngineFailed "SyntaxError"))
  else (c, Ok {| js_stdout := "ran" ++ [lf]; js_result := None; js_exit_code := None |}).
Definition ex_prepare : SE ExCell SandboxError unit := fun c => (c, Ok tt).

Definition ex_agent (c : ExCell) : @AgentCell State (list (JournalEntry unit)) N := {| cell := c; shell_env := ∅; shell_cwd := "/" |}.
Definition ex_execute (input : str) (workdir : option str) (c : ExCell) :=
  execute_shell_with_workdir (Value := unit) "agent" ex_operator ex_prepare ex_engine None None (fun _ => true)
    (fun _ _ _ _ c => (c, None)) input workdir (ex_agent c).
Definition ex_line : str := "node -e hi > c; echo no > /x".

(** The script and the redirection write below [/a]; the second redirection is refused. *)
Lemma shell_stays_within_capability_witness :
  exists a' r, ex_execute ex_line (Some (lit "/a")) ex_cell = Some (a', r) /\
    read (cell_vfs (cell a')) "/a/js" = Ok (lit "hi") /\ read (cell_vfs (cell a')) "/a/c" = Ok (lit "ran" ++ [lf]) /\
    exists_ (cell_vfs (cell a')) "/x" = false /\ charged_within 10 (cell a') /\ shell_cwd a' = lit "/".
Proof.
  destruct (ex_execute ex_line (Some (lit "/a")) ex_cell) as [[a' r]|] eqn:E; [|vm_compute in E; discriminate E].
  exists a', r. split; [reflexivity|].
  assert (charged_within 10 ex_cell) as Hc by (split; [reflexivity|right; vm_compute; discriminate]).
  enough (charged_within 10 (cell a') /\ (Some (lit "/a") <> None -> shell_cwd a' = lit "/")) as [Hb Hw].
  { split_and!; [| | |exact Hb|by apply Hw]; vm_compute in E; injection E as <- <-; reflexivity. }
  refine (proj2 (shell_stays_within_capability (Value := unit) "agent" ex_operator (fun s s' => s' = s) _ memory_listings_plain
    ex_prepare ex_engine None None (fun _ => true) (fun _ _ _ _ c => (c, None)) _ _ _ _ ex_line (Some (lit "/a")) 10
    (ex_agent ex_cell) a' r ex_fs_inv Hc E)).
  - by intros v v' Hi ->.
  - intros c. apply rtc_refl.
  - intros code c. apply (rtc_once). left. exists (WriteFile "/a/js" code). split; [done|]. unfold ex_engine. cbv zeta. by destruct (str_eqb code "bad").
  - intros py code [=].
  - intros ? ? ? ? ?. apply rtc_refl.
Defined.

(** A script that fails when it had the last turn is told that the turns are used up. *)
Example error_of_last_turn_is_misreported :
  let last := set_budget ex_cell {| max_tokens := 0; max_turns := 1; max_cost := 0%N; max_sub_agents := 0; max_vfs_bytes := 10;
     used_tokens := 0; used_turns := 0; used_cost := 0%N; used_sub_agents := 0; used_vfs_bytes := 4; max_fuel := 0; used_fuel := 0 |} in
  let run := fun c => snd (execute_js (Value := unit) "agent" ex_operator ex_prepare ex_engine None "bad" c) in
  run ex_cell = Err (JsError "SyntaxError") /\ run last = Err (OverBudget (exhausted_at "turns" 1 1)).
Proof. vm_compute. done. Qed.
End Examples.
