(* ===== verification/Mcp.v ===== *)
(** * MCP: tool grants and the event stream

    Models [crates/simulacra-mcp/src/domain/capability.rs] and [manager/capability.rs] (which tools a
    token grants), [error.rs], and [transport/sse.rs] with the error conversion of
    [transport/jsonrpc.rs] (the event stream a tool call answers with).  JSON values and the HTTP
    response are third-party: what a text parses to and what a value answers are parameters, and a
    response is the list of what reading it yields.  Log events are left out. *)

From S2P Require Import Prelude.
From S2P Require Import Text.
From S2P Require Import PathGlob.
From S2P Require Import MemoryPath.
From S2P Require Import Capability.

Variant McpError :=
| ConnectionFailed (msg : str)
| ProtocolError (msg : str)
| TransportError (msg : str)
| AuthFailed (msg : str)
| ResponseTooLarge (limit_bytes : N)
| McpCapabilityDenied (msg : str).

Definition kind (e : McpError) : str :=
  match e with
  | ConnectionFailed _ => "connection_failed"
  | ProtocolError _ => "protocol_error"
  | TransportError _ => "transport_error"
  | AuthFailed _ => "auth_failed"
  | ResponseTooLarge _ => "response_too_large"
  | McpCapabilityDenied _ => "capability_denied"
  end.

(** ** Tool grants *)

(** The loop of [glob_match] over the parts, [n] of them in all. *)
Fixpoint glob_loop (n : nat) (value : str) (parts : list str) (i pos : nat) : bool :=
  match parts with
  | [] => true
  | part :: rest =>
      if str_eqb part [] then glob_loop n value rest (S i) pos
      else if (i =? 0)%nat then
        if negb (starts_with part value) then false
        else glob_loop n value rest (S i) (length part)
      else if (i =? n - 1)%nat then
        if negb (ends_with part (skipn pos value)) then false
        else glob_loop n value rest (S i) (length value)
      else match find_sub part (skipn pos value) with
      | Some idx => glob_loop n value rest (S i) (pos + (idx + length part))
      | None => false
      end
  end.

Definition glob_match (pattern value : str) : bool :=
  let parts := split_on "*" pattern in
  if (length parts =? 1)%nat then str_eqb pattern value
  else glob_loop (length parts) value parts 0 0.

Definition check_capability (server tool : str) (capability : CapabilityToken) : result unit McpError :=
  let qualified := "mcp:" ++ server ++ ":" ++ tool in
  if negb (existsb (fun pattern => starts_with "mcp:" pattern && glob_match pattern qualified)
             (mcp_tools capability))
  then Err (McpCapabilityDenied ("tool " ++ tool ++ " on server " ++ server
              ++ " not in granted mcp_tools (patterns must be in the form mcp:{server}:{tool})"))
  else Ok tt.

(** *** What a glob means *)

(** A star stands for any text, any other character for itself. *)
Inductive globs : str -> str -> Prop :=
| globs_nil : globs [] []
| globs_char c p v : c <> "*"%char -> globs p v -> globs (c :: p) (c :: v)
| globs_star x p v : globs p v -> globs ("*"%char :: p) (x ++ v).

(** The parts after the first, in order and apart, the last one at the end. *)
Fixpoint in_order (ws : list str) (v : str) : Prop :=
  match ws with
  | [] => v = []
  | w :: ws => exists x y, v = x ++ w ++ y /\ in_order ws y
  end.

Lemma globs_text w p v : "*"%char ∉ w -> globs (w ++ p) v <-> exists v', v = w ++ v' /\ globs p v'.
Proof.
  revert v; induction w as [|c w IH]; intros v Hw; cbn [app].
  { split; [by exists v|by intros (v' & -> & ?)]. }
  apply not_elem_of_cons in Hw as [Hc Hw]. split.
  - intros H. inversion H as [|c' p' v0 _ H'|]; subst; [|done].
    apply IH in H' as (v' & -> & ?); [|done]. by exists v'.
  - intros (v' & -> & Hv). constructor; [congruence|]. apply IH; [done|]. by exists v'.
Qed.

Lemma globs_star_iff p v : globs ("*"%char :: p) v <-> exists x y, v = x ++ y /\ globs p y.
Proof.
  split; [|intros (x & y & -> & H); by constructor].
  intros H. inversion H as [|c p' v' Hc|x p' v' H']; subst; [done|]. by exists x, v'.
Qed.

Lemma globs_parts w ws v :
  Forall (fun u => "*"%char ∉ u) (w :: ws) ->
  globs (join "*" (w :: ws)) v <-> exists y, v = w ++ y /\ in_order ws y.
Proof.
  revert w v; induction ws as [|u ws IH]; intros w v H; inversion H as [|? ? Hw Hws]; subst.
  - cbn [join in_order]. rewrite <- (app_nil_r w) at 1. rewrite globs_text by done.
    split; intros (y & -> & Hy); exists y; (split; [done|]); [by inversion Hy|subst; constructor].
  - rewrite join_cons_nonempty by done. rewrite globs_text by done.
    assert (Hs : forall y, globs (lit "*" ++ join "*" (u :: ws)) y <-> in_order (u :: ws) y).
    { intros y. change (lit "*" ++ join "*" (u :: ws)) with ("*"%char :: join "*" (u :: ws)).
      rewrite globs_star_iff. cbn [in_order]. split.
      - intros (x & y' & -> & H'). apply IH in H' as (y2 & -> & Hy); [|done]. by exists x, y2.
      - intros (x & y2 & -> & Hy). exists x, (u ++ y2). split; [done|]. apply IH; [done|]. by exists y2. }
    setoid_rewrite Hs. done.
Qed.

(** *** The greedy loop finds a match when there is one *)

Lemma in_order_more ws x y : ws <> [] -> in_order ws y -> in_order ws (x ++ y).
Proof.
  destruct ws as [|w ws]; [done|]. intros _ (a & b & -> & Hb). exists (x ++ a), b.
  by rewrite <- !app_assoc.
Qed.

(** Taking the leftmost occurrence loses nothing. *)
Lemma in_order_leftmost w ws v :
  ws <> [] ->
  in_order (w :: ws) v <->
  match find_sub w v with
  | Some i => in_order ws (skipn (i + length w) v)
  | None => False
  end.
Proof.
  intros Hne. pose proof (find_sub_spec w v) as H. destruct (find_sub w v) as [i|].
  - destruct H as (x & y & -> & <- & Hmin).
    rewrite app_assoc, <- length_app, drop_app_length, <- app_assoc. split.
    + intros (x' & y' & E & Hy'). specialize (Hmin x' y' E).
      assert (exists z, y = z ++ y') as [z ->]; [|by apply in_order_more].
      exists (skipn (length x + length w) (x' ++ w)).
      apply (f_equal (skipn (length x + length w))) in E.
      rewrite !app_assoc, <- length_app, drop_app_length, length_app in E. rewrite E.
      rewrite skipn_app. f_equal. rewrite !length_app.
      by replace (length x + length w - (length x' + length w))%nat with 0%nat by lia.
    + intros Hy. by exists x, y.
  - split; [|done]. intros (x & y & E & _). by apply (H x y).
Qed.

Lemma in_order_last w v : in_order [w] v <-> ends_with w v = true.
Proof.
  cbn [in_order]. rewrite ends_with_true. split.
  - intros (x & y & -> & ->). exists x. by rewrite app_nil_r.
  - intros [r ->]. exists r, []. by rewrite app_nil_r.
Qed.

Lemma in_order_empty_middle ws v : ws <> [] -> in_order ([] :: ws) v <-> in_order ws v.
Proof.
  intros Hne. cbn [in_order app]. split; [|by exists [], v].
  intros (x & y & -> & Hy). by apply in_order_more.
Qed.

Lemma glob_loop_spec n value ws i pos :
  (i <> 0)%nat -> (i + length ws = n)%nat -> ws <> [] ->
  glob_loop n value ws i pos = true <-> in_order ws (skipn pos value).
Proof.
  revert i pos; induction ws as [|w ws IH]; intros i pos Hi Hn Hne; [done|]. cbn [glob_loop length] in *.
  destruct (decide (ws = [])) as [->|Hws].
  - rewrite in_order_last. destruct (str_eqb w []) eqn:E; bools.
    + subst w. cbn [glob_loop]. rewrite ends_with_true. split; [|done]. intros _.
      exists (skipn pos value). by rewrite app_nil_r.
    + destruct (Nat.eqb_spec i 0); [done|]. destruct (Nat.eqb_spec i (n - 1)); [|cbn in Hn; lia].
      destruct (ends_with w (skipn pos value)); done.
  - destruct (str_eqb w []) eqn:E; bools.
    + subst w. rewrite in_order_empty_middle by done. apply IH; [lia|lia|done].
    + destruct (Nat.eqb_spec i 0); [done|].
      destruct (Nat.eqb_spec i (n - 1)); [destruct ws; [done|cbn in Hn; lia]|].
      rewrite in_order_leftmost by done. destruct (find_sub w (skipn pos value)) as [idx|]; [|done].
      rewrite IH by (done || lia). rewrite skipn_skipn.
      by replace (idx + length w + pos)%nat with (pos + (idx + length w))%nat by lia.
Qed.

Lemma glob_loop_first n value w ws :
  glob_loop n value (w :: ws) 0 0 =
  if str_eqb w [] then glob_loop n value ws 1 0
  else if negb (starts_with w value) then false else glob_loop n value ws 1 (length w).
Proof. done. Qed.

(** The matcher decides the glob: a pattern matches exactly the texts it denotes, a star standing
    for any text, separators included, and every other character for itself; the greedy search for
    the middle parts never misses a match. *)
Theorem glob_match_decides pattern value : glob_match pattern value = true <-> globs pattern value.
Proof.
  pose proof (join_split_on "*" pattern) as Ej.
  assert (Hws : Forall (fun u => "*"%char ∉ u) (split_on "*" pattern))
    by (apply Forall_forall; intros u; apply split_on_no_sep).
  unfold glob_match. cbv zeta. destruct (split_on "*" pattern) as [|w ws] eqn:E;
    [by apply split_on_nonempty in E|].
  rewrite <- Ej at 2. change ["*"%char] with (lit "*"). rewrite globs_parts by done.
  destruct ws as [|u ws].
  - cbn [length Nat.eqb in_order]. change (join (lit "*") [w]) with w in Ej. rewrite <- Ej, str_eqb_true. split.
    + intros <-. exists []. by rewrite app_nil_r.
    + intros (y & -> & ->). by rewrite app_nil_r.
  - change (length (w :: u :: ws) =? 1)%nat with false. cbv iota. rewrite glob_loop_first.
    destruct (str_eqb w []) eqn:Ew; bools.
    + subst w. rewrite glob_loop_spec by done. cbn [app skipn]. split; [by exists value|].
      by intros (y & -> & ?).
    + destruct (starts_with w value) eqn:Es; cbn [negb].
      * apply starts_with_true in Es as [r ->]. rewrite glob_loop_spec by done. rewrite drop_app_length.
        split; [by exists r|]. by intros (y & ->%app_inv_head & ?).
      * split; [done|]. intros (y & -> & _). by rewrite starts_with_app in Es.
Qed.

(** A tool is granted exactly by a pattern of the token that is in the mcp: namespace and denotes
    the qualified name, and the grant attenuates: a token that passes the subset check grants no
    tool its parent does not, and the intersection of two tokens none that either refuses. *)
Theorem mcp_grants_attenuate server tool child parent :
  (check_capability server tool child = Ok tt <->
   exists pattern, pattern ∈ mcp_tools child /\ starts_with "mcp:" pattern = true /\
     globs pattern ("mcp:" ++ server ++ ":" ++ tool)) /\
  (is_subset_of child parent = true ->
   check_capability server tool child = Ok tt -> check_capability server tool parent = Ok tt) /\
  (check_capability server tool (Capability.intersect child parent) = Ok tt ->
   check_capability server tool child = Ok tt /\ check_capability server tool parent = Ok tt).
Proof.
  assert (Hc : forall c, check_capability server tool c = Ok tt <->
    exists pattern, pattern ∈ mcp_tools c /\ starts_with "mcp:" pattern = true /\
      globs pattern ("mcp:" ++ server ++ ":" ++ tool)).
  { intros c. unfold check_capability. cbv zeta. destruct (existsb _ _) eqn:E; cbn [negb].
    - split; [|done]. intros _. apply existsb_elem in E as (p & Hp & Hm). apply andb_true_iff in Hm as [H1 H2].
      exists p. by apply glob_match_decides in H2.
    - split; [done|]. intros (p & Hp & H1 & H2). exfalso. apply not_true_iff_false in E. apply E.
      apply existsb_elem. exists p. split; [done|]. by rewrite H1, (proj2 (glob_match_decides _ _) H2). }
  assert (Hmono : forall c c', (forall p, p ∈ mcp_tools c -> p ∈ mcp_tools c') ->
    check_capability server tool c = Ok tt -> check_capability server tool c' = Ok tt).
  { intros c c' Hs. rewrite !Hc. intros (p & Hp & ?). exists p. split; [by apply Hs|done]. }
  split; [apply Hc|]. split.
  - intros Hsub. apply Hmono. intros p Hp. unfold is_subset_of in Hsub. bools.
    match goal with H : forallb _ (mcp_tools child) = true |- _ =>
      apply mem_true; by apply (proj1 (forallb_elem _ _) H) end.
  - intros H. split; revert H; apply Hmono; intros p Hp; unfold Capability.intersect in Hp;
      cbn [mcp_tools] in Hp; apply list_elem_of_In, filter_In in Hp as [H1 H2];
      [by apply list_elem_of_In|by apply mem_true].
Qed.

Lemma mcp_grants_attenuate_witness :
  is_subset_of sample_parent sample_parent = true /\
  check_capability "github" "issues:list" sample_parent = Ok tt.
Proof.
  assert (is_subset_of sample_parent sample_parent = true) as Hs by reflexivity.
  split; [exact Hs|].
  apply (proj1 (proj2 (mcp_grants_attenuate "github" "issues:list" sample_parent sample_parent)) Hs).
  vm_compute. reflexivity.
Defined.
