(* ===== verification/Sse.v ===== *)
(** * MCP: the event stream of a tool call

    Models [crates/simulacra-mcp/src/transport/sse.rs] and [jsonrpc_error_from_value] of
    [transport/jsonrpc.rs].  The response is the list of what reading it yields until it ends: chunks,
    a transport failure or a minute without data.  JSON values ([serde_json]) and the lossy decoding
    of a chunk's bytes are parameters.  Log events are left out. *)

From S2P Require Import Prelude.
From S2P Require Import Text.
From S2P Require Import Mcp.

(** ** Line endings *)

(** [text.replace("\r\n", "\n")]. *)
Fixpoint replace_crlf (text : str) : str :=
  match text with
  | c :: ((d :: rest) as tail) =>
      if Ascii.eqb c cr && Ascii.eqb d lf then lf :: replace_crlf rest else c :: replace_crlf tail
  | _ => text
  end.

(** ** Events *)

(** The loop over the lines of an event: its type and its data lines. *)
Fixpoint event_lines (ls : list str) (event_type : option str) (data_lines : list str)
    : option str * list str :=
  match ls with
  | [] => (event_type, data_lines)
  | line :: rest =>
      match strip_prefix "event:" line with
      | Some value => event_lines rest (Some (trim value)) data_lines
      | None =>
          match strip_prefix "data:" line with
          | Some value => event_lines rest event_type (data_lines ++ [trim value])
          | None => event_lines rest event_type data_lines
          end
      end
  end.

Definition parse_next_sse_event (text : str) : option (option str * str * str) :=
  let text := replace_crlf text in
  match find_sub [lf; lf] text with
  | None => None
  | Some event_end =>
      let event_text := firstn event_end text in
      let rest := skipn (event_end + 2) text in
      let '(event_type, data_lines) := event_lines (lines event_text) None [] in
      match data_lines with
      | [] => None
      | _ => Some (event_type, join [lf] data_lines, rest)
      end
  end.

(** The loop of [parse_sse_endpoint]. *)
Fixpoint endpoint_loop (ls : list str) (current_event current_data : option str) : option str :=
  match ls with
  | [] => if bool_decide (current_event = Some (lit "endpoint")) then current_data else None
  | line :: rest =>
      match strip_prefix "event:" line with
      | Some event_type => endpoint_loop rest (Some (trim event_type)) current_data
      | None =>
          match strip_prefix "data:" line with
          | Some data => endpoint_loop rest current_event (Some (trim data))
          | None =>
              if str_eqb line [] then
                if bool_decide (current_event = Some (lit "endpoint")) then
                  match current_data with
                  | Some data => Some data
                  | None => endpoint_loop rest None None
                  end
                else endpoint_loop rest None None
              else endpoint_loop rest current_event current_data
          end
      end
  end.

Definition parse_sse_endpoint (text : str) : option str := endpoint_loop (lines text) None None.

(** ** Events on the wire *)

(** A line of an event as it is sent: not empty, no line break in it. *)
Definition wire_line (l : str) : Prop := l <> [] /\ lf ∉ l /\ cr ∉ l.

(** The text of an event with these lines, and what follows it. *)
Definition wire (ls : list str) (rest : str) : str := join [lf] ls ++ lf :: lf :: rest.

Lemma replace_crlf_app a b : cr ∉ a -> replace_crlf (a ++ b) = a ++ replace_crlf b.
Proof.
  induction a as [|c a IH]; intros Hc; [done|]. apply not_elem_of_cons in Hc as [Hc Ha].
  rewrite <- !app_comm_cons, <- IH by done. destruct (a ++ b) as [|d r] eqn:E; [done|].
  cbn [replace_crlf]. destruct (Ascii.eqb_spec c cr) as [->|]; [done|]. done.
Qed.

Lemma find_lflf_skip w s :
  lf ∉ w -> find_sub [lf; lf] (w ++ s) = option_map (Nat.add (length w)) (find_sub [lf; lf] s).
Proof.
  induction w as [|c w IH]; intros Hw; cbn [app length].
  - by destruct (find_sub _ s).
  - apply not_elem_of_cons in Hw as [Hc Hw]. cbn [find_sub].
    assert (starts_with [lf; lf] (c :: w ++ s) = false) as ->.
    { unfold starts_with. cbn [strip_prefix]. by destruct (Ascii.eqb_spec lf c). }
    rewrite IH by done. by destruct (find_sub _ s).
Qed.

Lemma find_lflf_wire ls rest :
  Forall wire_line ls -> find_sub [lf; lf] (wire ls rest) = Some (length (join [lf] ls)).
Proof.
  unfold wire. induction 1 as [|w ls (Hne & Hlf & _) Hls IH]; [done|].
  destruct ls as [|v ls].
  - cbn [join]. rewrite find_lflf_skip by done.
    change (find_sub [lf; lf] (lf :: lf :: rest)) with (Some 0%nat). cbn [option_map]. f_equal. lia.
  - rewrite join_cons_nonempty, <- !app_assoc by done. rewrite find_lflf_skip by done.
    change ([lf] ++ ?x) with (lf :: x). cbn [find_sub].
    assert (starts_with [lf; lf] (lf :: join [lf] (v :: ls) ++ lf :: lf :: rest) = false) as ->.
    { inversion Hls as [|? ? (Hv & Hvl & _) _]; subst. destruct v as [|c v]; [done|].
      apply not_elem_of_cons in Hvl as [Hc _]. unfold starts_with. cbn [strip_prefix]. rewrite Ascii.eqb_refl.
      destruct ls; cbn [join app strip_prefix]; by destruct (Ascii.eqb_spec lf c). }
    rewrite IH. cbn [option_map]. f_equal. rewrite !length_app. cbn. lia.
Qed.

Lemma cr_join ls : Forall wire_line ls -> cr ∉ join [lf] ls.
Proof.
  intros H Hin. apply elem_of_join in Hin as [E|(w & Hw & Hc)]; [done|].
  rewrite Forall_forall in H. by destruct (H w Hw) as (_ & _ & ?).
Qed.

Lemma lines_join ls : Forall wire_line ls -> lines (join [lf] ls) = ls.
Proof.
  intros H. destruct ls as [|w ls]; [done|]. unfold lines.
  rewrite split_on_join; [|done|eapply Forall_impl; [exact H|]; by intros ? (_ & ? & _)].
  induction H as [|v vs (Hne & _ & Hcr) Hvs IH]; [done|]. destruct vs as [|u us].
  - cbn [lines_of]. destruct (str_eqb v []) eqn:E; by bools.
  - change (lines_of (v :: u :: us)) with (unwrap_or (strip_suffix [cr] v) v :: lines_of (u :: us)).
    rewrite IH. f_equal. destruct (strip_suffix [cr] v) as [r|] eqn:E; [|done].
    apply strip_suffix_Some in E as ->. destruct Hcr. apply elem_of_app. right. left.
Qed.

(** What the parser reads of an event on the wire. *)
Lemma parse_wire ls rest :
  Forall wire_line ls ->
  parse_next_sse_event (wire ls rest) =
  let '(event_type, data_lines) := event_lines ls None [] in
  match data_lines with
  | [] => None
  | _ => Some (event_type, join [lf] data_lines, replace_crlf rest)
  end.
Proof.
  intros H. unfold parse_next_sse_event. cbv zeta.
  assert (replace_crlf (wire ls rest) = wire ls (replace_crlf rest)) as ->.
  { unfold wire. change (lf :: lf :: rest) with ([lf; lf] ++ rest). rewrite app_assoc, replace_crlf_app.
    - by rewrite <- app_assoc.
    - rewrite elem_of_app. intros [Hc|Hc]; [by apply cr_join in Hc|].
      rewrite !elem_of_cons, elem_of_nil in Hc. destruct_or?; done. }
  rewrite find_lflf_wire by done. unfold wire. rewrite take_app_length, lines_join by done.
  rewrite Nat.add_comm, <- skipn_skipn, drop_app_length. done.
Qed.

Lemma event_lines_no_data ls et d :
  Forall (fun l => starts_with "data:" l = false) ls -> snd (event_lines ls et d) = d.
Proof.
  intros H; revert et; induction H as [|l ls Hl _ IH]; intros et; [done|]. cbn [event_lines].
  destruct (strip_prefix "event:" l); [apply IH|]. unfold starts_with in Hl.
  destruct (strip_prefix "data:" l); [done|apply IH].
Qed.

(** *** An event without data is never consumed *)

Lemma stalled_parse ls rest :
  Forall wire_line ls -> Forall (fun l => starts_with "data:" l = false) ls ->
  parse_next_sse_event (wire ls rest) = None.
Proof.
  intros H Hd. rewrite parse_wire by done. pose proof (event_lines_no_data ls None [] Hd) as E.
  destruct (event_lines ls None []) as [et d]. cbn in E. by subst.
Qed.

(** An event as a server sends it. *)
Definition render_event (event_type : str) (data : list str) : list str :=
  ("event: " ++ event_type) :: map (fun d => "data: " ++ d) data.

Definition clean (s : str) : Prop := lf ∉ s /\ cr ∉ s /\ trim s = s.

Lemma event_lines_data ds et acc :
  Forall clean ds -> event_lines (map (fun d => "data: " ++ d) ds) et acc = (et, acc ++ ds).
Proof.
  intros H; revert acc; induction H as [|d ds (_ & _ & Ht) _ IH]; intros acc; cbn [map event_lines].
  - by rewrite app_nil_r.
  - change ("data: " ++ d) with (lit "data:" ++ " "%char :: d).
    assert (strip_prefix "event:" (lit "data:" ++ " "%char :: d) = None) as -> by done.
    rewrite strip_prefix_app, trim_space, Ht, IH. by rewrite <- app_assoc.
Qed.

Lemma render_wire event_type ds :
  clean event_type -> Forall clean ds -> Forall wire_line (render_event event_type ds).
Proof.
  assert (Hone : forall p s, p <> [] -> lf ∉ p -> cr ∉ p -> clean s -> wire_line (p ++ s)).
  { intros p s Hp H1 H2 (H3 & H4 & _). split_and!; [by destruct p|rewrite elem_of_app; tauto..]. }
  assert (Hfix : forall p, p = lit "event: " \/ p = lit "data: " -> p <> [] /\ lf ∉ p /\ cr ∉ p).
  { intros p [-> | ->]; (split; [done|]); split; rewrite list_elem_of_In; intros Hin; cbn in Hin;
      repeat destruct Hin as [Hin|Hin]; discriminate || done. }
  intros He Hd. constructor.
  - destruct (Hfix "event: ") as (? & ? & ?); [by left|]. by apply Hone.
  - apply Forall_map. eapply Forall_impl; [exact Hd|]. intros d Hc.
    destruct (Hfix "data: ") as (? & ? & ?); [by right|]. by apply Hone.
Qed.

(** An event on the wire parses back: an event with a type and data lines, sent with a space
    after each colon, is read as that type and the data lines joined by line feeds, and what follows
    it is left for the next. *)
Theorem sse_event_roundtrip event_type data rest :
  clean event_type -> Forall clean data -> data <> [] -> cr ∉ rest ->
  parse_next_sse_event (wire (render_event event_type data) rest)
  = Some (Some event_type, join [lf] data, rest).
Proof.
  intros He Hd Hne Hcr. rewrite parse_wire by by apply render_wire.
  assert (replace_crlf rest = rest) as ->.
  { rewrite <- (app_nil_r rest) at 1. rewrite replace_crlf_app by done. apply app_nil_r. }
  cbn [render_event event_lines].
  change ("event: " ++ event_type) with (lit "event:" ++ " "%char :: event_type).
  rewrite strip_prefix_app, trim_space, event_lines_data by done. destruct He as (_ & _ & ->).
  cbn [app]. by destruct data.
Qed.

(** ** The response *)

Section Stream.
Context {Json : Type} (from_str : str -> option Json) (get : Json -> str -> option Json).
Context (as_i64 : Json -> option Z) (as_str : Json -> option str) (to_string : Json -> str).
Context (from_utf8_lossy : str -> str) (dec_i64 : Z -> str).

Definition jsonrpc_error_from_value (err : Json) : McpError :=
  let code := match get err "code" with Some c => as_i64 c | None => None end in
  let message := match get err "message" with Some m => as_str m | None => None end in
  ProtocolError
    match code, message with
    | Some c, Some m => "JSON-RPC error " ++ dec_i64 c ++ ": " ++ m
    | Some c, None => "JSON-RPC error " ++ dec_i64 c
    | None, Some m => "JSON-RPC error: " ++ m
    | None, None => "JSON-RPC error: " ++ to_string err
    end.

(** What waiting for the next chunk yields. *)
Variant arrival :=
| Chunk (bytes : str)
| Closed
| Failed (msg : str)
| Idle.

(** The events complete in the buffer: an answer, or the text left over. *)
Fixpoint drain (fuel : nat) (accumulated : str) : str + result Json McpError :=
  match fuel with
  | O => inl accumulated
  | S fuel =>
      match parse_next_sse_event accumulated with
      | None => inl accumulated
      | Some (_, event_data, rest) =>
          match from_str event_data with
          | None => drain fuel rest
          | Some json =>
              match get json "error" with
              | Some err => inr (Err (jsonrpc_error_from_value err))
              | None =>
                  match get json "result" with
                  | Some result => inr (Ok result)
                  | None => drain fuel rest
                  end
              end
          end
      end
  end.

(** [usize::saturating_add]. *)
Definition usize_add (a b : N) : N := N.min 18446744073709551615 (a + b)%N.

Fixpoint parse_sse_tool_response (max_response_bytes : option N) (arrivals : list arrival)
    (accumulated : str) (received_bytes : N) : result Json McpError :=
  match arrivals with
  | [] => Err (TransportError "SSE stream idle timeout (60s)")
  | Chunk chunk :: more =>
      let received_bytes := usize_add received_bytes (N.of_nat (length chunk)) in
      match match max_response_bytes with
            | Some limit_bytes => if (limit_bytes <? received_bytes)%N then Some limit_bytes else None
            | None => None
            end with
      | Some limit_bytes => Err (ResponseTooLarge limit_bytes)
      | None =>
          let accumulated := accumulated ++ from_utf8_lossy chunk in
          match drain (S (length accumulated)) accumulated with
          | inr answer => answer
          | inl accumulated =>
              parse_sse_tool_response max_response_bytes more accumulated received_bytes
          end
      end
  | Closed :: _ => Err (ProtocolError "SSE stream closed without delivering a JSON-RPC response")
  | Failed msg :: _ => Err (TransportError msg)
  | Idle :: _ => Err (TransportError "SSE stream idle timeout (60s)")
  end.

Lemma stalled_response max arrivals ls rest received v :
  Forall wire_line ls -> Forall (fun l => starts_with "data:" l = false) ls ->
  parse_sse_tool_response max arrivals (wire ls rest) received <> Ok v.
Proof.
  intros H Hd. revert rest received; induction arrivals as [|[chunk| |msg|] more IH]; intros rest received;
    try done. cbn [parse_sse_tool_response]. destruct (match max with Some _ => _ | None => _ end); [done|].
  assert (wire ls rest ++ from_utf8_lossy chunk = wire ls (rest ++ from_utf8_lossy chunk)) as ->
    by (unfold wire; by rewrite <- app_assoc).
  cbn [drain]. rewrite stalled_parse by done. apply IH.
Qed.

(** An event without data stalls the stream: when the first event of a response has no data line
    (a comment a server sends to keep the connection alive, or a bare event type), it is never
    removed from the buffer, so whatever arrives after it, answers included, the call fails. *)
Theorem sse_dataless_event_stalls max chunk more ls rest v :
  Forall wire_line ls -> Forall (fun l => starts_with "data:" l = false) ls ->
  from_utf8_lossy chunk = wire ls rest ->
  parse_sse_tool_response max (Chunk chunk :: more) [] 0 <> Ok v.
Proof.
  intros H Hd E. cbn [parse_sse_tool_response app]. rewrite E.
  destruct (match max with Some _ => _ | None => _ end); [done|].
  cbn [drain]. rewrite stalled_parse by done. by apply stalled_response.
Qed.
End Stream.

(** ** The properties at concrete events *)

Lemma sse_event_roundtrip_witness :
  clean "message" /\ clean "{}" /\
  parse_next_sse_event (wire (render_event "message" [lit "{}"]) "event: x")
  = Some (Some (lit "message"), lit "{}", lit "event: x").
Proof.
  assert (Hc : forall s : str, forallb (fun c => negb (Ascii.eqb c lf) && negb (Ascii.eqb c cr)) s = true ->
    trim s = s -> clean s).
  { intros s Hs Ht. split_and!; [| |done]; intros Hin; rewrite forallb_elem in Hs;
      specialize (Hs _ Hin); vm_compute in Hs; discriminate. }
  assert (clean "message") as H1 by (apply Hc; vm_compute; reflexivity).
  assert (clean "{}") as H2 by (apply Hc; vm_compute; reflexivity).
  split; [exact H1|]. split; [exact H2|].
  apply (sse_event_roundtrip "message" [lit "{}"] "event: x"); [exact H1|by constructor|done|].
  intros Hin. apply list_elem_of_In in Hin. cbn in Hin. repeat destruct Hin as [Hin|Hin]; discriminate || done.
Defined.

(** A keep-alive comment and then a complete answer, in one chunk. *)
Lemma sse_dataless_event_stalls_witness :
  parse_sse_tool_response (Json := str) Some (fun j k => if str_eqb k "result" then Some j else None)
    (fun _ => None) (fun _ => None) (fun j => j) (fun c => c) (fun _ => []) None
    [Chunk (wire [lit ": ping"] (wire [lit "data: 1"] [])); Closed] [] 0 <> Ok (lit "1") /\
  parse_sse_tool_response (Json := str) Some (fun j k => if str_eqb k "result" then Some j else None)
    (fun _ => None) (fun _ => None) (fun j => j) (fun c => c) (fun _ => []) None
    [Chunk (wire [lit "data: 1"] []); Closed] [] 0 = Ok (lit "1").
Proof.
  split; [|vm_compute; reflexivity].
  apply (sse_dataless_event_stalls Some (fun j k => if str_eqb k "result" then Some j else None)
    (fun _ => None) (fun _ => None) (fun j => j) (fun c => c) (fun _ => []) None
    (wire [lit ": ping"] (wire [lit "data: 1"] [])) [Closed] [lit ": ping"] (wire [lit "data: 1"] [])).
  - constructor; [|constructor]. split; [done|]. split; intros Hin; apply list_elem_of_In in Hin;
      cbn in Hin; repeat destruct Hin as [Hin|Hin]; discriminate || done.
  - constructor; [reflexivity|constructor].
  - reflexivity.
Defined.
