(* ===== verification/WasmFetch.v ===== *)
(** * Requests of MCP modules

    Models [crates/simulacra-mcp/src/wasm/fetch/]: what the host does with an HTTP request of a wasm module, from the
    allowlist over the hooks and the wire to the journal.  It is the [simulacra:mcp/http.fetch] that a module of
    [McpManager.v] calls while it runs.

    The HTTP client (a [reqwest] client as [runtime.rs] builds it), the reading of URLs and methods, base64 and the texts of
    [serde]'s errors are parameters.  Spans and counters are left out. *)

From S2P Require Import Prelude.
From S2P Require Import Text.
From S2P Require Import Capability.
From S2P Require Import Json.
From S2P Require Import Journal.
From S2P Require Hooks.

(** ** The allowlist ([allowlist.rs]) *)

Definition split_host_port (value : str) : option (str * str) :=
  '(host, port) ← rsplit_once ":" value; if str_eqb host [] then None else Some (host, port).
Definition port_matches (pattern_port candidate_port : str) : bool := str_eqb pattern_port "*" || str_eqb pattern_port candidate_port.
Definition host_matches (pattern_host candidate_host_lower : str) : bool :=
  let pattern_lower := List.map to_ascii_lowercase pattern_host in
  match strip_prefix "*." pattern_lower with
  | Some suffix =>
      match strip_suffix suffix candidate_host_lower with
      | None => false
      | Some prefix =>
          match strip_suffix "." prefix with
          | None => false
          | Some label => negb (str_eqb label []) && negb (contains_char "." label)
          end
      end
  | None => str_eqb pattern_lower candidate_host_lower
  end.
Definition check_network_allowlist (host_port : str) (allowlist : list str) : bool :=
  match allowlist with
  | [] => false
  | _ =>
      match split_host_port host_port with
      | None => false
      | Some (cand_host, cand_port) =>
          existsb (fun pattern =>
            match split_host_port pattern with
            | None => false
            | Some (pat_host, pat_port) => port_matches pat_port cand_port && host_matches pat_host (List.map to_ascii_lowercase cand_host)
            end) allowlist
      end
  end.

(** ** Types ([types.rs]) *)

Record FetchRequest := { fetch_method : str; fetch_url : str; fetch_headers : list (str * str); fetch_body : bytes }.
Record FetchResponse := { fetched_status : N; fetched_headers : list (str * str); fetched_body : bytes }.
Variant FetchError := CapabilityDenied (what : str) | HookDenied (reason : str) | Transport (msg : str) | FetchTimeout.

(** A response on the wire; a header whose value is not text has none. *)
Record WireResponse := { wire_status : N; wire_headers : list (str * option str); wire_body : bytes }.
Variant WireError := WireTimedOut | WireFailed (msg : str).
Class ModuleNet (N' : Type) := {
  url_host_port : str -> option (option str * option N);
  method_error : str -> option str;
  wire_send : N' -> FetchRequest -> N -> N' * result WireResponse WireError;
  clock_ms : N' -> N;
}.

Section Fetch.
Context {N' HW J Value Decimal : Type} `{ModuleNet N'} `{JsonOps Value} `{@JournalStorage Value Decimal J}.
Context (base64_decode : str -> option bytes) (serde_error : str -> str).

Definition WASM_MCP_FETCH_DEFAULT_TIMEOUT : N := 30000.

Definition extract_host_port (url_str : str) : option str :=
  '(host, port) ← url_host_port url_str; host ← host; port ← port; Some (host ++ ":" ++ dec port).

(** *** JSON of requests and responses, and what a hook may turn them into *)

Definition header_value (h : str * str) : Value := json_array [json_string (fst h); json_string (snd h)].
Definition byte_value (c : ascii) : Value := json_number (N_of_ascii c).
Definition request_value (r : FetchRequest) : Value :=
  json_object ["method" ↦ json_string (fetch_method r); "url" ↦ json_string (fetch_url r);
               "headers" ↦ json_array (header_value <$> fetch_headers r); "body" ↦ json_array (byte_value <$> fetch_body r)].
Definition response_value (r : FetchResponse) : Value :=
  json_object ["status" ↦ json_number (fetched_status r); "headers" ↦ json_array (header_value <$> fetched_headers r);
               "body" ↦ json_array (byte_value <$> fetched_body r)].

Definition header_of (v : Value) : option (str * str) :=
  match as_array v with Some [name; value] => name ← as_str name; value ← as_str value; Some (name, value) | _ => None end.
Definition headers_of (v : Value) : option (list (str * str)) := as_array v ≫= mapM header_of.
Definition byte_of (v : Value) : option ascii := n ← as_u64 v; if (n <? 256)%N then Some (ascii_of_N n) else None.
Definition status_of (v : Value) : option N := n ← as_u64 v; if (n <=? 65535)%N then Some n else None.
Definition request_of (v : Value) : option FetchRequest :=
  '(method, url, headers, body) ←
    match as_array v with
    | Some [method; url; headers; body] => Some (method, url, headers, body)
    | Some _ => None
    | None => method ← value_get "method" v; url ← value_get "url" v; headers ← value_get "headers" v; body ← value_get "body" v; Some (method, url, headers, body)
    end;
  method ← as_str method; url ← as_str url; headers ← headers_of headers; body ← as_array body ≫= mapM byte_of;
  Some {| fetch_method := method; fetch_url := url; fetch_headers := headers; fetch_body := body |}.
Definition response_of (v : Value) : option FetchResponse :=
  '(status, headers, body) ←
    match as_array v with
    | Some [status; headers; body] => Some (status, headers, body)
    | Some _ => None
    | None => status ← value_get "status" v; headers ← value_get "headers" v; body ← value_get "body" v; Some (status, headers, body)
    end;
  status ← status_of status; headers ← headers_of headers; body ← as_array body ≫= mapM byte_of;
  Some {| fetched_status := status; fetched_headers := headers; fetched_body := body |}.

(** [envelope.rs]: a body that has the form of a response stands for one. *)
Definition parse_fetch_envelope (body : bytes) : option FetchResponse :=
  value ← json_from_str body;
  _ ← as_object value;
  status ← value_get "status" value ≫= status_of;
  headers ← value_get "headers" value ≫= headers_of;
  body ← get_str "body" value ≫= base64_decode;
  Some {| fetched_status := status; fetched_headers := headers; fetched_body := body |}.

(** *** Hooks ([hooks.rs]) *)

(** The state of a fetch: the network, the hooks and the journal of the module. *)
Record FetchState := { net : N'; hook_state : Hooks.State HW; fetch_journal : option J }.
Definition set_net (n : N') (s : FetchState) : FetchState := {| net := n; hook_state := hook_state s; fetch_journal := fetch_journal s |}.
Definition set_hook_state (h : Hooks.State HW) (s : FetchState) : FetchState := {| net := net s; hook_state := h; fetch_journal := fetch_journal s |}.
Definition set_fetch_journal (j : J) (s : FetchState) : FetchState := {| net := net s; hook_state := hook_state s; fetch_journal := Some j |}.

(** What the hooks leave of a context, read back when it changed. *)
Definition read_back {A} (original : A) (context modified : str) (of_value : Value -> option A) : result A FetchError :=
  if str_eqb modified context then Ok original
  else ok_or (json_from_str modified ≫= of_value) (Transport ("hook deserialize: " ++ serde_error modified)).
Definition run_hook_phase_before (p : Hooks.HookPipeline HW) (request : FetchRequest) : SE FetchState FetchError FetchRequest := fun s =>
  let request_json := json_to_string (request_value request) in
  let '(h, r) := Hooks.run_before p Hooks.HttpRequest request_json (hook_state s) in
  (set_hook_state h s,
   match r with
   | Err e => Err (HookDenied (Hooks.hook_error_display e))
   | Ok (Hooks.Deny reason, _) => Err (HookDenied reason)
   | Ok (Hooks.Kill reason, _) => Err (HookDenied ("kill: " ++ reason))
   | Ok (Hooks.Continue _, modified) => read_back request request_json modified request_of
   end).
Definition run_hook_phase_after (p : Hooks.HookPipeline HW) (response : FetchResponse) : SE FetchState FetchError FetchResponse := fun s =>
  let response_json := json_to_string (response_value response) in
  let '(h, r) := Hooks.run_after p Hooks.HttpRequest response_json (hook_state s) in
  (set_hook_state h s,
   match r with
   | Err e => Err (HookDenied (Hooks.hook_error_display e))
   | Ok (Hooks.Kill reason, _) => Err (HookDenied ("kill: " ++ reason))
   | Ok (Hooks.Deny _, modified) | Ok (Hooks.Continue _, modified) => read_back response response_json modified response_of
   end).

(** *** A fetch ([mod.rs]) *)

Definition enforce_network_allowlist (url : str) (allowlist : list str) : result str FetchError :=
  match extract_host_port url with
  | None => Err (CapabilityDenied ("invalid URL: " ++ url))
  | Some host_port => if check_network_allowlist host_port allowlist then Ok host_port else Err (CapabilityDenied host_port)
  end.
Definition response_from (w : WireResponse) : FetchResponse :=
  match parse_fetch_envelope (wire_body w) with
  | Some envelope => envelope
  | None =>
      {| fetched_status := wire_status w; fetched_headers := omap (fun '(name, value) => pair name <$> value) (wire_headers w);
         fetched_body := wire_body w |}
  end.
Definition dispatch (request : FetchRequest) (timeout : N) : SE FetchState FetchError FetchResponse := fun s =>
  match method_error (fetch_method request) with
  | Some err => (s, Err (Transport ("invalid HTTP method " ++ debug_str (fetch_method request) ++ ": " ++ err)))
  | None =>
      let '(n, r) := wire_send (net s) request timeout in
      (set_net n s,
       match r with
       | Ok w => Ok (response_from w)
       | Err WireTimedOut => Err FetchTimeout
       | Err (WireFailed msg) => Err (Transport msg)
       end)
  end.
Definition wasm_mcp_fetch_inner (request : FetchRequest) (allowlist : list str) (hooks : option (Hooks.HookPipeline HW)) (timeout : N)
    : SE FetchState FetchError FetchResponse :=
  let! _ := se_lift (enforce_network_allowlist (fetch_url request) allowlist) in
  let! request := match hooks with Some p => run_hook_phase_before p request | None => se_ret request end in
  let! _ := se_lift (enforce_network_allowlist (fetch_url request) allowlist) in
  let! response := dispatch request timeout in
  match hooks with Some p => run_hook_phase_after p response | None => se_ret response end.

(** [journal.rs]. *)
Definition fetch_entry (agent_id method url : str) (status now : N) : @JournalEntry Value :=
  {| schema_version := JOURNAL_SCHEMA_VERSION; Journal.agent_id := agent_id; timestamp_ms := now; entry := HttpRequest method url status |}.
Definition journal_fetch (agent_id method url : str) (status : N) : SE FetchState FetchError unit := fun s =>
  match fetch_journal s with
  | None => (s, Ok tt)
  | Some j =>
      let '(j, r) := journal_append j (fetch_entry agent_id method url status (clock_ms (net s))) in
      (set_fetch_journal j s, map_err (fun err => Transport ("journal append failed: " ++ journal_error_to_string err)) r)
  end.

Definition outcome_status (r : result FetchResponse FetchError) : N := match r with Ok resp => fetched_status resp | Err _ => 0 end.
Definition wasm_mcp_fetch_with_timeout (request : FetchRequest) (allowlist : list str) (hooks : option (Hooks.HookPipeline HW))
    (agent_id : str) (timeout : N) : SE FetchState FetchError FetchResponse :=
  let! r := se_try (wasm_mcp_fetch_inner request allowlist hooks timeout) in
  let! _ := journal_fetch agent_id (fetch_method request) (fetch_url request) (outcome_status r) in
  se_lift r.
Definition wasm_mcp_fetch (request : FetchRequest) (allowlist : list str) (hooks : option (Hooks.HookPipeline HW)) (agent_id : str)
    : SE FetchState FetchError FetchResponse :=
  wasm_mcp_fetch_with_timeout request allowlist hooks agent_id WASM_MCP_FETCH_DEFAULT_TIMEOUT.
End Fetch.

(** ** What the allowlist lets through *)

Definition lower : str -> str := List.map to_ascii_lowercase.

(** A pattern grants the host it names, case aside, or with [*.] in front the hosts one label below it, at its port or any. *)
Definition allowed_by (host port pattern : str) : Prop :=
  exists pat_host pat_port, pattern = pat_host ++ ":" ++ pat_port /\ ":"%char ∉ pat_port /\ pat_host <> [] /\
    (pat_port = lit "*" \/ pat_port = port) /\
    match strip_prefix "*." (lower pat_host) with
    | Some parent => exists label, lower host = label ++ "." ++ parent /\ label <> [] /\ "."%char ∉ label
    | None => lower pat_host = lower host
    end.

Lemma host_matches_spec pat_host host :
  host_matches pat_host (lower host) = true <->
  match strip_prefix "*." (lower pat_host) with
  | Some parent => exists label, lower host = label ++ "." ++ parent /\ label <> [] /\ "."%char ∉ label
  | None => lower pat_host = lower host
  end.
Proof.
  unfold host_matches. fold (lower pat_host). destruct (strip_prefix "*." (lower pat_host)) as [parent|]; [|apply str_eqb_true]. split.
  - destruct (strip_suffix parent (lower host)) as [prefix|] eqn:E; [|done]. apply strip_suffix_Some in E as ->.
    destruct (strip_suffix "." prefix) as [label|] eqn:E; [|done]. apply strip_suffix_Some in E as ->.
    intros [Hne%negb_true_iff Hdot%negb_true_iff]%andb_true_iff. exists label. rewrite <- app_assoc. split_and!; [done| |by apply contains_char_false].
    intros ->. done.
  - intros (label & -> & Hne & Hdot). rewrite app_assoc, strip_suffix_app, strip_suffix_app.
    rewrite (proj2 (contains_char_false _ _) Hdot). by destruct label.
Qed.

Lemma check_allowlist_spec host port allowlist : ":"%char ∉ port ->
  check_network_allowlist (host ++ ":" ++ port) allowlist = true <-> host <> [] /\ exists pattern, pattern ∈ allowlist /\ allowed_by host port pattern.
Proof.
  intros Hp. assert (rsplit_once ":" (host ++ ":" ++ port) = Some (host, port)) as Hc by (by apply rsplit_once_split).
  unfold check_network_allowlist, split_host_port at 1. rewrite Hc. cbn [mbind option_bind].
  destruct allowlist as [|p0 ps] eqn:Eps; [split; [done|by intros (_ & ? & ?%elem_of_nil & _)]|]. rewrite <- Eps. clear Eps p0 ps.
  destruct (str_eqb host []) eqn:Eh; [apply str_eqb_true in Eh as ->; split; [done|by intros [? _]]|].
  assert (host <> []) as Hne by (intros ->; done). rewrite existsb_exists. setoid_rewrite <- list_elem_of_In. fold (lower host).
  assert (forall pattern, match split_host_port pattern with Some (pat_host, pat_port) => port_matches pat_port port && host_matches pat_host (lower host) | None => false end = true
    <-> allowed_by host port pattern) as Hone; [|by setoid_rewrite Hone; split; [intros ?; split|intros [_ ?]]].
  intros pattern. unfold split_host_port, allowed_by. split.
  - destruct (rsplit_once ":" pattern) as [[ph pp]|] eqn:E; [|done]. apply rsplit_once_split in E as [-> Hpp]. cbn [mbind option_bind].
    destruct (str_eqb ph []) eqn:Ep; [done|]. unfold port_matches. rewrite andb_true_iff, orb_true_iff, !str_eqb_true, host_matches_spec.
    intros [? ?]. exists ph, pp. split_and!; try done. intros ->. done.
  - intros (ph & pp & -> & Hpp & Hph & Hport & Hhost). rewrite (proj2 (rsplit_once_split ":" (ph ++ ":" ++ pp) ph pp) (conj eq_refl Hpp)).
    cbn [mbind option_bind]. destruct (str_eqb ph []) eqn:Ep; [by apply str_eqb_true in Ep|]. unfold port_matches.
    by rewrite andb_true_iff, orb_true_iff, !str_eqb_true, host_matches_spec.
Qed.

Lemma dec_no_colon n : ":"%char ∉ dec n.
Proof.
  assert (forall n s, ":"%char ∉ lit s -> ":"%char ∉ lit (pretty_N_go n s)) as Hgo.
  { clear n. induction n as [n IH] using (well_founded_induction N.lt_wf_0). intros s Hs. destruct (decide (0 < n)%N) as [Hn|].
    - rewrite pretty_N_go_step by done. apply IH; [by apply N.div_lt|]. cbn. rewrite elem_of_cons. intros [E|]; [|done].
      revert E. unfold pretty_N_char. repeat case_match; discriminate.
    - assert (n = 0%N) as -> by lia. by rewrite pretty_N_go_0. }
  unfold dec, pretty, pretty_N. case_decide; [|apply Hgo; by intros ?%elem_of_nil].
  cbn. rewrite list_elem_of_singleton. done.
Qed.

(** ** A request of a module *)

Section Governed.
Context {N' HW J Value Decimal : Type} `{ModuleNet N'} `{JsonOps Value} `{@JournalStorage Value Decimal J}.
Context (base64_decode : str -> option bytes) (serde_error : str -> str).
Abbreviation State := (FetchState (N' := N') (HW := HW) (J := J)).
Abbreviation fetch := (wasm_mcp_fetch_with_timeout base64_decode serde_error).
Abbreviation before := (run_hook_phase_before serde_error).
Implicit Types s : State.

Definition url_allowed (allowlist : list str) (url : str) : Prop :=
  exists host port pattern, url_host_port url = Some (Some host, Some port) /\ host <> [] /\ pattern ∈ allowlist /\ allowed_by host (dec port) pattern.

Lemma enforced url allowlist host_port : enforce_network_allowlist url allowlist = Ok host_port -> url_allowed allowlist url.
Proof.
  unfold enforce_network_allowlist, extract_host_port. destruct (url_host_port url) as [[[host|] [port|]]|] eqn:E; cbn [mbind option_bind]; try done.
  destruct (check_network_allowlist _ _) eqn:Ec; [|done]. intros _.
  apply check_allowlist_spec in Ec as (Hh & pattern & Hp & Ha); [|apply dec_no_colon]. by exists host, port, pattern.
Qed.

(** What a fetch does before its journal entry. *)
Lemma fetched_inner request allowlist hooks timeout s :
  let '(s', r) := wasm_mcp_fetch_inner base64_decode serde_error request allowlist hooks timeout s in
  fetch_journal s' = fetch_journal s /\
  (net s' = net s \/ exists sent,
    url_allowed allowlist (fetch_url request) /\ url_allowed allowlist (fetch_url sent) /\
    match hooks with Some p => exists h, before p request s = (set_hook_state h s, Ok sent) | None => sent = request end /\
    net s' = fst (wire_send (net s) sent timeout)).
Proof.
  unfold wasm_mcp_fetch_inner, se_bind at 1, se_lift at 1. destruct (enforce_network_allowlist (fetch_url request) allowlist) as [hp|] eqn:E1; [|by split; [|left]].
  apply enforced in E1. unfold se_bind at 1.
  assert (forall sent h,
    let '(s', r) := (let! _ := se_lift (enforce_network_allowlist (fetch_url sent) allowlist) in
       let! response := dispatch base64_decode sent timeout in
       match hooks with Some p => run_hook_phase_after serde_error p response | None => se_ret response end) (set_hook_state h s) in
    fetch_journal s' = fetch_journal s /\ (net s' = net s \/ (url_allowed allowlist (fetch_url sent) /\ net s' = fst (wire_send (net s) sent timeout)))) as Hrest.
  { intros sent h. unfold se_bind at 1, se_lift. destruct (enforce_network_allowlist (fetch_url sent) allowlist) as [hp2|] eqn:E2; [|by split; [|left]].
    apply enforced in E2. unfold se_bind, dispatch. destruct (method_error _); [by split; [|left]|]. cbn [set_hook_state net].
    destruct (wire_send (net s) sent timeout) as [n [w|[|msg]]]; [|split; [done|by right]..].
    destruct hooks as [p|]; [|split; [done|by right]]. unfold run_hook_phase_after. destruct (Hooks.run_after _ _ _ _) as [h' r']. split; [done|by right]. }
  destruct hooks as [p|].
  - pose proof Hrest as Hr. unfold run_hook_phase_before in Hr |- *. destruct (Hooks.run_before _ _ _ _) as [h v]. set (ans := match v with Ok _ => _ | Err _ => _ end) in *.
    destruct ans as [sent|e]; [|by split; [|left]]. specialize (Hr sent h). destruct (se_bind _ _ (set_hook_state h s)) as [s' r].
    destruct Hr as [Hj [Hn|[Ha Hn]]]; (split; [done|]); [by left|right]. exists sent. split_and!; [done..|by exists h|done].
  - specialize (Hrest request (hook_state s)). cbn [se_ret]. replace (set_hook_state (hook_state s) s) with s in Hrest by (by destruct s).
    destruct (se_bind _ _ s) as [s' r]. destruct Hrest as [Hj [Hn|[Ha Hn]]]; (split; [done|]); [by left|right]. by exists request.
Qed.

(** A module sends one request at most, to a host and port of its allowlist: the request that its hooks let through, and
    changed, is checked again, and nothing is sent when the request it asked for is not allowed itself.  With a journal every
    fetch leaves one entry, with the method and URL asked for and the status of the answer, or 0 for an error; and when that
    entry is refused the module gets an error instead of the answer. *)
Theorem module_requests_are_governed request allowlist hooks agent_id timeout s :
  let '(s', r) := fetch request allowlist hooks agent_id timeout s in
  (net s' = net s \/ exists sent,
    url_allowed allowlist (fetch_url request) /\ url_allowed allowlist (fetch_url sent) /\
    match hooks with Some p => exists h, before p request s = (set_hook_state h s, Ok sent) | None => sent = request end /\
    net s' = fst (wire_send (net s) sent timeout)) /\
  match fetch_journal s with
  | None => fetch_journal s' = None
  | Some j => exists outcome now,
      let '(j', a) := journal_append j (fetch_entry agent_id (fetch_method request) (fetch_url request) (outcome_status outcome) now) in
      fetch_journal s' = Some j' /\
      r = match a with Ok _ => outcome | Err err => Err (Transport ("journal append failed: " ++ journal_error_to_string err)) end
  end.
Proof.
  unfold wasm_mcp_fetch_with_timeout, se_bind at 1, se_try. pose proof (fetched_inner request allowlist hooks timeout s) as Hi.
  destruct (wasm_mcp_fetch_inner _ _ _ _ _ _ s) as [s1 outcome]. destruct Hi as [Hj Hn]. unfold se_bind, journal_fetch. rewrite Hj.
  destruct (fetch_journal s) as [j|]; cbn [se_lift]; [|by split].
  destruct (journal_append j _) as [j' a] eqn:Ea. destruct a as [[]|err]; cbn [map_err set_fetch_journal net fetch_journal];
    (split; [done|]); exists outcome, (clock_ms (net s1)); rewrite Ea; by split.
Qed.
End Governed.

(** ** At concrete requests *)

Module Sample.
(** A client that follows the redirect a host answers with, as one does whose builder sets no policy; the network is the URLs contacted. *)
Definition entry_url : str := "http://ok/".
Definition inner_url : str := "http://169.254.169.254/".
#[export] Instance sample_net : ModuleNet (list str) := {
  url_host_port := fun url => if str_eqb url entry_url then Some (Some (lit "ok"), Some 80%N) else Some (Some (lit "169.254.169.254"), Some 80%N);
  method_error := fun _ => None;
  wire_send := fun n r _ =>
    (n ++ fetch_url r :: (if str_eqb (fetch_url r) entry_url then [inner_url] else []),
     Ok {| wire_status := 500; wire_headers := []; wire_body := "envelope" |});
  clock_ms := fun _ => 0%N;
}.
#[export] Instance values : JsonOps tree :=
  tree_json ["envelope" ↦ Object ["status" ↦ Number 200; "headers" ↦ Array []; "body" ↦ Text ""]].
#[export] Instance sample_journal : JournalStorage tree unit (@InMemoryJournalStorage tree) := memory_journal (fun _ => Err []).
Definition request : FetchRequest := {| fetch_method := "GET"; fetch_url := entry_url; fetch_headers := []; fetch_body := [] |}.
Definition start : FetchState (N' := list str) (HW := unit) (J := @InMemoryJournalStorage tree) :=
  {| net := []; hook_state := {| Hooks.world := tt; Hooks.counted := [] |}; fetch_journal := Some [] |}.
Definition run : FetchState * result FetchResponse FetchError := wasm_mcp_fetch Some (fun e => e) request [lit "ok:*"] None "agent" start.
End Sample.
#[local] Existing Instances Sample.sample_net Sample.values Sample.sample_journal.

(** The check sees the first URL only: a redirect reaches a host that the allowlist refuses. *)
Example redirect_leaves_allowlist :
  net (fst Sample.run) = [Sample.entry_url; Sample.inner_url] /\
  exists e, enforce_network_allowlist Sample.inner_url [lit "ok:*"] = Err e.
Proof. vm_compute. split; [reflexivity|]. by eexists. Qed.

(** A body in the form of a response decides the status that the module sees and the journal keeps, whatever the server answered. *)
Example envelope_hides_status :
  (exists resp, snd Sample.run = Ok resp /\ fetched_status resp = 200%N) /\
  option_map (List.map entry) (fetch_journal (fst Sample.run)) = Some [HttpRequest "GET" Sample.entry_url 200].
Proof. vm_compute. split; [by eexists|reflexivity]. Qed.
