(* ===== verification/McpCatalog.v ===== *)
(** * The catalog of MCP tools

    Models [crates/simulacra-mcp/src/catalog.rs]: the tools of the servers that the loaded skills of one agent have activated,
    their index, the search that publishes tools, and the calls that only published tools take.

    The manager of the connections is any implementation of [McpManagerOps]; [McpManager.v] has the one of the program.
    Parameters: [char::is_alphanumeric] beyond ASCII and [to_lowercase].  Telemetry is left out, and a score, which grows
    with the number of different words of a query, is a number without a bound. *)

From S2P Require Import Prelude.
From S2P Require Import Text.
From S2P Require Import Utf8.
From S2P Require Import Capability.
From S2P Require Import Json.
From S2P Require Import Tools.
From S2P Require Import ShellExec.
From S2P Require Import Mcp.

(** ** Servers *)

Record WasmMcpServerDescriptor := { module_path : str; network_allowlist : list str; wasm_agent_id : str }.
Variant McpServerKind := Network (url : str) (transport : option str) | Wasm (d : WasmMcpServerDescriptor).
Record McpServerDescriptor := { server_name : str; server_kind : McpServerKind }.
Definition descriptor_network (name url : str) (transport : option str) : McpServerDescriptor :=
  {| server_name := name; server_kind := Network url transport |}.
Definition descriptor_wasm (name : str) (d : WasmMcpServerDescriptor) : McpServerDescriptor :=
  {| server_name := name; server_kind := Wasm d |}.

(** What the catalog asks of the manager; a connection to a module says at which stage it failed. *)
Class McpManagerOps (M Value : Type) := {
  append_journal_tool_call : M -> str -> Value -> M * result unit McpError;
  connect_named : M -> str -> str -> option str -> M * result unit McpError;
  connect_wasm : M -> str -> WasmMcpServerDescriptor -> M * result unit str;
  list_tools_for_server : M -> str -> M * result (list (ToolDefinition Value)) McpError;
  discard_server : M -> str -> M;
  manager_call_tool : M -> str -> str -> Value -> CapabilityToken -> M * result Value McpError;
}.

Section Catalog.
Context {M Value : Type} `{McpManagerOps M Value} `{JsonOps Value} (alphanumeric : str -> bool) (to_lowercase : str -> str).

(** ** The index *)

(** [value.split(|c| !c.is_alphanumeric())]; every turn consumes a character. *)
Fixpoint split_words (fuel : nat) (cur s : str) : list str :=
  match fuel, s with
  | S fuel, c :: _ =>
      let width := utf8_width c in
      let ch := firstn width s in
      let rest := skipn width s in
      if is_alphanumeric alphanumeric ch then split_words fuel (cur ++ ch) rest else cur :: split_words fuel [] rest
  | _, _ => [cur]
  end.
Definition normalize_tokens (value : str) : list str :=
  to_lowercase <$> List.filter (fun token => negb (str_eqb token [])) (split_words (length value) [] value).

Record SearchEntry := {
  entry_server : str;
  tool_index : nat;
  entry_tool_name : str;
  normalized_tool_name : str;
  server_tokens : list str;
  tool_tokens : list str;
  description_tokens : list str;
}.
Record CatalogSnapshot := { entries : list SearchEntry; postings : gmap str (list nat) }.
Definition snapshot_default : CatalogSnapshot := {| entries := []; postings := ∅ |}.

Abbreviation Inventories := (gmap str (list (ToolDefinition Value))).
(** A [BTreeMap] in the order of its keys, and a set of words as it iterates. *)
Definition key_le {A} (a b : str * A) : Prop := str_le (fst a) (fst b).
#[local] Instance key_le_dec {A} (a b : str * A) : Decision (key_le a b).
Proof. unfold key_le. apply _. Defined.
Definition ascending {A} (m : gmap str A) : list (str * A) := merge_sort key_le (map_to_list m).

Definition indexed_tokens (e : SearchEntry) : gset str := list_to_set (server_tokens e ++ tool_tokens e ++ description_tokens e).
Definition push_posting (i : nat) (token : str) (p : gmap str (list nat)) : gmap str (list nat) :=
  <[token := unwrap_or (p !! token) [] ++ [i]]> p.
Definition add_entry (e : SearchEntry) (s : CatalogSnapshot) : CatalogSnapshot :=
  {| entries := entries s ++ [e];
     postings := fold_right (push_posting (length (entries s))) (postings s) (elements (indexed_tokens e)) |}.
Definition entry_of (server : str) (i : nat) (t : ToolDefinition Value) : SearchEntry :=
  let tool_tokens := normalize_tokens (def_name t) in
  {| entry_server := server; tool_index := i; entry_tool_name := def_name t; normalized_tool_name := join " " tool_tokens;
     server_tokens := normalize_tokens server; tool_tokens := tool_tokens; description_tokens := normalize_tokens (def_description t) |}.
(** The entries in the order the two loops make them. *)
Definition entries_of (m : Inventories) : list SearchEntry :=
  flat_map (fun '(server, tools) => imap (entry_of server) tools) (ascending m).
Definition snapshot_build (m : Inventories) : CatalogSnapshot := fold_left (fun s e => add_entry e s) (entries_of m) snapshot_default.

(** [range(term..)]: the words from [term] on, up to the first that does not start with it. *)
Fixpoint take_prefixed (term : str) (l : list (str * list nat)) : list nat :=
  match l with
  | [] => []
  | (token, ps) :: l => if starts_with term token then ps ++ take_prefixed term l else []
  end.
Definition range_from (term : str) (p : gmap str (list nat)) : list (str * list nat) :=
  List.filter (fun kv => str_leb term (fst kv)) (ascending p).
Definition candidates_for_term (s : CatalogSnapshot) (term : str) : gset nat :=
  list_to_set (unwrap_or (postings s !! term) [] ++
               (if (3 <=? char_count term)%nat then take_prefixed term (range_from term (postings s)) else [])).

(** ** Ranking *)

Definition field_score (tokens : list str) (term : str) (exact prefix : N) : N :=
  if existsb (fun token => str_eqb token term) tokens then exact
  else if (3 <=? char_count term)%nat && existsb (starts_with term) tokens then prefix
  else 0.
Definition term_score (e : SearchEntry) (term : str) : N :=
  N.max (N.max (field_score (tool_tokens e) term 6 5) (field_score (server_tokens e) term 4 3)) (field_score (description_tokens e) term 2 1).
Definition score (terms : list str) (e : SearchEntry) : N :=
  let complete_query := join " " terms in
  (fold_left (fun total term => total + term_score e term) terms 0 +
   (if negb (str_eqb complete_query []) && str_eqb complete_query (normalized_tool_name e) then 1000 else 0))%N.

Record RankedMatch := { ranked : SearchEntry; rank : N }.
Definition str_ltb (a b : str) : bool := negb (str_leb b a).
Definition name_ltb (a b : SearchEntry) : bool :=
  str_ltb (entry_server a) (entry_server b) ||
  (str_eqb (entry_server a) (entry_server b) && str_ltb (entry_tool_name a) (entry_tool_name b)).
(** Whether a match goes before one that is there. *)
Definition goes_before (a b : RankedMatch) : bool :=
  (rank b <? rank a)%N || ((rank a =? rank b)%N && name_ltb (ranked a) (ranked b)).
(** [position(..).unwrap_or(len)] and [insert], when the place is among the first [n]. *)
Definition insert_winner (n : nat) (x : RankedMatch) (winners : list RankedMatch) : list RankedMatch :=
  let insertion := unwrap_or (position (goes_before x) winners) (length winners) in
  if (insertion <? n)%nat then firstn n (firstn insertion winners ++ x :: skipn insertion winners) else winners.

(** The first of every word, in order. *)
Fixpoint distinct (seen l : list str) : list str :=
  match l with
  | [] => []
  | x :: l => if existsb (str_eqb x) seen then distinct seen l else x :: distinct (x :: seen) l
  end.
Definition terms_of (query : str) : list str := distinct [] (normalize_tokens query).

Definition candidates (s : CatalogSnapshot) (terms : list str) : gset nat :=
  match terms with
  | [] => set_seq 0 (length (entries s))
  | term :: terms => fold_left (fun kept term => kept ∩ candidates_for_term s term) terms (candidates_for_term s term)
  end.
(** A [BTreeSet] of indices as it iterates.  An index past the entries is a panic ([None]). *)
Definition winners_of (s : CatalogSnapshot) (terms : list str) : option (list RankedMatch) :=
  fold_left (fun ws i =>
    winners ← ws;
    e ← entries s !! i;
    Some (insert_winner 5 {| ranked := e; rank := score terms e |} winners))
    (merge_sort Nat.le (elements (candidates s terms))) (Some []).

(** ** The catalog *)

Record CatalogState := { snapshot : CatalogSnapshot; activated : Inventories; published : gset (str * str) }.
Definition catalog_state_default : CatalogState := {| snapshot := snapshot_default; activated := ∅; published := ∅ |}.
Record McpCatalog := { descriptors : gmap str McpServerDescriptor; manager : M; catalog_state : CatalogState }.
Definition set_manager (m : M) (c : McpCatalog) : McpCatalog :=
  {| descriptors := descriptors c; manager := m; catalog_state := catalog_state c |}.
Definition set_catalog_state (s : CatalogState) (c : McpCatalog) : McpCatalog :=
  {| descriptors := descriptors c; manager := manager c; catalog_state := s |}.

Fixpoint descriptors_by_name (ds : list McpServerDescriptor) (by_name : gmap str McpServerDescriptor)
    : result (gmap str McpServerDescriptor) ToolError :=
  match ds with
  | [] => Ok by_name
  | d :: ds =>
      if str_eqb (trim (server_name d)) [] then Err (ExecutionFailed "configured MCP server requires a non-empty name")
      else
        match by_name !! server_name d with
        | Some _ => Err (ExecutionFailed "duplicate configured MCP server name")
        | None => descriptors_by_name ds (<[server_name d := d]> by_name)
        end
  end.
Definition catalog_build (ds : list McpServerDescriptor) (m : M) : result McpCatalog ToolError :=
  let? by_name := descriptors_by_name ds ∅ in
  Ok {| descriptors := by_name; manager := m; catalog_state := catalog_state_default |}.

(** One pattern of [capability_allows_server]. *)
Definition pattern_allows_server (server pattern : str) : bool :=
  match split_on ":" pattern with
  | mcp :: name :: _ :: _ => str_eqb mcp "mcp" && (str_eqb name server || str_eqb name "*")
  | _ => false
  end.
Definition capability_allows_server (capability : CapabilityToken) (server : str) : bool :=
  existsb (pattern_allows_server server) (mcp_tools capability).

Definition unknown_server (skill server : str) : ToolError :=
  ExecutionFailed ("skill " ++ debug_str skill ++ " references unknown MCP server " ++ debug_str server).
Definition not_allowed (skill server : str) : ToolError :=
  ExecutionFailed ("skill " ++ debug_str skill ++ " is not allowed to activate MCP server " ++ debug_str server).
Definition not_audited (skill : str) : ToolError :=
  ExecutionFailed ("skill " ++ debug_str skill ++ " MCP activation could not be audited").
Definition sanitized_activation_error (skill server stage : str) : ToolError :=
  ExecutionFailed ("skill " ++ debug_str skill ++ " could not activate MCP server " ++ debug_str server ++ " during " ++ stage).

Fixpoint validate_dependencies (c : McpCatalog) (skill : str) (servers : list str) (capability : CapabilityToken) : result unit ToolError :=
  match servers with
  | [] => Ok tt
  | server :: servers =>
      match descriptors c !! server with
      | None => Err (unknown_server skill server)
      | Some _ =>
          if capability_allows_server capability server then validate_dependencies c skill servers capability
          else Err (not_allowed skill server)
      end
  end.

(** One server of an activation: its connection and its inventory. *)
Definition activate_server (ds : gmap str McpServerDescriptor) (skill server : str) (m : M)
    : M * result (list (ToolDefinition Value)) ToolError :=
  match ds !! server with
  | None => (m, Err (unknown_server skill server))
  | Some d =>
      let '(m, connected) :=
        match server_kind d with
        | Network url transport =>
            let '(m, r) := connect_named m (server_name d) url transport in
            (m, map_err (fun _ => sanitized_activation_error skill server "connect") r)
        | Wasm w => let '(m, r) := connect_wasm m server w in (m, map_err (sanitized_activation_error skill server) r)
        end in
      match connected with
      | Err e => (m, Err e)
      | Ok _ =>
          let '(m, r) := list_tools_for_server m server in
          (m, map_err (fun _ => sanitized_activation_error skill server "inventory") r)
      end
  end.
Fixpoint activate_pending (ds : gmap str McpServerDescriptor) (skill : str) (pending : list str) (temporary : Inventories) (m : M)
    : M * result Inventories ToolError :=
  match pending with
  | [] => (m, Ok temporary)
  | server :: pending =>
      match activate_server ds skill server m with
      | (m, Err e) => (m, Err e)
      | (m, Ok tools) => activate_pending ds skill pending (<[server := tools]> temporary) m
      end
  end.

Definition count_tools (m : Inventories) : nat := list_sum ((fun kv => length (snd kv)) <$> map_to_list m).

Definition activate (skill : str) (servers : list str) (capability : CapabilityToken) : SE McpCatalog ToolError nat := fun c =>
  let unique := distinct [] servers in
  let '(m, audited) := append_journal_tool_call (manager c) "mcp_activation"
    (json_object ["skill" ↦ json_string skill; "servers" ↦ json_array (json_string <$> unique)]) in
  let c := set_manager m c in
  match audited with
  | Err _ => (c, Err (not_audited skill))
  | Ok _ =>
      match validate_dependencies c skill unique capability with
      | Err e => (c, Err e)
      | Ok _ =>
          let pending := List.filter (fun server => bool_decide (activated (catalog_state c) !! server = None)) unique in
          match pending with
          | [] => (c, Ok 0%nat)
          | _ =>
              match activate_pending (descriptors c) skill pending ∅ (manager c) with
              | (m, Err e) => (set_manager (fold_left discard_server pending m) c, Err e)
              | (m, Ok temporary) =>
                  let state := catalog_state c in
                  let activated := temporary ∪ activated state in
                  (set_catalog_state {| snapshot := snapshot_build activated; activated := activated; published := published state |} (set_manager m c),
                   Ok (count_tools temporary))
              end
          end
      end
  end.

(** ** Searching and calling *)

Definition tool_value (server : str) (t : ToolDefinition Value) : Value :=
  json_object ["server" ↦ json_string server; "tool" ↦ json_string (def_name t); "description" ↦ json_string (def_description t);
               "input_schema" ↦ input_schema t].
Definition publish_winner (s : CatalogState) (w : RankedMatch) : CatalogState :=
  {| snapshot := snapshot s; activated := activated s; published := {[ (entry_server (ranked w), entry_tool_name (ranked w)) ]} ∪ published s |}.
(** [expect]: [None] is a panic. *)
Definition winner_value (s : CatalogState) (w : RankedMatch) : option Value :=
  tools ← activated s !! entry_server (ranked w);
  t ← tools !! tool_index (ranked w);
  Some (tool_value (entry_server (ranked w)) t).

(** A search that took the snapshot [s] earlier on. *)
Definition search_with (s : CatalogSnapshot) (query : str) (c : McpCatalog) : option (McpCatalog * result (list Value) ToolError) :=
  winners ← winners_of s (terms_of query);
  let '(m, audited) := append_journal_tool_call (manager c) "mcp_search" (json_object ["query_length" ↦ json_number (N.of_nat (length query))]) in
  let c := set_manager m c in
  match audited with
  | Err _ => Some (c, Err (ExecutionFailed "MCP catalog search could not be audited"))
  | Ok _ =>
      values ← mapM (winner_value (catalog_state c)) winners;
      Some (set_catalog_state (fold_left publish_winner winners (catalog_state c)) c, Ok values)
  end.
Definition search (query : str) (c : McpCatalog) : option (McpCatalog * result (list Value) ToolError) :=
  search_with (snapshot (catalog_state c)) query c.

Definition not_published (server tool : str) : ToolError :=
  ExecutionFailed ("MCP tool " ++ server ++ ":" ++ tool ++ " is not activated and search-published for this session").
Definition call (server tool : str) (arguments : Value) (capability : CapabilityToken) : SE McpCatalog ToolError Value := fun c =>
  if bool_decide ((server, tool) ∈ published (catalog_state c)) then
    let '(m, r) := manager_call_tool (manager c) server tool arguments capability in
    (set_manager m c,
     match r with
     | Ok value => Ok value
     | Err (McpCapabilityDenied detail) => Err (ExecutionFailed ("capability denied for MCP tool " ++ server ++ ":" ++ tool ++ ": " ++ detail))
     | Err _ => Err (ExecutionFailed ("MCP call to server " ++ debug_str server ++ " tool " ++ debug_str tool ++ " failed during dispatch"))
     end)
  else (c, Err (not_published server tool)).

(** The two tools. *)
Definition mcp_search_call (arguments : Value) (c : McpCatalog) : option (McpCatalog * result Value ToolError) :=
  match get_str "query" arguments with
  | None => Some (c, Err (InvalidArguments "mcp_search requires string query"))
  | Some query => '(c, r) ← search query c; Some (c, let? values := r in Ok (json_array values))
  end.
Definition mcp_call_call (arguments : Value) (capability : CapabilityToken) : SE McpCatalog ToolError Value := fun c =>
  match get_str "server" arguments, get_str "tool" arguments, value_get "arguments" arguments with
  | None, _, _ => (c, Err (InvalidArguments "mcp_call requires string server"))
  | _, None, _ => (c, Err (InvalidArguments "mcp_call requires string tool"))
  | _, _, None => (c, Err (InvalidArguments "mcp_call requires arguments"))
  | Some server, Some tool, Some input => call server tool input capability c
  end.
End Catalog.

(** ** The index finds what a scan finds *)

(** More fuel changes nothing: a turn consumes a character. *)
Lemma split_words_fuel alphanumeric k n cur s : (length s <= k)%nat -> (length s <= n)%nat ->
  split_words alphanumeric n cur s = split_words alphanumeric k cur s.
Proof.
  revert n cur s. induction k as [|k IH]; intros n cur [|c s] Hk Hn; try (cbn in Hk; lia); [by destruct n|by destruct n|].
  destruct n as [|n]; [cbn in Hn; lia|]. cbn [split_words]. assert (1 <= utf8_width c)%nat as Hw by (unfold utf8_width; repeat case_match; lia).
  assert (length (skipn (utf8_width c) (c :: s)) <= length s)%nat as Hl by (rewrite length_skipn; cbn; lia). cbn in Hk, Hn.
  destruct (is_alphanumeric _ _); [|f_equal]; apply IH; lia.
Qed.

Lemma elem_of_existsb {A} (f : A -> bool) l : existsb f l = true <-> exists x, x ∈ l /\ f x = true.
Proof. rewrite existsb_exists. by setoid_rewrite list_elem_of_In. Qed.

(** Words that start with a term are together in the order of words. *)
Lemma prefixed_between term a b : str_leb term a = true -> str_leb a b = true -> starts_with term b = true -> starts_with term a = true.
Proof.
  rewrite starts_with_true. intros Ha Hb [r ->]. revert a Ha Hb. induction term as [|c term IH]; intros [|x a]; cbn; try done.
  destruct (Ascii.eqb_spec c x) as [<-|Hn].
  - rewrite N.ltb_irrefl, Ascii.eqb_refl. intros Ha Hb. specialize (IH a Ha Hb). unfold starts_with in *. cbn. by rewrite Ascii.eqb_refl.
  - destruct (Ascii.eqb_spec x c) as [->|]; [done|].
    destruct (N.ltb_spec (N_of_ascii c) (N_of_ascii x)), (N.ltb_spec (N_of_ascii x) (N_of_ascii c)); try done; lia.
Qed.

Section Index.
Context {Value : Type} `{JsonOps Value} (alphanumeric : str -> bool) (to_lowercase : str -> str).

Abbreviation Inventories := (gmap str (list (ToolDefinition Value))).
Definition posting (s : CatalogSnapshot) (token : str) : list nat := unwrap_or (postings s !! token) [].
(** Whether an entry has a word that is the term or, for a term of three characters, starts with it. *)
Definition matches_term (e : SearchEntry) (term : str) : bool :=
  existsb (fun token => str_eqb token term || ((3 <=? char_count term)%nat && starts_with term token))
    (server_tokens e ++ tool_tokens e ++ description_tokens e).
Definition matches (terms : list str) (e : SearchEntry) : bool := forallb (matches_term e) terms.

(** The postings of a word are the entries that have it. *)
Definition indexed (s : CatalogSnapshot) : Prop := forall token i, i ∈ posting s token <-> exists e, entries s !! i = Some e /\ token ∈ indexed_tokens e.

Lemma push_postings i ts p token : NoDup ts ->
  unwrap_or (fold_right (push_posting i) p ts !! token) [] = unwrap_or (p !! token) [] ++ (if decide (token ∈ ts) then [i] else []).
Proof.
  induction ts as [|t ts IH]; intros Hd; cbn [fold_right].
  { rewrite decide_False by apply not_elem_of_nil. by rewrite app_nil_r. }
  apply NoDup_cons in Hd as [Ht Hd]. specialize (IH Hd). unfold push_posting at 1. destruct (decide (token = t)) as [->|Hne].
  - rewrite lookup_insert_eq. cbn [unwrap_or]. rewrite IH, decide_False, app_nil_r by done. by rewrite decide_True by left.
  - rewrite lookup_insert_ne by done. rewrite IH. f_equal. destruct (decide (token ∈ ts)) as [Hin|Hin].
    + by rewrite decide_True by (by right).
    + rewrite decide_False; [done|]. by rewrite elem_of_cons; intros [|].
Qed.

Lemma add_entry_indexed e s : indexed s -> indexed (add_entry e s).
Proof.
  intros Hs token i. unfold posting, add_entry. cbn [postings entries]. rewrite push_postings by apply NoDup_elements.
  rewrite elem_of_app. fold (posting s token). rewrite (Hs token i).
  setoid_rewrite lookup_app_Some. split.
  - intros [(x & Hx & Ht)|Hi]; [exists x; auto|]. destruct (decide _) as [Ht%elem_of_elements|]; [|by apply elem_of_nil in Hi].
    apply list_elem_of_singleton in Hi as ->. exists e. split; [right; split; [lia|by rewrite Nat.sub_diag]|done].
  - intros (x & [Hx|[Hi Hx]] & Ht); [left; by exists x|right]. destruct (i - length (entries s))%nat as [|k] eqn:Ek; [|done].
    injection Hx as ->. rewrite decide_True by (by apply elem_of_elements). apply list_elem_of_singleton. lia.
Qed.

Lemma build_spec (m : Inventories) :
  entries (snapshot_build alphanumeric to_lowercase m) = entries_of alphanumeric to_lowercase m /\ indexed (snapshot_build alphanumeric to_lowercase m).
Proof.
  unfold snapshot_build. generalize (entries_of alphanumeric to_lowercase m) as es. intros es.
  assert (forall s, indexed s -> entries (fold_left (fun s e => add_entry e s) es s) = entries s ++ es /\ indexed (fold_left (fun s e => add_entry e s) es s)) as Hgen.
  { induction es as [|e es IH]; intros s Hs; cbn [fold_left]; [by rewrite app_nil_r|].
    destruct (IH (add_entry e s) (add_entry_indexed e s Hs)) as [E ?]. split; [|done]. rewrite E. cbn. by rewrite <- app_assoc. }
  destruct (Hgen snapshot_default) as [E ?]; [|by rewrite E].
  intros token i. cbn. unfold posting. cbn. rewrite lookup_empty. cbn. split; [by intros ?%elem_of_nil|]. by intros (e & He & _).
Qed.

#[local] Instance key_le_total {A} : Total (@key_le A).
Proof. intros a b. unfold key_le. apply (total str_le). Qed.
#[local] Instance key_le_trans {A} : Transitive (@key_le A).
Proof. intros a b c. unfold key_le. apply (transitivity (R := str_le)). Qed.

Lemma elem_of_ascending {A} (m : gmap str A) k x : (k, x) ∈ ascending m <-> m !! k = Some x.
Proof. unfold ascending. rewrite (merge_sort_Permutation key_le). apply elem_of_map_to_list. Qed.

Lemma take_prefixed_spec term l i : StronglySorted key_le l -> Forall (fun kv => str_leb term (fst kv) = true) l ->
  i ∈ take_prefixed term l <-> exists token ps, (token, ps) ∈ l /\ starts_with term token = true /\ i ∈ ps.
Proof.
  induction l as [|[token ps] l IH]; intros Hs Hf; cbn [take_prefixed].
  { split; [by intros ?%elem_of_nil|]. by intros (? & ? & ?%elem_of_nil & _). }
  apply StronglySorted_inv in Hs as [Hs Hle]. apply Forall_cons in Hf as [Ht Hf]. cbn in Ht. setoid_rewrite elem_of_cons.
  destruct (starts_with term token) eqn:E.
  - rewrite elem_of_app, IH by done. split.
    + intros [Hi|(t & q & Hin & ? & ?)]; [exists token, ps; auto|exists t, q; auto].
    + intros (t & q & [[= -> ->]|Hin] & ? & ?); [by left|right; eauto].
  - split; [by intros ?%elem_of_nil|]. intros (t & q & [[= -> ->]|Hin] & Hst & Hi); [congruence|].
    rewrite Forall_forall in Hle. specialize (Hle _ Hin). unfold key_le in Hle. cbn in Hle.
    by rewrite (prefixed_between term token t Ht Hle Hst) in E.
Qed.

Lemma candidates_for_term_spec s term i : indexed s ->
  i ∈ candidates_for_term s term <-> exists e, entries s !! i = Some e /\ matches_term e term = true.
Proof.
  intros Hs. unfold candidates_for_term. rewrite elem_of_list_to_set, elem_of_app. fold (posting s term). rewrite (Hs term i).
  assert (forall e, matches_term e term = true <-> exists token, token ∈ indexed_tokens e /\ (token = term \/ ((3 <=? char_count term)%nat = true /\ starts_with term token = true))) as Hm.
  { intros e. unfold matches_term, indexed_tokens. rewrite elem_of_existsb. setoid_rewrite elem_of_list_to_set.
    setoid_rewrite orb_true_iff. setoid_rewrite andb_true_iff. setoid_rewrite str_eqb_true. done. }
  setoid_rewrite Hm. destruct (3 <=? char_count term)%nat eqn:El.
  - assert (i ∈ take_prefixed term (range_from term (postings s)) <-> exists token, starts_with term token = true /\ i ∈ posting s token) as ->.
    { unfold range_from. rewrite take_prefixed_spec.
      - split.
        + intros (token & ps & Hin & Hst & Hi). apply list_elem_of_In, List.filter_In in Hin as [Hin%list_elem_of_In%elem_of_ascending _].
          exists token. split; [done|]. unfold posting. by rewrite Hin.
        + intros (token & Hst & Hi). unfold posting in Hi. destruct (postings s !! token) as [ps|] eqn:E; [|by apply elem_of_nil in Hi].
          exists token, ps. split_and!; [|done|done]. apply list_elem_of_In, List.filter_In. split; [by apply list_elem_of_In, elem_of_ascending|].
          cbn. apply starts_with_true in Hst as [r ->]. rewrite <- (app_nil_r term) at 1. by rewrite str_leb_app.
      - apply Sorted_StronglySorted; [apply _|]. apply StronglySorted_Sorted. generalize (StronglySorted_merge_sort key_le (map_to_list (postings s))).
        change (merge_sort key_le (map_to_list (postings s))) with (ascending (postings s)). generalize (ascending (postings s)) as l.
        induction 1 as [|x l Hl IH Hx]; cbn; [constructor|]. destruct (str_leb term (fst x)); [|done]. constructor; [done|].
        apply Forall_forall. intros y Hy%list_elem_of_In%List.filter_In. rewrite Forall_forall in Hx. apply Hx, list_elem_of_In. by destruct Hy.
      - apply Forall_forall. intros kv Hin%list_elem_of_In%List.filter_In. by destruct Hin. }
    setoid_rewrite (Hs _ i). split.
    + intros [(e & He & Ht)|(token & Hst & e & He & Ht)]; exists e; (split; [done|]); eauto 10.
    + intros (e & He & token & Ht & [->|[_ Hst]]); [left|right]; eauto 10.
  - split; [|intros (e & He & token & Ht & [->|[? _]]); [left; eauto|done]].
    intros [(e & He & Ht)|Hi]; [|by apply elem_of_nil in Hi]. exists e. split; [done|]. exists term. auto.
Qed.
Lemma candidates_spec s terms i : indexed s ->
  i ∈ candidates s terms <-> exists e, entries s !! i = Some e /\ matches terms e = true.
Proof.
  intros Hs. destruct terms as [|term terms]; cbn [candidates].
  { rewrite elem_of_set_seq. cbn. split.
    - intros [_ Hi]. destruct (lookup_lt_is_Some_2 (entries s) i Hi) as [e He]. by exists e.
    - intros (e & He%lookup_lt_Some & _). lia. }
  assert (forall (kept : gset nat), i ∈ fold_left (fun kept term => kept ∩ candidates_for_term s term) terms kept <->
    i ∈ kept /\ forall term', term' ∈ terms -> i ∈ candidates_for_term s term') as Hf.
  { induction terms as [|t ts IH]; intros kept; cbn [fold_left]; [split; [split; [done|by intros ? ?%elem_of_nil]|by intros [? _]]|].
    rewrite IH, elem_of_intersection. setoid_rewrite elem_of_cons. naive_solver. }
  rewrite Hf, candidates_for_term_spec by done. setoid_rewrite candidates_for_term_spec; [|done]. unfold matches. cbn [forallb]. split.
  - intros [(e & He & Hm) Hall]. exists e. split; [done|]. rewrite Hm. apply forallb_forall. intros t Ht%list_elem_of_In.
    destruct (Hall t Ht) as (e' & He' & Hm'). congruence.
  - intros (e & He & [Hm Hall]%andb_true_iff). split; [by exists e|]. intros t Ht%list_elem_of_In. rewrite forallb_forall in Hall. exists e. auto.
Qed.

(** The matches in the order of the catalog. *)
Definition all_matches (terms : list str) (es : list SearchEntry) : list RankedMatch :=
  (fun e => {| ranked := e; rank := score terms e |}) <$> List.filter (matches terms) es.

Lemma ascending_filter (f : nat -> bool) (X : gset nat) n :
  (forall i, i ∈ X <-> (i < n)%nat /\ f i = true) -> merge_sort Nat.le (elements X) = List.filter f (seq 0 n).
Proof.
  intros HX. apply (StronglySorted_unique Nat.le).
  - apply (StronglySorted_merge_sort Nat.le).
  - assert (forall k, StronglySorted Nat.le (List.filter f (seq k n)) /\ Forall (Nat.le k) (List.filter f (seq k n))) as Hs; [|apply Hs].
    clear HX. induction n as [|n IH]; intros k; cbn; [split; constructor|]. destruct (IH (S k)) as [Hs Hl].
    assert (Forall (Nat.le k) (List.filter f (seq (S k) n))) as Hl' by (eapply Forall_impl; [exact Hl|]; intros; cbn in *; lia).
    destruct (f k); [split; by constructor|done].
  - apply NoDup_Permutation; [rewrite (merge_sort_Permutation Nat.le); apply NoDup_elements|apply NoDup_ListNoDup, List.NoDup_filter, NoDup_ListNoDup, NoDup_seq|].
    intros i. rewrite (merge_sort_Permutation Nat.le), elem_of_elements, HX, list_elem_of_In, List.filter_In, in_seq. intuition lia.
Qed.

Definition match_at (terms : list str) (es : list SearchEntry) (i : nat) : bool :=
  match es !! i with Some e => matches terms e | None => false end.

Lemma winners_scan (s : CatalogSnapshot) terms : indexed s ->
  winners_of s terms = Some (fold_left (fun ws x => insert_winner 5 x ws) (all_matches terms (entries s)) []).
Proof.
  intros Hs. unfold winners_of. rewrite (ascending_filter (match_at terms (entries s)) _ (length (entries s))).
  2: { intros i. rewrite candidates_spec by done. unfold match_at. split.
    - intros (e & He & Hm). rewrite He. split; [by eapply lookup_lt_Some|done].
    - destruct (entries s !! i) as [e|]; [|by intros [_ ?]]. intros [_ ?]. by exists e. }
  generalize (@nil RankedMatch) as ws. remember (entries s) as all eqn:Ea.
  assert (forall es pre ws, all = pre ++ es ->
    fold_left (fun ws i => winners ← ws; e ← all !! i; Some (insert_winner 5 {| ranked := e; rank := score terms e |} winners))
      (List.filter (match_at terms all) (seq (length pre) (length es))) (Some ws) =
    Some (fold_left (fun ws x => insert_winner 5 x ws) (all_matches terms es) ws)) as Hgen; [|intros ws; by apply (Hgen all [] ws)].
  clear. induction es as [|e es IH]; intros pre ws ->; [done|].
  assert ((pre ++ e :: es) !! length pre = Some e) as He by (rewrite lookup_app_r by lia; by rewrite Nat.sub_diag).
  specialize (IH (pre ++ [e])). rewrite <- app_assoc, length_app in IH. cbn [app length] in IH. rewrite Nat.add_1_r in IH.
  assert (match_at terms (pre ++ e :: es) (length pre) = matches terms e) as Hm by (unfold match_at; by rewrite He).
  unfold all_matches in *. cbn [length seq List.filter]. rewrite Hm. destruct (matches terms e); [|by apply IH].
  cbn [fold_left fmap list_fmap]. cbn [mbind option_bind]. rewrite He. cbn [mbind option_bind]. by apply IH.
Qed.

End Index.

(** ** The order of the winners *)

(** A boolean order that ties, and that a third element always splits. *)
Record strict_weak {A} (lt : A -> A -> bool) : Prop := {
  sw_asym : forall a b, lt a b = true -> lt b a = false;
  sw_split : forall a b c, lt a c = true -> lt a b = true \/ lt b c = true;
}.

Lemma strict_weak_lex {A B X} (f e : A -> A -> bool) (g : B -> B -> bool) (p : X -> A) (q : X -> B) :
  strict_weak f -> strict_weak g -> (forall a b, e a b = true <-> f a b = false /\ f b a = false) ->
  strict_weak (fun x y => f (p x) (p y) || (e (p x) (p y) && g (q x) (q y))).
Proof.
  intros [Hfa Hfs] [Hga Hgs] He. split.
  - intros x y. rewrite orb_true_iff, andb_true_iff, orb_false_iff, andb_false_iff, He. intros [Hf|[[Hf Hf'] Hg]].
    + split; [by apply Hfa|]. left. apply not_true_iff_false. rewrite He. intros [_ Hf']. congruence.
    + split; [done|]. right. by apply Hga.
  - intros x y z. rewrite !orb_true_iff, !andb_true_iff, !He. intros [Hf|[[Hf Hf'] Hg]].
    + destruct (Hfs _ (p y) _ Hf); auto.
    + destruct (f (p x) (p y)) eqn:Exy; [auto|]. destruct (f (p y) (p z)) eqn:Eyz; [auto|].
      assert (f (p y) (p x) = false) as Eyx by (apply not_true_iff_false; intros H; destruct (Hfs _ (p z) _ H); congruence).
      assert (f (p z) (p y) = false) as Ezy by (apply not_true_iff_false; intros H; destruct (Hfs _ (p x) _ H); congruence).
      destruct (Hgs _ (q y) _ Hg); auto.
Qed.

#[export] Instance str_le_antisym : AntiSymm eq str_le.
Proof.
  intros a. induction a as [|x a IH]; intros [|y b]; unfold str_le in *; cbn; try done.
  destruct (Ascii.eqb_spec x y) as [<-|Hn]; [rewrite N.ltb_irrefl, Ascii.eqb_refl; intros; f_equal; by apply IH|].
  destruct (Ascii.eqb_spec y x) as [->|]; [done|].
  destruct (N.ltb_spec (N_of_ascii x) (N_of_ascii y)), (N.ltb_spec (N_of_ascii y) (N_of_ascii x)); try done; lia.
Qed.

Lemma str_ltb_strict_weak : strict_weak str_ltb.
Proof.
  unfold str_ltb. split; intros a b.
  - intros Hb%negb_true_iff. apply negb_false_iff. destruct (total str_le a b) as [?|H]; [done|]. unfold str_le in H. congruence.
  - intros c Hc%negb_true_iff. rewrite !negb_true_iff. destruct (str_leb b a) eqn:E1; [|by left]. destruct (str_leb c b) eqn:E2; [|by right].
    assert (str_le c a) as H by (by transitivity b). unfold str_le in H. congruence.
Qed.

Lemma str_eqb_ties a b : str_eqb a b = true <-> str_ltb a b = false /\ str_ltb b a = false.
Proof.
  unfold str_ltb. rewrite !negb_false_iff, str_eqb_true. split; [|intros [? ?]; by apply (anti_symm str_le)].
  intros ->. destruct (total str_le b b); by split.
Qed.

Lemma name_ltb_strict_weak : strict_weak name_ltb.
Proof. apply (strict_weak_lex str_ltb str_eqb str_ltb entry_server entry_tool_name); [apply str_ltb_strict_weak..|apply str_eqb_ties]. Qed.

Lemma goes_before_strict_weak : strict_weak goes_before.
Proof.
  apply (strict_weak_lex (fun a b => b <? a)%N N.eqb name_ltb rank ranked); [|apply name_ltb_strict_weak|].
  - split; intros a b; [rewrite N.ltb_lt, N.ltb_ge; lia|intros c; rewrite !N.ltb_lt; lia].
  - intros a b. rewrite N.eqb_eq, !N.ltb_ge. lia.
Qed.

(** [a] may go before [b]: the score is higher, or it is the same and the names are in order. *)
Definition rank_le (a b : RankedMatch) : Prop := goes_before b a = false.

#[export] Instance rank_le_trans : Transitive rank_le.
Proof.
  intros a b c Hab Hbc. unfold rank_le in *. apply not_true_iff_false. intros Hca.
  destruct (sw_split _ goes_before_strict_weak _ b _ Hca); congruence.
Qed.

(** An insertion without a bound. *)
Fixpoint insert_rank (x : RankedMatch) (l : list RankedMatch) : list RankedMatch :=
  match l with
  | [] => [x]
  | y :: l => if goes_before x y then x :: y :: l else y :: insert_rank x l
  end.
Definition ranking (l : list RankedMatch) : list RankedMatch := fold_left (fun ws x => insert_rank x ws) l [].

Lemma insert_rank_perm x l : insert_rank x l ≡ₚ x :: l.
Proof. induction l as [|y l IH]; cbn; [done|]. destruct (goes_before x y); [done|]. rewrite IH. apply Permutation_swap. Qed.

Lemma insert_rank_sorted x l : StronglySorted rank_le l -> StronglySorted rank_le (insert_rank x l).
Proof.
  induction 1 as [|y l Hl IH Hy]; cbn; [repeat constructor|]. destruct (goes_before x y) eqn:E.
  - assert (rank_le x y) as Hxy by (by apply (sw_asym _ goes_before_strict_weak)). constructor; [by constructor|].
    constructor; [done|]. eapply Forall_impl; [exact Hy|]. cbn. intros z Hz. by transitivity y.
  - constructor; [done|]. rewrite insert_rank_perm. by constructor.
Qed.

Lemma ranking_spec l : ranking l ≡ₚ l /\ StronglySorted rank_le (ranking l).
Proof.
  unfold ranking. assert (forall ws, StronglySorted rank_le ws -> fold_left (fun ws x => insert_rank x ws) l ws ≡ₚ l ++ ws /\
    StronglySorted rank_le (fold_left (fun ws x => insert_rank x ws) l ws)) as Hgen.
  { induction l as [|x l IH]; intros ws Hws; cbn [fold_left]; [done|]. destruct (IH (insert_rank x ws) (insert_rank_sorted x ws Hws)) as [Hp ?].
    split; [|done]. rewrite Hp, insert_rank_perm. cbn. by rewrite Permutation_middle. }
  destruct (Hgen [] ltac:(constructor)) as [Hp ?]. split; [by rewrite Hp, app_nil_r|done].
Qed.

(** Keeping the first [n] at every turn keeps the first [n] of all. *)
Lemma insert_winner_firstn n x l : insert_winner n x (firstn n l) = firstn n (insert_rank x l).
Proof.
  unfold insert_winner. revert n. induction l as [|y l IH]; intros n.
  { rewrite firstn_nil. cbn. by destruct n. }
  destruct n as [|n]; [done|]. cbn [firstn position insert_rank]. destruct (goes_before x y) eqn:E.
  - cbn. f_equal. destruct n as [|n]; [done|]. cbn. f_equal. rewrite firstn_firstn. f_equal. lia.
  - rewrite firstn_cons, <- IH. destruct (position (goes_before x) (firstn n l)) as [k|]; cbn [option_map unwrap_or].
    + change (S k <? S n)%nat with (k <? n)%nat. by destruct (k <? n)%nat.
    + cbn [length]. change (S (length (firstn n l)) <? S n)%nat with (length (firstn n l) <? n)%nat. by destruct (_ <? n)%nat.
Qed.

Lemma winners_ranking l : fold_left (fun ws x => insert_winner 5 x ws) l [] = firstn 5 (ranking l).
Proof.
  unfold ranking. assert (forall ws, fold_left (fun ws x => insert_winner 5 x ws) l (firstn 5 ws) = firstn 5 (fold_left (fun ws x => insert_rank x ws) l ws)) as Hgen; [|apply (Hgen [])].
  induction l as [|x l IH]; intros ws; cbn [fold_left]; [done|]. by rewrite insert_winner_firstn, IH.
Qed.

(** ** The catalog over any manager *)

(** What the catalog relies on: the servers a manager holds connections to, and the check of the capability. *)
Class McpManagerLaws (M Value : Type) `{McpManagerOps M Value} := {
  connected : M -> gset str;
  journal_connects m name v : connected (fst (append_journal_tool_call m name v)) = connected m;
  named_connects m s url t : connected (fst (connect_named m s url t)) ⊆ connected m ∪ {[ s ]};
  wasm_connects m s d : connected (fst (connect_wasm m s d)) ⊆ connected m ∪ {[ s ]};
  list_connects m s : connected (fst (list_tools_for_server m s)) ⊆ connected m;
  discard_connects m s : connected (discard_server m s) ⊆ connected m ∖ {[ s ]};
  call_connects m s t v c : connected (fst (manager_call_tool m s t v c)) ⊆ connected m;
  call_checked m s t v c e : check_capability s t c = Err e -> manager_call_tool m s t v c = (m, Err e);
}.

Section Laws.
Context {M Value : Type} `{McpManagerLaws M Value} `{JsonOps Value} (alphanumeric : str -> bool) (to_lowercase : str -> str).
Abbreviation Catalog := (McpCatalog (M := M) (Value := Value)).
Abbreviation entries_of := (entries_of alphanumeric to_lowercase).
Abbreviation snapshot_build := (snapshot_build alphanumeric to_lowercase).
Abbreviation activate := (activate alphanumeric to_lowercase).
Abbreviation terms_of := (terms_of alphanumeric to_lowercase).
Abbreviation search_with := (search_with alphanumeric to_lowercase).
Implicit Types c : Catalog.
Abbreviation tools_of c := (activated (catalog_state c)).

Lemma elem_of_entries (m : gmap str (list (ToolDefinition Value))) e :
  e ∈ entries_of m -> exists tools t, m !! entry_server e = Some tools /\ tools !! tool_index e = Some t /\ entry_tool_name e = def_name t.
Proof.
  unfold McpCatalog.entries_of. intros ([server tools] & Hin%list_elem_of_In%elem_of_ascending & He)%list_elem_of_In%in_flat_map.
  apply list_elem_of_In, elem_of_lookup_imap in He as (i & t & -> & Ht). exists tools, t. by split_and!.
Qed.

Record catalog_ok c : Prop := {
  ok_names : forall k d, descriptors c !! k = Some d -> server_name d = k;
  ok_snapshot : snapshot (catalog_state c) = snapshot_build (tools_of c);
  ok_known : dom (tools_of c) ⊆ dom (descriptors c);
  ok_published : forall s t, (s, t) ∈ published (catalog_state c) -> exists tools d, tools_of c !! s = Some tools /\ d ∈ tools /\ def_name d = t;
  ok_connected : connected (manager c) ⊆ dom (tools_of c);
}.

Lemma set_manager_ok m c : catalog_ok c -> connected m ⊆ dom (tools_of c) -> catalog_ok (set_manager m c).
Proof. intros [] Hm. by constructor. Qed.

Lemma descriptors_by_name_names ds by_name by_name' :
  (forall k d, by_name !! k = Some d -> server_name d = k) -> descriptors_by_name ds by_name = Ok by_name' ->
  forall k d, by_name' !! k = Some d -> server_name d = k.
Proof.
  revert by_name. induction ds as [|d ds IH]; intros by_name Hn; cbn; [by intros [= <-]|]. destruct (str_eqb _ _); [done|].
  destruct (by_name !! server_name d); [done|]. apply IH. intros k x [[<- <-]|[_ Hx]]%lookup_insert_Some; auto.
Qed.

Lemma build_ok ds m c : connected m = ∅ -> catalog_build ds m = Ok c -> catalog_ok c /\ dom (tools_of c) = ∅.
Proof.
  unfold catalog_build. intros Hm. destruct (descriptors_by_name ds ∅) as [by_name|] eqn:E; [|done]. intros [= <-]. split; [|by cbn; rewrite dom_empty_L].
  constructor; cbn; [|reflexivity|rewrite dom_empty_L; set_solver|set_solver|rewrite Hm; set_solver].
  eapply descriptors_by_name_names; [|exact E]. intros k d. by rewrite lookup_empty.
Qed.

(** *** Activation *)

Lemma distinct_spec seen l x : x ∈ distinct seen l <-> x ∈ l /\ x ∉ seen.
Proof.
  revert seen. induction l as [|y l IH]; intros seen; cbn [distinct]; [split; [by intros ?%elem_of_nil|by intros [?%elem_of_nil _]]|].
  destruct (existsb (str_eqb y) seen) eqn:E.
  - apply elem_of_existsb in E as (z & Hz & ->%str_eqb_true). rewrite IH, elem_of_cons. split; [intros [? ?]; auto|].
    intros [[->|?] ?]; [done|auto].
  - assert (y ∉ seen) as Hy by (intros Hy; apply not_true_iff_false in E; apply E, elem_of_existsb; exists y; split; [done|apply str_eqb_refl]).
    rewrite !elem_of_cons, IH, elem_of_cons. destruct (decide (x = y)) as [->|]; tauto.
Qed.

Lemma validated c skill servers capability : validate_dependencies c skill servers capability = Ok tt ->
  forall s, s ∈ servers -> s ∈ dom (descriptors c) /\ capability_allows_server capability s = true.
Proof.
  induction servers as [|x servers IH]; cbn [validate_dependencies]; [by intros _ s ?%elem_of_nil|].
  destruct (descriptors c !! x) eqn:E; [|done]. destruct (capability_allows_server capability x) eqn:Ec; [|done].
  intros Hv s [->|Hs]%elem_of_cons; [|auto]. split; [by apply elem_of_dom|done].
Qed.

Lemma activate_server_connects ds skill server m : (forall k d, ds !! k = Some d -> server_name d = k) ->
  connected (fst (activate_server ds skill server m)) ⊆ connected m ∪ {[ server ]}.
Proof.
  intros Hn. unfold activate_server. destruct (ds !! server) as [d|] eqn:Ed; [|cbn; set_solver]. apply Hn in Ed as Es.
  assert (forall m1, connected m1 ⊆ connected m ∪ {[ server ]} -> connected (fst (list_tools_for_server m1 server)) ⊆ connected m ∪ {[ server ]}) as Hl.
  { intros m1 Hm1. etransitivity; [apply list_connects|done]. }
  destruct (server_kind d) as [url transport|w].
  - pose proof (named_connects m (server_name d) url transport) as Hc. rewrite Es in *. destruct (connect_named m server url transport) as [m1 [[]|e]]; cbn in *; [|done].
    specialize (Hl m1 Hc). by destruct (list_tools_for_server m1 server).
  - pose proof (wasm_connects m server w) as Hc. destruct (connect_wasm m server w) as [m1 [[]|e]]; cbn in *; [|done].
    specialize (Hl m1 Hc). by destruct (list_tools_for_server m1 server).
Qed.

Lemma activate_pending_spec ds skill pending temporary m : (forall k d, ds !! k = Some d -> server_name d = k) ->
  let '(m', r) := activate_pending ds skill pending temporary m in
  connected m' ⊆ connected m ∪ list_to_set pending /\
  match r with Ok inventories => dom inventories = dom temporary ∪ list_to_set pending | Err _ => True end.
Proof.
  intros Hn. revert temporary m. induction pending as [|s pending IH]; intros temporary m; cbn [activate_pending]; [set_solver|].
  pose proof (activate_server_connects ds skill s m Hn) as Hs. destruct (activate_server ds skill s m) as [m1 [tools|e]]; cbn [fst] in Hs; [|set_solver].
  specialize (IH (<[s:=tools]> temporary) m1). destruct (activate_pending _ _ _ _ m1) as [m2 r]. destruct IH as [Hc Hr]. split; [set_solver|].
  destruct r; [|done]. rewrite Hr, dom_insert_L. set_solver.
Qed.

Lemma discards pending m : connected (fold_left discard_server pending m) ⊆ connected m ∖ list_to_set pending.
Proof.
  revert m. induction pending as [|s pending IH]; intros m; cbn [fold_left list_to_set]; [set_solver|]. pose proof (IH (discard_server m s)). pose proof (discard_connects m s). set_solver.
Qed.

Lemma activate_spec skill servers capability c : catalog_ok c ->
  let '(c', r) := activate skill servers capability c in
  catalog_ok c' /\ descriptors c' = descriptors c /\
  match r with
  | Err _ => catalog_state c' = catalog_state c
  | Ok _ =>
      (forall s, s ∈ servers -> capability_allows_server capability s = true) /\ tools_of c ⊆ tools_of c' /\
      dom (tools_of c') = dom (tools_of c) ∪ list_to_set servers /\ published (catalog_state c') = published (catalog_state c)
  end.
Proof.
  intros Hok. unfold McpCatalog.activate. pose proof (journal_connects (manager c) "mcp_activation"
    (json_object ["skill" ↦ json_string skill; "servers" ↦ json_array (json_string <$> distinct [] servers)])) as Hj.
  destruct (append_journal_tool_call _ _ _) as [m audited]. cbn [fst] in Hj.
  assert (catalog_ok (set_manager m c)) as Hm by (apply set_manager_ok; [done|rewrite Hj; apply Hok]).
  destruct audited as [[]|e]; [|done]. destruct (validate_dependencies _ _ _ _) as [[]|e] eqn:Ev; [|done].
  set (pending := List.filter _ _). assert (forall s, s ∈ pending <-> s ∈ servers /\ tools_of c !! s = None) as Hp.
  { intros s. unfold pending. rewrite list_elem_of_In, List.filter_In, <- list_elem_of_In, distinct_spec, bool_decide_eq_true. cbn. split; [tauto|].
    intros [? ?]. split; [split; [done|apply not_elem_of_nil]|done]. }
  assert (forall s, s ∈ servers -> s ∈ dom (descriptors c) /\ capability_allows_server capability s = true) as Hall.
  { intros s Hs. apply (validated _ _ _ _ Ev). apply distinct_spec. split; [done|apply not_elem_of_nil]. }
  assert (dom (tools_of c) ∪ list_to_set servers = dom (tools_of c) ∪ list_to_set pending) as Hd.
  { apply set_eq. intros s. rewrite !elem_of_union, !elem_of_list_to_set, Hp, elem_of_dom. destruct (tools_of c !! s) eqn:E; [|tauto].
    split; intros [|]; left; by eexists. }
  clearbody pending. destruct pending as [|p0 pending0] eqn:Epend.
  { split_and!; [done|done|intros s Hs; by apply Hall|done|rewrite Hd; cbn; set_solver|done]. }
  rewrite <- Epend in *. clear Epend p0 pending0. cbn [set_manager descriptors manager catalog_state].
  pose proof (activate_pending_spec (descriptors c) skill pending ∅ m (ok_names _ Hok)) as Hact.
  destruct (activate_pending _ _ _ _ m) as [m' [inventories|e]]; destruct Hact as [Hc Hr].
  - rewrite dom_empty_L, union_empty_l_L in Hr. cbn [set_catalog_state catalog_state activated].
    assert (inventories ##ₘ tools_of c) as Hdis.
    { apply map_disjoint_dom. rewrite Hr. intros s Hs%elem_of_list_to_set Hs'. apply Hp in Hs as [_ Hs]. by apply elem_of_dom in Hs' as [? ?]; congruence. }
    assert (tools_of c ⊆ inventories ∪ tools_of c) as Hsub by (by apply map_union_subseteq_r).
    split_and!; [|done|intros s Hs; by apply Hall|done|cbn; rewrite dom_union_L, Hr, Hd; set_solver|done].
    constructor; cbn [set_catalog_state set_manager catalog_state descriptors manager snapshot activated published].
    + apply Hok.
    + done.
    + rewrite dom_union_L, Hr. pose proof (ok_known _ Hok). intros s. rewrite elem_of_union, elem_of_list_to_set, Hp. intros [[Hs _]|Hs]; [by apply Hall|auto].
    + intros s t Hst. destruct (ok_published _ Hok s t Hst) as (tools & d & Ht & ? & ?). exists tools, d. split_and!; [|done|done].
      by apply (lookup_weaken _ _ _ _ Ht).
    + rewrite dom_union_L, Hr. pose proof (ok_connected _ Hok). rewrite Hj in Hc. set_solver.
  - split_and!; [|done|done]. destruct Hok as [? ? ? ? Hco]. constructor; cbn; try done. pose proof (discards pending m'). rewrite Hj in Hc. set_solver.
Qed.

(** *** Searching *)

Lemma winner_value_some m0 c e : m0 ⊆ tools_of c -> e ∈ entries_of m0 ->
  exists tools t, tools_of c !! entry_server e = Some tools /\ tools !! tool_index e = Some t /\ entry_tool_name e = def_name t /\
    forall w, ranked w = e -> winner_value (catalog_state c) w = Some (tool_value (entry_server e) t).
Proof.
  intros Hm (tools & t & Ht & Hi & Hn)%elem_of_entries. apply (lookup_weaken _ _ _ _ Ht) in Hm as Htc. exists tools, t. split_and!; try done.
  intros w <-. unfold winner_value. rewrite Htc. cbn [mbind option_bind]. by rewrite Hi.
Qed.

(** The matches of a query, best first, and of equal ones the first by server and name. *)
Definition ranked_matches (query : str) (m0 : gmap str (list (ToolDefinition Value))) : list RankedMatch :=
  ranking (all_matches (terms_of query) (entries_of m0)).

Lemma ranked_matches_in query m0 w : w ∈ ranked_matches query m0 -> ranked w ∈ entries_of m0.
Proof.
  unfold ranked_matches. rewrite (proj1 (ranking_spec _)). unfold all_matches. intros (e & -> & He)%list_elem_of_fmap.
  by apply list_elem_of_In, List.filter_In in He as [?%list_elem_of_In _].
Qed.

Lemma publish_winners ws (s : CatalogState (Value := Value)) : let s' := fold_left publish_winner ws s in
  snapshot s' = snapshot s /\ activated s' = activated s /\
  published s' = list_to_set ((fun w => (entry_server (ranked w), entry_tool_name (ranked w))) <$> ws) ∪ published s.
Proof.
  revert s. induction ws as [|w ws IH]; intros s; cbn [fold_left fmap list_fmap list_to_set]; [split_and!; [done..|set_solver]|].
  destruct (IH (publish_winner s w)) as (-> & -> & ->). split_and!; [done..|]. cbn. set_solver.
Qed.

Lemma search_spec m0 query c : catalog_ok c -> m0 ⊆ tools_of c ->
  exists c' r, search_with (snapshot_build m0) query c = Some (c', r) /\ catalog_ok c' /\ descriptors c' = descriptors c /\
    tools_of c' = tools_of c /\ snapshot (catalog_state c') = snapshot (catalog_state c) /\
    is_ok r = is_ok (snd (append_journal_tool_call (manager c) "mcp_search" (json_object ["query_length" ↦ json_number (N.of_nat (length query))]))) /\
  match r with
  | Err _ => catalog_state c' = catalog_state c
  | Ok values =>
      mapM (winner_value (catalog_state c)) (firstn 5 (ranked_matches query m0)) = Some values /\
      published (catalog_state c') =
        list_to_set ((fun w => (entry_server (ranked w), entry_tool_name (ranked w))) <$> firstn 5 (ranked_matches query m0)) ∪ published (catalog_state c)
  end.
Proof.
  intros Hok Hm. unfold McpCatalog.search_with. destruct (build_spec alphanumeric to_lowercase m0) as [He Hi].
  rewrite (winners_scan alphanumeric to_lowercase _ _ Hi), winners_ranking, He. fold (ranked_matches query m0). cbn [mbind option_bind].
  pose proof (journal_connects (manager c) "mcp_search" (json_object ["query_length" ↦ json_number (N.of_nat (length query))])) as Hj.
  destruct (append_journal_tool_call _ _ _) as [m audited]. cbn [fst] in Hj.
  assert (catalog_ok (set_manager m c)) as Hok' by (apply set_manager_ok; [done|rewrite Hj; apply Hok]).
  destruct audited as [[]|e]; [|by eexists _, _].
  set (best := firstn 5 (ranked_matches query m0)). change (catalog_state (set_manager m c)) with (catalog_state c).
  assert (forall w, w ∈ best -> ranked w ∈ entries_of m0) as Hbest.
  { intros w Hw. apply (ranked_matches_in query). unfold best in Hw. rewrite <- (firstn_skipn 5 (ranked_matches query m0)). apply elem_of_app. by left. }
  assert (is_Some (mapM (winner_value (catalog_state c)) best)) as [values Hv].
  { apply mapM_is_Some_2, Forall_forall. intros w Hw. destruct (winner_value_some m0 c (ranked w) Hm (Hbest w Hw)) as (? & t & _ & _ & _ & Hval).
    cbn. rewrite (Hval w) by done. by eexists. }
  rewrite Hv. cbn [mbind option_bind]. eexists _, _. split; [done|].
  destruct (publish_winners best (catalog_state c)) as (Es & Ea & Ep). cbn [set_catalog_state set_manager catalog_state descriptors].
  split_and!; [|done..]. destruct Hok as [Hn Hs Hk Hp Hc].
  constructor; cbn [set_catalog_state set_manager catalog_state descriptors manager]; rewrite ?Ea, ?Es; [done..| |by rewrite Hj].
  intros s t. rewrite Ep. intros [(w & [= -> ->] & Hw)%elem_of_list_to_set%list_elem_of_fmap|]%elem_of_union; [|auto].
  destruct (winner_value_some m0 c (ranked w) Hm (Hbest w Hw)) as (tools & d & Ht & Hd & En & _).
  exists tools, d. split_and!; [done|by eapply list_elem_of_lookup_2|done].
Qed.

(** *** A session *)

(** The tools a search names. *)
Definition named (ws : list RankedMatch) : gset (str * str) :=
  list_to_set ((fun w => (entry_server (ranked w), entry_tool_name (ranked w))) <$> ws).

(** What a session does with its catalog: a search takes the index at one moment and publishes what it found at another.
    [g] has the servers of the activations that succeeded, [f] the tools the searches that succeeded found, [snaps] the indices
    the searches under way have taken. *)
Inductive session : gset str -> gset (str * str) -> list CatalogSnapshot -> Catalog -> Prop :=
| session_built ds m c : connected m = ∅ -> catalog_build ds m = Ok c -> session ∅ ∅ [] c
| session_activated g f snaps c skill servers capability c' n :
    session g f snaps c -> activate skill servers capability c = (c', Ok n) -> session (g ∪ list_to_set servers) f snaps c'
| session_refused g f snaps c skill servers capability c' e :
    session g f snaps c -> activate skill servers capability c = (c', Err e) -> session g f snaps c'
| session_looked g f snaps c : session g f snaps c -> session g f (snapshot (catalog_state c) :: snaps) c
| session_searched g f snaps c s query ws c' values :
    session g f snaps c -> s ∈ snaps -> winners_of s (terms_of query) = Some ws -> search_with s query c = Some (c', Ok values) ->
    session g (named ws ∪ f) snaps c'
| session_not_searched g f snaps c s query c' e :
    session g f snaps c -> s ∈ snaps -> search_with s query c = Some (c', Err e) -> session g f snaps c'
| session_called g f snaps c server tool arguments capability c' r :
    session g f snaps c -> call server tool arguments capability c = (c', r) -> session g f snaps c'.

Lemma call_keeps server tool arguments capability c :
  let '(c', _) := call server tool arguments capability c in
  catalog_state c' = catalog_state c /\ descriptors c' = descriptors c /\ connected (manager c') ⊆ connected (manager c).
Proof.
  unfold call. destruct (bool_decide _); [|done]. pose proof (call_connects (manager c) server tool arguments capability) as Hc.
  by destruct (manager_call_tool _ _ _ _ _).
Qed.

(** What a session knows of its catalog. *)
Definition session_inv (g : gset str) (f : gset (str * str)) (snaps : list CatalogSnapshot) c : Prop :=
  catalog_ok c /\ dom (tools_of c) = g /\ published (catalog_state c) = f /\
  forall s, s ∈ snaps -> exists m0, s = snapshot_build m0 /\ m0 ⊆ tools_of c.

Lemma session_ok g f snaps c : session g f snaps c -> session_inv g f snaps c.
Proof.
  unfold session_inv.
  induction 1 as [ds m c Hm Hb|g f snaps c skill servers capability c' n _ (Hok & Hg & Hf & Hsn) Ha|g f snaps c skill servers capability c' e _ (Hok & Hg & Hf & Hsn) Ha
    |g f snaps c _ (Hok & Hg & Hf & Hsn)|g f snaps c s query ws c' values _ (Hok & Hg & Hf & Hsn) Hs Hw He|g f snaps c s query c' e _ (Hok & Hg & Hf & Hsn) Hs He
    |g f snaps c server tool arguments capability c' r _ (Hok & Hg & Hf & Hsn) Hc].
  - destruct (build_ok ds m c Hm Hb) as [Hok Hd]. unfold catalog_build in Hb. destruct (descriptors_by_name ds ∅); [|done].
    injection Hb as <-. split_and!; [done|done|done|by intros s ?%elem_of_nil].
  - pose proof (activate_spec skill servers capability c Hok) as Hspec. rewrite Ha in Hspec. destruct Hspec as (Hok' & _ & _ & Hsub & Hd & Hp).
    split_and!; [done|by rewrite Hd, Hg|by rewrite Hp|]. intros s Hs. destruct (Hsn s Hs) as (m0 & -> & Hm0). exists m0. split; [done|by etransitivity].
  - pose proof (activate_spec skill servers capability c Hok) as Hspec. rewrite Ha in Hspec. destruct Hspec as (Hok' & _ & Es). rewrite Es. by split_and!.
  - split_and!; [done|done|done|]. intros s [->|Hs]%elem_of_cons; [|auto]. exists (tools_of c). split; [apply Hok|done].
  - destruct (Hsn s Hs) as (m0 & -> & Hm0). destruct (search_spec m0 query c Hok Hm0) as (c1 & r1 & He1 & Hok1 & _ & Et & _ & _ & Hr).
    rewrite He1 in He. injection He as -> ->. destruct Hr as (_ & Hp). rewrite Et. split_and!; [done|done| |done].
    rewrite Hp, Hf. do 2 f_equal. destruct (build_spec alphanumeric to_lowercase m0) as [Hen Hi].
    rewrite (winners_scan alphanumeric to_lowercase _ _ Hi), winners_ranking, Hen in Hw. by injection Hw as <-.
  - destruct (Hsn s Hs) as (m0 & -> & Hm0). destruct (search_spec m0 query c Hok Hm0) as (c1 & r1 & He1 & Hok1 & _ & Et & _ & _ & Hr).
    rewrite He1 in He. injection He as -> ->. rewrite Et, Hr. by split_and!.
  - pose proof (call_keeps server tool arguments capability c) as Hk. rewrite Hc in Hk. destruct Hk as (Es & Ed & Hcon). rewrite Es. split_and!; [|done..].
    destruct Hok. constructor; rewrite ?Es, ?Ed; try done. by etransitivity.
Qed.


(** C25. A search never fails for want of an entry, however old the index it took: it returns, and fails exactly when its audit
    entry is refused, publishing nothing then; otherwise it publishes the first five of the ranking, a permutation of the entries that
    match every term, a better score before a worse and equal scores by server and name; it finds through the index exactly what a
    scan of the entries finds. *)
Theorem search_finds_the_best g f snaps c s query : session g f snaps c -> s ∈ snaps ->
  exists m0 ranking, s = snapshot_build m0 /\ m0 ⊆ tools_of c /\
    ranking ≡ₚ all_matches (terms_of query) (entries_of m0) /\ StronglySorted rank_le ranking /\
  exists c' r, search_with s query c = Some (c', r) /\ tools_of c' = tools_of c /\
  is_ok r = is_ok (snd (append_journal_tool_call (manager c) "mcp_search" (json_object ["query_length" ↦ json_number (N.of_nat (length query))]))) /\
  match r with
  | Err _ => published (catalog_state c') = published (catalog_state c)
  | Ok values =>
      mapM (winner_value (catalog_state c)) (firstn 5 ranking) = Some values /\
      published (catalog_state c') = named (firstn 5 ranking) ∪ published (catalog_state c)
  end.
Proof.
  intros (Hok & _ & _ & Hsn)%session_ok Hs. destruct (Hsn s Hs) as (m0 & -> & Hm).
  destruct (search_spec m0 query c Hok Hm) as (c' & r & E & _ & _ & Et & _ & Ea & Hr). exists m0, (ranked_matches query m0).
  destruct (ranking_spec (all_matches (terms_of query) (entries_of m0))) as [Hp Hsort]. split_and!; [done..|].
  exists c', r. split_and!; [done|done|done|]. destruct r; [done|by rewrite Hr].
Qed.
End Laws.
