(* ===== verification/McpManager.v ===== *)
(** * The manager of MCP connections

    Models [crates/simulacra-mcp/src/manager/] ([registry.rs], [handshake.rs], [dispatch.rs], [wasm_dispatch.rs], [reconnect.rs],
    [call.rs], [journal.rs]), the handshakes and reads of [transport/], [domain/], [bootstrap.rs] and [tool.rs]: how a server is
    registered, how its handshake goes over streamable HTTP or the older event stream, how a call reaches it and how often.
    It is the manager the catalog of [McpCatalog.v] works with.

    The network ([reqwest], sockets, time), the wasm engine and the reading of URLs are an implementation of [McpWorld].
    A response is its status, two headers and what reading its body yields.  Telemetry is left out. *)

From S2P Require Import Prelude.
From S2P Require Import Text.
From S2P Require Import Utf8.
From S2P Require Import Capability.
From S2P Require Import ShellExec.
From S2P Require Import ShellBuiltins.
From S2P Require Import Journal.
From S2P Require Import Json.
From S2P Require Import Tools.
From S2P Require Import Mcp.
From S2P Require Import Sse.
From S2P Require Import McpCatalog.

(** ** Connections *)

Variant TransportMode :=
| StreamableHttp (mode_session : option str)
| WasmMode (module_id : str)
| LegacySse (post_endpoint : str)
| LegacyHttp.

(** A connection; [McpToolSchema] has the fields of [ToolDefinition]. *)
Record McpConnection (Value : Type) := {
  conn_server_name : str;
  conn_url : str;
  conn_headers : list (str * str);
  conn_tools : list (ToolDefinition Value);
  handshake_done : bool;
  was_connected : bool;
  transport_mode : option TransportMode;
  configured_transport : option str;
  handshake_auth_failed : bool;
}.
Arguments conn_server_name {Value}.
Arguments conn_url {Value}.
Arguments conn_headers {Value}.
Arguments conn_tools {Value}.
Arguments handshake_done {Value}.
Arguments was_connected {Value}.
Arguments transport_mode {Value}.
Arguments configured_transport {Value}.
Arguments handshake_auth_failed {Value}.

Definition connection_new {Value} (name url : str) (transport : option str) (headers : list (str * str)) : McpConnection Value :=
  {| conn_server_name := name; conn_url := url; conn_headers := headers; conn_tools := []; handshake_done := false;
     was_connected := false; transport_mode := None; configured_transport := transport; handshake_auth_failed := false |}.

(** [domain/transport_config.rs]. *)
Definition normalize_transport (transport : option str) : result (option str) McpError :=
  match transport with
  | None => Ok None
  | Some s =>
      let trimmed := trim s in
      if str_eqb trimmed [] || str_eqb trimmed "auto" then Ok None
      else if str_eqb trimmed "sse" || str_eqb trimmed "http" then Ok (Some trimmed)
      else Err (ConnectionFailed ("unknown MCP transport " ++ debug_str trimmed ++ ": expected " ++ debug_str "auto" ++ ", " ++ debug_str "sse" ++ ", or " ++ debug_str "http"))
  end.
Definition parse_wasm_transport (transport_str : str) : result unit McpError :=
  if str_eqb transport_str "wasm" then Ok tt
  else Err (ProtocolError ("unknown wasm transport " ++ debug_str transport_str ++ ": expected " ++ debug_str "wasm")).

(** ** The world *)

Record McpRequest (Value : Type) := {
  req_method : str;
  req_url : str;
  req_headers : list (str * str);
  req_body : option Value;
  req_timeout : option N;
}.
Arguments req_method {Value}.
Arguments req_url {Value}.
Arguments req_headers {Value}.
Arguments req_body {Value}.
Arguments req_timeout {Value}.
Record McpResponse := {
  resp_status : N;
  resp_content_type : option str;
  resp_session : option str;
  resp_reads : list arrival;
}.
Record ParsedUrl := { scheme : str; host_str : option str; url_port : option N; url_path : str }.
Record WasmModule (Value : Type) := {
  module_tools : list (ToolDefinition Value);
  module_source : str;
  module_allowlist : list str;
  module_agent : str;
  module_fuel : N;
}.
Arguments module_tools {Value}.
Arguments module_source {Value}.
Arguments module_allowlist {Value}.
Arguments module_agent {Value}.
Arguments module_fuel {Value}.
(** What a module answers; a trap comes with the text of its error, running out of fuel apart. *)
Variant WasmOutcome := WasmReturned (text : str) | WasmInvalidArguments (msg : str) | WasmExecutionFailed (msg : str) | WasmOutOfFuel | WasmTrap (msg : str).

Class McpWorld (W Value : Type) := {
  url_parse : str -> result ParsedUrl str;
  client_build : W -> option str;
  http_send : W -> McpRequest Value -> W * result McpResponse str;
  sleep_ms : W -> N -> W;
  now_ms : W -> N;
  open_keepalive : W -> str -> str -> W * bool;
  module_load : W -> str -> W * result (WasmModule Value) McpError;
  module_run : W -> WasmModule Value -> N -> str -> str -> str -> str -> W * result (WasmOutcome * N) McpError;
}.

Section Transport.
Context {W Value : Type} `{McpWorld W Value} `{JsonOps Value} (as_i64 : Value -> option Z) (dec_i64 : Z -> str).

Definition contains (pattern s : str) : bool := match find_sub pattern s with Some _ => true | None => false end.
Definition rpc_error (err : Value) : McpError :=
  jsonrpc_error_from_value (fun v k => value_get k v) as_i64 as_str json_to_string dec_i64 err.

(** ** [transport/jsonrpc.rs] *)

(** The chunks up to the end of a body. *)
Fixpoint read_bytes (failed : str -> McpError) (max_bytes : option N) (reads : list arrival) (bytes : str) : result str McpError :=
  match reads with
  | Chunk chunk :: reads =>
      match max_bytes with
      | Some limit_bytes =>
          if (limit_bytes <? N.of_nat (length bytes + length chunk))%N then Err (ResponseTooLarge limit_bytes)
          else read_bytes failed max_bytes reads (bytes ++ chunk)
      | None => read_bytes failed max_bytes reads (bytes ++ chunk)
      end
  | Failed msg :: _ => Err (failed msg)
  | Idle :: reads => read_bytes failed max_bytes reads bytes
  | Closed :: _ | [] => Ok bytes
  end.

(** The first event whose data is JSON; every turn consumes an event. *)
Fixpoint first_json_event (fuel : nat) (rest : str) : option Value :=
  match fuel with
  | O => None
  | S fuel =>
      match parse_next_sse_event rest with
      | None => None
      | Some (_, data, remaining) =>
          match json_from_str data with Some value => Some value | None => first_json_event fuel remaining end
      end
  end.
Definition parse_json (body : str) : result Value McpError :=
  match json_from_str body with Some v => Ok v | None => Err (ProtocolError (json_error body)) end.
Definition read_jsonrpc_http_response (max_bytes : option N) (response : McpResponse) : result Value McpError :=
  let is_event_stream := match resp_content_type response with Some t => starts_with "text/event-stream" t | None => false end in
  let? bytes := read_bytes ProtocolError max_bytes (resp_reads response) [] in
  let body := from_utf8_lossy bytes in
  let trimmed := trim_start body in
  if is_event_stream || starts_with "event:" trimmed || starts_with "data:" trimmed then
    match first_json_event (S (length body)) body with
    | Some value => Ok value
    | None => Err (ProtocolError "no JSON data event in SSE response")
    end
  else parse_json body.

(** ** The handshakes *)

Definition client_new (w : W) : W * result unit McpError :=
  (w, match client_build w with Some e => Err (TransportError e) | None => Ok tt end).
Definition post (timeout : option N) (url : str) (headers : list (str * str)) (body : Value) (failed : str -> McpError) : SE W McpError McpResponse :=
  se_map_err failed (fun w => http_send w
    {| req_method := "POST"; req_url := url; req_headers := headers; req_body := Some body; req_timeout := timeout |}).
Definition is_success (status : N) : bool := (200 <=? status)%N && (status <? 300)%N.
Definition expect_success (method : str) (response : McpResponse) : result unit McpError :=
  if is_success (resp_status response) then Ok tt
  else Err (ProtocolError ("server returned HTTP " ++ dec (resp_status response) ++ " for " ++ method)).

Definition initialize_request (protocol_version : str) : Value :=
  json_object ["jsonrpc" ↦ json_string "2.0"; "id" ↦ json_number 1; "method" ↦ json_string "initialize";
    "params" ↦ json_object ["protocolVersion" ↦ json_string protocol_version; "capabilities" ↦ json_object [];
      "clientInfo" ↦ json_object ["name" ↦ json_string "simulacra"; "version" ↦ json_string "0.1.0"]]].
Definition initialized_notification : Value :=
  json_object ["jsonrpc" ↦ json_string "2.0"; "method" ↦ json_string "notifications/initialized"].
Definition tools_list_request : Value :=
  json_object ["jsonrpc" ↦ json_string "2.0"; "id" ↦ json_number 2; "method" ↦ json_string "tools/list"; "params" ↦ json_object []].
Definition tools_call_request (tool : str) (input : Value) : Value :=
  json_object ["jsonrpc" ↦ json_string "2.0"; "id" ↦ json_number 1; "method" ↦ json_string "tools/call";
    "params" ↦ json_object ["name" ↦ json_string tool; "arguments" ↦ input]].

(** [serde_json::from_value::<McpToolSchema>]: an object with the three fields, the schema under one of its two names, or an
    array of the three. *)
Definition tool_schema_of (v : Value) : option (ToolDefinition Value) :=
  match as_array v with
  | Some [name; description; schema] =>
      name ← as_str name; description ← as_str description; Some {| def_name := name; def_description := description; input_schema := schema |}
  | Some _ => None
  | None =>
      name ← get_str "name" v;
      description ← get_str "description" v;
      schema ← match value_get "input_schema" v, value_get "inputSchema" v with
               | Some schema, None | None, Some schema => Some schema
               | _, _ => None
               end;
      Some {| def_name := name; def_description := description; input_schema := schema |}
  end.
Definition listed_tools (body : Value) : result (list (ToolDefinition Value)) McpError :=
  match value_get "error" body with
  | Some err => Err (rpc_error err)
  | None =>
      match value_get "result" body ≫= value_get "tools" with
      | None => Err (ProtocolError "tools/list response missing `result.tools`")
      | Some tools_val =>
          match as_array tools_val with
          | None => Err (ProtocolError "tools/list `result.tools` was not a JSON array")
          | Some arr => Ok (omap tool_schema_of arr)
          end
      end
  end.

(** [transport/legacy_http.rs]. *)
Definition perform_http_handshake (max_bytes : option N) (url : str) : SE W McpError (list (ToolDefinition Value)) :=
  let! _ := client_new in
  let! init_response := post (Some 5%N) url [] (initialize_request "2024-11-05") TransportError in
  let! _ := se_lift (expect_success "initialize" init_response) in
  let! notif_response := post (Some 5%N) url [] initialized_notification TransportError in
  let! _ := se_lift (expect_success "notifications/initialized" notif_response) in
  let! tools_response := post (Some 5%N) url [] tools_list_request TransportError in
  let! _ := se_lift (expect_success "tools/list" tools_response) in
  let! body := se_lift (read_jsonrpc_http_response max_bytes tools_response) in
  se_lift (listed_tools body).

(** [transport/streamable_http.rs]. *)
Definition accept_header : str * str := ("Accept" ↦ lit "application/json, text/event-stream").
Definition session_headers (session_id : option str) : list (str * str) :=
  match session_id with Some sid => ["Mcp-Session-Id" ↦ sid] | None => [] end.
Definition initialize_status (status : N) : result unit McpError :=
  if (status =? 404)%N then Err (TransportError "server returned 404 for streamable HTTP initialize")
  else if (status =? 405)%N then Err (TransportError "server returned 405 for streamable HTTP initialize")
  else if (status =? 401)%N || (status =? 403)%N then Err (AuthFailed ("server returned " ++ dec status ++ " (auth/permission error)"))
  else if (500 <=? status)%N then Err (ConnectionFailed ("server returned " ++ dec status ++ " (server error)"))
  else if (400 <=? status)%N then Err (ConnectionFailed ("server returned " ++ dec status))
  else Ok tt.
Definition session_of (response : McpResponse) : option str :=
  s ← resp_session response; if str_eqb (trim s) [] then None else Some (trim s).
Definition perform_streamable_http_handshake (max_bytes : option N) (url : str) (headers : list (str * str))
    : SE W McpError (list (ToolDefinition Value) * option str) :=
  let! _ := client_new in
  let! init_response := post (Some 5%N) url (accept_header :: headers) (initialize_request "2025-03-26") ConnectionFailed in
  let! _ := se_lift (initialize_status (resp_status init_response)) in
  let session_id := session_of init_response in
  let! init_body := se_lift (read_jsonrpc_http_response max_bytes init_response) in
  let! _ := se_lift match value_get "result" init_body ≫= value_get "protocolVersion" with
                    | None => Err (ProtocolError "invalid initialize response: missing protocolVersion")
                    | Some _ => Ok tt
                    end in
  let with_session := accept_header :: session_headers session_id ++ headers in
  let! notif_response := post (Some 5%N) url with_session initialized_notification TransportError in
  let! _ := se_lift (expect_success "notifications/initialized" notif_response) in
  let! tools_response := post (Some 5%N) url with_session tools_list_request TransportError in
  let! _ := se_lift (expect_success "tools/list" tools_response) in
  let! body := se_lift (read_jsonrpc_http_response max_bytes tools_response) in
  let! tools := se_lift (listed_tools body) in
  se_ret (tools, session_id).

(** The reads of the event stream until one names the endpoint; five seconds without it are an [Idle]. *)
Fixpoint find_endpoint (accumulated : str) (reads : list arrival) : option str :=
  match reads with
  | Chunk chunk :: reads =>
      let accumulated := accumulated ++ from_utf8_lossy chunk in
      match parse_sse_endpoint accumulated with Some endpoint => Some endpoint | None => find_endpoint accumulated reads end
  | _ => None
  end.
Definition discover_endpoint (sse_url : str) (w : W) : W * option str :=
  match client_build w with
  | Some _ => (w, None)
  | None =>
      let '(w, r) := http_send w {| req_method := "GET"; req_url := sse_url; req_headers := ["Accept" ↦ lit "text/event-stream"];
                                    req_body := None; req_timeout := None |} in
      (w, match r with Ok response => find_endpoint [] (resp_reads response) | Err _ => None end)
  end.
Definition absolute_endpoint (base_url ep : str) : str :=
  if starts_with "http://" ep || starts_with "https://" ep then ep else base_url ++ ep.

(** ** A call over HTTP *)

Definition http_status_error (status : N) : option McpError :=
  let detail := "server returned HTTP " ++ dec status in
  if (status =? 401)%N || (status =? 403)%N then Some (AuthFailed detail)
  else if (400 <=? status)%N then Some (TransportError detail)
  else None.
Definition session_expired : str := "session expired: server returned 404 with active session".
Definition rpc_result (body : Value) : result Value McpError :=
  match value_get "error" body with
  | Some err => Err (rpc_error err)
  | None =>
      match value_get "result" body with
      | Some v => Ok v
      | None => Err (ProtocolError "JSON-RPC response had neither `result` nor `error`")
      end
  end.
Definition answer_of (is_streamable : bool) (session_id : option str) (max_bytes : option N) (response : McpResponse) : result Value McpError :=
  let status := resp_status response in
  if is_streamable && (status =? 404)%N && bool_decide (is_Some session_id) then Err (ProtocolError session_expired)
  else
    match http_status_error status with
    | Some err => Err err
    | None =>
        if is_streamable && contains "text/event-stream" (unwrap_or (resp_content_type response) []) then
          parse_sse_tool_response json_from_str (fun v k => value_get k v) as_i64 as_str json_to_string from_utf8_lossy dec_i64
            max_bytes (resp_reads response) [] 0
        else
          let? bytes := read_bytes (match max_bytes with Some _ => TransportError | None => ProtocolError end) max_bytes (resp_reads response) [] in
          let? body := parse_json bytes in
          rpc_result body
    end.
Definition http_call (max_bytes : option N) (target_url : str) (session_id : option str) (is_streamable : bool) (headers : list (str * str))
    (tool : str) (input : Value) : SE W McpError Value :=
  let! _ := client_new in
  let streamable_headers := if is_streamable then accept_header :: session_headers session_id else [] in
  let! response := post (Some 30%N) target_url (streamable_headers ++ headers) (tools_call_request tool input) TransportError in
  se_lift (answer_of is_streamable session_id max_bytes response).
End Transport.

(** ** The manager *)

Section Manager.
Context {W J Value Decimal : Type} `{McpWorld W Value} `{JsonOps Value} `{@JournalStorage Value Decimal J}.
Context (as_i64 : Value -> option Z) (dec_i64 : Z -> str).

Record McpManager := {
  connections : gmap str (McpConnection Value);
  mgr_journal : option J;
  mgr_agent_id : str;
  reconnect_base_delay_ms : N;
  max_response_bytes : option N;
  agent_fuel_remaining : option N;
  instantiation_recorder : option N;
  wasm_modules : gmap str (WasmModule Value);
  world : W;
}.
Definition manager_new (w : W) : McpManager :=
  {| connections := ∅; mgr_journal := None; mgr_agent_id := []; reconnect_base_delay_ms := 1000; max_response_bytes := None;
     agent_fuel_remaining := None; instantiation_recorder := None; wasm_modules := ∅; world := w |}.
Definition with_journal (j : J) (agent_id : str) (w : W) : McpManager :=
  {| connections := ∅; mgr_journal := Some j; mgr_agent_id := agent_id; reconnect_base_delay_ms := 1000; max_response_bytes := None;
     agent_fuel_remaining := None; instantiation_recorder := None; wasm_modules := ∅; world := w |}.

Definition set_connections (cs : gmap str (McpConnection Value)) (m : McpManager) : McpManager :=
  {| connections := cs; mgr_journal := mgr_journal m; mgr_agent_id := mgr_agent_id m; reconnect_base_delay_ms := reconnect_base_delay_ms m;
     max_response_bytes := max_response_bytes m; agent_fuel_remaining := agent_fuel_remaining m;
     instantiation_recorder := instantiation_recorder m; wasm_modules := wasm_modules m; world := world m |}.
Definition set_world (w : W) (m : McpManager) : McpManager :=
  {| connections := connections m; mgr_journal := mgr_journal m; mgr_agent_id := mgr_agent_id m; reconnect_base_delay_ms := reconnect_base_delay_ms m;
     max_response_bytes := max_response_bytes m; agent_fuel_remaining := agent_fuel_remaining m;
     instantiation_recorder := instantiation_recorder m; wasm_modules := wasm_modules m; world := w |}.
Definition set_journal (j : J) (m : McpManager) : McpManager :=
  {| connections := connections m; mgr_journal := Some j; mgr_agent_id := mgr_agent_id m; reconnect_base_delay_ms := reconnect_base_delay_ms m;
     max_response_bytes := max_response_bytes m; agent_fuel_remaining := agent_fuel_remaining m;
     instantiation_recorder := instantiation_recorder m; wasm_modules := wasm_modules m; world := world m |}.
Definition set_wasm_modules (modules : gmap str (WasmModule Value)) (m : McpManager) : McpManager :=
  {| connections := connections m; mgr_journal := mgr_journal m; mgr_agent_id := mgr_agent_id m; reconnect_base_delay_ms := reconnect_base_delay_ms m;
     max_response_bytes := max_response_bytes m; agent_fuel_remaining := agent_fuel_remaining m;
     instantiation_recorder := instantiation_recorder m; wasm_modules := modules; world := world m |}.
Definition set_accounts (fuel recorder : option N) (m : McpManager) : McpManager :=
  {| connections := connections m; mgr_journal := mgr_journal m; mgr_agent_id := mgr_agent_id m; reconnect_base_delay_ms := reconnect_base_delay_ms m;
     max_response_bytes := max_response_bytes m; agent_fuel_remaining := fuel;
     instantiation_recorder := recorder; wasm_modules := wasm_modules m; world := world m |}.
Definition set_agent_fuel_budget (fuel : N) (m : McpManager) : McpManager := set_accounts (Some fuel) (instantiation_recorder m) m.
Definition on_conn (key : str) (f : McpConnection Value -> McpConnection Value) (m : McpManager) : McpManager :=
  set_connections (alter f key (connections m)) m.
Definition on_world {A} (f : SE W McpError A) : SE McpManager McpError A := fun m =>
  let '(w, r) := f (world m) in (set_world w m, r).
Definition manager_discard_server (server : str) (m : McpManager) : McpManager :=
  set_wasm_modules (delete server (wasm_modules m)) (set_connections (delete server (connections m)) m).

(** *** Registering ([registry.rs]) *)

Definition register_url (what server : str -> str) (url : str) (transport : option str) (headers : list (str * str)) : SE McpManager McpError unit := fun m =>
  match url_parse url with
  | Err e => (m, Err (ConnectionFailed (what url ++ " failed: " ++ e)))
  | Ok parsed =>
      let name := server (unwrap_or (host_str parsed) "unknown") in
      (set_connections (<[name := connection_new name url transport headers]> (connections m)) m, Ok tt)
  end.
Definition connect_sse (url : str) : SE McpManager McpError unit :=
  register_url (fun url => "sse connection to " ++ url) id url (Some (lit "sse")) [].
Definition connect_http (url : str) : SE McpManager McpError unit :=
  register_url (fun url => "http connection to " ++ url) id url (Some (lit "http")) [].
Definition manager_connect (url : str) (transport : option str) : SE McpManager McpError unit :=
  let! transport := se_lift (normalize_transport transport) in
  register_url (fun url => "connection to " ++ url) id url transport [].
Definition connect_named_with_headers (name url : str) (transport : option str) (headers : list (str * str)) : SE McpManager McpError unit :=
  let! transport := se_lift (normalize_transport transport) in
  register_url (fun url => "connection to " ++ url) (fun _ => name) url transport headers.
Definition manager_connect_named (name url : str) (transport : option str) : SE McpManager McpError unit :=
  connect_named_with_headers name url transport [].

Definition connect_wasm_named (name module_id : str) : SE McpManager McpError unit := fun m =>
  (set_connections (<[name := {| conn_server_name := name; conn_url := "http://127.0.0.1/"; conn_headers := []; conn_tools := [];
     handshake_done := false; was_connected := false; transport_mode := Some (WasmMode module_id); configured_transport := Some (lit "wasm");
     handshake_auth_failed := false |}]> (connections m)) m, Ok tt).
Definition connect_wasm_module (name : str) (module : WasmModule Value) : SE McpManager McpError unit := fun m =>
  (set_wasm_modules (<[name := module]> (wasm_modules m))
     (set_connections (<[name := {| conn_server_name := name; conn_url := []; conn_headers := []; conn_tools := module_tools module;
        handshake_done := true; was_connected := true; transport_mode := Some (WasmMode name); configured_transport := Some (lit "wasm");
        handshake_auth_failed := false |}]> (connections m)) m), Ok tt).

(** *** The handshake of a server ([handshake.rs]) *)

Definition connected_by (tools : list (ToolDefinition Value)) (mode : TransportMode) (c : McpConnection Value) : McpConnection Value :=
  {| conn_server_name := conn_server_name c; conn_url := conn_url c; conn_headers := conn_headers c; conn_tools := tools; handshake_done := true;
     was_connected := true; transport_mode := Some mode; configured_transport := configured_transport c; handshake_auth_failed := handshake_auth_failed c |}.
Definition handshake_failed (error : McpError) (c : McpConnection Value) : McpConnection Value :=
  {| conn_server_name := conn_server_name c; conn_url := conn_url c; conn_headers := conn_headers c; conn_tools := []; handshake_done := handshake_done c;
     was_connected := was_connected c; transport_mode := transport_mode c; configured_transport := configured_transport c;
     handshake_auth_failed := match error with AuthFailed _ => true | _ => false end |}.

Definition keepalive_request (path addr : str) : str :=
  "GET " ++ path ++ " HTTP/1.1" ++ [cr; lf] ++ "Host: " ++ addr ++ [cr; lf] ++ "Accept: text/event-stream" ++ [cr; lf]
  ++ "Cache-Control: no-cache" ++ [cr; lf; cr; lf].
Definition perform_sse_handshake (key : str) (m : McpManager) : McpManager :=
  match connections m !! key with
  | None => m
  | Some conn =>
      match url_parse (conn_url conn) with
      | Err _ => m
      | Ok parsed =>
          if str_eqb (scheme parsed) "https" then m
          else
            let addr := unwrap_or (host_str parsed) "127.0.0.1" ++ ":" ++ dec (unwrap_or (url_port parsed) 80%N) in
            let base_url := scheme parsed ++ "://" ++ addr in
            let '(w, discovered) := discover_endpoint (conn_url conn) (world m) in
            match option_map (absolute_endpoint base_url) discovered with
            | None => set_world w m
            | Some endpoint =>
                match perform_http_handshake as_i64 dec_i64 (max_response_bytes m) endpoint w with
                | (w, Err _) => set_world w m
                | (w, Ok tools) =>
                    let '(w, opened) := open_keepalive w addr (keepalive_request (url_path parsed) addr) in
                    if opened then on_conn key (connected_by tools (LegacySse endpoint)) (set_world w m) else set_world w m
                end
            end
      end
  end.

Definition streamable_handshake (conn : McpConnection Value) : SE McpManager McpError (list (ToolDefinition Value) * option str) := fun m =>
  on_world (perform_streamable_http_handshake as_i64 dec_i64 (max_response_bytes m) (conn_url conn) (conn_headers conn)) m.
Definition forced_http_handshake (key : str) (m : McpManager) : McpManager :=
  match connections m !! key with
  | None => m
  | Some conn =>
      match streamable_handshake conn m with
      | (m, Ok (tools, session_id)) => on_conn key (connected_by tools (StreamableHttp session_id)) m
      | (m, Err error) => on_conn key (handshake_failed error) m
      end
  end.
Definition auto_detect_handshake (key : str) (m : McpManager) : McpManager :=
  match connections m !! key with
  | None => m
  | Some conn =>
      match streamable_handshake conn m with
      | (m, Ok (tools, session_id)) => on_conn key (connected_by tools (StreamableHttp session_id)) m
      | (m, Err (TransportError msg as error)) =>
          if contains "404" msg || contains "405" msg then perform_sse_handshake key m else on_conn key (handshake_failed error) m
      | (m, Err error) => on_conn key (handshake_failed error) m
      end
  end.
Definition handshake_server (key : str) (m : McpManager) : McpManager :=
  match connections m !! key with
  | None => m
  | Some conn =>
      match configured_transport conn with
      | None => auto_detect_handshake key m
      | Some transport =>
          if str_eqb transport [] then auto_detect_handshake key m
          else if str_eqb transport "sse" then perform_sse_handshake key m
          else if str_eqb transport "http" then forced_http_handshake key m
          else m
      end
  end.
Definition connection_handshake_done (server : str) (m : McpManager) : bool :=
  match connections m !! server with Some c => handshake_done c | None => false end.
Definition ensure_server_connected (server : str) (m : McpManager) : McpManager :=
  match connections m !! server with
  | Some c => if handshake_done c then m else handshake_server server m
  | None => m
  end.
(** The keys of a hash map come in some order. *)
Definition ensure_connected (m : McpManager) : McpManager :=
  fold_left (fun m key => handshake_server key m)
    (List.filter (fun key => negb (connection_handshake_done key m)) (fst <$> map_to_list (connections m))) m.

Definition handshake_failed_error (server : str) : McpError := ConnectionFailed ("MCP handshake failed for server " ++ server).
Definition handshake_error (server : str) (m : McpManager) : McpError :=
  if match connections m !! server with Some c => handshake_auth_failed c | None => false end
  then AuthFailed ("MCP handshake rejected the credential for server " ++ server)
  else handshake_failed_error server.

Definition list_tools_by_server (m : McpManager) : McpManager * list (str * ToolDefinition Value) :=
  let m := ensure_connected m in
  (m, flat_map (fun '(server_name, conn) => pair server_name <$> conn_tools conn) (map_to_list (connections m))).
Definition list_tools (m : McpManager) : McpManager * list (ToolDefinition Value) :=
  let m := ensure_connected m in (m, flat_map (fun '(_, conn) => conn_tools conn) (map_to_list (connections m))).
Definition manager_list_tools_for_server (server : str) : SE McpManager McpError (list (ToolDefinition Value)) := fun m =>
  match connections m !! server with
  | None => (m, Err (ConnectionFailed ("no connection configured for server " ++ server)))
  | Some _ =>
      let m := ensure_server_connected server m in
      (m,
       match connections m !! server with
       | None => Err (ConnectionFailed ("no connection configured for server " ++ server))
       | Some connection => if handshake_done connection then Ok (conn_tools connection) else Err (handshake_error server m)
       end)
  end.

(** *** Dispatch ([dispatch.rs], [wasm_dispatch.rs]) *)

(** The least of the two limits; zero of the module is none. *)
Definition call_fuel (server_fuel : N) (agent_remaining : option N) : N :=
  match agent_remaining with
  | None => server_fuel
  | Some remaining => if (server_fuel =? 0)%N then remaining else N.min server_fuel remaining
  end.
Definition outcome_value (outcome : WasmOutcome) : result Value McpError :=
  match outcome with
  | WasmReturned s =>
      match json_from_str s with
      | Some v => Ok v
      | None => Err (ProtocolError ("execution failed: tool returned non-JSON output: " ++ json_error s))
      end
  | WasmInvalidArguments msg => Err (ProtocolError ("execution failed: invalid arguments: " ++ msg))
  | WasmExecutionFailed msg => Err (ProtocolError ("execution failed: " ++ msg))
  | WasmOutOfFuel => Err (ProtocolError "execution failed: fuel exhausted")
  | WasmTrap msg => Err (ProtocolError ("execution failed: " ++ msg))
  end.
Definition dispatch_wasm_tool_call (agent_id server tool : str) (input : Value) : SE McpManager McpError Value := fun m =>
  match wasm_modules m !! server with
  | None => (m, Err (ConnectionFailed ("no wasm module loaded for server " ++ server)))
  | Some module =>
      if negb (existsb (fun d => str_eqb (def_name d) tool) (module_tools module)) then
        (m, Err (ProtocolError ("execution failed: tool '" ++ tool ++ "' not found on wasm MCP server '" ++ server ++ "'")))
      else if bool_decide (agent_fuel_remaining m = Some 0%N) then (m, Err (ProtocolError "execution failed: agent fuel budget exhausted"))
      else
        let m := set_accounts (agent_fuel_remaining m) (option_map N.succ (instantiation_recorder m)) m in
        let agent := match agent_id with [] => module_agent module | _ => agent_id end in
        let '(w, r) := module_run (world m) module (call_fuel (module_fuel module) (agent_fuel_remaining m)) agent server tool (json_to_string input) in
        let m := set_world w m in
        match r with
        | Err e => (m, Err e)
        | Ok (outcome, consumed) =>
            (set_accounts (option_map (fun prev => prev - consumed)%N (agent_fuel_remaining m)) (instantiation_recorder m) m, outcome_value outcome)
        end
  end.

Definition dispatch_tool_call (agent_id server tool : str) (input : Value) : SE McpManager McpError Value := fun m =>
  match connections m !! server with
  | None => (m, Err (ConnectionFailed ("no connection to server " ++ server)))
  | Some conn =>
      let http target_url session_id is_streamable :=
        on_world (http_call as_i64 dec_i64 (max_response_bytes m) target_url session_id is_streamable (conn_headers conn) tool input) m in
      match transport_mode conn with
      | Some (WasmMode _) => dispatch_wasm_tool_call agent_id server tool input m
      | Some (LegacySse post_endpoint) => http post_endpoint None false
      | Some (StreamableHttp session_id) => http (conn_url conn) session_id true
      | Some LegacyHttp => http (conn_url conn) None false
      | None => (m, Err (handshake_failed_error server))
      end
  end.

(** *** Reconnection ([reconnect.rs]) *)

Definition is_transport_error (err : McpError) : bool := match err with TransportError _ | ConnectionFailed _ => true | _ => false end.
Definition forget_handshake (transport : option str) (c : McpConnection Value) : McpConnection Value :=
  {| conn_server_name := conn_server_name c; conn_url := conn_url c; conn_headers := conn_headers c; conn_tools := conn_tools c; handshake_done := false;
     was_connected := was_connected c; transport_mode := None; configured_transport := transport; handshake_auth_failed := handshake_auth_failed c |}.
Definition locked_transport (c : McpConnection Value) : option str :=
  match configured_transport c, transport_mode c with
  | None, Some (StreamableHttp _) => Some (lit "http")
  | None, Some (LegacySse _) => Some (lit "sse")
  | transport, _ => transport
  end.
Definition MAX_RETRIES : nat := 3.
Fixpoint retry_loop (attempts : list nat) (agent_id server tool : str) (input : Value) (last_err : McpError) (m : McpManager)
    : McpManager * result Value McpError :=
  match attempts with
  | [] => (m, Err last_err)
  | attempt :: attempts =>
      let m := set_world (sleep_ms (world m) (reconnect_base_delay_ms m * 2 ^ N.of_nat attempt)%N) m in
      let m := on_conn server (fun c => forget_handshake (locked_transport c) c) m in
      let m := ensure_server_connected server m in
      if negb (connection_handshake_done server m) then
        retry_loop attempts agent_id server tool input (handshake_failed_error server) m
      else
        match dispatch_tool_call agent_id server tool input m with
        | (m, Ok output) => (m, Ok output)
        | (m, Err (AuthFailed msg)) => (m, Err (AuthFailed msg))
        | (m, Err e) => retry_loop attempts agent_id server tool input e m
        end
  end.
Definition is_session_expired (e : McpError) : bool :=
  match e with ProtocolError msg => contains "session expired" msg | _ => false end.
Definition dispatch_with_reconnect (agent_id server tool : str) (input : Value) : SE McpManager McpError Value := fun m =>
  match dispatch_tool_call agent_id server tool input m with
  | (m, Ok output) => (m, Ok output)
  | (m, Err first_err) =>
      if is_session_expired first_err then
        let m := on_conn server (forget_handshake (Some (lit "http"))) m in
        let m := ensure_server_connected server m in
        if negb (connection_handshake_done server m) then (m, Err (handshake_failed_error server))
        else dispatch_tool_call agent_id server tool input m
      else if negb (is_transport_error first_err) then (m, Err first_err)
      else if negb (match connections m !! server with Some c => was_connected c | None => false end) then (m, Err first_err)
      else retry_loop (seq 0 MAX_RETRIES) agent_id server tool input first_err m
  end.

(** *** Calls ([call.rs], [journal.rs]) *)

Definition journal_entry_of (tool_name : str) (arguments : Value) (m : McpManager) : @JournalEntry Value :=
  {| schema_version := JOURNAL_SCHEMA_VERSION; Journal.agent_id := mgr_agent_id m; timestamp_ms := now_ms (world m);
     entry := ToolCall None tool_name arguments |}.
Definition manager_append_journal_tool_call (tool_name : str) (arguments : Value) : SE McpManager McpError unit := fun m =>
  match mgr_journal m with
  | None => (m, Ok tt)
  | Some j =>
      let '(j, r) := journal_append j (journal_entry_of tool_name arguments m) in
      (set_journal j m, map_err (fun _ => ProtocolError "journal append failed (details redacted)") r)
  end.
Definition call_arguments (server tool : str) (input : Value) : Value :=
  json_object ["server" ↦ json_string server; "tool" ↦ json_string tool; "argument_length" ↦ json_number (N.of_nat (length (json_to_string input)))].
Definition call_tool_for_agent (agent_id server tool : str) (input : Value) (capability : CapabilityToken) : SE McpManager McpError Value := fun m =>
  match check_capability server tool capability with
  | Err e => (m, Err e)
  | Ok _ =>
      let m := ensure_server_connected server m in
      if negb (connection_handshake_done server m) then (m, Err (handshake_failed_error server))
      else
        match manager_append_journal_tool_call tool (call_arguments server tool input) m with
        | (m, Err e) => (m, Err e)
        | (m, Ok _) => dispatch_with_reconnect agent_id server tool input m
        end
  end.
Definition call_tool (server tool : str) (input : Value) (capability : CapabilityToken) : SE McpManager McpError Value :=
  call_tool_for_agent [] server tool input capability.

(** *** Bootstrap ([bootstrap.rs]) and the tools ([tool.rs]) *)

(** The server a descriptor of the bootstrap loads a module for, and the module as it is configured. *)
Definition configured_module (network_allowlist : list str) (agent_id : str) (module : WasmModule Value) : WasmModule Value :=
  {| module_tools := module_tools module; module_source := module_source module; module_allowlist := network_allowlist;
     module_agent := agent_id; module_fuel := module_fuel module |}.
(** A module is loaded and connected, or the stage that failed is told. *)
Definition load_and_connect (server : str) (d : WasmMcpServerDescriptor) : SE McpManager str unit := fun m =>
  match module_load (world m) (module_path d) with
  | (w, Err _) => (set_world w m, Err (lit "module_load"))
  | (w, Ok module) =>
      let '(m, r) := connect_wasm_module server (configured_module (network_allowlist d) (wasm_agent_id d) module) (set_world w m) in
      (m, map_err (fun _ => lit "connect") r)
  end.
Definition connect_all_named (servers : list (str * option str * option str)) (m : McpManager) : McpManager :=
  fold_left (fun m '(name, url, transport) =>
    match url with Some url => fst (manager_connect_named name url transport m) | None => m end) servers m.
Definition create_mcp_tools_with_wasm (network_servers : list (str * option str * option str)) (wasm_servers : list (str * WasmMcpServerDescriptor))
    (m : McpManager) : McpManager * list (str * ToolDefinition Value) :=
  let m := connect_all_named network_servers m in
  let m := fold_left (fun m '(name, d) => fst (load_and_connect name d m)) wasm_servers m in
  list_tools_by_server m.

Definition mcp_error_to_string (e : McpError) : str :=
  match e with
  | ConnectionFailed msg => "connection failed: " ++ msg
  | ProtocolError msg => "protocol error: " ++ msg
  | TransportError msg => "transport error: " ++ msg
  | AuthFailed msg => "auth failed: " ++ msg
  | ResponseTooLarge limit_bytes => "response too large: exceeded " ++ dec limit_bytes ++ " bytes"
  | McpCapabilityDenied msg => "capability denied: " ++ msg
  end.
Definition mcp_tool_call (server_name tool_name : str) (arguments : Value) (capability : CapabilityToken) : SE McpManager ToolError Value :=
  se_map_err (fun e => ExecutionFailed (mcp_error_to_string e)) (call_tool server_name tool_name arguments capability).

(** What the catalog asks, answered. *)
#[export] Instance manager_ops : McpManagerOps McpManager Value := {
  append_journal_tool_call := fun m name arguments => manager_append_journal_tool_call name arguments m;
  connect_named := fun m name url transport => manager_connect_named name url transport m;
  connect_wasm := fun m name d => load_and_connect name d m;
  list_tools_for_server := fun m server => manager_list_tools_for_server server m;
  discard_server := fun m server => manager_discard_server server m;
  manager_call_tool := fun m server tool input capability => call_tool server tool input capability m;
}.
End Manager.
Arguments McpManager : clear implicits.

(** ** What reaches the servers *)

Definition fuel_le (a b : option N) : Prop :=
  match a, b with Some a, Some b => (a <= b)%N | None, None => True | _, _ => False end.
#[export] Instance fuel_le_preorder : PreOrder fuel_le.
Proof. split; [intros [a|]; cbn; lia|]. intros [a|] [b|] [c|]; cbn; try done. lia. Qed.

Section Traffic.
Context {W J Value Decimal : Type} `{McpWorld W Value} `{JsonOps Value} `{@JournalStorage Value Decimal J}.
Context (as_i64 : Value -> option Z) (dec_i64 : Z -> str).
Abbreviation Manager := (McpManager W J Value).
Abbreviation perform_http_handshake := (perform_http_handshake as_i64 dec_i64).
Abbreviation perform_streamable_http_handshake := (perform_streamable_http_handshake as_i64 dec_i64).
Abbreviation http_call := (http_call as_i64 dec_i64).
Implicit Types m : Manager.

Definition handshake_request (r : McpRequest Value) : Prop :=
  req_body r = None \/
  exists body, req_body r = Some body /\
    body ∈ [initialize_request "2024-11-05"; initialize_request "2025-03-26"; initialized_notification; tools_list_request].

(** One move of the world on behalf of a call: [1] when the tool may run, [0] when it cannot. *)
Variant moves (server tool : str) (input : Value) : nat -> W -> W -> Prop :=
| moves_handshake w r : handshake_request r -> moves server tool input 0 w (fst (http_send w r))
| moves_sleep w ms : moves server tool input 0 w (sleep_ms w ms)
| moves_keepalive w addr request : moves server tool input 0 w (fst (open_keepalive w addr request))
| moves_call w r : req_body r = Some (tools_call_request tool input) -> moves server tool input 1 w (fst (http_send w r))
| moves_run w module fuel agent :
    moves server tool input 1 w (fst (module_run w module fuel agent server tool (json_to_string input))).
(** The tool may have run at most [n] times. *)
Inductive traffic (server tool : str) (input : Value) : nat -> W -> W -> Prop :=
| traffic_none n w : traffic server tool input n w w
| traffic_more k n w w' w'' : moves server tool input k w w' -> traffic server tool input n w' w'' -> traffic server tool input (k + n) w w''.

Section Call.
Context (server tool : str) (input : Value).
Abbreviation traffic := (traffic server tool input).

Lemma traffic_weaken n k w w' : (n <= k)%nat -> traffic n w w' -> traffic k w w'.
Proof.
  intros Hk Ht. revert k Hk. induction Ht as [n w|i n w w' w'' Hm _ IH]; intros k Hk; [constructor|].
  replace k with (i + (k - i))%nat by lia. econstructor; [done|]. apply IH. lia.
Qed.
Lemma traffic_trans n k w w' w'' : traffic n w w' -> traffic k w' w'' -> traffic (n + k) w w''.
Proof.
  induction 1 as [n w|i n w w1 w2 Hm _ IH]; intros Ht; [eapply traffic_weaken; [|done]; lia|].
  rewrite <- Nat.add_assoc. econstructor; [done|]. by apply IH.
Qed.
Lemma traffic_one k w w' : moves server tool input k w w' -> traffic k w w'.
Proof. intros Hm. rewrite <- (Nat.add_0_r k). econstructor; [done|constructor]. Qed.

(** A computation over the world in which the tool runs at most [n] times. *)
Definition calm {A} (n : nat) (f : SE W McpError A) : Prop := forall w, traffic n w (fst (f w)).

Lemma calm_ret {A} (a : A) : calm 0 (se_ret a).
Proof. intros w. constructor. Qed.
Lemma calm_lift {A} (r : result A McpError) : calm 0 (se_lift r).
Proof. intros w. constructor. Qed.
Lemma calm_bind {A B} n k (f : SE W McpError A) (g : A -> SE W McpError B) : calm n f -> (forall a, calm k (g a)) -> calm (n + k) (se_bind f g).
Proof.
  intros Hf Hg w. unfold se_bind. specialize (Hf w). destruct (f w) as [w' [a|e]]; cbn [fst] in Hf.
  - eapply traffic_trans; [exact Hf|apply Hg].
  - eapply traffic_weaken; [|exact Hf]. lia.
Qed.
Lemma calm_client : calm 0 client_new.
Proof. intros w. constructor. Qed.
Lemma calm_handshake timeout url headers body failed :
  body ∈ [initialize_request "2024-11-05"; initialize_request "2025-03-26"; initialized_notification; tools_list_request] ->
  calm 0 (post timeout url headers body failed).
Proof.
  intros Hb w. unfold post, se_map_err. set (r := {| req_method := "POST" |}). pose proof (traffic_one 0 w _ (moves_handshake _ _ _ w r ltac:(right; by exists body))) as Ht.
  by destruct (http_send w r).
Qed.
Lemma calm_call timeout url headers failed : calm 1 (post timeout url headers (tools_call_request tool input) failed).
Proof.
  intros w. unfold post, se_map_err. set (r := {| req_method := "POST" |}). pose proof (traffic_one 1 w _ (moves_call _ _ _ w r eq_refl)) as Ht.
  by destruct (http_send w r).
Qed.

Ltac calm_steps :=
  repeat first [apply calm_ret | apply calm_lift | apply calm_client | apply (calm_bind 0 0); [|intros ?]
               | apply calm_handshake; rewrite ?elem_of_cons; tauto].

Lemma http_handshake_calm max url : calm 0 (perform_http_handshake max url).
Proof. unfold McpManager.perform_http_handshake. calm_steps. Qed.
Lemma streamable_handshake_calm max url headers : calm 0 (perform_streamable_http_handshake max url headers).
Proof. unfold McpManager.perform_streamable_http_handshake. calm_steps. Qed.
Lemma http_call_calm max url sid streamable headers : calm 1 (http_call max url sid streamable headers tool input).
Proof.
  unfold McpManager.http_call. apply (calm_bind 0 1); [apply calm_client|intros _]. apply (calm_bind 1 0); [apply calm_call|intros ?; apply calm_lift].
Qed.
Lemma discover_endpoint_calm url w : traffic 0 w (fst (discover_endpoint url w)).
Proof.
  unfold discover_endpoint. destruct (client_build w); [constructor|]. set (r := {| req_method := "GET" |}).
  pose proof (traffic_one 0 w _ (moves_handshake _ _ _ w r ltac:(by left))) as Ht. by destruct (http_send w r).
Qed.

(** *** The manager on the way *)

(** From [m] the manager came to [m']: the tool ran at most [n] times, no server came or went, and only fuel was spent. *)
Record reached (n : nat) (m m' : Manager) : Prop := {
  reached_traffic : traffic n (world m) (world m');
  reached_servers : dom (connections m') = dom (connections m);
  reached_journal : mgr_journal m' = mgr_journal m;
  reached_agent : mgr_agent_id m' = mgr_agent_id m;
  reached_fuel : fuel_le (agent_fuel_remaining m') (agent_fuel_remaining m);
}.

Lemma reached_refl n m : reached n m m.
Proof. constructor; [constructor|done..]. Qed.
Lemma reached_trans n k m m' m'' : reached n m m' -> reached k m' m'' -> reached (n + k) m m''.
Proof. intros [] []. constructor; [by eapply traffic_trans|congruence..|by etransitivity]. Qed.
Lemma reached_weaken n k m m' : (n <= k)%nat -> reached n m m' -> reached k m m'.
Proof. intros Hk []. constructor; [by eapply traffic_weaken|done..]. Qed.
Lemma reached_world n m w : traffic n (world m) w -> reached n m (set_world w m).
Proof. intros Ht. by constructor. Qed.
Lemma reached_conn key f m : reached 0 m (on_conn key f m).
Proof. constructor; [constructor|cbn; by rewrite dom_alter_L|done..]. Qed.
Lemma reached_on_world {A} n (f : SE W McpError A) m : calm n f -> reached n m (fst (on_world f m)).
Proof. intros Hf. unfold on_world. specialize (Hf (world m)). destruct (f (world m)) as [w r]. by apply reached_world. Qed.
Lemma reached_after n k m m' m'' : reached k m' m'' -> reached n m m' -> reached (n + k) m m''.
Proof. intros. by eapply reached_trans. Qed.

Lemma sse_handshake_reached key m : reached 0 m (perform_sse_handshake as_i64 dec_i64 key m).
Proof.
  unfold perform_sse_handshake. destruct (connections m !! key) as [conn|]; [|apply reached_refl].
  destruct (url_parse (conn_url conn)) as [parsed|]; [|apply reached_refl]. destruct (str_eqb _ _); [apply reached_refl|].
  pose proof (discover_endpoint_calm (conn_url conn) (world m)) as Hd. destruct (discover_endpoint (conn_url conn) (world m)) as [w discovered].
  destruct (option_map _ discovered) as [endpoint|]; [|by apply reached_world].
  pose proof (http_handshake_calm (max_response_bytes m) endpoint w) as Hh.
  destruct (perform_http_handshake (max_response_bytes m) endpoint w) as [w1 [tools|]]; pose proof (traffic_trans 0 0 _ _ _ Hd Hh) as H01; [|by apply reached_world].
  set (addr := _ ++ ":" ++ _). pose proof (traffic_one 0 _ _ (moves_keepalive _ _ _ w1 addr (keepalive_request (url_path parsed) addr))) as Hk.
  destruct (open_keepalive w1 addr _) as [w2 opened]. pose proof (traffic_trans 0 0 _ _ _ H01 Hk) as H02.
  destruct opened; [|by apply reached_world]. eapply (reached_trans 0 0); [by apply reached_world|apply reached_conn].
Qed.

Lemma streamable_reached conn m : reached 0 m (fst (streamable_handshake as_i64 dec_i64 conn m)).
Proof. apply reached_on_world, streamable_handshake_calm. Qed.

Lemma handshake_reached key m : reached 0 m (handshake_server as_i64 dec_i64 key m).
Proof.
  assert (forall m0 f, reached 0 m m0 -> reached 0 m (on_conn key f m0)) as Hc by (intros m0 f Hm; apply (reached_trans 0 0 _ _ _ Hm), reached_conn).
  assert (reached 0 m (auto_detect_handshake as_i64 dec_i64 key m)) as Ha.
  { unfold auto_detect_handshake. destruct (connections m !! key) as [conn|]; [|apply reached_refl].
    pose proof (streamable_reached conn m) as Hs. destruct (streamable_handshake as_i64 dec_i64 conn m) as [m1 [[tools sid]|[]]]; cbn [fst] in Hs; auto.
    destruct (_ || _); [|auto]. apply (reached_trans 0 0 _ _ _ Hs), sse_handshake_reached. }
  unfold handshake_server. destruct (connections m !! key) as [conn|] eqn:Ec; [|apply reached_refl].
  destruct (configured_transport conn) as [transport|]; [|done]. destruct (str_eqb transport []); [done|].
  destruct (str_eqb transport "sse"); [apply sse_handshake_reached|]. destruct (str_eqb transport "http"); [|apply reached_refl].
  unfold forced_http_handshake. rewrite Ec. pose proof (streamable_reached conn m) as Hs.
  destruct (streamable_handshake as_i64 dec_i64 conn m) as [m1 [[tools sid]|]]; auto.
Qed.
Lemma ensure_reached key m : reached 0 m (ensure_server_connected as_i64 dec_i64 key m).
Proof.
  unfold ensure_server_connected. destruct (connections m !! key); [|apply reached_refl]. destruct (handshake_done _); [apply reached_refl|apply handshake_reached].
Qed.

Lemma wasm_dispatch_reached agent m : reached 1 m (fst (dispatch_wasm_tool_call agent server tool input m)).
Proof.
  unfold dispatch_wasm_tool_call. destruct (wasm_modules m !! server) as [module|]; [|apply reached_refl].
  destruct (negb _); [apply reached_refl|]. destruct (bool_decide _); [apply reached_refl|]. cbn [set_accounts world agent_fuel_remaining].
  set (fuel := call_fuel _ _). set (a := match agent with [] => _ | _ => _ end).
  pose proof (traffic_one 1 _ _ (moves_run _ _ _ (world m) module fuel a)) as Ht.
  destruct (module_run _ _ _ _ _ _ _) as [w [[outcome consumed]|e]]; constructor; try done.
  cbn. destruct (agent_fuel_remaining m); cbn; [lia|done].
Qed.
Lemma dispatch_reached agent m : reached 1 m (fst (dispatch_tool_call as_i64 dec_i64 agent server tool input m)).
Proof.
  unfold dispatch_tool_call. destruct (connections m !! server) as [conn|]; [|apply reached_refl].
  destruct (transport_mode conn) as [[]|]; [apply reached_on_world, http_call_calm|apply wasm_dispatch_reached|apply reached_on_world, http_call_calm..|apply reached_refl].
Qed.
Lemma retry_reached attempts agent last m : reached (length attempts) m (fst (retry_loop as_i64 dec_i64 attempts agent server tool input last m)).
Proof.
  revert last m. induction attempts as [|attempt attempts IH]; intros last m; cbn [retry_loop length]; [apply reached_refl|].
  set (m1 := set_world _ m). set (m2 := on_conn _ _ m1). set (m3 := ensure_server_connected _ _ _ m2).
  assert (reached 0 m m3) as H3.
  { apply (reached_trans 0 0 _ m2); [|apply ensure_reached]. apply (reached_trans 0 0 _ m1); [|apply reached_conn].
    apply reached_world, traffic_one. constructor. }
  destruct (negb _). { eapply reached_weaken, (reached_trans _ _ _ _ _ H3), IH. lia. }
  pose proof (dispatch_reached agent m3) as Hd. destruct (dispatch_tool_call _ _ _ _ _ _ m3) as [m4 r]. cbn [fst] in Hd.
  pose proof (reached_trans _ _ _ _ _ H3 Hd) as H4. destruct r as [v|e]; [eapply reached_weaken; [|exact H4]; lia|].
  destruct e; solve [eapply (reached_weaken (0 + 1)); [lia|exact H4]|apply (reached_trans (0 + 1) _ _ _ _ H4), IH].
Qed.
Lemma reconnect_reached agent m : reached 4 m (fst (dispatch_with_reconnect as_i64 dec_i64 agent server tool input m)).
Proof.
  unfold dispatch_with_reconnect. pose proof (dispatch_reached agent m) as Hd. destruct (dispatch_tool_call _ _ _ _ _ _ m) as [m1 [v|e]]; cbn [fst] in Hd.
  { eapply reached_weaken; [|exact Hd]. lia. }
  destruct (is_session_expired e).
  - set (m2 := on_conn _ _ m1). set (m3 := ensure_server_connected _ _ _ m2).
    assert (reached 1 m m3) as H3. { apply (reached_trans 1 0 _ _ _ Hd). apply (reached_trans 0 0 _ m2); [apply reached_conn|apply ensure_reached]. }
    destruct (negb _); [eapply reached_weaken; [|exact H3]; lia|]. eapply reached_weaken, (reached_trans _ _ _ _ _ H3), dispatch_reached. lia.
  - destruct (negb _); [eapply reached_weaken; [|exact Hd]; lia|]. destruct (negb _); [eapply reached_weaken; [|exact Hd]; lia|].
    apply (reached_trans 1 3 _ _ _ Hd), (retry_reached (seq 0 3)).
Qed.
End Call.

(** *** Calls are audited *)

(** The journal, when there is one, has taken the entry of this call. *)
Definition audited (server tool : str) (input : Value) (m m1 m' : Manager) : Prop :=
  match mgr_journal m with
  | None => mgr_journal m' = None
  | Some j => exists j', journal_append j (journal_entry_of tool (call_arguments server tool input) m1) = (j', Ok tt) /\ mgr_journal m' = Some j'
  end.

(** C19. A tool runs only on a capability that grants it and after the journal has taken its entry: the manager first comes to
    [m1] without a run, and only then, the entry stamped there and appended, the tool runs, at most four times however the
    transport fails; else the call is an error.  A call opens and closes no server and never adds fuel. *)
Theorem calls_are_audited agent server tool input capability m :
  let '(m', r) := call_tool_for_agent as_i64 dec_i64 agent server tool input capability m in
  (check_capability server tool capability <> Ok tt -> m' = m) /\
  dom (connections m') = dom (connections m) /\ fuel_le (agent_fuel_remaining m') (agent_fuel_remaining m) /\
  exists m1, traffic server tool input 0 (world m) (world m1) /\ mgr_agent_id m1 = mgr_agent_id m /\
    ((world m' = world m1 /\ exists e, r = Err e) \/
     (check_capability server tool capability = Ok tt /\ audited server tool input m m1 m' /\ traffic server tool input 4 (world m1) (world m'))).
Proof.
  unfold call_tool_for_agent. destruct (check_capability server tool capability) as [[]|e] eqn:Ecap.
  2: { split_and!; [done|done|reflexivity|]. exists m. split_and!; [constructor|done|]. left. eauto. }
  pose proof (ensure_reached server tool input server m) as He. set (m1 := ensure_server_connected as_i64 dec_i64 server m) in *.
  destruct He as [Ht Hs Hj Ha Hf]. destruct (negb _).
  { split_and!; [done|done|done|]. exists m1. split_and!; [done|done|]. left. eauto. }
  unfold manager_append_journal_tool_call. rewrite Hj. destruct (mgr_journal m) as [j|] eqn:Ej.
  - destruct (journal_append j _) as [j' [[]|e]] eqn:Eapp; cbn [map_err].
    + pose proof (reconnect_reached server tool input agent (set_journal j' m1)) as Hr.
      destruct (dispatch_with_reconnect _ _ _ _ _ _ (set_journal j' m1)) as [m' r]. cbn [fst] in Hr. destruct Hr as [Ht' Hs' Hj' _ Hf'].
      split_and!; [done|by rewrite Hs', <- Hs|by transitivity (agent_fuel_remaining m1)|]. exists m1. split_and!; [done|done|]. right.
      split_and!; [done| |done]. unfold audited. rewrite Ej. by exists j'.
    + split_and!; [done|done|done|]. exists m1. split_and!; [done|done|]. left. eauto.
  - pose proof (reconnect_reached server tool input agent m1) as Hr.
    destruct (dispatch_with_reconnect _ _ _ _ _ _ m1) as [m' r]. cbn [fst] in Hr. destruct Hr as [Ht' Hs' Hj' _ Hf'].
    split_and!; [done|by rewrite Hs', Hs|by transitivity (agent_fuel_remaining m1)|]. exists m1. split_and!; [done|done|]. right.
    split_and!; [done| |done]. unfold audited. rewrite Ej. congruence.
Qed.

(** *** The promises the catalog relies on *)

Lemma call_servers agent server tool input capability m :
  dom (connections (fst (call_tool_for_agent as_i64 dec_i64 agent server tool input capability m))) = dom (connections m).
Proof.
  unfold call_tool_for_agent. destruct (check_capability _ _ _); [|done]. pose proof (reached_servers _ _ _ _ _ _ (ensure_reached server tool input server m)) as Hs.
  set (m1 := ensure_server_connected _ _ _ m) in *. destruct (negb _); [done|]. rewrite <- Hs.
  unfold manager_append_journal_tool_call. destruct (mgr_journal m1) as [j|]; [destruct (journal_append j _) as [j' [[]|e]]; [|done]|];
    cbn [map_err]; by rewrite (reached_servers _ _ _ _ _ _ (reconnect_reached server tool input agent _)).
Qed.

#[export] Instance manager_laws : @McpManagerLaws Manager Value (manager_ops as_i64 dec_i64).
Proof.
  refine {| connected := fun m => dom (connections m) : gset str |}.
  - intros m name v. cbn. unfold manager_append_journal_tool_call. destruct (mgr_journal m); [|done]. by destruct (journal_append _ _).
  - intros m s url t. cbn. unfold manager_connect_named, connect_named_with_headers, register_url, se_bind, se_lift.
    destruct (normalize_transport t); [|set_solver]. destruct (url_parse url); cbn; set_solver.
  - intros m s d. cbn. unfold load_and_connect. destruct (module_load _ _) as [w [module|]]; cbn; set_solver.
  - intros m s. cbn. unfold manager_list_tools_for_server. destruct (connections m !! s); [|done]. cbn.
    by rewrite (reached_servers _ _ _ _ _ _ (ensure_reached [] [] json_null s m)).
  - intros m s. cbn. set_solver.
  - intros m s t v c. cbn. unfold call_tool. by rewrite call_servers.
  - intros m s t v c e He. cbn. unfold call_tool, call_tool_for_agent. by rewrite He.
Defined.

(** ** A module that failed once *)

(** The connection to a module that no handshake will open again: none is made for its transport. *)
Definition lost (server : str) m : Prop :=
  exists c, connections m !! server = Some c /\ configured_transport c = Some (lit "wasm") /\ handshake_done c = false.

Lemma lost_handshake server m : lost server m -> handshake_server as_i64 dec_i64 server m = m.
Proof. intros (c & Hc & Ht & _). unfold handshake_server. by rewrite Hc, Ht. Qed.
Lemma lost_ensure server m : lost server m -> ensure_server_connected as_i64 dec_i64 server m = m.
Proof. intros Hl. pose proof Hl as (c & Hc & _ & Hd). unfold ensure_server_connected. rewrite Hc, Hd. by apply lost_handshake. Qed.
Lemma lost_not_done server m : lost server m -> connection_handshake_done server m = false.
Proof. intros (c & Hc & _ & Hd). unfold connection_handshake_done. by rewrite Hc. Qed.

(** The waits of the retries, each twice the one before. *)
Definition waited (attempts : list nat) m : W :=
  fold_left (fun w attempt => sleep_ms w (reconnect_base_delay_ms m * 2 ^ N.of_nat attempt)%N) attempts (world m).

Lemma alter_twice {A} (f : A -> A) (i : str) (m : gmap str A) : (forall x, f (f x) = f x) -> alter f i (alter f i m) = alter f i m.
Proof.
  intros Hf. apply map_eq. intros j. rewrite !lookup_alter. repeat case_decide; try done. destruct (m !! _); simpl; [by rewrite Hf|done].
Qed.

Lemma retry_wasm attempts agent server tool input last c m :
  connections m !! server = Some c -> configured_transport c = Some (lit "wasm") -> attempts <> [] ->
  retry_loop as_i64 dec_i64 attempts agent server tool input last m =
    (on_conn server (forget_handshake (Some (lit "wasm"))) (set_world (waited attempts m) m), Err (handshake_failed_error server)).
Proof.
  revert last c m. induction attempts as [|attempt attempts IH]; intros last c m Hc Ht Hne; [done|]. cbn [retry_loop].
  set (m1 := set_world _ m). set (m2 := on_conn _ _ m1).
  assert (m2 = on_conn server (forget_handshake (Some (lit "wasm"))) m1) as E2.
  { unfold m2, on_conn. f_equal. apply alter_ext. intros x Hx. unfold m1 in Hx. cbn in Hx. rewrite Hc in Hx. injection Hx as <-.
    unfold locked_transport. by rewrite Ht. }
  assert (connections m2 !! server = Some (forget_handshake (Some (lit "wasm")) c)) as Hc2.
  { rewrite E2. unfold on_conn. cbn. by rewrite lookup_alter_eq, Hc. }
  assert (lost server m2) as Hl by (exists (forget_handshake (Some (lit "wasm")) c); by split_and!).
  rewrite (lost_ensure server m2 Hl), (lost_not_done server m2 Hl). cbn [negb]. destruct attempts as [|a attempts].
  - cbn [retry_loop]. by rewrite E2.
  - rewrite (IH _ _ m2 Hc2) by done. rewrite E2. f_equal. unfold on_conn, set_world, set_connections, waited, m1. cbn. f_equal.
    by apply alter_twice.
Qed.

(** *** What else is done with a manager *)

Variant ManagerOp :=
| OpConnect (url : str) (transport : option str)
| OpConnectNamed (name url : str) (transport : option str) (headers : list (str * str))
| OpConnectWasmNamed (name module_id : str)
| OpConnectModule (name : str) (d : WasmMcpServerDescriptor)
| OpDiscard (name : str)
| OpListAll
| OpListFor (name : str)
| OpCall (agent name tool : str) (input : Value) (capability : CapabilityToken)
| OpJournal (tool : str) (arguments : Value)
| OpFuel (fuel : N).

Definition manager_run (m : Manager) (op : ManagerOp) : Manager :=
  match op with
  | OpConnect url t => fst (manager_connect url t m)
  | OpConnectNamed name url t headers => fst (connect_named_with_headers name url t headers m)
  | OpConnectWasmNamed name id => fst (connect_wasm_named name id m)
  | OpConnectModule name d => fst (load_and_connect name d m)
  | OpDiscard name => manager_discard_server name m
  | OpListAll => fst (list_tools as_i64 dec_i64 m)
  | OpListFor name => fst (manager_list_tools_for_server as_i64 dec_i64 name m)
  | OpCall agent name tool input capability => fst (call_tool_for_agent as_i64 dec_i64 agent name tool input capability m)
  | OpJournal tool arguments => fst (manager_append_journal_tool_call tool arguments m)
  | OpFuel fuel => set_agent_fuel_budget fuel m
  end.

(** The operations that connect a server anew, or drop it. *)
Definition replaces (server : str) (op : ManagerOp) : Prop :=
  match op with
  | OpConnect url _ => exists p, url_parse url = Ok p /\ unwrap_or (host_str p) (lit "unknown") = server
  | OpConnectNamed name _ _ _ | OpConnectWasmNamed name _ | OpConnectModule name _ | OpDiscard name => name = server
  | OpListAll | OpListFor _ | OpCall _ _ _ _ _ | OpJournal _ _ | OpFuel _ => False
  end.

Section Others.
Context (server : str).

(** The connection to the server is left as it is. *)
Definition keeps m m' : Prop := connections m' !! server = connections m !! server.
#[local] Instance keeps_preorder : PreOrder keeps.
Proof. split; [done|]. unfold keeps. intros ???. congruence. Qed.

Lemma keeps_lost m m' : keeps m m' -> lost server m -> lost server m'.
Proof. unfold keeps, lost. by intros ->. Qed.
Lemma keeps_conn key f m m' : key <> server -> keeps m m' -> keeps m (on_conn key f m').
Proof. unfold keeps, on_conn. cbn. intros Hk <-. by apply lookup_alter_ne. Qed.
Lemma keeps_on_world {A} (f : SE W McpError A) m : keeps m (fst (on_world f m)).
Proof. unfold on_world. by destruct (f (world m)). Qed.

Lemma sse_keeps key m m' : key <> server -> keeps m m' -> keeps m (perform_sse_handshake as_i64 dec_i64 key m').
Proof.
  intros Hk Hm. unfold perform_sse_handshake. destruct (connections m' !! key) as [conn|]; [|done].
  destruct (url_parse (conn_url conn)) as [parsed|]; [|done]. destruct (str_eqb _ _); [done|].
  destruct (discover_endpoint _ _) as [w discovered]. destruct (option_map _ discovered) as [endpoint|]; [|done].
  destruct (perform_http_handshake _ _ _) as [w1 [tools|]]; [|done]. destruct (open_keepalive _ _ _) as [w2 []]; [|done].
  by apply keeps_conn.
Qed.
Lemma handshake_keeps key m : key <> server -> keeps m (handshake_server as_i64 dec_i64 key m).
Proof.
  intros Hk. assert (forall conn, keeps m (fst (streamable_handshake as_i64 dec_i64 conn m))) as Hs by (intros; apply keeps_on_world).
  assert (keeps m (auto_detect_handshake as_i64 dec_i64 key m)) as Ha.
  { unfold auto_detect_handshake. destruct (connections m !! key) as [conn|]; [|done]. specialize (Hs conn).
    destruct (streamable_handshake _ _ conn m) as [m1 [[tools sid]|[]]]; cbn [fst] in Hs; try (by apply keeps_conn).
    destruct (_ || _); [by apply sse_keeps|by apply keeps_conn]. }
  unfold handshake_server. destruct (connections m !! key) as [conn|] eqn:Ec; [|done].
  destruct (configured_transport conn) as [transport|]; [|done]. destruct (str_eqb transport []); [done|].
  destruct (str_eqb transport "sse"); [by apply sse_keeps|]. destruct (str_eqb transport "http"); [|done].
  unfold forced_http_handshake. rewrite Ec. specialize (Hs conn).
  destruct (streamable_handshake _ _ conn m) as [m1 [[tools sid]|]]; by apply keeps_conn.
Qed.
Lemma ensure_keeps key m : key <> server -> keeps m (ensure_server_connected as_i64 dec_i64 key m).
Proof. intros Hk. unfold ensure_server_connected. destruct (connections m !! key); [|done]. destruct (handshake_done _); [done|by apply handshake_keeps]. Qed.

Lemma tool_dispatch_keeps agent key tool input m : keeps m (fst (dispatch_tool_call as_i64 dec_i64 agent key tool input m)).
Proof.
  unfold dispatch_tool_call. destruct (connections m !! key) as [conn|]; [|done]. destruct (transport_mode conn) as [[]|]; [apply keeps_on_world| |apply keeps_on_world..|done].
  unfold dispatch_wasm_tool_call. destruct (wasm_modules m !! key) as [module|]; [|done]. destruct (negb _); [done|]. destruct (bool_decide _); [done|].
  destruct (module_run _ _ _ _ _ _ _) as [w [[outcome consumed]|e]]; done.
Qed.
Lemma retry_keeps attempts agent key tool input last m : key <> server ->
  keeps m (fst (retry_loop as_i64 dec_i64 attempts agent key tool input last m)).
Proof.
  intros Hk. revert last m. induction attempts as [|attempt attempts IH]; intros last m; cbn [retry_loop]; [done|].
  set (m1 := set_world _ m). set (m2 := on_conn _ _ m1). set (m3 := ensure_server_connected _ _ _ m2).
  assert (keeps m m3) as H3 by (trans m2; [by apply keeps_conn|by apply ensure_keeps]).
  destruct (negb _); [etrans; [exact H3|apply IH]|]. pose proof (tool_dispatch_keeps agent key tool input m3) as Hd.
  destruct (dispatch_tool_call _ _ _ _ _ _ m3) as [m4 [v|[]]]; cbn [fst] in Hd; solve [by trans m3|etrans; [trans m3; [exact H3|exact Hd]|apply IH]].
Qed.
Lemma call_keeps_other agent key tool input capability m : key <> server ->
  keeps m (fst (call_tool_for_agent as_i64 dec_i64 agent key tool input capability m)).
Proof.
  intros Hk. unfold call_tool_for_agent. destruct (check_capability _ _ _); [|done]. set (m1 := ensure_server_connected _ _ _ m).
  assert (keeps m m1) as Hm1 by by apply ensure_keeps. destruct (negb _); [done|]. unfold manager_append_journal_tool_call.
  assert (forall m2, keeps m m2 -> keeps m (fst (dispatch_with_reconnect as_i64 dec_i64 agent key tool input m2))) as Hr.
  { intros m2 H2. unfold dispatch_with_reconnect. pose proof (tool_dispatch_keeps agent key tool input m2) as Hd.
    destruct (dispatch_tool_call _ _ _ _ _ _ m2) as [m3 [v|e]]; cbn [fst] in Hd; [by trans m2|]. assert (keeps m m3) as Hm3 by by trans m2.
    destruct (is_session_expired e).
    - set (m4 := on_conn _ _ m3). set (m5 := ensure_server_connected _ _ _ m4).
      assert (keeps m m5) as H5 by (trans m4; [by apply keeps_conn|by apply ensure_keeps]). destruct (negb _); [done|]. trans m5; [done|apply tool_dispatch_keeps].
    - destruct (negb _); [done|]. destruct (negb _); [done|]. trans m3; [done|by apply retry_keeps]. }
  destruct (mgr_journal m1) as [j|]; [destruct (journal_append j _) as [j' [[]|e]]; [|done]|]; cbn [map_err]; by apply Hr.
Qed.

Lemma handshake_lost key m : lost server m -> lost server (handshake_server as_i64 dec_i64 key m).
Proof. intros Hl. destruct (decide (key = server)) as [->|Hk]; [by rewrite lost_handshake|]. by eapply keeps_lost, Hl; apply handshake_keeps. Qed.

(** A call of the lost server: nothing is tried. *)
Lemma lost_call agent tool input capability m : lost server m -> check_capability server tool capability = Ok tt ->
  call_tool_for_agent as_i64 dec_i64 agent server tool input capability m = (m, Err (handshake_failed_error server)).
Proof. intros Hl Hcap. unfold call_tool_for_agent. by rewrite Hcap, (lost_ensure server m Hl), (lost_not_done server m Hl). Qed.

Lemma register_keeps what name url transport headers m :
  (forall p, url_parse url = Ok p -> name (unwrap_or (host_str p) (lit "unknown")) <> server) -> keeps m (fst (register_url what name url transport headers m)).
Proof. intros Hn. unfold register_url, keeps. destruct (url_parse url) as [p|]; [|done]. cbn. by rewrite lookup_insert_ne by by apply Hn. Qed.

Lemma run_lost op m : ~ replaces server op -> lost server m -> lost server (manager_run m op).
Proof.
  intros Hn Hl. destruct op as [url t|name url t headers|name id|name d|name| |name|agent name tool input capability|tool arguments|fuel]; cbn [manager_run replaces] in *.
  - eapply keeps_lost, Hl. unfold manager_connect, se_bind, se_lift. destruct (normalize_transport t); [|done]. apply register_keeps. intros p Hp Hs. apply Hn. eauto.
  - eapply keeps_lost, Hl. unfold connect_named_with_headers, se_bind, se_lift. destruct (normalize_transport t); [|done]. apply register_keeps. by intros p _.
  - eapply keeps_lost, Hl. unfold keeps. cbn. by rewrite lookup_insert_ne.
  - eapply keeps_lost, Hl. unfold keeps, load_and_connect. destruct (module_load _ _) as [w [module|]]; [|done]. cbn. by rewrite lookup_insert_ne.
  - eapply keeps_lost, Hl. unfold keeps. cbn. by rewrite lookup_delete_ne.
  - cbn. unfold ensure_connected. generalize (List.filter (fun key => negb (connection_handshake_done key m)) (fst <$> map_to_list (connections m))).
    intros keys. revert m Hl. induction keys as [|key keys IH]; intros m Hl; [done|]. by apply IH, handshake_lost.
  - unfold manager_list_tools_for_server. destruct (connections m !! name); [|done]. cbn.
    destruct (decide (name = server)) as [->|Hk]; [by rewrite lost_ensure|]. eapply keeps_lost, Hl. by apply ensure_keeps.
  - destruct (decide (name = server)) as [->|Hk]; [|eapply keeps_lost, Hl; by apply call_keeps_other].
    destruct (check_capability server tool capability) as [[]|] eqn:E; [by rewrite lost_call|]. unfold call_tool_for_agent. by rewrite E.
  - eapply keeps_lost, Hl. unfold keeps, manager_append_journal_tool_call. destruct (mgr_journal m) as [j|]; [|done]. by destruct (journal_append _ _).
  - done.
Qed.
End Others.

(** C26. A module whose call fails once for want of a connection (its instantiation, say) is lost to the manager, though S041 has no
    reconnection for such servers: the manager retries as for a network server, but no handshake is there for the module's transport, so
    the three retries only wait, one, two and four times the base delay, and never try the module, and the call ends as a failed
    handshake.  It stays lost: whatever else is done with the manager, with this server and with others, until the server is connected
    anew or dropped, every call of it that the capability grants fails the same way and changes nothing. *)
Theorem failed_module_never_returns agent server tool input c m m1 e :
  connections m1 !! server = Some c -> configured_transport c = Some (lit "wasm") -> was_connected c = true ->
  dispatch_tool_call as_i64 dec_i64 agent server tool input m = (m1, Err e) -> is_transport_error e = true ->
  let '(m', r) := dispatch_with_reconnect as_i64 dec_i64 agent server tool input m in
  r = Err (handshake_failed_error server) /\
  m' = on_conn server (forget_handshake (Some (lit "wasm"))) (set_world (waited [0; 1; 2]%nat m1) m1) /\
  forall ops, Forall (fun op => ~ replaces server op) ops -> let later := fold_left manager_run ops m' in
  forall agent' tool' input' capability, check_capability server tool' capability = Ok tt ->
    call_tool_for_agent as_i64 dec_i64 agent' server tool' input' capability later = (later, Err (handshake_failed_error server)).
Proof.
  intros Hc Ht Hw Hd He. unfold dispatch_with_reconnect. rewrite Hd, He, Hc, Hw.
  assert (is_session_expired e = false) as -> by (by destruct e). cbn [negb].
  rewrite (retry_wasm (seq 0 MAX_RETRIES) agent server tool input e c m1 Hc Ht) by done. split; [done|]. split; [done|].
  intros ops Hops agent' tool' input' capability Hcap. apply lost_call; [|done].
  assert (lost server (on_conn server (forget_handshake (Some (lit "wasm"))) (set_world (waited (seq 0 MAX_RETRIES) m1) m1))) as Hl.
  { exists (forget_handshake (Some (lit "wasm")) c). split_and!; [|done|done]. cbn. by rewrite lookup_alter_eq, Hc. }
  revert Hl. generalize (on_conn server (forget_handshake (Some (lit "wasm"))) (set_world (waited (seq 0 MAX_RETRIES) m1) m1)).
  induction Hops as [|op ops Hop _ IH]; intros m2 Hl; [done|]. by apply IH, run_lost.
Qed.
End Traffic.

(** ** A server, a module and a session *)

Module Sample.
Definition texts : list (str * tree) :=
  ["initialize" ↦ Object ["result" ↦ Object ["protocolVersion" ↦ Text "2025-03-26"]];
   "tools/list" ↦ Object ["result" ↦ Object ["tools" ↦ Array [Object ["name" ↦ Text "list_issues"; "description" ↦ Text "List the open issues";
     "inputSchema" ↦ Null]]]];
   "tools/call" ↦ Object ["result" ↦ Number 7]].
#[export] Instance values : JsonOps tree := tree_json texts.

(** A server that answers every request with the name of its method as the body, and a module whose first instantiation fails;
    the world counts what was asked of it. *)
Definition answer (r : McpRequest tree) : McpResponse :=
  {| resp_status := 200; resp_content_type := None; resp_session := Some (lit "s1");
     resp_reads := [Chunk (unwrap_or (req_body r ≫= get_str "method") []); Closed] |}.
Definition module : WasmModule tree :=
  {| module_tools := [{| def_name := lit "run"; def_description := lit "Runs"; input_schema := Null |}]; module_source := lit "m.wasm";
     module_allowlist := []; module_agent := []; module_fuel := 100 |}.
#[export] Instance sample_world : McpWorld N tree := {
  url_parse := fun url => match url with [] => Err (lit "empty") | _ => Ok {| scheme := "http"; host_str := Some (lit "h"); url_port := None; url_path := "/" |} end;
  client_build := fun _ => None;
  http_send := fun w r => (w + 1, Ok (answer r))%N;
  sleep_ms := fun w _ => w;
  now_ms := fun w => w;
  open_keepalive := fun w _ _ => (w, true);
  module_load := fun w _ => (w, Ok module);
  module_run := fun w _ _ _ _ _ _ =>
    if (w =? 0)%N then (1%N, Err (ConnectionFailed "wasm instantiation failed: no memory")) else ((w + 1)%N, Ok (WasmReturned "tools/call", 30%N));
}.
#[export] Instance sample_journal : JournalStorage tree unit (@InMemoryJournalStorage tree) := memory_journal (fun _ => Err []).
Abbreviation Manager := (McpManager N (@InMemoryJournalStorage tree) tree).
Definition as_i64 (v : tree) : option Z := option_map Z.of_N (as_u64 v).
#[export] Instance ops : McpManagerOps Manager tree := manager_ops as_i64 dec_i32.
#[export] Instance laws : McpManagerLaws Manager tree := manager_laws as_i64 dec_i32.

Definition token (patterns : list str) : CapabilityToken := {|
  network := []; mcp_tools := patterns; shell := false; javascript := false; python := false; paths_write := []; paths_read := [];
  spawn_placements := []; skill_patterns := []; memory := memory sample_parent |}.

(** *** Through the catalog *)

Abbreviation activate := (activate (M := Manager) (fun _ => false) id).
Abbreviation search_with := (search_with (M := Manager) (fun _ => false) id).
Abbreviation build := (catalog_build (M := Manager) (Value := tree)).
Definition servers : list McpServerDescriptor := [descriptor_network "github" "http://h/mcp" None].
Definition c0 : McpCatalog :=
  match build servers (with_journal [] "agent" 0%N) with
  | Ok c => c
  | Err _ => {| descriptors := ∅; manager := with_journal [] "agent" 0%N; catalog_state := catalog_state_default |}
  end.
Definition c1 := fst (activate "triage" [lit "github"; lit "github"] (token [lit "mcp:github:*"]) c0).
Definition looked : CatalogSnapshot := snapshot (catalog_state c1).
Definition c2 := match search_with looked "issues" c1 with Some (c, _) => c | None => c1 end.

Lemma session_built0 : session (fun _ => false) id ∅ ∅ [] c0.
Proof. apply (session_built _ _ servers (with_journal [] "agent" 0%N)); vm_compute; reflexivity. Qed.
Lemma session_activated1 : session (fun _ => false) id (∅ ∪ list_to_set [lit "github"; lit "github"]) ∅ [] c1.
Proof.
  apply (session_activated _ _ ∅ ∅ [] c0 "triage" [lit "github"; lit "github"] (token [lit "mcp:github:*"]) _ 1%nat session_built0).
  apply injective_projections; [reflexivity|vm_compute; reflexivity].
Qed.
Lemma session_looked1 : session (fun _ => false) id (∅ ∪ list_to_set [lit "github"; lit "github"]) ∅ [looked] c1.
Proof. apply session_looked, session_activated1. Qed.
Definition found : list RankedMatch := match winners_of looked (terms_of (fun _ => false) id "issues") with Some ws => ws | None => [] end.
Lemma session_searched2 : session (fun _ => false) id (∅ ∪ list_to_set [lit "github"; lit "github"]) (named found ∪ ∅) [looked] c2.
Proof.
  assert (exists values, search_with looked "issues" c1 = Some (c2, Ok values)) as [values Hr].
  { unfold c2. destruct (search_with looked "issues" c1) as [[c [values|e]]|] eqn:E; [by exists values|..]; exfalso; revert E; vm_compute; discriminate. }
  assert (winners_of looked (terms_of (fun _ => false) id "issues") = Some found) as Hw.
  { unfold found. destruct (winners_of looked _) eqn:E; [done|]. exfalso. revert E. vm_compute. discriminate. }
  eapply (session_searched _ _ _ _ _ c1 looked "issues"); [apply session_looked1|by left|exact Hw|exact Hr].
Qed.
End Sample.
#[local] Existing Instances Sample.values Sample.sample_world Sample.sample_journal Sample.ops Sample.laws.


Lemma search_finds_the_best_witness :
  exists c' values, Sample.search_with Sample.looked "issues" Sample.c1 = Some (c', Ok values) /\ length values = 1%nat.
Proof.
  destruct (search_finds_the_best _ _ _ _ _ _ Sample.looked "issues" Sample.session_looked1 ltac:(by left))
    as (m0 & ranking & _ & _ & _ & _ & c' & r & E & _).
  assert (match Sample.search_with Sample.looked "issues" Sample.c1 with Some (_, Ok values) => length values | _ => 0%nat end = 1%nat) as Hl
    by (vm_compute; reflexivity).
  rewrite E in Hl. destruct r as [values|]; [exists c', values; exact (conj E Hl)|discriminate Hl].
Defined.

(** A pattern may grant the calls of a server it does not let a skill activate. *)
Example partial_name_grants_calls_only :
  capability_allows_server (Sample.token [lit "mcp:git*:*"]) "github" = false /\
  check_capability "github" "list_issues" (Sample.token [lit "mcp:git*:*"]) = Ok tt.
Proof. vm_compute. by split. Qed.

(** A module whose first instantiation fails, and would not fail again. *)
Definition sample_wasm : Sample.Manager :=
  fst (load_and_connect "mod" {| module_path := "m.wasm"; network_allowlist := []; wasm_agent_id := [] |} (with_journal [] "agent" 0%N)).
Lemma failed_module_never_returns_witness :
  snd (call_tool Sample.as_i64 dec_i32 "mod" "run" Null (Sample.token [lit "mcp:mod:*"]) sample_wasm) = Err (handshake_failed_error "mod") /\
  snd (call_tool Sample.as_i64 dec_i32 "mod" "run" Null (Sample.token [lit "mcp:mod:*"]) (set_world 1%N sample_wasm)) = Ok (Object ["result" ↦ Number 7]) /\
  snd (dispatch_with_reconnect Sample.as_i64 dec_i32 [] "mod" "run" Null sample_wasm) = Err (handshake_failed_error "mod").
Proof.
  split; [vm_compute; reflexivity|]. split; [vm_compute; reflexivity|].
  assert (exists c, connections (set_world 1%N sample_wasm) !! lit "mod" = Some c /\ configured_transport c = Some (lit "wasm") /\ was_connected c = true) as (c & Hc & Ht & Hw).
  { eexists. split; [vm_compute; reflexivity|]. by split. }
  assert (dispatch_tool_call Sample.as_i64 dec_i32 [] "mod" "run" Null sample_wasm
    = (set_world 1%N sample_wasm, Err (ConnectionFailed "wasm instantiation failed: no memory"))) as Hd by (vm_compute; reflexivity).
  pose proof (failed_module_never_returns Sample.as_i64 dec_i32 [] "mod" "run" Null c sample_wasm _ _ Hc Ht Hw Hd eq_refl) as Hf.
  destruct (dispatch_with_reconnect _ _ _ _ _ _ _) as [m' r]. by destruct Hf.
Defined.
