(* ===== verification/Tenancy.v ===== *)
(** * Identities and tenants of the server

    Models [crates/simulacra-server/src/auth.rs] and [tenant.rs], and of [server.rs] the credentials of a request
    and the check of file attachments.

    Parameters: decoding and verifying a JWT ([jsonwebtoken]) and base64.  Fetching a JWKS at startup is left
    out: a provider has a key or has none. *)

From S2P Require Import Prelude.
From S2P Require Import Text.
From S2P Require Import Json.

(** ** Identities ([auth.rs]) *)

Variant Credentials := Bearer (token : str) | ApiKey (key : str).
Variant AuthError := Unauthorized | Expired | InvalidSignature | MissingCredentials | AuthOther (message : str).
Definition auth_error_to_string (e : AuthError) : str :=
  match e with
  | Unauthorized => "unauthorized"
  | Expired => "token expired"
  | InvalidSignature => "invalid signature"
  | MissingCredentials => "missing credentials"
  | AuthOther m => "auth error: " ++ m
  end.

(** [str::splitn] with a character and [str::split_whitespace]; a piece of white space is dropped whole. *)
Fixpoint splitn (n : nat) (c : ascii) (s : str) : list str :=
  match n with
  | O => []
  | 1%nat => [s]
  | S n => match position (Ascii.eqb c) s with
           | Some i => firstn i s :: splitn n c (skipn (S i) s)
           | None => [s]
           end
  end.
Fixpoint words_loop (fuel : nat) (cur s : str) : list str :=
  let flush := match cur with [] => [] | _ => [cur] end in
  match fuel with
  | O => flush
  | S fuel =>
      match strip_one s with
      | Some s => flush ++ words_loop fuel [] s
      | None => match s with [] => flush | c :: s => words_loop fuel (cur ++ [c]) s end
      end
  end.
Definition split_whitespace (s : str) : list str := words_loop (S (length s)) [] s.

Section Auth.
Context {Value : Type} `{JsonOps Value}.

Record Identity := { subject : str; tenant_namespace : option str; scopes : list str; id_metadata : Value }.

(** A provider that authenticates. *)
Abbreviation AuthProvider := (Credentials -> result Identity AuthError).

(** *** OIDC *)

Variant JwtError := ExpiredSignature | BadSignature | OtherJwtError.
Record OidcConfig := { issuer : str; audience : str; tenant_claim : str }.

Fixpoint walk (parts : list str) (current : Value) : option Value :=
  match parts with
  | [] => Some current
  | part :: parts => value_get part current ≫= walk parts
  end.
Definition extract_claim (claims : Value) (path : str) : option str := walk (split_on "." path) claims ≫= as_str.

(** The provider of a key: what decoding with it gives, its signature, times, audience and issuer checked. *)
Definition oidc_authenticate (config : OidcConfig) (decode : option (str -> result Value JwtError)) : AuthProvider :=
  fun credentials =>
    match credentials with
    | Bearer [] => Err MissingCredentials
    | ApiKey _ => Err Unauthorized
    | Bearer token =>
        match decode with
        | None => Err (AuthOther "OIDC provider not initialized — issuer unreachable at startup")
        | Some decode =>
            let? claims := map_err (fun e => match e with
                                             | ExpiredSignature => Expired
                                             | BadSignature => InvalidSignature
                                             | OtherJwtError => Unauthorized
                                             end) (decode token) in
            let? sub := ok_or (get_str "sub" claims) Unauthorized in
            Ok {| subject := sub; tenant_namespace := extract_claim claims (tenant_claim config);
                  scopes := match get_str "scope" claims with Some s => split_whitespace s | None => [] end;
                  id_metadata := claims |}
        end
    end.

(** *** API keys *)

Record ApiKeyEntry := { entry_subject : str; entry_namespace : option str; entry_scopes : list str }.
Definition ALL_SCOPES : list str := ["tasks:create" : str; "tasks:manage" : str].

Definition read_entry (keys : gmap str ApiKeyEntry) (entry : str) : gmap str ApiKeyEntry :=
  match splitn 3 ":" (trim entry) with
  | key :: sub :: rest =>
      <[key := {| entry_subject := sub;
                  entry_namespace := match rest with [] :: _ | [] => None | ns :: _ => Some ns end;
                  entry_scopes := ALL_SCOPES |}]> keys
  | _ => keys
  end.
(** [from_env] over the text of the variable, empty when it is not set. *)
Definition keys_from_env (raw : str) : gmap str ApiKeyEntry :=
  fold_left read_entry (List.filter (fun e => negb (str_eqb e [])) (split_on "," raw)) ∅.

Definition api_key_authenticate (keys : gmap str ApiKeyEntry) : AuthProvider :=
  fun credentials =>
    match credentials with
    | ApiKey [] => Err MissingCredentials
    | Bearer _ => Err Unauthorized
    | ApiKey key =>
        let? entry := ok_or (keys !! key) Unauthorized in
        Ok {| subject := entry_subject entry; tenant_namespace := entry_namespace entry;
              scopes := entry_scopes entry; id_metadata := json_object [] |}
    end.

(** *** Several providers, and none *)

Fixpoint authenticate_any (providers : list AuthProvider) (last_err : AuthError) (credentials : Credentials)
    : result Identity AuthError :=
  match providers with
  | [] => Err last_err
  | provider :: providers =>
      match provider credentials with
      | Ok identity => Ok identity
      | Err e => authenticate_any providers e credentials
      end
  end.
Definition composite_authenticate (providers : list AuthProvider) : AuthProvider := authenticate_any providers Unauthorized.

Definition no_auth (sub ns : str) : AuthProvider :=
  fun _ => Ok {| subject := sub; tenant_namespace := Some ns; scopes := ALL_SCOPES; id_metadata := json_object [] |}.

(** The credentials of a request, from its [Authorization] header when it has a readable one. *)
Definition extract_credentials (authorization : option str) : Credentials :=
  match authorization with
  | Some value =>
      match strip_prefix "Bearer " value with
      | Some token => Bearer token
      | None => match strip_prefix "ApiKey " value with Some key => ApiKey key | None => Bearer [] end
      end
  | None => Bearer []
  end.

(** ** Tenants ([tenant.rs]) *)

Record BudgetPoolConfig := { pool_max_tokens : N; pool_max_cost : str }.
Definition budget_pool_value (p : BudgetPoolConfig) : Value :=
  json_object ["max_tokens" ↦ json_number (pool_max_tokens p); "max_cost" ↦ json_string (pool_max_cost p)].

Record TenantConfig := {
  namespace : str;
  default_agent_type : str;
  vfs_root : str;
  budget_pool : BudgetPoolConfig;
  hooks : list str;
  tenant_integrations : list str;
  mcp_servers : list str;
}.

Definition validate_tenant (t : TenantConfig) : result unit str :=
  if str_eqb (default_agent_type t) [] then Err ("tenant '" ++ namespace t ++ "': agent_type is required")
  else if str_eqb (vfs_root t) [] then Err ("tenant '" ++ namespace t ++ "': vfs_root is required")
  else Ok tt.

Variant TenantError := TenantNotFound | Forbidden.
Definition tenant_error_to_string (e : TenantError) : str :=
  match e with
  | TenantNotFound => "tenant not found"
  | Forbidden => "tenant forbidden — no tenant resolved for identity"
  end.

Record TenantResolver := { tenants : gmap str TenantConfig; default_tenant : option str }.

Definition resolve (r : TenantResolver) (identity : Identity) : result TenantConfig TenantError :=
  match tenant_namespace identity with
  | Some ns => ok_or (tenants r !! ns) Forbidden
  | None =>
      match default_tenant r with
      | Some default_name => ok_or (tenants r !! default_name) TenantNotFound
      | None => Err Forbidden
      end
  end.

(** What [validate_all] complains about, in some order. *)
Definition validate_all (r : TenantResolver) : list str :=
  omap (fun '(_, t) => match validate_tenant t with Err e => Some e | Ok _ => None end) (map_to_list (tenants r)).
End Auth.
Arguments Identity Value : clear implicits.

(** ** Attachments ([server.rs]) *)

Record FileAttachment := { file_data : str; file_encoding : option str }.
Definition MAX_SINGLE_ATTACHMENT_BYTES : N := 10 * 1024 * 1024.
Definition MAX_TOTAL_ATTACHMENT_BYTES : N := 50 * 1024 * 1024.
Definition BAD_REQUEST : N := 400.
Definition PAYLOAD_TOO_LARGE : N := 413.

Section Attachments.
Context (base64_decode : str -> result bytes str).

Definition decode_attachment (filename : str) (a : FileAttachment) : result bytes (N * str) :=
  match file_encoding a with
  | None => Ok (file_data a)
  | Some encoding =>
      if str_eqb encoding "utf8" then Ok (file_data a)
      else if str_eqb encoding "base64" then
        map_err (fun e => (BAD_REQUEST, "invalid base64 in '" ++ filename ++ "': " ++ e)) (base64_decode (file_data a))
      else Err (BAD_REQUEST, "invalid encoding '" ++ encoding ++ "' for '" ++ filename ++
                             "': only 'utf8' and 'base64' are supported")
  end.

(** One file; [total] is the bytes of the files before it. *)
Definition check_attachment (total : N) (filename : str) (a : FileAttachment) : result bytes (N * str) :=
  if str_eqb filename [] then Err (BAD_REQUEST, lit "invalid filename: empty string")
  else if starts_with "/" filename then Err (BAD_REQUEST, "invalid filename: absolute path '" ++ filename ++ "'")
  else if existsb (fun component => str_eqb component "..") (split_on "/" filename) then
    Err (BAD_REQUEST, "invalid filename: parent traversal in '" ++ filename ++ "'")
  else
    let? data := decode_attachment filename a in
    let n := N.of_nat (length data) in
    if (MAX_SINGLE_ATTACHMENT_BYTES <? n)%N then
      Err (PAYLOAD_TOO_LARGE, "file '" ++ filename ++ "' is " ++ dec n ++ " bytes, exceeds 10 MiB limit")
    else if (MAX_TOTAL_ATTACHMENT_BYTES <? total + n)%N then
      Err (PAYLOAD_TOO_LARGE, lit "total attachment size exceeds 50 MiB limit")
    else Ok data.

(** [validate_attachments], over the files in the order of the map. *)
Fixpoint attachments_loop (total : N) (files : list (str * FileAttachment)) : result (list (str * bytes)) (N * str) :=
  match files with
  | [] => Ok []
  | (filename, a) :: files =>
      let? data := check_attachment total filename a in
      let? rest := attachments_loop (total + N.of_nat (length data)) files in
      Ok ((filename, data) :: rest)
  end.
Definition validate_attachments (files : list (str * FileAttachment)) : result (list (str * bytes)) (N * str) :=
  attachments_loop 0 files.
End Attachments.
