(* ===== verification/Tasks.v ===== *)
(** * Tasks of the server

    Models [crates/simulacra-server/src/task.rs]: the life of a task, its event channel, the manager of all
    tasks and the eviction of those that have ended.

    A handle of the manager is its state.  A step is what a method does under the manager's lock: most methods
    hold it for all of their body; cancelling takes it twice, to signal the task's token and then to move the
    task, and what cancels several tasks takes it again for each.  The two halves of a cancellation are
    operations of their own ([OpSignal], [OpCancelMove]), so a history has them in any interleaving with the
    others; [OpCancel], [OpCancelConnection] and [OpCancelAll] are the calls that nothing comes in between of.
    [now] is the reading of the clock a method makes.  Fresh ids, the channels to a waiting agent loop
    ([try_send] gives [None] when they are closed or full) and cancellation tokens are parameters.  The channel
    of events holds [EVENT_CHANNEL_CAPACITY] of them for a receiver; what a slow one loses is the business of
    [TaskEvents].
    Spans and the histogram of durations are left out; the gauge of active tasks is kept. *)

From S2P Require Import Prelude.
From S2P Require Import Text.
From S2P Require Import Json.
From S2P Require Import Tenancy.

(** ** The states of a task *)

Variant TaskState := Pending | Running | Streaming | WaitingInput | WaitingApproval | Paused | Completed | Failed | Killed | Cancelled.
#[export] Instance TaskState_eq_dec : EqDecision TaskState.
Proof. solve_decision. Defined.

Definition is_terminal (s : TaskState) : bool :=
  match s with Completed | Failed | Killed | Cancelled => true | _ => false end.

Definition task_state_to_string (s : TaskState) : str :=
  match s with
  | Pending => "pending"
  | Running => "running"
  | Streaming => "streaming"
  | WaitingInput => "waiting_input"
  | WaitingApproval => "waiting_approval"
  | Paused => "paused"
  | Completed => "completed"
  | Failed => "failed"
  | Killed => "killed"
  | Cancelled => "cancelled"
  end.

(** The errors the code raises; [LockPoisoned] needs a panic and [ApprovalDenied] and [NotImplemented] are not raised. *)
Variant TaskManagerError :=
| TaskNotFound (task_id : str)
| TerminalState (task_id : str) (state : TaskState)
| InvalidTransition (task_id : str) (from to : TaskState)
| SubscribeFailed (task_id : str)
| ResponseChannelUnavailable (task_id op : str)
| ResponseChannelClosed (task_id op : str)
| ApprovalToolCallMismatch (expected received : str).

Definition task_manager_error_to_string (e : TaskManagerError) : str :=
  match e with
  | TaskNotFound id => "task '" ++ id ++ "' not found"
  | TerminalState id s => "task '" ++ id ++ "' is in terminal state '" ++ task_state_to_string s ++ "' — no transitions allowed"
  | InvalidTransition id from to =>
      "task '" ++ id ++ "' cannot transition from '" ++ task_state_to_string from ++ "' to '" ++ task_state_to_string to ++ "'"
  | SubscribeFailed id => "subscribe failed: task '" ++ id ++ "' not found"
  | ResponseChannelUnavailable id op => op ++ " response channel is not available for task '" ++ id ++ "'"
  | ResponseChannelClosed id op => op ++ " response channel is closed for task '" ++ id ++ "'"
  | ApprovalToolCallMismatch expected received =>
      "approval response for tool call '" ++ received ++ "' does not match pending tool call '" ++ expected ++ "'"
  end.

Definition two64 : N := 2 ^ 64.
Definition next_seq (n : N) : N := (n + 1) mod two64.

Section Tasks.
Context {Value InputTx ApprovalTx : Type} `{JsonOps Value}.

Record ToolApprovalResponse := { response_tool_call_id : str; approved : bool; response_reason : option str }.

Context (send_input : InputTx -> str -> option InputTx) (send_approval : ApprovalTx -> ToolApprovalResponse -> option ApprovalTx).

(** ** The event channel of a task

    [tx] is what was broadcast; a receiver starts behind all of it.  The ring keeps the last events only: a
    receiver that falls further behind loses the oldest ([TaskEvents.receives]). *)
Record TaskEventChannel := { tx : list Value; log : list Value }.
Definition channel_new : TaskEventChannel := {| tx := []; log := [] |}.
Definition channel_send (event : Value) (c : TaskEventChannel) : TaskEventChannel :=
  {| tx := tx c ++ [event]; log := log c ++ [event] |}.
Definition subscribe_with_history (c : TaskEventChannel) : list Value * nat := (log c, length (tx c)).
(** What was broadcast after a receiver was made; [receives] says what the receiver gets of it. *)
Definition sent_since (position : nat) (c : TaskEventChannel) : list Value := skipn position (tx c).
(** The size of a task's ring. *)
Definition EVENT_CHANNEL_CAPACITY : nat := 64.

(** ** The record of a task *)

Record TaskHandle := {
  task_id : str;
  state : TaskState;
  metadata : Value;
  description : str;
  agent_type : str;
  tenant : str;
  seq : N;
  connection_id : option str;
}.
Record TaskRecord := {
  handle : TaskHandle;
  input_tx : option InputTx;
  approval_tx : option ApprovalTx;
  pending_approval_tool_call_id : option str;
  event_tx : TaskEventChannel;
  cancellation_token : option N;
  running_since : option N;
  terminated_at : option N;
}.

Definition set_state (s : TaskState) (r : TaskRecord) : TaskRecord :=
  let h := handle r in
  {| handle := {| task_id := task_id h; state := s; metadata := metadata h; description := description h; agent_type := agent_type h;
                  tenant := tenant h; seq := seq h; connection_id := connection_id h |};
     input_tx := input_tx r; approval_tx := approval_tx r; pending_approval_tool_call_id := pending_approval_tool_call_id r;
     event_tx := event_tx r; cancellation_token := cancellation_token r; running_since := running_since r; terminated_at := terminated_at r |}.
Definition set_seq (n : N) (r : TaskRecord) : TaskRecord :=
  let h := handle r in
  {| handle := {| task_id := task_id h; state := state h; metadata := metadata h; description := description h; agent_type := agent_type h;
                  tenant := tenant h; seq := n; connection_id := connection_id h |};
     input_tx := input_tx r; approval_tx := approval_tx r; pending_approval_tool_call_id := pending_approval_tool_call_id r;
     event_tx := event_tx r; cancellation_token := cancellation_token r; running_since := running_since r; terminated_at := terminated_at r |}.
Definition set_senders (i : option InputTx) (a : option ApprovalTx) (r : TaskRecord) : TaskRecord :=
  {| handle := handle r; input_tx := i; approval_tx := a; pending_approval_tool_call_id := pending_approval_tool_call_id r;
     event_tx := event_tx r; cancellation_token := cancellation_token r; running_since := running_since r; terminated_at := terminated_at r |}.
Definition set_pending_approval (p : option str) (r : TaskRecord) : TaskRecord :=
  {| handle := handle r; input_tx := input_tx r; approval_tx := approval_tx r; pending_approval_tool_call_id := p;
     event_tx := event_tx r; cancellation_token := cancellation_token r; running_since := running_since r; terminated_at := terminated_at r |}.
Definition set_token (t : option N) (r : TaskRecord) : TaskRecord :=
  {| handle := handle r; input_tx := input_tx r; approval_tx := approval_tx r; pending_approval_tool_call_id := pending_approval_tool_call_id r;
     event_tx := event_tx r; cancellation_token := t; running_since := running_since r; terminated_at := terminated_at r |}.
Definition set_times (since ended : option N) (r : TaskRecord) : TaskRecord :=
  {| handle := handle r; input_tx := input_tx r; approval_tx := approval_tx r; pending_approval_tool_call_id := pending_approval_tool_call_id r;
     event_tx := event_tx r; cancellation_token := cancellation_token r; running_since := since; terminated_at := ended |}.
Definition emit (event : Value) (r : TaskRecord) : TaskRecord :=
  {| handle := handle r; input_tx := input_tx r; approval_tx := approval_tx r; pending_approval_tool_call_id := pending_approval_tool_call_id r;
     event_tx := channel_send event (event_tx r); cancellation_token := cancellation_token r; running_since := running_since r;
     terminated_at := terminated_at r |}.

(** ** The manager *)

Record TaskManager := {
  tasks : gmap str TaskRecord;
  grace_period : N;
  active_tasks : gmap str Z;      (* the gauge, by tenant *)
  cancelled : gset N;             (* the tokens signalled *)
}.
Definition manager_new (grace : N) : TaskManager := {| tasks := ∅; grace_period := grace; active_tasks := ∅; cancelled := ∅ |}.
Definition set_tasks (t : gmap str TaskRecord) (m : TaskManager) : TaskManager :=
  {| tasks := t; grace_period := grace_period m; active_tasks := active_tasks m; cancelled := cancelled m |}.
Definition gauge (m : TaskManager) (t : str) : Z := default 0%Z (active_tasks m !! t).
Definition add_active_tasks (t : str) (n : Z) (m : TaskManager) : TaskManager :=
  {| tasks := tasks m; grace_period := grace_period m; active_tasks := <[t := (gauge m t + n)%Z]> (active_tasks m); cancelled := cancelled m |}.
Definition signal (token : N) (m : TaskManager) : TaskManager :=
  {| tasks := tasks m; grace_period := grace_period m; active_tasks := active_tasks m; cancelled := {[token]} ∪ cancelled m |}.

Abbreviation M := (SE TaskManager TaskManagerError).

Definition state_changed (id : str) (from to : TaskState) (n : N) (reason : option str) : Value :=
  json_object (["event" ↦ json_string "task.state_changed"; "task_id" ↦ json_string id;
                "from" ↦ json_string (task_state_to_string from); "to" ↦ json_string (task_state_to_string to);
                "seq" ↦ json_number n]
    ++ match reason with Some r => ["reason" ↦ json_string r] | None => [] end).

(** *** Creation *)

Definition full_metadata (t : TenantConfig) (meta : Value) : Value := set_field "budget_pool" (budget_pool_value (budget_pool t)) meta.

Definition pending_record (id : str) (t : TenantConfig) (task : str) (agent : option str) (meta : Value) (connection : option str) : TaskRecord :=
  {| handle := {| task_id := id; state := Pending; metadata := full_metadata t meta; description := task;
                  agent_type := unwrap_or agent (default_agent_type t); tenant := namespace t; seq := 0; connection_id := connection |};
     input_tx := None; approval_tx := None; pending_approval_tool_call_id := None; event_tx := channel_new;
     cancellation_token := None; running_since := None; terminated_at := None |}.

(** [id] is the fresh id. *)
Definition create_task (id : str) (t : TenantConfig) (task : str) (agent : option str) (meta : Value) (connection : option str) (now : N)
    : M TaskHandle := fun m =>
  let m := add_active_tasks (namespace t) 1 m in
  let r := set_times (Some now) None (set_state Running (pending_record id t task agent meta connection)) in
  let r := emit (state_changed id Pending Running 1 None) (set_seq 1 r) in
  (set_tasks (<[id := r]> (tasks m)) m, Ok (handle r)).

Definition create_pending_task (id : str) (t : TenantConfig) (task : str) (agent : option str) (meta : Value) (connection : option str)
    : M TaskHandle := fun m =>
  let r := pending_record id t task agent meta connection in
  (set_tasks (<[id := r]> (tasks m)) m, Ok (handle r)).

(** *** Transitions *)

Abbreviation change := (TaskRecord -> result (TaskRecord * TaskState) TaskManagerError).

(** The part of a transition after [f]. *)
Definition announce (id : str) (reason : option str) (prev next : TaskState) (now : N) (r : TaskRecord) (m : TaskManager)
    : TaskManager :=
  let r := set_seq (next_seq (seq (handle r))) r in
  let r := emit (state_changed id prev next (seq (handle r)) reason) r in
  let '(r, m) :=
    if bool_decide (next = Running) && bool_decide (running_since r = None)
    then (set_times (Some now) (terminated_at r) r, add_active_tasks (tenant (handle r)) 1 m) else (r, m) in
  let '(r, m) :=
    if is_terminal next then
      (set_times (running_since r) (match terminated_at r with Some t => Some t | None => Some now end) r,
       match running_since r with Some _ => add_active_tasks (tenant (handle r)) (-1) m | None => m end)
    else (r, m) in
  set_tasks (<[id := r]> (tasks m)) m.

Definition transition_with_reason (id : str) (reason : option str) (now : N) (f : change) : M TaskState := fun m =>
  match tasks m !! id with
  | None => (m, Err (TaskNotFound id))
  | Some r =>
      match f r with
      | Err e => (m, Err e)
      | Ok (r', next) => (announce id reason (state (handle r)) next now r' m, Ok next)
      end
  end.
Definition transition_with (id : str) : N -> change -> M TaskState := transition_with_reason id None.
Definition transition (id : str) (now : N) (validator : TaskState -> result TaskState TaskManagerError) : M TaskState :=
  transition_with id now (fun r => let? next := validator (state (handle r)) in Ok (set_state next r, next)).

Definition start_task (id : str) (now : N) : M TaskState :=
  transition id now (fun s => match s with Pending => Ok Running | other => Err (InvalidTransition id other Running) end).

(** [cancel_task] holds the lock twice: for the token, and for the transition. *)
Definition signal_cancel (id : str) (m : TaskManager) : TaskManager :=
  match tasks m !! id ≫= cancellation_token with Some t => signal t m | None => m end.
Definition move_to_cancelled (id : str) (now : N) : M TaskState :=
  transition id now (fun s => if is_terminal s then Err (TerminalState id s) else Ok Cancelled).
Definition cancel_task (id : str) (now : N) : M TaskState := fun m => move_to_cancelled id now (signal_cancel id m).

Definition pause_task (id : str) (now : N) : M TaskState :=
  transition id now (fun s =>
    match s with
    | Running | Streaming => Ok Paused
    | _ => if is_terminal s then Err (TerminalState id s) else Err (InvalidTransition id s Paused)
    end).

Definition resume_task (id : str) (now : N) : M TaskState :=
  transition id now (fun s =>
    match s with
    | Paused => Ok Running
    | _ => if is_terminal s then Err (TerminalState id s) else Err (InvalidTransition id s Running)
    end).

Definition provide_input (id content : str) (now : N) : M TaskState :=
  transition_with id now (fun r =>
    let s := state (handle r) in
    if is_terminal s then Err (TerminalState id s) else
    match s with
    | WaitingInput =>
        let? tx := ok_or (input_tx r) (ResponseChannelUnavailable id "provide_input") in
        let? tx := ok_or (send_input tx content) (ResponseChannelClosed id "provide_input") in
        Ok (set_state Running (set_senders (Some tx) (approval_tx r) r), Running)
    | other => Err (InvalidTransition id other Running)
    end).

Definition respond_approval (id tool_call_id : str) (approve : bool) (reason : option str) (now : N) : M TaskState :=
  transition_with id now (fun r =>
    let s := state (handle r) in
    if is_terminal s then Err (TerminalState id s) else
    match s with
    | WaitingApproval =>
        let? _ := match pending_approval_tool_call_id r with
                  | Some expected =>
                      if str_eqb expected tool_call_id then Ok tt else Err (ApprovalToolCallMismatch expected tool_call_id)
                  | None => Ok tt
                  end in
        let? tx := ok_or (approval_tx r) (ResponseChannelUnavailable id "respond_approval") in
        let response := {| response_tool_call_id := tool_call_id; approved := approve; response_reason := reason |} in
        let? tx := ok_or (send_approval tx response) (ResponseChannelClosed id "respond_approval") in
        Ok (set_state Running (set_pending_approval None (set_senders (input_tx r) (Some tx) r)), Running)
    | other => Err (InvalidTransition id other Running)
    end).

Definition complete_task (id : str) (terminal_state : TaskState) (reason : option str) (now : N) : M unit :=
  if negb (is_terminal terminal_state) && negb (bool_decide (terminal_state = WaitingApproval)) then
    se_err (InvalidTransition id Running terminal_state)
  else
    let! _ := transition_with_reason id reason now (fun r =>
                if is_terminal (state (handle r)) then Err (TerminalState id (state (handle r)))
                else Ok (set_state terminal_state r, terminal_state)) in
    se_ret tt.

Definition request_input (id : str) (now : N) : M TaskState :=
  transition_with id now (fun r =>
    match state (handle r) with
    | Running | Streaming => Ok (set_state WaitingInput r, WaitingInput)
    | other => Err (InvalidTransition id other WaitingInput)
    end).

Definition request_approval_for (id : str) (tool_call_id : option str) (now : N) : M TaskState :=
  transition_with id now (fun r =>
    match state (handle r) with
    | Running | Streaming => Ok (set_state WaitingApproval (set_pending_approval tool_call_id r), WaitingApproval)
    | other => Err (InvalidTransition id other WaitingApproval)
    end).
Definition request_approval (id : str) : N -> M TaskState := request_approval_for id None.

(** *** Events, senders and queries *)

Definition on_record (id : str) (f : TaskRecord -> TaskRecord) : M unit := fun m =>
  match tasks m !! id with
  | None => (m, Err (TaskNotFound id))
  | Some r => (set_tasks (<[id := f r]> (tasks m)) m, Ok tt)
  end.

(** [None]: the panic of [event["seq"] = _] on a value that is neither an object nor null. *)
Definition emit_event (id : str) (event : Value) (m : TaskManager) : option (TaskManager * result N TaskManagerError) :=
  match tasks m !! id with
  | None => Some (m, Err (TaskNotFound id))
  | Some r =>
      let r := set_seq (next_seq (seq (handle r))) r in
      event ← index_set "seq" (json_number (seq (handle r))) event;
      Some (set_tasks (<[id := emit event r]> (tasks m)) m, Ok (seq (handle r)))
  end.

Definition get_task (id : str) (m : TaskManager) : result TaskHandle TaskManagerError := ok_or (option_map handle (tasks m !! id)) (TaskNotFound id).
Definition subscribe_task (id : str) (m : TaskManager) : result (list Value * nat) TaskManagerError :=
  ok_or (option_map (fun r => subscribe_with_history (event_tx r)) (tasks m !! id)) (SubscribeFailed id).
(** Whoever holds the channel of a task ([get_event_sender]) sends on it without the manager. *)
Definition send_on_channel (id : str) (event : Value) : M unit := on_record id (emit event).
Definition set_cancellation_token (id : str) (token : N) : M unit := on_record id (set_token (Some token)).
Definition set_hitl_senders (id : str) (i : InputTx) (a : ApprovalTx) : M unit := on_record id (set_senders (Some i) (Some a)).

(** The ids that [p] holds of, in some order. *)
Definition ids_of (p : TaskRecord -> bool) (m : TaskManager) : list str :=
  omap (fun '(_, r) => if p r then Some (task_id (handle r)) else None) (map_to_list (tasks m)).
Definition active_task_ids : TaskManager -> list str := ids_of (fun r => negb (is_terminal (state (handle r)))).
Definition cancel_each (ids : list str) (now : N) (m : TaskManager) : TaskManager :=
  fold_left (fun m id => fst (cancel_task id now m)) ids m.
Definition cancel_connection_tasks (conn_id : str) (now : N) (m : TaskManager) : TaskManager * list str :=
  let ids := ids_of (fun r => negb (is_terminal (state (handle r))) && bool_decide (connection_id (handle r) = Some conn_id)) m in
  (cancel_each ids now m, ids).
Definition cancel_all_active (now : N) (m : TaskManager) : TaskManager * list str :=
  let ids := active_task_ids m in (cancel_each ids now m, ids).

(** *** Eviction *)

Definition is_expired (grace now : N) (r : TaskRecord) : bool :=
  match terminated_at r with
  | Some t => is_terminal (state (handle r)) && (grace <=? now - t)%N
  | None => false
  end.
Definition cleanup_expired (now : N) (m : TaskManager) : TaskManager :=
  set_tasks (filter (fun '(_, r) => is_expired (grace_period m) now r = false) (tasks m)) m.

(** ** The life of a task *)

Variant TaskOp :=
| OpCreate (id : str) (t : TenantConfig) (task : str) (agent : option str) (meta : Value) (connection : option str)
| OpCreatePending (id : str) (t : TenantConfig) (task : str) (agent : option str) (meta : Value) (connection : option str)
| OpStart (id : str)
| OpCancel (id : str)
| OpSignal (id : str)
| OpCancelMove (id : str)
| OpPause (id : str)
| OpResume (id : str)
| OpInput (id content : str)
| OpApproval (id tool_call_id : str) (approve : bool) (reason : option str)
| OpComplete (id : str) (terminal_state : TaskState) (reason : option str)
| OpRequestInput (id : str)
| OpRequestApproval (id : str) (tool_call_id : option str)
| OpEmit (id : str) (event : Value)
| OpSend (id : str) (event : Value)
| OpToken (id : str) (token : N)
| OpSenders (id : str) (i : InputTx) (a : ApprovalTx)
| OpCancelConnection (conn_id : str)
| OpCancelAll
| OpCleanup.

(** [None]: the call panics. *)
Definition task_run (now : N) (op : TaskOp) (m : TaskManager) : option TaskManager :=
  match op with
  | OpCreate id t task agent meta connection => Some (fst (create_task id t task agent meta connection now m))
  | OpCreatePending id t task agent meta connection => Some (fst (create_pending_task id t task agent meta connection m))
  | OpStart id => Some (fst (start_task id now m))
  | OpCancel id => Some (fst (cancel_task id now m))
  | OpSignal id => Some (signal_cancel id m)
  | OpCancelMove id => Some (fst (move_to_cancelled id now m))
  | OpPause id => Some (fst (pause_task id now m))
  | OpResume id => Some (fst (resume_task id now m))
  | OpInput id content => Some (fst (provide_input id content now m))
  | OpApproval id tc approve reason => Some (fst (respond_approval id tc approve reason now m))
  | OpComplete id s reason => Some (fst (complete_task id s reason now m))
  | OpRequestInput id => Some (fst (request_input id now m))
  | OpRequestApproval id tc => Some (fst (request_approval_for id tc now m))
  | OpEmit id event => option_map fst (emit_event id event m)
  | OpSend id event => Some (fst (send_on_channel id event m))
  | OpToken id token => Some (fst (set_cancellation_token id token m))
  | OpSenders id i a => Some (fst (set_hitl_senders id i a m))
  | OpCancelConnection c => Some (fst (cancel_connection_tasks c now m))
  | OpCancelAll => Some (fst (cancel_all_active now m))
  | OpCleanup => Some (cleanup_expired now m)
  end.
Fixpoint task_history (ops : list (N * TaskOp)) (m : TaskManager) : option TaskManager :=
  match ops with
  | [] => Some m
  | (now, op) :: ops => task_run now op m ≫= task_history ops
  end.
Definition created_id (op : N * TaskOp) : option str :=
  match snd op with OpCreate id _ _ _ _ _ | OpCreatePending id _ _ _ _ _ => Some id | _ => None end.

(** The transitions there are. *)
Definition edge (from to : TaskState) : bool :=
  negb (is_terminal from) &&
  match to with
  | Completed | Failed | Killed | Cancelled | WaitingApproval => true
  | Running => bool_decide (from ∈ [Pending; Paused; WaitingInput; WaitingApproval])
  | Paused | WaitingInput => bool_decide (from ∈ [Running; Streaming])
  | Pending | Streaming => false
  end.

Record Move := { move_from : TaskState; move_to : TaskState; move_seq : N; move_reason : option str }.
Definition move_event (id : str) (v : Move) : Value := state_changed id (move_from v) (move_to v) (move_seq v) (move_reason v).
(** Moves from one state to another, each along an edge. *)
Inductive moves : TaskState -> list Move -> TaskState -> Prop :=
| moves_none s : moves s [] s
| moves_more s path v : moves s path (move_from v) -> edge (move_from v) (move_to v) = true -> moves s (path ++ [v]) (move_to v).

(** What is in a log: a transition, or an event that someone else sent. *)
Variant LogItem := MovedItem (v : Move) | SentItem (event : Value).
Definition item_event (id : str) (i : LogItem) : Value := match i with MovedItem v => move_event id v | SentItem e => e end.
Definition item_move (i : LogItem) : option Move := match i with MovedItem v => Some v | SentItem _ => None end.

(** What a record says of the task's life; [Q] is what is known of the events others send. *)
Definition life (Q : Value -> Prop) (id : str) (r : TaskRecord) : Prop :=
  task_id (handle r) = id /\ log (event_tx r) = tx (event_tx r) /\
  (is_Some (terminated_at r) <-> is_terminal (state (handle r)) = true) /\
  exists items, let path := omap item_move items in
    moves Pending path (state (handle r)) /\
    log (event_tx r) = List.map (item_event id) items /\
    Forall (fun i => match i with SentItem e => Q e | MovedItem _ => True end) items /\
    (is_Some (running_since r) <-> Running ∈ List.map move_to path) /\
    (N.of_nat (length (log (event_tx r))) < two64 ->
       StronglySorted N.lt (List.map move_seq path) /\ Forall (fun v => move_seq v <= seq (handle r)) path /\
       seq (handle r) <= N.of_nat (length (log (event_tx r))))%N.

(** The events an operation sends are [Q]. *)
Definition sends (Q : Value -> Prop) (op : N * TaskOp) : Prop :=
  match snd op with
  | OpSend _ event => Q event
  | OpEmit _ event => forall n v, index_set (lit "seq") (json_number n) event = Some v -> Q v
  | _ => True
  end.
Definition any_event (_ : Value) : Prop := True.

(** A task that counts in the gauge of its tenant. *)
Definition counted (t : str) (r : TaskRecord) : bool :=
  str_eqb (tenant (handle r)) t && negb (bool_decide (running_since r = None)) && negb (is_terminal (state (handle r))).
Definition count_active (t : str) (ts : gmap str TaskRecord) : nat := size (filter (fun '(_, r) => counted t r = true) ts).

(** ** Steps of the manager *)

Section Steps.
Context (Q : Value -> Prop).

(** A record apart from what a transition changes. *)
Definition same_life (r r' : TaskRecord) : Prop :=
  task_id (handle r') = task_id (handle r) /\ tenant (handle r') = tenant (handle r) /\ seq (handle r') = seq (handle r) /\
  event_tx r' = event_tx r /\ running_since r' = running_since r /\ terminated_at r' = terminated_at r.

(** [new] is the id a call may create. *)
Inductive mstep (new : option str) : TaskManager -> TaskManager -> Prop :=
| step_pending id t task agent meta connection m :
    tasks m !! id = None -> new = Some id ->
    mstep new m (set_tasks (<[id := pending_record id t task agent meta connection]> (tasks m)) m)
| step_move id r r' next reason now m :
    tasks m !! id = Some r -> same_life r r' -> state (handle r') = next -> edge (state (handle r)) next = true ->
    mstep new m (announce id reason (state (handle r)) next now r' m)
| step_touch id r r' m :
    tasks m !! id = Some r -> same_life r r' -> state (handle r') = state (handle r) ->
    mstep new m (set_tasks (<[id := r']> (tasks m)) m)
| step_event id r r' event m :
    tasks m !! id = Some r -> r' = r \/ r' = set_seq (next_seq (seq (handle r))) r -> Q event ->
    mstep new m (set_tasks (<[id := emit event r']> (tasks m)) m)
| step_signal token m : mstep new m (signal token m)
| step_cleanup now m : mstep new m (cleanup_expired now m).
Abbreviation msteps new := (rtc (mstep new)).

Lemma same_life_refl r : same_life r r.
Proof. done. Qed.
Lemma same_life_state s r r' : same_life r r' -> same_life r (set_state s r').
Proof. done. Qed.

Lemma transition_steps new id reason now f m :
  (forall r r' next, f r = Ok (r', next) -> same_life r r' /\ state (handle r') = next /\ edge (state (handle r)) next = true) ->
  msteps new m (fst (transition_with_reason id reason now f m)).
Proof.
  intros Hf. unfold transition_with_reason. destruct (tasks m !! id) as [r|] eqn:E; [|apply rtc_refl].
  destruct (f r) as [[r' next]|e] eqn:Ef; [|apply rtc_refl]. apply Hf in Ef as (Hs & Hn & He).
  apply rtc_once. by eapply step_move.
Qed.

Lemma validated_steps new id now v m :
  (forall s next, v s = Ok next -> edge s next = true) -> msteps new m (fst (transition id now v m)).
Proof.
  intros Hv. apply transition_steps. intros r r' next E. destruct (v _) as [n|] eqn:Ev; [|done].
  cbn in E. simplify_eq. split_and!; [done|done|by apply Hv].
Qed.

Lemma signal_steps new id m : msteps new m (signal_cancel id m).
Proof. unfold signal_cancel. destruct (_ ≫= _); [apply rtc_once, step_signal|apply rtc_refl]. Qed.

Lemma cancel_move_steps new id now m : msteps new m (fst (move_to_cancelled id now m)).
Proof. apply validated_steps. intros s next; destruct s; intros [= <-]; done. Qed.

Lemma cancel_steps new id now m : msteps new m (fst (cancel_task id now m)).
Proof. unfold cancel_task. etrans; [apply signal_steps|apply cancel_move_steps]. Qed.

Lemma cancel_each_steps new ids now m : msteps new m (cancel_each ids now m).
Proof.
  revert m. induction ids as [|id ids IH]; intros m; [apply rtc_refl|]. cbn. etrans; [apply cancel_steps|]. apply IH.
Qed.

Lemma on_record_steps new id f m :
  (forall r, same_life r (f r) /\ state (handle (f r)) = state (handle r)) -> msteps new m (fst (on_record id f m)).
Proof.
  intros Hf. unfold on_record. destruct (tasks m !! id) as [r|] eqn:E; [|apply rtc_refl].
  destruct (Hf r). apply rtc_once. by eapply step_touch.
Qed.

(** A task created running is one created pending that then starts. *)
Lemma create_starts id t task agent meta connection now m :
  fst (create_task id t task agent meta connection now m) =
  announce id None Pending Running now (set_state Running (pending_record id t task agent meta connection))
    (set_tasks (<[id := pending_record id t task agent meta connection]> (tasks m)) m).
Proof.
  unfold create_task, announce. cbn [fst]. rewrite !bool_decide_true by done. cbn [andb is_terminal].
  unfold set_tasks, add_active_tasks. cbn. f_equal. by rewrite insert_insert_eq.
Qed.

(** Every call is made of steps; creating a task needs an id that is not in use. *)
Lemma run_steps now op m m' :
  task_run now op m = Some m' -> (forall id, created_id (now, op) = Some id -> tasks m !! id = None) -> sends Q (now, op) ->
  msteps (created_id (now, op)) m m'.
Proof.
  destruct op; cbn [task_run created_id snd]; try (intros E%(inj Some) Hf Hq; subst m').
  - rewrite create_starts. eapply rtc_l; [by apply step_pending; [apply Hf|]|]. apply rtc_once.
    apply (step_move _ id (pending_record id t task agent meta connection)); [cbn; apply lookup_insert_eq|done..].
  - apply rtc_once, step_pending; [by apply Hf|done].
  - apply validated_steps. intros s next; destruct s; intros [= <-]; done.
  - apply cancel_steps.
  - apply signal_steps.
  - apply cancel_move_steps.
  - apply validated_steps. intros s next; destruct s; intros [= <-]; done.
  - apply validated_steps. intros s next; destruct s; intros [= <-]; done.
  - apply transition_steps. intros r r' next. cbv zeta. destruct (state (handle r)) eqn:Es; cbn [is_terminal]; try done.
    destruct (input_tx r) as [tx0|]; [|done]. cbn. destruct (send_input _ _); [|done]. cbn. intros [= <- <-].
    done.
  - apply transition_steps. intros r r' next. cbv zeta. destruct (state (handle r)) eqn:Es; cbn [is_terminal]; try done.
    destruct (match pending_approval_tool_call_id r with Some _ => _ | None => _ end); [|done]. cbn.
    destruct (approval_tx r) as [tx0|]; [|done]. cbn. destruct (send_approval _ _); [|done]. cbn. intros [= <- <-].
    done.
  - unfold complete_task. destruct (negb (is_terminal terminal_state) && _) eqn:Et; [apply rtc_refl|].
    unfold se_bind. pose proof (transition_steps None id reason now (fun r =>
      if is_terminal (state (handle r)) then Err (TerminalState id (state (handle r))) else Ok (set_state terminal_state r, terminal_state)) m) as Hs.
    destruct (transition_with_reason _ _ _ _ _) as [m1 []]; apply Hs; intros r r' next; destruct (is_terminal (state _)) eqn:Er; try done;
      intros [= <- <-]; (split_and!; [done..|]); unfold edge; rewrite Er; destruct terminal_state; done.
  - apply transition_steps. intros r r' next. destruct (state (handle r)) eqn:Es; intros [= <- <-]; done.
  - apply transition_steps. intros r r' next. destruct (state (handle r)) eqn:Es; intros [= <- <-]; done.
  - unfold emit_event. intros E _ Hq. destruct (tasks m !! id) as [r|] eqn:Er; [|simplify_eq/=; apply rtc_refl].
    destruct (index_set _ _ _) as [v|] eqn:Ev; [|done]. simplify_eq/=. apply rtc_once.
    eapply step_event; [done|by right|by eapply Hq].
  - unfold send_on_channel, on_record. destruct (tasks m !! id) as [r|] eqn:Er; [|apply rtc_refl].
    apply rtc_once. eapply step_event; [done|by left|done].
  - by apply on_record_steps.
  - by apply on_record_steps.
  - apply cancel_each_steps.
  - apply cancel_each_steps.
  - apply rtc_once, step_cleanup.
Qed.

(** ** The invariant *)

Lemma count_fresh (t id : str) (r : TaskRecord) (ts : gmap str TaskRecord) :
  ts !! id = None -> count_active t (<[id := r]> ts) = (count_active t ts + Nat.b2n (counted t r))%nat.
Proof.
  intros E. unfold count_active. destruct (counted t r) eqn:Ec.
  - rewrite map_filter_insert_True by done. rewrite map_size_insert_None; [cbn; lia|]. apply map_lookup_filter_None. by left.
  - rewrite map_filter_insert_False by (by rewrite Ec). rewrite delete_id by done. cbn. lia.
Qed.
Lemma count_update (t id : str) (r0 r : TaskRecord) (ts : gmap str TaskRecord) :
  ts !! id = Some r0 ->
  (count_active t (<[id := r]> ts) + Nat.b2n (counted t r0) = count_active t ts + Nat.b2n (counted t r))%nat.
Proof.
  intros E. rewrite <- insert_delete_eq, count_fresh by apply lookup_delete_eq.
  rewrite <- (insert_id ts id r0 E) at 2. rewrite <- insert_delete_eq, count_fresh by apply lookup_delete_eq. lia.
Qed.

Definition managed (m : TaskManager) : Prop :=
  (forall id r, tasks m !! id = Some r -> life Q id r) /\
  forall t, gauge m t = Z.of_nat (count_active t (tasks m)).

Lemma gauge_add t t' n m : gauge (add_active_tasks t n m) t' = (gauge m t' + (if decide (t = t') then n else 0))%Z.
Proof.
  unfold gauge, add_active_tasks. cbn. destruct (decide (t = t')) as [->|Hn]; [by rewrite lookup_insert_eq|].
  rewrite lookup_insert_ne by done. lia.
Qed.
Lemma counted_tenant t r : counted t r = true -> tenant (handle r) = t.
Proof. unfold counted. intros. by bools. Qed.

Lemma managed_new grace : managed (manager_new grace).
Proof. split; [done|]. intros t. cbn. unfold count_active. cbn. by rewrite map_filter_empty, map_size_empty. Qed.

Lemma life_pending id t task agent meta connection : life Q id (pending_record id t task agent meta connection).
Proof.
  split_and!; [done|done|by split; [intros []|]|]. exists []. split_and!; [constructor|done|constructor|split; [by intros []|by intros ?%elem_of_nil]|].
  intros _. split_and!; [constructor|constructor|cbn; lia].
Qed.

Lemma sorted_snoc (l : list N) n : StronglySorted N.lt l -> Forall (fun x => x < n)%N l -> StronglySorted N.lt (l ++ [n]).
Proof.
  intros Hs Hf. induction Hs as [|x l Hs IH Hx]; [repeat constructor|]. inversion Hf; subst. cbn. constructor; [by apply IH|].
  apply Forall_app. split; [done|by repeat constructor].
Qed.

(** The record a transition leaves. *)
Definition moved (id : str) (reason : option str) (r r' : TaskRecord) (next : TaskState) (now : N) : TaskRecord :=
  let n := next_seq (seq (handle r')) in
  set_times (if bool_decide (next = Running) && bool_decide (running_since r' = None) then Some now else running_since r')
    (if is_terminal next then match terminated_at r' with Some t => Some t | None => Some now end else terminated_at r')
    (emit (state_changed id (state (handle r)) next n reason) (set_seq n r')).

Lemma announce_spec id reason r r' next now m :
  exists m1, announce id reason (state (handle r)) next now r' m = set_tasks (<[id := moved id reason r r' next now]> (tasks m)) m1 /\
    tasks m1 = tasks m /\ grace_period m1 = grace_period m /\
    forall t, gauge m1 t = (gauge m t + (if decide (tenant (handle r') = t) then
       (if bool_decide (next = Running) && bool_decide (running_since r' = None) then 1 else 0)
       + (if is_terminal next && negb (bool_decide (running_since r' = None)) then -1 else 0) else 0))%Z.
Proof.
  unfold announce, moved. destruct r' as [h i a p e c s k]. cbn [handle running_since terminated_at set_seq emit set_times].
  destruct next; cbn [is_terminal andb]; rewrite ?bool_decide_false by done; rewrite ?bool_decide_true by done; cbn [andb].
  all: try (eexists; split; [reflexivity|]; split_and!; [done|done|]; intros t; cbn; destruct (decide _); lia).
  all: destruct s; cbn; rewrite ?bool_decide_false by done; rewrite ?bool_decide_true by done; cbn [andb].
  all: eexists; split; [reflexivity|]; split_and!; [done|done|]; intros t; rewrite ?gauge_add; cbn; repeat destruct (decide _); try lia; congruence.
Qed.

Lemma next_seq_small n len : (n <= len)%N -> (len + 1 < two64)%N -> next_seq n = (n + 1)%N.
Proof. intros. unfold next_seq. apply N.mod_small. lia. Qed.

Lemma life_moved id reason r r' next now :
  life Q id r -> same_life r r' -> state (handle r') = next -> edge (state (handle r)) next = true ->
  life Q id (moved id reason r r' next now).
Proof.
  intros (Hid & Hlog & Hend & items & Hm & Hi & HQ & Hrun & Hseq) (Si & _ & Sn & Sc & Sr & St) Hn He. unfold moved.
  set (n := next_seq (seq (handle r'))).
  split_and!; cbn [handle emit set_times set_seq event_tx log tx channel_send task_id state terminated_at running_since seq].
  - congruence.
  - rewrite Sc. by f_equal.
  - rewrite Hn, St. unfold edge in He. destruct (is_terminal next).
    + split; [done|]. intros _. by destruct (terminated_at r).
    + rewrite Hend. by destruct (is_terminal (state (handle r))).
  - set (v := {| move_from := state (handle r); move_to := next; move_seq := n; move_reason := reason |}).
    exists (items ++ [MovedItem v]). cbv zeta. rewrite omap_app. cbn [omap list_omap item_move]. rewrite !map_app, Sc, Hn. split_and!.
    + by apply (moves_more Pending _ v).
    + by rewrite Hi.
    + apply Forall_app. split; [done|by repeat constructor].
    + rewrite elem_of_app. cbn [List.map move_to v]. rewrite list_elem_of_singleton, <- Hrun, Sr. destruct (decide (next = Running)) as [->|Hne].
      * rewrite bool_decide_true by done. cbn. destruct (running_since r); cbn; split; eauto.
      * rewrite (bool_decide_false (next = Running)) by done. cbn. split; [by left|]. intros [Hs|Hs]; [done|by subst].
    + rewrite length_app. cbn [length]. intros Hlen. destruct Hseq as (Hsort & Hle & Hs); [lia|].
      assert (n = seq (handle r) + 1)%N as En by (unfold n; rewrite Sn; apply (next_seq_small _ (N.of_nat (length (log (event_tx r))))); lia).
      cbn [List.map v move_seq]. rewrite En. split_and!; [|apply Forall_app; split; [|by repeat constructor; cbn; lia]|lia].
      * apply sorted_snoc; [done|]. apply Forall_map. eapply Forall_impl; [exact Hle|]. cbn. lia.
      * eapply Forall_impl; [exact Hle|]. cbn. lia.
Qed.

Lemma life_touch id r r' : life Q id r -> same_life r r' -> state (handle r') = state (handle r) -> life Q id r'.
Proof.
  intros (Hid & Hlog & Hend & items & Hm & Hseq) (Si & _ & Sn & Sc & Sr & St) Hs.
  unfold life. rewrite Hs, Si, Sn, Sc, Sr, St. split_and!; [done..|]. by exists items.
Qed.

Lemma life_event id r r' event :
  life Q id r -> r' = r \/ r' = set_seq (next_seq (seq (handle r))) r -> Q event -> life Q id (emit event r').
Proof.
  intros (Hid & Hlog & Hend & items & Hm & Hi & HQ & Hrun & Hseq) Hr Hq.
  assert (task_id (handle r') = id /\ event_tx r' = event_tx r /\ state (handle r') = state (handle r) /\ running_since r' = running_since r /\
          terminated_at r' = terminated_at r) as (Ei & Ec & Es & Er & Et) by by destruct Hr as [->| ->].
  unfold life. cbn [handle emit event_tx log tx channel_send running_since terminated_at]. rewrite Ei, Ec, Es, Er, Et.
  split_and!; [done|by f_equal|done|]. exists (items ++ [SentItem event]). cbv zeta. rewrite omap_app. cbn [omap list_omap item_move].
  rewrite app_nil_r, map_app. split_and!; [done|by rewrite Hi|apply Forall_app; split; [done|by repeat constructor]|done|].
  rewrite length_app. cbn [length]. intros Hlen. destruct Hseq as (Hsort & Hle & Hs); [lia|].
  assert (seq (handle r') = seq (handle r) \/ seq (handle r') = seq (handle r) + 1)%N as Hn.
  { destruct Hr as [->| ->]; [by left|right]. cbn. apply (next_seq_small _ (N.of_nat (length (log (event_tx r))))); lia. }
  split_and!; [done| |lia]. eapply Forall_impl; [exact Hle|]. cbn. lia.
Qed.

Lemma counted_same t r r' : tenant (handle r') = tenant (handle r) -> running_since r' = running_since r ->
  state (handle r') = state (handle r) -> counted t r' = counted t r.
Proof. intros E1 E2 E3. unfold counted. by rewrite E1, E2, E3. Qed.

Lemma managed_update m id r r' :
  managed m -> tasks m !! id = Some r -> life Q id r' -> (forall t, counted t r' = counted t r) ->
  managed (set_tasks (<[id := r']> (tasks m)) m).
Proof.
  intros [Hl Hg] E Hr Hc. split.
  - intros id' r0. cbn. destruct (decide (id = id')) as [->|Hn]; [rewrite lookup_insert_eq; by intros [= <-]|].
    rewrite lookup_insert_ne by done. apply Hl.
  - intros t. change (gauge m t = Z.of_nat (count_active t (<[id := r']> (tasks m)))). pose proof (count_update t id r r' (tasks m) E) as Hu.
    rewrite Hc in Hu. rewrite Hg. f_equal. lia.
Qed.

Lemma managed_move m id reason r r' next now :
  managed m -> tasks m !! id = Some r -> same_life r r' -> state (handle r') = next -> edge (state (handle r)) next = true ->
  managed (announce id reason (state (handle r)) next now r' m).
Proof.
  intros [Hl Hg] E Hs Hn He. pose proof (life_moved id reason r r' next now (Hl _ _ E) Hs Hn He) as Hlife.
  destruct (announce_spec id reason r r' next now m) as (m1 & -> & _ & _ & Hg1). split.
  - intros id' r0. cbn. destruct (decide (id = id')) as [->|Hne]; [rewrite lookup_insert_eq; by intros [= <-]|].
    rewrite lookup_insert_ne by done. apply Hl.
  - intros t. change (gauge m1 t = Z.of_nat (count_active t (<[id := moved id reason r r' next now]> (tasks m)))). rewrite Hg1, Hg.
    pose proof (count_update t id r (moved id reason r r' next now) (tasks m) E) as Hu.
    destruct Hs as (_ & Ht & _ & _ & Hr & _). unfold edge in He. apply andb_true_iff in He as [He _].
    assert (counted t (moved id reason r r' next now) = str_eqb (tenant (handle r)) t &&
      negb (bool_decide ((if bool_decide (next = Running) && bool_decide (running_since r = None) then Some now else running_since r) = None)) &&
      negb (is_terminal next)) as Hc1 by (unfold counted, moved; cbn; by rewrite Ht, Hr, Hn).
    assert (counted t r = str_eqb (tenant (handle r)) t && negb (bool_decide (running_since r = None))) as Hc0
      by (unfold counted; by rewrite He, andb_true_r).
    rewrite Hc0, Hc1 in Hu. rewrite Ht, Hr. unfold str_eqb in Hu. clear Hc0 Hc1.
    destruct (running_since r), next; cbn in Hu |- *; repeat case_bool_decide; cbn in Hu |- *; repeat destruct (decide _); try done; lia.
Qed.

Lemma expired_ended m id r grace now : managed m -> tasks m !! id = Some r -> is_expired grace now r = true ->
  is_terminal (state (handle r)) = true.
Proof. intros _ _. unfold is_expired. destruct (terminated_at r); [|done]. intros. by bools. Qed.

Lemma managed_cleanup m now : managed m -> managed (cleanup_expired now m).
Proof.
  intros Hm. pose proof Hm as [Hl Hg]. split.
  - intros id r Hin. cbn in Hin. apply map_lookup_filter_Some in Hin as [Hin _]. by apply Hl.
  - intros t. change (gauge m t = Z.of_nat (count_active t (tasks (cleanup_expired now m)))). rewrite Hg. f_equal. unfold count_active.
    f_equal. apply map_eq. intros id. apply option_eq. intros r. cbn. rewrite !map_lookup_filter_Some. split; [|by intros [[? _] ?]].
    intros [Hin Hc]. split_and!; [done| |done]. apply not_true_iff_false. intros He. apply (expired_ended m id) in He; [|done..].
    unfold counted in Hc. rewrite He in Hc. by rewrite andb_false_r in Hc.
Qed.

Lemma managed_step new m m' : mstep new m m' -> managed m -> managed m'.
Proof.
  intros Hs Hm. destruct Hs as [id t task agent meta connection m E _|id r r' next reason now m E Hs Hn He|id r r' m E Hs Hst|id r r' event m E Hr Hq|token m|now m].
  - destruct Hm as [Hl Hg]. split.
    + intros id' r. cbn. destruct (decide (id = id')) as [->|Hn]; [rewrite lookup_insert_eq; intros [= <-]; apply life_pending|].
      rewrite lookup_insert_ne by done. apply Hl.
    + intros t'. cbn. rewrite count_fresh by done. unfold counted at 1. cbn. rewrite andb_false_r. cbn.
      change (gauge m t' = Z.of_nat (count_active t' (tasks m) + 0)). rewrite Hg. f_equal. lia.
  - by eapply managed_move.
  - eapply managed_update; [done|done|eapply life_touch; [by apply Hm|done|done]|]. intros t. by apply counted_same; apply Hs || done.
  - eapply managed_update; [done|done|eapply life_event; [by apply Hm|done|done]|]. intros t. by destruct Hr as [->| ->].
  - done.
  - by apply managed_cleanup.
Qed.

(** What is left of a record that was there before. *)
Definition later (r r' : TaskRecord) : Prop :=
  log (event_tx r) `prefix_of` log (event_tx r') /\ tenant (handle r') = tenant (handle r) /\
  (is_terminal (state (handle r)) = true -> state (handle r') = state (handle r)).

Lemma later_refl r : later r r.
Proof. by split. Qed.
Lemma later_trans r1 r2 r3 : later r1 r2 -> later r2 r3 -> later r1 r3.
Proof.
  intros (Hp & Ht & Hs) (Hp' & Ht' & Hs'). split_and!; [by etrans|congruence|]. intros He.
  rewrite Hs'; [by apply Hs|]. by rewrite Hs.
Qed.
Lemma later_same r r' : same_life r r' -> state (handle r') = state (handle r) -> later r r'.
Proof. intros (_ & Ht & _ & Hc & _) Hs. split_and!; [by rewrite Hc|done|done]. Qed.

Lemma later_moved id reason r r' next now :
  same_life r r' -> state (handle r') = next -> edge (state (handle r)) next = true -> later r (moved id reason r r' next now).
Proof.
  intros (_ & Ht & _ & Hc & _) Hn He. unfold moved, later. cbn. rewrite Hc. split_and!; [by eexists|done|].
  intros Hr. unfold edge in He. by rewrite Hr in He.
Qed.
Lemma later_event r r' event : r' = r \/ r' = set_seq (next_seq (seq (handle r))) r -> later r (emit event r').
Proof. intros [->| ->]; (split_and!; [by eexists|done|done]). Qed.

Lemma lookup_updated (ts : gmap str TaskRecord) (id id' : str) r0 r r' :
  ts !! id = Some r0 -> later r0 r -> <[id := r]> ts !! id' = Some r' -> exists r, ts !! id' = Some r /\ later r r'.
Proof.
  intros E Hl. destruct (decide (id = id')) as [->|Hn]; [rewrite lookup_insert_eq; intros [= <-]; by exists r0|].
  rewrite lookup_insert_ne by done. intros E'. exists r'. split; [done|apply later_refl].
Qed.

Lemma step_later new m m' id r' :
  mstep new m m' -> tasks m' !! id = Some r' -> new = Some id \/ exists r, tasks m !! id = Some r /\ later r r'.
Proof.
  intros Hs E. destruct Hs as [id' t task agent meta connection m E' ->|id' r reason next r1 now m E' Hs Hn He|id' r r1 m E' Hs Hst|id' r r1 event m E' Hr _|token m|now m].
  - cbn in E. destruct (decide (id' = id)) as [->|Hne]; [by left|right]. rewrite lookup_insert_ne in E by done.
    exists r'. split; [done|apply later_refl].
  - right. match type of E with tasks (announce ?i ?a _ ?x ?n ?y ?m0) !! _ = _ => destruct (announce_spec i a r y x n m0) as (m1 & Em & _) end.
    rewrite Em in E. eapply lookup_updated; [done| |exact E]. by apply later_moved.
  - right. eapply lookup_updated; [done| |exact E]. by apply later_same.
  - right. eapply lookup_updated; [done| |exact E]. by apply later_event.
  - right. exists r'. split; [done|apply later_refl].
  - right. cbn in E. apply map_lookup_filter_Some in E as [E _]. exists r'. split; [done|apply later_refl].
Qed.

Lemma steps_later new m m' id r' :
  msteps new m m' -> tasks m' !! id = Some r' -> new = Some id \/ exists r, tasks m !! id = Some r /\ later r r'.
Proof.
  intros Hs. revert r'. induction Hs as [m|m1 m2 m3 H1 _ IH]; intros r' E; [right; exists r'; split; [done|apply later_refl]|].
  destruct (IH r' E) as [->|(r2 & E2 & Hl2)]; [by left|].
  destruct (step_later _ _ _ _ _ H1 E2) as [->|(r1 & E1 & Hl1)]; [by left|right]. exists r1. split; [done|by eapply later_trans].
Qed.

Lemma history_managed ops m m' :
  task_history ops m = Some m' -> managed m -> NoDup (omap created_id ops) ->
  (forall id, id ∈ omap created_id ops -> tasks m !! id = None) -> Forall (sends Q) ops ->
  managed m' /\ forall id r', tasks m' !! id = Some r' -> id ∈ omap created_id ops \/ exists r, tasks m !! id = Some r /\ later r r'.
Proof.
  revert m. induction ops as [|[now op] ops IH]; intros m E Hm Hd Hf Hq.
  { cbn in E. simplify_eq. split; [done|]. intros id r' E. right. exists r'. split; [done|apply later_refl]. }
  apply Forall_cons in Hq as [Hq1 Hq]. cbn [task_history] in E. destruct (task_run now op m) as [m1|] eqn:E1; [|done]. cbn in E.
  assert (forall id, created_id (now, op) = Some id -> id ∈ omap created_id ((now, op) :: ops)) as Hin.
  { intros id Ec. cbn [omap list_omap]. rewrite Ec. by left. }
  assert (msteps (created_id (now, op)) m m1) as Hs by (eapply run_steps; [done| |done]; intros id Hc; by apply Hf, Hin).
  assert (managed m1) as Hm1 by (clear -Hs Hm; induction Hs; eauto using managed_step).
  assert (NoDup (omap created_id ops)) as Hd' by (cbn [omap list_omap] in Hd; destruct (created_id (now, op)); [by apply NoDup_cons in Hd as [_ Hd]|done]).
  destruct (IH m1 E Hm1 Hd') as [Hm' Hl'].
  { intros id Hid. destruct (tasks m1 !! id) as [r1|] eqn:Er; [exfalso|done].
    destruct (steps_later _ _ _ _ _ Hs Er) as [Hc|(r & Er0 & _)].
    - cbn [omap list_omap] in Hd. rewrite Hc in Hd. by apply NoDup_cons in Hd as [Hd _].
    - rewrite Hf in Er0; [done|]. cbn [omap list_omap]. destruct (created_id (now, op)); [by right|done]. }
  { done. }
  split; [done|]. intros id r' E'. assert (forall id, id ∈ omap created_id ops -> id ∈ omap created_id ((now, op) :: ops)) as Hmore.
  { intros i Hi. cbn [omap list_omap]. destruct (created_id (now, op)); [by right|done]. }
  destruct (Hl' id r' E') as [Hi|(r1 & Er1 & Hl1)]; [left; by apply Hmore|].
  destruct (steps_later _ _ _ _ _ Hs Er1) as [Hc|(r & Er & Hl)]; [left; by apply Hin|right].
  exists r. split; [done|by eapply later_trans].
Qed.

End Steps.

Lemma sends_any ops : Forall (sends any_event) ops.
Proof. apply Forall_true. intros [now []]; done. Qed.

(** C11. A task lives by its state machine.  Whatever is asked of a manager, in any order and at any times:
    every task it holds got from pending to its state by transitions that exist; its log is those
    transitions, announced in order with growing sequence numbers, and what others sent in between; a task is
    stamped with its end exactly when its state is terminal; and the gauge of a tenant's active tasks is the
    number of its tasks that have started and not ended. *)
Theorem task_lifecycle ops grace m :
  task_history ops (manager_new grace) = Some m -> NoDup (omap created_id ops) ->
  (forall id r, tasks m !! id = Some r -> life any_event id r) /\
  (forall t, gauge m t = Z.of_nat (count_active t (tasks m))).
Proof.
  intros E Hd. destruct (history_managed any_event ops (manager_new grace) m E (managed_new _ grace) Hd) as [Hm _]; [done|apply sends_any|exact Hm].
Qed.

(** Nothing falls between the history of a subscriber and its receiver: the history it is given and what is
    broadcast afterwards are together the log of the task; and a task found in a terminal state stays in it. *)
Lemma subscriber_history ops ops' grace m m' id r r' history position :
  task_history ops (manager_new grace) = Some m -> task_history ops' m = Some m' -> NoDup (omap created_id (ops ++ ops')) ->
  tasks m !! id = Some r -> subscribe_task id m = Ok (history, position) -> tasks m' !! id = Some r' ->
  history ++ sent_since position (event_tx r') = log (event_tx r') /\
  (is_terminal (state (handle r)) = true -> state (handle r') = state (handle r)).
Proof.
  intros E E' Hd Er Hsub Er'. rewrite omap_app in Hd. apply NoDup_app in Hd as (Hd1 & Hdis & Hd2).
  destruct (history_managed any_event ops (manager_new grace) m E (managed_new _ grace) Hd1) as [Hm Hl]; [done|apply sends_any|].
  assert (forall i, i ∈ omap created_id ops' -> tasks m !! i = None) as Hfresh.
  { intros i Hi. destruct (tasks m !! i) as [r0|] eqn:Ei; [|done]. destruct (Hl i r0 Ei) as [Hin|(r1 & Hn & _)]; [by apply Hdis in Hin|done]. }
  destruct (history_managed any_event ops' m m' E' Hm Hd2 Hfresh (sends_any _)) as [Hm' Hl'].
  destruct (Hl' id r' Er') as [Hin|(r0 & Er0 & Hp & _ & Ht)]; [by rewrite (Hfresh id Hin) in Er|].
  rewrite Er in Er0. injection Er0 as <-. split; [|exact Ht].
  unfold subscribe_task in Hsub. rewrite Er in Hsub. cbn in Hsub. injection Hsub as <- <-.
  destruct Hm as [Hm _], Hm' as [Hm' _]. destruct (Hm id r Er) as (_ & Hlog & _), (Hm' id r' Er') as (_ & Hlog' & _).
  unfold sent_since. rewrite <- Hlog, <- Hlog'. destruct Hp as [k ->]. by rewrite skipn_app, skipn_all, Nat.sub_diag, app_nil_l.
Qed.
End Tasks.

(** ** Examples *)

Section Examples.
#[local] Instance ex_tasks_json : JsonOps tree := tree_json [].

(** Channels of one message. *)
Definition ex_send {A} (c : list A) (a : A) : option (list A) := match c with [] => Some [a] | _ => None end.
Definition ex_tenant : TenantConfig :=
  {| namespace := "acme"; default_agent_type := "coder"; vfs_root := "/data/acme"; budget_pool := {| pool_max_tokens := 0; pool_max_cost := [] |};
     hooks := []; tenant_integrations := []; mcp_servers := [] |}.
Abbreviation ExOp := (@TaskOp tree (list str) (list ToolApprovalResponse)).
Abbreviation ex_history := (task_history (Value := tree) ex_send ex_send).

Definition ex_start : list (N * ExOp) :=
  [(0%N, OpCreatePending "t1" ex_tenant "build it" None (Object []) (Some (lit "c1"))); (0%N, OpSenders "t1" [] []); (1%N, OpStart "t1")].
Definition ex_dialogue : list (N * ExOp) :=
  [(2%N, OpRequestInput "t1"); (3%N, OpSend "t1" (Text "please")); (4%N, OpInput "t1" "yes"); (5%N, OpComplete "t1" Completed None);
   (6%N, OpResume "t1"); (7%N, OpCreate "t2" ex_tenant "again" None (Object []) None); (8%N, OpCleanup)].

(** The manager in the middle and at the end. *)
Definition ex_mid := default (manager_new 3600) (ex_history ex_start (manager_new 3600)).
Definition ex_end := default (manager_new 3600) (ex_history ex_dialogue ex_mid).
Definition ex_record (m : @TaskManager tree (list str) (list ToolApprovalResponse)) : TaskRecord :=
  default (pending_record (Value := tree) "" ex_tenant [] None Null None) (tasks m !! lit "t1").
Lemma ex_ids_differ : NoDup (omap created_id (ex_start ++ ex_dialogue)).
Proof. apply (bool_decide_unpack _). vm_compute. exact I. Qed.

Lemma task_lifecycle_witness :
  NoDup (omap created_id (ex_start ++ ex_dialogue)) /\ ex_history (ex_start ++ ex_dialogue) (manager_new 3600) = Some ex_end /\
  gauge ex_end "acme" = 1%Z /\ state (handle (ex_record ex_end)) = Completed /\ life any_event "t1" (ex_record ex_end).
Proof.
  assert (ex_history (ex_start ++ ex_dialogue) (manager_new 3600) = Some ex_end) as E by (vm_compute; reflexivity).
  destruct (task_lifecycle ex_send ex_send (ex_start ++ ex_dialogue) 3600 ex_end E ex_ids_differ) as [Hl Hg].
  split; [exact ex_ids_differ|]. split; [exact E|]. split; [rewrite Hg; vm_compute; reflexivity|]. split; [vm_compute; reflexivity|].
  apply Hl. vm_compute. reflexivity.
Defined.

(** A task may end between the two halves of its cancellation: its agent was told to stop all the same. *)
Example ended_between_the_halves :
  match ex_history (ex_start ++ [(2%N, OpToken "t1" 7); (3%N, OpSignal "t1"); (4%N, OpComplete "t1" Completed None); (5%N, OpCancelMove "t1")])
      (manager_new 3600) with
  | Some m => state (handle (ex_record m)) = Completed /\ bool_decide (7%N ∈ cancelled m) = true
  | None => False
  end.
Proof. vm_compute. split; reflexivity. Qed.

(** A task paused when its agent asks for input loses the question: the transition is refused, and after
    the task is resumed the answer is refused too, while the agent waits for it. *)
Example pause_loses_a_question :
  match ex_history (ex_start ++ [(2%N, OpPause "t1"); (3%N, OpRequestInput "t1"); (4%N, OpResume "t1")]) (manager_new 3600) with
  | Some m => provide_input ex_send "t1" "yes" 5 m = (m, Err (InvalidTransition "t1" Running Running))
  | None => False
  end.
Proof. vm_compute. reflexivity. Qed.
End Examples.
