(* ===== verification/TaskEvents.v ===== *)
(** * What the clients of a task see

    Models [crates/simulacra-types/src/activity.rs], and of [crates/simulacra-server/src/engine.rs] and
    [server.rs] the events of a task: their JSON, the sink of a running agent, the state an exit leaves a
    task in, and the stream of server-sent events.

    What a receiver of the broadcast channel delivers, an event or the number of those it lost, is an argument
    of the stream; [receives] is what the channel's documentation says of it for a ring of a given size. *)

From S2P Require Import Prelude.
From S2P Require Import Json.
From S2P Require Import Tenancy.
From S2P Require Import Tasks.
From S2P Require Supervisor.

(** ** Activity ([activity.rs]) *)

Section Events.
Context {Value : Type} `{JsonOps Value}.

Inductive ActivityEvent :=
| Token (text : str)
| ThinkStart
| ThinkDelta (text : str)
| ThinkEnd (think_duration_ms think_tokens : N)
| ToolStart (tool_call_id name : str) (arguments : Value)
| ToolApprovalRequired (tool_call_id name : str) (arguments : Value) (reason : option str)
| ToolCallDelta (index : N) (tool_call_id name : option str) (arguments_delta : str)
| ToolOutputLine (tool_call_id line : str)
| InputRequired (prompt : str) (schema : option Value)
| ToolFinish (tool_call_id name : str) (is_error : bool) (duration_ms : N)
| ChildSpawned (child_id placement task : str)
| ChildActivity (child_id placement : str) (event : ActivityEvent)
| ChildFinished (child_id placement exit_reason : str) (duration_ms tool_uses token_count : N)
| WorkflowStarted (run_id script_path name : str)
| WorkflowProgress (run_id message : str)
| WorkflowPhaseStarted (run_id name : str)
| WorkflowPhaseCompleted (run_id name : str)
| WorkflowAgentStarted (run_id key : str) (agent task : option str)
| WorkflowAgentCompleted (run_id key : str) (cached is_error : bool)
| WorkflowCompleted (run_id : str)
| WorkflowFailed (run_id error : str)
| WorkflowCancelled (run_id : str)
| TurnComplete.

(** ** Their JSON ([engine.rs]) *)

Definition text (s : str) : Value := json_string s.
Definition opt_text (s : option str) : Value := json_opt_string s.
Definition json_opt (v : option Value) : Value := match v with Some v => v | None => json_null end.
Definition event_object (id name : str) (fields : list (str * Value)) : Value :=
  json_object (["event" ↦ text name; "task_id" ↦ text id] ++ fields).

Definition translate_activity_event (id : str) (e : ActivityEvent) : Value :=
  match e with
  | Token t => event_object id "agent.message" ["content" ↦ text t; "role" ↦ text "assistant"]
  | ThinkStart => event_object id "agent.thinking" ["state" ↦ text "started"]
  | ThinkDelta t => event_object id "agent.thinking" ["content" ↦ text t]
  | ThinkEnd ms n => event_object id "agent.thinking" ["state" ↦ text "ended"; "duration_ms" ↦ json_number ms; "tokens" ↦ json_number n]
  | ToolStart tc name args => event_object id "tool.called" ["tool_call_id" ↦ text tc; "tool_name" ↦ text name; "arguments" ↦ args]
  | ToolApprovalRequired tc name args reason =>
      event_object id "tool.approval_required"
        ["tool_call_id" ↦ text tc; "tool_name" ↦ text name; "arguments" ↦ args; "reason" ↦ opt_text reason]
  | ToolCallDelta index tc name delta =>
      event_object id "tool.call_delta"
        ["index" ↦ json_number index; "tool_call_id" ↦ opt_text tc; "tool_name" ↦ opt_text name; "arguments_delta" ↦ text delta]
  | ToolOutputLine tc line => event_object id "tool.output" ["tool_call_id" ↦ text tc; "line" ↦ text line]
  | InputRequired prompt schema => event_object id "input.required" ["prompt" ↦ text prompt; "schema" ↦ json_opt schema]
  | ToolFinish tc name is_error ms =>
      event_object id "tool.result"
        ["tool_call_id" ↦ text tc; "tool_name" ↦ text name; "is_error" ↦ json_bool is_error; "duration_ms" ↦ json_number ms]
  | ChildSpawned child placement task =>
      event_object id "agent.child_spawned" ["child_id" ↦ text child; "placement" ↦ text placement; "child_task" ↦ text task]
  | ChildFinished child placement reason ms _ _ =>
      event_object id "agent.child_finished"
        ["child_id" ↦ text child; "placement" ↦ text placement; "exit_reason" ↦ text reason; "duration_ms" ↦ json_number ms]
  | WorkflowStarted run script name =>
      event_object id "workflow.started"
        ["run_id" ↦ text run; "script_path" ↦ text script; "name" ↦ text name; "status" ↦ text "running"]
  | WorkflowProgress run m => event_object id "workflow.progress" ["run_id" ↦ text run; "message" ↦ text m; "status" ↦ text "running"]
  | WorkflowPhaseStarted run name =>
      event_object id "workflow.phase_start" ["run_id" ↦ text run; "phase" ↦ text name; "status" ↦ text "running"]
  | WorkflowPhaseCompleted run name =>
      event_object id "workflow.phase_finish" ["run_id" ↦ text run; "phase" ↦ text name; "status" ↦ text "running"]
  | WorkflowAgentStarted run key agent task =>
      event_object id "workflow.agent_start"
        ["run_id" ↦ text run; "agent_label" ↦ text key; "agent_type" ↦ opt_text agent; "child_task" ↦ opt_text task; "status" ↦ text "running"]
  | WorkflowAgentCompleted run key cached is_error =>
      event_object id "workflow.agent_finish"
        ["run_id" ↦ text run; "agent_label" ↦ text key; "cached" ↦ json_bool cached; "is_error" ↦ json_bool is_error;
         "status" ↦ text (if is_error then "failed" else "running")]
  | WorkflowCompleted run => event_object id "workflow.completed" ["run_id" ↦ text run; "status" ↦ text "completed"]
  | WorkflowFailed run error => event_object id "workflow.failed" ["run_id" ↦ text run; "error" ↦ text error; "status" ↦ text "failed"]
  | WorkflowCancelled run => event_object id "workflow.cancelled" ["run_id" ↦ text run; "status" ↦ text "cancelled"]
  | TurnComplete => event_object id "agent.turn_complete" []
  | ChildActivity _ _ _ => event_object id "error" ["message" ↦ text "unexpected ChildActivity in translate_activity_event"]
  end.

(** The attribution of a child's event, which keeps the innermost. *)
Definition attribute (child_id placement : str) (event : Value) : Value :=
  match value_get (lit "child_id") event with
  | Some _ => event
  | None => set_field (lit "child_placement") (text placement) (set_field (lit "child_id") (text child_id) event)
  end.
(** [flatten_activity_event], which gives one event. *)
Fixpoint flatten_activity_event (id : str) (e : ActivityEvent) : list Value :=
  match e with
  | ChildActivity child_id placement inner => List.map (attribute child_id placement) (flatten_activity_event id inner)
  | other => [translate_activity_event id other]
  end.

(** *** The sink *)

Context {InputTx ApprovalTx : Type}.
Abbreviation Manager := (@TaskManager Value InputTx ApprovalTx).

Record EngineActivitySink := { sink_task_id : str; sink_seq : N; mirrors : bool }.

Definition transition_for_hitl_event (sink : EngineActivitySink) (e : ActivityEvent) (now : N) (m : Manager) : Manager :=
  if mirrors sink then
    match e with
    | InputRequired _ _ => fst (request_input (sink_task_id sink) now m)
    | ToolApprovalRequired tc _ _ _ => fst (request_approval_for (sink_task_id sink) (Some tc) now m)
    | _ => m
    end
  else m.

(** The events go to the channel of the task, which the sink holds. *)
Fixpoint send_numbered (id : str) (n : N) (events : list Value) (m : Manager) : Manager * N :=
  match events with
  | [] => (m, n)
  | e :: events => send_numbered id ((n + 1) mod two64) events (fst (send_on_channel id (set_field (lit "seq") (json_number n) e) m))
  end.
Definition sink_emit (e : ActivityEvent) (now : N) (sink : EngineActivitySink) (m : Manager) : EngineActivitySink * Manager :=
  let m := transition_for_hitl_event sink e now m in
  let '(m, n) := send_numbered (sink_task_id sink) (sink_seq sink) (flatten_activity_event (sink_task_id sink) e) m in
  ({| sink_task_id := sink_task_id sink; sink_seq := n; mirrors := mirrors sink |}, m).

(** *** The end of an agent *)

Definition map_exit_reason (r : Supervisor.ExitReason) : TaskState * option str :=
  match r with
  | Supervisor.Complete => (Completed, None)
  | Supervisor.MaxTurns => (Completed, Some (lit "max_turns"))
  | Supervisor.BudgetExhaustedExit => (Killed, Some (lit "budget_exhausted"))
  | Supervisor.Cancelled => (Cancelled, None)
  | Supervisor.GuardrailTripped m => (Killed, Some ("guardrail: " ++ m))
  | Supervisor.PolicyKill hook reason => (Killed, Some ("policy: " ++ hook ++ ": " ++ reason))
  | Supervisor.ErrorExit m => (Failed, Some m)
  | Supervisor.AwaitingApproval => (WaitingApproval, None)
  | Supervisor.Refusal => (Completed, Some (lit "refusal"))
  end.

(** What the worker left: an exit, an error, or nothing after a panic. *)
Variant WorkerResult := WorkerExit (r : Supervisor.ExitReason) | WorkerError (m : str) | WorkerPanicked.
Definition finish_task (id : str) (r : WorkerResult) (now : N) (m : Manager) : Manager :=
  let '(s, reason) := match r with
                      | WorkerExit r => map_exit_reason r
                      | WorkerError m => (Failed, Some m)
                      | WorkerPanicked => (Failed, Some (lit "agent task panicked"))
                      end in
  fst (complete_task id s reason now m).

(** ** The stream of server-sent events ([server.rs]) *)

Definition closes_stream (payload : Value) : bool :=
  match get_str (lit "to") payload with
  | Some s => str_eqb s "completed" || str_eqb s "failed" || str_eqb s "killed" || str_eqb s "cancelled"
  | None => false
  end.
(** What the receiver of a broadcast channel yields when it is polled: an event, or how many it has lost. *)
Definition Delivery : Type := result Value nat.
Definition delivered (d : Delivery) : option Value := match d with Ok e => Some e | Err _ => None end.
Fixpoint through_terminal (payloads : list Value) : list Value :=
  match payloads with
  | [] => []
  | payload :: payloads => payload :: (if closes_stream payload then [] else through_terminal payloads)
  end.
(** [task_events]: the history and then the receiver's events (what it reports as lost is dropped without a
    word), up to the event that ends the task. *)
Definition task_events (history : list Value) (deliveries : list Delivery) : list Value :=
  through_terminal (history ++ omap delivered deliveries).

(** What the documentation of the broadcast channel promises a receiver that is read to the end: every event
    that was sent, in order, save that where it fell more than the ring behind it loses the oldest, is told how
    many, and goes on with one that at least the [cap] last of those sent are behind or at. *)
Inductive receives (cap : nat) : list Value -> list Delivery -> Prop :=
| receives_end : receives cap [] []
| receives_event e sent ds : receives cap sent ds -> receives cap (e :: sent) (Ok e :: ds)
| receives_lagged lost sent ds :
    lost <> [] -> (cap <= length sent)%nat -> receives cap sent ds -> receives cap (lost ++ sent) (Err (length lost) :: ds).

(** A sink works through the operations of the manager. *)
Fixpoint numbered_ops (id : str) (n now : N) (events : list Value) : list (N * @TaskOp Value InputTx ApprovalTx) :=
  match events with
  | [] => []
  | e :: events => (now, OpSend id (set_field (lit "seq") (json_number n) e)) :: numbered_ops id ((n + 1) mod two64) now events
  end.
Definition sink_ops (e : ActivityEvent) (now : N) (sink : EngineActivitySink) : list (N * @TaskOp Value InputTx ApprovalTx) :=
  (if mirrors sink then
     match e with
     | InputRequired _ _ => [(now, OpRequestInput (sink_task_id sink))]
     | ToolApprovalRequired tc _ _ _ => [(now, OpRequestApproval (sink_task_id sink) (Some tc))]
     | _ => []
     end
   else []) ++ numbered_ops (sink_task_id sink) (sink_seq sink) now (flatten_activity_event (sink_task_id sink) e).

Context (send_input : InputTx -> str -> option InputTx) (send_approval : ApprovalTx -> ToolApprovalResponse -> option ApprovalTx).
Abbreviation history_of := (task_history send_input send_approval).

Lemma history_app ops1 ops2 (m : Manager) : history_of (ops1 ++ ops2) m = history_of ops1 m ≫= history_of ops2.
Proof. revert m. induction ops1 as [|[now op] ops1 IH]; intros m; [done|]. cbn. destruct (task_run _ _ _ _ _); [apply IH|done]. Qed.

Lemma numbered_history id n now events (m : Manager) :
  history_of (numbered_ops id n now events) m = Some (fst (send_numbered id n events m)).
Proof. revert n m. induction events as [|e events IH]; intros n m; [done|]. cbn. apply IH. Qed.

Lemma sink_history e now sink (m : Manager) : history_of (sink_ops e now sink) m = Some (snd (sink_emit e now sink m)).
Proof.
  unfold sink_emit, sink_ops. rewrite history_app.
  assert (history_of (if mirrors sink then
     match e with
     | InputRequired _ _ => [(now, OpRequestInput (sink_task_id sink))]
     | ToolApprovalRequired tc _ _ _ => [(now, OpRequestApproval (sink_task_id sink) (Some tc))]
     | _ => []
     end else []) m = Some (transition_for_hitl_event sink e now m)) as ->
    by (unfold transition_for_hitl_event; destruct (mirrors sink), e; done).
  cbn [mbind option_bind]. rewrite numbered_history. by destruct (send_numbered _ _ _ _).
Qed.
End Events.
Arguments ActivityEvent Value : clear implicits.

(** ** Streams *)

Section Streams.
Context {Value InputTx ApprovalTx : Type} `{JsonLaws Value}.
Context (send_input : InputTx -> str -> option InputTx) (send_approval : ApprovalTx -> ToolApprovalResponse -> option ApprovalTx).
Abbreviation history_of := (task_history send_input send_approval).

(** An event that ends no stream. *)
Definition quiet (e : Value) : Prop := closes_stream e = false.

(** An object with one value for a key. *)
Definition proper (v : Value) : Prop := exists fields, as_object v = Some fields /\ NoDup (List.map fst fields).

Lemma proper_object fields : NoDup (List.map fst fields) -> proper (json_object fields).
Proof. intros Hd. destruct (as_object_object fields Hd) as (fields' & E & Hp). exists fields'. split; [done|]. by rewrite Hp. Qed.

Lemma put_field_keys key (x : Value) fields k : k ∈ List.map fst (put_field key x fields) <-> k = key \/ k ∈ List.map fst fields.
Proof.
  induction fields as [|[k0 v] fields IH]; cbn [put_field List.map fst]; [rewrite elem_of_cons; naive_solver|].
  destruct (str_eqb k0 key) eqn:E; bools; cbn [List.map fst]; rewrite !elem_of_cons; [|rewrite IH]; naive_solver.
Qed.
Lemma put_field_nodup key (x : Value) fields : NoDup (List.map fst fields) -> NoDup (List.map fst (put_field key x fields)).
Proof.
  induction fields as [|[k0 v] fields IH]; cbn [put_field List.map fst]; [intros; apply NoDup_singleton|].
  intros [Hn Hd]%NoDup_cons. destruct (str_eqb k0 key) eqn:E; cbn [List.map fst]; apply NoDup_cons; [done|]. split; [|by apply IH].
  rewrite put_field_keys. intros [->|]; [|done]. by rewrite str_eqb_refl in E.
Qed.
Lemma put_field_other key (x : Value) fields k : str_eqb key k = false -> map_get k (put_field key x fields) = map_get k fields.
Proof.
  intros Hn. induction fields as [|[k0 v] fields IH]; cbn [put_field map_get]; [by rewrite Hn|].
  destruct (str_eqb k0 key) eqn:E; cbn [map_get]; [|by rewrite IH]. apply str_eqb_true in E as ->. by rewrite Hn.
Qed.

Lemma set_field_proper key x v : proper v -> proper (set_field key x v).
Proof. intros (fields & E & Hd). unfold set_field. rewrite E. by apply proper_object, put_field_nodup. Qed.
Lemma set_field_other key x v k : proper v -> str_eqb key k = false -> value_get k (set_field key x v) = value_get k v.
Proof.
  intros (fields & E & Hd) Hn. unfold set_field. rewrite E, value_get_object by by apply put_field_nodup.
  unfold value_get. rewrite E. cbn. by apply put_field_other.
Qed.

Lemma quiet_no_to v : value_get (lit "to") v = None -> quiet v.
Proof. unfold quiet, closes_stream, get_str. by intros ->. Qed.

Lemma translated id e : proper (translate_activity_event id e) /\ value_get (lit "to") (translate_activity_event id e) = None.
Proof.
  destruct e; unfold translate_activity_event, event_object; cbn [app];
    (split; [apply proper_object|rewrite value_get_object; [by json_fields|]]); by apply (bool_decide_unpack _).
Qed.

Lemma flattened id e v : v ∈ flatten_activity_event id e -> proper v /\ value_get (lit "to") v = None.
Proof.
  revert v. induction e; intros v; cbn [flatten_activity_event]; try (intros ->%list_elem_of_singleton; apply translated).
  intros (w & -> & Hw)%list_elem_of_fmap. apply IHe in Hw as [Hp Ht]. unfold attribute. destruct (value_get (lit "child_id") w); [done|].
  split; [by apply set_field_proper, set_field_proper|]. by rewrite !set_field_other by (done || by apply set_field_proper).
Qed.

(** What a sink sends ends no stream. *)
Lemma sink_quiet e now sink : Forall (sends (InputTx := InputTx) (ApprovalTx := ApprovalTx) quiet) (sink_ops e now sink).
Proof.
  unfold sink_ops. apply Forall_app. split; [destruct (mirrors sink), e; repeat constructor|].
  assert (forall v, v ∈ flatten_activity_event (sink_task_id sink) e -> proper v /\ value_get (lit "to") v = None) as Hf by (intros; by eapply flattened).
  revert Hf. generalize (flatten_activity_event (sink_task_id sink) e) as l, (sink_seq sink) as n.
  induction l as [|v l IH]; intros n Hf; cbn [numbered_ops]; [constructor|]. constructor.
  - unfold sends. cbn [snd]. destruct (Hf v) as [Hp Ht]; [by left|]. apply quiet_no_to. by rewrite set_field_other.
  - apply IH. intros w Hw. apply Hf. by right.
Qed.

Lemma closes_move id v : closes_stream (move_event id v) = is_terminal (move_to v).
Proof.
  unfold closes_stream, move_event, state_changed. rewrite get_str_object by (destruct (move_reason v); by apply (bool_decide_unpack _)).
  cbn [app]. json_fields. by destruct (move_to v).
Qed.

Lemma through_app (a b : list Value) : Forall quiet a -> through_terminal (a ++ b) = a ++ through_terminal b.
Proof. intros Ha. induction Ha as [|x a Hx _ IH]; [done|]. cbn. by rewrite Hx, IH. Qed.
Lemma through_quiet (a : list Value) : Forall quiet a -> through_terminal a = a.
Proof. intros Ha. rewrite <- (app_nil_r a) at 1. by rewrite through_app, app_nil_r. Qed.

(** Only the last of the moves can be to a terminal state. *)
Lemma moves_last s path s' : moves s path s' ->
  Forall (fun v => is_terminal (move_to v) = false) path \/
  exists before v, path = before ++ [v] /\ move_to v = s' /\ Forall (fun v => is_terminal (move_to v) = false) before.
Proof.
  intros Hm. induction Hm as [s|s path v Hm IH He]; [left; constructor|]. right. exists path, v. split_and!; [done|done|].
  destruct IH as [IH|(before & w & -> & Ew & IH)]; [done|]. apply Forall_app. split; [done|]. constructor; [|constructor].
  rewrite Ew. unfold edge in He. by destruct (is_terminal (move_from v)).
Qed.

Lemma moves_end s path s' : moves s path s' -> s' = s /\ path = [] \/ exists before v, path = before ++ [v] /\ move_to v = s'.
Proof. intros Hm. destruct Hm as [s|s path v Hm He]; [by left|right]. by exists path, v. Qed.

Lemma omap_snoc_split (l : list (@LogItem Value)) path v : omap item_move l = path ++ [v] ->
  exists before after, l = before ++ MovedItem v :: after /\ omap item_move before = path /\ omap item_move after = [].
Proof.
  revert path. induction l as [|i l IH]; intros path E; [by destruct path|]. destruct i as [w|e]; cbn [omap list_omap item_move] in E.
  - destruct path as [|w' path]; cbn in E; injection E as -> E.
    + by exists [], l.
    + destruct (IH path E) as (before & after & -> & Eb & Ea). exists (MovedItem w' :: before), after. cbn. by rewrite Eb.
  - destruct (IH path E) as (before & after & -> & Eb & Ea). by exists (SentItem e :: before), after.
Qed.

(** A log holds one event that closes a stream when the task has ended, its last transition, and none before. *)
Lemma log_closes id s items : moves Pending (omap item_move items) s ->
  Forall (fun i => match i with SentItem e => quiet e | MovedItem _ => True end) items ->
  if is_terminal s then
    exists before v after, List.map (item_event id) items = before ++ move_event id v :: after /\ move_to v = s /\
      closes_stream (move_event id v) = true /\ Forall quiet (before ++ after)
  else Forall quiet (List.map (item_event id) items).
Proof.
  intros Hm HQ.
  assert (forall l, Forall (fun i => match i with SentItem e => quiet e | MovedItem _ => True end) l ->
    Forall (fun v => is_terminal (move_to v) = false) (omap item_move l) -> Forall quiet (List.map (item_event id) l)) as Hall.
  { intros l Hs Ht. induction Hs as [|i l Hi Hs IH]; [constructor|]. cbn [omap list_omap List.map] in *.
    destruct i as [v|e]; cbn in Ht |- *; [apply Forall_cons in Ht as [Hv Ht]; constructor; [by unfold quiet; rewrite closes_move|auto]|constructor; auto]. }
  destruct (is_terminal s) eqn:Et.
  - destruct (moves_end _ _ _ Hm) as [[-> _]|(pre & v & Ep & Ev)]; [done|].
    destruct (moves_last _ _ _ Hm) as [Hnone|(pre' & v' & Ep' & Ev' & Hpre)].
    { rewrite Ep in Hnone. apply Forall_app in Hnone as [_ Hnone]. apply Forall_cons in Hnone as [Hn _]. rewrite Ev in Hn. congruence. }
    destruct (omap_snoc_split _ _ _ Ep') as (before & after & -> & Eb & Ea).
    rewrite map_app in *. cbn [List.map item_event] in *. apply Forall_app in HQ as [HQ1 HQ2]. apply Forall_cons in HQ2 as [_ HQ2].
    exists (List.map (item_event id) before), v', (List.map (item_event id) after). split_and!; [done|done|by rewrite closes_move, Ev'|].
    apply Forall_app. split; (apply Hall; [done|]); [by rewrite Eb|by rewrite Ea].
  - apply Hall; [done|]. destruct (moves_last _ _ _ Hm) as [Hnone|(pre & v & -> & Ev & Hpre)]; [done|].
    apply Forall_app. split; [done|]. constructor; [by rewrite Ev|constructor].
Qed.

(** *** Receivers *)

Lemma receives_sublist cap sent (ds : list (@Delivery Value)) : receives cap sent ds -> omap delivered ds `sublist_of` sent.
Proof.
  intros Hr. induction Hr as [|e sent ds _ IH|lost sent ds _ _ _ IH]; cbn; [done|by apply sublist_skip|].
  by apply sublist_inserts_l.
Qed.

Lemma receives_all cap sent (ds : list (@Delivery Value)) : receives cap sent ds -> Forall (fun d => is_ok d = true) ds -> omap delivered ds = sent.
Proof.
  intros Hr. induction Hr as [|e sent ds _ IH|lost sent ds _ _ _ IH]; intros Hd; [done|apply Forall_cons in Hd as [_ Hd]; cbn; by rewrite IH|].
  by apply Forall_cons in Hd as [Hd _].
Qed.

Lemma receives_short cap sent (ds : list (@Delivery Value)) : receives cap sent ds -> (length sent <= cap)%nat -> omap delivered ds = sent.
Proof.
  intros Hr. induction Hr as [|e sent ds _ IH|lost sent ds Hn Hc _ _]; intros Hl; [done|cbn in *; rewrite IH; [done|lia]|].
  rewrite length_app in Hl. destruct lost; [done|]. cbn in Hl. lia.
Qed.

(** Nothing of the last of the ring is lost. *)
Lemma receives_recent cap pre post (ds : list (@Delivery Value)) : receives cap (pre ++ post) ds -> (length post <= cap)%nat ->
  exists got, omap delivered ds = got ++ post.
Proof.
  intros Hr. remember (pre ++ post) as sent eqn:Es. revert pre Es.
  induction Hr as [|e sent ds Hr IH|lost sent ds Hn Hc Hr IH]; intros pre Es Hp.
  - symmetry in Es. apply app_eq_nil in Es as [-> ->]. by exists [].
  - destruct pre as [|x pre]; cbn in Es.
    + subst post. exists []. by apply (receives_short cap (e :: sent)); [constructor|].
    + injection Es as -> Es. destruct (IH pre Es Hp) as [got Eg]. exists (x :: got). cbn. by rewrite Eg.
  - apply app_eq_inv in Es as [(k & -> & ->)|(k & -> & ->)].
    + rewrite length_app in Hp. assert (k = []) as -> by (destruct k; [done|cbn in Hp; lia]). cbn. by apply (IH []).
    + by apply (IH k).
Qed.

Lemma through_prefix (a b : list Value) : through_terminal a `prefix_of` through_terminal (a ++ b).
Proof.
  induction a as [|x a IH]; cbn; [apply prefix_nil|]. apply prefix_cons. destruct (closes_stream x); [done|apply IH].
Qed.
Lemma sublist_through (a : list Value) : through_terminal a `sublist_of` a.
Proof. induction a as [|x a IH]; cbn; [done|]. apply sublist_skip. destruct (closes_stream x); [apply sublist_nil_l|done]. Qed.

(** The stream of a log with one event that closes it: up to that event, or without it when it was lost. *)
Lemma through_lossy cap before e after history sent (ds : list (@Delivery Value)) :
  Forall quiet (before ++ after) -> closes_stream e = true -> history ++ sent = before ++ e :: after -> receives cap sent ds ->
  (exists kept, task_events history ds = kept ++ [e] /\ kept `sublist_of` before) \/
  ((cap <= length after)%nat /\ task_events history ds `sublist_of` before ++ after).
Proof.
  intros Hq He Es Hr. pose proof Hq as [Hb Ha]%Forall_app. unfold task_events.
  assert (Hend : forall k l, Forall quiet k -> through_terminal (k ++ e :: l) = k ++ [e]).
  { intros k l Hk. rewrite through_app by done. cbn. by rewrite He. }
  destruct (decide (length history <= length before)%nat) as [Hle|Hgt].
  - assert (exists k, before = history ++ k /\ sent = k ++ e :: after) as (k & -> & ->).
    { apply app_eq_inv in Es as [(k & -> & E)|(k & -> & ->)]; [|by exists k].
      rewrite length_app in Hle. destruct k; [|cbn in Hle; lia]. exists []. by rewrite !app_nil_r, E. }
    apply Forall_app in Hb as [Hh Hk].
    destruct (proj1 (sublist_app_r _ _ _) (receives_sublist _ _ _ Hr)) as (l1 & l2 & El & S1 & S2). rewrite El.
    assert (Forall quiet l1) as H1 by (by eapply Forall_sublist).
    apply sublist_cons_r in S2 as [S2|(l2' & -> & S2)].
    + right. assert (Forall quiet l2) as H2 by (by eapply Forall_sublist). split.
      * apply Nat.nlt_ge. intros Hlt. destruct (receives_recent cap k (e :: after) ds Hr) as [got Eg]; [cbn; lia|].
        assert (Forall quiet (omap delivered ds)) as Hall by (rewrite El; by apply Forall_app).
        rewrite Eg in Hall. apply Forall_app in Hall as [_ [Hq1 _]%Forall_cons]. unfold quiet in Hq1. congruence.
      * rewrite through_quiet by by rewrite !Forall_app. rewrite <- app_assoc. by repeat apply sublist_app.
    + left. exists (history ++ l1). rewrite app_assoc, Hend by by apply Forall_app. split; [done|]. by apply sublist_app.
  - apply app_eq_inv in Es as [(k & -> & E)|(k & -> & _)]; [|rewrite length_app in Hgt; lia].
    destruct k as [|x k]; [rewrite app_nil_r in Hgt; lia|]. injection E as <- ->. left. exists before. split; [|done].
    rewrite <- app_assoc. cbn. by apply Hend.
Qed.

End Streams.

(** ** Examples *)

Section Examples.
#[local] Existing Instance ex_tasks_json.
#[local] Instance ex_tree_laws : JsonLaws tree := tree_laws [].

(** The agent's answer as its sink sends it, after the start of the task. *)
Definition ex_sink : EngineActivitySink := {| sink_task_id := "t1"; sink_seq := 0; mirrors := true |}.
Definition ex_spoken : list (N * @TaskOp tree (list str) (list ToolApprovalResponse)) := sink_ops (Token "hello") 2 ex_sink ++ ex_dialogue.
Definition ex_finished := default (manager_new 3600) (task_history ex_send ex_send ex_spoken ex_mid).

Lemma ex_spoken_quiet : Forall (sends quiet) (ex_start ++ ex_spoken).
Proof. unfold ex_spoken. rewrite !Forall_app. split; [repeat constructor|]. split; [apply sink_quiet|repeat constructor]. Qed.
Lemma ex_spoken_ids : NoDup (omap created_id (ex_start ++ ex_spoken)).
Proof. apply (bool_decide_unpack _). vm_compute. exact I. Qed.

Definition ex_live : list (@Delivery tree) := List.map Ok (sent_since 1 (event_tx (ex_record ex_finished))).
Lemma receives_lossless cap (sent : list tree) : receives cap sent (List.map Ok sent).
Proof. induction sent; constructor; assumption. Qed.


(** A client that is a ring behind when the task ends, and reads on only after as many more events, never sees the
    end, and its stream stays open. *)
Example end_can_be_lost (end_ : tree) (late : list tree) : length late = EVENT_CHANNEL_CAPACITY -> Forall quiet late ->
  receives EVENT_CHANNEL_CAPACITY (end_ :: late) (Err 1%nat :: List.map Ok late) /\
  task_events [] (Err 1%nat :: List.map Ok late) = late.
Proof.
  intros Hl Hq. split.
  - apply (receives_lagged _ [end_]); [discriminate|by rewrite Hl|apply receives_lossless].
  - unfold task_events. cbn [app omap list_omap delivered]. clear Hl. induction Hq as [|e late He _ IH]; [reflexivity|].
    cbn. unfold quiet in He. rewrite He. f_equal. exact IH.
Qed.

(** The sink counts its events from zero and the manager its own from the number of its handle, into one log:
    an event of an agent comes after a transition with a higher number. *)
Example numbers_go_back :
  List.map (fun e => value_get (lit "seq") e) (log (event_tx (ex_record ex_finished))) =
    [Some (Number 1); Some (Number 0); Some (Number 2); None; Some (Number 3); Some (Number 4)].
Proof. vm_compute. reflexivity. Qed.
End Examples.
