(* ===== verification/Workspace.v ===== *)
(** * The workspace of a task

    Models the files that [spawn_task] of [crates/simulacra-server/src/engine.rs] puts into the filesystem of
    a new task (its description, attachments, skills and the agent's files) and the rendering of catalog
    skills of [crates/simulacra-catalog/src/skill_fs.rs].  The error is the text of the [VfsError] that
    spawning fails with.

    Parameters: base64, the YAML of a skill and the store of agent files. *)

From S2P Require Import Prelude.
From S2P Require Import Text.
From S2P Require Import Json.
From S2P Require Import Capability.
From S2P Require Import Segments.
From S2P Require Import Vfs.
From S2P Require Import Tenancy.
From S2P Require MemoryFs.

Section Workspace.
Context {Value : Type} `{JsonOps Value}.
Context (base64_decode : str -> result bytes str) (to_yaml : Value -> option str).

(** *** Catalog skills ([skill_fs.rs]) *)

Record Skill := { skill_name : str; skill_description : option str; skill_body : str; skill_metadata : option Value }.

Definition is_valid_skill_path_name (name : str) : bool :=
  negb (str_eqb name []) && negb (str_eqb name ".") && negb (str_eqb name "..") &&
  negb (contains_char "/" name) && negb (contains_char "\" name) && negb (contains_char (ascii_of_nat 0) name).

Definition not_blank (s : option str) : option str :=
  match s with Some s => if str_eqb (trim s) [] then None else Some s | None => None end.
Definition render (s : Skill) : str :=
  let frontmatter := match skill_metadata s ≫= as_object with Some fields => fields | None => [] end in
  let frontmatter := put_field "name" (json_string (skill_name s)) frontmatter in
  let description := unwrap_or (option_or (not_blank (skill_description s)) (not_blank (map_get "description" frontmatter ≫= as_str)))
                       (skill_name s) in
  let frontmatter := put_field "description" (json_string description) frontmatter in
  lit "---" ++ [lf] ++ unwrap_or (to_yaml (json_object frontmatter)) [] ++ lit "---" ++ [lf] ++ [lf] ++ skill_body s.

Definition lookup_file (skills : list Skill) (path : str) : option Skill :=
  match split_on "/" (unwrap_or (strip_prefix "/" path) path) with
  | [name; file] =>
      if negb (str_eqb file "SKILL.md") || negb (is_valid_skill_path_name name) then None
      else List.find (fun s => str_eqb (skill_name s) name) skills
  | _ => None
  end.
Definition skill_fs_read (skills : list Skill) (path : str) : result bytes VfsError :=
  match lookup_file skills path with Some s => Ok (render s) | None => Err (NotFound path) end.

(** *** Its files *)

Abbreviation Fs := (SE MemoryFs.State str).
Definition failing (prefix : str) (m : SE MemoryFs.State VfsError unit) : Fs unit :=
  se_map_err (fun e => prefix ++ vfs_error_to_string e) m.
(** [let _ =] on the result. *)
Definition quietly (m : SE MemoryFs.State VfsError unit) : Fs unit := let! _ := se_try m in se_ret tt.

Definition seed_attachment (filename : str) (a : FileAttachment) : Fs unit :=
  let! data := se_lift (match file_encoding a with
                        | Some encoding =>
                            if str_eqb encoding "base64" then
                              map_err (fun e => "invalid base64 in '" ++ filename ++ "': " ++ e) (base64_decode (file_data a))
                            else Ok (file_data a)
                        | None => Ok (file_data a)
                        end) in
  let path := "/workspace/" ++ filename in
  let! _ := match rsplit_once "/" path with
            | Some (parent, _) => if str_eqb parent "/workspace" then se_ret tt else quietly (MemoryFs.mkdir parent)
            | None => se_ret tt
            end in
  failing ("failed to seed '" ++ filename ++ "': ") (MemoryFs.write path data).

Definition seed_attachments (files : list (str * FileAttachment)) : Fs unit :=
  se_for files (fun '(filename, a) => seed_attachment filename a).

Definition validate_catalog_skill_name_for_vfs (name : str) : result unit str :=
  if is_valid_skill_path_name name then Ok tt
  else Err ("invalid catalog skill name for VFS path segment: " ++ debug_str name).

Definition mount_skill (skills : list Skill) (s : Skill) : Fs unit :=
  let! _ := se_lift (validate_catalog_skill_name_for_vfs (skill_name s)) in
  let! body := se_lift (map_err (fun e => ("failed to render catalog skill '" ++ skill_name s ++ "': " ++ vfs_error_to_string e))
                          (skill_fs_read skills ("/" ++ skill_name s ++ "/SKILL.md"))) in
  let! _ := failing "failed to mount catalog skill: " (MemoryFs.write ("/skills/" ++ skill_name s ++ "/SKILL.md") body) in
  failing "failed to mount catalog skill: " (MemoryFs.write ("/var/skills/" ++ skill_name s ++ ".md") body).

Record AgentFile := { file_id : str; file_name : str }.
Definition mount_file (get : str -> result bytes str) (f : AgentFile) : Fs unit :=
  let! data := se_lift (map_err (fun e => "failed to load agent file '" ++ file_name f ++ "': " ++ e) (get (file_id f))) in
  failing ("failed to mount agent file '" ++ file_name f ++ "': ") (MemoryFs.write ("/var/agent_files/" ++ file_name f) data).

Definition seed_workspace (store : option (str -> result bytes str)) (description : str)
    (files : option (list (str * FileAttachment))) (skills : list Skill) (agent_files : list AgentFile) : Fs unit :=
  let! _ := quietly (MemoryFs.mkdir "/workspace") in
  let! _ := failing "failed to seed task.md: " (MemoryFs.write "/workspace/task.md" description) in
  let! _ := match files with Some files => seed_attachments files | None => se_ret tt end in
  let! _ := quietly (MemoryFs.mkdir "/skills") in
  let! _ := quietly (MemoryFs.mkdir "/var") in
  let! _ := quietly (MemoryFs.mkdir "/var/skills") in
  let! _ := se_for skills (mount_skill skills) in
  let! _ := quietly (MemoryFs.mkdir "/var/agent_files") in
  match store with
  | Some get => se_for agent_files (mount_file get)
  | None => se_ret tt
  end.
End Workspace.
Arguments Skill : clear implicits.

(** ** Attachments stay in the workspace *)

Section Attachments.
Context (base64_decode : str -> result bytes str).
Abbreviation seed := (seed_attachments base64_decode).

(** A path without parent components only goes down. *)
Lemma fold_down ws acc : Forall (fun w => w <> lit "..") ws -> acc `prefix_of` fold_left normalize_segment ws acc.
Proof.
  intros Hw. revert acc. induction Hw as [|w ws Hne _ IH]; intros acc; [done|]. cbn [fold_left]. unfold normalize_segment at 2.
  destruct (_ || _); [apply IH|]. destruct (str_eqb w "..") eqn:E; [by bools|]. etrans; [|apply IH]. by eexists.
Qed.

(** The directory of attachments, and where one goes. *)
Definition workspace : list str := [lit "workspace"].
Definition place (filename : str) : list str := segs_of ("/workspace/" ++ filename).

Lemma split_place filename : split_on "/" ("/workspace/" ++ filename) = [[]; lit "workspace"] ++ split_on "/" filename.
Proof.
  change ("/workspace/" ++ filename) with ([] ++ "/"%char :: lit "workspace" ++ "/"%char :: filename). by rewrite !split_on_app_sep.
Qed.

Lemma no_parents total filename a data :
  check_attachment base64_decode total filename a = Ok data -> Forall (fun w => w <> lit "..") (split_on "/" filename).
Proof.
  unfold check_attachment. destruct (str_eqb filename []); [done|]. destruct (starts_with "/" filename); [done|].
  destruct (existsb _ _) eqn:E; [done|]. intros _. apply Forall_forall. intros w Hw ->. apply not_true_iff_false in E. apply E, existsb_exists.
  exists (lit ".."). split; [by apply list_elem_of_In|apply str_eqb_refl].
Qed.

Lemma checked_place total filename a data :
  check_attachment base64_decode total filename a = Ok data -> workspace `prefix_of` place filename.
Proof.
  intros Hc. unfold place, segs_of.
  rewrite split_place. change (fold_left normalize_segment _ _) with (fold_left normalize_segment (split_on "/" filename) workspace).
  by eapply fold_down, no_parents.
Qed.

Lemma checked_data total filename a data :
  check_attachment base64_decode total filename a = Ok data ->
  match file_encoding a with
  | Some encoding => if str_eqb encoding "base64" then base64_decode (file_data a) = Ok data else data = file_data a
  | None => data = file_data a
  end.
Proof.
  unfold check_attachment. destruct (str_eqb filename []); [done|]. destruct (starts_with "/" filename); [done|].
  destruct (existsb _ _); [done|]. unfold decode_attachment. destruct (file_encoding a) as [encoding|].
  - destruct (str_eqb encoding "utf8") eqn:E1.
    + apply str_eqb_true in E1 as ->. change (str_eqb (lit "utf8") "base64") with false. cbv iota. cbn. intros E. repeat case_match; congruence.
    + destruct (str_eqb encoding "base64"); [|done]. destruct (base64_decode _) as [d|]; [|done]. cbn. intros E. repeat case_match; congruence.
  - cbn. intros E. repeat case_match; congruence.
Qed.

Lemma read_at s p : MemoryFs.read s p = match MemoryFs.mem_at s (segs_of p) with
  | Some (FileNode d) => Ok d | Some DirNode => Err (NotAFile (normalize p)) | None => Err (NotFound (normalize p)) end.
Proof.
  unfold MemoryFs.read, MemoryFs.mem_at, MemoryFs.at_map. rewrite <- normalize_str. by destruct (MemoryFs.map s !! normalize p) as [[]|].
Qed.

(** Where a call does not go, files and directories stay. *)
Lemma outcome_frame s ts res q :
  MemoryFs.mem_inv s -> MemoryFs.outcome s ts res -> Forall plain_segment q ->
  (forall t, t ∈ ts -> ~ MemoryFs.disturbs_segs (MemoryFs.mem_at s) t q) ->
  MemoryFs.mem_inv (fst res) /\ MemoryFs.mem_at (fst res) q = MemoryFs.mem_at s q.
Proof.
  intros Hi Ho Hq Hd. destruct res as [s' [[]|e]]; cbn in *; [|by subst].
  split; [by eapply MemoryFs.effect_inv|]. by eapply MemoryFs.effect_frame; [apply Hi|..].
Qed.

(** A path that something is stored at is disturbed only by a call on it. *)
Lemma stored_spared s p q : MemoryFs.mem_inv s -> Forall plain_segment q -> MemoryFs.mem_at s q <> None -> q <> p ->
  ~ MemoryFs.disturbs_segs (MemoryFs.mem_at s) (p, false) q.
Proof.
  intros [Hs _] Hq Hst Hne [E|[[Hpre [E|E]]|[_ E]]]; cbn in *; try done.
  apply MemoryFs.at_map_None in E. apply MemoryFs.at_map_Some in Hst. apply (MemoryFs.shape_closed _ Hs p q Hq Hpre) in Hst as [e He]. congruence.
Qed.

(** A path outside of the workspace is not disturbed by a call inside of it. *)
Lemma outside_spared s p q : MemoryFs.mem_inv s -> workspace `prefix_of` p -> ~ workspace `prefix_of` q ->
  ~ MemoryFs.disturbs_segs (MemoryFs.mem_at s) (p, false) q.
Proof.
  intros [Hs _] Hp Hq [E|[[Hpre _]|[Hpre E]]]; cbn in *; [by subst|by destruct Hq; etrans|].
  destruct Hpre as [k ->]. destruct q as [|w q].
  - apply MemoryFs.at_map_None in E. change (path_str []) with (lit "/") in E. by rewrite (MemoryFs.shape_root _ Hs) in E.
  - destruct Hp as [k' E']. cbn in E'. injection E' as -> E'. destruct Hq. by exists q.
Qed.

(** The directory that is made for an attachment is the workspace or below it. *)
Lemma parent_place total filename a data parent leaf :
  check_attachment base64_decode total filename a = Ok data -> rsplit_once "/" ("/workspace/" ++ filename) = Some (parent, leaf) ->
  workspace `prefix_of` segs_of parent.
Proof.
  intros Hc [E Hl]%rsplit_once_split. pose proof (split_place filename) as Es. rewrite E, split_on_app_sep, (split_on_no_occ _ leaf Hl) in Es.
  pose proof (split_on_nonempty "/" filename) as Hne. destruct (exists_last Hne) as (l & x & El). rewrite El, app_assoc in Es.
  apply app_inj_tail in Es as [Es _]. unfold segs_of. rewrite Es. change (fold_left normalize_segment _ _) with (fold_left normalize_segment l workspace).
  apply fold_down. apply no_parents in Hc. rewrite El in Hc. by apply Forall_app in Hc as [Hc _].
Qed.

(** One attachment: it is stored, and what lies outside of the workspace or at another file's place stays. *)
Lemma seed_attachment_ok total filename a data s :
  check_attachment base64_decode total filename a = Ok data -> MemoryFs.mem_inv s ->
  let s' := fst (seed_attachment base64_decode filename a s) in
  snd (seed_attachment base64_decode filename a s) = Ok tt /\ MemoryFs.mem_inv s' /\
  MemoryFs.read s' ("/workspace/" ++ filename) = Ok data /\
  (forall q, Forall plain_segment q -> ~ workspace `prefix_of` q -> MemoryFs.mem_at s' q = MemoryFs.mem_at s q) /\
  (forall q d, Forall plain_segment q -> q <> place filename -> MemoryFs.mem_at s q = Some (FileNode d) -> MemoryFs.mem_at s' q = Some (FileNode d)).
Proof.
  intros Hc Hi. pose proof (checked_place _ _ _ _ Hc) as Hp. pose proof (checked_data _ _ _ _ Hc) as Hd.
  assert (match file_encoding a with
          | Some encoding => if str_eqb encoding "base64" then map_err (fun e => "invalid base64 in '" ++ filename ++ "': " ++ e) (base64_decode (file_data a))
                             else Ok (file_data a)
          | None => Ok (file_data a)
          end = Ok data) as Ed.
  { destruct (file_encoding a) as [encoding|]; [destruct (str_eqb encoding "base64"); [by rewrite Hd|]|]; congruence. }
  set (m := match rsplit_once "/" ("/workspace/" ++ filename) with
            | Some (parent, _) => if str_eqb parent "/workspace" then se_ret tt else quietly (MemoryFs.mkdir parent)
            | None => se_ret tt
            end).
  assert (seed_attachment base64_decode filename a s =
    se_bind m (fun _ => failing ("failed to seed '" ++ filename ++ "': ") (MemoryFs.write ("/workspace/" ++ filename) data)) s) as ->
    by (unfold seed_attachment; by rewrite Ed).
  assert (exists s1, m s = (s1, Ok tt) /\ MemoryFs.mem_inv s1 /\
    (forall q, Forall plain_segment q -> ~ workspace `prefix_of` q -> MemoryFs.mem_at s1 q = MemoryFs.mem_at s q) /\
    (forall q d, Forall plain_segment q -> MemoryFs.mem_at s q = Some (FileNode d) -> MemoryFs.mem_at s1 q = Some (FileNode d)))
    as (s1 & Em & Hi1 & Hout & Hkeep).
  { subst m. destruct (rsplit_once _ _) as [[parent leaf]|] eqn:Er; [|by exists s].
    destruct (str_eqb parent "/workspace"); [by exists s|]. pose proof (parent_place _ _ _ _ _ _ Hc Er) as Hpp.
    unfold quietly, se_bind, se_try. destruct (MemoryFs.mkdir parent s) as [s1 r1] eqn:E1. exists s1. split; [done|].
    pose proof (MemoryFs.mkdir_outcome parent s (proj1 Hi)) as Ho. rewrite E1 in Ho.
    assert (forall q, Forall plain_segment q -> (forall t, t ∈ [(segs_of parent, false)] -> ~ MemoryFs.disturbs_segs (MemoryFs.mem_at s) t q) ->
      MemoryFs.mem_inv s1 /\ MemoryFs.mem_at s1 q = MemoryFs.mem_at s q) as Hf by (intros q Hq Ht; exact (outcome_frame s _ _ q Hi Ho Hq Ht)).
    assert (MemoryFs.mem_inv s1) as Hi1.
    { apply (Hf []); [constructor|]. intros t ->%list_elem_of_singleton. by apply outside_spared; [..|intros [? ?]]. }
    split_and!; [done| |].
    - intros q Hq Hn. apply Hf; [done|]. intros t ->%list_elem_of_singleton. by apply outside_spared.
    - intros q d Hq Eq. destruct (decide (q = segs_of parent)) as [->|Hne].
      + assert (s1 = s) as ->; [|done]. unfold MemoryFs.mkdir, se_bind, se_get in E1. rewrite normalize_str in E1.
        unfold MemoryFs.mem_at, MemoryFs.at_map in Eq. destruct (MemoryFs.map s !! _) as [[]|]; try done. unfold se_err in E1. congruence.
      + rewrite <- Eq. apply Hf; [done|]. intros t ->%list_elem_of_singleton. by apply stored_spared; [..|congruence|]. }
  unfold se_bind. rewrite Em. unfold failing, se_map_err. pose proof (MemoryFs.write_outcome ("/workspace/" ++ filename) data s1) as Ho.
  destruct (MemoryFs.write ("/workspace/" ++ filename) data s1) as [s2 [[]|e]] eqn:E2; cbn [fst snd].
  2:{ exfalso. unfold MemoryFs.write in E2. destruct (str_eqb (normalize _) "/") eqn:Er; [|done].
      apply normalize_is_root in Er. destruct Hp as [k Hk]. unfold place in Hk. by rewrite Er in Hk. }
  assert (forall q, Forall plain_segment q -> ~ MemoryFs.disturbs_segs (MemoryFs.mem_at s1) (place filename, false) q ->
    MemoryFs.mem_inv s2 /\ MemoryFs.mem_at s2 q = MemoryFs.mem_at s1 q) as Hf.
  { intros q Hq Ht. apply (outcome_frame s1 [(place filename, false)] (s2, Ok tt) q Hi1 Ho Hq). by intros t ->%list_elem_of_singleton. }
  split_and!; [done| |by eapply MemoryFs.write_read| |].
  - apply (Hf []); [constructor|]. by apply outside_spared; [..|intros [? ?]].
  - intros q Hq Hn. rewrite <- Hout by done. apply Hf; [done|]. by apply outside_spared.
  - intros q d Hq Hne Eq. apply Hkeep in Eq; [|done]. rewrite <- Eq. apply Hf; [done|]. by apply stored_spared; [..|congruence|].
Qed.
Lemma seed_loop files total datas s :
  attachments_loop base64_decode total files = Ok datas -> MemoryFs.mem_inv s ->
  let s' := fst (seed files s) in
  snd (seed files s) = Ok tt /\ MemoryFs.mem_inv s' /\
  (forall q, Forall plain_segment q -> ~ workspace `prefix_of` q -> MemoryFs.mem_at s' q = MemoryFs.mem_at s q) /\
  (forall q d, Forall plain_segment q -> q ∉ List.map (fun f => place (fst f)) files ->
     MemoryFs.mem_at s q = Some (FileNode d) -> MemoryFs.mem_at s' q = Some (FileNode d)) /\
  (NoDup (List.map (fun f => place (fst f)) files) -> Forall (fun '(filename, data) => MemoryFs.read s' ("/workspace/" ++ filename) = Ok data) datas).
Proof.
  revert total datas s. induction files as [|[filename a] files IH]; intros total datas s E Hi.
  { cbn in E. injection E as <-. by split_and!. }
  cbn [attachments_loop] in E. destruct (check_attachment base64_decode total filename a) as [data|] eqn:Ec; [|done]. cbn in E.
  destruct (attachments_loop base64_decode _ files) as [rest|] eqn:El; [|done]. cbn in E. injection E as <-.
  destruct (seed_attachment_ok _ _ _ _ s Ec Hi) as (Hok & Hi1 & Hr & Hout & Hkeep).
  assert (seed ((filename, a) :: files) s = seed files (fst (seed_attachment base64_decode filename a s))) as ->.
  { unfold seed_attachments at 1. cbn [se_for]. unfold se_bind. destruct (seed_attachment _ _ _ s) as [s1 r1]. cbn in Hok. by subst r1. }
  set (s1 := fst (seed_attachment _ _ _ s)) in *. destruct (IH _ _ s1 El Hi1) as (Hok2 & Hi2 & Hout2 & Hkeep2 & Hread2).
  split_and!; [done|done| | |].
  - intros q Hq Hn. rewrite Hout2 by done. by apply Hout.
  - intros q d Hq Hn Eq. cbn [List.map fst] in Hn. apply not_elem_of_cons in Hn as [Hn1 Hn2]. apply Hkeep2; [done|done|]. by apply Hkeep.
  - cbn [List.map fst]. intros [Hn Hd]%NoDup_cons. constructor; [|by apply Hread2]. rewrite read_at in Hr |- *.
    destruct (MemoryFs.mem_at s1 (segs_of ("/workspace/" ++ filename))) as [[d|]|] eqn:Ea; try done. injection Hr as ->.
    rewrite (Hkeep2 _ data); [done|apply segs_of_plain|exact Hn|exact Ea].
Qed.

(** Attachments that the server lets in are put into the workspace as they were sent, and nowhere else:
    seeding them succeeds, whatever is at their paths; each is read back at its place with the bytes that were
    checked, if no two have the same place; and no path outside of the workspace changes. *)
Theorem attachments_stay_in_workspace files datas s :
  validate_attachments base64_decode files = Ok datas -> MemoryFs.mem_inv s ->
  exists s', seed files s = (s', Ok tt) /\ MemoryFs.mem_inv s' /\
    (forall q, Forall plain_segment q -> ~ workspace `prefix_of` q -> MemoryFs.mem_at s' q = MemoryFs.mem_at s q) /\
    (NoDup (List.map (fun f => place (fst f)) files) ->
       Forall (fun '(filename, data) => MemoryFs.read s' ("/workspace/" ++ filename) = Ok data) datas).
Proof.
  intros E Hi. destruct (seed_loop files 0 datas s E Hi) as (Hok & Hi' & Hout & _ & Hread). exists (fst (seed files s)).
  split_and!; [|done|done|done]. by rewrite <- Hok, <- surjective_pairing.
Qed.
End Attachments.

Section Examples.
Definition ex_files : list (str * FileAttachment) :=
  [(lit "src/main.rs", {| file_data := "fn main"; file_encoding := Some (lit "utf8") |}); (lit "src", {| file_data := "c3Jj"; file_encoding := Some (lit "base64") |})].
Definition ex_decode (s : str) : result bytes str := if str_eqb s "c3Jj" then Ok (lit "src") else Err (lit "bad").
Definition ex_base : MemoryFs.State := fst (MemoryFs.write "/etc/hosts" "me" MemoryFs.new).

Lemma attachments_stay_in_workspace_witness :
  exists s', seed_attachments ex_decode ex_files ex_base = (s', Ok tt) /\ MemoryFs.read s' "/workspace/src/main.rs" = Ok (lit "fn main") /\
    MemoryFs.mem_at s' [lit "etc"; lit "hosts"] = MemoryFs.mem_at ex_base [lit "etc"; lit "hosts"].
Proof.
  assert (MemoryFs.mem_inv ex_base) as Hi.
  { apply (MemoryFs.effect_inv MemoryFs.new [(segs_of "/etc/hosts", false)]); [apply MemoryFs.new_inv|].
    apply (MemoryFs.write_outcome "/etc/hosts" (lit "me") MemoryFs.new). }
  destruct (attachments_stay_in_workspace ex_decode ex_files [(lit "src/main.rs", lit "fn main"); (lit "src", lit "src")] ex_base)
    as (s' & E & _ & Hout & Hread); [vm_compute; reflexivity|exact Hi|].
  exists s'. split; [exact E|]. split.
  - assert (NoDup (List.map (fun f => place (fst f)) ex_files)) as Hd by (apply (bool_decide_unpack _); vm_compute; exact I).
    specialize (Hread Hd). apply Forall_cons in Hread as [Hread _]. exact Hread.
  - apply Hout; [apply (segs_of_plain "/etc/hosts")|]. intros [k Hk]. discriminate.
Defined.

(** An attachment named as the description of the task replaces it. *)
Example attachment_replaces_description :
  let (s, r) := seed_workspace (Value := str) (H := text_json) ex_decode (fun _ => None) None "build it"
    (Some [(lit "task.md", {| file_data := "do something else"; file_encoding := None |})]) [] [] MemoryFs.new in
  r = Ok tt /\ MemoryFs.read s "/workspace/task.md" = Ok (lit "do something else").
Proof. vm_compute. split; reflexivity. Qed.
End Examples.
