(* ===== verification/Engine.v ===== *)
(** * The engine of the server

    Models [crates/simulacra-server/src/pool.rs], and of [engine.rs] how a task is spawned: the agent that is
    resolved for it, its authority, the pool that runs it and what becomes of it.

    Parameters: the lookups of the catalog, the parser of decimal numbers and the environment, and those of
    the workspace.  A method of the pool is atomic, as is one of the task manager.
    What a worker does with a task once it has started is any sequence of calls to the manager. *)

From S2P Require Import Prelude.
From S2P Require Import Text.
From S2P Require Import Json.
From S2P Require Import PathGlob.
From S2P Require Import Capability.
From S2P Require Import Segments.
From S2P Require Import Vfs.
From S2P Require Import Tenancy.
From S2P Require Import Tasks.
From S2P Require Import TaskEvents.
From S2P Require Import Workspace.
From S2P Require Budget.
From S2P Require MemoryFs.
From S2P Require ReadOnlyPathGuard.
From S2P Require SpawnTool.
From S2P Require Supervisor.

(** ** The worker pool ([pool.rs]) *)

Definition default_worker_count (parallelism : option N) : N := match parallelism with Some n => N.min n 8 | None => 4 end.
Definition default_queue_capacity : nat := 1000.

Section Pool.
Context {W : Type}.

(** A worker waits for work, has received it, runs it, or its thread has ended. *)
Variant Worker := Idle | Holding (w : W) | Busy (w : W) | Finished.
Record AgentWorkerPool := { queue : list W; workers : list Worker; capacity : nat; shutdown : bool }.

Definition pool_new (count cap : nat) : AgentWorkerPool :=
  {| queue := []; workers := repeat Idle count; capacity := cap; shutdown := false |}.
Definition set_queue (q : list W) (p : AgentWorkerPool) : AgentWorkerPool :=
  {| queue := q; workers := workers p; capacity := capacity p; shutdown := shutdown p |}.
Definition set_workers (ws : list Worker) (p : AgentWorkerPool) : AgentWorkerPool :=
  {| queue := queue p; workers := ws; capacity := capacity p; shutdown := shutdown p |}.

Definition respawn (w : Worker) : Worker := match w with Finished => Idle | w => w end.
Definition check_and_respawn (p : AgentWorkerPool) : AgentWorkerPool := set_workers (List.map respawn (workers p)) p.

(** [try_send] on a bounded channel: one that holds nothing gives the work to a waiting worker. *)
Fixpoint hand_over (w : W) (ws : list Worker) : option (list Worker) :=
  match ws with
  | [] => None
  | Idle :: ws => Some (Holding w :: ws)
  | other :: ws => cons other <$> hand_over w ws
  end.
Definition try_send (w : W) (p : AgentWorkerPool) : option AgentWorkerPool :=
  if (capacity p =? 0)%nat then ws ← hand_over w (workers p); Some (set_workers ws p)
  else if (length (queue p) <? capacity p)%nat then Some (set_queue (queue p ++ [w]) p)
  else None.

Variant PoolError := PoolExhausted | PoolShutdown.
Definition submit (w : W) : SE AgentWorkerPool PoolError unit := fun p =>
  if shutdown p then (p, Err PoolShutdown)
  else
    let p := check_and_respawn p in
    match try_send w p with Some p => (p, Ok tt) | None => (p, Err PoolExhausted) end.

(** The loop of a worker: it receives the oldest item, runs it and receives again. *)
Definition take (i : nat) (p : AgentWorkerPool) : option (AgentWorkerPool * W) :=
  match workers p !! i, queue p with
  | Some Idle, w :: q => Some (set_workers (<[i := Holding w]> (workers p)) (set_queue q p), w)
  | _, _ => None
  end.
Definition set_worker (i : nat) (w : Worker) (p : AgentWorkerPool) : AgentWorkerPool := set_workers (<[i := w]> (workers p)) p.
End Pool.
Arguments Worker : clear implicits.
Arguments AgentWorkerPool : clear implicits.

(** ** Providers ([engine.rs]) *)

Variant EngineError :=
| AgentNotFound (tenant agent : str)
| CatalogFailed (message : str)
| TenantFailed (message : str)
| VfsFailed (message : str)
| TaskManagerFailed (e : TaskManagerError)
| MissingEnvVar (name : str)
| PoolFailed (e : PoolError)
| Internal (message : str).
Definition engine_error_to_string (e : EngineError) : str :=
  match e with
  | AgentNotFound t a => "agent '" ++ a ++ "' not found in catalog for tenant '" ++ t ++ "'"
  | CatalogFailed m => "catalog error: " ++ m
  | TenantFailed m => "tenant error: " ++ m
  | VfsFailed m => "VFS construction failed: " ++ m
  | TaskManagerFailed e => "task manager error: " ++ task_manager_error_to_string e
  | MissingEnvVar n => "missing environment variable: " ++ n
  | PoolFailed PoolExhausted => "worker pool exhausted — queue at capacity"
  | PoolFailed PoolShutdown => "worker pool is shutting down"
  | Internal m => "internal error: " ++ m
  end.

Variant ProviderKind := Anthropic | OpenAI | Ollama.
(** Every model has a provider. *)
Definition infer_provider_kind (model : str) : ProviderKind :=
  if starts_with "claude-" model then Anthropic else if starts_with "ollama:" model then Ollama else OpenAI.
Definition build_provider (env : str -> option str) (model : str) : result ProviderKind EngineError :=
  let kind := infer_provider_kind model in
  let? _ := match kind with
            | Anthropic => ok_or (env "ANTHROPIC_API_KEY") (MissingEnvVar "ANTHROPIC_API_KEY")
            | OpenAI => ok_or (env "OPENAI_API_KEY") (MissingEnvVar "OPENAI_API_KEY")
            | Ollama => Ok []
            end in
  Ok kind.

(** ** The authority of an agent *)

Definition normalize_mcp_capability (capability : str) : option str :=
  rest ← trim <$> strip_prefix "mcp:" capability;
  if str_eqb rest [] then None
  else if (length (split_on ":" rest) =? 1)%nat then Some ("mcp:" ++ rest ++ ":*") else Some ("mcp:" ++ rest).

(** [trim_start_matches] with a string. *)
Fixpoint trim_start_str (fuel : nat) (p s : str) : str :=
  match fuel with
  | O => s
  | S fuel => match strip_prefix p s with Some s => trim_start_str fuel p s | None => s end
  end.
Definition spawn_placement (capability : str) : str := trim (trim_start_str (length capability) "spawn:" capability).

(** What one of the agent's capabilities adds. *)
Definition grant (t : CapabilityToken) (cap : str) : CapabilityToken :=
  let trimmed := trim cap in
  let with_flags sh js py :=
    {| network := network t; mcp_tools := mcp_tools t; shell := sh; javascript := js; python := py;
       paths_write := paths_write t; paths_read := paths_read t; spawn_placements := spawn_placements t;
       skill_patterns := skill_patterns t; memory := memory t |} in
  let with_lists net mcp spawn skills :=
    {| network := net; mcp_tools := mcp; shell := shell t; javascript := javascript t; python := python t;
       paths_write := paths_write t; paths_read := paths_read t; spawn_placements := spawn;
       skill_patterns := skills; memory := memory t |} in
  if str_eqb trimmed [] then t
  else if str_eqb trimmed "shell" || str_eqb trimmed "shell:exec" then with_flags true (javascript t) (python t)
  else if str_eqb trimmed "javascript" || str_eqb trimmed "js" then with_flags (shell t) true (python t)
  else if str_eqb trimmed "python" || str_eqb trimmed "py" then with_flags (shell t) (javascript t) true
  else if starts_with "net:" trimmed then with_lists (network t ++ [trimmed]) (mcp_tools t) (spawn_placements t) (skill_patterns t)
  else if starts_with "mcp:" trimmed then
    match normalize_mcp_capability trimmed with
    | Some pattern => with_lists (network t) (mcp_tools t ++ [pattern]) (spawn_placements t) (skill_patterns t)
    | None => t
    end
  else if starts_with "skill:" trimmed then with_lists (network t) (mcp_tools t) (spawn_placements t) (skill_patterns t ++ [trimmed])
  else if starts_with "spawn:" trimmed then
    let placement := spawn_placement trimmed in
    if str_eqb placement [] then t
    else with_lists (network t) (mcp_tools t) (spawn_placements t ++ [placement]) (skill_patterns t)
  else t.
Definition locked_down : CapabilityToken :=
  {| network := []; mcp_tools := []; shell := false; javascript := false; python := false;
     paths_write := [lit "/**"]; paths_read := [lit "/**"]; spawn_placements := []; skill_patterns := []; memory := empty_memory |}.
Definition token_of_capabilities (capabilities : list str) : CapabilityToken := fold_left grant capabilities locked_down.

Definition mcp_capability_may_cover_server (patterns : list str) (server : str) : bool :=
  existsb (fun pattern =>
    match strip_prefix "mcp:" pattern ≫= split_once_str ":" with
    | Some (server_pattern, tool_pattern) =>
        negb (str_eqb tool_pattern []) && (str_eqb server_pattern "*" || str_eqb server_pattern server)
    | None => false
    end) patterns.

(** The capabilities of an agent type of the configuration, as a catalog keeps them. *)
Definition prefixed (p s : str) : str := if starts_with p s then s else p ++ s.
Definition agent_capabilities_from_config (capabilities : option SpawnTool.CapabilitiesConfig) (allowed_child_placements : list str)
    : list str :=
  match capabilities with
  | Some caps =>
      (if SpawnTool.caps_shell caps then [lit "shell:exec"] else []) ++
      (if SpawnTool.caps_javascript caps then [lit "javascript"] else []) ++
      (if SpawnTool.caps_python caps then [lit "python"] else []) ++
      List.map (prefixed "net:") (SpawnTool.caps_network caps) ++ List.map (prefixed "mcp:") (SpawnTool.caps_mcp caps)
  | None => []
  end ++ List.map (fun p => "spawn:" ++ p) allowed_child_placements.

(** ** Spawning *)

(** What the agent sees of it: three guards, one inside the other. *)
Definition read_only_spawn_snapshot_paths {Fs1 : Type} (vfs : Fs1)
    : ReadOnlyPathGuard.ReadOnlyPathGuard (ReadOnlyPathGuard.ReadOnlyPathGuard (ReadOnlyPathGuard.ReadOnlyPathGuard Fs1)) :=
  ReadOnlyPathGuard.guard_new (ReadOnlyPathGuard.guard_new (ReadOnlyPathGuard.guard_new vfs "/skills") "/var/skills") "/var/agent_files".

Section Agents.
Context {Value : Type}.

Record ResolvedAgent := {
  agent_name : str;
  agent_system_prompt : str;
  agent_model : str;
  agent_max_turns : N;
  agent_max_tokens : option N;
  agent_skills : list (Skill Value);
  agent_capabilities : list str;
  agent_files : list AgentFile;
}.
Variant CatalogError := CatalogNotFound | CatalogOther (message : str).
End Agents.
Arguments ResolvedAgent : clear implicits.

Section Engine.
Context {Value Decimal InputTx ApprovalTx : Type} `{JsonOps Value} `{Budget.DecimalOps Decimal}.
Context (base64_decode : str -> result bytes str) (to_yaml : Value -> option str) (parse_decimal : str -> option Decimal).
Context (send_input : InputTx -> str -> option InputTx) (send_approval : ApprovalTx -> ToolApprovalResponse -> option ApprovalTx).

(** What an engine is made with: the catalog, the store of agent files, whether a factory makes its
    providers, the environment and, of its configuration, the integrations and MCP servers and whether it
    names tenants. *)
Record EngineConfig := {
  get_by_namespace : str -> result str CatalogError;
  resolve_agent : str -> str -> result (ResolvedAgent Value) CatalogError;
  agent_file_store : option (str -> result bytes str);
  has_provider_factory : bool;
  environment : str -> option str;
  integration_names : list str;
  mcp_server_names : list str;
  has_tenants : bool;
  has_workflow_runtime : bool;
}.
Context (config : EngineConfig).

(** What a work item has from the time of its submission. *)
Record WorkItem := {
  work_task : str;
  work_description : str;
  work_system_prompt : str;
  work_model : str;
  work_max_turns : N;
  work_budget : @Budget.ResourceBudget Decimal;
  work_capability : CapabilityToken;
  work_integrations : list str;
  work_mcp_servers : list str;
  work_skills : list str;
  work_hitl : option bool;
  work_workflow : bool;
  work_token : N;
}.

(** The frozen view of a spawned task, and the state of an engine. *)
Record ResolvedAgentSnapshot := { snapshot_resolved : ResolvedAgent Value; snapshot_vfs : MemoryFs.State; snapshot_capability : CapabilityToken }.
Record EngineState := {
  manager : @TaskManager Value InputTx ApprovalTx;
  pool : AgentWorkerPool WorkItem;
  workspace_snapshots : gmap str MemoryFs.State;
  resolved_snapshots : gmap str ResolvedAgentSnapshot;
}.
Definition set_manager (m : TaskManager) (s : EngineState) : EngineState :=
  {| manager := m; pool := pool s; workspace_snapshots := workspace_snapshots s; resolved_snapshots := resolved_snapshots s |}.
Definition set_pool (p : AgentWorkerPool WorkItem) (s : EngineState) : EngineState :=
  {| manager := manager s; pool := p; workspace_snapshots := workspace_snapshots s; resolved_snapshots := resolved_snapshots s |}.
Definition freeze (id : str) (snap : ResolvedAgentSnapshot) (s : EngineState) : EngineState :=
  {| manager := manager s; pool := pool s; workspace_snapshots := <[id := snapshot_vfs snap]> (workspace_snapshots s);
     resolved_snapshots := <[id := snap]> (resolved_snapshots s) |}.

Definition on_manager {A} (m : SE (@TaskManager Value InputTx ApprovalTx) TaskManagerError A) : SE EngineState EngineError A :=
  fun s => let '(mgr, r) := m (manager s) in (set_manager mgr s, map_err TaskManagerFailed r).

Definition flag (key : str) (meta : Value) : bool := unwrap_or (value_get key meta ≫= as_bool) false.

(** The ids that a task of a tenant is granted: the tenant's, or all there are when no tenants are configured. *)
Definition granted (own all : list str) : list str :=
  match own with [] => if has_tenants config then [] else all | _ => own end.

Definition task_budget (t : TenantConfig) (r : ResolvedAgent Value) : @Budget.ResourceBudget Decimal :=
  Budget.budget_new
    (match agent_max_tokens r with Some n => n | None => pool_max_tokens (budget_pool t) end)
    (agent_max_turns r)
    (if str_eqb (pool_max_cost (budget_pool t)) [] then Budget.decimal_zero
     else unwrap_or (parse_decimal (pool_max_cost (budget_pool t))) Budget.decimal_zero)
    0.

Definition resolve_for (t : TenantConfig) (agent_type_name : str) : result (ResolvedAgent Value) EngineError :=
  let? row := map_err (fun e => match e with
                                | CatalogNotFound => TenantFailed ("tenant namespace not in catalog: " ++ namespace t)
                                | CatalogOther m => CatalogFailed m
                                end) (get_by_namespace config (namespace t)) in
  map_err (fun e => match e with
                    | CatalogNotFound => AgentNotFound (namespace t) agent_type_name
                    | CatalogOther m => CatalogFailed m
                    end) (resolve_agent config row agent_type_name).

Definition work_item (id : str) (token : N) (description : str) (t : TenantConfig) (meta : Value) (r : ResolvedAgent Value) : WorkItem :=
  {| work_task := id; work_description := description; work_system_prompt := agent_system_prompt r; work_model := agent_model r;
     work_max_turns := agent_max_turns r; work_budget := task_budget t r; work_capability := token_of_capabilities (agent_capabilities r);
     work_integrations := granted (tenant_integrations t) (integration_names config);
     work_mcp_servers := granted (mcp_servers t) (mcp_server_names config);
     work_skills := List.map skill_name (agent_skills r);
     work_hitl := if flag "enable_human_input" meta || flag "require_tool_approval" meta
                  then Some (flag "require_tool_approval" meta) else None;
     work_workflow := existsb (fun c => str_eqb c "workflow" || str_eqb c "workflow:run") (agent_capabilities r) && has_workflow_runtime config;
     work_token := token |}.

(** The part of [spawn_task] between the creation of the task and its submission: the provider is checked, the
    channels are handed over, and the workspace is filled and frozen. *)
Definition equip_task (now : N) (id : str) (token : N) (channels : InputTx * ApprovalTx) (description : str) (meta : Value)
    (files : option (list (str * FileAttachment))) (resolved : ResolvedAgent Value) : SE EngineState EngineError unit :=
  let! s := se_get in
  let! _ := match get_task id (manager s) with
            | Ok _ => se_ret tt
            | Err e =>
                let m := "failed to get event sender: " ++ task_manager_error_to_string e in
                let! _ := se_try (F := EngineError) (on_manager (complete_task id Failed (Some m) now)) in se_err (Internal m)
            end in
  let! _ := match build_provider (environment config) (agent_model resolved) with
            | Err e =>
                if has_provider_factory config then se_ret tt
                else
                  let! _ := se_try (F := EngineError) (on_manager (complete_task id Failed (Some (engine_error_to_string e)) now)) in se_err e
            | Ok _ => se_ret tt
            end in
  let! _ := se_try (on_manager (set_cancellation_token id token)) in
  let! _ := if flag "enable_human_input" meta || flag "require_tool_approval" meta
            then on_manager (set_hitl_senders id (fst channels) (snd channels)) else se_ret tt in
  let! vfs := se_lift (match seed_workspace base64_decode to_yaml (agent_file_store config) description files (agent_skills resolved)
                               (agent_files resolved) MemoryFs.new with
                       | (vfs, Ok _) => Ok vfs
                       | (_, Err m) => Err (VfsFailed m)
                       end) in
  se_modify (freeze id {| snapshot_resolved := resolved; snapshot_vfs := vfs;
                          snapshot_capability := token_of_capabilities (agent_capabilities resolved) |}).

Definition submit_work (w : WorkItem) : SE EngineState EngineError unit :=
  fun s => let '(p, r) := submit w (pool s) in (set_pool p s, map_err PoolFailed r).

(** [spawn_task] with a fresh id, cancellation token and pair of channels; [now] is when it is called. *)
Definition spawn_task (now : N) (id : str) (token : N) (channels : InputTx * ApprovalTx) (description : str) (t : TenantConfig)
    (agent_type_override : option str) (meta : Value) (files : option (list (str * FileAttachment))) (connection : option str)
    : SE EngineState EngineError TaskHandle :=
  let agent_type_name := unwrap_or agent_type_override (default_agent_type t) in
  let! resolved := se_lift (resolve_for t agent_type_name) in
  let! h := on_manager (create_pending_task id t description (Some agent_type_name) meta connection) in
  let! _ := equip_task now id token channels description meta files resolved in
  let! _ := submit_work (work_item id token description t meta resolved) in
  se_ret h.
End Engine.
Arguments WorkItem : clear implicits.
Arguments EngineState : clear implicits.
Arguments EngineConfig : clear implicits.

(** ** The life of an engine *)

Section System.
Context {Value Decimal InputTx ApprovalTx : Type} `{JsonOps Value} `{Budget.DecimalOps Decimal}.
Context (base64_decode : str -> result bytes str) (to_yaml : Value -> option str) (parse_decimal : str -> option Decimal).
Context (send_input : InputTx -> str -> option InputTx) (send_approval : ApprovalTx -> ToolApprovalResponse -> option ApprovalTx).
Context (config : EngineConfig Value).
Abbreviation Engine := (EngineState Value Decimal InputTx ApprovalTx).

(** An engine, what workers have reported and is not yet entered, and for the record the tasks that
    [spawn_task] accepted and those that workers received, in order. *)
Record System := { engine : Engine; reports : list (str * WorkerResult); accepted : list str; received_by_workers : list str }.

Definition engine_new (count cap : nat) (grace : N) : Engine :=
  {| manager := manager_new grace; pool := pool_new count cap; workspace_snapshots := ∅; resolved_snapshots := ∅ |}.
Definition system_new (count cap : nat) (grace : N) : System :=
  {| engine := engine_new count cap grace; reports := []; accepted := []; received_by_workers := [] |}.

Variant EngineOp :=
| Spawn (id : str) (token : N) (channels : InputTx * ApprovalTx) (description : str) (t : TenantConfig)
    (agent_type_override : option str) (meta : Value) (files : option (list (str * FileAttachment))) (connection : option str)
| Manage (op : @TaskOp Value InputTx ApprovalTx)
| Take (i : nat)
| Begin (i : nat) (runtime : result unit str)
| Report (i : nat) (r : WorkerResult)
| Enter (k : nat).

Definition with_engine (e : Engine) (s : System) : System :=
  {| engine := e; reports := reports s; accepted := accepted s; received_by_workers := received_by_workers s |}.
Definition with_reports (l : list (str * WorkerResult)) (s : System) : System :=
  {| engine := engine s; reports := l; accepted := accepted s; received_by_workers := received_by_workers s |}.
Definition with_record (acc rec : list str) (s : System) : System :=
  {| engine := engine s; reports := reports s; accepted := acc; received_by_workers := rec |}.

(** The end of worker [i]'s item, which it reports for [id]. *)
Definition report (i : nat) (id : str) (r : WorkerResult) (s : System) : System :=
  with_reports (reports s ++ [(id, r)]) (with_engine (set_pool (set_worker i Idle (pool (engine s))) (engine s)) s).

(** [None]: not possible in this state, or a panic. *)
Definition engine_step (now : N) (op : EngineOp) (s : System) : option System :=
  match op with
  | Spawn id token channels description t agent meta files connection =>
      let '(e, r) := spawn_task base64_decode to_yaml parse_decimal config now id token channels description t agent meta files connection (engine s) in
      let s' := with_engine e s in
      Some match r with
           | Ok _ => with_record (accepted s ++ [id])
                       (received_by_workers s ++ if (capacity (pool (engine s)) =? 0)%nat then [id] else []) s'
           | Err _ => s'
           end
  | Manage op => m ← task_run send_input send_approval now op (manager (engine s)); Some (with_engine (set_manager m (engine s)) s)
  | Take i =>
      '(p, w) ← take i (pool (engine s));
      Some (with_record (accepted s) (received_by_workers s ++ [work_task w]) (with_engine (set_pool p (engine s)) s))
  | Begin i runtime =>
      match workers (pool (engine s)) !! i with
      | Some (Holding w) =>
          Some match runtime with
               | Err e => report i (work_task w) (WorkerError ("failed to build agent runtime: " ++ e)) s
               | Ok _ =>
                   let '(m, r) := start_task (work_task w) now (manager (engine s)) in
                   let s := with_engine (set_manager m (engine s)) s in
                   match r with
                   | Ok _ => with_engine (set_pool (set_worker i (Busy w) (pool (engine s))) (engine s)) s
                   | Err e => report i (work_task w) (WorkerError ("failed to start task: " ++ task_manager_error_to_string e)) s
                   end
               end
      | _ => None
      end
  | Report i r =>
      match workers (pool (engine s)) !! i with
      | Some (Busy w) => Some (report i (work_task w) r s)
      | _ => None
      end
  | Enter k =>
      '(id, r) ← reports s !! k;
      Some (with_reports (delete k (reports s)) (with_engine (set_manager (finish_task id r now (manager (engine s))) (engine s)) s))
  end.

Fixpoint engine_history (ops : list (N * EngineOp)) (s : System) : option System :=
  match ops with
  | [] => Some s
  | (now, op) :: ops => engine_step now op s ≫= engine_history ops
  end.

Definition new_task (op : N * EngineOp) : option str :=
  match snd op with Spawn id _ _ _ _ _ _ _ _ => Some id | Manage op' => created_id (fst op, op') | _ => None end.

(** An agent loop that ends: it does not end to wait for an approval. *)
Definition ends (r : WorkerResult) : Prop := r <> WorkerExit Supervisor.AwaitingApproval.
Definition sound_op (op : N * EngineOp) : Prop := match snd op with Report _ r => ends r | _ => True end.

(** ** Where a task is *)

Definition worker_task (w : Worker (WorkItem Decimal)) : option str :=
  match w with Holding w | Busy w => Some (work_task w) | Idle | Finished => None end.
(** The tasks that are queued, with a worker, or reported. *)
Definition queued (s : System) : list str := List.map work_task (queue (pool (engine s))).
Definition at_work (s : System) : list str := queued s ++ omap worker_task (workers (pool (engine s))) ++ List.map fst (reports s).
Definition over (m : @TaskManager Value InputTx ApprovalTx) (id : str) : Prop :=
  forall r, tasks m !! id = Some r -> is_terminal (state (handle r)) = true.

(** The steps that workers and the engine still have to make. *)
Definition worker_steps (w : Worker (WorkItem Decimal)) : nat := match w with Holding _ => 3 | Busy _ => 2 | Idle | Finished => 0 end.
Definition pending_steps (s : System) : nat :=
  4 * length (queue (pool (engine s))) + list_sum (List.map worker_steps (workers (pool (engine s)))) + length (reports s).

Abbreviation msteps new := (rtc (mstep (InputTx := InputTx) (ApprovalTx := ApprovalTx) any_event new)).

Lemma msteps_weaken new m m' : msteps None m m' -> msteps new m m'.
Proof.
  intros Hs. induction Hs as [m|m1 m2 m3 H1 _ IH]; [apply rtc_refl|]. eapply rtc_l; [|exact IH]. clear IH.
  destruct H1; [done|by eapply step_move|by eapply step_touch|by eapply step_event|apply step_signal|apply step_cleanup].
Qed.

Lemma task_op_steps now op m m' :
  task_run send_input send_approval now op m = Some m' -> (forall id, created_id (now, op) = Some id -> tasks m !! id = None) ->
  msteps (created_id (now, op)) m m'.
Proof. intros E Hf. eapply run_steps; [exact E|done|by destruct op]. Qed.

(** What an operation on the manager leaves of a task that is over. *)
Lemma over_steps new m m' id : msteps new m m' -> new <> Some id -> over m id -> over m' id.
Proof.
  intros Hs Hn Ho r' E. destruct (steps_later any_event new m m' id r' Hs E) as [|(r & Er & _ & _ & Hl)]; [done|].
  specialize (Ho r Er). by rewrite (Hl Ho).
Qed.

Lemma finish_over id r now (m : @TaskManager Value InputTx ApprovalTx) : ends r -> over (finish_task id r now m) id.
Proof.
  intros He. unfold finish_task. destruct (match r with WorkerExit _ => _ | WorkerError _ => _ | WorkerPanicked => _ end) as [s reason] eqn:Es.
  assert (is_terminal s = true) as Ht.
  { destruct r as [[]| |]; cbn in Es; simplify_eq; done. }
  unfold complete_task. rewrite Ht. cbn [negb andb]. unfold se_bind, transition_with_reason. intros r0.
  destruct (tasks m !! id) as [r1|] eqn:E; cbn; [|by rewrite E].
  destruct (is_terminal (state (handle r1))) eqn:E1; cbn; [rewrite E; by intros [= <-]|].
  destruct (announce_spec id reason r1 (set_state s r1) s now m) as (m1 & Em & _).
  rewrite Em. cbn. rewrite lookup_insert_eq. intros [= <-]. done.
Qed.
(** *** Spawning *)

Lemma on_manager_steps {A} (op : SE (@TaskManager Value InputTx ApprovalTx) TaskManagerError A) new (m0 : TaskManager) (p0 : AgentWorkerPool (WorkItem Decimal)) :
  (forall m, msteps None m (fst (op m))) ->
  preserves (fun s : Engine => msteps new m0 (manager s) /\ pool s = p0) (on_manager op).
Proof.
  intros Hop s [Hs Hp]. unfold on_manager. pose proof (Hop (manager s)) as H1. destruct (op (manager s)) as [m r]. cbn in *.
  split; [|done]. etrans; [exact Hs|]. by apply msteps_weaken.
Qed.

Lemma run_none_steps op now (m : @TaskManager Value InputTx ApprovalTx) :
  created_id (now, op) = None -> match task_run send_input send_approval now op m with Some m' => msteps None m m' | None => True end.
Proof. intros Hc. destruct (task_run _ _ _ _ _) eqn:E; [|done]. rewrite <- Hc. eapply task_op_steps; [exact E|]. by rewrite Hc. Qed.

Lemma equip_keeps new now id token channels description meta files resolved (m0 : TaskManager) (p0 : AgentWorkerPool (WorkItem Decimal)) :
  preserves (fun s : Engine => msteps new m0 (manager s) /\ pool s = p0)
    (equip_task base64_decode to_yaml config now id token channels description meta files resolved).
Proof.
  assert (forall s reason m, msteps None m (fst (complete_task (InputTx := InputTx) (ApprovalTx := ApprovalTx) id s reason now m))) as Hc
    by (intros s reason m; apply (run_none_steps (OpComplete id s reason) now m eq_refl)).
  unfold equip_task. apply preserves_bind; [by intros s|]. intros s0. apply preserves_bind.
  { destruct (get_task id (manager s0)); [apply preserves_ret|]. apply preserves_bind; [by apply preserves_try, on_manager_steps|].
    intros. apply preserves_err. }
  intros _. apply preserves_bind.
  { destruct (build_provider _ _); [apply preserves_ret|]. destruct (has_provider_factory config); [apply preserves_ret|].
    apply preserves_bind; [by apply preserves_try, on_manager_steps|]. intros. apply preserves_err. }
  intros _. apply preserves_bind.
  { apply preserves_try, on_manager_steps. intros m. apply (run_none_steps (OpToken id token) now m eq_refl). }
  intros _. apply preserves_bind.
  { destruct (_ || _); [|apply preserves_ret]. apply on_manager_steps. intros m. apply (run_none_steps (OpSenders id _ _) now m eq_refl). }
  intros _. apply preserves_bind; [by intros s|]. intros vfs. by intros s.
Qed.

(** What spawning does: the manager moves on, and the pool is offered at most this one item. *)
Lemma spawn_spec now id token channels description t agent meta files connection (s s' : Engine) r :
  spawn_task base64_decode to_yaml parse_decimal config now id token channels description t agent meta files connection s = (s', r) ->
  tasks (manager s) !! id = None ->
  msteps (Some id) (manager s) (manager s') /\
  match r with
  | Ok _ => exists w, work_task w = id /\ submit w (pool s) = (pool s', Ok tt)
  | Err _ => pool s' = pool s \/ exists w e, submit w (pool s) = (pool s', Err e)
  end.
Proof.
  unfold spawn_task. intros E Hf. unfold se_bind at 1, se_lift at 1 in E.
  destruct (resolve_for config t _) as [resolved|e]; [|simplify_eq; split; [apply rtc_refl|by left]].
  unfold se_bind at 1, on_manager at 1, create_pending_task in E. cbn [map_err] in E.
  match type of E with se_bind _ _ ?x = _ => set (s1 := x) in E end.
  assert (msteps (Some id) (manager s) (manager s1) /\ pool s1 = pool s) as Hs1.
  { split; [|done]. apply rtc_once, step_pending; done. }
  pose proof (equip_keeps (Some id) now id token channels description meta files resolved (manager s) (pool s) s1 Hs1) as Hs2.
  unfold se_bind at 1 in E. destruct (equip_task _ _ _ _ _ _ _ _ _ _ _ s1) as [s2 [[]|e]]; cbn [fst] in Hs2; destruct Hs2 as [Hm Hp]; [|simplify_eq; by eauto].
  unfold se_bind at 1, submit_work in E. rewrite Hp in E.
  set (w := work_item _ _ _ _ _ _ _ _) in E. destruct (submit w (pool s)) as [p [[]|e]] eqn:Es; unfold se_ret in E; cbn in E; simplify_eq/=; (split; [done|]); [by exists w|right; by exists w, e].
Qed.

(** The task it creates is the tenant's. *)
Lemma spawn_tenant now id token channels description t agent meta files connection (s : Engine) r :
  tasks (manager s) !! id = None ->
  tasks (manager (fst (spawn_task base64_decode to_yaml parse_decimal config now id token channels description t agent meta files connection s))) !! id = Some r ->
  tenant (handle r) = namespace t.
Proof.
  intros Hf. unfold spawn_task. unfold se_bind at 1, se_lift at 1. destruct (resolve_for config t _) as [resolved|e]; [|cbn; by rewrite Hf].
  unfold se_bind at 1, on_manager at 1, create_pending_task. cbn [map_err].
  match goal with |- context [se_bind _ _ ?x] => set (s1 := x) end.
  pose proof (equip_keeps None now id token channels description meta files resolved (manager s1) (pool s1) s1 (conj (rtc_refl _ _) eq_refl)) as Hs2.
  assert (forall m r, msteps None (manager s1) m -> tasks m !! id = Some r -> tenant (handle r) = namespace t) as Hk.
  { intros m r1 Hs E. destruct (steps_later any_event None _ _ id r1 Hs E) as [|(r0 & E0 & _ & Ht & _)]; [done|].
    rewrite Ht. unfold s1 in E0. cbn in E0. rewrite lookup_insert_eq in E0. by injection E0 as <-. }
  unfold se_bind at 1. destruct (equip_task _ _ _ _ _ _ _ _ _ _ _ s1) as [s2 [[]|e]]; cbn [fst] in Hs2; destruct Hs2 as [Hm _]; [|by apply Hk].
  unfold se_bind at 1, submit_work. destruct (submit _ _) as [p [[]|e]]; cbn; by apply Hk.
Qed.

(** *** The invariant of the pool *)

Record pool_ok (count cap : nat) (p : AgentWorkerPool (WorkItem Decimal)) : Prop := {
  ok_capacity : capacity p = cap;
  ok_queue : (length (queue p) <= cap)%nat;
  ok_workers : length (workers p) = count;
  ok_alive : Finished ∉ workers p;
}.

Lemma respawn_alive {W} (ws : list (Worker W)) : Finished ∉ ws -> List.map respawn ws = ws.
Proof.
  induction ws as [|w ws IH]; [done|]. rewrite not_elem_of_cons. intros [Hw Hws]. cbn. rewrite IH by done. by destruct w.
Qed.

Lemma hand_over_spec {W} (w : W) ws ws' : hand_over w ws = Some ws' -> exists i, ws !! i = Some Idle /\ ws' = <[i := Holding w]> ws.
Proof.
  revert ws'. induction ws as [|x ws IH]; intros ws'; cbn; [done|].
  assert (forall ws', (cons x <$> hand_over w ws) = Some ws' -> exists i, (x :: ws) !! i = Some Idle /\ ws' = <[i := Holding w]> (x :: ws)) as Hrec.
  { intros l (ws1 & E & ->)%fmap_Some_1. destruct (IH ws1 E) as (i & Ei & ->). by exists (S i). }
  destruct x; try apply Hrec. intros [= <-]. by exists 0%nat.
Qed.

Lemma alive_insert {W} (ws : list (Worker W)) i w : Finished ∉ ws -> w <> Finished -> Finished ∉ <[i := w]> ws.
Proof.
  intros Ha Hw [k Hk]%list_elem_of_lookup. apply list_lookup_insert_Some in Hk as [(_ & E & _)|[_ Hk]]; [done|].
  apply Ha. by eapply list_elem_of_lookup_2.
Qed.

Lemma set_worker_ok count cap i w p : pool_ok count cap p -> w <> Finished -> pool_ok count cap (set_worker i w p).
Proof. intros [] Hw. split; cbn; [done|done|by rewrite length_insert|by apply alive_insert]. Qed.

Lemma set_worker_same {W} i (w : Worker W) p : workers (set_worker i w p) = <[i := w]> (workers p).
Proof. done. Qed.

(** An item that the pool accepts is the last of its queue, or with a worker when nothing can wait. *)
Lemma submit_ok count cap w p p' : pool_ok count cap p -> submit w p = (p', Ok tt) ->
  pool_ok count cap p' /\
  if (cap =? 0)%nat then exists i, workers p !! i = Some Idle /\ p' = set_worker i (Holding w) p
  else p' = set_queue (queue p ++ [w]) p.
Proof.
  intros [Hc Hq Hw Ha]. unfold submit. destruct (shutdown p); [done|]. unfold check_and_respawn. rewrite respawn_alive by done.
  unfold try_send. cbn [capacity set_workers workers queue]. rewrite Hc. destruct (cap =? 0)%nat eqn:Ecap.
  - destruct (hand_over w (workers p)) as [ws|] eqn:Eh; [|done]. cbn. intros [= <-].
    destruct (hand_over_spec _ _ _ Eh) as (i & Ei & ->). split; [|by exists i]. split; cbn; [done|done|by rewrite length_insert|by apply alive_insert].
  - destruct (length (queue p) <? cap)%nat eqn:El; [|done]. intros [= <-]. split; [|by destruct p]. apply Nat.ltb_lt in El.
    split; cbn; [done|rewrite length_app; cbn; lia|done|done].
Qed.

Lemma submit_err count cap w p p' e : pool_ok count cap p -> submit w p = (p', Err e) -> p' = p.
Proof.
  intros [Hc Hq Hw Ha]. unfold submit. destruct (shutdown p); [by intros [= <- _]|]. unfold check_and_respawn. rewrite respawn_alive by done.
  destruct (try_send _ _); [done|]. intros [= <- _]. by destruct p.
Qed.

(** *** Where tasks go *)

Lemma worker_task_insert (ws : list (Worker (WorkItem Decimal))) i w0 w id :
  ws !! i = Some w0 -> id ∈ omap worker_task ws -> worker_task w0 = Some id \/ id ∈ omap worker_task (<[i := w]> ws).
Proof.
  intros E (x & Hx & Ex)%list_elem_of_omap. apply list_elem_of_lookup in Hx as [k Hk].
  destruct (decide (k = i)) as [->|Hn]; [left; congruence|right]. apply list_elem_of_omap. exists x. split; [|done].
  apply list_elem_of_lookup. exists k. by rewrite list_lookup_insert_ne.
Qed.
Lemma worker_task_here (ws : list (Worker (WorkItem Decimal))) i w0 w id :
  ws !! i = Some w0 -> worker_task w = Some id -> id ∈ omap worker_task (<[i := w]> ws).
Proof.
  intros E Ew. apply list_elem_of_omap. exists w. split; [|done]. apply list_elem_of_lookup. exists i.
  apply list_lookup_insert_eq. by eapply lookup_lt_Some.
Qed.

Lemma worker_steps_insert (ws : list (Worker (WorkItem Decimal))) i w0 w :
  ws !! i = Some w0 ->
  (list_sum (List.map worker_steps (<[i := w]> ws)) + worker_steps w0 = list_sum (List.map worker_steps ws) + worker_steps w)%nat.
Proof.
  revert i. induction ws as [|x ws IH]; intros [|i] E; [done|done| |].
  - injection E as ->. change (<[0%nat := w]> (w0 :: ws)) with (w :: ws). unfold list_sum. cbn. lia.
  - specialize (IH i E). change (<[S i := w]> (x :: ws)) with (x :: <[i := w]> ws). unfold list_sum in *. cbn in *. lia.
Qed.

Record served (count cap : nat) (s : System) : Prop := {
  srv_pool : pool_ok count cap (pool (engine s));
  srv_order : accepted s = received_by_workers s ++ queued s;
  srv_tasks : forall id, id ∈ accepted s -> id ∈ at_work s \/ over (manager (engine s)) id;
}.

Lemma served_new count cap grace : served count cap (system_new count cap grace).
Proof.
  split; cbn; [|done|by intros id ?%elem_of_nil]. split; cbn; [done|lia|apply repeat_length|].
  intros Hin%list_elem_of_In. by apply repeat_spec in Hin.
Qed.

Lemma at_work_cases id s :
  id ∈ at_work s <-> id ∈ queued s \/ id ∈ omap worker_task (workers (pool (engine s))) \/ id ∈ List.map fst (reports s).
Proof. unfold at_work. by rewrite !elem_of_app. Qed.

(** A step of the manager alone. *)
Lemma served_manage count cap new m s :
  served count cap s -> msteps new (manager (engine s)) m -> (forall id, new = Some id -> id ∉ accepted s) ->
  served count cap (with_engine (set_manager m (engine s)) s).
Proof.
  intros [Hp Ho Ht] Hs Hn. split; [done|done|]. intros id Hid. destruct (Ht id Hid) as [Ha|Hov]; [by left|right].
  eapply over_steps; [exact Hs| |done]. intros ->. by apply (Hn id).
Qed.

(** The end of a worker's item. *)
Lemma served_report count cap i w0 id r s :
  served count cap s -> workers (pool (engine s)) !! i = Some w0 -> worker_task w0 = Some id -> served count cap (report i id r s).
Proof.
  intros [Hp Ho Ht] Ew Et. split; [by apply set_worker_ok|done|]. intros id' Hid. destruct (Ht id' Hid) as [Ha|Hov]; [left|by right].
  rewrite at_work_cases in Ha |- *. destruct Ha as [Ha|[Ha|Ha]]; [by left| |right; right].
  - destruct (worker_task_insert _ i w0 Idle id' Ew Ha) as [E|Hin]; [|by right; left].
    right; right. cbn. rewrite map_app, elem_of_app. right. assert (id' = id) as -> by congruence. by left.
  - cbn. rewrite map_app, elem_of_app. by left.
Qed.
(** A worker that goes on with the item it has. *)
Lemma served_worker count cap i w0 w id s :
  served count cap s -> workers (pool (engine s)) !! i = Some w0 -> worker_task w0 = Some id -> worker_task w = Some id ->
  served count cap (with_engine (set_pool (set_worker i w (pool (engine s))) (engine s)) s).
Proof.
  intros [Hp Ho Ht] E Ew0 Ew. split; [by apply set_worker_ok; [|intros ->]|done|]. intros id' Hid.
  destruct (Ht id' Hid) as [Ha|Hov]; [left|by right]. rewrite at_work_cases in Ha |- *. destruct Ha as [Ha|[Ha|Ha]]; [by left| |by right; right].
  right; left. cbn. destruct (worker_task_insert _ i w0 w id' E Ha) as [E'|Hin]; [|done]. assert (id' = id) as -> by congruence.
  by eapply worker_task_here.
Qed.

Lemma served_take count cap i w s p :
  served count cap s -> take i (pool (engine s)) = Some (p, w) ->
  served count cap (with_record (accepted s) (received_by_workers s ++ [work_task w]) (with_engine (set_pool p (engine s)) s)).
Proof.
  intros [Hp Ho Ht]. unfold take. destruct (workers (pool (engine s)) !! i) as [[]|] eqn:Ew; try done.
  destruct (queue (pool (engine s))) as [|w1 q] eqn:Eq; [done|]. intros [= <- <-].
  assert (queued s = work_task w1 :: List.map work_task q) as Equ by (unfold queued; by rewrite Eq). split.
  - destruct Hp as [Hc Hq Hw Ha]. rewrite Eq in Hq. cbn in Hq. split; cbn; [done|lia|by rewrite length_insert|by apply alive_insert].
  - change (accepted s = (received_by_workers s ++ [work_task w1]) ++ List.map work_task q). by rewrite <- app_assoc, Ho, Equ.
  - intros id Hid. destruct (Ht id Hid) as [Ha|Hov]; [left|by right]. rewrite at_work_cases in Ha |- *. rewrite Equ in Ha.
    cbn -[omap]. destruct Ha as [[->|Ha]%elem_of_cons|[Ha|Ha]].
    + right; left. by eapply worker_task_here.
    + by left.
    + right; left. by destruct (worker_task_insert _ i _ (Holding w1) id Ew Ha).
    + by right; right.
Qed.

Lemma served_spawn count cap s e id w :
  served count cap s -> submit w (pool (engine s)) = (pool e, Ok tt) -> work_task w = id ->
  msteps (Some id) (manager (engine s)) (manager e) -> id ∉ accepted s ->
  served count cap (with_record (accepted s ++ [id])
    (received_by_workers s ++ if (capacity (pool (engine s)) =? 0)%nat then [id] else []) (with_engine e s)).
Proof.
  intros [Hp Ho Ht] Es Ew Hs Hn. destruct (submit_ok _ _ _ _ _ Hp Es) as [Hp' Hc]. rewrite (ok_capacity _ _ _ Hp). split; [done| |].
  - cbn -[omap]. destruct (cap =? 0)%nat eqn:Ecap.
    + destruct Hc as (i & Ei & Epool). apply Nat.eqb_eq in Ecap as ->. pose proof (ok_queue _ _ _ Hp) as Hq.
      assert (queue (pool (engine s)) = []) as Eq by (destruct (queue _); [done|cbn in Hq; lia]).
      change (queued _) with (List.map work_task (queue (pool e))). rewrite Epool. cbn. rewrite Eq, app_nil_r. rewrite Ho.
      unfold queued. by rewrite Eq, app_nil_r.
    + change (queued _) with (List.map work_task (queue (pool e))). rewrite Hc. cbn. by rewrite map_app, Ho, app_nil_r, app_assoc, <- Ew.
  - assert (forall id', id' ∈ at_work s \/ id' = id -> id' ∈ at_work (with_engine e s)) as Hin.
    { intros id' Hw. rewrite at_work_cases in Hw |- *. unfold queued. cbn -[omap]. destruct (cap =? 0)%nat.
      - destruct Hc as (i & Ei & ->). cbn -[omap]. destruct Hw as [[Ha|[Ha|Ha]]| ->]; [by left| |by right; right|].
        + right; left. by destruct (worker_task_insert _ i _ (Holding w) id' Ei Ha).
        + right; left. eapply worker_task_here; [done|]. cbn. by rewrite Ew.
      - rewrite Hc. cbn -[omap]. rewrite map_app, elem_of_app. destruct Hw as [[Ha|Ha]| ->]; [by left; left|by right|].
        left; right. rewrite <- Ew. by left. }
    intros id' [Hid|Hid]%elem_of_app.
    + destruct (Ht id' Hid) as [Ha|Hov]; [left; apply Hin; by left|right]. cbn. eapply over_steps; [exact Hs| |done]. congruence.
    + apply list_elem_of_singleton in Hid as ->. left. apply Hin. by right.
Qed.

(** Entering a report: its task ends. *)
Lemma served_enter count cap k id r now s :
  served count cap s -> reports s !! k = Some (id, r) -> ends r ->
  served count cap (with_reports (delete k (reports s)) (with_engine (set_manager (finish_task id r now (manager (engine s))) (engine s)) s)).
Proof.
  intros Hsv E Hr. pose proof Hsv as [Hp Ho Ht].
  assert (msteps None (manager (engine s)) (finish_task id r now (manager (engine s)))) as Hs.
  { unfold finish_task. destruct (match r with WorkerExit _ => _ | WorkerError _ => _ | WorkerPanicked => _ end) as [st reason].
    apply (run_none_steps (OpComplete id st reason) now _ eq_refl). }
  split; [done|done|]. intros id' Hid. destruct (Ht id' Hid) as [Ha|Hov]; [|right; by eapply over_steps; [exact Hs|..]].
  rewrite at_work_cases in Ha |- *. destruct Ha as [Ha|[Ha|Ha]]; [left; by left|left; by right; left|].
  destruct (decide (id' = id)) as [->|Hne]; [right; by apply finish_over|left; right; right].
  apply list_elem_of_fmap in Ha as ([id1 r1] & Ei & (j & Ej)%list_elem_of_lookup). cbn in Ei. subst id1. cbn.
  apply list_elem_of_fmap. exists (id', r1). split; [done|]. rewrite delete_take_drop.
  destruct (decide (j = k)) as [->|Hjk]; [congruence|]. apply list_elem_of_lookup.
  rewrite <- delete_take_drop. destruct (decide (j < k)%nat).
  - exists j. by rewrite list_lookup_delete_lt.
  - exists (j - 1)%nat. rewrite list_lookup_delete_ge by lia. by replace (S (j - 1)) with j by lia.
Qed.
Definition all_end (s : System) : Prop := Forall (fun '(_, r) => ends r) (reports s).

(** Every step keeps what is known of the accepted tasks, and moves the manager on. *)
Lemma served_step count cap now op s s' :
  engine_step now op s = Some s' -> served count cap s -> all_end s -> sound_op (now, op) ->
  (forall id, new_task (now, op) = Some id -> tasks (manager (engine s)) !! id = None /\ id ∉ accepted s) ->
  (served count cap s' /\ all_end s') /\ msteps (new_task (now, op)) (manager (engine s)) (manager (engine s')) /\
  forall id, id ∈ accepted s' -> id ∈ accepted s \/ new_task (now, op) = Some id.
Proof.
  intros E Hs He Hop Hnew. unfold sound_op in Hop. cbn [snd] in Hop.
  destruct op as [id token channels description t agent meta files connection|op|i|i runtime|i r|k]; cbn [engine_step] in E.
  - destruct (Hnew id eq_refl) as [Hf Hacc]. destruct (spawn_task _ _ _ _ _ _ _ _ _ _ _ _ _ _ _) as [e r] eqn:Esp.
    destruct (spawn_spec _ _ _ _ _ _ _ _ _ _ _ _ _ Esp Hf) as [Hm Hr]. injection E as <-. destruct r as [h|err].
    + destruct Hr as (w & Ew & Esub). split_and!; [by eapply served_spawn|done|done|].
      intros id' [?|E'%list_elem_of_singleton]%elem_of_app; [by left|right; by subst].
    + assert (pool e = pool (engine s)) as Ep.
      { destruct Hr as [?|(w & err' & Esub)]; [done|]. eapply submit_err; [by apply Hs|done]. }
      assert (with_engine e s = with_engine e (with_engine (set_manager (manager e) (engine s)) s)) as -> by done.
      pose proof (served_manage _ _ _ _ _ Hs Hm) as Hs'. destruct Hs' as [Hp Ho Ht]; [by intros ? [= <-]|].
      split_and!; [|done|done|by left]. split; [cbn; by rewrite Ep|unfold queued; cbn; by rewrite Ep|].
      intros id' Hid. specialize (Ht id' Hid). unfold at_work, queued in *. cbn -[omap] in *. by rewrite Ep.
  - destruct (task_run _ _ _ _ _) as [m|] eqn:Er; [|done]. injection E as <-.
    assert (msteps (new_task (now, Manage op)) (manager (engine s)) m) as Hm by (eapply task_op_steps; [exact Er|]; intros id Hc; by apply Hnew).
    split_and!; [eapply served_manage; [done|exact Hm|]; intros id Hc; by apply Hnew|done|done|by left].
  - destruct (take i _) as [[p w]|] eqn:Et; [|done]. injection E as <-. split_and!; [by eapply served_take|done| |by left].
    unfold take in Et. repeat case_match; simplify_eq; apply rtc_refl.
  - destruct (workers (pool (engine s)) !! i) as [[|w|w|]|] eqn:Ew; try done. injection E as <-. destruct runtime as [[]|e].
    + pose proof (run_none_steps (OpStart (work_task w)) now (manager (engine s)) eq_refl) as Hm. cbn [task_run] in Hm.
      destruct (start_task _ _ _) as [m [st|e]]; cbn [fst] in Hm; pose proof (served_manage _ _ _ _ _ Hs Hm) as Hs'; set (s1 := with_engine (set_manager m (engine s)) s) in Hs'.
      * split_and!; [apply (served_worker count cap i (Holding w) (Busy w) (work_task w) s1); [by apply Hs'|exact Ew|done|done]|done|done|by left].
      * split_and!; [apply (served_report count cap i (Holding w) (work_task w) _ s1); [by apply Hs'|exact Ew|done]| |done|by left].
        apply Forall_app. split; [done|]. by repeat constructor.
    + split_and!; [by eapply served_report| |apply rtc_refl|by left]. apply Forall_app. split; [done|]. by repeat constructor.
  - destruct (workers (pool (engine s)) !! i) as [[|w|w|]|] eqn:Ew; try done. injection E as <-.
    split_and!; [by eapply served_report| |apply rtc_refl|by left]. apply Forall_app. split; [done|]. by repeat constructor.
  - destruct (reports s !! k) as [[id r]|] eqn:Ek; [|done]. injection E as <-. assert (ends r) as Hr by (unfold all_end in He; rewrite Forall_lookup in He; exact (He k (id, r) Ek)).
    split_and!; [by apply served_enter| | |by left].
    + unfold all_end in *. cbn. apply Forall_delete. done.
    + unfold finish_task. cbn. destruct (match r with WorkerExit _ => _ | WorkerError _ => _ | WorkerPanicked => _ end) as [st reason].
      apply (run_none_steps (OpComplete id st reason) now _ eq_refl).
Qed.

Lemma history_served count cap ops s s' :
  engine_history ops s = Some s' -> served count cap s -> all_end s -> Forall sound_op ops -> NoDup (omap new_task ops) ->
  (forall id, id ∈ omap new_task ops -> tasks (manager (engine s)) !! id = None /\ id ∉ accepted s) ->
  served count cap s' /\ all_end s'.
Proof.
  revert s. induction ops as [|[now op] ops IH]; intros s E Hs He Hop Hd Hf; [by injection E as <-|].
  apply Forall_cons in Hop as [Ho Hop]. cbn [engine_history] in E. destruct (engine_step now op s) as [s1|] eqn:E1; [|done]. cbn in E.
  assert (omap new_task ((now, op) :: ops) = option_list (new_task (now, op)) ++ omap new_task ops) as Eo
    by (cbn [omap list_omap]; by destruct (new_task (now, op))).
  rewrite Eo in Hd, Hf. apply NoDup_app in Hd as (_ & Hne & Hd).
  destruct (served_step _ _ _ _ _ _ E1 Hs He Ho) as ([Hs1 He1] & Hm & Hacc).
  { intros id Hid. apply Hf, elem_of_app. left. rewrite Hid. by left. }
  apply (IH s1 E Hs1 He1 Hop Hd). intros id Hid. destruct (Hf id) as [Hn Hna]; [apply elem_of_app; by right|].
  assert (new_task (now, op) <> Some id) as Hnew by (intros Hid'; apply (Hne id); [rewrite Hid'; by left|done]).
  split; [|intros Hin; by destruct (Hacc id Hin)].
  destruct (tasks (manager (engine s1)) !! id) as [r1|] eqn:Er; [exfalso|done].
  destruct (steps_later any_event _ _ _ _ _ Hm Er) as [|(r & Er0 & _)]; congruence.
Qed.
(** *** Working off *)

(** The steps of the workers and of what enters their reports, when the runs end as [outcome] says. *)
Definition worker_op (outcome : str -> WorkerResult) (op : EngineOp) : Prop :=
  match op with
  | Take _ | Enter _ => True
  | Begin _ runtime => runtime = Ok tt
  | Report _ r => exists id, r = outcome id
  | Spawn _ _ _ _ _ _ _ _ _ | Manage _ => False
  end.

Lemma pending_set_worker i w0 w s reports' :
  workers (pool (engine s)) !! i = Some w0 ->
  (pending_steps (with_reports reports' (with_engine (set_pool (set_worker i w (pool (engine s))) (engine s)) s)) + worker_steps w0 + length (reports s)
   = pending_steps s + worker_steps w + length reports')%nat.
Proof. intros E. unfold pending_steps. cbn -[list_sum Nat.mul]. pose proof (worker_steps_insert _ i w0 w E). lia. Qed.

Lemma worker_op_decreases outcome now op s s' :
  worker_op outcome op -> engine_step now op s = Some s' -> (pending_steps s' < pending_steps s)%nat /\ accepted s' = accepted s.
Proof.
  intros Hop E. destruct op as [| |i|i runtime|i r|k]; try done; cbn [engine_step] in E.
  - destruct (take i _) as [[p w]|] eqn:Et; [|done]. injection E as <-. split; [|done]. unfold take in Et.
    destruct (workers (pool (engine s)) !! i) as [[]|] eqn:Ew; try done. destruct (queue (pool (engine s))) as [|w1 q] eqn:Eq; [done|].
    injection Et as <- <-. unfold pending_steps. rewrite Eq. cbn -[list_sum Nat.mul]. cbn [length].
    pose proof (worker_steps_insert _ i _ (Holding w1) Ew) as Hi. cbn [worker_steps] in Hi. lia.
  - cbn in Hop. subst runtime. destruct (workers (pool (engine s)) !! i) as [[|w|w|]|] eqn:Ew; try done. injection E as <-.
    destruct (start_task _ _ _) as [m [st|e]]; (split; [|done]).
    + pose proof (pending_set_worker i _ (Busy w) s (reports s) Ew) as Hi. cbn [worker_steps] in Hi.
      match goal with |- (pending_steps ?x < _)%nat => change (pending_steps x) with
        (pending_steps (with_reports (reports s) (with_engine (set_pool (set_worker i (Busy w) (pool (engine s))) (engine s)) s))) end. lia.
    + pose proof (pending_set_worker i _ Idle s (reports s ++ [(work_task w, WorkerError ("failed to start task: " ++ task_manager_error_to_string e))]) Ew) as Hi.
      rewrite length_app in Hi. cbn [worker_steps length] in Hi.
      match type of Hi with (pending_steps ?y + _ + _ = _)%nat => match goal with |- (pending_steps ?x < _)%nat => change (pending_steps x) with (pending_steps y) end end. lia.
  - destruct (workers (pool (engine s)) !! i) as [[|w|w|]|] eqn:Ew; try done. injection E as <-. split; [|done].
    pose proof (pending_set_worker i _ Idle s (reports s ++ [(work_task w, r)]) Ew) as Hi. rewrite length_app in Hi. cbn [worker_steps length] in Hi.
    match type of Hi with (pending_steps ?y + _ + _ = _)%nat => match goal with |- (pending_steps ?x < _)%nat => change (pending_steps x) with (pending_steps y) end end. lia.
  - destruct (reports s !! k) as [[id r]|] eqn:Ek; [|done]. injection E as <-. split; [|done]. unfold pending_steps.
    cbn -[list_sum Nat.mul delete]. rewrite length_delete by by eauto. apply lookup_lt_Some in Ek. lia.
Qed.

Definition idle (w : Worker (WorkItem Decimal)) : bool := match w with Idle => true | _ => false end.

(** As long as something is pending some worker can go on. *)
Lemma worker_op_enabled outcome now count cap s :
  pool_ok count cap (pool (engine s)) -> (0 < count)%nat -> (0 < pending_steps s)%nat ->
  exists op s', worker_op outcome op /\ engine_step now op s = Some s'.
Proof.
  intros [_ _ Hw Ha] Hc Hp. destruct (reports s) as [|[id r] l] eqn:Er.
  2:{ exists (Enter 0). cbn [engine_step]. rewrite Er. cbn. eauto. }
  destruct (decide (Forall (fun w => idle w = true) (workers (pool (engine s))))) as [Hi|Hi].
  - destruct (queue (pool (engine s))) as [|w q] eqn:Eq.
    + exfalso. unfold pending_steps in Hp. rewrite Eq, Er in Hp. cbn -[list_sum] in Hp.
      assert (list_sum (List.map worker_steps (workers (pool (engine s)))) = 0%nat) as E; [|lia].
      clear -Hi. induction Hi as [|w ws Hw _ IH]; [done|]. by destruct w.
    + exists (Take 0). cbn [engine_step]. unfold take. rewrite Eq. destruct (workers (pool (engine s))) as [|w1 ws]; [cbn in Hw; lia|].
      apply Forall_cons in Hi as [Hi _]. destruct w1; try done. cbn. eauto.
  - apply not_Forall_Exists in Hi; [|intros w; apply _]. apply Exists_exists in Hi as (w & Hin & Hn). cbn in Hn.
    apply list_elem_of_lookup in Hin as [i Ei]. destruct w as [|w|w|].
    + by destruct Hn.
    + exists (Begin i (Ok tt)). cbn [engine_step]. rewrite Ei. destruct (start_task _ _ _) as [m [st|e]]; by eexists.
    + exists (Report i (outcome [])). cbn [engine_step]. rewrite Ei. eexists. split; [by exists []|done].
    + exfalso. apply Ha. by eapply list_elem_of_lookup_2.
Qed.

Lemma worker_op_sound outcome now op : (forall id, ends (outcome id)) -> worker_op outcome op ->
  sound_op (now, op) /\ new_task (now, op) = None.
Proof. intros Ho Hop. destruct op; try done. destruct Hop as [id ->]. by split; [apply Ho|]. Qed.

Lemma worked_off outcome now count cap s :
  served count cap s -> all_end s -> (0 < count)%nat -> (forall id, ends (outcome id)) ->
  exists ops s', engine_history ops s = Some s' /\ Forall (fun op => fst op = now /\ worker_op outcome (snd op)) ops /\
    (length ops <= pending_steps s)%nat /\ forall id, id ∈ accepted s -> over (manager (engine s')) id.
Proof.
  remember (pending_steps s) as n eqn:En. revert s En. induction n as [n IH] using lt_wf_ind. intros s -> Hs He Hc Ho.
  destruct (decide (0 < pending_steps s)%nat) as [Hp|Hp].
  - destruct (worker_op_enabled outcome now count cap s) as (op & s1 & Hop & E1); [apply Hs|done|done|].
    destruct (worker_op_decreases _ _ _ _ _ Hop E1) as [Hd Hacc]. destruct (worker_op_sound outcome now op Ho Hop) as [Hsound Hnew].
    destruct (served_step _ _ _ _ _ _ E1 Hs He Hsound) as ([Hs1 He1] & _); [by rewrite Hnew|].
    destruct (IH (pending_steps s1) Hd s1 eq_refl Hs1 He1 Hc Ho) as (ops & s' & E' & Hops & Hlen & Hover).
    exists ((now, op) :: ops), s'. split_and!; [cbn [engine_history]; by rewrite E1|by constructor|cbn [length]; lia|by rewrite <- Hacc].
  - exists [], s. split_and!; [done|constructor|cbn [length]; lia|]. intros id Hid. destruct (srv_tasks _ _ _ Hs id Hid) as [Ha|]; [exfalso|done].
    unfold pending_steps in Hp. rewrite at_work_cases in Ha. unfold queued in Ha. destruct Ha as [Ha|[Ha|Ha]].
    + destruct (queue _); [by apply elem_of_nil in Ha|cbn -[list_sum] in Hp; lia].
    + apply list_elem_of_omap in Ha as (w & Hin & Ew). assert (0 < worker_steps w)%nat as Hpos by (destruct w; cbn in Ew |- *; (done || lia)).
      assert (worker_steps w <= list_sum (List.map worker_steps (workers (pool (engine s)))))%nat; [|lia].
      clear -Hin. induction (workers (pool (engine s))) as [|x ws IH]; [by apply elem_of_nil in Hin|].
      unfold list_sum in *. cbn. apply elem_of_cons in Hin as [->|Hin]; [lia|]. specialize (IH Hin). lia.
    + destruct (reports s); [by apply elem_of_nil in Ha|cbn -[list_sum] in Hp; lia].
Qed.

(** C10. No accepted task is lost.  Whatever is spawned, whatever clients and agents do with the manager and
    however the workers' steps come in between, at every moment: the queue is within its capacity; workers
    receive the tasks in the order they were accepted in; each accepted task is queued, with a worker, in a
    report, or has ended; and however the runs still to come end, there are steps of the workers, at most the
    pending ones, after which every accepted task has ended, and no worker's step ever adds to the pending. *)
Theorem accepted_tasks_are_served ops count cap grace s :
  engine_history ops (system_new count cap grace) = Some s -> NoDup (omap new_task ops) -> Forall sound_op ops -> (0 < count)%nat ->
  (length (queue (pool (engine s))) <= cap)%nat /\
  accepted s = received_by_workers s ++ queued s /\
  (forall id, id ∈ accepted s -> id ∈ at_work s \/ over (manager (engine s)) id) /\
  (forall outcome now op s', worker_op outcome op -> engine_step now op s = Some s' -> (pending_steps s' < pending_steps s)%nat) /\
  forall outcome now, (forall id, ends (outcome id)) ->
    exists ops' s', engine_history ops' s = Some s' /\ Forall (fun op => fst op = now /\ worker_op outcome (snd op)) ops' /\
      (length ops' <= pending_steps s)%nat /\ forall id, id ∈ accepted s -> over (manager (engine s')) id.
Proof.
  intros E Hd Hop Hc. destruct (history_served count cap ops _ _ E (served_new count cap grace)) as [Hs He]; [constructor|done|done| |].
  { intros id _. split; [done|by apply not_elem_of_nil]. }
  split_and!; [apply Hs|apply Hs|apply Hs| |].
  - intros outcome now op s' Ho Es. by destruct (worker_op_decreases _ _ _ _ _ Ho Es).
  - intros outcome now Ho. by eapply worked_off.
Qed.
End System.

(** ** Examples *)

Section Examples.
#[local] Existing Instance ex_tasks_json.
#[local] Existing Instance Budget.N_decimal.

Definition ex_resolved : ResolvedAgent tree :=
  {| agent_name := "coder"; agent_system_prompt := "You write code."; agent_model := "ollama:small"; agent_max_turns := 20; agent_max_tokens := None;
     agent_skills := [{| skill_name := "review"; skill_description := None; skill_body := "Read it."; skill_metadata := None |}];
     agent_capabilities := [lit "shell:exec"; lit " mcp:docs "; lit "spawn:spawn:helper"]; agent_files := [] |}.
Definition ex_config : EngineConfig tree :=
  {| get_by_namespace := fun _ => Ok (lit "row1"); resolve_agent := fun _ _ => Ok ex_resolved; agent_file_store := None;
     has_provider_factory := false; environment := fun _ => None; integration_names := [lit "github"]; mcp_server_names := [lit "docs"];
     has_tenants := true; has_workflow_runtime := false |}.
Definition ex_base64 (s : str) : result bytes str := Ok s.
Definition ex_yaml (v : tree) : option str := Some [].
Abbreviation ex_engine_history := (engine_history (Decimal := N) ex_base64 ex_yaml (fun _ => None) ex_send ex_send ex_config).
Abbreviation ExEngineOp := (@EngineOp tree (list str) (list ToolApprovalResponse)).
Abbreviation ExSystem := (@System tree N (list str) (list ToolApprovalResponse)).

Definition ex_spawn (id : str) (token : N) : ExEngineOp :=
  Spawn id token ([], []) "build it" ex_tenant None (Object []) (Some [(lit "src/main.rs", {| file_data := "fn main"; file_encoding := None |})]) None.
(** Three tasks, one of which runs when a client cancels the next and the second waits. *)
Definition ex_engine_ops : list (N * ExEngineOp) :=
  [(0%N, ex_spawn "t1" 1); (0%N, Take 0); (1%N, Begin 0 (Ok tt)); (1%N, ex_spawn "t2" 2); (2%N, Manage (OpCancel "t2"))].
Definition ex_system : ExSystem := default (system_new 1 1 3600) (ex_engine_history ex_engine_ops (system_new 1 1 3600)).

Lemma ex_system_reached : ex_engine_history ex_engine_ops (system_new 1 1 3600) = Some ex_system.
Proof.
  assert (forall (A : Type) (d : A) (o : option A), (if o then true else false) = true -> o = Some (default d o)) as Hd by by intros A d [].
  apply Hd. vm_compute. reflexivity.
Qed.
Lemma ex_accepted : accepted ex_system = [lit "t1"; lit "t2"] /\ pending_steps ex_system = 6%nat.
Proof. vm_compute. split; reflexivity. Qed.
Lemma ex_engine_ids : NoDup (omap new_task ex_engine_ops).
Proof. apply (bool_decide_unpack _). vm_compute. exact I. Qed.
Lemma ex_engine_sound : Forall sound_op ex_engine_ops.
Proof. repeat constructor. Qed.

Lemma accepted_tasks_are_served_witness :
  ex_engine_history ex_engine_ops (system_new 1 1 3600) = Some ex_system /\ accepted ex_system = [lit "t1"; lit "t2"] /\ pending_steps ex_system = 6%nat /\
  exists ops' s', ex_engine_history ops' ex_system = Some s' /\ (length ops' <= 6)%nat /\
    over (manager (engine s')) (lit "t1") /\ over (manager (engine s')) (lit "t2").
Proof.
  pose proof ex_system_reached as E. destruct ex_accepted as [Ea Ep].
  split; [exact E|]. split; [exact Ea|]. split; [exact Ep|].
  destruct (accepted_tasks_are_served _ _ _ _ _ _ _ _ _ _ _ E ex_engine_ids ex_engine_sound (le_n 1)) as (_ & _ & _ & _ & Hw).
  destruct (Hw (fun _ => WorkerExit Supervisor.Complete) 5%N) as (ops' & s' & E' & _ & Hl & Ho); [intros id; discriminate|].
  rewrite Ep in Hl. rewrite Ea in Ho. exists ops', s'. split; [exact E'|]. split; [exact Hl|]. split; apply Ho; [by left|right; by left].
Defined.

(** A task that the pool refuses has been created and stays pending: nothing will run it, end it or evict it. *)
Example refused_task_stays_pending :
  match ex_engine_history [(0%N, ex_spawn "t1" 1); (0%N, ex_spawn "t2" 2); (9%N, Manage OpCleanup)] (system_new 1 1 0) with
  | Some s => (accepted s, option_map (fun r => state (handle r)) (tasks (manager (engine s)) !! lit "t2")) = ([lit "t1"], Some Pending)
  | None => False
  end.
Proof. vm_compute. reflexivity. Qed.

(** What the configuration says of paths, skills and memory does not reach an agent of the server. *)
Example config_restrictions_are_lost :
  let caps := {| SpawnTool.caps_network := []; SpawnTool.caps_mcp := []; SpawnTool.caps_shell := false; SpawnTool.caps_javascript := false;
                 SpawnTool.caps_python := false; SpawnTool.caps_paths_read := [lit "/docs/**"]; SpawnTool.caps_paths_write := [];
                 SpawnTool.caps_skill_patterns := [lit "skill:review"]; SpawnTool.caps_memory := None |} in
  let meant := SpawnTool.build_capability_token_from_parts (Some caps) [] in
  let given := token_of_capabilities (agent_capabilities_from_config (Some caps) []) in
  (paths_write meant, paths_write given) = ([], [lit "/**"]) /\ (skill_patterns meant, skill_patterns given) = ([lit "skill:review"], []).
Proof. vm_compute. split; reflexivity. Qed.
End Examples.
