(* ===== verification/Server.v ===== *)
(** * The API of the server

    Models of [crates/simulacra-server/src/server.rs] the calls that clients make over HTTP and over a
    WebSocket to create tasks, look at them and steer them, with the checks of identity, tenant and ownership
    in front of them, and the end of a connection.

    Parameters: who a request's credentials authenticate ([Tenancy] models the providers), how [serde] reads a
    command, and those of the engine.  An id, a token and the channels of a new task are given to each call.
    Routing, middleware, meters, artifacts, agent files, ingestion and the stream's encoding are left out. *)

From S2P Require Import Prelude.
From S2P Require Import Text.
From S2P Require Import Json.
From S2P Require Import Tenancy.
From S2P Require Import Tasks.
From S2P Require Import TaskEvents.
From S2P Require Import Workspace.
From S2P Require Import Engine.
From S2P Require Budget.

(** ** Responses *)

Section Responses.
Context {Value : Type} `{JsonOps Value}.

Record Response := { status : N; body : Value }.
Definition respond (code : N) (b : Value) : Response := {| status := code; body := b |}.
Definition ok_response (data : Value) : Response := respond 200 (json_object ["ok" ↦ json_bool true; "data" ↦ data]).
Definition error_response (http : N) (code message : str) : Response :=
  respond http (json_object ["ok" ↦ json_bool false;
                             "error" ↦ json_object ["code" ↦ json_string code; "message" ↦ json_string message]]).

Definition task_manager_err_response (e : TaskManagerError) : Response :=
  let http := match e with
              | TaskNotFound _ | SubscribeFailed _ => 404
              | TerminalState _ _ => 422
              | _ => 400
              end%N in
  error_response http "task_error" (task_manager_error_to_string e).

Definition spawn_error_response (e : EngineError) : Response :=
  match e with
  | PoolFailed PoolExhausted => error_response 503 "pool_exhausted" "worker pool queue is full"
  | PoolFailed PoolShutdown => error_response 503 "pool_shutdown" "worker pool is shutting down"
  | e => error_response 500 "internal_error" (engine_error_to_string e)
  end.

Definition ws_error (code message : str) : Value :=
  json_object ["event" ↦ json_string "error"; "code" ↦ json_string code; "message" ↦ json_string message].
Definition ws_task_error (id message : str) : Value :=
  json_object ["event" ↦ json_string "error"; "task_id" ↦ json_string id; "code" ↦ json_string "task_error"; "message" ↦ json_string message].
Definition ws_state_changed (id : str) (s : TaskState) : Value :=
  json_object ["event" ↦ json_string "task.state_changed"; "task_id" ↦ json_string id; "to" ↦ json_string (task_state_to_string s)].
End Responses.
Arguments Response : clear implicits.

Section Server.
Context {Value Decimal InputTx ApprovalTx : Type} `{JsonOps Value} `{Budget.DecimalOps Decimal}.
Context (base64_decode : str -> result bytes str) (to_yaml : Value -> option str) (parse_decimal : str -> option Decimal).
Context (send_input : InputTx -> str -> option InputTx) (send_approval : ApprovalTx -> ToolApprovalResponse -> option ApprovalTx).
Context (config : EngineConfig Value) (authenticate : Credentials -> result (Identity Value) AuthError) (resolver : TenantResolver).
Abbreviation Engine := (EngineState Value Decimal InputTx ApprovalTx).
Abbreviation Manager := (@TaskManager Value InputTx ApprovalTx).

(** ** Checks *)

Definition identify (authorization : option str) : result (Identity Value) (Response Value) :=
  map_err (fun e => error_response 401 "unauthorized" (auth_error_to_string e)) (authenticate (extract_credentials authorization)).
Definition tenant_of (identity : Identity Value) : result TenantConfig (Response Value) :=
  map_err (fun e => error_response 403 "forbidden" (tenant_error_to_string e)) (resolve resolver identity).

Definition resolve_and_check_ownership (authorization : option str) (id : str) (m : Manager) : result (Identity Value * TaskHandle) (Response Value) :=
  let? identity := identify authorization in
  let? t := tenant_of identity in
  let? h := map_err (fun e => error_response 404 "not_found" (task_manager_error_to_string e)) (get_task id m) in
  if str_eqb (tenant h) (namespace t) then Ok (identity, h)
  else Err (error_response 403 "forbidden" "task does not belong to authenticated tenant").

Definition check_ws_ownership (identity : Identity Value) (id : str) (m : Manager) : result TaskHandle Value :=
  let? h := map_err (fun _ => ws_error "not_found" ("task '" ++ id ++ "' not found")) (get_task id m) in
  let? t := map_err (fun _ => ws_error "forbidden" "tenant resolution failed") (resolve resolver identity) in
  if str_eqb (tenant h) (namespace t) then Ok h else Err (ws_error "forbidden" "access denied").

(** ** Calls over HTTP *)

Record Fresh := { fresh_id : str; fresh_token : N; fresh_channels : InputTx * ApprovalTx }.
Record CreateTaskRequest := {
  request_task : str;
  request_agent_type : option str;
  request_metadata : option Value;
  request_files : option (list (str * FileAttachment));
}.
Variant RestCall :=
| CreateTask (request : CreateTaskRequest)
| TaskStatus (id : str)
| OpenEvents (id : str)
| CancelTask (id : str)
| PauseTask (id : str)
| ResumeTask (id : str).

(** A response, or a stream that starts with the history and goes on from a position. *)
Variant Reply := Respond (r : Response Value) | Stream (history : list Value) (position : nat).

Abbreviation spawn now fresh := (spawn_task base64_decode to_yaml parse_decimal config now (fresh_id fresh) (fresh_token fresh) (fresh_channels fresh)).

Definition create_task_call (now : N) (fresh : Fresh) (authorization : option str) (request : CreateTaskRequest) (e : Engine) : Engine * Response Value :=
  match (let? identity := identify authorization in
         let? t := tenant_of identity in
         let? _ := match request_files request with
                   | Some (_ :: _ as files) =>
                       map_err (fun '(http, message) => error_response http "invalid_attachments" message) (validate_attachments base64_decode files)
                   | _ => Ok []
                   end in
         Ok t) with
  | Err r => (e, r)
  | Ok t =>
      let '(e, r) := spawn now fresh (request_task request) t (request_agent_type request)
                       (unwrap_or (request_metadata request) (json_object [])) (request_files request) None e in
      (e, match r with
          | Ok h => ok_response (json_object ["task_id" ↦ json_string (task_id h); "state" ↦ json_string (task_state_to_string (state h))])
          | Err err => spawn_error_response err
          end)
  end.

(** A call that changes the state of one task. *)
Definition steer_task (authorization : option str) (id : str) (op : SE Manager TaskManagerError TaskState) (e : Engine) : Engine * Response Value :=
  match resolve_and_check_ownership authorization id (manager e) with
  | Err r => (e, r)
  | Ok _ =>
      let '(m, r) := op (manager e) in
      (set_manager m e, match r with
                        | Ok s => ok_response (json_object ["task_id" ↦ json_string id; "state" ↦ json_string (task_state_to_string s)])
                        | Err err => task_manager_err_response err
                        end)
  end.

Definition task_status (authorization : option str) (id : str) (e : Engine) : Response Value :=
  match resolve_and_check_ownership authorization id (manager e) with
  | Err r => r
  | Ok (_, h) => ok_response (json_object ["task_id" ↦ json_string (task_id h); "state" ↦ json_string (task_state_to_string (state h));
                                           "tenant" ↦ json_string (tenant h); "agent_type" ↦ json_string (agent_type h)])
  end.
Definition open_events (authorization : option str) (id : str) (e : Engine) : Reply :=
  match resolve_and_check_ownership authorization id (manager e) with
  | Err r => Respond r
  | Ok _ =>
      match subscribe_task id (manager e) with
      | Ok (history, position) => Stream history position
      | Err err => Respond (error_response 404 "not_found" (task_manager_error_to_string err))
      end
  end.

Definition rest (now : N) (fresh : Fresh) (authorization : option str) (call : RestCall) (e : Engine) : Engine * Reply :=
  match call with
  | CreateTask request => let '(e, r) := create_task_call now fresh authorization request e in (e, Respond r)
  | TaskStatus id => (e, Respond (task_status authorization id e))
  | OpenEvents id => (e, open_events authorization id e)
  | CancelTask id => let '(e, r) := steer_task authorization id (cancel_task id now) e in (e, Respond r)
  | PauseTask id => let '(e, r) := steer_task authorization id (pause_task id now) e in (e, Respond r)
  | ResumeTask id => let '(e, r) := steer_task authorization id (resume_task id now) e in (e, Respond r)
  end.

(** ** Commands over a WebSocket *)

Record WsCommand := {
  command : str;
  ws_task_id : option str;
  ws_task : option str;
  ws_agent_type : option str;
  ws_metadata : option Value;
  ws_content : option str;
  ws_tool_call_id : option str;
  ws_approved : option bool;
  ws_reason : option str;
}.
Context (parse_command : str -> result WsCommand str).

(** A command about the task it names. *)
Definition ws_steer (identity : Identity Value) (id : str) (op : SE Manager TaskManagerError TaskState) (e : Engine) : Engine * Value :=
  match check_ws_ownership identity id (manager e) with
  | Err v => (e, v)
  | Ok _ =>
      let '(m, r) := op (manager e) in
      (set_manager m e, match r with
                        | Ok s => ws_state_changed id s
                        | Err err => ws_task_error id (task_manager_error_to_string err)
                        end)
  end.

Definition ws_create (now : N) (fresh : Fresh) (identity : Identity Value) (conn : str) (cmd : WsCommand) (e : Engine) : Engine * Value :=
  match resolve resolver identity with
  | Err err => (e, ws_error "forbidden" (tenant_error_to_string err))
  | Ok t =>
      let '(e, r) := spawn now fresh (unwrap_or (ws_task cmd) []) t (ws_agent_type cmd) (unwrap_or (ws_metadata cmd) json_null) None (Some conn) e in
      (e, match r with
          | Ok h => json_object ["event" ↦ json_string "task.created"; "task_id" ↦ json_string (task_id h);
                                 "state" ↦ json_string (task_state_to_string (state h))]
          | Err err => ws_error "task_error" (engine_error_to_string err)
          end)
  end.

Definition process_ws_command (now : N) (fresh : Fresh) (identity : Identity Value) (conn text : str) (e : Engine) : Engine * Value :=
  match parse_command text with
  | Err m => (e, ws_error "invalid_message" ("malformed command: " ++ m))
  | Ok cmd =>
      let id := unwrap_or (ws_task_id cmd) [] in
      let named name := str_eqb (command cmd) name in
      if named "task.create" then ws_create now fresh identity conn cmd e
      else if named "task.cancel" then ws_steer identity id (cancel_task id now) e
      else if named "task.pause" then ws_steer identity id (pause_task id now) e
      else if named "task.resume" then ws_steer identity id (resume_task id now) e
      else if named "input.response" then ws_steer identity id (provide_input send_input id (unwrap_or (ws_content cmd) []) now) e
      else if named "approval.respond" then
        ws_steer identity id (respond_approval send_approval id (unwrap_or (ws_tool_call_id cmd) []) (unwrap_or (ws_approved cmd) false) (ws_reason cmd) now) e
      else (e, ws_error "invalid_message" ("unknown command: " ++ command cmd))
  end.

(** The end of a connection, closed or lost. *)
Definition close_connection (now : N) (conn : str) (e : Engine) : Engine :=
  set_manager (fst (cancel_connection_tasks conn now (fst (cancel_connection_tasks conn now (manager e))))) e.

(** Whatever a client asks for. *)
Variant Request :=
| Rest (authorization : option str) (call : RestCall)
| Ws (identity : Identity Value) (conn text : str).
Variant Answer := AnswerReply (r : Reply) | AnswerValue (v : Value).
Definition handle_request (now : N) (fresh : Fresh) (request : Request) (e : Engine) : Engine * Answer :=
  match request with
  | Rest authorization call => let '(e, r) := rest now fresh authorization call e in (e, AnswerReply r)
  | Ws identity conn text => let '(e, v) := process_ws_command now fresh identity conn text e in (e, AnswerValue v)
  end.
(** The tenant on whose behalf it is asked, if there is one. *)
Definition caller (request : Request) : option str :=
  match request with
  | Rest authorization _ =>
      match authenticate (extract_credentials authorization) with
      | Ok identity => match resolve resolver identity with Ok t => Some (namespace t) | Err _ => None end
      | Err _ => None
      end
  | Ws identity _ _ => match resolve resolver identity with Ok t => Some (namespace t) | Err _ => None end
  end.
End Server.
Arguments Fresh : clear implicits.

(** ** Isolation *)

Section Isolation.
Context {Value Decimal InputTx ApprovalTx : Type} `{JsonOps Value} `{Budget.DecimalOps Decimal}.
Context (base64_decode : str -> result bytes str) (to_yaml : Value -> option str) (parse_decimal : str -> option Decimal).
Context (send_input : InputTx -> str -> option InputTx) (send_approval : ApprovalTx -> ToolApprovalResponse -> option ApprovalTx).
Context (config : EngineConfig Value) (authenticate : Credentials -> result (Identity Value) AuthError) (resolver : TenantResolver).
Abbreviation Engine := (EngineState Value Decimal InputTx ApprovalTx).
Abbreviation Manager := (@TaskManager Value InputTx ApprovalTx).

(** *** Operations on one task *)

(** What [op] does depends on the record of [id] and touches no other. *)
Definition local {A} (id : str) (op : Manager -> Manager * A) : Prop :=
  (forall m j, j <> id -> tasks (fst (op m)) !! j = tasks m !! j) /\
  (forall m1 m2, tasks m1 !! id = tasks m2 !! id ->
     snd (op m1) = snd (op m2) /\ tasks (fst (op m1)) !! id = tasks (fst (op m2)) !! id).

Lemma local_transition id reason now f : local id (transition_with_reason id reason now f).
Proof.
  split.
  - intros m j Hj. unfold transition_with_reason. destruct (tasks m !! id) as [r|]; [|done]. destruct (f r) as [[r' next]|]; [|done].
    destruct (announce_spec id reason r r' next now m) as (m1 & -> & _). cbn. by rewrite lookup_insert_ne.
  - intros m1 m2 E. unfold transition_with_reason. rewrite <- E. destruct (tasks m1 !! id) as [r|] eqn:E1; [|by split; [|cbn; congruence]].
    destruct (f r) as [[r' next]|]; [|by split; [|cbn; congruence]]. split; [done|].
    destruct (announce_spec id reason r r' next now m1) as (n1 & -> & _), (announce_spec id reason r r' next now m2) as (n2 & -> & _).
    cbn. by rewrite !lookup_insert_eq.
Qed.

Lemma local_cancel id now : local id (cancel_task id now).
Proof.
  pose proof (local_transition id None now (fun r => let? next := (if is_terminal (state (handle r)) then Err (TerminalState id (state (handle r))) else Ok Cancelled)
    in Ok (set_state next r, next))) as [Ho Hs]. unfold cancel_task, move_to_cancelled, signal_cancel, transition, transition_with. split.
  - intros m j Hj. destruct (_ ≫= _); by rewrite Ho.
  - intros m1 m2 E. rewrite <- E. destruct (tasks m1 !! id ≫= cancellation_token); by apply Hs.
Qed.

Lemma local_complete id s reason now : local id (complete_task id s reason now).
Proof.
  unfold complete_task. destruct (_ && _); [by split|]. unfold se_bind.
  destruct (local_transition id reason now (fun r => if is_terminal (state (handle r)) then Err (TerminalState id (state (handle r))) else Ok (set_state s r, s))) as [Ho Hs].
  split.
  - intros m j Hj. specialize (Ho m j Hj). by destruct (transition_with_reason _ _ _ _ m) as [m' []].
  - intros m1 m2 E. destruct (Hs m1 m2 E) as [Hr Ht].
    destruct (transition_with_reason _ _ _ _ m1) as [m1' []], (transition_with_reason _ _ _ _ m2) as [m2' []]; cbn in *; split; congruence.
Qed.

Lemma local_on_record id f : local id (on_record id f).
Proof.
  unfold on_record. split.
  - intros m j Hj. destruct (tasks m !! id); [|done]. cbn. by rewrite lookup_insert_ne.
  - intros m1 m2 E. rewrite <- E. destruct (tasks m1 !! id) eqn:E1; cbn; [by rewrite !lookup_insert_eq|by rewrite <- E].
Qed.

Lemma local_create_pending id t task agent meta connection : local id (create_pending_task id t task agent meta connection).
Proof.
  split; [intros m j Hj; cbn; by rewrite lookup_insert_ne|]. intros m1 m2 _. cbn. by rewrite !lookup_insert_eq.
Qed.

(** *** What a tenant cannot tell apart *)

Definition owned (c : option str) (r : @TaskRecord Value InputTx ApprovalTx) : Prop := c = Some (tenant (handle r)).
(** The same tasks of the caller's tenant, and others under the same ids. *)
Definition alike (c : option str) (m1 m2 : Manager) : Prop := forall id,
  tasks m1 !! id = tasks m2 !! id \/
  exists r1 r2, tasks m1 !! id = Some r1 /\ tasks m2 !! id = Some r2 /\ ~ owned c r1 /\ ~ owned c r2.
Definition alike_engines (c : option str) (e1 e2 : Engine) : Prop := alike c (manager e1) (manager e2) /\ pool e1 = pool e2.

Lemma alike_refl c m : alike c m m.
Proof. by left. Qed.

Lemma local_alike {A} c id (op : Manager -> Manager * A) m1 m2 :
  local id op -> alike c m1 m2 -> tasks m1 !! id = tasks m2 !! id ->
  snd (op m1) = snd (op m2) /\ alike c (fst (op m1)) (fst (op m2)) /\ tasks (fst (op m1)) !! id = tasks (fst (op m2)) !! id.
Proof.
  intros [Ho Hs] Ha E. destruct (Hs m1 m2 E) as [Hr Ht]. split_and!; [done| |done].
  intros j. destruct (decide (j = id)) as [->|Hj]; [by left|]. rewrite !Ho by done. apply Ha.
Qed.

(** The records under other ids, and two engines that agree on [id]. *)
Definition others_kept (id : str) (e e' : Engine) : Prop := forall j, j <> id -> tasks (manager e') !! j = tasks (manager e) !! j.
Definition agree_on (c : option str) (id : str) (e1 e2 : Engine) : Prop :=
  alike_engines c e1 e2 /\ tasks (manager e1) !! id = tasks (manager e2) !! id.

Lemma on_manager_agree {A} c id (op : SE Manager TaskManagerError A) :
  local id op -> in_step (agree_on c id) eq (on_manager op) (on_manager (Decimal := Decimal) op).
Proof.
  intros Hop e1 e2 [[Ha Hp] E]. destruct (local_alike c id op _ _ Hop Ha E) as (Hr & Ha' & E'). unfold on_manager.
  destruct (op (manager e1)) as [m1 r1], (op (manager e2)) as [m2 r2]. cbn in *. subst r2. split; [done|]. by destruct r1.
Qed.
Lemma on_manager_others {A} id (op : SE Manager TaskManagerError A) e0 :
  local id op -> preserves (others_kept id e0) (on_manager (Decimal := Decimal) op).
Proof.
  intros [Ho _] e He j Hj. unfold on_manager. specialize (Ho (manager e) j Hj). destruct (op (manager e)) as [m r]. cbn in *.
  rewrite Ho. by apply He.
Qed.

Lemma step_try {St E F A} (RS : St -> St -> Prop) (m1 m2 : SE St E A) :
  in_step RS eq m1 m2 -> in_step RS eq (se_try (F := F) m1) (se_try (F := F) m2).
Proof.
  intros Hm s1 s2 Hs. unfold se_try. destruct (Hm s1 s2 Hs) as [Hs' Hr].
  destruct (m1 s1) as [s1' [a1|e1]], (m2 s2) as [s2' [a2|e2]]; cbn in *; split; naive_solver.
Qed.

(** *** Spawning *)

Section Spawning.
Context (now : N) (id : str) (token : N) (channels : InputTx * ApprovalTx) (description : str) (t : TenantConfig)
  (agent : option str) (meta : Value) (files : option (list (str * FileAttachment))) (connection : option str).
Abbreviation equip := (equip_task base64_decode to_yaml config now id token channels description meta files).
Abbreviation spawn := (spawn_task base64_decode to_yaml parse_decimal config now id token channels description t agent meta files connection).

Lemma equip_agrees c resolved : in_step (agree_on c id) eq (equip resolved) (equip resolved).
Proof.
  unfold equip_task. eapply step_bind; [instantiate (1 := agree_on c id); by intros e1 e2|]. intros e1 e2 [[Ha Hp] E].
  eapply (step_bind _ eq).
  { unfold get_task. rewrite <- E. destruct (ok_or _ _) as [h|err]; [by apply step_ret|].
    eapply (step_bind _ eq); [apply step_try, on_manager_agree, local_complete|]. intros. apply step_err. }
  intros _ _ _. eapply (step_bind _ eq).
  { destruct (build_provider _ _); [by apply step_ret|]. destruct (has_provider_factory config); [by apply step_ret|].
    eapply (step_bind _ eq); [apply step_try, on_manager_agree, local_complete|]. intros. apply step_err. }
  intros _ _ _. eapply (step_bind _ eq); [apply step_try, on_manager_agree, local_on_record|].
  intros _ _ _. eapply (step_bind _ eq); [destruct (_ || _); [apply on_manager_agree, local_on_record|by apply step_ret]|].
  intros _ _ _. eapply (step_bind _ eq); [apply step_lift; by destruct (seed_workspace _ _ _ _ _ _ _ _) as [? []]|].
  intros vfs _ <-. intros s1 s2 Hs. split; [exact Hs|done].
Qed.

Lemma equip_others resolved e0 : preserves (others_kept id e0) (equip resolved).
Proof.
  unfold equip_task. apply preserves_bind; [by intros s|]. intros s0. apply preserves_bind.
  { destruct (get_task _ _); [apply preserves_ret|]. apply preserves_bind; [apply preserves_try, on_manager_others, local_complete|].
    intros. apply preserves_err. }
  intros _. apply preserves_bind.
  { destruct (build_provider _ _); [apply preserves_ret|]. destruct (has_provider_factory config); [apply preserves_ret|].
    apply preserves_bind; [apply preserves_try, on_manager_others, local_complete|]. intros. apply preserves_err. }
  intros _. apply preserves_bind; [apply preserves_try, on_manager_others, local_on_record|].
  intros _. apply preserves_bind; [destruct (_ || _); [apply on_manager_others, local_on_record|apply preserves_ret]|].
  intros _. apply preserves_bind; [by intros s|]. intros vfs. by intros s Hs.
Qed.

Lemma spawn_agrees c : in_step (agree_on c id) eq spawn spawn.
Proof.
  unfold spawn_task. eapply (step_bind _ eq); [apply step_lift; by destruct (resolve_for _ _ _)|]. intros resolved _ <-.
  eapply (step_bind _ eq); [apply on_manager_agree, local_create_pending|]. intros h _ <-.
  eapply (step_bind _ eq); [apply equip_agrees|]. intros _ _ _. eapply (step_bind _ eq); [|intros _ _ _; by apply step_ret].
  intros e1 e2 [[Ha Hp] E]. unfold submit_work. rewrite <- Hp. destruct (submit _ _) as [p r]. split; [done|]. by destruct r.
Qed.

Lemma spawn_others e0 : preserves (others_kept id e0) spawn.
Proof.
  unfold spawn_task. apply preserves_bind; [by intros s|]. intros resolved. apply preserves_bind; [apply on_manager_others, local_create_pending|].
  intros h. apply preserves_bind; [apply equip_others|]. intros _. apply preserves_bind; [|intros; apply preserves_ret].
  intros e He. unfold submit_work. destruct (submit _ _) as [p r]. done.
Qed.
End Spawning.
(** *** The checks *)

(** A check that lets a caller through only to a task of its tenant, and says the same of tasks it cannot tell apart. *)
Definition guards {A B} (c : option str) (id : str) (check : Manager -> result A B) : Prop :=
  (forall m a, check m = Ok a -> exists r, tasks m !! id = Some r /\ owned c r) /\
  (forall m1 m2, alike c m1 m2 -> check m1 = check m2 /\ (is_ok (check m1) = true -> tasks m1 !! id = tasks m2 !! id)).

Lemma get_task_some id (m : Manager) r : tasks m !! id = Some r -> get_task id m = Ok (handle r).
Proof. intros E. unfold get_task. by rewrite E. Qed.
Lemma get_task_none id (m : Manager) : tasks m !! id = None -> get_task id m = Err (TaskNotFound id).
Proof. intros E. unfold get_task. by rewrite E. Qed.

(** A check that looks at the handle alone, and refuses those of other tenants with one answer. *)
Lemma handle_check_guards {A B} c id (found : TaskHandle -> result A B) (missing refused : B) (check : Manager -> result A B) :
  (forall m, check m = match get_task id m with Ok h => found h | Err _ => Err missing end) ->
  (forall h a, found h = Ok a -> c = Some (tenant h)) -> (forall h, c <> Some (tenant h) -> found h = Err refused) ->
  guards c id check.
Proof.
  intros Hc Hok Hbad. split.
  - intros m a. rewrite Hc. destruct (tasks m !! id) as [r|] eqn:E; [|by rewrite get_task_none]. rewrite (get_task_some _ _ r) by done.
    intros Ha. exists r. split; [done|]. by eapply Hok.
  - intros m1 m2 Ha. rewrite !Hc. destruct (Ha id) as [E|(r1 & r2 & E1 & E2 & H1 & H2)].
    + unfold get_task. by rewrite E.
    + by rewrite (get_task_some _ _ _ E1), (get_task_some _ _ _ E2), !Hbad.
Qed.

Abbreviation call_tenant := (caller authenticate resolver).

Lemma rest_check_guards authorization call id :
  guards (call_tenant (Rest authorization call)) id (resolve_and_check_ownership authenticate resolver authorization id).
Proof.
  unfold resolve_and_check_ownership, identify, tenant_of. cbn [caller].
  destruct (authenticate _) as [identity|err]; cbn [map_err]; [|by split; [|intros; by split]].
  destruct (resolve resolver identity) as [t|err]; cbn [map_err]; [|by split; [|intros; by split]].
  eapply (handle_check_guards _ id
    (fun h => if str_eqb (tenant h) (namespace t) then Ok (identity, h) else Err (error_response 403 "forbidden" "task does not belong to authenticated tenant"))
    (error_response 404 "not_found" (task_manager_error_to_string (TaskNotFound id)))).
  - intros m. unfold get_task. by destruct (tasks m !! id).
  - intros h a. destruct (str_eqb _ _) eqn:E; [|done]. bools. congruence.
  - intros h Hn. destruct (str_eqb _ _) eqn:E; [|done]. bools. congruence.
Qed.

Lemma ws_check_guards identity conn text id :
  guards (call_tenant (Ws identity conn text)) id (check_ws_ownership (InputTx := InputTx) (ApprovalTx := ApprovalTx) resolver identity id).
Proof.
  unfold check_ws_ownership. cbn [caller]. destruct (resolve resolver identity) as [t|err]; cbn [map_err].
  - eapply (handle_check_guards _ id
      (fun h => if str_eqb (tenant h) (namespace t) then Ok h else Err (ws_error "forbidden" "access denied"))
      (ws_error "not_found" ("task '" ++ id ++ "' not found"))).
    + intros m. unfold get_task. by destruct (tasks m !! id).
    + intros h a. destruct (str_eqb _ _) eqn:E; [|done]. bools. congruence.
    + intros h Hn. destruct (str_eqb _ _) eqn:E; [|done]. bools. congruence.
  - eapply (handle_check_guards _ id (fun h => Err (ws_error "forbidden" "tenant resolution failed"))
      (ws_error "not_found" ("task '" ++ id ++ "' not found"))); [|done|done].
    intros m. unfold get_task. by destruct (tasks m !! id).
Qed.

(** *** Requests *)

(** A step of an engine that does nothing to tasks of others and tells nothing of them. *)
Definition isolated {A} (c : option str) (f : Engine -> Engine * A) (e : Engine) : Prop :=
  (forall id r, tasks (manager e) !! id = Some r -> ~ owned c r -> tasks (manager (fst (f e))) !! id = Some r) /\
  (forall e2, alike_engines c e e2 -> snd (f e2) = snd (f e) /\ alike_engines c (fst (f e)) (fst (f e2))).

Lemma isolated_ext {A} c (f g : Engine -> Engine * A) e : (forall e, f e = g e) -> isolated c g e -> isolated c f e.
Proof. intros E [H1 H2]. split; [intros id r; rewrite E; apply H1|]. intros e2 Ha. rewrite !E. by apply H2. Qed.
Lemma isolated_map {A B} c (f : Engine -> Engine * A) (g : A -> B) e :
  isolated c f e -> isolated c (fun e => let '(e', a) := f e in (e', g a)) e.
Proof.
  intros [H1 H2]. split.
  - intros id r. specialize (H1 id r). by destruct (f e).
  - intros e2 Ha. destruct (H2 e2 Ha) as [Hr Ha']. destruct (f e), (f e2). cbn in *. by subst.
Qed.
Lemma isolated_const {A} c (a : A) e : isolated c (fun e => (e, a)) e.
Proof. by split. Qed.

(** A guarded look at a task, and a guarded operation on it. *)
Lemma isolated_look {A B C} c id (check : Manager -> result A B) (refuse : B -> C) (look : A -> Manager -> C) e :
  guards c id check -> (forall a m1 m2, tasks m1 !! id = tasks m2 !! id -> look a m1 = look a m2) ->
  isolated c (fun e => (e, match check (manager e) with Err b => refuse b | Ok a => look a (manager e) end)) e.
Proof.
  intros [_ Hg] Hl. split; [done|]. intros e2 Ha. split; [|done]. destruct (Hg _ _ (proj1 Ha)) as [E Hok]. cbn [snd]. rewrite <- E.
  destruct (check (manager e)) as [a|b]; [|done]. symmetry. by apply Hl, Hok.
Qed.
Lemma isolated_steer {A B C R} c id (check : Manager -> result A B) (refuse : B -> C) (op : Manager -> Manager * R) (reply : R -> C) e :
  guards c id check -> local id op ->
  isolated c (fun e => match check (manager e) with
                       | Err b => (e, refuse b)
                       | Ok _ => let '(m, r) := op (manager e) in (set_manager m e, reply r)
                       end) e.
Proof.
  intros [Hok Hg] Hop. split.
  - intros j r E Hn. destruct (check (manager e)) as [a|b] eqn:Ec; [|done]. destruct (Hok _ _ Ec) as (r0 & E0 & Ho).
    destruct Hop as [Hothers _]. specialize (Hothers (manager e) j). destruct (op (manager e)) as [m x]. cbn in *.
    destruct (decide (j = id)) as [->|Hj]; [congruence|]. by rewrite Hothers.
  - intros e2 [Ha Hp]. destruct (Hg _ _ Ha) as [E Heq]. rewrite <- E. destruct (check (manager e)) as [a|b]; [|done].
    destruct (local_alike c id op _ _ Hop Ha (Heq eq_refl)) as (Hr & Ha' & _).
    destruct (op (manager e)) as [m1 x1], (op (manager e2)) as [m2 x2]. cbn in *. by subst x2.
Qed.

(** Creating a task under a new id. *)
Lemma isolated_spawn c now id token channels description t agent meta files connection e :
  tasks (manager e) !! id = None ->
  isolated c (spawn_task base64_decode to_yaml parse_decimal config now id token channels description t agent meta files connection) e.
Proof.
  intros Hf. split.
  - intros j r E _. pose proof (spawn_others now id token channels description t agent meta files connection e e (fun _ _ => eq_refl) j) as Ho.
    etrans; [apply Ho|exact E]. intros ->. congruence.
  - intros e2 Ha. assert (agree_on c id e e2) as Hag.
    { split; [done|]. destruct (proj1 Ha id) as [|(r1 & r2 & E1 & _)]; [done|congruence]. }
    destruct (spawn_agrees now id token channels description t agent meta files connection c e e2 Hag) as [[Ha' _] Hr].
    split; [|done]. destruct (snd (spawn_task _ _ _ _ _ _ _ _ _ _ _ _ _ _ e)), (snd (spawn_task _ _ _ _ _ _ _ _ _ _ _ _ _ _ e2)); cbn in Hr; by subst.
Qed.

Lemma isolated_rest now fresh authorization call e :
  tasks (manager e) !! fresh_id fresh = None ->
  isolated (call_tenant (Rest authorization call))
    (rest base64_decode to_yaml parse_decimal config authenticate resolver now fresh authorization call) e.
Proof.
  intros Hf. pose proof (rest_check_guards authorization call) as Hg. destruct call as [request|id|id|id|id|id]; cbn [rest].
  - apply isolated_map. unfold create_task_call. destruct (let? identity := _ in _) as [t|r]; [|apply isolated_const].
    apply (isolated_map _ _ (fun r => match r with
      | Ok h => ok_response (json_object ["task_id" ↦ json_string (task_id h); "state" ↦ json_string (task_state_to_string (state h))])
      | Err err => spawn_error_response err end)). by apply isolated_spawn.
  - unfold task_status. eapply isolated_ext, (isolated_look _ id _ Respond (fun '(_, h) _ => Respond (ok_response (json_object
      ["task_id" ↦ json_string (task_id h); "state" ↦ json_string (task_state_to_string (state h));
       "tenant" ↦ json_string (tenant h); "agent_type" ↦ json_string (agent_type h)])))); [|apply Hg|by intros []].
    intros e1. cbn [rest]. unfold task_status. by destruct (resolve_and_check_ownership _ _ _ _ _) as [[i h]|].
  - unfold open_events. apply (isolated_look _ id _ Respond (fun _ m => match subscribe_task id m with
      | Ok (history, position) => Stream history position
      | Err err => Respond (error_response 404 "not_found" (task_manager_error_to_string err)) end)); [apply Hg|].
    intros _ m1 m2 E. unfold subscribe_task. by rewrite E.
  - apply isolated_map, isolated_steer with (id := id); [apply Hg|apply local_cancel].
  - apply isolated_map, isolated_steer with (id := id); [apply Hg|apply local_transition].
  - apply isolated_map, isolated_steer with (id := id); [apply Hg|apply local_transition].
Qed.

Lemma isolated_ws parse_command now fresh identity conn text e :
  tasks (manager e) !! fresh_id fresh = None ->
  isolated (call_tenant (Ws identity conn text))
    (process_ws_command base64_decode to_yaml parse_decimal send_input send_approval config resolver parse_command now fresh identity conn text) e.
Proof.
  intros Hf. unfold process_ws_command. destruct (parse_command text) as [cmd|m]; [|apply isolated_const]. cbv zeta.
  pose proof (fun id => ws_check_guards identity conn text id) as Hg.
  destruct (str_eqb _ "task.create").
  { unfold ws_create. destruct (resolve resolver identity) as [t|err]; [|apply isolated_const].
    apply (isolated_map _ _ (fun r => match r with
      | Ok h => json_object ["event" ↦ json_string "task.created"; "task_id" ↦ json_string (task_id h); "state" ↦ json_string (task_state_to_string (state h))]
      | Err err => ws_error "task_error" (engine_error_to_string err) end)). by apply isolated_spawn. }
  destruct (str_eqb _ "task.cancel"); [eapply isolated_steer; [apply Hg|apply local_cancel]|].
  destruct (str_eqb _ "task.pause"); [eapply isolated_steer; [apply Hg|apply local_transition]|].
  destruct (str_eqb _ "task.resume"); [eapply isolated_steer; [apply Hg|apply local_transition]|].
  destruct (str_eqb _ "input.response"); [eapply isolated_steer; [apply Hg|apply local_transition]|].
  destruct (str_eqb _ "approval.respond"); [eapply isolated_steer; [apply Hg|apply local_transition]|].
  apply isolated_const.
Qed.

(** C9. Tenants are isolated.  Whatever a client asks for, over HTTP or a WebSocket, with whatever credentials:
    tasks of other tenants stay as they are; and neither the answer nor what happens to the caller's own tasks
    depends on them, beyond which ids they have taken and how full the pool is. *)
Theorem tenants_are_isolated parse_command now fresh request e :
  tasks (manager e) !! fresh_id fresh = None ->
  let handle_ := handle_request base64_decode to_yaml parse_decimal send_input send_approval config authenticate resolver parse_command now fresh request in
  (forall id r, tasks (manager e) !! id = Some r -> ~ owned (call_tenant request) r -> tasks (manager (fst (handle_ e))) !! id = Some r) /\
  (forall e2, alike_engines (call_tenant request) e e2 ->
     snd (handle_ e2) = snd (handle_ e) /\ alike_engines (call_tenant request) (fst (handle_ e)) (fst (handle_ e2))).
Proof.
  intros Hf. cbv zeta. unfold handle_request. destruct request as [authorization call|identity conn text].
  - by apply isolated_map, isolated_rest.
  - by apply (isolated_map _ _ AnswerValue), isolated_ws.
Qed.
End Isolation.

(** ** Examples *)

Section Examples.
#[local] Existing Instance ex_tasks_json.
#[local] Existing Instance Budget.N_decimal.

Definition ex_keys : gmap str ApiKeyEntry := keys_from_env "k1:alice:acme,k2:bob:rival".
Definition ex_resolver : TenantResolver :=
  {| tenants := {[lit "acme" := ex_tenant; lit "rival" := {| namespace := "rival"; default_agent_type := "coder"; vfs_root := "/data/rival";
       budget_pool := budget_pool ex_tenant; hooks := []; tenant_integrations := []; mcp_servers := [] |}]}; default_tenant := None |}.
Definition ex_fresh : Fresh (list str) (list ToolApprovalResponse) := {| fresh_id := "t9"; fresh_token := 9; fresh_channels := ([], []) |}.
Abbreviation ex_handle := (handle_request (Decimal := N) ex_base64 ex_yaml (fun _ => None) ex_send ex_send ex_config (api_key_authenticate ex_keys) ex_resolver
  (fun _ => Err (lit "not used")) 7 ex_fresh).
Definition bob (call : RestCall) : @Request tree := Rest (Some (lit "ApiKey k2")) call.

Lemma ex_fresh_is_new : tasks (manager (engine ex_system)) !! fresh_id ex_fresh = None.
Proof. vm_compute. reflexivity. Qed.
Lemma ex_bob_tenant call : caller (api_key_authenticate ex_keys) ex_resolver (bob call) = Some (lit "rival").
Proof. vm_compute. reflexivity. Qed.

(** Bob asks to cancel Alice's task: it stays, and the answer is the one for an engine whose task runs no more. *)
Definition ex_other_engine : EngineState tree N (list str) (list ToolApprovalResponse) :=
  set_manager (fst (complete_task "t1" Completed None 7 (manager (engine ex_system)))) (engine ex_system).
Lemma alike_one c id now s reason (e : EngineState tree N (list str) (list ToolApprovalResponse)) r1 r2 :
  tasks (manager e) !! id = Some r1 -> tasks (fst (complete_task id s reason now (manager e))) !! id = Some r2 ->
  ~ owned c r1 -> ~ owned c r2 -> alike_engines c e (set_manager (fst (complete_task id s reason now (manager e))) e).
Proof.
  intros E1 E2 H1 H2. split; [|done]. intros j. destruct (decide (j = id)) as [->|Hj]; [right; by exists r1, r2|].
  left. symmetry. by apply (local_complete id s reason now).
Qed.
Lemma ex_engines_alike : alike_engines (Some (lit "rival")) (engine ex_system) ex_other_engine.
Proof.
  assert (forall o : option (@TaskRecord tree (list str) (list ToolApprovalResponse)),
    option_map (fun r => tenant (handle r)) o = Some (lit "acme") -> exists r, o = Some r /\ ~ owned (Some (lit "rival")) r) as Hfind.
  { intros [r|]; [|done]. intros [= E]. exists r. split; [done|]. unfold owned. rewrite E. discriminate. }
  destruct (Hfind (tasks (manager (engine ex_system)) !! lit "t1")) as (r1 & E1 & H1); [vm_compute; reflexivity|].
  destruct (Hfind (tasks (fst (complete_task "t1" Completed None 7 (manager (engine ex_system)))) !! lit "t1")) as (r2 & E2 & H2); [vm_compute; reflexivity|].
  exact (alike_one _ _ _ _ _ _ r1 r2 E1 E2 H1 H2).
Qed.
Lemma ex_victim : exists r, tasks (manager (engine ex_system)) !! lit "t1" = Some r /\ tenant (handle r) = lit "acme".
Proof.
  assert (forall o : option (@TaskRecord tree (list str) (list ToolApprovalResponse)),
    option_map (fun r => tenant (handle r)) o = Some (lit "acme") -> exists r, o = Some r /\ tenant (handle r) = lit "acme") as Hfind.
  { intros [r|]; [|done]. intros [= E]. by exists r. }
  apply Hfind. vm_compute. reflexivity.
Qed.

Lemma tenants_are_isolated_witness :
  let request := bob (CancelTask "t1") in
  tasks (manager (fst (ex_handle request (engine ex_system)))) !! lit "t1" = tasks (manager (engine ex_system)) !! lit "t1" /\
  snd (ex_handle request ex_other_engine) = snd (ex_handle request (engine ex_system)).
Proof.
  cbv zeta. destruct (tenants_are_isolated ex_base64 ex_yaml (fun _ => None) ex_send ex_send ex_config (api_key_authenticate ex_keys) ex_resolver
    (fun _ => Err (lit "not used")) 7 ex_fresh (bob (CancelTask "t1")) (engine ex_system) ex_fresh_is_new) as [H1 H2].
  rewrite (ex_bob_tenant (CancelTask "t1")) in H1, H2. split.
  - destruct ex_victim as (r1 & E1 & Et). rewrite E1. apply (H1 (lit "t1") r1 E1). unfold owned. rewrite Et. discriminate.
  - apply (H2 ex_other_engine ex_engines_alike).
Defined.

(** The answer for a task of another tenant is not the one for a task that does not exist. *)
Example existence_is_told :
  match snd (ex_handle (bob (TaskStatus "t1")) (engine ex_system)), snd (ex_handle (bob (TaskStatus "t7")) (engine ex_system)) with
  | AnswerReply (Respond r1), AnswerReply (Respond r2) => (status r1, status r2) = (403, 404)%N
  | _, _ => False
  end.
Proof. vm_compute. reflexivity. Qed.
End Examples.
