(* ===== verification/WorkflowApi.v ===== *)
(** * Workflows over the API

    Models the workflow calls of [crates/simulacra-server/src/server.rs]: starting and resuming runs, their
    status, events and cancellation, and the map of owners that decides who may ask for them.  The runtime is
    that of [Workflow].  The JSON of a run is a parameter; the lock of the owners is not poisoned, and a
    call's accesses to the runtime and to the owners follow each other at once. *)

From S2P Require Import Prelude.
From S2P Require Import Json.
From S2P Require Import Vfs.
From S2P Require Import WorkflowStore.
From S2P Require Import Workflow.
From S2P Require Import Tenancy.
From S2P Require Import Server.
From S2P Require MemoryFs.

Section WorkflowApi.
Context {Value F : Type} `{JsonOps Value} `{RunCodec Value} `{VirtualFs F}.
Context (eval_meta : str -> result str WorkflowError) (meta_of_value : Value -> result WorkflowScriptMeta str)
  (run_value : WorkflowRun Value -> Value) (authenticate : Credentials -> result (Identity Value) AuthError) (resolver : TenantResolver).

(** The runtime, when one is configured, and who owns which run. *)
Record WorkflowState := { workflow_runtime : option (@WorkflowRuntime Value F); workflow_owners : gmap str str }.

Definition workflow_unavailable_response : Response Value := error_response 503 "workflow_unavailable" "workflow runtime is not configured".
Definition workflow_err_response (http : N) (message : str) : Response Value := error_response http "workflow_error" message.

Definition resolve_tenant_namespace (authorization : option str) : result str (Response Value) :=
  let? identity := identify authenticate authorization in
  let? t := tenant_of resolver identity in
  Ok (namespace t).
Definition resolve_workflow_runtime_and_owner (authorization : option str) (id : str) (s : WorkflowState)
    : result (@WorkflowRuntime Value F) (Response Value) :=
  let? t := resolve_tenant_namespace authorization in
  let? rt := ok_or (workflow_runtime s) workflow_unavailable_response in
  let? owner := ok_or (workflow_owners s !! id) (workflow_err_response 404 ("workflow run `" ++ id ++ "` was not found")) in
  if str_eqb owner t then Ok rt else Err (workflow_err_response 403 "workflow run does not belong to authenticated tenant").

(** The part that starting and resuming share. *)
Definition start_and_own (fresh : str) (t : str) (options : @WorkflowRunOptions Value) (rt : @WorkflowRuntime Value F) (s : WorkflowState)
    : WorkflowState * Response Value :=
  let '(rt, r) := start eval_meta meta_of_value fresh options rt in
  match r with
  | Ok id =>
      ({| workflow_runtime := Some rt; workflow_owners := <[id := t]> (workflow_owners s) |},
       ok_response (json_object ["run_id" ↦ json_string id; "status" ↦ json_string "running";
         "script_path" ↦ json_opt_string (exec_script_path <$> control id rt); "transcript_dir" ↦ json_string (transcript_dir id)]))
  | Err e => ({| workflow_runtime := Some rt; workflow_owners := workflow_owners s |}, workflow_err_response 400 (workflow_error_to_string e))
  end.
Definition workflow_start (fresh : str) (authorization : option str) (options : @WorkflowRunOptions Value) (s : WorkflowState)
    : WorkflowState * Response Value :=
  match resolve_tenant_namespace authorization with
  | Err r => (s, r)
  | Ok t => match workflow_runtime s with
            | None => (s, workflow_unavailable_response)
            | Some rt => start_and_own fresh t options rt s
            end
  end.
Definition workflow_resume (fresh : str) (authorization : option str) (id : str) (options : @WorkflowRunOptions Value) (s : WorkflowState)
    : WorkflowState * Response Value :=
  match (let? t := resolve_tenant_namespace authorization in
         let? rt := resolve_workflow_runtime_and_owner authorization id s in Ok (t, rt)) with
  | Err r => (s, r)
  | Ok (t, rt) =>
      let options := {| opt_run_id := opt_run_id options; opt_script := opt_script options; opt_name := opt_name options;
                        opt_script_path := opt_script_path options; opt_args := opt_args options; opt_resume_from := Some id;
                        opt_concurrency_limit := opt_concurrency_limit options |} in
      start_and_own fresh t options rt s
  end.

Definition workflow_status (authorization : option str) (id : str) (s : WorkflowState) : Response Value :=
  match resolve_workflow_runtime_and_owner authorization id s with
  | Err r => r
  | Ok rt => match read_run (rt_fs rt) id with
             | Ok run => ok_response (run_value run)
             | Err e => workflow_err_response 404 (workflow_error_to_string e)
             end
  end.
(** The events so far, numbered from one. *)
Definition workflow_events (authorization : option str) (id : str) (s : WorkflowState) : result (list Value) (Response Value) :=
  let? rt := resolve_workflow_runtime_and_owner authorization id s in
  let? l := map_err (fun e => workflow_err_response 404 (workflow_error_to_string e)) (run_events id rt) in
  Ok (imap (fun i e => to_sse_json e (N.of_nat i + 1)) l).
Definition workflow_cancel (authorization : option str) (id : str) (s : WorkflowState) : WorkflowState * Response Value :=
  match resolve_workflow_runtime_and_owner authorization id s with
  | Err r => (s, r)
  | Ok rt =>
      let '(rt, r) := cancel id rt in
      ({| workflow_runtime := Some rt; workflow_owners := workflow_owners s |},
       match r with
       | Ok _ => ok_response (json_object ["run_id" ↦ json_string id; "status" ↦ json_string "cancelling"])
       | Err e => workflow_err_response 400 (workflow_error_to_string e)
       end)
  end.

(** The tenant that asks, and the owner that is needed. *)
Lemma owner_needed authorization id s rt :
  resolve_workflow_runtime_and_owner authorization id s = Ok rt ->
  exists t, resolve_tenant_namespace authorization = Ok t /\ workflow_owners s !! id = Some t /\ workflow_runtime s = Some rt.
Proof.
  unfold resolve_workflow_runtime_and_owner. destruct (resolve_tenant_namespace authorization) as [t|]; [|done]. cbn.
  destruct (workflow_runtime s) as [rt'|]; [|done]. cbn. destruct (workflow_owners s !! id) as [owner|]; [|done]. cbn.
  destruct (str_eqb owner t) eqn:E; [|done]. intros [= <-]. bools. subst owner. by exists t.
Qed.
End WorkflowApi.

(** ** Examples *)

Section Examples.
#[local] Existing Instance Workflow.ex_json.
#[local] Existing Instance Workflow.ex_codec.
#[local] Existing Instance Workflow.ex_files.

Abbreviation ex_call := (workflow_start (fun _ => Ok (lit "meta")) (fun _ => Ok Workflow.ex_meta) (api_key_authenticate Server.ex_keys) Server.ex_resolver).
Definition ex_service : @WorkflowState tree MemoryFs.State := {| workflow_runtime := Some Workflow.ex_empty; workflow_owners := ∅ |}.
Definition ex_named (id : str) : @WorkflowRunOptions tree :=
  {| opt_run_id := Some id; opt_script := Some (lit "export const meta"); opt_name := None; opt_script_path := None; opt_args := Null;
     opt_resume_from := None; opt_concurrency_limit := 2 |}.
Abbreviation alice := (Some (lit "ApiKey k1")).
Abbreviation bob_key := (Some (lit "ApiKey k2")).
(** Alice starts a run; Bob may not cancel it. *)
Definition ex_alices : WorkflowState := fst (ex_call "r1" alice (Workflow.ex_options None) ex_service).
Abbreviation ex_cancel key s := (status (snd (workflow_cancel (api_key_authenticate Server.ex_keys) Server.ex_resolver key "r1" s))).

(** Bob starts a run under the id of Alice's: it takes the place of hers, and it is he who may cancel it instead of her. *)
Example run_is_taken_over :
  let s := fst (ex_call "r2" bob_key (ex_named "r1") ex_alices) in
  (ex_cancel alice ex_alices, ex_cancel bob_key ex_alices) = (200, 403)%N /\ (ex_cancel alice s, ex_cancel bob_key s) = (403, 200)%N.
Proof. vm_compute. split; reflexivity. Qed.

(** An id with parent components puts the run's files anywhere. *)
Example run_id_leaves_directory :
  let s := fst (ex_call "r2" bob_key (ex_named "../../../skills/x") ex_service) in
  match workflow_runtime s with
  | Some rt => MemoryFs.read (rt_fs rt) "/skills/x/workflow.mjs" = Ok (lit "export const meta")
  | None => False
  end.
Proof. vm_compute. reflexivity. Qed.
End Examples.
