(* ===== verification/Webhook.v ===== *)
(** * Webhooks

    Models [crates/simulacra-server/src/webhook.rs] and the routes that [server.rs] mounts for webhooks: the
    signature of a body, the template that turns a payload into the description of a task, and the creation of
    the task, recorded only or with an engine.

    Parameters: HMAC-SHA256, SHA-256 and hexadecimal, how [serde_json] reads a body, the variables of the
    environment, and those of the engine.  The regular expression of the template is written out. *)

From S2P Require Import Prelude.
From S2P Require Import Text.
From S2P Require Import Json.
From S2P Require Import Tenancy.
From S2P Require Import Tasks.
From S2P Require Import Engine.
From S2P Require Import Server.
From S2P Require Budget.

Record WebhookConfig := {
  webhook_name : str;
  webhook_path : str;
  webhook_tenant : str;
  task_template : str;
  webhook_agent_type : str;
  secret : str;
}.

Variant WebhookError :=
| MissingSignature
| WrongSignature
| InvalidBody (message : str)
| WebhookTenantNotFound (name : str)
| SecretNotFound (variable : str)
| TaskCreationFailed (message : str).
Definition webhook_error_to_string (e : WebhookError) : str :=
  match e with
  | MissingSignature => "missing X-Simulacra-Signature header"
  | WrongSignature => "invalid HMAC signature"
  | InvalidBody m => "invalid JSON body: " ++ m
  | WebhookTenantNotFound name => "tenant '" ++ name ++ "' not found"
  | SecretNotFound v => "secret env var '" ++ v ++ "' not set"
  | TaskCreationFailed m => "task creation failed: " ++ m
  end.

(** ** The template *)

Definition opening : str := "{{payload.".
Definition closing : str := "}}".
Definition placeholder (path : str) : str := opening ++ path ++ closing.

(** The paths that [\{\{payload\.([^}]+)\}\}] captures, from left to right. *)
Fixpoint captures (fuel : nat) (s : str) : list str :=
  match fuel with
  | O => []
  | S fuel =>
      match s with
      | [] => []
      | _ :: next =>
          match strip_prefix opening s with
          | Some rest =>
              let path := take_while (fun c => negb (Ascii.eqb c "}")) rest in
              match path, strip_prefix closing (skipn (length path) rest) with
              | _ :: _, Some after => path :: captures fuel after
              | _, _ => captures fuel next
              end
          | None => captures fuel next
          end
      end
  end.

Section Template.
Context {Value : Type} `{JsonOps Value}.

Definition resolve_dot_path (payload : Value) (path : str) : option str :=
  v ← walk (split_on "." path) payload;
  match as_str v with
  | Some s => Some s
  | None => if is_null v then None else Some (json_to_string v)
  end.

Definition substitution (payload : Value) (path : str) : str * str :=
  (placeholder path, unwrap_or (resolve_dot_path payload path) ("<missing: payload." ++ path ++ ">")).
Definition apply_payload_template (template : str) (payload : Value) : str :=
  fold_left (fun result '(pattern, replacement) => str_replace pattern replacement result)
    (List.map (substitution payload) (captures (length template) template)) template.
End Template.

(** ** Requests *)

Section Webhook.
Context {Value Decimal InputTx ApprovalTx : Type} `{JsonOps Value} `{Budget.DecimalOps Decimal}.
Context (base64_decode : str -> result bytes str) (to_yaml : Value -> option str) (parse_decimal : str -> option Decimal).
Context (engine_config : EngineConfig Value) (resolver : TenantResolver).
Context (hmac_sha256 : str -> bytes -> bytes) (sha256 : bytes -> bytes) (hex_encode : bytes -> str) (hex_decode : str -> option bytes)
  (from_slice : bytes -> result Value str) (env : str -> option str).
Abbreviation Engine := (EngineState Value Decimal InputTx ApprovalTx).
Abbreviation Manager := (@TaskManager Value InputTx ApprovalTx).

Context (config : WebhookConfig).

Definition validate_signature (raw_body : bytes) (signature_header : option str) : result unit WebhookError :=
  let? header := ok_or signature_header MissingSignature in
  let? hex_signature := ok_or (strip_prefix "sha256=" header) WrongSignature in
  let? key := ok_or (env (secret config)) (SecretNotFound (secret config)) in
  let? provided_bytes := ok_or (hex_decode hex_signature) WrongSignature in
  if str_eqb (hmac_sha256 key raw_body) provided_bytes then Ok tt else Err WrongSignature.

Definition compute_hmac_signature (key : str) (body : bytes) : str := "sha256=" ++ hex_encode (hmac_sha256 key body).

Definition validate_and_build (raw_body : bytes) (signature_header : option str) : result (TenantConfig * str * Value) WebhookError :=
  let? _ := validate_signature raw_body signature_header in
  let? payload := map_err InvalidBody (from_slice raw_body) in
  let task_description := apply_payload_template (task_template config) payload in
  let? t := ok_or (tenants resolver !! webhook_tenant config) (WebhookTenantNotFound (webhook_tenant config)) in
  let payload_hash := hex_encode (sha256 raw_body) in
  let meta := json_object ["source" ↦ json_string "webhook"; "webhook_name" ↦ json_string (webhook_name config);
                           "payload" ↦ payload; "payload_hash" ↦ json_string payload_hash] in
  Ok (t, task_description, meta).

(** Without an engine there is only the record of a task. *)
Definition process (now : N) (id : str) (raw_body : bytes) (signature_header : option str) : SE Manager WebhookError (@TaskHandle Value) :=
  let! built := se_lift (validate_and_build raw_body signature_header) in
  let '(t, description, meta) := built in
  se_map_err (fun e => TaskCreationFailed (task_manager_error_to_string e))
    (create_task id t description (Some (webhook_agent_type config)) meta None now).

Abbreviation spawn now fresh := (spawn_task base64_decode to_yaml parse_decimal engine_config now (fresh_id fresh) (fresh_token fresh) (fresh_channels fresh)).
Definition process_with_engine (now : N) (fresh : Fresh InputTx ApprovalTx) (raw_body : bytes) (signature_header : option str)
    : SE Engine WebhookError (@TaskHandle Value) :=
  let! built := se_lift (validate_and_build raw_body signature_header) in
  let '(t, description, meta) := built in
  se_map_err (fun e => TaskCreationFailed (engine_error_to_string e))
    (spawn now fresh description t (Some (webhook_agent_type config)) meta None None).

(** The route: a status, and a body when there is one. *)
Definition webhook_response (r : result (@TaskHandle Value) WebhookError) : N * option Value :=
  match r with
  | Ok h => (200, Some (json_object ["task_id" ↦ json_string (task_id h)]))
  | Err (MissingSignature | WrongSignature) => (401, None)
  | Err (InvalidBody _) => (400, None)
  | Err e => (500, Some (json_object ["error" ↦ json_string (webhook_error_to_string e)]))
  end%N.
Definition webhook_call (now : N) (fresh : Fresh InputTx ApprovalTx) (raw_body : bytes) (signature_header : option str) (e : Engine)
    : Engine * (N * option Value) :=
  let '(e, r) := process_with_engine now fresh raw_body signature_header e in (e, webhook_response r).

(** ** Only signed requests act *)

(** A body is signed when the header is the prefix and digits that read as its MAC. *)
Definition signed (raw_body : bytes) (signature_header : option str) : Prop :=
  exists key digits, env (secret config) = Some key /\ signature_header = Some ("sha256=" ++ digits) /\
                     hex_decode digits = Some (hmac_sha256 key raw_body).

Lemma signature_valid raw_body header : validate_signature raw_body header = Ok tt <-> signed raw_body header.
Proof.
  unfold validate_signature, signed. split.
  - destruct header as [h|]; [|done]. cbn [ok_or]. destruct (strip_prefix "sha256=" h) as [digits|] eqn:Eh; [|done]. cbn [ok_or].
    destruct (env _) as [key|]; [|done]. cbn [ok_or]. destruct (hex_decode digits) as [b|] eqn:Ed; [|done]. cbn [ok_or].
    destruct (str_eqb _ b) eqn:Eb; [|done]. intros _. apply str_eqb_true in Eb as <-. exists key, digits.
    apply strip_prefix_Some in Eh as ->. done.
  - intros (key & digits & Ek & -> & Ed). cbn [ok_or]. rewrite strip_prefix_app. cbn [ok_or]. rewrite Ek. cbn [ok_or]. rewrite Ed. cbn [ok_or].
    by rewrite str_eqb_refl.
Qed.

Lemma built_from raw_body header t description meta :
  validate_and_build raw_body header = Ok (t, description, meta) ->
  signed raw_body header /\ tenants resolver !! webhook_tenant config = Some t /\
  exists payload, from_slice raw_body = Ok payload /\ description = apply_payload_template (task_template config) payload.
Proof.
  unfold validate_and_build. destruct (validate_signature _ _) as [[]|] eqn:Es; [|done]. apply signature_valid in Es.
  destruct (from_slice raw_body) as [payload|]; [|done]. cbn. destruct (tenants resolver !! _) as [t'|]; [|done]. cbn.
  intros [= <- <- <-]. eauto.
Qed.

(** C20. A webhook acts only on a signed body.  Whatever is posted, if anything of the engine changes or a task is
    answered, then the body is signed with the webhook's secret, it is JSON and the webhook's tenant exists; all tasks
    there were are as before, and the one that may be new is the tenant's.  And the signature the server's own
    tool computes is accepted. *)
Theorem webhook_acts_only_when_signed now fresh raw_body header e :
  (forall b, hex_decode (hex_encode b) = Some b) ->
  tasks (manager e) !! fresh_id fresh = None ->
  let e' := fst (webhook_call now fresh raw_body header e) in
  (e' = e /\ fst (snd (webhook_call now fresh raw_body header e)) <> 200%N \/
   exists t payload, signed raw_body header /\ from_slice raw_body = Ok payload /\ tenants resolver !! webhook_tenant config = Some t /\
     (forall id, id <> fresh_id fresh -> tasks (manager e') !! id = tasks (manager e) !! id) /\
     (forall r, tasks (manager e') !! fresh_id fresh = Some r -> tenant (handle r) = namespace t)) /\
  (forall key, env (secret config) = Some key -> validate_signature raw_body (Some (compute_hmac_signature key raw_body)) = Ok tt).
Proof.
  intros Hhex Hf. cbv zeta. split.
  2:{ intros key Ek. apply signature_valid. exists key, (hex_encode (hmac_sha256 key raw_body)). by rewrite Hhex. }
  unfold webhook_call, process_with_engine, se_bind, se_lift.
  destruct (validate_and_build raw_body header) as [[[t description] meta]|err] eqn:Eb.
  - right. destruct (built_from _ _ _ _ _ Eb) as (Hs & Ht & payload & Hp & _). exists t, payload. split_and!; [done..| |].
    + intros id Hid. pose proof (spawn_others base64_decode to_yaml parse_decimal engine_config now (fresh_id fresh) (fresh_token fresh) (fresh_channels fresh)
        description t (Some (webhook_agent_type config)) meta None None e e ltac:(done)) as Ho.
      unfold se_map_err. destruct (spawn_task _ _ _ _ _ _ _ _ _ _ _ _ _ _ e) as [e1 r1]. cbn in *. by apply Ho.
    + pose proof (spawn_tenant base64_decode to_yaml parse_decimal (fun _ _ => None) (fun _ _ => None) engine_config now (fresh_id fresh) (fresh_token fresh) (fresh_channels fresh)
        description t (Some (webhook_agent_type config)) meta None None e) as Ho.
      unfold se_map_err. intros r. destruct (spawn_task _ _ _ _ _ _ _ _ _ _ _ _ _ _ e) as [e1 r1]. cbn in *. by apply Ho.
  - left. cbn. split; [done|]. by destruct err.
Qed.
End Webhook.

(** ** Examples *)

Section Examples.
#[local] Existing Instance ex_tasks_json.
#[local] Existing Instance Budget.N_decimal.

(** The payload decides what of itself another value is replaced with: its first field asks for the second. *)
Example payload_is_expanded :
  apply_payload_template "{{payload.title}} by {{payload.author.name}}"
    (Object ["title" ↦ Text "{{payload.author.name}}"; "author" ↦ Object ["name" ↦ Text "ann"]]) = lit "ann by ann" /\
  apply_payload_template "{{payload.title}} by {{payload.owner}}" (Object ["title" ↦ Text "a"]) = lit "a by <missing: payload.owner>".
Proof. vm_compute. split; reflexivity. Qed.

Definition ex_hook : WebhookConfig :=
  {| webhook_name := "new"; webhook_path := "/hooks/new"; webhook_tenant := "acme"; task_template := "Handle {{payload.title}}";
     webhook_agent_type := "coder"; secret := "HOOK_SECRET" |}.
Definition ex_env (name : str) : option str := if str_eqb name "HOOK_SECRET" then Some (lit "s") else None.
Definition ex_mac (key : str) (body : bytes) : bytes := key ++ body.
Definition ex_body (b : bytes) : result tree str := Ok (Object ["title" ↦ Text b]).
Abbreviation ex_post := (webhook_call (Decimal := N) ex_base64 ex_yaml (fun _ => None) ex_config ex_resolver ex_mac (fun b => b) (fun b => b) Some ex_body ex_env
  ex_hook 7 ex_fresh).
Abbreviation ex_start := (engine ex_system).

(** A task for the engine of [Server]'s examples, the worker of which is busy. *)
Lemma webhook_acts_only_when_signed_witness :
  fst (snd (ex_post (lit "x") (Some (lit "sha256=sx")) ex_start)) = 500%N /\
  fst (ex_post (lit "x") (Some (lit "sha256=sy")) ex_start) = ex_start /\
  tasks (manager (fst (ex_post (lit "x") (Some (lit "sha256=sx")) ex_start))) !! lit "t1" = tasks (manager ex_start) !! lit "t1" /\
  tasks (manager (fst (ex_post (lit "x") (Some (lit "sha256=sx")) ex_start))) !! lit "t9" <> None.
Proof.
  split; [vm_compute; reflexivity|]. split; [|split; [|vm_compute; discriminate]].
  - destruct (webhook_acts_only_when_signed (Decimal := N) ex_base64 ex_yaml (fun _ => None) ex_config ex_resolver ex_mac (fun b => b) (fun b => b) Some ex_body ex_env
      ex_hook 7 ex_fresh (lit "x") (Some (lit "sha256=sy")) ex_start (fun b => eq_refl) ex_fresh_is_new) as [[[E _]|(t & p & (key & digits & Ek & Eh & Ed) & _)] _]; [exact E|].
    exfalso. vm_compute in Ek. injection Ek as <-. injection Ed as ->. vm_compute in Eh. discriminate.
  - destruct (webhook_acts_only_when_signed (Decimal := N) ex_base64 ex_yaml (fun _ => None) ex_config ex_resolver ex_mac (fun b => b) (fun b => b) Some ex_body ex_env
      ex_hook 7 ex_fresh (lit "x") (Some (lit "sha256=sx")) ex_start (fun b => eq_refl) ex_fresh_is_new) as [[[E _]|(t & p & _ & _ & _ & E & _)] _].
    + apply (f_equal (fun e => tasks (manager e) !! lit "t1")) in E. exact E.
    + apply E. vm_compute. discriminate.
Defined.
End Examples.
