(* ===== verification/Scheduler.v ===== *)
(** * Schedules

    Models [crates/simulacra-server/src/scheduler.rs]: cron entries, the record of the last fire that is kept on
    disk, catching up at start and the loop that fires.  A time is a number of nanoseconds; a tick is one turn of
    the loop, given with the time it wakes at.

    Parameters: the [cron] package, which for an expression gives the next occurrence after a time; how times
    are written; and those of the engine.  Writing a file may fail; directories of the disk are left out. *)

From S2P Require Import Prelude.
From S2P Require Import Text.
From S2P Require Import Json.
From S2P Require Import Tenancy.
From S2P Require Import Tasks.
From S2P Require Import Engine.
From S2P Require Import Server.
From S2P Require Budget.

Variant MissedPolicy := Skip | RunOnce | Backfill.
Record ScheduleConfig := {
  schedule_name : str;
  cron : str;
  schedule_tenant : str;
  schedule_task : str;
  schedule_agent_type : str;
  missed_policy : MissedPolicy;
  enabled : bool;
}.

Definition normalize_cron_expression (expr : str) : str :=
  let parts := split_whitespace expr in
  match length parts with
  | 5%nat => "0 " ++ join " " parts ++ " *"
  | 6%nat => join " " parts ++ " *"
  | _ => expr
  end.

(** A parsed schedule gives the next occurrence after a time. *)
Abbreviation Schedule := (N -> option N).
Record ScheduleEntry := { entry_config : ScheduleConfig; schedule : option Schedule }.
Definition from_config (parse : str -> option Schedule) (config : ScheduleConfig) : ScheduleEntry :=
  {| entry_config := config; schedule := parse (normalize_cron_expression (cron config)) |}.
Definition is_active (e : ScheduleEntry) : bool := enabled (entry_config e) && match schedule e with Some _ => true | None => false end.
Definition next_after (e : ScheduleEntry) (after : N) : option N := schedule e ≫= fun next => next after.
Abbreviation entry_name e := (schedule_name (entry_config e)).

(** [schedule.after(&t)], its first [n] occurrences. *)
Fixpoint occurrences_after (n : nat) (e : ScheduleEntry) (t : N) : list N :=
  match n with
  | O => []
  | S n => match next_after e t with Some u => u :: occurrences_after n e u | None => [] end
  end.
Definition missed_occurrences (e : ScheduleEntry) (last now : N) : list N :=
  take_while (fun t => (t <? now)%N) (occurrences_after 11 e last).

(** ** The last fire *)

(** [Path::join]. *)
Definition path_join (base p : str) : str :=
  if starts_with "/" p then p
  else if str_eqb base [] || ends_with "/" base then base ++ p else base ++ "/" ++ p.
Definition last_fire_path (data_dir name : str) : str := path_join (path_join data_dir "schedules") (name ++ ".last_fire").

Section Scheduler.
Context {Value Decimal InputTx ApprovalTx : Type} `{JsonOps Value} `{Budget.DecimalOps Decimal}.
Context (base64_decode : str -> result bytes str) (to_yaml : Value -> option str) (parse_decimal : str -> option Decimal).
Context (engine_config : EngineConfig Value) (resolver : TenantResolver) (data_dir : str).
Context (encode_record : N -> str) (decode_record : str -> option N) (to_rfc3339 : N -> str) (writable : str -> bool).
Context (supply : nat -> Fresh InputTx ApprovalTx).
Abbreviation Engine := (EngineState Value Decimal InputTx ApprovalTx).

Definition read_last_fire (disk : gmap str str) (name : str) : option N := disk !! last_fire_path data_dir name ≫= decode_record.
Definition write_last_fire (name : str) (fire_time : N) (disk : gmap str str) : gmap str str * bool :=
  let path := last_fire_path data_dir name in
  if writable path then (<[path := encode_record fire_time]> disk, true) else (disk, false).

(** The engine, the disk and, for the record, the calls of [fire_schedule]. *)
Record SchedulerState := { sched_engine : Engine; disk : gmap str str; fires : list (str * N) }.

Abbreviation spawn now fresh := (spawn_task base64_decode to_yaml parse_decimal engine_config now (fresh_id fresh) (fresh_token fresh) (fresh_channels fresh)).

(** [now] is when it is called, [fire_time] what it is called for. *)
Definition fire_schedule (now : N) (e : ScheduleEntry) (fire_time : N) (s : SchedulerState) : SchedulerState :=
  let c := entry_config e in
  let fires' := fires s ++ [(schedule_name c, fire_time)] in
  match tenants resolver !! schedule_tenant c with
  | None => {| sched_engine := sched_engine s; disk := disk s; fires := fires' |}
  | Some t =>
      let meta := json_object ["source" ↦ json_string "schedule"; "schedule_name" ↦ json_string (schedule_name c);
                               "fire_time" ↦ json_string (to_rfc3339 fire_time)] in
      let '(engine, r) := spawn now (supply (length (fires s))) (schedule_task c) t (Some (schedule_agent_type c)) meta None None (sched_engine s) in
      {| sched_engine := engine;
         disk := match r with Ok _ => fst (write_last_fire (schedule_name c) fire_time (disk s)) | Err _ => disk s end;
         fires := fires' |}
  end.

(** ** Starting *)

Definition catch_up (now : N) (s : SchedulerState) (e : ScheduleEntry) : SchedulerState :=
  if is_active e then
    match read_last_fire (disk s) (entry_name e) with
    | None => s
    | Some last =>
        let missed := missed_occurrences e last now in
        match missed with
        | [] => s
        | _ =>
            match missed_policy (entry_config e) with
            | Skip => {| sched_engine := sched_engine s; disk := fst (write_last_fire (entry_name e) now (disk s)); fires := fires s |}
            | RunOnce => fire_schedule now e now s
            | Backfill => fold_left (fun s fire_time => fire_schedule now e fire_time s) (firstn 10 missed) s
            end
        end
    end
  else s.
Definition handle_missed_runs (now : N) (entries : list ScheduleEntry) (s : SchedulerState) : SchedulerState :=
  fold_left (catch_up now) entries s.

(** ** The loop *)

(** The next time for which any of them asks to be woken. *)
Definition earliest (a b : option N) : option N :=
  match a, b with Some x, Some y => Some (N.min x y) | Some x, None => Some x | None, b => b end.
Definition next_fire (entries : list ScheduleEntry) (last_tick : N) : option N :=
  foldr earliest None (List.map (fun e => next_after e last_tick) (List.filter is_active entries)).

Definition fire_if_due (last_tick fire_time : N) (s : SchedulerState) (e : ScheduleEntry) : SchedulerState :=
  if is_active e then
    match next_after e last_tick with
    | Some t => if (t <=? fire_time)%N then fire_schedule fire_time e fire_time s else s
    | None => s
    end
  else s.
(** One turn: what it waits for, and what it does when it wakes. *)
Definition waits_until (entries : list ScheduleEntry) (last_tick now : N) : N :=
  match next_fire entries last_tick with Some t => N.max now t | None => now + 60000000000 end.
Definition turn (entries : list ScheduleEntry) (st : N * SchedulerState) (wake : N) : N * SchedulerState :=
  let '(last_tick, s) := st in
  match next_fire entries last_tick with
  | None => (wake, s)
  | Some _ => (wake, fold_left (fire_if_due last_tick wake) entries s)
  end.
(** [run] from when it starts, until it is cancelled. *)
Definition run (entries : list ScheduleEntry) (start : N) (wakes : list N) (s : SchedulerState) : N * SchedulerState :=
  fold_left (turn entries) wakes (start, s).

(** ** What is fired *)

(** The times for which [fire_schedule] was called with a schedule. *)
Definition times_of (name : str) (l : list (str * N)) : list N := omap (fun '(n, t) => if str_eqb n name then Some t else None) l.
(** An entry fires in a turn when it has an occurrence since the last tick. *)
Definition due (last_tick wake : N) (e : ScheduleEntry) : bool :=
  is_active e && match next_after e last_tick with Some t => (t <=? wake)%N | None => false end.

Lemma times_of_app name l k : times_of name (l ++ k) = times_of name l ++ times_of name k.
Proof. apply omap_app. Qed.
Lemma times_of_cons name n t l : times_of name ((n, t) :: l) = (if str_eqb n name then [t] else []) ++ times_of name l.
Proof. unfold times_of. cbn. by destruct (str_eqb n name). Qed.

Lemma fire_logs now e t s : fires (fire_schedule now e t s) = fires s ++ [(entry_name e, t)].
Proof. unfold fire_schedule. destruct (tenants resolver !! _); [|done]. by destruct (spawn_task _ _ _ _ _ _ _ _ _ _ _ _ _ _ _). Qed.

Lemma pass_logs last wake entries s :
  fires (fold_left (fire_if_due last wake) entries s) = fires s ++ List.map (fun e => (entry_name e, wake)) (List.filter (due last wake) entries).
Proof.
  revert s. induction entries as [|e entries IH]; intros s; cbn [fold_left]; [by rewrite app_nil_r|]. rewrite IH.
  unfold fire_if_due, due. cbn [List.filter]. destruct (is_active e); [|done]. destruct (next_after e last) as [t|]; [|done].
  cbn [andb]. destruct (t <=? wake)%N; [|done]. rewrite fire_logs, <- app_assoc. done.
Qed.

Lemma names_apart (entries : list ScheduleEntry) (p : ScheduleEntry -> bool) wake name :
  name ∉ List.map (fun e => entry_name e) entries -> times_of name (List.map (fun e => (entry_name e, wake)) (List.filter p entries)) = [].
Proof.
  induction entries as [|e entries IH]; intros Hn; [done|]. cbn [List.map] in Hn. apply not_elem_of_cons in Hn as [Hne Hn].
  cbn [List.filter]. destruct (p e); [|by apply IH]. cbn [List.map]. rewrite times_of_cons. destruct (str_eqb _ _) eqn:E; [bools; congruence|by apply IH].
Qed.

Lemma one_per_turn (entries : list ScheduleEntry) (p : ScheduleEntry -> bool) wake e :
  NoDup (List.map (fun e => entry_name e) entries) -> e ∈ entries ->
  times_of (entry_name e) (List.map (fun e => (entry_name e, wake)) (List.filter p entries)) = if p e then [wake] else [].
Proof.
  intros Hn He. induction entries as [|e' entries IH]; [by apply not_elem_of_nil in He|]. cbn [List.map] in Hn. apply NoDup_cons in Hn as [Hx Hn].
  cbn [List.filter]. apply elem_of_cons in He as [<-|He].
  - destruct (p e); [|by apply names_apart]. cbn [List.map]. rewrite times_of_cons, str_eqb_refl. by rewrite names_apart.
  - assert (str_eqb (entry_name e') (entry_name e) = false) as Hne.
    { apply not_true_iff_false. intros E. bools. apply Hx. rewrite E. apply list_elem_of_In, in_map_iff. exists e. split; [done|by apply list_elem_of_In]. }
    destruct (p e'); [|by apply IH]. cbn [List.map]. rewrite times_of_cons, Hne. by apply IH.
Qed.

Lemma none_asks entries last e wake : next_fire entries last = None -> e ∈ entries -> due last wake e = false.
Proof.
  unfold next_fire, due. intros Hn He. destruct (is_active e) eqn:Ha; [|done]. cbn.
  induction entries as [|e' entries IH]; [by apply not_elem_of_nil in He|]. cbn [List.filter] in Hn. apply elem_of_cons in He as [<-|He].
  - rewrite Ha in Hn. cbn in Hn. destruct (next_after e last); [|done]. by destruct (foldr _ _ _).
  - apply IH; [|done]. destruct (is_active e'); [|done]. cbn in Hn. by destruct (next_after e' last), (foldr _ _ _).
Qed.

(** The turns in which an entry fires. *)
Fixpoint turns_due (e : ScheduleEntry) (last_tick : N) (wakes : list N) : list N :=
  match wakes with
  | [] => []
  | w :: wakes => (if due last_tick w e then [w] else []) ++ turns_due e w wakes
  end.

Lemma run_fires entries e start wakes s :
  NoDup (List.map (fun e => entry_name e) entries) -> e ∈ entries ->
  times_of (entry_name e) (fires (snd (run entries start wakes s))) = times_of (entry_name e) (fires s) ++ turns_due e start wakes.
Proof.
  intros Hn He. unfold run. revert start s. induction wakes as [|w wakes IH]; intros start s; cbn [fold_left turns_due]; [by rewrite app_nil_r|].
  unfold turn at 2. destruct (next_fire entries start) eqn:En.
  - rewrite IH, pass_logs, times_of_app, one_per_turn by done. by rewrite app_assoc.
  - rewrite IH. by rewrite (none_asks _ _ _ w En He).
Qed.

Lemma earliest_le l (t : N) : Some t ∈ l -> exists u, foldr earliest None l = Some u /\ (u <= t)%N.
Proof.
  induction l as [|x l IH]; intros Ht; [by apply not_elem_of_nil in Ht|]. cbn. apply elem_of_cons in Ht as [<-|Ht].
  - destruct (foldr earliest None l) as [y|]; cbn; eexists; (split; [done|lia]).
  - destruct (IH Ht) as (u & -> & Hu). destruct x as [x|]; cbn; eexists; (split; [done|lia]).
Qed.
End Scheduler.

(** ** Occurrences *)

(** [next] gives the first occurrence after a time. *)
Definition cron_lawful (next : Schedule) (occurs : N -> Prop) : Prop := forall a,
  match next a with
  | Some t => (a < t)%N /\ occurs t /\ forall u, (a < u)%N -> (u < t)%N -> ~ occurs u
  | None => forall u, (a < u)%N -> ~ occurs u
  end.

Section Occurrences.
Context (e : ScheduleEntry) (next : Schedule) (occurs : N -> Prop) (Hs : schedule e = Some next) (Hl : cron_lawful next occurs) (He : is_active e = true).

Lemma next_of a : next_after e a = next a.
Proof. unfold next_after. by rewrite Hs. Qed.

Lemma due_spec last w : due last w e = true <-> exists t, occurs t /\ (last < t)%N /\ (t <= w)%N.
Proof.
  unfold due. rewrite He, next_of. cbn. specialize (Hl last). destruct (next last) as [t|].
  - destruct Hl as (Hlt & Ho & Hfirst). split.
    + intros E. exists t. split_and!; [done|done|]. by apply N.leb_le.
    + intros (u & Hu & Hlu & Huw). apply N.leb_le. destruct (N.lt_ge_cases u t) as [Hut|]; [|lia]. by destruct (Hfirst u Hlu Hut).
  - split; [done|]. intros (u & Hu & Hlu & _). by destruct (Hl u Hlu).
Qed.

Lemma turns_in wakes last w : w ∈ turns_due e last wakes -> w ∈ wakes.
Proof.
  revert last. induction wakes as [|w' wakes IH]; intros last; cbn [turns_due]; [done|]. rewrite elem_of_app, elem_of_cons.
  intros [Hw|Hw]; [|right; by eapply IH]. destruct (due last w' e); [|by apply not_elem_of_nil in Hw]. left. by apply list_elem_of_singleton.
Qed.

(** With a clock that does not go back, the turns that fire are those with an occurrence since the turn before. *)
Lemma turns_answer wakes start : StronglySorted N.le (start :: wakes) ->
  StronglySorted N.lt (start :: turns_due e start wakes) /\
  (forall t, occurs t -> (start < t)%N -> (exists w, w ∈ wakes /\ (t <= w)%N) ->
     exists w, w ∈ turns_due e start wakes /\ (t <= w)%N /\ forall w', w' ∈ wakes -> (t <= w')%N -> (w <= w')%N) /\
  (forall w, w ∈ turns_due e start wakes -> exists t, occurs t /\ (start < t)%N /\ (t <= w)%N /\ forall w', w' ∈ wakes -> (w' < w)%N -> (w' < t)%N).
Proof.
  revert start. induction wakes as [|w wakes IH]; intros start Hsort.
  { cbn. split_and!; [repeat constructor|intros t _ _ (w & Hw & _); by apply not_elem_of_nil in Hw|intros w Hw; by apply not_elem_of_nil in Hw]. }
  apply StronglySorted_inv in Hsort as [Hsort Hall]. destruct (IH w Hsort) as (H1 & H2 & H3). clear IH.
  apply StronglySorted_inv in Hsort as [Hsort Hw]. pose proof (Forall_inv Hall) as Hsw. rewrite Forall_forall in Hw.
  apply StronglySorted_inv in H1 as [H1 H1w]. rewrite Forall_forall in H1w. cbn [turns_due]. destruct (due start w e) eqn:Ed.
  - apply due_spec in Ed as (t0 & Ho0 & Hst0 & Ht0w). split_and!.
    + constructor; [constructor; [done|by apply Forall_forall]|]. apply Forall_forall. intros x Hx. apply elem_of_cons in Hx as [->|Hx]; [lia|].
      specialize (H1w x Hx). lia.
    + intros t Ho Hst (w1 & Hw1 & Htw1). destruct (N.le_gt_cases t w) as [Htw|Htw].
      * exists w. split_and!; [by left|done|]. intros w' Hw'. apply elem_of_cons in Hw' as [->|Hw']; [lia|]. by apply Hw in Hw'.
      * destruct (H2 t Ho Htw) as (w2 & Hw2 & Htw2 & Hfirst).
        { apply elem_of_cons in Hw1 as [->|Hw1]; [lia|by exists w1]. }
        exists w2. split_and!; [by right|done|]. intros w' Hw' Htw'. apply elem_of_cons in Hw' as [->|Hw']; [lia|by apply Hfirst].
    + intros w1 Hw1. apply elem_of_cons in Hw1 as [->|Hw1].
      * exists t0. split_and!; [done|done|done|]. intros w' Hw' Hlt. apply elem_of_cons in Hw' as [->|Hw']; [lia|]. apply Hw in Hw'. lia.
      * destruct (H3 w1 Hw1) as (t & Ho & Hwt & Htw1 & Hlast). exists t. split_and!; [done|lia|done|].
        intros w' Hw' Hlt. apply elem_of_cons in Hw' as [->|Hw']; [done|by apply Hlast].
  - cbn [app]. assert (forall t, occurs t -> (start < t)%N -> (w < t)%N) as Hnone.
    { intros t Ho Hst. destruct (N.lt_ge_cases w t); [done|]. exfalso. apply not_true_iff_false in Ed. apply Ed, due_spec. by exists t. }
    split_and!.
    + constructor; [done|]. apply Forall_forall. intros x Hx. specialize (H1w x Hx). lia.
    + intros t Ho Hst (w1 & Hw1 & Htw1). specialize (Hnone t Ho Hst). destruct (H2 t Ho Hnone) as (w2 & Hw2 & Htw2 & Hfirst).
      { apply elem_of_cons in Hw1 as [->|Hw1]; [lia|by exists w1]. }
      exists w2. split_and!; [done|done|]. intros w' Hw' Htw'. apply elem_of_cons in Hw' as [->|Hw']; [lia|by apply Hfirst].
    + intros w1 Hw1. destruct (H3 w1 Hw1) as (t & Ho & Hwt & Htw1 & Hlast). exists t. split_and!; [done|lia|done|].
      intros w' Hw' Hlt. apply elem_of_cons in Hw' as [->|Hw']; [done|by apply Hlast].
Qed.
End Occurrences.

(** ** The theorems *)

Section Theorems.
Context {Value Decimal InputTx ApprovalTx : Type} `{JsonOps Value} `{Budget.DecimalOps Decimal}.
Context (base64_decode : str -> result bytes str) (to_yaml : Value -> option str) (parse_decimal : str -> option Decimal).
Context (engine_config : EngineConfig Value) (resolver : TenantResolver) (data_dir : str).
Context (encode_record : N -> str) (decode_record : str -> option N) (to_rfc3339 : N -> str) (writable : str -> bool).
Context (supply : nat -> Fresh InputTx ApprovalTx).
Abbreviation run_ := (run base64_decode to_yaml parse_decimal engine_config resolver data_dir encode_record to_rfc3339 writable supply).
Abbreviation catch_up_ := (catch_up base64_decode to_yaml parse_decimal engine_config resolver data_dir encode_record decode_record to_rfc3339 writable supply).
Abbreviation fire_ := (fire_schedule base64_decode to_yaml parse_decimal engine_config resolver data_dir encode_record to_rfc3339 writable supply).
Abbreviation State := (@SchedulerState Value Decimal InputTx ApprovalTx).

(** C31. No occurrence of a schedule is skipped by the loop and none fires twice, however late it wakes.  While the
    clock does not go back, each occurrence of an active schedule after the start is fired for in the first turn
    that wakes at it or later; a turn fires a schedule at most once, and only for an occurrence since the turn
    before; and the loop never asks to sleep past an occurrence. *)
Theorem no_occurrence_is_skipped entries e next occurs start wakes (s : State) :
  NoDup (List.map (fun e => entry_name e) entries) -> e ∈ entries ->
  schedule e = Some next -> cron_lawful next occurs -> is_active e = true ->
  StronglySorted N.le (start :: wakes) ->
  exists fired,
    times_of (entry_name e) (fires (snd (run_ entries start wakes s))) = times_of (entry_name e) (fires s) ++ fired /\
    StronglySorted N.lt fired /\
    (forall t, occurs t -> (start < t)%N -> (exists w, w ∈ wakes /\ (t <= w)%N) ->
       exists w, w ∈ fired /\ (t <= w)%N /\ forall w', w' ∈ wakes -> (t <= w')%N -> (w <= w')%N) /\
    (forall w, w ∈ fired -> w ∈ wakes /\ exists t, occurs t /\ (start < t)%N /\ (t <= w)%N /\ forall w', w' ∈ wakes -> (w' < w)%N -> (w' < t)%N) /\
    (forall last now t, occurs t -> (last < t)%N -> (waits_until entries last now <= N.max now t)%N).
Proof.
  intros Hn He Hs Hl Ha Hsort. exists (turns_due e start wakes). rewrite run_fires by done.
  destruct (turns_answer e next occurs Hs Hl Ha wakes start Hsort) as (H1 & H2 & H3). apply StronglySorted_inv in H1 as [H1 _].
  split_and!; [done|done|done| |].
  - intros w Hw. split; [by eapply turns_in|by apply H3].
  - intros last now t Ho Hlt. unfold waits_until.
    assert (exists u, next_after e last = Some u /\ (u <= t)%N) as (u & Eu & Hu).
    { rewrite (next_of e next Hs). specialize (Hl last). destruct (next last) as [u|]; [|by destruct (Hl t Hlt)]. exists u. split; [done|].
      destruct Hl as (_ & _ & Hfirst). destruct (N.le_gt_cases u t); [done|]. by destruct (Hfirst t Hlt). }
    destruct (earliest_le (List.map (fun e => next_after e last) (List.filter is_active entries)) u) as (v & Ev & Hv).
    { rewrite <- Eu. apply list_elem_of_In, in_map_iff. exists e. split; [done|]. apply filter_In. split; [by apply list_elem_of_In|done]. }
    unfold next_fire. rewrite Ev. lia.
Qed.

(** *** What was missed *)

Lemma after_spec e next occurs n last : schedule e = Some next -> cron_lawful next occurs ->
  let l := occurrences_after n e last in
  StronglySorted N.lt (last :: l) /\ Forall occurs l /\
  forall t, occurs t -> (last < t)%N -> t ∈ l \/ (length l = n /\ Forall (fun u => (u < t)%N) l).
Proof.
  intros Hs Hl. cbv zeta. revert last. induction n as [|n IH]; intros last; cbn [occurrences_after].
  { split_and!; [repeat constructor|constructor|]. intros t _ _. right. by split. }
  rewrite (next_of e next Hs). pose proof (Hl last) as Hlast. destruct (next last) as [u|].
  2:{ split_and!; [repeat constructor|constructor|]. intros t Ho Hlt. by destruct (Hlast t Hlt). }
  destruct Hlast as (Hlu & Hou & Hfirst). destruct (IH u) as (Hsort & Hall & Hcomplete). split_and!.
  - constructor; [done|]. constructor; [done|]. apply StronglySorted_inv in Hsort as [_ Hu]. rewrite Forall_forall in Hu |- *. intros x Hx. specialize (Hu x Hx). lia.
  - by constructor.
  - intros t Ho Hlt. destruct (N.lt_trichotomy t u) as [Htu|[->|Hut]]; [by destruct (Hfirst t Hlt)|left; by left|].
    destruct (Hcomplete t Ho Hut) as [Hin|[Hlen Hbelow]]; [left; by right|]. right. split; [cbn; congruence|by constructor].
Qed.

Lemma take_sorted (now : N) l : StronglySorted N.lt l ->
  let k := take_while (fun t => (t <? now)%N) l in
  StronglySorted N.lt k /\ (forall t, t ∈ k <-> t ∈ l /\ (t < now)%N) /\ (Forall (fun u => (u < now)%N) l -> k = l).
Proof.
  cbv zeta. induction l as [|x l IH]; intros Hs; cbn [take_while].
  { split_and!; [constructor| |done]. intros t. split; [intros Ht; by apply not_elem_of_nil in Ht|by intros [Ht _]]. }
  apply StronglySorted_inv in Hs as [Hs Hx]. destruct (IH Hs) as (H1 & H2 & H3). rewrite Forall_forall in Hx.
  destruct (N.ltb_spec x now) as [Hlt|Hge].
  - split_and!.
    + constructor; [done|]. apply Forall_forall. intros t Ht. apply Hx. by apply H2.
    + intros t. rewrite !elem_of_cons, H2. naive_solver.
    + intros Hall. apply Forall_cons in Hall as [_ Hall]. by rewrite H3.
  - split_and!; [constructor| |intros Hall; apply Forall_cons in Hall as [Hall _]; lia].
    intros t. split; [intros Ht; by apply not_elem_of_nil in Ht|]. intros [Ht Hlt]. apply elem_of_cons in Ht as [->|Ht]; [lia|].
    apply Hx in Ht. lia.
Qed.

Lemma backfill_logs now e ts (s : State) :
  fires (fold_left (fun s t => fire_ now e t s) ts s) = fires s ++ List.map (fun t => (entry_name e, t)) ts.
Proof.
  revert s. induction ts as [|t ts IH]; intros s; cbn [fold_left List.map]; [by rewrite app_nil_r|]. rewrite IH, fire_logs, <- app_assoc. done.
Qed.

(** Runs missed while the server was down are made up for as the schedule's policy says.  What is counted as
    missed are the first eleven occurrences at most between the last fire and now, in order and without gaps; skipping
    fires nothing and moves the last fire to now, running once fires once, for now, if anything was missed, and
    backfilling fires for the first ten of them, the oldest first. *)
Theorem missed_runs_follow_policy e next occurs last now (s : State) :
  schedule e = Some next -> cron_lawful next occurs -> is_active e = true ->
  read_last_fire data_dir decode_record (disk s) (entry_name e) = Some last ->
  let missed := missed_occurrences e last now in
  let s' := catch_up_ now s e in
  StronglySorted N.lt missed /\
  (forall t, t ∈ missed -> occurs t /\ (last < t)%N /\ (t < now)%N) /\
  (forall t, occurs t -> (last < t)%N -> (t < now)%N -> t ∈ missed \/ (length missed = 11%nat /\ Forall (fun u => (u < t)%N) missed)) /\
  fires s' = fires s ++ List.map (fun t => (entry_name e, t))
    match missed_policy (entry_config e) with
    | Skip => []
    | RunOnce => match missed with [] => [] | _ => [now] end
    | Backfill => firstn 10 missed
    end /\
  (missed_policy (entry_config e) = Skip -> missed <> [] -> writable (last_fire_path data_dir (entry_name e)) = true ->
   (forall t, decode_record (encode_record t) = Some t) -> read_last_fire data_dir decode_record (disk s') (entry_name e) = Some now).
Proof.
  intros Hs Hl Ha Hr. cbv zeta. destruct (after_spec e next occurs 11 last Hs Hl) as (Hsort & Hall & Hcomplete).
  apply StronglySorted_inv in Hsort as [Hsort Hlast]. rewrite Forall_forall in Hall, Hlast.
  destruct (take_sorted now _ Hsort) as (H1 & H2 & H3). fold (missed_occurrences e last now) in H1, H2, H3. split_and!; [done| | | |].
  - intros t Ht. apply H2 in Ht as [Ht Htn]. by split_and!; [apply Hall|apply Hlast|].
  - intros t Ho Hlt Htn. destruct (Hcomplete t Ho Hlt) as [Hin|[Hlen Hbelow]]; [left; by apply H2|]. right.
    rewrite H3; [done|]. apply Forall_forall. intros u Hu. rewrite Forall_forall in Hbelow. specialize (Hbelow u Hu). lia.
  - unfold catch_up. rewrite Ha, Hr. destruct (missed_occurrences e last now) as [|t l]; [by destruct (missed_policy _); rewrite app_nil_r|].
    destruct (missed_policy _); [cbn; by rewrite app_nil_r|apply fire_logs|apply backfill_logs].
  - intros Hp Hne Hw Hd. unfold catch_up. rewrite Ha, Hr. destruct (missed_occurrences e last now) as [|t l]; [done|]. rewrite Hp. cbn.
    unfold write_last_fire. rewrite Hw. cbn. unfold read_last_fire. rewrite lookup_insert_eq. apply Hd.
Qed.
End Theorems.

(** ** Examples *)

Section Examples.
#[local] Existing Instance ex_tasks_json.
#[local] Existing Instance Budget.N_decimal.

(** A schedule with an occurrence every ten. *)
Definition ex_next : Schedule := fun a => Some ((a / 10 + 1) * 10)%N.
Definition ex_occurs (t : N) : Prop := (t mod 10 = 0)%N.
Lemma ex_lawful : cron_lawful ex_next ex_occurs.
Proof.
  intros a. unfold ex_next, ex_occurs. cbv iota beta.
  assert (exists q m, a = 10 * q + m /\ m < 10 /\ a / 10 = q)%N as (q & m & -> & Hm & ->).
  { exists (a / 10)%N, (a mod 10)%N. split_and!; [apply N.div_mod; lia|apply N.mod_lt; lia|done]. }
  split_and!; [lia|by rewrite N.Div0.mod_mul|]. intros u Hau Hu Ho. pose proof (N.div_mod u 10 ltac:(lia)) as Hd. rewrite Ho in Hd.
  generalize dependent (u / 10)%N. intros v ->. lia.
Qed.
Definition ex_entry (policy : MissedPolicy) : ScheduleEntry :=
  {| entry_config := {| schedule_name := "digest"; cron := "* * * * *"; schedule_tenant := "acme"; schedule_task := "Sum it up."; schedule_agent_type := "coder";
                        missed_policy := policy; enabled := true |}; schedule := Some ex_next |}.
(** Times are written in unary. *)
Definition ex_encode (n : N) : str := repeat "i"%char (N.to_nat n).
Definition ex_decode (s : str) : option N := Some (N.of_nat (length s)).
Definition ex_supply (n : nat) : Fresh (list str) (list ToolApprovalResponse) :=
  {| fresh_id := "s" ++ dec (N.of_nat n); fresh_token := 100 + N.of_nat n; fresh_channels := ([], []) |}.
Definition ex_down (last : N) : @SchedulerState tree N (list str) (list ToolApprovalResponse) :=
  {| sched_engine := engine_new 1 100 3600; disk := {[last_fire_path "/data" "digest" := ex_encode last]}; fires := [] |}.
Abbreviation ex_run := (run (Decimal := N) ex_base64 ex_yaml (fun _ => None) ex_config ex_resolver "/data" ex_encode dec (fun _ => true) ex_supply).
Abbreviation ex_catch_up := (handle_missed_runs (Decimal := N) ex_base64 ex_yaml (fun _ => None) ex_config ex_resolver "/data" ex_encode ex_decode dec (fun _ => true) ex_supply).

(** The loop oversleeps 20 and 30, fires once for both and goes on. *)
Lemma no_occurrence_is_skipped_witness :
  exists fired, times_of "digest" (fires (snd (ex_run [ex_entry Skip] 11 [12; 35; 40]%N (ex_down 10)))) = fired /\ 35%N ∈ fired.
Proof.
  destruct (no_occurrence_is_skipped (Decimal := N) ex_base64 ex_yaml (fun _ => None) ex_config ex_resolver "/data" ex_encode dec (fun _ => true) ex_supply
    [ex_entry Skip] (ex_entry Skip) ex_next ex_occurs 11 [12; 35; 40]%N (ex_down 10)) as (fired & E & _ & Hc & _ & _).
  - repeat constructor. apply not_elem_of_nil.
  - by left.
  - done.
  - apply ex_lawful.
  - done.
  - repeat constructor; done.
  - exists fired. split; [exact E|]. destruct (Hc 20%N) as (w & Hw & Htw & Hfirst); [done|done|exists 35%N; split; [right; by left|done]|].
    assert (w <= 35)%N as Hle by (apply Hfirst; [right; by left|done]).
    pose proof (eq_sym E) as E'. vm_compute in E'. rewrite E' in Hw |- *. left.
Defined.

(** Three runs were missed. *)
Lemma missed_runs_follow_policy_witness :
  missed_occurrences (ex_entry Backfill) 10 45 = [20; 30; 40]%N /\
  fires (ex_catch_up 45 [ex_entry Backfill] (ex_down 10)) = [(lit "digest", 20%N); (lit "digest", 30%N); (lit "digest", 40%N)].
Proof.
  split; [vm_compute; reflexivity|].
  destruct (missed_runs_follow_policy (Decimal := N) ex_base64 ex_yaml (fun _ => None) ex_config ex_resolver "/data" ex_encode ex_decode dec (fun _ => true) ex_supply
    (ex_entry Backfill) ex_next ex_occurs 10 45 (ex_down 10) eq_refl ex_lawful eq_refl ltac:(vm_compute; reflexivity)) as (_ & _ & _ & E & _).
  exact E.
Defined.

(** An occurrence between catching up and the start of the loop is neither missed nor waited for. *)
Example occurrence_between_is_lost :
  let s := ex_catch_up 48 [ex_entry RunOnce] (ex_down 25) in
  fires (snd (ex_run [ex_entry RunOnce] 51 [60]%N s)) = [(lit "digest", 48%N); (lit "digest", 60%N)].
Proof. vm_compute. reflexivity. Qed.

(** A clock that was set back fires again for what has been fired. *)
Example clock_set_back_fires_again :
  fires (snd (ex_run [ex_entry Skip] 11 [20; 12; 20]%N (ex_down 10))) = [(lit "digest", 20%N); (lit "digest", 20%N)].
Proof. vm_compute. reflexivity. Qed.
End Examples.
